(* ===== verification/_CoqProject ===== *)
-Q . S2P
Prelude.v
Ring.v
Pow2Range.v
Pow2RangeFacts.v
Sched.v
SchedFacts.v
Sync.v
SyncFacts.v
SyncSched.v
Cbuf.v
CbufFacts.v
Timer.v
TimerFacts.v
HashTable.v
Futex.v
FutexFacts.v
StateTracker.v
StateTrackerFacts.v
MsgPipe.v
MsgPipeFacts.v
DataPipe.v
DataPipeFacts.v
Handles.v
HandlesFacts.v
CString.v
CStringFacts.v
Qsort.v
QsortFacts.v
IoPort.v
IoPortFacts.v
WaitSet.v
WaitSetFacts.v
Heap.v
HeapLists.v
HeapRanges.v
HeapAlloc.v
HeapGrow.v
HeapFree.v
HeapFacts.v
Pmm.v
PmmFacts.v
VmObject.v
VmObjectFacts.v
VmAspace.v
VmAspaceFacts.v
X86Mmu.v
X86Tables.v
X86Entries.v
X86MmuFacts.v
X86Aspaces.v
