(* ===== verification/Prelude.v ===== *)
(** * A verification development of the Magenta kernel

    Magenta is a kernel in C and C++ that grew out of LK.  This library models parts
    of it that carry state, from the scheduler up to the kernel objects, and proves
    what they promise.  All paths are under [src/kernel/].

    ** The parts and how they interact

    Threads run on several processors, chosen from run queues, and block on wait
    queues.  Events, mutexes, semaphores and condition variables are built on wait
    queues; circular buffers, state trackers, I/O ports, wait sets and futexes on
    those.  A kernel object that can be waited on has a state tracker, whose observers
    signal waiting threads, queue packets on a port or trigger an entry of a wait set.
    Message pipes and data pipes are such objects.  Processes name objects by handles,
    which live in an arena.  Physical memory is arenas of pages; an object of virtual
    memory owns pages and gives them to the regions of address spaces that map it.  The
    kernel heap takes its pages from an allocator of pages; the range allocator, the
    timers and the C library stand on their own.

    A component is a file with its definitions and, in most cases, a second one,
    [...Facts], with its invariant, lemmas and theorems; each holds a [Module] of
    the name of the file, or of the component.

    - [Prelude]: machine integers, status codes, assertions, the allocation oracle,
      tactics, hints and lemmas that the components share.  [Ring]: the bytes of a
      ring buffer as a list, for the circular buffers and the data pipes.
    - [Pow2Range]: [lib/pow2_range_allocator/pow2_range_allocator.c].
    - [Sched]: [kernel/thread.c], the threads, run queues and wait queues.  The state
      is [kstate]; an operation is a critical section of the thread lock.
    - [Sync]: [kernel/{event,mutex,semaphore,cond}.c] over the class [WaitOps] of wait
      queues.  [SyncFacts] proves its theorems against the class [WaitSpec], and
      [SyncSched] shows that [Sched] satisfies it.
    - [Cbuf]: [lib/cbuf/cbuf.c], over the events of [Sync].
    - [Timer]: [kernel/timer.c].
    - [HashTable]: [lib/utils/include/utils/intrusive_hash_table.h].
    - [Futex]: [lib/magenta/{futex_context,futex_node}.cpp], over [HashTable].
    - [StateTracker]: [lib/magenta/{state_tracker,wait_state_observer,wait_event}.cpp].
      The tracker calls observers through the class [StateObserver]; the objects
      that own trackers are verified against the class [TrackerSpec].
    - [MsgPipe]: [lib/magenta/{msg_pipe,msg_pipe_dispatcher}.cpp].
    - [DataPipe]: [lib/magenta/data_pipe.cpp].
    - [Handles]: [lib/utils/arena.cpp], [lib/magenta/{handle,dispatcher,magenta}.cpp],
      the handle table of [process_dispatcher.cpp] and the system calls that close
      and duplicate a handle.
    - [CString], [Qsort]: [lib/libc/string/*.c], [bsearch.c] and [qsort.c].
    - [IoPort]: [lib/magenta/{io_port_dispatcher,io_port_observer}.cpp].
    - [WaitSet]: [lib/magenta/wait_set_dispatcher.cpp], entries as an instance of
      [StateObserver].
    - [Heap]: [lib/heap/cmpctmalloc/cmpctmalloc.c] and [lib/heap/heap_wrapper.c], on a
      memory of 64-bit words.  The proofs are in [HeapLists] (the free lists),
      [HeapRanges] (blocks and what lies between them), [HeapAlloc], [HeapGrow],
      [HeapFree], and the theorems in [HeapFacts].
    - [Pmm]: [kernel/vm/{pmm,bootalloc}.cpp] and parts of [vm.cpp], the allocator of
      physical pages.
    - [VmObject]: [kernel/vm/vm_object.cpp], over [Pmm] and the bytes of the pages.
      Copies to user space are verified against the class [UserCopy].
    - [VmAspace]: [kernel/vm/{vm_aspace,vm_region,vmm}.cpp], over [VmObject] and the
      class [ArchMmu] of the memory management unit, with the laws [ArchMmuSpec].
    - [X86Mmu]: [arch/x86/mmu.cpp], the page tables of 64-bit processors, over [Pmm].  The
      proofs are in [X86Tables] (the tree of tables), [X86Entries] (changes of an entry),
      [X86MmuFacts] (the functions for the levels), and the theorems in [X86Aspaces].

    ** How code becomes definitions

    A C integer is a [Z], wrapped at its width where the expression can leave it.
    An operation that can fail an assertion, panic or follow a bad pointer returns
    an [option], [None] in that case; a status is the [Z] the code returns.  Each
    allocation takes an answer from an oracle.  An operation that holds a lock for
    its whole length is one step.  One that gives the lock up or blocks is split
    there: the first part returns [Wait] or [Blocked], the rest is a definition
    [..._resume].  Answers of code outside the model (copies from and to user memory,
    mappings, the platform) are arguments, callbacks are parameters.

    ** What the theorems show

    - Range allocator: the free and the allocated blocks partition the ranges in
      every reachable state; each operation meets its specification on every branch;
      a free undoes an allocation exactly; which ranges cannot be added.
    - Scheduler: an invariant of queues, counts, thread states and processors; no
      operation panics when called as the code expects; the thread that runs has the
      highest priority; wait queues are first in, first out.
    - Synchronisation: mutual exclusion, the bound on the units of a semaphore, no
      lost wakeups in the absence of finite timeouts, the atomicity of a condition
      wait; with finite timeouts, runs in which a wakeup is lost.
    - Circular buffers, data pipes, futexes and I/O ports refine queues; message
      pipes deliver in order; no thread waits for a state that its object has.
    - Timers: a tick ends and fires exactly what is due, in order.
    - Handles: a value names exactly the handles of its process, and duplicates have
      no new rights.
    - Wait sets: an entry is on the list of triggered entries exactly if it is to be
      reported, no thread sleeps through that, a wait answers with the right entries,
      and the destructor leaves no observer behind.
    - Heap: an invariant of blocks, headers and free lists; an allocation is a block of
      the size asked for, apart from all others; a release gives the block back, merged
      with its neighbours; aligned allocation and reallocation.
    - Physical pages: every page is free and on one list, or in use, in every reachable
      state; the search for a run of pages finds the first one; a release undoes an
      allocation.
    - Virtual memory objects refine arrays of bytes that start with zeros; a write is
      read back; a page belongs to one object at most; what a commitment does on every
      branch.
    - Address spaces: regions are sorted and apart, the search for a place finds the
      lowest; every mapping shows the page of the object behind it, and a page fault
      establishes this; nothing is left when an address space is destroyed.
    - Page tables: mapping, unmapping and changing the flags of a range change the
      translations of its pages and no others, with a bound on the pages they need for
      tables; every change is invalidated on the processors; address spaces share no
      table and do not see the changes of each other.  They meet the laws of [ArchMmuSpec]
      with two exceptions: flags are returned as the tables can represent them, and a
      range that starts inside of an entry that is not present is not all unmapped.
    - C library: word-wise routines equal byte-wise ones, the string routines do what
      their names promise, the sort sorts.

    Some theorems are about states in which the code does not do what it means to:
    overruns of a circular buffer and of [strlcat], uses of a dropped memory object, a
    port that leaves a thread asleep, large blocks of the heap and its trimming, the
    commitment of a range that is partly committed, a page that unmapping leaves mapped.

    ** Bounds and fuel

    A loop that is not structural recurses on fuel that its caller chooses; running
    out is [None] ([shrink] and [grow] stop instead, after more turns than a chunk can
    be halved or doubled), and the theorems that an operation succeeds show that it
    does not happen.  The allocator's recursions are bounded by the number of buckets, the
    loops over bucket sizes by 33, one more than the width, and the loop over a range
    by its length, as each turn removes at least one integer.  The search of the run
    queues clears a bit of a 32-bit bitmap each turn: 33.  A walk of a list of nodes
    is bounded by the size of the heap.  A write to a circular buffer moves at least
    a byte each turn, a read at most twice.  A tick has one turn more than the queue
    has timers.  A loop over a string reads a new address each turn, so the number of
    mapped addresses and one is enough.  The depth of the sort and the turns of its
    partition are bounded by the number of elements; the theorem needs the size of the
    array in bytes to be below [2^31], because the code keeps it in an [int].  The heap
    halves a request for pages at most 23 times, and holds less than 4 gigabytes, as
    one of its assertions demands.  The search for a run of pages and the walk of a
    range of pages go on by at least a page each turn, so the pages of the arena and one
    are enough, and so are the pages of the range for the loops over an object or a
    region; a transfer also has a turn for each of its ends.  Arenas have less than
    [2^32] pages together, because the code counts them in an [uint].  The loops over a
    page table go from the entry of an address to the last of the 512.  The theorems about
    page tables need addresses of 48 bits, the range below the hole of the address range,
    and physical addresses of at most 52 bits, the width that an entry has.  The
    theorems about timers need all times within [2^31] milliseconds of each other.

    ** What is not modelled

    Locks are not represented apart from the steps they delimit, nor are caches and
    weak memory.  Of the threads: stacks, names, thread-local storage, statistics and
    the start of secondary processors.  Of virtual memory: the set-up at boot, the
    switch of the active address space, the permissions for ports, dumps and commands.
    Not modelled at all: kernel ports, the other heaps, block devices, logging, processes
    and the other kernel objects, and most system calls; the rest of the architecture,
    the platform and driver code, which is about hardware; printing and consoles, which are output; user-space programs
    and third-party code, which are outside the kernel. *)

From stdpp Require Import base tactics numbers list list_numbers gmap fin_maps sets sorting.
From Stdlib Require Import ZArith Lia.

#[global] Set Default Goal Selector "!".

(** ** Machine integers

    A [uint]/[uint32_t] of the source is a [Z] in [0, 2^32), a
    [uint64_t]/[size_t] a [Z] in [0, 2^64); arithmetic whose result may leave
    the range is wrapped with [u32]/[u64] where the C expression wraps. *)

Declare Scope machine_scope.
Delimit Scope machine_scope with mach.
#[local] Open Scope Z_scope.

Definition u32 (x : Z) : Z := x mod 2 ^ 32.
Definition u64 (x : Z) : Z := x mod 2 ^ 64.

(** [int32_t] conversion: the representative in [-2^31, 2^31). *)
Definition i32 (x : Z) : Z := (x + 2 ^ 31) mod 2 ^ 32 - 2 ^ 31.

Definition is_u32 (x : Z) : Prop := 0 ≤ x < 2 ^ 32.
Definition is_u64 (x : Z) : Prop := 0 ≤ x < 2 ^ 64.

Notation "x '+u' y" := (u32 (x + y)) (at level 50, left associativity) : machine_scope.
Notation "x '-u' y" := (u32 (x - y)) (at level 50, left associativity) : machine_scope.
Notation "x '<<u' n" := (u32 (Z.shiftl x n)) (at level 50, left associativity) : machine_scope.

(** ** Status codes: [global/fuchsia-types.h] and [kernel/include/err.h] *)

Definition NO_ERROR : Z := 0.
Definition ERR_INTERNAL : Z := -1.
Definition ERR_NOT_SUPPORTED : Z := -2.
Definition ERR_NOT_FOUND : Z := -3.
Definition ERR_NO_MEMORY : Z := -4.
Definition ERR_NO_RESOURCES : Z := -5.
Definition ERR_INVALID_ARGS : Z := -10.
Definition ERR_BAD_HANDLE : Z := -12.
Definition ERR_OUT_OF_RANGE : Z := -13.
Definition ERR_NOT_ENOUGH_BUFFER : Z := -14.
Definition ERR_ALREADY_EXISTS : Z := -15.
Definition ERR_BAD_STATE : Z := -20.
Definition ERR_NOT_READY : Z := -22.
Definition ERR_TIMED_OUT : Z := -23.
Definition ERR_CANCELLED : Z := -24.
Definition ERR_CHANNEL_CLOSED : Z := -25.
Definition ERR_NOT_AVAILABLE : Z := -26.
Definition ERR_ACCESS_DENIED : Z := -30.
Definition ERR_WRONG_TYPE : Z := -54.
Definition ERR_TOO_BIG : Z := -92.
Definition ERR_NOT_BLOCKED : Z := -96.
Definition ERR_THREAD_DETACHED : Z := -97.
Definition ERR_BUSY : Z := -99.
Definition ERR_INTERRUPTED : Z := -502.

(** [kernel/include/sys/types.h]: [INFINITE_TIME] is [UINT32_MAX]. *)
Definition INFINITE_TIME : Z := 2 ^ 32 - 1.

(** ** Failure and memory

    A failed assertion or a panic is [None].  Every [malloc] or [calloc]
    consumes one element of an oracle, which says whether it returns memory. *)

Notation "'ASSERT' b ; k" := (if b then k else None) (at level 10, b at level 100, k at level 200,
  format "'ASSERT'  b ;  '/' k").

Definition mem := list bool.
Definition alloc (m : mem) : bool * mem :=
  match m with [] => (false, []) | ok :: m' => (ok, m') end.

(** A copy to or from a buffer of memory; [None] is an access outside it. *)
Definition zlen {A} (l : list A) : Z := Z.of_nat (length l).

Definition read_at {A} (pos n : Z) (buf : list A) : option (list A) :=
  if (0 <=? pos) && (0 <=? n) && (pos + n <=? zlen buf)
  then Some (take (Z.to_nat n) (drop (Z.to_nat pos) buf)) else None.

Definition write_at {A} (pos : Z) (d buf : list A) : option (list A) :=
  if (0 <=? pos) && (pos + zlen d <=? zlen buf)
  then Some (take (Z.to_nat pos) buf ++ d ++ drop (Z.to_nat pos + length d) buf) else None.

(** ** Powers of two: [kernel/include/pow2.h] *)

Definition ispow2 (val : Z) : bool := Z.land (u32 (val - 1)) val =? 0.

Definition log2_uint (val : Z) : Z := if val =? 0 then 0 else Z.log2 val.

Definition valpow2 (valp2 : Z) : Z := u32 (Z.shiftl 1 valp2).

Definition modpow2 (val modp2 : Z) : Z := Z.land val (u32 (u32 (Z.shiftl 1 modp2) - 1)).

(** ** Automation *)

Create HintDb mach.
#[export] Hint Constants Opaque : mach.

(** Case analysis on the booleans comparisons and the [option] matches of a
    goal or hypothesis, keeping the equations. *)
Ltac zb :=
  repeat match goal with
  | H : (_ <? _) = true |- _ => apply Z.ltb_lt in H
  | H : (_ <? _) = false |- _ => apply Z.ltb_ge in H
  | H : (_ <=? _) = true |- _ => apply Z.leb_le in H
  | H : (_ <=? _) = false |- _ => apply Z.leb_gt in H
  | H : (_ =? _) = true |- _ => apply Z.eqb_eq in H
  | H : (_ =? _) = false |- _ => apply Z.eqb_neq in H
  | H : (_ && _)%bool = true |- _ => apply andb_prop in H; destruct H
  | H : (_ || _)%bool = false |- _ => apply orb_false_elim in H; destruct H
  | H : negb _ = true |- _ => apply negb_true_iff in H
  | H : negb _ = false |- _ => apply negb_false_iff in H
  end.

(** Case analysis on the comparisons of a goal, then linear arithmetic. *)
Ltac zcase :=
  repeat match goal with
  | |- context [?a <? ?b] => let E := fresh "Ez" in destruct (a <? b) eqn:E
  | |- context [?a <=? ?b] => let E := fresh "Ez" in destruct (a <=? b) eqn:E
  | |- context [?a =? ?b] => let E := fresh "Ez" in destruct (a =? b) eqn:E
  end; zb; intros; try lia.

Ltac case_ifs :=
  repeat match goal with
  | |- context [if ?b then _ else _] => let E := fresh "Eif" in destruct b eqn:E
  | H : context [if ?b then _ else _] |- _ => let E := fresh "Eif" in destruct b eqn:E
  end.

(** ** Shared lemmas: machine integers *)

Lemma u32_range x : is_u32 (u32 x).
Proof. unfold is_u32, u32. apply Z.mod_pos_bound. lia. Qed.

Lemma u64_range x : is_u64 (u64 x).
Proof. unfold is_u64, u64. apply Z.mod_pos_bound. lia. Qed.

Lemma u32_id x : is_u32 x → u32 x = x.
Proof. intros H. apply Z.mod_small, H. Qed.

Lemma u64_id x : is_u64 x → u64 x = x.
Proof. intros H. apply Z.mod_small, H. Qed.

#[export] Hint Resolve u32_range u64_range : mach.

Lemma pow2_pos k : 0 ≤ k → 0 < 2 ^ k.
Proof. intros. apply Z.pow_pos_nonneg; lia. Qed.

Lemma pow2_succ k : 0 ≤ k → 2 ^ (k + 1) = 2 * 2 ^ k.
Proof. intros. rewrite Z.add_1_r, Z.pow_succ_r by lia. reflexivity. Qed.

Lemma pow2_le a b : 0 ≤ a ≤ b → 2 ^ a ≤ 2 ^ b.
Proof. intros. apply Z.pow_le_mono_r; lia. Qed.

Lemma pow2_lt a b : 0 ≤ a < b → 2 ^ a < 2 ^ b.
Proof. intros. apply Z.pow_lt_mono_r; lia. Qed.

Lemma valpow2_pow k : 0 ≤ k < 32 → valpow2 k = 2 ^ k.
Proof.
  intros. unfold valpow2. rewrite Z.shiftl_1_l. apply u32_id. split.
  - pose proof (pow2_pos k). lia.
  - apply pow2_lt. lia.
Qed.

Lemma modpow2_mod v k : 0 ≤ k < 32 → modpow2 v k = v mod 2 ^ k.
Proof.
  intros. unfold modpow2. change (u32 (Z.shiftl 1 k)) with (valpow2 k).
  rewrite valpow2_pow by lia. pose proof (pow2_pos k). pose proof (pow2_lt k 32).
  rewrite u32_id by (unfold is_u32; lia).
  rewrite <- Z.land_ones, Z.ones_equiv by lia. reflexivity.
Qed.

(** [x & (2^k - 1)], the alignment test of the sources. *)
Lemma land_ones_mod x k : 0 ≤ k → Z.land x (2 ^ k - 1) = x mod 2 ^ k.
Proof. intros. rewrite <- Z.land_ones, Z.ones_equiv by lia. reflexivity. Qed.

Lemma ispow2_spec v : 0 < v < 2 ^ 32 → ispow2 v = true ↔ v = 2 ^ Z.log2 v.
Proof.
  intros Hv. unfold ispow2. rewrite u32_id by (unfold is_u32; lia).
  pose proof (Z.log2_spec v ltac:(lia)) as [Hlo Hhi]. pose proof (Z.log2_nonneg v) as Hk.
  set (k := Z.log2 v) in *. rewrite Z.eqb_eq. split.
  - intros Hand. destruct (Z.eq_dec v (2 ^ k)) as [|Hne]; [done|exfalso].
    assert (Hbit : Z.testbit (Z.land (v - 1) v) k = true).
    { rewrite Z.land_spec. apply andb_true_intro. rewrite !Z.testbit_true by lia.
      replace (2 ^ Z.succ k) with (2 * 2 ^ k) in Hhi by (rewrite Z.pow_succ_r; lia).
      rewrite <- (Z.div_unique (v - 1) (2 ^ k) 1 (v - 1 - 2 ^ k)) by lia.
      rewrite <- (Z.div_unique v (2 ^ k) 1 (v - 2 ^ k)) by lia. done. }
    rewrite Hand, Z.bits_0 in Hbit. done.
  - intros Heq. rewrite Z.land_comm. replace (v - 1) with (2 ^ k - 1) by lia.
    rewrite land_ones_mod by lia. rewrite Heq at 1. apply Z_mod_same_full.
Qed.

Lemma log2_uint_pow2 k : 0 ≤ k → log2_uint (2 ^ k) = k.
Proof.
  intros. unfold log2_uint. pose proof (pow2_pos k).
  destruct (2 ^ k =? 0) eqn:E; zb; [lia|]. by rewrite Z.log2_pow2.
Qed.

(** The index of a ring buffer that has moved by less than its size. *)
Lemma mod_case x s : 0 < s → 0 ≤ x < 2 * s → x mod s = if x <? s then x else x - s.
Proof.
  intros Hs Hx. destruct (x <? s) eqn:E; zb; [apply Z.mod_small; lia|].
  symmetry. apply (Z.mod_unique_pos _ _ 1); lia.
Qed.

Lemma mod_case_neg x s : 0 < s → - s < x < s → x mod s = if x <? 0 then x + s else x.
Proof.
  intros Hs Hx. destruct (x <? 0) eqn:E; zb; [|apply Z.mod_small; lia].
  symmetry. apply (Z.mod_unique_pos _ _ (-1)); lia.
Qed.

(** ** Shared lemmas: lists *)

Lemma seqZ_split s m n : 0 ≤ m → 0 ≤ n → seqZ s (m + n) = seqZ s m ++ seqZ (s + m) n.
Proof. intros. by rewrite seqZ_app by lia. Qed.

Lemma list_lookup_Z_lt {A} (l : list A) i : 0 ≤ i < Z.of_nat (length l) → is_Some (l !! Z.to_nat i).
Proof. intros. apply lookup_lt_is_Some. lia. Qed.

Lemma zlen_nonneg {A} (l : list A) : 0 ≤ zlen l.
Proof. unfold zlen. lia. Qed.
Lemma zlen_app {A} (l1 l2 : list A) : zlen (l1 ++ l2) = zlen l1 + zlen l2.
Proof. unfold zlen. rewrite length_app. lia. Qed.
Lemma zlen_take {A} (l : list A) n : 0 ≤ n → zlen (take (Z.to_nat n) l) = Z.min n (zlen l).
Proof. intros. unfold zlen. rewrite length_take. lia. Qed.
Lemma zlen_drop {A} (l : list A) n : 0 ≤ n → zlen (drop (Z.to_nat n) l) = Z.max 0 (zlen l - n).
Proof. intros. unfold zlen. rewrite length_drop. lia. Qed.

Lemma read_at_Some {A} pos n (buf : list A) :
  0 ≤ pos → 0 ≤ n → pos + n ≤ zlen buf → read_at pos n buf = Some (take (Z.to_nat n) (drop (Z.to_nat pos) buf)).
Proof.
  intros. unfold read_at. rewrite !(proj2 (Z.leb_le _ _)) by lia. done.
Qed.

Lemma read_at_zlen {A} pos n (buf d : list A) : read_at pos n buf = Some d → zlen d = n.
Proof.
  unfold read_at. destruct ((0 <=? pos) && (0 <=? n) && (pos + n <=? zlen buf))%bool eqn:E; [|done].
  intros [= <-]. zb. rewrite zlen_take, zlen_drop by lia. lia.
Qed.

(** What a write leaves: the new bytes in its range, the old ones elsewhere. *)
Lemma write_at_Some {A} pos (d buf : list A) :
  0 ≤ pos → pos + zlen d ≤ zlen buf → ∃ buf', write_at pos d buf = Some buf' ∧ length buf' = length buf ∧
    ∀ i, buf' !! i = if decide (Z.to_nat pos ≤ i < Z.to_nat pos + length d)%nat
                     then d !! (i - Z.to_nat pos)%nat else buf !! i.
Proof.
  intros Hp Hl. unfold write_at. rewrite !(proj2 (Z.leb_le _ _)) by lia. cbn [andb].
  eexists. split; [done|]. unfold zlen in Hl. split.
  - rewrite !length_app, length_take, length_drop. lia.
  - intros i. case_decide as Hi.
    + rewrite lookup_app_r, lookup_app_l by (rewrite length_take; lia). f_equal. rewrite length_take. lia.
    + destruct (decide (i < Z.to_nat pos)%nat).
      * rewrite lookup_app_l by (rewrite length_take; lia). by rewrite lookup_take_lt by lia.
      * rewrite lookup_app_r, lookup_app_r by (rewrite ?length_take; lia). rewrite lookup_drop, length_take. f_equal. lia.
Qed.

Lemma filter_all {A} (P : A → Prop) `{∀ x, Decision (P x)} (l : list A) : (∀ x, x ∈ l → P x) → filter P l = l.
Proof.
  induction l as [|y l IH]; intros Hl; [done|]. rewrite filter_cons, decide_True by (apply Hl; set_solver).
  f_equal. apply IH. intros x Hx. apply Hl. set_solver.
Qed.

Lemma filter_none {A} (P : A → Prop) `{∀ x, Decision (P x)} (l : list A) : (∀ x, x ∈ l → ¬ P x) → filter P l = [].
Proof.
  induction l as [|y l IH]; intros Hl; [done|]. rewrite filter_cons, decide_False by (apply Hl; set_solver).
  apply IH. intros x Hx. apply Hl. set_solver.
Qed.

Lemma filter_ext_in {A} (P Q : A → Prop) `{∀ x, Decision (P x)} `{∀ x, Decision (Q x)} (l : list A) :
  (∀ x, x ∈ l → P x ↔ Q x) → filter P l = filter Q l.
Proof.
  induction l as [|y l IH]; intros Hl; [done|]. rewrite !filter_cons.
  rewrite (decide_ext (P y) (Q y)) by (apply Hl; set_solver). rewrite IH by (intros x Hx; apply Hl; set_solver). done.
Qed.

(** A list without the occurrences of an element. *)
Lemma filter_ne_id {A} `{EqDecision A} (x : A) (l : list A) : x ∉ l → filter (λ y, y ≠ x) l = l.
Proof. induction l as [|y l IH]; intros Hx; [done|]. apply not_elem_of_cons in Hx as [Hy Hx]. rewrite filter_cons_True by congruence. by rewrite IH. Qed.

Lemma filter_ne_zlen {A} `{EqDecision A} (x : A) (l : list A) : NoDup l → x ∈ l → zlen (filter (λ y, y ≠ x) l) = zlen l - 1.
Proof.
  unfold zlen. induction l as [|y l IH]; intros Hnd Hx; [by apply not_elem_of_nil in Hx|]. apply list.NoDup_cons in Hnd as [Hy Hnd]. destruct (decide (y = x)) as [->|Hne].
  - rewrite filter_cons_False by tauto. rewrite filter_ne_id by done. cbn [length]. lia.
  - rewrite filter_cons_True by done. apply elem_of_cons in Hx as [->|Hx]; [done|]. cbn [length]. specialize (IH Hnd Hx). lia.
Qed.
