(* ===== verification/Ring.v ===== *)
(** * Ring buffers

    The bytes of a ring buffer as the list they stand for: [ring v r n] are the
    [n] elements of [v] from index [r] on, past the end from the start again.  The
    lemmas say what stores and index moves do to that list. *)

From stdpp Require Import base tactics numbers list.
From Stdlib Require Import ZArith Lia.
From S2P Require Import Prelude.
#[local] Open Scope Z_scope.

Definition ring {A} (v : list A) (r n : Z) : list A := take (Z.to_nat n) (drop (Z.to_nat r) v ++ take (Z.to_nat r) v).

Section ring.
Context {A : Type}.
Implicit Types (v d : list A).

Lemma ring_lookup v r n i :
  0 ≤ r < zlen v → 0 ≤ n ≤ zlen v →
  ring v r n !! i = if decide (Z.of_nat i < n) then v !! Z.to_nat ((r + Z.of_nat i) mod zlen v) else None.
Proof.
  intros Hr Hn. unfold ring. case_decide as Hi.
  - rewrite lookup_take_lt by lia. rewrite mod_case by lia. unfold zlen in *. destruct (_ <? _) eqn:E; zb.
    + rewrite lookup_app_l by (rewrite length_drop; lia). rewrite lookup_drop. f_equal. lia.
    + rewrite lookup_app_r by (rewrite length_drop; lia). rewrite length_drop, lookup_take_lt by lia. f_equal. lia.
  - apply lookup_ge_None_2. rewrite length_take. lia.
Qed.

Lemma ring_zlen v r n : 0 ≤ r < zlen v → 0 ≤ n ≤ zlen v → zlen (ring v r n) = n.
Proof.
  intros Hr Hn. unfold ring. rewrite zlen_take by lia. rewrite zlen_app, zlen_drop, zlen_take by lia. lia.
Qed.

Lemma ring_length v r n : 0 ≤ r < zlen v → 0 ≤ n ≤ zlen v → length (ring v r n) = Z.to_nat n.
Proof. intros Hr Hn. pose proof (ring_zlen v r n Hr Hn) as E. unfold zlen in E. lia. Qed.

(** A store at the write index appends. *)
Lemma ring_push v r n d v' :
  0 ≤ r < zlen v → 0 ≤ n → n + zlen d ≤ zlen v → (r + n) mod zlen v + zlen d ≤ zlen v →
  write_at ((r + n) mod zlen v) d v = Some v' → zlen v' = zlen v ∧ ring v' r (n + zlen d) = ring v r n ++ d.
Proof.
  intros Hr Hn Hsp Hfit Hw. pose proof (zlen_nonneg d) as Hd. pose proof (Z.mod_pos_bound (r + n) (zlen v) ltac:(lia)) as Hm.
  destruct (write_at_Some ((r + n) mod zlen v) d v) as (v2 & E & Hlen & Hlook); [lia|lia|]. rewrite Hw in E. injection E as <-.
  assert (Hz : zlen v' = zlen v) by (unfold zlen; by rewrite Hlen). split; [done|]. apply list_eq. intros i.
  rewrite ring_lookup by (rewrite ?Hz; lia). pose proof (ring_length v r n ltac:(lia) ltac:(lia)) as Hl.
  assert (Hdl : zlen d = Z.of_nat (length d)) by done. case_decide as Hi.
  - rewrite Hlook, Hz. destruct (decide (Z.of_nat i < n)) as [Hin|Hin].
    + rewrite lookup_app_l by lia. rewrite ring_lookup by lia. rewrite (decide_True (P := Z.of_nat i < n)) by lia. rewrite decide_False; [done|].
      revert Hfit Hm. rewrite !mod_case by lia. zcase.
    + rewrite lookup_app_r by lia. rewrite decide_True.
      * f_equal. revert Hfit Hm. rewrite !mod_case by lia. zcase.
      * revert Hfit Hm. rewrite !mod_case by lia. zcase.
  - symmetry. apply lookup_ge_None_2. rewrite length_app. lia.
Qed.

(** A store in the free part changes nothing. *)
Lemma ring_store v r n w pos d v' :
  0 ≤ r < zlen v → 0 ≤ n → n + w ≤ zlen v → (r + n) mod zlen v + w ≤ zlen v →
  (r + n) mod zlen v ≤ pos → pos + zlen d ≤ (r + n) mod zlen v + w →
  write_at pos d v = Some v' → zlen v' = zlen v ∧ ring v' r n = ring v r n.
Proof.
  intros Hr Hn Hsp Hfit Hlo Hhi Hw. pose proof (zlen_nonneg d) as Hd. pose proof (Z.mod_pos_bound (r + n) (zlen v) ltac:(lia)) as Hm.
  destruct (write_at_Some pos d v) as (v2 & E & Hlen & Hlook); [lia|lia|]. rewrite Hw in E. injection E as <-.
  assert (Hz : zlen v' = zlen v) by (unfold zlen; by rewrite Hlen). split; [done|]. apply list_eq. intros i.
  assert (Hdl : zlen d = Z.of_nat (length d)) by done.
  assert (0 ≤ w) by lia. rewrite (ring_lookup v), (ring_lookup v') by (rewrite ?Hz; lia). case_decide as Hi; [|done]. rewrite Hlook, Hz, decide_False; [done|].
  revert Hfit Hm Hlo Hhi. rewrite !mod_case by lia. zcase.
Qed.

(** Moving the read index takes from the front. *)
Lemma ring_pop v r n k :
  0 ≤ r < zlen v → 0 ≤ k ≤ n → n ≤ zlen v → ring v ((r + k) mod zlen v) (n - k) = drop (Z.to_nat k) (ring v r n).
Proof.
  intros Hr Hk Hn. pose proof (Z.mod_pos_bound (r + k) (zlen v) ltac:(lia)) as Hm. apply list_eq. intros i.
  rewrite lookup_drop, !ring_lookup by lia. repeat case_decide; [|lia|lia|done]. f_equal. f_equal.
  rewrite Zplus_mod_idemp_l. f_equal. lia.
Qed.

(** Reading at the read index, up to the end of the buffer, reads the front. *)
Lemma ring_read v r n k :
  0 ≤ r < zlen v → 0 ≤ k ≤ n → n ≤ zlen v → r + k ≤ zlen v → read_at r k v = Some (take (Z.to_nat k) (ring v r n)).
Proof.
  intros Hr Hk Hn Hfit. rewrite read_at_Some by lia. f_equal. unfold ring. rewrite take_take, Nat.min_l by lia.
  rewrite take_app_le; [done|]. rewrite length_drop. unfold zlen in *. lia.
Qed.

End ring.
