(* ===== verification/Pow2Range.v ===== *)
(** * The power-of-two range allocator

    [src/kernel/lib/pow2_range_allocator/pow2_range_allocator.c].  A pool of
    integers (MSI interrupt numbers, in the kernel) is kept as power-of-two
    sized and aligned blocks, in one sorted free list per size.  Intrusive
    [list_node] lists are [list]s, [uint]s are [Z]s wrapped with [u32]; a
    [DEBUG_ASSERT] that fails (debug level 2 is the default of
    [kernel/engine.mk]) makes the operation return [None].  Every [malloc] or
    [calloc] consumes one element of an oracle [mem], which says whether that
    call returns memory; the null checks of pointers that the model passes by
    value are not represented. *)

From stdpp Require Import base tactics numbers list list_numbers sorting sets.
From Stdlib Require Import ZArith Lia.
From S2P Require Import Prelude.
#[local] Open Scope Z_scope.

Module P2RA.

(** ** Data *)

Record p2ra_block := mk_block { bucket : Z; start : Z }.
Record p2ra_range := mk_range { r_start : Z; r_len : Z }.

Record p2ra_state := mk_state {
  ranges : list p2ra_range;
  unused_blocks : list p2ra_block;
  allocated_blocks : list p2ra_block;
  free_block_buckets : list (list p2ra_block);
  bucket_count : Z
}.

#[global] Instance p2ra_block_eq_dec : EqDecision p2ra_block.
Proof. solve_decision. Defined.
#[global] Instance p2ra_range_eq_dec : EqDecision p2ra_range.
Proof. solve_decision. Defined.

Definition set_unused (s : p2ra_state) (l : list p2ra_block) : p2ra_state :=
  mk_state (ranges s) l (allocated_blocks s) (free_block_buckets s) (bucket_count s).
Definition set_allocated (s : p2ra_state) (l : list p2ra_block) : p2ra_state :=
  mk_state (ranges s) (unused_blocks s) l (free_block_buckets s) (bucket_count s).
Definition set_bucket (s : p2ra_state) (i : Z) (l : list p2ra_block) : p2ra_state :=
  mk_state (ranges s) (unused_blocks s) (allocated_blocks s)
    (<[Z.to_nat i := l]> (free_block_buckets s)) (bucket_count s).
Definition add_ranges (s : p2ra_state) (r : p2ra_range) : p2ra_state :=
  mk_state (ranges s ++ [r]) (unused_blocks s) (allocated_blocks s)
    (free_block_buckets s) (bucket_count s).

(** [1u << n] *)
Definition shl1 (n : Z) : Z := u32 (Z.shiftl 1 n).

(** ** Operations *)

Definition p2ra_get_unused_block (s : p2ra_state) (m : mem) : option p2ra_block * p2ra_state * mem :=
  match unused_blocks s with
  | b :: r => (Some b, set_unused s r, m)
  | [] => let '(ok, m') := alloc m in
          (if ok then Some (mk_block 0 0) else None, s, m')
  end.

(** The scan for the block that comes after [b]: [pre] is what was passed,
    nearest first. *)
Fixpoint insert_scan (b : p2ra_block) (pre l : list p2ra_block)
  : option (list p2ra_block * list p2ra_block) :=
  match l with
  | [] => Some (pre, [])
  | after :: l' =>
      if (start b >=? u32 (start after + shl1 (bucket after)))
         || (start after >=? u32 (start b + shl1 (bucket b)))
      then if start after >? start b then Some (pre, l)
           else insert_scan b (after :: pre) l'
      else None
  end.

(** The merge candidates around the inserted block: the two blocks and what
    the bucket holds without them. *)
Definition merge_pair (b : p2ra_block) (pre post : list p2ra_block)
  : option (p2ra_block * p2ra_block * list p2ra_block) :=
  if Z.land (start b) (u32 (u32 (Z.shiftl (shl1 (bucket b)) 1) - 1)) =? 0
  then match post with
       | second :: post' => Some (b, second, rev_append pre post')
       | [] => None
       end
  else match pre with
       | first :: pre' => Some (first, b, rev_append pre' post)
       | [] => None
       end.

Fixpoint p2ra_return_free_block (fuel : nat) (s : p2ra_state) (b : p2ra_block)
    (merge_allowed : bool) : option p2ra_state :=
  match fuel with
  | O => None
  | S fuel' =>
    if negb (bucket b <? bucket_count s)
       || negb (Z.land (start b) (u32 (shl1 (bucket b) - 1)) =? 0) then None else
    match free_block_buckets s !! Z.to_nat (bucket b) with
    | None => None
    | Some l =>
      match insert_scan b [] l with
      | None => None
      | Some (pre, post) =>
        let s1 := set_bucket s (bucket b) (rev_append pre (b :: post)) in
        if bucket b + 1 =? bucket_count s then Some s1 else
        match merge_pair b pre post with
        | None => Some s1
        | Some (first, second, rest) =>
          if u32 (start first + shl1 (bucket first)) =? start second then
            if negb merge_allowed || negb (bucket first =? bucket second) then None else
            let s2 := set_unused (set_bucket s (bucket b) rest) (unused_blocks s ++ [second]) in
            p2ra_return_free_block fuel' s2 (mk_block (bucket first + 1) (start first)) merge_allowed
          else Some s1
        end
      end
    end
  end.

(** Buckets only grow along the recursion, so the number of buckets is enough. *)
Definition return_free_block (s : p2ra_state) (b : p2ra_block) (merge_allowed : bool) : option p2ra_state :=
  p2ra_return_free_block (Z.to_nat (bucket_count s)) s b merge_allowed.

Definition p2ra_init (max_alloc_size : Z) (m : mem) : Z * option p2ra_state * mem :=
  if (max_alloc_size =? 0) || negb (ispow2 max_alloc_size) then (ERR_INVALID_ARGS, None, m) else
  let bc := log2_uint max_alloc_size + 1 in
  let '(ok, m') := alloc m in
  if negb ok then (ERR_NO_MEMORY, None, m') else
  (NO_ERROR, Some (mk_state [] [] [] (replicate (Z.to_nat bc) []) bc), m').

Definition p2ra_free (s : p2ra_state) : option p2ra_state :=
  if (bucket_count s =? 0) || negb (bool_decide (allocated_blocks s = [])) then None
  else Some (mk_state [] [] [] [] 0).

Definition ranges_overlap (range_start range_len : Z) (range : p2ra_range) : bool :=
  ((r_start range >=? range_start) && (r_start range <? u32 (range_start + range_len)))
  || ((range_start >=? r_start range) && (range_start <? u32 (r_start range + r_len range))).

(** The loop variables of the chunking loop. *)
Record chunk := mk_chunk { c_bucket : Z; c_size : Z }.

Fixpoint shrink (fuel : nat) (range_start range_len : Z) (c : chunk) (shrunk : bool) : chunk * bool :=
  match fuel with
  | O => (c, shrunk)
  | S fuel' =>
    if negb (Z.land range_start (u32 (c_size c - 1)) =? 0) || (range_len <? c_size c)
    then shrink fuel' range_start range_len (mk_chunk (u32 (c_bucket c - 1)) (Z.shiftr (c_size c) 1)) true
    else (c, shrunk)
  end.

Fixpoint grow (fuel : nat) (bc range_start range_len max_csize tmp : Z) (c : chunk) : option chunk :=
  match fuel with
  | O => Some c
  | S fuel' =>
    if (tmp <=? max_csize) && (tmp <=? range_len) && (Z.land range_start (u32 (tmp - 1)) =? 0)
    then let c' := mk_chunk (u32 (c_bucket c + 1)) tmp in
         if c_bucket c' <? bc
         then grow fuel' bc range_start range_len max_csize (u32 (Z.shiftl tmp 1)) c'
         else None
    else Some c
  end.

(** The assertions before a chunk is broken off. *)
Definition chunk_ok (bc range_start range_len : Z) (c : chunk) : bool :=
  (shl1 (c_bucket c) =? c_size c) && (c_bucket c <? bc)
  && (Z.land range_start (u32 (c_size c - 1)) =? 0)
  && (c_size c <=? range_len) && negb (c_size c =? 0).

(** 33 rounds are enough for [shrink] and [grow], which move [c_bucket] by one
    through [0, 32).  The result is [None] on an assertion failure, otherwise
    the status, the new blocks, the state and the oracle. *)
Fixpoint break_range (fuel : nat) (s : p2ra_state) (max_csize : Z) (c : chunk)
    (range_start range_len : Z) (new_blocks : list p2ra_block) (m : mem)
  : option (Z * list p2ra_block * p2ra_state * mem) :=
  match fuel with
  | O => if range_len =? 0 then Some (NO_ERROR, new_blocks, s, m) else None
  | S fuel' =>
    if range_len =? 0 then Some (NO_ERROR, new_blocks, s, m) else
    let '(c1, shrunk) := shrink 33 range_start range_len c false in
    let oc := if shrunk then Some c1
              else grow 33 (bucket_count s) range_start range_len max_csize
                     (u32 (Z.shiftl (c_size c1) 1)) c1 in
    match oc with
    | None => None
    | Some c2 =>
      if negb (chunk_ok (bucket_count s) range_start range_len c2) then None else
      match p2ra_get_unused_block s m with
      | (None, s', m') => Some (ERR_NO_MEMORY, new_blocks, s', m')
      | (Some _, s', m') =>
        break_range fuel' s' max_csize c2 (u32 (range_start + c_size c2))
          (u32 (range_len - c_size c2))
          (new_blocks ++ [mk_block (c_bucket c2) range_start]) m'
      end
    end
  end.

Fixpoint return_blocks (s : p2ra_state) (bs : list p2ra_block) : option p2ra_state :=
  match bs with
  | [] => Some s
  | b :: bs' => match return_free_block s b false with
                | None => None
                | Some s' => return_blocks s' bs'
                end
  end.

Definition p2ra_add_range (s : p2ra_state) (range_start range_len : Z) (m : mem)
  : option (Z * p2ra_state * mem) :=
  if (range_len =? 0) || (u32 (range_start + range_len) <? range_start)
  then Some (ERR_INVALID_ARGS, s, m) else
  if existsb (ranges_overlap range_start range_len) (ranges s)
  then Some (ERR_ALREADY_EXISTS, s, m) else
  let '(ok, m1) := alloc m in
  if negb ok then Some (ERR_NO_MEMORY, s, m1) else
  if bucket_count s =? 0 then None else
  let bucket := u32 (bucket_count s - 1) in
  let csize := shl1 bucket in
  match break_range (Z.to_nat range_len) s csize (mk_chunk bucket csize)
          range_start range_len [] m1 with
  | None => None
  | Some (ret, new_blocks, s', m') =>
    if ret =? NO_ERROR then
      match return_blocks (add_ranges s' (mk_range range_start range_len)) new_blocks with
      | None => None
      | Some s'' => Some (NO_ERROR, s'', m')
      end
    else Some (ret, s', m')
  end.

(** The search for the smallest non-empty bucket from [b] up. *)
Fixpoint find_block (fuel : nat) (s : p2ra_state) (b : Z) : option (p2ra_block * Z * p2ra_state) :=
  match fuel with
  | O => None
  | S fuel' =>
    if b <? bucket_count s then
      match free_block_buckets s !! Z.to_nat b with
      | Some (blk :: l) => Some (blk, b, set_bucket s b l)
      | _ => find_block fuel' s (b + 1)
      end
    else None
  end.

Fixpoint split_block (fuel : nat) (s : p2ra_state) (blk : p2ra_block) (b orig_bucket : Z) (m : mem)
  : option (Z * p2ra_block * p2ra_state * mem) :=
  if negb (b >? orig_bucket) then Some (NO_ERROR, blk, s, m) else
  match fuel with
  | O => None
  | S fuel' =>
    match p2ra_get_unused_block s m with
    | (None, s', m') =>
      match return_free_block s' blk true with
      | None => None
      | Some s'' => Some (ERR_NO_MEMORY, blk, s'', m')
      end
    | (Some _, s', m') =>
      if b =? 0 then None else
      let b' := b - 1 in
      let blk' := mk_block b' (start blk) in
      let split := mk_block b' (u32 (start blk' + shl1 b')) in
      match return_free_block s' split false with
      | None => None
      | Some s'' => split_block fuel' s'' blk' b' orig_bucket m'
      end
    end
  end.

Definition p2ra_allocate_range (s : p2ra_state) (size : Z) (m : mem)
  : option (Z * option Z * p2ra_state * mem) :=
  if (size =? 0) || negb (ispow2 size) then Some (ERR_INVALID_ARGS, None, s, m) else
  let orig_bucket := log2_uint size in
  if orig_bucket >=? bucket_count s then Some (ERR_INVALID_ARGS, None, s, m) else
  match find_block (Z.to_nat (bucket_count s)) s orig_bucket with
  | None => Some (ERR_NO_RESOURCES, None, s, m)
  | Some (blk, b, s1) =>
    if negb (bucket blk =? b) || negb (b >=? orig_bucket) then None else
    match split_block (Z.to_nat (b - orig_bucket)) s1 blk b orig_bucket m with
    | None => None
    | Some (ret, blk', s2, m') =>
      if ret =? NO_ERROR
      then Some (NO_ERROR, Some (start blk'), set_allocated s2 (blk' :: allocated_blocks s2), m')
      else Some (ret, None, s2, m')
    end
  end.

(** The debug build's search of the allocated list. *)
Fixpoint take_block (range_start bkt : Z) (l : list p2ra_block) : option (p2ra_block * list p2ra_block) :=
  match l with
  | [] => None
  | blk :: l' =>
    if (start blk =? range_start) && (bucket blk =? bkt) then Some (blk, l')
    else match take_block range_start bkt l' with
         | Some (x, r) => Some (x, blk :: r)
         | None => None
         end
  end.

Definition p2ra_free_range (s : p2ra_state) (range_start size : Z) : option p2ra_state :=
  if (size =? 0) || negb (ispow2 size) then None else
  match take_block range_start (log2_uint size) (allocated_blocks s) with
  | None => None
  | Some (blk, l) => return_free_block (set_allocated s l) blk true
  end.

End P2RA.
