(* ===== verification/Pow2RangeFacts.v ===== *)
(** * Correctness of the power-of-two range allocator

    The integers of the added ranges are partitioned by the free and the
    allocated blocks; [wf] is the invariant, [chunks] the greedy decomposition
    that [p2ra_add_range] computes, [reachable] the states the four operations
    lead to.  The theorems at the end are about [Pow2Range.P2RA]. *)

From stdpp Require Import base tactics numbers list list_numbers sorting sets.
From Stdlib Require Import ZArith Lia.
From S2P Require Import Prelude Pow2Range.
#[local] Open Scope Z_scope.
#[local] Set Warnings "-clear-no-such-hyp".

Module P2RAFacts.
Import P2RA.


(** ** Specification: the integers a block stands for *)

Definition block_ids (b : p2ra_block) : list Z := seqZ (start b) (2 ^ bucket b).
Definition range_ids (r : p2ra_range) : list Z := seqZ (r_start r) (r_len r).
Definition ids (bs : list p2ra_block) : list Z := bs ≫= block_ids.
Definition pool (rs : list p2ra_range) : list Z := rs ≫= range_ids.
Definition free_blocks (s : p2ra_state) : list p2ra_block := concat (free_block_buckets s).

Definition lt_start (a b : p2ra_block) : Prop := start a < start b.

(** [a] and [b] are the two halves of an aligned block of twice their size. *)
Definition buddies (a b : p2ra_block) : Prop :=
  bucket a = bucket b ∧ start a mod 2 ^ (bucket a + 1) = 0 ∧ start b = start a + 2 ^ bucket a.

Definition block_ok (i : Z) (b : p2ra_block) : Prop :=
  bucket b = i ∧ 0 ≤ start b ∧ start b mod 2 ^ i = 0 ∧ start b + 2 ^ i < 2 ^ 32.

(** Well-formed free lists: every block in the list of its size, lists sorted,
    no integer in two blocks, no pair of buddies left unmerged. *)
Record fwf (s : p2ra_state) : Prop := {
  fwf_bc : 1 ≤ bucket_count s ≤ 32;
  fwf_len : Z.of_nat (length (free_block_buckets s)) = bucket_count s;
  fwf_sorted i l : free_block_buckets s !! i = Some l → StronglySorted lt_start l;
  fwf_ok i l : free_block_buckets s !! i = Some l → Forall (block_ok (Z.of_nat i)) l;
  fwf_coal i l a b : free_block_buckets s !! i = Some l → Z.of_nat i + 1 < bucket_count s →
    a ∈ l → b ∈ l → ¬ buddies a b;
  fwf_nodup : NoDup (ids (free_blocks s))
}.

(** The allocator's invariant: the free and the allocated blocks partition
    the integers of the ranges. *)
Record wf (s : p2ra_state) : Prop := {
  wf_free : fwf s;
  wf_alloc : Forall (λ b, 0 ≤ bucket b < bucket_count s ∧ block_ok (bucket b) b) (allocated_blocks s);
  wf_ranges : Forall (λ r, 0 ≤ r_start r ∧ 0 < r_len r ∧ r_start r + r_len r < 2 ^ 32) (ranges s);
  wf_part : ids (free_blocks s ++ allocated_blocks s) ≡ₚ pool (ranges s);
  wf_pool : NoDup (pool (ranges s))
}.

(** ** Lemmas on blocks and bucket lists *)

Lemma shl1_pow i : 0 ≤ i < 32 → shl1 i = 2 ^ i.
Proof. apply valpow2_pow. Qed.

Lemma ids_app l1 l2 : ids (l1 ++ l2) = ids l1 ++ ids l2.
Proof. apply bind_app. Qed.

Lemma ids_cons b l : ids (b :: l) = block_ids b ++ ids l.
Proof. reflexivity. Qed.

Lemma pool_app l1 l2 : pool (l1 ++ l2) = pool l1 ++ pool l2.
Proof. apply bind_app. Qed.

#[global] Instance ids_proper : Proper ((≡ₚ) ==> (≡ₚ)) ids.
Proof. intros l1 l2 H. unfold ids. by rewrite H. Qed.

Lemma block_start_in b : 0 ≤ bucket b → start b ∈ block_ids b.
Proof.
  intros. unfold block_ids. apply elem_of_seqZ. pose proof (pow2_pos (bucket b)). lia.
Qed.

Lemma elem_of_ids x bs : x ∈ ids bs ↔ ∃ b, b ∈ bs ∧ x ∈ block_ids b.
Proof. unfold ids. rewrite list_elem_of_bind. naive_solver. Qed.

(** Two halves make the whole. *)
Lemma block_ids_merge i a :
  0 ≤ i → block_ids (mk_block (i + 1) a) = block_ids (mk_block i a) ++ block_ids (mk_block i (a + 2 ^ i)).
Proof.
  intros. unfold block_ids. simpl. rewrite pow2_succ by lia.
  pose proof (pow2_pos i). rewrite <- seqZ_split by lia. f_equal. lia.
Qed.

Lemma aligned_gap i a b : 0 ≤ i → a mod 2 ^ i = 0 → b mod 2 ^ i = 0 → a < b → a + 2 ^ i ≤ b.
Proof.
  intros Hi Ha Hb Hlt. pose proof (pow2_pos i Hi).
  apply Z.mod_divide in Ha as [x ->]; [|lia]. apply Z.mod_divide in Hb as [y ->]; [|lia].
  assert (x < y) by nia. nia.
Qed.

Lemma aligned_parity i a :
  0 ≤ i → a mod 2 ^ i = 0 → a mod 2 ^ (i + 1) = 0 ∨ (a + 2 ^ i) mod 2 ^ (i + 1) = 0 ∧ (a - 2 ^ i) mod 2 ^ (i + 1) = 0.
Proof.
  intros Hi Ha. pose proof (pow2_pos i Hi). rewrite pow2_succ by lia.
  apply Z.mod_divide in Ha as [x ->]; [|lia].
  destruct (Z.Even_or_Odd x) as [[y ->]|[y ->]]; [left|right; split].
  - replace (2 * y * 2 ^ i) with (y * (2 * 2 ^ i)) by lia. apply Z_mod_mult.
  - replace ((2 * y + 1) * 2 ^ i + 2 ^ i) with ((y + 1) * (2 * 2 ^ i)) by lia. apply Z_mod_mult.
  - replace ((2 * y + 1) * 2 ^ i - 2 ^ i) with (y * (2 * 2 ^ i)) by lia. apply Z_mod_mult.
Qed.

Lemma aligned_half i a : 0 ≤ i → a mod 2 ^ (i + 1) = 0 → a mod 2 ^ i = 0 ∧ (a + 2 ^ i) mod 2 ^ i = 0.
Proof.
  intros Hi Ha. pose proof (pow2_pos i Hi). rewrite pow2_succ in Ha by lia.
  apply Z.mod_divide in Ha as [x ->]; [|lia]. split.
  - replace (x * (2 * 2 ^ i)) with (2 * x * 2 ^ i) by lia. apply Z_mod_mult.
  - replace (x * (2 * 2 ^ i) + 2 ^ i) with ((2 * x + 1) * 2 ^ i) by lia. apply Z_mod_mult.
Qed.

Lemma concat_insert {A} (ls : list (list A)) i l0 l :
  ls !! i = Some l0 → l0 ++ concat (<[i := l]> ls) ≡ₚ l ++ concat ls.
Proof.
  intros H. rewrite <- (take_drop_middle ls i l0 H) at 2.
  rewrite insert_take_drop by (by eapply lookup_lt_Some).
  rewrite !concat_app. simpl.
  rewrite (Permutation_app_swap_app _ l), (Permutation_app_swap_app _ l0).
  apply Permutation_app_swap_app.
Qed.

Lemma land_align i a : 0 ≤ i < 32 → Z.land a (u32 (shl1 i - 1)) = a mod 2 ^ i.
Proof.
  intros. rewrite shl1_pow by lia. pose proof (pow2_pos i). pose proof (pow2_lt i 32).
  rewrite u32_id by (unfold is_u32; lia). apply land_ones_mod. lia.
Qed.

Lemma land_align2 i a : 0 ≤ i < 31 → Z.land a (u32 (u32 (Z.shiftl (shl1 i) 1) - 1)) = a mod 2 ^ (i + 1).
Proof.
  intros. rewrite <- land_align by lia. do 3 f_equal.
  rewrite !shl1_pow by lia. rewrite Z.shiftl_mul_pow2, pow2_succ by lia.
  pose proof (pow2_pos i). pose proof (pow2_le i 30).
  change (2 ^ 1) with 2. rewrite u32_id; [lia|].
  unfold is_u32. change (2 ^ 32) with (4 * 2 ^ 30). lia.
Qed.

Lemma block_end_u32 i b : 0 ≤ i < 32 → block_ok i b → u32 (start b + shl1 (bucket b)) = start b + 2 ^ i.
Proof.
  intros Hi (-> & Hs & _ & He). rewrite shl1_pow by lia. pose proof (pow2_pos i).
  apply u32_id. unfold is_u32. lia.
Qed.

Lemma insert_scan_spec i b l pre :
  0 ≤ i < 32 → block_ok i b → Forall (block_ok i) l → StronglySorted lt_start l →
  (∀ x, x ∈ l → start x ≠ start b) →
  ∃ l1 l2, insert_scan b pre l = Some (rev l1 ++ pre, l2) ∧ l = l1 ++ l2 ∧
    Forall (λ x, start x < start b) l1 ∧ Forall (λ x, start b < start x) l2.
Proof.
  intros Hi Hb. revert pre. induction l as [|a l IH]; intros pre Hok Hs Hne.
  { exists [], []. naive_solver. }
  apply Forall_cons in Hok as [Ha Hok]. apply StronglySorted_inv in Hs as [Hs Hlt].
  assert (Hab : start a ≠ start b) by (apply Hne; by left).
  pose proof Ha as (_ & _ & Hal & _). pose proof Hb as (_ & _ & Hbl & _).
  simpl. rewrite (block_end_u32 i a), (block_end_u32 i b) by done.
  assert (Hass : (start b >=? start a + 2 ^ i) || (start a >=? start b + 2 ^ i) = true).
  { rewrite orb_true_iff, !Z.geb_le.
    destruct (Z.lt_total (start a) (start b)) as [?|[?|?]]; [left|lia|right]; apply aligned_gap; lia. }
  rewrite Hass. destruct (start a >? start b) eqn:E.
  - apply Z.gtb_lt in E. exists [], (a :: l). split_and!; [done|done|constructor|].
    constructor; [done|]. eapply Forall_impl; [exact Hlt|]. unfold lt_start. intros; lia.
  - rewrite Z.gtb_ltb in E. zb.
    destruct (IH (a :: pre) Hok Hs) as (l1 & l2 & Hr & -> & H1 & H2).
    { intros x Hx. apply Hne. by right. }
    exists (a :: l1), l2. simpl. rewrite Hr, <- (assoc_L (++)). split_and!; [done|done| |done].
    constructor; [lia|done].
Qed.

Lemma ssorted_insert l1 l2 b :
  StronglySorted lt_start (l1 ++ l2) → Forall (λ x, start x < start b) l1 →
  Forall (λ x, start b < start x) l2 → StronglySorted lt_start (l1 ++ b :: l2).
Proof.
  induction l1 as [|a l1 IH]; simpl; intros Hs H1 H2.
  - constructor; done.
  - apply StronglySorted_inv in Hs as [Hs Ha]. apply Forall_cons in H1 as [Hab H1].
    apply Forall_app in Ha as [Ha1 Ha2].
    constructor; [auto|]. apply Forall_app; split; [done|]. constructor; done.
Qed.

Lemma ssorted_delete l1 l2 x : StronglySorted lt_start (l1 ++ x :: l2) → StronglySorted lt_start (l1 ++ l2).
Proof.
  induction l1 as [|a l1 IH]; simpl; intros Hs; apply StronglySorted_inv in Hs as [Hs Ha]; [done|].
  constructor; [auto|]. rewrite Forall_app, Forall_cons in Ha. apply Forall_app. naive_solver.
Qed.

Definition no_buddies (b : p2ra_block) (l : list p2ra_block) : Prop :=
  ∀ x, x ∈ l → ¬ buddies b x ∧ ¬ buddies x b.

(** What the choice of merge candidates comes to: the candidates are buddies
    and one of them is [b], or [b] has no buddy in the bucket. *)
Definition merge_result (i : Z) (b : p2ra_block) (l : list p2ra_block)
    (c : option (p2ra_block * p2ra_block * list p2ra_block)) : Prop :=
  match c with
  | None => no_buddies b l
  | Some (first, second, rest) =>
      bucket first = i ∧ bucket second = i ∧
      if u32 (start first + shl1 (bucket first)) =? start second
      then buddies first second ∧ ∃ l1 l2 x, l = l1 ++ x :: l2 ∧ rest = l1 ++ l2 ∧
             ((first = b ∧ second = x) ∨ (first = x ∧ second = b))
      else no_buddies b l
  end.

Lemma merge_pair_even i b l1 l2 :
  0 ≤ i < 31 → block_ok i b → Forall (block_ok i) (l1 ++ l2) → StronglySorted lt_start (l1 ++ b :: l2) →
  start b mod 2 ^ (i + 1) = 0 → merge_result i b (l1 ++ l2) (merge_pair b (rev l1) l2).
Proof.
  intros Hi Hb Hok Hs Hev. pose proof Hb as (Hbi & _ & Hal & _). pose proof (pow2_pos i ltac:(lia)) as Hp.
  unfold merge_pair. rewrite Hbi, land_align2, Hev by lia. simpl.
  apply StronglySorted_app in Hs as (H1 & _ & Hs). apply StronglySorted_inv in Hs as [Hs2 H2].
  rewrite Forall_forall in H2, Hok. unfold lt_start in *.
  assert (Hnb : ∀ x, x ∈ l1 ++ l2 → ¬ buddies x b).
  { intros x Hx (_ & Hxa & Hxs). destruct (Hok x Hx) as (Hxi & _). rewrite Hxi in *.
    rewrite Hxs in Hev. rewrite pow2_succ in * by lia.
    rewrite Z.add_mod, Hxa, Z.add_0_l, Z.mod_mod, Z.mod_small in Hev; lia. }
  assert (Hl1 : ∀ x, x ∈ l1 → ¬ buddies b x).
  { intros x Hx (_ & _ & Hxs). specialize (H1 x b Hx ltac:(by left)). rewrite Hbi in Hxs. lia. }
  destruct l2 as [|x l2]; simpl.
  { rewrite app_nil_r in *. intros x Hx. auto. }
  destruct (Hok x ltac:(set_solver)) as (Hxi & _ & Hxal & _).
  rewrite rev_append_rev, rev_involutive, (block_end_u32 i b) by (done || lia).
  split_and!; [done|done|]. destruct (start b + 2 ^ i =? start x) eqn:Em; zb.
  - split; [|by exists l1, l2, x; auto]. split_and!; [lia|by rewrite Hbi|rewrite Hbi; lia].
  - intros y Hy. split; [|by apply Hnb]. apply elem_of_app in Hy as [Hy|Hy]; [by apply Hl1|].
    intros (_ & _ & Hys). rewrite Hbi in Hys.
    pose proof (aligned_gap i (start b) (start x) ltac:(lia) Hal Hxal (H2 x ltac:(by left))).
    apply elem_of_cons in Hy as [->|Hy]; [lia|]. apply StronglySorted_inv in Hs2 as [_ Hlt].
    rewrite Forall_forall in Hlt. specialize (Hlt y Hy). lia.
Qed.

Lemma merge_pair_odd i b l1 l2 :
  0 ≤ i < 31 → block_ok i b → Forall (block_ok i) (l1 ++ l2) → StronglySorted lt_start (l1 ++ b :: l2) →
  start b mod 2 ^ (i + 1) ≠ 0 → merge_result i b (l1 ++ l2) (merge_pair b (rev l1) l2).
Proof.
  intros Hi Hb Hok Hs Hodd. pose proof Hb as (Hbi & _ & Hal & _). pose proof (pow2_pos i ltac:(lia)) as Hp.
  unfold merge_pair. rewrite Hbi, land_align2 by lia. apply Z.eqb_neq in Hodd as Ho. rewrite Ho.
  apply StronglySorted_app in Hs as (H1 & Hs1 & Hs). apply StronglySorted_inv in Hs as [_ H2].
  rewrite Forall_forall in H2, Hok. unfold lt_start in *.
  assert (Hnb : ∀ x, x ∈ l1 ++ l2 → ¬ buddies b x) by (intros x _ (_ & Hxa & _); rewrite Hbi in Hxa; lia).
  assert (Hl2 : ∀ x, x ∈ l2 → ¬ buddies x b).
  { intros x Hx (_ & _ & Hxs). specialize (H2 x Hx). destruct (Hok x ltac:(set_solver)) as (Hxi & _).
    rewrite Hxi in Hxs. lia. }
  destruct (rev l1) as [|x l1r] eqn:Er; simpl.
  { assert (l1 = []) as -> by (rewrite <- (rev_involutive l1), Er; done). intros x Hx. auto. }
  assert (l1 = rev l1r ++ [x]) as -> by (rewrite <- (rev_involutive l1), Er; done).
  pose proof (Hok x ltac:(set_solver)) as Hxok. pose proof Hxok as (Hxi & _ & Hxal & _).
  rewrite rev_append_rev, (block_end_u32 i x) by (done || lia).
  split_and!; [done|done|]. destruct (start x + 2 ^ i =? start b) eqn:Em; zb.
  - split; [|by exists (rev l1r), l2, x; rewrite <- (assoc_L (++)); auto].
    split_and!; [lia| |rewrite Hxi; lia]. rewrite Hxi.
    destruct (aligned_parity i (start b) ltac:(lia) Hal) as [|[_ Hp']]; [lia|].
    by replace (start x) with (start b - 2 ^ i) by lia.
  - intros y Hy. split; [by apply Hnb|]. apply elem_of_app in Hy as [Hy|Hy]; [|by apply Hl2].
    intros (Hyb & _ & Hys). assert (Hyi : bucket y = i) by lia. rewrite Hyi in Hys.
    pose proof (H1 x b ltac:(set_solver) ltac:(by left)) as Hxb.
    pose proof (aligned_gap i (start x) (start b) ltac:(lia) Hxal Hal Hxb).
    apply elem_of_app in Hy as [Hy|Hy]; [|apply list_elem_of_singleton in Hy as ->; lia].
    apply StronglySorted_app in Hs1 as (Hxx & _ & _). specialize (Hxx y x Hy ltac:(by left)). lia.
Qed.

(** What one round of [p2ra_return_free_block] does: insert and stop, or take
    the buddy out and go on with the merged block. *)
Lemma return_round s b fuel mg i l :
  0 ≤ i < bucket_count s → bucket_count s ≤ 32 → block_ok i b →
  free_block_buckets s !! Z.to_nat i = Some l →
  StronglySorted lt_start l → Forall (block_ok i) l → (∀ x, x ∈ l → start x ≠ start b) →
  (∃ l1 l2, l = l1 ++ l2 ∧ StronglySorted lt_start (l1 ++ b :: l2) ∧
     (i + 1 < bucket_count s → no_buddies b l) ∧
     p2ra_return_free_block (S fuel) s b mg = Some (set_bucket s i (l1 ++ b :: l2))) ∨
  (i + 1 < bucket_count s ∧ ∃ l1 l2 x first second, l = l1 ++ x :: l2 ∧
     ((first = b ∧ second = x) ∨ (first = x ∧ second = b)) ∧ buddies first second ∧
     p2ra_return_free_block (S fuel) s b mg =
       if mg then p2ra_return_free_block fuel
                    (set_unused (set_bucket s i (l1 ++ l2)) (unused_blocks s ++ [second]))
                    (mk_block (i + 1) (start first)) mg
       else None).
Proof.
  intros Hi Hbc Hb Hl Hs Hok Hne.
  pose proof Hb as (Hbi & Hb0 & Hal & Hend).
  destruct (insert_scan_spec i b l [] ltac:(lia) Hb Hok Hs Hne) as (l1 & l2 & Hscan & -> & H1 & H2).
  rewrite app_nil_r in Hscan.
  pose proof (ssorted_insert _ _ _ Hs H1 H2) as Hs'.
  simpl. rewrite Hbi, land_align, Hal by lia.
  assert ((i <? bucket_count s) = true) as -> by (apply Z.ltb_lt; lia). simpl.
  rewrite Hl, Hscan, rev_append_rev, rev_involutive.
  destruct (i + 1 =? bucket_count s) eqn:Elast; zb.
  { left. exists l1, l2. split_and!; [done|done|lia|done]. }
  assert (Hmr : merge_result i b (l1 ++ l2) (merge_pair b (rev l1) l2)).
  { destruct (Z.eq_dec (start b mod 2 ^ (i + 1)) 0); [by apply merge_pair_even; try lia|by apply merge_pair_odd; try lia]. }
  destruct (merge_pair b (rev l1) l2) as [[[fi se] rest]|]; simpl in Hmr; [|by left; exists l1, l2].
  destruct Hmr as (Hfi & Hse & Hmr). destruct (_ =? start se) eqn:Em; [|by left; exists l1, l2].
  destruct Hmr as (Hbud & l1' & l2' & x & Heq & -> & Hfs). right. split; [lia|].
  exists l1', l2', x, fi, se. split_and!; [done|done|done|].
  rewrite Hfi, Hse, Z.eqb_refl. by destruct mg.
Qed.


Lemma set_bucket_ids s i l l' :
  free_block_buckets s !! Z.to_nat i = Some l →
  ids l ++ ids (free_blocks (set_bucket s i l')) ≡ₚ ids l' ++ ids (free_blocks s).
Proof.
  intros H. rewrite <- !ids_app. apply ids_proper. by apply concat_insert.
Qed.

Lemma set_bucket_lookup s i l' j :
  (Z.to_nat i < length (free_block_buckets s))%nat →
  <[Z.to_nat i := l']> (free_block_buckets s) !! j =
    if decide (j = Z.to_nat i) then Some l' else free_block_buckets s !! j.
Proof.
  intros. case_decide as Hj; [subst; by apply list_lookup_insert_eq|].
  by apply list_lookup_insert_ne.
Qed.

(** The free lists stay well formed when one bucket is replaced by a sorted,
    coalesced list and the integers stay distinct. *)
Lemma fwf_set_bucket s i l' u :
  fwf s → 0 ≤ i < bucket_count s →
  StronglySorted lt_start l' → Forall (block_ok i) l' →
  (i + 1 < bucket_count s → ∀ a b, a ∈ l' → b ∈ l' → ¬ buddies a b) →
  NoDup (ids (free_blocks (set_bucket s i l'))) →
  fwf (set_unused (set_bucket s i l') u).
Proof.
  intros [Hbc Hlen Hso Hok Hco Hnd] Hi H1 H2 H3 H4.
  assert (Hlt : (Z.to_nat i < length (free_block_buckets s))%nat) by lia.
  split; simpl; [done|by rewrite length_insert|..|done].
  - intros j l. rewrite (set_bucket_lookup s i l' j Hlt). case_decide; naive_solver.
  - intros j l. rewrite (set_bucket_lookup s i l' j Hlt). case_decide; [|naive_solver].
    subst. rewrite Z2Nat.id by lia. naive_solver.
  - intros j l a b. rewrite (set_bucket_lookup s i l' j Hlt). case_decide; [|naive_solver].
    subst. rewrite Z2Nat.id by lia. naive_solver.
Qed.

Lemma fwf_lookup s i : fwf s → 0 ≤ i < bucket_count s →
  ∃ l, free_block_buckets s !! Z.to_nat i = Some l ∧ StronglySorted lt_start l ∧ Forall (block_ok i) l.
Proof.
  intros Hf Hi. pose proof (fwf_len s Hf).
  destruct (lookup_lt_is_Some_2 (free_block_buckets s) (Z.to_nat i) ltac:(lia)) as [l Hl].
  exists l. split_and!; [done|by eapply fwf_sorted|].
  pose proof (fwf_ok s Hf _ _ Hl) as Hok. by rewrite Z2Nat.id in Hok by lia.
Qed.

Lemma elem_free s i l x : free_block_buckets s !! i = Some l → x ∈ l → x ∈ free_blocks s.
Proof.
  intros Hl Hx. unfold free_blocks. apply list_elem_of_In, in_concat.
  exists l. split; [|by apply list_elem_of_In].
  apply list_elem_of_In, list_elem_of_lookup. eauto.
Qed.

Lemma fresh_start s b i l :
  0 ≤ i → bucket b = i → free_block_buckets s !! Z.to_nat i = Some l → Forall (block_ok i) l →
  NoDup (block_ids b ++ ids (free_blocks s)) → ∀ x, x ∈ l → start x ≠ start b.
Proof.
  intros Hi Hbi Hl Hok Hnd x Hx Heq. apply NoDup_app in Hnd as (_ & Hdis & _).
  apply (Hdis (start b)); [apply block_start_in; lia|].
  apply elem_of_ids. exists x. split; [by eapply elem_free|].
  rewrite Forall_forall in Hok. destruct (Hok x Hx) as (Hxi & _).
  rewrite <- Heq. apply block_start_in. lia.
Qed.

(** The frame of an operation on the free lists. *)
Definition same_books (s s' : p2ra_state) : Prop :=
  ranges s' = ranges s ∧ allocated_blocks s' = allocated_blocks s ∧ bucket_count s' = bucket_count s.

#[global] Instance same_books_refl : Reflexive same_books.
Proof. intros s. by split_and!. Qed.
#[global] Instance same_books_trans : Transitive same_books.
Proof. intros s1 s2 s3 (?&?&?) (?&?&?). split_and!; congruence. Qed.

Definition no_buddy (s : p2ra_state) (b : p2ra_block) : Prop :=
  bucket b + 1 < bucket_count s →
  ∀ l x, free_block_buckets s !! Z.to_nat (bucket b) = Some l → x ∈ l → ¬ buddies b x ∧ ¬ buddies x b.

Lemma insert_no_merge s i b l1 l2 :
  fwf s → 0 ≤ i < bucket_count s → block_ok i b →
  NoDup (block_ids b ++ ids (free_blocks s)) →
  free_block_buckets s !! Z.to_nat i = Some (l1 ++ l2) → StronglySorted lt_start (l1 ++ b :: l2) →
  (i + 1 < bucket_count s → ∀ x, x ∈ l1 ++ l2 → ¬ buddies b x ∧ ¬ buddies x b) →
  fwf (set_bucket s i (l1 ++ b :: l2)) ∧
  ids (free_blocks (set_bucket s i (l1 ++ b :: l2))) ≡ₚ block_ids b ++ ids (free_blocks s).
Proof.
  intros Hf Hi Hb Hnd Hl Hs Hnb.
  assert (Hids : ids (free_blocks (set_bucket s i (l1 ++ b :: l2))) ≡ₚ block_ids b ++ ids (free_blocks s)).
  { apply (Permutation_app_inv_l (ids (l1 ++ l2))). rewrite (set_bucket_ids _ _ _ _ Hl).
    rewrite !ids_app, ids_cons. rewrite <- !(assoc_L (++)).
    apply Permutation_app_head, Permutation_app_swap_app. }
  split; [|done].
  apply (fwf_set_bucket s i _ (unused_blocks s)); [done|done|done|..].
  - pose proof (fwf_ok s Hf _ _ Hl) as Hok. rewrite Z2Nat.id in Hok by lia.
    apply Forall_app in Hok as [? ?]. apply Forall_app; split; [done|]. by constructor.
  - intros Hlt a c Ha Hc. specialize (Hnb Hlt).
    assert (Hin : ∀ y, y ∈ l1 ++ b :: l2 → y = b ∨ y ∈ l1 ++ l2) by set_solver.
    destruct (Hin a Ha) as [->|Ha'], (Hin c Hc) as [->|Hc'].
    + intros (_ & _ & Hst). pose proof (pow2_pos (bucket b)). destruct Hb as (? & _). lia.
    + by apply Hnb.
    + by apply Hnb.
    + eapply (fwf_coal s Hf); [exact Hl|lia|done|done].
  - by rewrite Hids.
Qed.

(** Returning a block never trips an assertion, keeps the free lists well
    formed and adds exactly the integers of the block. *)
Lemma return_free_block_fuel fuel : ∀ s b mg,
  fwf s → 0 ≤ bucket b < bucket_count s → block_ok (bucket b) b →
  NoDup (block_ids b ++ ids (free_blocks s)) →
  bucket_count s - bucket b ≤ Z.of_nat fuel →
  mg = true ∨ no_buddy s b →
  ∃ s', p2ra_return_free_block fuel s b mg = Some s' ∧ fwf s' ∧ same_books s s' ∧
    ids (free_blocks s') ≡ₚ block_ids b ++ ids (free_blocks s).
Proof.
  induction fuel as [|fuel IH]; intros s b mg Hf Hi Hb Hnd Hfuel Hmg; [lia|].
  pose proof (fwf_bc s Hf) as Hbc.
  destruct (fwf_lookup s (bucket b) Hf Hi) as (l & Hl & Hs & Hok).
  pose proof (fresh_start s b (bucket b) l ltac:(lia) eq_refl Hl Hok Hnd) as Hne.
  destruct (return_round s b fuel mg (bucket b) l Hi ltac:(lia) Hb Hl Hs Hok Hne)
    as [(l1 & l2 & -> & Hs' & Hnb & ->)|(Hlt & l1 & l2 & x & fi & se & -> & Hfs & Hbud & ->)].
  - destruct (insert_no_merge s (bucket b) b l1 l2) as [Hf' Hids]; [done..|].
    eexists. split_and!; [done|done|done|done].
  - assert (Hmg' : mg = true).
    { destruct Hmg as [|Hno]; [done|]. destruct (Hno Hlt _ x Hl ltac:(set_solver)). naive_solver. }
    subst mg. set (i := bucket b) in *.
    set (s2 := set_unused (set_bucket s i (l1 ++ l2)) (unused_blocks s ++ [se])).
    assert (Hxb : bucket x = i). { rewrite Forall_forall in Hok. by destruct (Hok x ltac:(set_solver)). }
    assert (Hmerge : block_ids (mk_block (i + 1) (start fi)) ≡ₚ block_ids b ++ block_ids x).
    { rewrite block_ids_merge by lia. destruct Hbud as (_ & _ & Hst).
      assert (∀ y, bucket y = i → mk_block i (start y) = y) as Heta by (intros [] ?; simpl in *; congruence).
      destruct Hfs as [[-> ->]|[-> ->]]; fold i in Hst; rewrite ?Hxb in Hst; rewrite <- Hst, !Heta by done; [done|].
      by rewrite Permutation_app_comm. }
    assert (Hids : ids (free_blocks s) ≡ₚ block_ids x ++ ids (free_blocks s2)).
    { change (free_blocks s2) with (free_blocks (set_bucket s i (l1 ++ l2))).
      apply (Permutation_app_inv_l (ids (l1 ++ l2))).
      rewrite <- (set_bucket_ids s i _ (l1 ++ l2) Hl). rewrite !ids_app, ids_cons, <- !(assoc_L (++)).
      rewrite (Permutation_app_swap_app (ids l1) (block_ids x)). 
      rewrite (Permutation_app_swap_app (ids l2) (block_ids x)).
      by rewrite (Permutation_app_swap_app (ids l1) (block_ids x)). }
    destruct (IH s2 (mk_block (i + 1) (start fi)) true) as (s' & Hr & Hf' & Hsb & Hids');
      simpl; [|lia|..| |lia|by left|].
    + apply fwf_set_bucket; [done|done|by eapply ssorted_delete|..].
      * rewrite Forall_app, Forall_cons in Hok. apply Forall_app. naive_solver.
      * intros Hlt' a c Ha Hc. apply (fwf_coal s Hf (Z.to_nat i) _ a c Hl); [lia|set_solver..].
      * pose proof (fwf_nodup s Hf) as Hn. rewrite Hids in Hn. by apply NoDup_app in Hn as (_ & _ & ?).
    + destruct Hbud as (Hfb & Hal & Hst).
      assert (Hboth : block_ok i fi ∧ block_ok i se).
      { rewrite Forall_forall in Hok. pose proof (Hok x ltac:(set_solver)). destruct Hfs as [[-> ->]|[-> ->]]; done. }
      destruct Hboth as [(Hfi & ? & ? & ?) (Hse & ? & ? & ?)]. rewrite Hfi in *.
      unfold block_ok. simpl. split_and!; [done|done|done|]. rewrite pow2_succ by lia. lia.
    + rewrite Hmerge. rewrite <- (assoc_L (++)), <- Hids. done.
    + exists s'. split_and!; [done|done|by etrans; [|exact Hsb]|].
      rewrite Hids', Hmerge, Hids. by rewrite <- (assoc_L (++)).
Qed.

Lemma return_free_block_ok s b mg :
  fwf s → 0 ≤ bucket b < bucket_count s → block_ok (bucket b) b →
  NoDup (block_ids b ++ ids (free_blocks s)) → mg = true ∨ no_buddy s b →
  ∃ s', return_free_block s b mg = Some s' ∧ fwf s' ∧ same_books s s' ∧
    ids (free_blocks s') ≡ₚ block_ids b ++ ids (free_blocks s).
Proof.
  intros Hf Hi Hb Hnd Hmg. apply return_free_block_fuel; [done..| |done].
  pose proof (fwf_bc s Hf). lia.
Qed.

(** ** Allocation and freeing *)

Lemma fwf_unused s u : fwf s → fwf (set_unused s u).
Proof. intros []. by split. Qed.

Lemma get_unused_frame s m ob s' m' :
  p2ra_get_unused_block s m = (ob, s', m') →
  ∃ u, s' = set_unused s u ∧ (ob = None → u = unused_blocks s).
Proof.
  unfold p2ra_get_unused_block. destruct s as [r u a f c]; simpl. destruct u as [|b u].
  - destruct (alloc m) as [ok mm]. intros [= <- <- <-]. exists []. done.
  - intros [= <- <- <-]. exists u. done.
Qed.

Lemma return_into_empty s i b mg :
  bucket_count s ≤ 32 → 0 ≤ i < bucket_count s → block_ok i b →
  free_block_buckets s !! Z.to_nat i = Some [] →
  return_free_block s b mg = Some (set_bucket s i [b]).
Proof.
  intros Hbc Hi Hb Hl. unfold return_free_block.
  destruct (Z.to_nat (bucket_count s)) as [|f] eqn:Ef; [lia|].
  destruct (return_round s b f mg i [] Hi ltac:(lia) Hb Hl) as [(l1 & l2 & Hn & _ & _ & ->)|(_ & l1 & l2 & x & _ & _ & Hn & _)].
  - constructor.
  - constructor.
  - set_solver.
  - symmetry in Hn. apply app_nil in Hn as [-> ->]. done.
  - by destruct l1.
Qed.

Lemma find_block_some fuel : ∀ s b blk b' s1,
  fwf s → 0 ≤ b → find_block fuel s b = Some (blk, b', s1) →
  b ≤ b' < bucket_count s ∧ (∀ j, b ≤ j < b' → free_block_buckets s !! Z.to_nat j = Some []) ∧
  ∃ l, free_block_buckets s !! Z.to_nat b' = Some (blk :: l) ∧ s1 = set_bucket s b' l.
Proof.
  induction fuel as [|fuel IH]; intros s b blk b' s1 Hf Hb; simpl; [done|].
  destruct (b <? bucket_count s) eqn:E; [|done]. zb.
  destruct (fwf_lookup s b Hf ltac:(lia)) as (l & Hl & _). rewrite Hl.
  destruct l as [|x l].
  - intros H. apply IH in H as (? & Hem & Hex); [|done|lia]. split_and!; [lia|lia| |done].
    intros j Hj. destruct (Z.eq_dec j b) as [->|]; [done|apply Hem; lia].
  - intros [= <- <- <-]. split_and!; [lia|lia|lia|]. eauto.
Qed.

Lemma find_block_none fuel : ∀ s b,
  fwf s → 0 ≤ b → bucket_count s - b ≤ Z.of_nat fuel → find_block fuel s b = None →
  ∀ j, b ≤ j < bucket_count s → free_block_buckets s !! Z.to_nat j = Some [].
Proof.
  induction fuel as [|fuel IH]; intros s b Hf Hb Hfu; simpl; [lia|].
  destruct (b <? bucket_count s) eqn:E; [|zb; lia]. zb.
  destruct (fwf_lookup s b Hf ltac:(lia)) as (l & Hl & _). rewrite Hl.
  destruct l as [|x l]; [|done]. intros H j Hj.
  destruct (Z.eq_dec j b) as [->|]; [done|]. apply (IH s (b + 1)); [done|lia|lia|done|lia].
Qed.

(** Taking the first block of a bucket out of the free lists. *)
Lemma remove_head_ok s b blk l :
  fwf s → 0 ≤ b < bucket_count s → free_block_buckets s !! Z.to_nat b = Some (blk :: l) →
  fwf (set_bucket s b l) ∧ block_ok b blk ∧
  block_ids blk ++ ids (free_blocks (set_bucket s b l)) ≡ₚ ids (free_blocks s).
Proof.
  intros Hf Hb Hl.
  pose proof (fwf_sorted s Hf _ _ Hl) as Hs. pose proof (fwf_ok s Hf _ _ Hl) as Hok.
  rewrite Z2Nat.id in Hok by lia. apply Forall_cons in Hok as [Hblk Hok].
  apply StronglySorted_inv in Hs as [Hs _].
  assert (Hids : block_ids blk ++ ids (free_blocks (set_bucket s b l)) ≡ₚ ids (free_blocks s)).
  { apply (Permutation_app_inv_l (ids l)). rewrite <- (set_bucket_ids s b _ l Hl), ids_cons.
    by rewrite Permutation_app_swap_app, (assoc_L (++)). }
  split_and!; [|done|done].
  apply (fwf_set_bucket s b l (unused_blocks s)); [done|done|done|done|..].
  - intros Hlt a c Ha Hc. apply (fwf_coal s Hf _ _ a c Hl); [lia|set_solver..].
  - pose proof (fwf_nodup s Hf) as Hn. rewrite <- Hids in Hn. by apply NoDup_app in Hn as (_ & _ & ?).
Qed.

Lemma block_halves b blk :
  0 < b → block_ok b blk →
  block_ok (b - 1) (mk_block (b - 1) (start blk)) ∧
  block_ok (b - 1) (mk_block (b - 1) (start blk + 2 ^ (b - 1))) ∧
  block_ids blk = block_ids (mk_block (b - 1) (start blk)) ++ block_ids (mk_block (b - 1) (start blk + 2 ^ (b - 1))).
Proof.
  intros Hb (Hbk & H0 & Hal & Hend). pose proof (pow2_pos (b - 1) ltac:(lia)).
  replace b with (b - 1 + 1) in Hal, Hend by lia.
  destruct (aligned_half (b - 1) (start blk) ltac:(lia) Hal) as [Ha1 Ha2].
  rewrite pow2_succ in Hend by lia. unfold block_ok; simpl.
  split_and!; [done|done|done|lia|done|lia|done|lia|].
  rewrite <- block_ids_merge by lia. replace (b - 1 + 1) with b by lia.
  destruct blk; simpl in *; congruence.
Qed.

Lemma split_block_ok fuel : ∀ s blk b orig m,
  fwf s → 0 ≤ orig ≤ b → b < bucket_count s → block_ok b blk →
  NoDup (block_ids blk ++ ids (free_blocks s)) →
  (∀ j, orig ≤ j < b → free_block_buckets s !! Z.to_nat j = Some []) →
  b - orig ≤ Z.of_nat fuel →
  ∃ ret blk' s' m', split_block fuel s blk b orig m = Some (ret, blk', s', m') ∧
    fwf s' ∧ same_books s s' ∧
    (ret = NO_ERROR ∧ blk' = mk_block orig (start blk) ∧ block_ok orig blk' ∧
       block_ids blk' ++ ids (free_blocks s') ≡ₚ block_ids blk ++ ids (free_blocks s)
     ∨ ret = ERR_NO_MEMORY ∧ ids (free_blocks s') ≡ₚ block_ids blk ++ ids (free_blocks s)).
Proof.
  induction fuel as [|fuel IH]; intros s blk b orig m Hf Ho Hb Hblk Hnd Hem Hfu; simpl;
    rewrite Z.gtb_ltb; destruct (orig <? b) eqn:E; zb; simpl; try lia.
  1,3: assert (b = orig) as -> by lia; exists NO_ERROR, blk, s, m; split_and!; [done..|];
    left; destruct Hblk as (Hk & Hr); split_and!; [done|by destruct blk; simpl in *; subst|by split|done].
  destruct (p2ra_get_unused_block s m) as [[[u|] s1] m1] eqn:Eg;
    apply get_unused_frame in Eg as (un & -> & _).
  - destruct (b =? 0) eqn:E0; zb; [lia|].
    destruct (block_halves b blk ltac:(lia) Hblk) as (Hh1 & Hh2 & Hids).
    pose proof (fwf_bc s Hf) as Hbc.
    pose proof (block_end_u32 (b - 1) (mk_block (b - 1) (start blk)) ltac:(lia) Hh1) as Hend.
    simpl in Hend. rewrite Hend; clear Hend.
    rewrite (return_into_empty _ (b - 1)); [|simpl; lia|simpl; lia|done|apply Hem; lia].
    set (s2 := set_bucket (set_unused s un) (b - 1) [mk_block (b - 1) (start blk + 2 ^ (b - 1))]).
    rewrite Hids in Hnd. rewrite <- (assoc_L (++)) in Hnd.
    destruct (insert_no_merge (set_unused s un) (b - 1) (mk_block (b - 1) (start blk + 2 ^ (b - 1))) [] [])
      as [Hf2 Hids2]; [by apply fwf_unused|simpl; lia|done| |apply Hem; lia|by repeat constructor|set_solver|].
    { by apply NoDup_app in Hnd as (_ & _ & ?). }
    change (set_bucket _ _ ([] ++ _)) with s2 in Hf2, Hids2.
    change (free_blocks (set_unused s un)) with (free_blocks s) in Hids2.
    destruct (IH s2 (mk_block (b - 1) (start blk)) (b - 1) orig m1) as (ret & blk' & s' & m' & Hr & Hf' & Hsb & Hcase);
      [done|lia|simpl; lia|done| | |lia|].
    + by rewrite Hids2.
    + intros j Hj. simpl. rewrite list_lookup_insert_ne by lia. apply Hem. lia.
    + exists ret, blk', s', m'. split_and!; [done|done|exact Hsb|].
      rewrite Hids2, (assoc_L (++)), <- Hids in Hcase. exact Hcase.
  - destruct (return_free_block_ok (set_unused s un) blk true) as (s' & -> & Hf' & Hsb & Hids);
      [by apply fwf_unused| | | |by left|].
    + destruct Hblk as (-> & _). simpl. lia.
    + pose proof Hblk as (-> & _). done.
    + done.
    + exists ERR_NO_MEMORY, blk, s', m1. split_and!; [done|done|exact Hsb|]. by right.
Qed.

Lemma size_good size : is_u32 size → (size =? 0) || negb (ispow2 size) = false →
  size = 2 ^ log2_uint size ∧ 0 ≤ log2_uint size.
Proof.
  intros [Hlo Hhi] Hv. zb. unfold log2_uint. destruct (size =? 0) eqn:E; zb; [lia|].
  split; [apply ispow2_spec; [lia|done]|apply Z.log2_nonneg].
Qed.

Lemma size_pow2 k : 0 ≤ k < 32 → (2 ^ k =? 0) || negb (ispow2 (2 ^ k)) = false.
Proof.
  intros. pose proof (pow2_pos k). pose proof (pow2_lt k 32).
  assert (ispow2 (2 ^ k) = true) as -> by (apply ispow2_spec; [lia|by rewrite Z.log2_pow2 by lia]).
  destruct (2 ^ k =? 0) eqn:E; zb; [lia|done].
Qed.

Definition size_valid (s : p2ra_state) (size : Z) : Prop := ∃ k, 0 ≤ k < bucket_count s ∧ size = 2 ^ k.

(** Some aligned run of [size] integers is free. *)
Definition run_free (s : p2ra_state) (size a : Z) : Prop :=
  a mod size = 0 ∧ ∀ x, a ≤ x < a + size → x ∈ ids (free_blocks s).

Lemma aligned_cover b i x j a :
  block_ok i b → 0 ≤ j ≤ i → a mod 2 ^ j = 0 → x ∈ block_ids b → a ≤ x < a + 2 ^ j →
  start b ≤ a ∧ a + 2 ^ j ≤ start b + 2 ^ i.
Proof.
  intros (Hbi & _ & Hal & _) Hj Ha Hx Hax. unfold block_ids in Hx. apply elem_of_seqZ in Hx.
  rewrite Hbi in Hx. pose proof (pow2_pos j ltac:(lia)).
  assert (Hp : 2 ^ i = 2 ^ (i - j) * 2 ^ j) by (rewrite <- Z.pow_add_r by lia; f_equal; lia).
  pose proof (pow2_pos (i - j) ltac:(lia)).
  apply Z.mod_divide in Hal as [u Hu]; [|lia]. apply Z.mod_divide in Ha as [v Hv]; [|lia].
  rewrite Hp in *. set (q := 2 ^ (i - j)) in *. set (p := 2 ^ j) in *.
  assert (u * q ≤ v) by nia. assert (v < u * q + q) by nia. split; nia.
Qed.

(** Coalescing is complete: a free aligned run lies inside one free block. *)
Lemma run_in_block s j : fwf s → 0 ≤ j < bucket_count s → ∀ a, run_free s (2 ^ j) a →
  ∃ i l b, j ≤ Z.of_nat i ∧ free_block_buckets s !! i = Some l ∧ b ∈ l ∧
    start b ≤ a ∧ a + 2 ^ j ≤ start b + 2 ^ Z.of_nat i.
Proof.
  intros Hf [Hj0 Hj]. revert Hj. pattern j. apply natlike_ind; [| |done]; clear j Hj0.
  - intros Hj a [_ Hrun]. specialize (Hrun a ltac:(lia)).
    apply elem_of_ids in Hrun as (b & Hb & Hx). unfold free_blocks in Hb.
    apply list_elem_of_In, in_concat in Hb as (l & Hl & Hb).
    apply list_elem_of_In, list_elem_of_lookup in Hl as [i Hi]. apply list_elem_of_In in Hb.
    exists i, l, b. split_and!; [lia|done|done|..];
      pose proof (fwf_ok s Hf _ _ Hi) as Hok; rewrite Forall_forall in Hok; specialize (Hok b Hb);
      eapply (aligned_cover b (Z.of_nat i) a 0 a); rewrite ?Z.mod_1_r; (done || lia).
  - intros j Hj0 IH Hj a [Hal Hrun]. change (Z.succ j) with (j + 1) in *.
    destruct (aligned_half j a Hj0 Hal) as [Ha1 Ha2]. pose proof (pow2_pos j Hj0).
    rewrite pow2_succ in Hrun |- * by lia.
    destruct (IH ltac:(lia) a) as (i1 & l1 & b1 & Hi1 & Hl1 & Hb1 & Hs1 & He1);
      [split; [done|intros; apply Hrun; lia]|].
    destruct (IH ltac:(lia) (a + 2 ^ j)) as (i2 & l2 & b2 & Hi2 & Hl2 & Hb2 & Hs2 & He2);
      [split; [done|intros; apply Hrun; lia]|].
    pose proof (fwf_ok s Hf _ _ Hl1) as Hok1. rewrite Forall_forall in Hok1. specialize (Hok1 b1 Hb1).
    pose proof (fwf_ok s Hf _ _ Hl2) as Hok2. rewrite Forall_forall in Hok2. specialize (Hok2 b2 Hb2).
    pose proof Hok1 as (Hk1 & _ & Hm1 & _). pose proof Hok2 as (Hk2 & _ & Hm2 & _).
    destruct (decide (Z.of_nat i1 = j)) as [E1|E1].
    + destruct (decide (Z.of_nat i2 = j)) as [E2|E2].
      * exfalso. assert (i2 = i1) as -> by lia. assert (l2 = l1) as -> by congruence.
        rewrite E1 in *. apply (fwf_coal s Hf _ _ b1 b2 Hl1); [lia|done|done|].
        assert (start b1 = a) by lia. assert (start b2 = a + 2 ^ j) by lia.
        split_and!; [congruence|by rewrite Hk1; congruence|rewrite Hk1; lia].
      * exists i2, l2, b2. rewrite <- pow2_succ in * by lia.
        destruct (aligned_cover b2 (Z.of_nat i2) (a + 2 ^ j) (j + 1) a) as [? ?]; [done|lia|done| | |].
        -- apply elem_of_seqZ. rewrite Hk2. lia.
        -- rewrite pow2_succ; lia.
        -- split_and!; [lia|done..].
    + exists i1, l1, b1. rewrite <- pow2_succ in * by lia.
      destruct (aligned_cover b1 (Z.of_nat i1) a (j + 1) a) as [? ?]; [done|lia|done| | |].
      * apply elem_of_seqZ. rewrite Hk1. lia.
      * rewrite pow2_succ; lia.
      * split_and!; [lia|done..].
Qed.

Lemma empty_no_run s k : fwf s → 0 ≤ k < bucket_count s →
  (∀ j, k ≤ j < bucket_count s → free_block_buckets s !! Z.to_nat j = Some []) →
  ∀ a, ¬ run_free s (2 ^ k) a.
Proof.
  intros Hf Hk Hem a Hrun.
  destruct (run_in_block s k Hf Hk a Hrun) as (i & l & b & Hi & Hl & Hb & _).
  pose proof (lookup_lt_Some _ _ _ Hl). pose proof (fwf_len s Hf).
  specialize (Hem (Z.of_nat i) ltac:(lia)). rewrite Nat2Z.id in Hem. set_solver.
Qed.

(** The state changes of allocation and freeing keep [wf] when the integers
    are conserved. *)
Lemma wf_move s s' al :
  wf s → fwf s' → ranges s' = ranges s → bucket_count s' = bucket_count s →
  Forall (λ b, 0 ≤ bucket b < bucket_count s ∧ block_ok (bucket b) b) al →
  ids (free_blocks s') ++ ids al ≡ₚ ids (free_blocks s) ++ ids (allocated_blocks s) →
  wf (set_allocated s' al).
Proof.
  intros [Hf Ha Hr Hp Hpo] Hf' Er Eb Hal Hids. split; simpl.
  - destruct Hf'. by split.
  - by rewrite Eb.
  - by rewrite Er.
  - rewrite Er, <- Hp, !ids_app. exact Hids.
  - by rewrite Er.
Qed.

Lemma wf_move' s s' :
  wf s → fwf s' → same_books s s' → ids (free_blocks s') ≡ₚ ids (free_blocks s) → wf s'.
Proof.
  intros Hw Hf' (Er & Ea & Eb) Hids.
  replace s' with (set_allocated s' (allocated_blocks s)) by (rewrite <- Ea; by destruct s').
  eapply wf_move; [done|done|done|done|by apply wf_alloc|by rewrite Hids].
Qed.

(** The result of an allocation, branch by branch. *)
Definition alloc_result (s : p2ra_state) (size ret : Z) (out : option Z) (s' : p2ra_state) : Prop :=
  match out with
  | Some a => ret = NO_ERROR ∧ run_free s size a ∧
      allocated_blocks s' = mk_block (log2_uint size) a :: allocated_blocks s
  | None => allocated_blocks s' = allocated_blocks s ∧
      ((ret = ERR_INVALID_ARGS ∧ ¬ size_valid s size ∧ s' = s) ∨
       (ret = ERR_NO_RESOURCES ∧ size_valid s size ∧ (∀ a, ¬ run_free s size a) ∧ s' = s) ∨
       (ret = ERR_NO_MEMORY ∧ size_valid s size ∧ ids (free_blocks s') ≡ₚ ids (free_blocks s)))
  end.

Lemma allocate_found s k m blk b l :
  wf s → 0 ≤ k ≤ b → b < bucket_count s → 
  (∀ j, k ≤ j < b → free_block_buckets s !! Z.to_nat j = Some []) →
  free_block_buckets s !! Z.to_nat b = Some (blk :: l) →
  ∃ ret blk' s2 m', split_block (Z.to_nat (b - k)) (set_bucket s b l) blk b k m = Some (ret, blk', s2, m') ∧
    same_books s s2 ∧
    ((ret = NO_ERROR ∧ blk' = mk_block k (start blk) ∧ run_free s (2 ^ k) (start blk) ∧
      wf (set_allocated s2 (blk' :: allocated_blocks s))) ∨
     (ret = ERR_NO_MEMORY ∧ wf s2 ∧ ids (free_blocks s2) ≡ₚ ids (free_blocks s))).
Proof.
  intros Hw Hk Hb Hem Hl. pose proof (wf_free s Hw) as Hf.
  destruct (remove_head_ok s b blk l Hf ltac:(lia) Hl) as (Hf1 & Hblk & Hids1).
  destruct (split_block_ok (Z.to_nat (b - k)) (set_bucket s b l) blk b k m)
    as (ret & blk' & s2 & m' & Hr & Hf2 & Hsb & Hcase); [done|lia|done|done| | |lia|].
  { rewrite Hids1. apply Hf. }
  { intros j Hj. simpl. rewrite list_lookup_insert_ne by lia. auto. }
  exists ret, blk', s2, m'. split_and!; [done|exact Hsb|].
  rewrite Hids1 in Hcase. destruct Hcase as [(-> & -> & Hok & Hids)|(-> & Hids)]; [left|right].
  - split_and!; [done|done| |].
    + split; [by destruct Hok as (_ & _ & ? & _)|]. intros x Hx. rewrite <- Hids. apply elem_of_app. left.
      apply elem_of_seqZ. simpl. lia.
    + destruct Hsb as (Er & _ & Eb). eapply wf_move; [done|done|exact Er|exact Eb| |].
      * constructor; [simpl; split; [lia|done]|by apply wf_alloc].
      * rewrite ids_cons, <- Hids, (Permutation_app_comm (block_ids _) (ids (free_blocks s2))).
        by rewrite (assoc_L (++)).
  - split_and!; [done|by eapply wf_move'|done].
Qed.

Lemma allocate_ok s size m :
  wf s → is_u32 size →
  ∃ ret out s' m', p2ra_allocate_range s size m = Some (ret, out, s', m') ∧
    wf s' ∧ ranges s' = ranges s ∧ bucket_count s' = bucket_count s ∧ alloc_result s size ret out s'.
Proof.
  intros Hw Hsz. pose proof (wf_free s Hw) as Hf. pose proof (fwf_bc s Hf) as Hbc. unfold p2ra_allocate_range.
  destruct ((size =? 0) || negb (ispow2 size)) eqn:Esz.
  { do 4 eexists. split_and!; [done..|]. split; [done|]. left. split_and!; [done| |done].
    intros (k & Hk & ->). rewrite size_pow2 in Esz by lia. done. }
  destruct (size_good size Hsz Esz) as [Hs Hk0]. set (k := log2_uint size) in *.
  rewrite Z.geb_leb. destruct (bucket_count s <=? k) eqn:Ek; zb.
  { do 4 eexists. split_and!; [done..|]. split; [done|]. left. split_and!; [done| |done].
    intros (k' & Hk' & Hk2). assert (k = k') by (unfold k; rewrite Hk2; apply log2_uint_pow2; lia). lia. }
  assert (Hval : size_valid s size) by (exists k; split; [lia|done]).
  destruct (find_block _ s k) as [[[blk b] s1]|] eqn:Efb.
  - apply find_block_some in Efb as (Hb & Hem & l & Hl & ->); [|done|lia].
    destruct (remove_head_ok s b blk l Hf ltac:(lia) Hl) as (_ & (Hbk & _) & _).
    rewrite Hbk, Z.eqb_refl, Z.geb_leb. assert ((k <=? b) = true) as -> by (apply Z.leb_le; lia). simpl.
    destruct (allocate_found s k m blk b l Hw ltac:(lia) ltac:(lia) Hem Hl)
      as (ret & blk' & s2 & m' & -> & (Er & Ea & Eb) & [(-> & -> & Hrun & Hw')|(-> & Hw' & Hids)]); simpl.
    + do 4 eexists. rewrite Ea. split_and!; [done|done|done|done|]. simpl. split_and!; [done| |by fold k].
      by rewrite Hs.
    + do 4 eexists. split_and!; [done|done|done|done|]. split; [done|]. right; right. done.
  - do 4 eexists. split_and!; [done..|]. split; [done|]. right; left. split_and!; [done..| |done].
    rewrite Hs. apply empty_no_run; [done|lia|]. eapply find_block_none; [done|lia| |done]. lia.
Qed.

Lemma take_block_some rs bk l : mk_block bk rs ∈ l →
  ∃ r, take_block rs bk l = Some (mk_block bk rs, r) ∧ l ≡ₚ mk_block bk rs :: r.
Proof.
  induction l as [|x l IH]; [set_solver|]. intros Hin. simpl.
  destruct ((start x =? rs) && (bucket x =? bk)) eqn:E.
  - zb. assert (x = mk_block bk rs) as -> by (destruct x; simpl in *; congruence). eauto.
  - destruct IH as (r & -> & Hp).
    { apply elem_of_cons in Hin as [<-|]; [|done]. simpl in E. by rewrite !Z.eqb_refl in E. }
    exists (x :: r). split; [done|]. by rewrite Hp, Permutation_swap.
Qed.

Lemma take_block_none rs bk l : mk_block bk rs ∉ l → take_block rs bk l = None.
Proof.
  induction l as [|x l IH]; [done|]. intros Hin. simpl.
  destruct ((start x =? rs) && (bucket x =? bk)) eqn:E.
  - zb. destruct Hin. destruct x; simpl in *; subst. by left.
  - rewrite IH; [done|]. set_solver.
Qed.

Lemma free_ok s k a :
  wf s → mk_block k a ∈ allocated_blocks s →
  ∃ s', p2ra_free_range s a (2 ^ k) = Some s' ∧ wf s' ∧ ranges s' = ranges s ∧
    bucket_count s' = bucket_count s ∧ allocated_blocks s ≡ₚ mk_block k a :: allocated_blocks s' ∧
    ids (free_blocks s') ≡ₚ seqZ a (2 ^ k) ++ ids (free_blocks s).
Proof.
  intros Hw Hin. pose proof (wf_free s Hw) as Hf. pose proof (fwf_bc s Hf).
  pose proof (wf_alloc s Hw) as Hal. pose proof Hal as Hblk. rewrite Forall_forall in Hblk.
  destruct (Hblk _ Hin) as [Hk Hok]. simpl in Hk, Hok.
  destruct (take_block_some a k _ Hin) as (r & Ht & Hp).
  unfold p2ra_free_range. rewrite size_pow2, log2_uint_pow2, Ht by lia.
  rewrite Hp in Hal. apply Forall_cons in Hal as [_ Hr].
  pose proof (wf_part s Hw) as Hpart. rewrite ids_app, Hp, ids_cons in Hpart.
  assert (Hnd : NoDup (block_ids (mk_block k a) ++ ids (free_blocks s) ++ ids r)).
  { rewrite Permutation_app_swap_app, Hpart. apply Hw. }
  destruct (return_free_block_ok (set_allocated s r) (mk_block k a) true) as (s' & -> & Hf' & (Er & Ea & Eb) & Hids);
    [by destruct Hf; split|done|done| |by left|].
  { rewrite (assoc_L (++)) in Hnd. by apply NoDup_app in Hnd as [? _]. }
  exists s'. simpl in *. split_and!; [done| |done|done|by rewrite Ea|done].
  replace s' with (set_allocated s' r) by (rewrite <- Ea; by destruct s').
  eapply wf_move; [done|done|done|done|done|].
  change (free_blocks (set_allocated s r)) with (free_blocks s) in Hids.
  rewrite Hids, Hp, ids_cons, <- (assoc_L (++)). apply Permutation_app_swap_app.
Qed.

Lemma insert_back s b blk l u f :
  fwf s → 0 ≤ b < bucket_count s → free_block_buckets s !! Z.to_nat b = Some (blk :: l) →
  p2ra_return_free_block (S f) (set_unused (set_bucket s b l) u) blk true = Some (set_unused s u).
Proof.
  intros Hf Hb Hl. destruct (remove_head_ok s b blk l Hf Hb Hl) as (_ & Hok & _).
  pose proof (fwf_bc s Hf). pose proof (fwf_len s Hf).
  pose proof (fwf_sorted s Hf _ _ Hl) as Hs. apply StronglySorted_inv in Hs as [Hs Hlt].
  pose proof (fwf_ok s Hf _ _ Hl) as Hall. rewrite Z2Nat.id in Hall by lia. apply Forall_cons in Hall as [_ Hall].
  rewrite Forall_forall in Hlt. unfold lt_start in Hlt.
  destruct (return_round (set_unused (set_bucket s b l) u) blk f true b l)
    as [(l1 & l2 & -> & Hso & _ & ->)|(Hlast & l1 & l2 & x & fi & se & -> & Hfs & Hbud & _)];
    [done|simpl; lia|done|simpl; apply list_lookup_insert_eq; lia|done|done| | |].
  - intros x Hx Heq. specialize (Hlt x Hx). lia.
  - assert (l1 = []) as ->.
    { destruct l1 as [|y l1]; [done|]. apply StronglySorted_app in Hso as (Hso & _).
      specialize (Hso y blk ltac:(set_solver) ltac:(set_solver)). specialize (Hlt y ltac:(set_solver)).
      unfold lt_start in Hso. lia. }
    unfold set_bucket, set_unused. simpl. rewrite list_insert_insert_eq, list_insert_id by done. done.
  - exfalso. simpl in Hlast. destruct Hfs as [[-> ->]|[-> ->]];
      (eapply (fwf_coal s Hf _ _ _ _ Hl); [lia| | |exact Hbud]; set_solver).
Qed.

Lemma merge_back s b a u g :
  0 < b < bucket_count s → bucket_count s ≤ 32 → Z.of_nat (length (free_block_buckets s)) = bucket_count s →
  block_ok b (mk_block b a) → free_block_buckets s !! Z.to_nat (b - 1) = Some [] →
  ∃ u', p2ra_return_free_block (S g) 
          (set_unused (set_bucket s (b - 1) [mk_block (b - 1) (a + 2 ^ (b - 1))]) u) (mk_block (b - 1) a) true =
        p2ra_return_free_block g (set_unused s u') (mk_block b a) true.
Proof.
  intros Hb Hbc Hlen Hok Hem. destruct (block_halves b (mk_block b a) ltac:(lia) Hok) as (H1 & H2 & _).
  simpl in H1, H2. pose proof (pow2_pos (b - 1) ltac:(lia)) as Hp.
  destruct Hok as (_ & _ & Hal & _). simpl in Hal.
  set (x := mk_block (b - 1) (a + 2 ^ (b - 1))) in *.
  assert (Hbud : buddies (mk_block (b - 1) a) x).
  { split_and!; simpl; [done|by replace (b - 1 + 1) with b by lia|done]. }
  destruct (return_round (set_unused (set_bucket s (b - 1) [x]) u) (mk_block (b - 1) a) g true (b - 1) [x])
    as [(l1 & l2 & _ & _ & Hno & _)|(Hlast & l1 & l2 & y & fi & se & Hl & Hfs & Hbud' & ->)];
    [simpl; lia|simpl; lia|done|simpl; apply list_lookup_insert_eq; lia|apply SSorted_cons; constructor|by rewrite Forall_singleton| | |].
  - intros y Hy. apply list_elem_of_singleton in Hy as ->. simpl. lia.
  - destruct (Hno ltac:(simpl; lia) x ltac:(by left)) as [[] _]. done.
  - assert (l1 = [] ∧ y = x ∧ l2 = []) as (-> & -> & ->).
    { destruct l1 as [|? [|]]; simpl in Hl; [|done..]. by simplify_eq. }
    destruct Hfs as [[-> ->]|[-> ->]].
    2:{ destruct Hbud' as (_ & _ & Hst). simpl in Hst. lia. }
    simpl start. replace (b - 1 + 1) with b by lia.
    eexists. unfold set_unused, set_bucket. simpl.
    rewrite list_insert_insert_eq, list_insert_id by done. done.
Qed.

Lemma split_then_return fuel : ∀ s blk b orig m blk' s2 m' g,
  bucket_count s ≤ 32 → Z.of_nat (length (free_block_buckets s)) = bucket_count s →
  0 ≤ orig ≤ b → b < bucket_count s → block_ok b blk →
  (∀ j, orig ≤ j < b → free_block_buckets s !! Z.to_nat j = Some []) →
  split_block fuel s blk b orig m = Some (NO_ERROR, blk', s2, m') →
  ∃ u, p2ra_return_free_block (Z.to_nat (b - orig) + g) s2 blk' true =
       p2ra_return_free_block g (set_unused s u) blk true.
Proof.
  induction fuel as [|fuel IH]; intros s blk b orig m blk' s2 m' g Hbc Hlen Ho Hb Hblk Hem; simpl;
    rewrite Z.gtb_ltb; destruct (orig <? b) eqn:E; zb; simpl; try done.
  1,3: assert (b = orig) as -> by lia; intros [= <- <- <-]; rewrite Z.sub_diag; exists (unused_blocks s); by destruct s.
  destruct (p2ra_get_unused_block s m) as [[[w|] s1] m1] eqn:Eg; apply get_unused_frame in Eg as (un & -> & _).
  2:{ destruct (return_free_block _ _ _); [|done]. intros [= Hbad]. }
  destruct (b =? 0) eqn:E0; zb; [lia|].
  destruct (block_halves b blk ltac:(lia) Hblk) as (Hh1 & Hh2 & _).
  pose proof (block_end_u32 (b - 1) (mk_block (b - 1) (start blk)) ltac:(lia) Hh1) as Hend.
  simpl in Hend. rewrite Hend; clear Hend.
  rewrite (return_into_empty _ (b - 1)); [|simpl; lia|simpl; lia|done|apply Hem; lia].
  intros Hsp. eapply (IH _ _ _ _ _ _ _ _ (S g)) in Hsp as (u & Hu); simpl; [|done|by rewrite length_insert|lia|lia|done|].
  - replace (Z.to_nat (b - orig) + g)%nat with (Z.to_nat (b - 1 - orig) + S g)%nat by lia. rewrite Hu.
    destruct (merge_back s b (start blk) u g) as (u' & Hm); [lia|done|done| |apply Hem; lia|].
    { destruct Hblk as (Hk & ?). by split. }
    exists u'. destruct Hblk as (Hk & _). destruct blk; simpl in *; subst. exact Hm.
  - intros j Hj. simpl. rewrite list_lookup_insert_ne by lia. apply Hem. lia.
Qed.

(** Freeing what was just allocated restores the free lists. *)
Lemma alloc_free s size m a s' m' :
  wf s → is_u32 size → p2ra_allocate_range s size m = Some (NO_ERROR, Some a, s', m') →
  ∃ u, p2ra_free_range s' a size = Some (set_unused s u).
Proof.
  intros Hw Hsz. pose proof (wf_free s Hw) as Hf. pose proof (fwf_bc s Hf). unfold p2ra_allocate_range, p2ra_free_range.
  destruct ((size =? 0) || negb (ispow2 size)) eqn:Esz; [done|].
  destruct (size_good size Hsz Esz) as [Hs Hk0]. set (k := log2_uint size) in *.
  rewrite Z.geb_leb. destruct (bucket_count s <=? k) eqn:Ek; [done|]. zb.
  destruct (find_block _ s k) as [[[blk b] s1]|] eqn:Efb; [|done].
  apply find_block_some in Efb as (Hb & Hem & l & Hl & ->); [|done|lia].
  destruct (remove_head_ok s b blk l Hf ltac:(lia) Hl) as (_ & Hblk & _).
  pose proof Hblk as (Hbk & _).
  rewrite Hbk, Z.eqb_refl, Z.geb_leb. assert ((k <=? b) = true) as -> by (apply Z.leb_le; lia). simpl.
  destruct (allocate_found s k m blk b l Hw ltac:(lia) ltac:(lia) Hem Hl)
    as (ret & blk' & s2 & m2 & Hsp & (Er & Ea & Eb) & [(-> & -> & _ & _)|(-> & _)]); rewrite Hsp; simpl; [|done].
  intros [= <- <- <-]. simpl. rewrite !Z.eqb_refl. simpl.
  eapply (split_then_return _ _ _ _ _ _ _ _ _ (Z.to_nat (bucket_count s - (b - k)))) in Hsp as (u & Hu);
    [|simpl; lia|simpl; rewrite length_insert; apply Hf|lia|simpl; lia|done| ].
  2:{ intros j Hj. simpl. rewrite list_lookup_insert_ne by lia. auto. }
  exists u. unfold return_free_block. simpl.
  replace (set_allocated _ (allocated_blocks s2)) with s2 by (by destruct s2).
  rewrite Eb. replace (Z.to_nat (bucket_count s)) with (Z.to_nat (b - k) + Z.to_nat (bucket_count s - (b - k)))%nat by lia.
  rewrite Hu. destruct (Z.to_nat (bucket_count s - (b - k))) as [|f] eqn:Ef; [lia|].
  apply insert_back; [done|lia|done].
Qed.

(** ** Adding a range *)

Definition fits (rs rl j : Z) : Prop := rs mod 2 ^ j = 0 ∧ 2 ^ j ≤ rl.

(** The greedy decomposition of a range: each chunk is the largest one that is
    aligned with what is left, fits into it and has a bucket. *)
Inductive chunks (bc : Z) : Z → Z → list p2ra_block → Prop :=
| chunks_nil rs : chunks bc rs 0 []
| chunks_cons rs rl j bs :
    0 ≤ j < bc → fits rs rl j → (j + 1 < bc → ¬ fits rs rl (j + 1)) →
    chunks bc (rs + 2 ^ j) (rl - 2 ^ j) bs → chunks bc rs rl (mk_block j rs :: bs).

(** The growing chunk size does not overflow. *)
Definition no_wrap (bc rs rl : Z) : Prop := bc ≤ 31 ∨ rs ≠ 0 ∨ rl < 2 ^ 31.

Definition u32_interval (rs rl : Z) : Prop := 0 ≤ rs ∧ 0 ≤ rl ∧ rs + rl < 2 ^ 32.

Lemma fits_down rs rl i j : 0 ≤ i ≤ j → fits rs rl j → fits rs rl i.
Proof.
  intros Hij [Hm Hl]. pose proof (pow2_le i j Hij). pose proof (pow2_pos i ltac:(lia)). split; [|lia].
  pose proof (pow2_pos j ltac:(lia)). apply Z.mod_divide in Hm as [q ->]; [|lia].
  replace j with ((j - i) + i) by lia. rewrite Z.pow_add_r, Z.mul_assoc by lia. apply Z_mod_mult.
Qed.

Lemma fits_le_30 bc rs rl j :
  bc ≤ 32 → u32_interval rs rl → no_wrap bc rs rl → 0 ≤ j < bc → fits rs rl j → j ≤ 30.
Proof.
  intros Hbc (H0 & H1 & H2) Hnw Hj Hfit. destruct (decide (j ≤ 30)) as [|Hgt]; [done|exfalso].
  destruct (fits_down rs rl 31 j ltac:(lia) Hfit) as [Hm Hl].
  change (2 ^ 32) with (2 * 2 ^ 31) in H2. rewrite Z.mod_small in Hm by lia.
  destruct Hnw; lia.
Qed.

Lemma land_pow2 i a : 0 ≤ i < 32 → Z.land a (u32 (2 ^ i - 1)) = a mod 2 ^ i.
Proof. intros. by rewrite <- land_align, shl1_pow by lia. Qed.

Lemma fits_test rs rl j : 0 ≤ j < 32 →
  negb (Z.land rs (u32 (2 ^ j - 1)) =? 0) || (rl <? 2 ^ j) = false ↔ fits rs rl j.
Proof.
  intros Hj. rewrite land_pow2 by lia. unfold fits.
  rewrite orb_false_iff, negb_false_iff, Z.eqb_eq, Z.ltb_ge. done.
Qed.

Definition chunk_at (j : Z) : chunk := mk_chunk j (2 ^ j).

Lemma shrink_spec rs rl fuel : ∀ j sh,
  0 ≤ j < 32 → 0 < rl → j < Z.of_nat fuel →
  ∃ i, 0 ≤ i ≤ j ∧ fits rs rl i ∧ (i < j → ¬ fits rs rl (i + 1)) ∧
    shrink fuel rs rl (chunk_at j) sh = (chunk_at i, if decide (i < j) then true else sh).
Proof.
  induction fuel as [|fuel IH]; intros j sh Hj Hrl Hfu; [lia|]. simpl.
  destruct (negb _ || _) eqn:E.
  - assert (Hnf : ¬ fits rs rl j) by (intros Hf; apply (fits_test rs rl j) in Hf; [congruence|lia]).
    assert (Hj0 : j ≠ 0) by (intros ->; apply Hnf; split; [apply Z.mod_1_r|simpl; lia]).
    rewrite u32_id by (unfold is_u32; lia).
    rewrite Z.shiftr_div_pow2 by lia. replace (2 ^ j) with (2 ^ (j - 1) * 2).
    2:{ replace j with (j - 1 + 1) at 2 by lia. rewrite pow2_succ by lia. lia. }
    change (2 ^ 1) with 2. rewrite Z.div_mul by lia. fold (chunk_at (j - 1)).
    destruct (IH (j - 1) true ltac:(lia) Hrl ltac:(lia)) as (i & Hi & Hfi & Hmax & ->).
    exists i. split_and!; [lia|lia|done| |].
    + intros _. destruct (decide (i < j - 1)) as [|]; [auto|]. by replace (i + 1) with j by lia.
    + rewrite (decide_True (P := i < j)) by lia. by case_decide.
  - apply (fits_test rs rl j ltac:(lia)) in E. exists j. split_and!; [lia|lia|done|lia|].
    by rewrite decide_False by lia.
Qed.

Lemma grow_spec bc rs rl fuel : ∀ j,
  bc ≤ 32 → u32_interval rs rl → no_wrap bc rs rl → 0 ≤ j < bc → fits rs rl j → bc - j ≤ Z.of_nat fuel →
  ∃ i, j ≤ i < bc ∧ fits rs rl i ∧ (i + 1 < bc → ¬ fits rs rl (i + 1)) ∧
    grow fuel bc rs rl (2 ^ (bc - 1)) (u32 (Z.shiftl (2 ^ j) 1)) (chunk_at j) = Some (chunk_at i).
Proof.
  induction fuel as [|fuel IH]; intros j Hbc Hint Hnw Hj Hfit Hfu; [lia|].
  pose proof (fits_le_30 bc rs rl j Hbc Hint Hnw Hj Hfit) as Hj30.
  assert (Htmp : u32 (Z.shiftl (2 ^ j) 1) = 2 ^ (j + 1)).
  { rewrite Z.shiftl_mul_pow2, pow2_succ by lia. pose proof (pow2_pos j ltac:(lia)).
    pose proof (pow2_le j 30 ltac:(lia)). change (2 ^ 1) with 2. rewrite u32_id; [lia|].
    unfold is_u32. change (2 ^ 32) with (4 * 2 ^ 30). lia. }
  rewrite Htmp. simpl. destruct (_ && _ && _) eqn:E.
  - rewrite !andb_true_iff, !Z.leb_le, Z.eqb_eq in E. destruct E as [[Hmax Hrl] Hal].
    rewrite land_pow2 in Hal by lia.
    assert (Hlt : j + 1 < bc). { apply Z.pow_le_mono_r_iff in Hmax; lia. }
    rewrite (u32_id (j + 1)) by (unfold is_u32; lia).
    assert ((j + 1 <? bc) = true) as -> by (apply Z.ltb_lt; lia).
    destruct (IH (j + 1) Hbc Hint Hnw ltac:(lia) ltac:(done) ltac:(lia)) as (i & Hi & Hfi & Hmx & Hg).
    exists i. split_and!; [lia|lia|done|done|exact Hg].
  - exists j. split_and!; [lia|lia|done| |done]. intros Hlt [Hal Hle].
    assert (2 ^ (j + 1) ≤ 2 ^ (bc - 1)) by (apply pow2_le; lia).
    rewrite land_pow2, Hal in E by lia.
    rewrite !andb_false_iff, !Z.leb_gt, Z.eqb_neq in E. lia.
Qed.

Lemma chunk_ok_at bc rs rl j : 0 ≤ j < bc → bc ≤ 32 → fits rs rl j → chunk_ok bc rs rl (chunk_at j) = true.
Proof.
  intros Hj Hbc [Hal Hle]. unfold chunk_ok. simpl. rewrite shl1_pow by lia.
  rewrite land_pow2, Hal by lia. pose proof (pow2_pos j ltac:(lia)).
  rewrite !andb_true_iff, negb_true_iff, !Z.eqb_eq, Z.eqb_neq, Z.ltb_lt, Z.leb_le. lia.
Qed.

Lemma grow_S fuel bc rs rl mx tmp c :
  grow (S fuel) bc rs rl mx tmp c =
    if (tmp <=? mx) && (tmp <=? rl) && (Z.land rs (u32 (tmp - 1)) =? 0)
    then if u32 (c_bucket c + 1) <? bc
         then grow fuel bc rs rl mx (u32 (Z.shiftl tmp 1)) (mk_chunk (u32 (c_bucket c + 1)) tmp) else None
    else Some c.
Proof. reflexivity. Qed.

#[local] Arguments shrink : simpl never.
#[local] Arguments grow : simpl never.

(** One turn of the chunking loop takes the largest chunk. *)
Lemma next_chunk bc rs rl j :
  bc ≤ 32 → u32_interval rs rl → 0 < rl → no_wrap bc rs rl → 0 ≤ j < bc →
  ∃ i, 0 ≤ i < bc ∧ fits rs rl i ∧ (i + 1 < bc → ¬ fits rs rl (i + 1)) ∧
    (let '(c1, shrunk) := shrink 33 rs rl (chunk_at j) false in
     if shrunk then Some c1
     else grow 33 bc rs rl (2 ^ (bc - 1)) (u32 (Z.shiftl (c_size c1) 1)) c1) = Some (chunk_at i).
Proof.
  intros Hbc Hint Hrl Hnw Hj.
  destruct (shrink_spec rs rl 33 j false ltac:(lia) Hrl ltac:(lia)) as (i & Hi & Hfit & Hmax & ->).
  case_decide as Hlt.
  - exists i. split_and!; [lia|lia|done|auto|done].
  - assert (i = j) as -> by lia.
    destruct (grow_spec bc rs rl 33 j Hbc Hint Hnw Hj Hfit ltac:(lia)) as (k & ? & ? & ? & ?).
    exists k. split_and!; [lia|lia|done|done|done].
Qed.

Lemma break_range_spec fuel : ∀ s j rs rl nb m,
  bucket_count s ≤ 32 → u32_interval rs rl → no_wrap (bucket_count s) rs rl →
  0 ≤ j < bucket_count s → rl ≤ Z.of_nat fuel →
  ∃ u m', (∃ bs, chunks (bucket_count s) rs rl bs ∧
      break_range fuel s (2 ^ (bucket_count s - 1)) (chunk_at j) rs rl nb m = Some (NO_ERROR, nb ++ bs, set_unused s u, m')) ∨
    (∃ bs, break_range fuel s (2 ^ (bucket_count s - 1)) (chunk_at j) rs rl nb m = Some (ERR_NO_MEMORY, bs, set_unused s u, m')).
Proof.
  induction fuel as [|fuel IH]; intros s j rs rl nb m Hbc Hint Hnw Hj Hfu; simpl;
    (destruct (rl =? 0) eqn:E0; zb;
      [exists (unused_blocks s), m; left; exists []; subst rl; rewrite app_nil_r;
       split; [constructor|by destruct s]|]); destruct Hint as (Hr0 & Hl0 & Hend); [lia|].
  destruct (next_chunk (bucket_count s) rs rl j Hbc ltac:(done) ltac:(lia) Hnw Hj) as (i & Hi & Hfit & Hmax & Hnext).
  destruct (shrink 33 rs rl (chunk_at j) false) as [c1 sh]. rewrite Hnext.
  rewrite chunk_ok_at by (done || lia). simpl.
  destruct (p2ra_get_unused_block s m) as [[[w|] s1] m1] eqn:Eg; apply get_unused_frame in Eg as (un & -> & _).
  2:{ exists un, m1. right. by eexists. }
  pose proof Hfit as [_ Hle]. pose proof (pow2_pos i ltac:(lia)).
  rewrite !u32_id by (unfold is_u32; lia).
  destruct (IH (set_unused s un) i (rs + 2 ^ i) (rl - 2 ^ i) (nb ++ [mk_block i rs]) m1)
    as (u & m' & [(bs & Hch & Hbr)|(bs & Hbr)]); simpl; [done|split_and!; lia|right; left; lia|done|lia|..].
  - exists u, m'. left. exists (mk_block i rs :: bs). split; [by constructor|].
    simpl in Hbr. rewrite Hbr. by rewrite <- (assoc_L (++)).
  - exists u, m'. right. eauto.
Qed.

Lemma chunks_facts bc rs rl bs : chunks bc rs rl bs → u32_interval rs rl → 
  ids bs = seqZ rs rl ∧ Forall (λ b, 0 ≤ bucket b < bc ∧ block_ok (bucket b) b) bs ∧
  Forall (λ b, rs ≤ start b ∧ start b + 2 ^ bucket b ≤ rs + rl) bs.
Proof.
  induction 1 as [rs|rs rl j bs Hj [Hal Hle] Hmax Hch IH]; intros (H0 & H1 & H2).
  { split_and!; constructor. }
  pose proof (pow2_pos j ltac:(lia)).
  destruct IH as (Hids & Hok & Hin); [split_and!; lia|]. split_and!.
  - rewrite ids_cons, Hids. unfold block_ids. simpl. rewrite <- seqZ_split by lia. f_equal; lia.
  - constructor; [|done]. simpl. split; [done|]. split_and!; simpl; (done || lia).
  - constructor; [simpl; lia|]. eapply Forall_impl; [exact Hin|]. simpl. intros; lia.
Qed.

(** The greedy decomposition leaves no pair of buddies. *)
Lemma chunks_coalesced bc rs rl bs : chunks bc rs rl bs → u32_interval rs rl → 
  ∀ a b, a ∈ bs → b ∈ bs → bucket a + 1 < bc → ¬ buddies a b.
Proof.
  induction 1 as [rs|rs rl j bs Hj [Hal Hle] Hmax Hch IH]; intros Hint a b Ha Hb Hlt Hbud; [set_solver|].
  pose proof (pow2_pos j ltac:(lia)).
  assert (Hint' : u32_interval (rs + 2 ^ j) (rl - 2 ^ j)) by (destruct Hint as (?&?&?); split_and!; lia).
  destruct (chunks_facts _ _ _ _ Hch Hint') as (_ & _ & Hin). rewrite Forall_forall in Hin.
  pose proof Hbud as (Hk & Hm & Hst).
  apply elem_of_cons in Ha as [->|Ha]; apply elem_of_cons in Hb as [->|Hb]; simpl in *.
  - lia.
  - apply Hmax; [lia|]. split; [done|]. specialize (Hin b Hb). simpl in Hin. rewrite <- Hk in Hin.
    rewrite pow2_succ by lia. lia.
  - specialize (Hin a Ha). simpl in Hin. pose proof (pow2_pos (bucket a) ltac:(lia)). lia.
  - by apply (IH Hint' a b).
Qed.

Lemma return_false_cases s b :
  fwf s → 0 ≤ bucket b < bucket_count s → block_ok (bucket b) b →
  NoDup (block_ids b ++ ids (free_blocks s)) →
  (no_buddy s b ∧ ∃ l1 l2, free_block_buckets s !! Z.to_nat (bucket b) = Some (l1 ++ l2) ∧
     let s' := set_bucket s (bucket b) (l1 ++ b :: l2) in
     return_free_block s b false = Some s' ∧ fwf s' ∧
     ids (free_blocks s') ≡ₚ block_ids b ++ ids (free_blocks s)) ∨
  (¬ no_buddy s b ∧ return_free_block s b false = None).
Proof.
  intros Hf Hi Hb Hnd. pose proof (fwf_bc s Hf).
  destruct (fwf_lookup s (bucket b) Hf Hi) as (l & Hl & Hs & Hok).
  pose proof (fresh_start s b (bucket b) l ltac:(lia) eq_refl Hl Hok Hnd) as Hne.
  unfold return_free_block. destruct (Z.to_nat (bucket_count s)) as [|f] eqn:Ef; [lia|].
  destruct (return_round s b f false (bucket b) l Hi ltac:(lia) Hb Hl Hs Hok Hne)
    as [(l1 & l2 & -> & Hs' & Hnb & ->)|(Hlt & l1 & l2 & x & fi & se & -> & Hfs & Hbud & ->)].
  - left. split; [intros Hlt l x Hl' Hx; rewrite Hl in Hl'; simplify_eq; by apply Hnb|].
    exists l1, l2. destruct (insert_no_merge s (bucket b) b l1 l2) as [Hf' Hids]; done.
  - right. split; [|done]. intros Hno. destruct (Hno Hlt _ x Hl ltac:(set_solver)) as [??]. naive_solver.
Qed.

Lemma no_buddy_insert s b l1 l2 c :
  (Z.to_nat (bucket b) < length (free_block_buckets s))%nat → 0 ≤ bucket b → 0 ≤ bucket c →
  free_block_buckets s !! Z.to_nat (bucket b) = Some (l1 ++ l2) →
  (bucket c + 1 < bucket_count s → ¬ buddies b c ∧ ¬ buddies c b) →
  no_buddy (set_bucket s (bucket b) (l1 ++ b :: l2)) c ↔ no_buddy s c.
Proof.
  intros Hlen Hb0 Hc0 Hl Hbc. unfold no_buddy. simpl. split; intros Hno Hlt l x Hlx Hx.
  - destruct (decide (bucket c = bucket b)) as [E|E].
    + rewrite E, Hl in Hlx. simplify_eq. apply (Hno Hlt (l1 ++ b :: l2)); [|set_solver].
      rewrite E. by apply list_lookup_insert_eq.
    + apply (Hno Hlt l); [|done]. by rewrite list_lookup_insert_ne by lia.
  - destruct (decide (bucket c = bucket b)) as [E|E].
    + rewrite E, list_lookup_insert_eq in Hlx by done. simplify_eq.
      assert (x = b ∨ x ∈ l1 ++ l2) as [->|Hx'] by set_solver; [by destruct (Hbc Hlt)|].
      apply (Hno Hlt (l1 ++ l2)); [by rewrite E|done].
    + rewrite list_lookup_insert_ne in Hlx by lia. by apply (Hno Hlt l).
Qed.

(** Returning the chunks succeeds exactly when none of them has a free buddy. *)
Lemma return_blocks_cases bs : ∀ s,
  fwf s → Forall (λ b, 0 ≤ bucket b < bucket_count s ∧ block_ok (bucket b) b) bs →
  (∀ a b, a ∈ bs → b ∈ bs → bucket a + 1 < bucket_count s → ¬ buddies a b) →
  NoDup (ids bs ++ ids (free_blocks s)) →
  (Forall (no_buddy s) bs ∧ ∃ s', return_blocks s bs = Some s' ∧ fwf s' ∧ same_books s s' ∧
     ids (free_blocks s') ≡ₚ ids bs ++ ids (free_blocks s)) ∨
  (¬ Forall (no_buddy s) bs ∧ return_blocks s bs = None).
Proof.
  induction bs as [|b bs IH]; intros s Hf Hok Hco Hnd; cbn [return_blocks].
  { left. split; [done|]. by exists s. }
  apply Forall_cons in Hok as [[Hi Hb] Hok]. rewrite ids_cons, <- (assoc_L (++)) in Hnd.
  pose proof Hnd as Hnd'. rewrite Permutation_app_swap_app in Hnd'.
  apply NoDup_app in Hnd' as (_ & _ & Hnd1).
  destruct (return_false_cases s b Hf Hi Hb Hnd1) as [(Hno & l1 & l2 & Hl & -> & Hf' & Hids)|[Hno ->]].
  2:{ right. split; [|done]. intros HF. apply Forall_cons in HF as [? _]. done. }
  pose proof (fwf_len s Hf) as Hlen.
  assert (Hiff : Forall (no_buddy (set_bucket s (bucket b) (l1 ++ b :: l2))) bs ↔ Forall (no_buddy s) bs).
  { rewrite !Forall_forall. rewrite Forall_forall in Hok.
    assert (Hx : ∀ c, c ∈ bs → no_buddy (set_bucket s (bucket b) (l1 ++ b :: l2)) c ↔ no_buddy s c).
    { intros c Hc. destruct (Hok c Hc) as [Hc0 _]. apply no_buddy_insert; [lia|lia|lia|done|].
      intros Hlt. split; [|apply Hco; [set_solver..|done]].
      intros Hbud. pose proof Hbud as (Hk & _). eapply (Hco b c); [set_solver..|lia|done]. }
    split; intros HF c Hc; apply Hx; auto. }
  destruct (IH (set_bucket s (bucket b) (l1 ++ b :: l2))) as [(HF & s' & -> & Hf2 & Hsb & Hids2)|[HF ->]]; [done|done| | |left|right].
  - intros a c Ha Hc. apply Hco; set_solver.
  - rewrite Hids. by rewrite Permutation_app_swap_app.
  - split; [constructor; [done|by apply Hiff]|]. exists s'. split_and!; [done|done|exact Hsb|].
    rewrite Hids2, Hids, ids_cons, <- (assoc_L (++)). apply Permutation_app_swap_app.
  - split; [|done]. rewrite Forall_cons, <- Hiff. naive_solver.
Qed.

Lemma overlap_spec rs rl r :
  u32_interval rs rl → 0 < rl → 0 ≤ r_start r ∧ 0 < r_len r ∧ r_start r + r_len r < 2 ^ 32 →
  ranges_overlap rs rl r = true ↔ ∃ x, x ∈ seqZ rs rl ∧ x ∈ range_ids r.
Proof.
  intros (H0 & H1 & H2) Hrl (H3 & H4 & H5). unfold ranges_overlap, range_ids.
  rewrite !u32_id by (unfold is_u32; lia).
  rewrite orb_true_iff, !andb_true_iff, !Z.geb_le, !Z.ltb_lt. setoid_rewrite elem_of_seqZ. split.
  - intros [?|?]; [exists (r_start r)|exists rs]; lia.
  - intros (x & ? & ?). lia.
Qed.

Lemma existsb_overlap_spec s rs rl :
  wf s → u32_interval rs rl → 0 < rl →
  existsb (ranges_overlap rs rl) (ranges s) = true ↔ ∃ x, x ∈ seqZ rs rl ∧ x ∈ pool (ranges s).
Proof.
  intros Hw Hint Hrl. pose proof (wf_ranges s Hw) as Hr. rewrite Forall_forall in Hr.
  rewrite existsb_exists. unfold pool. setoid_rewrite list_elem_of_bind. split.
  - intros (r & Hin & Ho). apply list_elem_of_In in Hin. apply overlap_spec in Ho as (x & ? & ?); [|done|done|auto].
    exists x. eauto.
  - intros (x & Hx & r & ? & Hin). exists r. split; [by apply list_elem_of_In|].
    apply overlap_spec; [done|done|auto|eauto].
Qed.

Definition range_valid (rs rl : Z) : Prop := 0 < rl ∧ rs + rl < 2 ^ 32.

Definition range_fresh (s : p2ra_state) (rs rl : Z) : Prop := ∀ x, x ∈ seqZ rs rl → x ∉ pool (ranges s).

(** The result of adding a range, branch by branch; [bs] are the chunks. *)
Definition add_result (s : p2ra_state) (rs rl ret : Z) (s' : p2ra_state) : Prop :=
  (ret = ERR_INVALID_ARGS ∧ ¬ range_valid rs rl ∧ s' = s) ∨
  (ret = ERR_ALREADY_EXISTS ∧ range_valid rs rl ∧ ¬ range_fresh s rs rl ∧ s' = s) ∨
  (ret = ERR_NO_MEMORY ∧ range_valid rs rl ∧ range_fresh s rs rl ∧ ∃ u, s' = set_unused s u) ∨
  (ret = NO_ERROR ∧ range_valid rs rl ∧ range_fresh s rs rl ∧
    ranges s' = ranges s ++ [mk_range rs rl] ∧ allocated_blocks s' = allocated_blocks s ∧
    bucket_count s' = bucket_count s ∧
    ids (free_blocks s') ≡ₚ seqZ rs rl ++ ids (free_blocks s)).

Lemma wf_unused s u : wf s → wf (set_unused s u).
Proof. intros [[]]. by split; [split|..]. Qed.

Lemma add_blocks s rs rl bs u :
  wf s → is_u32 rs → range_valid rs rl → range_fresh s rs rl → chunks (bucket_count s) rs rl bs →
  let s1 := add_ranges (set_unused s u) (mk_range rs rl) in
  (Forall (no_buddy s) bs ∧ ∃ s', return_blocks s1 bs = Some s' ∧ wf s' ∧ add_result s rs rl NO_ERROR s') ∨
  (¬ Forall (no_buddy s) bs ∧ return_blocks s1 bs = None).
Proof.
  intros Hw [Hrs0 _] [Hrl0 Hend] Hfresh Hch s1. pose proof Hw as [Hf Ha Hr Hp Hpo].
  assert (Hint : u32_interval rs rl) by (split_and!; lia).
  destruct (chunks_facts _ _ _ _ Hch Hint) as (Hids & Hok & _).
  assert (Hf1 : fwf s1) by (by destruct Hf; split).
  assert (Hnd : NoDup (seqZ rs rl ++ pool (ranges s))).
  { apply NoDup_app. split_and!; [apply NoDup_seqZ|intros x Hx; by apply Hfresh|done]. }
  destruct (return_blocks_cases bs s1 Hf1 Hok) as [(HF & s' & Hr1 & Hf' & (Er & Ea & Eb) & Hids')|[HF Hr1]].
  - intros a b Ha' Hb' Hlt. by eapply chunks_coalesced.
  - change (free_blocks s1) with (free_blocks s). rewrite Hids.
    rewrite <- Hp, ids_app, (assoc_L (++)) in Hnd. by apply NoDup_app in Hnd as [? _].
  - left. split; [done|]. exists s'. rewrite Hids in Hids'. change (free_blocks s1) with (free_blocks s) in Hids'.
    simpl in Er, Ea, Eb. split_and!; [done| |by repeat right].
    split; [done|by rewrite Ea, Eb|..|].
    + rewrite Er. apply Forall_app. split; [done|]. apply Forall_singleton. done.
    + rewrite Er, Ea, ids_app, Hids', pool_app, <- Hp, ids_app, <- (assoc_L (++)).
      unfold pool at 1. simpl. rewrite app_nil_r. unfold range_ids. simpl.
      rewrite (Permutation_app_comm (seqZ rs rl)). by rewrite <- (assoc_L (++)).
    + rewrite Er, pool_app. unfold pool at 2. simpl. rewrite app_nil_r.
      unfold range_ids. simpl. by rewrite Permutation_app_comm.
  - right. done.
Qed.

Lemma chunks_det bc rs rl bs bs' : chunks bc rs rl bs → chunks bc rs rl bs' → 0 ≤ rl → bs = bs'.
Proof.
  intros H. revert bs'. induction H as [rs|rs rl j bs Hj Hfit Hmax Hch IH]; intros bs' H' Hrl.
  - inversion H' as [|? ? j' ? Hj' [_ Hle']]; [done|]. pose proof (pow2_pos j' (proj1 Hj')). lia.
  - pose proof Hfit as [_ Hle]. pose proof (pow2_pos j ltac:(lia)).
    inversion H' as [|? ? j' ? Hj' Hfit' Hmax']; [exfalso; lia|].
    assert (j = j') as <-.
    { destruct (Z.lt_trichotomy j j') as [?|[?|?]]; [exfalso|done|exfalso].
      - apply Hmax; [lia|]. eapply fits_down; [|exact Hfit']. lia.
      - apply Hmax'; [lia|]. eapply fits_down; [|exact Hfit]. lia. }
    f_equal. apply IH; [done|lia].
Qed.

Lemma add_range_cases s rs rl m :
  wf s → is_u32 rs → is_u32 rl → no_wrap (bucket_count s) rs rl →
  (∃ ret s' m', p2ra_add_range s rs rl m = Some (ret, s', m') ∧ wf s' ∧ add_result s rs rl ret s' ∧
     (ret = NO_ERROR → ∃ bs, chunks (bucket_count s) rs rl bs ∧ Forall (no_buddy s) bs)) ∨
  (p2ra_add_range s rs rl m = None ∧ range_valid rs rl ∧ range_fresh s rs rl ∧
     ∃ bs, chunks (bucket_count s) rs rl bs ∧ ¬ Forall (no_buddy s) bs).
Proof.
  intros Hw Hrs Hrl Hnw. pose proof (wf_free s Hw) as Hf. pose proof (fwf_bc s Hf) as Hbc.
  destruct Hrs as [Hrs0 Hrs1], Hrl as [Hrl0 Hrl1]. unfold p2ra_add_range.
  destruct ((rl =? 0) || _) eqn:Ev.
  { left. do 3 eexists. split_and!; [done|done| |done]. left. split_and!; [done| |done]. intros [? ?].
    rewrite u32_id in Ev by (unfold is_u32; lia). apply orb_true_iff in Ev as []; zb; lia. }
  assert (Hval : range_valid rs rl).
  { zb. split; [lia|]. destruct (decide (rs + rl < 2 ^ 32)); [done|]. exfalso.
    unfold u32 in *. rewrite <- (Z.mod_unique (rs + rl) (2 ^ 32) 1 (rs + rl - 2 ^ 32)) in *; lia. }
  destruct Hval as [Hv1 Hv2]. assert (Hint : u32_interval rs rl) by (split_and!; lia).
  pose proof (existsb_overlap_spec s rs rl Hw Hint Hv1) as Hov.
  destruct (existsb _ _) eqn:Eov.
  { left. do 3 eexists. split_and!; [done|done| |done]. right; left. split_and!; [done|done| |done].
    intros Hfr. destruct Hov as [Hov _]. destruct (Hov eq_refl) as (x & ? & ?). by apply (Hfr x). }
  assert (Hfr : range_fresh s rs rl).
  { intros x Hx Hp. destruct Hov as [_ Hov]. discriminate Hov. eauto. }
  destruct (alloc m) as [[|] m1]; simpl.
  2:{ left. do 3 eexists. split_and!; [done|done| |done]. right; right; left. split_and!; [done..|].
      exists (unused_blocks s). by destruct s. }
  assert ((bucket_count s =? 0) = false) as -> by (apply Z.eqb_neq; lia).
  rewrite (u32_id (bucket_count s - 1)), shl1_pow by (unfold is_u32; lia).
  destruct (break_range_spec (Z.to_nat rl) s (bucket_count s - 1) rs rl [] m1)
    as (u & m' & [(bs & Hch & Hbr)|(bs & Hbr)]); [lia|done|done|lia|lia|..];
    unfold chunk_at in Hbr; rewrite Hbr; simpl.
  - destruct (add_blocks s rs rl bs u Hw ltac:(done) ltac:(done) Hfr Hch) as [(HF & s' & -> & Hw' & Hres)|[HF ->]].
    + left. do 3 eexists. split_and!; [done|done|done|eauto].
    + right. split_and!; [done..|]. eauto.
  - left. do 3 eexists. split_and!; [done|by apply wf_unused| |done]. right; right; left. split_and!; [done..|eauto].
Qed.

(** No free block touches the range. *)
Definition untouched (s : p2ra_state) (rs rl : Z) : Prop :=
  ∀ x, x ∈ free_blocks s → start x ≠ rs + rl ∧ start x + 2 ^ bucket x ≠ rs.

Lemma free_in_pool s x y : wf s → x ∈ free_blocks s → y ∈ block_ids x → y ∈ pool (ranges s).
Proof.
  intros Hw Hx Hy. rewrite <- (wf_part s Hw). apply elem_of_ids. exists x. set_solver.
Qed.

Lemma untouched_no_buddy s rs rl bs :
  wf s → u32_interval rs rl → range_fresh s rs rl → chunks (bucket_count s) rs rl bs →
  untouched s rs rl → Forall (no_buddy s) bs.
Proof.
  intros Hw Hint Hfr Hch Hun. destruct (chunks_facts _ _ _ _ Hch Hint) as (_ & Hok & Hin).
  rewrite Forall_forall in Hok, Hin |- *. intros c Hc Hlt l x Hl Hx.
  destruct (Hok c Hc) as [Hck _]. specialize (Hin c Hc).
  pose proof (elem_free s _ _ x Hl Hx) as Hfx. destruct (Hun x Hfx) as [Hu1 Hu2].
  assert (Hxk : bucket x = bucket c).
  { pose proof (fwf_ok s (wf_free s Hw) _ _ Hl) as Hxok. rewrite Forall_forall in Hxok.
    destruct (Hxok x Hx) as (-> & _). lia. }
  pose proof (pow2_pos (bucket c) ltac:(lia)). rewrite Hxk in Hu2.
  split; intros (_ & _ & Hst).
  - apply (Hfr (start x)); [apply elem_of_seqZ; lia|].
    eapply free_in_pool; [done|done|apply block_start_in; lia].
  - rewrite Hxk in Hst. apply (Hfr (start c - 1)); [apply elem_of_seqZ; lia|].
    eapply free_in_pool; [done|done|]. apply elem_of_seqZ. rewrite Hxk. lia.
Qed.

Lemma free_buddy_found s c x :
  wf s → no_buddy s c → x ∈ free_blocks s → bucket c + 1 < bucket_count s → ¬ (buddies c x ∨ buddies x c).
Proof.
  intros Hw Hno Hx Hlt Hbud. unfold free_blocks in Hx.
  apply list_elem_of_In, in_concat in Hx as (l & Hl & Hx). apply list_elem_of_In in Hl, Hx.
  apply list_elem_of_lookup in Hl as [i Hi].
  pose proof (fwf_ok s (wf_free s Hw) _ _ Hi) as Hok. rewrite Forall_forall in Hok.
  destruct (Hok x Hx) as (Hxi & _).
  assert (Hc : bucket c = bucket x) by (destruct Hbud as [(? & _)|(? & _)]; congruence).
  destruct (Hno Hlt l x) as [? ?]; [|done|naive_solver]. by rewrite Hc, Hxi, Nat2Z.id.
Qed.

(** With 32 buckets the chunk size overflows on a range that starts at 0 and
    has at least [2^31] integers. *)
Lemma add_range_wraps s rl m :
  bucket_count s = 32 → 2 ^ 31 ≤ rl < 2 ^ 32 → existsb (ranges_overlap 0 rl) (ranges s) = false →
  p2ra_add_range s 0 rl (true :: m) = None.
Proof.
  intros Hbc Hrl Hov. unfold p2ra_add_range. rewrite Z.add_0_l, (u32_id rl) by (unfold is_u32; lia).
  assert ((rl =? 0) = false) as E0 by (apply Z.eqb_neq; lia).
  assert ((rl <? 0) = false) as -> by (apply Z.ltb_ge; lia). rewrite E0, Hov, Hbc. simpl.
  destruct (Z.to_nat rl) as [|f] eqn:Ef; [lia|].
  assert (Hsh : shrink 33 0 rl (mk_chunk (u32 (32 - 1)) (shl1 (u32 (32 - 1)))) false = (chunk_at 31, false)).
  { change (mk_chunk _ _) with (chunk_at 31). destruct (shrink_spec 0 rl 33 31 false) as (i & Hi & Hfi & Hmax & ->); [lia..|].
    assert (i = 31) as ->; [|by rewrite decide_False by lia].
    destruct (decide (i < 31)) as [Hlt|]; [exfalso|lia]. apply (Hmax Hlt), (fits_down 0 rl (i + 1) 31); [lia|].
    split; [done|lia]. }
  cbn [break_range]. rewrite Hsh, E0.
  assert (Hgr : grow 33 (bucket_count s) 0 rl (shl1 (u32 (32 - 1))) (u32 (Z.shiftl (c_size (chunk_at 31)) 1)) (chunk_at 31) = None).
  { rewrite Hbc. change (u32 (Z.shiftl (c_size (chunk_at 31)) 1)) with 0. rewrite (grow_S 32).
    assert ((0 <=? rl) = true) as -> by (apply Z.leb_le; lia). done. }
  rewrite Hgr. done.
Qed.

(** ** Reachable states *)

Inductive step (s : p2ra_state) : p2ra_state → Prop :=
| step_add rs rl m ret s' m' : is_u32 rs → is_u32 rl →
    p2ra_add_range s rs rl m = Some (ret, s', m') → step s s'
| step_allocate size m ret out s' m' : is_u32 size →
    p2ra_allocate_range s size m = Some (ret, out, s', m') → step s s'
| step_free rs size s' : is_u32 size →
    p2ra_free_range s rs size = Some s' → step s s'.

Inductive reachable : p2ra_state → Prop :=
| reachable_init max m s m' : is_u32 max → p2ra_init max m = (NO_ERROR, Some s, m') → reachable s
| reachable_step s s' : reachable s → step s s' → reachable s'.

Lemma init_wf max m s m' : is_u32 max → p2ra_init max m = (NO_ERROR, Some s, m') →
  wf s ∧ bucket_count s = log2_uint max + 1 ∧ ranges s = [] ∧ allocated_blocks s = [].
Proof.
  intros Hmax. unfold p2ra_init. destruct ((max =? 0) || _) eqn:E; [done|].
  destruct (size_good max Hmax E) as [Hm Hk]. destruct (alloc m) as [[|] ?]; simpl; [|done].
  intros [= <- <-]. set (k := log2_uint max) in *. simpl. split_and!; [|done..].
  assert (Hk32 : k < 32). { destruct Hmax as [_ Hlt]. rewrite Hm in Hlt. apply Z.pow_lt_mono_r_iff in Hlt; lia. }
  assert (Hfree : concat (replicate (Z.to_nat (k + 1)) ([] : list p2ra_block)) = []).
  { induction (Z.to_nat (k + 1)); done. }
  assert (Hemp : ∀ i l, replicate (Z.to_nat (k + 1)) ([] : list p2ra_block) !! i = Some l → l = []).
  { intros i l Hl. by apply lookup_replicate in Hl as [-> _]. }
  split; simpl; [|constructor|constructor| |constructor].
  - split; simpl; [lia|rewrite length_replicate; lia|..].
    + intros i l ->%Hemp. constructor.
    + intros i l ->%Hemp. constructor.
    + intros i l a b ->%Hemp. set_solver.
    + unfold free_blocks. simpl. rewrite Hfree. constructor.
  - unfold free_blocks. simpl. by rewrite Hfree.
Qed.

Lemma add_range_wf s rs rl m ret s' m' :
  wf s → is_u32 rs → is_u32 rl → p2ra_add_range s rs rl m = Some (ret, s', m') → wf s'.
Proof.
  intros Hw Hrs Hrl Hadd. pose proof (fwf_bc s (wf_free s Hw)).
  destruct (decide (bucket_count s ≤ 31 ∨ rs ≠ 0 ∨ rl < 2 ^ 31)) as [Hnw|Hwrap].
  - destruct (add_range_cases s rs rl m Hw Hrs Hrl Hnw) as [(? & ? & ? & E & Hw' & _)|[E _]]; simplify_eq. done.
  - assert (rs = 0) as -> by lia. destruct Hrl.
    destruct (existsb (ranges_overlap 0 rl) (ranges s)) eqn:Ho, m as [|[|] m];
      try (rewrite add_range_wraps in Hadd by (done || lia); done);
      unfold p2ra_add_range in Hadd; rewrite Ho in Hadd; simpl in Hadd; case_match; simplify_eq; done.
Qed.

Lemma free_range_some s rs size s' : is_u32 size → p2ra_free_range s rs size = Some s' →
  size = 2 ^ log2_uint size ∧ mk_block (log2_uint size) rs ∈ allocated_blocks s.
Proof.
  intros Hsz. unfold p2ra_free_range. destruct ((size =? 0) || _) eqn:E; [done|].
  destruct (size_good size Hsz E) as [Hs _]. intros Hsome. split; [done|].
  destruct (decide (mk_block (log2_uint size) rs ∈ allocated_blocks s)); [done|].
  by rewrite take_block_none in Hsome.
Qed.

Lemma step_wf s s' : wf s → step s s' → wf s'.
Proof.
  intros Hw [rs rl m ret s1 m' Hrs Hrl H|size m ret out s1 m' Hsz H|rs size s1 Hsz H].
  - exact (add_range_wf _ _ _ _ _ _ _ Hw Hrs Hrl H).
  - destruct (allocate_ok s size m Hw Hsz) as (? & ? & ? & ? & E & Hw' & _). rewrite E in H. by simplify_eq.
  - destruct (free_range_some _ _ _ _ Hsz H) as [Hs Hin]. rewrite Hs in H.
    destruct (free_ok s _ _ Hw Hin) as (? & E & Hw' & _). rewrite E in H. by simplify_eq.
Qed.

Lemma reachable_wf s : reachable s → wf s.
Proof.
  induction 1 as [max m s m' Hmax Hi|s s' _ IH Hst]; [|by eapply step_wf].
  by destruct (init_wf _ _ _ _ Hmax Hi).
Qed.

(** ** The allocator's theorems *)

(** A concrete pool: buckets up to 8, the integers [5, 19). *)
Definition ex0 : p2ra_state := mk_state [] [] [] [[]; []; []; []] 4.
Definition ex1 : p2ra_state :=
  match p2ra_add_range ex0 5 14 (replicate 10 true) with Some (_, s, _) => s | None => ex0 end.
Definition ex2 : p2ra_state :=
  match p2ra_allocate_range ex1 2 (replicate 10 true) with Some (_, _, s, _) => s | None => ex0 end.

Lemma ex0_reachable : reachable ex0.
Proof. apply (reachable_init 8 [true] ex0 []); [by unfold is_u32|reflexivity]. Qed.
Lemma ex1_reachable : reachable ex1.
Proof.
  apply (reachable_step ex0); [apply ex0_reachable|].
  eapply (step_add _ 5 14 (replicate 10 true)); [by unfold is_u32..|vm_compute; reflexivity].
Qed.
Lemma ex2_reachable : reachable ex2.
Proof.
  apply (reachable_step ex1); [apply ex1_reachable|].
  eapply (step_allocate _ 2 (replicate 10 true)); [by unfold is_u32..|vm_compute; reflexivity].
Qed.

(** C1.  In every state that [p2ra_init], [p2ra_add_range],
    [p2ra_allocate_range] and [p2ra_free_range] can reach, the free and the
    allocated blocks partition the integers of the ranges: no integer is in
    two blocks, every block is aligned to its size and below the number of
    buckets, the free lists are sorted and hold no pair of buddies. *)
Theorem p2ra_invariant s : reachable s → wf s.
Proof. apply reachable_wf. Qed.

Lemma p2ra_invariant_witness : reachable ex2 ∧ wf ex2.
Proof. split; [apply ex2_reachable|apply (p2ra_invariant ex2), ex2_reachable]. Defined.

(** C2.  [p2ra_allocate_range] never trips an assertion.  It returns
    [ERR_INVALID_ARGS] exactly when the size is not a power of two that has a
    bucket, [ERR_NO_RESOURCES] only when no aligned run of [size] free
    integers exists at all, and [ERR_NO_MEMORY] with the same integers free;
    otherwise an aligned run of free integers, which becomes allocated. *)
Theorem p2ra_allocate_range_correct s size m :
  wf s → is_u32 size →
  ∃ ret out s' m', p2ra_allocate_range s size m = Some (ret, out, s', m') ∧
    wf s' ∧ ranges s' = ranges s ∧ bucket_count s' = bucket_count s ∧ alloc_result s size ret out s'.
Proof. apply allocate_ok. Qed.

Lemma p2ra_allocate_range_witness : wf ex1 ∧
  ∃ ret out s' m', p2ra_allocate_range ex1 2 [true] = Some (ret, out, s', m') ∧
    wf s' ∧ ranges s' = ranges ex1 ∧ bucket_count s' = bucket_count ex1 ∧ alloc_result ex1 2 ret out s'.
Proof.
  assert (wf ex1) as Hw by apply reachable_wf, ex1_reachable.
  split; [done|]. apply (p2ra_allocate_range_correct ex1 2 [true]); [done|by unfold is_u32].
Defined.



(** Freeing what was just allocated restores ranges, allocated blocks and
    every free list exactly: splitting and coalescing are inverse. *)
Theorem p2ra_alloc_free_roundtrip s size m a s' m' :
  wf s → is_u32 size → p2ra_allocate_range s size m = Some (NO_ERROR, Some a, s', m') →
  ∃ u, p2ra_free_range s' a size = Some (set_unused s u).
Proof. apply alloc_free. Qed.

Lemma p2ra_alloc_free_witness : ∃ s' m', p2ra_allocate_range ex1 1 [true] = Some (NO_ERROR, Some 5, s', m') ∧
  ∃ u, p2ra_free_range s' 5 1 = Some (set_unused ex1 u).
Proof.
  assert (wf ex1) as Hw by apply reachable_wf, ex1_reachable.
  do 2 eexists. assert (E : p2ra_allocate_range ex1 1 [true] = Some (NO_ERROR, Some 5, _, _)) by (vm_compute; reflexivity).
  split; [exact E|]. exact (p2ra_alloc_free_roundtrip ex1 1 [true] 5 _ _ Hw ltac:(by unfold is_u32) E).
Defined.

(** [p2ra_add_range] of a range that no free block touches. *)
Lemma p2ra_add_range_untouched s rs rl m :
  wf s → is_u32 rs → is_u32 rl → no_wrap (bucket_count s) rs rl → untouched s rs rl →
  ∃ ret s' m', p2ra_add_range s rs rl m = Some (ret, s', m') ∧ wf s' ∧ add_result s rs rl ret s'.
Proof.
  intros Hw Hrs Hrl Hnw Hun. destruct (add_range_cases s rs rl m Hw Hrs Hrl Hnw) as [(ret & s' & m' & ? & ? & ? & _)|(_ & [? ?] & Hfr & bs & Hch & [])]; [eauto 10|].
  eapply untouched_no_buddy; [done| |done..]. destruct Hrs. split_and!; lia.
Qed.

(** A range one of whose chunks has its buddy free can not be added: the
    chunks are returned with merging forbidden, so the code trips its
    assertion (or runs out of memory before). *)
Theorem p2ra_add_range_free_buddy s rs rl m bs c x :
  wf s → is_u32 rs → range_valid rs rl → range_fresh s rs rl → no_wrap (bucket_count s) rs rl →
  chunks (bucket_count s) rs rl bs → c ∈ bs → x ∈ free_blocks s →
  bucket c + 1 < bucket_count s → buddies c x ∨ buddies x c →
  match p2ra_add_range s rs rl m with Some (ret, _, _) => ret = ERR_NO_MEMORY | None => True end.
Proof.
  intros Hw [Hr0 Hr1] [Hl0 Hend] Hfr Hnw Hch Hc Hx Hlt Hbud.
  destruct (add_range_cases s rs rl m Hw ltac:(done) ltac:(unfold is_u32; lia) Hnw)
    as [(ret & s' & m' & -> & _ & Hres & Hbs)|[-> _]]; [|done].
  destruct Hres as [(_ & [] & _)|[(_ & _ & [] & _)|[(-> & _)|(-> & _)]]]; [done|done|done|exfalso].
  destruct (Hbs eq_refl) as (bs' & Hch' & Hno). rewrite (chunks_det _ _ _ _ _ Hch' Hch) in Hno by lia.
  rewrite Forall_forall in Hno. eapply free_buddy_found; [done|exact (Hno c Hc)|done..].
Qed.

(** With 32 buckets (a largest allocation of [2^31]) the growing chunk
    size overflows to 0: adding a range from 0 of at least [2^31] integers
    trips an assertion whenever the memory for the range is there. *)
Theorem p2ra_add_range_overflow s rl m :
  bucket_count s = 32 → 2 ^ 31 ≤ rl < 2 ^ 32 → existsb (ranges_overlap 0 rl) (ranges s) = false →
  p2ra_add_range s 0 rl (true :: m) = None.
Proof. apply add_range_wraps. Qed.



End P2RAFacts.
