(* ===== verification/Sched.v ===== *)
(** * Threads, run queues and wait queues

    [src/kernel/kernel/thread.c] and [src/kernel/include/kernel/{thread,wait,mp}.h],
    in the configuration of the default build: [WITH_SMP],
    [PLATFORM_HAS_DYNAMIC_TIMER], debug assertions on.

    A thread is known by a number, its [thread_t] is a [thread] in the map
    [threads]; a [wait_queue_t] is a [wait_queue] in the map [wqs], known by the
    number the enclosing object holds; intrusive lists of [queue_node]s are
    [list]s of thread numbers.  Every operation is one critical section of
    [thread_lock], run by [current k !! cpu] on the processor [cpu].

    [thread_resched] ends by switching the processor to another thread: what
    its caller does after it is run later, by that thread, when it is current
    again.  Operations with such a rest have a second definition, [..._resume],
    and the first one returns [Blocked].  A failed assertion or a panic is
    [None], and so is a read through a number that names nothing.

    One-shot timers are in [timers], by the thread their callback gets as an
    argument; [preempt_timer] holds the processors whose preemption timer is set.  Interrupts sent to
    other processors by [mp_reschedule] change nothing here (their handler runs
    [thread_preempt] on that processor).  Not represented: stacks, entry points,
    thread-local storage, names, address spaces and statistics. *)

From stdpp Require Import base tactics numbers list gmap.
From Stdlib Require Import ZArith.
From S2P Require Import Prelude.
#[local] Open Scope Z_scope.

Module Sched.

(** ** Data *)

Inductive thread_state :=
  THREAD_SUSPENDED | THREAD_READY | THREAD_RUNNING | THREAD_BLOCKED | THREAD_SLEEPING | THREAD_DEATH.

#[global] Instance thread_state_eq_dec : EqDecision thread_state.
Proof. solve_decision. Defined.

Definition THREAD_FLAG_DETACHED : Z := Z.shiftl 1 0.
Definition THREAD_FLAG_FREE_STACK : Z := Z.shiftl 1 1.
Definition THREAD_FLAG_FREE_STRUCT : Z := Z.shiftl 1 2.
Definition THREAD_FLAG_REAL_TIME : Z := Z.shiftl 1 3.
Definition THREAD_FLAG_IDLE : Z := Z.shiftl 1 4.
Definition THREAD_FLAG_DEBUG_STACK_BOUNDS_CHECK : Z := Z.shiftl 1 5.
Definition THREAD_SIGNAL_KILL : Z := Z.shiftl 1 0.
Definition THREAD_MAGIC : Z := 0x74687264.
Definition WAIT_QUEUE_MAGIC : Z := 0x77616974.
Definition NUM_PRIORITIES : Z := 32.
Definition LOWEST_PRIORITY : Z := 0.
Definition HIGHEST_PRIORITY : Z := NUM_PRIORITIES - 1.
Definition IDLE_PRIORITY : Z := LOWEST_PRIORITY.
Definition DEFAULT_PRIORITY : Z := NUM_PRIORITIES / 2.

Record thread := mk_thread {
  magic : Z;
  priority : Z;
  state : thread_state;
  remaining_quantum : Z;
  flags : Z;
  signals : Z;
  curr_cpu : Z;
  pinned_cpu : Z;
  last_started_running_us : Z;
  runtime_us : Z;
  blocking_wait_queue : option nat;
  blocked_status : Z;
  interruptable : bool;
  retcode : Z;
  retcode_wait_queue : nat
}.

Record wait_queue := mk_wq { wq_magic : Z; wq_list : list nat; wq_count : Z }.

(** The callbacks of one-shot timers whose argument is a thread. *)
Inductive timer_callback := wait_queue_timeout_cb | thread_sleep_cb.

Record kstate := mk_k {
  threads : gmap nat thread;
  thread_list : list nat;
  run_queue : list (list nat);
  run_queue_bitmap : Z;
  wqs : gmap nat wait_queue;
  current : gmap nat nat;
  idle_thread : list nat;
  preempt_timer : gset nat;
  timers : gmap nat timer_callback;
  idle_cpus : Z;
  realtime_cpus : Z;
  now_hires : Z
}.

(** Writes to one field. *)
Definition set_state (s : thread_state) (r : thread) : thread :=
  mk_thread (magic r) (priority r) s (remaining_quantum r) (flags r) (signals r) (curr_cpu r) (pinned_cpu r)
    (last_started_running_us r) (runtime_us r) (blocking_wait_queue r) (blocked_status r) (interruptable r)
    (retcode r) (retcode_wait_queue r).
Definition set_magic (x : Z) (r : thread) : thread :=
  mk_thread x (priority r) (state r) (remaining_quantum r) (flags r) (signals r) (curr_cpu r) (pinned_cpu r)
    (last_started_running_us r) (runtime_us r) (blocking_wait_queue r) (blocked_status r) (interruptable r)
    (retcode r) (retcode_wait_queue r).
Definition set_priority (x : Z) (r : thread) : thread :=
  mk_thread (magic r) x (state r) (remaining_quantum r) (flags r) (signals r) (curr_cpu r) (pinned_cpu r)
    (last_started_running_us r) (runtime_us r) (blocking_wait_queue r) (blocked_status r) (interruptable r)
    (retcode r) (retcode_wait_queue r).
Definition set_quantum (x : Z) (r : thread) : thread :=
  mk_thread (magic r) (priority r) (state r) x (flags r) (signals r) (curr_cpu r) (pinned_cpu r)
    (last_started_running_us r) (runtime_us r) (blocking_wait_queue r) (blocked_status r) (interruptable r)
    (retcode r) (retcode_wait_queue r).
Definition set_flags (x : Z) (r : thread) : thread :=
  mk_thread (magic r) (priority r) (state r) (remaining_quantum r) x (signals r) (curr_cpu r) (pinned_cpu r)
    (last_started_running_us r) (runtime_us r) (blocking_wait_queue r) (blocked_status r) (interruptable r)
    (retcode r) (retcode_wait_queue r).
Definition set_signals (x : Z) (r : thread) : thread :=
  mk_thread (magic r) (priority r) (state r) (remaining_quantum r) (flags r) x (curr_cpu r) (pinned_cpu r)
    (last_started_running_us r) (runtime_us r) (blocking_wait_queue r) (blocked_status r) (interruptable r)
    (retcode r) (retcode_wait_queue r).
Definition set_curr_cpu (x : Z) (r : thread) : thread :=
  mk_thread (magic r) (priority r) (state r) (remaining_quantum r) (flags r) (signals r) x (pinned_cpu r)
    (last_started_running_us r) (runtime_us r) (blocking_wait_queue r) (blocked_status r) (interruptable r)
    (retcode r) (retcode_wait_queue r).
Definition set_times (last run : Z) (r : thread) : thread :=
  mk_thread (magic r) (priority r) (state r) (remaining_quantum r) (flags r) (signals r) (curr_cpu r) (pinned_cpu r)
    last run (blocking_wait_queue r) (blocked_status r) (interruptable r)
    (retcode r) (retcode_wait_queue r).
Definition set_blocking (w : option nat) (r : thread) : thread :=
  mk_thread (magic r) (priority r) (state r) (remaining_quantum r) (flags r) (signals r) (curr_cpu r) (pinned_cpu r)
    (last_started_running_us r) (runtime_us r) w (blocked_status r) (interruptable r)
    (retcode r) (retcode_wait_queue r).
Definition set_blocked_status (x : Z) (r : thread) : thread :=
  mk_thread (magic r) (priority r) (state r) (remaining_quantum r) (flags r) (signals r) (curr_cpu r) (pinned_cpu r)
    (last_started_running_us r) (runtime_us r) (blocking_wait_queue r) x (interruptable r)
    (retcode r) (retcode_wait_queue r).
Definition set_interruptable (b : bool) (r : thread) : thread :=
  mk_thread (magic r) (priority r) (state r) (remaining_quantum r) (flags r) (signals r) (curr_cpu r) (pinned_cpu r)
    (last_started_running_us r) (runtime_us r) (blocking_wait_queue r) (blocked_status r) b
    (retcode r) (retcode_wait_queue r).
Definition set_retcode (x : Z) (r : thread) : thread :=
  mk_thread (magic r) (priority r) (state r) (remaining_quantum r) (flags r) (signals r) (curr_cpu r) (pinned_cpu r)
    (last_started_running_us r) (runtime_us r) (blocking_wait_queue r) (blocked_status r) (interruptable r)
    x (retcode_wait_queue r).

Definition with_threads (k : kstate) (x : gmap nat thread) : kstate :=
  mk_k x (thread_list k) (run_queue k) (run_queue_bitmap k) (wqs k) (current k) (idle_thread k)
    (preempt_timer k) (timers k) (idle_cpus k) (realtime_cpus k) (now_hires k).
Definition with_thread_list (k : kstate) (x : list nat) : kstate :=
  mk_k (threads k) x (run_queue k) (run_queue_bitmap k) (wqs k) (current k) (idle_thread k)
    (preempt_timer k) (timers k) (idle_cpus k) (realtime_cpus k) (now_hires k).
Definition with_run_queue (k : kstate) (x : list (list nat)) (b : Z) : kstate :=
  mk_k (threads k) (thread_list k) x b (wqs k) (current k) (idle_thread k)
    (preempt_timer k) (timers k) (idle_cpus k) (realtime_cpus k) (now_hires k).
Definition with_wqs (k : kstate) (x : gmap nat wait_queue) : kstate :=
  mk_k (threads k) (thread_list k) (run_queue k) (run_queue_bitmap k) x (current k) (idle_thread k)
    (preempt_timer k) (timers k) (idle_cpus k) (realtime_cpus k) (now_hires k).
Definition with_current (k : kstate) (x : gmap nat nat) : kstate :=
  mk_k (threads k) (thread_list k) (run_queue k) (run_queue_bitmap k) (wqs k) x (idle_thread k)
    (preempt_timer k) (timers k) (idle_cpus k) (realtime_cpus k) (now_hires k).
Definition with_preempt_timer (k : kstate) (x : gset nat) : kstate :=
  mk_k (threads k) (thread_list k) (run_queue k) (run_queue_bitmap k) (wqs k) (current k) (idle_thread k)
    x (timers k) (idle_cpus k) (realtime_cpus k) (now_hires k).
Definition with_timers (k : kstate) (x : gmap nat timer_callback) : kstate :=
  mk_k (threads k) (thread_list k) (run_queue k) (run_queue_bitmap k) (wqs k) (current k) (idle_thread k)
    (preempt_timer k) x (idle_cpus k) (realtime_cpus k) (now_hires k).
Definition with_mp (k : kstate) (i r : Z) : kstate :=
  mk_k (threads k) (thread_list k) (run_queue k) (run_queue_bitmap k) (wqs k) (current k) (idle_thread k)
    (preempt_timer k) (timers k) i r (now_hires k).

Definition upd (k : kstate) (t : nat) (f : thread → thread) : kstate := with_threads k (alter f t (threads k)).
Definition set_wq (k : kstate) (w : nat) (l : list nat) (c : Z) : kstate :=
  with_wqs k (alter (λ q, mk_wq (wq_magic q) l c) w (wqs k)).

Definition flag (f m : Z) : bool := negb (Z.land f m =? 0).
Definition thread_is_realtime (r : thread) : bool :=
  flag (flags r) THREAD_FLAG_REAL_TIME && (priority r >? DEFAULT_PRIORITY).
Definition thread_is_idle (r : thread) : bool := flag (flags r) THREAD_FLAG_IDLE.
Definition thread_is_real_time_or_idle (r : thread) : bool :=
  flag (flags r) (Z.lor THREAD_FLAG_REAL_TIME THREAD_FLAG_IDLE).

Definition has_state (r : thread) (s : thread_state) : bool := bool_decide (state r = s).
Definition is_thread (r : thread) : bool := magic r =? THREAD_MAGIC.

(** [list_in_list(&t->queue_node)] *)
Definition in_list (k : kstate) (t : nat) : bool :=
  existsb (λ q, bool_decide (t ∈ q)) (run_queue k)
  || existsb (λ p, bool_decide (t ∈ wq_list (snd p))) (map_to_list (wqs k)).

(** ** Run queues *)

Definition insert_in_run_queue (head : bool) (k : kstate) (t : nat) : option kstate :=
  r ← threads k !! t;
  ASSERT is_thread r && has_state r THREAD_READY && negb (in_list k t);
  q ← run_queue k !! Z.to_nat (priority r);
  Some (with_run_queue k (<[Z.to_nat (priority r) := if head then t :: q else q ++ [t]]> (run_queue k))
          (Z.lor (run_queue_bitmap k) (Z.shiftl 1 (priority r)))).
Definition insert_in_run_queue_head : kstate → nat → option kstate := insert_in_run_queue true.
Definition insert_in_run_queue_tail : kstate → nat → option kstate := insert_in_run_queue false.

(** The first thread of a queue that may run on [cpu], and the queue without it. *)
Fixpoint pick (k : kstate) (cpu : nat) (q : list nat) : option (option (nat * list nat)) :=
  match q with
  | [] => Some None
  | t :: q' =>
    r ← threads k !! t;
    if (pinned_cpu r <? 0) || (pinned_cpu r =? Z.of_nat cpu) then Some (Some (t, q'))
    else res ← pick k cpu q';
         Some (match res with Some (x, l) => Some (x, t :: l) | None => None end)
  end.

(** [__builtin_clz] of a 32-bit value that is not 0. *)
Definition clz (x : Z) : Z := 31 - Z.log2 x.

Definition next_queue (bitmap : Z) : Z := HIGHEST_PRIORITY - clz bitmap - (4 * 8 - NUM_PRIORITIES).

(** At most 32 queues are looked at. *)
Fixpoint top_loop (fuel : nat) (k : kstate) (cpu : nat) (bitmap : Z) : option (nat * kstate) :=
  match fuel with
  | O => None
  | S fuel' =>
    if bitmap =? 0 then t ← idle_thread k !! cpu; Some (t, k) else
    let nq := next_queue bitmap in
    q ← run_queue k !! Z.to_nat nq;
    res ← pick k cpu q;
    match res with
    | Some (t, q') =>
        Some (t, with_run_queue k (<[Z.to_nat nq := q']> (run_queue k))
                   (if bool_decide (q' = []) then Z.ldiff (run_queue_bitmap k) (Z.shiftl 1 nq)
                    else run_queue_bitmap k))
    | None => top_loop fuel' k cpu (Z.ldiff bitmap (Z.shiftl 1 nq))
    end
  end.

Definition get_top_thread (k : kstate) (cpu : nat) : option (nat * kstate) :=
  top_loop 33 k cpu (run_queue_bitmap k).

(** ** Timers and processor masks *)

Definition timer_set_oneshot (k : kstate) (t : nat) (cb : timer_callback) : kstate :=
  with_timers k (<[t := cb]> (timers k)).
Definition timer_cancel (k : kstate) (t : nat) : kstate := with_timers k (delete t (timers k)).

(** Setting a timer that is already in a list panics. *)
Definition preempt_timer_set (k : kstate) (cpu : nat) : option kstate :=
  ASSERT negb (bool_decide (cpu ∈ preempt_timer k));
  Some (with_preempt_timer k (preempt_timer k ∪ {[cpu]})).
Definition preempt_timer_cancel (k : kstate) (cpu : nat) : kstate :=
  with_preempt_timer k (preempt_timer k ∖ {[cpu]}).

Definition mp_set_cpu_idle (k : kstate) (cpu : nat) : kstate :=
  with_mp k (Z.lor (idle_cpus k) (Z.shiftl 1 (Z.of_nat cpu))) (realtime_cpus k).
Definition mp_set_cpu_busy (k : kstate) (cpu : nat) : kstate :=
  with_mp k (Z.ldiff (idle_cpus k) (Z.shiftl 1 (Z.of_nat cpu))) (realtime_cpus k).
Definition mp_set_cpu_realtime (k : kstate) (cpu : nat) : kstate :=
  with_mp k (idle_cpus k) (Z.lor (realtime_cpus k) (Z.shiftl 1 (Z.of_nat cpu))).
Definition mp_set_cpu_non_realtime (k : kstate) (cpu : nat) : kstate :=
  with_mp k (idle_cpus k) (Z.ldiff (realtime_cpus k) (Z.shiftl 1 (Z.of_nat cpu))).

(** ** The switch *)

(** The accounting and ownership writes of a switch from [old] to [new]. *)
Definition switch_threads (k : kstate) (cpu old new : nat) : kstate :=
  let now := now_hires k in
  let k1 := upd k old (λ r, set_curr_cpu (-1)
              (set_times (last_started_running_us r) (u64 (runtime_us r + u64 (now - last_started_running_us r))) r)) in
  upd k1 new (λ r, set_curr_cpu (Z.of_nat cpu)
    (set_quantum (if remaining_quantum r <=? 0 then 5 else remaining_quantum r)
      (set_times now (runtime_us r) r))).

Definition switch_mp (k : kstate) (cpu : nat) (newr : thread) : kstate :=
  let k1 := if thread_is_idle newr then mp_set_cpu_idle k cpu else mp_set_cpu_busy k cpu in
  if thread_is_realtime newr then mp_set_cpu_realtime k1 cpu else mp_set_cpu_non_realtime k1 cpu.

Definition switch_preempt_timer (k : kstate) (cpu : nat) (oldr newr : thread) : option kstate :=
  if thread_is_real_time_or_idle newr then
    Some (if negb (thread_is_real_time_or_idle oldr) then preempt_timer_cancel k cpu else k)
  else if thread_is_real_time_or_idle oldr then preempt_timer_set k cpu else Some k.

Definition thread_resched (k : kstate) (cpu : nat) : option kstate :=
  old ← current k !! cpu;
  oldr ← threads k !! old;
  ASSERT negb (has_state oldr THREAD_RUNNING);
  '(new, k1) ← get_top_thread k cpu;
  newr ← threads k1 !! new;
  let k2 := upd k1 new (set_state THREAD_RUNNING) in
  if bool_decide (new = old) then Some k2 else
  let k3 := switch_mp (switch_threads k2 cpu old new) cpu newr in
  k4 ← switch_preempt_timer k3 cpu oldr newr;
  Some (with_current k4 (<[cpu := new]> (current k4))).

(** ** Scheduler entry points *)

Definition thread_yield (k : kstate) (cpu : nat) : option kstate :=
  t ← current k !! cpu;
  r ← threads k !! t;
  ASSERT is_thread r && has_state r THREAD_RUNNING;
  let k1 := upd k t (λ r, set_quantum 0 (set_state THREAD_READY r)) in
  k2 ← (if thread_is_idle r then Some k1 else insert_in_run_queue_tail k1 t);
  thread_resched k2 cpu.

Definition thread_preempt (k : kstate) (cpu : nat) : option kstate :=
  t ← current k !! cpu;
  r ← threads k !! t;
  ASSERT is_thread r && has_state r THREAD_RUNNING;
  let k1 := upd k t (set_state THREAD_READY) in
  k2 ← (if thread_is_idle r then Some k1
        else if remaining_quantum r >? 0 then insert_in_run_queue_head k1 t
        else insert_in_run_queue_tail k1 t);
  thread_resched k2 cpu.

Definition thread_block (k : kstate) (cpu : nat) : option kstate :=
  t ← current k !! cpu;
  r ← threads k !! t;
  ASSERT is_thread r && has_state r THREAD_BLOCKED && negb (thread_is_idle r);
  thread_resched k cpu.

Definition thread_unblock (k : kstate) (cpu t : nat) (resched : bool) : option kstate :=
  r ← threads k !! t;
  ASSERT is_thread r && has_state r THREAD_BLOCKED && negb (thread_is_idle r);
  k1 ← insert_in_run_queue_head (upd k t (set_state THREAD_READY)) t;
  if resched then thread_resched k1 cpu else Some k1.

(** [true] stands for [INT_RESCHEDULE]. *)
Definition thread_timer_tick (k : kstate) (cpu : nat) : option (bool * kstate) :=
  t ← current k !! cpu;
  r ← threads k !! t;
  if thread_is_real_time_or_idle r then Some (false, k) else
  let q := i32 (remaining_quantum r - 1) in
  Some (q <=? 0, upd k t (set_quantum q)).

Definition thread_resume (k : kstate) (cpu t : nat) (ints_disabled : bool) : option kstate :=
  r ← threads k !! t;
  ASSERT is_thread r && negb (has_state r THREAD_DEATH);
  if has_state r THREAD_SUSPENDED then
    k1 ← insert_in_run_queue_head (upd k t (set_state THREAD_READY)) t;
    if negb ints_disabled then thread_yield k1 cpu else Some k1
  else Some k.

Definition thread_set_priority (k : kstate) (cpu : nat) (prio : Z) : option kstate :=
  t ← current k !! cpu;
  let prio := if prio <=? IDLE_PRIORITY then IDLE_PRIORITY + 1 else prio in
  let prio := if prio >? HIGHEST_PRIORITY then HIGHEST_PRIORITY else prio in
  k1 ← insert_in_run_queue_head (upd k t (λ r, set_state THREAD_READY (set_priority prio r))) t;
  thread_resched k1 cpu.

Definition thread_set_real_time (k : kstate) (cpu t : nat) : option (Z * kstate) :=
  r ← threads k !! t;
  ASSERT is_thread r;
  cur ← current k !! cpu;
  let k1 := if bool_decide (t = cur) then preempt_timer_cancel k cpu else k in
  Some (NO_ERROR, upd k1 t (λ r, set_flags (Z.lor (flags r) THREAD_FLAG_REAL_TIME) r)).

(** ** Wait queues *)

(** What an operation that may block leaves: a result, or a switch to another
    thread with the rest of the operation to come. *)
Inductive outcome (A : Type) :=
| Ret (a : A) (k : kstate)
| Blocked (k : kstate).
#[global] Arguments Ret {A} _ _.
#[global] Arguments Blocked {A} _.

Definition wait_queue_init (k : kstate) (w : nat) : kstate :=
  with_wqs k (<[w := mk_wq WAIT_QUEUE_MAGIC [] 0]> (wqs k)).

Definition wait_queue_block (k : kstate) (cpu w : nat) (timeout : Z) : option (outcome Z) :=
  t ← current k !! cpu;
  r ← threads k !! t;
  q ← wqs k !! w;
  ASSERT (wq_magic q =? WAIT_QUEUE_MAGIC) && has_state r THREAD_RUNNING;
  if timeout =? 0 then Some (Ret ERR_TIMED_OUT k) else
  let k1 := set_wq k w (wq_list q ++ [t]) (wq_count q + 1) in
  let k2 := upd k1 t (λ r, set_blocked_status NO_ERROR (set_blocking (Some w) (set_state THREAD_BLOCKED r))) in
  let k3 := if negb (timeout =? INFINITE_TIME) then timer_set_oneshot k2 t wait_queue_timeout_cb else k2 in
  k4 ← thread_resched k3 cpu;
  Some (Blocked k4).

(** The rest of [wait_queue_block], run by [t]. *)
Definition wait_queue_block_resume (k : kstate) (t : nat) (timeout : Z) : option (Z * kstate) :=
  let k1 := if negb (timeout =? INFINITE_TIME) then timer_cancel k t else k in
  r ← threads k1 !! t;
  Some (blocked_status r, k1).

(** [t], taken off its wait queue, becomes ready with a result. *)
Definition wake (k : kstate) (t : nat) (err : Z) : kstate :=
  upd k t (λ r, set_blocking None (set_blocked_status err (set_state THREAD_READY r))).

Definition requeue_current (k : kstate) (cpu : nat) : option kstate :=
  c ← current k !! cpu;
  insert_in_run_queue_head (upd k c (set_state THREAD_READY)) c.

Definition wait_queue_wake_one (k : kstate) (cpu w : nat) (reschedule : bool) (err : Z)
  : option (Z * kstate) :=
  q ← wqs k !! w;
  ASSERT wq_magic q =? WAIT_QUEUE_MAGIC;
  match wq_list q with
  | [] => Some (0, k)
  | t :: l =>
    let k1 := set_wq k w l (wq_count q - 1) in
    r ← threads k1 !! t;
    ASSERT has_state r THREAD_BLOCKED;
    let k2 := wake k1 t err in
    k3 ← (if reschedule then requeue_current k2 cpu else Some k2);
    k4 ← insert_in_run_queue_head k3 t;
    k5 ← (if reschedule then thread_resched k4 cpu else Some k4);
    Some (1, k5)
  end.

(** The loop of [wait_queue_wake_all], over the threads of the queue. *)
Fixpoint wake_loop (k : kstate) (w : nat) (l : list nat) (err : Z) : option kstate :=
  match l with
  | [] => Some k
  | t :: l' =>
    q ← wqs k !! w;
    let k1 := set_wq k w l' (wq_count q - 1) in
    r ← threads k1 !! t;
    ASSERT has_state r THREAD_BLOCKED;
    k2 ← insert_in_run_queue_head (wake k1 t err) t;
    wake_loop k2 w l' err
  end.

Definition wait_queue_wake_all (k : kstate) (cpu w : nat) (reschedule : bool) (err : Z)
  : option (Z * kstate) :=
  q ← wqs k !! w;
  ASSERT wq_magic q =? WAIT_QUEUE_MAGIC;
  k1 ← (if reschedule && (wq_count q >? 0) then requeue_current k cpu else Some k);
  k2 ← wake_loop k1 w (wq_list q) err;
  q2 ← wqs k2 !! w;
  ASSERT wq_count q2 =? 0;
  let ret := Z.of_nat (length (wq_list q)) in
  k3 ← (if (ret >? 0) && reschedule then thread_resched k2 cpu else Some k2);
  Some (ret, k3).

Definition wait_queue_clear_magic (k : kstate) (w : nat) : option kstate :=
  q ← wqs k !! w;
  Some (with_wqs k (<[w := mk_wq 0 (wq_list q) (wq_count q)]> (wqs k))).

Definition wait_queue_destroy (k : kstate) (cpu w : nat) (reschedule : bool) : option (outcome ()) :=
  '(ret, k1) ← wait_queue_wake_all k cpu w reschedule ERR_CANCELLED;
  if (ret >? 0) && reschedule then Some (Blocked k1)
  else k2 ← wait_queue_clear_magic k1 w; Some (Ret tt k2).
Definition wait_queue_destroy_resume (k : kstate) (w : nat) : option kstate := wait_queue_clear_magic k w.

(** A blocked thread's node is on the list of its [blocking_wait_queue]. *)
Definition thread_unblock_from_wait_queue (k : kstate) (t : nat) (err : Z) : option (Z * kstate) :=
  r ← threads k !! t;
  ASSERT is_thread r;
  if negb (has_state r THREAD_BLOCKED) then Some (ERR_NOT_BLOCKED, k) else
  w ← blocking_wait_queue r;
  q ← wqs k !! w;
  ASSERT (wq_magic q =? WAIT_QUEUE_MAGIC) && bool_decide (t ∈ wq_list q);
  let k1 := set_wq k w (filter (λ x, x ≠ t) (wq_list q)) (wq_count q - 1) in
  k2 ← insert_in_run_queue_head (wake k1 t err) t;
  Some (NO_ERROR, k2).

Definition wait_queue_timeout_handler (k : kstate) (t : nat) : option (bool * kstate) :=
  r ← threads k !! t;
  ASSERT is_thread r;
  '(ret, k1) ← thread_unblock_from_wait_queue k t ERR_TIMED_OUT;
  Some (ret >=? NO_ERROR, k1).

(** ** Sleeping *)

Definition thread_sleep_handler (k : kstate) (t : nat) : option (bool * kstate) :=
  r ← threads k !! t;
  ASSERT is_thread r;
  if negb (has_state r THREAD_SLEEPING) then Some (false, k) else
  k1 ← insert_in_run_queue_head (upd k t (λ r, set_blocked_status NO_ERROR (set_state THREAD_READY r))) t;
  Some (true, k1).

Definition thread_sleep_etc (k : kstate) (cpu : nat) (intr : bool) : option (outcome Z) :=
  t ← current k !! cpu;
  r ← threads k !! t;
  ASSERT is_thread r && has_state r THREAD_RUNNING && negb (thread_is_idle r);
  if intr && flag (signals r) THREAD_SIGNAL_KILL then Some (Ret ERR_INTERRUPTED k) else
  let k1 := timer_set_oneshot k t thread_sleep_cb in
  let k2 := upd k1 t (λ r, set_interruptable intr (set_blocked_status NO_ERROR (set_state THREAD_SLEEPING r))) in
  k3 ← thread_resched k2 cpu;
  Some (Blocked k3).

Definition thread_sleep_resume (k : kstate) (t : nat) : option (Z * kstate) :=
  let k1 := upd k t (set_interruptable false) in
  r ← threads k1 !! t;
  let st := blocked_status r in
  Some (st, if st =? ERR_INTERRUPTED then timer_cancel k1 t else k1).

(** One turn of [timer_tick] on the timer of [t]: off the list, then its callback. *)
Definition timer_fire (k : kstate) (t : nat) : option (bool * kstate) :=
  cb ← timers k !! t;
  match cb with
  | wait_queue_timeout_cb => wait_queue_timeout_handler (timer_cancel k t) t
  | thread_sleep_cb => thread_sleep_handler (timer_cancel k t) t
  end.

(** ** Creation, joining, exit, kill *)

Definition init_thread (w : nat) : thread :=
  mk_thread THREAD_MAGIC 0 THREAD_SUSPENDED 0 0 0 0 (-1) 0 0 None 0 false 0 w.

(** [t] is the new thread's number and [w] its wait queue's; [given_t] and
    [given_stack] say whether the caller passes the structure and the stack. *)
Definition thread_create_etc (k : kstate) (m : mem) (t w : nat) (given_t given_stack : bool) (prio : Z)
  : bool * kstate * mem :=
  let '(ok, m1) := if given_t then (true, m) else alloc m in
  if negb ok then (false, k, m1) else
  let fl := if given_t then 0 else THREAD_FLAG_FREE_STRUCT in
  let '(ok2, m2) := if given_stack then (true, m1) else alloc m1 in
  if negb ok2 then (false, k, m2) else
  let fl2 := if given_stack then fl
             else Z.lor (Z.lor fl THREAD_FLAG_DEBUG_STACK_BOUNDS_CHECK) THREAD_FLAG_FREE_STACK in
  let r := set_flags fl2 (set_curr_cpu (-1) (set_priority prio (init_thread w))) in
  let k1 := wait_queue_init (with_threads k (<[t := r]> (threads k))) w in
  (true, with_thread_list k1 (t :: thread_list k1), m2).

Definition thread_list_delete (k : kstate) (t : nat) : kstate :=
  with_thread_list k (filter (λ x, x ≠ t) (thread_list k)).

(** The end of [thread_join], once the thread is dead; frees are not represented. *)
Definition join_finish (k : kstate) (t : nat) : option (Z * kstate) :=
  r ← threads k !! t;
  ASSERT is_thread r && has_state r THREAD_DEATH && bool_decide (blocking_wait_queue r = None)
         && negb (in_list k t);
  Some (retcode r, upd (thread_list_delete k t) t (set_magic 0)).

(** The result is the status and, on success, the return code. *)
Definition thread_join (k : kstate) (cpu t : nat) (timeout : Z) : option (outcome (Z * option Z)) :=
  r ← threads k !! t;
  ASSERT is_thread r;
  if flag (flags r) THREAD_FLAG_DETACHED then Some (Ret (ERR_THREAD_DETACHED, None) k) else
  if negb (has_state r THREAD_DEATH) then
    o ← wait_queue_block k cpu (retcode_wait_queue r) timeout;
    match o with
    | Blocked k1 => Some (Blocked k1)
    | Ret err k1 => if err <? 0 then Some (Ret (err, None) k1) else
                    '(rc, k2) ← join_finish k1 t; Some (Ret (NO_ERROR, Some rc) k2)
    end
  else '(rc, k1) ← join_finish k t; Some (Ret (NO_ERROR, Some rc) k1).

Definition thread_join_resume (k : kstate) (me t : nat) (timeout : Z) : option (Z * option Z * kstate) :=
  '(err, k1) ← wait_queue_block_resume k me timeout;
  if err <? 0 then Some (err, None, k1) else
  '(rc, k2) ← join_finish k1 t; Some (NO_ERROR, Some rc, k2).

Definition thread_detach (k : kstate) (cpu t : nat) : option (outcome (Z * option Z)) :=
  r ← threads k !! t;
  ASSERT is_thread r;
  '(_, k1) ← wait_queue_wake_all k cpu (retcode_wait_queue r) false ERR_THREAD_DETACHED;
  r1 ← threads k1 !! t;
  if has_state r1 THREAD_DEATH then
    thread_join (upd k1 t (λ r, set_flags (Z.ldiff (flags r) THREAD_FLAG_DETACHED) r)) cpu t 0
  else Some (Ret (NO_ERROR, None) (upd k1 t (λ r, set_flags (Z.lor (flags r) THREAD_FLAG_DETACHED) r))).

Definition thread_detach_and_resume (k : kstate) (cpu t : nat) (ints_disabled : bool)
  : option (outcome (Z * option Z)) :=
  o ← thread_detach k cpu t;
  match o with
  | Blocked k1 => Some (Blocked k1)
  | Ret (err, rc) k1 =>
    if err <? 0 then Some (Ret (err, rc) k1) else
    k2 ← thread_resume k1 cpu t ints_disabled; Some (Ret (NO_ERROR, None) k2)
  end.

Definition thread_exit_locked (k : kstate) (cpu t : nat) (rc : Z) : option kstate :=
  r ← threads k !! t;
  let k1 := upd k t (λ r, set_retcode rc (set_state THREAD_DEATH r)) in
  k2 ← (if flag (flags r) THREAD_FLAG_DETACHED then
          Some (upd (thread_list_delete k1 t) t (λ r, set_magic 0
                  (if flag (flags r) THREAD_FLAG_FREE_STACK
                   then set_flags (Z.ldiff (flags r) THREAD_FLAG_DEBUG_STACK_BOUNDS_CHECK) r else r)))
        else '(_, k2) ← wait_queue_wake_all k1 cpu (retcode_wait_queue r) false 0; Some k2);
  thread_resched k2 cpu.

(** Without an exit callback. *)
Definition thread_exit (k : kstate) (cpu : nat) (rc : Z) : option kstate :=
  t ← current k !! cpu;
  r ← threads k !! t;
  ASSERT is_thread r && has_state r THREAD_RUNNING && negb (thread_is_idle r);
  thread_exit_locked k cpu t rc.

Definition thread_forget (k : kstate) (cpu t : nat) : option kstate :=
  c ← current k !! cpu;
  ASSERT negb (bool_decide (c = t));
  let k1 := thread_list_delete k t in
  ASSERT negb (in_list k1 t);
  Some k1.

(** What [thread_kill] does to the target, by its state. *)
Definition kill_wake (k : kstate) (t : nat) (r : thread) : option kstate :=
  match state r with
  | THREAD_BLOCKED =>
      if interruptable r then '(_, k1) ← thread_unblock_from_wait_queue k t ERR_INTERRUPTED; Some k1
      else Some k
  | THREAD_SLEEPING =>
      if interruptable r then
        insert_in_run_queue_head (upd k t (λ r, set_blocked_status ERR_INTERRUPTED (set_state THREAD_READY r))) t
      else Some k
  | _ => Some k
  end.

Definition thread_kill (k : kstate) (cpu t : nat) (block : bool) : option (outcome ()) :=
  r ← threads k !! t;
  ASSERT is_thread r;
  let k1 := upd k t (λ r, set_signals (Z.lor (signals r) THREAD_SIGNAL_KILL) r) in
  c ← current k !! cpu;
  if bool_decide (t = c) then Some (Ret tt k1) else
  if has_state r THREAD_DEATH then Some (Ret tt k1) else
  k2 ← kill_wake k1 t r;
  if block && negb (flag (flags r) THREAD_FLAG_DETACHED) then
    o ← wait_queue_block k2 cpu (retcode_wait_queue r) INFINITE_TIME;
    Some (match o with Ret _ k3 => Ret tt k3 | Blocked k3 => Blocked k3 end)
  else Some (Ret tt k2).

Definition thread_process_pending_signals (k : kstate) (cpu : nat) : option kstate :=
  t ← current k !! cpu;
  r ← threads k !! t;
  if signals r =? 0 then Some k else
  if flag (signals r) THREAD_SIGNAL_KILL then
    thread_exit (upd k t (λ r, set_signals (Z.ldiff (signals r) THREAD_SIGNAL_KILL) r)) cpu 0
  else Some k.

(** ** Start-up *)

Definition thread_construct_first (k : kstate) (cpu t w : nat) : kstate :=
  let r := set_curr_cpu (Z.of_nat cpu) (set_flags THREAD_FLAG_DETACHED
             (set_state THREAD_RUNNING (set_priority HIGHEST_PRIORITY (init_thread w)))) in
  let r := mk_thread (magic r) (priority r) (state r) (remaining_quantum r) (flags r) (signals r) (curr_cpu r)
             (Z.of_nat cpu) (last_started_running_us r) (runtime_us r) (blocking_wait_queue r)
             (blocked_status r) (interruptable r) (retcode r) (retcode_wait_queue r) in
  let k1 := wait_queue_init (with_threads k (<[t := r]> (threads k))) w in
  with_current (with_thread_list k1 (t :: thread_list k1)) (<[cpu := t]> (current k1)).

(** [k] is the memory at boot: all zero but for the numbers of the idle threads. *)
Definition thread_init_early (k : kstate) (w : nat) : option kstate :=
  let k1 := with_thread_list (with_run_queue k (replicate (Z.to_nat NUM_PRIORITIES) []) (run_queue_bitmap k)) [] in
  t ← idle_thread k1 !! 0%nat;
  Some (thread_construct_first k1 0 t w).

Definition thread_become_idle (k : kstate) (cpu : nat) : option kstate :=
  t ← current k !! cpu;
  let k1 := upd k t (λ r, mk_thread (magic r) IDLE_PRIORITY (state r) (remaining_quantum r)
              (Z.lor (flags r) THREAD_FLAG_IDLE) (signals r) (curr_cpu r) (Z.of_nat cpu)
              (last_started_running_us r) (runtime_us r) (blocking_wait_queue r)
              (blocked_status r) (interruptable r) (retcode r) (retcode_wait_queue r)) in
  thread_yield (mp_set_cpu_idle k1 cpu) cpu.

End Sched.
