(* ===== verification/SchedFacts.v ===== *)
(** * The scheduler's invariant

    What holds of the run queues, the wait queues and the processors outside
    the critical sections, that every operation of [Sched] keeps it without
    tripping an assertion, and which thread a reschedule picks. *)

From stdpp Require Import base tactics numbers list gmap sets.
From Stdlib Require Import ZArith Lia.
From S2P Require Import Prelude Sched.
#[local] Open Scope Z_scope.
#[local] Set Warnings "-clear-no-such-hyp".

Module SchedFacts.
Import Sched.

(** ** The invariant

    [ex] is a processor whose current thread has left the running state, on
    its way to [thread_resched]; [fl] are ready threads that are in no queue
    yet.  Between operations [ex] is [None] and [fl] is empty. *)
Record sinv (ex : option nat) (fl : gset nat) (k : kstate) : Prop := {
  si_len : length (run_queue k) = 32%nat;
  si_bm0 : 0 ≤ run_queue_bitmap k;
  si_bits i : 0 ≤ i → Z.testbit (run_queue_bitmap k) i = true ↔
    ∃ t q, run_queue k !! Z.to_nat i = Some (t :: q);
  si_rq i q t : run_queue k !! i = Some q → t ∈ q → ∃ r, threads k !! t = Some r ∧
    state r = THREAD_READY ∧ priority r = Z.of_nat i ∧ thread_is_idle r = false;
  si_rqnd i q : run_queue k !! i = Some q → NoDup q;
  si_float t i q : t ∈ fl → run_queue k !! i = Some q → t ∉ q;
  si_ready t r : threads k !! t = Some r → state r = THREAD_READY → thread_is_idle r = false → t ∉ fl →
    ∃ q, run_queue k !! Z.to_nat (priority r) = Some q ∧ t ∈ q;
  si_wq w q t : wqs k !! w = Some q → t ∈ wq_list q → ∃ r, threads k !! t = Some r ∧
    state r = THREAD_BLOCKED ∧ blocking_wait_queue r = Some w;
  si_wqnd w q : wqs k !! w = Some q → NoDup (wq_list q) ∧ wq_count q = Z.of_nat (length (wq_list q));
  si_blocked t r : threads k !! t = Some r → state r = THREAD_BLOCKED → ∃ w q,
    blocking_wait_queue r = Some w ∧ wqs k !! w = Some q ∧ t ∈ wq_list q ∧ wq_magic q = WAIT_QUEUE_MAGIC;
  si_running t r : threads k !! t = Some r → state r = THREAD_RUNNING → ∃ c, current k !! c = Some t;
  si_cur c t : current k !! c = Some t → ∃ r, threads k !! t = Some r ∧ curr_cpu r = Z.of_nat c ∧
    (ex = Some c ∨ state r = THREAD_RUNNING);
  si_idle c x : current k !! c = Some x → ∃ t r, idle_thread k !! c = Some t ∧ threads k !! t = Some r ∧
    thread_is_idle r = true ∧ (state r = THREAD_RUNNING → current k !! c = Some t);
  si_idnd : NoDup (idle_thread k);
  si_idlest t r : threads k !! t = Some r → thread_is_idle r = true →
    state r = THREAD_SUSPENDED ∨ state r = THREAD_READY ∨ state r = THREAD_RUNNING;
  si_prio t r : threads k !! t = Some r → 0 ≤ priority r < 32;
  si_magic t r : threads k !! t = Some r → state r ≠ THREAD_DEATH → is_thread r = true;
  si_preempt c t r : current k !! c = Some t → threads k !! t = Some r →
    thread_is_real_time_or_idle r = true → c ∉ preempt_timer k
}.

(** The invariant between operations. *)
Definition kinv (k : kstate) : Prop := sinv None ∅ k.

(** ** Choosing the next thread *)

Definition eligible (k : kstate) (cpu t : nat) : Prop :=
  ∃ r, threads k !! t = Some r ∧ (pinned_cpu r < 0 ∨ pinned_cpu r = Z.of_nat cpu).

Lemma pick_spec k cpu q :
  (∀ t, t ∈ q → is_Some (threads k !! t)) →
  (pick k cpu q = Some None ∧ ∀ t, t ∈ q → ¬ eligible k cpu t) ∨
  (∃ q1 t q2, q = q1 ++ t :: q2 ∧ pick k cpu q = Some (Some (t, q1 ++ q2)) ∧
     eligible k cpu t ∧ ∀ x, x ∈ q1 → ¬ eligible k cpu x).
Proof.
  induction q as [|t q IH]; intros Hex; simpl.
  { left. split; [done|]. set_solver. }
  destruct (Hex t ltac:(set_solver)) as [r Hr]. rewrite Hr. simpl.
  destruct ((pinned_cpu r <? 0) || (pinned_cpu r =? Z.of_nat cpu)) eqn:E.
  - right. exists [], t, q. split_and!; [done|done| |set_solver].
    exists r. split; [done|]. apply orb_true_iff in E as [E|E]; zb; auto.
  - assert (Hne : ¬ eligible k cpu t).
    { intros (r' & Hr' & Hp). simplify_eq. zb. lia. }
    destruct IH as [[-> Hno]|(q1 & x & q2 & -> & -> & He & Hno)]; [set_solver|left|right]; simpl.
    + split; [done|]. intros x Hx. apply elem_of_cons in Hx as [->|Hx]; auto.
    + exists (t :: q1), x, q2. split_and!; [done|done|done|].
      intros y Hy. apply elem_of_cons in Hy as [->|Hy]; auto.
Qed.

(** The thread [get_top_thread] picks and what it leaves: the first eligible
    thread of the highest queue that has one, or the idle thread. *)
Definition top_spec (k : kstate) (cpu t : nat) (k' : kstate) : Prop :=
  (idle_thread k !! cpu = Some t ∧ k' = k ∧
     ∀ i q x, run_queue k !! i = Some q → x ∈ q → ¬ eligible k cpu x) ∨
  (∃ i q1 q2, run_queue k !! i = Some (q1 ++ t :: q2) ∧ eligible k cpu t ∧
     (∀ x, x ∈ q1 → ¬ eligible k cpu x) ∧
     (∀ j q x, (i < j)%nat → run_queue k !! j = Some q → x ∈ q → ¬ eligible k cpu x) ∧
     k' = with_run_queue k (<[i := q1 ++ q2]> (run_queue k))
            (if bool_decide (q1 ++ q2 = []) then Z.ldiff (run_queue_bitmap k) (Z.shiftl 1 (Z.of_nat i))
             else run_queue_bitmap k)).

Lemma next_queue_log2 b : next_queue b = Z.log2 b.
Proof. unfold next_queue, clz, HIGHEST_PRIORITY, NUM_PRIORITIES. lia. Qed.

Lemma ldiff_bit b n i : 0 ≤ n → 0 ≤ i →
  Z.testbit (Z.ldiff b (Z.shiftl 1 n)) i = Z.testbit b i && negb (i =? n).
Proof.
  intros. rewrite Z.ldiff_spec, Z.shiftl_1_l, Z.pow2_bits_eqb by lia. by rewrite Z.eqb_sym.
Qed.

Lemma lor_bit b n i : 0 ≤ n → 0 ≤ i → Z.testbit (Z.lor b (Z.shiftl 1 n)) i = Z.testbit b i || (i =? n).
Proof.
  intros. rewrite Z.lor_spec, Z.shiftl_1_l, Z.pow2_bits_eqb by lia. by rewrite Z.eqb_sym.
Qed.

Lemma top_loop_spec ex fl k cpu idle fuel : ∀ j bm,
  sinv ex fl k → idle_thread k !! cpu = Some idle → 0 ≤ bm → j < Z.of_nat fuel → 0 ≤ j →
  (∀ i, 0 ≤ i → Z.testbit bm i = (i <? j) && Z.testbit (run_queue_bitmap k) i) →
  (∀ i q x, j ≤ Z.of_nat i → run_queue k !! i = Some q → x ∈ q → ¬ eligible k cpu x) →
  ∃ t k', top_loop fuel k cpu bm = Some (t, k') ∧ top_spec k cpu t k'.
Proof.
  induction fuel as [|fuel IH]; intros j bm Hinv Hidle Hbm Hfu Hj Hbits Hno; [lia|]. simpl.
  destruct (bm =? 0) eqn:E0; zb.
  { subst bm. rewrite Hidle. simpl. do 2 eexists. split; [done|]. left. split_and!; [done|done|].
    intros i q x Hq Hx. destruct (decide (j ≤ Z.of_nat i)) as [|Hlt]; [by eapply Hno|].
    exfalso. specialize (Hbits (Z.of_nat i) ltac:(lia)). rewrite Z.bits_0 in Hbits.
    assert (Z.testbit (run_queue_bitmap k) (Z.of_nat i) = true) as Ht.
    { apply (si_bits _ _ _ Hinv); [lia|]. rewrite Nat2Z.id, Hq. destruct q; [set_solver|eauto]. }
    rewrite Ht, andb_true_r in Hbits. symmetry in Hbits. zb. lia. }
  rewrite next_queue_log2. pose proof (Z.log2_nonneg bm) as Hn0. set (n := Z.log2 bm) in *.
  assert (Hbn : Z.testbit bm n = true) by (apply Z.bit_log2; lia).
  rewrite Hbits in Hbn by lia. apply andb_true_iff in Hbn as [Hnj Hbn]. zb.
  apply (si_bits _ _ _ Hinv) in Hbn as (t0 & q0 & Hq); [|lia]. rewrite Hq.
  cbn [mbind option_bind].
  destruct (pick_spec k cpu (t0 :: q0)) as [[-> Hne]|(q1 & t & q2 & Heq & -> & He & Hne)].
  { intros x Hx. destruct (si_rq _ _ _ Hinv _ _ _ Hq Hx) as (r & -> & _). eauto. }
  - cbn [mbind option_bind]. apply (IH n); [done|done| |lia|lia| |].
    + apply Z.ldiff_nonneg. lia.
    + intros i Hi. rewrite ldiff_bit, Hbits by lia. destruct (decide (i < n)).
      * assert ((i <? j) = true) as -> by (apply Z.ltb_lt; lia).
        assert ((i <? n) = true) as -> by (apply Z.ltb_lt; lia).
        assert ((i =? n) = false) as -> by (apply Z.eqb_neq; lia). by rewrite andb_true_r.
      * assert ((i <? n) = false) as -> by (apply Z.ltb_ge; lia). simpl.
        destruct (i =? n) eqn:E; [by rewrite andb_false_r|]. zb.
        rewrite <- Hbits by lia. rewrite Z.bits_above_log2 by lia. done.
    + intros i q x Hi Hqi Hx. destruct (decide (j ≤ Z.of_nat i)); [by eapply Hno|].
      destruct (decide (Z.of_nat i = n)) as [En|En].
      * replace (Z.to_nat n) with i in Hq by lia. rewrite Hq in Hqi. simplify_eq. auto.
      * exfalso. assert (Z.testbit bm (Z.of_nat i) = true) as Hb.
        { rewrite Hbits by lia. assert ((Z.of_nat i <? j) = true) as -> by (apply Z.ltb_lt; lia). simpl.
          apply (si_bits _ _ _ Hinv); [lia|]. rewrite Nat2Z.id, Hqi. destruct q; [set_solver|eauto]. }
        rewrite Z.bits_above_log2 in Hb by lia. done.
  - cbn [mbind option_bind]. do 2 eexists. split; [done|]. right. exists (Z.to_nat n), q1, q2.
    rewrite Heq in Hq. rewrite Z2Nat.id by lia. split_and!; [done|done|done| |done].
    intros i q x Hi Hqi Hx. destruct (decide (j ≤ Z.of_nat i)); [by eapply Hno|].
    exfalso. assert (Z.testbit bm (Z.of_nat i) = true) as Hb.
    { rewrite Hbits by lia. assert ((Z.of_nat i <? j) = true) as -> by (apply Z.ltb_lt; lia). simpl.
      apply (si_bits _ _ _ Hinv); [lia|]. rewrite Nat2Z.id, Hqi. destruct q; [set_solver|eauto]. }
    rewrite Z.bits_above_log2 in Hb by lia. done.
Qed.

Lemma bitmap_top ex fl k : sinv ex fl k → ∀ i, 32 ≤ i → Z.testbit (run_queue_bitmap k) i = false.
Proof.
  intros Hinv i Hi. apply not_true_is_false. rewrite (si_bits _ _ _ Hinv) by lia.
  intros (t & q & Hq). apply lookup_lt_Some in Hq. rewrite (si_len _ _ _ Hinv) in Hq. lia.
Qed.

Lemma get_top_thread_spec ex fl k cpu idle :
  sinv ex fl k → idle_thread k !! cpu = Some idle →
  ∃ t k', get_top_thread k cpu = Some (t, k') ∧ top_spec k cpu t k'.
Proof.
  intros Hinv Hidle. apply (top_loop_spec ex fl k cpu idle 33 32); [done|done|apply Hinv|lia|lia| |].
  - intros i Hi. destruct (i <? 32) eqn:E; [done|]. zb. by apply (bitmap_top ex fl).
  - intros i q x Hi Hq. apply lookup_lt_Some in Hq. rewrite (si_len _ _ _ Hinv) in Hq. lia.
Qed.

(** ** Elementary changes of the state *)

(** What the invariant sees of a thread. *)
Definition view (r : thread) :=
  (state r, priority r, thread_is_idle r, blocking_wait_queue r, curr_cpu r, thread_is_real_time_or_idle r).

Lemma lookup_upd k t f x :
  threads (upd k t f) !! x = if decide (x = t) then f <$> threads k !! x else threads k !! x.
Proof.
  unfold upd. simpl. case_decide as E; [subst; apply lookup_alter_eq|by apply lookup_alter_ne].
Qed.

Lemma lookup_upd_eq k t f r : threads k !! t = Some r → threads (upd k t f) !! t = Some (f r).
Proof. intros H. by rewrite lookup_upd, decide_True, H. Qed.

Lemma lookup_upd_ne k t f x : x ≠ t → threads (upd k t f) !! x = threads k !! x.
Proof. intros. by rewrite lookup_upd, decide_False. Qed.

(** Writes the invariant does not see. *)
Lemma sinv_upd_view ex fl k t f :
  (∀ r, threads k !! t = Some r → view (f r) = view r) →
  (∀ r, threads k !! t = Some r → state r ≠ THREAD_DEATH → is_thread (f r) = is_thread r) →
  sinv ex fl k → sinv ex fl (upd k t f).
Proof.
  intros Hv Hmg Hi.
  assert (Hf : ∀ x r', threads (upd k t f) !! x = Some r' → ∃ r, threads k !! x = Some r ∧ view r' = view r).
  { intros x r'. rewrite lookup_upd. case_decide as E; [subst|naive_solver].
    intros (r & Hr & ->)%fmap_Some. naive_solver. }
  assert (Hb : ∀ x r, threads k !! x = Some r → ∃ r', threads (upd k t f) !! x = Some r' ∧ view r' = view r).
  { intros x r Hr. rewrite lookup_upd. case_decide as E; [subst|naive_solver]. rewrite Hr. simpl. eauto. }
  unfold view in *. split; try by apply Hi.
  - intros i q x Hq Hx. destruct (si_rq _ _ _ Hi _ _ _ Hq Hx) as (r & Hr & ? & ? & ?).
    destruct (Hb _ _ Hr) as (r' & ? & E). simplify_eq. exists r'. split_and!; congruence.
  - intros x r' Hr' ? ? ?. destruct (Hf _ _ Hr') as (r & Hr & E). simplify_eq.
    destruct (si_ready _ _ _ Hi x r) as (q & Hq & ?); [done|congruence|congruence|done|]. exists q. split; [|done].
    change (run_queue (upd k t f)) with (run_queue k). congruence.
  - intros w q x Hq Hx. destruct (si_wq _ _ _ Hi _ _ _ Hq Hx) as (r & Hr & ? & ?).
    destruct (Hb _ _ Hr) as (r' & ? & E). simplify_eq. exists r'. split_and!; congruence.
  - intros x r' Hr' ?. destruct (Hf _ _ Hr') as (r & Hr & E). simplify_eq.
    destruct (si_blocked _ _ _ Hi x r) as (w & q & ? & ? & ? & ?); [done|congruence|]. exists w, q. split_and!; (done || congruence).
  - intros x r' Hr' ?. destruct (Hf _ _ Hr') as (r & Hr & E). simplify_eq.
    eapply (si_running _ _ _ Hi x r); [done|congruence].
  - intros c x Hc. destruct (si_cur _ _ _ Hi _ _ Hc) as (r & Hr & ? & Hs).
    destruct (Hb _ _ Hr) as (r' & ? & E). simplify_eq. exists r'. split_and!; [done|congruence|].
    destruct Hs; [by left|right; congruence].
  - intros c x Hc. destruct (si_idle _ _ _ Hi _ _ Hc) as (d & r & ? & Hr & ? & ?).
    destruct (Hb _ _ Hr) as (r' & ? & E). simplify_eq. exists d, r'. split_and!; [done|done|congruence|].
    intros. assert (state r = THREAD_RUNNING) by congruence. auto.
  - intros x r' Hr' ?. destruct (Hf _ _ Hr') as (r & Hr & E). simplify_eq.
    destruct (si_idlest _ _ _ Hi x r) as [?|[?|?]]; [done|congruence|left; congruence|right; left; congruence|right; right; congruence].
  - intros x r' Hr'. destruct (Hf _ _ Hr') as (r & Hr & E). simplify_eq.
    pose proof (si_prio _ _ _ Hi x r Hr). congruence.
  - intros x r'. rewrite lookup_upd. case_decide as Ex; [subst|by apply (si_magic _ _ _ Hi)].
    intros (r & Hr & ->)%fmap_Some Hs. specialize (Hv r Hr). simplify_eq.
    assert (state r ≠ THREAD_DEATH) by congruence. rewrite Hmg by done. by apply (si_magic _ _ _ Hi t r).
  - intros c x r' Hc Hr' ?. destruct (Hf _ _ Hr') as (r & Hr & E). simplify_eq.
    eapply (si_preempt _ _ _ Hi c x r); [done|done|congruence].
Qed.

(** A thread leaves the running state for one in which it is in no queue. *)
Lemma sinv_leave fl k c t r f :
  sinv None fl k → current k !! c = Some t → threads k !! t = Some r → state r = THREAD_RUNNING →
  (state (f r) = THREAD_READY ∨ state (f r) = THREAD_SLEEPING ∨ state (f r) = THREAD_DEATH) →
  (thread_is_idle r = true → state (f r) = THREAD_READY) →
  0 ≤ priority (f r) < 32 → thread_is_idle (f r) = thread_is_idle r →
  thread_is_real_time_or_idle (f r) = thread_is_real_time_or_idle r →
  curr_cpu (f r) = curr_cpu r → (state (f r) ≠ THREAD_DEATH → is_thread (f r) = true) →
  sinv (Some c) (fl ∪ {[t]}) (upd k t f).
Proof.
  intros Hi Hc Hr Hrun Hs Hsi Hp Hid Hrt Hcpu Hm.
  assert (Hnr : state (f r) ≠ THREAD_RUNNING) by (destruct Hs as [?|[?|?]]; congruence).
  assert (Hnb : state (f r) ≠ THREAD_BLOCKED) by (destruct Hs as [?|[?|?]]; congruence).
  assert (Hnq : ∀ i q, run_queue k !! i = Some q → t ∉ q).
  { intros i q Hq Ht. destruct (si_rq _ _ _ Hi _ _ _ Hq Ht) as (r' & ? & ? & _). congruence. }
  split; try by apply Hi.
  - intros i q x Hq Hx. destruct (si_rq _ _ _ Hi _ _ _ Hq Hx) as (r' & ? & ?).
    exists r'. rewrite lookup_upd_ne; [done|]. intros ->. by eapply Hnq.
  - intros x i q Hx Hq. apply elem_of_union in Hx as [Hx|Hx]; [by eapply (si_float _ _ _ Hi)|].
    apply elem_of_singleton in Hx as ->. by eapply Hnq.
  - intros x r' Hr' ? ? Hx. rewrite lookup_upd_ne in Hr' by set_solver. eapply (si_ready _ _ _ Hi); set_solver.
  - intros w q x Hq Hx. destruct (si_wq _ _ _ Hi _ _ _ Hq Hx) as (r' & ? & ? & ?).
    exists r'. rewrite lookup_upd_ne; [done|]. intros ->. congruence.
  - intros x r'. rewrite lookup_upd. case_decide as E; [subst|by apply (si_blocked _ _ _ Hi)].
    rewrite Hr. simpl. naive_solver.
  - intros x r'. rewrite lookup_upd. case_decide as E; [subst|by apply (si_running _ _ _ Hi)].
    rewrite Hr. simpl. naive_solver.
  - intros c' x Hc'. destruct (si_cur _ _ _ Hi _ _ Hc') as (r' & Hr' & Hcc & [?|?]); [done|].
    rewrite lookup_upd. case_decide as E; [subst|eauto].
    simplify_eq. rewrite Hr. simpl. exists (f r). split_and!; [done|congruence|].
    left. f_equal. destruct (si_cur _ _ _ Hi _ _ Hc) as (r2 & Hr2 & Hcc2 & _). simplify_eq. lia.
  - intros c' x Hc'. destruct (si_idle _ _ _ Hi _ _ Hc') as (d & r' & ? & Hr' & ? & ?).
    exists d. rewrite lookup_upd. case_decide as E; [subst|eauto].
    simplify_eq. rewrite Hr. simpl. exists (f r). split_and!; [done|done|congruence|done].
  - intros x r'. rewrite lookup_upd. case_decide as E; [subst|by apply (si_idlest _ _ _ Hi)].
    rewrite Hr. simpl. intros [= <-] Hx. rewrite Hid in Hx. right; left. auto.
  - intros x r'. rewrite lookup_upd. case_decide as E; [subst|by apply (si_prio _ _ _ Hi)].
    rewrite Hr. simpl. naive_solver.
  - intros x r'. rewrite lookup_upd. case_decide as E; [subst|by apply (si_magic _ _ _ Hi)].
    rewrite Hr. simpl. naive_solver.
  - intros c' x r' Hc'. rewrite lookup_upd. case_decide as E; [subst|by eapply (si_preempt _ _ _ Hi)].
    rewrite Hr. simpl. intros [= <-]. rewrite Hrt. by eapply (si_preempt _ _ _ Hi).
Qed.

(** A floating thread that need not be in a run queue. *)
Lemma sinv_unfloat ex fl k t :
  sinv ex (fl ∪ {[t]}) k →
  (∀ r, threads k !! t = Some r → state r = THREAD_READY → thread_is_idle r = true) → sinv ex fl k.
Proof.
  intros Hi Ht. split; try by apply Hi.
  - intros x i q Hx. apply (si_float _ _ _ Hi). set_solver.
  - intros x r Hr Hs Hid Hx. apply (si_ready _ _ _ Hi); [done..|].
    apply not_elem_of_union. split; [done|]. intros ->%elem_of_singleton. rewrite Ht in Hid; done.
Qed.

(** A running thread is put on a wait queue. *)
Lemma sinv_block k c t r w q f :
  kinv k → current k !! c = Some t → threads k !! t = Some r → state r = THREAD_RUNNING →
  thread_is_idle r = false → wqs k !! w = Some q → wq_magic q = WAIT_QUEUE_MAGIC →
  state (f r) = THREAD_BLOCKED → blocking_wait_queue (f r) = Some w → priority (f r) = priority r →
  thread_is_idle (f r) = false → thread_is_real_time_or_idle (f r) = thread_is_real_time_or_idle r →
  curr_cpu (f r) = curr_cpu r → is_thread (f r) = is_thread r →
  sinv (Some c) ∅ (upd (set_wq k w (wq_list q ++ [t]) (wq_count q + 1)) t f).
Proof.
  intros Hi Hc Hr Hrun Hid Hq Hmq Hs Hbl Hp Hid' Hrt Hcpu Hm.
  assert (Hlw : ∀ w', wqs (set_wq k w (wq_list q ++ [t]) (wq_count q + 1)) !! w' =
    if decide (w' = w) then Some (mk_wq (wq_magic q) (wq_list q ++ [t]) (wq_count q + 1)) else wqs k !! w').
  { intros w'. simpl. case_decide as E; [subst; rewrite lookup_alter_eq, Hq; done|by apply lookup_alter_ne]. }
  assert (Hnw : ∀ w' q', wqs k !! w' = Some q' → t ∉ wq_list q').
  { intros w' q' Hq' Ht. destruct (si_wq _ _ _ Hi _ _ _ Hq' Ht) as (r' & ? & ? & _). congruence. }
  assert (Hlt : ∀ x, threads (upd (set_wq k w (wq_list q ++ [t]) (wq_count q + 1)) t f) !! x =
    if decide (x = t) then f <$> threads k !! x else threads k !! x) by (intros x; exact (lookup_upd (set_wq k w (wq_list q ++ [t]) (wq_count q + 1)) t f x)).
  set (k' := upd _ t f) in *. change (wqs (set_wq k w (wq_list q ++ [t]) (wq_count q + 1))) with (wqs k') in Hlw.
  split; try by apply Hi.
  - intros i l x Hl Hx. destruct (si_rq _ _ _ Hi _ _ _ Hl Hx) as (r' & ? & ?). exists r'.
    rewrite Hlt, decide_False; [done|]. intros ->. naive_solver congruence.
  - intros x r'. rewrite Hlt. case_decide as E; [subst; rewrite Hr; simpl; naive_solver congruence|apply Hi].
  - intros w' q' x. rewrite Hlw, Hlt. case_decide as E.
    + subst. intros [= <-]. simpl. intros [Hx|Hx]%elem_of_app.
      * rewrite decide_False; [by eapply (si_wq _ _ _ Hi)|]. intros ->. by eapply Hnw.
      * apply list_elem_of_singleton in Hx as ->. rewrite decide_True, Hr by done. simpl. eauto.
    + intros Hq' Hx. rewrite decide_False; [by eapply (si_wq _ _ _ Hi)|]. intros ->. by eapply Hnw.
  - intros w' q'. rewrite Hlw. case_decide as E; [|apply Hi]. intros [= <-]. simpl.
    destruct (si_wqnd _ _ _ Hi _ _ Hq) as [Hnd Hct]. rewrite length_app, Hct. simpl. split; [|lia].
    apply NoDup_app. split_and!; [done| |apply NoDup_singleton].
    intros x Hx Hx2. apply list_elem_of_singleton in Hx2 as ->. by eapply Hnw.
  - intros x r'. rewrite Hlt. case_decide as E.
    + subst. rewrite Hr. simpl. intros [= <-] _. exists w. eexists. rewrite Hlw, decide_True by done.
      split_and!; [done|done|simpl; set_solver|done].
    + intros Hr' Hb. destruct (si_blocked _ _ _ Hi _ _ Hr' Hb) as (w' & q' & ? & Hq' & ? & ?).
      exists w'. rewrite Hlw. case_decide; [|eauto]. subst. simplify_eq. eexists. split_and!; [done|done|simpl; set_solver|done].
  - intros x r'. rewrite Hlt. case_decide as E; [subst; rewrite Hr; simpl; naive_solver congruence|apply Hi].
  - intros c' x Hc'. destruct (si_cur _ _ _ Hi _ _ Hc') as (r' & Hr' & Hcc & [?|?]); [done|].
    rewrite Hlt. case_decide as E; [subst|eauto].
    simplify_eq. rewrite Hr. simpl. exists (f r). split_and!; [done|congruence|].
    left. f_equal. destruct (si_cur _ _ _ Hi _ _ Hc) as (r2 & Hr2 & Hcc2 & _). simplify_eq. lia.
  - intros c' x Hc'. destruct (si_idle _ _ _ Hi _ _ Hc') as (d & r' & ? & Hr' & ? & ?).
    exists d. rewrite Hlt. case_decide as E; [subst; congruence|eauto].
  - intros x r'. rewrite Hlt. case_decide as E; [subst; rewrite Hr; simpl; naive_solver congruence|apply Hi].
  - intros x r'. rewrite Hlt. case_decide as E; [subst|by apply (si_prio _ _ _ Hi)].
    rewrite Hr. simpl. intros [= <-]. rewrite Hp. by eapply (si_prio _ _ _ Hi).
  - intros x r'. rewrite Hlt. case_decide as E; [subst|by apply (si_magic _ _ _ Hi)].
    rewrite Hr. simpl. intros [= <-] _. rewrite Hm. eapply (si_magic _ _ _ Hi); [done|congruence].
  - intros c' x r' Hc'. rewrite Hlt. case_decide as E; [subst|by eapply (si_preempt _ _ _ Hi)].
    rewrite Hr. simpl. intros [= <-]. rewrite Hrt. by eapply (si_preempt _ _ _ Hi).
Qed.

Lemma in_list_false k t :
  (∀ i q, run_queue k !! i = Some q → t ∉ q) → (∀ w q, wqs k !! w = Some q → t ∉ wq_list q) →
  in_list k t = false.
Proof.
  intros Hr Hw. unfold in_list. apply orb_false_iff. split.
  - apply not_true_is_false. rewrite existsb_exists. intros (q & Hq & Ht). apply bool_decide_eq_true in Ht.
    apply list_elem_of_In, list_elem_of_lookup in Hq as [i Hi]. by eapply Hr.
  - apply not_true_is_false. rewrite existsb_exists. intros ([w q] & Hq & Ht). apply bool_decide_eq_true in Ht.
    apply list_elem_of_In, elem_of_map_to_list in Hq. by eapply Hw.
Qed.

Lemma not_in_wq ex fl k t r w q :
  sinv ex fl k → threads k !! t = Some r → state r ≠ THREAD_BLOCKED → wqs k !! w = Some q → t ∉ wq_list q.
Proof. intros Hi Hr Hs Hq Ht. destruct (si_wq _ _ _ Hi _ _ _ Hq Ht) as (r' & ? & ? & _). congruence. Qed.

Lemma not_in_rq ex fl k t r i q :
  sinv ex fl k → threads k !! t = Some r → state r ≠ THREAD_READY → run_queue k !! i = Some q → t ∉ q.
Proof. intros Hi Hr Hs Hq Ht. destruct (si_rq _ _ _ Hi _ _ _ Hq Ht) as (r' & ? & ? & _). congruence. Qed.

(** Inserting a floating thread into the run queue of its priority. *)
Lemma insert_ok hd ex fl k t r :
  sinv ex fl k → t ∈ fl → threads k !! t = Some r → state r = THREAD_READY → thread_is_idle r = false →
  ∃ rq bm, insert_in_run_queue hd k t = Some (with_run_queue k rq bm) ∧
    sinv ex (fl ∖ {[t]}) (with_run_queue k rq bm).
Proof.
  intros Hi Hfl Hr Hs Hid. unfold insert_in_run_queue. rewrite Hr. cbn [mbind option_bind].
  pose proof (si_prio _ _ _ Hi _ _ Hr) as Hp.
  assert (is_thread r = true) as -> by (apply (si_magic _ _ _ Hi _ _ Hr); congruence).
  unfold has_state. rewrite bool_decide_true by done.
  rewrite in_list_false; [|intros; by eapply (si_float _ _ _ Hi)|intros; eapply not_in_wq; [done|done|congruence|done]].
  destruct (lookup_lt_is_Some_2 (run_queue k) (Z.to_nat (priority r))) as [q Hq];
    [rewrite (si_len _ _ _ Hi); lia|].
  rewrite Hq. cbn [mbind option_bind andb negb]. do 2 eexists. split; [done|].
  set (q' := if hd then t :: q else q ++ [t]).
  assert (Hq' : ∀ x, x ∈ q' ↔ x = t ∨ x ∈ q) by (intros x; unfold q'; destruct hd; set_solver).
  assert (Hlk : ∀ i, <[Z.to_nat (priority r) := q']> (run_queue k) !! i =
    if decide (i = Z.to_nat (priority r)) then Some q' else run_queue k !! i).
  { intros i. case_decide as E; [subst; apply list_lookup_insert_eq; eapply lookup_lt_Some, Hq|
      by apply list_lookup_insert_ne]. }
  split; simpl; try by apply Hi.
  - rewrite length_insert. apply Hi.
  - apply Z.lor_nonneg. split; [apply Hi|]. apply Z.shiftl_nonneg. lia.
  - intros i Hi0. rewrite lor_bit, Hlk by lia. case_decide as E.
    + assert (i = priority r) as -> by lia. rewrite Z.eqb_refl, orb_true_r. split; [intros _|done].
      unfold q'. destruct hd, q; simpl; eauto.
    + assert ((i =? priority r) = false) as -> by (apply Z.eqb_neq; lia). rewrite orb_false_r. by apply Hi.
  - intros i l x. rewrite Hlk. case_decide as E; [|apply Hi]. intros [= <-] [->|Hx]%Hq'.
    + exists r. split_and!; [done|done|lia|done].
    + subst i. by eapply (si_rq _ _ _ Hi).
  - intros i l. rewrite Hlk. case_decide as E; [|apply Hi]. intros [= <-].
    pose proof (si_rqnd _ _ _ Hi _ _ Hq) as Hnd. pose proof (si_float _ _ _ Hi _ _ _ Hfl Hq) as Hnt.
    unfold q'. destruct hd; [by constructor|]. apply NoDup_app.
    split_and!; [done|set_solver|apply NoDup_singleton].
  - intros x i l Hx. rewrite Hlk. apply elem_of_difference in Hx as [Hx Hne].
    case_decide as E; [|by apply (si_float _ _ _ Hi)].
    intros [= <-] [->|Hx']%Hq'; [set_solver|by eapply (si_float _ _ _ Hi)].
  - intros x r' Hr' Hs' Hid' Hx. rewrite Hlk. destruct (decide (x = t)) as [->|Hne].
    + simplify_eq. rewrite decide_True by done. exists q'. split; [done|]. apply Hq'. by left.
    + destruct (si_ready _ _ _ Hi x r') as (l & Hl & Hxl); [done..|set_solver|].
      case_decide as E; [|eauto]. exists q'. split; [done|]. apply Hq'. right.
      rewrite E, Hq in Hl. by simplify_eq.
Qed.

(** Taking a thread off its wait queue and making it ready. *)
Lemma sinv_wake ex fl k w q l1 t l2 err :
  sinv ex fl k → wqs k !! w = Some q → wq_list q = l1 ++ t :: l2 →
  let k' := wake (set_wq k w (l1 ++ l2) (wq_count q - 1)) t err in
  sinv ex (fl ∪ {[t]}) k' ∧ ∃ r, threads k !! t = Some r ∧ state r = THREAD_BLOCKED ∧ thread_is_idle r = false ∧
    threads k' !! t = Some (set_blocking None (set_blocked_status err (set_state THREAD_READY r))).
Proof.
  intros Hi Hq Hl k'.
  destruct (si_wq _ _ _ Hi w q t Hq ltac:(rewrite Hl; set_solver)) as (r & Hr & Hs & Hb).
  assert (Hid : thread_is_idle r = false).
  { destruct (thread_is_idle r) eqn:E; [|done]. destruct (si_idlest _ _ _ Hi _ _ Hr E) as [?|[?|?]]; congruence. }
  set (g := λ r, set_blocking None (set_blocked_status err (set_state THREAD_READY r))).
  assert (Hlt : ∀ x, threads k' !! x = if decide (x = t) then g <$> threads k !! x else threads k !! x)
    by (intros x; exact (lookup_upd (set_wq k w (l1 ++ l2) (wq_count q - 1)) t g x)).
  assert (Hlw : ∀ w', wqs k' !! w' =
    if decide (w' = w) then Some (mk_wq (wq_magic q) (l1 ++ l2) (wq_count q - 1)) else wqs k !! w').
  { intros w'. simpl. case_decide as E; [subst; rewrite lookup_alter_eq, Hq; done|by apply lookup_alter_ne]. }
  destruct (si_wqnd _ _ _ Hi _ _ Hq) as [Hnd Hct]. rewrite Hl in Hnd, Hct.
  assert (Hnt : t ∉ l1 ++ l2).
  { apply NoDup_app in Hnd as (_ & Hd & Hnd2). apply NoDup_cons in Hnd2 as [? _]. set_solver. }
  split; [|exists r; split_and!; [done|done|done|by rewrite Hlt, decide_True, Hr]].
  split; try by apply Hi.
  - intros i p x Hp Hx. destruct (si_rq _ _ _ Hi _ _ _ Hp Hx) as (r' & ? & ? & ?). exists r'.
    rewrite Hlt, decide_False; [done|]. intros ->. congruence.
  - intros x i p Hx Hp. apply elem_of_union in Hx as [Hx| ->%elem_of_singleton].
    + by eapply (si_float _ _ _ Hi).
    + eapply (not_in_rq ex fl k); [done|done|congruence|done].
  - intros x r' Hr' Hs' Hid' Hx. rewrite Hlt, decide_False in Hr' by set_solver.
    apply (si_ready _ _ _ Hi); set_solver.
  - intros w' q' x. rewrite Hlw, Hlt. case_decide as E.
    + intros [= <-] Hx. simpl in Hx. subst. rewrite decide_False by (intros ->; done).
      eapply (si_wq _ _ _ Hi); [done|]. rewrite Hl. set_solver.
    + intros Hq' Hx. rewrite decide_False; [by eapply (si_wq _ _ _ Hi)|]. intros ->.
      destruct (si_wq _ _ _ Hi _ _ _ Hq' Hx) as (r' & ? & ? & ?). congruence.
  - intros w' q'. rewrite Hlw. case_decide as E; [|apply Hi]. intros [= <-]. simpl.
    rewrite Hct, !length_app. simpl. split; [|lia].
    apply NoDup_app in Hnd as (? & Hd & Hnd2). apply NoDup_cons in Hnd2 as [? ?].
    apply NoDup_app. split_and!; [done|set_solver|done].
  - intros x r'. rewrite Hlt. case_decide as E; [subst; rewrite Hr; simpl; naive_solver|].
    intros Hr' Hb'. destruct (si_blocked _ _ _ Hi _ _ Hr' Hb') as (w' & q' & ? & Hq' & Hx & ?).
    exists w'. rewrite Hlw. case_decide; [|eauto]. subst. simplify_eq. eexists.
    split_and!; [done|done| |done]. simpl. rewrite Hl in Hx. set_solver.
  - intros x r'. rewrite Hlt. case_decide as E; [subst; rewrite Hr; simpl; naive_solver|apply Hi].
  - intros c x Hc. destruct (si_cur _ _ _ Hi _ _ Hc) as (r' & Hr' & ? & Hst). rewrite Hlt.
    case_decide as E; [subst|eauto]. simplify_eq. rewrite Hr. eexists. split_and!; [done|done|].
    destruct Hst; [by left|congruence].
  - intros c x Hc. destruct (si_idle _ _ _ Hi _ _ Hc) as (d & r' & ? & Hr' & ? & ?).
    exists d, r'. rewrite Hlt, decide_False; [done|]. intros ->. congruence.
  - intros x r'. rewrite Hlt. case_decide as E; [subst|apply Hi].
    rewrite Hr. simpl. intros [= <-] Hx. by right; left.
  - intros x r'. rewrite Hlt. case_decide as E; [subst|apply Hi].
    rewrite Hr. simpl. intros [= <-]. exact (si_prio _ _ _ Hi _ _ Hr).
  - intros x r'. rewrite Hlt. case_decide as E; [subst|apply Hi].
    rewrite Hr. simpl. intros [= <-] _. apply (si_magic _ _ _ Hi _ _ Hr). congruence.
  - intros c x r' Hc. rewrite Hlt. case_decide as E; [subst|by apply (si_preempt _ _ _ Hi)].
    rewrite Hr. simpl. intros [= <-]. exact (si_preempt _ _ _ Hi c t r Hc Hr).
Qed.

(** ** The switch *)

(** Run queues after the choice: the chosen thread is out, the others stay. *)
Record rq_after (k k1 : kstate) (new : nat) : Prop := {
  ra_len : length (run_queue k1) = 32%nat;
  ra_bm0 : 0 ≤ run_queue_bitmap k1;
  ra_bits i : 0 ≤ i → Z.testbit (run_queue_bitmap k1) i = true ↔
    ∃ t q, run_queue k1 !! Z.to_nat i = Some (t :: q);
  ra_in i q x : run_queue k1 !! i = Some q → x ∈ q → x ≠ new ∧ ∃ q0, run_queue k !! i = Some q0 ∧ x ∈ q0;
  ra_nd i q : run_queue k1 !! i = Some q → NoDup q;
  ra_keep i q x : run_queue k !! i = Some q → x ∈ q → x ≠ new → ∃ q', run_queue k1 !! i = Some q' ∧ x ∈ q';
  ra_threads : threads k1 = threads k;
  ra_wqs : wqs k1 = wqs k;
  ra_current : current k1 = current k;
  ra_idle : idle_thread k1 = idle_thread k;
  ra_preempt : preempt_timer k1 = preempt_timer k;
  ra_timers : timers k1 = timers k
}.

Lemma top_rq_after ex fl k c x0 new k1 :
  sinv ex fl k → current k !! c = Some x0 → top_spec k c new k1 → rq_after k k1 new.
Proof.
  intros Hi Hc [(Hid & -> & _)|(i & q1 & q2 & Hq & _ & _ & _ & ->)].
  { destruct (si_idle _ _ _ Hi _ _ Hc) as (d & r & Hd & Hr & Hidl & _). simplify_eq.
    split; try (by apply Hi); try done; [|eauto].
    intros i q x Hq Hx. split; [|eauto]. intros ->.
    destruct (si_rq _ _ _ Hi _ _ _ Hq Hx) as (r' & ? & ? & ? & ?). congruence. }
  assert (Hlk : ∀ j, <[i := q1 ++ q2]> (run_queue k) !! j = if decide (j = i) then Some (q1 ++ q2) else run_queue k !! j).
  { intros j. case_decide as E; [subst; apply list_lookup_insert_eq; eapply lookup_lt_Some, Hq|
      by apply list_lookup_insert_ne]. }
  pose proof (si_rqnd _ _ _ Hi _ _ Hq) as Hnd.
  assert (Hnn : new ∉ q1 ++ q2).
  { apply NoDup_app in Hnd as (_ & Hd & Hnd2). apply NoDup_cons in Hnd2 as [? _]. set_solver. }
  split; simpl; try done.
  - rewrite length_insert. apply Hi.
  - case_bool_decide; [apply Z.ldiff_nonneg; left|]; apply Hi.
  - intros j Hj. rewrite Hlk. case_bool_decide as Em.
    + rewrite ldiff_bit by lia. destruct (decide (Z.to_nat j = i)) as [<-|E].
      * rewrite Z2Nat.id, Z.eqb_refl, andb_false_r, Em by lia. naive_solver.
      * assert ((j =? Z.of_nat i) = false) as -> by (apply Z.eqb_neq; lia). rewrite andb_true_r. by apply Hi.
    + case_decide as E; [|by apply Hi]. subst i. split; intros _.
      * destruct (q1 ++ q2); [done|eauto].
      * apply Hi; [done|]. rewrite Hq. destruct q1; simpl; eauto.
  - intros j q x. rewrite Hlk. case_decide as E.
    + intros [= <-] Hx. subst. split; [set_solver|]. exists (q1 ++ new :: q2). split; [done|set_solver].
    + intros Hq' Hx. split; [|eauto]. intros ->.
      destruct (si_rq _ _ _ Hi _ _ _ Hq' Hx) as (r1 & ? & ? & ? & ?).
      destruct (si_rq _ _ _ Hi _ _ new Hq ltac:(set_solver)) as (r2 & ? & ? & ? & ?). simplify_eq. lia.
  - intros j q. rewrite Hlk. case_decide as E; [|apply Hi]. intros [= <-].
    apply NoDup_app in Hnd as (? & Hd & Hnd2). apply NoDup_cons in Hnd2 as [? ?].
    apply NoDup_app. split_and!; [done|set_solver|done].
  - intros j q x Hq' Hx Hne. rewrite Hlk. case_decide as E; [|eauto]. subst. simplify_eq.
    exists (q1 ++ q2). split; [done|set_solver].
Qed.

(** The parts of a thread a switch leaves alone. *)
Definition kept (r : thread) :=
  (state r, priority r, thread_is_idle r, is_thread r, blocking_wait_queue r, thread_is_real_time_or_idle r).

Lemma sinv_switch k k1 k' c old oldr new newr r' :
  sinv (Some c) ∅ k → current k !! c = Some old → threads k !! old = Some oldr → state oldr ≠ THREAD_RUNNING →
  rq_after k k1 new → threads k !! new = Some newr → state newr ≠ THREAD_RUNNING → state newr ≠ THREAD_BLOCKED →
  state newr ≠ THREAD_DEATH →
  (thread_is_idle newr = true → idle_thread k !! c = Some new) →
  run_queue k' = run_queue k1 → run_queue_bitmap k' = run_queue_bitmap k1 → wqs k' = wqs k →
  idle_thread k' = idle_thread k → current k' = <[c := new]> (current k) →
  threads k' !! new = Some r' → kept r' = kept (set_state THREAD_RUNNING newr) → curr_cpu r' = Z.of_nat c →
  (∀ x rx, x ≠ new → threads k' !! x = Some rx → ∃ r0, threads k !! x = Some r0 ∧ kept rx = kept r0) →
  (∀ x r0, x ≠ new → threads k !! x = Some r0 → ∃ rx, threads k' !! x = Some rx ∧ kept rx = kept r0 ∧
     (x ≠ old → curr_cpu rx = curr_cpu r0)) →
  (∀ c', c' ≠ c → c' ∈ preempt_timer k' → c' ∈ preempt_timer k) →
  (thread_is_real_time_or_idle newr = true → c ∉ preempt_timer k') →
  kinv k'.
Proof.
  intros Hi Hc Hold Hors Hra Hnew Hnr Hnb Hnd Hnid Erq Ebm Ewq Eid Ecur Hr' Hk' Hcpu Hf Hb Hpo Hpn.
  unfold kept in *. simpl in Hk'. simplify_eq.
  change (thread_is_idle (set_state THREAD_RUNNING newr)) with (thread_is_idle newr) in *.
  change (is_thread (set_state THREAD_RUNNING newr)) with (is_thread newr) in *.
  change (thread_is_real_time_or_idle (set_state THREAD_RUNNING newr)) with (thread_is_real_time_or_idle newr) in *.
  assert (Hncur : ∀ c', c' ≠ c → current k !! c' ≠ Some new).
  { intros c' Hne Hc'. destruct (si_cur _ _ _ Hi _ _ Hc') as (r2 & ? & _ & [?|?]); congruence. }
  split; rewrite ?Erq, ?Ebm, ?Ewq, ?Eid, ?Ecur; try by apply Hra.
  - intros i q x Hq Hx. destruct (ra_in _ _ _ Hra _ _ _ Hq Hx) as (Hne & q0 & Hq0 & Hx0).
    destruct (si_rq _ _ _ Hi _ _ _ Hq0 Hx0) as (r0 & Hr0 & ? & ? & ?).
    destruct (Hb x r0 Hne Hr0) as (rx & Hrx & E & _). simplify_eq. exists rx. split_and!; congruence.
  - set_solver.
  - intros x rx Hrx Hs Hid _. destruct (decide (x = new)) as [->|Hne]; [congruence|].
    destruct (Hf x rx Hne Hrx) as (r0 & Hr0 & E). simplify_eq.
    destruct (si_ready _ _ _ Hi x r0) as (q & Hq & Hx); [done|congruence|congruence|set_solver|].
    destruct (ra_keep _ _ _ Hra _ _ _ Hq Hx Hne) as (q' & ? & ?). exists q'. split; [congruence|done].
  - intros w q x Hq Hx. destruct (si_wq _ _ _ Hi _ _ _ Hq Hx) as (r0 & Hr0 & ? & ?).
    destruct (Hb x r0) as (rx & Hrx & E & _); [congruence|done|]. simplify_eq. exists rx. split_and!; congruence.
  - apply Hi.
  - intros x rx Hrx Hs. destruct (decide (x = new)) as [->|Hne]; [congruence|].
    destruct (Hf x rx Hne Hrx) as (r0 & Hr0 & E). simplify_eq.
    destruct (si_blocked _ _ _ Hi x r0) as (w & q & ? & ? & ? & ?); [done|congruence|].
    exists w, q. split_and!; congruence.
  - intros x rx Hrx Hs. destruct (decide (x = new)) as [->|Hne]; [exists c; apply lookup_insert_eq|].
    destruct (Hf x rx Hne Hrx) as (r0 & Hr0 & E). simplify_eq.
    destruct (si_running _ _ _ Hi x r0) as (c' & Hc'); [done|congruence|]. exists c'.
    rewrite lookup_insert_ne; [done|]. intros <-. congruence.
  - intros c' x Hcx. destruct (decide (c' = c)) as [->|Hnec].
    + rewrite lookup_insert_eq in Hcx. simplify_eq. exists r'. split_and!; [done|done|]. right. congruence.
    + rewrite lookup_insert_ne in Hcx by done. destruct (si_cur _ _ _ Hi _ _ Hcx) as (r0 & Hr0 & Hcc & [?|?]);
        [congruence|].
      destruct (Hb x r0) as (rx & Hrx & E & Hck); [intros ->; by eapply Hncur|done|]. simplify_eq.
      exists rx. split_and!; [done| |right; congruence]. rewrite Hck; [done|]. intros ->. congruence.
  - intros c' x Hcx. assert (∃ x', current k !! c' = Some x') as [x' Hcx'].
    { destruct (decide (c' = c)) as [->|]; [eauto|]. rewrite lookup_insert_ne in Hcx by done. eauto. }
    destruct (si_idle _ _ _ Hi _ _ Hcx') as (d & rd & Hd & Hrd & Hdid & Hdr).
    destruct (decide (d = new)) as [->|Hne].
    + exists new, r'. split_and!; [done|done|congruence|]. intros _.
      assert (c' = c) as ->; [|apply lookup_insert_eq].
      eapply NoDup_lookup; [apply Hi|done|apply Hnid; congruence].
    + destruct (Hb d rd Hne Hrd) as (rx & Hrx & E & _). simplify_eq. exists d, rx.
      split_and!; [done|done|congruence|]. intros Hs. assert (Hcd : current k !! c' = Some d) by (apply Hdr; congruence).
      rewrite lookup_insert_ne; [done|]. intros <-. congruence.
  - apply Hi.
  - intros x rx Hrx Hid. destruct (decide (x = new)) as [->|Hne]; [right; right; congruence|].
    destruct (Hf x rx Hne Hrx) as (r0 & Hr0 & E). simplify_eq.
    destruct (si_idlest _ _ _ Hi x r0) as [?|[?|?]]; [done|congruence|left; congruence|right; left; congruence|right; right; congruence].
  - intros x rx Hrx. destruct (decide (x = new)) as [->|Hne].
    + pose proof (si_prio _ _ _ Hi _ _ Hnew). congruence.
    + destruct (Hf x rx Hne Hrx) as (r0 & Hr0 & E). simplify_eq. pose proof (si_prio _ _ _ Hi _ _ Hr0). congruence.
  - intros x rx Hrx Hs. destruct (decide (x = new)) as [->|Hne].
    + pose proof (si_magic _ _ _ Hi _ _ Hnew Hnd). congruence.
    + destruct (Hf x rx Hne Hrx) as (r0 & Hr0 & E). simplify_eq.
      assert (is_thread r0 = true) by (apply (si_magic _ _ _ Hi _ _ Hr0); congruence). congruence.
  - intros c' x rx Hcx Hrx Hrt. destruct (decide (c' = c)) as [->|Hnec].
    + rewrite lookup_insert_eq in Hcx. simplify_eq. apply Hpn. congruence.
    + rewrite lookup_insert_ne in Hcx by done. intros Hin. apply Hpo in Hin; [|done]. revert Hin.
      assert (Hne : x ≠ new) by (intros ->; by eapply Hncur).
      destruct (Hf x rx Hne Hrx) as (r0 & Hr0 & E). simplify_eq.
      eapply (si_preempt _ _ _ Hi); [done|done|congruence].
Qed.

(** The parts of a thread that scheduling never writes. *)
Definition ident (r : thread) :=
  (magic r, priority r, flags r, signals r, pinned_cpu r, blocking_wait_queue r, blocked_status r,
   interruptable r, retcode r, retcode_wait_queue r).

(** The frame of a switch of [c] to [new]. *)
Record switched (k : kstate) (c new : nat) (k' : kstate) : Prop := {
  sw_cur : current k' = <[c := new]> (current k);
  sw_wqs : wqs k' = wqs k;
  sw_timers : timers k' = timers k;
  sw_fwd x r : threads k !! x = Some r → ∃ r', threads k' !! x = Some r' ∧ ident r' = ident r ∧
    state r' = if decide (x = new) then THREAD_RUNNING else state r;
  sw_none x : threads k !! x = None → threads k' !! x = None;
  sw_top : ∃ k1, top_spec k c new k1
}.

Lemma switch_threads_lookup k c old new x : old ≠ new →
  threads (switch_threads k c old new) !! x =
    if decide (x = new) then (λ r, set_curr_cpu (Z.of_nat c)
      (set_quantum (if remaining_quantum r <=? 0 then 5 else remaining_quantum r)
        (set_times (now_hires k) (runtime_us r) r))) <$> threads k !! x
    else if decide (x = old) then (λ r, set_curr_cpu (-1)
      (set_times (last_started_running_us r) (u64 (runtime_us r + u64 (now_hires k - last_started_running_us r))) r))
      <$> threads k !! x
    else threads k !! x.
Proof.
  intros Hne. unfold switch_threads. rewrite lookup_upd. case_decide as E.
  - subst. by rewrite lookup_upd_ne by done.
  - by rewrite lookup_upd.
Qed.

Lemma switch_mp_frame k c r : ∃ i rt, switch_mp k c r = with_mp k i rt.
Proof. unfold switch_mp. destruct (thread_is_idle r), (thread_is_realtime r); by do 2 eexists. Qed.

Lemma switch_preempt_timer_ok k c oldr newr :
  (thread_is_real_time_or_idle oldr = true → c ∉ preempt_timer k) →
  ∃ p, switch_preempt_timer k c oldr newr = Some (with_preempt_timer k p) ∧
    (∀ c', c' ≠ c → c' ∈ p → c' ∈ preempt_timer k) ∧
    (thread_is_real_time_or_idle newr = true → c ∉ p).
Proof.
  intros Hold. unfold switch_preempt_timer.
  destruct (thread_is_real_time_or_idle newr), (thread_is_real_time_or_idle oldr) eqn:Eo; simpl.
  - exists (preempt_timer k). split_and!; [by destruct k|done|auto].
  - eexists. split_and!; [done|set_solver|set_solver].
  - unfold preempt_timer_set. rewrite bool_decide_false by auto. simpl.
    eexists. split_and!; [done|set_solver|done].
  - exists (preempt_timer k). split_and!; [by destruct k|done|done].
Qed.

(** The thread that is chosen and its state. *)
Lemma top_thread_state k c old oldr new k1 :
  sinv (Some c) ∅ k → current k !! c = Some old → threads k !! old = Some oldr → state oldr ≠ THREAD_RUNNING →
  top_spec k c new k1 →
  ∃ newr, threads k !! new = Some newr ∧ state newr ≠ THREAD_RUNNING ∧ state newr ≠ THREAD_BLOCKED ∧
    state newr ≠ THREAD_DEATH ∧ (thread_is_idle newr = true → idle_thread k !! c = Some new).
Proof.
  intros Hi Hc Hold Hs [(Hid & -> & _)|(i & q1 & q2 & Hq & _)].
  - destruct (si_idle _ _ _ Hi _ _ Hc) as (d & r & Hd & Hr & Hidl & Hrun). simplify_eq. exists r.
    assert (state r ≠ THREAD_RUNNING) by (intros Hx; specialize (Hrun Hx); congruence).
    destruct (si_idlest _ _ _ Hi _ _ Hr Hidl) as [?|[?|?]]; split_and!; (done || congruence).
  - destruct (si_rq _ _ _ Hi _ _ new Hq ltac:(set_solver)) as (r & Hr & ? & ? & ?).
    exists r. split_and!; congruence.
Qed.

Lemma resched_same k k1 c old oldr :
  sinv (Some c) ∅ k → current k !! c = Some old → threads k !! old = Some oldr → state oldr ≠ THREAD_RUNNING →
  rq_after k k1 old → top_spec k c old k1 →
  kinv (upd k1 old (set_state THREAD_RUNNING)) ∧ switched k c old (upd k1 old (set_state THREAD_RUNNING)).
Proof.
  intros Hi Hc Hr Hs Hra Htop.
  destruct (top_thread_state k c old oldr old k1 Hi Hc Hr Hs Htop) as (r & Hr' & ? & ? & ? & Hid).
  assert (r = oldr) as -> by congruence. clear Hr'.
  assert (Hlk : ∀ x, threads (upd k1 old (set_state THREAD_RUNNING)) !! x =
    if decide (x = old) then set_state THREAD_RUNNING <$> threads k !! x else threads k !! x).
  { intros x. rewrite lookup_upd. by rewrite (ra_threads _ _ _ Hra). }
  assert (Hc' : current (upd k1 old (set_state THREAD_RUNNING)) = <[c := old]> (current k)).
  { simpl. rewrite (ra_current _ _ _ Hra). by rewrite insert_id. }
  destruct (si_cur _ _ _ Hi _ _ Hc) as (r2 & Hr2 & Hcc & _).
  assert (r2 = oldr) as -> by congruence. split.
  - eapply (sinv_switch k k1 _ c old oldr old oldr (set_state THREAD_RUNNING oldr)); try done; try by apply Hra.
    + by rewrite Hlk, decide_True, Hr2.
    + intros x rx Hne. rewrite Hlk, decide_False by done. eauto.
    + intros x r0 Hne Hr0. exists r0. rewrite Hlk, decide_False by done. done.
    + intros c' Hne. simpl. by rewrite (ra_preempt _ _ _ Hra).
    + intros Hrt. simpl. rewrite (ra_preempt _ _ _ Hra). by eapply (si_preempt _ _ _ Hi).
  - split; [done|apply Hra|apply Hra|..|by exists k1].
    + intros x r0 Hr0. rewrite Hlk. case_decide; [|eauto]. subst. rewrite Hr0. by eexists.
    + intros x Hx. rewrite Hlk, Hx. by case_decide.
Qed.

Lemma resched_ok k c old oldr :
  sinv (Some c) ∅ k → current k !! c = Some old → threads k !! old = Some oldr → state oldr ≠ THREAD_RUNNING →
  ∃ new k', thread_resched k c = Some k' ∧ kinv k' ∧ switched k c new k'.
Proof.
  intros Hi Hc Hr Hs. destruct (si_idle _ _ _ Hi _ _ Hc) as (d & rd & Hd & _).
  destruct (get_top_thread_spec _ _ k c d Hi Hd) as (new & k1 & Hg & Htop).
  pose proof (top_rq_after _ _ _ _ _ _ _ Hi Hc Htop) as Hra. pose proof (ra_threads _ _ _ Hra) as Eth.
  destruct (top_thread_state k c old oldr new k1 Hi Hc Hr Hs Htop) as (newr & Hnew & ? & ? & ? & Hid).
  unfold thread_resched. rewrite Hc. cbn [mbind option_bind]. rewrite Hr. cbn [mbind option_bind].
  unfold has_state. rewrite bool_decide_false by done. cbn [negb]. rewrite Hg. cbn [mbind option_bind].
  rewrite Eth, Hnew. cbn [mbind option_bind]. exists new. case_bool_decide as Eno.
  { subst old. simplify_eq. eexists. split; [done|]. by eapply resched_same. }
  set (k2 := upd k1 new (set_state THREAD_RUNNING)).
  set (ks := switch_threads k2 c old new).
  destruct (switch_mp_frame ks c newr) as (im & rm & ->).
  destruct (switch_preempt_timer_ok (with_mp ks im rm) c oldr newr) as (p & -> & Hpo & Hpn).
  { intros Hrt. change (preempt_timer (with_mp ks im rm)) with (preempt_timer k1).
    rewrite (ra_preempt _ _ _ Hra). by eapply (si_preempt _ _ _ Hi). }
  cbn [mbind option_bind]. eexists. split; [done|].
  change (preempt_timer (with_mp ks im rm)) with (preempt_timer k1) in Hpo. rewrite (ra_preempt _ _ _ Hra) in Hpo.
  set (k' := with_current _ _).
  assert (Hlk : ∀ x, threads k' !! x = threads ks !! x) by done.
  assert (H2 : ∀ x, threads k2 !! x = if decide (x = new) then set_state THREAD_RUNNING <$> threads k !! x else threads k !! x).
  { intros x. unfold k2. rewrite lookup_upd. by rewrite Eth. }
  assert (Hcur' : current k' = <[c := new]> (current k)).
  { unfold k'. simpl. by rewrite (ra_current _ _ _ Hra). }
  split.
  - assert (Hr' : threads k' !! new = Some (set_curr_cpu (Z.of_nat c)
      (set_quantum (if remaining_quantum newr <=? 0 then 5 else remaining_quantum newr)
        (set_times (now_hires k2) (runtime_us newr) (set_state THREAD_RUNNING newr))))).
    { rewrite Hlk. unfold ks. by rewrite switch_threads_lookup, decide_True, H2, decide_True, Hnew. }
    eapply (sinv_switch k k1 k' c old oldr new newr _); try exact Hr'; try done; try by apply Hra.
    + intros x rx Hne. rewrite Hlk. unfold ks. rewrite switch_threads_lookup, H2, !(decide_False (P := x = new)) by done.
      case_decide; [|eauto]. intros (r0 & Hr0 & ->)%fmap_Some. by eexists.
    + intros x r0 Hne Hr0. rewrite Hlk. unfold ks.
      rewrite switch_threads_lookup, H2, !(decide_False (P := x = new)), Hr0 by done.
      case_decide; [|eauto]. subst. by eexists.
  - split; [done|apply Hra|apply Hra|..|by exists k1].
    + intros x r0 Hr0. rewrite Hlk. unfold ks. rewrite switch_threads_lookup, H2, Hr0 by done.
      destruct (decide (x = new)); [subst; by eexists|]. case_decide; [subst; by eexists|by eexists].
    + intros x Hx. rewrite Hlk. unfold ks. rewrite switch_threads_lookup, H2, Hx by done. by repeat case_decide.
Qed.

(** ** The operations keep the invariant *)

Lemma kinv_current k c t : kinv k → current k !! c = Some t →
  ∃ r, threads k !! t = Some r ∧ state r = THREAD_RUNNING ∧ is_thread r = true.
Proof.
  intros Hi Hc. destruct (si_cur _ _ _ Hi _ _ Hc) as (r & Hr & _ & [?|Hs]); [done|].
  exists r. split_and!; [done|done|]. apply (si_magic _ _ _ Hi _ _ Hr). congruence.
Qed.

(** The current thread goes back to a run queue. *)
Lemma leave_insert hd fl k c t r f :
  sinv None fl k → current k !! c = Some t → threads k !! t = Some r → state r = THREAD_RUNNING →
  thread_is_idle r = false → t ∉ fl →
  state (f r) = THREAD_READY → 0 ≤ priority (f r) < 32 → flags (f r) = flags r →
  curr_cpu (f r) = curr_cpu r → magic (f r) = magic r →
  ∃ rq bm, insert_in_run_queue hd (upd k t f) t = Some (with_run_queue (upd k t f) rq bm) ∧
    sinv (Some c) fl (with_run_queue (upd k t f) rq bm).
Proof.
  intros Hi Hc Hr Hs Hid Hfl Hs' Hp Hfg Hcpu Hm.
  assert (Hid' : thread_is_idle (f r) = thread_is_idle r) by (unfold thread_is_idle; congruence).
  assert (Hsf : sinv (Some c) (fl ∪ {[t]}) (upd k t f)).
  { apply (sinv_leave fl k c t r f); auto; try congruence.
    - unfold thread_is_real_time_or_idle. congruence.
    - intros _. unfold is_thread. rewrite Hm. apply (si_magic _ _ _ Hi _ _ Hr). congruence. }
  destruct (insert_ok hd _ _ _ t (f r) Hsf) as (rq & bm & ? & Hsi);
    [set_solver|by apply lookup_upd_eq|done|congruence|].
  exists rq, bm. split; [done|]. replace fl with ((fl ∪ {[t]}) ∖ {[t]}); [done|set_solver].
Qed.

Lemma resched_kinv k c old oldr :
  sinv (Some c) ∅ k → current k !! c = Some old → threads k !! old = Some oldr → state oldr ≠ THREAD_RUNNING →
  ∃ k', thread_resched k c = Some k' ∧ kinv k'.
Proof. intros. destruct (resched_ok k c old oldr) as (? & k' & ? & ? & _); eauto. Qed.

(** The idle thread leaves the processor without entering a queue. *)
Lemma leave_idle k c t r f :
  kinv k → current k !! c = Some t → threads k !! t = Some r → state r = THREAD_RUNNING →
  thread_is_idle r = true → state (f r) = THREAD_READY → priority (f r) = priority r → flags (f r) = flags r →
  curr_cpu (f r) = curr_cpu r → magic (f r) = magic r → sinv (Some c) ∅ (upd k t f).
Proof.
  intros Hi Hc Hr Hs Hid Hs' Hp Hfg Hcpu Hm.
  assert (Hid' : thread_is_idle (f r) = thread_is_idle r) by (unfold thread_is_idle; congruence).
  apply (sinv_unfloat (Some c) ∅ _ t).
  - apply (sinv_leave ∅ k c t r f); auto; try congruence.
    + rewrite Hp. by eapply (si_prio _ _ _ Hi).
    + unfold thread_is_real_time_or_idle. congruence.
    + intros _. unfold is_thread. rewrite Hm. apply (si_magic _ _ _ Hi _ _ Hr). congruence.
  - intros r' Hr'. rewrite (lookup_upd_eq _ _ _ _ Hr) in Hr'. simplify_eq. congruence.
Qed.

Lemma requeue_resched hd k c t r f :
  kinv k → current k !! c = Some t → threads k !! t = Some r → state r = THREAD_RUNNING →
  state (f r) = THREAD_READY → 0 ≤ priority (f r) < 32 → (thread_is_idle r = true → priority (f r) = priority r) →
  flags (f r) = flags r → curr_cpu (f r) = curr_cpu r → magic (f r) = magic r →
  ∃ k', (k2 ← (if thread_is_idle r then Some (upd k t f) else insert_in_run_queue hd (upd k t f) t);
         thread_resched k2 c) = Some k' ∧ kinv k'.
Proof.
  intros Hi Hc Hr Hs Hs' Hp Hpi Hfg Hcpu Hm. destruct (thread_is_idle r) eqn:Hid.
  - cbn [mbind option_bind]. eapply (resched_kinv _ c t (f r)).
    + by eapply leave_idle; eauto.
    + done.
    + by apply lookup_upd_eq.
    + congruence.
  - destruct (leave_insert hd ∅ k c t r f) as (rq & bm & -> & Hsi); [set_solver..|].
    cbn [mbind option_bind]. eapply (resched_kinv _ c t (f r)); [done|done|by apply lookup_upd_eq|congruence].
Qed.

Lemma thread_yield_ok k c t : kinv k → current k !! c = Some t → ∃ k', thread_yield k c = Some k' ∧ kinv k'.
Proof.
  intros Hi Hc. destruct (kinv_current k c t Hi Hc) as (r & Hr & Hs & Hm).
  unfold thread_yield. rewrite Hc. cbn [mbind option_bind]. rewrite Hr. cbn [mbind option_bind].
  rewrite Hm. unfold has_state. rewrite bool_decide_true by done. cbn [andb].
  apply (requeue_resched false k c t r); try done. exact (si_prio _ _ _ Hi _ _ Hr).
Qed.

Lemma thread_preempt_ok k c t : kinv k → current k !! c = Some t → ∃ k', thread_preempt k c = Some k' ∧ kinv k'.
Proof.
  intros Hi Hc. destruct (kinv_current k c t Hi Hc) as (r & Hr & Hs & Hm).
  unfold thread_preempt. rewrite Hc. cbn [mbind option_bind]. rewrite Hr. cbn [mbind option_bind].
  rewrite Hm. unfold has_state. rewrite bool_decide_true by done. cbn [andb].
  pose proof (si_prio _ _ _ Hi _ _ Hr).
  destruct (remaining_quantum r >? 0);
    [by apply (requeue_resched true k c t r)|by apply (requeue_resched false k c t r)].
Qed.

Lemma thread_set_priority_ok k c t r p :
  kinv k → current k !! c = Some t → threads k !! t = Some r → thread_is_idle r = false →
  ∃ k', thread_set_priority k c p = Some k' ∧ kinv k'.
Proof.
  intros Hi Hc Hr Hid. destruct (kinv_current k c t Hi Hc) as (r' & Hr' & Hs & Hm).
  assert (r' = r) as -> by congruence. unfold thread_set_priority. rewrite Hc. cbn [mbind option_bind].
  set (p1 := if p <=? IDLE_PRIORITY then _ else _). set (p2 := if p1 >? HIGHEST_PRIORITY then _ else _).
  assert (Hp : 0 ≤ p2 < 32).
  { unfold p2, p1, HIGHEST_PRIORITY, NUM_PRIORITIES, IDLE_PRIORITY, LOWEST_PRIORITY. rewrite !Z.gtb_ltb.
    case_ifs; zb; lia. }
  set (f := λ r, set_state THREAD_READY (set_priority p2 r)).
  destruct (requeue_resched true k c t r f) as (k' & Hk' & ?); try done; [congruence|].
  rewrite Hid in Hk'. eauto.
Qed.

(** Blocking on a wait queue. *)
Lemma wait_queue_block_ok k c t r w q timeout :
  kinv k → current k !! c = Some t → threads k !! t = Some r → thread_is_idle r = false →
  wqs k !! w = Some q → wq_magic q = WAIT_QUEUE_MAGIC →
  (timeout = 0 ∧ wait_queue_block k c w timeout = Some (Ret ERR_TIMED_OUT k)) ∨
  (timeout ≠ 0 ∧ ∃ k1 new k', wait_queue_block k c w timeout = Some (Blocked k') ∧ kinv k' ∧ switched k1 c new k' ∧
     (∀ x, x ≠ t → threads k1 !! x = threads k !! x) ∧
     threads k1 !! t = Some (set_blocked_status NO_ERROR (set_blocking (Some w) (set_state THREAD_BLOCKED r))) ∧
     wqs k1 = <[w := mk_wq (wq_magic q) (wq_list q ++ [t]) (wq_count q + 1)]> (wqs k) ∧ current k1 = current k ∧
     timers k1 = if timeout =? INFINITE_TIME then timers k else <[t := wait_queue_timeout_cb]> (timers k)).
Proof.
  intros Hi Hc Hr Hid Hq Hmq. destruct (kinv_current k c t Hi Hc) as (r' & Hr' & Hs & Hm).
  assert (r' = r) as -> by congruence. unfold wait_queue_block. rewrite Hc. cbn [mbind option_bind].
  rewrite Hr. cbn [mbind option_bind]. rewrite Hq. cbn [mbind option_bind]. rewrite Hmq, Z.eqb_refl.
  unfold has_state. rewrite bool_decide_true by done. cbn [andb].
  destruct (timeout =? 0) eqn:E; zb; [by left|right]. split; [done|].
  set (f := λ r, set_blocked_status NO_ERROR (set_blocking (Some w) (set_state THREAD_BLOCKED r))).
  set (k2 := upd _ t f). set (k3 := if negb (timeout =? INFINITE_TIME) then _ else _).
  assert (H2 : sinv (Some c) ∅ k2) by (by eapply (sinv_block k c t r w q f)).
  assert (H3 : sinv (Some c) ∅ k3) by (unfold k3; destruct (timeout =? INFINITE_TIME); [done|by destruct H2]).
  assert (Et3 : threads k3 = threads k2) by (unfold k3; by destruct (timeout =? INFINITE_TIME)).
  destruct (resched_ok k3 c t (f r) H3) as (new & k' & -> & Hk' & Hsw).
  { unfold k3; by destruct (timeout =? INFINITE_TIME). }
  { rewrite Et3. by apply lookup_upd_eq. }
  { done. }
  exists k3, new, k'. split_and!; [done|done|done| | | | |].
  - intros x Hx. rewrite Et3. exact (lookup_upd_ne (set_wq k w (wq_list q ++ [t]) (wq_count q + 1)) t f x Hx).
  - rewrite Et3. exact (lookup_upd_eq (set_wq k w (wq_list q ++ [t]) (wq_count q + 1)) t f r Hr).
  - assert (wqs k3 = wqs k2) as -> by (unfold k3; by destruct (timeout =? INFINITE_TIME)). simpl.
    apply map_eq. intros w'. destruct (decide (w' = w)) as [->|Hne].
    + rewrite lookup_alter_eq, Hq, lookup_insert_eq, <- Hmq. done.
    + by rewrite lookup_alter_ne, lookup_insert_ne.
  - unfold k3; by destruct (timeout =? INFINITE_TIME).
  - unfold k3; by destruct (timeout =? INFINITE_TIME).
Qed.

(** ** What the users of wait queues see *)

Definition waiters (k : kstate) (w : nat) : list nat :=
  match wqs k !! w with Some q => wq_list q | None => [] end.
Definition status (k : kstate) (t : nat) : Z :=
  match threads k !! t with Some r => blocked_status r | None => 0 end.

Definition same_waits (k k' : kstate) : Prop := wqs k' = wqs k ∧ ∀ x, status k' x = status k x.

#[global] Instance same_waits_refl : Reflexive same_waits.
Proof. by split. Qed.
#[global] Instance same_waits_trans : Transitive same_waits.
Proof. intros k1 k2 k3 [E1 H1] [E2 H2]. split; [congruence|]. intros x. by rewrite H2. Qed.

Lemma switched_waits k c new k' : switched k c new k' → same_waits k k'.
Proof.
  intros Hsw. split; [apply Hsw|]. intros x. unfold status. destruct (threads k !! x) as [r|] eqn:Hr.
  - destruct (sw_fwd _ _ _ _ Hsw _ _ Hr) as (r' & -> & E & _). unfold ident in E. by simplify_eq.
  - by rewrite (sw_none _ _ _ _ Hsw _ Hr).
Qed.

Lemma upd_waits k t f : (∀ r, blocked_status (f r) = blocked_status r) → same_waits k (upd k t f).
Proof.
  intros Hf. split; [done|]. intros x. unfold status. rewrite lookup_upd. case_decide; [|done].
  destruct (threads k !! x); simpl; auto.
Qed.

Lemma resched_waits k c old oldr :
  sinv (Some c) ∅ k → current k !! c = Some old → threads k !! old = Some oldr → state oldr ≠ THREAD_RUNNING →
  ∃ k', thread_resched k c = Some k' ∧ kinv k' ∧ same_waits k k'.
Proof. intros. destruct (resched_ok k c old oldr) as (? & k' & ? & ? & ?%switched_waits); eauto. Qed.

(** Waking changes one queue and one status. *)
Lemma wake_wqs k w q l t err : wqs k !! w = Some q →
  wqs (wake (set_wq k w l (wq_count q - 1)) t err) = <[w := mk_wq (wq_magic q) l (wq_count q - 1)]> (wqs k).
Proof.
  intros Hq. simpl. apply map_eq. intros w'. destruct (decide (w' = w)) as [->|Hne].
  - by rewrite lookup_alter_eq, Hq, lookup_insert_eq.
  - by rewrite lookup_alter_ne, lookup_insert_ne.
Qed.

Lemma wake_status k w q l t err x r : threads k !! t = Some r →
  status (wake (set_wq k w l (wq_count q - 1)) t err) x = if decide (x = t) then err else status k x.
Proof.
  intros Hr. unfold status, wake. rewrite lookup_upd. simpl. case_decide as E; [subst; by rewrite Hr|done].
Qed.

(** The current thread can be put back and the processor switched. *)
Definition can_resched (k : kstate) (c : nat) : Prop :=
  ∃ t r, current k !! c = Some t ∧ threads k !! t = Some r ∧ thread_is_idle r = false.

(** One waiter, taken from anywhere in its queue, is made ready. *)
Lemma wake_insert ex fl k w q l1 t l2 err :
  sinv ex fl k → wqs k !! w = Some q → wq_list q = l1 ++ t :: l2 → t ∉ fl →
  ∃ r rq bm, let k1 := wake (set_wq k w (l1 ++ l2) (wq_count q - 1)) t err in
    threads k !! t = Some r ∧ state r = THREAD_BLOCKED ∧ 
    insert_in_run_queue_head k1 t = Some (with_run_queue k1 rq bm) ∧ sinv ex fl (with_run_queue k1 rq bm).
Proof.
  intros Hi Hq Hl Hfl.
  destruct (sinv_wake ex fl k w q l1 t l2 err Hi Hq Hl) as [Hs (r & Hr & Hb & Hid & Hr')].
  destruct (insert_ok true _ _ _ t _ Hs ltac:(set_solver) Hr') as (rq & bm & Hins & Hsi); [done|done|].
  exists r, rq, bm. split_and!; [done|done|done|].
  replace fl with ((fl ∪ {[t]}) ∖ {[t]}); [done|set_solver].
Qed.

(** The queue and statuses after [t], with the rest [l] behind it, is woken. *)
Definition woken (k : kstate) (w t : nat) (l : list nat) (err : Z) (k' : kstate) : Prop :=
  (∃ q, wqs k !! w = Some q ∧ wqs k' = <[w := mk_wq (wq_magic q) l (wq_count q - 1)]> (wqs k)) ∧
  (∀ x, status k' x = if decide (x = t) then err else status k x).

Lemma woken_waits k w t l err k' k'' : woken k w t l err k' → same_waits k' k'' → woken k w t l err k''.
Proof. intros [(q & Hq & E) Hst] [E' Hst']. split; [exists q; split; [done|congruence]|]. intros x. by rewrite Hst'. Qed.

Lemma wake_one_plain k w q t l err c :
  kinv k → wqs k !! w = Some q → wq_magic q = WAIT_QUEUE_MAGIC → wq_list q = t :: l →
  ∃ k', wait_queue_wake_one k c w false err = Some (1, k') ∧ kinv k' ∧ woken k w t l err k'.
Proof.
  intros Hi Hq Hm Hl. destruct (wake_insert None ∅ k w q [] t l err Hi Hq Hl) as (r & rq & bm & Hr & Hb & Hins & Hs);
    [set_solver|].
  unfold wait_queue_wake_one. rewrite Hq. cbn [mbind option_bind]. rewrite Hm, Z.eqb_refl, Hl.
  change (threads (set_wq k w l (wq_count q - 1)) !! t) with (threads k !! t). rewrite Hr. cbn [mbind option_bind].
  unfold has_state. rewrite bool_decide_true by done. simpl in Hins. rewrite Hins. cbn [mbind option_bind].
  eexists. split_and!; [done|exact Hs|]. split.
  - exists q. split; [done|]. by apply wake_wqs.
  - intros x. by eapply wake_status.
Qed.

(** A second thread may be floating while the current one is put back. *)
Lemma requeue_current_ok fl k c t r :
  sinv None fl k → current k !! c = Some t → threads k !! t = Some r → state r = THREAD_RUNNING →
  thread_is_idle r = false → t ∉ fl →
  ∃ rq bm, requeue_current k c = Some (with_run_queue (upd k t (set_state THREAD_READY)) rq bm) ∧
    sinv (Some c) fl (with_run_queue (upd k t (set_state THREAD_READY)) rq bm).
Proof.
  intros Hi Hc Hr Hs Hid Hfl. unfold requeue_current. rewrite Hc. cbn [mbind option_bind].
  apply (leave_insert true fl k c t r); try done. exact (si_prio _ _ _ Hi _ _ Hr).
Qed.

Lemma wake_one_resched k w q t l err c :
  kinv k → wqs k !! w = Some q → wq_magic q = WAIT_QUEUE_MAGIC → wq_list q = t :: l → can_resched k c →
  ∃ k', wait_queue_wake_one k c w true err = Some (1, k') ∧ kinv k' ∧ woken k w t l err k'.
Proof.
  intros Hi Hq Hm Hl (u & ru & Hc & Hru & Hidu).
  destruct (kinv_current k c u Hi Hc) as (ru' & Hru' & Hsu & _). assert (ru' = ru) as -> by congruence.
  destruct (sinv_wake None ∅ k w q [] t l err Hi Hq Hl) as [Hs (r & Hr & Hb & Hid & Hr')].
  assert (Hne : u ≠ t) by congruence.
  set (k1 := wake (set_wq k w ([] ++ l) (wq_count q - 1)) t err) in *.
  assert (Hu1 : threads k1 !! u = Some ru).
  { unfold k1, wake. rewrite lookup_upd_ne by done. done. }
  destruct (requeue_current_ok (∅ ∪ {[t]}) k1 c u ru Hs) as (rq & bm & Hreq & Hs2); [done..|set_solver|].
  set (k2 := with_run_queue _ rq bm) in *.
  assert (Ht2 : threads k2 !! t = threads k1 !! t) by (apply (lookup_upd_ne k1); done).
  destruct (insert_ok true _ _ k2 t _ Hs2 ltac:(set_solver) ltac:(rewrite Ht2; exact Hr')) as (rq3 & bm3 & Hins & Hs3); [done|done|].
  assert (Hu3 : threads (with_run_queue k2 rq3 bm3) !! u = Some (set_state THREAD_READY ru)).
  { exact (lookup_upd_eq k1 u (set_state THREAD_READY) ru Hu1). }
  replace ((∅ ∪ {[t]}) ∖ {[t]}) with (∅ : gset nat) in Hs3 by set_solver.
  destruct (resched_waits (with_run_queue k2 rq3 bm3) c u _ Hs3 Hc Hu3) as (k' & Hres & Hk' & Hw); [done|].
  exists k'. split_and!; [|done|].
  - unfold wait_queue_wake_one. rewrite Hq. cbn [mbind option_bind]. rewrite Hm, Z.eqb_refl, Hl.
    change (threads (set_wq k w l (wq_count q - 1)) !! t) with (threads k !! t). rewrite Hr. cbn [mbind option_bind].
    unfold has_state. rewrite bool_decide_true by done. simpl in k1. fold k1. rewrite Hreq. cbn [mbind option_bind].
    unfold insert_in_run_queue_head. rewrite Hins. cbn [mbind option_bind]. by rewrite Hres.
  - eapply woken_waits; [|exact Hw]. eapply woken_waits; [|by apply (upd_waits k1 u (set_state THREAD_READY))]. split.
    + exists q. split; [done|]. by apply wake_wqs.
    + intros x. by eapply wake_status.
Qed.

Lemma wake_one_empty k w q resched err c :
  wqs k !! w = Some q → wq_magic q = WAIT_QUEUE_MAGIC → wq_list q = [] →
  wait_queue_wake_one k c w resched err = Some (0, k).
Proof.
  intros Hq Hm Hl. unfold wait_queue_wake_one. rewrite Hq. cbn [mbind option_bind]. by rewrite Hm, Z.eqb_refl, Hl.
Qed.

Lemma wake_one_ok k w q resched err c :
  kinv k → wqs k !! w = Some q → wq_magic q = WAIT_QUEUE_MAGIC → (resched = true → can_resched k c) →
  match wq_list q with
  | [] => wait_queue_wake_one k c w resched err = Some (0, k)
  | t :: l => ∃ k', wait_queue_wake_one k c w resched err = Some (1, k') ∧ kinv k' ∧ woken k w t l err k'
  end.
Proof.
  intros Hi Hq Hm Hre. destruct (wq_list q) as [|t l] eqn:Hl; [by eapply wake_one_empty|].
  destruct resched; [apply wake_one_resched with (q := q)|apply wake_one_plain with (q := q)]; auto.
Qed.

Lemma wake_loop_ok ex l : ∀ k w q err,
  sinv ex ∅ k → wqs k !! w = Some q → wq_list q = l →
  ∃ k', wake_loop k w l err = Some k' ∧ sinv ex ∅ k' ∧
    wqs k' = <[w := mk_wq (wq_magic q) [] 0]> (wqs k) ∧
    (∀ x, status k' x = if decide (x ∈ l) then err else status k x) ∧
    (∀ x, x ∉ l → threads k' !! x = threads k !! x) ∧ current k' = current k.
Proof.
  induction l as [|t l IH]; intros k w q err Hi Hq Hl; simpl.
  { exists k. destruct (si_wqnd _ _ _ Hi _ _ Hq) as [_ Hct]. rewrite Hl in Hct. split_and!; try done.
    rewrite insert_id; [done|]. rewrite Hq. destruct q as [mg ql ct]; simpl in *. by subst. }
  destruct (wake_insert ex ∅ k w q [] t l err Hi Hq Hl) as (r & rq & bm & Hr & Hb & Hins & Hs); [set_solver|].
  rewrite Hq. cbn [mbind option_bind].
  change (alter _ _ _) with (wqs (set_wq k w l (wq_count q - 1))).
  change (threads (set_wq k w l (wq_count q - 1)) !! t) with (threads k !! t). rewrite Hr. cbn [mbind option_bind].
  unfold has_state. rewrite bool_decide_true by done. simpl in Hins. rewrite Hins. cbn [mbind option_bind].
  simpl in Hs. set (k1 := wake (set_wq k w l (wq_count q - 1)) t err) in *.
  destruct (IH (with_run_queue k1 rq bm) w (mk_wq (wq_magic q) l (wq_count q - 1)) err Hs) as (k' & -> & Hs' & Ew & Est & Eth & Ec);
    [|done|].
  { change (wqs (with_run_queue k1 rq bm)) with (wqs k1). unfold k1. rewrite wake_wqs by done. apply lookup_insert_eq. }
  exists k'. split_and!; [done|done| | | |done].
  - rewrite Ew. change (wqs (with_run_queue k1 rq bm)) with (wqs k1). unfold k1. rewrite wake_wqs by done.
    by rewrite insert_insert_eq.
  - intros x. rewrite Est. change (status (with_run_queue k1 rq bm) x) with (status k1 x). unfold k1.
    rewrite (wake_status k w q l t err x r Hr). repeat case_decide; (done || set_solver).
  - intros x Hx. rewrite Eth by set_solver. change (threads (with_run_queue k1 rq bm)) with (threads k1).
    unfold k1, wake. rewrite lookup_upd_ne by set_solver. done.
Qed.

(** The queue and statuses after everyone on [w] is woken. *)
Definition all_woken (k : kstate) (w : nat) (q : wait_queue) (err : Z) (k' : kstate) : Prop :=
  wqs k' = <[w := mk_wq (wq_magic q) [] 0]> (wqs k) ∧
  (∀ x, status k' x = if decide (x ∈ wq_list q) then err else status k x).

Lemma wake_all_plain ex k w q err c :
  sinv ex ∅ k → wqs k !! w = Some q → wq_magic q = WAIT_QUEUE_MAGIC →
  ∃ k', wait_queue_wake_all k c w false err = Some (Z.of_nat (length (wq_list q)), k') ∧ sinv ex ∅ k' ∧
    all_woken k w q err k' ∧ (∀ x, x ∉ wq_list q → threads k' !! x = threads k !! x) ∧ current k' = current k.
Proof.
  intros Hi Hq Hm. destruct (wake_loop_ok ex (wq_list q) k w q err Hi Hq eq_refl) as (k' & Hl & Hs & Ew & Est & Eth & Ec).
  unfold wait_queue_wake_all. rewrite Hq. cbn [mbind option_bind andb]. rewrite Hm, Z.eqb_refl, Hl.
  cbn [mbind option_bind]. rewrite Ew, lookup_insert_eq. cbn [mbind option_bind wq_count].
  rewrite Z.eqb_refl, andb_false_r. cbn [mbind option_bind]. exists k'. by split_and!.
Qed.

Lemma wake_all_resched k w q err c :
  kinv k → wqs k !! w = Some q → wq_magic q = WAIT_QUEUE_MAGIC → wq_list q ≠ [] → can_resched k c →
  ∃ k', wait_queue_wake_all k c w true err = Some (Z.of_nat (length (wq_list q)), k') ∧ kinv k' ∧ all_woken k w q err k'.
Proof.
  intros Hi Hq Hm Hne (u & ru & Hc & Hru & Hidu).
  destruct (kinv_current k c u Hi Hc) as (ru' & Hru' & Hsu & _). assert (ru' = ru) as -> by congruence.
  destruct (si_wqnd _ _ _ Hi _ _ Hq) as [_ Hct].
  assert (Hpos : 0 < Z.of_nat (length (wq_list q))) by (destruct (wq_list q); simpl in *; [done|lia]).
  destruct (requeue_current_ok ∅ k c u ru Hi Hc Hru Hsu Hidu ltac:(set_solver)) as (rq & bm & Hreq & Hs1).
  set (k1 := with_run_queue _ rq bm) in *.
  assert (Hq1 : wqs k1 !! w = Some q) by done.
  destruct (wake_loop_ok (Some c) (wq_list q) k1 w q err Hs1 Hq1 eq_refl) as (k2 & Hl & Hs2 & Ew & Est & Eth & Ec).
  assert (Hu2 : threads k2 !! u = Some (set_state THREAD_READY ru)).
  { rewrite Eth; [exact (lookup_upd_eq k u (set_state THREAD_READY) ru Hru)|].
    eapply not_in_wq; [exact Hi|done|congruence|done]. }
  destruct (resched_waits k2 c u (set_state THREAD_READY ru) Hs2 ltac:(by rewrite Ec) Hu2) as (k' & Hres & Hk' & [Ew' Est']); [done|].
  exists k'. split_and!; [|done|].
  - unfold wait_queue_wake_all. rewrite Hq. cbn [mbind option_bind andb]. rewrite Hm, Z.eqb_refl, Hct.
    rewrite Z.gtb_ltb. assert ((0 <? Z.of_nat (length (wq_list q))) = true) as -> by (apply Z.ltb_lt; lia).
    rewrite Hreq. cbn [mbind option_bind]. rewrite Hl. cbn [mbind option_bind].
    rewrite Ew, lookup_insert_eq. cbn [mbind option_bind wq_count andb]. rewrite Z.eqb_refl, Hres. done.
  - split; [by rewrite Ew', Ew|]. intros x. rewrite Est', Est. case_decide; [done|].
    by destruct (upd_waits k u (set_state THREAD_READY)) as [_ <-].
Qed.

Lemma wake_all_ok k w q resched err c :
  kinv k → wqs k !! w = Some q → wq_magic q = WAIT_QUEUE_MAGIC → (resched = true → can_resched k c) →
  ∃ k', wait_queue_wake_all k c w resched err = Some (Z.of_nat (length (wq_list q)), k') ∧ kinv k' ∧ all_woken k w q err k'.
Proof.
  intros Hi Hq Hm Hre. destruct resched; [destruct (decide (wq_list q = [])) as [E|E]|].
  - destruct (wake_all_plain None k w q err c Hi Hq Hm) as (k' & H & ? & ? & _). exists k'. split_and!; [|done|done].
    rewrite <- H. unfold wait_queue_wake_all. rewrite Hq. cbn [mbind option_bind]. rewrite E. simpl.
    destruct (si_wqnd _ _ _ Hi _ _ Hq) as [_ Hct]. rewrite E in Hct. by rewrite Hct.
  - apply wake_all_resched; auto.
  - destruct (wake_all_plain None k w q err c Hi Hq Hm) as (k' & H & ? & ? & _). eauto.
Qed.

Lemma filter_mid (t : nat) l1 l2 : t ∉ l1 → t ∉ l2 → filter (λ x, x ≠ t) (l1 ++ t :: l2) = l1 ++ l2.
Proof.
  intros H1 H2. assert (Hall : ∀ l : list nat, t ∉ l → filter (λ x, x ≠ t) l = l).
  { induction l as [|y l IH]; intros Hy; [done|]. rewrite filter_cons_True by set_solver. rewrite IH; [done|set_solver]. }
  rewrite filter_app, filter_cons_False, !Hall by (done || naive_solver). done.
Qed.

(** Waking one given thread, wherever it waits. *)
Lemma unblock_ok ex k t r err :
  sinv ex ∅ k → threads k !! t = Some r → is_thread r = true →
  (state r ≠ THREAD_BLOCKED ∧ thread_unblock_from_wait_queue k t err = Some (ERR_NOT_BLOCKED, k)) ∨
  (state r = THREAD_BLOCKED ∧ ∃ w l1 l2 k', waiters k w = l1 ++ t :: l2 ∧
     thread_unblock_from_wait_queue k t err = Some (NO_ERROR, k') ∧ sinv ex ∅ k' ∧ woken k w t (l1 ++ l2) err k' ∧
     (∀ x, x ≠ t → threads k' !! x = threads k !! x) ∧ current k' = current k).
Proof.
  intros Hi Hr Hm. unfold thread_unblock_from_wait_queue. rewrite Hr. cbn [mbind option_bind]. rewrite Hm.
  unfold has_state. case_bool_decide as Hs; [right|by left]. split; [done|]. cbn [negb].
  destruct (si_blocked _ _ _ Hi _ _ Hr Hs) as (w & q & Hbw & Hq & Ht & Hmq).
  apply list_elem_of_split in Ht as (l1 & l2 & Hl).
  destruct (si_wqnd _ _ _ Hi _ _ Hq) as [Hnd _]. rewrite Hl in Hnd.
  apply NoDup_app in Hnd as (_ & Hd & Hnd2). apply NoDup_cons in Hnd2 as [Hn2 _].
  destruct (wake_insert ex ∅ k w q l1 t l2 err Hi Hq Hl) as (r' & rq & bm & Hr' & _ & Hins & Hsi); [set_solver|].
  exists w, l1, l2. eexists. split_and!.
  - unfold waiters. by rewrite Hq.
  - rewrite Hbw. cbn [mbind option_bind]. rewrite Hq. cbn [mbind option_bind].
    rewrite Hmq, Z.eqb_refl, bool_decide_true by (rewrite Hl; set_solver). cbn [andb].
    rewrite Hl, filter_mid by set_solver. rewrite Hins. done.
  - exact Hsi.
  - split; [exists q; split; [done|by apply wake_wqs]|]. intros x. by eapply wake_status.
  - intros x Hx. exact (lookup_upd_ne (set_wq k w (l1 ++ l2) (wq_count q - 1)) t _ x Hx).
  - done.
Qed.

(** ** Threads becoming ready, sleeping, starting and ending *)

Lemma flag_ldiff f m b : Z.land m b = 0 → flag (Z.ldiff f m) b = flag f b.
Proof.
  intros H. unfold flag. do 2 f_equal. apply Z.bits_inj'. intros n Hn.
  rewrite !Z.land_spec, Z.ldiff_spec. assert (Hb : Z.testbit (Z.land m b) n = false) by (by rewrite H, Z.bits_0).
  rewrite Z.land_spec in Hb. by destruct (Z.testbit f n), (Z.testbit m n), (Z.testbit b n).
Qed.

Lemma flag_lor f m b : Z.land m b = 0 → flag (Z.lor f m) b = flag f b.
Proof.
  intros H. unfold flag. do 2 f_equal. apply Z.bits_inj'. intros n Hn.
  rewrite !Z.land_spec, Z.lor_spec. assert (Hb : Z.testbit (Z.land m b) n = false) by (by rewrite H, Z.bits_0).
  rewrite Z.land_spec in Hb. by destruct (Z.testbit f n), (Z.testbit m n), (Z.testbit b n).
Qed.

(** A suspended or sleeping thread becomes ready. *)
Lemma sinv_make_ready k t r f :
  kinv k → threads k !! t = Some r → state r = THREAD_SUSPENDED ∨ state r = THREAD_SLEEPING →
  state (f r) = THREAD_READY → priority (f r) = priority r → flags (f r) = flags r →
  magic (f r) = magic r → sinv None {[t]} (upd k t f).
Proof.
  intros Hi Hr Hs Hs' Hp Hfg Hm.
  assert (Hn : state r ≠ THREAD_READY ∧ state r ≠ THREAD_RUNNING ∧ state r ≠ THREAD_BLOCKED ∧ state r ≠ THREAD_DEATH).
  { destruct Hs; split_and!; congruence. }
  destruct Hn as (Hn1 & Hn2 & Hn3 & Hn4).
  assert (Hid : thread_is_idle (f r) = thread_is_idle r) by (unfold thread_is_idle; congruence).
  split; try by apply Hi.
  - intros i q x Hq Hx. destruct (si_rq _ _ _ Hi _ _ _ Hq Hx) as (r' & ? & ? & ?). exists r'.
    rewrite lookup_upd_ne; [done|]. intros ->. congruence.
  - intros x i q ->%elem_of_singleton Hq. by eapply (not_in_rq None ∅ k).
  - intros x r' Hr' ? ? Hx. rewrite lookup_upd_ne in Hr' by set_solver. apply (si_ready _ _ _ Hi); set_solver.
  - intros w q x Hq Hx. destruct (si_wq _ _ _ Hi _ _ _ Hq Hx) as (r' & ? & ? & ?). exists r'.
    rewrite lookup_upd_ne; [done|]. intros ->. congruence.
  - intros x r'. rewrite lookup_upd. case_decide as E; [subst; rewrite Hr; simpl; intros [= <-]; congruence|].
    apply (si_blocked _ _ _ Hi).
  - intros x r'. rewrite lookup_upd. case_decide as E; [subst; rewrite Hr; simpl; intros [= <-]; congruence|].
    apply (si_running _ _ _ Hi).
  - intros c x Hc. destruct (si_cur _ _ _ Hi _ _ Hc) as (r' & Hr' & ? & [?|?]); [done|].
    exists r'. rewrite lookup_upd_ne; [auto|]. intros ->. congruence.
  - intros c x Hc. destruct (si_idle _ _ _ Hi _ _ Hc) as (d & r' & ? & Hr' & ? & ?). exists d.
    rewrite lookup_upd. case_decide as E; [subst|eauto]. simplify_eq. rewrite Hr. eexists.
    split_and!; [done|done|congruence|congruence].
  - intros x r'. rewrite lookup_upd. case_decide as E; [subst; rewrite Hr; simpl|apply (si_idlest _ _ _ Hi)].
    intros [= <-] _. auto.
  - intros x r'. rewrite lookup_upd. case_decide as E; [subst; rewrite Hr; simpl|apply (si_prio _ _ _ Hi)].
    intros [= <-]. rewrite Hp. exact (si_prio _ _ _ Hi _ _ Hr).
  - intros x r'. rewrite lookup_upd. case_decide as E; [subst; rewrite Hr; simpl|apply (si_magic _ _ _ Hi)].
    intros [= <-] _. unfold is_thread. rewrite Hm. exact (si_magic _ _ _ Hi _ _ Hr Hn4).
  - intros c x r' Hc. rewrite lookup_upd. case_decide as E; [subst|by apply (si_preempt _ _ _ Hi)].
    destruct (si_cur _ _ _ Hi _ _ Hc) as (r2 & Hr2 & _ & [?|?]); [done|]. congruence.
Qed.

Lemma make_ready_insert k t r f :
  kinv k → threads k !! t = Some r → state r = THREAD_SUSPENDED ∨ state r = THREAD_SLEEPING →
  thread_is_idle r = false →
  state (f r) = THREAD_READY → priority (f r) = priority r → flags (f r) = flags r → magic (f r) = magic r →
  ∃ rq bm, insert_in_run_queue_head (upd k t f) t = Some (with_run_queue (upd k t f) rq bm) ∧
    kinv (with_run_queue (upd k t f) rq bm).
Proof.
  intros Hi Hr Hs Hid Hs' Hp Hfg Hm.
  pose proof (sinv_make_ready k t r f Hi Hr Hs Hs' Hp Hfg Hm) as Hsf.
  destruct (insert_ok true _ _ _ t (f r) Hsf) as (rq & bm & ? & Hsi);
    [set_solver|by apply lookup_upd_eq|done|unfold thread_is_idle in *; congruence|].
  exists rq, bm. split; [done|]. unfold kinv. replace ∅ with (({[t]} : gset nat) ∖ {[t]}) by set_solver. done.
Qed.

Lemma kinv_timers k x : kinv k → kinv (with_timers k x).
Proof. intros []. by split. Qed.

Lemma thread_sleep_handler_ok k t r :
  kinv k → threads k !! t = Some r → is_thread r = true → thread_is_idle r = false →
  ∃ b k', thread_sleep_handler k t = Some (b, k') ∧ kinv k' ∧ (b = true ↔ state r = THREAD_SLEEPING).
Proof.
  intros Hi Hr Hm Hid. unfold thread_sleep_handler. rewrite Hr. cbn [mbind option_bind]. rewrite Hm.
  unfold has_state. case_bool_decide as Hs; cbn [negb]; [|by do 2 eexists].
  destruct (make_ready_insert k t r (λ r, set_blocked_status NO_ERROR (set_state THREAD_READY r)))
    as (rq & bm & -> & Hk); auto.
  cbn [mbind option_bind]. do 2 eexists. split_and!; done.
Qed.

Lemma thread_sleep_ok k c t r intr :
  kinv k → current k !! c = Some t → threads k !! t = Some r → thread_is_idle r = false →
  (intr = true ∧ flag (signals r) THREAD_SIGNAL_KILL = true ∧
     thread_sleep_etc k c intr = Some (Ret ERR_INTERRUPTED k)) ∨
  (∃ k', thread_sleep_etc k c intr = Some (Blocked k') ∧ kinv k').
Proof.
  intros Hi Hc Hr Hid. destruct (kinv_current k c t Hi Hc) as (r' & Hr' & Hs & Hm).
  assert (r' = r) as -> by congruence. unfold thread_sleep_etc. rewrite Hc. cbn [mbind option_bind].
  rewrite Hr. cbn [mbind option_bind]. rewrite Hm, Hid. unfold has_state. rewrite bool_decide_true by done.
  cbn [andb negb]. destruct (intr && _) eqn:E; [left; by apply andb_true_iff in E as [-> ->]|right].
  set (f := λ r, set_interruptable intr (set_blocked_status NO_ERROR (set_state THREAD_SLEEPING r))).
  set (k1 := timer_set_oneshot k t thread_sleep_cb).
  assert (Hi1 : kinv k1) by (by apply kinv_timers).
  assert (Hs2 : sinv (Some c) ∅ (upd k1 t f)).
  { apply (sinv_unfloat (Some c) ∅ _ t).
    - apply (sinv_leave ∅ k1 c t r f); auto; try done; [congruence|exact (si_prio _ _ _ Hi _ _ Hr)].
    - intros r2 Hr2. rewrite (lookup_upd_eq k1 t f r Hr) in Hr2. by simplify_eq. }
  destruct (resched_kinv (upd k1 t f) c t (f r) Hs2) as (k' & -> & ?); [done|by apply lookup_upd_eq|done|]. eauto.
Qed.

Lemma thread_resume_ok k c t r u ints :
  kinv k → current k !! c = Some u → threads k !! t = Some r → state r ≠ THREAD_DEATH →
  thread_is_idle r = false → ∃ k', thread_resume k c t ints = Some k' ∧ kinv k'.
Proof.
  intros Hi Hc Hr Hnd Hid. unfold thread_resume. rewrite Hr. cbn [mbind option_bind].
  rewrite (si_magic _ _ _ Hi _ _ Hr Hnd). unfold has_state. rewrite (bool_decide_false (state r = THREAD_DEATH)) by done.
  cbn [andb negb]. case_bool_decide as Hs; [|eauto].
  destruct (make_ready_insert k t r (set_state THREAD_READY)) as (rq & bm & -> & Hk); auto.
  cbn [mbind option_bind]. destruct ints; cbn [negb]; [eauto|]. by eapply thread_yield_ok.
Qed.

Lemma thread_timer_tick_ok k c t : kinv k → current k !! c = Some t →
  ∃ b k', thread_timer_tick k c = Some (b, k') ∧ kinv k'.
Proof.
  intros Hi Hc. destruct (kinv_current k c t Hi Hc) as (r & Hr & Hs & Hm).
  unfold thread_timer_tick. rewrite Hc. cbn [mbind option_bind]. rewrite Hr. cbn [mbind option_bind].
  destruct (thread_is_real_time_or_idle r); do 2 eexists; (split; [done|]); [done|].
  by apply sinv_upd_view.
Qed.

Lemma sinv_thread_list ex fl k l : sinv ex fl k → sinv ex fl (with_thread_list k l).
Proof. intros []. by split. Qed.

(** A wait queue that can be blocked on and woken. *)
Definition wq_ok (k : kstate) (w : nat) : Prop := ∃ q, wqs k !! w = Some q ∧ wq_magic q = WAIT_QUEUE_MAGIC.

Lemma wq_ok_woken k w t l err k' w' : woken k w t l err k' → wq_ok k w' → wq_ok k' w'.
Proof.
  intros [(q & Hq & E) _] (q' & Hq' & Hm). unfold wq_ok. rewrite E. destruct (decide (w' = w)) as [->|].
  - rewrite lookup_insert_eq. eexists. split; [done|]. simpl. congruence.
  - rewrite lookup_insert_ne by done. eauto.
Qed.

Lemma thread_exit_ok k c t r rc :
  kinv k → current k !! c = Some t → threads k !! t = Some r → thread_is_idle r = false →
  wq_ok k (retcode_wait_queue r) → ∃ k', thread_exit k c rc = Some k' ∧ kinv k'.
Proof.
  intros Hi Hc Hr Hid (q & Hq & Hmq). destruct (kinv_current k c t Hi Hc) as (r' & Hr' & Hs & Hm).
  assert (r' = r) as -> by congruence. unfold thread_exit. rewrite Hc. cbn [mbind option_bind].
  rewrite Hr. cbn [mbind option_bind]. rewrite Hm, Hid. unfold has_state. rewrite bool_decide_true by done.
  cbn [andb negb]. unfold thread_exit_locked. rewrite Hr. cbn [mbind option_bind].
  set (f := λ r, set_retcode rc (set_state THREAD_DEATH r)).
  assert (Hr1 : threads (upd k t f) !! t = Some (f r)) by (by apply lookup_upd_eq).
  assert (Hs1 : sinv (Some c) ∅ (upd k t f)).
  { apply (sinv_unfloat (Some c) ∅ _ t).
    - apply (sinv_leave ∅ k c t r f); auto; try done; [congruence|exact (si_prio _ _ _ Hi _ _ Hr)].
    - intros r2 Hr2. rewrite Hr1 in Hr2. by simplify_eq. }
  destruct (flag (flags r) THREAD_FLAG_DETACHED).
  - cbn [mbind option_bind]. set (g := λ r, set_magic 0 _).
    set (k1 := thread_list_delete (upd k t f) t).
    assert (Hs2 : sinv (Some c) ∅ (upd k1 t g)).
    { apply sinv_upd_view; [| |by apply sinv_thread_list].
      - intros r2 _. unfold g. destruct (flag (flags r2) THREAD_FLAG_FREE_STACK); [|done].
        unfold view, thread_is_idle, thread_is_real_time_or_idle. simpl. by rewrite !flag_ldiff.
      - intros r2 Hr2. change (threads k1) with (threads (upd k t f)) in Hr2. rewrite Hr1 in Hr2. by simplify_eq. }
    eapply (resched_kinv (upd k1 t g) c t (g (f r)) Hs2); [done|by apply (lookup_upd_eq k1)|].
    unfold g. by destruct (flag _ _).
  - destruct (wake_all_plain (Some c) (upd k t f) (retcode_wait_queue r) q 0 c Hs1 Hq Hmq)
      as (k2 & -> & Hs2 & _ & Eth & Ec). cbn [mbind option_bind].
    eapply (resched_kinv k2 c t (f r) Hs2); [by rewrite Ec| |done].
    rewrite Eth; [done|]. by eapply (not_in_wq (Some c) ∅ (upd k t f)).
Qed.

Lemma thread_set_real_time_ok k c t r u :
  kinv k → current k !! c = Some u → threads k !! t = Some r → is_thread r = true →
  (∀ c', current k !! c' = Some t → c' = c) →
  ∃ k', thread_set_real_time k c t = Some (NO_ERROR, k') ∧ kinv k'.
Proof.
  intros Hi Hc Hr Hm Hloc. unfold thread_set_real_time. rewrite Hr. cbn [mbind option_bind]. rewrite Hm, Hc.
  cbn [mbind option_bind]. eexists. split; [done|].
  set (f := λ r, set_flags (Z.lor (flags r) THREAD_FLAG_REAL_TIME) r).
  set (k1 := if bool_decide (t = u) then preempt_timer_cancel k c else k).
  assert (Hidf : ∀ r, thread_is_idle (f r) = thread_is_idle r) by (intros r0; by apply flag_lor).
  assert (Hi1 : kinv k1 ∧ (current k !! c = Some t → c ∉ preempt_timer k1) ∧ current k1 = current k ∧ threads k1 = threads k).
  { unfold k1. case_bool_decide as E; [subst|].
    - split_and!; [|simpl; set_solver|done|done]. destruct Hi. split; try done.
      intros c' x rx ? ? ?. simpl. intros ?. eapply si_preempt0; set_solver.
    - split_and!; [done|congruence|done|done]. }
  destruct Hi1 as (Hi1 & Hpre & Ecur & Eth). rewrite <- Eth in Hr.
  split; try by apply Hi1.
  - intros i q x Hq Hx. destruct (si_rq _ _ _ Hi1 _ _ _ Hq Hx) as (r' & Hr' & ?). rewrite lookup_upd.
    case_decide; [subst|eauto]. rewrite Hr'. eexists. split; [done|]. by rewrite Hidf.
  - intros x rx. rewrite lookup_upd. case_decide; [subst|by apply Hi1]. rewrite Hr. simpl. intros [= <-].
    rewrite Hidf. exact (si_ready _ _ _ Hi1 t r Hr).
  - intros w q x Hq Hx. destruct (si_wq _ _ _ Hi1 _ _ _ Hq Hx) as (r' & Hr' & ?). rewrite lookup_upd.
    case_decide; [subst|eauto]. rewrite Hr'. by eexists.
  - intros x rx. rewrite lookup_upd. case_decide; [subst|by apply Hi1]. rewrite Hr. simpl. intros [= <-].
    exact (si_blocked _ _ _ Hi1 t r Hr).
  - intros x rx. rewrite lookup_upd. case_decide; [subst|by apply Hi1]. rewrite Hr. simpl. intros [= <-].
    exact (si_running _ _ _ Hi1 t r Hr).
  - intros c' x Hx. destruct (si_cur _ _ _ Hi1 _ _ Hx) as (r' & Hr' & ?). rewrite lookup_upd.
    case_decide; [subst|eauto]. rewrite Hr'. by eexists.
  - intros c' x Hx. destruct (si_idle _ _ _ Hi1 _ _ Hx) as (d & r' & ? & Hr' & ? & ?). exists d. rewrite lookup_upd.
    case_decide; [subst|eauto]. rewrite Hr'. eexists. split_and!; [done|done|by rewrite Hidf|done].
  - intros x rx. rewrite lookup_upd. case_decide; [subst|by apply Hi1]. rewrite Hr. simpl. intros [= <-].
    rewrite Hidf. exact (si_idlest _ _ _ Hi1 t r Hr).
  - intros x rx. rewrite lookup_upd. case_decide; [subst|by apply Hi1]. rewrite Hr. simpl. intros [= <-].
    exact (si_prio _ _ _ Hi1 _ _ Hr).
  - intros x rx. rewrite lookup_upd. case_decide; [subst|by apply Hi1]. rewrite Hr. simpl. intros [= <-].
    exact (si_magic _ _ _ Hi1 _ _ Hr).
  - intros c' x rx Hx. rewrite lookup_upd. case_decide; [subst|by apply (si_preempt _ _ _ Hi1)]. intros _ _.
    change (current (upd k1 t f)) with (current k1) in Hx. rewrite Ecur in Hx.
    pose proof (Hloc c' Hx) as ->. auto.
Qed.

Lemma thread_create_ok k m t w gt gs prio ok k' m' :
  kinv k → threads k !! t = None → wqs k !! w = None → 0 ≤ prio < 32 →
  thread_create_etc k m t w gt gs prio = (ok, k', m') → kinv k'.
Proof.
  intros Hi Ht Hw Hp. unfold thread_create_etc.
  destruct (if gt then (true, m) else alloc m) as [[|] m1]; cbn [negb]; [|by intros [= <- <- <-]].
  destruct (if gs then (true, m1) else alloc m1) as [[|] m2]; cbn [negb]; [|by intros [= <- <- <-]].
  intros [= <- <- <-]. set (fl2 := if gs then _ else _).
  assert (Hfl : flag fl2 THREAD_FLAG_IDLE = false ∧ flag fl2 (Z.lor THREAD_FLAG_REAL_TIME THREAD_FLAG_IDLE) = false).
  { unfold fl2. by destruct gs, gt. }
  set (r := set_flags fl2 _). set (kk := with_thread_list _ _).
  assert (Hlt : ∀ x, threads kk !! x = if decide (x = t) then Some r else threads k !! x).
  { intros x. simpl. case_decide; [subst; apply lookup_insert_eq|by apply lookup_insert_ne]. }
  assert (Hlw : ∀ x, wqs kk !! x = if decide (x = w) then Some (mk_wq WAIT_QUEUE_MAGIC [] 0) else wqs k !! x).
  { intros x. simpl. case_decide; [subst; apply lookup_insert_eq|by apply lookup_insert_ne]. }
  assert (Hkeep : ∀ x rx, threads k !! x = Some rx → threads kk !! x = Some rx).
  { intros x rx Hx. rewrite Hlt, decide_False; [done|]. congruence. }
  split; try by apply Hi.
  - intros i q x Hq Hx. destruct (si_rq _ _ _ Hi _ _ _ Hq Hx) as (r' & Hr' & ?). eauto.
  - intros x rx. rewrite Hlt. case_decide; [by intros [= <-]|by apply Hi].
  - intros w' q x. rewrite Hlw. case_decide; [intros [= <-]; simpl; set_solver|]. intros Hq Hx.
    destruct (si_wq _ _ _ Hi _ _ _ Hq Hx) as (r' & Hr' & ?). eauto.
  - intros w' q. rewrite Hlw. case_decide; [|by apply Hi]. intros [= <-]. split; [constructor|done].
  - intros x rx. rewrite Hlt. case_decide; [by intros [= <-]|]. intros Hx Hb.
    destruct (si_blocked _ _ _ Hi _ _ Hx Hb) as (w' & q & ? & ? & ? & ?). exists w', q.
    rewrite Hlw, decide_False; [done|]. congruence.
  - intros x rx. rewrite Hlt. case_decide; [by intros [= <-]|by apply Hi].
  - intros c x Hx. destruct (si_cur _ _ _ Hi _ _ Hx) as (r' & Hr' & ?). eauto.
  - intros c x Hx. destruct (si_idle _ _ _ Hi _ _ Hx) as (d & r' & ? & Hr' & ? & ?). exists d, r'. auto.
  - intros x rx. rewrite Hlt. case_decide; [intros [= <-] _; by left|by apply Hi].
  - intros x rx. rewrite Hlt. case_decide; [by intros [= <-]|by apply Hi].
  - intros x rx. rewrite Hlt. case_decide; [by intros [= <-]|by apply Hi].
  - intros c x rx Hx. rewrite Hlt. case_decide; [intros [= <-]|by apply (si_preempt _ _ _ Hi)].
    unfold thread_is_real_time_or_idle. simpl. destruct Hfl as [_ ->]. done.
Qed.

(** ** All operations *)

Lemma kill_wake_ok k t r :
  kinv k → threads k !! t = Some r → is_thread r = true → thread_is_idle r = false →
  ∃ k', kill_wake k t r = Some k' ∧ kinv k' ∧ (∀ x, x ≠ t → threads k' !! x = threads k !! x) ∧
    current k' = current k ∧ ∀ w, wq_ok k w → wq_ok k' w.
Proof.
  intros Hi Hr Hm Hid. unfold kill_wake. destruct (state r) eqn:Hs; try by exists k.
  - destruct (interruptable r); [|by exists k].
    destruct (unblock_ok None k t r ERR_INTERRUPTED Hi Hr Hm) as [[? _]|(_ & w & l1 & l2 & k' & _ & -> & ? & Hw & ? & ?)];
      [congruence|]. cbn [mbind option_bind]. exists k'. split_and!; try done. intros w'. by eapply wq_ok_woken.
  - destruct (interruptable r); [|by exists k].
    destruct (make_ready_insert k t r (λ r, set_blocked_status ERR_INTERRUPTED (set_state THREAD_READY r)))
      as (rq & bm & -> & Hk); auto.
    eexists. split_and!; [done|done| |done|done]. intros x Hx. exact (lookup_upd_ne k t _ x Hx).
Qed.

Lemma wait_queue_block_kinv k c w timeout :
  kinv k → can_resched k c → wq_ok k w →
  ∃ o, wait_queue_block k c w timeout = Some o ∧
    match o with Ret e k' => e = ERR_TIMED_OUT ∧ k' = k | Blocked k' => kinv k' end.
Proof.
  intros Hi (t & r & Hc & Hr & Hid) (q & Hq & Hm).
  destruct (wait_queue_block_ok k c t r w q timeout) as [[_ ->]|(_ & k1 & new & k' & -> & ? & _)]; try done; by eexists.
Qed.

Definition state_after {A} (o : outcome A) : kstate := match o with Ret _ k => k | Blocked k => k end.

Lemma thread_kill_ok k c t r block :
  kinv k → threads k !! t = Some r → is_thread r = true → thread_is_idle r = false → can_resched k c →
  wq_ok k (retcode_wait_queue r) →
  ∃ o, thread_kill k c t block = Some o ∧ kinv (state_after o).
Proof.
  intros Hi Hr Hm Hid (u & ru & Hc & Hru & Hidu) Hwq. unfold thread_kill. rewrite Hr. cbn [mbind option_bind].
  rewrite Hm. set (f := λ r, set_signals (Z.lor (signals r) THREAD_SIGNAL_KILL) r).
  assert (Hi1 : kinv (upd k t f)) by (by apply sinv_upd_view).
  rewrite Hc. cbn [mbind option_bind]. case_bool_decide as Etc; [by eexists|].
  destruct (has_state r THREAD_DEATH); [by eexists|].
  assert (Hk : kill_wake (upd k t f) t r = kill_wake (upd k t f) t (f r)) by done.
  destruct (kill_wake_ok (upd k t f) t (f r) Hi1) as (k2 & E & Hi2 & Eth & Ec & Hwqs); [by apply lookup_upd_eq|done|done|].
  rewrite Hk, E. cbn [mbind option_bind].
  destruct (block && negb (flag (flags r) THREAD_FLAG_DETACHED)); [|by eexists].
  destruct (wait_queue_block_kinv k2 c (retcode_wait_queue r) INFINITE_TIME Hi2) as (o & -> & Ho).
  - exists u, ru. rewrite Ec, Eth by done. split_and!; [done| |done]. rewrite lookup_upd_ne by done. done.
  - by apply Hwqs.
  - cbn [mbind option_bind]. eexists. split; [done|]. destruct o as [? k3|k3]; simpl; [|done]. by destruct Ho as [_ ->].
Qed.

Lemma join_finish_ok k t r :
  kinv k → threads k !! t = Some r → is_thread r = true → state r = THREAD_DEATH → blocking_wait_queue r = None →
  ∃ k', join_finish k t = Some (retcode r, k') ∧ kinv k'.
Proof.
  intros Hi Hr Hm Hs Hb. unfold join_finish. rewrite Hr. cbn [mbind option_bind]. rewrite Hm.
  unfold has_state. rewrite !bool_decide_true by done. rewrite in_list_false.
  - eexists. split; [done|]. apply sinv_upd_view; [done| |by apply sinv_thread_list]. intros r2 Hr2.
    change (threads (thread_list_delete k t)) with (threads k) in Hr2. congruence.
  - intros i q Hq. eapply (not_in_rq None ∅ k); [done|done|congruence|done].
  - intros w q Hq. eapply (not_in_wq None ∅ k); [done|done|congruence|done].
Qed.

Lemma thread_join_ok k c t r timeout :
  kinv k → threads k !! t = Some r → is_thread r = true →
  (state r = THREAD_DEATH → blocking_wait_queue r = None) →
  (state r ≠ THREAD_DEATH → can_resched k c ∧ wq_ok k (retcode_wait_queue r)) →
  ∃ o, thread_join k c t timeout = Some o ∧ kinv (state_after o).
Proof.
  intros Hi Hr Hm Hd Hnd. unfold thread_join. rewrite Hr. cbn [mbind option_bind]. rewrite Hm.
  destruct (flag (flags r) THREAD_FLAG_DETACHED); [by eexists|]. unfold has_state. case_bool_decide as Hs; cbn [negb].
  - destruct (join_finish_ok k t r Hi Hr Hm Hs (Hd Hs)) as (k' & -> & ?). by eexists.
  - destruct (Hnd Hs) as [Hc Hw].
    destruct (wait_queue_block_kinv k c (retcode_wait_queue r) timeout Hi Hc Hw) as (o & -> & Ho).
    cbn [mbind option_bind]. destruct o as [e k'|k']; [destruct Ho as [-> ->]|]; by eexists.
Qed.

Lemma thread_detach_ok k c t r :
  kinv k → threads k !! t = Some r → is_thread r = true → state r ≠ THREAD_BLOCKED →
  (state r = THREAD_DEATH → blocking_wait_queue r = None) → wq_ok k (retcode_wait_queue r) →
  ∃ o, thread_detach k c t = Some o ∧ kinv (state_after o).
Proof.
  intros Hi Hr Hm Hnb Hd (q & Hq & Hmq). unfold thread_detach. rewrite Hr. cbn [mbind option_bind]. rewrite Hm.
  destruct (wake_all_plain None k (retcode_wait_queue r) q ERR_THREAD_DETACHED c Hi Hq Hmq)
    as (k1 & -> & Hi1 & _ & Eth & _). cbn [mbind option_bind].
  assert (Hr1 : threads k1 !! t = Some r).
  { rewrite Eth; [done|]. eapply (not_in_wq None ∅ k); done. }
  rewrite Hr1. cbn [mbind option_bind]. unfold has_state. case_bool_decide as Hs.
  - set (f := λ r, set_flags (Z.ldiff (flags r) THREAD_FLAG_DETACHED) r).
    apply (thread_join_ok (upd k1 t f) c t (f r)).
    + apply sinv_upd_view; [|done|done]. intros r2 _. unfold view, thread_is_idle, thread_is_real_time_or_idle. simpl.
      by rewrite !flag_ldiff.
    + by apply lookup_upd_eq.
    + done.
    + auto.
    + done.
  - eexists. split; [done|]. simpl. apply sinv_upd_view; [|done|done].
    intros r2 _. unfold view, thread_is_idle, thread_is_real_time_or_idle. simpl. by rewrite !flag_lor.
Qed.

Lemma timer_fire_ok k t cb r :
  kinv k → timers k !! t = Some cb → threads k !! t = Some r → is_thread r = true → thread_is_idle r = false →
  ∃ b k', timer_fire k t = Some (b, k') ∧ kinv k'.
Proof.
  intros Hi Ht Hr Hm Hid. unfold timer_fire. rewrite Ht. cbn [mbind option_bind].
  assert (Hi1 : kinv (timer_cancel k t)) by (by apply kinv_timers). destruct cb.
  - unfold wait_queue_timeout_handler. change (threads (timer_cancel k t)) with (threads k). rewrite Hr.
    cbn [mbind option_bind]. rewrite Hm.
    destruct (unblock_ok None (timer_cancel k t) t r ERR_TIMED_OUT Hi1 Hr Hm)
      as [[_ ->]|(_ & w & l1 & l2 & k' & _ & -> & ? & _)]; cbn [mbind option_bind]; by do 2 eexists.
  - destruct (thread_sleep_handler_ok (timer_cancel k t) t r) as (b & k' & -> & ? & _); eauto.
Qed.

Inductive op :=
| OYield (c : nat) | OPreempt (c : nat) | OTick (c : nat)
| OSetPriority (c : nat) (p : Z) | OSetRealTime (c t : nat) | OResume (c t : nat) (ints : bool)
| OBlock (c w : nat) (timeout : Z) | OBlockResume (t : nat) (timeout : Z)
| OWakeOne (c w : nat) (resched : bool) (err : Z) | OWakeAll (c w : nat) (resched : bool) (err : Z)
| OTimer (t : nat) | OSleep (c : nat) (intr : bool) | OSleepResume (t : nat)
| OCreate (m : mem) (t w : nat) (given_t given_stack : bool) (prio : Z)
| OJoin (c t : nat) (timeout : Z) | ODetach (c t : nat) | OKill (c t : nat) (block : bool) | OExit (c : nat) (rc : Z).

Definition exec (k : kstate) (o : op) : option kstate :=
  match o with
  | OYield c => thread_yield k c
  | OPreempt c => thread_preempt k c
  | OTick c => '(_, k') ← thread_timer_tick k c; Some k'
  | OSetPriority c p => thread_set_priority k c p
  | OSetRealTime c t => '(_, k') ← thread_set_real_time k c t; Some k'
  | OResume c t ints => thread_resume k c t ints
  | OBlock c w timeout => o ← wait_queue_block k c w timeout; Some (state_after o)
  | OBlockResume t timeout => '(_, k') ← wait_queue_block_resume k t timeout; Some k'
  | OWakeOne c w b err => '(_, k') ← wait_queue_wake_one k c w b err; Some k'
  | OWakeAll c w b err => '(_, k') ← wait_queue_wake_all k c w b err; Some k'
  | OTimer t => '(_, k') ← timer_fire k t; Some k'
  | OSleep c intr => o ← thread_sleep_etc k c intr; Some (state_after o)
  | OSleepResume t => '(_, k') ← thread_sleep_resume k t; Some k'
  | OCreate m t w gt gs prio => let '(_, k', _) := thread_create_etc k m t w gt gs prio in Some k'
  | OJoin c t timeout => o ← thread_join k c t timeout; Some (state_after o)
  | ODetach c t => o ← thread_detach k c t; Some (state_after o)
  | OKill c t b => o ← thread_kill k c t b; Some (state_after o)
  | OExit c rc => thread_exit k c rc
  end.

(** A thread that exists and is not an idle thread. *)
Definition regular (k : kstate) (t : nat) (r : thread) : Prop :=
  threads k !! t = Some r ∧ is_thread r = true ∧ thread_is_idle r = false.

(** What the code expects of a call: the caller is a thread that may block,
    the thread and the wait queue that are named exist. *)
Definition pre (k : kstate) (o : op) : Prop :=
  match o with
  | OYield c | OPreempt c | OTick c => is_Some (current k !! c)
  | OSetPriority c _ => can_resched k c
  | OSetRealTime c t => is_Some (current k !! c) ∧ (∃ r, regular k t r) ∧ (∀ c', current k !! c' = Some t → c' = c)
  | OResume c t _ => is_Some (current k !! c) ∧ ∃ r, regular k t r ∧ state r ≠ THREAD_DEATH
  | OBlock c w _ => can_resched k c ∧ wq_ok k w
  | OBlockResume t _ | OSleepResume t => is_Some (threads k !! t)
  | OWakeOne c w b _ | OWakeAll c w b _ => wq_ok k w ∧ (b = true → can_resched k c)
  | OTimer t => is_Some (timers k !! t) ∧ ∃ r, regular k t r
  | OSleep c _ => can_resched k c
  | OCreate _ t w _ _ prio => threads k !! t = None ∧ wqs k !! w = None ∧ 0 ≤ prio < 32
  | OJoin c t _ => ∃ r, regular k t r ∧ (state r = THREAD_DEATH → blocking_wait_queue r = None) ∧
      (state r ≠ THREAD_DEATH → can_resched k c ∧ wq_ok k (retcode_wait_queue r))
  | ODetach c t => ∃ r, regular k t r ∧ state r ≠ THREAD_BLOCKED ∧
      (state r = THREAD_DEATH → blocking_wait_queue r = None) ∧ wq_ok k (retcode_wait_queue r)
  | OKill c t _ => can_resched k c ∧ ∃ r, regular k t r ∧ wq_ok k (retcode_wait_queue r)
  | OExit c _ => ∃ t r, current k !! c = Some t ∧ regular k t r ∧ wq_ok k (retcode_wait_queue r)
  end.

Lemma block_resume_ok k t timeout : kinv k → is_Some (threads k !! t) →
  ∃ e k', wait_queue_block_resume k t timeout = Some (e, k') ∧ kinv k'.
Proof.
  intros Hi [r Hr]. unfold wait_queue_block_resume. destruct (timeout =? INFINITE_TIME); cbn [negb].
  - rewrite Hr. by do 2 eexists.
  - change (threads (timer_cancel k t)) with (threads k). rewrite Hr. cbn [mbind option_bind].
    do 2 eexists. split; [done|]. by apply kinv_timers.
Qed.

Lemma sleep_resume_ok k t : kinv k → is_Some (threads k !! t) →
  ∃ e k', thread_sleep_resume k t = Some (e, k') ∧ kinv k'.
Proof.
  intros Hi [r Hr]. unfold thread_sleep_resume. rewrite (lookup_upd_eq _ _ _ _ Hr). cbn [mbind option_bind].
  do 2 eexists. split; [done|].
  assert (kinv (upd k t (set_interruptable false))) by (by apply sinv_upd_view).
  destruct (_ =? _); [by apply kinv_timers|done].
Qed.

Lemma exec_ok k o : kinv k → pre k o → ∃ k', exec k o = Some k' ∧ kinv k'.
Proof.
  intros Hi Hp. destruct o; simpl in Hp |- *.
  - destruct Hp. by eapply thread_yield_ok.
  - destruct Hp. by eapply thread_preempt_ok.
  - destruct Hp. destruct (thread_timer_tick_ok k c x Hi) as (? & k' & -> & ?); [done|]. by eexists.
  - destruct Hp as (t & r & ? & ? & ?). by eapply thread_set_priority_ok.
  - destruct Hp as ([u ?] & (r & ? & ? & ?) & ?).
    destruct (thread_set_real_time_ok k c t r u) as (k' & -> & ?); [done..|]. by eexists.
  - destruct Hp as ([u ?] & r & (? & ? & ?) & ?). by eapply thread_resume_ok.
  - destruct Hp as [? ?]. destruct (wait_queue_block_kinv k c w timeout) as (o & -> & Ho); [done..|].
    cbn [mbind option_bind]. eexists. split; [done|]. destruct o; [by destruct Ho as [_ ->]|done].
  - destruct (block_resume_ok k t timeout Hi Hp) as (? & ? & -> & ?). by eexists.
  - destruct Hp as [(q & Hq & Hm) Hre]. pose proof (wake_one_ok k w q resched err c Hi Hq Hm Hre) as Hx.
    destruct (wq_list q) as [|t l]; [rewrite Hx|destruct Hx as (k' & -> & ? & _)]; by eexists.
  - destruct Hp as [(q & Hq & Hm) Hre].
    destruct (wake_all_ok k w q resched err c Hi Hq Hm Hre) as (k' & -> & ? & _). by eexists.
  - destruct Hp as ([cb ?] & r & ? & ? & ?). destruct (timer_fire_ok k t cb r) as (? & k' & -> & ?); [done..|]. by eexists.
  - destruct Hp as (t & r & ? & ? & ?).
    destruct (thread_sleep_ok k c t r intr) as [(_ & _ & ->)|(k' & -> & ?)]; [done..|by eexists|by eexists].
  - destruct (sleep_resume_ok k t Hi Hp) as (? & ? & -> & ?). by eexists.
  - destruct Hp as (? & ? & ?). destruct (thread_create_etc k m t w given_t given_stack prio) as [[ok k'] m'] eqn:E.
    eexists. split; [done|]. by eapply thread_create_ok.
  - destruct Hp as (r & (? & ? & ?) & ? & ?). destruct (thread_join_ok k c t r timeout) as (o & -> & ?); [done..|]. by eexists.
  - destruct Hp as (r & (? & ? & ?) & ? & ? & ?). destruct (thread_detach_ok k c t r) as (o & -> & ?); [done..|]. by eexists.
  - destruct Hp as (? & r & (? & ? & ?) & ?). destruct (thread_kill_ok k c t r block) as (o & -> & ?); [done..|]. by eexists.
  - destruct Hp as (t & r & ? & (? & ? & ?) & ?). by eapply thread_exit_ok.
Qed.

(** ** Start-up *)

(** The memory at boot. *)
Definition boot_state (idles : list nat) : kstate := mk_k ∅ [] [] 0 ∅ ∅ idles ∅ ∅ 0 0 0.

Definition boot_thread (w : nat) : thread :=
  mk_thread THREAD_MAGIC IDLE_PRIORITY THREAD_RUNNING 0 (Z.lor THREAD_FLAG_DETACHED THREAD_FLAG_IDLE) 0 0 0 0 0
    None 0 false 0 w.

Definition booted (idles : list nat) (d w : nat) : kstate :=
  mk_k {[d := boot_thread w]} [d] (replicate 32 []) 0 {[w := mk_wq WAIT_QUEUE_MAGIC [] 0]} {[0%nat := d]}
    (d :: idles) ∅ ∅ 1 0 0.

Lemma booted_kinv idles d w : NoDup (d :: idles) → kinv (booted idles d w).
Proof.
  intros Hnd.
  assert (Hrq : ∀ i q, run_queue (booted idles d w) !! i = Some q → q = []).
  { intros i q Hq. by apply lookup_replicate in Hq as [-> _]. }
  assert (Hth : ∀ x r, threads (booted idles d w) !! x = Some r → x = d ∧ r = boot_thread w).
  { intros x r Hx. cbn [threads booted] in Hx. by apply lookup_singleton_Some in Hx as [-> ->]. }
  assert (Hwq : ∀ x q, wqs (booted idles d w) !! x = Some q → q = mk_wq WAIT_QUEUE_MAGIC [] 0).
  { intros x q Hx. cbn [wqs booted] in Hx. by apply lookup_singleton_Some in Hx as [_ <-]. }
  assert (Hcur : ∀ c t, current (booted idles d w) !! c = Some t → c = 0%nat ∧ t = d).
  { intros c t Hx. cbn [current booted] in Hx. by apply lookup_singleton_Some in Hx as [-> ->]. }
  split; try done.
  - intros i Hi. rewrite Z.bits_0. split; [done|]. intros (t & q & Hq). by apply Hrq in Hq.
  - intros i q t Hq%Hrq. subst. set_solver.
  - intros i q ->%Hrq. constructor.
  - intros t r [-> ->]%Hth. done.
  - intros x q t ->%Hwq. simpl. set_solver.
  - intros x q ->%Hwq. split; [constructor|done].
  - intros t r [-> ->]%Hth. done.
  - intros t r [-> ->]%Hth _. exists 0%nat. apply lookup_singleton_eq.
  - intros c t [-> ->]%Hcur. exists (boot_thread w). split_and!; [apply lookup_singleton_eq|done|by right].
  - intros c t [-> ->]%Hcur. exists d, (boot_thread w). split_and!; [done|apply lookup_singleton_eq|done|].
    intros _. apply lookup_singleton_eq.
  - intros t r [-> ->]%Hth. auto.
  - intros t r [-> ->]%Hth. done.
  - intros t r [-> ->]%Hth. done.
Qed.

(** The start-up code leads to a state in which the invariant holds. *)
Lemma boot_ok idles d w :
  NoDup (d :: idles) →
  ∃ k1 k2, thread_init_early (boot_state (d :: idles)) w = Some k1 ∧ thread_become_idle k1 0 = Some k2 ∧ kinv k2.
Proof.
  intros Hnd. destruct (thread_yield_ok (booted idles d w) 0 d) as (k2 & Hy & Hk).
  { by apply booted_kinv. }
  { apply lookup_singleton_eq. }
  eexists _, k2. split_and!; [done| |done]. unfold thread_become_idle. rewrite <- Hy.
  change (current _ !! 0%nat) with (<[0%nat := d]> (∅ : gmap nat nat) !! 0%nat). rewrite lookup_insert_eq.
  cbn [mbind option_bind]. f_equal. unfold booted, upd, mp_set_cpu_idle, with_mp, with_threads. simpl.
  f_equal.
  - apply map_eq. intros x. destruct (decide (x = d)) as [->|Hne].
    + by rewrite lookup_alter_eq, lookup_insert_eq, lookup_singleton_eq.
    + by rewrite lookup_alter_ne, lookup_insert_ne, lookup_singleton_ne.
Qed.

(** ** Reachable states *)

Inductive kreach : kstate → Prop :=
| kreach_boot idles d w k1 k2 : NoDup (d :: idles) →
    thread_init_early (boot_state (d :: idles)) w = Some k1 → thread_become_idle k1 0 = Some k2 → kreach k2
| kreach_step k o k' : kreach k → pre k o → exec k o = Some k' → kreach k'.

Lemma kreach_kinv k : kreach k → kinv k.
Proof.
  induction 1 as [idles d w k1 k2 Hnd E1 E2|k o k' _ IH Hp E].
  - destruct (boot_ok idles d w Hnd) as (? & ? & E1' & E2' & Hk). rewrite E1 in E1'.
    injection E1' as <-. rewrite E2 in E2'. by injection E2' as <-.
  - destruct (exec_ok k o IH Hp) as (k2 & E' & Hk). rewrite E in E'. by injection E' as <-.
Qed.

(** ** The scheduler's theorems *)

(** A concrete run: boot, create a thread of priority 16, resume it. *)
Definition ex_boot : kstate :=
  match thread_init_early (boot_state [0%nat; 1%nat]) 100 with
  | Some k => match thread_become_idle k 0 with Some k' => k' | None => k end
  | None => boot_state []
  end.
Definition ex_run (k : kstate) (o : op) : kstate := match exec k o with Some k' => k' | None => k end.
Definition ex_created : kstate := ex_run ex_boot (OCreate [true; true] 2 102 false false 16).
Definition ex_resumed : kstate := ex_run ex_created (OResume 0 2 false).

Lemma ex_boot_reach : kreach ex_boot.
Proof.
  eapply (kreach_boot [1%nat] 0 100); [|reflexivity|vm_compute; reflexivity].
  apply NoDup_cons. split; [set_solver|apply NoDup_singleton].
Qed.
Lemma ex_created_reach : kreach ex_created.
Proof.
  apply (kreach_step ex_boot (OCreate [true; true] 2 102 false false 16)); [apply ex_boot_reach| |vm_compute; reflexivity].
  split_and!; [vm_compute; reflexivity|vm_compute; reflexivity|lia|lia].
Qed.
Lemma ex_resumed_reach : kreach ex_resumed.
Proof.
  apply (kreach_step ex_created (OResume 0 2 false)); [apply ex_created_reach| |vm_compute; reflexivity].
  split; [by eexists|]. eexists. split_and!; [split_and!; vm_compute; reflexivity|done].
Qed.





(** C7.  A reschedule switches the processor to the first thread of the
    highest-priority run queue that has a thread allowed to run there, and to
    the idle thread only when no queued thread may. *)
Theorem resched_highest_priority k c old oldr :
  sinv (Some c) ∅ k → current k !! c = Some old → threads k !! old = Some oldr → state oldr ≠ THREAD_RUNNING →
  ∃ new newr k', thread_resched k c = Some k' ∧ kinv k' ∧ current k' !! c = Some new ∧
    threads k !! new = Some newr ∧
    ((idle_thread k !! c = Some new ∧ ∀ i q x, run_queue k !! i = Some q → x ∈ q → ¬ eligible k c x) ∨
     (eligible k c new ∧ ∃ q1 q2, run_queue k !! Z.to_nat (priority newr) = Some (q1 ++ new :: q2) ∧
       (∀ x, x ∈ q1 → ¬ eligible k c x) ∧
       ∀ i q x rx, run_queue k !! i = Some q → x ∈ q → threads k !! x = Some rx → eligible k c x →
         priority rx ≤ priority newr)).
Proof.
  intros Hi Hc Hr Hs. destruct (resched_ok k c old oldr Hi Hc Hr Hs) as (new & k' & Hres & Hk & Hsw).
  destruct (sw_top _ _ _ _ Hsw) as (k1 & Htop).
  destruct (top_thread_state k c old oldr new k1 Hi Hc Hr Hs Htop) as (newr & Hnew & _).
  exists new, newr, k'. split_and!; [done|done|rewrite (sw_cur _ _ _ _ Hsw); apply lookup_insert_eq|done|].
  destruct Htop as [(? & _ & ?)|(i & q1 & q2 & Hq & He & Hq1 & Hhi & _)]; [by left|right].
  split; [done|]. destruct (si_rq _ _ _ Hi _ _ new Hq ltac:(set_solver)) as (r2 & Hr2 & _ & Hp & _). simplify_eq.
  exists q1, q2. rewrite Hp, Nat2Z.id. split_and!; [done|done|].
  intros j q x rx Hqj Hx Hrx Hex. destruct (si_rq _ _ _ Hi _ _ x Hqj Hx) as (r3 & Hr3 & _ & Hp3 & _). simplify_eq.
  rewrite Hp3. destruct (decide (i < j)%nat); [|lia]. exfalso. by eapply Hhi.
Qed.

(** The state in which the thread of [ex_resumed] has just been made ready. *)
Definition ex_leaving : kstate :=
  match insert_in_run_queue_tail (upd ex_resumed 2 (set_state THREAD_READY)) 2 with Some k => k | None => ex_boot end.

Lemma ex_leaving_sinv : sinv (Some 0%nat) ∅ ex_leaving.
Proof.
  assert (Hi : kinv ex_resumed) by apply kreach_kinv, ex_resumed_reach.
  destruct (leave_insert false ∅ ex_resumed 0 2 (default (boot_thread 0) (threads ex_resumed !! 2%nat))
    (set_state THREAD_READY)) as (rq & bm & E & Hs);
    [exact Hi|vm_compute; reflexivity|vm_compute; reflexivity|vm_compute; reflexivity|vm_compute; reflexivity|set_solver|
     reflexivity|vm_compute; split; [discriminate|reflexivity]|reflexivity|reflexivity|reflexivity|].
  unfold ex_leaving, insert_in_run_queue_tail. by rewrite E.
Qed.

Lemma resched_highest_priority_witness : sinv (Some 0%nat) ∅ ex_leaving ∧
  ∃ new newr k', thread_resched ex_leaving 0 = Some k' ∧ kinv k' ∧ current k' !! 0%nat = Some new ∧
    threads ex_leaving !! new = Some newr ∧
    ((idle_thread ex_leaving !! 0%nat = Some new ∧ ∀ i q x, run_queue ex_leaving !! i = Some q → x ∈ q → ¬ eligible ex_leaving 0 x) ∨
     (eligible ex_leaving 0 new ∧ ∃ q1 q2, run_queue ex_leaving !! Z.to_nat (priority newr) = Some (q1 ++ new :: q2) ∧
       (∀ x, x ∈ q1 → ¬ eligible ex_leaving 0 x) ∧
       ∀ i q x rx, run_queue ex_leaving !! i = Some q → x ∈ q → threads ex_leaving !! x = Some rx → eligible ex_leaving 0 x →
         priority rx ≤ priority newr)).
Proof.
  split; [apply ex_leaving_sinv|].
  eapply (resched_highest_priority ex_leaving 0 2); [apply ex_leaving_sinv|vm_compute; reflexivity|vm_compute; reflexivity|].
  vm_compute. discriminate.
Defined.

(** A wait queue is first in, first out, and its counts stay right:
    blocking puts the thread at the tail, waking one takes the head, gives it
    the waker's status and touches no other waiter. *)
Theorem wait_queue_fifo k c w q resched err :
  kinv k → wqs k !! w = Some q → wq_magic q = WAIT_QUEUE_MAGIC → (resched = true → can_resched k c) →
  match wq_list q with
  | [] => wait_queue_wake_one k c w resched err = Some (0, k)
  | t :: l => ∃ k', wait_queue_wake_one k c w resched err = Some (1, k') ∧ kinv k' ∧
      waiters k' w = l ∧ (∀ w', w' ≠ w → waiters k' w' = waiters k w') ∧
      status k' t = err ∧ (∀ x, x ≠ t → status k' x = status k x)
  end ∧
  (∀ timeout t, timeout ≠ 0 → can_resched k c → current k !! c = Some t →
    ∃ k', wait_queue_block k c w timeout = Some (Blocked k') ∧ kinv k' ∧ waiters k' w = wq_list q ++ [t] ∧
      ∀ w', w' ≠ w → waiters k' w' = waiters k w').
Proof.
  intros Hi Hq Hm Hre. split.
  - pose proof (wake_one_ok k w q resched err c Hi Hq Hm Hre) as Hx. destruct (wq_list q) as [|t l]; [done|].
    destruct Hx as (k' & E & Hk & (q' & Hq' & Ew) & Est). exists k'. unfold waiters. rewrite Ew, lookup_insert_eq.
    split_and!; [done|done|done| |by rewrite Est, decide_True|].
    + intros w' Hw'. by rewrite lookup_insert_ne by done.
    + intros x Hx. by rewrite Est, decide_False.
  - intros timeout t Ht (t' & r & Hc & Hr & Hid) Hc'. assert (t' = t) as -> by congruence.
    destruct (wait_queue_block_ok k c t r w q timeout) as [[? _]|(_ & k1 & new & k' & E & Hk & Hsw & _ & _ & Ew & _)];
      [done..|]. exists k'. unfold waiters. rewrite (sw_wqs _ _ _ _ Hsw), Ew, lookup_insert_eq.
    split_and!; [done|done|done|]. intros w' Hw'. by rewrite lookup_insert_ne by done.
Qed.

Lemma wait_queue_fifo_witness : ∃ q, wqs ex_resumed !! 100%nat = Some q ∧
  ∃ k', wait_queue_block ex_resumed 0 100 50 = Some (Blocked k') ∧ kinv k' ∧ waiters k' 100 = wq_list q ++ [2%nat] ∧
    ∀ w', w' ≠ 100%nat → waiters k' w' = waiters ex_resumed w'.
Proof.
  assert (Hi : kinv ex_resumed) by apply kreach_kinv, ex_resumed_reach.
  assert (Hc : can_resched ex_resumed 0) by (do 2 eexists; split_and!; vm_compute; reflexivity).
  eexists. split; [vm_compute; reflexivity|].
  eapply (wait_queue_fifo ex_resumed 0 100 _ false 0); [done|vm_compute; reflexivity|done|done|done|done|vm_compute; reflexivity].
Defined.

Lemma top_loop_frame k c fuel : ∀ bm t k', top_loop fuel k c bm = Some (t, k') →
  preempt_timer k' = preempt_timer k ∧ current k' = current k.
Proof.
  induction fuel as [|n IH]; intros bm t k'; simpl; [done|]. destruct (bm =? 0).
  - destruct (idle_thread k !! c); cbn [mbind option_bind]; [|done]. by intros [= <- <-].
  - destruct (run_queue k !! _) as [q|]; cbn [mbind option_bind]; [|done].
    destruct (pick k c q) as [[[x q']|]|]; cbn [mbind option_bind]; [by intros [= <- <-]|apply IH|done].
Qed.

Lemma get_top_frame k c t k' : get_top_thread k c = Some (t, k') →
  preempt_timer k' = preempt_timer k ∧ current k' = current k.
Proof. apply top_loop_frame. Qed.

(** A switch from a real time or idle thread to another kind of thread sets the
    preemption timer, which panics when it is set already. *)
Lemma resched_timer_set k c old oldr :
  current k !! c = Some old → threads k !! old = Some oldr → thread_is_real_time_or_idle oldr = true →
  c ∈ preempt_timer k →
  match thread_resched k c with
  | Some k' => ∀ new newr, current k' !! c = Some new → new ≠ old → threads k' !! new = Some newr →
      thread_is_real_time_or_idle newr = true
  | None => True
  end.
Proof.
  intros Hc Hr Hrt Hp. unfold thread_resched. rewrite Hc. cbn [mbind option_bind]. rewrite Hr. cbn [mbind option_bind].
  destruct (has_state oldr THREAD_RUNNING); cbn [negb]; [done|].
  destruct (get_top_thread k c) as [[new k1]|] eqn:Eg; cbn [mbind option_bind]; [|done].
  assert (Hk1 : preempt_timer k1 = preempt_timer k ∧ current k1 = current k).
  { exact (get_top_frame k c _ _ Eg). }
  destruct Hk1 as [Ep Ec]. destruct (threads k1 !! new) as [newr|] eqn:Hnew; cbn [mbind option_bind]; [|done].
  case_bool_decide as Eno.
  { intros n' r' Hn' Hne. change (current (upd k1 new (set_state THREAD_RUNNING))) with (current k1) in Hn'.
    rewrite Ec in Hn'. congruence. }
  set (ks := switch_threads (upd k1 new (set_state THREAD_RUNNING)) c old new).
  destruct (switch_mp_frame ks c newr) as (im & rm & ->). unfold switch_preempt_timer. rewrite Hrt.
  destruct (thread_is_real_time_or_idle newr) eqn:En.
  - cbn [mbind option_bind negb]. intros n' r' Hn' _ Hr'. cbn [current with_current] in Hn'.
    rewrite lookup_insert_eq in Hn'. injection Hn' as <-.
    change (threads (with_current _ _)) with (threads ks) in Hr'. unfold ks in Hr'.
    rewrite switch_threads_lookup, decide_True, (lookup_upd_eq _ _ _ _ Hnew) in Hr' by congruence.
    simpl in Hr'. injection Hr' as <-. exact En.
  - unfold preempt_timer_set. rewrite bool_decide_true; [done|]. by rewrite <- Ep in Hp.
Qed.

Lemma insert_frame hd k t k' : insert_in_run_queue hd k t = Some k' →
  threads k' = threads k ∧ current k' = current k ∧ preempt_timer k' = preempt_timer k.
Proof.
  unfold insert_in_run_queue. destruct (threads k !! t) as [r|]; cbn [mbind option_bind]; [|done].
  destruct (_ && _); [|done]. destruct (run_queue k !! _); cbn [mbind option_bind]; [|done]. by intros [= <-].
Qed.

(** Making a thread that runs on another processor real time leaves that
    processor's preemption timer set: from then on, whenever the thread yields
    to an ordinary thread, the kernel panics on setting the timer again. *)
Theorem set_real_time_remote_panic k c u c' t r k1 :
  current k !! c = Some u → u ≠ t → current k !! c' = Some t → threads k !! t = Some r → is_thread r = true →
  c' ∈ preempt_timer k → thread_set_real_time k c t = Some (NO_ERROR, k1) →
  match thread_yield k1 c' with
  | Some k2 => ∀ new newr, current k2 !! c' = Some new → new ≠ t → threads k2 !! new = Some newr →
      thread_is_real_time_or_idle newr = true
  | None => True
  end.
Proof.
  intros Hc Hut Hc' Hr Hm Hp. unfold thread_set_real_time. rewrite Hr. cbn [mbind option_bind]. rewrite Hm, Hc.
  cbn [mbind option_bind]. rewrite bool_decide_false by congruence. intros [= <-].
  set (f := λ r, set_flags (Z.lor (flags r) THREAD_FLAG_REAL_TIME) r).
  assert (Hrt : thread_is_real_time_or_idle (f r) = true).
  { unfold thread_is_real_time_or_idle, flag, f. simpl. apply negb_true_iff, Z.eqb_neq.
    intros E. assert (Hb : Z.testbit (Z.land (Z.lor (flags r) THREAD_FLAG_REAL_TIME)
      (Z.lor THREAD_FLAG_REAL_TIME THREAD_FLAG_IDLE)) 3 = false) by (by rewrite E).
    rewrite Z.land_spec, Z.lor_spec in Hb. change (Z.testbit THREAD_FLAG_REAL_TIME 3) with true in Hb.
    by rewrite orb_true_r in Hb. }
  unfold thread_yield. change (current (upd k t f)) with (current k). rewrite Hc'. cbn [mbind option_bind].
  rewrite (lookup_upd_eq k t f r Hr). cbn [mbind option_bind]. destruct (_ && _); [|done].
  set (g := λ r, set_quantum 0 (set_state THREAD_READY r)).
  pose proof (lookup_upd_eq (upd k t f) t g (f r) (lookup_upd_eq k t f r Hr)) as Hg.
  destruct (if thread_is_idle (f r) then _ else _) as [k2|] eqn:E2; cbn [mbind option_bind]; [|done].
  assert (Hk2 : threads k2 = threads (upd (upd k t f) t g) ∧ current k2 = current k ∧ preempt_timer k2 = preempt_timer k).
  { destruct (thread_is_idle (f r)); [by injection E2 as <-|]. by apply insert_frame in E2. }
  destruct Hk2 as (Et & Ecur & Ep).
  apply (resched_timer_set k2 c' t (g (f r))); [by rewrite Ecur|by rewrite Et|exact Hrt|by rewrite Ep].
Qed.

(** Two processors with an ordinary thread each and a third one that waits. *)
Definition ex_two : kstate :=
  let th s c p w := mk_thread THREAD_MAGIC 16 s 5 0 0 c p 0 0 None 0 false 0 w in
  mk_k (list_to_map [(0%nat, set_flags THREAD_FLAG_IDLE (set_priority 0 (th THREAD_READY (-1) 0 100%nat)));
                     (1%nat, set_flags THREAD_FLAG_IDLE (set_priority 0 (th THREAD_READY (-1) 1 101%nat)));
                     (2%nat, th THREAD_RUNNING 0 (-1) 102%nat); (3%nat, th THREAD_RUNNING 1 (-1) 103%nat);
                     (4%nat, th THREAD_READY (-1) (-1) 104%nat)])
    [0; 1; 2; 3; 4]%nat (<[16%nat := [4%nat]]> (replicate 32 [])) (2 ^ 16) ∅
    (list_to_map [(0%nat, 2%nat); (1%nat, 3%nat)]) [0; 1]%nat {[0%nat; 1%nat]} ∅ 0 0 0.

Lemma set_real_time_remote_panic_witness : ∃ k1, thread_set_real_time ex_two 0 3 = Some (NO_ERROR, k1) ∧
  thread_yield k1 1 = None ∧
  match thread_yield k1 1 with
  | Some k2 => ∀ new newr, current k2 !! 1%nat = Some new → new ≠ 3%nat → threads k2 !! new = Some newr →
      thread_is_real_time_or_idle newr = true
  | None => True
  end.
Proof.
  eexists. split_and!; [vm_compute; reflexivity|vm_compute; reflexivity|].
  eapply (set_real_time_remote_panic ex_two 0 2 1 3);
    [vm_compute; reflexivity|done|vm_compute; reflexivity|vm_compute; reflexivity|done|
     unfold ex_two; simpl; set_solver|vm_compute; reflexivity].
Defined.

End SchedFacts.
