(* ===== verification/Sync.v ===== *)
(** * Events, mutexes, semaphores and condition variables

    [src/kernel/kernel/{event,mutex,semaphore,cond}.c].  The primitives are
    written over an interface to the kernel's wait queues, the class [WaitOps]:
    [K] is the state of the kernel apart from the object at hand, which holds
    the number of its wait queue.  The instance at the end is [Sched].

    An operation that blocks returns [Wait]: the processor runs another thread,
    and the rest of the operation, the definition [..._resume], is run by the
    caller when it is current again.  [None] is a failed assertion or a panic. *)

From stdpp Require Import base tactics numbers list gmap.
From Stdlib Require Import ZArith.
From S2P Require Import Prelude Sched.
#[local] Open Scope Z_scope.

(** ** The interface to wait queues *)

Inductive result (K A : Type) :=
| Done (a : A) (k : K)
| Wait (k : K).
#[global] Arguments Done {K A} _ _.
#[global] Arguments Wait {K A} _.

Class WaitOps (K : Type) := {
  get_current_thread : K → nat → option nat;
  kill_pending : K → nat → bool;
  set_thread_interruptable : K → nat → bool → K;
  wq_init : K → nat → K;
  wq_block : K → nat → nat → Z → option (result K Z);
  wq_block_resume : K → nat → Z → option (Z * K);
  wq_wake_one : K → nat → nat → bool → Z → option (Z * K);
  wq_wake_all : K → nat → nat → bool → Z → option (Z * K);
  wq_destroy : K → nat → nat → bool → option (result K ());
  wq_destroy_resume : K → nat → option K
}.

Module Sync.
Section sync.
Context {K : Type} `{WaitOps K}.

(** ** Events *)

Definition EVENT_MAGIC : Z := 0x65766E74.
Definition EVENT_FLAG_AUTOUNSIGNAL : Z := 1.

Record event := mk_event { e_magic : Z; signalled : bool; e_flags : Z; e_wait : nat }.

Definition autounsignal (e : event) : bool := negb (Z.land (e_flags e) EVENT_FLAG_AUTOUNSIGNAL =? 0).
Definition set_signalled (b : bool) (e : event) : event := mk_event (e_magic e) b (e_flags e) (e_wait e).

Definition event_init (k : K) (w : nat) (initial : bool) (fl : Z) : event * K :=
  (mk_event EVENT_MAGIC initial fl w, wq_init k w).

Definition event_destroy (k : K) (c : nat) (e : event) : option (event * result K ()) :=
  ASSERT e_magic e =? EVENT_MAGIC;
  r ← wq_destroy k c (e_wait e) true;
  Some (mk_event 0 false 0 (e_wait e), r).

Definition event_wait_timeout (k : K) (c : nat) (e : event) (timeout : Z) (interruptable : bool)
  : option (event * result K Z) :=
  t ← get_current_thread k c;
  ASSERT e_magic e =? EVENT_MAGIC;
  if interruptable && kill_pending k t then Some (e, Done ERR_INTERRUPTED k) else
  let k1 := set_thread_interruptable k t interruptable in
  if signalled e then
    Some (if autounsignal e then set_signalled false e else e,
          Done NO_ERROR (set_thread_interruptable k1 t false))
  else
    r ← wq_block k1 c (e_wait e) timeout;
    Some (e, match r with
             | Done ret k2 => Done ret (set_thread_interruptable k2 t false)
             | Wait k2 => Wait k2
             end).

Definition event_wait_resume (k : K) (t : nat) (timeout : Z) : option (Z * K) :=
  '(ret, k1) ← wq_block_resume k t timeout;
  Some (ret, set_thread_interruptable k1 t false).

Definition event_signal_etc (k : K) (c : nat) (e : event) (reschedule : bool) (wait_result : Z)
  : option (Z * event * K) :=
  ASSERT e_magic e =? EVENT_MAGIC;
  if signalled e then Some (0, e, k) else
  if autounsignal e then
    '(n, k1) ← wq_wake_one k c (e_wait e) reschedule wait_result;
    Some (n, if n <=? 0 then set_signalled true e else e, k1)
  else
    '(n, k1) ← wq_wake_all k c (e_wait e) reschedule wait_result;
    Some (n, set_signalled true e, k1).

Definition event_signal (k : K) (c : nat) (e : event) (reschedule : bool) : option (Z * event * K) :=
  event_signal_etc k c e reschedule NO_ERROR.

Definition event_unsignal (e : event) : option (Z * event) :=
  ASSERT e_magic e =? EVENT_MAGIC;
  Some (NO_ERROR, set_signalled false e).

(** ** Mutexes *)

Definition MUTEX_MAGIC : Z := 0x6D757478.

Record mutex := mk_mutex { m_magic : Z; holder : option nat; m_count : Z; m_wait : nat }.

Definition mutex_init (k : K) (w : nat) : mutex * K := (mk_mutex MUTEX_MAGIC None 0 w, wq_init k w).

Definition mutex_destroy (k : K) (c : nat) (m : mutex) : option (mutex * result K ()) :=
  ASSERT m_magic m =? MUTEX_MAGIC;
  t ← get_current_thread k c;
  ASSERT bool_decide (holder m = None) || bool_decide (holder m = Some t);
  r ← wq_destroy k c (m_wait m) true;
  Some (mk_mutex 0 (holder m) 0 (m_wait m), r).

Definition set_holder (m : mutex) (h : option nat) : mutex := mk_mutex (m_magic m) h (m_count m) (m_wait m).
Definition add_count (m : mutex) (d : Z) : mutex := mk_mutex (m_magic m) (holder m) (m_count m + d) (m_wait m).

(** What is done with the status of the wait. *)
Definition acquire_finish (m : mutex) (t : nat) (ret : Z) : Z * mutex :=
  if ret <? NO_ERROR then (ret, if ret =? ERR_TIMED_OUT then add_count m (-1) else m)
  else (NO_ERROR, set_holder m (Some t)).

Definition mutex_acquire_timeout_internal (k : K) (c : nat) (m : mutex) (timeout : Z)
  : option (mutex * result K Z) :=
  t ← get_current_thread k c;
  let m1 := add_count m 1 in
  if m_count m1 >? 1 then
    r ← wq_block k c (m_wait m1) timeout;
    Some (match r with
          | Done ret k1 => let '(ret', m2) := acquire_finish m1 t ret in (m2, Done ret' k1)
          | Wait k1 => (m1, Wait k1)
          end)
  else Some (set_holder m1 (Some t), Done NO_ERROR k).

Definition mutex_acquire_resume (k : K) (m : mutex) (t : nat) (timeout : Z) : option (Z * mutex * K) :=
  '(ret, k1) ← wq_block_resume k t timeout;
  let '(ret', m1) := acquire_finish m t ret in
  Some (ret', m1, k1).

Definition mutex_acquire_timeout (k : K) (c : nat) (m : mutex) (timeout : Z) : option (mutex * result K Z) :=
  ASSERT m_magic m =? MUTEX_MAGIC;
  t ← get_current_thread k c;
  ASSERT negb (bool_decide (holder m = Some t));
  mutex_acquire_timeout_internal k c m timeout.

Definition mutex_release_internal (k : K) (c : nat) (m : mutex) (reschedule : bool) : option (mutex * K) :=
  let m1 := add_count (set_holder m None) (-1) in
  if m_count m1 >=? 1 then
    '(_, k1) ← wq_wake_one k c (m_wait m1) reschedule NO_ERROR;
    Some (m1, k1)
  else Some (m1, k).

Definition mutex_release (k : K) (c : nat) (m : mutex) : option (Z * mutex * K) :=
  ASSERT m_magic m =? MUTEX_MAGIC;
  t ← get_current_thread k c;
  ASSERT bool_decide (holder m = Some t);
  '(m1, k1) ← mutex_release_internal k c m true;
  Some (NO_ERROR, m1, k1).

(** ** Semaphores *)

Record semaphore := mk_sem { s_count : Z; s_wait : nat }.

Definition sem_init (k : K) (w : nat) (value : Z) : semaphore * K := (mk_sem value w, wq_init k w).

Definition sem_destroy (k : K) (c : nat) (s : semaphore) : option (semaphore * result K ()) :=
  r ← wq_destroy k c (s_wait s) true;
  Some (mk_sem 0 (s_wait s), r).

Definition sem_post (k : K) (c : nat) (s : semaphore) (resched : bool) : option (Z * semaphore * K) :=
  let s1 := mk_sem (s_count s + 1) (s_wait s) in
  if s_count s1 <=? 0 then
    '(n, k1) ← wq_wake_one k c (s_wait s1) resched NO_ERROR; Some (n, s1, k1)
  else Some (0, s1, k).

Definition sem_wait (k : K) (c : nat) (s : semaphore) : option (semaphore * result K Z) :=
  let s1 := mk_sem (s_count s - 1) (s_wait s) in
  if s_count s1 <? 0 then r ← wq_block k c (s_wait s1) INFINITE_TIME; Some (s1, r)
  else Some (s1, Done NO_ERROR k).

Definition sem_wait_resume (k : K) (t : nat) : option (Z * K) := wq_block_resume k t INFINITE_TIME.

Definition sem_trywait (s : semaphore) : Z * semaphore :=
  if s_count s <=? 0 then (ERR_NOT_READY, s) else (NO_ERROR, mk_sem (s_count s - 1) (s_wait s)).

Definition timedwait_finish (s : semaphore) (ret : Z) : semaphore :=
  if (ret <? NO_ERROR) && (ret =? ERR_TIMED_OUT) then mk_sem (s_count s + 1) (s_wait s) else s.

Definition sem_timedwait (k : K) (c : nat) (s : semaphore) (timeout : Z) : option (semaphore * result K Z) :=
  let s1 := mk_sem (s_count s - 1) (s_wait s) in
  if s_count s1 <? 0 then
    r ← wq_block k c (s_wait s1) timeout;
    Some (match r with Done ret k1 => (timedwait_finish s1 ret, Done ret k1) | Wait k1 => (s1, Wait k1) end)
  else Some (s1, Done NO_ERROR k).

Definition sem_timedwait_resume (k : K) (s : semaphore) (t : nat) (timeout : Z) : option (Z * semaphore * K) :=
  '(ret, k1) ← wq_block_resume k t timeout;
  Some (ret, timedwait_finish s ret, k1).

(** ** Condition variables *)

Definition COND_MAGIC : Z := 0x636F6E64.

Record cond := mk_cond { c_magic : Z; c_wait : nat }.

Definition cond_init (k : K) (w : nat) : cond * K := (mk_cond COND_MAGIC w, wq_init k w).

Definition cond_destroy (k : K) (c : nat) (cv : cond) : option (cond * result K ()) :=
  ASSERT c_magic cv =? COND_MAGIC;
  r ← wq_destroy k c (c_wait cv) true;
  Some (mk_cond 0 (c_wait cv), r).

(** The mutex is taken again after the wait; the result of that is not looked at. *)
Definition cond_reacquire (k : K) (c : nat) (m : mutex) (ret : Z) : option (mutex * result K Z) :=
  '(m1, r) ← mutex_acquire_timeout_internal k c m INFINITE_TIME;
  Some (m1, match r with Done _ k1 => Done ret k1 | Wait k1 => Wait k1 end).

Definition cond_wait_timeout (k : K) (c : nat) (cv : cond) (m : mutex) (timeout : Z)
  : option (mutex * result K Z) :=
  ASSERT (c_magic cv =? COND_MAGIC) && (m_magic m =? MUTEX_MAGIC);
  '(m1, k1) ← mutex_release_internal k c m false;
  r ← wq_block k1 c (c_wait cv) timeout;
  match r with
  | Done ret k2 => cond_reacquire k2 c m1 ret
  | Wait k2 => Some (m1, Wait k2)
  end.

(** After the wait on the condition variable ... *)
Definition cond_wait_resume (k : K) (c : nat) (m : mutex) (t : nat) (timeout : Z) : option (mutex * result K Z) :=
  '(ret, k1) ← wq_block_resume k t timeout;
  cond_reacquire k1 c m ret.
(** ... and after the wait for the mutex, with the status of the first wait. *)
Definition cond_reacquire_resume (k : K) (m : mutex) (t : nat) (ret : Z) : option (Z * mutex * K) :=
  '(_, m1, k1) ← mutex_acquire_resume k m t INFINITE_TIME;
  Some (ret, m1, k1).

Definition cond_signal (k : K) (c : nat) (cv : cond) : option K :=
  ASSERT c_magic cv =? COND_MAGIC;
  '(_, k1) ← wq_wake_one k c (c_wait cv) true NO_ERROR;
  Some k1.

Definition cond_broadcast (k : K) (c : nat) (cv : cond) : option K :=
  ASSERT c_magic cv =? COND_MAGIC;
  '(_, k1) ← wq_wake_all k c (c_wait cv) true NO_ERROR;
  Some k1.

End sync.
End Sync.

(** ** The scheduler as the implementation of the interface *)

Definition of_outcome {A} (o : Sched.outcome A) : result Sched.kstate A :=
  match o with Sched.Ret a k => Done a k | Sched.Blocked k => Wait k end.

#[global] Instance sched_wait_ops : WaitOps Sched.kstate := {|
  get_current_thread k c := Sched.current k !! c;
  kill_pending k t :=
    match Sched.threads k !! t with
    | Some r => Sched.flag (Sched.signals r) Sched.THREAD_SIGNAL_KILL
    | None => false
    end;
  set_thread_interruptable k t b := Sched.upd k t (Sched.set_interruptable b);
  wq_init := Sched.wait_queue_init;
  wq_block k c w timeout := option_map of_outcome (Sched.wait_queue_block k c w timeout);
  wq_block_resume := Sched.wait_queue_block_resume;
  wq_wake_one := Sched.wait_queue_wake_one;
  wq_wake_all := Sched.wait_queue_wake_all;
  wq_destroy k c w b := option_map of_outcome (Sched.wait_queue_destroy k c w b);
  wq_destroy_resume := Sched.wait_queue_destroy_resume
|}.
