(* ===== verification/SyncFacts.v ===== *)
(** * Correctness of the synchronisation primitives

    The classes [WaitView] and [WaitSpec] state what the primitives of [Sync]
    rely on: who waits on a queue, the status a woken thread gets, and how
    blocking and waking change them.  The theorems about mutexes, semaphores,
    events and condition variables are proved against [WaitSpec]; the instance
    for the scheduler follows from the lemmas of [SchedFacts]. *)

From stdpp Require Import base tactics numbers list gmap sets.
From Stdlib Require Import ZArith Lia.
From S2P Require Import Prelude Sched SchedFacts Sync.
#[local] Open Scope Z_scope.
#[local] Set Warnings "-clear-no-such-hyp".

(** ** What the wait queues promise *)

Class WaitView (K : Type) := {
  kok : K → Prop;
  kwq : K → nat → Prop;
  kwaiters : K → nat → list nat;
  kstatus : K → nat → Z;
  krunning : K → nat → nat → Prop
}.

(** The queue [w] is now [l], the statuses are [st]; nothing else moved. *)
Definition changed `{WaitView K} (k : K) (w : nat) (l : list nat) (st : nat → Z) (k' : K) : Prop :=
  kok k' ∧ (∀ w', kwaiters k' w' = if decide (w' = w) then l else kwaiters k w') ∧
  (∀ x, kstatus k' x = st x) ∧ (∀ w', kwq k w' → kwq k' w').

Definition with_status `{WaitView K} (k : K) (t : nat) (e : Z) (x : nat) : Z :=
  if decide (x = t) then e else kstatus k x.

Class WaitSpec (K : Type) `{WaitOps K, WaitView K} := {
  running_current k c t : krunning k c t → get_current_thread k c = Some t;
  running_not_waiting k c t w : kok k → krunning k c t → t ∉ kwaiters k w;
  block_zero k c t w : kok k → kwq k w → krunning k c t → wq_block k c w 0 = Some (Done ERR_TIMED_OUT k);
  block_law k c t w timeout : kok k → kwq k w → krunning k c t → timeout ≠ 0 →
    ∃ k', wq_block k c w timeout = Some (Wait k') ∧
      changed k w (kwaiters k w ++ [t]) (with_status k t NO_ERROR) k';
  resume_law k c t w timeout : kok k → krunning k c t →
    ∃ k', wq_block_resume k t timeout = Some (kstatus k t, k') ∧ changed k w (kwaiters k w) (kstatus k) k';
  resume_running k c t x timeout ret k' : krunning k c t → wq_block_resume k x timeout = Some (ret, k') → krunning k' c t;
  wake_one_law k c w b err : kok k → kwq k w → (b = true → ∃ t, krunning k c t) →
    match kwaiters k w with
    | [] => wq_wake_one k c w b err = Some (0, k)
    | t :: l => ∃ k', wq_wake_one k c w b err = Some (1, k') ∧ changed k w l (with_status k t err) k'
    end;
  wake_all_law k c w b err : kok k → kwq k w → (b = true → ∃ t, krunning k c t) →
    ∃ k', wq_wake_all k c w b err = Some (Z.of_nat (length (kwaiters k w)), k') ∧
      changed k w [] (λ x, if decide (x ∈ kwaiters k w) then err else kstatus k x) k';
  running_wake k c t u w err k' : krunning k c t → wq_wake_one k c w false err = Some (u, k') → krunning k' c t;
  interruptable_law k t b w : kok k → changed k w (kwaiters k w) (kstatus k) (set_thread_interruptable k t b);
  interruptable_running k c t x b : krunning k c t → krunning (set_thread_interruptable k x b) c t
}.

Module SyncFacts.
Import Sync.

Section facts.
Context {K : Type} `{WaitSpec K}.

Lemma changed_ok k w l st k' : changed k w l st k' → kok k'.
Proof. by intros (? & _). Qed.
Lemma changed_waiters k w l st k' : changed k w l st k' → kwaiters k' w = l.
Proof. intros (_ & Hw & _). by rewrite Hw, decide_True. Qed.
Lemma changed_other k w l st k' w' : changed k w l st k' → w' ≠ w → kwaiters k' w' = kwaiters k w'.
Proof. intros (_ & Hw & _) ?. by rewrite Hw, decide_False. Qed.
Lemma changed_status k w l st k' x : changed k w l st k' → kstatus k' x = st x.
Proof. intros (_ & _ & Hs & _). apply Hs. Qed.
Lemma changed_wq k w l st k' w' : changed k w l st k' → kwq k w' → kwq k' w'.
Proof. intros (_ & _ & _ & Hq). apply Hq. Qed.

(** ** Mutexes *)

(** A mutex among threads: [pend] are the calls of [mutex_acquire_timeout]
    that are blocked, with their timeouts, [own] the threads whose acquire
    returned [NO_ERROR] and that have not released since. *)
Record mcfg := mk_mcfg { mk_k : K; mtx : mutex; pend : gmap nat Z; own : gset nat }.

Definition gain (t : nat) (ret : Z) (o : gset nat) : gset nat := if ret =? NO_ERROR then o ∪ {[t]} else o.

(** One step: a call or the rest of a call by a running thread, a timeout, or
    anything else the kernel does that leaves this queue's waiters and the
    statuses of the blocked calls alone.  [P] says which timeouts are used. *)
Inductive mstep (P : Z → Prop) (s : mcfg) : mcfg → Prop :=
| ms_done c t timeout ret m' k' :
    krunning (mk_k s) c t → pend s !! t = None → P timeout →
    mutex_acquire_timeout (mk_k s) c (mtx s) timeout = Some (m', Done ret k') →
    mstep P s (mk_mcfg k' m' (pend s) (gain t ret (own s)))
| ms_wait c t timeout m' k' :
    krunning (mk_k s) c t → pend s !! t = None → P timeout →
    mutex_acquire_timeout (mk_k s) c (mtx s) timeout = Some (m', Wait k') →
    mstep P s (mk_mcfg k' m' (<[t := timeout]> (pend s)) (own s))
| ms_resume c t timeout ret m' k' :
    krunning (mk_k s) c t → pend s !! t = Some timeout →
    mutex_acquire_resume (mk_k s) (mtx s) t timeout = Some (ret, m', k') →
    mstep P s (mk_mcfg k' m' (delete t (pend s)) (gain t ret (own s)))
| ms_release c t m' k' :
    krunning (mk_k s) c t → pend s !! t = None →
    mutex_release (mk_k s) c (mtx s) = Some (NO_ERROR, m', k') →
    mstep P s (mk_mcfg k' m' (pend s) (own s ∖ {[t]}))
| ms_timeout t timeout l1 l2 k' :
    pend s !! t = Some timeout → timeout ≠ INFINITE_TIME → kwaiters (mk_k s) (m_wait (mtx s)) = l1 ++ t :: l2 →
    changed (mk_k s) (m_wait (mtx s)) (l1 ++ l2) (with_status (mk_k s) t ERR_TIMED_OUT) k' →
    mstep P s (mk_mcfg k' (mtx s) (pend s) (own s))
| ms_env k' :
    kok k' → kwq k' (m_wait (mtx s)) → kwaiters k' (m_wait (mtx s)) = kwaiters (mk_k s) (m_wait (mtx s)) →
    (∀ x, is_Some (pend s !! x) → kstatus k' x = kstatus (mk_k s) x) →
    mstep P s (mk_mcfg k' (mtx s) (pend s) (own s)).

Inductive mreach (P : Z → Prop) : mcfg → Prop :=
| mreach_init k0 w : let '(m, k) := mutex_init k0 w in
    kok k → kwq k w → kwaiters k w = [] → mreach P (mk_mcfg k m ∅ ∅)
| mreach_step s s' : mreach P s → mstep P s s' → mreach P s'.

(** The blocked call of [t] was woken by a release and has not run yet. *)
Definition handed (s : mcfg) (t : nat) : Prop :=
  is_Some (pend s !! t) ∧ t ∉ kwaiters (mk_k s) (m_wait (mtx s)) ∧ kstatus (mk_k s) t = NO_ERROR.

Record minv (s : mcfg) : Prop := {
  mi_ok : kok (mk_k s);
  mi_wq : kwq (mk_k s) (m_wait (mtx s));
  mi_nodup : NoDup (kwaiters (mk_k s) (m_wait (mtx s)));
  mi_magic : m_magic (mtx s) = MUTEX_MAGIC;
  mi_own : own s = match holder (mtx s) with Some t => {[t]} | None => ∅ end;
  mi_count : m_count (mtx s) = Z.of_nat (size (own s)) + Z.of_nat (size (pend s));
  mi_wait x : x ∈ kwaiters (mk_k s) (m_wait (mtx s)) → is_Some (pend s !! x);
  mi_woken x timeout : pend s !! x = Some timeout → x ∉ kwaiters (mk_k s) (m_wait (mtx s)) →
    kstatus (mk_k s) x = NO_ERROR ∨ (kstatus (mk_k s) x = ERR_TIMED_OUT ∧ timeout ≠ INFINITE_TIME);
  mi_handed_free x : handed s x → own s = ∅;
  mi_handed_one x y : handed s x → handed s y → x = y;
  mi_disj x : x ∈ own s → pend s !! x = None
}.

(** What an acquire comes to. *)
Lemma acquire_cases s c t timeout :
  minv s → krunning (mk_k s) c t → t ∉ own s →
  let m1 := add_count (mtx s) 1 in
  let w := m_wait (mtx s) in
  (own s = ∅ ∧ pend s = ∅ ∧
     mutex_acquire_timeout (mk_k s) c (mtx s) timeout = Some (set_holder m1 (Some t), Done NO_ERROR (mk_k s))) ∨
  (m_count (mtx s) ≠ 0 ∧
   ((timeout = 0 ∧ mutex_acquire_timeout (mk_k s) c (mtx s) timeout = Some (add_count m1 (-1), Done ERR_TIMED_OUT (mk_k s))) ∨
    (timeout ≠ 0 ∧ ∃ k', mutex_acquire_timeout (mk_k s) c (mtx s) timeout = Some (m1, Wait k') ∧
       changed (mk_k s) w (kwaiters (mk_k s) w ++ [t]) (with_status (mk_k s) t NO_ERROR) k'))).
Proof.
  intros Hi Hrun Hno m1 w. unfold mutex_acquire_timeout. rewrite (mi_magic s Hi), Z.eqb_refl.
  rewrite (running_current _ _ _ Hrun). cbn [mbind option_bind].
  rewrite bool_decide_false by (intros E; rewrite (mi_own s Hi), E in Hno; set_solver). cbn [negb].
  unfold mutex_acquire_timeout_internal. rewrite (running_current _ _ _ Hrun). cbn [mbind option_bind].
  pose proof (mi_count s Hi) as Hct. fold m1.
  assert (Em1 : m_count m1 = m_count (mtx s) + 1) by done. rewrite Em1, Z.gtb_ltb.
  destruct (1 <? m_count (mtx s) + 1) eqn:E; zb.
  - right. split; [lia|]. change (m_wait m1) with w. destruct (decide (timeout = 0)) as [->|Hne]; [left|right]; (split; [done|]).
    + unfold w. rewrite (block_zero _ c t) by (apply Hi || done). cbn [mbind option_bind]. done.
    + destruct (block_law (mk_k s) c t w timeout) as (k' & -> & Hch); [apply Hi|apply Hi|done|done|].
      cbn [mbind option_bind]. eauto.
  - left. split_and!; [| |done].
    + apply leibniz_equiv, size_empty_iff. lia.
    + apply map_size_empty_iff. lia.
Qed.

Lemma minv_init k w : kok k → kwq k w → kwaiters k w = [] → minv (mk_mcfg k (mk_mutex MUTEX_MAGIC None 0 w) ∅ ∅).
Proof.
  intros Hk Hw Hl. split; simpl; rewrite ?Hl; try done.
  - constructor.
  - intros x. set_solver.
  - intros x y ([? Hx] & _). simpl in Hx. by rewrite lookup_empty in Hx.
Qed.

Lemma own_singleton s t : minv s → t ∈ own s → own s = {[t]} ∧ holder (mtx s) = Some t.
Proof.
  intros Hi Ht. rewrite (mi_own s Hi) in Ht |- *. destruct (holder (mtx s)); [|set_solver].
  apply elem_of_singleton in Ht as ->. done.
Qed.

(** The caller of acquire is not the owner: the code panics on that. *)
Lemma acquire_not_owner s c t timeout r :
  minv s → krunning (mk_k s) c t → mutex_acquire_timeout (mk_k s) c (mtx s) timeout = Some r → t ∉ own s.
Proof.
  intros Hi Hrun Hacq Ht. destruct (own_singleton s t Hi Ht) as [_ Hh]. revert Hacq.
  unfold mutex_acquire_timeout. rewrite (mi_magic s Hi), Z.eqb_refl, (running_current _ _ _ Hrun).
  cbn [mbind option_bind]. by rewrite bool_decide_true.
Qed.

Lemma minv_done s c t timeout ret m' k' :
  minv s → krunning (mk_k s) c t → pend s !! t = None →
  mutex_acquire_timeout (mk_k s) c (mtx s) timeout = Some (m', Done ret k') →
  minv (mk_mcfg k' m' (pend s) (gain t ret (own s))).
Proof.
  intros Hi Hrun Hp Hacq. pose proof (acquire_not_owner s c t timeout _ Hi Hrun Hacq) as Hno.
  destruct (acquire_cases s c t timeout Hi Hrun Hno)
    as [(Ho & Hpe & E)|(_ & [(_ & E)|(_ & k2 & E & _)])]; rewrite Hacq in E; simplify_eq.
  - unfold gain. rewrite Z.eqb_refl. pose proof (mi_count s Hi) as Hct.
    assert (Hnh : ∀ x, ¬ is_Some ((∅ : gmap nat Z) !! x)) by (intros x [? Hx]; by rewrite lookup_empty in Hx).
    split; simpl; try by apply Hi.
    + rewrite Ho. set_solver.
    + rewrite Ho, union_empty_l_L, size_singleton, Hct, Ho, size_empty. lia.
    + intros x (Hx & _). simpl in Hx. rewrite Hpe in Hx. by destruct (Hnh x).
    + intros x _. by rewrite Hpe.
  - unfold gain. simpl. split; simpl; try by apply Hi. rewrite (mi_count s Hi). lia.
Qed.

Lemma minv_wait s c t timeout m' k' :
  minv s → krunning (mk_k s) c t → pend s !! t = None →
  mutex_acquire_timeout (mk_k s) c (mtx s) timeout = Some (m', Wait k') →
  minv (mk_mcfg k' m' (<[t := timeout]> (pend s)) (own s)).
Proof.
  intros Hi Hrun Hp Hacq. pose proof (acquire_not_owner s c t timeout _ Hi Hrun Hacq) as Hno.
  destruct (acquire_cases s c t timeout Hi Hrun Hno)
    as [(_ & _ & E)|(_ & [(_ & E)|(_ & k2 & E & Hch)])]; rewrite Hacq in E; simplify_eq.
  pose proof (running_not_waiting _ _ _ (m_wait (mtx s)) (mi_ok s Hi) Hrun) as Hnw.
  pose proof (changed_waiters _ _ _ _ _ Hch) as Ew.
  assert (Hnt : ∀ x, x ≠ t → kstatus k2 x = kstatus (mk_k s) x).
  { intros x Hx. rewrite (changed_status _ _ _ _ _ x Hch). unfold with_status. by rewrite decide_False. }
  assert (Hh : ∀ x, handed (mk_mcfg k2 (add_count (mtx s) 1) (<[t := timeout]> (pend s)) (own s)) x → handed s x).
  { intros x (Hx & Hxw & Hxs). simpl in *. rewrite Ew in Hxw.
    assert (x ≠ t) by set_solver. rewrite lookup_insert_ne in Hx by done.
    split_and!; [done|set_solver|by rewrite <- Hnt]. }
  split; simpl; rewrite ?Ew.
  - exact (changed_ok _ _ _ _ _ Hch).
  - eapply (changed_wq _ _ _ _ _ _ Hch), Hi.
  - apply NoDup_app. split_and!; [apply Hi|set_solver|apply NoDup_singleton].
  - apply Hi.
  - apply Hi.
  - rewrite map_size_insert_None, (mi_count s Hi) by done. lia.
  - intros x Hx. destruct (decide (x = t)) as [->|Hne]; [rewrite lookup_insert_eq; eauto|].
    rewrite lookup_insert_ne by done. apply Hi. set_solver.
  - intros x tm Hx Hxw. assert (x ≠ t) by set_solver. rewrite lookup_insert_ne in Hx by done.
    rewrite Hnt by done. apply (mi_woken s Hi); [done|set_solver].
  - intros x Hx. by eapply (mi_handed_free s Hi), Hh.
  - intros x y Hx Hy. apply (mi_handed_one s Hi); auto.
  - intros x Hx. rewrite lookup_insert_ne by set_solver. by apply Hi.
Qed.

Lemma minv_resume s c t timeout ret m' k' :
  minv s → krunning (mk_k s) c t → pend s !! t = Some timeout →
  mutex_acquire_resume (mk_k s) (mtx s) t timeout = Some (ret, m', k') →
  minv (mk_mcfg k' m' (delete t (pend s)) (gain t ret (own s))).
Proof.
  intros Hi Hrun Hp. pose proof (running_not_waiting _ _ _ (m_wait (mtx s)) (mi_ok s Hi) Hrun) as Hnw.
  destruct (resume_law (mk_k s) c t (m_wait (mtx s)) timeout (mi_ok s Hi) Hrun) as (k2 & E & Hch).
  unfold mutex_acquire_resume. rewrite E. cbn [mbind option_bind].
  pose proof (changed_waiters _ _ _ _ _ Hch) as Ew.
  assert (Est : ∀ x, kstatus k2 x = kstatus (mk_k s) x) by (intros x; apply (changed_status _ _ _ _ _ x Hch)).
  assert (Hsz : Z.of_nat (size (pend s)) = Z.of_nat (size (delete t (pend s))) + 1).
  { rewrite <- (insert_delete_id (pend s) t timeout Hp) at 1. rewrite map_size_insert_None; [lia|apply lookup_delete_eq]. }
  assert (Hto : t ∉ own s) by (intros Hx; apply (mi_disj s Hi) in Hx; congruence).
  assert (Hh : ∀ m o x, m_wait m = m_wait (mtx s) → handed (mk_mcfg k2 m (delete t (pend s)) o) x → x ≠ t ∧ handed s x).
  { intros m o x Em (Hx & Hxw & Hxs). simpl in *. rewrite Em, Ew in Hxw. rewrite Est in Hxs.
    destruct (decide (x = t)) as [->|Hne]; [rewrite lookup_delete_eq in Hx; by destruct Hx|].
    rewrite lookup_delete_ne in Hx by done. by split_and!. }
  unfold acquire_finish.
  destruct (mi_woken s Hi t timeout Hp Hnw) as [Hs|[Hs _]]; rewrite Hs; simpl; intros [= <- <- <-].
  - assert (Hhand : handed s t) by (by split_and!; eauto). pose proof (mi_handed_free s Hi t Hhand) as Ho.
    unfold gain. simpl. split; simpl; rewrite ?Ew; try by apply Hi.
    + exact (changed_ok _ _ _ _ _ Hch).
    + eapply (changed_wq _ _ _ _ _ _ Hch), Hi.
    + rewrite Ho. set_solver.
    + rewrite Ho, union_empty_l_L, size_singleton, (mi_count s Hi), Ho, size_empty, Hsz. lia.
    + intros x Hx. rewrite lookup_delete_ne by set_solver. by apply Hi.
    + intros x tm Hx. rewrite Est. apply lookup_delete_Some in Hx as [_ Hx]. by apply (mi_woken s Hi).
    + intros x Hx. exfalso. apply Hh in Hx as [Hne Hx']; [|done]. apply Hne. by apply (mi_handed_one s Hi).
    + intros x y Hx. exfalso. apply Hh in Hx as [Hne Hx']; [|done]. apply Hne. by apply (mi_handed_one s Hi).
    + intros x Hx. rewrite Ho in Hx. assert (x = t) as -> by set_solver. apply lookup_delete_eq.
  - unfold gain. simpl. split; simpl; rewrite ?Ew; try by apply Hi.
    + exact (changed_ok _ _ _ _ _ Hch).
    + eapply (changed_wq _ _ _ _ _ _ Hch), Hi.
    + rewrite (mi_count s Hi), Hsz. lia.
    + intros x Hx. rewrite lookup_delete_ne by set_solver. by apply Hi.
    + intros x tm Hx. rewrite Est. apply lookup_delete_Some in Hx as [_ Hx]. by apply (mi_woken s Hi).
    + intros x Hx. apply Hh in Hx as [_ Hx']; [|done]. by apply (mi_handed_free s Hi x).
    + intros x y Hx Hy. apply Hh in Hx as [_ Hx'], Hy as [_ Hy']; [|done..].
      by apply (mi_handed_one s Hi).
    + intros x Hx. rewrite lookup_delete_ne; [by apply Hi|]. intros ->. done.
Qed.

(** What a release comes to: the first waiter, if there is one, is woken. *)
Lemma release_cases s c t m' k' :
  minv s → krunning (mk_k s) c t → mutex_release (mk_k s) c (mtx s) = Some (NO_ERROR, m', k') →
  let w := m_wait (mtx s) in
  own s = {[t]} ∧ m' = add_count (set_holder (mtx s) None) (-1) ∧
  ((kwaiters (mk_k s) w = [] ∧ k' = mk_k s) ∨
   ∃ u l, kwaiters (mk_k s) w = u :: l ∧ changed (mk_k s) w l (with_status (mk_k s) u NO_ERROR) k').
Proof.
  intros Hi Hrun Hrel w. revert Hrel. unfold mutex_release. rewrite (mi_magic s Hi), Z.eqb_refl.
  rewrite (running_current _ _ _ Hrun). cbn [mbind option_bind].
  case_bool_decide as Hh; [|done]. pose proof (mi_own s Hi) as Ho. rewrite Hh in Ho.
  unfold mutex_release_internal. set (m1 := add_count (set_holder (mtx s) None) (-1)).
  pose proof (mi_count s Hi) as Hct. rewrite Ho, size_singleton in Hct.
  assert (Ect : m_count m1 = Z.of_nat (size (pend s))) by (simpl; lia).
  rewrite Z.geb_leb. destruct (1 <=? m_count m1) eqn:Ec; zb.
  - change (m_wait m1) with w.
    pose proof (wake_one_law (mk_k s) c w true NO_ERROR (mi_ok s Hi) (mi_wq s Hi) ltac:(eauto)) as Hwake.
    destruct (kwaiters (mk_k s) w) as [|u l].
    + rewrite Hwake. cbn [mbind option_bind]. intros [= <- <-]. eauto.
    + destruct Hwake as (k2 & -> & Hch). cbn [mbind option_bind]. intros [= <- <-]. eauto 8.
  - cbn [mbind option_bind]. intros [= <- <-]. split_and!; [done|done|left; split; [|done]].
    destruct (kwaiters (mk_k s) w) as [|u l] eqn:El; [done|exfalso].
    destruct (mi_wait s Hi u) as [tm Hu]; [fold w; rewrite El; set_solver|].
    assert (pend s = ∅) as E by (apply map_size_empty_iff; lia). by rewrite E, lookup_empty in Hu.
Qed.

Lemma minv_release s c t m' k' :
  minv s → krunning (mk_k s) c t →
  mutex_release (mk_k s) c (mtx s) = Some (NO_ERROR, m', k') →
  minv (mk_mcfg k' m' (pend s) (own s ∖ {[t]})).
Proof.
  intros Hi Hrun Hrel. destruct (release_cases s c t m' k' Hi Hrun Hrel) as (Ho & -> & Hcase).
  set (w := m_wait (mtx s)) in *. set (m1 := add_count (set_holder (mtx s) None) (-1)).
  assert (Hnh : ∀ x, ¬ handed s x).
  { intros x Hx. pose proof (mi_handed_free s Hi x Hx). set_solver. }
  assert (Ect : m_count m1 = Z.of_nat (size (pend s))).
  { pose proof (mi_count s Hi) as Hct. rewrite Ho, size_singleton in Hct. simpl. lia. }
  assert (own s ∖ {[t]} = ∅) as -> by set_solver.
  destruct Hcase as [[El ->]|(u & l & El & Hch)].
  { split; simpl; try (by apply Hi); done. }
  pose proof (changed_waiters _ _ _ _ _ Hch) as Ew.
  pose proof (mi_nodup s Hi) as Hnd. fold w in Hnd. rewrite El in Hnd. apply NoDup_cons in Hnd as [Hul Hnd].
  assert (Hone : ∀ x, handed (mk_mcfg k' m1 (pend s) ∅) x → x = u).
  { intros x (Hx & Hxw & Hxs). simpl in Hx, Hxw, Hxs. fold w in Hxw. rewrite Ew in Hxw.
    destruct (decide (x = u)) as [|Hne]; [done|]. exfalso. apply (Hnh x).
    rewrite (changed_status _ _ _ _ _ x Hch) in Hxs. unfold with_status in Hxs. rewrite decide_False in Hxs by done.
    split_and!; [done|fold w; rewrite El; set_solver|done]. }
  split; simpl; fold w; rewrite ?Ew; try (by apply Hi); try done.
  - exact (changed_ok _ _ _ _ _ Hch).
  - eapply (changed_wq _ _ _ _ _ _ Hch), Hi.
  - intros x Hx. apply (mi_wait s Hi). fold w. rewrite El. set_solver.
  - intros x tm Hx Hxw. rewrite (changed_status _ _ _ _ _ x Hch). unfold with_status.
    case_decide as E; [by left|]. apply (mi_woken s Hi x tm Hx). fold w. rewrite El. set_solver.
  - intros x y Hx Hy. by rewrite (Hone x Hx), (Hone y Hy).
Qed.

Lemma minv_timeout s t timeout l1 l2 k' :
  minv s → pend s !! t = Some timeout → timeout ≠ INFINITE_TIME →
  kwaiters (mk_k s) (m_wait (mtx s)) = l1 ++ t :: l2 →
  changed (mk_k s) (m_wait (mtx s)) (l1 ++ l2) (with_status (mk_k s) t ERR_TIMED_OUT) k' →
  minv (mk_mcfg k' (mtx s) (pend s) (own s)).
Proof.
  intros Hi Hp Hti Hl Hch. pose proof (changed_waiters _ _ _ _ _ Hch) as Ew.
  pose proof (mi_nodup s Hi) as Hnd. rewrite Hl in Hnd.
  assert (Hst : ∀ x, kstatus k' x = if decide (x = t) then ERR_TIMED_OUT else kstatus (mk_k s) x)
    by (intros x; exact (changed_status _ _ _ _ _ x Hch)).
  assert (Hh : ∀ x, handed (mk_mcfg k' (mtx s) (pend s) (own s)) x → handed s x).
  { intros x (Hx & Hxw & Hxs). simpl in *. rewrite Ew in Hxw. rewrite Hst in Hxs. case_decide as E; [done|].
    split_and!; [done|rewrite Hl; set_solver|done]. }
  split; simpl; rewrite ?Ew; try (by apply Hi).
  - exact (changed_ok _ _ _ _ _ Hch).
  - eapply (changed_wq _ _ _ _ _ _ Hch), Hi.
  - apply NoDup_app in Hnd as (? & Hd & Hnd2). apply NoDup_cons in Hnd2 as [? ?].
    apply NoDup_app. split_and!; [done|set_solver|done].
  - intros x Hx. apply (mi_wait s Hi). rewrite Hl. set_solver.
  - intros x tm Hx Hxw. rewrite Hst. case_decide as E; [subst; right; split; [done|congruence]|].
    apply (mi_woken s Hi x tm Hx). rewrite Hl. set_solver.
  - intros x Hx. by eapply (mi_handed_free s Hi), Hh.
  - intros x y Hx Hy. apply (mi_handed_one s Hi); auto.
Qed.

Lemma minv_env s k' :
  minv s → kok k' → kwq k' (m_wait (mtx s)) →
  kwaiters k' (m_wait (mtx s)) = kwaiters (mk_k s) (m_wait (mtx s)) →
  (∀ x, is_Some (pend s !! x) → kstatus k' x = kstatus (mk_k s) x) →
  minv (mk_mcfg k' (mtx s) (pend s) (own s)).
Proof.
  intros Hi Hk Hw Ew Est.
  assert (Hh : ∀ x, handed (mk_mcfg k' (mtx s) (pend s) (own s)) x → handed s x).
  { intros x (Hx & Hxw & Hxs). simpl in *. rewrite Ew in Hxw. rewrite Est in Hxs by done. by split_and!. }
  split; simpl; rewrite ?Ew; try (by apply Hi); try done.
  - intros x tm Hx Hxw. rewrite Est by eauto. by apply (mi_woken s Hi).
  - intros x Hx. by eapply (mi_handed_free s Hi), Hh.
  - intros x y Hx Hy. apply (mi_handed_one s Hi); auto.
Qed.

Lemma mstep_minv P s s' : minv s → mstep P s s' → minv s'.
Proof.
  intros Hi [c t timeout ret m' k' Hrun Hp _ E|c t timeout m' k' Hrun Hp _ E|c t timeout ret m' k' Hrun Hp E
            |c t m' k' Hrun Hp E|t timeout l1 l2 k' Hp Ht Hl Hch|k' Hk Hw Ew Est].
  - by eapply minv_done.
  - by eapply minv_wait.
  - by eapply minv_resume.
  - by eapply minv_release.
  - by eapply minv_timeout.
  - by eapply minv_env.
Qed.

Lemma mreach_minv P s : mreach P s → minv s.
Proof. induction 1 as [k0 w|s s' _ IH Hst]; [by apply minv_init|by eapply mstep_minv]. Qed.

(** *** Waiting without timeouts *)

Definition forever (timeout : Z) : Prop := timeout = INFINITE_TIME ∨ timeout = 0.

Definition all_forever (s : mcfg) : Prop := ∀ x tm, pend s !! x = Some tm → tm = INFINITE_TIME.

(** A waiter is behind an owner or a thread the mutex was handed to. *)
Definition served (s : mcfg) : Prop := own s = ∅ → (∀ x, ¬ handed s x) → pend s = ∅.

(** A blocked call that is not on the queue was handed the mutex. *)
Lemma forever_handed s x :
  minv s → all_forever s → is_Some (pend s !! x) → x ∉ kwaiters (mk_k s) (m_wait (mtx s)) → handed s x.
Proof.
  intros Hi Ha [tm Hx] Hn. destruct (mi_woken s Hi x tm Hx Hn) as [Hs|[_ Hf]]; [by split_and!; eauto|].
  by rewrite (Ha _ _ Hx) in Hf.
Qed.

Lemma served_done s c t timeout ret m' k' :
  minv s → served s → krunning (mk_k s) c t →
  mutex_acquire_timeout (mk_k s) c (mtx s) timeout = Some (m', Done ret k') →
  served (mk_mcfg k' m' (pend s) (gain t ret (own s))).
Proof.
  intros Hi Hsv Hrun E. pose proof (acquire_not_owner s c t timeout _ Hi Hrun E) as Hno.
  destruct (acquire_cases s c t timeout Hi Hrun Hno)
    as [(Ho & Hpe & E')|(_ & [(_ & E')|(_ & k2 & E' & _)])]; rewrite E in E'; simplify_eq.
  - by intros ? ?.
  - unfold gain. simpl. intros ? Hnh. apply Hsv; [done|]. intros x Hx. by apply (Hnh x).
Qed.

Lemma served_wait s c t timeout m' k' :
  minv s → served s → krunning (mk_k s) c t → pend s !! t = None →
  mutex_acquire_timeout (mk_k s) c (mtx s) timeout = Some (m', Wait k') →
  served (mk_mcfg k' m' (<[t := timeout]> (pend s)) (own s)).
Proof.
  intros Hi Hsv Hrun Hp E. pose proof (acquire_not_owner s c t timeout _ Hi Hrun E) as Hno.
  destruct (acquire_cases s c t timeout Hi Hrun Hno)
    as [(Ho & Hpe & E')|(Hct & [(_ & E')|(Hnz & k2 & E' & Hch)])]; rewrite E in E'; simplify_eq.
  intros Ho Hnh. exfalso. simpl in Ho. apply Hct. rewrite (mi_count s Hi), Ho, (Hsv Ho); [done|].
  intros x (Hx & Hxw & Hxs). assert (x ≠ t) by (intros ->; rewrite Hp in Hx; by destruct Hx).
  apply (Hnh x). split_and!; simpl.
  - by rewrite lookup_insert_ne.
  - rewrite (changed_waiters _ _ _ _ _ Hch). set_solver.
  - rewrite (changed_status _ _ _ _ _ x Hch). unfold with_status. by case_decide.
Qed.

Lemma served_resume s c t timeout ret m' k' :
  minv s → all_forever s → krunning (mk_k s) c t → pend s !! t = Some timeout →
  mutex_acquire_resume (mk_k s) (mtx s) t timeout = Some (ret, m', k') →
  served (mk_mcfg k' m' (delete t (pend s)) (gain t ret (own s))).
Proof.
  intros Hi Ha Hrun Hp E.
  pose proof (running_not_waiting _ _ _ (m_wait (mtx s)) (mi_ok s Hi) Hrun) as Hnw.
  destruct (forever_handed s t Hi Ha ltac:(eauto) Hnw) as (_ & _ & Hs).
  destruct (resume_law (mk_k s) c t (m_wait (mtx s)) timeout (mi_ok s Hi) Hrun) as (k2 & E2 & _).
  unfold mutex_acquire_resume in E. rewrite E2 in E. cbn [mbind option_bind] in E. unfold acquire_finish in E.
  rewrite Hs in E. simpl in E. injection E as <- <- <-. intros Ho. exfalso. unfold gain in Ho. simpl in Ho. set_solver.
Qed.

Lemma served_release s c t m' k' :
  minv s → all_forever s → krunning (mk_k s) c t →
  mutex_release (mk_k s) c (mtx s) = Some (NO_ERROR, m', k') →
  served (mk_mcfg k' m' (pend s) (own s ∖ {[t]})).
Proof.
  intros Hi Ha Hrun E _ Hnh. destruct (release_cases s c t m' k' Hi Hrun E) as (Ho & -> & Hcase).
  destruct Hcase as [[El _]|(u & l & El & Hch)].
  - simpl. apply map_empty. intros x. destruct (pend s !! x) eqn:Ex; [|done].
    pose proof (forever_handed s x Hi Ha ltac:(eauto) ltac:(rewrite El; set_solver)) as Hh.
    pose proof (mi_handed_free s Hi x Hh). set_solver.
  - exfalso. apply (Hnh u). split_and!; simpl.
    + apply (mi_wait s Hi). rewrite El. set_solver.
    + rewrite (changed_waiters _ _ _ _ _ Hch). pose proof (mi_nodup s Hi) as Hnd. rewrite El in Hnd.
      by apply NoDup_cons in Hnd as [? _].
    + rewrite (changed_status _ _ _ _ _ u Hch). unfold with_status. by rewrite decide_True.
Qed.

Lemma forever_step s s' : minv s → all_forever s → served s → mstep forever s s' → all_forever s' ∧ served s'.
Proof.
  intros Hi Ha Hsv [c t timeout ret m' k' Hrun Hp HP E|c t timeout m' k' Hrun Hp HP E|c t timeout ret m' k' Hrun Hp E
            |c t m' k' Hrun Hp E|t timeout l1 l2 k' Hp Ht Hl Hch|k' Hk Hw Ew Est].
  - split; [done|by eapply served_done].
  - split; [|by eapply served_wait].
    intros x tm. simpl. destruct (decide (x = t)) as [->|];
      [rewrite lookup_insert_eq|rewrite lookup_insert_ne by done; apply Ha].
    intros [= <-]. destruct HP as [->| ->]; [done|]. exfalso.
    pose proof (acquire_not_owner s c t 0 _ Hi Hrun E) as Hno.
    destruct (acquire_cases s c t 0 Hi Hrun Hno)
      as [(_ & _ & E')|(_ & [(_ & E')|(Hnz & _)])]; congruence.
  - split; [|by eapply served_resume].
    intros x tm. simpl. rewrite lookup_delete_Some. intros [_ Hx]. by eapply Ha.
  - split; [done|by eapply served_release].
  - by rewrite (Ha _ _ Hp) in Ht.
  - split; [done|]. intros Ho Hnh. apply Hsv; [done|]. intros x (Hx & Hxw & Hxs). apply (Hnh x).
    split_and!; simpl; [done|by rewrite Ew|by rewrite Est].
Qed.

Lemma mreach_served s : mreach forever s → all_forever s ∧ served s.
Proof.
  induction 1 as [k0 w|s s' Hr [Ha Hs] Hst].
  - split; [by intros x tm|by intros ? ?].
  - eapply forever_step; eauto using mreach_minv.
Qed.

(** *** A mutex nobody will ever own *)

(** Nobody owns the mutex, nobody was handed it, and a thread waits for it without a timeout. *)
Definition stuck (u : nat) (s : mcfg) : Prop :=
  minv s ∧ own s = ∅ ∧ (∀ x, ¬ handed s x) ∧
  u ∈ kwaiters (mk_k s) (m_wait (mtx s)) ∧ pend s !! u = Some INFINITE_TIME.

Lemma stuck_step P u s s' : stuck u s → mstep P s s' → stuck u s'.
Proof.
  intros (Hi & Ho & Hnh & Huw & Hu) Hst. split; [by eapply mstep_minv|].
  assert (Hct : m_count (mtx s) ≠ 0).
  { rewrite (mi_count s Hi), Ho, size_empty. intros Hz.
    assert (pend s = ∅) as E by (apply map_size_empty_iff; lia). by rewrite E, lookup_empty in Hu. }
  destruct Hst as [c t timeout ret m' k' Hrun Hp HP E|c t timeout m' k' Hrun Hp HP E|c t timeout ret m' k' Hrun Hp E
            |c t m' k' Hrun Hp E|t timeout l1 l2 k' Hp Ht Hl Hch|k' Hk Hw Ew Est].
  - destruct (acquire_cases s c t timeout Hi Hrun ltac:(set_solver))
      as [(_ & Hpe & _)|(_ & [(_ & E')|(_ & k2 & E' & _)])].
    { by rewrite Hpe, lookup_empty in Hu. }
    all: rewrite E in E'; simplify_eq. by split_and!.
  - destruct (acquire_cases s c t timeout Hi Hrun ltac:(set_solver))
      as [(_ & Hpe & _)|(_ & [(_ & E')|(_ & k2 & E' & Hch)])].
    { by rewrite Hpe, lookup_empty in Hu. }
    all: rewrite E in E'; simplify_eq. pose proof (changed_waiters _ _ _ _ _ Hch) as Ew.
    split_and!; simpl; [done| |rewrite Ew; set_solver|rewrite lookup_insert_ne; congruence].
    intros x (Hx & Hxw & Hxs). simpl in *. rewrite Ew in Hxw. assert (x ≠ t) by set_solver. apply (Hnh x).
    rewrite lookup_insert_ne in Hx by done. rewrite (changed_status _ _ _ _ _ x Hch) in Hxs.
    unfold with_status in Hxs. rewrite decide_False in Hxs by done. split_and!; [done|set_solver|done].
  - pose proof (running_not_waiting _ _ _ (m_wait (mtx s)) (mi_ok s Hi) Hrun) as Hnw.
    destruct (resume_law (mk_k s) c t (m_wait (mtx s)) timeout (mi_ok s Hi) Hrun) as (k2 & E2 & Hch).
    destruct (mi_woken s Hi t timeout Hp Hnw) as [Hs|[Hs _]]; [by destruct (Hnh t); split_and!; eauto|].
    unfold mutex_acquire_resume in E. rewrite E2 in E. cbn [mbind option_bind] in E. unfold acquire_finish in E.
    rewrite Hs in E. simpl in E. injection E as <- <- <-. pose proof (changed_waiters _ _ _ _ _ Hch) as Ew.
    split_and!; simpl; [done| |by rewrite Ew|by rewrite lookup_delete_ne by set_solver].
    intros x (Hx & Hxw & Hxs). simpl in *. rewrite Ew in Hxw. apply (Hnh x).
    rewrite (changed_status _ _ _ _ _ x Hch) in Hxs. rewrite lookup_delete_is_Some in Hx. by split_and!; try apply Hx.
  - destruct (release_cases s c t m' k' Hi Hrun E) as (Ho' & _). set_solver.
  - assert (u ≠ t) by congruence. pose proof (changed_waiters _ _ _ _ _ Hch) as Ew. rewrite Hl in Huw.
    split_and!; simpl; [done| |rewrite Ew; set_solver|done].
    intros x (Hx & Hxw & Hxs). simpl in *. rewrite Ew in Hxw. rewrite (changed_status _ _ _ _ _ x Hch) in Hxs.
    unfold with_status in Hxs. case_decide; [done|]. apply (Hnh x). split_and!; [done|rewrite Hl; set_solver|done].
  - split_and!; simpl; [done| |by rewrite Ew|done].
    intros x (Hx & Hxw & Hxs). simpl in *. rewrite Ew in Hxw. rewrite Est in Hxs by done. by apply (Hnh x).
Qed.

Lemma stuck_forever P u s s' : stuck u s → rtc (mstep P) s s' → stuck u s'.
Proof. intros Hs. induction 1 as [|s1 s2 s3 Hst _ IH]; [done|]. by eapply IH, stuck_step. Qed.

(** ** Semaphores *)

(** [spend] are the blocked calls: [None] for [sem_wait], [Some timeout] for
    [sem_timedwait].  [posts] counts the calls of [sem_post], [passed] the
    waits that returned [NO_ERROR]. *)
Record scfg := mk_scfg { sk : K; sem : semaphore; spend : gmap nat (option Z); posts : Z; passed : Z }.

Definition limit (o : option Z) : Z := default INFINITE_TIME o.
Definition pass (ret n : Z) : Z := if ret =? NO_ERROR then n + 1 else n.

Definition sem_block (k : K) (c : nat) (s : semaphore) (o : option Z) : option (semaphore * result K Z) :=
  match o with None => sem_wait k c s | Some timeout => sem_timedwait k c s timeout end.
Definition sem_resume (k : K) (s : semaphore) (t : nat) (o : option Z) : option (Z * semaphore * K) :=
  match o with
  | None => '(ret, k') ← sem_wait_resume k t; Some (ret, s, k')
  | Some timeout => sem_timedwait_resume k s t timeout
  end.

Inductive sstep (P : Z → Prop) (s : scfg) : scfg → Prop :=
| ss_post c t b n m' k' :
    krunning (sk s) c t → sem_post (sk s) c (sem s) b = Some (n, m', k') →
    sstep P s (mk_scfg k' m' (spend s) (posts s + 1) (passed s))
| ss_try ret m' :
    sem_trywait (sem s) = (ret, m') →
    sstep P s (mk_scfg (sk s) m' (spend s) (posts s) (pass ret (passed s)))
| ss_done c t o ret m' k' :
    krunning (sk s) c t → spend s !! t = None → P (limit o) → sem_block (sk s) c (sem s) o = Some (m', Done ret k') →
    sstep P s (mk_scfg k' m' (spend s) (posts s) (pass ret (passed s)))
| ss_wait c t o m' k' :
    krunning (sk s) c t → spend s !! t = None → P (limit o) → sem_block (sk s) c (sem s) o = Some (m', Wait k') →
    sstep P s (mk_scfg k' m' (<[t := o]> (spend s)) (posts s) (passed s))
| ss_resume c t o ret m' k' :
    krunning (sk s) c t → spend s !! t = Some o → sem_resume (sk s) (sem s) t o = Some (ret, m', k') →
    sstep P s (mk_scfg k' m' (delete t (spend s)) (posts s) (pass ret (passed s)))
| ss_timeout t o l1 l2 k' :
    spend s !! t = Some o → limit o ≠ INFINITE_TIME → kwaiters (sk s) (s_wait (sem s)) = l1 ++ t :: l2 →
    changed (sk s) (s_wait (sem s)) (l1 ++ l2) (with_status (sk s) t ERR_TIMED_OUT) k' →
    sstep P s (mk_scfg k' (sem s) (spend s) (posts s) (passed s))
| ss_env k' :
    kok k' → kwq k' (s_wait (sem s)) → kwaiters k' (s_wait (sem s)) = kwaiters (sk s) (s_wait (sem s)) →
    (∀ x, is_Some (spend s !! x) → kstatus k' x = kstatus (sk s) x) →
    sstep P s (mk_scfg k' (sem s) (spend s) (posts s) (passed s)).

Inductive sreach (P : Z → Prop) (value : Z) : scfg → Prop :=
| sreach_init k0 w : let '(m, k) := sem_init k0 w value in
    kok k → kwq k w → kwaiters k w = [] → sreach P value (mk_scfg k m ∅ 0 0)
| sreach_step s s' : sreach P value s → sstep P s s' → sreach P value s'.

(** [h] are the blocked calls that were given a unit and have not run yet. *)
Record seminv (value : Z) (h : gset nat) (s : scfg) : Prop := {
  sm_ok : kok (sk s);
  sm_wq : kwq (sk s) (s_wait (sem s));
  sm_nodup : NoDup (kwaiters (sk s) (s_wait (sem s)));
  sm_count : s_count (sem s) = value + posts s - passed s - Z.of_nat (size (spend s));
  sm_wait x : x ∈ kwaiters (sk s) (s_wait (sem s)) → is_Some (spend s !! x) ∧ x ∉ h;
  sm_hand x : x ∈ h → is_Some (spend s !! x);
  sm_woken x o : spend s !! x = Some o → x ∉ kwaiters (sk s) (s_wait (sem s)) →
    (kstatus (sk s) x = NO_ERROR ∧ x ∈ h) ∨ (kstatus (sk s) x = ERR_TIMED_OUT ∧ x ∉ h ∧ limit o ≠ INFINITE_TIME);
  sm_units : 0 ≤ value + posts s - passed s - Z.of_nat (size h)
}.

(** The size of a set of keys. *)
Lemma size_le_dom (h : gset nat) (m : gmap nat (option Z)) : (∀ x, x ∈ h → is_Some (m !! x)) → (size h ≤ size m)%nat.
Proof. intros Hh. rewrite <- size_dom. apply subseteq_size. intros x Hx. by apply elem_of_dom, Hh. Qed.

Lemma size_add_one (h : gset nat) x : x ∉ h → Z.of_nat (size (h ∪ {[x]})) = Z.of_nat (size h) + 1.
Proof. intros. rewrite size_union by set_solver. rewrite size_singleton. lia. Qed.

Lemma size_remove_one (h : gset nat) x : x ∈ h → Z.of_nat (size h) = Z.of_nat (size (h ∖ {[x]})) + 1.
Proof. intros. rewrite <- (size_add_one (h ∖ {[x]}) x) by set_solver. do 2 f_equal. rewrite difference_union_L. set_solver. Qed.

Lemma size_delete_one (m : gmap nat (option Z)) x o : m !! x = Some o → Z.of_nat (size m) = Z.of_nat (size (delete x m)) + 1.
Proof. intros Hx. rewrite <- (insert_delete_id m x o Hx) at 1. rewrite map_size_insert_None; [lia|apply lookup_delete_eq]. Qed.

Lemma sem_block_cases s c t o value h :
  seminv value h s → krunning (sk s) c t →
  let w := s_wait (sem s) in
  (1 ≤ s_count (sem s) ∧ sem_block (sk s) c (sem s) o = Some (mk_sem (s_count (sem s) - 1) w, Done NO_ERROR (sk s))) ∨
  (s_count (sem s) ≤ 0 ∧
   ((limit o = 0 ∧ sem_block (sk s) c (sem s) o = Some (mk_sem (s_count (sem s)) w, Done ERR_TIMED_OUT (sk s))) ∨
    (limit o ≠ 0 ∧ ∃ k', sem_block (sk s) c (sem s) o = Some (mk_sem (s_count (sem s) - 1) w, Wait k') ∧
       changed (sk s) w (kwaiters (sk s) w ++ [t]) (with_status (sk s) t NO_ERROR) k'))).
Proof.
  intros Hi Hrun w. destruct (s_count (sem s) - 1 <? 0) eqn:E.
  - right. split; [zb; lia|]. destruct (decide (limit o = 0)) as [Hz|Hz]; [left|right]; (split; [done|]).
    + destruct o as [tm|]; [|done]. simpl in Hz. subst tm. unfold sem_block, sem_timedwait. cbn [s_count s_wait].
      rewrite E. rewrite (block_zero _ c t) by (apply Hi || done). cbn [mbind option_bind].
      unfold timedwait_finish. simpl. repeat f_equal. lia.
    + destruct (block_law (sk s) c t w (limit o)) as (k' & Eb & Hch); [apply Hi|apply Hi|done|done|].
      exists k'. split; [|done]. destruct o as [tm|]; unfold sem_block, sem_timedwait, sem_wait; cbn [s_count s_wait];
        rewrite E; unfold w, limit in Eb; simpl in Eb; rewrite Eb; done.
  - left. split; [zb; lia|]. destruct o as [tm|]; unfold sem_block, sem_timedwait, sem_wait; cbn [s_count s_wait]; by rewrite E.
Qed.

Lemma sem_resume_cases s c t o value h :
  seminv value h s → krunning (sk s) c t → spend s !! t = Some o →
  let w := s_wait (sem s) in
  ∃ k', changed (sk s) w (kwaiters (sk s) w) (kstatus (sk s)) k' ∧
  ((t ∈ h ∧ sem_resume (sk s) (sem s) t o = Some (NO_ERROR, sem s, k')) ∨
   (t ∉ h ∧ limit o ≠ INFINITE_TIME ∧
      sem_resume (sk s) (sem s) t o = Some (ERR_TIMED_OUT, mk_sem (s_count (sem s) + 1) w, k'))).
Proof.
  intros Hi Hrun Hp w.
  pose proof (running_not_waiting _ _ _ w (sm_ok _ _ s Hi) Hrun) as Hnw.
  destruct (resume_law (sk s) c t w (limit o) (sm_ok _ _ s Hi) Hrun) as (k2 & E & Hch).
  exists k2. split; [done|].
  destruct (sm_woken _ _ s Hi t o Hp Hnw) as [[Hs Hh]|(Hs & Hh & Hl)]; rewrite Hs in E.
  - left. split; [done|].
    destruct o as [tm|]; unfold sem_resume, sem_timedwait_resume, sem_wait_resume; unfold limit in E; simpl in E; by rewrite E.
  - right. split_and!; [done|done|].
    destruct o as [tm|]; [|done]. unfold sem_resume, sem_timedwait_resume. unfold limit in E; simpl in E. by rewrite E.
Qed.

Lemma seminv_post value h s c t b n m' k' :
  seminv value h s → krunning (sk s) c t → sem_post (sk s) c (sem s) b = Some (n, m', k') →
  m' = mk_sem (s_count (sem s) + 1) (s_wait (sem s)) ∧
  ((k' = sk s ∧ (0 ≤ s_count (sem s) ∨ kwaiters (sk s) (s_wait (sem s)) = [])) ∨
   ∃ u l, s_count (sem s) < 0 ∧ kwaiters (sk s) (s_wait (sem s)) = u :: l ∧
     changed (sk s) (s_wait (sem s)) l (with_status (sk s) u NO_ERROR) k').
Proof.
  intros Hi Hrun. unfold sem_post. cbn [s_count s_wait].
  destruct (s_count (sem s) + 1 <=? 0) eqn:E; zb; [|intros [= <- <- <-]; split; [done|left; split; [done|left; lia]]].
  pose proof (wake_one_law (sk s) c (s_wait (sem s)) b NO_ERROR (sm_ok _ _ s Hi) (sm_wq _ _ s Hi) ltac:(eauto)) as Hwake.
  destruct (kwaiters (sk s) (s_wait (sem s))) as [|u l].
  - rewrite Hwake. cbn [mbind option_bind]. intros [= <- <- <-]. eauto.
  - destruct Hwake as (k2 & -> & Hch). cbn [mbind option_bind]. intros [= <- <- <-]. split; [done|right].
    exists u, l. split_and!; [lia|done|done].
Qed.

(** Waking the first waiter hands it a unit. *)
Lemma seminv_give value h s u l k' n :
  seminv value h s → kwaiters (sk s) (s_wait (sem s)) = u :: l →
  changed (sk s) (s_wait (sem s)) l (with_status (sk s) u NO_ERROR) k' →
  n = s_count (sem s) + 1 →
  seminv value (h ∪ {[u]}) (mk_scfg k' (mk_sem n (s_wait (sem s))) (spend s) (posts s + 1) (passed s)).
Proof.
  intros Hi El Hch ->. pose proof (changed_waiters _ _ _ _ _ Hch) as Ew.
  pose proof (sm_nodup _ _ s Hi) as Hnd. rewrite El in Hnd. apply NoDup_cons in Hnd as [Hul Hnd].
  destruct (sm_wait _ _ s Hi u) as [Hu Huh]; [rewrite El; set_solver|].
  pose proof (size_add_one h u Huh) as Hsz.
  split; simpl; rewrite ?Ew; try done.
  - exact (changed_ok _ _ _ _ _ Hch).
  - eapply (changed_wq _ _ _ _ _ _ Hch), Hi.
  - rewrite (sm_count _ _ s Hi). lia.
  - intros x Hx. destruct (sm_wait _ _ s Hi x) as [? ?]; [rewrite El; set_solver|]. split; [done|set_solver].
  - intros x Hx. destruct (decide (x = u)) as [->|]; [done|]. apply (sm_hand _ _ s Hi). set_solver.
  - intros x o Hx Hxw. rewrite (changed_status _ _ _ _ _ x Hch). unfold with_status.
    case_decide as E; [left; split; [done|set_solver]|].
    destruct (sm_woken _ _ s Hi x o Hx) as [[? ?]|(? & ? & ?)]; [rewrite El; set_solver|left|right]; split_and!; set_solver.
  - rewrite Hsz. pose proof (sm_units _ _ s Hi). lia.
Qed.

Lemma seminv_block value h s c t o m' k' :
  seminv value h s → krunning (sk s) c t → spend s !! t = None →
  sem_block (sk s) c (sem s) o = Some (m', Wait k') →
  seminv value h (mk_scfg k' m' (<[t := o]> (spend s)) (posts s) (passed s)).
Proof.
  intros Hi Hrun Hp E. set (w := s_wait (sem s)) in *.
  destruct (sem_block_cases s c t o value h Hi Hrun) as [(_ & E')|(_ & [(_ & E')|(_ & k2 & E' & Hch)])];
    rewrite E in E'; simplify_eq. fold w in Hch.
  pose proof (running_not_waiting _ _ _ w (sm_ok _ _ s Hi) Hrun) as Hnw.
  assert (Hth : t ∉ h) by (intros Hx; apply (sm_hand _ _ s Hi) in Hx; rewrite Hp in Hx; by destruct Hx).
  pose proof (changed_waiters _ _ _ _ _ Hch) as Ew. split; simpl; fold w; rewrite ?Ew.
  - exact (changed_ok _ _ _ _ _ Hch).
  - eapply (changed_wq _ _ _ _ _ _ Hch), Hi.
  - apply NoDup_app. split_and!; [apply Hi|set_solver|apply NoDup_singleton].
  - rewrite map_size_insert_None, (sm_count _ _ s Hi) by done. lia.
  - intros x Hx. destruct (decide (x = t)) as [->|Hne]; [rewrite lookup_insert_eq; eauto|].
    rewrite lookup_insert_ne by done. apply Hi. set_solver.
  - intros x Hx. rewrite lookup_insert_ne by set_solver. by apply (sm_hand _ _ s Hi).
  - intros x o' Hx Hxw. assert (x ≠ t) by set_solver. rewrite lookup_insert_ne in Hx by done.
    rewrite (changed_status _ _ _ _ _ x Hch). unfold with_status. rewrite decide_False by done.
    apply (sm_woken _ _ s Hi); [done|set_solver].
  - apply Hi.
Qed.

Lemma seminv_resume value h s c t o ret m' k' :
  seminv value h s → krunning (sk s) c t → spend s !! t = Some o →
  sem_resume (sk s) (sem s) t o = Some (ret, m', k') →
  seminv value (h ∖ {[t]}) (mk_scfg k' m' (delete t (spend s)) (posts s) (pass ret (passed s))).
Proof.
  intros Hi Hrun Hp E. pose proof (size_delete_one (spend s) t o Hp) as Hsz.
  pose proof (running_not_waiting _ _ _ (s_wait (sem s)) (sm_ok _ _ s Hi) Hrun) as Hnw.
  destruct (sem_resume_cases s c t o value h Hi Hrun Hp) as (k2 & Hch & Hcase).
  pose proof (changed_waiters _ _ _ _ _ Hch) as Ew.
  assert (Hm : k' = k2 ∧ s_wait m' = s_wait (sem s) ∧
    s_count m' = value + posts s - pass ret (passed s) - Z.of_nat (size (delete t (spend s))) ∧
    0 ≤ value + posts s - pass ret (passed s) - Z.of_nat (size (h ∖ {[t]}))).
  { pose proof (sm_count _ _ s Hi) as Hct. pose proof (sm_units _ _ s Hi) as Hu.
    destruct Hcase as [[Ht E']|(Ht & _ & E')]; rewrite E in E'; injection E' as -> -> ->; unfold pass; simpl.
    - pose proof (size_remove_one h t Ht). split_and!; [done|done|lia|lia].
    - replace (h ∖ {[t]}) with h by set_solver. split_and!; [done|done|lia|lia]. }
  destruct Hm as (-> & Emw & Hct & Hu). split; simpl; rewrite ?Emw, ?Ew; try done.
  - exact (changed_ok _ _ _ _ _ Hch).
  - eapply (changed_wq _ _ _ _ _ _ Hch), Hi.
  - apply Hi.
  - intros x Hx. rewrite lookup_delete_ne by set_solver. destruct (sm_wait _ _ s Hi x Hx). split; [done|set_solver].
  - intros x Hx. rewrite lookup_delete_ne by set_solver. apply (sm_hand _ _ s Hi). set_solver.
  - intros x o' Hx Hxw. apply lookup_delete_Some in Hx as [Hne Hx].
    rewrite (changed_status _ _ _ _ _ x Hch).
    destruct (sm_woken _ _ s Hi x o' Hx Hxw) as [[? ?]|(? & ? & ?)]; [left|right]; split_and!; set_solver.
Qed.

Lemma seminv_timeout value h s t o l1 l2 k' :
  seminv value h s → spend s !! t = Some o → limit o ≠ INFINITE_TIME →
  kwaiters (sk s) (s_wait (sem s)) = l1 ++ t :: l2 →
  changed (sk s) (s_wait (sem s)) (l1 ++ l2) (with_status (sk s) t ERR_TIMED_OUT) k' →
  seminv value h (mk_scfg k' (sem s) (spend s) (posts s) (passed s)).
Proof.
  intros Hi Hp Hti Hl Hch. pose proof (changed_waiters _ _ _ _ _ Hch) as Ew.
  pose proof (sm_nodup _ _ s Hi) as Hnd. rewrite Hl in Hnd.
  split; simpl; rewrite ?Ew; try (by apply Hi).
  - exact (changed_ok _ _ _ _ _ Hch).
  - eapply (changed_wq _ _ _ _ _ _ Hch), Hi.
  - apply NoDup_app in Hnd as (? & Hd & Hnd2). apply NoDup_cons in Hnd2 as [? ?].
    apply NoDup_app. split_and!; [done|set_solver|done].
  - intros x Hx. apply (sm_wait _ _ s Hi). rewrite Hl. set_solver.
  - intros x o' Hx Hxw. rewrite (changed_status _ _ _ _ _ x Hch). unfold with_status.
    destruct (decide (x = t)) as [->|Hne].
    + right. split_and!; [done|apply (sm_wait _ _ s Hi); rewrite Hl; set_solver|congruence].
    + apply (sm_woken _ _ s Hi); [done|]. rewrite Hl. set_solver.
Qed.

(** A change of the counters alone. *)
Lemma seminv_count value h s n p q :
  seminv value h s → n = value + p - q - Z.of_nat (size (spend s)) → 0 ≤ value + p - q - Z.of_nat (size h) →
  seminv value h (mk_scfg (sk s) (mk_sem n (s_wait (sem s))) (spend s) p q).
Proof. intros Hi -> Hu. split; simpl; try (by apply Hi); done. Qed.

(** A unit is taken only when one is there. *)
Lemma units_available value h s : seminv value h s → s_count (sem s) ≤ value + posts s - passed s - Z.of_nat (size h).
Proof.
  intros Hi. rewrite (sm_count _ _ s Hi).
  pose proof (size_le_dom h (spend s) (sm_hand _ _ s Hi)). lia.
Qed.

Lemma sem_eta (m : semaphore) : mk_sem (s_count m) (s_wait m) = m.
Proof. by destruct m. Qed.

Lemma sstep_seminv P value h s s' : seminv value h s → sstep P s s' → ∃ h', seminv value h' s'.
Proof.
  intros Hi. pose proof (sm_count _ _ s Hi) as Hct. pose proof (units_available value h s Hi) as Hav.
  pose proof (sm_units _ _ s Hi) as Hu.
  intros [c t b n m' k' Hrun E|ret m' E|c t o ret m' k' Hrun Hp HP E|c t o m' k' Hrun Hp HP E
         |c t o ret m' k' Hrun Hp E|t o l1 l2 k' Hp Ht Hl Hch|k' Hk Hw Ew Est].
  - destruct (seminv_post value h s c t b n m' k' Hi Hrun E) as (-> & [(-> & _)|(u & l & _ & El & Hch)]).
    + exists h. apply seminv_count; [done|lia|lia].
    + eexists. by eapply seminv_give.
  - exists h. unfold sem_trywait in E. destruct (s_count (sem s) <=? 0) eqn:Ec; zb; injection E as <- <-; unfold pass; simpl.
    + rewrite <- (sem_eta (sem s)). apply seminv_count; done.
    + apply seminv_count; [done|lia|lia].
  - exists h. destruct (sem_block_cases s c t o value h Hi Hrun) as [(Hc & E')|(_ & [(_ & E')|(_ & k2 & E' & _)])];
      rewrite E in E'; simplify_eq; unfold pass; simpl; (apply seminv_count; [done|lia|lia]).
  - exists h. by eapply seminv_block.
  - eexists. by eapply seminv_resume.
  - exists h. by eapply seminv_timeout.
  - exists h. split; simpl; rewrite ?Ew; try (by apply Hi); try done.
    intros x o Hx Hxw. rewrite Est by eauto. by apply (sm_woken _ _ s Hi).
Qed.

Lemma sreach_seminv P value s : 0 ≤ value → sreach P value s → ∃ h, seminv value h s.
Proof.
  intros Hv. induction 1 as [k0 w Hk Hw Hl|s s' _ [h IH] Hst].
  - exists ∅. split; simpl; rewrite ?Hl; try done.
    + constructor.
    + rewrite map_size_empty. lia.
    + set_solver.
    + change (set_size _) with 0%nat. lia.
  - by eapply sstep_seminv.
Qed.

(** *** Waiting without timeouts *)

Definition all_untimed (s : scfg) : Prop := ∀ x o, spend s !! x = Some o → limit o = INFINITE_TIME.

(** A negative count is the number of waiters; no thread waits when it is not negative. *)
Definition balanced (s : scfg) : Prop :=
  Z.of_nat (length (kwaiters (sk s) (s_wait (sem s)))) = Z.max 0 (- s_count (sem s)).

Lemma untimed_size value h s :
  seminv value h s → all_untimed s →
  size (spend s) = (length (kwaiters (sk s) (s_wait (sem s))) + size h)%nat.
Proof.
  intros Hi Ha. rewrite <- (size_dom (spend s)).
  replace (dom (spend s)) with (list_to_set (kwaiters (sk s) (s_wait (sem s))) ∪ h : gset nat).
  - rewrite size_union.
    + by rewrite size_list_to_set by apply Hi.
    + intros x Hx Hh. apply elem_of_list_to_set in Hx. by apply (sm_wait _ _ s Hi) in Hx as [_ ?].
  - apply set_eq. intros x. rewrite elem_of_union, elem_of_list_to_set, elem_of_dom. split.
    + intros [Hx|Hx]; [by apply (sm_wait _ _ s Hi)|by apply (sm_hand _ _ s Hi)].
    + intros [o Hx]. destruct (decide (x ∈ kwaiters (sk s) (s_wait (sem s)))) as [|Hn]; [by left|right].
      destruct (sm_woken _ _ s Hi x o Hx Hn) as [[_ ?]|(_ & _ & Hf)]; [done|by rewrite (Ha _ _ Hx) in Hf].
Qed.

Lemma all_untimed_step s s' value h :
  seminv value h s → all_untimed s → sstep forever s s' → all_untimed s'.
Proof.
  intros Hi Ha [c t b n m' k' Hrun E|ret m' E|c t o ret m' k' Hrun Hp HP E|c t o m' k' Hrun Hp HP E
         |c t o ret m' k' Hrun Hp E|t o l1 l2 k' Hp Ht Hl Hch|k' Hk Hw Ew Est]; try done.
  - intros x o'. simpl. destruct (decide (x = t)) as [->|];
      [rewrite lookup_insert_eq|rewrite lookup_insert_ne by done; apply Ha].
    intros [= <-]. destruct HP as [->|Hz]; [done|]. exfalso.
    destruct (sem_block_cases s c t o value h Hi Hrun) as [(Hc & E')|(_ & [(_ & E')|(Hnz & _)])]; congruence.
  - intros x o'. simpl. rewrite lookup_delete_Some. intros [_ Hx]. by eapply Ha.
Qed.

Lemma balanced_step s s' value h :
  seminv value h s → all_untimed s → balanced s → sstep forever s s' → balanced s'.
Proof.
  intros Hi Ha Hb. unfold balanced in *.
  intros [c t b n m' k' Hrun E|ret m' E|c t o ret m' k' Hrun Hp HP E|c t o m' k' Hrun Hp HP E
         |c t o ret m' k' Hrun Hp E|t o l1 l2 k' Hp Ht Hl Hch|k' Hk Hw Ew Est]; simpl.
  - destruct (seminv_post value h s c t b n m' k' Hi Hrun E) as (-> & [(-> & Hc)|(u & l & Hc & El & Hch)]); simpl.
    + destruct Hc as [Hc|Hc]; [lia|]. rewrite Hc in *. simpl in *. lia.
    + rewrite (changed_waiters _ _ _ _ _ Hch). rewrite El in Hb. simpl in Hb. lia.
  - unfold sem_trywait in E. destruct (s_count (sem s) <=? 0) eqn:Ec; zb; injection E as <- <-; simpl; lia.
  - destruct (sem_block_cases s c t o value h Hi Hrun) as [(Hc & E')|(_ & [(_ & E')|(_ & k2 & E' & _)])];
      rewrite E in E'; simplify_eq; simpl; lia.
  - destruct (sem_block_cases s c t o value h Hi Hrun) as [(Hc & E')|(Hc & [(_ & E')|(_ & k2 & E' & Hch)])];
      rewrite E in E'; simplify_eq; simpl. rewrite (changed_waiters _ _ _ _ _ Hch), length_app. simpl. lia.
  - destruct (sem_resume_cases s c t o value h Hi Hrun Hp) as (k2 & Hch & [[_ E']|(_ & Hf & _)]).
    + rewrite E in E'. injection E' as -> -> ->. by rewrite (changed_waiters _ _ _ _ _ Hch).
    + by rewrite (Ha _ _ Hp) in Hf.
  - by rewrite (Ha _ _ Hp) in Ht.
  - by rewrite Ew.
Qed.

Lemma sreach_balanced value s : 0 ≤ value → sreach forever value s → all_untimed s ∧ balanced s.
Proof.
  intros Hv. induction 1 as [k0 w Hk Hw Hl|s s' Hr [Ha Hb] Hst].
  - split; [by intros x tm|]. unfold balanced. simpl. rewrite Hl. simpl. lia.
  - destruct (sreach_seminv _ _ _ Hv Hr) as [h Hi]. split; [by eapply all_untimed_step|by eapply balanced_step].
Qed.

(** *** A waiter that posts do not reach *)

Definition stranded (u : nat) (s : scfg) : Prop :=
  0 ≤ s_count (sem s) ∧ u ∈ kwaiters (sk s) (s_wait (sem s)) ∧ spend s !! u = Some None.

(** One call of [sem_post]. *)
Definition sposted (s s' : scfg) : Prop :=
  ∃ c t b n m' k', krunning (sk s) c t ∧ sem_post (sk s) c (sem s) b = Some (n, m', k') ∧
    s' = mk_scfg k' m' (spend s) (posts s + 1) (passed s).

Lemma stranded_post u s s' : stranded u s → sposted s s' → stranded u s' ∧ s_count (sem s') = s_count (sem s) + 1.
Proof.
  intros (Hc & Hw & Hp) (c & t & b & n & m' & k' & _ & E & ->). revert E. unfold sem_post. cbn [s_count s_wait].
  destruct (s_count (sem s) + 1 <=? 0) eqn:Ec; zb; [lia|]. intros [= <- <- <-].
  unfold stranded. simpl. split_and!; [lia|done|done|done].
Qed.

(** ** Events *)

(** An event among threads; [ended] are waits that a timeout or a kill ended. *)
Inductive estep : K * event → K * event → Prop :=
| es_wait c t timeout b k e e' r k' :
    krunning k c t → event_wait_timeout k c e timeout b = Some (e', r) →
    k' = match r with Done _ k1 => k1 | Wait k1 => k1 end →
    estep (k, e) (k', e')
| es_resume c t timeout k e ret k' :
    krunning k c t → event_wait_resume k t timeout = Some (ret, k') → estep (k, e) (k', e)
| es_signal c t b err k e n e' k' :
    krunning k c t → event_signal_etc k c e b err = Some (n, e', k') → estep (k, e) (k', e')
| es_unsignal k e ret e' : event_unsignal e = Some (ret, e') → estep (k, e) (k, e')
| es_env k e k' :
    kok k' → kwq k' (e_wait e) → kwaiters k' (e_wait e) ⊆ kwaiters k (e_wait e) → estep (k, e) (k', e).

Inductive ereach : K * event → Prop :=
| ereach_init k0 w initial fl : let '(e, k) := event_init k0 w initial fl in
    kok k → kwq k w → kwaiters k w = [] → ereach (k, e)
| ereach_step s s' : ereach s → estep s s' → ereach s'.

Definition einv (s : K * event) : Prop :=
  kok s.1 ∧ kwq s.1 (e_wait s.2) ∧ e_magic s.2 = EVENT_MAGIC ∧
  (signalled s.2 = true → kwaiters s.1 (e_wait s.2) = []).

Lemma interruptable_view k t b :
  kok k → kok (set_thread_interruptable k t b) ∧
  (∀ w, kwaiters (set_thread_interruptable k t b) w = kwaiters k w) ∧
  (∀ w, kwq k w → kwq (set_thread_interruptable k t b) w).
Proof.
  intros Hk. split_and!.
  - exact (changed_ok _ _ _ _ _ (interruptable_law k t b 0%nat Hk)).
  - intros w. exact (changed_waiters _ _ _ _ _ (interruptable_law k t b w Hk)).
  - intros w. exact (changed_wq _ _ _ _ _ w (interruptable_law k t b w Hk)).
Qed.

(** What a call of [event_wait] comes to. *)
Lemma event_wait_cases k c t e timeout b e' r :
  einv (k, e) → krunning k c t → event_wait_timeout k c e timeout b = Some (e', r) →
  let k' := match r with Done _ k1 => k1 | Wait k1 => k1 end in
  kok k' ∧ kwq k' (e_wait e) ∧ e_wait e' = e_wait e ∧ e_magic e' = e_magic e ∧
  ((kwaiters k' (e_wait e) = kwaiters k (e_wait e) ∧ (signalled e' = true → signalled e = true)) ∨ signalled e' = false).
Proof.
  intros (Hk & Hw & Hm & Hs) Hrun. simpl in *. unfold event_wait_timeout. rewrite (running_current _ _ _ Hrun).
  cbn [mbind option_bind]. rewrite Hm, Z.eqb_refl. destruct (b && kill_pending k t).
  { intros [= <- <-]. split_and!; try done. left. done. }
  set (k1 := set_thread_interruptable k t b).
  destruct (interruptable_view k t b Hk) as (Hk1 & Hw1 & Hq1). fold k1 in Hk1, Hw1, Hq1.
  pose proof (interruptable_running k c t t b Hrun) as Hrun1. fold k1 in Hrun1.
  destruct (interruptable_view k1 t false Hk1) as (Hk2 & Hw2 & Hq2).
  destruct (signalled e) eqn:Esig.
  { intros [= <- <-]. split_and!; auto; [by destruct (autounsignal e)..|].
    left. split; [by rewrite Hw2, Hw1|done]. }
  destruct (decide (timeout = 0)) as [->|Hnz].
  - rewrite (block_zero k1 c t) by auto. cbn [mbind option_bind]. intros [= <- <-]. split_and!; auto.
  - destruct (block_law k1 c t (e_wait e) timeout Hk1 (Hq1 _ Hw) Hrun1 Hnz) as (k' & -> & Hch).
    cbn [mbind option_bind]. intros [= <- <-]. split_and!; auto.
    + exact (changed_ok _ _ _ _ _ Hch).
    + apply (changed_wq _ _ _ _ _ _ Hch). auto.
Qed.

(** What a signal comes to. *)
Lemma event_signal_cases k c e b err :
  einv (k, e) → (b = true → ∃ t, krunning k c t) →
  let w := e_wait e in
  ∃ n e' k', event_signal_etc k c e b err = Some (n, e', k') ∧
  if signalled e then n = 0 ∧ e' = e ∧ k' = k
  else if autounsignal e then
    match kwaiters k w with
    | [] => n = 0 ∧ e' = set_signalled true e ∧ k' = k
    | u :: l => n = 1 ∧ e' = e ∧ changed k w l (with_status k u err) k'
    end
  else n = Z.of_nat (length (kwaiters k w)) ∧ e' = set_signalled true e ∧
       changed k w [] (λ x, if decide (x ∈ kwaiters k w) then err else kstatus k x) k'.
Proof.
  intros (Hk & Hw & Hm & Hs) Hrun. simpl in *. unfold event_signal_etc. rewrite Hm, Z.eqb_refl.
  destruct (signalled e); [by do 3 eexists|]. destruct (autounsignal e).
  - pose proof (wake_one_law k c (e_wait e) b err Hk Hw Hrun) as Hwake.
    destruct (kwaiters k (e_wait e)) as [|u l].
    + rewrite Hwake. cbn [mbind option_bind]. by do 3 eexists.
    + destruct Hwake as (k2 & -> & Hch). cbn [mbind option_bind]. by do 3 eexists.
  - destruct (wake_all_law k c (e_wait e) b err Hk Hw Hrun) as (k2 & -> & Hch).
    cbn [mbind option_bind]. by do 3 eexists.
Qed.

(** A signal keeps the invariant and leaves an event of the plain kind signalled. *)
Lemma event_signal_einv k c e b err n e' k' :
  einv (k, e) → (b = true → ∃ t, krunning k c t) → event_signal_etc k c e b err = Some (n, e', k') →
  einv (k', e') ∧ e_flags e' = e_flags e ∧ e_wait e' = e_wait e ∧ (autounsignal e = false → signalled e' = true).
Proof.
  intros Hi Hrun E. destruct (event_signal_cases k c e b err Hi Hrun) as (? & ? & ? & E' & Hc).
  rewrite E in E'. simplify_eq. destruct Hi as (Hk & Hw & Hm & Hs).
  simpl in *. destruct (signalled e) eqn:Esig.
  { destruct Hc as (_ & -> & ->). by split; [split_and!; simpl; auto|]. }
  destruct (autounsignal e); [destruct (kwaiters k (e_wait e)) as [|u l] eqn:El|].
  - destruct Hc as (_ & -> & ->). by split; [split_and!|].
  - destruct Hc as (_ & -> & Hch). split; [|done]. split_and!; simpl; [exact (changed_ok _ _ _ _ _ Hch)
      |by apply (changed_wq _ _ _ _ _ _ Hch)|done|by rewrite Esig].
  - destruct Hc as (_ & -> & Hch). split; [|done]. split_and!; simpl; [exact (changed_ok _ _ _ _ _ Hch)
      |by apply (changed_wq _ _ _ _ _ _ Hch)|done|by rewrite (changed_waiters _ _ _ _ _ Hch)].
Qed.

Lemma estep_einv s s' : einv s → estep s s' → einv s'.
Proof.
  intros Hi Hst. destruct Hst as [c t timeout b k e e' r k' Hrun E ->|c t timeout k e ret k' Hrun E
    |c t b err k e n e' k' Hrun E|k e ret e' E|k e k' Hk Hw Hsub].
  - destruct (event_wait_cases k c t e timeout b e' r Hi Hrun E) as (Hk' & Hw' & Ew & Em & Hc).
    destruct Hi as (Hk & Hw & Hm & Hs). unfold einv. simpl in *. rewrite Ew. split_and!; [done|done|congruence|].
    destruct Hc as [[-> Himp]| ->]; auto. done.
  - destruct Hi as (Hk & Hw & Hm & Hs). simpl in *. revert E. unfold event_wait_resume.
    destruct (resume_law k c t (e_wait e) timeout Hk Hrun) as (k2 & -> & Hch). cbn [mbind option_bind]. intros [= <- <-].
    destruct (interruptable_view k2 t false (changed_ok _ _ _ _ _ Hch)) as (Hk1 & Hw1 & Hq1).
    unfold einv. simpl. rewrite Hw1, (changed_waiters _ _ _ _ _ Hch). split_and!; [done| |done|done].
    by apply Hq1, (changed_wq _ _ _ _ _ _ Hch).
  - by destruct (event_signal_einv k c e b err n e' k' Hi ltac:(eauto) E) as (? & _).
  - destruct Hi as (Hk & Hw & Hm & Hs). simpl in *. revert E. unfold event_unsignal. rewrite Hm, Z.eqb_refl.
    intros [= <- <-]. by split_and!.
  - destruct Hi as (Hk' & Hw' & Hm & Hs). simpl in *. split_and!; simpl; [done|done|done|].
    intros Hsig. rewrite (Hs Hsig) in Hsub. destruct (kwaiters k' (e_wait e)); [done|set_solver].
Qed.

Lemma ereach_einv s : ereach s → einv s.
Proof. induction 1 as [k0 w initial fl Hk Hw Hl|s s' _ IH Hst]; [by split_and!|by eapply estep_einv]. Qed.

(** ** Condition variables *)

(** Before it waits, [cond_wait] has released the mutex to its first waiter
    and put the caller on the queue of the condition variable. *)
Lemma cond_wait_blocks k c t cv m timeout :
  kok k → kwq k (m_wait m) → kwq k (c_wait cv) → krunning k c t → c_wait cv ≠ m_wait m →
  c_magic cv = COND_MAGIC → m_magic m = MUTEX_MAGIC → timeout ≠ 0 →
  ∃ k', cond_wait_timeout k c cv m timeout = Some (add_count (set_holder m None) (-1), Wait k') ∧
    kok k' ∧ (∀ w, kwq k w → kwq k' w) ∧ kwaiters k' (c_wait cv) = kwaiters k (c_wait cv) ++ [t] ∧
    kwaiters k' (m_wait m) = (if 2 <=? m_count m then tail (kwaiters k (m_wait m)) else kwaiters k (m_wait m)).
Proof.
  intros Hk Hwm Hwc Hrun Hne Hmc Hmm Hnz. unfold cond_wait_timeout. rewrite Hmc, Hmm. cbn [andb Z.eqb].
  rewrite Z.eqb_refl. cbn [andb]. unfold mutex_release_internal. set (m1 := add_count (set_holder m None) (-1)).
  assert (Hgo : ∀ k1, kok k1 → kwq k1 (c_wait cv) → krunning k1 c t → ∃ k', wq_block k1 c (c_wait cv) timeout = Some (Wait k') ∧
    kok k' ∧ (∀ w, kwq k1 w → kwq k' w) ∧ kwaiters k' (c_wait cv) = kwaiters k1 (c_wait cv) ++ [t] ∧
    kwaiters k' (m_wait m) = kwaiters k1 (m_wait m)).
  { intros k1 Hk1 Hw1 Hr1. destruct (block_law k1 c t (c_wait cv) timeout Hk1 Hw1 Hr1 Hnz) as (k' & E & Hch).
    exists k'. split_and!; [done|exact (changed_ok _ _ _ _ _ Hch)| |exact (changed_waiters _ _ _ _ _ Hch)|].
    { intros w. apply (changed_wq _ _ _ _ _ _ Hch). }
    apply (changed_other _ _ _ _ _ _ Hch). done. }
  rewrite Z.geb_leb. replace (1 <=? m_count m1) with (2 <=? m_count m) by (simpl; apply eq_true_iff_eq; rewrite !Z.leb_le; lia).
  destruct (2 <=? m_count m).
  - change (m_wait m1) with (m_wait m).
    pose proof (wake_one_law k c (m_wait m) false NO_ERROR Hk Hwm ltac:(done)) as Hwake.
    destruct (kwaiters k (m_wait m)) as [|u l] eqn:El.
    + rewrite Hwake. cbn [mbind option_bind]. destruct (Hgo k) as (k' & -> & ? & ? & ? & E); [done..|].
      exists k'. cbn [mbind option_bind]. by rewrite E, El.
    + destruct Hwake as (k1 & Ewk & Hch). pose proof (running_wake _ _ _ _ _ _ _ Hrun Ewk) as Hr1.
      rewrite Ewk. cbn [mbind option_bind].
      destruct (Hgo k1) as (k' & -> & ? & Hq & E1 & E2);
        [exact (changed_ok _ _ _ _ _ Hch)|by apply (changed_wq _ _ _ _ _ _ Hch)|done|].
      exists k'. cbn [mbind option_bind]. split_and!; [done|done| | |].
      * intros w Hw. by apply Hq, (changed_wq _ _ _ _ _ _ Hch).
      * rewrite E1. f_equal. apply (changed_other _ _ _ _ _ _ Hch). done.
      * by rewrite E2, (changed_waiters _ _ _ _ _ Hch).
  - cbn [mbind option_bind]. destruct (Hgo k) as (k' & -> & ? & ? & ? & ?); [done..|]. exists k'. done.
Qed.

(** When [cond_wait] returns to its caller, after one wait or two, the caller holds the mutex. *)
Lemma cond_returns_holding k c t m timeout m' ret k' :
  kok k → kwq k (m_wait m) → krunning k c t →
  cond_wait_resume k c m t timeout = Some (m', Done ret k') → holder m' = Some t ∧ ret = kstatus k t.
Proof.
  intros Hk Hw Hrun. unfold cond_wait_resume.
  destruct (resume_law k c t (m_wait m) timeout Hk Hrun) as (k1 & E & Hch).
  pose proof (resume_running _ _ _ _ _ _ _ Hrun E) as Hr1. rewrite E. cbn [mbind option_bind]. unfold cond_reacquire, mutex_acquire_timeout_internal.
  rewrite (running_current _ _ _ Hr1). cbn [mbind option_bind]. set (m1 := add_count m 1).
  destruct (m_count m1 >? 1).
  - change (m_wait m1) with (m_wait m).
    destruct (block_law k1 c t (m_wait m) INFINITE_TIME) as (k2 & -> & _);
      [exact (changed_ok _ _ _ _ _ Hch)|by apply (changed_wq _ _ _ _ _ _ Hch)|done|done|].
    cbn [mbind option_bind]. discriminate.
  - cbn [mbind option_bind]. by intros [= <- <- <-].
Qed.

Lemma cond_reacquire_waits k c t m timeout m' k' :
  kok k → kwq k (m_wait m) → krunning k c t → cond_wait_resume k c m t timeout = Some (m', Wait k') →
  m' = add_count m 1 ∧ kwaiters k' (m_wait m) = kwaiters k (m_wait m) ++ [t].
Proof.
  intros Hk Hw Hrun. unfold cond_wait_resume.
  destruct (resume_law k c t (m_wait m) timeout Hk Hrun) as (k1 & E & Hch).
  pose proof (resume_running _ _ _ _ _ _ _ Hrun E) as Hr1. rewrite E. cbn [mbind option_bind].
  unfold cond_reacquire, mutex_acquire_timeout_internal.
  rewrite (running_current _ _ _ Hr1). cbn [mbind option_bind]. set (m1 := add_count m 1).
  destruct (m_count m1 >? 1); [|cbn [mbind option_bind]; discriminate].
  change (m_wait m1) with (m_wait m).
  destruct (block_law k1 c t (m_wait m) INFINITE_TIME) as (k2 & -> & Hch2);
    [exact (changed_ok _ _ _ _ _ Hch)|by apply (changed_wq _ _ _ _ _ _ Hch)|done|done|].
  cbn [mbind option_bind]. intros [= <- <-]. split; [done|].
  by rewrite (changed_waiters _ _ _ _ _ Hch2), (changed_waiters _ _ _ _ _ Hch).
Qed.

End facts.
End SyncFacts.
