(* ===== verification/SyncSched.v ===== *)
(** * The synchronisation primitives over the scheduler

    [Sched] keeps the promises of [WaitSpec], so every theorem of [SyncFacts]
    holds of the kernel; this file has the instance, the properties of the
    primitives, and concrete runs of the kernel that exercise them. *)

From stdpp Require Import base tactics numbers list gmap sets.
From Stdlib Require Import ZArith Lia.
From S2P Require Import Prelude Sched SchedFacts Sync SyncFacts.
#[local] Open Scope Z_scope.

(** ** The scheduler's wait queues *)

Module SyncSched.
Import Sched SchedFacts Sync SyncFacts.

Definition running (k : kstate) (c t : nat) : Prop :=
  current k !! c = Some t ∧ ∃ r, threads k !! t = Some r ∧ thread_is_idle r = false.

#[global] Instance sched_wait_view : WaitView kstate :=
  {| kok := kinv; kwq := wq_ok; kwaiters := waiters; kstatus := status; krunning := running |}.

Lemma running_can_resched k c t : running k c t → can_resched k c.
Proof. intros (Hc & r & Hr & Hid). by exists t, r. Qed.

Lemma kinv_nodup k w : kinv k → NoDup (waiters k w).
Proof. intros Hi. unfold waiters. destruct (wqs k !! w) as [q|] eqn:E; [by apply (si_wqnd _ _ _ Hi _ _ E)|constructor]. Qed.

Lemma wq_ok_waiters k w q : wqs k !! w = Some q → waiters k w = wq_list q.
Proof. unfold waiters. by intros ->. Qed.

(** The effect of waking one thread, in the terms of the interface. *)
Lemma woken_changed k w t l err k' : kinv k' → woken k w t l err k' → changed k w l (with_status k t err) k'.
Proof.
  intros Hk Hwk. pose proof Hwk as [(q & Hq & E) Hst]. split_and!; [done| |exact Hst|].
  - intros w'. simpl. unfold waiters. rewrite E. case_decide; [subst; by rewrite lookup_insert_eq|by rewrite lookup_insert_ne].
  - intros w'. by eapply wq_ok_woken.
Qed.

Lemma same_changed k w k' : kinv k' → same_waits k k' → changed k w (waiters k w) (status k) k'.
Proof.
  intros Hk [E Hst]. split_and!; [done| |exact Hst|].
  - intros w'. simpl. unfold waiters. rewrite E. by case_decide as Hd; [subst|].
  - intros w' (q & ? & ?). exists q. by rewrite E.
Qed.

Lemma block_changed k c t w timeout :
  kinv k → wq_ok k w → running k c t → timeout ≠ 0 →
  ∃ k', wait_queue_block k c w timeout = Some (Blocked k') ∧
    changed k w (waiters k w ++ [t]) (with_status k t NO_ERROR) k'.
Proof.
  intros Hi (q & Hq & Hm) (Hc & r & Hr & Hid) Hnz.
  destruct (wait_queue_block_ok k c t r w q timeout Hi Hc Hr Hid Hq Hm)
    as [[? _]|(_ & k1 & new & k' & E & Hk & Hsw & Hne & Ht & Ew & _ & _)]; [done|].
  exists k'. split; [done|]. destruct (switched_waits _ _ _ _ Hsw) as [Ew' Est].
  split_and!; [done| | |]; simpl.
  - intros w'. unfold waiters. rewrite Ew', Ew, Hq. case_decide; [subst; by rewrite lookup_insert_eq|by rewrite lookup_insert_ne].
  - intros x. rewrite Est. unfold with_status. simpl. unfold status. case_decide as Hx; [subst x; by rewrite Ht|by rewrite Hne].
  - intros w' (q' & Hq' & Hm'). unfold wq_ok. rewrite Ew', Ew. destruct (decide (w' = w)) as [->|].
    + rewrite lookup_insert_eq. eexists. by split.
    + rewrite lookup_insert_ne by done. eauto.
Qed.

Lemma resume_changed k c t w timeout :
  kinv k → running k c t →
  ∃ k', wait_queue_block_resume k t timeout = Some (status k t, k') ∧ changed k w (waiters k w) (status k) k'.
Proof.
  intros Hi (_ & r & Hr & _). destruct (block_resume_ok k t timeout Hi ltac:(eauto)) as (e & k' & E & Hk).
  exists k'. revert E. unfold wait_queue_block_resume, status. rewrite Hr. destruct (negb _).
  - change (threads (timer_cancel k t)) with (threads k). rewrite Hr. cbn [mbind option_bind]. intros [= <- <-].
    split; [done|]. by apply same_changed.
  - rewrite Hr. cbn [mbind option_bind]. intros [= <- <-]. split; [done|]. by apply same_changed.
Qed.

Lemma wake_running k c t u w err k' :
  running k c t → wait_queue_wake_one k c w false err = Some (u, k') → running k' c t.
Proof.
  intros (Hc & r & Hr & Hid). unfold wait_queue_wake_one.
  destruct (wqs k !! w) as [q|]; cbn [mbind option_bind]; [|done]. destruct (_ =? _); [|done].
  destruct (wq_list q) as [|x l]; [intros [= <- <-]; split; eauto|].
  destruct (threads (set_wq _ _ _ _) !! x) as [rx|] eqn:Hx; cbn [mbind option_bind]; [|done].
  destruct (has_state rx _); [|done]. set (k2 := wake _ x err).
  destruct (insert_in_run_queue_head k2 x) as [k4|] eqn:E; cbn [mbind option_bind]; [|done]. intros [= <- <-].
  destruct (insert_frame true _ _ _ E) as (Et & Ec & _). unfold running. rewrite Et, Ec. split; [done|].
  unfold k2, wake. destruct (decide (t = x)) as [->|Hne].
  - change (threads (set_wq _ _ _ _)) with (threads k) in Hx. simplify_eq. eexists. split; [by apply lookup_upd_eq|done].
  - exists r. by rewrite lookup_upd_ne.
Qed.

#[global] Instance sched_wait_spec : WaitSpec kstate.
Proof.
  split; simpl.
  - by intros k c t [? _].
  - intros k c t w Hi (Hc & r & Hr & _) Hw. destruct (kinv_current k c t Hi Hc) as (r' & Hr' & Hs & _).
    unfold waiters in Hw. destruct (wqs k !! w) as [q|] eqn:Hq; [|set_solver].
    destruct (si_wq _ _ _ Hi _ _ _ Hq Hw) as (r2 & Hr2 & Hs2 & _). congruence.
  - intros k c t w Hi (q & Hq & Hm) (Hc & r & Hr & Hid).
    destruct (wait_queue_block_ok k c t r w q 0 Hi Hc Hr Hid Hq Hm) as [[_ ->]|[? _]]; done.
  - intros k c t w timeout Hi Hw Hrun Hnz.
    destruct (block_changed k c t w timeout Hi Hw Hrun Hnz) as (k' & -> & ?). by exists k'.
  - intros k c t w timeout. apply resume_changed.
  - intros k c t x timeout ret k' (Hc & r & Hr & Hid). unfold wait_queue_block_resume. destruct (negb _).
    + change (threads (timer_cancel k x)) with (threads k).
      destruct (threads k !! x); cbn [mbind option_bind]; [|done]. intros [= <- <-]. split; eauto.
    + destruct (threads k !! x); cbn [mbind option_bind]; [|done]. intros [= <- <-]. split; eauto.
  - intros k c w b err Hi (q & Hq & Hm) Hb. rewrite (wq_ok_waiters _ _ _ Hq).
    assert (Hre : b = true → can_resched k c) by (intros E; destruct (Hb E) as [t Ht]; by eapply running_can_resched).
    pose proof (wake_one_ok k w q b err c Hi Hq Hm Hre) as Hwake. destruct (wq_list q) as [|t l]; [done|].
    destruct Hwake as (k' & E & Hk & Hwk). exists k'. split; [done|]. by apply woken_changed.
  - intros k c w b err Hi (q & Hq & Hm) Hb. rewrite (wq_ok_waiters _ _ _ Hq).
    assert (Hre : b = true → can_resched k c) by (intros E; destruct (Hb E) as [t Ht]; by eapply running_can_resched).
    destruct (wake_all_ok k w q b err c Hi Hq Hm Hre) as (k' & E & Hk & Ew & Est). exists k'. split; [done|].
    split_and!; [done| |done|]; simpl.
    + intros w'. unfold waiters. rewrite Ew. case_decide; [subst; by rewrite lookup_insert_eq|by rewrite lookup_insert_ne].
    + intros w' (q' & Hq' & Hm'). unfold wq_ok. rewrite Ew. destruct (decide (w' = w)) as [->|].
      * rewrite lookup_insert_eq. eexists. by split.
      * rewrite lookup_insert_ne by done. eauto.
  - intros k c t u w err k'. apply wake_running.
  - intros k t b w Hi. apply same_changed; [by apply sinv_upd_view|by apply upd_waits].
  - intros k c t x b (Hc & r & Hr & Hid). split; [done|]. destruct (decide (t = x)) as [->|Hne].
    + eexists. split; [by apply lookup_upd_eq|done].
    + exists r. by rewrite lookup_upd_ne.
Qed.

(** A timeout takes the thread off its queue with [ERR_TIMED_OUT]. *)
Lemma timer_fire_changed k t r w l1 l2 b k' :
  kinv k → threads k !! t = Some r → is_thread r = true → timers k !! t = Some wait_queue_timeout_cb →
  waiters k w = l1 ++ t :: l2 → timer_fire k t = Some (b, k') →
  changed k w (l1 ++ l2) (with_status k t ERR_TIMED_OUT) k'.
Proof.
  intros Hi Hr Hm Ht Hl. unfold timer_fire. rewrite Ht. cbn [mbind option_bind].
  unfold wait_queue_timeout_handler. change (threads (timer_cancel k t)) with (threads k). rewrite Hr.
  cbn [mbind option_bind]. rewrite Hm.
  assert (Hi1 : kinv (timer_cancel k t)) by (by apply kinv_timers).
  pose proof (kinv_nodup k w Hi) as Hnd. rewrite Hl in Hnd.
  unfold waiters in Hl. destruct (wqs k !! w) as [q|] eqn:Hq; [|by destruct l1].
  destruct (si_wq _ _ _ Hi _ _ t Hq ltac:(rewrite Hl; set_solver)) as (r' & Hr' & Hs & Hbw).
  assert (r' = r) as -> by congruence.
  destruct (unblock_ok None (timer_cancel k t) t r ERR_TIMED_OUT Hi1 Hr Hm)
    as [[? _]|(_ & w' & l1' & l2' & k2 & Hl' & -> & Hk2 & Hwk & _)]; [done|].
  cbn [mbind option_bind]. intros [= <- <-].
  assert (w' = w) as ->.
  { unfold waiters in Hl'. change (wqs (timer_cancel k t)) with (wqs k) in Hl'. destruct (wqs k !! w') as [q'|] eqn:Hq'; [|by destruct l1'].
    destruct (si_wq _ _ _ Hi _ _ t Hq' ltac:(rewrite Hl'; set_solver)) as (r2 & Hr2 & _ & Hbw2). congruence. }
  unfold waiters in Hl'. change (wqs (timer_cancel k t)) with (wqs k) in Hl'. rewrite Hq in Hl'.
  assert (l1 ++ l2 = l1' ++ l2') as ->.
  { rewrite Hl in Hl'. pose proof Hnd as Hnd2. rewrite Hl' in Hnd2.
    apply NoDup_app in Hnd as (_ & Hd & Hn). apply NoDup_cons in Hn as [Hn _].
    apply NoDup_app in Hnd2 as (_ & Hd2 & Hn2). apply NoDup_cons in Hn2 as [Hn2 _].
    rewrite <- (filter_mid t l1 l2), <- (filter_mid t l1' l2'), Hl'; set_solver. }
  exact (woken_changed k w t (l1' ++ l2') ERR_TIMED_OUT k2 Hk2 Hwk).
Qed.

(** ** Concrete runs *)

Lemma kinv_wq_init k w : kinv k → wqs k !! w = None → kinv (wait_queue_init k w).
Proof.
  intros Hi Hw. set (kk := wait_queue_init k w).
  assert (Hlw : ∀ x, wqs kk !! x = if decide (x = w) then Some (mk_wq WAIT_QUEUE_MAGIC [] 0) else wqs k !! x).
  { intros x. simpl. case_decide; [subst; apply lookup_insert_eq|by apply lookup_insert_ne]. }
  split; try by apply Hi.
  - intros w' q x. rewrite Hlw. case_decide; [intros [= <-]; simpl; set_solver|]. apply Hi.
  - intros w' q. rewrite Hlw. case_decide; [|by apply Hi]. intros [= <-]. split; [constructor|done].
  - intros x rx Hx Hb. destruct (si_blocked _ _ _ Hi _ _ Hx Hb) as (w' & q & ? & ? & ? & ?). exists w', q.
    rewrite Hlw, decide_False; [done|]. congruence.
Qed.

(** Thread 2 of priority 16 runs, threads 3 (16) and 4 (20) are created. *)
Definition ex_three : kstate :=
  ex_run (ex_run ex_resumed (OCreate [true; true] 3 103 false false 16)) (OCreate [true; true] 4 104 false false 20).

Lemma ex_three_kinv : kinv ex_three.
Proof.
  apply kreach_kinv. unfold ex_three.
  set (k1 := ex_run ex_resumed _).
  apply (kreach_step k1 (OCreate [true; true] 4 104 false false 20)).
  - apply (kreach_step ex_resumed (OCreate [true; true] 3 103 false false 16)); [apply ex_resumed_reach| |vm_compute; reflexivity].
    split_and!; [vm_compute; reflexivity|vm_compute; reflexivity|lia|lia].
  - split_and!; [vm_compute; reflexivity|vm_compute; reflexivity|lia|lia].
  - vm_compute; reflexivity.
Qed.

(** *** A mutex, a timeout and a release *)

Definition after_op (s : mcfg) (o : op) : mcfg := mk_mcfg (ex_run (mk_k s) o) (mtx s) (pend s) (own s).

Definition after_acquire (s : mcfg) (c t : nat) (timeout : Z) : mcfg :=
  match mutex_acquire_timeout (mk_k s) c (mtx s) timeout with
  | Some (m', Done ret k') => mk_mcfg k' m' (pend s) (gain t ret (own s))
  | Some (m', Wait k') => mk_mcfg k' m' (<[t := timeout]> (pend s)) (own s)
  | None => s
  end.

Definition after_release (s : mcfg) (c t : nat) : mcfg :=
  match mutex_release (mk_k s) c (mtx s) with
  | Some (_, m', k') => mk_mcfg k' m' (pend s) (own s ∖ {[t]})
  | None => s
  end.

Lemma reach_op P s o :
  mreach P s → pre (mk_k s) o → wq_ok (ex_run (mk_k s) o) (m_wait (mtx s)) →
  waiters (ex_run (mk_k s) o) (m_wait (mtx s)) = waiters (mk_k s) (m_wait (mtx s)) →
  map_Forall (λ x _, status (ex_run (mk_k s) o) x = status (mk_k s) x) (pend s) →
  mreach P (after_op s o).
Proof.
  intros Hr Hp Hw Ew Hst. eapply mreach_step; [exact Hr|].
  destruct (exec_ok (mk_k s) o (mi_ok s (mreach_minv _ _ Hr)) Hp) as (k2 & E2 & Hk).
  assert (ex_run (mk_k s) o = k2) as E by (unfold ex_run; by rewrite E2).
  apply ms_env; [by rewrite E|done|done|]. intros x [tm Hx]. by eapply (Hst x tm).
Qed.

Lemma reach_acquire P s c t timeout :
  mreach P s → running (mk_k s) c t → pend s !! t = None → P timeout → mreach P (after_acquire s c t timeout).
Proof.
  intros Hr Hrun Hp HP. unfold after_acquire.
  destruct (mutex_acquire_timeout _ _ _ _) as [[m' [ret k'|k']]|] eqn:E; [| |done];
    (eapply mreach_step; [exact Hr|]); [by eapply ms_done|by eapply ms_wait].
Qed.

Lemma reach_release P s c t :
  mreach P s → running (mk_k s) c t → pend s !! t = None → mreach P (after_release s c t).
Proof.
  intros Hr Hrun Hp. unfold after_release.
  destruct (mutex_release _ _ _) as [[[ret m'] k']|] eqn:E; [|done].
  eapply mreach_step; [exact Hr|]. apply (ms_release P s c t); [done|done|]. rewrite E. do 3 f_equal.
  revert E. unfold mutex_release. destruct (_ =? _); [|done]. destruct (Sync.get_current_thread _ _); cbn [mbind option_bind]; [|done].
  destruct (bool_decide _); [|done]. destruct (mutex_release_internal _ _ _ _) as [[m1 k1]|]; cbn [mbind option_bind]; [|done].
  congruence.
Qed.

Lemma reach_timer P s t r timeout l1 l2 :
  mreach P s → pend s !! t = Some timeout → timeout ≠ INFINITE_TIME →
  threads (mk_k s) !! t = Some r → is_thread r = true → thread_is_idle r = false →
  timers (mk_k s) !! t = Some wait_queue_timeout_cb →
  waiters (mk_k s) (m_wait (mtx s)) = l1 ++ t :: l2 → mreach P (after_op s (OTimer t)).
Proof.
  intros Hr Hp Hti Ht Hm Hid Htm Hl. pose proof (mi_ok s (mreach_minv _ _ Hr)) as Hk.
  eapply mreach_step; [exact Hr|]. apply (ms_timeout P s t timeout l1 l2); [done|done|done|].
  destruct (timer_fire_ok (mk_k s) t _ r Hk Htm Ht Hm Hid) as (b & k' & E & _).
  unfold after_op, ex_run. simpl. rewrite E. simpl. by eapply timer_fire_changed.
Qed.

Definition lw0 : mcfg :=
  let '(m, k) := mutex_init ex_three 200 in mk_mcfg k m ∅ ∅.
(** Thread 2 takes the mutex; thread 3 starts and waits for it with a timeout. *)
Definition lw1 : mcfg := after_acquire lw0 0 2 INFINITE_TIME.
Definition lw2 : mcfg := after_op lw1 (OResume 0 3 false).
Definition lw3 : mcfg := after_acquire lw2 0 3 100.
(** The timeout fires, and before thread 3 runs, thread 2 releases the mutex. *)
Definition lw4 : mcfg := after_op lw3 (OTimer 3).
Definition lw5 : mcfg := after_release lw4 0 2.
(** Thread 4 starts and asks for the mutex. *)
Definition lw6 : mcfg := after_op lw5 (OResume 0 4 false).
Definition lw7 : mcfg := after_acquire lw6 0 4 INFINITE_TIME.

Ltac concrete := vm_compute; reflexivity.
Ltac concrete_running := split; [concrete|eexists; split; concrete].
Ltac concrete_resume := split; [eexists; concrete|eexists; split; [split_and!; concrete|vm_compute; discriminate]].

Definition any (timeout : Z) : Prop := True.

Lemma lw0_reach P : mreach P lw0.
Proof.
  apply mreach_init; simpl.
  - apply kinv_wq_init; [apply ex_three_kinv|concrete].
  - eexists. split; concrete.
  - concrete.
Qed.

Lemma lw1_reach : mreach any lw1.
Proof. apply (reach_acquire any lw0 0 2 INFINITE_TIME); [apply lw0_reach|concrete_running|concrete|done]. Qed.
Lemma lw2_reach : mreach any lw2.
Proof.
  apply (reach_op any lw1 (OResume 0 3 false)); [apply lw1_reach|concrete_resume|eexists; split; concrete|concrete|].
  apply (bool_decide_unpack _). vm_compute. exact I.
Qed.
Lemma lw3_reach : mreach any lw3.
Proof. apply (reach_acquire any lw2 0 3 100); [apply lw2_reach|concrete_running|concrete|done]. Qed.
Lemma lw4_reach : mreach any lw4.
Proof. eapply (reach_timer any lw3 3 _ 100 [] []); [apply lw3_reach|concrete|done|concrete|concrete|concrete|concrete|concrete]. Qed.
Lemma lw5_reach : mreach any lw5.
Proof. apply (reach_release any lw4 0 2); [apply lw4_reach|concrete_running|concrete]. Qed.
Lemma lw6_reach : mreach any lw6.
Proof.
  apply (reach_op any lw5 (OResume 0 4 false)); [apply lw5_reach|concrete_resume|eexists; split; concrete|concrete|].
  apply (bool_decide_unpack _). vm_compute. exact I.
Qed.
Lemma lw7_reach : mreach any lw7.
Proof. apply (reach_acquire any lw6 0 4 INFINITE_TIME); [apply lw6_reach|concrete_running|concrete|done]. Qed.

Lemma no_handed (s : mcfg) :
  map_Forall (λ x _, x ∈ waiters (mk_k s) (m_wait (mtx s)) ∨ status (mk_k s) x ≠ NO_ERROR) (pend s) → ∀ x, ¬ handed s x.
Proof. intros Hall x ([tm Hx] & Hw & Hs). by destruct (Hall x tm Hx). Qed.

Lemma lw7_stuck : stuck 4 lw7.
Proof.
  split_and!; [apply (mreach_minv any), lw7_reach|concrete|apply no_handed|vm_compute; set_solver|concrete].
  apply (bool_decide_unpack _). vm_compute. exact I.
Qed.

(** *** A semaphore, a timeout and a post *)

Definition after_sop (s : scfg) (o : op) : scfg := mk_scfg (ex_run (sk s) o) (sem s) (spend s) (posts s) (passed s).

Definition after_sblock (s : scfg) (c t : nat) (o : option Z) : scfg :=
  match sem_block (sk s) c (sem s) o with
  | Some (m', Done ret k') => mk_scfg k' m' (spend s) (posts s) (pass ret (passed s))
  | Some (m', Wait k') => mk_scfg k' m' (<[t := o]> (spend s)) (posts s) (passed s)
  | None => s
  end.

Definition after_post (s : scfg) (c : nat) (b : bool) : scfg :=
  match sem_post (sk s) c (sem s) b with
  | Some (_, m', k') => mk_scfg k' m' (spend s) (posts s + 1) (passed s)
  | None => s
  end.

Definition after_sresume (s : scfg) (t : nat) (o : option Z) : scfg :=
  match sem_resume (sk s) (sem s) t o with
  | Some (ret, m', k') => mk_scfg k' m' (delete t (spend s)) (posts s) (pass ret (passed s))
  | None => s
  end.

Section runs.
Context (P : Z → Prop) (value : Z) (Hv : 0 ≤ value).

Lemma sreach_op s o :
  sreach P value s → pre (sk s) o → wq_ok (ex_run (sk s) o) (s_wait (sem s)) →
  waiters (ex_run (sk s) o) (s_wait (sem s)) = waiters (sk s) (s_wait (sem s)) →
  map_Forall (λ x _, status (ex_run (sk s) o) x = status (sk s) x) (spend s) →
  sreach P value (after_sop s o).
Proof using Hv.
  intros Hr Hp Hw Ew Hst. eapply sreach_step; [exact Hr|]. destruct (sreach_seminv _ _ _ Hv Hr) as [h Hi].
  destruct (exec_ok (sk s) o (sm_ok _ _ s Hi) Hp) as (k2 & E2 & Hk).
  assert (ex_run (sk s) o = k2) as E by (unfold ex_run; by rewrite E2).
  apply ss_env; [by rewrite E|done|done|]. intros x [tm Hx]. by eapply (Hst x tm).
Qed.

Lemma sreach_block s c t o :
  sreach P value s → running (sk s) c t → spend s !! t = None → P (limit o) → sreach P value (after_sblock s c t o).
Proof.
  intros Hr Hrun Hp HP. unfold after_sblock.
  destruct (sem_block _ _ _ _) as [[m' [ret k'|k']]|] eqn:E; [| |done];
    (eapply sreach_step; [exact Hr|]); [by eapply ss_done|by eapply ss_wait].
Qed.

Lemma sreach_post s c t b : sreach P value s → running (sk s) c t → sreach P value (after_post s c b).
Proof.
  intros Hr Hrun. unfold after_post. destruct (sem_post _ _ _ _) as [[[n m'] k']|] eqn:E; [|done].
  eapply sreach_step; [exact Hr|]. by eapply ss_post.
Qed.

Lemma sreach_resume s c t o :
  sreach P value s → running (sk s) c t → spend s !! t = Some o → sreach P value (after_sresume s t o).
Proof.
  intros Hr Hrun Hp. unfold after_sresume. destruct (sem_resume _ _ _ _) as [[[n m'] k']|] eqn:E; [|done].
  eapply sreach_step; [exact Hr|]. by eapply ss_resume.
Qed.

Lemma sreach_timer s t r o l1 l2 :
  sreach P value s → spend s !! t = Some o → limit o ≠ INFINITE_TIME →
  threads (sk s) !! t = Some r → is_thread r = true → thread_is_idle r = false →
  timers (sk s) !! t = Some wait_queue_timeout_cb →
  waiters (sk s) (s_wait (sem s)) = l1 ++ t :: l2 → sreach P value (after_sop s (OTimer t)).
Proof using Hv.
  intros Hr Hp Hti Ht Hm Hid Htm Hl. destruct (sreach_seminv _ _ _ Hv Hr) as [h Hi].
  eapply sreach_step; [exact Hr|]. apply (ss_timeout P s t o l1 l2); [done|done|done|].
  destruct (timer_fire_ok (sk s) t _ r (sm_ok _ _ s Hi) Htm Ht Hm Hid) as (b & k' & E & _).
  unfold after_sop, ex_run. simpl. rewrite E. simpl. eapply timer_fire_changed; eauto. apply Hi.
Qed.
End runs.

(** Thread 3 waits with a timeout, which fires; before thread 3 runs, thread 2 posts
    and thread 4 starts and waits; then thread 3 gives up. *)
Definition sw0 : scfg := let '(m, k) := sem_init ex_three 201 0 in mk_scfg k m ∅ 0 0.
Definition sw1 : scfg := after_sop sw0 (OResume 0 3 false).
Definition sw2 : scfg := after_sblock sw1 0 3 (Some 100).
Definition sw3 : scfg := after_sop sw2 (OTimer 3).
Definition sw4 : scfg := after_post sw3 0 true.
Definition sw5 : scfg := after_sop sw4 (OResume 0 4 false).
Definition sw6 : scfg := after_sblock sw5 0 4 None.
Definition sw7 : scfg := after_sresume sw6 3 (Some 100).

Lemma sw0_reach P : sreach P 0 sw0.
Proof.
  apply sreach_init; simpl.
  - apply kinv_wq_init; [apply ex_three_kinv|concrete].
  - eexists. split; concrete.
  - concrete.
Qed.

Lemma sw1_reach P : sreach P 0 sw1.
Proof.
  apply (sreach_op P 0 ltac:(lia) sw0 (OResume 0 3 false)); [apply sw0_reach|concrete_resume|eexists; split; concrete|concrete|].
  apply (bool_decide_unpack _). vm_compute. exact I.
Qed.
Lemma sw2_reach : sreach any 0 sw2.
Proof. apply (sreach_block any 0 sw1 0 3); [apply sw1_reach|concrete_running|concrete|done]. Qed.
Lemma sw3_reach : sreach any 0 sw3.
Proof.
  eapply (sreach_timer any 0 ltac:(lia) sw2 3 _ (Some 100) [] []);
    [apply sw2_reach|concrete|done|concrete|concrete|concrete|concrete|concrete].
Qed.
Lemma sw4_reach : sreach any 0 sw4.
Proof. apply (sreach_post any 0 sw3 0 2); [apply sw3_reach|concrete_running]. Qed.
Lemma sw5_reach : sreach any 0 sw5.
Proof.
  apply (sreach_op any 0 ltac:(lia) sw4 (OResume 0 4 false)); [apply sw4_reach|concrete_resume|eexists; split; concrete|concrete|].
  apply (bool_decide_unpack _). vm_compute. exact I.
Qed.
Lemma sw6_reach : sreach any 0 sw6.
Proof. apply (sreach_block any 0 sw5 0 4); [apply sw5_reach|concrete_running|concrete|done]. Qed.
Lemma sw7_reach : sreach any 0 sw7.
Proof. apply (sreach_resume any 0 sw6 0 3); [apply sw6_reach|concrete_running|concrete]. Qed.

(** From a stranded state posts go on and do not reach the waiter. *)
Lemma stranded_posts u (s s' : scfg) : stranded u s → (∃ c t, running (sk s) c t) → rtc sposted s s' →
  stranded u s' ∧ s_count (sem s') - posts s' = s_count (sem s) - posts s ∧ ∃ s'', sposted s' s''.
Proof.
  intros Hs Hrun. induction 1 as [s|s1 s2 s3 Hp _ IH].
  - split_and!; [done|done|]. destruct Hrun as (c & t & Hrun). destruct Hs as (Hc & _).
    destruct (sem_post (sk s) c (sem s) false) as [[[n m'] k']|] eqn:E; [by eexists; exists c, t, false, n, m', k'|].
    revert E. unfold sem_post. cbn [s_count]. destruct (s_count (sem s) + 1 <=? 0) eqn:Ec; zb; [lia|done].
  - destruct (stranded_post u s1 s2 Hs Hp) as [Hs2 Hc2].
    assert (Hk : sk s2 = sk s1 ∧ posts s2 = posts s1 + 1).
    { destruct Hp as (c & t & b & n & m' & k' & _ & E & ->). split; [|done]. simpl. revert E. unfold sem_post. cbn [s_count].
      destruct Hs as (Hc & _). destruct (s_count (sem s1) + 1 <=? 0) eqn:Ec; zb; [lia|]. by intros [= <- <- <-]. }
    destruct Hk as [Hk Hpo]. destruct IH as (? & ? & ?); [done|by rewrite Hk|]. split_and!; [done|lia|done].
Qed.

(** ** Properties *)

(** C8.  A mutex is held by one thread at a time: in every state that calls of
    acquire and release, timeouts and anything else in the kernel lead to, two
    threads whose acquire has returned success without a release since are the
    same thread, and it is the recorded holder. *)
Theorem mutex_mutual_exclusion {K} `{WaitSpec K} P (s : mcfg) t u :
  mreach P s → t ∈ own s → u ∈ own s → t = u ∧ holder (mtx s) = Some t.
Proof.
  intros Hr Ht Hu. apply mreach_minv in Hr.
  destruct (own_singleton s t Hr Ht) as [E Hh], (own_singleton s u Hr Hu) as [E' Hh']. split; [congruence|done].
Qed.

Lemma mutex_mutual_exclusion_witness : mreach any lw1 ∧ 2%nat ∈ own lw1 ∧ 2%nat = 2%nat ∧ holder (mtx lw1) = Some 2%nat.
Proof.
  assert (Ho : 2%nat ∈ own lw1) by (vm_compute; reflexivity).
  split_and!; [apply lw1_reach|exact Ho|done|].
  apply (mutex_mutual_exclusion any lw1 2 2 lw1_reach Ho Ho).
Defined.

(** C9.  Without finite timeouts no wakeup is lost: when no thread owns the
    mutex and none has been handed it, no thread waits for it and its count is
    zero, so that the next acquire succeeds. *)
Theorem mutex_no_lost_wakeup {K} `{WaitSpec K} (s : mcfg) :
  mreach forever s → own s = ∅ → (∀ x, ¬ handed s x) → pend s = ∅ ∧ m_count (mtx s) = 0.
Proof.
  intros Hr Ho Hn. pose proof (mreach_minv _ _ Hr) as Hi. destruct (mreach_served s Hr) as [_ Hs].
  pose proof (Hs Ho Hn) as Hp. split; [done|]. by rewrite (mi_count s Hi), Ho, Hp.
Qed.

(** A mutex that was taken, waited for, released and taken by the waiter. *)
Definition fw1 : mcfg := after_acquire lw0 0 2 INFINITE_TIME.
Definition fw2 : mcfg := after_release fw1 0 2.

Lemma fw2_reach : mreach forever fw2.
Proof.
  apply (reach_release forever fw1 0 2); [|concrete_running|concrete].
  apply (reach_acquire forever lw0 0 2 INFINITE_TIME); [apply lw0_reach|concrete_running|concrete|by left].
Qed.

Lemma mutex_no_lost_wakeup_witness : mreach forever fw2 ∧ own fw2 = ∅ ∧ pend fw2 = ∅ ∧ m_count (mtx fw2) = 0.
Proof.
  assert (Ho : own fw2 = ∅) by concrete.
  split_and!; [apply fw2_reach|exact Ho|..].
  all: apply (mutex_no_lost_wakeup fw2 fw2_reach Ho), no_handed, (bool_decide_unpack _); vm_compute; exact I.
Defined.

(** With finite timeouts a wakeup can be lost for good: the kernel reaches
    a state in which a thread waits for a mutex without a timeout, nobody owns
    the mutex, and whatever happens from then on nobody ever will. *)
Theorem mutex_lost_wakeup : ∃ s : mcfg (K := kstate), mreach any s ∧
  ∀ s', rtc (mstep any) s s' → own s' = ∅ ∧ pend s' !! 4%nat = Some INFINITE_TIME ∧
    4%nat ∈ waiters (mk_k s') (m_wait (mtx s')).
Proof.
  exists lw7. split; [apply lw7_reach|]. intros s' Hst.
  destruct (stuck_forever any 4 lw7 s' lw7_stuck Hst) as (_ & ? & _ & ? & ?). done.
Qed.


Definition fs2 : scfg := after_sblock sw1 0 3 None.


(** With finite timeouts a post can miss a waiter: the kernel reaches a
    state in which a thread waits without a timeout and any number of further
    posts raise the count above zero and leave the thread waiting. *)
Theorem sem_lost_wakeup : ∃ s : scfg (K := kstate), sreach any 0 s ∧ s_count (sem s) = 0 ∧
  ∀ s', rtc sposted s s' → 4%nat ∈ waiters (sk s') (s_wait (sem s')) ∧
    s_count (sem s') = posts s' - posts s ∧ ∃ s'', sposted s' s''.
Proof.
  exists sw7. split_and!; [apply sw7_reach|concrete|]. intros s' Hst.
  destruct (stranded_posts 4 sw7 s') as ((_ & ? & _) & Hc & ?); [| |done|].
  - split_and!; [vm_compute; discriminate|vm_compute; set_solver|concrete].
  - exists 0%nat, 3%nat. concrete_running.
  - split_and!; [done| |done]. assert (s_count (sem sw7) = 0) as E by concrete. lia.
Qed.

(** With finite timeouts a wakeup can be lost for good.  The kernel reaches a
    state in which a thread waits for a mutex without a timeout, nobody owns the
    mutex, and whatever happens from then on nobody ever will; and a state in which a
    thread waits on a semaphore without a timeout and any number of further posts
    raise the count above zero and leave the thread waiting. *)
Theorem timeouts_lose_wakeups :
  (∃ s : mcfg (K := kstate), mreach any s ∧
    ∀ s', rtc (mstep any) s s' → own s' = ∅ ∧ pend s' !! 4%nat = Some INFINITE_TIME ∧
      4%nat ∈ waiters (mk_k s') (m_wait (mtx s'))) ∧
  (∃ s : scfg (K := kstate), sreach any 0 s ∧ s_count (sem s) = 0 ∧
    ∀ s', rtc sposted s s' → 4%nat ∈ waiters (sk s') (s_wait (sem s')) ∧
      s_count (sem s') = posts s' - posts s ∧ ∃ s'', sposted s' s'').
Proof. split; [exact mutex_lost_wakeup|exact sem_lost_wakeup]. Qed.

(** C11.  An event loses no wakeup: while it is signalled no thread waits on
    it.  A signal always succeeds; when the event is not signalled it wakes
    every waiter with the given status and leaves the event signalled, or, for
    an event that unsignals itself, wakes the first waiter only and stays
    signalled only when there was none. *)
Theorem event_no_lost_wakeup {K} `{WaitSpec K} k e c t b err :
  ereach (k, e) → krunning k c t →
  let w := e_wait e in
  (signalled e = true → kwaiters k w = []) ∧
  ∃ n e' k', event_signal_etc k c e b err = Some (n, e', k') ∧
    if signalled e then n = 0 ∧ e' = e ∧ k' = k
    else if autounsignal e then
      match kwaiters k w with
      | [] => n = 0 ∧ e' = set_signalled true e ∧ k' = k
      | u :: l => n = 1 ∧ e' = e ∧ changed k w l (with_status k u err) k'
      end
    else n = Z.of_nat (length (kwaiters k w)) ∧ e' = set_signalled true e ∧
         changed k w [] (λ x, if decide (x ∈ kwaiters k w) then err else kstatus k x) k'.
Proof.
  intros Hr Hrun w. pose proof (ereach_einv _ Hr) as Hi. split; [apply Hi|].
  apply event_signal_cases; eauto.
Qed.

(** Thread 3 waits for an event that unsignals itself; thread 2 runs. *)
Definition ev0 : kstate * event :=
  let '(e, k) := event_init (ex_run ex_three (OResume 0 3 false)) 202 false EVENT_FLAG_AUTOUNSIGNAL in (k, e).
Definition ev1 : kstate * event :=
  match event_wait_timeout ev0.1 0 ev0.2 INFINITE_TIME false with
  | Some (e', Wait k') => (k', e')
  | _ => ev0
  end.

Lemma ev1_reach : ereach ev1.
Proof.
  assert (Hr : ereach ev0).
  { apply ereach_init; simpl; [|eexists; split; concrete|concrete].
    apply kinv_wq_init; [|concrete].
    assert (Hp : pre ex_three (OResume 0 3 false)) by concrete_resume.
    destruct (exec_ok ex_three _ ex_three_kinv Hp) as (k2 & E & Hk). unfold ex_run. by rewrite E. }
  destruct (event_wait_timeout ev0.1 0 ev0.2 INFINITE_TIME false) as [[e' [ret k'|k']]|] eqn:E;
    unfold ev1; rewrite E; [done| |done].
  eapply ereach_step; [exact Hr|]. apply (es_wait 0 3 INFINITE_TIME false ev0.1 ev0.2 e' (Wait k')); [|exact E|done].
  concrete_running.
Qed.

Lemma event_no_lost_wakeup_witness : ereach ev1 ∧ krunning ev1.1 0 2 ∧
  ∃ n e' k', event_signal_etc ev1.1 0 ev1.2 true NO_ERROR = Some (n, e', k') ∧ signalled ev1.2 = false.
Proof.
  assert (Hrun : krunning ev1.1 0 2) by concrete_running.
  split_and!; [apply ev1_reach|exact Hrun|].
  assert (Hr : ereach (ev1.1, ev1.2)) by (destruct ev1 eqn:E; simpl; rewrite <- E; apply ev1_reach).
  destruct (event_no_lost_wakeup ev1.1 ev1.2 0 2 true NO_ERROR Hr Hrun) as (_ & n & e' & k' & E & _).
  exists n, e', k'. split; [exact E|concrete].
Defined.

(** Waiting on a condition variable releases the mutex and starts to wait
    in one step: the first thread that waits for the mutex is woken, the caller
    is at the tail of the condition variable's queue, and a signal that comes
    right after finds it there. *)
Theorem cond_wait_atomic {K} `{WaitSpec K} k c t cv m timeout :
  kok k → kwq k (m_wait m) → kwq k (c_wait cv) → krunning k c t → c_wait cv ≠ m_wait m →
  c_magic cv = COND_MAGIC → m_magic m = MUTEX_MAGIC → timeout ≠ 0 →
  ∃ k' m', cond_wait_timeout k c cv m timeout = Some (m', Wait k') ∧
    holder m' = None ∧ m_count m' = m_count m - 1 ∧
    kwaiters k' (c_wait cv) = kwaiters k (c_wait cv) ++ [t] ∧
    (2 ≤ m_count m → kwaiters k' (m_wait m) = tail (kwaiters k (m_wait m))) ∧
    ∀ c2 t2, krunning k' c2 t2 → kwaiters k (c_wait cv) = [] →
      ∃ k2, cond_signal k' c2 cv = Some k2 ∧ kwaiters k2 (c_wait cv) = [] ∧ kstatus k2 t = NO_ERROR.
Proof.
  intros Hk Hwm Hwc Hrun Hne Hmc Hmm Hnz.
  destruct (cond_wait_blocks k c t cv m timeout) as (k' & E & Hk' & Hq & Ec & Em); [done..|].
  do 2 eexists. split_and!; [exact E|done|done|done| |].
  - intros Hct. rewrite Em. destruct (2 <=? m_count m) eqn:E2; zb; [done|lia].
  - intros c2 t2 Hr2 Hemp. unfold cond_signal. rewrite Hmc, Z.eqb_refl.
    pose proof (wake_one_law k' c2 (c_wait cv) true NO_ERROR Hk' (Hq _ Hwc) ltac:(eauto)) as Hwake.
    rewrite Ec, Hemp in Hwake. simpl in Hwake. destruct Hwake as (k2 & -> & Hch). cbn [mbind option_bind].
    exists k2. split_and!; [done|exact (changed_waiters _ _ _ _ _ Hch)|].
    rewrite (changed_status _ _ _ _ _ t Hch). unfold with_status. by rewrite decide_True.
Qed.

(** Thread 2 holds a mutex and waits on a condition variable. *)
Definition cv_k : kstate := wait_queue_init (mk_k lw1) 203.

Lemma cv_k_kinv : kinv cv_k.
Proof. apply kinv_wq_init; [apply (mi_ok _ (mreach_minv _ _ lw1_reach))|concrete]. Qed.

(** A thread that returns from a wait on a condition variable, with the
    mutex free or after waiting for it, holds the mutex and gets the status of
    the wait on the condition variable. *)
Theorem cond_wait_returns_holding {K} `{WaitSpec K} k c t m timeout m' r :
  kok k → kwq k (m_wait m) → krunning k c t → cond_wait_resume k c m t timeout = Some (m', r) →
  match r with
  | Done ret k' => holder m' = Some t ∧ ret = kstatus k t
  | Wait k' => m_count m' = m_count m + 1 ∧ kwaiters k' (m_wait m) = kwaiters k (m_wait m) ++ [t] ∧
      ∀ k2 c2 ret, kok k2 → krunning k2 c2 t → kstatus k2 t = NO_ERROR →
        ∃ k3, cond_reacquire_resume k2 m' t ret = Some (ret, set_holder m' (Some t), k3)
  end.
Proof.
  intros Hk Hw Hrun. destruct r as [ret k'|k']; [by apply cond_returns_holding|]. intros E.
  destruct (cond_reacquire_waits k c t m timeout m' k' Hk Hw Hrun E) as (-> & Ew). split_and!; [done|done|].
  intros k2 c2 ret Hk2 Hr2 Hs. unfold cond_reacquire_resume, mutex_acquire_resume.
  destruct (resume_law k2 c2 t (m_wait m) INFINITE_TIME Hk2 Hr2) as (k3 & -> & _). cbn [mbind option_bind].
  rewrite Hs. by exists k3.
Qed.

(** The mutex is free again when thread 2 has been signalled and runs. *)
Definition cv_free : mutex := mk_mutex MUTEX_MAGIC None 0 200.

(** C12.  Waiting on a condition variable releases the mutex and starts to wait in one
    step: the first thread that waits for the mutex is woken, the caller is at the
    tail of the condition variable's queue, and a signal that comes right after finds
    it there.  A thread that returns from the wait, with the mutex free or after
    waiting for it, holds the mutex and gets the status of the wait. *)
Theorem cond_wait_correct {K} `{WaitSpec K} k c t m timeout :
  kok k → kwq k (m_wait m) → krunning k c t →
  (∀ cv, kwq k (c_wait cv) → c_wait cv ≠ m_wait m → c_magic cv = COND_MAGIC → m_magic m = MUTEX_MAGIC → timeout ≠ 0 →
    ∃ k' m', cond_wait_timeout k c cv m timeout = Some (m', Wait k') ∧
      holder m' = None ∧ m_count m' = m_count m - 1 ∧
      kwaiters k' (c_wait cv) = kwaiters k (c_wait cv) ++ [t] ∧
      (2 ≤ m_count m → kwaiters k' (m_wait m) = tail (kwaiters k (m_wait m))) ∧
      ∀ c2 t2, krunning k' c2 t2 → kwaiters k (c_wait cv) = [] →
        ∃ k2, cond_signal k' c2 cv = Some k2 ∧ kwaiters k2 (c_wait cv) = [] ∧ kstatus k2 t = NO_ERROR) ∧
  (∀ m' r, cond_wait_resume k c m t timeout = Some (m', r) →
    match r with
    | Done ret k' => holder m' = Some t ∧ ret = kstatus k t
    | Wait k' => m_count m' = m_count m + 1 ∧ kwaiters k' (m_wait m) = kwaiters k (m_wait m) ++ [t] ∧
        ∀ k2 c2 ret, kok k2 → krunning k2 c2 t → kstatus k2 t = NO_ERROR →
          ∃ k3, cond_reacquire_resume k2 m' t ret = Some (ret, set_holder m' (Some t), k3)
    end).
Proof.
  intros Hk Hw Hr. split; [intros cv ?????; by apply cond_wait_atomic|]. intros m' r. by apply cond_wait_returns_holding.
Qed.

Lemma cond_wait_correct_witness :
  (∃ k' m', cond_wait_timeout cv_k 0 (mk_cond COND_MAGIC 203) (mtx lw1) 50 = Some (m', Wait k') ∧ holder m' = None) ∧
  ∃ m' k', cond_wait_resume cv_k 0 cv_free 2 50 = Some (m', Done NO_ERROR k') ∧ holder m' = Some 2%nat ∧ NO_ERROR = kstatus cv_k 2.
Proof.
  split.
  - destruct (cond_wait_correct cv_k 0 2 (mtx lw1) 50) as [Hat _]; [apply cv_k_kinv|eexists; split; concrete|concrete_running|].
    destruct (Hat (mk_cond COND_MAGIC 203)) as (k' & m' & E & Hh & _); [eexists; split; concrete|vm_compute; discriminate|done|concrete|done|].
    by exists k', m'.
  - assert (E2 : match cond_wait_resume cv_k 0 cv_free 2 50 with Some (_, Done r _) => r =? NO_ERROR | _ => false end = true)
      by concrete.
    destruct (cond_wait_resume cv_k 0 cv_free 2 50) as [[m' [ret k'|k']]|] eqn:E; [|discriminate..].
    apply Z.eqb_eq in E2. subst ret. exists m', k'. split; [done|].
    refine (proj2 (cond_wait_correct cv_k 0 2 cv_free 50 cv_k_kinv _ _) m' (Done NO_ERROR k') E);
      [eexists; split; concrete|concrete_running].
Defined.

End SyncSched.
