(* ===== verification/Cbuf.v ===== *)
(** * Circular buffers

    [src/kernel/lib/cbuf/cbuf.c].  A buffer of [2^len_pow2] bytes with a read
    and a write index and an event that readers wait on.  The event is the one
    of [Sync]; [thread_preempt] is the scheduler's.  Bytes are integers, an
    access outside the buffer is [None], like a failed assertion. *)

From stdpp Require Import base tactics numbers list.
From Stdlib Require Import ZArith.
From S2P Require Import Prelude Sync.
#[local] Open Scope Z_scope.

Module Cbuf.
Import Sync.
Section cbuf.
Context {K : Type} `{WaitOps K} (thread_preempt : K → nat → option K).

Definition CBUF_WRITE_FLAG_CANRESCHEDULE : Z := 1.
Definition CBUF_WRITE_FLAG_NOFILL : Z := 2.

Record cbuf := mk_cbuf { head : Z; tail : Z; len_pow2 : Z; buf : list Z; cb_event : event }.

Definition set_head (cb : cbuf) (h : Z) (b : list Z) : cbuf := mk_cbuf h (tail cb) (len_pow2 cb) b (cb_event cb).
Definition set_tail (cb : cbuf) (t : Z) : cbuf := mk_cbuf (head cb) t (len_pow2 cb) (buf cb) (cb_event cb).
Definition set_event (cb : cbuf) (e : event) : cbuf := mk_cbuf (head cb) (tail cb) (len_pow2 cb) (buf cb) e.

Definition has_flag (flags f : Z) : bool := negb (Z.land flags f =? 0).

Definition INC_POINTER (cb : cbuf) (ptr inc : Z) : Z := modpow2 (u32 (ptr + inc)) (len_pow2 cb).

Definition cbuf_initialize_etc (k : K) (w : nat) (len : Z) (b : list Z) : option (cbuf * K) :=
  ASSERT (0 <? len) && ispow2 (u32 len);
  let '(e, k1) := event_init k w false 0 in
  Some (mk_cbuf 0 0 (log2_uint (u32 len)) b e, k1).

(** [malloc] returns memory that holds [b], or nothing; the result is not checked. *)
Definition cbuf_initialize (k : K) (m : mem) (w : nat) (len : Z) (b : list Z) : option (cbuf * K * mem) :=
  let '(ok, m1) := alloc m in
  '(cb, k1) ← cbuf_initialize_etc k w len (if ok then b else []);
  Some (cb, k1, m1).

Definition cbuf_space_avail (cb : cbuf) : Z :=
  let consumed := modpow2 (u32 (head cb - tail cb)) (len_pow2 cb) in
  u32 (u32 (valpow2 (len_pow2 cb) - consumed) - 1).

Definition cbuf_space_used (cb : cbuf) : Z := modpow2 (u32 (head cb - tail cb)) (len_pow2 cb).

Definition cbuf_size (cb : cbuf) : Z := u64 (Z.shiftl 1 (len_pow2 cb)).

(** What one pass of the write loop stores at the write index. *)
Definition store (cb : cbuf) (src : option (list Z)) (pos write_len flags : Z) : option (list Z) :=
  match src with
  | None => if has_flag flags CBUF_WRITE_FLAG_NOFILL then Some (buf cb)
            else write_at (head cb) (replicate (Z.to_nat write_len) 0) (buf cb)
  | Some d => chunk ← read_at pos write_len d; write_at (head cb) chunk (buf cb)
  end.

Fixpoint write_loop (fuel : nat) (cb : cbuf) (src : option (list Z)) (len flags pos : Z) : option (cbuf * Z) :=
  match fuel with
  | O => None
  | S fuel' =>
    if (pos <? len) && (cbuf_space_avail cb >? 0) then
      let write_len :=
        if tail cb <=? head cb then Z.min (u32 (valpow2 (len_pow2 cb) - head cb)) (len - pos)
        else Z.min (u32 (u32 (tail cb - head cb) - 1)) (len - pos) in
      if write_len =? 0 then Some (cb, pos) else
      b ← store cb src pos write_len flags;
      write_loop fuel' (set_head cb (INC_POINTER cb (head cb) write_len) b) src len flags (pos + write_len)
    else Some (cb, pos)
  end.

(** Every pass but the last stores a byte. *)
Definition cbuf_write_etc (k : K) (c : nat) (cb : cbuf) (src : option (list Z)) (len flags : Z)
  : option (Z * cbuf * K) :=
  ASSERT len <? valpow2 (len_pow2 cb);
  '(cb1, pos) ← write_loop (S (Z.to_nat len)) cb src len flags 0;
  '(signal, cb2, k1) ←
    (if negb (head cb1 =? tail cb1)
     then '(n, e, k1) ← event_signal k c (cb_event cb1) false; Some (n, set_event cb1 e, k1)
     else Some (0, cb1, k));
  k2 ← (if has_flag flags CBUF_WRITE_FLAG_CANRESCHEDULE && (0 <? signal) then thread_preempt k1 c else Some k1);
  Some (pos, cb2, k2).

Definition cbuf_write (k : K) (c : nat) (cb : cbuf) (src : option (list Z)) (len : Z) (canreschedule : bool) :=
  cbuf_write_etc k c cb src len (if canreschedule then CBUF_WRITE_FLAG_CANRESCHEDULE else 0).

Definition cbuf_advance_write (k : K) (c : nat) (cb : cbuf) (len : Z) (canreschedule : bool) :=
  cbuf_write_etc k c cb None len
    (if canreschedule then Z.lor CBUF_WRITE_FLAG_NOFILL CBUF_WRITE_FLAG_CANRESCHEDULE else CBUF_WRITE_FLAG_NOFILL).

Fixpoint read_loop (fuel : nat) (cb : cbuf) (dst : bool) (buflen pos : Z) (out : list Z) : option (cbuf * Z * list Z) :=
  match fuel with
  | O => None
  | S fuel' =>
    if (pos <? buflen) && negb (tail cb =? head cb) then
      let read_len :=
        if tail cb <? head cb then Z.min (u32 (head cb - tail cb)) (buflen - pos)
        else Z.min (u32 (valpow2 (len_pow2 cb) - tail cb)) (buflen - pos) in
      chunk ← (if dst then read_at (tail cb) read_len (buf cb) else Some []);
      read_loop fuel' (set_tail cb (INC_POINTER cb (tail cb) read_len)) dst buflen (pos + read_len) (out ++ chunk)
    else Some (cb, pos, out)
  end.

(** The part of a read under the lock: the number of bytes taken and, when the
    caller gave a buffer ([dst]), the bytes stored in it.  As the comment in the
    code says, two passes read everything; a third one ends the loop. *)
Definition cbuf_read_locked (cb : cbuf) (dst : bool) (buflen : Z) : option (Z * list Z * cbuf) :=
  if negb (tail cb =? head cb) then
    '(cb1, pos, out) ← read_loop 3 cb dst buflen 0 [];
    if tail cb1 =? head cb1 then
      ASSERT 0 <? pos;
      '(_, e) ← event_unsignal (cb_event cb1);
      Some (pos, out, set_event cb1 e)
    else Some (pos, out, cb1)
  else Some (0, [], cb).

(** A blocking read waits for the event first and starts again when it finds no data;
    [fuel] bounds how often. *)
Fixpoint cbuf_read (fuel : nat) (k : K) (c : nat) (cb : cbuf) (dst : bool) (buflen : Z) (block : bool)
  : option (cbuf * result K (Z * list Z)) :=
  match fuel with
  | O => None
  | S fuel' =>
    '(cb1, r) ← (if block then '(e, r) ← event_wait_timeout k c (cb_event cb) INFINITE_TIME false; Some (set_event cb e, r)
                 else Some (cb, Done 0 k));
    match r with
    | Wait k1 => Some (cb1, Wait k1)
    | Done _ k1 =>
      '(ret, out, cb2) ← cbuf_read_locked cb1 dst buflen;
      if block && (ret =? 0) then cbuf_read fuel' k1 c cb2 dst buflen block
      else Some (cb2, Done (ret, out) k1)
    end
  end.

(** The rest of a blocking read, run by [t] after the wait. *)
Definition cbuf_read_resume (fuel : nat) (k : K) (c t : nat) (cb : cbuf) (dst : bool) (buflen : Z)
  : option (cbuf * result K (Z * list Z)) :=
  '(_, k1) ← event_wait_resume k t INFINITE_TIME;
  '(ret, out, cb2) ← cbuf_read_locked cb dst buflen;
  if ret =? 0 then cbuf_read fuel k1 c cb2 dst buflen true else Some (cb2, Done (ret, out) k1).

(** The two regions of a peek: where they start in the buffer, and their lengths. *)
Definition cbuf_peek_etc (cb : cbuf) (writable : bool) : option (Z * (option Z * Z) * (option Z * Z)) :=
  let sz := cbuf_size cb in
  ASSERT (if writable then head cb else tail cb) <? sz;
  let ret := if writable then cbuf_space_avail cb else cbuf_space_used cb in
  let pos := if writable then head cb else tail cb in
  ASSERT ret <=? sz;
  let base0 := if negb (ret =? 0) then Some pos else None in
  Some (if ret + pos >? sz
        then (ret, (base0, sz - pos), (Some 0, ret - (sz - pos)))
        else (ret, (base0, ret), (None, 0))).

Definition cbuf_write_char (k : K) (c : nat) (cb : cbuf) (ch : Z) (canreschedule : bool) : option (Z * cbuf * K) :=
  '(ret, signal, cb1, k1) ←
    (if cbuf_space_avail cb >? 0 then
       b ← write_at (head cb) [ch] (buf cb);
       let cb1 := set_head cb (INC_POINTER cb (head cb) 1) b in
       if negb (head cb1 =? tail cb1)
       then '(n, e, k1) ← event_signal k c (cb_event cb1) false; Some (1, n, set_event cb1 e, k1)
       else Some (1, 0, cb1, k)
     else Some (0, 0, cb, k));
  k2 ← (if canreschedule && (0 <? signal) then thread_preempt k1 c else Some k1);
  Some (ret, cb1, k2).

Definition cbuf_read_char_locked (cb : cbuf) : option (option Z * cbuf) :=
  if negb (tail cb =? head cb) then
    ch ← read_at (tail cb) 1 (buf cb);
    let cb1 := set_tail cb (INC_POINTER cb (tail cb) 1) in
    if tail cb1 =? head cb1 then '(_, e) ← event_unsignal (cb_event cb1); Some (ch !! 0%nat, set_event cb1 e)
    else Some (ch !! 0%nat, cb1)
  else Some (None, cb).

Fixpoint cbuf_read_char (fuel : nat) (k : K) (c : nat) (cb : cbuf) (block : bool)
  : option (cbuf * result K (option Z)) :=
  match fuel with
  | O => None
  | S fuel' =>
    '(cb1, r) ← (if block then '(e, r) ← event_wait_timeout k c (cb_event cb) INFINITE_TIME false; Some (set_event cb e, r)
                 else Some (cb, Done 0 k));
    match r with
    | Wait k1 => Some (cb1, Wait k1)
    | Done _ k1 =>
      '(ret, cb2) ← cbuf_read_char_locked cb1;
      if block && negb (bool_decide (is_Some ret)) then cbuf_read_char fuel' k1 c cb2 block
      else Some (cb2, Done ret k1)
    end
  end.

Definition cbuf_reset (k : K) (c : nat) (cb : cbuf) : option (cbuf * result K (Z * list Z)) :=
  cbuf_read 1 k c cb false (cbuf_size cb) false.

End cbuf.
End Cbuf.
