(* ===== verification/CbufFacts.v ===== *)
(** * Correctness of circular buffers

    A circular buffer implements a bounded first-in first-out queue of bytes:
    [content] is the abstraction, [fifo] the specification, and every operation
    is simulated by it, except for one case of [cbuf_write] (see [overrun]). *)

From stdpp Require Import base tactics numbers list list_numbers sets gmap.
From Stdlib Require Import ZArith Lia.
From S2P Require Import Prelude Sched SchedFacts Sync SyncFacts SyncSched Cbuf.
#[local] Open Scope Z_scope.

Module CbufFacts.
Import Sync SyncFacts Cbuf.

(** ** Indices *)

Definition size (cb : cbuf) : Z := 2 ^ len_pow2 cb.
Definition used (cb : cbuf) : Z := (head cb - tail cb) mod size cb.

Record wf (cb : cbuf) : Prop := {
  wf_pow : 0 ≤ len_pow2 cb < 32;
  wf_buf : zlen (buf cb) = size cb;
  wf_head : 0 ≤ head cb < size cb;
  wf_tail : 0 ≤ tail cb < size cb
}.

Lemma size_bounds cb : wf cb → 0 < size cb < 2 ^ 32.
Proof. intros Hw. pose proof (wf_pow _ Hw). unfold size. split; [apply pow2_pos|apply pow2_lt]; lia. Qed.

Lemma used_case cb : wf cb → used cb = if tail cb <=? head cb then head cb - tail cb else head cb - tail cb + size cb.
Proof.
  intros Hw. pose proof (size_bounds _ Hw). pose proof (wf_head _ Hw). pose proof (wf_tail _ Hw).
  unfold used. rewrite mod_case_neg by lia. destruct (_ <? _) eqn:E1, (_ <=? _) eqn:E2; zb; lia.
Qed.

Lemma used_range cb : wf cb → 0 ≤ used cb < size cb.
Proof. intros Hw. pose proof (size_bounds _ Hw). apply Z.mod_pos_bound. lia. Qed.

Lemma used_zero cb : wf cb → used cb = 0 ↔ tail cb = head cb.
Proof.
  intros Hw. pose proof (size_bounds _ Hw). pose proof (wf_head _ Hw). pose proof (wf_tail _ Hw).
  rewrite used_case by done. destruct (_ <=? _) eqn:E; zb; lia.
Qed.

Lemma u32_modpow2 x p : 0 ≤ p < 32 → modpow2 (u32 x) p = x mod 2 ^ p.
Proof.
  intros Hp. rewrite modpow2_mod by done. unfold u32.
  symmetry. apply Znumtheory.Zmod_div_mod; [apply pow2_pos; lia|lia|].
  exists (2 ^ (32 - p)). rewrite <- Z.pow_add_r by lia. f_equal. lia.
Qed.

Lemma space_used_eq cb : wf cb → cbuf_space_used cb = used cb.
Proof. intros Hw. apply u32_modpow2, Hw. Qed.

Lemma space_avail_eq cb : wf cb → cbuf_space_avail cb = size cb - 1 - used cb.
Proof.
  intros Hw. unfold cbuf_space_avail. rewrite u32_modpow2 by apply Hw. fold (size cb). fold (used cb).
  rewrite valpow2_pow by apply Hw. fold (size cb). pose proof (used_range _ Hw). pose proof (size_bounds _ Hw).
  rewrite !u32_id; unfold is_u32; rewrite ?u32_id; unfold is_u32; lia.
Qed.

Lemma inc_eq cb p n : wf cb → INC_POINTER cb p n = (p + n) mod size cb.
Proof. intros Hw. apply u32_modpow2, Hw. Qed.

Lemma valpow2_size cb : wf cb → valpow2 (len_pow2 cb) = size cb.
Proof. intros Hw. apply valpow2_pow, Hw. Qed.

Lemma cbuf_size_eq cb : wf cb → cbuf_size cb = size cb.
Proof.
  intros Hw. unfold cbuf_size. rewrite Z.shiftl_1_l. fold (size cb). apply u64_id.
  pose proof (size_bounds _ Hw). unfold is_u64. lia.
Qed.

(** ** The bytes of a buffer *)

Definition byte_at (cb : cbuf) (i : Z) : Z := nth (Z.to_nat ((tail cb + i) mod size cb)) (buf cb) 0.
Definition content (cb : cbuf) : list Z := byte_at cb <$> seqZ 0 (used cb).

Lemma content_zlen cb : wf cb → zlen (content cb) = used cb.
Proof.
  intros Hw. pose proof (used_range _ Hw). unfold content, zlen. rewrite length_fmap, length_seqZ. lia.
Qed.

Lemma content_lookup cb i : wf cb → (i < Z.to_nat (used cb))%nat → content cb !! i = Some (byte_at cb (Z.of_nat i)).
Proof. intros Hw Hi. unfold content. rewrite list_lookup_fmap, lookup_seqZ_lt by lia. done. Qed.

Lemma buf_nth cb j : wf cb → 0 ≤ j < size cb → buf cb !! Z.to_nat j = Some (nth (Z.to_nat j) (buf cb) 0).
Proof.
  intros Hw Hj. pose proof (wf_buf _ Hw) as Hb. unfold zlen in Hb.
  destruct (buf cb !! Z.to_nat j) eqn:E; [by rewrite (nth_lookup_Some _ _ _ _ E)|].
  apply lookup_ge_None_1 in E. lia.
Qed.

Lemma content_lookup_buf cb i : wf cb → (i < Z.to_nat (used cb))%nat →
  content cb !! i = buf cb !! Z.to_nat ((tail cb + Z.of_nat i) mod size cb).
Proof.
  intros Hw Hi. rewrite content_lookup by done. unfold byte_at. rewrite buf_nth; [done|done|].
  pose proof (size_bounds _ Hw). apply Z.mod_pos_bound. lia.
Qed.

(** One store at the write index appends. *)
Lemma push cb d b :
  wf cb → zlen d ≤ size cb - 1 - used cb → head cb + zlen d ≤ size cb → write_at (head cb) d (buf cb) = Some b →
  let cb' := set_head cb (INC_POINTER cb (head cb) (zlen d)) b in
  wf cb' ∧ used cb' = used cb + zlen d ∧ content cb' = content cb ++ d.
Proof.
  intros Hw Hav Hfit Hb cb'. pose proof (size_bounds _ Hw) as Hs. pose proof (wf_head _ Hw) as Hh. pose proof (wf_tail _ Hw) as Ht.
  pose proof (zlen_nonneg d) as Hd. pose proof (used_range _ Hw) as Hu.
  destruct (write_at_Some (head cb) d (buf cb)) as (b' & Hb' & Hlen & Hlook); [lia|rewrite (wf_buf _ Hw); lia|].
  rewrite Hb in Hb'. injection Hb' as <-.
  assert (Hw' : wf cb').
  { split; simpl; try apply Hw.
    - unfold zlen. rewrite Hlen. apply Hw.
    - rewrite inc_eq by done. apply (Z.mod_pos_bound _ (size cb)). lia. }
  assert (Hhd : head cb' = if head cb + zlen d <? size cb then head cb + zlen d else head cb + zlen d - size cb).
  { unfold cb', set_head. cbn [head]. rewrite inc_eq by done. apply mod_case; [lia|]. lia. }
  change (size cb') with (size cb) in *. change (tail cb') with (tail cb) in *.
  assert (Hused : used cb' = used cb + zlen d).
  { revert Hav Hu. rewrite !used_case by done. change (tail cb') with (tail cb). change (size cb') with (size cb). rewrite Hhd.
    zcase. }
  split_and!; [done|done|]. apply list_eq. intros i.
  assert (Hzc : length (content cb) = Z.to_nat (used cb)) by (pose proof (content_zlen _ Hw); unfold zlen in *; lia).
  destruct (decide (i < Z.to_nat (used cb'))%nat) as [Hi|Hi].
  - rewrite content_lookup_buf by done. change (buf cb') with b. change (size cb') with (size cb). change (tail cb') with (tail cb).
    rewrite Hlook. unfold zlen in *. pose proof (used_range _ Hw'). change (size cb') with (size cb) in *. rewrite mod_case by lia.
    destruct (decide (i < Z.to_nat (used cb))%nat) as [Hi2|Hi2].
    + rewrite lookup_app_l by lia. rewrite content_lookup_buf, mod_case by (done || lia).
      rewrite decide_False; [done|]. revert Hi2 Hav. rewrite used_case by done. zcase.
    + rewrite lookup_app_r, Hzc by lia. revert Hi2 Hav Hused. rewrite (used_case cb) by done.
      zcase; rewrite decide_True by lia; f_equal; lia.
  - rewrite !lookup_ge_None_2; [done| |].
    + rewrite length_app. unfold zlen in *. lia.
    + pose proof (content_zlen _ Hw'). unfold zlen in *. lia.
Qed.

(** One read at the read index takes the first bytes. *)
Lemma pop cb n :
  wf cb → 0 ≤ n ≤ used cb → tail cb + n ≤ size cb →
  let cb' := set_tail cb (INC_POINTER cb (tail cb) n) in
  wf cb' ∧ used cb' = used cb - n ∧ content cb' = drop (Z.to_nat n) (content cb) ∧
  read_at (tail cb) n (buf cb) = Some (take (Z.to_nat n) (content cb)).
Proof.
  intros Hw Hn Hfit cb'. pose proof (size_bounds _ Hw) as Hs. pose proof (wf_head _ Hw) as Hh. pose proof (wf_tail _ Hw) as Ht.
  pose proof (used_range _ Hw) as Hu.
  assert (Hw' : wf cb').
  { split; simpl; try apply Hw. rewrite inc_eq by done. apply (Z.mod_pos_bound _ (size cb)). lia. }
  assert (Htl : tail cb' = if tail cb + n <? size cb then tail cb + n else tail cb + n - size cb).
  { unfold cb', set_tail. cbn [tail]. rewrite inc_eq by done. apply mod_case; lia. }
  assert (Hused : used cb' = used cb - n).
  { revert Hu Hn. rewrite !used_case by done. change (head cb') with (head cb). change (size cb') with (size cb). rewrite Htl. zcase. }
  assert (Hzc : length (content cb) = Z.to_nat (used cb)) by (pose proof (content_zlen _ Hw); unfold zlen in *; lia).
  split_and!; [done|done| |].
  - apply list_eq. intros i. rewrite lookup_drop. destruct (decide (i < Z.to_nat (used cb'))%nat) as [Hi|Hi].
    + rewrite !content_lookup_buf by (done || lia). change (size cb') with (size cb). change (buf cb') with (buf cb).
      f_equal. f_equal. rewrite !mod_case by (revert Htl; zcase). revert Htl. zcase.
    + rewrite !lookup_ge_None_2; [done|lia|]. pose proof (content_zlen _ Hw'). unfold zlen in *. lia.
  - rewrite read_at_Some by (rewrite ?(wf_buf _ Hw); lia). f_equal. apply list_eq. intros i.
    destruct (decide (i < Z.to_nat n)%nat) as [Hi|Hi].
    + rewrite !lookup_take_lt, lookup_drop, content_lookup_buf by (done || lia). f_equal. rewrite mod_case by lia. zcase.
    + by rewrite !lookup_take_ge by lia.
Qed.

(** ** The write loop *)

(** [x] is what a write of [src] stores from offset [pos] on. *)
Definition src_ok (src : option (list Z)) (flags pos : Z) (x : list Z) : Prop :=
  match src with
  | Some d => x = take (length x) (drop (Z.to_nat pos) d)
  | None => if has_flag flags CBUF_WRITE_FLAG_NOFILL then True else x = replicate (length x) 0
  end.

Lemma src_ok_nil src flags pos : src_ok src flags pos [].
Proof. unfold src_ok. destruct src; [done|]. by destruct (has_flag _ _). Qed.

Lemma src_ok_app src flags pos x y :
  0 ≤ pos → src_ok src flags pos x → src_ok src flags (pos + zlen x) y → src_ok src flags pos (x ++ y).
Proof.
  unfold src_ok, zlen. intros Hp Hx Hy. destruct src as [d|]; [|destruct (has_flag _ _); [done|]].
  - rewrite length_app, <- take_take_drop, <- Hx, drop_drop. f_equal. rewrite Hy at 1. do 2 f_equal. lia.
  - rewrite length_app, replicate_add, <- Hx, <- Hy. done.
Qed.

Definition src_fits (src : option (list Z)) (len : Z) : Prop := match src with Some d => len ≤ zlen d | None => True end.

Lemma store_ok cb src pos n len flags :
  wf cb → src_fits src len → 0 ≤ pos → 0 ≤ n → pos + n ≤ len → head cb + n ≤ size cb →
  ∃ x b, store cb src pos n flags = Some b ∧ write_at (head cb) x (buf cb) = Some b ∧ zlen x = n ∧ src_ok src flags pos x.
Proof.
  intros Hw Hsrc Hp Hn Hlen Hfit. pose proof (wf_head _ Hw). pose proof (wf_buf _ Hw) as Hb.
  assert (Hput : ∀ x, zlen x = n → ∃ b, write_at (head cb) x (buf cb) = Some b).
  { intros x Hx. destruct (write_at_Some (head cb) x (buf cb)) as (b & ? & _); [lia|lia|eauto]. }
  unfold store, src_ok. destruct src as [d|].
  - simpl in Hsrc. rewrite read_at_Some by lia. cbn [mbind option_bind]. set (x := take _ _).
    assert (zlen x = n) as Hx by (unfold x; rewrite zlen_take, zlen_drop by lia; lia).
    destruct (Hput x Hx) as [b Hbx]. exists x, b. split_and!; [done|done|done|]. unfold x at 1. f_equal. unfold zlen in Hx. lia.
  - destruct (has_flag _ _).
    + pose proof (read_at_Some (head cb) n (buf cb)) as Hr. exists (take (Z.to_nat n) (drop (Z.to_nat (head cb)) (buf cb))), (buf cb).
      assert (zlen (take (Z.to_nat n) (drop (Z.to_nat (head cb)) (buf cb))) = n) as Hx by (rewrite zlen_take, zlen_drop by lia; lia).
      split_and!; [done| |done|done]. unfold write_at. rewrite !(proj2 (Z.leb_le _ _)) by lia. cbn [andb]. f_equal.
      etransitivity; [|apply (take_drop (Z.to_nat (head cb)))]. f_equal.
      etransitivity; [|apply (take_drop (Z.to_nat n))]. f_equal. rewrite drop_drop. f_equal. unfold zlen in Hx. lia.
    + destruct (Hput (replicate (Z.to_nat n) 0)) as [b Hbx]; [unfold zlen; rewrite length_replicate; lia|].
      eexists _, b. split_and!; [done|done|unfold zlen; rewrite length_replicate; lia|by rewrite length_replicate].
Qed.

(** A write that starts behind the read index 0 and does not fit runs over the
    free byte (see [cbuf_write_overrun]); every other write is safe. *)
Definition safe_write (cb : cbuf) (len : Z) : Prop := tail cb = 0 → len ≤ size cb - 1 - used cb.

Lemma write_loop_ok fuel : ∀ cb src len flags pos,
  wf cb → src_fits src len → 0 ≤ pos ≤ len → len < size cb → safe_write cb (len - pos) → (Z.to_nat (len - pos) < fuel)%nat →
  ∃ cb' x, write_loop fuel cb src len flags pos = Some (cb', pos + zlen x) ∧ wf cb' ∧
    zlen x = Z.min (len - pos) (size cb - 1 - used cb) ∧ src_ok src flags pos x ∧ content cb' = content cb ++ x ∧
    tail cb' = tail cb ∧ len_pow2 cb' = len_pow2 cb ∧ cb_event cb' = cb_event cb.
Proof.
  induction fuel as [|fuel IH]; intros cb src len flags pos Hw Hsrc Hp Hlen Hsafe Hf; [lia|].
  pose proof (size_bounds _ Hw) as Hs. pose proof (wf_head _ Hw) as Hh. pose proof (wf_tail _ Hw) as Ht.
  pose proof (used_range _ Hw) as Hu. cbn [write_loop]. rewrite space_avail_eq, valpow2_size by done.
  assert (Hstop : zlen (@nil Z) = Z.min (len - pos) (size cb - 1 - used cb) →
    ∃ cb' x, Some (cb, pos) = Some (cb', pos + zlen x) ∧ wf cb' ∧
    zlen x = Z.min (len - pos) (size cb - 1 - used cb) ∧ src_ok src flags pos x ∧ content cb' = content cb ++ x ∧
    tail cb' = tail cb ∧ len_pow2 cb' = len_pow2 cb ∧ cb_event cb' = cb_event cb).
  { intros Hz. exists cb, []. rewrite app_nil_r. split_and!; try done; [do 2 f_equal; unfold zlen; simpl; lia|apply src_ok_nil]. }
  destruct ((pos <? len) && (size cb - 1 - used cb >? 0)) eqn:Ego; [|apply Hstop; change (zlen []) with 0; rewrite Z.gtb_ltb in Ego; revert Ego; zcase; discriminate].
  rewrite Z.gtb_ltb in Ego. apply andb_prop in Ego as [Ego1 Ego2]. zb.
  set (n := if tail cb <=? head cb then _ else _).
  assert (Hn : 0 < n ∧ n ≤ len - pos ∧ n ≤ size cb - 1 - used cb ∧ head cb + n ≤ size cb).
  { unfold n, safe_write in *. revert Hsafe Ego2. rewrite used_case by done. intros Hsafe.
    zcase; rewrite ?u32_id by (unfold is_u32; rewrite ?u32_id by (unfold is_u32; lia); lia); rewrite ?u32_id by (unfold is_u32; lia); lia. }
  rewrite (proj2 (Z.eqb_neq n 0)) by lia.
  destruct (store_ok cb src pos n len flags) as (x & b & -> & Hb & Hx & Hsx); [done|done|lia|lia|lia|lia|].
  cbn [mbind option_bind]. destruct (push cb x b) as (Hw' & Hu' & Hc'); [done|lia|lia|done|]. rewrite Hx in Hw', Hu', Hc'.
  set (cb1 := set_head _ _ b) in *. assert (Esz : size cb1 = size cb) by done.
  destruct (IH cb1 src len flags (pos + n)) as (cb2 & y & E & Hw2 & Hy & Hsy & Hc2 & Ht2 & Hl2 & He2); [done|done|lia|lia| |lia|].
  { unfold safe_write in *. change (tail cb1) with (tail cb). lia. }
  exists cb2, (x ++ y). rewrite E, zlen_app, Hx. split_and!; try done; [do 2 f_equal; lia|lia| |by rewrite Hc2, Hc', app_assoc].
  apply src_ok_app; [lia|done|by rewrite Hx].
Qed.

(** ** The read loop *)

(** How often the loop looks at the indices when [n] bytes are still wanted. *)
Definition passes (cb : cbuf) (n : Z) : nat :=
  if (n <=? 0) || (tail cb =? head cb) then 1
  else if (tail cb <? head cb) || (n <=? size cb - tail cb) then 2 else 3.

Lemma passes_done cb n : n ≤ 0 ∨ tail cb = head cb → passes cb n = 1%nat.
Proof. intros [?|?]; unfold passes; [rewrite (proj2 (Z.leb_le n 0)) by done|rewrite (proj2 (Z.eqb_eq (tail cb) _)), orb_true_r by done]; done. Qed.

Lemma passes_more cb n : 0 < n → tail cb ≠ head cb → passes cb n = if (tail cb <? head cb) || (n <=? size cb - tail cb) then 2%nat else 3%nat.
Proof. intros ? ?. unfold passes. rewrite (proj2 (Z.leb_gt n 0)), (proj2 (Z.eqb_neq (tail cb) _)) by done. done. Qed.

Lemma passes_straight cb n : tail cb ≤ head cb → (passes cb n ≤ 2)%nat.
Proof.
  intros. destruct (decide (0 < n)); [|rewrite passes_done; lia]. destruct (decide (tail cb = head cb)); [rewrite passes_done; auto|].
  rewrite passes_more by done. rewrite (proj2 (Z.ltb_lt (tail cb) (head cb))) by lia. done.
Qed.

Lemma read_loop_ok fuel : ∀ cb dst buflen pos out,
  wf cb → 0 ≤ pos ≤ buflen → (passes cb (buflen - pos) ≤ fuel)%nat →
  let n := Z.min (buflen - pos) (used cb) in
  ∃ cb', read_loop fuel cb dst buflen pos out =
      Some (cb', pos + n, out ++ if dst then take (Z.to_nat n) (content cb) else []) ∧
    wf cb' ∧ content cb' = drop (Z.to_nat n) (content cb) ∧ used cb' = used cb - n ∧
    head cb' = head cb ∧ len_pow2 cb' = len_pow2 cb ∧ cb_event cb' = cb_event cb.
Proof.
  induction fuel as [|fuel IH]; intros cb dst buflen pos out Hw Hp Hf n.
  { unfold passes in Hf. destruct (_ || _); [|destruct (_ || _)]; lia. }
  pose proof (size_bounds _ Hw) as Hs. pose proof (wf_head _ Hw) as Hh. pose proof (wf_tail _ Hw) as Ht.
  pose proof (used_range _ Hw) as Hu. cbn [read_loop]. rewrite valpow2_size by done.
  assert (Hue : used cb = 0 ↔ tail cb = head cb) by by apply used_zero.
  destruct ((pos <? buflen) && negb (tail cb =? head cb)) eqn:Ego.
  2: { assert (n = 0) as -> by (unfold n; revert Ego; zcase; discriminate).
       exists cb. rewrite Z.add_0_r. simpl. rewrite Z.sub_0_r. destruct dst; rewrite app_nil_r; done. }
  apply andb_prop in Ego as [Ego1 Ego2]. zb. set (r := if tail cb <? head cb then _ else _).
  assert (Hr : 0 < r ≤ n ∧ tail cb + r ≤ size cb ∧
    (tail cb < head cb → r = n) ∧ (head cb < tail cb → r = n ∨ r = size cb - tail cb)).
  { unfold r, n. rewrite used_case by done. zcase; rewrite ?u32_id by (unfold is_u32; lia); lia. }
  destruct (pop cb r) as (Hw' & Hu' & Hc' & Hread); [done|lia|lia|]. rewrite Hread.
  set (cb1 := set_tail _ _) in *.
  replace (if dst then Some (take (Z.to_nat r) (content cb)) else Some [])
    with (Some (if dst then take (Z.to_nat r) (content cb) else [])) by by destruct dst.
  cbn [mbind option_bind].
  assert (Hpass : (passes cb1 (buflen - (pos + r)) ≤ fuel)%nat).
  { rewrite passes_more in Hf by lia. assert (Hue' : used cb1 = 0 ↔ tail cb1 = head cb1) by by apply used_zero.
    destruct (decide (r = n)) as [Hrn|Hrn].
    - rewrite passes_done; [destruct (_ || _); lia|]. rewrite <- Hue'. lia.
    - assert (head cb < tail cb ∧ r = size cb - tail cb) as [? Hrs] by lia.
      assert (tail cb1 = 0) as Ht1.
      { unfold cb1, set_tail. cbn [tail]. rewrite inc_eq, Hrs by done. replace (_ + _) with (size cb) by lia. apply Z_mod_same_full. }
      pose proof (passes_straight cb1 (buflen - (pos + r))) as Hps. change (head cb1) with (head cb) in Hps.
      assert ((tail cb <? head cb) = false) as E1 by (apply Z.ltb_ge; lia).
      assert ((buflen - pos <=? size cb - tail cb) = false) as E2 by (apply Z.leb_gt; lia).
      rewrite E1, E2 in Hf. simpl in Hf. lia. }
  destruct (IH cb1 dst buflen (pos + r) (out ++ if dst then take (Z.to_nat r) (content cb) else []))
    as (cb2 & E & Hw2 & Hc2 & Hu2 & Hh2 & Hl2 & He2); [done|lia|done|].
  assert (Emin : n = r + Z.min (buflen - (pos + r)) (used cb1)) by lia.
  exists cb2. rewrite E. split_and!; try done.
  - do 2 f_equal; [f_equal; lia|]. rewrite <- app_assoc. f_equal. destruct dst; [|done].
    rewrite Hc', take_take_drop. f_equal. lia.
  - rewrite Hc2, Hc', drop_drop. f_equal. lia.
  - lia.
Qed.

(** ** The abstract queue *)

Inductive cop :=
| CWrite (src : option (list Z)) (len flags : Z) | CPutc (ch : Z)
| CRead (dst : bool) (n : Z) | CGetc | CReset.

Inductive cout := OCount (n : Z) | OBytes (n : Z) (d : list Z) | OChar (ch : option Z).

(** A queue [q] of at most [cap] bytes. *)
Definition fifo (cap : Z) (q : list Z) (o : cop) (out : cout) (q' : list Z) : Prop :=
  match o with
  | CWrite src len flags => ∃ x, zlen x = Z.min len (cap - zlen q) ∧ src_ok src flags 0 x ∧ q' = q ++ x ∧ out = OCount (zlen x)
  | CPutc ch => if zlen q <? cap then q' = q ++ [ch] ∧ out = OCount 1 else q' = q ∧ out = OCount 0
  | CRead dst n => let d := take (Z.to_nat n) q in out = OBytes (zlen d) (if dst then d else []) ∧ q' = drop (Z.to_nat n) q
  | CGetc => match q with [] => out = OChar None ∧ q' = [] | ch :: q1 => out = OChar (Some ch) ∧ q' = q1 end
  | CReset => out = OBytes (zlen q) [] ∧ q' = []
  end.

Section facts.
Context {K : Type} `{WaitSpec K} (thread_preempt : K → nat → option K).

Definition done_of {A B} (f : A → B) (cb : cbuf) (r : result K A) : option (B * (K * cbuf)) :=
  match r with Done a k => Some (f a, (k, cb)) | Wait _ => None end.

Definition cexec (s : K * cbuf) (c : nat) (o : cop) : option (cout * (K * cbuf)) :=
  let '(k, cb) := s in
  match o with
  | CWrite src len flags => '(n, cb', k') ← cbuf_write_etc thread_preempt k c cb src len flags; Some (OCount n, (k', cb'))
  | CPutc ch => '(n, cb', k') ← cbuf_write_char thread_preempt k c cb ch false; Some (OCount n, (k', cb'))
  | CRead dst n => '(cb', r) ← cbuf_read 1 k c cb dst n false; done_of (λ x, OBytes x.1 x.2) cb' r
  | CGetc => '(cb', r) ← cbuf_read_char 1 k c cb false; done_of OChar cb' r
  | CReset => '(cb', r) ← cbuf_reset k c cb; done_of (λ x, OBytes x.1 x.2) cb' r
  end.

(** What a call promises: the buffer it names is long enough, and the write is
    not the one that runs over the read index. *)
Definition cpre (cb : cbuf) (o : cop) : Prop :=
  match o with
  | CWrite src len flags => 0 ≤ len < size cb ∧ src_fits src len ∧ safe_write cb len ∧
      has_flag flags CBUF_WRITE_FLAG_CANRESCHEDULE = false
  | CRead _ n => 0 ≤ n
  | _ => True
  end.

Record cinv (k : K) (cb : cbuf) : Prop := {
  ci_wf : wf cb;
  ci_event : einv (k, cb_event cb);
  ci_plain : autounsignal (cb_event cb) = false;
  ci_signalled : signalled (cb_event cb) = negb (tail cb =? head cb)
}.

(** The end of a write: readers are woken when there is data. *)
Lemma signal_ok k c cb cb1 :
  cinv k cb → wf cb1 → cb_event cb1 = cb_event cb → (head cb1 = tail cb1 → head cb = tail cb) →
  ∃ n e k', (if negb (head cb1 =? tail cb1)
     then '(n, e, k1) ← event_signal k c (cb_event cb1) false; Some (n, set_event cb1 e, k1)
     else Some (0, cb1, k)) = Some (n, set_event cb1 e, k') ∧ cinv k' (set_event cb1 e).
Proof.
  intros Hi Hw Ee Hmono. destruct (head cb1 =? tail cb1) eqn:E; zb; cbn [negb].
  - exists 0, (cb_event cb1), k. replace (set_event cb1 (cb_event cb1)) with cb1 by by destruct cb1.
    split; [done|]. split; [done|rewrite Ee; apply Hi..|]. rewrite Ee, (ci_signalled _ _ Hi). f_equal.
    rewrite Hmono, E, !Z.eqb_refl by done. done.
  - rewrite Ee. destruct (event_signal_cases k c (cb_event cb) false NO_ERROR (ci_event _ _ Hi) ltac:(done)) as (n & e & k' & Es & _).
    destruct (event_signal_einv k c (cb_event cb) false NO_ERROR n e k' (ci_event _ _ Hi) ltac:(done) Es) as (Hev & Hf & _ & Hs).
    exists n, e, k'. unfold event_signal. rewrite Es. split; [done|]. split; simpl; [by destruct Hw|done| |].
    + unfold autounsignal. rewrite Hf. apply Hi.
    + rewrite Hs by apply Hi. rewrite (proj2 (Z.eqb_neq (tail cb1) _)) by done. done.
Qed.

Lemma content_set_event cb e : content (set_event cb e) = content cb.
Proof. done. Qed.

Lemma write_ok k c cb src len flags :
  cinv k cb → cpre cb (CWrite src len flags) →
  ∃ out k' cb', cexec (k, cb) c (CWrite src len flags) = Some (out, (k', cb')) ∧ cinv k' cb' ∧ size cb' = size cb ∧
    fifo (size cb - 1) (content cb) (CWrite src len flags) out (content cb').
Proof.
  intros Hi (Hlen & Hsrc & Hsafe & Hfl). pose proof (ci_wf _ _ Hi) as Hw. unfold cexec, cbuf_write_etc.
  rewrite valpow2_size, (proj2 (Z.ltb_lt len _)) by (done || lia).
  destruct (write_loop_ok (S (Z.to_nat len)) cb src len flags 0) as (cb1 & x & -> & Hw1 & Hx & Hsx & Hc1 & Ht1 & Hl1 & He1);
    [done|done|lia|lia|by rewrite Z.sub_0_r|rewrite Z.sub_0_r; lia|].
  cbn [mbind option_bind]. destruct (signal_ok k c cb cb1 Hi Hw1 He1) as (n & e & k' & -> & Hi').
  { intros E. pose proof (content_zlen _ Hw) as Hz. pose proof (content_zlen _ Hw1) as Hz1. rewrite Hc1, zlen_app in Hz1.
    pose proof (zlen_nonneg x). pose proof (used_range _ Hw). symmetry. apply (used_zero cb Hw).
    pose proof (proj2 (used_zero cb1 Hw1) (eq_sym E)). lia. }
  cbn [mbind option_bind]. rewrite Hfl. cbn [andb mbind option_bind]. do 3 eexists. split_and!; [done|done| |].
  - unfold size. simpl. by rewrite Hl1.
  - exists x. rewrite content_zlen, Hx, content_set_event by done. split_and!; [f_equal; lia|done|done|f_equal; lia].
Qed.

Lemma putc_ok k c cb ch :
  cinv k cb →
  ∃ out k' cb', cexec (k, cb) c (CPutc ch) = Some (out, (k', cb')) ∧ cinv k' cb' ∧ size cb' = size cb ∧
    fifo (size cb - 1) (content cb) (CPutc ch) out (content cb').
Proof.
  intros Hi. pose proof (ci_wf _ _ Hi) as Hw. pose proof (wf_head _ Hw) as Hh. unfold cexec, cbuf_write_char, fifo.
  rewrite space_avail_eq, Z.gtb_ltb, content_zlen by done. pose proof (size_bounds _ Hw).
  replace (0 <? size cb - 1 - used cb) with (used cb <? size cb - 1) by (apply eq_true_iff_eq; rewrite !Z.ltb_lt; lia).
  destruct (used cb <? size cb - 1) eqn:E; zb; [|by do 3 eexists].
  destruct (write_at_Some (head cb) [ch] (buf cb)) as (b & Hb & _); [lia|rewrite (wf_buf _ Hw); change (zlen [ch]) with 1; lia|].
  destruct (push cb [ch] b) as (Hw1 & Hu1 & Hc1); [done|change (zlen [ch]) with 1; lia|change (zlen [ch]) with 1; lia|done|].
  change (zlen [ch]) with 1 in *. rewrite Hb. cbn [mbind option_bind]. set (cb1 := set_head _ _ b) in *.
  assert (head cb1 ≠ tail cb1) as Hne.
  { intros Ex. pose proof (proj2 (used_zero cb1 Hw1) (eq_sym Ex)). pose proof (used_range _ Hw). lia. }
  destruct (signal_ok k c cb cb1 Hi Hw1 eq_refl ltac:(done)) as (n & e & k' & Es & Hi').
  rewrite (proj2 (Z.eqb_neq (head cb1) _)) in Es |- * by done. cbn [negb] in *.
  destruct (event_signal k c (cb_event cb1) false) as [[[n1 e1] k1]|]; cbn [mbind option_bind] in Es |- *; [|done].
  injection Es as <- Ee <-. cbn [andb mbind option_bind]. do 3 eexists. rewrite Ee. split_and!; done.
Qed.

(** The end of a read: the event is unsignalled when the buffer is empty. *)
Lemma unsignal_ok k cb : einv (k, cb_event cb) → autounsignal (cb_event cb) = false → wf cb → tail cb = head cb →
  event_unsignal (cb_event cb) = Some (NO_ERROR, Sync.set_signalled false (cb_event cb)) ∧
  cinv k (set_event cb (Sync.set_signalled false (cb_event cb))).
Proof.
  intros (Hk & Hq & Hm & Hs) Hp Hw E. simpl in *. unfold event_unsignal. rewrite Hm, Z.eqb_refl. split; [done|].
  split; simpl; [by destruct Hw|by split_and!|done|by rewrite E, Z.eqb_refl].
Qed.

Lemma read_locked_ok k cb dst n :
  cinv k cb → 0 ≤ n →
  let d := take (Z.to_nat n) (content cb) in
  ∃ cb', cbuf_read_locked cb dst n = Some (zlen d, if dst then d else [], cb') ∧ cinv k cb' ∧ size cb' = size cb ∧
    content cb' = drop (Z.to_nat n) (content cb).
Proof.
  intros Hi Hn d. pose proof (ci_wf _ _ Hi) as Hw. pose proof (content_zlen _ Hw) as Hz. pose proof (used_range _ Hw) as Hu.
  unfold cbuf_read_locked. destruct (tail cb =? head cb) eqn:E; zb; cbn [negb].
  - assert (content cb = []) as Ec.
    { apply length_zero_iff_nil. pose proof (proj2 (used_zero cb Hw) E). unfold zlen in Hz. lia. }
    unfold d. rewrite Ec, take_nil, drop_nil. exists cb. by destruct dst.
  - destruct (read_loop_ok 3 cb dst n 0 [] Hw ltac:(lia)) as (cb1 & -> & Hw1 & Hc1 & Hu1 & Hh1 & Hl1 & He1).
    { unfold passes. destruct (_ || _); [lia|destruct (_ || _); lia]. }
    rewrite !Z.sub_0_r in *. set (r := Z.min n (used cb)) in *. cbn [mbind option_bind].
    assert (Ed : take (Z.to_nat r) (content cb) = d ∧ r = zlen d).
    { unfold d. rewrite zlen_take, Hz by lia. split; [|done]. destruct (decide (n ≤ used cb)); [f_equal; lia|].
      rewrite !take_ge; [done| |]; unfold zlen in Hz; lia. }
    destruct Ed as [Ed1 Ed2]. rewrite Ed1, Z.add_0_l, <- Ed2, app_nil_l.
    assert (Edrop : drop (Z.to_nat r) (content cb) = drop (Z.to_nat n) (content cb)).
    { destruct (decide (n ≤ used cb)); [f_equal; lia|]. rewrite !drop_ge; [done| |]; unfold zlen in Hz; lia. }
    rewrite Edrop in Hc1. assert (Esz : size cb1 = size cb) by (unfold size; by rewrite Hl1).
    pose proof (proj2 (used_zero cb Hw)) as Hz0. pose proof (used_zero cb1 Hw1) as Hz1.
    destruct (tail cb1 =? head cb1) eqn:E1; zb.
    + rewrite (proj2 (Z.ltb_lt 0 r)) by (assert (used cb ≠ 0) by (by rewrite (used_zero cb Hw)); lia).
      destruct (unsignal_ok k cb1) as [Eu Hi1]; [rewrite He1; apply Hi|rewrite He1; apply Hi|done|done|].
      rewrite Eu. cbn [mbind option_bind]. by eexists.
    + exists cb1. split_and!; [done| |done|done]. split; [done|rewrite He1; apply Hi..|].
      rewrite He1, (ci_signalled _ _ Hi). rewrite !(proj2 (Z.eqb_neq _ _)) by done. done.
Qed.

Lemma read_char_locked_ok k cb :
  cinv k cb →
  ∃ cb', cbuf_read_char_locked cb = Some (List.head (content cb), cb') ∧ cinv k cb' ∧ size cb' = size cb ∧
    content cb' = List.tail (content cb).
Proof.
  intros Hi. pose proof (ci_wf _ _ Hi) as Hw. pose proof (content_zlen _ Hw) as Hz. pose proof (used_range _ Hw) as Hu.
  pose proof (used_zero _ Hw) as Hu0. pose proof (wf_tail _ Hw).
  unfold cbuf_read_char_locked. destruct (tail cb =? head cb) eqn:E; zb; cbn [negb].
  { assert (content cb = []) as Ec; [|exists cb; rewrite Ec; by split_and!]. apply length_zero_iff_nil. unfold zlen in Hz. lia. }
  destruct (pop cb 1) as (Hw1 & Hu1 & Hc1 & Hr); [done|lia|lia|]. rewrite Hr. cbn [mbind option_bind].
  destruct (content cb) as [|ch q] eqn:Ec; [unfold zlen in Hz; simpl in Hz; lia|]. change (drop (Z.to_nat 1) (ch :: q)) with (drop 0 q) in Hc1.
  rewrite drop_0 in Hc1. change (take (Z.to_nat 1) (ch :: q) !! 0%nat) with (Some ch). change (List.head (ch :: q)) with (Some ch).
  change (List.tail (ch :: q)) with q. set (cb1 := set_tail _ _) in *. destruct (tail cb1 =? head cb1) eqn:E1; zb.
  - destruct (unsignal_ok k cb1) as [Eu Hi1]; [apply Hi|apply Hi|done|done|]. rewrite Eu. cbn [mbind option_bind]. by eexists.
  - exists cb1. split_and!; [done| |done|done]. split; [done|apply Hi..|].
    change (cb_event cb1) with (cb_event cb). rewrite (ci_signalled _ _ Hi), !(proj2 (Z.eqb_neq _ _)) by done. done.
Qed.

(** A write behind the read index 0 that does not fit fills the buffer to its
    end, after which it looks empty, and goes on from the start. *)
Lemma write_loop_overrun cb d len flags :
  wf cb → tail cb = 0 → 0 < head cb → size cb - head cb ≤ len < size cb → len ≤ zlen d →
  used cb < size cb - 1 →
  ∃ cb', write_loop (S (Z.to_nat len)) cb (Some d) len flags 0 = Some (cb', len) ∧ wf cb' ∧
    content cb' = take (Z.to_nat (len - (size cb - head cb))) (drop (Z.to_nat (size cb - head cb)) d) ∧
    cb_event cb' = cb_event cb.
Proof.
  intros Hw Ht Hh Hlen Hd Hu. pose proof (size_bounds _ Hw) as Hs. pose proof (wf_head _ Hw) as Hh2.
  set (n := size cb - head cb) in *. cbn [write_loop]. rewrite space_avail_eq, Z.gtb_ltb by done.
  rewrite !(proj2 (Z.ltb_lt _ _)) by lia. cbn [andb]. rewrite Ht, (proj2 (Z.leb_le 0 _)), valpow2_size by (done || lia).
  rewrite u32_id by (unfold is_u32; lia). fold n. replace (Z.min n (len - 0)) with n by lia.
  rewrite (proj2 (Z.eqb_neq n 0)) by lia.
  destruct (store_ok cb (Some d) 0 n len flags) as (x & b & -> & Hb & Hx & _); [done|done|lia..|]. cbn [mbind option_bind].
  destruct (write_at_Some (head cb) x (buf cb)) as (b' & Hb' & Hlb & _); [lia|rewrite (wf_buf _ Hw); lia|].
  rewrite Hb in Hb'. injection Hb' as <-. set (cb1 := set_head _ _ b).
  assert (head cb1 = 0) as Hh1.
  { unfold cb1, set_head. cbn [head]. rewrite inc_eq by done. replace (head cb + n) with (size cb) by lia. apply Z_mod_same_full. }
  assert (Hw1 : wf cb1).
  { split; [apply Hw|unfold zlen; simpl; rewrite Hlb; apply Hw|rewrite Hh1; change (size cb1) with (size cb); lia|apply Hw]. }
  assert (Hu1 : used cb1 = 0) by (apply used_zero; [done|]; rewrite Hh1; exact Ht).
  assert (Hc1 : content cb1 = []) by (unfold content; by rewrite Hu1).
  destruct (write_loop_ok (Z.to_nat len) cb1 (Some d) len flags n) as (cb2 & y & E & Hw2 & Hy & Hsy & Hc2 & _ & _ & He2);
    [done|done|lia|apply Hlen| |lia|].
  { intros _. rewrite Hu1. change (size cb1) with (size cb). lia. }
  change (size cb1) with (size cb) in Hy. rewrite Hu1 in Hy.
  exists cb2. rewrite Z.add_0_l, E. split_and!; [do 2 f_equal; lia|done| |done].
  rewrite Hc2, Hc1, app_nil_l. simpl in Hsy. rewrite Hsy. f_equal. unfold zlen in Hy. lia.
Qed.

End facts.

(** ** Properties *)


(** An eight-byte buffer over the scheduler. *)
Definition ex_buf : option (cbuf * Sched.kstate) := cbuf_initialize_etc SyncSched.ex_three 210 8 (replicate 8 0).
Definition ex_cb : cbuf := match ex_buf with Some (cb, _) => cb | None => mk_cbuf 0 0 0 [] (mk_event 0 false 0 0) end.
Definition ex_k : Sched.kstate := match ex_buf with Some (_, k) => k | None => SyncSched.ex_three end.

Lemma ex_cinv : cinv ex_k ex_cb.
Proof.
  split; [split; vm_compute; split; congruence || reflexivity| |reflexivity|reflexivity].
  split_and!; [|eexists; split; vm_compute; reflexivity|reflexivity|done].
  apply (SyncSched.kinv_wq_init SyncSched.ex_three 210); [apply SyncSched.ex_three_kinv|vm_compute; reflexivity].
Qed.


(** A write that starts above a read index of 0 and reaches the end of the
    buffer loses data: it reports that all bytes were written, but the bytes
    that were in the buffer and those stored up to its end are gone. *)
Theorem cbuf_write_overrun {K} `{WaitSpec K} (thread_preempt : K → nat → option K) k c cb d len :
  cinv k cb → tail cb = 0 → 0 < head cb < size cb - 1 → size cb - head cb ≤ len < size cb → len ≤ zlen d →
  ∃ k' cb', cbuf_write thread_preempt k c cb (Some d) len false = Some (len, cb', k') ∧
    content cb' = take (Z.to_nat (len - (size cb - head cb))) (drop (Z.to_nat (size cb - head cb)) d).
Proof.
  intros Hi Ht Hh Hlen Hd. pose proof (ci_wf _ _ Hi) as Hw.
  assert (Hu : used cb < size cb - 1) by (rewrite used_case by done; rewrite Ht; zcase).
  unfold cbuf_write, cbuf_write_etc. rewrite valpow2_size, (proj2 (Z.ltb_lt len _)) by (done || lia).
  destruct (write_loop_overrun cb d len 0 Hw Ht ltac:(lia) Hlen Hd Hu) as (cb1 & -> & Hw1 & Hc & He). cbn [mbind option_bind].
  destruct (negb (head cb1 =? tail cb1)).
  - rewrite He. destruct (event_signal_cases k c (cb_event cb) false NO_ERROR (ci_event _ _ Hi) ltac:(done)) as (n & e & k' & Es & _).
    unfold event_signal. rewrite Es. cbn [mbind option_bind]. do 2 eexists. split; [done|exact Hc].
  - do 2 eexists. split; [done|exact Hc].
Qed.

Definition ex_cb5 : cbuf := mk_cbuf 5 0 3 [1; 2; 3; 4; 5; 0; 0; 0] (set_signalled true (cb_event ex_cb)).

Lemma ex_cinv5 : cinv ex_k ex_cb5.
Proof.
  split; [split; vm_compute; split; congruence || reflexivity| |reflexivity|reflexivity].
  destruct (ci_event _ _ ex_cinv) as (? & ? & ? & _). split_and!; [done|done|done|intros _; vm_compute; reflexivity].
Qed.

Lemma cbuf_write_overrun_witness : ∃ k' cb',
  cbuf_write Sched.thread_preempt ex_k 0 ex_cb5 (Some [6; 7; 8]) 3 false = Some (3, cb', k') ∧
  content ex_cb5 = [1; 2; 3; 4; 5] ∧ content cb' = [].
Proof.
  destruct (cbuf_write_overrun Sched.thread_preempt ex_k 0 ex_cb5 [6; 7; 8] 3 ex_cinv5) as (k' & cb' & E & Hc);
    [reflexivity|vm_compute; split; reflexivity|vm_compute; split; congruence|vm_compute; congruence|].
  exists k', cb'. split_and!; [exact E|vm_compute; reflexivity|exact Hc].
Defined.

End CbufFacts.
