(* ===== verification/Timer.v ===== *)
(** * Kernel timers

    [src/kernel/kernel/timer.c], with [PLATFORM_HAS_DYNAMIC_TIMER].  Each
    processor has a queue of timers ordered by the time they are due; times are
    32-bit milliseconds that wrap around and are compared by the sign of their
    difference.  The intrusive list node of a timer is its membership in a
    queue.  The platform timer of a processor is the time at which it will go
    off, or nothing when it is stopped or has gone off.  A callback is a parameter of the tick
    handler: it gets the timer, the time and the state, and may set and cancel
    timers.  [None] is a failed assertion, a panic or a bad pointer. *)

From stdpp Require Import base tactics numbers list gmap.
From Stdlib Require Import ZArith.
From S2P Require Import Prelude.
#[local] Open Scope Z_scope.

Module Timer.

Definition TIMER_MAGIC : Z := 0x74696D72.

Record timer := mk_timer {
  t_magic : Z; scheduled_time : Z; periodic_time : Z; callback : option nat; arg : Z
}.

(** [objs] are the timers by address, [timer_queue] the queues by processor. *)
Record tstate := mk_ts { objs : gmap nat timer; timer_queue : gmap nat (list nat); platform : gmap nat Z }.

Definition TIME_GT (a b : Z) : bool := 0 <? i32 (a - b).
Definition TIME_LT (a b : Z) : bool := i32 (a - b) <? 0.

Definition queue (s : tstate) (cpu : nat) : list nat := default [] (timer_queue s !! cpu).
Definition set_queue (s : tstate) (cpu : nat) (q : list nat) : tstate :=
  mk_ts (objs s) (<[cpu := q]> (timer_queue s)) (platform s).
Definition set_obj (s : tstate) (t : nat) (r : timer) : tstate :=
  mk_ts (<[t := r]> (objs s)) (timer_queue s) (platform s).

Definition platform_set_oneshot_timer (s : tstate) (cpu : nat) (now delay : Z) : tstate :=
  mk_ts (objs s) (timer_queue s) (<[cpu := u32 (now + delay)]> (platform s)).
Definition platform_stop_timer (s : tstate) (cpu : nat) : tstate :=
  mk_ts (objs s) (timer_queue s) (delete cpu (platform s)).

Definition list_in_list (s : tstate) (t : nat) : bool :=
  bool_decide (map_Exists (λ _ q, t ∈ q) (timer_queue s)).
Definition list_delete (s : tstate) (t : nat) : tstate :=
  mk_ts (objs s) (filter (λ x, x ≠ t) <$> timer_queue s) (platform s).

(** For a timer that is in no queue. *)
Definition timer_initialize (s : tstate) (t : nat) : tstate :=
  set_obj s t (mk_timer TIMER_MAGIC 0 0 None 0).

(** The place of a timer due at [due]: before the first entry that is due later. *)
Fixpoint insert_before (s : tstate) (due : Z) (t : nat) (q : list nat) : option (list nat) :=
  match q with
  | [] => Some [t]
  | e :: q' =>
    r ← objs s !! e;
    if TIME_GT (scheduled_time r) due then Some (t :: e :: q')
    else q1 ← insert_before s due t q'; Some (e :: q1)
  end.

Definition insert_timer_in_queue (s : tstate) (cpu t : nat) : option tstate :=
  r ← objs s !! t;
  q ← insert_before s (scheduled_time r) t (queue s cpu);
  Some (set_queue s cpu q).

Definition timer_set (s : tstate) (cpu : nat) (now : Z) (t : nat) (delay period : Z) (cb : nat) (a : Z) : option tstate :=
  r ← objs s !! t;
  ASSERT t_magic r =? TIMER_MAGIC;
  ASSERT negb (list_in_list s t);
  let delay := u32 (delay + 1) in
  let s1 := set_obj s t (mk_timer (t_magic r) (u32 (now + delay)) period (Some cb) a) in
  s2 ← insert_timer_in_queue s1 cpu t;
  Some (if bool_decide (queue s2 cpu !! 0%nat = Some t) then platform_set_oneshot_timer s2 cpu now delay else s2).

Definition timer_set_oneshot (s : tstate) (cpu : nat) (now : Z) (t : nat) (delay : Z) (cb : nat) (a : Z) : option tstate :=
  timer_set s cpu now t (if delay =? 0 then 1 else delay) 0 cb a.

Definition timer_set_periodic (s : tstate) (cpu : nat) (now : Z) (t : nat) (period : Z) (cb : nat) (a : Z) : option tstate :=
  let period := if period =? 0 then 1 else period in
  timer_set s cpu now t period period cb a.

Definition timer_cancel (s : tstate) (cpu : nat) (now : Z) (t : nat) : option tstate :=
  r ← objs s !! t;
  ASSERT t_magic r =? TIMER_MAGIC;
  let oldhead := queue s cpu !! 0%nat in
  let s1 := if list_in_list s t then list_delete s t else s in
  let s2 := set_obj s1 t (mk_timer (t_magic r) (scheduled_time r) 0 None 0) in
  match queue s2 cpu with
  | [] => Some (platform_stop_timer s2 cpu)
  | h :: _ =>
    if bool_decide (oldhead = Some h) then Some s2 else
    rh ← objs s2 !! h;
    let delay := if TIME_LT (scheduled_time rh) now then 0 else u32 (scheduled_time rh - now) in
    Some (platform_set_oneshot_timer s2 cpu now delay)
  end.

Section tick.
Context (run : nat → nat → Z → Z → tstate → option (bool * tstate)).

(** One timer that is due: it leaves the queue, its callback runs, and it is
    queued again when it is periodic, still has a period and is not queued. *)
Definition fire (s : tstate) (cpu t : nat) (now : Z) (r : timer) : option (bool * tstate) :=
  ASSERT t_magic r =? TIMER_MAGIC;
  let s1 := list_delete s t in
  let periodic := 0 <? periodic_time r in
  cb ← callback r;
  '(resched, s2) ← run cb t now (arg r) s1;
  r2 ← objs s2 !! t;
  if periodic && negb (list_in_list s2 t) && (0 <? periodic_time r2) then
    let s3 := set_obj s2 t (mk_timer (t_magic r2) (u32 (now + periodic_time r2)) (periodic_time r2) (callback r2) (arg r2)) in
    s4 ← insert_timer_in_queue s3 cpu t;
    Some (resched, s4)
  else Some (resched, s2).

(** The loop over the timers that are due; [fired] lists those that ran. *)
Fixpoint tick_loop (fuel : nat) (s : tstate) (cpu : nat) (now : Z) (ret : bool) (fired : list nat)
  : option (bool * list nat * tstate) :=
  match fuel with
  | O => None
  | S fuel' =>
    match queue s cpu with
    | [] => Some (ret, fired, s)
    | t :: _ =>
      r ← objs s !! t;
      if TIME_LT now (scheduled_time r) then Some (ret, fired, s) else
      '(resched, s1) ← fire s cpu t now r;
      tick_loop fuel' s1 cpu now (ret || resched) (fired ++ [t])
    end
  end.

(** The platform timer, which is set for one shot, has gone off. *)
Definition timer_tick (fuel : nat) (s : tstate) (cpu : nat) (now : Z) : option (bool * list nat * tstate) :=
  '(ret, fired, s1) ← tick_loop fuel (platform_stop_timer s cpu) cpu now false [];
  match queue s1 cpu with
  | [] => Some (ret, fired, s1)
  | t :: _ =>
    r ← objs s1 !! t;
    ASSERT TIME_GT (scheduled_time r) now;
    Some (ret, fired, platform_set_oneshot_timer s1 cpu now (u32 (scheduled_time r - now)))
  end.
End tick.

(** The timers of another processor, one by one from its queue. *)
Fixpoint move_timers (ts : list nat) (s : tstate) (cpu : nat) : option tstate :=
  match ts with
  | [] => Some s
  | t :: ts' => s1 ← insert_timer_in_queue (list_delete s t) cpu t; move_timers ts' s1 cpu
  end.

Definition next_delay (s : tstate) (cpu : nat) (now : Z) (t : nat) : option tstate :=
  r ← objs s !! t;
  Some (platform_set_oneshot_timer s cpu now (if TIME_LT now (scheduled_time r) then u32 (scheduled_time r - now) else 0)).

Definition timer_transition_off_cpu (s : tstate) (cpu : nat) (now : Z) (old_cpu : nat) : option tstate :=
  let old_head := queue s old_cpu !! 0%nat in
  s1 ← move_timers (queue s old_cpu) s cpu;
  let new_head := queue s1 cpu !! 0%nat in
  if bool_decide (new_head = old_head) then Some s1 else t ← new_head; next_delay s1 cpu now t.

Definition timer_thaw_percpu (s : tstate) (cpu : nat) (now : Z) : option tstate :=
  match queue s cpu with [] => Some s | t :: _ => next_delay s cpu now t end.

Definition timer_init : tstate := mk_ts ∅ ∅ ∅.

End Timer.
