(* ===== verification/TimerFacts.v ===== *)
(** * Correctness of kernel timers

    Times are compared modulo 2^32.  As long as all times in use lie within
    2^31 milliseconds of a base time, the comparisons are those of the offsets
    from the base; the invariant [tinv] says so, and that the queues are sorted.
    [armed] says that the platform timer of a processor will go off in time for
    the first timer of its queue. *)

From stdpp Require Import base tactics numbers list gmap sets sorting.
From Stdlib Require Import ZArith Lia.
From S2P Require Import Prelude Timer.
#[local] Open Scope Z_scope.

Module TimerFacts.
Import Timer.

(** ** Wrap-around time *)

Definition off (b x : Z) : Z := u32 (x - b).

Lemma i32_unique x y : - 2 ^ 31 ≤ y < 2 ^ 31 → (∃ k, x = y + k * 2 ^ 32) → i32 x = y.
Proof.
  intros Hy [k ->]. unfold i32. replace (y + k * 2 ^ 32 + 2 ^ 31) with (y + 2 ^ 31 + k * 2 ^ 32) by lia.
  rewrite Z_mod_plus_full, Z.mod_small by lia. lia.
Qed.

Lemma u32_shift x : ∃ k, u32 x = x + k * 2 ^ 32.
Proof. exists (- (x / 2 ^ 32)). unfold u32. rewrite Z.mod_eq by lia. lia. Qed.

Lemma time_diff b x y : off b x < 2 ^ 31 → off b y < 2 ^ 31 → i32 (x - y) = off b x - off b y.
Proof.
  intros Hx Hy. pose proof (u32_range (x - b)) as Rx. pose proof (u32_range (y - b)) as Ry. unfold is_u32 in *.
  apply i32_unique; [unfold off in *; lia|]. unfold off.
  destruct (u32_shift (x - b)) as [k1 E1], (u32_shift (y - b)) as [k2 E2]. exists (k2 - k1). lia.
Qed.

Lemma time_gt b x y : off b x < 2 ^ 31 → off b y < 2 ^ 31 → TIME_GT x y = (off b y <? off b x).
Proof. intros Hx Hy. unfold TIME_GT. rewrite (time_diff b) by done. apply eq_true_iff_eq. rewrite !Z.ltb_lt. lia. Qed.

Lemma time_lt b x y : off b x < 2 ^ 31 → off b y < 2 ^ 31 → TIME_LT x y = (off b x <? off b y).
Proof. intros Hx Hy. unfold TIME_LT. rewrite (time_diff b) by done. apply eq_true_iff_eq. rewrite !Z.ltb_lt. lia. Qed.

Lemma off_nonneg b x : 0 ≤ off b x.
Proof. apply u32_range. Qed.

Lemma off_add b x d : 0 ≤ d → off b x + d < 2 ^ 32 → off b (u32 (x + d)) = off b x + d.
Proof.
  intros Hd Hr. pose proof (off_nonneg b x). unfold off in *. destruct (u32_shift (x + d)) as [k1 E1], (u32_shift (x - b)) as [k2 E2].
  rewrite E1. unfold u32 at 1. rewrite E2. symmetry. apply (Z.mod_unique_pos _ _ (k1 - k2)); lia.
Qed.

(** ** The invariant *)

Section facts.
(** The base of the times in use and the longest delay or period. *)
Context (b horizon : Z).

Definition due (s : tstate) (t : nat) : Z :=
  match objs s !! t with Some r => off b (scheduled_time r) | None => 0 end.

Definition obj_ok (r : timer) : Prop := t_magic r = TIMER_MAGIC ∧ 0 ≤ periodic_time r ≤ horizon.

Record tinv (s : tstate) : Prop := {
  ti_objs t r : objs s !! t = Some r → obj_ok r;
  ti_queued c t : t ∈ queue s c → ∃ r, objs s !! t = Some r ∧ is_Some (callback r) ∧ off b (scheduled_time r) < 2 ^ 31;
  ti_nodup c : NoDup (queue s c);
  ti_one c c' t : t ∈ queue s c → t ∈ queue s c' → c = c';
  ti_sorted c : StronglySorted (λ x y, due s x ≤ due s y) (queue s c)
}.

(** The platform timer goes off when the first timer is due, or at once. *)
Definition armed (s : tstate) (now : Z) (c : nat) : Prop :=
  match queue s c with
  | [] => True
  | t :: _ => ∃ dl, platform s !! c = Some dl ∧ off b dl ≤ Z.max (due s t) (off b now)
  end.

Lemma queue_lookup s c : queue s c = match timer_queue s !! c with Some q => q | None => [] end.
Proof. unfold queue. by destruct (timer_queue s !! c). Qed.

Lemma in_list_spec s t : list_in_list s t = true ↔ ∃ c, t ∈ queue s c.
Proof.
  unfold list_in_list. rewrite bool_decide_eq_true. split.
  - intros (c & q & Hq & Ht). exists c. by rewrite queue_lookup, Hq.
  - intros [c Hc]. rewrite queue_lookup in Hc. destruct (timer_queue s !! c) as [q|] eqn:Hq; [by exists c, q|set_solver].
Qed.

Lemma timer_not_queued s t c : list_in_list s t = false → t ∉ queue s c.
Proof. intros Hn Ht. assert (list_in_list s t = true) by (apply in_list_spec; eauto). congruence. Qed.

Lemma queue_set s c q c' : queue (set_queue s c q) c' = if decide (c' = c) then q else queue s c'.
Proof.
  rewrite !queue_lookup. simpl. case_decide; [subst; by rewrite lookup_insert_eq|by rewrite lookup_insert_ne].
Qed.

Lemma queue_delete s t c : queue (list_delete s t) c = filter (λ x, x ≠ t) (queue s c).
Proof. rewrite !queue_lookup. simpl. rewrite lookup_fmap. by destruct (timer_queue s !! c). Qed.

Lemma due_set_obj s t r x : x ≠ t → due (set_obj s t r) x = due s x.
Proof. intros. unfold due. simpl. by rewrite lookup_insert_ne. Qed.
Lemma due_set_obj_eq s t r : due (set_obj s t r) t = off b (scheduled_time r).
Proof. unfold due. simpl. by rewrite lookup_insert_eq. Qed.

(** Sortedness looks at the times of the queued timers only. *)
Lemma sorted_ext {A} (f g : A → Z) l : (∀ x, x ∈ l → f x = g x) →
  StronglySorted (λ x y, f x ≤ f y) l → StronglySorted (λ x y, g x ≤ g y) l.
Proof.
  intros Hfg. induction 1 as [|x l Hs IH Hall]; constructor.
  - apply IH. intros y Hy. apply Hfg. set_solver.
  - rewrite Forall_forall in *. intros y Hy. rewrite <- !Hfg by set_solver. by apply Hall.
Qed.

Lemma sorted_filter {A} (R : A → A → Prop) (P : A → Prop) `{∀ x, Decision (P x)} l :
  StronglySorted R l → StronglySorted R (filter P l).
Proof.
  induction 1 as [|x l Hs IH Hall]; [constructor|]. rewrite filter_cons. case_decide; [|done]. constructor; [done|].
  rewrite Forall_forall in *. intros y Hy. apply Hall. by apply list_elem_of_filter in Hy as [_ ?].
Qed.

Lemma sorted_insert (f : nat → Z) q1 t q2 :
  StronglySorted (λ x y, f x ≤ f y) (q1 ++ q2) → (∀ x, x ∈ q1 → f x ≤ f t) → (∀ x, x ∈ q2 → f t ≤ f x) →
  StronglySorted (λ x y, f x ≤ f y) (q1 ++ t :: q2).
Proof.
  induction q1 as [|y q1 IH]; simpl; intros Hs H1 H2.
  - constructor; [done|]. by apply Forall_forall.
  - inversion Hs as [|? ? Hs' Hall]; subst. constructor; [apply IH; [done|set_solver|done]|].
    rewrite Forall_forall in *. intros x Hx. apply elem_of_app in Hx as [Hx|Hx]; [apply Hall; set_solver|].
    apply elem_of_cons in Hx as [->|Hx]; [apply H1; set_solver|apply Hall; set_solver].
Qed.

(** A timer goes after those due no later and before those due later. *)
Lemma insert_before_spec s d t q :
  off b d < 2 ^ 31 → (∀ x, x ∈ q → ∃ r, objs s !! x = Some r ∧ off b (scheduled_time r) < 2 ^ 31) →
  StronglySorted (λ x y, due s x ≤ due s y) q →
  ∃ q1 q2, q = q1 ++ q2 ∧ insert_before s d t q = Some (q1 ++ t :: q2) ∧
    (∀ x, x ∈ q1 → due s x ≤ off b d) ∧ (∀ x, x ∈ q2 → off b d < due s x).
Proof.
  intros Hd. induction q as [|e q IH]; intros Hq Hs; simpl.
  - exists [], []. split_and!; try done; set_solver.
  - destruct (Hq e ltac:(set_solver)) as (r & Hr & Hro). rewrite Hr. cbn [mbind option_bind].
    inversion Hs as [|? ? Hs' Hall]; subst. rewrite (time_gt b) by done.
    assert (Hde : due s e = off b (scheduled_time r)) by (unfold due; by rewrite Hr). rewrite <- Hde.
    destruct (off b d <? due s e) eqn:E; zb.
    + exists [], (e :: q). split_and!; [done|done|set_solver|]. rewrite Forall_forall in Hall. intros x Hx.
      apply elem_of_cons in Hx as [->|Hx]; [done|]. pose proof (Hall x Hx). lia.
    + destruct IH as (q1 & q2 & -> & -> & H1 & H2); [intros x Hx; apply Hq; set_solver|done|].
      exists (e :: q1), q2. cbn [mbind option_bind]. split_and!; [done|done|set_solver|done].
Qed.

(** ** Queues *)

Lemma tinv_set_obj s t r : tinv s → (∀ c, t ∉ queue s c) → obj_ok r → tinv (set_obj s t r).
Proof.
  intros Hi Hn Hr. split; change (queue (set_obj s t r)) with (queue s); try apply Hi.
  - intros x rx. simpl. destruct (decide (x = t)) as [->|]; [rewrite lookup_insert_eq|rewrite lookup_insert_ne by done; apply Hi].
    by intros [= <-].
  - intros c x Hx. simpl. rewrite lookup_insert_ne by (intros ->; by apply (Hn c)). by eapply Hi.
  - intros c. apply (sorted_ext (due s)); [|apply Hi]. intros x Hx. symmetry. apply due_set_obj. intros ->. by apply (Hn c).
Qed.

Lemma tinv_delete s t : tinv s → tinv (list_delete s t) ∧ ∀ c, t ∉ queue (list_delete s t) c.
Proof.
  intros Hi. split.
  - split; try (by apply Hi); intros c; rewrite ?queue_delete.
    + intros x Hx. apply list_elem_of_filter in Hx as [_ Hx]. by eapply (ti_queued s Hi).
    + apply NoDup_filter, Hi.
    + intros c' x. rewrite !queue_delete, !list_elem_of_filter. intros [_ H1] [_ H2]. by eapply (ti_one s Hi).
    + change (due (list_delete s t)) with (due s). apply sorted_filter, Hi.
  - intros c. rewrite queue_delete, list_elem_of_filter. naive_solver.
Qed.

Lemma tinv_platform s p : tinv s → tinv (mk_ts (objs s) (timer_queue s) p).
Proof. intros Hi. split; apply Hi. Qed.

Lemma timer_insert_ok s c t r :
  tinv s → objs s !! t = Some r → is_Some (callback r) → off b (scheduled_time r) < 2 ^ 31 → (∀ c', t ∉ queue s c') →
  ∃ q1 q2, queue s c = q1 ++ q2 ∧ insert_timer_in_queue s c t = Some (set_queue s c (q1 ++ t :: q2)) ∧
    tinv (set_queue s c (q1 ++ t :: q2)) ∧ (∀ x, x ∈ q1 → due s x ≤ due s t) ∧ (∀ x, x ∈ q2 → due s t < due s x).
Proof.
  intros Hi Hr Hcb Hoff Hn. assert (Hdt : due s t = off b (scheduled_time r)) by (unfold due; by rewrite Hr).
  destruct (insert_before_spec s (scheduled_time r) t (queue s c)) as (q1 & q2 & Eq & Ei & H1 & H2); [done| |apply Hi|].
  { intros x Hx. destruct (ti_queued s Hi c x Hx) as (rx & ? & _ & ?). eauto. }
  exists q1, q2. unfold insert_timer_in_queue. rewrite Hr. cbn [mbind option_bind]. rewrite Ei. cbn [mbind option_bind].
  rewrite <- Hdt in *. split_and!; [done|done| |done|done].
  assert (Hin : ∀ x, x ∈ q1 ++ t :: q2 ↔ x = t ∨ x ∈ queue s c) by (intros x; rewrite Eq; set_solver).
  split; try (by apply Hi); intros c1; rewrite ?queue_set.
  - intros x Hx. change (objs (set_queue _ _ _)) with (objs s). case_decide; [|by eapply (ti_queued s Hi)].
    apply Hin in Hx as [->|Hx]; [exists r; by rewrite <- Hdt|by eapply (ti_queued s Hi)].
  - case_decide; [|apply Hi]. pose proof (ti_nodup s Hi c) as Hnd. pose proof (Hn c) as Hnc. rewrite Eq in Hnd, Hnc.
    apply NoDup_app in Hnd as (? & ? & ?). apply NoDup_app. split_and!; [done|set_solver|]. apply NoDup_cons. split; [set_solver|done].
  - intros c2 x. rewrite queue_set. destruct (decide (c1 = c)) as [->|], (decide (c2 = c)) as [->|]; rewrite ?Hin.
    + done.
    + intros [->|Hx] Hx2; [by destruct (Hn c2)|by eapply (ti_one s Hi)].
    + intros Hx [->|Hx2]; [by destruct (Hn c1)|by eapply (ti_one s Hi)].
    + intros Hx Hx2. by eapply (ti_one s Hi).
  - change (due (set_queue s c (q1 ++ t :: q2))) with (due s). case_decide; [|apply Hi].
    apply sorted_insert; [rewrite <- Eq; apply Hi|done|]. intros x Hx. pose proof (H2 x Hx). lia.
Qed.

(** ** Setting and cancelling *)

(** Setting the platform timer when the new timer is the first. *)
Lemma armed_insert s s' now c t q1 q2 dl c' :
  queue s c = q1 ++ q2 → (∀ x, queue s' x = if decide (x = c) then q1 ++ t :: q2 else queue s x) →
  (∀ x, t ∉ queue s x) → (∀ x, x ≠ t → due s' x = due s x) →
  platform s' = (if bool_decide ((q1 ++ t :: q2) !! 0%nat = Some t) then <[c := dl]> (platform s) else platform s) →
  off b dl ≤ due s' t → armed s now c' → armed s' now c'.
Proof.
  intros Eq Hq Hn Hdx Hpl Hdl Ha. unfold armed in *. rewrite Hq. destruct (decide (c' = c)) as [->|Hne].
  - rewrite Eq in Ha. destruct q1 as [|h q1]; simpl in Ha |- *.
    + exists dl. rewrite Hpl, bool_decide_true by done. split; [apply lookup_insert_eq|lia].
    + destruct Ha as (dl' & Hdl' & Hle). exists dl'. assert (h ≠ t) by (intros ->; apply (Hn c); rewrite Eq; set_solver).
      rewrite Hdx, Hpl, bool_decide_false by (done || simpl; congruence). done.
  - destruct (queue s c') as [|h q] eqn:Eq'; [done|]. destruct Ha as (dl' & Hdl' & Hle). exists dl'.
    assert (h ≠ t) by (intros ->; apply (Hn c'); rewrite Eq'; set_solver). rewrite Hdx, Hpl by done. split; [|done].
    destruct (bool_decide _); [by rewrite lookup_insert_ne|done].
Qed.


Lemma timer_set_ok s c now t r0 delay period cb a :
  tinv s → objs s !! t = Some r0 → list_in_list s t = false → off b now + horizon < 2 ^ 31 →
  0 ≤ delay → delay + 1 ≤ horizon → 0 ≤ period ≤ horizon →
  ∃ s' q1 q2, timer_set s c now t delay period cb a = Some s' ∧ tinv s' ∧
    queue s c = q1 ++ q2 ∧ queue s' c = q1 ++ t :: q2 ∧ (∀ c', c' ≠ c → queue s' c' = queue s c') ∧
    due s' t = off b now + delay + 1 ∧ (∀ x, x ≠ t → due s' x = due s x) ∧
    (∀ x, x ∈ q1 → due s x ≤ due s' t) ∧ (∀ x, x ∈ q2 → due s' t < due s x) ∧
    (∀ x, x ≠ t → objs s' !! x = objs s !! x) ∧ (∀ c', armed s now c' → armed s' now c').
Proof.
  intros Hi Hr0 Hnl Hnow Hd Hd2 Hp. destruct (ti_objs s Hi t r0 Hr0) as [Hm _].
  assert (Hn : ∀ c', t ∉ queue s c') by (intros c'; by apply timer_not_queued).
  unfold timer_set. rewrite Hr0. cbn [mbind option_bind]. rewrite Hm, Z.eqb_refl, Hnl. cbn [negb].
  pose proof (off_nonneg b now). rewrite (u32_id (delay + 1)) by (unfold is_u32; lia).
  set (r := mk_timer _ _ _ _ _). set (s1 := set_obj s t r).
  assert (Hoff : off b (scheduled_time r) = off b now + delay + 1) by (simpl; rewrite off_add by lia; lia).
  assert (Hi1 : tinv s1) by (by apply tinv_set_obj).
  destruct (timer_insert_ok s1 c t r) as (q1 & q2 & Eq & -> & Hi2 & H1 & H2);
    [done|apply lookup_insert_eq|by eexists|lia|done|]. cbn [mbind option_bind].
  change (queue s1 c) with (queue s c) in Eq. set (s2 := set_queue s1 c (q1 ++ t :: q2)) in *.
  assert (Hdt : due s1 t = off b now + delay + 1) by (unfold s1; rewrite due_set_obj_eq; exact Hoff).
  assert (Hdx : ∀ x, x ≠ t → due s1 x = due s x) by (intros x Hx; by apply due_set_obj).
  assert (Hq2 : ∀ c', queue s2 c' = if decide (c' = c) then q1 ++ t :: q2 else queue s c') by (intros c'; unfold s2; by rewrite queue_set).
  set (s3 := if bool_decide _ then _ else s2).
  assert (Eo : objs s3 = objs s1 ∧ timer_queue s3 = timer_queue s2) by (unfold s3; by destruct (bool_decide _)).
  assert (Hq3 : ∀ c', queue s3 c' = queue s2 c') by (intros c'; unfold queue; by rewrite (proj2 Eo)).
  assert (Hd3 : ∀ x, due s3 x = due s1 x) by (intros x; unfold due; by rewrite (proj1 Eo)).
  assert (Hpl : platform s3 = if bool_decide (queue s2 c !! 0%nat = Some t)
    then <[c := u32 (now + (delay + 1))]> (platform s) else platform s) by (unfold s3; by destruct (bool_decide _)).
  exists s3, q1, q2. split_and!; try done.
  - unfold s3. destruct (bool_decide _); [by apply tinv_platform|done].
  - rewrite Hq3, Hq2, decide_True; done.
  - intros c' Hc'. rewrite Hq3, Hq2, decide_False; done.
  - by rewrite Hd3.
  - intros x Hx. rewrite Hd3. auto.
  - intros x Hx. rewrite Hd3, <- Hdx; [by apply H1|]. intros ->. apply (Hn c). rewrite Eq. set_solver.
  - intros x Hx. rewrite Hd3, <- Hdx; [by apply H2|]. intros ->. apply (Hn c). rewrite Eq. set_solver.
  - intros x Hx. rewrite (proj1 Eo). unfold s1. simpl. by rewrite lookup_insert_ne.
  - intros c'. apply (armed_insert s s3 now c t q1 q2 (u32 (now + (delay + 1)))); try done.
    + intros c''. by rewrite Hq3, Hq2.
    + intros x Hx. rewrite Hd3. auto.
    + rewrite Hpl, Hq2, decide_True by done. done.
    + rewrite off_add by lia. rewrite Hd3, Hdt. lia.
Qed.

(** Taking a timer out of a sorted queue does not bring its head forward. *)
Lemma head_filter s c t h q :
  tinv s → filter (λ x, x ≠ t) (queue s c) = h :: q → ∃ h0 q0, queue s c = h0 :: q0 ∧ due s h0 ≤ due s h.
Proof.
  intros Hi Ef. pose proof (ti_sorted s Hi c) as Hs. destruct (queue s c) as [|h0 q0]; [done|]. exists h0, q0. split; [done|].
  inversion Hs as [|? ? _ Hall]; subst. rewrite filter_cons in Ef. case_decide; [by simplify_eq|].
  rewrite Forall_forall in Hall. apply Hall. assert (Hh : h ∈ filter (λ x, x ≠ t) q0) by (rewrite Ef; set_solver).
  by apply list_elem_of_filter in Hh as [_ ?].
Qed.

Lemma armed_delete s now c t : tinv s → armed s now c → armed (list_delete s t) now c.
Proof.
  intros Hi Ha. unfold armed in *. rewrite queue_delete. change (due (list_delete s t)) with (due s).
  destruct (filter _ _) as [|h q] eqn:Ef; [done|]. destruct (head_filter s c t h q Hi Ef) as (h0 & q0 & E & Hle).
  rewrite E in Ha. destruct Ha as (dl & ? & ?). exists dl. split; [done|lia].
Qed.

Lemma armed_set_obj s now c t r : (∀ c', t ∉ queue s c') → armed s now c → armed (set_obj s t r) now c.
Proof.
  intros Hn Ha. unfold armed in *. change (queue (set_obj s t r) c) with (queue s c).
  destruct (queue s c) as [|h q] eqn:E; [done|]. rewrite due_set_obj; [done|]. intros ->. apply (Hn c). rewrite E. set_solver.
Qed.

(** The platform timer is set for the time a timer is due, or at once. *)
Lemma rearm_off now x : off b now < 2 ^ 31 → off b x < 2 ^ 31 →
  off b (u32 (now + (if TIME_LT x now then 0 else u32 (x - now)))) ≤ Z.max (off b x) (off b now).
Proof.
  intros Hn Hx. rewrite (time_lt b) by done. pose proof (off_nonneg b x). pose proof (off_nonneg b now).
  destruct (off b x <? off b now) eqn:E; zb.
  - rewrite off_add by lia. lia.
  - assert (u32 (x - now) = off b x - off b now) as ->; [|rewrite off_add by lia; lia].
    unfold off in *. destruct (u32_shift (x - b)) as [k1 E1], (u32_shift (now - b)) as [k2 E2]. rewrite E1, E2 in *.
    unfold u32. symmetry. apply (Z.mod_unique_pos _ _ (k2 - k1)); lia.
Qed.

Lemma timer_cancel_ok s c now t r0 :
  tinv s → objs s !! t = Some r0 → off b now < 2 ^ 31 → 0 ≤ horizon →
  ∃ s', timer_cancel s c now t = Some s' ∧ tinv s' ∧ (∀ c', queue s' c' = filter (λ x, x ≠ t) (queue s c')) ∧
    (∀ x, x ≠ t → objs s' !! x = objs s !! x) ∧ (∀ c', armed s now c' → armed s' now c').
Proof.
  intros Hi Hr0 Hnow Hh. destruct (ti_objs s Hi t r0 Hr0) as [Hm _].
  unfold timer_cancel. rewrite Hr0. cbn [mbind option_bind]. rewrite Hm, Z.eqb_refl.
  set (s1 := if list_in_list s t then list_delete s t else s).
  assert (H1 : tinv s1 ∧ (∀ c', queue s1 c' = filter (λ x, x ≠ t) (queue s c')) ∧ objs s1 = objs s ∧
    (∀ c', armed s now c' → armed s1 now c')).
  { unfold s1. destruct (list_in_list s t) eqn:E.
    - split_and!; [by apply tinv_delete|intros c'; apply queue_delete|done|intros c'; by apply armed_delete].
    - split_and!; [done| |done|done]. intros c'. pose proof (timer_not_queued s t c' E) as Hn. symmetry. apply filter_all.
      intros x Hx ->. done. }
  destruct H1 as (Hi1 & Hq1 & Ho1 & Ha1).
  assert (Hn1 : ∀ c', t ∉ queue s1 c') by (intros c'; rewrite Hq1, list_elem_of_filter; naive_solver).
  set (s2 := set_obj s1 t _). assert (Hi2 : tinv s2) by (apply tinv_set_obj; [done|done|done]).
  assert (Hq2 : ∀ c', queue s2 c' = filter (λ x, x ≠ t) (queue s c')) by exact Hq1.
  assert (Ha2 : ∀ c', armed s now c' → armed s2 now c') by (intros c' ?; by apply armed_set_obj; auto).
  assert (Ho2 : ∀ x, x ≠ t → objs s2 !! x = objs s !! x) by (intros x Hx; unfold s2; simpl; rewrite lookup_insert_ne, Ho1; done).
  destruct (queue s2 c) as [|h q] eqn:Eq.
  { eexists. split_and!; [done|by apply tinv_platform|exact Hq2|done|].
    intros c' Ha. unfold armed. change (queue (platform_stop_timer s2 c) c') with (queue s2 c').
    destruct (decide (c' = c)) as [->|]; [by rewrite Eq|]. specialize (Ha2 c' Ha). unfold armed in Ha2. simpl.
    destruct (queue s2 c'); [done|]. by rewrite lookup_delete_ne. }
  case_bool_decide; [by eexists|].
  destruct (ti_queued s2 Hi2 c h) as (rh & Hrh & _ & Hoh); [rewrite Eq; set_solver|]. rewrite Hrh. cbn [mbind option_bind].
  eexists. split_and!; [done|by apply tinv_platform|exact Hq2|done|].
  intros c' Ha. unfold armed. change (queue (platform_set_oneshot_timer _ _ _ _) c') with (queue s2 c').
  destruct (decide (c' = c)) as [->|]; [rewrite Eq|].
  - simpl. eexists. split; [apply lookup_insert_eq|]. change (due (platform_set_oneshot_timer _ _ _ _) h) with (due s2 h).
    assert (Hdh : due s2 h = off b (scheduled_time rh)) by (unfold due; by rewrite Hrh). rewrite Hdh.
    apply (rearm_off now (scheduled_time rh)); done.
  - specialize (Ha2 c' Ha). unfold armed in Ha2. simpl. destruct (queue s2 c'); [done|]. by rewrite lookup_insert_ne.
Qed.

(** ** The tick *)

(** The timers of a processor that are due, in the order of its queue. *)
Definition due_list (s : tstate) (c : nat) (now : Z) : list nat := filter (λ t, due s t ≤ off b now) (queue s c).

(** When the first timer is not due, none is. *)
Lemma due_list_head s c now t q :
  tinv s → queue s c = t :: q →
  if decide (due s t ≤ off b now) then due_list s c now = t :: due_list (list_delete s t) c now else due_list s c now = [].
Proof.
  intros Hi Eq. pose proof (ti_sorted s Hi c) as Hs. pose proof (ti_nodup s Hi c) as Hnd. unfold due_list. rewrite queue_delete.
  change (due (list_delete s t)) with (due s). rewrite Eq in *. inversion Hs as [|? ? _ Hall]; subst.
  rewrite Forall_forall in Hall. apply NoDup_cons in Hnd as [Hn _]. case_decide as Hd.
  - rewrite !filter_cons, decide_True by done. f_equal. rewrite (decide_False (P := t ≠ t)) by naive_solver.
    rewrite (filter_all (λ x, x ≠ t) q); [done|]. by intros x Hx ->.
  - apply filter_none. intros x Hx. apply elem_of_cons in Hx as [->|Hx]; [done|]. pose proof (Hall x Hx). lia.
Qed.

(** A timer that is not due yet does not count. *)
Lemma due_list_insert s s' c now t q1 q2 :
  queue s c = q1 ++ q2 → queue s' c = q1 ++ t :: q2 → t ∉ queue s c → off b now < due s' t →
  (∀ x, x ≠ t → due s' x = due s x) → due_list s' c now = due_list s c now.
Proof.
  intros Eq Eq' Hn Hd Hx. unfold due_list. rewrite Eq', filter_app, filter_cons, decide_False by lia.
  rewrite <- filter_app, <- Eq. apply filter_ext_in. intros x Hin. rewrite Hx; [done|]. by intros ->.
Qed.

Section tick.
Context (run : nat → nat → Z → Z → tstate → option (bool * tstate)) (now : Z) (c : nat).

(** Callbacks keep the invariant and the timers, and neither cancel nor add a
    timer of this processor that is due. *)
Hypothesis run_ok : ∀ cb t a s, tinv s → (∀ c', t ∉ queue s c') → (∃ r, objs s !! t = Some r ∧ is_Some (callback r)) →
  ∃ r s', run cb t now a s = Some (r, s') ∧ tinv s' ∧ due_list s' c now = due_list s c now ∧
    (∀ x, is_Some (objs s !! x) → is_Some (objs s' !! x)) ∧
    (∀ r', objs s' !! t = Some r' → list_in_list s' t = false → 0 < periodic_time r' → is_Some (callback r')).

Hypothesis now_ok : 0 ≤ horizon ∧ off b now + horizon < 2 ^ 31.

Lemma fire_ok s t r q :
  tinv s → queue s c = t :: q → objs s !! t = Some r → due s t ≤ off b now →
  ∃ b' s', fire run s c t now r = Some (b', s') ∧ tinv s' ∧ due_list s c now = t :: due_list s' c now ∧
    (∀ x, is_Some (objs s !! x) → is_Some (objs s' !! x)).
Proof using run_ok now_ok.
  intros Hi Eq Hr Hd. destruct (ti_objs s Hi t r Hr) as [Hm _]. unfold fire. rewrite Hm, Z.eqb_refl.
  destruct (ti_queued s Hi c t) as (r' & Hr' & [cb Hcb] & _); [rewrite Eq; set_solver|]. assert (r' = r) as -> by congruence.
  rewrite Hcb. cbn [mbind option_bind]. destruct (tinv_delete s t Hi) as [Hi1 Hn1].
  destruct (run_ok cb t (arg r) (list_delete s t) Hi1 Hn1 ltac:(exists r; by eauto)) as (b' & s2 & -> & Hi2 & Hdl & Hkeep & Hcb2).
  cbn [mbind option_bind]. destruct (Hkeep t ltac:(by exists r)) as [r2 Hr2]. rewrite Hr2. cbn [mbind option_bind].
  pose proof (due_list_head s c now t q Hi Eq) as Hh. rewrite decide_True in Hh by done.
  destruct (_ && _ && _) eqn:Ego; [|exists b', s2; rewrite Hh, Hdl; auto].
  apply andb_prop in Ego as [Ego Hper]. apply andb_prop in Ego as [_ Hnl]. apply negb_true_iff in Hnl. apply Z.ltb_lt in Hper.
  destruct (ti_objs s2 Hi2 t r2 Hr2) as [Hm2 Hp2].
  assert (Hn2 : ∀ c', t ∉ queue s2 c') by (intros c'; by apply timer_not_queued).
  set (r3 := mk_timer _ _ _ _ _). set (s3 := set_obj s2 t r3). pose proof (off_nonneg b now).
  assert (Ho3 : off b (scheduled_time r3) = off b now + periodic_time r2) by (simpl; rewrite off_add; lia).
  assert (Hi3 : tinv s3) by (by apply tinv_set_obj).
  destruct (timer_insert_ok s3 c t r3) as (q1 & q2 & Eq3 & -> & Hi4 & _ & _);
    [done|apply lookup_insert_eq|exact (Hcb2 r2 Hr2 Hnl Hper)|lia|done|]. cbn [mbind option_bind].
  do 2 eexists. split_and!; [done|done| |].
  - rewrite Hh, <- Hdl. f_equal. symmetry. apply (due_list_insert s2 _ c now t q1 q2); [done| |apply Hn2| |].
    + by rewrite queue_set, decide_True.
    + change (due (set_queue s3 c (q1 ++ t :: q2))) with (due s3). unfold s3. rewrite due_set_obj_eq, Ho3. lia.
    + intros x Hx. change (due (set_queue s3 c (q1 ++ t :: q2))) with (due s3). by apply due_set_obj.
  - intros x Hx. simpl. destruct (decide (x = t)) as [->|]; [rewrite lookup_insert_eq; eauto|rewrite lookup_insert_ne by done; auto].
Qed.

Lemma tick_loop_ok fuel : ∀ s ret fired,
  tinv s → (length (due_list s c now) < fuel)%nat →
  ∃ ret' s', tick_loop run fuel s c now ret fired = Some (ret', fired ++ due_list s c now, s') ∧ tinv s' ∧
    due_list s' c now = [].
Proof using run_ok now_ok.
  induction fuel as [|fuel IH]; intros s ret fired Hi Hf; [lia|]. cbn [tick_loop].
  destruct (queue s c) as [|t q] eqn:Eq.
  { assert (due_list s c now = []) as E by (unfold due_list; by rewrite Eq). rewrite E, app_nil_r. eauto. }
  destruct (ti_queued s Hi c t) as (r & Hr & _ & Hro); [rewrite Eq; set_solver|]. rewrite Hr. cbn [mbind option_bind].
  assert (Hdt : due s t = off b (scheduled_time r)) by (unfold due; by rewrite Hr).
  pose proof (due_list_head s c now t q Hi Eq) as Hh. rewrite (time_lt b) by lia.
  rewrite <- Hdt. destruct (off b now <? due s t) eqn:E; zb.
  { rewrite decide_False in Hh by lia. rewrite Hh, app_nil_r. eauto. }
  destruct (fire_ok s t r q Hi Eq Hr E) as (b' & s1 & -> & Hi1 & Hdl & _). cbn [mbind option_bind].
  rewrite Hdl in Hf |- *. simpl in Hf. destruct (IH s1 (ret || b') (fired ++ [t]) Hi1) as (ret' & s' & -> & Hi' & Hdl'); [lia|].
  exists ret', s'. by rewrite <- app_assoc.
Qed.
End tick.

(** ** Moving timers to another processor *)

Lemma move_timers_head c t : ∀ ts s q,
  tinv s → queue s c = t :: q → (∀ x, x ∈ ts → (∃ r, objs s !! x = Some r ∧ is_Some (callback r) ∧ off b (scheduled_time r) < 2 ^ 31) ∧
    x ≠ t ∧ due s t ≤ due s x) →
  ∃ s' q', move_timers ts s c = Some s' ∧ tinv s' ∧ queue s' c = t :: q' ∧ platform s' = platform s.
Proof.
  induction ts as [|x ts IH]; intros s q Hi Eq Hts; simpl; [eauto 8|].
  destruct (Hts x ltac:(set_solver)) as ((r & Hr & Hcb & Hoff) & Hne & Hle).
  destruct (tinv_delete s x Hi) as [Hi1 Hn1].
  destruct (timer_insert_ok (list_delete s x) c x r Hi1 Hr Hcb Hoff Hn1) as (q1 & q2 & Eq1 & -> & Hi2 & _ & H2).
  cbn [mbind option_bind]. set (s2 := set_queue _ _ _) in *.
  assert (Ht : ∃ q', queue s2 c = t :: q').
  { unfold s2. rewrite queue_set, decide_True by done. rewrite queue_delete, Eq, filter_cons, decide_True in Eq1 by done.
    destruct q1 as [|y q1]; simplify_eq/=; [|eauto].
    exfalso. pose proof (H2 t ltac:(set_solver)) as Hlt. change (due (list_delete s x)) with (due s) in Hlt. lia. }
  destruct Ht as [q' Eq2]. destruct (IH s2 q' Hi2 Eq2) as (s' & q3 & E & ? & ? & Hp); [|eauto 8].
  intros y Hy. apply Hts. set_solver.
Qed.

Lemma transition_head s c now old t q :
  tinv s → c ≠ old → queue s c = [] → queue s old = t :: q →
  ∃ s' q', timer_transition_off_cpu s c now old = Some s' ∧ tinv s' ∧ queue s' c = t :: q' ∧ platform s' = platform s.
Proof.
  intros Hi Hne Hc Ho. unfold timer_transition_off_cpu. rewrite Ho. simpl.
  destruct (ti_queued s Hi old t) as (r & Hr & Hcb & Hoff); [rewrite Ho; set_solver|].
  destruct (tinv_delete s t Hi) as [Hi1 Hn1].
  destruct (timer_insert_ok (list_delete s t) c t r Hi1 Hr Hcb Hoff Hn1) as (q1 & q2 & Eq1 & -> & Hi2 & _ & _).
  rewrite queue_delete, Hc in Eq1. symmetry in Eq1. apply app_eq_nil in Eq1 as [-> ->]. cbn [mbind option_bind].
  set (s2 := set_queue _ _ _) in *. pose proof (ti_sorted s Hi old) as Hs. pose proof (ti_nodup s Hi old) as Hnd.
  rewrite Ho in Hs, Hnd. inversion Hs as [|? ? _ Hall]; subst. rewrite Forall_forall in Hall. apply NoDup_cons in Hnd as [Hnt _].
  destruct (move_timers_head c t q s2 []) as (s' & q' & E & Hi' & Eq' & Hp); [done|unfold s2; by rewrite queue_set, decide_True| |].
  { intros x Hx. split_and!; [|by intros ->|by apply Hall]. destruct (ti_queued s Hi old x); [rewrite Ho; set_solver|eauto]. }
  simpl in E. rewrite E. cbn [mbind option_bind]. rewrite Eq'. simpl. rewrite bool_decide_true by done. eauto 8.
Qed.

End facts.

(** ** Properties *)


(** A callback that sets its timer again satisfies what the tick asks of callbacks. *)
Definition rearm (c : nat) (cb t : nat) (now a : Z) (s : tstate) : option (bool * tstate) :=
  s' ← timer_set s c now t 20 0 cb a; Some (true, s').

Lemma rearm_ok b horizon c now cb t a s :
  21 ≤ horizon → off b now + horizon < 2 ^ 31 →
  tinv b horizon s → (∀ c', t ∉ queue s c') → (∃ r, objs s !! t = Some r ∧ is_Some (callback r)) →
  ∃ r s', rearm c cb t now a s = Some (r, s') ∧ tinv b horizon s' ∧ due_list b s' c now = due_list b s c now ∧
    (∀ x, is_Some (objs s !! x) → is_Some (objs s' !! x)) ∧
    (∀ r', objs s' !! t = Some r' → list_in_list s' t = false → 0 < periodic_time r' → is_Some (callback r')).
Proof.
  intros Hh Hnow Hi Hn (r & Hr & _).
  assert (Hnl : list_in_list s t = false).
  { destruct (list_in_list s t) eqn:E; [|done]. apply in_list_spec in E as [c' Hc']. by destruct (Hn c'). }
  destruct (timer_set_ok b horizon s c now t r 20 0 cb a Hi Hr Hnl Hnow)
    as (s' & q1 & q2 & E & Hi' & Eq & Eq' & _ & Hdt & Hdx & _ & _ & Hox & _); [lia..|].
  exists true, s'. unfold rearm. rewrite E. split_and!; [done|done| | |].
  - apply (due_list_insert b s s' c now t q1 q2); [done|done|apply Hn|lia|done].
  - intros x Hx. destruct (decide (x = t)) as [->|]; [|by rewrite Hox].
    destruct (ti_queued _ _ s' Hi' c t) as (r' & Hr' & _); [rewrite Eq'; set_solver|eauto].
  - intros r' _ Hnl'. exfalso. apply (timer_not_queued s' t c Hnl'). rewrite Eq'. set_solver.
Qed.

Lemma tinv_init b horizon : tinv b horizon timer_init.
Proof.
  assert (Hq : ∀ c, queue timer_init c = []).
  { intros c. unfold queue. change (timer_queue timer_init) with (∅ : gmap nat (list nat)). by rewrite lookup_empty. }
  split; intros *; rewrite ?Hq; try constructor; try set_solver.
  all: change (objs timer_init) with (∅ : gmap nat timer); by rewrite lookup_empty.
Qed.

Lemma tinv_initialize b horizon s t : 0 ≤ horizon → tinv b horizon s → (∀ c, t ∉ queue s c) → tinv b horizon (timer_initialize s t).
Proof. intros Hh Hi Hn. apply tinv_set_obj; [done|done|]. split; simpl; [done|lia]. Qed.

(** Two timers set four milliseconds before the clock wraps to zero. *)
Definition ex_now : Z := 2 ^ 32 - 4.
Definition ex_timers : tstate :=
  let s := timer_initialize (timer_initialize timer_init 1) 2 in
  match timer_set_oneshot s 0 ex_now 1 30 7 0 with
  | Some s1 => match timer_set_periodic s1 0 ex_now 2 6 8 0 with Some s2 => s2 | None => s1 end
  | None => s
  end.

Lemma ex_timers_ok : tinv ex_now 100 ex_timers ∧ ∀ c, armed ex_now ex_timers ex_now c.
Proof.
  set (s0 := timer_initialize (timer_initialize timer_init 1) 2).
  assert (Hi0 : tinv ex_now 100 s0).
  { apply tinv_initialize; [lia|apply tinv_initialize; [lia|apply tinv_init|]|]; by intros c []%elem_of_nil. }
  destruct (timer_set_ok ex_now 100 s0 0 ex_now 1 (mk_timer TIMER_MAGIC 0 0 None 0) 30 0 7 0 Hi0) as (s1 & _ & _ & E1 & Hi1 & _ & _ & _ & _ & _ & _ & _ & _ & Ha1);
    [reflexivity|reflexivity|vm_compute; reflexivity|lia..|].
  assert (E1' : timer_set_oneshot s0 0 ex_now 1 30 7 0 = Some s1) by exact E1.
  destruct (timer_set_ok ex_now 100 s1 0 ex_now 2 (mk_timer TIMER_MAGIC 0 0 None 0) 6 6 8 0 Hi1) as (s2 & _ & _ & E2 & Hi2 & _ & _ & _ & _ & _ & _ & _ & _ & Ha2);
    [vm_compute in E1; injection E1 as <-; reflexivity|vm_compute in E1; injection E1 as <-; reflexivity|vm_compute; reflexivity|lia..|].
  assert (E2' : timer_set_periodic s1 0 ex_now 2 6 8 0 = Some s2) by exact E2.
  unfold ex_timers. fold s0. rewrite E1', E2'. split; [done|]. intros c. by apply Ha2, Ha1.
Qed.


(** Setting and cancelling timers keeps every queue sorted and every timer
    in one queue at most, and keeps every processor's platform timer set in time
    for its first timer; a timer that is set goes after those due no later. *)
Theorem timer_ops_keep_order b horizon s c now t r :
  tinv b horizon s → (∀ c', armed b s now c') → objs s !! t = Some r → 0 ≤ horizon → off b now + horizon < 2 ^ 31 →
  (∃ s', timer_cancel s c now t = Some s' ∧ tinv b horizon s' ∧ (∀ c', armed b s' now c') ∧
     ∀ c', queue s' c' = filter (λ x, x ≠ t) (queue s c')) ∧
  (∀ delay period cb a, list_in_list s t = false → 0 ≤ delay → delay + 1 ≤ horizon → 0 ≤ period ≤ horizon →
   ∃ s' q1 q2, timer_set s c now t delay period cb a = Some s' ∧ tinv b horizon s' ∧ (∀ c', armed b s' now c') ∧
     queue s c = q1 ++ q2 ∧ queue s' c = q1 ++ t :: q2 ∧ due b s' t = off b now + delay + 1 ∧
     (∀ x, x ∈ q1 → due b s' x ≤ due b s' t) ∧ (∀ x, x ∈ q2 → due b s' t < due b s' x)).
Proof.
  intros Hi Ha Hr Hh Hnow. split.
  - destruct (timer_cancel_ok b horizon s c now t r Hi Hr) as (s' & E & Hi' & Hq & _ & Ha'); [lia|done|]. exists s'. split_and!; auto.
  - intros delay period cb a Hnl Hd Hd2 Hp.
    destruct (timer_set_ok b horizon s c now t r delay period cb a Hi Hr Hnl Hnow Hd Hd2 Hp)
      as (s' & q1 & q2 & E & Hi' & Eq & Eq' & _ & Hdt & Hdx & H1 & H2 & _ & Ha').
    pose proof (timer_not_queued s t c Hnl) as Hn. rewrite Eq in Hn.
    exists s', q1, q2. split_and!; auto; intros x Hx; rewrite (Hdx x); auto; set_solver.
Qed.

Lemma timer_ops_keep_order_witness : ∃ s', timer_cancel ex_timers 0 ex_now 2 = Some s' ∧ tinv ex_now 100 s' ∧ queue s' 0 = [1%nat].
Proof.
  destruct (timer_ops_keep_order ex_now 100 ex_timers 0 ex_now 2 (mk_timer TIMER_MAGIC 3 6 (Some 8%nat) 0) (proj1 ex_timers_ok) (proj2 ex_timers_ok))
    as [(s' & E & Hi & _ & Hq) _]; [vm_compute; reflexivity|lia|vm_compute; reflexivity|].
  exists s'. split_and!; [exact E|exact Hi|]. rewrite Hq. vm_compute. reflexivity.
Defined.

(** Moving timers off a processor can leave them without an interrupt: when
    the processor that takes them over has none of its own and its platform
    timer is stopped, the timers are queued but the platform timer stays stopped. *)
Theorem timer_transition_unarmed b horizon s c now old t q :
  tinv b horizon s → c ≠ old → queue s c = [] → platform s !! c = None → queue s old = t :: q →
  ∃ s', timer_transition_off_cpu s c now old = Some s' ∧ tinv b horizon s' ∧ head (queue s' c) = Some t ∧
    platform s' !! c = None ∧ ¬ armed b s' now c.
Proof.
  intros Hi Hne Hc Hp Ho. destruct (transition_head b horizon s c now old t q Hi Hne Hc Ho) as (s' & q' & E & Hi' & Eq & Ep).
  exists s'. rewrite Eq, Ep. split_and!; [done|done|done|done|]. unfold armed. rewrite Eq, Ep, Hp. by intros (dl & ? & _).
Qed.

(** A delay of 2^31 milliseconds or more makes a timer fire at once: set on
    a processor without timers, it is due at the very time it is set, because the
    comparison of times takes it for one in the past. *)
Theorem timer_long_delay_fires_now s c now t r delay cb a :
  objs s !! t = Some r → t_magic r = TIMER_MAGIC → queue s c = [] → list_in_list s t = false →
  is_u32 now → 2 ^ 31 ≤ delay < 2 ^ 32 →
  ∃ s' s'', timer_set_oneshot s c now t delay cb a = Some s' ∧
    timer_tick (λ _ _ _ _ s, Some (false, s)) 2 s' c now = Some (false, [t], s'').
Proof.
  intros Hr Hm Hq Hnl Hnow Hd. unfold timer_set_oneshot. rewrite (proj2 (Z.eqb_neq delay 0)) by lia.
  unfold timer_set. rewrite Hr. cbn [mbind option_bind]. rewrite Hm, Z.eqb_refl, Hnl. cbn [negb].
  set (d := u32 (delay + 1)). set (r1 := mk_timer _ _ _ _ _). set (s1 := set_obj s t r1).
  assert (Ht1 : objs s1 !! t = Some r1) by apply lookup_insert_eq.
  unfold insert_timer_in_queue. rewrite Ht1. cbn [mbind option_bind]. change (queue s1 c) with (queue s c). rewrite Hq. simpl.
  rewrite queue_set, decide_True by done. rewrite bool_decide_true by done.
  set (s2 := platform_set_oneshot_timer _ _ _ _). exists s2.
  assert (Hdue : TIME_LT now (scheduled_time r1) = false).
  { unfold TIME_LT. apply Z.ltb_ge. simpl. unfold is_u32 in Hnow.
    destruct (u32_shift (delay + 1)) as [k1 E1], (u32_shift (now + d)) as [k2 E2]. fold d in E1.
    assert (Hd2 : 0 ≤ 2 ^ 32 - (delay + 1) < 2 ^ 31) by lia.
    rewrite (i32_unique _ (2 ^ 32 - (delay + 1))); [lia|lia|]. exists (- k2 - k1 - 1). lia. }
  assert (Eq2 : queue (platform_stop_timer s2 c) c = [t]) by (unfold queue, s2; simpl; by rewrite lookup_insert_eq).
  unfold timer_tick. cbn [tick_loop]. rewrite Eq2. change (objs (platform_stop_timer s2 c) !! t) with (objs s1 !! t).
  rewrite Ht1. cbn [mbind option_bind]. rewrite Hdue. unfold fire. change (t_magic r1) with TIMER_MAGIC. rewrite Z.eqb_refl.
  cbn [callback arg r1 mbind option_bind]. set (s3 := list_delete _ t).
  assert (Eq3 : queue s3 c = []).
  { unfold s3. rewrite queue_delete, Eq2, filter_cons, decide_False; [done|]. naive_solver. }
  change (objs s3 !! t) with (objs s1 !! t). rewrite Ht1. change (0 <? periodic_time r1) with false.
  cbn [andb mbind option_bind tick_loop]. rewrite Eq3. eexists. split; [done|]. cbn [mbind option_bind]. by rewrite Eq3.
Qed.

(**  Timers that do not fire when they should.  When a processor that has none of
    its own takes over the timers of another and its platform timer is stopped, the
    timers are queued but the platform timer stays stopped.  And a timer set with a
    delay of 2^31 milliseconds or more is due at the very time it is set, because the
    comparison of times takes it for one in the past. *)
Theorem timer_wrong_times :
  (∀ b horizon s c now old t q,
    tinv b horizon s → c ≠ old → queue s c = [] → platform s !! c = None → queue s old = t :: q →
    ∃ s', timer_transition_off_cpu s c now old = Some s' ∧ tinv b horizon s' ∧ head (queue s' c) = Some t ∧
      platform s' !! c = None ∧ ¬ armed b s' now c) ∧
  (∀ s c now t r delay cb a,
    objs s !! t = Some r → t_magic r = TIMER_MAGIC → queue s c = [] → list_in_list s t = false →
    is_u32 now → 2 ^ 31 ≤ delay < 2 ^ 32 →
    ∃ s' s'', timer_set_oneshot s c now t delay cb a = Some s' ∧
      timer_tick (λ _ _ _ _ s, Some (false, s)) 2 s' c now = Some (false, [t], s'')).
Proof. split; [exact timer_transition_unarmed|exact timer_long_delay_fires_now]. Qed.

Lemma timer_wrong_times_witness :
  (∃ s', timer_transition_off_cpu ex_timers 1 ex_now 0 = Some s' ∧ head (queue s' 1) = Some 2%nat ∧ platform s' !! 1%nat = None) ∧
  ∃ s' s'', timer_set_oneshot (timer_initialize timer_init 1) 0 5 1 (2 ^ 31) 7 0 = Some s' ∧
    timer_tick (λ _ _ _ _ s, Some (false, s)) 2 s' 0 5 = Some (false, [1%nat], s'').
Proof.
  split.
  - destruct (proj1 timer_wrong_times ex_now 100 ex_timers 1%nat ex_now 0%nat 2%nat [1%nat] (proj1 ex_timers_ok)) as (s' & E & _ & Hh & Hp & _);
      [done|vm_compute; reflexivity..|]. exists s'. split_and!; [exact E|exact Hh|exact Hp].
  - apply (proj2 timer_wrong_times (timer_initialize timer_init 1) 0%nat 5 1%nat (mk_timer TIMER_MAGIC 0 0 None 0));
      [reflexivity|reflexivity|reflexivity|vm_compute; reflexivity|unfold is_u32; lia|lia].
Defined.

End TimerFacts.
