(* ===== verification/HashTable.v ===== *)
(** * Intrusive hash tables

    [src/kernel/lib/utils/include/utils/intrusive_hash_table.h] and the
    singly-linked list operations of [intrusive_single_list.h] that its buckets
    use.  A member of a table is a pointer, a natural number; the key of a member
    is read from the member itself at the time of the operation ([KeyTraits]), so
    it is an argument of the operations.  The bucket array is a finite map whose
    missing entries are empty buckets. *)

From stdpp Require Import base tactics numbers list gmap functions.
From Stdlib Require Import ZArith.
From S2P Require Import Prelude.
#[local] Open Scope Z_scope.

Module HashTable.

Definition kNumBuckets : Z := 37.

Record table := mk_table { count_ : Z; buckets_ : gmap Z (list nat) }.

Definition empty_table : table := mk_table 0 ∅.

Section single_list.
Context (fn : nat → bool).

Fixpoint find_if (l : list nat) : option nat :=
  match l with [] => None | n :: l' => if fn n then Some n else find_if l' end.

Fixpoint erase_if (l : list nat) : option nat * list nat :=
  match l with
  | [] => (None, [])
  | n :: l' => if fn n then (Some n, l') else let '(r, l1) := erase_if l' in (r, n :: l1)
  end.

End single_list.

Section hash_table.
(** [ObjType::GetHash]. *)
Context (ObjGetHash : Z → Z).

Definition GetHash (key : Z) : Z := ObjGetHash key mod kNumBuckets.

Definition bucket (t : table) (i : Z) : list nat := default [] (buckets_ t !! i).

Definition GetBucket (t : table) (key : Z) : list nat := bucket t (GetHash key).

Definition set_bucket (t : table) (c key : Z) (b : list nat) : table :=
  mk_table c (<[GetHash key := b]> (buckets_ t)).

(** Whether a node is linked in some bucket. *)
Definition InContainer (t : table) (n : nat) : bool :=
  existsb (λ b, bool_decide (n ∈ b)) ((map_to_list (buckets_ t)).*2).

Definition insert (t : table) (GetKey : nat → Z) (n : nat) : option table :=
  ASSERT negb (InContainer t n);
  Some (set_bucket t (count_ t + 1) (GetKey n) (n :: GetBucket t (GetKey n))).

Definition find (t : table) (GetKey : nat → Z) (key : Z) : option nat :=
  find_if (λ other, key =? GetKey other) (GetBucket t key).

Definition erase (t : table) (GetKey : nat → Z) (key : Z) : option nat * table :=
  let '(ret, b) := erase_if (λ other, key =? GetKey other) (GetBucket t key) in
  (ret, set_bucket t (if ret then count_ t - 1 else count_ t) key b).

(** ** What a table holds

    [holds t H]: the members of [t] are those [H] gives, each filed under the key
    [H] gives it at. *)
Definition holds (t : table) (H : Z → option nat) : Prop :=
  ∀ i, NoDup (bucket t i) ∧ ∀ n, n ∈ bucket t i ↔ ∃ k, H k = Some n ∧ GetHash k = i.

(** The members carry the keys they are filed under. *)
Definition keyed (GetKey : nat → Z) (H : Z → option nat) : Prop := ∀ k n, H k = Some n → GetKey n = k.

Lemma holds_empty : holds empty_table (λ _, None).
Proof.
  intros i. unfold bucket. cbn. rewrite lookup_empty. cbn. split; [constructor|]. intros n. split; [set_solver|].
  intros (k & Hk & _). done.
Qed.

Lemma bucket_set t c key b i : bucket (set_bucket t c key b) i = if decide (i = GetHash key) then b else bucket t i.
Proof.
  unfold bucket, set_bucket. cbn. case_decide as E.
  - subst. by rewrite lookup_insert_eq.
  - by rewrite lookup_insert_ne.
Qed.

Lemma find_if_None fn l : (∀ n, n ∈ l → fn n = false) → find_if fn l = None.
Proof.
  induction l as [|n l IH]; intros Hl; [done|]. cbn. rewrite Hl by set_solver. apply IH. intros m Hm. apply Hl. set_solver.
Qed.

Lemma find_if_Some fn l n : n ∈ l → fn n = true → (∀ m, m ∈ l → fn m = true → m = n) → find_if fn l = Some n.
Proof.
  induction l as [|a l IH]; intros Hin Hn Hu; [set_solver|]. cbn. destruct (fn a) eqn:E.
  - rewrite (Hu a); [done|set_solver|done].
  - apply IH; [|done|intros m Hm; apply Hu; set_solver]. apply elem_of_cons in Hin as [->|]; [congruence|done].
Qed.

Lemma erase_if_fst fn l : (erase_if fn l).1 = find_if fn l.
Proof. induction l as [|n l IH]; [done|]. cbn. destruct (fn n); [done|]. destruct (erase_if fn l). done. Qed.

Lemma erase_if_in fn l m :
  NoDup l → m ∈ (erase_if fn l).2 ↔ m ∈ l ∧ find_if fn l ≠ Some m.
Proof.
  induction l as [|n l IH]; intros Hnd; cbn; [set_solver|]. inversion Hnd as [|? ? Hn Hnd2]; subst; clear Hnd; rename Hnd2 into Hnd.
  destruct (fn n) eqn:E; cbn.
  - rewrite elem_of_cons. split; [intros; split; [tauto|congruence]|intros [[->|] ?]; [done|done]].
  - specialize (IH Hnd). destruct (erase_if fn l) as [r l1] eqn:El. cbn in *. rewrite !elem_of_cons, IH.
    assert (find_if fn l = Some n → False).
    { intros Hf. clear -Hf Hn. induction l as [|a l IHl]; [done|]. cbn in Hf. destruct (fn a); set_solver. }
    split; [|tauto]. intros [->|]; [|tauto]. tauto.
Qed.

Lemma erase_if_NoDup fn l : NoDup l → NoDup (erase_if fn l).2.
Proof.
  intros Hnd. assert (Hs : (erase_if fn l).2 `sublist_of` l).
  { clear Hnd. induction l as [|n l IH]; [done|]. cbn. destruct (fn n); [by constructor|].
    destruct (erase_if fn l). cbn in *. by constructor. }
  by eapply sublist_NoDup.
Qed.

Lemma InContainer_false t n : (∀ i, n ∉ bucket t i) → InContainer t n = false.
Proof.
  intros Hn. unfold InContainer. apply not_true_iff_false. intros He.
  apply existsb_exists in He as (b & Hb & Hin). apply bool_decide_eq_true in Hin.
  apply list_elem_of_In, list_elem_of_fmap in Hb as ([i b'] & -> & Hb). apply elem_of_map_to_list in Hb.
  apply (Hn i). unfold bucket. by rewrite Hb.
Qed.

Lemma find_holds t GetKey H key : holds t H → keyed GetKey H → find t GetKey key = H key.
Proof.
  intros Ht Hk. unfold find, GetBucket. destruct (Ht (GetHash key)) as [_ Hin].
  destruct (H key) as [n|] eqn:E.
  - apply find_if_Some; [apply Hin; eauto|rewrite (Hk _ _ E); apply Z.eqb_refl|].
    intros m Hm Heq. apply Z.eqb_eq in Heq. apply Hin in Hm as (k & Hkm & _). pose proof (Hk _ _ Hkm). congruence.
  - apply find_if_None. intros m Hm. apply Z.eqb_neq. intros ->. apply Hin in Hm as (k & Hkm & _).
    pose proof (Hk _ _ Hkm). congruence.
Qed.

Lemma erase_holds t GetKey H key :
  holds t H → keyed GetKey H → ∃ t', erase t GetKey key = (H key, t') ∧ holds t' (<[key := None]> H).
Proof.
  intros Ht Hk. pose proof (find_holds t GetKey H key Ht Hk) as Hf. unfold find in Hf. unfold erase.
  set (fn := λ other, key =? GetKey other) in *. pose proof (erase_if_fst fn (GetBucket t key)) as H1.
  destruct (erase_if fn (GetBucket t key)) as [ret b] eqn:E. cbn in H1. eexists. split; [by rewrite H1, Hf|].
  intros i. rewrite bucket_set. destruct (Ht i) as [Hnd Hin]. case_decide as Hi.
  - subst i. assert (Hb : b = (erase_if fn (GetBucket t key)).2) by by rewrite E. split.
    + subst b. by apply erase_if_NoDup.
    + intros n. rewrite Hb, erase_if_in, Hf by done. unfold GetBucket. rewrite Hin. split.
      * intros [(k & Hkn & Hh) Hne]. exists k. rewrite fn_lookup_insert_ne by congruence. done.
      * intros (k & Hkn & Hh). destruct (decide (key = k)) as [->|Hn]; [by rewrite fn_lookup_insert in Hkn|].
        rewrite fn_lookup_insert_ne in Hkn by done. split; [by exists k|]. intros He.
        pose proof (Hk _ _ He). pose proof (Hk _ _ Hkn). congruence.
  - split; [done|]. intros n. rewrite Hin. split; intros (k & Hkn & Hh); exists k.
    + rewrite fn_lookup_insert_ne by congruence. done.
    + destruct (decide (key = k)) as [->|Hn]; [by rewrite fn_lookup_insert in Hkn|].
      by rewrite fn_lookup_insert_ne in Hkn.
Qed.

Lemma insert_holds t GetKey H n :
  holds t H → H (GetKey n) = None → (∀ k, H k ≠ Some n) →
  ∃ t', insert t GetKey n = Some t' ∧ holds t' (<[GetKey n := Some n]> H).
Proof.
  intros Ht HN Hfr. unfold insert. rewrite InContainer_false; cbn [negb].
  2:{ intros i Hi. apply Ht in Hi as (k & Hk & _). by apply (Hfr k). }
  eexists. split; [done|]. intros i. rewrite bucket_set. destruct (Ht i) as [Hnd Hin].
  assert (Hns : n ∉ bucket t i) by (rewrite Hin; intros (k & Hk & _); by apply (Hfr k)).
  assert (Hold : ∀ m k, (H k = Some m ∧ GetHash k = i) → <[GetKey n := Some n]> H k = Some m ∧ GetHash k = i).
  { intros m k [Hk Hh]. rewrite fn_lookup_insert_ne by congruence. done. }
  assert (Hnew : ∀ m k, <[GetKey n := Some n]> H k = Some m → (k = GetKey n ∧ m = n) ∨ H k = Some m).
  { intros m k Hk. destruct (decide (GetKey n = k)) as [<-|Hn].
    - rewrite fn_lookup_insert in Hk. left. split; congruence.
    - rewrite fn_lookup_insert_ne in Hk by done. tauto. }
  case_decide as Hi.
  - subst i. unfold GetBucket. split; [by constructor|]. intros m. rewrite elem_of_cons, Hin. split.
    + intros [->|(k & Hk)]; [|exists k; by apply Hold]. exists (GetKey n). by rewrite fn_lookup_insert.
    + intros (k & Hk & Hh). apply Hnew in Hk as [[_ ->]|Hk]; [tauto|]. right. by exists k.
  - split; [done|]. intros m. rewrite Hin. split; intros (k & Hk).
    + exists k. by apply Hold.
    + destruct Hk as [Hk Hh]. apply Hnew in Hk as [[-> ->]|Hk]; [congruence|]. by exists k.
Qed.

End hash_table.
End HashTable.
