(* ===== verification/Futex.v ===== *)
(** * Futexes

    [src/kernel/lib/magenta/futex_context.cpp] and [futex_node.cpp].  The nodes of
    the waiting threads live in a heap from pointers to nodes; a null pointer is
    [None], a dereference of a pointer that is not in the heap makes the operation
    [None], like a failed assertion.  The list of waiters of a futex is linked
    through the nodes, and its head is in the hash table.

    Every operation runs with [lock_] held, so it is one step.  [FutexWait] gives
    the lock up while it is blocked in [BlockThread]; it is two definitions, the
    part up to the wait and [FutexWait_resume], which starts from the status that
    [cond_wait_timeout] returns with the lock held again.  A wake returns, in
    order, the nodes whose condition variables it signals.  The status and value
    of [magenta_copy_from_user] are arguments. *)

From stdpp Require Import base tactics numbers list gmap.
From Stdlib Require Import ZArith.
From S2P Require Import Prelude HashTable.
#[local] Open Scope Z_scope.

Module Futex.

Record FutexNode := mk_node { hash_key_ : Z; next_ : option nat; tail_ : option nat }.

Notation heap := (gmap nat FutexNode).

Definition set_next (h : heap) (n : nat) (p : option nat) : option heap :=
  nd ← h !! n; Some (<[n := mk_node (hash_key_ nd) p (tail_ nd)]> h).
Definition set_tail (h : heap) (n : nat) (p : option nat) : option heap :=
  nd ← h !! n; Some (<[n := mk_node (hash_key_ nd) (next_ nd) p]> h).
Definition set_hash_key (h : heap) (n : nat) (key : Z) : option heap :=
  nd ← h !! n; Some (<[n := mk_node key (next_ nd) (tail_ nd)]> h).

Definition NodeGetHash (key : Z) : Z := Z.shiftr key 3.

(** The key of a member of the table; [FutexFacts] shows that the members of the
    table are in the heap. *)
Definition GetKey (h : heap) (n : nat) : Z := default 0 (hash_key_ <$> h !! n).

Definition AppendList (h : heap) (this head : nat) : option heap :=
  nd ← h !! this;
  t ← tail_ nd;
  tn ← h !! t;
  ASSERT bool_decide (next_ tn = None);
  h1 ← set_next h t (Some head);
  hd ← h1 !! head;
  set_tail h1 this (tail_ hd).

Fixpoint remove_loop (fuel : nat) (h : heap) (node : option nat) (last : nat) (i count old_hash_key new_hash_key : Z)
  : option (heap * option nat * nat) :=
  match node with
  | None => Some (h, node, last)
  | Some n =>
    if i <? count then
      match fuel with
      | O => None
      | S fuel' =>
        nd ← h !! n;
        ASSERT hash_key_ nd =? old_hash_key;
        h1 ← set_hash_key h n new_hash_key;
        remove_loop fuel' h1 (next_ nd) n (u32 (i + 1)) count old_hash_key new_hash_key
      end
    else Some (h, node, last)
  end.

(** No list is longer than the heap. *)
Definition RemoveFromHead (h : heap) (this : nat) (count old_hash_key new_hash_key : Z) : option (heap * option nat) :=
  if count =? 0 then Some (h, Some this) else
  '(h1, node, last) ← remove_loop (size h) h (Some this) this 0 count old_hash_key new_hash_key;
  nd ← h1 !! this;
  h2 ← match node with Some n => set_tail h1 n (tail_ nd) | None => Some h1 end;
  h3 ← set_next h2 last None;
  h4 ← set_tail h3 this (Some last);
  Some (h4, node).

Fixpoint signal_loop (fuel : nat) (h : heap) (head : option nat) : option (list nat) :=
  match head with
  | None => Some []
  | Some n =>
    match fuel with
    | O => None
    | S fuel' => nd ← h !! n; l ← signal_loop fuel' h (next_ nd); Some (n :: l)
    end
  end.

Definition WakeThreads (h : heap) (head : option nat) : option (list nat) := signal_loop (size h) h head.

Record FutexContext := mk_ctx { nodes : heap; futex_table_ : HashTable.table }.

Definition empty_context (h : heap) : FutexContext := mk_ctx h HashTable.empty_table.

Definition table_insert (t : HashTable.table) (h : heap) (n : nat) : option HashTable.table :=
  HashTable.insert NodeGetHash t (GetKey h) n.
Definition table_find (t : HashTable.table) (h : heap) (key : Z) : option nat :=
  HashTable.find NodeGetHash t (GetKey h) key.
Definition table_erase (t : HashTable.table) (h : heap) (key : Z) : option nat * HashTable.table :=
  HashTable.erase NodeGetHash t (GetKey h) key.

Definition QueueNodesLocked (h : heap) (t : HashTable.table) (head : nat) : option FutexContext :=
  match table_find t h (GetKey h head) with
  | None => t1 ← table_insert t h head; Some (mk_ctx h t1)
  | Some current_head => h1 ← AppendList h current_head head; Some (mk_ctx h1 t)
  end.

(** The first component of [copied] is the status of the copy from user memory,
    the second the value read. *)
Definition check_value (copied : Z * Z) (current_value : Z) : Z :=
  if negb (copied.1 =? NO_ERROR) then copied.1
  else if negb (copied.2 =? current_value) then ERR_BUSY else NO_ERROR.

(** [inl] is a return with that status, [inr] a thread that blocks. *)
Definition FutexWait (c : FutexContext) (node : nat) (futex_key : Z) (copied : Z * Z) (current_value : Z)
  : option (Z * FutexContext + FutexContext) :=
  let result := check_value copied current_value in
  if negb (result =? NO_ERROR) then Some (inl (result, c)) else
  h1 ← set_hash_key (nodes c) node futex_key;
  h2 ← set_next h1 node None;
  h3 ← set_tail h2 node (Some node);
  c1 ← QueueNodesLocked h3 (futex_table_ c) node;
  Some (inr c1).

(** The removal of [node] at [test], whose predecessor is [prev]. *)
Definition unlink (c : FutexContext) (futex_key : Z) (list_head : nat) (prev next : option nat) : option FutexContext :=
  let h := nodes c in
  match prev with
  | Some p =>
    h1 ← set_next h p next;
    h2 ← (match next with None => set_tail h1 list_head (Some p) | Some _ => Some h1 end);
    Some (mk_ctx h2 (futex_table_ c))
  | None =>
    let '(_, t1) := table_erase (futex_table_ c) h futex_key in
    match next with
    | None => Some (mk_ctx h t1)
    | Some nx =>
      hd ← h !! list_head;
      h1 ← set_tail h nx (tail_ hd);
      ASSERT GetKey h1 nx =? futex_key;
      t2 ← table_insert t1 h1 nx;
      Some (mk_ctx h1 t2)
    end
  end.

Fixpoint timeout_loop (fuel : nat) (c : FutexContext) (node : nat) (futex_key : Z) (list_head : nat)
    (prev test : option nat) : option (Z * FutexContext) :=
  match test with
  | None => Some (NO_ERROR, c)
  | Some t =>
    match fuel with
    | O => None
    | S fuel' =>
      nd ← nodes c !! t;
      ASSERT hash_key_ nd =? futex_key;
      if bool_decide (t = node)
      then c1 ← unlink c futex_key list_head prev (next_ nd); Some (ERR_TIMED_OUT, c1)
      else timeout_loop fuel' c node futex_key list_head (Some t) (next_ nd)
    end
  end.

Definition FutexWait_resume (c : FutexContext) (node : nat) (result : Z) : option (Z * FutexContext) :=
  if result =? NO_ERROR then Some (NO_ERROR, c) else
  nd ← nodes c !! node;
  let futex_key := hash_key_ nd in
  match table_find (futex_table_ c) (nodes c) futex_key with
  | None => Some (NO_ERROR, c)
  | Some list_head => timeout_loop (size (nodes c)) c node futex_key list_head None (Some list_head)
  end.

(** The status, the nodes signalled and the new state. *)
Definition FutexWake (c : FutexContext) (futex_key count : Z) : option (Z * list nat * FutexContext) :=
  if count =? 0 then Some (NO_ERROR, [], c) else
  let h := nodes c in
  match table_erase (futex_table_ c) h futex_key with
  | (None, t1) => Some (NO_ERROR, [], mk_ctx h t1)
  | (Some wake_head, t1) =>
    ASSERT GetKey h wake_head =? futex_key;
    '(h1, node) ← RemoveFromHead h wake_head count futex_key 0;
    t2 ← match node with
         | None => Some t1
         | Some n => ASSERT GetKey h1 n =? futex_key; table_insert t1 h1 n
         end;
    woken ← WakeThreads h1 (Some wake_head);
    Some (NO_ERROR, woken, mk_ctx h1 t2)
  end.

(** The part of [FutexRequeue] that moves the waiters of [wake_key] from [node]
    on to [requeue_key]. *)
Definition requeue_nodes (h : heap) (t : HashTable.table) (node : option nat) (wake_key requeue_key requeue_count : Z)
  : option (FutexContext * option nat) :=
  match node with
  | Some requeue_head =>
    if requeue_count >? 0 then
      '(h1, rest) ← RemoveFromHead h requeue_head requeue_count wake_key requeue_key;
      ASSERT GetKey h1 requeue_head =? requeue_key;
      c1 ← QueueNodesLocked h1 t requeue_head;
      Some (c1, rest)
    else Some (mk_ctx h t, node)
  | None => Some (mk_ctx h t, None)
  end.

Definition FutexRequeue (c : FutexContext) (wake_key wake_count : Z) (copied : Z * Z) (current_value requeue_key requeue_count : Z)
  : option (Z * list nat * FutexContext) :=
  if (requeue_key =? 0) && negb (requeue_count =? 0) then Some (ERR_INVALID_ARGS, [], c) else
  let result := check_value copied current_value in
  if negb (result =? NO_ERROR) then Some (result, [], c) else
  if wake_key =? requeue_key then Some (ERR_INVALID_ARGS, [], c) else
  let h := nodes c in
  match table_erase (futex_table_ c) h wake_key with
  | (None, t1) => Some (NO_ERROR, [], mk_ctx h t1)
  | (Some head, t1) =>
    '(h1, wake_head, node) ←
      (if wake_count =? 0 then Some (h, None, Some head)
       else '(h1, node) ← RemoveFromHead h head wake_count wake_key 0; Some (h1, Some head, node));
    '(c2, rest) ← requeue_nodes h1 t1 node wake_key requeue_key requeue_count;
    c3 ← match rest with
         | None => Some c2
         | Some n => ASSERT GetKey (nodes c2) n =? wake_key;
                     t3 ← table_insert (futex_table_ c2) (nodes c2) n; Some (mk_ctx (nodes c2) t3)
         end;
    woken ← WakeThreads (nodes c3) wake_head;
    Some (NO_ERROR, woken, c3)
  end.

End Futex.
