(* ===== verification/FutexFacts.v ===== *)
(** * Correctness of futexes

    An abstract futex is a queue of threads per address, and the set of threads
    that were woken and have not returned.  The linked lists and the hash table of
    [Futex] implement it: every operation of a sequence that the threads can perform
    succeeds, with the status and the woken threads of the abstract one. *)

From Stdlib Require Import ZArith Lia.
From stdpp Require Import base tactics numbers list gmap functions.
From S2P Require Import Prelude HashTable Futex.
#[local] Open Scope Z_scope.

Module FutexFacts.
Import Futex.

(** ** The abstract futex *)

Record futexes := mk_futexes { queues : Z → list nat; woken : gset nat }.

Inductive fop :=
  | OpWait (n : nat) (key : Z) (copied : Z * Z) (value : Z)
  | OpWake (key count : Z)
  | OpRequeue (wake_key wake_count : Z) (copied : Z * Z) (value requeue_key requeue_count : Z)
  | OpResume (n : nat) (result : Z).

(** What a caller sees: the thread blocks, or the call returns a status after
    waking some threads. *)
Inductive fresp := Blocks | Returns (status : Z) (signalled : list nat).

Definition abs_wake (s : futexes) (key : Z) (c : nat) : futexes :=
  mk_futexes (<[key := drop c (queues s key)]> (queues s)) (woken s ∪ list_to_set (take c (queues s key))).

Definition abs_move (s : futexes) (from to : Z) (c : nat) : futexes :=
  mk_futexes (<[to := queues s to ++ take c (queues s from)]> (<[from := drop c (queues s from)]> (queues s))) (woken s).

Definition abs_step (s : futexes) (op : fop) : futexes * fresp :=
  match op with
  | OpWait n key copied value =>
    let r := check_value copied value in
    if negb (r =? NO_ERROR) then (s, Returns r [])
    else (mk_futexes (<[key := queues s key ++ [n]]> (queues s)) (woken s), Blocks)
  | OpWake key count => (abs_wake s key (Z.to_nat count), Returns NO_ERROR (take (Z.to_nat count) (queues s key)))
  | OpRequeue wk wc copied value rk rc =>
    let r := check_value copied value in
    if (rk =? 0) && negb (rc =? 0) then (s, Returns ERR_INVALID_ARGS [])
    else if negb (r =? NO_ERROR) then (s, Returns r [])
    else if wk =? rk then (s, Returns ERR_INVALID_ARGS [])
    else (abs_move (abs_wake s wk (Z.to_nat wc)) wk rk (Z.to_nat rc),
          Returns NO_ERROR (take (Z.to_nat wc) (queues s wk)))
  | OpResume n result =>
    if bool_decide (n ∈ woken s) then (mk_futexes (queues s) (woken s ∖ {[n]}), Returns NO_ERROR [])
    else (mk_futexes (λ k, filter (λ m, m ≠ n) (queues s k)) (woken s), Returns ERR_TIMED_OUT [])
  end.

(** What the threads of [T] can do: a thread waits when it is not blocked in a
    wait already; a blocked thread comes back from its condition variable with
    success only when it was signalled, and with an error at any time. *)
Definition enabled (T : gset nat) (s : futexes) (op : fop) : Prop :=
  match op with
  | OpWait n _ _ _ => n ∈ T ∧ n ∉ woken s ∧ ∀ k, n ∉ queues s k
  | OpWake _ count => is_u32 count
  | OpRequeue _ wc _ _ _ rc => is_u32 wc ∧ is_u32 rc
  | OpResume n result => n ∈ woken s ∨ result ≠ NO_ERROR ∧ ∃ k, n ∈ queues s k
  end.

Definition ctx_step (c : FutexContext) (op : fop) : option (FutexContext * fresp) :=
  match op with
  | OpWait n key copied value =>
    r ← FutexWait c n key copied value;
    Some (match r with inl (st, c1) => (c1, Returns st []) | inr c1 => (c1, Blocks) end)
  | OpWake key count => '(st, l, c1) ← FutexWake c key count; Some (c1, Returns st l)
  | OpRequeue wk wc copied value rk rc =>
    '(st, l, c1) ← FutexRequeue c wk wc copied value rk rc; Some (c1, Returns st l)
  | OpResume n result => '(st, c1) ← FutexWait_resume c n result; Some (c1, Returns st [])
  end.

Fixpoint abs_run (s : futexes) (ops : list fop) : futexes * list fresp :=
  match ops with
  | [] => (s, [])
  | op :: ops' => let '(s1, r) := abs_step s op in let '(s2, rs) := abs_run s1 ops' in (s2, r :: rs)
  end.

Fixpoint all_enabled (T : gset nat) (s : futexes) (ops : list fop) : Prop :=
  match ops with [] => True | op :: ops' => enabled T s op ∧ all_enabled T (abs_step s op).1 ops' end.

Fixpoint ctx_run (c : FutexContext) (ops : list fop) : option (FutexContext * list fresp) :=
  match ops with
  | [] => Some (c, [])
  | op :: ops' => '(c1, r) ← ctx_step c op; '(c2, rs) ← ctx_run c1 ops'; Some (c2, r :: rs)
  end.

(** ** Linked lists in the heap *)

Definition keyo (h : heap) (n : nat) : option Z := hash_key_ <$> h !! n.
Definition nexto (h : heap) (n : nat) : option (option nat) := next_ <$> h !! n.
Definition tailo (h : heap) (n : nat) : option (option nat) := tail_ <$> h !! n.

Definition same (h h' : heap) (n : nat) : Prop :=
  keyo h' n = keyo h n ∧ nexto h' n = nexto h n ∧ tailo h' n = tailo h n.

(** The nodes [ns], with key [key], are linked from [p] to [dst]. *)
Fixpoint chain (h : heap) (key : Z) (p : option nat) (ns : list nat) (dst : option nat) : Prop :=
  match ns with
  | [] => p = dst
  | n :: ns' => p = Some n ∧ keyo h n = Some key ∧ ∃ nx, nexto h n = Some nx ∧ chain h key nx ns' dst
  end.

Definition waiters (h : heap) (key : Z) (q : list nat) : Prop :=
  chain h key (list.head q) q None ∧ ∀ n, list.head q = Some n → tailo h n = Some (list.last q).

Record rep (T : gset nat) (c : FutexContext) (s : futexes) : Prop := {
  r_q : ∀ k, waiters (nodes c) k (queues s k);
  r_nd : ∀ k, NoDup (queues s k);
  r_t : HashTable.holds NodeGetHash (futex_table_ c) (λ k, list.head (queues s k));
  r_w : ∀ n, n ∈ woken s → is_Some (nodes c !! n) ∧ ∀ k, n ∉ queues s k;
  r_T : ∀ n, n ∈ T → is_Some (nodes c !! n) }.

Lemma look_Some h n : is_Some (h !! n) ↔ is_Some (keyo h n).
Proof. unfold keyo. by rewrite fmap_is_Some. Qed.

Lemma look_node h n k nx : keyo h n = Some k → nexto h n = Some nx → ∃ nd, h !! n = Some nd ∧ hash_key_ nd = k ∧ next_ nd = nx.
Proof. unfold keyo, nexto. destruct (h !! n) as [nd|]; cbn; [|done]. intros [= <-] [= <-]. by exists nd. Qed.

Lemma set_next_ok h n p :
  is_Some (keyo h n) → ∃ h', set_next h n p = Some h' ∧ (∀ m, keyo h' m = keyo h m) ∧ (∀ m, tailo h' m = tailo h m) ∧
    ∀ m, nexto h' m = if decide (m = n) then Some p else nexto h m.
Proof.
  unfold set_next, keyo, tailo, nexto. destruct (h !! n) as [nd|] eqn:E; [|by intros []]. intros _. cbn. eexists.
  split; [done|]. split_and!; intros m; (destruct (decide (m = n)) as [->|Hn];
    [rewrite lookup_insert_eq, ?E|rewrite lookup_insert_ne by done]); done.
Qed.

Lemma set_tail_ok h n p :
  is_Some (keyo h n) → ∃ h', set_tail h n p = Some h' ∧ (∀ m, keyo h' m = keyo h m) ∧ (∀ m, nexto h' m = nexto h m) ∧
    ∀ m, tailo h' m = if decide (m = n) then Some p else tailo h m.
Proof.
  unfold set_tail, keyo, tailo, nexto. destruct (h !! n) as [nd|] eqn:E; [|by intros []]. intros _. cbn. eexists.
  split; [done|]. split_and!; intros m; (destruct (decide (m = n)) as [->|Hn];
    [rewrite lookup_insert_eq, ?E|rewrite lookup_insert_ne by done]); done.
Qed.

Lemma set_key_ok h n key :
  is_Some (keyo h n) → ∃ h', set_hash_key h n key = Some h' ∧ (∀ m, nexto h' m = nexto h m) ∧ (∀ m, tailo h' m = tailo h m) ∧
    ∀ m, keyo h' m = if decide (m = n) then Some key else keyo h m.
Proof.
  unfold set_hash_key, keyo, tailo, nexto. destruct (h !! n) as [nd|] eqn:E; [|by intros []]. intros _. cbn. eexists.
  split; [done|]. split_and!; intros m; (destruct (decide (m = n)) as [->|Hn];
    [rewrite lookup_insert_eq, ?E|rewrite lookup_insert_ne by done]); done.
Qed.

Lemma chain_frame h h' k ns : ∀ p dst,
  (∀ n, n ∈ ns → keyo h' n = keyo h n ∧ nexto h' n = nexto h n) → chain h k p ns dst → chain h' k p ns dst.
Proof.
  induction ns as [|n ns IH]; intros p dst Hf; [done|]. cbn. intros (-> & Hk & nx & Hn & Hc).
  destruct (Hf n ltac:(set_solver)) as [E1 E2]. rewrite E1, E2. split_and!; [done|done|]. exists nx. split; [done|].
  apply IH; [|done]. intros m Hm. apply Hf. set_solver.
Qed.

Lemma chain_app h k a b : ∀ p dst, chain h k p (a ++ b) dst ↔ ∃ m, chain h k p a m ∧ chain h k m b dst.
Proof.
  induction a as [|n a IH]; intros p dst; cbn.
  - split; [intros H; by exists p|]. by intros (m & -> & H).
  - split.
    + intros (-> & Hk & nx & Hn & Hc). apply IH in Hc as (m & Ha & Hb). exists m. eauto 10.
    + intros (m & (-> & Hk & nx & Hn & Ha) & Hb). split_and!; [done|done|]. exists nx. split; [done|]. apply IH. eauto.
Qed.

Lemma chain_head h k p ns : chain h k p ns None → p = list.head ns.
Proof. destruct ns; cbn; [done|]. by intros (-> & _). Qed.

Lemma chain_key h k p ns dst n : chain h k p ns dst → n ∈ ns → keyo h n = Some k.
Proof.
  revert p. induction ns as [|m ns IH]; intros p; cbn; [set_solver|]. intros (-> & Hk & nx & Hn & Hc) Hin.
  apply elem_of_cons in Hin as [->|Hin]; [done|]. by eapply IH.
Qed.

Lemma chain_size h k p ns dst : chain h k p ns dst → NoDup ns → (length ns ≤ size h)%nat.
Proof.
  intros Hc Hnd. rewrite <- size_dom, <- (size_list_to_set (C := gset nat) ns) by done. apply subseteq_size.
  intros n Hn. apply elem_of_list_to_set in Hn. apply elem_of_dom, look_Some. by rewrite (chain_key _ _ _ _ _ _ Hc Hn).
Qed.

Lemma waiters_frame h h' k q : (∀ n, n ∈ q → same h h' n) → waiters h k q → waiters h' k q.
Proof.
  intros Hf [Hc Ht]. split.
  - eapply chain_frame; [|done]. intros n Hn. by destruct (Hf n Hn) as (? & ? & ?).
  - intros n Hn. rewrite <- (Ht n Hn). apply Hf. destruct q; [done|]. cbn in Hn. set_solver.
Qed.

Lemma waiters_key h k q n : waiters h k q → n ∈ q → keyo h n = Some k.
Proof. intros [Hc _]. by apply (chain_key _ _ _ _ _ _ Hc). Qed.

Lemma same_refl h n : same h h n.
Proof. done. Qed.

Lemma same_trans h1 h2 h3 n : same h1 h2 n → same h2 h3 n → same h1 h3 n.
Proof. unfold same. intros (-> & -> & ->) (-> & -> & ->). done. Qed.

Lemma last_snoc_split {A} (q : list A) t : list.last q = Some t → ∃ q0, q = q0 ++ [t].
Proof. rewrite last_Some. done. Qed.

Lemma look_tail h n t : tailo h n = Some t → ∃ nd, h !! n = Some nd ∧ tail_ nd = t.
Proof. unfold tailo. destruct (h !! n) as [nd|]; cbn; [|done]. intros [= <-]. by exists nd. Qed.

Lemma tail_key h n t : tailo h n = Some t → is_Some (keyo h n).
Proof. intros (nd & E & _)%look_tail. apply look_Some. by rewrite E. Qed.

Lemma head_in {A} (q : list A) a : list.head q = Some a → a ∈ q.
Proof. destruct q; [done|]. intros [= ->]. set_solver. Qed.

Lemma head_app_l {A} (q1 q2 : list A) a : list.head q1 = Some a → list.head (q1 ++ q2) = Some a.
Proof. by destruct q1. Qed.

Lemma last_app_r {A} (q1 q2 : list A) b : list.head q2 = Some b → list.last (q1 ++ q2) = list.last q2.
Proof. destruct q2; [done|]. intros _. apply last_app_cons. Qed.

(** The last node of a queue has no successor. *)
Lemma waiters_last h k q a :
  waiters h k q → list.head q = Some a →
  ∃ q0 t, q = q0 ++ [t] ∧ tailo h a = Some (Some t) ∧ keyo h t = Some k ∧ nexto h t = Some None ∧
    chain h k (list.head q) q0 (Some t).
Proof.
  intros [Hc Ht] Ha. destruct (list.last q) as [t|] eqn:El.
  - destruct (last_snoc_split _ _ El) as [q0 Hq]. exists q0, t. rewrite (Ht a Ha).
    rewrite Hq in Hc at 2. apply chain_app in Hc as (m & H1 & (-> & Hk & nx & Hn & E)). cbn in E. subst nx. split_and!; done.
  - apply last_None in El. by subst q.
Qed.

Lemma AppendList_ok h k q1 q2 a b :
  waiters h k q1 → waiters h k q2 → list.head q1 = Some a → list.head q2 = Some b → NoDup (q1 ++ q2) →
  ∃ h', AppendList h a b = Some h' ∧ waiters h' k (q1 ++ q2) ∧ ∀ m, m ∉ q1 → same h h' m.
Proof.
  intros W1 W2 Ha Hb Hnd. destruct (waiters_last h k q1 a W1 Ha) as (q0 & t & Hq & Hta & Hkt & Hnt & Hc0).
  destruct (look_tail _ _ _ Hta) as (nd & E1 & E2). destruct (look_node _ _ _ _ Hkt Hnt) as (tn & E3 & _ & E4).
  destruct (set_next_ok h t (Some b)) as (h1 & S1 & K1 & T1 & N1); [by rewrite Hkt|].
  destruct W2 as [Hc2 Ht2]. pose proof (Ht2 b Hb) as Htb.
  destruct (look_tail h1 b (list.last q2)) as (hd & E5 & E6); [by rewrite T1|].
  destruct (set_tail_ok h1 a (list.last q2)) as (h2 & S2 & K2 & N2 & T2); [rewrite K1; by eapply tail_key|].
  exists h2. split.
  { unfold AppendList. rewrite E1. cbn. rewrite E2. cbn. rewrite E3. cbn. rewrite E4, S1. cbn. rewrite E5. cbn.
    by rewrite E6. }
  assert (Hq1 : ∀ m, m ≠ t → keyo h2 m = keyo h m ∧ nexto h2 m = nexto h m).
  { intros m Hm. rewrite K2, K1, N2, N1. by destruct (decide (m = t)). }
  assert (Hdis : t ∉ q0 ∧ t ∉ q2).
  { rewrite Hq in Hnd. apply list.NoDup_app in Hnd as (H1 & H2 & _). apply list.NoDup_app in H1 as (_ & H1 & _). set_solver. }
  split; [split|].
  - rewrite (head_app_l _ _ a) by done. rewrite Hq, <- app_assoc. apply chain_app. exists (Some t). split.
    + rewrite <- Ha. apply (chain_frame h); [|done]. intros m Hm. apply Hq1. set_solver.
    + cbn. rewrite K2, K1, N2, N1, decide_True by done. split_and!; [done|done|]. exists (Some b). split; [done|].
      rewrite <- Hb. apply (chain_frame h); [|done]. intros m Hm. apply Hq1. set_solver.
  - intros n. rewrite (head_app_l _ _ a), (last_app_r _ _ b) by done. intros [= <-]. rewrite T2, decide_True; done.
  - intros m Hm. assert (m ≠ t) by (rewrite Hq in Hm; set_solver). destruct (Hq1 m) as [? ?]; [done|].
    split_and!; [done|done|]. rewrite T2, T1, decide_False; [done|]. intros ->. apply Hm, head_in. done.
Qed.

Lemma remove_loop_ok old new count : is_u32 count → ∀ ns fuel h p lst i,
  chain h old p ns None → NoDup ns → (length ns ≤ fuel)%nat → 0 ≤ i ≤ count →
  let c := Z.to_nat (count - i) in
  ∃ h1, remove_loop fuel h p lst i count old new = Some (h1, list.head (drop c ns), default lst (list.last (take c ns))) ∧
    (∀ m, nexto h1 m = nexto h m) ∧ (∀ m, tailo h1 m = tailo h m) ∧
    ∀ m, keyo h1 m = if decide (m ∈ take c ns) then Some new else keyo h m.
Proof.
  intros Hcnt ns. induction ns as [|n ns IH]; intros fuel h p lst i Hc Hnd Hf Hi c.
  { cbn in Hc. subst p. exists h. rewrite take_nil, drop_nil. destruct fuel; done. }
  destruct Hc as (-> & Hk & nx & Hn & Hc). apply list.NoDup_cons in Hnd as [Hnn Hnd]. destruct (i <? count) eqn:Ei; zb.
  - destruct fuel as [|fuel]; [cbn in Hf; lia|]. destruct (look_node _ _ _ _ Hk Hn) as (nd & E1 & E2 & E3).
    destruct (set_key_ok h n new) as (h0 & S0 & N0 & T0 & K0); [by rewrite Hk|].
    assert (Hu : u32 (i + 1) = i + 1) by (apply u32_id; unfold is_u32 in *; lia).
    destruct (IH fuel h0 nx n (i + 1)) as (h1 & R & N1 & T1 & K1); [|done|cbn in Hf; lia|lia|].
    { apply (chain_frame h); [|done]. intros m Hm. rewrite K0, N0, decide_False; [done|]. intros ->. done. }
    assert (Hcc : c = S (Z.to_nat (count - (i + 1)))) by lia. rewrite Hcc. exists h1.
    cbn [remove_loop]. rewrite (proj2 (Z.ltb_lt _ _)) by lia. rewrite E1. cbn [mbind option_bind]. rewrite E2, Z.eqb_refl, S0.
    cbn [mbind option_bind]. rewrite E3, Hu, R. cbn [drop take]. split; [|split; [|split]].
    + rewrite last_cons. by destruct (list.last _).
    + intros m. by rewrite N1, N0.
    + intros m. by rewrite T1, T0.
    + intros m. rewrite K1, K0. repeat case_decide; set_solver.
  - assert (Hcc : c = 0%nat) by lia. rewrite Hcc. exists h. rewrite take_0, drop_0.
    destruct fuel; cbn [remove_loop]; rewrite (proj2 (Z.ltb_ge _ _)) by lia; done.
Qed.

Lemma signal_loop_ok h k ns : ∀ fuel p, chain h k p ns None → (length ns ≤ fuel)%nat → signal_loop fuel h p = Some ns.
Proof.
  induction ns as [|n ns IH]; intros fuel p Hc Hf.
  - cbn in Hc. subst p. by destruct fuel.
  - destruct Hc as (-> & Hk & nx & Hn & Hc). destruct fuel as [|fuel]; [cbn in Hf; lia|].
    destruct (look_node _ _ _ _ Hk Hn) as (nd & E1 & _ & E3). cbn [signal_loop]. rewrite E1. cbn [mbind option_bind].
    rewrite E3, (IH fuel nx); [done|done|]. cbn in Hf. lia.
Qed.

Lemma WakeThreads_ok h k q : waiters h k q → NoDup q → WakeThreads h (list.head q) = Some q.
Proof. intros [Hc _] Hnd. by eapply signal_loop_ok, chain_size. Qed.

(** Cutting a queue after [l], the last node of its first part. *)
Lemma waiters_cut h h' old new tk dr a l :
  chain h old (Some a) (tk ++ dr) None → NoDup (tk ++ dr) → list.head tk = Some a → list.last tk = Some l →
  (∀ m, keyo h' m = if decide (m ∈ tk) then Some new else keyo h m) →
  (∀ m, nexto h' m = if decide (m = l) then Some None else nexto h m) →
  (∀ m, tailo h' m = if decide (m = a) then Some (Some l) else
     if decide (list.head dr = Some m) then Some (list.last (tk ++ dr)) else tailo h m) →
  waiters h' new tk ∧ waiters h' old dr.
Proof.
  intros Hc Hnd Ha Hl K N T. apply chain_app in Hc as (p & Hc1 & Hc2). pose proof (chain_head _ _ _ _ Hc2) as ->.
  apply list.NoDup_app in Hnd as (Hnd1 & Hdis & Hnd2). pose proof (last_Some_elem_of _ _ Hl) as Hlin.
  split; split.
  - rewrite Ha. destruct (last_snoc_split _ _ Hl) as [tk0 E]. rewrite E in Hc1. apply chain_app in Hc1 as (p & H1 & H2).
    destruct H2 as (-> & Hkl & _). assert (Hl0 : l ∉ tk0).
    { rewrite E in Hnd1. apply list.NoDup_app in Hnd1 as (_ & H2 & _). set_solver. }
    assert (Hgen : ∀ ns p, chain h old p ns (Some l) → (∀ m, m ∈ ns → m ∈ tk ∧ m ≠ l) → chain h' new p ns (Some l)).
    { clear -K N. induction ns as [|n ns IH]; intros p; cbn; [done|]. intros (-> & Hk & nx & Hn & Hc) Hin.
      destruct (Hin n) as [? ?]; [set_solver|]. rewrite K, N, decide_True, decide_False by done. split_and!; [done|done|].
      exists nx. split; [done|]. apply IH; [done|]. intros m Hm. apply Hin. set_solver. }
    rewrite E at 1. apply chain_app. exists (Some l). split.
    + apply Hgen; [done|]. intros m Hm. rewrite E. set_solver.
    + cbn. rewrite K, N, !decide_True by done. eauto.
  - intros n. rewrite Ha. intros [= <-]. rewrite T, decide_True by done. by rewrite Hl.
  - apply (chain_frame h); [|done]. intros m Hm. rewrite K, N, !decide_False; [done|set_solver|set_solver].
  - intros n Hn. pose proof (head_in _ _ Hn). rewrite T, decide_False, decide_True; [|done|].
    + f_equal. by apply last_app_r with n.
    + intros ->. by apply (Hdis a); [apply head_in|].
Qed.

Lemma RemoveFromHead_ok h old new q a count :
  waiters h old q → NoDup q → list.head q = Some a → is_u32 count → 0 < count →
  let c := Z.to_nat count in
  ∃ h', RemoveFromHead h a count old new = Some (h', list.head (drop c q)) ∧ waiters h' new (take c q) ∧
    waiters h' old (drop c q) ∧ ∀ m, m ∉ q → same h h' m.
Proof.
  intros [Hc Ht] Hnd Ha Hu Hpos c. rewrite Ha in Hc.
  destruct (remove_loop_ok old new count Hu q (size h) h (Some a) a 0) as (h1 & R & N1 & T1 & K1);
    [done|done|by eapply chain_size|unfold is_u32 in Hu; lia|]. rewrite Z.sub_0_r in *. fold c in R, K1.
  assert (Hq : q = take c q ++ drop c q) by by rewrite take_drop.
  assert (Hat : list.head (take c q) = Some a).
  { destruct q; [done|]. cbn in Ha. subst. destruct c eqn:Ec; [lia|]. done. }
  destruct (list.last (take c q)) as [l|] eqn:El; [|apply last_None in El; by rewrite El in Hat]. change (default a (Some l)) with l in R.
  pose proof (Ht a Ha) as Hta. destruct (look_tail h1 a (list.last q)) as (nd & E1 & E2); [by rewrite T1|].
  assert (Hkey : ∀ m, m ∈ q → is_Some (keyo h1 m)).
  { intros m Hm. rewrite K1. case_decide; [done|]. by rewrite (chain_key _ _ _ _ _ _ Hc Hm). }
  assert (H2 : ∃ h2, match list.head (drop c q) with Some n => set_tail h1 n (tail_ nd) | None => Some h1 end = Some h2 ∧
    (∀ m, keyo h2 m = keyo h1 m) ∧ (∀ m, nexto h2 m = nexto h1 m) ∧
    ∀ m, tailo h2 m = if decide (list.head (drop c q) = Some m) then Some (list.last q) else tailo h1 m).
  { destruct (list.head (drop c q)) as [n|] eqn:En; [|exists h1; split_and!; done].
    destruct (set_tail_ok h1 n (tail_ nd)) as (h2 & S2 & K2 & N2 & T2); [apply Hkey; rewrite Hq; apply head_in in En; set_solver|].
    exists h2. split_and!; [done..|]. intros m. rewrite T2, E2. repeat case_decide; congruence. }
  destruct H2 as (h2 & S2 & K2 & N2 & T2).
  assert (Hl : l ∈ q) by (rewrite Hq; apply last_Some_elem_of in El; set_solver).
  destruct (set_next_ok h2 l None) as (h3 & S3 & K3 & T3 & N3); [rewrite K2; by apply Hkey|].
  destruct (set_tail_ok h3 a (Some l)) as (h4 & S4 & K4 & N4 & T4); [rewrite K3, K2; apply Hkey, head_in; done|].
  exists h4. split.
  { unfold RemoveFromHead. rewrite (proj2 (Z.eqb_neq _ _)) by lia. rewrite R. cbn [mbind option_bind]. rewrite E1.
    cbn [mbind option_bind]. rewrite S2. cbn [mbind option_bind]. rewrite S3. cbn [mbind option_bind]. by rewrite S4. }
  assert (Ek : ∀ m, keyo h4 m = if decide (m ∈ take c q) then Some new else keyo h m) by (intros; by rewrite K4, K3, K2, K1).
  assert (En : ∀ m, nexto h4 m = if decide (m = l) then Some None else nexto h m) by (intros; by rewrite N4, N3, N2, N1).
  assert (Et : ∀ m, tailo h4 m = if decide (m = a) then Some (Some l) else
     if decide (list.head (drop c q) = Some m) then Some (list.last q) else tailo h m) by (intros; by rewrite T4, T3, T2, T1).
  rewrite Hq in Hc, Hnd. destruct (waiters_cut h h4 old new (take c q) (drop c q) a l) as [W1 W2]; try done; [by rewrite <- Hq|].
  split_and!; [done|done|].
  intros m Hm. assert (m ≠ a) by (intros ->; by apply Hm, head_in).
  assert (m ∉ take c q ∧ list.head (drop c q) ≠ Some m) as [? ?].
  { rewrite Hq in Hm. split; [set_solver|]. intros Hh%head_in. set_solver. }
  unfold same. rewrite Ek, En, Et, !decide_False by (done || (intros ->; done)). done.
Qed.

(** ** The table and the queues *)

Definition wfq (h : heap) (t : HashTable.table) (Q : Z → list nat) : Prop :=
  (∀ k, waiters h k (Q k)) ∧ (∀ k, NoDup (Q k)) ∧ HashTable.holds NodeGetHash t (λ k, list.head (Q k)).

Lemma holds_ext t H H' : (∀ k, H k = H' k) → HashTable.holds NodeGetHash t H → HashTable.holds NodeGetHash t H'.
Proof.
  intros He Ht i. destruct (Ht i) as [Hnd Hin]. split; [done|]. intros n. rewrite Hin.
  split; intros (k & Hk); exists k; by rewrite ?He, <- ?He in *.
Qed.

Lemma wfq_ext h t Q Q' : (∀ k, Q k = Q' k) → wfq h t Q → wfq h t Q'.
Proof.
  intros He (Hw & Hn & Ht). split_and!; [intros k; by rewrite <- He..|]. eapply holds_ext; [|done]. intros k. cbn. by rewrite He.
Qed.

Lemma wfq_frame h h' t Q : (∀ k m, m ∈ Q k → same h h' m) → wfq h t Q → wfq h' t Q.
Proof. intros Hf (Hw & Hn & Ht). split_and!; [|done|done]. intros k. eapply waiters_frame; [|done]. apply Hf. Qed.

Lemma wfq_key h t Q k n : wfq h t Q → n ∈ Q k → keyo h n = Some k.
Proof. intros (Hw & _). by apply waiters_key. Qed.

Lemma wfq_other h t Q k k' n : wfq h t Q → n ∈ Q k → k ≠ k' → n ∉ Q k'.
Proof. intros W H1 Hne H2. pose proof (wfq_key _ _ _ _ _ W H1). pose proof (wfq_key _ _ _ _ _ W H2). congruence. Qed.

Lemma GetKey_ok h n k : keyo h n = Some k → GetKey h n = k.
Proof. unfold GetKey, keyo. by intros ->. Qed.

Lemma wfq_keyed h t Q : wfq h t Q → HashTable.keyed (GetKey h) (λ k, list.head (Q k)).
Proof. intros W k n Hn. apply GetKey_ok. eapply wfq_key; [done|]. by apply head_in. Qed.

Lemma waiters_nil h k : waiters h k [].
Proof. split; done. Qed.

Lemma table_find_ok h t Q k : wfq h t Q → table_find t h k = list.head (Q k).
Proof.
  intros W. unfold table_find. rewrite (HashTable.find_holds _ _ _ (λ k, list.head (Q k))); [done|apply W|by eapply wfq_keyed].
Qed.

Lemma wfq_insert h h' t Q t' k q :
  wfq h t Q → waiters h' k q → NoDup q → (∀ k' m, k ≠ k' → m ∈ Q k' → same h h' m) →
  HashTable.holds NodeGetHash t' (<[k := list.head q]> (λ k, list.head (Q k))) → wfq h' t' (<[k := q]> Q).
Proof.
  intros (Hw & Hn & _) Wq Nq Hs Ht. split_and!.
  - intros k'. destruct (decide (k = k')) as [<-|Hne]; [by rewrite fn_lookup_insert|]. rewrite fn_lookup_insert_ne by done.
    eapply waiters_frame; [|done]. intros m Hm. by eapply Hs.
  - intros k'. destruct (decide (k = k')) as [<-|Hne]; [by rewrite fn_lookup_insert|]. by rewrite fn_lookup_insert_ne.
  - eapply holds_ext; [|done]. intros k'. cbn.
    destruct (decide (k = k')) as [<-|Hne]; [by rewrite !fn_lookup_insert|]. by rewrite !fn_lookup_insert_ne.
Qed.

(** A queue that changes while its head stays. *)
Lemma wfq_same_head h h' t Q k q :
  wfq h t Q → waiters h' k q → NoDup q → (∀ k' m, k ≠ k' → m ∈ Q k' → same h h' m) →
  list.head q = list.head (Q k) → wfq h' t (<[k := q]> Q).
Proof.
  intros W Wq Nq Hs Hh. eapply wfq_insert; [done..|]. eapply holds_ext; [|apply W]. intros k'. cbn.
  destruct (decide (k = k')) as [<-|Hne]; [by rewrite fn_lookup_insert|]. by rewrite fn_lookup_insert_ne.
Qed.

Lemma table_erase_ok h t Q k :
  wfq h t Q → ∃ t', table_erase t h k = (list.head (Q k), t') ∧ wfq h t' (<[k := []]> Q).
Proof.
  intros W. destruct (HashTable.erase_holds NodeGetHash t (GetKey h) (λ k, list.head (Q k)) k) as (t' & E & Ht);
    [apply W|by eapply wfq_keyed|].
  exists t'. split; [done|]. eapply wfq_insert; [done|apply waiters_nil|constructor|done|done].
Qed.

(** [q] is a list of waiters that the table does not hold. *)
Lemma table_insert_ok h t Q k q n :
  wfq h t Q → Q k = [] → waiters h k q → list.head q = Some n → NoDup q →
  ∃ t', table_insert t h n = Some t' ∧ wfq h t' (<[k := q]> Q).
Proof.
  intros W HQ Wq Hn Hnd. pose proof (waiters_key h k q n Wq (head_in _ _ Hn)) as Hk. pose proof (GetKey_ok _ _ _ Hk) as HG.
  destruct (HashTable.insert_holds NodeGetHash t (GetKey h) (λ k, list.head (Q k)) n) as (t' & E & Ht).
  - apply W.
  - by rewrite HG, HQ.
  - intros k' Hk'. apply head_in in Hk'. pose proof (wfq_key _ _ _ _ _ W Hk'). assert (k' = k) as -> by congruence.
    rewrite HQ in Hk'. set_solver.
  - exists t'. split; [done|]. rewrite HG, <- Hn in Ht. by eapply wfq_insert.
Qed.

Lemma QueueNodesLocked_ok h t Q k q2 b :
  wfq h t Q → waiters h k q2 → list.head q2 = Some b → NoDup q2 → (∀ m, m ∈ q2 → m ∉ Q k) →
  ∃ c, QueueNodesLocked h t b = Some c ∧ wfq (nodes c) (futex_table_ c) (<[k := Q k ++ q2]> Q) ∧
    ∀ m, m ∉ Q k → same h (nodes c) m.
Proof.
  intros W Wq Hb Hnd Hdis. unfold QueueNodesLocked.
  rewrite (GetKey_ok h b k) by by apply (waiters_key _ _ _ _ Wq), head_in. rewrite (table_find_ok _ _ Q) by done.
  destruct (list.head (Q k)) as [a|] eqn:Ha.
  - destruct (AppendList_ok h k (Q k) q2 a b) as (h' & E & W' & Hs); try done; [apply W|..].
    { apply list.NoDup_app. split_and!; [apply W|set_solver|done]. }
    rewrite E. eexists. split; [done|]. cbn [nodes futex_table_]. split; [|done].
    eapply wfq_same_head; [done|done|apply list.NoDup_app; split_and!; [apply W|set_solver|done]| |].
    + intros k' m Hne Hm. apply Hs. by eapply wfq_other.
    + by rewrite Ha, (head_app_l _ _ a).
  - destruct (Q k) as [|? ?] eqn:HQ; [|done]. destruct (table_insert_ok h t Q k q2 b) as (t' & E & W'); [done..|].
    rewrite E. eexists. split; [done|]. split; [done|]. intros m _. done.
Qed.

(** ** The operations *)

Lemma fn_insert_twice (Q : Z → list nat) k a b : ∀ k', <[k := b]> (<[k := a]> Q) k' = <[k := b]> Q k'.
Proof. intros k'. destruct (decide (k = k')) as [<-|Hne]; [by rewrite !fn_lookup_insert|]. by rewrite !fn_lookup_insert_ne. Qed.

Lemma fn_insert_id (Q : Z → list nat) k a : Q k = a → ∀ k', <[k := a]> Q k' = Q k'.
Proof. intros E k'. destruct (decide (k = k')) as [<-|Hne]; [by rewrite fn_lookup_insert|]. by rewrite !fn_lookup_insert_ne. Qed.

Lemma NoDup_cut {A} (q : list A) n :
  NoDup q → NoDup (take n q) ∧ NoDup (drop n q) ∧ ∀ m, m ∈ take n q → m ∉ drop n q.
Proof. intros Hnd. rewrite <- (take_drop n q) in Hnd. apply list.NoDup_app in Hnd. tauto. Qed.

Lemma in_take {A} (q : list A) n m : m ∈ take n q → m ∈ q.
Proof. intros Hm. rewrite <- (take_drop n q). set_solver. Qed.

Lemma in_drop {A} (q : list A) n m : m ∈ drop n q → m ∈ q.
Proof. apply subseteq_drop. Qed.

(** No node is lost. *)
Definition kept (h h' : heap) : Prop := ∀ m, is_Some (h !! m) → is_Some (h' !! m).

Lemma kept_trans h1 h2 h3 : kept h1 h2 → kept h2 h3 → kept h1 h3.
Proof. unfold kept. eauto. Qed.

Lemma kept_waiters h h' k q : waiters h' k q → (∀ m, m ∉ q → same h h' m) → kept h h'.
Proof.
  intros W Hs m Hm. apply look_Some in Hm. apply look_Some. destruct (decide (m ∈ q)) as [Hin|Hin].
  - by rewrite (waiters_key _ _ _ _ W Hin).
  - by rewrite (proj1 (Hs m Hin)).
Qed.

Lemma kept_cut h h' k1 k2 q n : waiters h' k1 (take n q) → waiters h' k2 (drop n q) → (∀ m, m ∉ q → same h h' m) → kept h h'.
Proof.
  intros Wt Wd Hs m Hm. apply look_Some in Hm. apply look_Some. destruct (decide (m ∈ q)) as [Hin|Hin].
  - rewrite <- (take_drop n q) in Hin. apply elem_of_app in Hin as [Hin|Hin];
      [by rewrite (waiters_key _ _ _ _ Wt Hin)|by rewrite (waiters_key _ _ _ _ Wd Hin)].
  - by rewrite (proj1 (Hs m Hin)).
Qed.

(** Taking waiters off a list that the table does not hold. *)
Lemma cut_ok h t Q k q a count new :
  wfq h t Q → (∀ k' m, m ∈ q → m ∉ Q k') → waiters h k q → NoDup q → list.head q = Some a → is_u32 count → 0 < count →
  let c := Z.to_nat count in
  ∃ h', RemoveFromHead h a count k new = Some (h', list.head (drop c q)) ∧ wfq h' t Q ∧
    waiters h' new (take c q) ∧ waiters h' k (drop c q) ∧ ∀ m, m ∉ q → same h h' m.
Proof.
  intros W Hd Wq Hnd Ha Hu Hp c. destruct (RemoveFromHead_ok h k new q a count) as (h' & E & W1 & W2 & Hs); [done..|].
  exists h'. split_and!; [done| |done|done|done]. eapply wfq_frame; [|done]. intros k' m Hm. apply Hs. intros Hq. by eapply Hd.
Qed.

(** Putting the remaining waiters back. *)
Lemma insert_rest h t Q k q :
  wfq h t Q → Q k = [] → waiters h k q → NoDup q →
  ∃ t', match list.head q with
        | None => Some t
        | Some n => ASSERT GetKey h n =? k; table_insert t h n
        end = Some t' ∧ wfq h t' (<[k := q]> Q).
Proof.
  intros W HQ Wq Hnd. destruct (list.head q) as [n|] eqn:En.
  - rewrite (GetKey_ok h n k), Z.eqb_refl by (by apply (waiters_key _ _ _ _ Wq), head_in). by eapply table_insert_ok.
  - destruct q; [|done]. exists t. split; [done|]. eapply wfq_ext; [|done]. intros k'. by rewrite fn_insert_id.
Qed.

Lemma FutexWake_ok c Q k count :
  wfq (nodes c) (futex_table_ c) Q → is_u32 count →
  let n := Z.to_nat count in
  ∃ c', FutexWake c k count = Some (NO_ERROR, take n (Q k), c') ∧
    wfq (nodes c') (futex_table_ c') (<[k := drop n (Q k)]> Q) ∧ kept (nodes c) (nodes c').
Proof.
  intros W Hu n. unfold FutexWake. destruct (count =? 0) eqn:E0; zb.
  { subst count. exists c. rewrite take_0, drop_0. split_and!; [done| |by intros m]. eapply wfq_ext; [|done]. intros k'. by rewrite fn_insert_id. }
  destruct (table_erase_ok _ _ _ k W) as (t1 & Et & W1). rewrite Et. destruct (list.head (Q k)) as [a|] eqn:Ha.
  - assert (Wk : waiters (nodes c) k (Q k)) by apply W. assert (Nk : NoDup (Q k)) by apply W.
    rewrite (GetKey_ok _ a k), Z.eqb_refl by by apply (waiters_key _ _ _ _ Wk), head_in.
    destruct (cut_ok (nodes c) t1 (<[k := []]> Q) k (Q k) a count 0) as (h1 & E1 & W2 & Wt & Wd & Hs); try done.
    { intros k' m Hm. destruct (decide (k = k')) as [<-|Hne]; [rewrite fn_lookup_insert; set_solver|].
      rewrite fn_lookup_insert_ne by done. by eapply wfq_other. }
    { unfold is_u32 in Hu. lia. }
    rewrite E1. cbn [mbind option_bind]. fold n in Wt, Wd |- *.
    destruct (insert_rest h1 t1 (<[k := []]> Q) k (drop n (Q k))) as (t2 & E2 & W3); [done|by rewrite fn_lookup_insert|done|apply (NoDup_cut _ n Nk)|].
    rewrite E2. cbn [mbind option_bind].
    assert (Hh : list.head (take n (Q k)) = Some a).
    { destruct (Q k); [done|]. destruct n eqn:En; [unfold is_u32 in Hu; lia|]. done. }
    rewrite <- Hh, (WakeThreads_ok h1 0 (take n (Q k))) by (done || apply (NoDup_cut _ n Nk)).
    eexists. split; [done|]. cbn [nodes futex_table_]. split.
    + eapply wfq_ext; [|done]. apply fn_insert_twice.
    + by eapply kept_cut.
  - destruct (Q k) as [|? ?] eqn:HQ; [|done]. rewrite take_nil, drop_nil. eexists. split; [done|]. split; [done|by intros m].
Qed.

Lemma head_take {A} (q : list A) a n : (0 < n)%nat → list.head q = Some a → list.head (take n q) = Some a.
Proof. destruct q, n; cbn; [done|done|lia|done]. Qed.

Lemma wake_part_ok h t Q k q a count :
  wfq h t Q → (∀ k' m, m ∈ q → m ∉ Q k') → waiters h k q → NoDup q → list.head q = Some a → is_u32 count →
  let n := Z.to_nat count in
  ∃ h1, (if count =? 0 then Some (h, None, Some a)
         else '(h1, node) ← RemoveFromHead h a count k 0; Some (h1, Some a, node)) =
        Some (h1, list.head (take n q), list.head (drop n q)) ∧
    wfq h1 t Q ∧ waiters h1 0 (take n q) ∧ waiters h1 k (drop n q) ∧ ∀ m, m ∉ q → same h h1 m.
Proof.
  intros W Hd Wq Hnd Ha Hu n. destruct (count =? 0) eqn:E0; zb.
  - subst count. exists h. rewrite take_0, drop_0, Ha. split_and!; [done|done|apply waiters_nil|done|]. intros m _. done.
  - unfold is_u32 in Hu. destruct (cut_ok h t Q k q a count 0) as (h1 & E & W1 & Wt & Wd & Hs); try done; [lia|].
    exists h1. rewrite E, (head_take q a n) by (done || lia). done.
Qed.

Lemma requeue_nodes_ok h t Q wk rk q rc :
  wfq h t Q → (∀ k' m, m ∈ q → m ∉ Q k') → waiters h wk q → NoDup q → is_u32 rc →
  let n := Z.to_nat rc in
  ∃ c, requeue_nodes h t (list.head q) wk rk rc = Some (c, list.head (drop n q)) ∧
    wfq (nodes c) (futex_table_ c) (<[rk := Q rk ++ take n q]> Q) ∧ waiters (nodes c) wk (drop n q) ∧
    (∀ m, m ∉ q → m ∉ Q rk → same h (nodes c) m) ∧ kept h (nodes c).
Proof.
  intros W Hd Wq Hnd Hu n. unfold requeue_nodes. unfold is_u32 in Hu.
  assert (Hnone : ∀ l, l = [] → wfq h t (<[rk := Q rk ++ l]> Q)).
  { intros l ->. rewrite app_nil_r. eapply wfq_ext; [|done]. intros k'. by rewrite fn_insert_id. }
  destruct (list.head q) as [b|] eqn:Hb.
  2:{ destruct q; [|done]. exists (mk_ctx h t). rewrite drop_nil, take_nil. split_and!; [done|by apply Hnone|done|intros m _ _; done|by intros m]. }
  destruct (rc >? 0) eqn:E0; [|assert (n = 0%nat) as -> by lia; exists (mk_ctx h t)].
  2:{ rewrite take_0, drop_0, Hb. split_and!; [done|by apply Hnone|done|intros m _ _; done|by intros m]. }
  destruct (cut_ok h t Q wk q b rc rk) as (h1 & E & W1 & Wt & Wd & Hs); try done; [lia|]. rewrite E. cbn [mbind option_bind].
  destruct (NoDup_cut q n Hnd) as (Nt & Nd & Ndis). assert (Hht : list.head (take n q) = Some b) by (apply head_take; [lia|done]).
  rewrite (GetKey_ok h1 b rk), Z.eqb_refl by by apply (waiters_key _ _ _ _ Wt), head_in.
  assert (Hin : ∀ m, m ∈ take n q ∨ m ∈ drop n q → m ∈ q) by (intros m; rewrite <- elem_of_app, take_drop; done).
  destruct (QueueNodesLocked_ok h1 t Q rk (take n q) b) as (c & E2 & W2 & Hs2); try done.
  { intros m Hm. eapply Hd. eauto. }
  rewrite E2. cbn [mbind option_bind]. exists c. split_and!; [done|done| | |].
  - eapply waiters_frame; [|done]. intros m Hm. apply Hs2. eapply Hd. eauto.
  - intros m Hm1 Hm2. eapply same_trans; [by apply Hs|by apply Hs2].
  - eapply kept_trans; [by eapply kept_cut|]. eapply (kept_waiters _ _ rk (Q rk ++ take n q)).
    + pose proof (proj1 W2 rk) as Hw. by rewrite fn_lookup_insert in Hw.
    + intros m Hm. apply Hs2. set_solver.
Qed.

Definition moved (Q : Z → list nat) (wk rk : Z) (nw nr : nat) : Z → list nat :=
  <[rk := Q rk ++ take nr (drop nw (Q wk))]> (<[wk := drop nr (drop nw (Q wk))]> Q).

Lemma moved_order Q wk rk nw nr : wk ≠ rk → ∀ k',
  (<[wk := drop nr (drop nw (Q wk))]> (<[rk := <[wk := []]> Q rk ++ take nr (drop nw (Q wk))]> (<[wk := []]> Q))) k'
  = moved Q wk rk nw nr k'.
Proof.
  intros Hne k'. unfold moved. rewrite (fn_lookup_insert_ne Q wk rk) by done.
  destruct (decide (wk = k')) as [<-|H1].
  - by rewrite fn_lookup_insert, fn_lookup_insert_ne, fn_lookup_insert by done.
  - rewrite fn_lookup_insert_ne by done. destruct (decide (rk = k')) as [<-|H2]; [by rewrite !fn_lookup_insert|].
    by rewrite !fn_lookup_insert_ne.
Qed.

Lemma FutexRequeue_ok c Q wk wc copied value rk rc :
  wfq (nodes c) (futex_table_ c) Q → is_u32 wc → is_u32 rc → (rk =? 0) && negb (rc =? 0) = false →
  check_value copied value = NO_ERROR → wk ≠ rk →
  ∃ c', FutexRequeue c wk wc copied value rk rc = Some (NO_ERROR, take (Z.to_nat wc) (Q wk), c') ∧
    wfq (nodes c') (futex_table_ c') (moved Q wk rk (Z.to_nat wc) (Z.to_nat rc)) ∧ kept (nodes c) (nodes c').
Proof.
  intros W Hwc Hrc Harg Hval Hne. unfold FutexRequeue. rewrite Harg, Hval. change (negb (NO_ERROR =? NO_ERROR)) with false.
  rewrite (proj2 (Z.eqb_neq wk rk)) by done. set (nw := Z.to_nat wc). set (nr := Z.to_nat rc). set (Q1 := <[wk := []]> Q).
  destruct (table_erase_ok _ _ _ wk W) as (t1 & Et & W1). rewrite Et. fold Q1 in W1.
  assert (Wk : waiters (nodes c) wk (Q wk)) by apply W. assert (Nk : NoDup (Q wk)) by apply W.
  destruct (list.head (Q wk)) as [a|] eqn:Ha.
  2:{ destruct (Q wk) eqn:HQ; [|done]. rewrite take_nil. eexists. split_and!; [done| |by intros m]. eapply wfq_ext; [|exact W1].
      intros k'. unfold moved, Q1. rewrite HQ, !drop_nil, take_nil, app_nil_r. rewrite (fn_insert_id (<[wk := []]> Q) rk (Q rk)); [done|].
      by rewrite fn_lookup_insert_ne. }
  assert (Hd : ∀ k' m, m ∈ Q wk → m ∉ Q1 k').
  { intros k' m Hm. unfold Q1. destruct (decide (wk = k')) as [<-|Hn]; [rewrite fn_lookup_insert; set_solver|].
    rewrite fn_lookup_insert_ne by done. by eapply wfq_other. }
  destruct (wake_part_ok (nodes c) t1 Q1 wk (Q wk) a wc) as (h1 & E1 & W2 & Wt & Wd & Hs); [done..|].
  rewrite E1. cbn [mbind option_bind]. fold nw in Wt, Wd |- *. destruct (NoDup_cut _ nw Nk) as (Nt & Nd & Ndis).
  assert (Hin : ∀ m, m ∈ take nw (Q wk) ∨ m ∈ drop nw (Q wk) → m ∈ Q wk) by (intros m; rewrite <- elem_of_app, take_drop; done).
  destruct (requeue_nodes_ok h1 t1 Q1 wk rk (drop nw (Q wk)) rc) as (c2 & E2 & W3 & Wd3 & Hs3 & K3); try done; [intros k' m Hm; eauto|].
  rewrite E2. cbn [mbind option_bind]. fold nr in W3, Wd3 |- *.
  destruct (insert_rest _ _ _ wk (drop nr (drop nw (Q wk))) W3) as (t3 & E3 & W4);
    [rewrite fn_lookup_insert_ne by done; apply fn_lookup_insert|done|apply (NoDup_cut _ nr Nd)|].
  assert (Eq : match list.head (drop nr (drop nw (Q wk))) with
    | None => Some c2
    | Some n => ASSERT GetKey (nodes c2) n =? wk; t3 ← table_insert (futex_table_ c2) (nodes c2) n; Some (mk_ctx (nodes c2) t3)
    end = Some (mk_ctx (nodes c2) t3)).
  { revert E3. destruct (list.head (drop nr (drop nw (Q wk)))) as [n|]; [|intros [= <-]; by destruct c2]. destruct (GetKey (nodes c2) n =? wk); [|done]. by intros ->. }
  rewrite Eq. cbn [mbind option_bind nodes]. rewrite (WakeThreads_ok (nodes c2) 0 (take nw (Q wk))); [|eapply waiters_frame; [|done]|done].
  - eexists. split_and!; [done| |]; cbn [nodes futex_table_].
    + eapply wfq_ext; [|exact W4]. by apply moved_order.
    + eapply kept_trans; [by eapply kept_cut|done].
  - intros m Hm. apply Hs3; [by apply Ndis|]. eapply Hd. eauto.
Qed.

Lemma timeout_absent c node k lh ns : ∀ fuel prev p,
  chain (nodes c) k p ns None → node ∉ ns → (length ns ≤ fuel)%nat → timeout_loop fuel c node k lh prev p = Some (NO_ERROR, c).
Proof.
  induction ns as [|n ns IH]; intros fuel prev p Hc Hn Hf.
  - cbn in Hc. subst p. by destruct fuel.
  - destruct Hc as (-> & Hk & nx & Hx & Hc). destruct fuel as [|fuel]; [cbn in Hf; lia|].
    destruct (look_node _ _ _ _ Hk Hx) as (nd & E1 & E2 & E3). cbn [timeout_loop]. rewrite E1. cbn [mbind option_bind].
    rewrite E2, Z.eqb_refl, bool_decide_eq_false_2 by set_solver. rewrite E3. apply IH; [done|set_solver|cbn in Hf; lia].
Qed.

Lemma timeout_present c node k lh a b : ∀ fuel prev p,
  chain (nodes c) k p (a ++ node :: b) None → node ∉ a → (length a < fuel)%nat →
  timeout_loop fuel c node k lh prev p =
    c1 ← unlink c k lh (match list.last a with Some x => Some x | None => prev end) (list.head b); Some (ERR_TIMED_OUT, c1).
Proof.
  induction a as [|n a IH]; intros fuel prev p Hc Hn Hf; destruct Hc as (-> & Hk & nx & Hx & Hc);
    (destruct fuel as [|fuel]; [cbn in Hf; lia|]); destruct (look_node _ _ _ _ Hk Hx) as (nd & E1 & E2 & E3);
    cbn [timeout_loop]; rewrite E1; cbn [mbind option_bind]; rewrite E2, Z.eqb_refl, E3.
  - rewrite bool_decide_eq_true_2 by done. by rewrite (chain_head _ _ _ _ Hc).
  - rewrite bool_decide_eq_false_2 by set_solver. rewrite (IH fuel (Some n) nx); [|done|set_solver|cbn in Hf; lia].
    rewrite last_cons. by destruct (list.last a).
Qed.

(** Unlinking a waiter from the middle or the end of its queue. *)
Lemma unlink_after h k a0 p n b lh :
  waiters h k ((a0 ++ [p]) ++ n :: b) → NoDup ((a0 ++ [p]) ++ n :: b) → list.head (a0 ++ [p]) = Some lh →
  ∃ h2, (h1 ← set_next h p (list.head b); match list.head b with None => set_tail h1 lh (Some p) | Some _ => Some h1 end) = Some h2 ∧
    waiters h2 k ((a0 ++ [p]) ++ b) ∧ ∀ m, m ∉ a0 ++ [p] → same h h2 m.
Proof.
  intros [Hc Ht] Hnd Hlh. pose proof (Ht lh (head_app_l _ _ _ Hlh)) as Htl. rewrite (head_app_l _ _ lh) in Hc by done.
  apply chain_app in Hc as (y & Hc1 & Hc2). apply chain_app in Hc1 as (z & Hc1 & (-> & Hkp & nx & Hnp & E)). cbn in E. subst nx.
  destruct Hc2 as (-> & Hkn & nx & Hnn & Hc2). pose proof (chain_head _ _ _ _ Hc2) as ->.
  apply list.NoDup_app in Hnd as (Hnd1 & Hdis & Hnd2). apply list.NoDup_app in Hnd1 as (_ & Hp0 & _). apply list.NoDup_cons in Hnd2 as [Hnb Hnd2].
  destruct (set_next_ok h p (list.head b)) as (h1 & S1 & K1 & T1 & N1); [by rewrite Hkp|].
  assert (H2 : ∃ h2, match list.head b with None => set_tail h1 lh (Some p) | Some _ => Some h1 end = Some h2 ∧
    (∀ m, keyo h2 m = keyo h m) ∧ (∀ m, nexto h2 m = if decide (m = p) then Some (list.head b) else nexto h m) ∧
    tailo h2 lh = Some (list.last ((a0 ++ [p]) ++ b)) ∧ ∀ m, m ≠ lh → tailo h2 m = tailo h m).
  { destruct b as [|b0 b]; cbn [list.head].
    - destruct (set_tail_ok h1 lh (Some p)) as (h2 & S2 & K2 & N2 & T2); [rewrite K1; by eapply tail_key|].
      exists h2. rewrite app_nil_r, last_snoc. split_and!; [done|intros; by rewrite K2|intros; by rewrite N2|by rewrite T2, decide_True|].
      intros m Hm. by rewrite T2, decide_False.
    - exists h1. rewrite T1, Htl. split_and!; [done|done|done| |done]. f_equal. rewrite !last_app_cons. apply last_cons_cons. }
  destruct H2 as (h2 & S2 & K2 & N2 & T2 & T2'). exists h2. rewrite S1. cbn [mbind option_bind]. rewrite S2. split; [done|].
  split; [split|].
  - rewrite (head_app_l _ _ lh), <- app_assoc by done. apply chain_app. exists (Some p). split.
    + apply (chain_frame h); [|done]. intros m Hm. rewrite K2, N2, decide_False; [done|]. intros ->. set_solver.
    + cbn. rewrite K2, N2, decide_True by done. split_and!; [done|done|]. exists (list.head b). split; [done|].
      apply (chain_frame h); [|done]. intros m Hm. rewrite K2, N2, decide_False; [done|]. intros ->. set_solver.
  - intros m. rewrite (head_app_l _ _ lh) by done. by intros [= <-].
  - intros m Hm. assert (m ≠ lh) by (intros ->; by apply Hm, head_in). unfold same.
    rewrite K2, N2, T2', decide_False; [done|set_solver|done].
Qed.

(** Unlinking the head of a queue: its successor takes its place in the table. *)
Lemma unlink_head c Q k n b :
  wfq (nodes c) (futex_table_ c) Q → Q k = n :: b →
  ∃ c', unlink c k n None (list.head b) = Some c' ∧ wfq (nodes c') (futex_table_ c') (<[k := b]> Q) ∧ kept (nodes c) (nodes c').
Proof.
  intros W HQ. assert (Wk : waiters (nodes c) k (Q k)) by apply W. assert (Nk : NoDup (Q k)) by apply W.
  rewrite HQ in Wk, Nk. unfold unlink. destruct (table_erase_ok _ _ _ k W) as (t1 & Et & W1).
  rewrite Et. destruct b as [|nx b]; cbn [list.head].
  + eexists. split; [done|]. split; [done|by intros m].
  + destruct Wk as [Hc Ht]. pose proof (Ht n eq_refl) as Htl. destruct (look_tail _ _ _ Htl) as (hd & E1 & E2). rewrite E1.
    destruct Hc as (_ & Hkn & y & Hny & Hc). apply list.NoDup_cons in Nk as [Nn Nb].
    pose proof (chain_head _ _ _ _ Hc) as ->. pose proof (chain_key _ _ _ _ _ nx Hc ltac:(set_solver)) as Hkx.
    destruct (set_tail_ok (nodes c) nx (tail_ hd)) as (h1 & S1 & K1 & N1 & T1); [by rewrite Hkx|].
    cbn [mbind option_bind]. rewrite S1. cbn [mbind option_bind]. rewrite (GetKey_ok h1 nx k), Z.eqb_refl by by rewrite K1.
    assert (Hs : ∀ m, m ∉ nx :: b → same (nodes c) h1 m).
    { intros m Hm. unfold same. rewrite K1, N1, T1, decide_False by set_solver. done. }
    assert (Wb : waiters h1 k (nx :: b)).
    { split; [eapply chain_frame; [|done]; intros; by rewrite K1, N1|]. intros m [= <-]. rewrite T1, decide_True, E2 by done. done. }
    destruct (table_insert_ok h1 t1 (<[k := []]> Q) k (nx :: b) nx) as (t2 & E & W2); [|by rewrite fn_lookup_insert|done|done|done|].
    { eapply wfq_frame; [|done]. intros k' m. destruct (decide (k = k')) as [<-|Hne]; [rewrite fn_lookup_insert; set_solver|].
      rewrite fn_lookup_insert_ne by done. intros Hm. apply Hs. intros Hin.
      assert (m ∉ Q k) as Hm2 by by eapply wfq_other. apply Hm2. rewrite HQ. set_solver. }
    rewrite E. eexists. split; [done|]. split; [eapply wfq_ext; [|done]; apply fn_insert_twice|]. by eapply kept_waiters.
Qed.

Lemma unlink_ok c Q k a n b lh :
  wfq (nodes c) (futex_table_ c) Q → Q k = a ++ n :: b → list.head (Q k) = Some lh →
  ∃ c', unlink c k lh (list.last a) (list.head b) = Some c' ∧ wfq (nodes c') (futex_table_ c') (<[k := a ++ b]> Q) ∧
    kept (nodes c) (nodes c').
Proof.
  intros W HQ Hlh. assert (Wk : waiters (nodes c) k (Q k)) by apply W. assert (Nk : NoDup (Q k)) by apply W.
  rewrite HQ in Wk, Nk, Hlh. unfold unlink. destruct (list.last a) as [p|] eqn:Ep.
  - destruct (last_snoc_split _ _ Ep) as [a0 ->]. assert (Hlh2 : list.head (a0 ++ [p]) = Some lh) by by destruct a0.
    destruct (unlink_after _ k a0 p n b lh Wk Nk Hlh2) as (h2 & E & W2 & Hs).
    assert (E' : (h1 ← set_next (nodes c) p (list.head b);
      h2 ← match list.head b with None => set_tail h1 lh (Some p) | Some _ => Some h1 end;
      Some (mk_ctx h2 (futex_table_ c))) = Some (mk_ctx h2 (futex_table_ c))).
    { revert E. destruct (set_next (nodes c) p (list.head b)) as [h1|]; [|done]. cbn [mbind option_bind]. by intros ->. }
    rewrite E'. eexists. split; [done|]. cbn [nodes futex_table_]. split.
    + eapply wfq_same_head; [done|done| | |by rewrite HQ, !(head_app_l _ _ lh)].
      * apply list.NoDup_app in Nk as (N1 & N2 & N3). apply list.NoDup_cons in N3 as [N3 N4].
        apply list.NoDup_app. split_and!; [done| |done]. intros m Hm. specialize (N2 m Hm). set_solver.
      * intros k' m Hne Hm. apply Hs. intros Hin. assert (m ∉ Q k) as Hm2 by by eapply wfq_other. apply Hm2. rewrite HQ. set_solver.
    + eapply kept_waiters; [done|]. intros m Hm. apply Hs. set_solver.
  - apply last_None in Ep. subst a. cbn in Hlh. injection Hlh as <-. by apply unlink_head.
Qed.

Lemma rep_wfq T c s : rep T c s → wfq (nodes c) (futex_table_ c) (queues s).
Proof. intros []. done. Qed.

Lemma rep_next T c s c' Q' w' :
  rep T c s → wfq (nodes c') (futex_table_ c') Q' → kept (nodes c) (nodes c') →
  (∀ n, n ∈ w' → is_Some (nodes c !! n) ∧ ∀ k, n ∉ Q' k) → rep T c' (mk_futexes Q' w').
Proof.
  intros R (W1 & W2 & W3) Hk Hw. split; cbn; [done|done|done| |].
  - intros n Hn. destruct (Hw n Hn). split; [by apply Hk|done].
  - intros n Hn. by apply Hk, (r_T _ _ _ R).
Qed.

Lemma rep_known T c s k n : rep T c s → n ∈ queues s k → is_Some (nodes c !! n).
Proof. intros R Hn. apply look_Some. by rewrite (wfq_key _ _ _ _ _ (rep_wfq _ _ _ R) Hn). Qed.

Lemma wait_step T c s n key copied value :
  rep T c s → n ∈ T → n ∉ woken s → (∀ k, n ∉ queues s k) → check_value copied value = NO_ERROR →
  ∃ c', FutexWait c n key copied value = Some (inr c') ∧
    rep T c' (mk_futexes (<[key := queues s key ++ [n]]> (queues s)) (woken s)).
Proof.
  intros R HT Hw Hq Hv. unfold FutexWait. rewrite Hv. change (negb (NO_ERROR =? NO_ERROR)) with false. cbv iota.
  pose proof (r_T _ _ _ R n HT) as Hn. apply look_Some in Hn.
  destruct (set_key_ok (nodes c) n key Hn) as (h1 & S1 & N1 & T1 & K1).
  assert (Hn1 : keyo h1 n = Some key) by by rewrite K1, decide_True.
  destruct (set_next_ok h1 n None) as (h2 & S2 & K2 & T2 & N2); [by rewrite Hn1|].
  destruct (set_tail_ok h2 n (Some n)) as (h3 & S3 & K3 & N3 & T3); [by rewrite K2, Hn1|].
  rewrite S1. cbn [mbind option_bind]. rewrite S2. cbn [mbind option_bind]. rewrite S3. cbn [mbind option_bind].
  assert (Hs : ∀ m, m ≠ n → same (nodes c) h3 m).
  { intros m Hm. unfold same. rewrite K3, K2, K1, N3, N2, N1, T3, T2, T1, !decide_False by done. done. }
  assert (Wn : waiters h3 key [n]).
  { split; [cbn; rewrite K3, K2, N3, N2, decide_True by done; eauto|]. intros m [= <-]. by rewrite T3, decide_True. }
  destruct (QueueNodesLocked_ok h3 (futex_table_ c) (queues s) key [n] n) as (c' & E & W & Hs').
  - eapply wfq_frame; [|by eapply rep_wfq]. intros k m Hm. apply Hs. intros ->. by apply (Hq k).
  - done.
  - done.
  - apply NoDup_singleton.
  - intros m Hm. apply list_elem_of_singleton in Hm. subst. apply Hq.
  - rewrite E. eexists. split; [done|]. eapply rep_next; [done|done| |].
    + intros m Hm. apply look_Some in Hm. apply look_Some. destruct (decide (m ∈ queues s key)) as [Hin|Hin].
      * rewrite (wfq_key _ _ _ key m W); [done|]. rewrite fn_lookup_insert. set_solver.
      * rewrite (proj1 (Hs' m Hin)). rewrite K3, K2, K1. by case_decide.
    + intros m Hm. destruct (r_w _ _ _ R m Hm) as [? Hmq]. split; [done|]. intros k.
      destruct (decide (key = k)) as [<-|Hne]; [rewrite fn_lookup_insert|by rewrite fn_lookup_insert_ne].
      rewrite not_elem_of_app, list_elem_of_singleton. split; [done|]. intros ->. done.
Qed.

Lemma wake_step T c s key count :
  rep T c s → is_u32 count →
  ∃ c', FutexWake c key count = Some (NO_ERROR, take (Z.to_nat count) (queues s key), c') ∧
    rep T c' (abs_wake s key (Z.to_nat count)).
Proof.
  intros R Hu. destruct (FutexWake_ok c (queues s) key count (rep_wfq _ _ _ R) Hu) as (c' & E & W & Hk). exists c'. split; [done|].
  eapply rep_next; [done|done|done|]. intros n Hn. apply elem_of_union in Hn as [Hn|Hn].
  - destruct (r_w _ _ _ R n Hn) as [? Hnq]. split; [done|]. intros k.
    destruct (decide (key = k)) as [<-|Hne]; [rewrite fn_lookup_insert|by rewrite fn_lookup_insert_ne].
    intros Hin. eapply Hnq, in_drop, Hin.
  - apply elem_of_list_to_set in Hn. pose proof (in_take _ _ _ Hn) as Hin. split; [by eapply rep_known|]. intros k.
    destruct (decide (key = k)) as [<-|Hne]; [rewrite fn_lookup_insert|rewrite fn_lookup_insert_ne by done].
    + by apply (NoDup_cut (queues s key) _ (r_nd _ _ _ R key)).
    + eapply wfq_other; [by eapply rep_wfq|done|done].
Qed.

Lemma moved_abs s wk rk nw nr : wk ≠ rk → ∀ k, moved (queues s) wk rk nw nr k = queues (abs_move (abs_wake s wk nw) wk rk nr) k.
Proof.
  intros Hne k. unfold moved, abs_move, abs_wake. cbn. rewrite fn_lookup_insert, (fn_lookup_insert_ne _ wk rk) by done.
  destruct (decide (rk = k)) as [<-|Hr]; [by rewrite !fn_lookup_insert|]. rewrite !(fn_lookup_insert_ne _ rk k) by done.
  by rewrite fn_insert_twice.
Qed.

Lemma moved_sub Q wk rk nw nr k n : wk ≠ rk → n ∈ moved Q wk rk nw nr k → n ∈ drop nw (Q wk) ∨ k ≠ wk ∧ n ∈ Q k.
Proof.
  intros Hne. unfold moved. destruct (decide (rk = k)) as [<-|Hr].
  - rewrite fn_lookup_insert, elem_of_app. intros [Hn|Hn%in_take]; [|tauto].
    right. split; congruence.
  - rewrite fn_lookup_insert_ne by done. destruct (decide (wk = k)) as [<-|Hw].
    + rewrite fn_lookup_insert. intros ?%in_drop. tauto.
    + rewrite fn_lookup_insert_ne by done. intros ?. right. split; congruence.
Qed.

Lemma requeue_step T c s wk wc copied value rk rc :
  rep T c s → is_u32 wc → is_u32 rc → (rk =? 0) && negb (rc =? 0) = false → check_value copied value = NO_ERROR → wk ≠ rk →
  ∃ c', FutexRequeue c wk wc copied value rk rc = Some (NO_ERROR, take (Z.to_nat wc) (queues s wk), c') ∧
    rep T c' (abs_move (abs_wake s wk (Z.to_nat wc)) wk rk (Z.to_nat rc)).
Proof.
  intros R Hwc Hrc Harg Hv Hne.
  destruct (FutexRequeue_ok c (queues s) wk wc copied value rk rc) as (c' & E & W & Hk); try done; [by eapply rep_wfq|].
  exists c'. split; [done|]. eapply rep_next; [done| |done|].
  { eapply wfq_ext; [|exact W]. intros k. rewrite moved_abs by done. done. }
  intros n Hn. cbn [woken abs_wake abs_move] in Hn.
  assert (Hsub : ∀ k, n ∈ queues (abs_move (abs_wake s wk (Z.to_nat wc)) wk rk (Z.to_nat rc)) k →
    n ∈ drop (Z.to_nat wc) (queues s wk) ∨ k ≠ wk ∧ n ∈ queues s k).
  { intros k. rewrite <- moved_abs by done. by apply moved_sub. }
  apply elem_of_union in Hn as [Hn|Hn].
  - destruct (r_w _ _ _ R n Hn) as [? Hnq]. split; [done|]. intros k Hin.
    destruct (Hsub k Hin) as [Hd|[_ Hd]]; [by eapply Hnq, in_drop|by eapply Hnq].
  - apply elem_of_list_to_set in Hn. pose proof (in_take _ _ _ Hn) as Hq. split; [by eapply rep_known|]. intros k Hin.
    destruct (Hsub k Hin) as [Hd|[Hkw Hd]].
    + by eapply (NoDup_cut (queues s wk) _ (r_nd _ _ _ R wk)).
    + eapply (wfq_other _ _ _ wk k); [by eapply rep_wfq|done|congruence|done].
Qed.

(** A thread that was woken returns success, whatever its wait reports. *)
Lemma resume_woken T c s n result : rep T c s → n ∈ woken s → FutexWait_resume c n result = Some (NO_ERROR, c).
Proof.
  intros R Hn. destruct (r_w _ _ _ R n Hn) as [[nd Hnd] Hq]. unfold FutexWait_resume. destruct (result =? NO_ERROR); [done|].
  rewrite Hnd. cbn [mbind option_bind]. set (k := hash_key_ nd). pose proof (rep_wfq _ _ _ R) as W.
  rewrite (table_find_ok _ _ (queues s)) by done. destruct (list.head (queues s k)) as [lh|] eqn:E; [|done].
  destruct (proj1 W k) as [Hc _]. rewrite E in Hc. eapply timeout_absent; [done|apply Hq|]. by eapply chain_size, (r_nd _ _ _ R).
Qed.

Lemma filter_ne_split (a b : list nat) n : n ∉ a → n ∉ b → filter (λ m, m ≠ n) (a ++ n :: b) = a ++ b.
Proof.
  intros Ha Hb. rewrite list.filter_app, filter_cons_False by tauto.
  rewrite !filter_all; [done|intros m Hm ->; done|intros m Hm ->; done].
Qed.

Lemma resume_queued T c s n k result :
  rep T c s → n ∈ queues s k → result ≠ NO_ERROR →
  ∃ c', FutexWait_resume c n result = Some (ERR_TIMED_OUT, c') ∧
    rep T c' (mk_futexes (λ k, filter (λ m, m ≠ n) (queues s k)) (woken s)).
Proof.
  intros R Hn Hres. pose proof (rep_wfq _ _ _ R) as W. pose proof (wfq_key _ _ _ _ _ W Hn) as Hk.
  destruct (proj1 W k) as [Hc _]. pose proof (r_nd _ _ _ R k) as Nk. pose proof (chain_size _ _ _ _ _ Hc Nk) as Hsz.
  apply list_elem_of_split in Hn as (a & b & HQ). rewrite HQ in Hc, Nk, Hsz.
  apply list.NoDup_app in Nk as (_ & Na & Nb). apply list.NoDup_cons in Nb as [Nb _].
  assert (Hna : n ∉ a) by set_solver.
  destruct (list.head (a ++ n :: b)) as [lh|] eqn:E; [|by destruct a].
  destruct (unlink_ok c (queues s) k a n b lh) as (c' & Eu & Wu & Ku); [done|done|by rewrite HQ|].
  exists c'. unfold FutexWait_resume. rewrite (proj2 (Z.eqb_neq _ _)) by done. unfold keyo in Hk.
  destruct (nodes c !! n) as [nd|] eqn:En; [|done]. cbn [mbind option_bind]. injection Hk as Hk. rewrite Hk.
  rewrite (table_find_ok _ _ (queues s)), HQ, E by done. rewrite (timeout_present c n k lh a b) by (done || (rewrite length_app in Hsz; cbn in Hsz; lia)).
  assert (Ep : match list.last a with Some x => Some x | None => None end = list.last a) by by destruct (list.last a).
  rewrite Ep, Eu. split; [done|].
  assert (Hext : ∀ k', <[k := a ++ b]> (queues s) k' = filter (λ m, m ≠ n) (queues s k')).
  { intros k'. destruct (decide (k = k')) as [<-|Hne].
    - rewrite fn_lookup_insert, HQ. by rewrite filter_ne_split.
    - rewrite fn_lookup_insert_ne by done. rewrite filter_all; [done|]. intros m Hm ->.
      eapply (wfq_other _ _ _ k' k n W Hm); [congruence|]. rewrite HQ. set_solver. }
  eapply rep_next; [done|by eapply wfq_ext|done|]. intros m Hm. destruct (r_w _ _ _ R m Hm) as [? Hmq]. split; [done|].
  intros k'. rewrite list_elem_of_filter. intros [_ Hin]. by eapply Hmq.
Qed.

Lemma futex_step T c s op : rep T c s → enabled T s op → ∃ c', ctx_step c op = Some (c', (abs_step s op).2) ∧ rep T c' (abs_step s op).1.
Proof.
  intros R He. destruct op as [n key copied value|key count|wk wc copied value rk rc|n result]; cbn [ctx_step abs_step enabled] in *.
  - destruct He as (HT & Hw & Hq). destruct (negb (check_value copied value =? NO_ERROR)) eqn:E.
    + exists c. unfold FutexWait. rewrite E. done.
    + zb. destruct (wait_step T c s n key copied value) as (c' & Ec & Rc); try done. exists c'. by rewrite Ec.
  - destruct (wake_step T c s key count R He) as (c' & Ec & Rc). exists c'. by rewrite Ec.
  - destruct He as [Hwc Hrc]. destruct ((rk =? 0) && negb (rc =? 0))%bool eqn:E1; [exists c; unfold FutexRequeue; by rewrite E1|].
    destruct (negb (check_value copied value =? NO_ERROR)) eqn:E2; [exists c; unfold FutexRequeue; by rewrite E1, E2|].
    destruct (wk =? rk) eqn:E3; [exists c; unfold FutexRequeue; by rewrite E1, E2, E3|]. zb.
    destruct (requeue_step T c s wk wc copied value rk rc) as (c' & Ec & Rc); try done. exists c'. by rewrite Ec.
  - destruct (bool_decide (n ∈ woken s)) eqn:E.
    + apply bool_decide_eq_true in E. exists c. rewrite (resume_woken T c s) by done. split; [done|]. destruct R. split; try done.
      cbn. intros m Hm. apply r_w0. set_solver.
    + apply bool_decide_eq_false in E. destruct He as [|[Hr [k Hk]]]; [done|].
      destruct (resume_queued T c s n k result) as (c' & Ec & Rc); try done. exists c'. by rewrite Ec.
Qed.

Lemma futex_run T ops : ∀ c s, rep T c s → all_enabled T s ops →
  ∃ c', ctx_run c ops = Some (c', (abs_run s ops).2) ∧ rep T c' (abs_run s ops).1.
Proof.
  induction ops as [|op ops IH]; intros c s R; [exists c; done|]. cbn. intros [He Hall].
  destruct (futex_step T c s op R He) as (c1 & E1 & R1). destruct (abs_step s op) as [s1 r]. cbn in *.
  destruct (IH c1 s1 R1 Hall) as (c2 & E2 & R2). destruct (abs_run s1 ops) as [s2 rs]. cbn in *. exists c2. rewrite E1. cbn. by rewrite E2.
Qed.

Definition no_futexes : futexes := mk_futexes (λ _, []) ∅.

Lemma rep_empty T h : (∀ n, n ∈ T → is_Some (h !! n)) → rep T (empty_context h) no_futexes.
Proof.
  intros HT. split; cbn; [intros k; apply waiters_nil|intros k; constructor| |set_solver|done].
  exact (HashTable.holds_empty NodeGetHash).
Qed.

(** A woken thread stays so until it returns. *)
Lemma woken_stays T ops n : ∀ s, n ∈ woken s → all_enabled T s ops → (∀ r, OpResume n r ∉ ops) → n ∈ woken (abs_run s ops).1.
Proof.
  induction ops as [|op ops IH]; intros s Hn; [done|]. cbn. intros [He Hall] Hno.
  assert (Hn1 : n ∈ woken (abs_step s op).1).
  { destruct op as [| | |m r]; cbn.
    - by case_match.
    - set_solver.
    - repeat case_match; cbn; set_solver.
    - assert (m ≠ n) by (intros ->; specialize (Hno r); set_solver). case_match; cbn; set_solver. }
  destruct (abs_step s op) as [s1 r]. cbn in *. specialize (IH s1 Hn1 Hall). destruct (abs_run s1 ops). cbn in *.
  apply IH. intros r' Hr'. apply (Hno r'). set_solver.
Qed.

(** ** Properties *)

(** C15. Futexes implement a first-in first-out queue of threads per address:
    from an empty context, every sequence of waits, wakes, requeues and returns
    that the threads can perform runs without a failed assertion or a bad pointer,
    gives the statuses and the woken threads of the abstract futex, and ends in a
    context whose linked lists and table hold its queues. *)
Theorem futex_refines_queues T h ops :
  (∀ n, n ∈ T → is_Some (h !! n)) → all_enabled T no_futexes ops →
  ∃ c, ctx_run (empty_context h) ops = Some (c, (abs_run no_futexes ops).2) ∧ rep T c (abs_run no_futexes ops).1.
Proof. intros HT Hops. apply futex_run; [by apply rep_empty|done]. Qed.

(** No wake is lost: each of the threads that a wake takes off its queue
    returns success from its wait, whatever the operations in between and even if
    its own wait reports a timeout. *)
Theorem futex_wake_received T c s key count n ops :
  rep T c s → is_u32 count → n ∈ take (Z.to_nat count) (queues s key) →
  all_enabled T (abs_wake s key (Z.to_nat count)) ops → (∀ r, OpResume n r ∉ ops) →
  ∃ c1 c2 rs, FutexWake c key count = Some (NO_ERROR, take (Z.to_nat count) (queues s key), c1) ∧
    ctx_run c1 ops = Some (c2, rs) ∧ ∀ result, FutexWait_resume c2 n result = Some (NO_ERROR, c2).
Proof.
  intros R Hu Hn Hops Hno. destruct (wake_step T c s key count R Hu) as (c1 & E1 & R1).
  destruct (futex_run T ops c1 _ R1 Hops) as (c2 & E2 & R2). exists c1, c2. eexists. split_and!; [done|done|].
  intros result. eapply resume_woken; [done|]. eapply woken_stays; [|done|done]. cbn. set_solver.
Qed.

(** ** Witnesses *)

Definition ex_heap : heap := list_to_map ((λ n, (n, mk_node 0 None None)) <$> [1; 2; 3]%nat).

Definition ex_waits : list fop := [OpWait 1 64 (0, 7) 7; OpWait 2 64 (0, 7) 7; OpWait 3 360 (0, 1) 1].

(** The three threads wait, on addresses of one hash bucket; one is woken from the
    first address and the other moved to the second, where the moved thread and
    then the thread that was there first time out. *)
Definition ex_ops : list fop := ex_waits ++ [OpRequeue 64 1 (0, 7) 7 360 5; OpResume 2 (-23); OpResume 1 (-23); OpResume 3 (-23)].

Lemma ex_heap_all n : n ∈ ({[1; 2; 3]} : gset nat)%nat → is_Some (ex_heap !! n).
Proof. rewrite !elem_of_union, !elem_of_singleton. intros [[->| ->]| ->]; vm_compute; eauto. Qed.

Lemma not_queued_insert (Q : Z → list nat) key q n : n ∉ q → (∀ k, n ∉ Q k) → ∀ k, n ∉ <[key := q]> Q k.
Proof.
  intros Hq HQ k. destruct (decide (key = k)) as [<-|Hne]; [by rewrite fn_lookup_insert|by rewrite fn_lookup_insert_ne].
Qed.

Lemma enabled_wait T s n key copied value ops :
  n ∈ T → n ∉ woken s → (∀ k, n ∉ queues s k) → check_value copied value = NO_ERROR →
  all_enabled T (mk_futexes (<[key := queues s key ++ [n]]> (queues s)) (woken s)) ops →
  all_enabled T s (OpWait n key copied value :: ops).
Proof. intros HT Hw Hq Hv Hops. cbn [all_enabled abs_step enabled]. rewrite Hv. done. Qed.

Lemma enabled_resume T s n result k ops :
  n ∈ queues s k → result ≠ NO_ERROR → all_enabled T (abs_step s (OpResume n result)).1 ops →
  all_enabled T s (OpResume n result :: ops).
Proof. intros Hq Hr Hops. split; [right; eauto|done]. Qed.

Definition ex_blocked : futexes := (abs_run no_futexes ex_waits).1.

Lemma ex_waits_enabled ops : all_enabled {[1; 2; 3]}%nat ex_blocked ops → all_enabled {[1; 2; 3]}%nat no_futexes (ex_waits ++ ops).
Proof.
  intros Hops. repeat (apply enabled_wait; [set_solver|cbn; set_solver| |reflexivity|]); [..|exact Hops]; cbn [queues woken no_futexes].
  - set_solver.
  - apply not_queued_insert; set_solver.
  - repeat apply not_queued_insert; set_solver.
Qed.

Lemma futex_refines_queues_witness :
  ∃ c, ctx_run (empty_context ex_heap) ex_ops =
    Some (c, [Blocks; Blocks; Blocks; Returns NO_ERROR [1%nat]; Returns ERR_TIMED_OUT []; Returns NO_ERROR []; Returns ERR_TIMED_OUT []]).
Proof.
  destruct (futex_refines_queues {[1; 2; 3]}%nat ex_heap ex_ops) as (c & E & _).
  - apply ex_heap_all.
  - apply ex_waits_enabled. split; [split; vm_compute; split; congruence|].
    apply (enabled_resume _ _ _ _ 360); [vm_compute; set_solver|done|].
    split; [left; vm_compute; reflexivity|]. apply (enabled_resume _ _ _ _ 360); [vm_compute; set_solver|done|]. done.
  - exists c. rewrite E. f_equal.
Defined.

Lemma futex_wake_received_witness :
  ∃ c c1 c2 rs, ctx_run (empty_context ex_heap) ex_waits = Some (c, [Blocks; Blocks; Blocks]) ∧
    FutexWake c 64 1 = Some (NO_ERROR, [1%nat], c1) ∧
    ctx_run c1 [OpWake 64 1] = Some (c2, rs) ∧ FutexWait_resume c2 1 ERR_TIMED_OUT = Some (NO_ERROR, c2).
Proof.
  destruct (futex_run {[1; 2; 3]}%nat ex_waits (empty_context ex_heap) no_futexes) as (c & E & R).
  - apply rep_empty, ex_heap_all.
  - rewrite <- (app_nil_r ex_waits). by apply ex_waits_enabled.
  - destruct (futex_wake_received {[1; 2; 3]}%nat c ex_blocked 64 1 1 [OpWake 64 1] R) as (c1 & c2 & rs & E1 & E2 & E3).
    + split; [done|reflexivity].
    + change (1%nat ∈ [1%nat]). set_solver.
    + split; [split; [done|reflexivity]|done].
    + intros r Hr. set_solver.
    + exists c, c1, c2, rs. split_and!; [exact E|exact E1|exact E2|apply E3].
Defined.

End FutexFacts.
