(* ===== verification/StateTracker.v ===== *)
(** * Waiting for object state: trackers, observers and wait events

    [src/kernel/lib/magenta/{state_tracker,wait_state_observer,wait_event}.cpp].
    A kernel object that can be waited on has a state tracker, which holds the
    signals of the object and the list of its observers.  A tracker calls its
    observers through the interface [StateObserver]; observers are pointers into a
    store that the calls update.  The instance here is the observer of a thread
    that waits on a handle, which signals a wait event built on an event of [Sync].

    Each operation runs under the tracker's lock and is one step, followed by the
    [thread_yield] of the source when a thread was woken.  The wait on a wait event
    is split where it blocks, like the waits of [Sync]. *)

From stdpp Require Import base tactics numbers list gmap.
From Stdlib Require Import ZArith.
From S2P Require Import Prelude Sync.
#[local] Open Scope Z_scope.

Module StateTracker.
Import Sync.

Definition MX_SIGNAL_READABLE : Z := 1.
Definition MX_SIGNAL_WRITABLE : Z := 2.
Definition MX_SIGNAL_PEER_CLOSED : Z := 4.

Record mx_signals_state := mk_signals { satisfied : Z; satisfiable : Z }.

#[global] Instance mx_signals_state_eq_dec : EqDecision mx_signals_state.
Proof. solve_decision. Defined.

(** ** The interface of observers *)

Class StateObserver (S : Type) := {
  OnInitialize : S → nat → nat → mx_signals_state → option (bool * S);
  OnStateChange : S → nat → nat → mx_signals_state → option (bool * S);
  (** The results are whether a thread was woken, [should_remove] and
      [call_did_cancel]. *)
  OnCancel : S → nat → nat → nat → option (bool * bool * bool * S);
  OnDidCancel : S → nat → nat → option S;
  yield : S → nat → option S
}.

(** ** Trackers *)

Record StateTracker := mk_tracker { is_waitable_ : bool; observers_ : list nat; signals_state_ : mx_signals_state }.

Section tracker.
Context {S : Type} `{StateObserver S}.

Definition yield_if (awoke_threads : bool) (s : S) (c : nat) : option S := if awoke_threads then yield s c else Some s.

Definition AddObserver (s : S) (c : nat) (tr : StateTracker) (observer : nat) : option (Z * S * StateTracker) :=
  '(awoke, s1) ← OnInitialize s c observer (signals_state_ tr);
  s2 ← yield_if awoke s1 c;
  Some (NO_ERROR, s2, mk_tracker (is_waitable_ tr) (observer :: observers_ tr) (signals_state_ tr)).

(** Erasing a node that is not on the list fails an assertion. *)
Definition RemoveObserver (tr : StateTracker) (observer : nat) : option (mx_signals_state * StateTracker) :=
  ASSERT bool_decide (observer ∈ observers_ tr);
  Some (signals_state_ tr, mk_tracker (is_waitable_ tr) (filter (λ o, o ≠ observer) (observers_ tr)) (signals_state_ tr)).

Fixpoint notify (s : S) (c : nat) (obs : list nat) (st : mx_signals_state) (awoke : bool) : option (bool * S) :=
  match obs with
  | [] => Some (awoke, s)
  | o :: obs' => '(b, s1) ← OnStateChange s c o st; notify s1 c obs' st (awoke || b)
  end.

Definition update (st : mx_signals_state) (satisfied_set satisfied_clear satisfiable_set satisfiable_clear : Z) : mx_signals_state :=
  mk_signals (Z.lor (Z.ldiff (satisfied st) satisfied_clear) satisfied_set)
             (Z.lor (Z.ldiff (satisfiable st) satisfiable_clear) satisfiable_set).

Definition UpdateState (s : S) (c : nat) (tr : StateTracker)
    (satisfied_set satisfied_clear satisfiable_set satisfiable_clear : Z) : option (S * StateTracker) :=
  let st := update (signals_state_ tr) satisfied_set satisfied_clear satisfiable_set satisfiable_clear in
  let tr1 := mk_tracker (is_waitable_ tr) (observers_ tr) st in
  if bool_decide (st = signals_state_ tr) then Some (s, tr1) else
  '(awoke, s1) ← notify s c (observers_ tr) st false;
  s2 ← yield_if awoke s1 c;
  Some (s2, tr1).

Definition UpdateSatisfied (s : S) (c : nat) (tr : StateTracker) (set_mask clear_mask : Z) : option (S * StateTracker) :=
  UpdateState s c tr set_mask clear_mask 0 0.

(** The results of the loop of [Cancel]: whether a thread was woken, the observers
    that stay, and [did_cancel_list]. *)
Fixpoint cancel_loop (s : S) (c : nat) (obs : list nat) (handle : nat) (awoke : bool) (did_cancel : list nat)
  : option (bool * list nat * list nat * S) :=
  match obs with
  | [] => Some (awoke, [], did_cancel, s)
  | o :: obs' =>
    r ← OnCancel s c o handle;
    let '(b, should_remove, call_did_cancel, s1) := (r : bool * bool * bool * S) in
    if should_remove then
      cancel_loop s1 c obs' handle (awoke || b) (if call_did_cancel then o :: did_cancel else did_cancel)
    else
      r1 ← cancel_loop s1 c obs' handle (awoke || b) did_cancel;
      let '(awoke1, keep, dc, s2) := r1 in
      Some (awoke1, o :: keep, dc, s2)
  end.

Fixpoint did_cancel_loop (s : S) (c : nat) (l : list nat) : option S :=
  match l with [] => Some s | o :: l' => s1 ← OnDidCancel s c o; did_cancel_loop s1 c l' end.

Definition Cancel (s : S) (c : nat) (tr : StateTracker) (handle : nat) : option (S * StateTracker) :=
  r ← cancel_loop s c (observers_ tr) handle false [];
  let '(awoke, keep, did_cancel, s1) := r in
  s2 ← did_cancel_loop s1 c did_cancel;
  s3 ← yield_if awoke s2 c;
  Some (s3, mk_tracker (is_waitable_ tr) keep (signals_state_ tr)).

End tracker.

(** ** Wait events and the observers of waiting threads *)

Inductive Result := INVALID | INTERRUPTED | TIMED_OUT | CANCELLED | SATISFIED | UNSATISFIABLE.

#[global] Instance Result_eq_dec : EqDecision Result.
Proof. solve_decision. Defined.

Definition ResultToStatus (r : Result) : Z :=
  match r with
  | INVALID => ERR_INTERNAL
  | INTERRUPTED => ERR_INTERRUPTED
  | TIMED_OUT => ERR_TIMED_OUT
  | CANCELLED => ERR_CANCELLED
  | SATISFIED => NO_ERROR
  | UNSATISFIABLE => ERR_BAD_STATE
  end.

Definition HaveContextForResult (r : Result) : bool :=
  match r with INVALID | INTERRUPTED | TIMED_OUT => false | _ => true end.

Record WaitEvent := mk_wait_event { signaled_ : bool; result_ : Result; context_ : Z; event_ : event }.

Record WaitStateObserver := mk_observer {
  wo_event : nat; wo_handle : nat; watched_signals_ : Z; wo_context : Z; dispatcher_ : bool }.

(** The store: the kernel, the wait events and the observers, by pointer. *)
Record world (K : Type) := mk_world { kern : K; events : gmap nat WaitEvent; observers : gmap nat WaitStateObserver }.
#[global] Arguments mk_world {K}.
#[global] Arguments kern {K}.
#[global] Arguments events {K}.
#[global] Arguments observers {K}.

Section wait.
Context {K : Type} `{WaitOps K} (thread_yield : K → nat → option K).

Definition new_wait_event (k : K) (w : nat) : WaitEvent * K :=
  let '(e, k1) := event_init k w false 0 in (mk_wait_event false INVALID 0 e, k1).

(** What a wait that ended with [status] returns: the result and, if it has one,
    the context. *)
Definition wait_outcome (ev : WaitEvent) (status : Z) : option (Result * option Z) :=
  if status =? ERR_INTERRUPTED then Some (INTERRUPTED, None) else
  if status =? ERR_TIMED_OUT then Some (TIMED_OUT, None) else
  ASSERT status =? NO_ERROR;
  ASSERT signaled_ ev;
  ASSERT bool_decide (result_ ev ≠ INVALID);
  ASSERT HaveContextForResult (result_ ev);
  Some (result_ ev, Some (context_ ev)).

Definition WaitEvent_Wait (s : world K) (c id : nat) (timeout : Z) : option (result (world K) (Result * option Z)) :=
  ev ← events s !! id;
  '(e1, r) ← event_wait_timeout (kern s) c (event_ ev) timeout true;
  let ev1 := mk_wait_event (signaled_ ev) (result_ ev) (context_ ev) e1 in
  let evs := <[id := ev1]> (events s) in
  match r with
  | Done status k1 => o ← wait_outcome ev1 status; Some (Done o (mk_world k1 evs (observers s)))
  | Wait k1 => Some (Wait (mk_world k1 evs (observers s)))
  end.

Definition WaitEvent_Wait_resume (s : world K) (t id : nat) (timeout : Z) : option (Result * option Z * world K) :=
  '(status, k1) ← event_wait_resume (kern s) t timeout;
  ev ← events s !! id;
  o ← wait_outcome ev status;
  Some (o, mk_world k1 (events s) (observers s)).

Definition WaitEvent_Signal (s : world K) (c id : nat) (res : Result) (ctx : Z) : option (bool * world K) :=
  ASSERT HaveContextForResult res;
  ev ← events s !! id;
  if signaled_ ev then Some (false, s) else
  '(n, e1, k1) ← event_signal_etc (kern s) c (event_ ev) false NO_ERROR;
  Some (negb (n =? 0), mk_world k1 (<[id := mk_wait_event true res ctx e1]> (events s)) (observers s)).

Definition MaybeSignal (s : world K) (c o : nat) (st : mx_signals_state) : option (bool * world K) :=
  ob ← observers s !! o;
  ASSERT dispatcher_ ob;
  if negb (Z.land (satisfied st) (watched_signals_ ob) =? 0)
  then WaitEvent_Signal s c (wo_event ob) SATISFIED (wo_context ob)
  else if Z.land (satisfiable st) (watched_signals_ ob) =? 0
  then WaitEvent_Signal s c (wo_event ob) UNSATISFIABLE (wo_context ob)
  else Some (false, s).

Definition WaitStateObserver_OnCancel (s : world K) (c o handle : nat) : option (bool * bool * bool * world K) :=
  ob ← observers s !! o;
  ASSERT dispatcher_ ob;
  if bool_decide (handle = wo_handle ob)
  then '(b, s1) ← WaitEvent_Signal s c (wo_event ob) CANCELLED (wo_context ob); Some (b, false, false, s1)
  else Some (false, false, false, s).

Definition world_yield (s : world K) (c : nat) : option (world K) :=
  k1 ← thread_yield (kern s) c; Some (mk_world k1 (events s) (observers s)).

#[local] Instance wait_state_observer : StateObserver (world K) := {|
  OnInitialize := MaybeSignal;
  OnStateChange := MaybeSignal;
  OnCancel := WaitStateObserver_OnCancel;
  OnDidCancel s _ _ := Some s;
  yield := world_yield |}.

(** [tracker] is [dispatcher_->get_state_tracker()]; the result has the tracker as
    the call leaves it. *)
Definition WaitStateObserver_Begin (s : world K) (c o : nat) (event handle : nat) (watched_signals context : Z)
    (tracker : option StateTracker) : option (Z * world K * option StateTracker) :=
  ob ← observers s !! o;
  ASSERT negb (dispatcher_ ob);
  let begun d := mk_world (kern s) (events s) (<[o := mk_observer event handle watched_signals context d]> (observers s)) in
  match tracker with
  | Some tr =>
    if is_waitable_ tr then '(r, s1, tr1) ← AddObserver (begun true) c tr o; Some (r, s1, Some tr1)
    else Some (ERR_NOT_SUPPORTED, begun false, Some tr)
  | None => Some (ERR_NOT_SUPPORTED, begun false, None)
  end.

Definition WaitStateObserver_End (s : world K) (o : nat) (tr : StateTracker) : option (mx_signals_state * world K * StateTracker) :=
  ob ← observers s !! o;
  ASSERT dispatcher_ ob;
  '(st, tr1) ← RemoveObserver tr o;
  let ob1 := mk_observer (wo_event ob) (wo_handle ob) (watched_signals_ ob) (wo_context ob) false in
  Some (st, mk_world (kern s) (events s) (<[o := ob1]> (observers s)), tr1).

End wait.
End StateTracker.
