(* ===== verification/StateTrackerFacts.v ===== *)
(** * No thread waits for a state that its object has

    The invariant of the wait events and of a tracker, against the wait queues of
    [SyncFacts]: an observer whose watched signals are satisfied, or can no longer
    be, has signalled its wait event, and no thread is blocked on it.  [TrackerSpec]
    is what an object that owns trackers relies on; the store of wait events
    satisfies it. *)

From stdpp Require Import base tactics numbers list gmap.
From Stdlib Require Import ZArith Lia.
From S2P Require Import Prelude Sched SchedFacts Sync SyncFacts SyncSched StateTracker.
#[local] Open Scope Z_scope.

Import StateTracker.

(** What the scheduler promises of [thread_yield]. *)
Class YieldSpec (K : Type) `{WaitOps K, WaitView K} (thread_yield : K → nat → option K) := {
  kcurrent : K → nat → Prop;
  yield_law k c : kok k → kcurrent k c → ∃ k', thread_yield k c = Some k' ∧ kok k' ∧
    (∀ w, kwaiters k' w = kwaiters k w) ∧ (∀ w, kwq k w → kwq k' w) ∧ ∀ c', kcurrent k c' → kcurrent k' c';
  wake_current k c w err n k' c' : kcurrent k c' → wq_wake_all k c w false err = Some (n, k') → kcurrent k' c';
  running_kcurrent k c t : krunning k c t → kcurrent k c
}.

Definition moved_to (tr : StateTracker) (st : mx_signals_state) : StateTracker := mk_tracker (is_waitable_ tr) (observers_ tr) st.

(** What a store of observers promises to the owner of a tracker, on processor
    [c]: an update succeeds, sets the signals, and keeps every tracker watched. *)
Class TrackerSpec (S : Type) `{StateObserver S} := {
  sok : S → nat → Prop;
  watching : S → StateTracker → Prop;
  update_law s c tr a b d e :
    sok s c → watching s tr →
    let tr' := moved_to tr (update (signals_state_ tr) a b d e) in
    ∃ s', UpdateState s c tr a b d e = Some (s', tr') ∧ sok s' c ∧ watching s' tr' ∧
      ∀ tr2, watching s tr2 → watching s' tr2
}.

Module StateTrackerFacts.
Import Sync SyncFacts.

(** The state that ends a wait for [watched]. *)
Definition hit (st : mx_signals_state) (watched : Z) : bool :=
  negb (Z.land (satisfied st) watched =? 0) || (Z.land (satisfiable st) watched =? 0).

Section facts.
Context {K : Type} `{WaitSpec K} (thread_yield : K → nat → option K) `{!YieldSpec K thread_yield}.

#[local] Instance wait_obs : StateObserver (world K) := wait_state_observer thread_yield.

Definition event_ok (k : K) (ev : WaitEvent) : Prop :=
  einv (k, event_ ev) ∧ autounsignal (event_ ev) = false ∧ signalled (event_ ev) = signaled_ ev ∧
  (signaled_ ev = true → HaveContextForResult (result_ ev) = true).

Definition winv (s : world K) : Prop :=
  kok (kern s) ∧ (∀ id ev, events s !! id = Some ev → event_ok (kern s) ev) ∧
  ∀ i j ev1 ev2, events s !! i = Some ev1 → events s !! j = Some ev2 → e_wait (event_ ev1) = e_wait (event_ ev2) → i = j.

Definition observing (s : world K) (st : mx_signals_state) (o : nat) : Prop :=
  ∃ ob ev, observers s !! o = Some ob ∧ dispatcher_ ob = true ∧ events s !! wo_event ob = Some ev ∧
    (hit st (watched_signals_ ob) = true → signaled_ ev = true).

Definition watched_by (s : world K) (tr : StateTracker) : Prop :=
  NoDup (observers_ tr) ∧ ∀ o, o ∈ observers_ tr → observing s (signals_state_ tr) o.

(** A store that only went forward: the first signal of an event stays. *)
Definition forward (s s' : world K) : Prop :=
  observers s' = observers s ∧ (∀ c, kcurrent (kern s) c → kcurrent (kern s') c) ∧
  ∀ id ev, events s !! id = Some ev → ∃ ev', events s' !! id = Some ev' ∧
    (signaled_ ev = true → signaled_ ev' = true ∧ result_ ev' = result_ ev ∧ context_ ev' = context_ ev).

Lemma forward_refl s : forward s s.
Proof. split_and!; [done|done|]. intros id ev Hev. by exists ev. Qed.

Lemma forward_trans s1 s2 s3 : forward s1 s2 → forward s2 s3 → forward s1 s3.
Proof.
  intros (E1 & C1 & F1) (E2 & C2 & F2). split_and!; [congruence|auto|]. intros id ev Hev.
  destruct (F1 id ev Hev) as (ev2 & Hev2 & G1). destruct (F2 id ev2 Hev2) as (ev3 & Hev3 & G2). exists ev3. split; [done|].
  intros Hs. destruct (G1 Hs) as (Hs2 & <- & <-). by apply G2.
Qed.

Lemma observing_forward s s' st o : forward s s' → observing s st o → observing s' st o.
Proof.
  intros (Eo & _ & F) (ob & ev & Hob & Hd & Hev & Hh). destruct (F _ _ Hev) as (ev' & Hev' & G).
  exists ob, ev'. rewrite Eo. split_and!; [done..|]. intros Hit. by apply G, Hh.
Qed.

Lemma watched_forward s s' tr : forward s s' → watched_by s tr → watched_by s' tr.
Proof. intros F [Hnd Hw]. split; [done|]. intros o Ho. eapply observing_forward; eauto. Qed.

(** An event whose queue did not move stays as it was. *)
Lemma event_ok_frame k k' ev :
  kok k' → kwaiters k' (e_wait (event_ ev)) = kwaiters k (e_wait (event_ ev)) →
  (kwq k (e_wait (event_ ev)) → kwq k' (e_wait (event_ ev))) → event_ok k ev → event_ok k' ev.
Proof. intros Hk Hw Hq ((_ & Hq' & Hm & Hs) & Ha & He & Hr). split_and!; [|done..]. unfold einv. simpl in *. rewrite Hw. auto. Qed.

Lemma event_signal_ok s c id ev res ctx :
  winv s → events s !! id = Some ev → HaveContextForResult res = true →
  ∃ b s', WaitEvent_Signal s c id res ctx = Some (b, s') ∧ winv s' ∧ forward s s' ∧
    ∃ ev', events s' !! id = Some ev' ∧ signaled_ ev' = true.
Proof.
  intros (Hk & Hev & Hdist) Hid Hres. unfold WaitEvent_Signal. rewrite Hres, Hid. cbn [mbind option_bind].
  destruct (signaled_ ev) eqn:Es; [exists false, s; split_and!; [done|by split|apply forward_refl|by exists ev]|].
  destruct (Hev id ev Hid) as (Hi & Ha & Hsig & Hr).
  destruct (event_signal_cases (kern s) c (event_ ev) false NO_ERROR Hi ltac:(done)) as (n & e' & k' & E & Hc).
  destruct (event_signal_einv (kern s) c (event_ ev) false NO_ERROR n e' k' Hi ltac:(done) E) as (Hi' & Hfl & Hew & Hs').
  rewrite Hsig, Es, Ha in Hc. destruct Hc as (Hn & He' & Hch). rewrite E. cbn [mbind option_bind].
  eexists _, _. split; [done|]. set (ev1 := mk_wait_event true res ctx e'). split; [|split].
  - split; [exact (changed_ok _ _ _ _ _ Hch)|]. cbn [kern events]. split.
    + intros j evj. destruct (decide (id = j)) as [<-|Hne].
      * rewrite lookup_insert_eq. intros [= <-]. split_and!; [done| |by apply Hs'|done].
        unfold autounsignal in *. cbn. by rewrite Hfl.
      * rewrite lookup_insert_ne by done. intros Hj. eapply event_ok_frame; [exact (changed_ok _ _ _ _ _ Hch)| |exact (changed_wq _ _ _ _ _ _ Hch)|by eapply Hev].
        destruct Hch as (_ & Hw & _). rewrite Hw, decide_False; [done|]. intros Heq. by apply Hne, (Hdist _ _ _ _ Hid Hj).
    + assert (Hsame : ∀ j evj, <[id := ev1]> (events s) !! j = Some evj →
        ∃ ev0, events s !! j = Some ev0 ∧ e_wait (event_ ev0) = e_wait (event_ evj)).
      { intros j evj. destruct (decide (id = j)) as [<-|Hne]; [rewrite lookup_insert_eq; intros [= <-]; by exists ev|].
        rewrite lookup_insert_ne by done. eauto. }
      intros i j e1 e2 He1 He2 Heq. destruct (Hsame i e1 He1) as (a1 & ? & ?). destruct (Hsame j e2 He2) as (a2 & ? & ?).
      eapply Hdist; [done|done|congruence].
  - split_and!; [done| |].
    + cbn. intros c' Hc'. revert E. unfold event_signal_etc. rewrite Hsig, Es, Ha. destruct (_ =? _); [|done].
      destruct (wq_wake_all _ _ _ _ _) as [[m k2]|] eqn:Ew; [|done]. cbn [mbind option_bind]. intros [= <- <- <-].
      by eapply wake_current.
    + intros j evj Hj. cbn. destruct (decide (id = j)) as [<-|Hne].
      * rewrite lookup_insert_eq. exists ev1. split; [done|]. intros Hs. congruence.
      * rewrite lookup_insert_ne by done. by exists evj.
  - exists ev1. cbn. by rewrite lookup_insert_eq.
Qed.

Lemma hit_cases st w :
  hit st w = if negb (Z.land (satisfied st) w =? 0) then true else Z.land (satisfiable st) w =? 0.
Proof. unfold hit. by destruct (negb _). Qed.

Lemma maybe_signal_ok s c o st ob ev :
  winv s → observers s !! o = Some ob → dispatcher_ ob = true → events s !! wo_event ob = Some ev →
  ∃ b s', MaybeSignal s c o st = Some (b, s') ∧ winv s' ∧ forward s s' ∧ observing s' st o.
Proof.
  intros Hi Hob Hd Hev. unfold MaybeSignal. rewrite Hob. cbn [mbind option_bind]. rewrite Hd.
  assert (Hfin : ∀ s', forward s s' → (∃ ev', events s' !! wo_event ob = Some ev' ∧ signaled_ ev' = true) → observing s' st o).
  { intros s' F (ev' & Hev' & Hs). exists ob, ev'. by rewrite (proj1 F). }
  destruct (negb (Z.land (satisfied st) (watched_signals_ ob) =? 0)) eqn:E1; [|destruct (Z.land (satisfiable st) (watched_signals_ ob) =? 0) eqn:E2].
  - destruct (event_signal_ok s c (wo_event ob) ev SATISFIED (wo_context ob) Hi Hev eq_refl) as (b & s' & E & ? & ? & ?). exists b, s'. auto.
  - destruct (event_signal_ok s c (wo_event ob) ev UNSATISFIABLE (wo_context ob) Hi Hev eq_refl) as (b & s' & E & ? & ? & ?). exists b, s'. auto.
  - exists false, s. split_and!; [done|done|apply forward_refl|]. exists ob, ev. split_and!; [done..|]. by rewrite hit_cases, E1, E2.
Qed.

Lemma notify_ok c st l : ∀ s awoke, winv s → (∀ o, o ∈ l → ∃ ob ev, observers s !! o = Some ob ∧ dispatcher_ ob = true ∧ events s !! wo_event ob = Some ev) →
  ∃ b s', notify s c l st awoke = Some (b, s') ∧ winv s' ∧ forward s s' ∧ ∀ o, o ∈ l → observing s' st o.
Proof.
  induction l as [|o l IH]; intros s awoke Hi Hl.
  - exists awoke, s. split_and!; [done|done|apply forward_refl|set_solver].
  - destruct (Hl o) as (ob & ev & Hob & Hd & Hev); [set_solver|].
    destruct (maybe_signal_ok s c o st ob ev Hi Hob Hd Hev) as (b & s1 & E & Hi1 & F1 & Ho).
    destruct (IH s1 (awoke || b) Hi1) as (b2 & s2 & E2 & Hi2 & F2 & Hall).
    { intros o' Ho'. destruct (Hl o') as (ob' & ev' & Hob' & Hd' & Hev'); [set_solver|].
      destruct (proj2 (proj2 F1) _ _ Hev') as (ev2 & Hev2 & _). exists ob', ev2. by rewrite (proj1 F1). }
    exists b2, s2. cbn [notify]. change (OnStateChange s c o st) with (MaybeSignal s c o st). rewrite E. cbn [mbind option_bind].
    split_and!; [done|done|by eapply forward_trans|]. intros o' [->|Ho']%elem_of_cons; [by eapply observing_forward|auto].
Qed.

Lemma winv_kern s k' :
  winv s → kok k' → (∀ w, kwaiters k' w ⊆ kwaiters (kern s) w) → (∀ w, kwq (kern s) w → kwq k' w) →
  winv (mk_world k' (events s) (observers s)).
Proof.
  intros (Hk & Hev & Hd) Hk' Hw Hq. split_and!; [done| |done]. intros id ev Hid.
  destruct (Hev id ev Hid) as ((_ & Hq' & Hm & Hs) & Ha & He & Hr). split_and!; [|done..]. unfold einv. simpl in *.
  split_and!; [done|auto|done|]. intros Hx. specialize (Hw (e_wait (event_ ev))). rewrite (Hs Hx) in Hw.
  destruct (kwaiters k' (e_wait (event_ ev))); [done|set_solver].
Qed.

Lemma yield_ok s c b :
  winv s → kcurrent (kern s) c → ∃ s', yield_if b s c = Some s' ∧ winv s' ∧ forward s s'.
Proof.
  intros Hi Hc. destruct b; [|exists s; split_and!; [done|done|apply forward_refl]]. cbn. unfold world_yield.
  destruct (yield_law (kern s) c (proj1 Hi) Hc) as (k' & E & Hk & Hw & Hq & Hcur). rewrite E. cbn [mbind option_bind].
  eexists. split_and!; [done| |].
  - apply winv_kern; [done|done| |done]. intros w. by rewrite Hw.
  - split_and!; [done|done|]. intros id ev Hid. by exists ev.
Qed.

Lemma observing_known s st o :
  observing s st o → ∃ ob ev, observers s !! o = Some ob ∧ dispatcher_ ob = true ∧ events s !! wo_event ob = Some ev.
Proof. intros (ob & ev & ? & ? & ? & _). eauto. Qed.

Lemma update_ok s c tr a b d e :
  winv s → kcurrent (kern s) c → watched_by s tr →
  let tr' := moved_to tr (update (signals_state_ tr) a b d e) in
  ∃ s', UpdateState s c tr a b d e = Some (s', tr') ∧ winv s' ∧ watched_by s' tr' ∧ forward s s'.
Proof.
  intros Hi Hc [Hnd Hw] tr'. unfold UpdateState. fold tr'. case_bool_decide as E.
  - exists s. split_and!; [done|done| |apply forward_refl]. split; [done|]. cbn. by rewrite E.
  - destruct (notify_ok c (update (signals_state_ tr) a b d e) (observers_ tr) s false Hi) as (b1 & s1 & E1 & Hi1 & F1 & Hall).
    { intros o Ho. eapply observing_known. eauto. }
    rewrite E1. cbn [mbind option_bind]. destruct (yield_ok s1 c b1 Hi1) as (s2 & E2 & Hi2 & F2); [by apply F1|].
    rewrite E2. cbn [mbind option_bind]. exists s2. split_and!; [done|done| |by eapply forward_trans].
    split; [done|]. intros o Ho. eapply observing_forward; [done|]. by apply Hall.
Qed.

Lemma world_update_law s c tr a b d e :
  winv s ∧ kcurrent (kern s) c → watched_by s tr →
  let tr' := moved_to tr (update (signals_state_ tr) a b d e) in
  ∃ s', UpdateState s c tr a b d e = Some (s', tr') ∧ (winv s' ∧ kcurrent (kern s') c) ∧ watched_by s' tr' ∧
    ∀ tr2, watched_by s tr2 → watched_by s' tr2.
Proof.
  intros [Hi Hc] Hw tr'. destruct (update_ok s c tr a b d e Hi Hc Hw) as (s' & E & Hi' & Hw' & F).
  exists s'. split_and!; [done|done|by apply F|done|]. intros tr2. by apply watched_forward.
Qed.

Definition wait_tracker_spec : TrackerSpec (world K) :=
  {| sok s c := winv s ∧ kcurrent (kern s) c; watching := watched_by; update_law := world_update_law |}.

Lemma add_ok s c tr o ob ev :
  winv s → kcurrent (kern s) c → watched_by s tr → o ∉ observers_ tr →
  observers s !! o = Some ob → dispatcher_ ob = true → events s !! wo_event ob = Some ev →
  ∃ s' tr', AddObserver s c tr o = Some (NO_ERROR, s', tr') ∧ winv s' ∧ watched_by s' tr' ∧ forward s s'.
Proof.
  intros Hi Hc [Hnd Hw] Ho Hob Hd Hev. unfold AddObserver.
  change (OnInitialize s c o (signals_state_ tr)) with (MaybeSignal s c o (signals_state_ tr)).
  destruct (maybe_signal_ok s c o (signals_state_ tr) ob ev Hi Hob Hd Hev) as (b & s1 & E & Hi1 & F1 & Hob1).
  rewrite E. cbn [mbind option_bind]. destruct (yield_ok s1 c b Hi1) as (s2 & E2 & Hi2 & F2); [by apply F1|].
  rewrite E2. cbn [mbind option_bind]. eexists _, _. split_and!; [done|done| |by eapply forward_trans]. split; cbn.
  - by constructor.
  - intros o' [->|Ho']%elem_of_cons; [by eapply observing_forward|]. eapply observing_forward; [done|].
    eapply observing_forward; eauto.
Qed.

(** An observer outside a tracker may change. *)
Lemma watched_set_observer s tr o ob : o ∉ observers_ tr → watched_by s tr → watched_by (mk_world (kern s) (events s) (<[o := ob]> (observers s))) tr.
Proof.
  intros Ho [Hnd Hw]. split; [done|]. intros o' Ho'. destruct (Hw o' Ho') as (ob' & ev & ? & ? & ? & ?). exists ob', ev. cbn.
  rewrite lookup_insert_ne by (intros ->; done). done.
Qed.

Lemma begin_ok s c o event handle watched ctx tr ob ev :
  winv s → kcurrent (kern s) c → watched_by s tr → observers s !! o = Some ob → dispatcher_ ob = false → events s !! event = Some ev →
  ∃ r s' tr', WaitStateObserver_Begin thread_yield s c o event handle watched ctx (Some tr) = Some (r, s', Some tr') ∧
    winv s' ∧ watched_by s' tr' ∧ r = (if is_waitable_ tr then NO_ERROR else ERR_NOT_SUPPORTED).
Proof.
  intros Hi Hc Hw Hob Hd Hev. assert (Ho : o ∉ observers_ tr).
  { intros Ho. destruct (proj2 Hw o Ho) as (ob' & ? & Hob' & ? & _). congruence. }
  unfold WaitStateObserver_Begin. rewrite Hob. cbn [mbind option_bind]. rewrite Hd. cbn [negb]. destruct (is_waitable_ tr).
  - set (s0 := mk_world _ _ _). destruct (add_ok s0 c tr o (mk_observer event handle watched ctx true) ev) as (s' & tr' & E & Hi' & Hw' & _);
      [exact Hi|done|by apply watched_set_observer|done|by apply lookup_insert_eq|done|done|].
    unfold wait_obs in E. rewrite E. cbn [mbind option_bind]. by exists NO_ERROR, s', tr'.
  - eexists _, _, _. split_and!; [done|exact Hi|by apply watched_set_observer|done].
Qed.

Lemma end_ok s o tr :
  winv s → watched_by s tr → o ∈ observers_ tr →
  ∃ s' tr', WaitStateObserver_End s o tr = Some (signals_state_ tr, s', tr') ∧ winv s' ∧ watched_by s' tr'.
Proof.
  intros Hi Hw Ho. destruct (proj2 Hw o Ho) as (ob & ev & Hob & Hd & Hev & _). unfold WaitStateObserver_End, RemoveObserver.
  rewrite Hob. cbn [mbind option_bind]. rewrite Hd, bool_decide_eq_true_2 by done. cbn [mbind option_bind].
  eexists _, _. split_and!; [done|exact Hi|]. apply (watched_set_observer s (mk_tracker _ (filter (λ o', o' ≠ o) (observers_ tr)) _)).
  - cbn. rewrite list_elem_of_filter. tauto.
  - split; cbn; [apply NoDup_filter, Hw|]. intros o' Ho'. apply list_elem_of_filter in Ho' as [_ Ho']. by apply Hw.
Qed.

Lemma cancel_loop_ok c handle l : ∀ s awoke, winv s → (∀ o, o ∈ l → ∃ ob ev, observers s !! o = Some ob ∧ dispatcher_ ob = true ∧ events s !! wo_event ob = Some ev) →
  ∃ b s', cancel_loop s c l handle awoke [] = Some (b, l, [], s') ∧ winv s' ∧ forward s s'.
Proof.
  induction l as [|o l IH]; intros s awoke Hi Hl; [exists awoke, s; split_and!; [done|done|apply forward_refl]|].
  destruct (Hl o) as (ob & ev & Hob & Hd & Hev); [set_solver|].
  assert (Hcan : ∃ b s1, OnCancel s c o handle = Some (b, false, false, s1) ∧ winv s1 ∧ forward s s1).
  { cbn. unfold WaitStateObserver_OnCancel. rewrite Hob. cbn [mbind option_bind]. rewrite Hd. case_bool_decide.
    - destruct (event_signal_ok s c (wo_event ob) ev CANCELLED (wo_context ob) Hi Hev eq_refl) as (b & s' & E & ? & ? & _).
      rewrite E. by exists b, s'.
    - exists false, s. split_and!; [done|done|apply forward_refl]. }
  destruct Hcan as (b & s1 & E & Hi1 & F1). destruct (IH s1 (awoke || b) Hi1) as (b2 & s2 & E2 & Hi2 & F2).
  { intros o' Ho'. destruct (Hl o') as (ob' & ev' & Hob' & Hd' & Hev'); [set_solver|].
    destruct (proj2 (proj2 F1) _ _ Hev') as (ev2 & Hev2 & _). exists ob', ev2. by rewrite (proj1 F1). }
  exists b2, s2. cbn [cancel_loop]. rewrite E. cbn [mbind option_bind]. rewrite E2. split_and!; [done|done|by eapply forward_trans].
Qed.

Lemma cancel_ok s c tr handle :
  winv s → kcurrent (kern s) c → watched_by s tr →
  ∃ s', Cancel s c tr handle = Some (s', tr) ∧ winv s' ∧ watched_by s' tr.
Proof.
  intros Hi Hc [Hnd Hw]. unfold Cancel.
  destruct (cancel_loop_ok c handle (observers_ tr) s false Hi) as (b & s1 & E & Hi1 & F1).
  { intros o Ho. eapply observing_known. eauto. }
  rewrite E. cbn [mbind option_bind did_cancel_loop]. destruct (yield_ok s1 c b Hi1) as (s2 & E2 & Hi2 & F2); [by apply F1|].
  rewrite E2. cbn [mbind option_bind]. exists s2. split_and!; [by destruct tr|done|].
  eapply watched_forward; [exact (forward_trans _ _ _ F1 F2)|by split].
Qed.

(** What a wait comes to: it ends at once with a status, or the thread joins the
    queue of an event that is not signalled. *)
Lemma event_wait_total k c t e timeout :
  einv (k, e) → autounsignal e = false → krunning k c t →
  (∃ st k', event_wait_timeout k c e timeout true = Some (e, Done st k') ∧ kok k' ∧ (∀ w, kwaiters k' w = kwaiters k w) ∧
     (∀ w, kwq k w → kwq k' w) ∧ (st = ERR_INTERRUPTED ∨ st = ERR_TIMED_OUT ∨ st = NO_ERROR ∧ signalled e = true)) ∨
  (∃ k', event_wait_timeout k c e timeout true = Some (e, Wait k') ∧ signalled e = false ∧
     changed (set_thread_interruptable k t true) (e_wait e) (kwaiters k (e_wait e) ++ [t])
       (with_status (set_thread_interruptable k t true) t NO_ERROR) k').
Proof.
  intros (Hk & Hq & Hm & Hs) Ha Hrun. simpl in *. unfold event_wait_timeout. rewrite (running_current _ _ _ Hrun).
  cbn [mbind option_bind]. rewrite Hm, Z.eqb_refl, Ha. destruct (interruptable_view k t true Hk) as (Hk1 & Hw1 & Hq1).
  pose proof (interruptable_running k c t t true Hrun) as Hrun1. set (k1 := set_thread_interruptable k t true) in *.
  destruct (interruptable_view k1 t false Hk1) as (Hk2 & Hw2 & Hq2).
  destruct (true && kill_pending k t)%bool; [left; eexists _, _; split; [done|]; split_and!; auto|].
  destruct (signalled e) eqn:Es.
  { left. eexists _, _. split; [done|]. split_and!; auto. intros w. by rewrite Hw2, Hw1. }
  destruct (Z.eq_dec timeout 0) as [->|Hnz].
  - rewrite (block_zero k1 c t (e_wait e)) by auto. left. eexists _, _. split; [done|]. split_and!; auto. intros w. by rewrite Hw2, Hw1.
  - destruct (block_law k1 c t (e_wait e) timeout) as (k' & E & Hch); [auto..|]. rewrite E. cbn [mbind option_bind]. right.
    eexists. split; [done|]. split; [done|]. by rewrite <- Hw1.
Qed.

Definition after {A} (r : result (world K) A) : world K := match r with Done _ s => s | Wait s => s end.

Lemma wait_ok s c t id ev timeout tr :
  winv s → watched_by s tr → krunning (kern s) c t → events s !! id = Some ev →
  ∃ r, WaitEvent_Wait s c id timeout = Some r ∧ winv (after r) ∧ watched_by (after r) tr ∧
    match r with
    | Done o _ => o = (INTERRUPTED, None) ∨ o = (TIMED_OUT, None) ∨ signaled_ ev = true ∧ o = (result_ ev, Some (context_ ev))
    | Wait _ => signaled_ ev = false
    end.
Proof.
  intros Hi Hw Hrun Hid. pose proof Hi as (Hk & Hev & Hd). destruct (Hev id ev Hid) as (He & Ha & Hsig & Hres).
  unfold WaitEvent_Wait. rewrite Hid. cbn [mbind option_bind].
  assert (Hsame : mk_wait_event (signaled_ ev) (result_ ev) (context_ ev) (event_ ev) = ev) by by destruct ev.
  assert (Hwatch : ∀ k', watched_by (mk_world k' (events s) (observers s)) tr).
  { intros k'. split; [apply Hw|]. intros o Ho. exact (proj2 Hw o Ho). }
  destruct (event_wait_total (kern s) c t (event_ ev) timeout He Ha Hrun)
    as [(st & k' & E & Hk' & Hw' & Hq' & Hst)|(k' & E & Hns & Hch)]; rewrite E; cbn [mbind option_bind];
    rewrite Hsame, (insert_id _ _ _ Hid).
  - assert (Ho : ∃ o, wait_outcome ev st = Some o ∧ (o = (INTERRUPTED, None) ∨ o = (TIMED_OUT, None) ∨
      signaled_ ev = true ∧ o = (result_ ev, Some (context_ ev)))).
    { unfold wait_outcome. destruct Hst as [->|[->|[-> Hs]]]; cbn; [by eauto..|]. rewrite Hsig in Hs. pose proof (Hres Hs) as Hr.
      rewrite Hs, bool_decide_eq_true_2, Hr by (intros E'; by rewrite E' in Hr). eauto 10. }
    destruct Ho as (o & Eo & Ho). rewrite Eo. cbn [mbind option_bind]. eexists. split_and!; [done| |apply Hwatch|done].
    cbn [after]. apply winv_kern; [done|done| |done]. intros w. by rewrite Hw'.
  - eexists. split_and!; [done| |apply Hwatch|by rewrite <- Hsig]. cbn [after].
    destruct (interruptable_view (kern s) t true Hk) as (Hk1 & Hw1 & Hq1). destruct Hch as (Hk' & Hw' & _ & Hq').
    split_and!; [done| |done]. intros j evj Hj. destruct (Hev j evj Hj) as ((_ & Q & M & S) & A & G & R).
    split_and!; [|done..]. unfold einv. simpl in *. split_and!; [done|auto|done|]. intros Hx. rewrite Hw'. case_decide as Ew.
    + assert (j = id) as -> by (by eapply Hd). congruence.
    + rewrite Hw1. auto.
Qed.

Lemma resume_ok s c t id ev timeout tr :
  winv s → watched_by s tr → krunning (kern s) c t → events s !! id = Some ev →
  (kstatus (kern s) t = ERR_INTERRUPTED ∨ kstatus (kern s) t = ERR_TIMED_OUT ∨ kstatus (kern s) t = NO_ERROR ∧ signaled_ ev = true) →
  ∃ o s', WaitEvent_Wait_resume s t id timeout = Some (o, s') ∧ winv s' ∧ watched_by s' tr.
Proof.
  intros Hi Hw Hrun Hid Hst. pose proof Hi as (Hk & Hev & Hd). destruct (Hev id ev Hid) as (He & Ha & Hsig & Hres).
  unfold WaitEvent_Wait_resume, event_wait_resume.
  destruct (resume_law (kern s) c t (e_wait (event_ ev)) timeout Hk Hrun) as (k' & E & Hch). rewrite E. cbn [mbind option_bind].
  rewrite Hid. cbn [mbind option_bind].
  assert (Ho : ∃ o, wait_outcome ev (kstatus (kern s) t) = Some o).
  { unfold wait_outcome. destruct Hst as [->|[->|[-> Hs]]]; cbn; [by eauto..|]. pose proof (Hres Hs) as Hr.
    rewrite Hs, bool_decide_eq_true_2, Hr by (intros E'; by rewrite E' in Hr). eauto. }
  destruct Ho as (o & Eo). rewrite Eo. cbn [mbind option_bind]. eexists _, _. split_and!; [done| |by split; apply Hw].
  destruct Hch as (Hk' & Hw' & _ & Hq'). destruct (interruptable_view k' t false Hk') as (Hk2 & Hw2 & Hq2).
  apply winv_kern; [done|done| |auto]. intros w. rewrite Hw2, Hw'. case_decide; [by subst|done].
Qed.

(** ** The operations on one tracker *)

Inductive top :=
  | TBegin (c o event handle : nat) (watched ctx : Z)
  | TEnd (o : nat)
  | TUpdate (c : nat) (satisfied_set satisfied_clear satisfiable_set satisfiable_clear : Z)
  | TCancel (c handle : nat)
  | TWait (c t id : nat) (timeout : Z)
  | TResume (c t id : nat) (timeout : Z)
  | TEnv (k' : K).

Definition texec (s : world K) (tr : StateTracker) (op : top) : option (world K * StateTracker) :=
  match op with
  | TBegin c o event handle watched ctx =>
    '(_, s', tr') ← WaitStateObserver_Begin thread_yield s c o event handle watched ctx (Some tr); tr' ← tr'; Some (s', tr')
  | TEnd o => '(_, s', tr') ← WaitStateObserver_End s o tr; Some (s', tr')
  | TUpdate c a b d e => UpdateState s c tr a b d e
  | TCancel c handle => Cancel s c tr handle
  | TWait c t id timeout => r ← WaitEvent_Wait s c id timeout; Some (after r, tr)
  | TResume c t id timeout => '(_, s') ← WaitEvent_Wait_resume s t id timeout; Some (s', tr)
  | TEnv k' => Some (mk_world k' (events s) (observers s), tr)
  end.

(** An observer begins once, and its event exists; a thread returns from a wait
    with success only from an event that was signalled; the rest of the kernel may
    take threads off the queues. *)
Definition tenabled (s : world K) (tr : StateTracker) (op : top) : Prop :=
  match op with
  | TBegin c o event _ _ _ => kcurrent (kern s) c ∧ is_Some (events s !! event) ∧
      ∃ ob, observers s !! o = Some ob ∧ dispatcher_ ob = false
  | TEnd o => o ∈ observers_ tr
  | TUpdate c _ _ _ _ | TCancel c _ => kcurrent (kern s) c
  | TWait c t id _ => krunning (kern s) c t ∧ is_Some (events s !! id)
  | TResume c t id _ => krunning (kern s) c t ∧ ∃ ev, events s !! id = Some ev ∧
      (kstatus (kern s) t = ERR_INTERRUPTED ∨ kstatus (kern s) t = ERR_TIMED_OUT ∨ kstatus (kern s) t = NO_ERROR ∧ signaled_ ev = true)
  | TEnv k' => kok k' ∧ (∀ w, kwaiters k' w ⊆ kwaiters (kern s) w) ∧ ∀ w, kwq (kern s) w → kwq k' w
  end.

Lemma texec_ok s tr op :
  winv s → watched_by s tr → tenabled s tr op → ∃ s' tr', texec s tr op = Some (s', tr') ∧ winv s' ∧ watched_by s' tr'.
Proof.
  intros Hi Hw He. destruct op as [c o event handle watched ctx|o|c a b d e|c handle|c t id timeout|c t id timeout|k']; cbn [texec tenabled] in *.
  - destruct He as (Hc & [ev Hev] & ob & Hob & Hd).
    destruct (begin_ok s c o event handle watched ctx tr ob ev Hi Hc Hw Hob Hd Hev) as (r & s' & tr' & E & Hi' & Hw' & _).
    rewrite E. cbn [mbind option_bind]. eauto.
  - destruct (end_ok s o tr Hi Hw He) as (s' & tr' & E & Hi' & Hw'). rewrite E. cbn [mbind option_bind]. eauto.
  - destruct (update_ok s c tr a b d e Hi He Hw) as (s' & E & Hi' & Hw' & _). eauto.
  - destruct (cancel_ok s c tr handle Hi He Hw) as (s' & E & Hi' & Hw'). eauto.
  - destruct He as (Hrun & [ev Hev]). destruct (wait_ok s c t id ev timeout tr Hi Hw Hrun Hev) as (r & E & Hi' & Hw' & _).
    rewrite E. cbn [mbind option_bind]. eauto.
  - destruct He as (Hrun & ev & Hev & Hst). destruct (resume_ok s c t id ev timeout tr Hi Hw Hrun Hev Hst) as (o & s' & E & Hi' & Hw').
    rewrite E. cbn [mbind option_bind]. eauto.
  - destruct He as (Hk & Hsub & Hq). eexists _, _. split_and!; [done|by apply winv_kern|]. split; [apply Hw|]. intros o Ho. exact (proj2 Hw o Ho).
Qed.

Lemma no_waiter s tr o :
  winv s → watched_by s tr → o ∈ observers_ tr →
  ∃ ob ev, observers s !! o = Some ob ∧ events s !! wo_event ob = Some ev ∧
    (hit (signals_state_ tr) (watched_signals_ ob) = true → signaled_ ev = true ∧ kwaiters (kern s) (e_wait (event_ ev)) = []).
Proof.
  intros (_ & Hev & _) [_ Hw] Ho. destruct (Hw o Ho) as (ob & ev & Hob & _ & Hid & Hh). exists ob, ev. split_and!; [done|done|].
  intros Hx. specialize (Hh Hx). split; [done|]. destruct (Hev _ _ Hid) as ((_ & _ & _ & Hs) & _ & Hsig & _). apply Hs. cbn. congruence.
Qed.

End facts.

(** C16. No thread waits for a state its object has: every operation on a tracker,
    its observers and their wait events succeeds and leaves each observer whose
    watched signals are satisfied, or can no longer be satisfied, with its wait
    event signalled and no thread blocked on it. *)
Theorem tracker_no_missed_signal {K} `{WaitSpec K} (thread_yield : K → nat → option K) `{!YieldSpec K thread_yield} s tr op :
  winv s → watched_by s tr → tenabled thread_yield s tr op →
  ∃ s' tr', texec thread_yield s tr op = Some (s', tr') ∧ winv s' ∧ watched_by s' tr' ∧
    ∀ o, o ∈ observers_ tr' → ∃ ob ev, observers s' !! o = Some ob ∧ events s' !! wo_event ob = Some ev ∧
      (hit (signals_state_ tr') (watched_signals_ ob) = true →
       signaled_ ev = true ∧ kwaiters (kern s') (e_wait (event_ ev)) = []).
Proof.
  intros Hi Hw He. destruct (texec_ok thread_yield s tr op Hi Hw He) as (s' & tr' & E & Hi' & Hw'). exists s', tr'.
  split_and!; [done..|]. intros o. by apply no_waiter.
Qed.

(** ** The scheduler's [thread_yield] *)

Definition queues_kept (k k' : Sched.kstate) : Prop :=
  Sched.wqs k' = Sched.wqs k ∧ ∀ c, is_Some (Sched.current k !! c) → is_Some (Sched.current k' !! c).

Lemma top_loop_kept fuel c : ∀ k b t k', Sched.top_loop fuel k c b = Some (t, k') → queues_kept k k'.
Proof.
  induction fuel as [|fuel IH]; intros k b t k'; cbn [Sched.top_loop]; [done|]. destruct (b =? 0).
  - destruct (_ !! _); cbn [mbind option_bind]; [|done]. by intros [= <- <-].
  - destruct (Sched.run_queue k !! _); cbn [mbind option_bind]; [|done]. destruct (Sched.pick k c l) as [[[x l']|]|]; cbn [mbind option_bind];
      [by intros [= <- <-]|apply IH|done].
Qed.

Lemma get_top_kept k c t k' : Sched.get_top_thread k c = Some (t, k') → queues_kept k k'.
Proof. unfold Sched.get_top_thread. apply top_loop_kept. Qed.

Lemma resched_kept k c k' : Sched.thread_resched k c = Some k' → queues_kept k k'.
Proof.
  unfold Sched.thread_resched. destruct (Sched.current k !! c); cbn [mbind option_bind]; [|done].
  destruct (Sched.threads k !! n) as [oldr|]; cbn [mbind option_bind]; [|done]. destruct (negb _); [|done].
  destruct (Sched.get_top_thread k c) as [[new k1]|] eqn:E; cbn [mbind option_bind]; [|done]. destruct (get_top_kept _ _ _ _ E) as [Ew Ec]. clear E.
  destruct (Sched.threads k1 !! new) as [newr|]; cbn [mbind option_bind]; [|done]. case_bool_decide; [by intros [= <-]|].
  unfold Sched.switch_preempt_timer, Sched.switch_mp, Sched.preempt_timer_set.
  repeat match goal with |- context [if ?b then _ else _] => destruct b; cbn [mbind option_bind] end; intros [= <-];
    (split; [exact Ew|]; intros c' Hc'; cbn; apply Ec in Hc'; destruct (decide (c = c')) as [<-|]; [by rewrite lookup_insert_eq|by rewrite lookup_insert_ne]).
Qed.

Lemma yield_kept k c k' : Sched.thread_yield k c = Some k' → queues_kept k k'.
Proof.
  unfold Sched.thread_yield. destruct (Sched.current k !! c) as [t|]; cbn [mbind option_bind]; [|done].
  destruct (Sched.threads k !! t) as [r|]; cbn [mbind option_bind]; [|done]. destruct (_ && _)%bool; [|done].
  destruct (Sched.thread_is_idle r); cbn [mbind option_bind]; [intros E; exact (resched_kept _ _ _ E)|].
  unfold Sched.insert_in_run_queue_tail, Sched.insert_in_run_queue.
  destruct (Sched.threads _ !! t) as [r'|]; cbn [mbind option_bind]; [|done]. destruct (_ && _)%bool; [|done].
  destruct (Sched.run_queue _ !! _); cbn [mbind option_bind]; [|done]. intros E. exact (resched_kept _ _ _ E).
Qed.

Lemma wake_loop_current w err l : ∀ k k', Sched.wake_loop k w l err = Some k' → Sched.current k' = Sched.current k.
Proof.
  induction l as [|t l IH]; intros k k'; cbn [Sched.wake_loop]; [by intros [= <-]|].
  destruct (Sched.wqs k !! w); cbn [mbind option_bind]; [|done]. destruct (_ !! t); cbn [mbind option_bind]; [|done].
  destruct (Sched.has_state _ _); [|done]. destruct (Sched.insert_in_run_queue_head _ t) as [k2|] eqn:E; cbn [mbind option_bind]; [|done].
  intros Hl. rewrite (IH _ _ Hl). by destruct (SchedFacts.insert_frame true _ _ _ E) as (_ & -> & _).
Qed.

#[global] Instance sched_yield_spec : YieldSpec Sched.kstate Sched.thread_yield.
Proof.
  refine {| kcurrent k c := is_Some (Sched.current k !! c) |}.
  - intros k c Hk [t Ht]. destruct (SchedFacts.thread_yield_ok k c t Hk Ht) as (k' & E & Hk'). exists k'. split; [done|].
    destruct (yield_kept _ _ _ E) as [Ew Ec]. cbn. unfold SchedFacts.waiters, SchedFacts.wq_ok. rewrite Ew. done.
  - intros k c w err n k' c' Hc. cbn. unfold Sched.wait_queue_wake_all. destruct (Sched.wqs k !! w) as [q|]; cbn [mbind option_bind]; [|done].
    destruct (_ =? _); [|done]. cbn [andb]. cbn [mbind option_bind]. destruct (Sched.wake_loop k w (Sched.wq_list q) err) as [k2|] eqn:E; cbn [mbind option_bind]; [|done].
    destruct (Sched.wqs k2 !! w); cbn [mbind option_bind]; [|done]. destruct (_ =? _); [|done]. rewrite andb_false_r. cbn [mbind option_bind].
    intros [= _ <-]. by rewrite (wake_loop_current _ _ _ _ _ E).
  - intros k c t [Hc _]. by exists t.
Defined.

(** ** Witness: a thread's observer waits for an object to become readable *)

Definition ex_world : world Sched.kstate :=
  let '(ev, k) := new_wait_event SyncSched.ex_three 210 in
  mk_world k {[1%nat := ev]} {[1%nat := mk_observer 1 7 MX_SIGNAL_READABLE 42 true]}.

Definition ex_tracker : StateTracker :=
  mk_tracker true [1%nat] (mk_signals MX_SIGNAL_WRITABLE (Z.lor MX_SIGNAL_READABLE MX_SIGNAL_WRITABLE)).

Lemma ex_world_kinv : SchedFacts.kinv (kern ex_world).
Proof. apply (SyncSched.kinv_wq_init SyncSched.ex_three 210); [apply SyncSched.ex_three_kinv|vm_compute; reflexivity]. Qed.

Lemma ex_world_inv : winv ex_world.
Proof.
  split; [apply ex_world_kinv|]. unfold ex_world. cbn [events new_wait_event event_init]. split.
  - intros id ev [<- <-]%lookup_singleton_Some. split_and!; [|reflexivity|reflexivity|done].
    split_and!; [apply ex_world_kinv|eexists; split; vm_compute; reflexivity|reflexivity|done].
  - intros i j ev1 ev2 [<- _]%lookup_singleton_Some [<- _]%lookup_singleton_Some. done.
Qed.

Lemma ex_watched : watched_by ex_world ex_tracker.
Proof.
  split; [apply NoDup_singleton|]. intros o Ho. apply list_elem_of_singleton in Ho as ->. unfold ex_world, observing.
  cbn [events observers new_wait_event event_init]. eexists _, _. rewrite !lookup_singleton_eq. split_and!; [done|done|done|]. vm_compute. done.
Qed.

Lemma tracker_no_missed_signal_witness : ∃ s' tr' ev,
  texec Sched.thread_yield ex_world ex_tracker (TUpdate 0 MX_SIGNAL_READABLE 0 0 0) = Some (s', tr') ∧
  events s' !! 1%nat = Some ev ∧ signaled_ ev = true ∧ SchedFacts.waiters (kern s') 210 = [].
Proof.
  destruct (tracker_no_missed_signal Sched.thread_yield ex_world ex_tracker (TUpdate 0 MX_SIGNAL_READABLE 0 0 0))
    as (s' & tr' & E & _ & _ & Hall); [apply ex_world_inv|apply ex_watched|vm_compute; eauto|].
  exists s', tr'. vm_compute in E. injection E as <- <-. destruct (Hall 1%nat) as (ob & ev & Hob & Hev & Hh); [set_solver|].
  injection Hob as <-. exists ev. specialize (Hh eq_refl). injection Hev as <-. split_and!; [vm_compute; reflexivity|reflexivity|apply Hh|apply Hh].
Defined.

End StateTrackerFacts.
