(* ===== verification/MsgPipe.v ===== *)
(** * Message pipes

    [src/kernel/lib/magenta/{msg_pipe,msg_pipe_dispatcher}.cpp].  A pipe has two
    sides, each with the list of the messages sent to it and a state tracker; a
    dispatcher is one side as a kernel object, with the message that a read has
    taken off the list and not yet accepted.  A side is a boolean, [false] for 0.
    The destruction of a message deletes its handles; the operations that destroy
    messages return the handles that are deleted.  The observers are any store with
    the interface of [StateTracker]. *)

From stdpp Require Import base tactics numbers list.
From Stdlib Require Import ZArith.
From S2P Require Import Prelude Sync StateTracker.
#[local] Open Scope Z_scope.

Module MsgPipe.
Import StateTracker.

Definition MX_FLAG_REPLY_PIPE : Z := 1.
Definition kDefaultPipeRights : Z := Z.lor (Z.lor 2 4) 8.

Record MessagePacket := mk_packet { data : list Z; handles : list nat }.

(** One side of [MessagePipe]: entries of its three arrays. *)
Record pipe_end := mk_end { dispatcher_alive_ : bool; messages_ : list MessagePacket; state_tracker_ : StateTracker }.

Record MessagePipe := mk_pipe { end0 : pipe_end; end1 : pipe_end }.

Definition other_side (side : bool) : bool := negb side.

Definition get_end (p : MessagePipe) (side : bool) : pipe_end := if side then end1 p else end0 p.
Definition set_end (p : MessagePipe) (side : bool) (e : pipe_end) : MessagePipe :=
  if side then mk_pipe (end0 p) e else mk_pipe e (end1 p).

Definition initial_signals : mx_signals_state :=
  mk_signals MX_SIGNAL_WRITABLE (Z.lor (Z.lor MX_SIGNAL_READABLE MX_SIGNAL_WRITABLE) MX_SIGNAL_PEER_CLOSED).

Definition new_pipe : MessagePipe :=
  let e := mk_end true [] (mk_tracker true [] initial_signals) in mk_pipe e e.

Section pipe.
Context {S : Type} `{StateObserver S}.

Definition OnDispatcherDestruction (s : S) (c : nat) (p : MessagePipe) (side : bool) : option (S * MessagePipe * list nat) :=
  let other := other_side side in
  let e := get_end p side in
  let p1 := set_end p side (mk_end false [] (state_tracker_ e)) in
  let o := get_end p1 other in
  '(s1, p2) ←
    (if dispatcher_alive_ o then
       let other_satisfiable_clear :=
         match messages_ o with [] => Z.lor MX_SIGNAL_WRITABLE MX_SIGNAL_READABLE | _ => MX_SIGNAL_WRITABLE end in
       '(s1, tr) ← UpdateState s c (state_tracker_ o) MX_SIGNAL_PEER_CLOSED MX_SIGNAL_WRITABLE 0 other_satisfiable_clear;
       Some (s1, set_end p1 other (mk_end (dispatcher_alive_ o) (messages_ o) tr))
     else Some (s, p1));
  Some (s1, p2, concat (handles <$> messages_ e)).

Definition Read (s : S) (c : nat) (p : MessagePipe) (side : bool) : option (Z * option MessagePacket * S * MessagePipe) :=
  let e := get_end p side in
  let other_alive := dispatcher_alive_ (get_end p (other_side side)) in
  let msg := list.head (messages_ e) in
  let rest := tail (messages_ e) in
  '(s1, tr) ←
    (match rest with
     | [] => UpdateState s c (state_tracker_ e) 0 MX_SIGNAL_READABLE 0 (if negb other_alive then MX_SIGNAL_READABLE else 0)
     | _ => Some (s, state_tracker_ e)
     end);
  let status := if msg then NO_ERROR else if other_alive then ERR_BAD_STATE else ERR_CHANNEL_CLOSED in
  Some (status, msg, s1, set_end p side (mk_end (dispatcher_alive_ e) rest tr)).

Definition Write (s : S) (c : nat) (p : MessagePipe) (side : bool) (msg : MessagePacket) : option (Z * S * MessagePipe) :=
  let o := get_end p (other_side side) in
  if negb (dispatcher_alive_ o) then Some (ERR_BAD_STATE, s, p) else
  '(s1, tr) ← UpdateSatisfied s c (state_tracker_ o) MX_SIGNAL_READABLE 0;
  Some (NO_ERROR, s1, set_end p (other_side side) (mk_end (dispatcher_alive_ o) (messages_ o ++ [msg]) tr)).

(** ** Dispatchers *)

Record MessagePipeDispatcher := mk_dispatcher { side_ : bool; flags_ : Z; pending_ : option MessagePacket }.

Definition is_reply_pipe (d : MessagePipeDispatcher) : bool := negb (Z.land (flags_ d) MX_FLAG_REPLY_PIPE =? 0).

Definition Create (m : mem) (flags : Z) : Z * option (MessagePipe * MessagePipeDispatcher * MessagePipeDispatcher * Z) * mem :=
  let '(ok, m1) := alloc m in
  if negb ok then (ERR_NO_MEMORY, None, m1) else
  let '(ok0, m2) := alloc m1 in
  if negb ok0 then (ERR_NO_MEMORY, None, m2) else
  let '(ok1, m3) := alloc m2 in
  if negb ok1 then (ERR_NO_MEMORY, None, m3) else
  (NO_ERROR, Some (new_pipe, mk_dispatcher false (Z.ldiff flags MX_FLAG_REPLY_PIPE) None, mk_dispatcher true flags None,
                   kDefaultPipeRights), m3).

(** The destructor, and that of [pending_]. *)
Definition destroy_dispatcher (s : S) (c : nat) (p : MessagePipe) (d : MessagePipeDispatcher) : option (S * MessagePipe * list nat) :=
  '(s1, p1, deleted) ← OnDispatcherDestruction s c p (side_ d);
  Some (s1, p1, deleted ++ match pending_ d with Some msg => handles msg | None => [] end).

(** The status and, on success, the size and the number of handles. *)
Definition BeginRead (s : S) (c : nat) (p : MessagePipe) (d : MessagePipeDispatcher)
  : option (Z * option (Z * Z) * S * MessagePipe * MessagePipeDispatcher) :=
  '(result, pend, s1, p1) ←
    (match pending_ d with
     | Some msg => Some (NO_ERROR, Some msg, s, p)
     | None => Read s c p (side_ d)
     end);
  let d1 := mk_dispatcher (side_ d) (flags_ d) pend in
  if result =? NO_ERROR then
    msg ← pend; Some (result, Some (u32 (zlen (data msg)), u32 (zlen (handles msg))), s1, p1, d1)
  else Some (result, None, s1, p1, d1).

Definition AcceptRead (d : MessagePipeDispatcher) : Z * option MessagePacket * MessagePipeDispatcher :=
  let d1 := mk_dispatcher (side_ d) (flags_ d) None in
  match pending_ d with None => (ERR_BAD_STATE, None, d1) | Some msg => (NO_ERROR, Some msg, d1) end.

Definition DispatcherWrite (s : S) (c : nat) (m : mem) (p : MessagePipe) (d : MessagePipeDispatcher) (dat : list Z) (hs : list nat)
  : option (Z * S * MessagePipe * mem) :=
  let '(ok, m1) := alloc m in
  if negb ok then Some (ERR_NO_MEMORY, s, p, m1) else
  '(r, s1, p1) ← Write s c p (side_ d) (mk_packet dat hs); Some (r, s1, p1, m1).

End pipe.
End MsgPipe.
