(* ===== verification/MsgPipeFacts.v ===== *)
(** * Delivery and signals of message pipes

    A pipe with its two dispatchers and the history of what was sent to and
    accepted by each side.  Whatever the order of the calls, each side accepts the
    messages of the other in the order they were written, none lost, and the
    signals of a side say exactly whether its list has a message and whether its
    peer is there.  The observers are any store that keeps [TrackerSpec]. *)

From stdpp Require Import base tactics numbers list sets.
From Stdlib Require Import ZArith Lia.
From S2P Require Import Prelude Sched SchedFacts Sync SyncFacts SyncSched StateTracker StateTrackerFacts MsgPipe.
#[local] Open Scope Z_scope.

Module MsgPipeFacts.
Import StateTracker MsgPipe.

Inductive pop :=
  | OWrite (side : bool) (m : mem) (dat : list Z) (hs : list nat)
  | OBegin (side : bool)
  | OAccept (side : bool)
  | ODestroy (side : bool).

(** The answers: a status, with a size and a number of handles or a message where
    the call has them. *)
Inductive panswer := Status (r : Z) | Sizes (n h : Z) | Message (m : MessagePacket).

Section pipes.
Context {S : Type} `{TrackerSpec S}.

(** The store, the pipe, the dispatchers that exist and, for each side, the
    messages written to it and those its reads accepted. *)
Record channel := mk_channel {
  store : S; pipe : MessagePipe; disp : bool → option MessagePipeDispatcher;
  sent : bool → list MessagePacket; accepted : bool → list MessagePacket }.

Definition fset {A} (f : bool → A) (x : bool) (a : A) : bool → A := λ y, if Bool.eqb y x then a else f y.

Definition exec (ch : channel) (c : nat) (op : pop) : option (panswer * channel) :=
  match op with
  | OWrite side m dat hs =>
    d ← disp ch side;
    r ← DispatcherWrite (store ch) c m (pipe ch) d dat hs;
    let '(st, s1, p1, _) := (r : Z * S * MessagePipe * mem) in
    let to := other_side side in
    Some (Status st, mk_channel s1 p1 (disp ch)
      (if st =? NO_ERROR then fset (sent ch) to (sent ch to ++ [mk_packet dat hs]) else sent ch) (accepted ch))
  | OBegin side =>
    d ← disp ch side;
    r ← BeginRead (store ch) c (pipe ch) d;
    let '(st, sizes, s1, p1, d1) := (r : Z * option (Z * Z) * S * MessagePipe * MessagePipeDispatcher) in
    Some (match sizes with Some (n, h) => Sizes n h | None => Status st end,
          mk_channel s1 p1 (fset (disp ch) side (Some d1)) (sent ch) (accepted ch))
  | OAccept side =>
    d ← disp ch side;
    let '(st, msg, d1) := AcceptRead d in
    Some (match msg with Some m => Message m | None => Status st end,
          mk_channel (store ch) (pipe ch) (fset (disp ch) side (Some d1)) (sent ch)
            (match msg with Some m => fset (accepted ch) side (accepted ch side ++ [m]) | None => accepted ch end))
  | ODestroy side =>
    d ← disp ch side;
    r ← destroy_dispatcher (store ch) c (pipe ch) d;
    let '(s1, p1, _) := (r : S * MessagePipe * list nat) in
    Some (Status NO_ERROR, mk_channel s1 p1 (fset (disp ch) side None) (sent ch) (accepted ch))
  end.

Definition op_side (op : pop) : bool :=
  match op with OWrite x _ _ _ | OBegin x | OAccept x | ODestroy x => x end.

(** The signals of a side, from whether its peer is there and its list empty. *)
Definition side_signals (peer empty : bool) : mx_signals_state :=
  mk_signals (Z.lor (if empty then 0 else MX_SIGNAL_READABLE) (if peer then MX_SIGNAL_WRITABLE else MX_SIGNAL_PEER_CLOSED))
    (Z.lor (Z.lor (if empty && negb peer then 0 else MX_SIGNAL_READABLE) (if peer then MX_SIGNAL_WRITABLE else 0)) MX_SIGNAL_PEER_CLOSED).

Definition is_nil {A} (l : list A) : bool := match l with [] => true | _ => false end.

Definition pending_list (d : MessagePipeDispatcher) : list MessagePacket := match pending_ d with Some m => [m] | None => [] end.

Definition end_ok (ch : channel) (x : bool) : Prop :=
  let e := get_end (pipe ch) x in
  watching (store ch) (state_tracker_ e) ∧
  match disp ch x with
  | None => dispatcher_alive_ e = false
  | Some d => dispatcher_alive_ e = true ∧ side_ d = x ∧
      signals_state_ (state_tracker_ e) = side_signals (dispatcher_alive_ (get_end (pipe ch) (other_side x))) (is_nil (messages_ e)) ∧
      accepted ch x ++ pending_list d ++ messages_ e = sent ch x
  end.

Definition pinv (ch : channel) (c : nat) : Prop := sok (store ch) c ∧ ∀ x, end_ok ch x.

(** What a call answers, by the messages that wait for the caller. *)
Definition answer (ch : channel) (op : pop) : panswer :=
  let x := op_side op in
  let peer := bool_decide (is_Some (disp ch (other_side x))) in
  let pend := match disp ch x with Some d => pending_list d | None => [] end in
  match op with
  | OWrite _ m _ _ => Status (if (alloc m).1 then if peer then NO_ERROR else ERR_BAD_STATE else ERR_NO_MEMORY)
  | OBegin _ =>
    match pend ++ messages_ (get_end (pipe ch) x) with
    | [] => Status (if peer then ERR_BAD_STATE else ERR_CHANNEL_CLOSED)
    | msg :: _ => Sizes (u32 (zlen (data msg))) (u32 (zlen (handles msg)))
    end
  | OAccept _ => match pend with [] => Status ERR_BAD_STATE | msg :: _ => Message msg end
  | ODestroy _ => Status NO_ERROR
  end.

Lemma get_set p x y e : get_end (set_end p x e) y = if Bool.eqb y x then e else get_end p y.
Proof. by destruct x, y. Qed.

Lemma fset_eq {A} (f : bool → A) x a : fset f x a x = a.
Proof. unfold fset. by rewrite Bool.eqb_reflx. Qed.

Lemma fset_other {A} (f : bool → A) x a : fset f x a (other_side x) = f (other_side x).
Proof. by destruct x. Qed.

(** A property of both sides, from one side and its peer. *)
Lemma both_sides (P : bool → Prop) x : P x → P (other_side x) → ∀ y, P y.
Proof. intros H1 H2 y. by destruct x, y. Qed.

Lemma other_other x : other_side (other_side x) = x.
Proof. by destruct x. Qed.

Lemma eqb_other x : Bool.eqb (other_side x) x = false.
Proof. by destruct x. Qed.

Lemma alive_disp ch c x : pinv ch c → dispatcher_alive_ (get_end (pipe ch) x) = bool_decide (is_Some (disp ch x)).
Proof.
  intros [_ Hi]. destruct (Hi x) as [_ Hx]. destruct (disp ch x).
  - rewrite bool_decide_eq_true_2 by done. tauto.
  - rewrite bool_decide_eq_false_2 by by intros []. done.
Qed.

Lemma eqb_side x : Bool.eqb x (other_side x) = false.
Proof. by destruct x. Qed.

(** The effect of the updates on the signals. *)
Lemma signals_write empty : update (side_signals true empty) MX_SIGNAL_READABLE 0 0 0 = side_signals true false.
Proof. by destruct empty. Qed.

Lemma signals_drained peer empty :
  update (side_signals peer empty) 0 MX_SIGNAL_READABLE 0 (if negb peer then MX_SIGNAL_READABLE else 0) = side_signals peer true.
Proof. by destruct peer, empty. Qed.

Lemma signals_closed empty :
  update (side_signals true empty) MX_SIGNAL_PEER_CLOSED MX_SIGNAL_WRITABLE 0
    (if empty then Z.lor MX_SIGNAL_WRITABLE MX_SIGNAL_READABLE else MX_SIGNAL_WRITABLE) = side_signals false empty.
Proof. by destruct empty. Qed.

Lemma pipe_write_ok ch c x d m dat hs :
  pinv ch c → disp ch x = Some d →
  ∃ ch', exec ch c (OWrite x m dat hs) = Some (answer ch (OWrite x m dat hs), ch') ∧ pinv ch' c.
Proof.
  intros Hi Hd. pose proof (alive_disp ch c (other_side x) Hi) as Ha. pose proof Hi as [Hs He].
  destruct (He x) as [Wx Hx]. rewrite Hd in Hx. destruct Hx as (Hax & Hsx & Hgx & Hlx).
  cbn [exec answer op_side]. rewrite Hd. cbn [mbind option_bind]. unfold DispatcherWrite. destruct (alloc m) as [ok m1]. cbn [fst].
  destruct ok; cbn [negb mbind option_bind]; [|by exists ch; destruct ch]. unfold Write. rewrite Hsx.
  destruct (He (other_side x)) as [Wo Ho]. rewrite Ha. destruct (disp ch (other_side x)) as [d'|] eqn:Hd'.
  2:{ rewrite bool_decide_eq_false_2 by by intros []. cbn. by exists ch; destruct ch. }
  rewrite bool_decide_eq_true_2 in Ha |- * by done. cbn [negb]. destruct Ho as (Hao & Hso & Hgo & Hlo).
  unfold UpdateSatisfied. set (o := get_end (pipe ch) (other_side x)) in *.
  destruct (update_law (store ch) c (state_tracker_ o) MX_SIGNAL_READABLE 0 0 0 Hs Wo) as (s' & E & Hs' & Hw' & Hk).
  rewrite E. cbn [mbind option_bind]. eexists. split; [done|]. split; [done|]. apply (both_sides _ x).
  - unfold end_ok. cbn. rewrite !get_set, eqb_side, Bool.eqb_reflx, Hd. split; [by apply Hk|]. cbn.
    split_and!; [done|done|by rewrite Hgx, Ha|]. unfold fset. by rewrite eqb_side.
  - unfold end_ok. cbn. rewrite !get_set, Bool.eqb_reflx, other_other, Hd', fset_eq. split; [done|].
    rewrite eqb_side. cbn. split_and!; [done|done| |].
    + rewrite Hgo, other_other, Hax, signals_write. by destruct (messages_ o).
    + rewrite <- Hlo, <- !app_assoc. done.
Qed.

Lemma read_ok ch c x :
  pinv ch c → is_Some (disp ch x) →
  let e := get_end (pipe ch) x in
  let peer := bool_decide (is_Some (disp ch (other_side x))) in
  ∃ s' tr, Read (store ch) c (pipe ch) x =
      Some (match messages_ e with [] => if peer then ERR_BAD_STATE else ERR_CHANNEL_CLOSED | _ => NO_ERROR end,
            list.head (messages_ e), s', set_end (pipe ch) x (mk_end true (tail (messages_ e)) tr)) ∧
    sok s' c ∧ watching s' tr ∧ signals_state_ tr = side_signals peer (is_nil (tail (messages_ e))) ∧
    ∀ tr2, watching (store ch) tr2 → watching s' tr2.
Proof.
  intros Hi [d Hd] e peer. pose proof (alive_disp ch c (other_side x) Hi) as Ha. pose proof Hi as [Hs He].
  destruct (He x) as [Wx Hx]. rewrite Hd in Hx. destruct Hx as (Hax & Hsx & Hgx & _). fold e in Wx, Hax, Hgx.
  unfold Read. fold e. rewrite Ha. fold peer. rewrite Ha in Hgx. fold peer in Hgx.
  assert (Est : (if list.head (messages_ e) then NO_ERROR else if peer then ERR_BAD_STATE else ERR_CHANNEL_CLOSED)
    = match messages_ e with [] => if peer then ERR_BAD_STATE else ERR_CHANNEL_CLOSED | _ => NO_ERROR end) by by destruct (messages_ e).
  destruct (tail (messages_ e)) as [|m2 rest] eqn:Et.
  - destruct (update_law (store ch) c (state_tracker_ e) 0 MX_SIGNAL_READABLE 0 (if negb peer then MX_SIGNAL_READABLE else 0) Hs Wx) as (s' & E & Hs' & Hw' & Hk).
    rewrite E. cbn [mbind option_bind]. rewrite Hax, Est. eexists s', _. split; [done|]. split_and!; [done|done| |done].
    cbn. rewrite Hgx. apply signals_drained.
  - cbn [mbind option_bind]. rewrite Hax, Est. eexists (store ch), _. split; [done|]. split_and!; [done|done| |done].
    rewrite Hgx. by destruct (messages_ e).
Qed.

Lemma read_begin_ok ch c x d :
  pinv ch c → disp ch x = Some d →
  ∃ ch', exec ch c (OBegin x) = Some (answer ch (OBegin x), ch') ∧ pinv ch' c.
Proof.
  intros Hi Hd. pose proof Hi as [Hs He]. destruct (He x) as [Wx Hx]. rewrite Hd in Hx. destruct Hx as (Hax & Hsx & Hgx & Hlx).
  cbn [exec answer op_side]. rewrite Hd. cbn [mbind option_bind]. unfold BeginRead. unfold pending_list in *.
  destruct (pending_ d) as [msg|] eqn:Ep.
  - cbn. eexists. split; [done|]. split; [done|]. apply (both_sides _ x).
    + unfold end_ok. cbn. rewrite fset_eq. split; [done|]. unfold pending_list. cbn. split_and!; done.
    + unfold end_ok. cbn. rewrite fset_other. exact (He (other_side x)).
  - destruct (read_ok ch c x Hi) as (s' & tr & E & Hs' & Hw & Hg & Hk); [by rewrite Hd|]. rewrite Hsx, E. cbn [mbind option_bind].
    set (e := get_end (pipe ch) x) in *. set (peer := bool_decide _) in *.
    assert (Hinv : ∀ pend, pend = list.head (messages_ e) → pinv (mk_channel s' (set_end (pipe ch) x (mk_end true (tail (messages_ e)) tr))
      (fset (disp ch) x (Some (mk_dispatcher x (flags_ d) pend))) (sent ch) (accepted ch)) c).
    { intros pend ->. split; [done|]. apply (both_sides _ x).
      - unfold end_ok. cbn. rewrite fset_eq, !get_set, Bool.eqb_reflx, eqb_other. cbn. split; [done|]. split_and!; [done|done| |].
        + rewrite Hg. unfold peer. by rewrite <- (alive_disp ch c (other_side x) Hi).
        + rewrite <- Hlx. unfold pending_list. cbn. by destruct (messages_ e).
      - destruct (He (other_side x)) as [Wo Ho]. unfold end_ok. cbn. rewrite fset_other, !get_set, eqb_other, other_other, Bool.eqb_reflx.
        split; [by apply Hk|]. destruct (disp ch (other_side x)); [|done]. cbn. rewrite other_other in Ho. fold e in Ho. by rewrite Hax in Ho. }
    cbn [app]. destruct (messages_ e) as [|msg l] eqn:Em; cbn [list.head].
    + assert (Hne : ((if peer then ERR_BAD_STATE else ERR_CHANNEL_CLOSED) =? NO_ERROR) = false) by by destruct peer.
      rewrite Hne. cbn. eexists. split; [done|]. by apply Hinv.
    + cbn. eexists. split; [done|]. by apply Hinv.
Qed.

Lemma accept_ok ch c x d :
  pinv ch c → disp ch x = Some d →
  ∃ ch', exec ch c (OAccept x) = Some (answer ch (OAccept x), ch') ∧ pinv ch' c.
Proof.
  intros Hi Hd. pose proof Hi as [Hs He]. destruct (He x) as [Wx Hx]. rewrite Hd in Hx. destruct Hx as (Hax & Hsx & Hgx & Hlx).
  cbn [exec answer op_side]. rewrite Hd. cbn [mbind option_bind]. unfold AcceptRead, pending_list in *.
  destruct (pending_ d) as [msg|] eqn:Ep; (eexists; split; [done|]; split; [done|]; apply (both_sides _ x); unfold end_ok; cbn).
  - rewrite !fset_eq. split; [done|]. cbn. split_and!; [done|done|done|]. by rewrite <- Hlx, <- app_assoc.
  - rewrite !fset_other. exact (He (other_side x)).
  - rewrite fset_eq. split; [done|]. cbn. split_and!; done.
  - rewrite fset_other. exact (He (other_side x)).
Qed.

Lemma destroy_ok ch c x d :
  pinv ch c → disp ch x = Some d →
  ∃ ch', exec ch c (ODestroy x) = Some (answer ch (ODestroy x), ch') ∧ pinv ch' c.
Proof.
  intros Hi Hd. pose proof (alive_disp ch c (other_side x) Hi) as Ha. pose proof Hi as [Hs He].
  destruct (He x) as [Wx Hx]. rewrite Hd in Hx. destruct Hx as (Hax & Hsx & _ & _).
  cbn [exec answer op_side]. rewrite Hd. cbn [mbind option_bind]. unfold destroy_dispatcher, OnDispatcherDestruction.
  rewrite Hsx, get_set, eqb_other. destruct (He (other_side x)) as [Wo Ho]. set (o := get_end (pipe ch) (other_side x)) in *.
  destruct (disp ch (other_side x)) as [d'|] eqn:Hd'.
  - destruct Ho as (Hao & Hso & Hgo & Hlo). rewrite other_other, Hax in Hgo. rewrite Hao.
    assert (Ec : match messages_ o with [] => Z.lor MX_SIGNAL_WRITABLE MX_SIGNAL_READABLE | _ => MX_SIGNAL_WRITABLE end
      = if is_nil (messages_ o) then Z.lor MX_SIGNAL_WRITABLE MX_SIGNAL_READABLE else MX_SIGNAL_WRITABLE) by by destruct (messages_ o).
    rewrite Ec. destruct (update_law (store ch) c (state_tracker_ o) MX_SIGNAL_PEER_CLOSED MX_SIGNAL_WRITABLE 0
      (if is_nil (messages_ o) then Z.lor MX_SIGNAL_WRITABLE MX_SIGNAL_READABLE else MX_SIGNAL_WRITABLE) Hs Wo) as (s' & E & Hs' & Hw' & Hk).
    rewrite E. cbn [mbind option_bind]. eexists. split; [done|]. split; [done|]. apply (both_sides _ x); unfold end_ok; cbn.
    + rewrite fset_eq, !get_set, Bool.eqb_reflx. rewrite ?eqb_side. split; [by apply Hk|done].
    + rewrite fset_other, Hd', !get_set, other_other, !Bool.eqb_reflx. rewrite ?eqb_side.
      split; [done|]. cbn. split_and!; [done|done| |done]. by rewrite Hgo, signals_closed.
  - rewrite Ho. cbn [mbind option_bind]. eexists. split; [done|]. split; [done|]. apply (both_sides _ x); unfold end_ok; cbn.
    + rewrite fset_eq, !get_set, Bool.eqb_reflx. split; done.
    + rewrite fset_other, Hd', !get_set, eqb_other. split; done.
Qed.

End pipes.

(** C17. A message pipe delivers: every call on a dispatcher that exists succeeds or
    answers with the status its messages and its peer call for, and keeps, for
    each side, that the messages it accepted, the one a read has taken and those
    on its list are, in order, the messages written to it, and that its signals are
    readable exactly when its list has a message, writable exactly when its peer
    exists, and can become readable as long as either holds. *)
Theorem msg_pipe_delivers {S} `{TrackerSpec S} ch c op :
  pinv ch c → is_Some (disp ch (op_side op)) →
  ∃ ch', exec ch c op = Some (answer ch op, ch') ∧ pinv ch' c.
Proof.
  intros Hi [d Hd]. destruct op; cbn [op_side] in Hd; eauto using pipe_write_ok, read_begin_ok, accept_ok, destroy_ok.
Qed.

(** A read that is begun and not accepted hides its message from waiters: when
    it takes the only message of its side, the side is no longer readable, and, if
    the peer is gone, can no longer become so, although the next read returns the
    message. *)
Theorem msg_pipe_begin_hides_message {S} `{TrackerSpec S} ch c x d msg :
  pinv ch c → disp ch x = Some d → pending_ d = None → messages_ (get_end (pipe ch) x) = [msg] →
  ∃ ch', exec ch c (OBegin x) = Some (Sizes (u32 (zlen (data msg))) (u32 (zlen (handles msg))), ch') ∧
    answer ch' (OBegin x) = Sizes (u32 (zlen (data msg))) (u32 (zlen (handles msg))) ∧
    let st := signals_state_ (state_tracker_ (get_end (pipe ch') x)) in
    Z.land (satisfied st) MX_SIGNAL_READABLE = 0 ∧
    (disp ch (other_side x) = None → Z.land (satisfiable st) MX_SIGNAL_READABLE = 0).
Proof.
  intros Hi Hd Hp Hm. destruct (read_ok ch c x Hi ltac:(by rewrite Hd)) as (s' & tr & E & _ & _ & Hg & _). rewrite Hm in E, Hg.
  pose proof Hi as [_ He]. destruct (He x) as [_ Hx]. rewrite Hd in Hx. destruct Hx as (_ & Hsx & _). cbn [list.head tail] in E.
  assert (Eb : exec ch c (OBegin x) = Some (Sizes (u32 (zlen (data msg))) (u32 (zlen (handles msg))),
    mk_channel s' (set_end (pipe ch) x (mk_end true [] tr)) (fset (disp ch) x (Some (mk_dispatcher x (flags_ d) (Some msg)))) (sent ch) (accepted ch))).
  { cbn [exec]. rewrite Hd. cbn [mbind option_bind]. unfold BeginRead. rewrite Hp, Hsx, E. done. }
  eexists. split; [exact Eb|]. cbn [answer op_side disp pipe pending_list pending_]. rewrite fset_eq, get_set, Bool.eqb_reflx.
  cbn [state_tracker_]. rewrite Hg. split; [done|]. split; [by destruct (bool_decide _)|]. intros Hn.
  rewrite Hn, bool_decide_eq_false_2 by by intros []. done.
Qed.

(** ** Witnesses *)

Section witness.
#[local] Instance ex_observer : StateObserver (world Sched.kstate) := wait_state_observer Sched.thread_yield.
#[local] Instance ex_spec : TrackerSpec (world Sched.kstate) := StateTrackerFacts.wait_tracker_spec Sched.thread_yield.

Definition ex_dispatcher (x : bool) : MessagePipeDispatcher := mk_dispatcher x 0 None.

(** A new pipe, and one whose side 1 sent [5; 6] to side 0. *)
Definition ex_channel : channel := mk_channel StateTrackerFacts.ex_world new_pipe (λ x, Some (ex_dispatcher x)) (λ _, []) (λ _, []).

Definition ex_sent : channel :=
  let msg := mk_packet [5; 6] [] in
  mk_channel StateTrackerFacts.ex_world
    (mk_pipe (mk_end true [msg] (mk_tracker true [] (side_signals true false))) (mk_end true [] (mk_tracker true [] (side_signals true true))))
    (λ x, Some (ex_dispatcher x)) (λ x, if x then [] else [msg]) (λ _, []).

Lemma ex_store_ok : sok StateTrackerFacts.ex_world 0.
Proof. split; [apply StateTrackerFacts.ex_world_inv|]. vm_compute. eauto. Qed.

Lemma ex_unwatched st : watching StateTrackerFacts.ex_world (mk_tracker true [] st).
Proof. split; [constructor|]. set_solver. Qed.

Lemma ex_channel_pinv : pinv ex_channel 0.
Proof. split; [apply ex_store_ok|]. intros x. destruct x; (split; [apply ex_unwatched|]; done). Qed.

Lemma ex_sent_pinv : pinv ex_sent 0.
Proof. split; [apply ex_store_ok|]. intros x. destruct x; (split; [apply ex_unwatched|]; done). Qed.

Lemma msg_pipe_delivers_witness : ∃ ch', exec ex_channel 0 (OWrite true [true] [5; 6] []) = Some (Status NO_ERROR, ch') ∧ pinv ch' 0.
Proof. exact (msg_pipe_delivers ex_channel 0 (OWrite true [true] [5; 6] []) ex_channel_pinv ltac:(by eexists)). Defined.

Lemma msg_pipe_begin_hides_message_witness : ∃ ch', exec ex_sent 0 (OBegin false) = Some (Sizes 2 0, ch') ∧
  answer ch' (OBegin false) = Sizes 2 0 ∧ Z.land (satisfied (signals_state_ (state_tracker_ (get_end (pipe ch') false)))) MX_SIGNAL_READABLE = 0.
Proof.
  destruct (msg_pipe_begin_hides_message ex_sent 0 false (ex_dispatcher false) (mk_packet [5; 6] []) ex_sent_pinv eq_refl eq_refl eq_refl)
    as (ch' & E & Ha & Hs & _). exists ch'. split; [exact E|]. split; [exact Ha|exact Hs].
Defined.

End witness.

End MsgPipeFacts.
