(* ===== verification/DataPipe.v ===== *)
(** * Data pipes

    [src/kernel/lib/magenta/data_pipe.cpp]: a ring buffer in a VM object between a
    producer and a consumer, each with a cursor and a state tracker.  An end copies
    from or to user memory, or maps the buffer and reports how much it used in a
    second call.

    The VM object is the list of its bytes, [None] once the pipe dropped it; a use
    of the dropped object makes the operation [None], like a failed assertion.
    What the copies and the mappings of the VM system return are arguments:
    [copied] is the status and the number of bytes of [WriteUser] or [ReadUser],
    [mapped] the status and the address of [MapObject].  [regions] are the mappings
    of the buffer that exist, by address space and address. *)

From stdpp Require Import base tactics numbers list.
From Stdlib Require Import ZArith.
From S2P Require Import Prelude Sync StateTracker.
#[local] Open Scope Z_scope.

Module DataPipe.
Import StateTracker.

Definition kMaxDataPipeCapacity : Z := 256 * 1024 * 1024.
Definition PAGE_SIZE : Z := 4096.
Definition ROUNDUP (a b : Z) : Z := u64 ((a + (b - 1)) / b * b).

Record EndPoint := mk_ep {
  alive : bool; cursor : Z; vad_start : Z; expected : Z; aspace : option nat; state_tracker : StateTracker }.

Record DataPipe := mk_dp {
  capacity_ : Z; producer_ : EndPoint; consumer_ : EndPoint; vmo_ : option (list Z); free_space_ : Z; regions : list (nat * Z) }.

Definition set_tracker (e : EndPoint) (tr : StateTracker) : EndPoint :=
  mk_ep (alive e) (cursor e) (vad_start e) (expected e) (aspace e) tr.
Definition set_cursor (e : EndPoint) (x : Z) : EndPoint :=
  mk_ep (alive e) x (vad_start e) (expected e) (aspace e) (state_tracker e).
Definition set_expected (e : EndPoint) (x : Z) : EndPoint :=
  mk_ep (alive e) (cursor e) (vad_start e) x (aspace e) (state_tracker e).
Definition set_mapping (e : EndPoint) (v : Z) (a : option nat) : EndPoint :=
  mk_ep (alive e) (cursor e) v (expected e) a (state_tracker e).
Definition set_dead (e : EndPoint) : EndPoint :=
  mk_ep false (cursor e) (vad_start e) (expected e) (aspace e) (state_tracker e).

Definition set_producer (p : DataPipe) (e : EndPoint) : DataPipe :=
  mk_dp (capacity_ p) e (consumer_ p) (vmo_ p) (free_space_ p) (regions p).
Definition set_consumer (p : DataPipe) (e : EndPoint) : DataPipe :=
  mk_dp (capacity_ p) (producer_ p) e (vmo_ p) (free_space_ p) (regions p).
Definition set_vmo (p : DataPipe) (v : option (list Z)) : DataPipe :=
  mk_dp (capacity_ p) (producer_ p) (consumer_ p) v (free_space_ p) (regions p).
Definition set_free (p : DataPipe) (n : Z) : DataPipe :=
  mk_dp (capacity_ p) (producer_ p) (consumer_ p) (vmo_ p) n (regions p).
Definition set_regions (p : DataPipe) (r : list (nat * Z)) : DataPipe :=
  mk_dp (capacity_ p) (producer_ p) (consumer_ p) (vmo_ p) (free_space_ p) r.

(** [vmo_->size()]. *)
Definition vmo_size (p : DataPipe) : option Z := zlen <$> vmo_ p.

Definition new_data_pipe (capacity : Z) : DataPipe :=
  let ep st := mk_ep true 0 0 0 None (mk_tracker true [] st) in
  mk_dp capacity (ep (mk_signals MX_SIGNAL_WRITABLE (Z.lor MX_SIGNAL_WRITABLE MX_SIGNAL_PEER_CLOSED)))
    (ep (mk_signals 0 (Z.lor MX_SIGNAL_READABLE MX_SIGNAL_PEER_CLOSED))) None 0 [].

(** [created] says whether [VmObject::Create] returns an object. *)
Definition Init (p : DataPipe) (created : bool) : bool * DataPipe :=
  if capacity_ p >? kMaxDataPipeCapacity then (false, p) else
  if negb created then (false, p) else
  let n := ROUNDUP (capacity_ p) PAGE_SIZE in
  (true, set_free (set_vmo p (Some (replicate (Z.to_nat n) 0))) n).

(** [Create], with the allocations of the pipe and the two dispatchers. *)
Definition Create (m : mem) (capacity : Z) (created : bool) : Z * option DataPipe * mem :=
  let '(ok, m1) := alloc m in
  if negb ok then (ERR_NO_MEMORY, None, m1) else
  let '(ok, p) := Init (new_data_pipe capacity) created in
  if negb ok then (ERR_NO_MEMORY, None, m1) else
  let '(ok, m2) := alloc m1 in
  if negb ok then (ERR_NO_MEMORY, None, m2) else
  let '(ok, m3) := alloc m2 in
  if negb ok then (ERR_NO_MEMORY, None, m3) else (NO_ERROR, Some p, m3).

Definition ComputeSize (p : DataPipe) (from to requested : Z) : option Z :=
  available ← (if to <=? from then n ← vmo_size p; Some (u64 (n - from)) else Some (u64 (to - from)));
  Some (if requested <=? available then requested else available).

(** The mapping of [MapVMOIfNeeded]: the status, the end point and the regions. *)
Definition MapVMOIfNeeded (p : DataPipe) (ep : EndPoint) (asp : nat) (mapped : Z * Z) : option (Z * EndPoint * list (nat * Z)) :=
  _ ← vmo_ p;
  let '(ep1, r1) :=
    match aspace ep with
    | Some a => if bool_decide (a ≠ asp) then (set_mapping ep (vad_start ep) None, filter (λ r, r ≠ (a, vad_start ep)) (regions p))
                else (ep, regions p)
    | None => (ep, regions p)
    end in
  if mapped.1 <? 0 then Some (mapped.1, ep1, r1)
  else Some (NO_ERROR, set_mapping ep1 mapped.2 (Some asp), (asp, mapped.2) :: r1).

Section pipe.
Context {S : Type} `{StateObserver S}.

Definition update_producer (s : S) (c : nat) (p : DataPipe) (a b d e : Z) : option (S * DataPipe) :=
  '(s1, tr) ← UpdateState s c (state_tracker (producer_ p)) a b d e; Some (s1, set_producer p (set_tracker (producer_ p) tr)).
Definition update_consumer (s : S) (c : nat) (p : DataPipe) (a b d e : Z) : option (S * DataPipe) :=
  '(s1, tr) ← UpdateState s c (state_tracker (consumer_ p)) a b d e; Some (s1, set_consumer p (set_tracker (consumer_ p) tr)).

Definition UpdateSignals (s : S) (c : nat) (p : DataPipe) : option (S * DataPipe) :=
  if free_space_ p =? 0 then
    '(s1, p1) ← update_producer s c p 0 MX_SIGNAL_WRITABLE 0 0;
    update_consumer s1 c p1 MX_SIGNAL_READABLE 0 0 0
  else
    n ← vmo_size p;
    if free_space_ p =? n then
      '(s1, p1) ← update_producer s c p MX_SIGNAL_WRITABLE 0 0 0;
      update_consumer s1 c p1 0 MX_SIGNAL_READABLE 0 (if alive (producer_ p1) then 0 else MX_SIGNAL_READABLE)
    else
      '(s1, p1) ← update_producer s c p MX_SIGNAL_WRITABLE 0 0 0;
      update_consumer s1 c p1 MX_SIGNAL_READABLE 0 0 0.

(** The cursor past [n] bytes, back to the start at the end of the buffer. *)
Definition advance (p : DataPipe) (x n : Z) : option Z :=
  size ← vmo_size p; Some (if u64 (x + n) =? size then 0 else u64 (x + n)).

(** The end of a write: the common tail of the two ways to write. *)
Definition finish_write (s : S) (c : nat) (p : DataPipe) (written : Z) : option (S * DataPipe) :=
  x ← advance p (cursor (producer_ p)) written;
  UpdateSignals s c (set_free (set_producer p (set_cursor (producer_ p) x)) (u64 (free_space_ p - written))).

Definition finish_read (s : S) (c : nat) (p : DataPipe) (read : Z) : option (S * DataPipe) :=
  x ← advance p (cursor (consumer_ p)) read;
  UpdateSignals s c (set_free (set_consumer p (set_cursor (consumer_ p) x)) (u64 (free_space_ p + read))).

(** The status and [*requested] at the end. *)
Definition ProducerWriteFromUser (s : S) (c : nat) (p : DataPipe) (bytes : list Z) (requested : Z) (copied : Z * Z)
  : option (Z * Z * S * DataPipe) :=
  if requested =? 0 then Some (ERR_INVALID_ARGS, requested, s, p) else
  if negb (expected (producer_ p) =? 0) then Some (ERR_BUSY, requested, s, p) else
  if negb (alive (consumer_ p)) then Some (ERR_CHANNEL_CLOSED, requested, s, p) else
  if free_space_ p =? 0 then Some (ERR_NOT_READY, requested, s, p) else
  req ← ComputeSize p (cursor (producer_ p)) (cursor (consumer_ p)) requested;
  v ← vmo_ p;
  v1 ← write_at (cursor (producer_ p)) (take (Z.to_nat copied.2) bytes) v;
  let p1 := set_vmo p (Some v1) in
  if copied.1 <? 0 then Some (copied.1, req, s, p1) else
  '(s1, p2) ← finish_write s c p1 copied.2;
  Some (NO_ERROR, copied.2, s1, p2).

(** The status, [*requested] and, on success, the address. *)
Definition ProducerWriteBegin (p : DataPipe) (asp : nat) (requested : Z) (mapped : Z * Z) : option (Z * Z * option Z * DataPipe) :=
  if requested =? 0 then Some (ERR_INVALID_ARGS, requested, None, p) else
  if negb (expected (producer_ p) =? 0) then Some (ERR_BUSY, requested, None, p) else
  if negb (alive (consumer_ p)) then Some (ERR_CHANNEL_CLOSED, requested, None, p) else
  if free_space_ p =? 0 then Some (ERR_NOT_READY, requested, None, p) else
  '(status, ep, r) ← MapVMOIfNeeded p (producer_ p) asp mapped;
  let p1 := set_regions (set_producer p ep) r in
  if status <? 0 then Some (status, requested, None, p1) else
  req ← ComputeSize p1 (cursor ep) (cursor (consumer_ p1)) requested;
  Some (NO_ERROR, req, Some (vad_start ep + cursor ep), set_producer p1 (set_expected ep req)).

Definition ProducerWriteEnd (s : S) (c : nat) (p : DataPipe) (written : Z) : option (Z * S * DataPipe) :=
  if expected (producer_ p) =? 0 then Some (ERR_BAD_STATE, s, p) else
  if written >? expected (producer_ p) then Some (ERR_INVALID_ARGS, s, p) else
  '(s1, p1) ← finish_write s c (set_producer p (set_expected (producer_ p) 0)) written;
  Some (NO_ERROR, s1, p1).

(** The status, [*requested] and the bytes copied out. *)
Definition ConsumerReadFromUser (s : S) (c : nat) (p : DataPipe) (requested : Z) (copied : Z * Z)
  : option (Z * Z * list Z * S * DataPipe) :=
  if requested =? 0 then Some (ERR_INVALID_ARGS, requested, [], s, p) else
  if negb (expected (consumer_ p) =? 0) then Some (ERR_BUSY, requested, [], s, p) else
  n ← vmo_size p;
  if free_space_ p =? n then Some (ERR_NOT_READY, requested, [], s, p) else
  req ← ComputeSize p (cursor (consumer_ p)) (cursor (producer_ p)) requested;
  v ← vmo_ p;
  out ← read_at (cursor (consumer_ p)) copied.2 v;
  if copied.1 <? 0 then Some (copied.1, req, out, s, p) else
  '(s1, p1) ← finish_read s c p copied.2;
  Some (NO_ERROR, copied.2, out, s1, p1).

Definition ConsumerReadBegin (p : DataPipe) (asp : nat) (requested : Z) (mapped : Z * Z) : option (Z * Z * option Z * DataPipe) :=
  if requested =? 0 then Some (ERR_INVALID_ARGS, requested, None, p) else
  if negb (expected (consumer_ p) =? 0) then Some (ERR_BUSY, requested, None, p) else
  n ← vmo_size p;
  if free_space_ p =? n then Some (ERR_NOT_READY, requested, None, p) else
  '(status, ep, r) ← MapVMOIfNeeded p (consumer_ p) asp mapped;
  let p1 := set_regions (set_consumer p ep) r in
  if status <? 0 then Some (status, requested, None, p1) else
  req ← ComputeSize p1 (cursor ep) (cursor (producer_ p1)) requested;
  Some (NO_ERROR, req, Some (vad_start ep + cursor ep), set_consumer p1 (set_expected ep req)).

Definition ConsumerReadEnd (s : S) (c : nat) (p : DataPipe) (read : Z) : option (Z * S * DataPipe) :=
  if expected (consumer_ p) =? 0 then Some (ERR_BAD_STATE, s, p) else
  if read >? expected (consumer_ p) then Some (ERR_INVALID_ARGS, s, p) else
  '(s1, p1) ← finish_read s c (set_consumer p (set_expected (consumer_ p) 0)) read;
  Some (NO_ERROR, s1, p1).

(** Freeing the mapping of an end point that is destroyed. *)
Definition free_mapping (ep : EndPoint) (r : list (nat * Z)) : EndPoint * list (nat * Z) :=
  match aspace ep with
  | Some a => (set_mapping ep (vad_start ep) None, filter (λ x, x ≠ (a, vad_start ep)) r)
  | None => (ep, r)
  end.

Definition OnProducerDestruction (s : S) (c : nat) (p : DataPipe) : option (S * DataPipe) :=
  let '(ep, r) := free_mapping (set_dead (producer_ p)) (regions p) in
  let p1 := set_regions (set_producer p ep) r in
  if alive (consumer_ p1) then
    n ← vmo_size p1;
    let is_empty := free_space_ p1 =? n in
    '(s1, p2) ← update_consumer s c p1 MX_SIGNAL_PEER_CLOSED 0 0 (if is_empty then MX_SIGNAL_READABLE else 0);
    Some (s1, if is_empty then set_vmo p2 None else p2)
  else Some (s, p1).

Definition OnConsumerDestruction (s : S) (c : nat) (p : DataPipe) : option (S * DataPipe) :=
  let '(ep, r) := free_mapping (set_dead (consumer_ p)) (regions p) in
  let p1 := set_regions (set_vmo (set_consumer p ep) None) r in
  if alive (producer_ p1) then
    update_producer s c p1 MX_SIGNAL_PEER_CLOSED MX_SIGNAL_WRITABLE 0 MX_SIGNAL_WRITABLE
  else Some (s, p1).

End pipe.
End DataPipe.
