(* ===== verification/DataPipeFacts.v ===== *)
(** * Data pipes carry bytes in order

    The bytes of a pipe are those of its ring between the two cursors.  Every call
    that the ends can make keeps the cursors, the free space, the windows of
    two-phase transfers and the signals consistent, and moves the bytes like a
    first-in first-out queue.  Two calls are excluded, on an object that the pipe
    has dropped; the last theorem shows that they crash.  The observers are any
    store that keeps [TrackerSpec]. *)

From stdpp Require Import base tactics numbers list sets.
From Stdlib Require Import ZArith Lia.
From S2P Require Import Prelude Ring Sched SchedFacts Sync SyncFacts SyncSched StateTracker StateTrackerFacts DataPipe.
#[local] Open Scope Z_scope.

Module DataPipeFacts.
Import StateTracker DataPipe.

(** ** The ring of a pipe *)

Definition used (v : list Z) (p : DataPipe) : Z := zlen v - free_space_ p.

Record ring_ok (v : list Z) (p : DataPipe) : Prop := {
  ro_size : 0 < zlen v < 2 ^ 63;
  ro_cons : 0 ≤ cursor (consumer_ p) < zlen v;
  ro_free : 0 ≤ free_space_ p ≤ zlen v;
  ro_prod : cursor (producer_ p) = (cursor (consumer_ p) + used v p) mod zlen v;
  ro_pexp : 0 ≤ expected (producer_ p) ≤ free_space_ p ∧ cursor (producer_ p) + expected (producer_ p) ≤ zlen v;
  ro_cexp : 0 ≤ expected (consumer_ p) ≤ used v p ∧ cursor (consumer_ p) + expected (consumer_ p) ≤ zlen v }.

Definition content (p : DataPipe) : list Z :=
  match vmo_ p with Some v => ring v (cursor (consumer_ p)) (used v p) | None => [] end.

Definition is_empty (p : DataPipe) : bool := match vmo_ p with Some v => free_space_ p =? zlen v | None => true end.

(** The signals of the ends, from whether the peer exists and the pipe is full or
    empty. *)
Definition producer_signals (peer full : bool) : mx_signals_state :=
  if peer then mk_signals (if full then 0 else MX_SIGNAL_WRITABLE) (Z.lor MX_SIGNAL_WRITABLE MX_SIGNAL_PEER_CLOSED)
  else mk_signals MX_SIGNAL_PEER_CLOSED MX_SIGNAL_PEER_CLOSED.

Definition consumer_signals (peer empty : bool) : mx_signals_state :=
  mk_signals (Z.lor (if empty then 0 else MX_SIGNAL_READABLE) (if peer then 0 else MX_SIGNAL_PEER_CLOSED))
    (Z.lor (if peer || negb empty then MX_SIGNAL_READABLE else 0) MX_SIGNAL_PEER_CLOSED).

Definition signals_ok (p : DataPipe) : Prop :=
  (alive (producer_ p) = true →
   signals_state_ (state_tracker (producer_ p)) = producer_signals (alive (consumer_ p)) (free_space_ p =? 0)) ∧
  (alive (consumer_ p) = true →
   signals_state_ (state_tracker (consumer_ p)) = consumer_signals (alive (producer_ p)) (is_empty p)).

(** The object is there while the consumer is, unless the producer left an empty
    pipe. *)
Definition shape_ok (p : DataPipe) : Prop :=
  match vmo_ p with
  | Some v => alive (consumer_ p) = true ∧ ring_ok v p
  | None => alive (consumer_ p) = false ∨ alive (producer_ p) = false ∧ expected (consumer_ p) = 0
  end.

Lemma contiguous v p :
  ring_ok v p → free_space_ p ≠ 0 → ∃ a, 0 < a ≤ free_space_ p ∧ cursor (producer_ p) + a ≤ zlen v ∧
    ∀ req, 0 ≤ req → vmo_ p = Some v → ComputeSize p (cursor (producer_ p)) (cursor (consumer_ p)) req = Some (Z.min req a).
Proof.
  intros [Hs Hc Hf Hp _ _] Hne. unfold used in Hp. rewrite mod_case in Hp by lia.
  assert (Hpc : 0 ≤ cursor (producer_ p) < zlen v) by (revert Hp; zcase).
  exists (if cursor (consumer_ p) <=? cursor (producer_ p) then zlen v - cursor (producer_ p) else cursor (consumer_ p) - cursor (producer_ p)).
  split; [revert Hp; zcase|]. split; [zcase|]. intros req Hr Hv. unfold ComputeSize, vmo_size. rewrite Hv. cbn [fmap option_fmap option_map].
  destruct (_ <=? _) eqn:E; zb; cbn [mbind option_bind]; rewrite u64_id by (unfold is_u64; lia); f_equal; zcase.
Qed.

Lemma readable v p :
  ring_ok v p → free_space_ p ≠ zlen v → ∃ a, 0 < a ≤ used v p ∧ cursor (consumer_ p) + a ≤ zlen v ∧
    ∀ req, 0 ≤ req → vmo_ p = Some v → ComputeSize p (cursor (consumer_ p)) (cursor (producer_ p)) req = Some (Z.min req a).
Proof.
  intros [Hs Hc Hf Hp _ _] Hne. unfold used in *. rewrite mod_case in Hp by lia.
  assert (Hpc : 0 ≤ cursor (producer_ p) < zlen v) by (revert Hp; zcase).
  exists (if cursor (producer_ p) <=? cursor (consumer_ p) then zlen v - cursor (consumer_ p) else cursor (producer_ p) - cursor (consumer_ p)).
  split; [revert Hp; zcase|]. split; [zcase|]. intros req Hr Hv. unfold ComputeSize, vmo_size. rewrite Hv. cbn [fmap option_fmap option_map].
  destruct (_ <=? _) eqn:E; zb; cbn [mbind option_bind]; rewrite u64_id by (unfold is_u64; lia); f_equal; zcase.
Qed.

Lemma advance_mod v p x n :
  vmo_ p = Some v → 0 ≤ x < zlen v → 0 ≤ n → x + n ≤ zlen v < 2 ^ 63 → advance p x n = Some ((x + n) mod zlen v).
Proof.
  intros Hv Hx Hn Hs. unfold advance, vmo_size. rewrite Hv. cbn [fmap option_fmap option_map mbind option_bind].
  rewrite u64_id by (unfold is_u64; lia). rewrite mod_case by lia. f_equal. zcase.
Qed.

Section pipes.
Context {S : Type} `{TrackerSpec S}.

Record dinv (s : S) (c : nat) (p : DataPipe) : Prop := {
  di_sok : sok s c;
  di_wp : watching s (state_tracker (producer_ p));
  di_wc : watching s (state_tracker (consumer_ p));
  di_sig : signals_ok p;
  di_shape : shape_ok p }.

Lemma update_producer_ok s c p a b d e :
  sok s c → watching s (state_tracker (producer_ p)) → watching s (state_tracker (consumer_ p)) →
  let tr := moved_to (state_tracker (producer_ p)) (update (signals_state_ (state_tracker (producer_ p))) a b d e) in
  ∃ s', update_producer s c p a b d e = Some (s', set_producer p (set_tracker (producer_ p) tr)) ∧
    sok s' c ∧ watching s' tr ∧ watching s' (state_tracker (consumer_ p)).
Proof.
  intros Hs Hp Hc tr. destruct (update_law s c _ a b d e Hs Hp) as (s' & E & Hs' & Hw & Hk). exists s'. unfold update_producer.
  rewrite E. split_and!; [done|done|done|by apply Hk].
Qed.

Lemma update_consumer_ok s c p a b d e :
  sok s c → watching s (state_tracker (producer_ p)) → watching s (state_tracker (consumer_ p)) →
  let tr := moved_to (state_tracker (consumer_ p)) (update (signals_state_ (state_tracker (consumer_ p))) a b d e) in
  ∃ s', update_consumer s c p a b d e = Some (s', set_consumer p (set_tracker (consumer_ p) tr)) ∧
    sok s' c ∧ watching s' (state_tracker (producer_ p)) ∧ watching s' tr.
Proof.
  intros Hs Hp Hc tr. destruct (update_law s c _ a b d e Hs Hc) as (s' & E & Hs' & Hw & Hk). exists s'. unfold update_consumer.
  rewrite E. split_and!; [done|done|by apply Hk|done].
Qed.

(** Both trackers, one after the other. *)
Lemma update_both_ok s c p a1 b1 d1 e1 a2 b2 d2 (e2 : bool → Z) :
  sok s c → watching s (state_tracker (producer_ p)) → watching s (state_tracker (consumer_ p)) →
  let tp := moved_to (state_tracker (producer_ p)) (update (signals_state_ (state_tracker (producer_ p))) a1 b1 d1 e1) in
  let tc := moved_to (state_tracker (consumer_ p)) (update (signals_state_ (state_tracker (consumer_ p))) a2 b2 d2 (e2 (alive (producer_ p)))) in
  ∃ s', ('(s1, p1) ← update_producer s c p a1 b1 d1 e1; update_consumer s1 c p1 a2 b2 d2 (e2 (alive (producer_ p1)))) =
      Some (s', set_consumer (set_producer p (set_tracker (producer_ p) tp)) (set_tracker (consumer_ p) tc)) ∧
    sok s' c ∧ watching s' tp ∧ watching s' tc.
Proof.
  intros Hs Hp Hc tp tc. destruct (update_producer_ok s c p a1 b1 d1 e1 Hs Hp Hc) as (s1 & E1 & Hs1 & Hp1 & Hc1). rewrite E1. cbn [mbind option_bind].
  set (p1 := set_producer _ _). destruct (update_consumer_ok s1 c p1 a2 b2 d2 (e2 (alive (producer_ p1))) Hs1 Hp1 Hc1) as (s2 & E2 & Hs2 & Hp2 & Hc2).
  exists s2. by rewrite E2.
Qed.

(** What [UpdateSignals] leaves: the trackers follow the free space. *)
Lemma UpdateSignals_ok s c p v full empty :
  sok s c → watching s (state_tracker (producer_ p)) → watching s (state_tracker (consumer_ p)) →
  vmo_ p = Some v → 0 < zlen v → alive (consumer_ p) = true →
  (alive (producer_ p) = true → signals_state_ (state_tracker (producer_ p)) = producer_signals true full) →
  signals_state_ (state_tracker (consumer_ p)) = consumer_signals (alive (producer_ p)) empty →
  (alive (producer_ p) = true ∨ empty = false ∨ is_empty p = true) →
  ∃ s' tp tc, let p' := set_consumer (set_producer p (set_tracker (producer_ p) tp)) (set_tracker (consumer_ p) tc) in
    UpdateSignals s c p = Some (s', p') ∧ sok s' c ∧ watching s' tp ∧ watching s' tc ∧ signals_ok p'.
Proof.
  intros Hs Hp Hc Hv Hn Hac Hsp Hsc Hcase. unfold UpdateSignals, vmo_size. rewrite Hv. cbn [fmap option_fmap option_map mbind option_bind].
  unfold is_empty in Hcase. rewrite Hv in Hcase. destruct (free_space_ p =? 0) eqn:E0; [|destruct (free_space_ p =? zlen v) eqn:E1].
  - destruct (update_both_ok s c p 0 MX_SIGNAL_WRITABLE 0 0 MX_SIGNAL_READABLE 0 0 (λ _, 0) Hs Hp Hc) as (s' & E & Hs' & Hp' & Hc').
    eexists s', _, _. split; [exact E|]. split_and!; [done..|]. unfold signals_ok, is_empty. cbn. rewrite Hv, Hac, E0, Hsc.
    assert (E1 : (free_space_ p =? zlen v) = false) by (zb; lia). rewrite E1 in Hcase |- *.
    split; intros Ha; [rewrite (Hsp Ha); by destruct full|]. destruct (alive (producer_ p)), empty; try done. naive_solver.
  - destruct (update_both_ok s c p MX_SIGNAL_WRITABLE 0 0 0 0 MX_SIGNAL_READABLE 0 (λ a, if a then 0 else MX_SIGNAL_READABLE) Hs Hp Hc) as (s' & E & Hs' & Hp' & Hc').
    eexists s', _, _. split; [exact E|]. split_and!; [done..|]. unfold signals_ok, is_empty. cbn. rewrite Hv, Hac, E0, E1, Hsc.
    split; intros Ha; [rewrite (Hsp Ha); by destruct full|]. by destruct (alive (producer_ p)), empty.
  - destruct (update_both_ok s c p MX_SIGNAL_WRITABLE 0 0 0 MX_SIGNAL_READABLE 0 0 (λ _, 0) Hs Hp Hc) as (s' & E & Hs' & Hp' & Hc').
    eexists s', _, _. split; [exact E|]. split_and!; [done..|]. unfold signals_ok, is_empty. cbn. rewrite Hv, Hac, E0, E1, Hsc.
    split; intros Ha; [rewrite (Hsp Ha); by destruct full|]. destruct (alive (producer_ p)), empty; try done. naive_solver.
Qed.

(** ** The two ends of a transfer *)

Lemma finish_write_ok s c p v w :
  dinv s c p → vmo_ p = Some v → alive (producer_ p) = true → expected (producer_ p) = 0 →
  0 ≤ w ≤ free_space_ p → cursor (producer_ p) + w ≤ zlen v →
  ∃ s' p', finish_write s c p w = Some (s', p') ∧ dinv s' c p' ∧ vmo_ p' = Some v ∧
    content p' = ring v (cursor (consumer_ p)) (used v p + w).
Proof.
  intros [Hs Hwp Hwc [Hsp Hsc] Hsh] Hv Hap Hex Hw Hfit. unfold shape_ok in Hsh. rewrite Hv in Hsh. destruct Hsh as [Hac [Rs Rc Rf Rp Rpe Rce]].
  pose proof (Z.mod_pos_bound (cursor (consumer_ p) + used v p) (zlen v) ltac:(lia)) as Hm. rewrite <- Rp in Hm.
  unfold finish_write. rewrite (advance_mod v) by (done || lia). cbn [mbind option_bind]. rewrite u64_id by (unfold is_u64; lia).
  set (x := (cursor (producer_ p) + w) mod zlen v). set (p1 := set_free _ _). rewrite Hac in Hsp.
  destruct (UpdateSignals_ok s c p1 v (free_space_ p =? 0) (is_empty p)) as (s' & tp & tc & E & Hs' & Hp' & Hc' & Hsig); try done; [lia|by apply Hsc|by left|].
  rewrite E. eexists s', _. split; [done|]. split; [|split; [done|]].
  - split; [done..|]. unfold shape_ok. cbn. rewrite Hv. split; [done|]. split; cbn; try done; [lia| |rewrite Hex|unfold used in *; cbn; lia].
    + unfold x, used. cbn. rewrite Rp, Zplus_mod_idemp_l. f_equal. unfold used. lia.
    + unfold x. pose proof (Z.mod_pos_bound (cursor (producer_ p) + w) (zlen v) ltac:(lia)). lia.
  - unfold content, used. cbn. rewrite Hv. f_equal. lia.
Qed.

Lemma finish_read_ok s c p v k :
  dinv s c p → vmo_ p = Some v → expected (consumer_ p) = 0 →
  0 ≤ k ≤ used v p → cursor (consumer_ p) + k ≤ zlen v →
  ∃ s' p', finish_read s c p k = Some (s', p') ∧ dinv s' c p' ∧ vmo_ p' = Some v ∧ content p' = drop (Z.to_nat k) (content p).
Proof.
  intros [Hs Hwp Hwc [Hsp Hsc] Hsh] Hv Hex Hk Hfit. unfold shape_ok in Hsh. rewrite Hv in Hsh. destruct Hsh as [Hac [Rs Rc Rf Rp Rpe Rce]].
  unfold finish_read. rewrite (advance_mod v) by (done || lia). cbn [mbind option_bind]. unfold used in *. rewrite u64_id by (unfold is_u64; lia).
  set (x := (cursor (consumer_ p) + k) mod zlen v). set (p1 := set_free _ _). rewrite Hac in Hsp.
  destruct (UpdateSignals_ok s c p1 v (free_space_ p =? 0) (is_empty p)) as (s' & tp & tc & E & Hs' & Hp' & Hc' & Hsig); try done; [lia|by apply Hsc| |].
  { right. unfold is_empty. cbn. rewrite Hv. destruct (free_space_ p =? zlen v) eqn:E1; zb; [|by left]. right. apply Z.eqb_eq. lia. }
  rewrite E. eexists s', _. split; [done|]. pose proof (Z.mod_pos_bound (cursor (consumer_ p) + k) (zlen v) ltac:(lia)) as Hx. fold x in Hx.
  split; [|split; [done|]].
  - split; [done..|]. unfold shape_ok. cbn. rewrite Hv. split; [done|]. split; unfold used; cbn; try done; [lia| |lia|rewrite Hex; lia].
    unfold x. rewrite Rp, Zplus_mod_idemp_l. f_equal. lia.
  - unfold content, used. cbn. rewrite Hv. unfold x. rewrite <- ring_pop by lia. f_equal. lia.
Qed.

(** ** The calls *)

Inductive dop :=
  | DWrite (bytes : list Z) (requested : Z) (copied : Z * Z)
  | DWriteBegin (asp : nat) (requested : Z) (mapped : Z * Z)
  | DStore (pos : Z) (bytes : list Z)
  | DWriteEnd (written : Z)
  | DRead (requested : Z) (copied : Z * Z)
  | DReadBegin (asp : nat) (requested : Z) (mapped : Z * Z)
  | DReadEnd (read : Z)
  | DCloseProducer
  | DCloseConsumer.

(** The answers: a status, a number of bytes and the bytes read. *)
Record danswer := mk_answer { status : Z; count : Z; bytes_out : list Z }.

Definition dexec (s : S) (c : nat) (p : DataPipe) (op : dop) : option (danswer * S * DataPipe) :=
  match op with
  | DWrite bytes req copied =>
    r ← ProducerWriteFromUser s c p bytes req copied;
    let '(st, n, s1, p1) := (r : Z * Z * S * DataPipe) in Some (mk_answer st n [], s1, p1)
  | DWriteBegin asp req mapped =>
    r ← ProducerWriteBegin p asp req mapped;
    let '(st, n, _, p1) := (r : Z * Z * option Z * DataPipe) in Some (mk_answer st n [], s, p1)
  | DStore pos bytes => v ← vmo_ p; v1 ← write_at pos bytes v; Some (mk_answer NO_ERROR 0 [], s, set_vmo p (Some v1))
  | DWriteEnd w =>
    r ← ProducerWriteEnd s c p w; let '(st, s1, p1) := (r : Z * S * DataPipe) in Some (mk_answer st w [], s1, p1)
  | DRead req copied =>
    r ← ConsumerReadFromUser s c p req copied;
    let '(st, n, out, s1, p1) := (r : Z * Z * list Z * S * DataPipe) in Some (mk_answer st n out, s1, p1)
  | DReadBegin asp req mapped =>
    r ← ConsumerReadBegin p asp req mapped;
    let '(st, n, _, p1) := (r : Z * Z * option Z * DataPipe) in Some (mk_answer st n [], s, p1)
  | DReadEnd k =>
    r ← ConsumerReadEnd s c p k; let '(st, s1, p1) := (r : Z * S * DataPipe) in Some (mk_answer st k [], s1, p1)
  | DCloseProducer => '(s1, p1) ← OnProducerDestruction s c p; Some (mk_answer NO_ERROR 0 [], s1, p1)
  | DCloseConsumer => '(s1, p1) ← OnConsumerDestruction s c p; Some (mk_answer NO_ERROR 0 [], s1, p1)
  end.

(** A call comes from an end that exists.  The copy of [copied.2] bytes is within
    what it was asked for; user code stores only in the window it was given.  A
    read, and the end of a two-phase write, find the object. *)
Definition denabled (p : DataPipe) (op : dop) : Prop :=
  match op with
  | DWrite bytes req copied => alive (producer_ p) = true ∧ 0 ≤ req ∧ 0 ≤ copied.2 ≤ zlen bytes ∧
      ∀ r, ComputeSize p (cursor (producer_ p)) (cursor (consumer_ p)) req = Some r → copied.2 ≤ r
  | DWriteBegin _ req _ => alive (producer_ p) = true ∧ 0 ≤ req
  | DStore pos bytes => is_Some (vmo_ p) ∧ cursor (producer_ p) ≤ pos ∧ pos + zlen bytes ≤ cursor (producer_ p) + expected (producer_ p)
  | DWriteEnd w => alive (producer_ p) = true ∧ 0 ≤ w ∧ (expected (producer_ p) ≠ 0 → is_Some (vmo_ p))
  | DRead req copied => alive (consumer_ p) = true ∧ is_Some (vmo_ p) ∧ 0 ≤ req ∧ 0 ≤ copied.2 ∧
      ∀ r, ComputeSize p (cursor (consumer_ p)) (cursor (producer_ p)) req = Some r → copied.2 ≤ r
  | DReadBegin _ req _ => alive (consumer_ p) = true ∧ is_Some (vmo_ p) ∧ 0 ≤ req
  | DReadEnd k => alive (consumer_ p) = true ∧ 0 ≤ k
  | DCloseProducer => alive (producer_ p) = true
  | DCloseConsumer => alive (consumer_ p) = true
  end.

(** The bytes between two points of the object. *)
Definition slice (p : DataPipe) (pos n : Z) : list Z :=
  match vmo_ p with Some v => take (Z.to_nat n) (drop (Z.to_nat pos) v) | None => [] end.

(** What a call does to the bytes of the pipe. *)
Definition dfifo (p : DataPipe) (op : dop) (a : danswer) (p' : DataPipe) : Prop :=
  match op with
  | DWrite bytes req copied =>
    (status a = NO_ERROR → content p' = content p ++ take (Z.to_nat (count a)) bytes) ∧
    (status a ≠ NO_ERROR → content p' = content p) ∧
    (req ≠ 0 → expected (producer_ p) = 0 → alive (consumer_ p) = true → free_space_ p ≠ 0 → 0 ≤ copied.1 → status a = NO_ERROR)
  | DWriteBegin _ _ _ =>
    content p' = content p ∧ (status a = NO_ERROR → 0 < count a ∧ expected (producer_ p') = count a)
  | DStore _ _ => content p' = content p
  | DWriteEnd w =>
    (status a = NO_ERROR → content p' = content p ++ slice p (cursor (producer_ p)) w) ∧ (status a ≠ NO_ERROR → content p' = content p)
  | DRead req copied =>
    (status a = NO_ERROR → bytes_out a = take (Z.to_nat (count a)) (content p) ∧ content p' = drop (Z.to_nat (count a)) (content p)) ∧
    (status a ≠ NO_ERROR → content p' = content p) ∧
    (req ≠ 0 → expected (consumer_ p) = 0 → content p ≠ [] → 0 ≤ copied.1 → status a = NO_ERROR)
  | DReadBegin _ _ _ =>
    content p' = content p ∧ (status a = NO_ERROR → 0 < count a ∧ expected (consumer_ p') = count a)
  | DReadEnd k => (status a = NO_ERROR → content p' = drop (Z.to_nat k) (content p)) ∧ (status a ≠ NO_ERROR → content p' = content p)
  | DCloseProducer => content p' = content p
  | DCloseConsumer => content p' = []
  end.

Definition call_ok (s : S) (c : nat) (p : DataPipe) (op : dop) : Prop :=
  ∃ a s' p', dexec s c p op = Some (a, s', p') ∧ dinv s' c p' ∧ dfifo p op a p'.

Lemma shape_some s c p v : dinv s c p → vmo_ p = Some v → alive (consumer_ p) = true ∧ ring_ok v p.
Proof. intros Hi Hv. pose proof (di_shape _ _ _ Hi) as Hsh. unfold shape_ok in Hsh. by rewrite Hv in Hsh. Qed.

Lemma shape_alive s c p : dinv s c p → alive (producer_ p) = true → alive (consumer_ p) = true → ∃ v, vmo_ p = Some v.
Proof.
  intros Hi Hp Hc. pose proof (di_shape _ _ _ Hi) as Hsh. unfold shape_ok in Hsh. destruct (vmo_ p) as [v|]; [by exists v|].
  destruct Hsh as [?|[? _]]; congruence.
Qed.

Lemma content_some p v : vmo_ p = Some v → content p = ring v (cursor (consumer_ p)) (used v p).
Proof. unfold content. by intros ->. Qed.

(** The bytes of the object change, its size does not. *)
Lemma dinv_set_vmo s c p v v1 : dinv s c p → vmo_ p = Some v → zlen v1 = zlen v → dinv s c (set_vmo p (Some v1)).
Proof.
  intros Hi Hv Hz. destruct (shape_some _ _ _ _ Hi Hv) as [Hac R]. destruct Hi as [Hs Hwp Hwc [Hsp Hsc] _].
  split; [done..| |].
  - split; cbn; [done|]. intros Ha. rewrite (Hsc Ha). unfold is_empty. cbn. by rewrite Hv, Hz.
  - unfold shape_ok. cbn. split; [done|]. destruct R. split; unfold used in *; cbn; by rewrite ?Hz.
Qed.

Lemma cursors v p : ring_ok v p → 0 ≤ cursor (producer_ p) < zlen v.
Proof. intros []. rewrite ro_prod0. apply Z.mod_pos_bound. lia. Qed.

(** A store in the part that the next write may fill. *)
Lemma vmo_store_ok s c p v pos d a :
  dinv s c p → vmo_ p = Some v → 0 ≤ a ≤ free_space_ p → cursor (producer_ p) + a ≤ zlen v →
  cursor (producer_ p) ≤ pos → pos + zlen d ≤ cursor (producer_ p) + a →
  ∃ v1, write_at pos d v = Some v1 ∧ zlen v1 = zlen v ∧ dinv s c (set_vmo p (Some v1)) ∧ content (set_vmo p (Some v1)) = content p.
Proof.
  intros Hi Hv Ha Hfit Hlo Hhi. destruct (shape_some _ _ _ _ Hi Hv) as [Hac R]. pose proof (cursors _ _ R) as Hpc. pose proof (zlen_nonneg d).
  destruct R as [Rs Rc Rf Rp _ _]. destruct (write_at_Some pos d v) as (v1 & E & _ & _); [lia|lia|]. exists v1. rewrite Rp in *. unfold used in *.
  destruct (ring_store v (cursor (consumer_ p)) (zlen v - free_space_ p) a pos d v1) as [Hz Hr]; (done || lia || idtac).
  split; [done|]. split; [done|]. split; [by eapply dinv_set_vmo|]. rewrite (content_some p v Hv). unfold content, used. cbn. by rewrite Hz.
Qed.

Lemma push_ok s c p v d :
  dinv s c p → vmo_ p = Some v → alive (producer_ p) = true → expected (producer_ p) = 0 →
  zlen d ≤ free_space_ p → cursor (producer_ p) + zlen d ≤ zlen v →
  ∃ v1 s' p', write_at (cursor (producer_ p)) d v = Some v1 ∧ dinv s c (set_vmo p (Some v1)) ∧ content (set_vmo p (Some v1)) = content p ∧
    finish_write s c (set_vmo p (Some v1)) (zlen d) = Some (s', p') ∧ dinv s' c p' ∧ content p' = content p ++ d.
Proof.
  intros Hi Hv Hap Hex Hlen Hfit. pose proof (zlen_nonneg d).
  destruct (vmo_store_ok s c p v (cursor (producer_ p)) d (zlen d)) as (v1 & E & Hz & Hi1 & Hc1); try done.
  destruct (finish_write_ok s c (set_vmo p (Some v1)) v1 (zlen d)) as (s' & p' & E2 & Hi2 & Hv2 & Hc2); try done; try (cbn; lia).
  exists v1, s', p'. split_and!; [done..|]. rewrite Hc2. destruct (shape_some _ _ _ _ Hi Hv) as [_ [Rs Rc Rf Rp _ _]].
  rewrite (content_some p v Hv). unfold used in *. cbn. rewrite Hz. rewrite Rp in E, Hfit. apply (ring_push v (cursor (consumer_ p)) (zlen v - free_space_ p) d v1); (done || lia).
Qed.

Ltac refuse := eexists _, _, _; split; [reflexivity|]; split; [done|]; cbn; split_and!; intros; (done || congruence || lia).

Lemma dwrite_ok s c p bytes req copied : dinv s c p → denabled p (DWrite bytes req copied) → call_ok s c p (DWrite bytes req copied).
Proof.
  intros Hi (Hap & Hr & Hc & Hmax). unfold call_ok. cbn [dexec]. unfold ProducerWriteFromUser.
  destruct (req =? 0) eqn:E0; zb; [refuse|]. destruct (expected (producer_ p) =? 0) eqn:E1; zb; cbn [negb]; [|refuse].
  destruct (alive (consumer_ p)) eqn:Hac; cbn [negb]; [|refuse]. destruct (free_space_ p =? 0) eqn:E2; zb; [refuse|].
  destruct (shape_alive _ _ _ Hi Hap Hac) as [v Hv]. destruct (shape_some _ _ _ _ Hi Hv) as [_ R].
  destruct (contiguous v p R E2) as (a & Ha & Hfit & Hcs). specialize (Hcs req Hr Hv). specialize (Hmax _ Hcs). rewrite Hcs. cbn [mbind option_bind].
  rewrite Hv. cbn [mbind option_bind]. set (d := take (Z.to_nat copied.2) bytes).
  assert (Hd : zlen d = copied.2) by (unfold d; rewrite zlen_take by lia; lia).
  destruct (push_ok s c p v d) as (v1 & s' & p' & Ew & Hi1 & Hc1 & Ef & Hi2 & Hc2); try done; [lia|lia|]. rewrite Ew. cbn [mbind option_bind].
  destruct (copied.1 <? 0) eqn:E3; zb.
  - eexists _, _, _. split; [reflexivity|]. split; [done|]. cbn. split_and!; [|done|lia]. intros Hst. unfold NO_ERROR in Hst. lia.
  - rewrite Hd in Ef. rewrite Ef. cbn [mbind option_bind]. eexists _, _, _. split; [reflexivity|]. split; [done|]. cbn. split_and!; done.
Qed.

Lemma dstore_ok s c p pos bytes : dinv s c p → denabled p (DStore pos bytes) → call_ok s c p (DStore pos bytes).
Proof.
  intros Hi ([v Hv] & Hlo & Hhi). destruct (shape_some _ _ _ _ Hi Hv) as [_ R]. pose proof (ro_pexp _ _ R) as [Hpe Hfit].
  destruct (vmo_store_ok s c p v pos bytes (expected (producer_ p)) Hi Hv Hpe Hfit Hlo Hhi) as (v1 & E & _ & Hi1 & Hc1).
  unfold call_ok. cbn [dexec]. rewrite Hv. cbn [mbind option_bind]. rewrite E. cbn [mbind option_bind]. eexists _, _, _. split; [reflexivity|]. done.
Qed.

Lemma slice_read p v pos n : vmo_ p = Some v → 0 ≤ pos → 0 ≤ n → pos + n ≤ zlen v → zlen (slice p pos n) = n ∧ write_at pos (slice p pos n) v = Some v.
Proof.
  intros Hv Hp Hn Hl. unfold slice. rewrite Hv. assert (Hz : zlen (take (Z.to_nat n) (drop (Z.to_nat pos) v)) = n)
    by (rewrite zlen_take, zlen_drop by lia; lia). split; [done|].
  unfold write_at. rewrite Hz, !(proj2 (Z.leb_le _ _)) by lia. cbn [andb]. f_equal.
  assert (Hl2 : length (take (Z.to_nat n) (drop (Z.to_nat pos) v)) = Z.to_nat n) by (unfold zlen in Hz; lia).
  rewrite Hl2, <- drop_drop, take_drop. apply take_drop.
Qed.

Lemma dwriteend_ok s c p w : dinv s c p → denabled p (DWriteEnd w) → call_ok s c p (DWriteEnd w).
Proof.
  intros Hi (Hap & Hw & Hvm). unfold call_ok. cbn [dexec]. unfold ProducerWriteEnd. destruct (expected (producer_ p) =? 0) eqn:E0; zb; [refuse|].
  destruct (w >? expected (producer_ p)) eqn:E1; [refuse|]. assert (Hwe : w ≤ expected (producer_ p)) by lia.
  destruct (Hvm E0) as [v Hv]. destruct (shape_some _ _ _ _ Hi Hv) as [Hac R]. set (p1 := set_producer p _).
  assert (Hi1 : dinv s c p1).
  { destruct Hi. split; try done. unfold shape_ok. cbn. rewrite Hv. split; [done|]. pose proof (cursors _ _ R). destruct R. split; cbn; try done. lia. }
  pose proof (ro_pexp _ _ R) as [Hpe Hfit]. pose proof (cursors _ _ R) as Hpc.
  destruct (slice_read p v (cursor (producer_ p)) w Hv ltac:(lia) Hw ltac:(lia)) as [Hz Hsl].
  destruct (push_ok s c p1 v (slice p (cursor (producer_ p)) w)) as (v1 & s' & p' & Ew & _ & _ & Ef & Hi2 & Hc2); try done; try (cbn; lia).
  change (cursor (producer_ p1)) with (cursor (producer_ p)) in Ew. rewrite Hsl in Ew. injection Ew as <-. rewrite Hz in Ef.
  assert (Hsame : set_vmo p1 (Some v) = p1) by (unfold p1, set_vmo, set_producer; cbn; by rewrite Hv). rewrite Hsame in Ef. rewrite Ef. cbn [mbind option_bind].
  eexists _, _, _. split; [reflexivity|]. split; [done|]. cbn. split; done.
Qed.

Lemma dread_ok s c p req copied : dinv s c p → denabled p (DRead req copied) → call_ok s c p (DRead req copied).
Proof.
  intros Hi (Hac & [v Hv] & Hr & Hc & Hmax). unfold call_ok. cbn [dexec]. unfold ConsumerReadFromUser, vmo_size.
  destruct (req =? 0) eqn:E0; zb; [refuse|]. destruct (expected (consumer_ p) =? 0) eqn:E1; zb; cbn [negb]; [|refuse].
  destruct (shape_some _ _ _ _ Hi Hv) as [_ R]. pose proof R as [Rs Rc Rf _ _ _]. rewrite Hv. cbn [fmap option_fmap option_map mbind option_bind].
  destruct (free_space_ p =? zlen v) eqn:E2; zb.
  { eexists _, _, _. split; [reflexivity|]. split; [done|]. cbn. split_and!; [done|done|]. intros _ _ Hne. exfalso. apply Hne.
    rewrite (content_some _ _ Hv). unfold used, ring. by rewrite E2, Z.sub_diag. }
  destruct (readable v p R E2) as (a & Ha & Hfit & Hcs). specialize (Hcs req Hr Hv). specialize (Hmax _ Hcs). rewrite Hcs. cbn [mbind option_bind].
  unfold used in *. rewrite (ring_read v (cursor (consumer_ p)) (zlen v - free_space_ p)) by lia. cbn [mbind option_bind].
  destruct (copied.1 <? 0) eqn:E3; zb.
  - eexists _, _, _. split; [reflexivity|]. split; [done|]. cbn. split_and!; [|done|lia]. intros Hst. unfold NO_ERROR in Hst. lia.
  - destruct (finish_read_ok s c p v copied.2) as (s' & p' & Ef & Hi2 & _ & Hc2); try done; [unfold used; lia|lia|]. rewrite Ef. cbn [mbind option_bind].
    eexists _, _, _. split; [reflexivity|]. split; [done|]. cbn. rewrite (content_some p v Hv) in *. unfold used in *. split_and!; done.
Qed.

Lemma dreadend_ok s c p k : dinv s c p → denabled p (DReadEnd k) → call_ok s c p (DReadEnd k).
Proof.
  intros Hi (Hac & Hk). unfold call_ok. cbn [dexec]. unfold ConsumerReadEnd. destruct (expected (consumer_ p) =? 0) eqn:E0; zb; [refuse|].
  destruct (k >? expected (consumer_ p)) eqn:E1; [refuse|]. assert (Hke : k ≤ expected (consumer_ p)) by lia.
  destruct (vmo_ p) as [v|] eqn:Hv; [|pose proof (di_shape _ _ _ Hi) as Hsh; unfold shape_ok in Hsh; rewrite Hv in Hsh; destruct Hsh as [?|[_ ?]]; congruence].
  destruct (shape_some _ _ _ _ Hi Hv) as [_ R]. set (p1 := set_consumer p _).
  assert (Hi1 : dinv s c p1).
  { destruct Hi. split; try done. unfold shape_ok. cbn. rewrite Hv. split; [done|]. destruct R. split; cbn; try done. unfold used in *. cbn. lia. }
  pose proof (ro_cexp _ _ R) as [Hce Hfit].
  destruct (finish_read_ok s c p1 v k) as (s' & p' & Ef & Hi2 & _ & Hc2); try done; [unfold used in *; cbn; lia|cbn; lia|]. rewrite Ef. cbn [mbind option_bind].
  eexists _, _, _. split; [reflexivity|]. split; [done|]. cbn. split; done.
Qed.

(** ** Mappings and closing *)

Definition same_ep (e e' : EndPoint) : Prop :=
  alive e' = alive e ∧ cursor e' = cursor e ∧ expected e' = expected e ∧ state_tracker e' = state_tracker e.

Lemma dinv_view s c p p' :
  dinv s c p → same_ep (producer_ p) (producer_ p') → same_ep (consumer_ p) (consumer_ p') → vmo_ p' = vmo_ p →
  free_space_ p' = free_space_ p → dinv s c p' ∧ content p' = content p.
Proof.
  intros [Hs Hwp Hwc [Hsp Hsc] Hsh] (A1 & C1 & X1 & T1) (A2 & C2 & X2 & T2) Ev Ef. split.
  - split; [done|by rewrite T1|by rewrite T2| |].
    + split; unfold is_empty; rewrite ?T1, ?T2, ?A1, ?A2, ?Ev, ?Ef; auto.
    + unfold shape_ok in *. rewrite Ev, A1, A2, X2. destruct (vmo_ p) as [v|]; [|done]. destruct Hsh as [Ha [Rs Rc Rf Rp Rpe Rce]].
      split; [done|]. split; unfold used in *; by rewrite ?C1, ?C2, ?X1, ?X2, ?Ef.
  - unfold content, used. by rewrite Ev, C2, Ef.
Qed.

Lemma map_ok p v ep asp mapped :
  vmo_ p = Some v → ∃ st ep' r, MapVMOIfNeeded p ep asp mapped = Some (st, ep', r) ∧ same_ep ep ep' ∧ (st < 0 ∨ st = NO_ERROR).
Proof.
  intros Hv. unfold MapVMOIfNeeded. rewrite Hv. cbn [mbind option_bind].
  destruct (aspace ep) as [a|]; [case_bool_decide|]; destruct (mapped.1 <? 0) eqn:E; zb; eexists _, _, _; (split; [done|]); (split; [done|]); auto.
Qed.

Lemma dwritebegin_ok s c p asp req mapped :
  dinv s c p → denabled p (DWriteBegin asp req mapped) → call_ok s c p (DWriteBegin asp req mapped).
Proof.
  intros Hi (Hap & Hr). unfold call_ok. cbn [dexec]. unfold ProducerWriteBegin.
  destruct (req =? 0) eqn:E0; zb; [refuse|]. destruct (expected (producer_ p) =? 0) eqn:E1; zb; cbn [negb]; [|refuse].
  destruct (alive (consumer_ p)) eqn:Hac; cbn [negb]; [|refuse]. destruct (free_space_ p =? 0) eqn:E2; zb; [refuse|].
  destruct (shape_alive _ _ _ Hi Hap Hac) as [v Hv]. destruct (map_ok p v (producer_ p) asp mapped Hv) as (st & ep & r & Em & Hep & Hst).
  rewrite Em. cbn [mbind option_bind]. set (p1 := set_regions _ _).
  destruct (dinv_view s c p p1 Hi Hep ltac:(done) eq_refl eq_refl) as [Hi1 Hc1]. destruct (st <? 0) eqn:E3; zb.
  { eexists _, _, _. split; [reflexivity|]. split; [done|]. cbn. split; [done|]. intros Hz. unfold NO_ERROR in Hz. lia. }
  destruct (shape_some _ _ _ _ Hi1 Hv) as [_ R]. destruct (contiguous v p1 R E2) as (a & Ha & Hfit & Hcs). specialize (Hcs req Hr Hv).
  change (producer_ p1) with ep in *. rewrite Hcs. cbn [mbind option_bind].
  eexists _, _, _. split; [reflexivity|]. split; [|cbn; split; [done|intros _; split; [lia|done]]].
  destruct Hi1 as [? ? ? ? Hsh]. split; try done. unfold shape_ok in *. cbn in *. rewrite Hv in *. destruct Hsh as [_ [Rs Rc Rf Rp Rpe Rce]].
  split; [done|]. split; cbn in *; try done. lia.
Qed.

Lemma dreadbegin_ok s c p asp req mapped :
  dinv s c p → denabled p (DReadBegin asp req mapped) → call_ok s c p (DReadBegin asp req mapped).
Proof.
  intros Hi (Hac & [v Hv] & Hr). unfold call_ok. cbn [dexec]. unfold ConsumerReadBegin, vmo_size.
  destruct (req =? 0) eqn:E0; zb; [refuse|]. destruct (expected (consumer_ p) =? 0) eqn:E1; zb; cbn [negb]; [|refuse].
  rewrite Hv. cbn [fmap option_fmap option_map mbind option_bind]. destruct (free_space_ p =? zlen v) eqn:E2; zb; [refuse|].
  destruct (map_ok p v (consumer_ p) asp mapped Hv) as (st & ep & r & Em & Hep & Hst).
  rewrite Em. cbn [mbind option_bind]. set (p1 := set_regions _ _).
  destruct (dinv_view s c p p1 Hi ltac:(done) Hep eq_refl eq_refl) as [Hi1 Hc1]. destruct (st <? 0) eqn:E3; zb.
  { eexists _, _, _. split; [reflexivity|]. split; [done|]. cbn. split; [done|]. intros Hz. unfold NO_ERROR in Hz. lia. }
  destruct (shape_some _ _ _ _ Hi1 Hv) as [_ R]. destruct (readable v p1 R E2) as (a & Ha & Hfit & Hcs). specialize (Hcs req Hr Hv).
  change (consumer_ p1) with ep in *. rewrite Hcs. cbn [mbind option_bind].
  eexists _, _, _. split; [reflexivity|]. split; [|cbn; split; [done|intros _; split; [lia|done]]].
  destruct Hi1 as [? ? ? ? Hsh]. split; try done. unfold shape_ok, used in *. cbn in *. rewrite Hv in *. destruct Hsh as [Ha' [Rs Rc Rf Rp Rpe Rce]].
  split; [done|]. split; unfold used in *; cbn in *; try done. lia.
Qed.

Lemma free_same ep r : same_ep (set_dead ep) (free_mapping (set_dead ep) r).1.
Proof. unfold free_mapping. cbn. by destruct (aspace ep). Qed.

Lemma close_producer s c p :
  dinv s c p → alive (producer_ p) = true →
  ∃ s' p', OnProducerDestruction s c p = Some (s', p') ∧ dinv s' c p' ∧ content p' = content p ∧
    alive (consumer_ p') = alive (consumer_ p) ∧ expected (consumer_ p') = expected (consumer_ p) ∧
    (alive (consumer_ p) = true → is_empty p = true → vmo_ p' = None).
Proof.
  intros Hi Hap. unfold OnProducerDestruction. pose proof (free_same (producer_ p) (regions p)) as Hep.
  destruct (free_mapping (set_dead (producer_ p)) (regions p)) as [ep r]. cbn [fst] in Hep. destruct Hep as (A & C & X & T). cbn in A, C, X, T.
  cbn [alive consumer_ set_regions set_producer]. destruct (alive (consumer_ p)) eqn:Hac.
  - destruct (shape_alive _ _ _ Hi Hap Hac) as [v Hv]. destruct (shape_some _ _ _ _ Hi Hv) as [_ R]. destruct Hi as [Hs Hwp Hwc [Hsp Hsc] _].
    cbn [vmo_size vmo_ set_regions set_producer]. unfold vmo_size. cbn [vmo_ set_regions set_producer]. rewrite Hv.
    cbn [fmap option_fmap option_map mbind option_bind free_space_ set_regions set_producer]. set (p1 := set_regions (set_producer p ep) r).
    destruct (update_consumer_ok s c p1 MX_SIGNAL_PEER_CLOSED 0 0 (if free_space_ p =? zlen v then MX_SIGNAL_READABLE else 0) Hs) as (s' & E & Hs' & Hp' & Hc');
      [cbn; by rewrite T|done|]. rewrite E. cbn [mbind option_bind]. eexists _, _. split; [reflexivity|].
    specialize (Hsc Hac). rewrite Hap in Hsc. unfold is_empty in Hsc |- *. rewrite Hv in Hsc |- *.
    destruct (free_space_ p =? zlen v) eqn:Ee; zb.
    + split; [split; [done|done|done|split|]|split; [|split_and!; done]].
      * cbn. congruence.
      * intros _. cbn. rewrite A, Hsc. done.
      * right. cbn. split; [done|]. pose proof (ro_cexp _ _ R) as [Hce _]. unfold used in Hce. lia.
      * cbn. unfold content. cbn. rewrite Hv. unfold used, ring. by rewrite Ee, Z.sub_diag.
    + split; [split; [done|done|done|split|]|split; [|split_and!; done]].
      * cbn. congruence.
      * intros _. unfold is_empty. cbn. rewrite A, Hsc, Hv, (proj2 (Z.eqb_neq _ _)) by done. done.
      * unfold shape_ok. cbn. rewrite Hv. split; [done|]. destruct R as [Rs Rc Rf Rp Rpe Rce]. split; cbn; rewrite ?C, ?X; done.
      * done.
  - eexists _, _. split; [reflexivity|]. destruct Hi as [Hs Hwp Hwc [Hsp Hsc] Hsh]. split; [split; cbn|split_and!; done].
    + done.
    + by rewrite T.
    + done.
    + split; cbn; [congruence|]. intros Ha. congruence.
    + unfold shape_ok in *. cbn. destruct (vmo_ p); [|by left]. destruct Hsh as [Ha _]. congruence.
Qed.

Lemma close_consumer s c p :
  dinv s c p → alive (consumer_ p) = true →
  ∃ s' p', OnConsumerDestruction s c p = Some (s', p') ∧ dinv s' c p' ∧ vmo_ p' = None ∧
    alive (producer_ p') = alive (producer_ p) ∧ expected (producer_ p') = expected (producer_ p).
Proof.
  intros Hi Hac. unfold OnConsumerDestruction. pose proof (free_same (consumer_ p) (regions p)) as Hep.
  destruct (free_mapping (set_dead (consumer_ p)) (regions p)) as [ep r]. cbn [fst] in Hep. destruct Hep as (A & C & X & T). cbn in A, C, X, T.
  destruct Hi as [Hs Hwp Hwc [Hsp Hsc] _]. set (p1 := set_regions _ _). change (alive (producer_ p1)) with (alive (producer_ p)).
  destruct (alive (producer_ p)) eqn:Hap.
  - destruct (update_producer_ok s c p1 MX_SIGNAL_PEER_CLOSED MX_SIGNAL_WRITABLE 0 MX_SIGNAL_WRITABLE Hs) as (s' & E & Hs' & Hp' & Hc');
      [done|cbn; by rewrite T|]. rewrite E. eexists _, _. split; [reflexivity|]. split; [split; [done|done|done|split|]|done].
    + intros _. cbn. rewrite A, (Hsp eq_refl), Hac. by destruct (free_space_ p =? 0).
    + cbn. congruence.
    + left. done.
  - eexists _, _. split; [reflexivity|]. split; [split; cbn|done].
    + done.
    + done.
    + by rewrite T.
    + split; cbn; congruence.
    + by left.
Qed.

End pipes.

(** C18. A data pipe is a first-in first-out queue of bytes: every call of an end
    that exists, with the object of the pipe where it needs it, succeeds or answers
    with an error that leaves the bytes alone; writes append, reads take from the
    front; a transfer that can make progress is not refused; and the signals of the
    ends are writable exactly when there is space and a consumer, readable exactly
    when there are bytes. *)
Theorem data_pipe_refines_fifo {S} `{TrackerSpec S} s c p op :
  dinv s c p → denabled p op → ∃ a s' p', dexec s c p op = Some (a, s', p') ∧ dinv s' c p' ∧ dfifo p op a p'.
Proof.
  intros Hi He. destruct op.
  - by apply dwrite_ok.
  - by apply dwritebegin_ok.
  - by apply dstore_ok.
  - by apply dwriteend_ok.
  - by apply dread_ok.
  - by apply dreadbegin_ok.
  - by apply dreadend_ok.
  - destruct (close_producer s c p Hi He) as (s' & p' & E & Hi' & Hc & _). cbn [dexec]. rewrite E. eexists _, _, _. by split; [reflexivity|].
  - destruct (close_consumer s c p Hi He) as (s' & p' & E & Hi' & Hv & _). cbn [dexec]. rewrite E. eexists _, _, _. split; [reflexivity|].
    split; [done|]. cbn. unfold content. by rewrite Hv.
Qed.

(** Closing an end of a pipe makes calls of the other one use the object the
    pipe has dropped: after the producer of an empty pipe is closed every read of
    at least a byte does, and after the consumer is closed so does the end of a
    two-phase write that was begun before. *)
Theorem data_pipe_use_after_close {S} `{TrackerSpec S} s c p :
  dinv s c p → alive (producer_ p) = true → alive (consumer_ p) = true →
  (content p = [] → ∃ s' p', OnProducerDestruction s c p = Some (s', p') ∧ alive (consumer_ p') = true ∧
     ∀ req copied, req ≠ 0 → ConsumerReadFromUser s' c p' req copied = None) ∧
  (expected (producer_ p) ≠ 0 → ∃ s' p', OnConsumerDestruction s c p = Some (s', p') ∧ alive (producer_ p') = true ∧
     ∀ w, 0 ≤ w ≤ expected (producer_ p) → ProducerWriteEnd s' c p' w = None).
Proof.
  intros Hi Hap Hac. destruct (shape_alive _ _ _ Hi Hap Hac) as [v Hv]. destruct (shape_some _ _ _ _ Hi Hv) as [_ R]. split.
  - intros Hc. rewrite (content_some _ _ Hv) in Hc. pose proof R as [Rs Rc Rf _ _ [Rce _]]. unfold used in *.
    pose proof (ring_zlen v (cursor (consumer_ p)) (zlen v - free_space_ p) ltac:(lia) ltac:(lia)) as Hz. rewrite Hc in Hz.
    change (zlen (A := Z) []) with 0 in Hz. destruct (close_producer s c p Hi Hap) as (s' & p' & E & _ & _ & Ha & Hx & Hn).
    exists s', p'. split_and!; [done|congruence|]. intros req copied Hr. unfold ConsumerReadFromUser, vmo_size.
    rewrite (proj2 (Z.eqb_neq _ _) Hr), Hx, (proj2 (Z.eqb_eq _ _)) by lia. rewrite Hn; [done|done|].
    unfold is_empty. rewrite Hv. apply Z.eqb_eq. lia.
  - intros Hx. destruct (close_consumer s c p Hi Hac) as (s' & p' & E & _ & Hn & Ha & He). exists s', p'. split_and!; [done|congruence|].
    intros w Hw. unfold ProducerWriteEnd. rewrite He, (proj2 (Z.eqb_neq _ _) Hx). destruct (w >? _) eqn:Ew; [lia|].
    unfold finish_write, advance, vmo_size. cbn. by rewrite Hn.
Qed.

(** ** A new pipe *)

Lemma roundup_bounds a : 0 < a ≤ kMaxDataPipeCapacity → 0 < ROUNDUP a PAGE_SIZE < 2 ^ 63.
Proof.
  unfold kMaxDataPipeCapacity, ROUNDUP, PAGE_SIZE. intros Ha. pose proof (Z.div_mod (a + (4096 - 1)) 4096 ltac:(lia)).
  pose proof (Z.mod_pos_bound (a + (4096 - 1)) 4096 ltac:(lia)). rewrite u64_id by (unfold is_u64; lia). lia.
Qed.

(** [Create] establishes the invariant. *)
Lemma create_dinv {S} `{TrackerSpec S} (s : S) c m capacity p m' :
  sok s c → (∀ st, watching s (mk_tracker true [] st)) → 0 < capacity → Create m capacity true = (NO_ERROR, Some p, m') →
  dinv s c p ∧ content p = [].
Proof.
  intros Hs Hw Hcap. unfold Create. destruct (alloc m) as [b1 m1]. destruct b1; cbn [negb]; [|done]. unfold Init.
  destruct (capacity_ (new_data_pipe capacity) >? kMaxDataPipeCapacity) eqn:E; cbn [negb]; [done|]. cbn in E.
  pose proof (roundup_bounds capacity ltac:(lia)) as Hr. destruct (alloc m1) as [b2 m2]. destruct b2; cbn [negb]; [|done].
  destruct (alloc m2) as [b3 m3]. destruct b3; cbn [negb]; [|done]. intros [= <- _].
  cbn [capacity_ new_data_pipe]. set (n := ROUNDUP capacity PAGE_SIZE) in *. set (v := replicate (Z.to_nat n) 0).
  assert (Hz : zlen v = n) by (unfold v, zlen; rewrite length_replicate; lia). split.
  - split; [done|apply Hw|apply Hw| |].
    + unfold signals_ok, is_empty. cbn. fold n v. rewrite Hz, Z.eqb_refl, (proj2 (Z.eqb_neq _ _)) by lia. done.
    + unfold shape_ok. cbn. fold n v. split; [done|]. split; unfold used; cbn; rewrite Hz; (done || lia || idtac). by rewrite Z.sub_diag.
  - unfold content, used. cbn. fold n v. by rewrite Hz, Z.sub_diag.
Qed.

(** ** Witnesses *)

Section witness.
#[local] Instance ex_observer : StateObserver (world Sched.kstate) := wait_state_observer Sched.thread_yield.
#[local] Instance ex_spec : TrackerSpec (world Sched.kstate) := StateTrackerFacts.wait_tracker_spec Sched.thread_yield.

Definition ex_pipe : DataPipe := match Create [true; true; true] 4096 true with (_, Some p, _) => p | _ => new_data_pipe 0 end.

Lemma ex_pipe_ok : dinv StateTrackerFacts.ex_world 0 ex_pipe ∧ content ex_pipe = [].
Proof.
  apply (create_dinv _ _ [true; true; true] 4096 ex_pipe []); [|intros st; split; [constructor|set_solver]|done|reflexivity].
  split; [apply StateTrackerFacts.ex_world_inv|]. vm_compute. eauto.
Qed.

Lemma data_pipe_refines_fifo_witness : ∃ a s' p',
  dexec StateTrackerFacts.ex_world 0 ex_pipe (DWrite [1; 2; 3] 3 (0, 3)) = Some (a, s', p') ∧
  status a = NO_ERROR ∧ content p' = take (Z.to_nat (count a)) [1; 2; 3].
Proof.
  destruct ex_pipe_ok as [Hi Hc].
  destruct (data_pipe_refines_fifo StateTrackerFacts.ex_world 0 ex_pipe (DWrite [1; 2; 3] 3 (0, 3)) Hi) as (a & s' & p' & E & _ & Hf).
  - split; [reflexivity|]. split; [lia|]. split; [vm_compute; split; congruence|]. intros r Er. vm_compute in Er. injection Er as <-. cbn. lia.
  - destruct Hf as (H1 & _ & H3). exists a, s', p'. assert (Hst : status a = NO_ERROR).
    { apply H3; [done|reflexivity|reflexivity|vm_compute; congruence|cbn; lia]. }
    split; [exact E|]. split; [exact Hst|]. rewrite (H1 Hst), Hc. reflexivity.
Defined.

Lemma data_pipe_use_after_close_witness : ∃ s' p',
  OnProducerDestruction StateTrackerFacts.ex_world 0 ex_pipe = Some (s', p') ∧ ConsumerReadFromUser s' 0 p' 1 (0, 1) = None.
Proof.
  destruct ex_pipe_ok as [Hi Hc].
  destruct (data_pipe_use_after_close StateTrackerFacts.ex_world 0 ex_pipe Hi eq_refl eq_refl) as [H1 _].
  destruct (H1 Hc) as (s' & p' & E & _ & Hr). exists s', p'. split; [exact E|]. apply Hr. done.
Defined.

End witness.

End DataPipeFacts.
