(* ===== verification/Handles.v ===== *)
(** * Handles

    [src/kernel/lib/utils/arena.cpp], [src/kernel/lib/magenta/{handle,dispatcher,
    magenta}.cpp], the handle table of [process_dispatcher.cpp], and the system
    calls that close and duplicate a handle.

    Handles live in the slots of an arena; an address is its distance from the
    start of the arena.  The arena's control zone is a memory of nodes, its free
    list a list of pointers to them.  A slot that was never used or was freed holds
    a handle of zeroes.  The observers that [DeleteHandle] notifies are the
    parameter [cancel]; the length that [CommitRange] returns is an argument of the
    allocations.  Calls of [on_zero_handles] are recorded in order. *)

From stdpp Require Import base tactics numbers list gmap.
From Stdlib Require Import ZArith.
From S2P Require Import Prelude.
#[local] Open Scope Z_scope.

Module Handles.

Definition PAGE_SIZE : Z := 4096.
Definition kMaxHandleCount : Z := 32 * 1024.
Definition MX_RIGHT_DUPLICATE : Z := 1.
Definition MX_RIGHT_SAME_RIGHTS : Z := 2 ^ 31.

(** ** The arena *)

Record Arena := mk_arena {
  ob_size_ : Z; free_ : list Z; ctrl : gmap Z Z; c_top_ : Z; d_top_ : Z; d_end_ : Z; p_top_ : Z }.

Definition no_arena : Arena := mk_arena 0 [] ∅ 0 0 0 0.

(** [ctrl_status], [created] and [map_status] are what [vmm_alloc],
    [VmObject::Create] and [MapObject] return; [name_len] is the length of the name. *)
Definition ArenaInit (name_len ob_size count ctrl_status : Z) (created : bool) (map_status : Z) : Z * Arena :=
  if (ob_size =? 0) || (ob_size >? PAGE_SIZE) then (ERR_INVALID_ARGS, no_arena) else
  if count =? 0 then (ERR_INVALID_ARGS, no_arena) else
  let a := mk_arena ob_size [] ∅ 0 0 0 0 in
  if name_len >=? 24 then (ERR_INVALID_ARGS, a) else
  if ctrl_status <? 0 then (ctrl_status, a) else
  if negb created then (ERR_NO_MEMORY, a) else
  if map_status <? 0 then (map_status, a) else
  (NO_ERROR, mk_arena ob_size [] ∅ 0 0 (u64 (count * ob_size)) 0).

(** A failure to commit panics. *)
Definition CommitMemoryAheadIfNeeded (a : Arena) (len : Z) : option Arena :=
  if p_top_ a - d_top_ a >=? PAGE_SIZE then Some a else
  ASSERT negb (len <? 0);
  Some (mk_arena (ob_size_ a) (free_ a) (ctrl a) (c_top_ a) (d_top_ a) (d_end_ a) (p_top_ a + len)).

Definition ArenaAlloc (a : Arena) (len : Z) : option (option Z * Arena) :=
  match free_ a with
  | node :: rest =>
    slot ← ctrl a !! node;
    Some (Some slot, mk_arena (ob_size_ a) rest (ctrl a) (c_top_ a - 1) (d_top_ a) (d_end_ a) (p_top_ a))
  | [] =>
    if d_top_ a <? d_end_ a then
      a1 ← CommitMemoryAheadIfNeeded a len;
      Some (Some (d_top_ a1), mk_arena (ob_size_ a1) (free_ a1) (ctrl a1) (c_top_ a1) (d_top_ a1 + ob_size_ a1) (d_end_ a1) (p_top_ a1))
    else Some (None, a)
  end.

Definition ArenaFree (a : Arena) (addr : Z) : option Arena :=
  ASSERT (0 <=? addr) && (addr <? d_end_ a);
  Some (mk_arena (ob_size_ a) (c_top_ a :: free_ a) (<[c_top_ a := addr]> (ctrl a)) (c_top_ a + 1) (d_top_ a) (d_end_ a) (p_top_ a)).

Definition in_range (a : Arena) (addr : Z) : bool := (0 <=? addr) && (addr <? d_top_ a).

(** ** Handles and the counts of their objects *)

Record Handle := mk_handle { process_id_ : Z; rights_ : Z; dispatcher_ : option nat }.

Definition zero_handle : Handle := mk_handle 0 0 None.

Record hstate := mk_hstate { handle_arena : Arena; slots : gmap Z Handle; handle_count_ : gmap nat Z; zero_calls : list nat }.

Definition get_handle (h : hstate) (addr : Z) : Handle := default zero_handle (slots h !! addr).

Definition set_arena (h : hstate) (a : Arena) : hstate := mk_hstate a (slots h) (handle_count_ h) (zero_calls h).
Definition set_slot (h : hstate) (addr : Z) (x : Handle) : hstate :=
  mk_hstate (handle_arena h) (<[addr := x]> (slots h)) (handle_count_ h) (zero_calls h).

Definition count_of (h : hstate) (d : nat) : Z := default 0 (handle_count_ h !! d).

Definition add_handle (h : hstate) (d : nat) : hstate :=
  mk_hstate (handle_arena h) (slots h) (<[d := count_of h d + 1]> (handle_count_ h)) (zero_calls h).

Definition remove_handle (h : hstate) (d : nat) : hstate :=
  mk_hstate (handle_arena h) (slots h) (<[d := count_of h d - 1]> (handle_count_ h))
    (if count_of h d =? 1 then zero_calls h ++ [d] else zero_calls h).

(** The constructors run in the new slot, the destructor on its handle. *)
Definition Handle_new (h : hstate) (addr : Z) (d : nat) (rights : Z) : hstate :=
  add_handle (set_slot h addr (mk_handle 0 rights (Some d))) d.

Definition Handle_dup (h : hstate) (addr rhs rights : Z) : hstate :=
  set_slot h addr (mk_handle (process_id_ (get_handle h rhs)) rights (dispatcher_ (get_handle h rhs))).

Definition Handle_destroy (h : hstate) (addr : Z) : option hstate :=
  d ← dispatcher_ (get_handle h addr); Some (remove_handle h d).

Definition MakeHandle (h : hstate) (d : nat) (rights len : Z) : option (option Z * hstate) :=
  '(addr, a) ← ArenaAlloc (handle_arena h) len;
  let h1 := set_arena h a in
  Some (addr, match addr with Some x => Handle_new h1 x d rights | None => h1 end).

Definition DupHandle (h : hstate) (source rights len : Z) : option (option Z * hstate) :=
  '(addr, a) ← ArenaAlloc (handle_arena h) len;
  let h1 := set_arena h a in
  Some (addr, match addr with Some x => Handle_dup h1 x source rights | None => h1 end).

Section delete.
(** The cancellation of the observers of a handle, or the [Close] of its object. *)
Context {K : Type} (cancel : K → nat → Z → option K).

Definition DeleteHandle (k : K) (h : hstate) (addr : Z) : option (K * hstate) :=
  d ← dispatcher_ (get_handle h addr);
  k1 ← cancel k d addr;
  h1 ← Handle_destroy h addr;
  let h2 := set_slot h1 addr zero_handle in
  a ← ArenaFree (handle_arena h2) addr;
  Some (k1, set_arena h2 a).

End delete.

Definition HandleInRange (h : hstate) (addr : Z) : bool := in_range (handle_arena h) addr.

Definition MapHandleToU32 (addr : Z) : Z := u32 addr.

(** A null pointer is [None]. *)
Definition MapU32ToHandle (h : hstate) (value : Z) : option Z :=
  if negb (value mod ob_size_ (handle_arena h) =? 0) then None
  else if negb (HandleInRange h value) then None else Some value.

(** ** The handle table of a process *)

Record process := mk_process { koid : Z; handle_rand_ : Z; handles_ : list Z }.

(** [rand] is what [rand()] returns. *)
Definition new_process (id rand : Z) : process := mk_process id (Z.land (i32 (Z.shiftl rand 2)) (2 ^ 31 - 1)) [].

Definition MapHandleToValue (p : process) (addr : Z) : Z :=
  let handle_index := u32 (MapHandleToU32 addr + 1) in i32 (Z.lxor handle_index (u32 (handle_rand_ p))).

Definition index_of_value (p : process) (handle_value : Z) : Z := u32 (Z.lxor handle_value (handle_rand_ p) - 1).

Definition GetHandle (h : hstate) (p : process) (handle_value : Z) : option Z :=
  match MapU32ToHandle h (index_of_value p handle_value) with
  | None => None
  | Some handle => if process_id_ (get_handle h handle) =? koid p then Some handle else None
  end.

Definition set_process_id (h : hstate) (addr pid : Z) : hstate :=
  set_slot h addr (mk_handle pid (rights_ (get_handle h addr)) (dispatcher_ (get_handle h addr))).

Definition set_handles (p : process) (l : list Z) : process := mk_process (koid p) (handle_rand_ p) l.

Definition AddHandle (h : hstate) (p : process) (handle : Z) : hstate * process :=
  (set_process_id h handle (koid p), set_handles p (handle :: handles_ p)).

(** Erasing a handle that is not on the list fails an assertion. *)
Definition RemoveHandle (h : hstate) (p : process) (handle_value : Z) : option (option Z * hstate * process) :=
  match GetHandle h p handle_value with
  | None => Some (None, h, p)
  | Some handle =>
    ASSERT bool_decide (handle ∈ handles_ p);
    Some (Some handle, set_process_id h handle 0, set_handles p (filter (λ x, x ≠ handle) (handles_ p)))
  end.

Definition UndoRemoveHandle (h : hstate) (p : process) (handle_value : Z) : option (hstate * process) :=
  handle ← MapU32ToHandle h (index_of_value p handle_value); Some (AddHandle h p handle).

(** The object and the rights, if the value names a handle. *)
Definition GetDispatcher (h : hstate) (p : process) (handle_value : Z) : option (option nat * Z) :=
  match GetHandle h p handle_value with
  | None => None
  | Some handle => Some (dispatcher_ (get_handle h handle), rights_ (get_handle h handle))
  end.

Definition magenta_rights_check (actual desired : Z) : bool := Z.land actual desired =? desired.

(** ** System calls *)

(** [BadHandle()] is the status for a value that names no handle. *)
Definition sys_handle_close {K} (cancel : K → nat → Z → option K) (k : K) (h : hstate) (p : process) (handle_value : Z)
  : option (Z * K * hstate * process) :=
  r ← RemoveHandle h p handle_value;
  match (r : option Z * hstate * process) with
  | (None, h1, p1) => Some (ERR_BAD_HANDLE, k, h1, p1)
  | (Some handle, h1, p1) => '(k1, h2) ← DeleteHandle cancel k h1 handle; Some (NO_ERROR, k1, h2, p1)
  end.

Definition sys_handle_duplicate (h : hstate) (p : process) (handle_value rights len : Z) : option (Z * hstate * process) :=
  match GetHandle h p handle_value with
  | None => Some (ERR_BAD_HANDLE, h, p)
  | Some source =>
    let actual := rights_ (get_handle h source) in
    if negb (magenta_rights_check actual MX_RIGHT_DUPLICATE) then Some (ERR_ACCESS_DENIED, h, p) else
    if negb (rights =? MX_RIGHT_SAME_RIGHTS) && negb (Z.land actual rights =? rights) then Some (ERR_INVALID_ARGS, h, p) else
    '(dest, h1) ← DupHandle h source (if rights =? MX_RIGHT_SAME_RIGHTS then actual else rights) len;
    match dest with
    | None => Some (ERR_NO_MEMORY, h1, p)
    | Some x => let '(h2, p1) := AddHandle h1 p x in Some (MapHandleToValue p x, h2, p1)
    end
  end.

End Handles.
