(* ===== verification/HandlesFacts.v ===== *)
(** * The handle table is sound

    The arena never hands out a slot that is in use, the handles of a process are
    exactly those its table lists, and a value names a handle of a process exactly
    when it is the value the process was given for it.  A duplicate never has more
    rights than its source.  The count of handles of an object misses duplicates. *)

From Stdlib Require Import ZArith Lia.
From stdpp Require Import base tactics numbers list list_numbers gmap sets.
From S2P Require Import Prelude Handles.
#[local] Open Scope Z_scope.

Module HandlesFacts.
Import Handles.

(** ** The arena *)

Definition slot (a : Arena) (x : Z) : Prop := 0 ≤ x < d_top_ a ∧ x mod ob_size_ a = 0.

Definition free_slots (a : Arena) : list Z := omap (λ n, ctrl a !! n) (free_ a).

Definition allocated (a : Arena) (x : Z) : Prop := slot a x ∧ x ∉ free_slots a.

(** The control nodes of the free list are a stack. *)
Record ainv (a : Arena) : Prop := {
  ai_size : 0 < ob_size_ a ≤ PAGE_SIZE;
  ai_top : 0 ≤ d_top_ a ≤ d_end_ a ∧ d_top_ a mod ob_size_ a = 0;
  ai_end : d_end_ a < 2 ^ 32 ∧ d_end_ a mod ob_size_ a = 0;
  ai_nodes : 0 ≤ c_top_ a ∧ free_ a = reverse (seqZ 0 (c_top_ a));
  ai_ctrl : ∀ n, n ∈ free_ a → is_Some (ctrl a !! n);
  ai_slots : NoDup (free_slots a) ∧ ∀ x, x ∈ free_slots a → slot a x }.

Lemma reverse_seqZ c : 0 ≤ c → reverse (seqZ 0 (c + 1)) = c :: reverse (seqZ 0 c).
Proof. intros Hc. rewrite seqZ_app by lia. rewrite reverse_app. rewrite (seqZ_cons (0 + c)) by lia. cbn. by rewrite Z.add_0_l. Qed.

Lemma node_bound a n : ainv a → n ∈ free_ a → 0 ≤ n < c_top_ a.
Proof. intros [_ _ _ [Hc ->] _ _]. rewrite elem_of_reverse, elem_of_seqZ. lia. Qed.

Lemma mult_step s x y : 0 < s → x mod s = 0 → y mod s = 0 → x < y → x + s ≤ y.
Proof.
  intros Hs Hx Hy Hlt. apply Z.mod_divide in Hx as [a ->]; [|lia]. apply Z.mod_divide in Hy as [b ->]; [|lia].
  assert (a < b) by (apply (Z.mul_lt_mono_pos_r s); lia). nia.
Qed.

Lemma arena_alloc_ok a len :
  ainv a → 0 ≤ len →
  ∃ r a', ArenaAlloc a len = Some (r, a') ∧ ainv a' ∧ ob_size_ a' = ob_size_ a ∧
    match r with
    | Some x => slot a' x ∧ ¬ allocated a x ∧ (∀ y, allocated a' y ↔ y = x ∨ allocated a y)
    | None => a' = a ∧ ∀ x, 0 ≤ x < d_end_ a → x mod ob_size_ a = 0 → allocated a x
    end.
Proof.
  intros Hi Hlen. pose proof Hi as [Hs Ht He Hn Hc [Hnd Hfs]]. unfold ArenaAlloc. destruct (free_ a) as [|node rest] eqn:Ef.
  - assert (Hemp : free_slots a = []) by (unfold free_slots; by rewrite Ef). destruct (d_top_ a <? d_end_ a) eqn:E; zb.
    + assert (Hstep : d_top_ a + ob_size_ a ≤ d_end_ a) by (apply mult_step; (lia || tauto)).
      assert (Hcom : ∃ pt, CommitMemoryAheadIfNeeded a len = Some (mk_arena (ob_size_ a) (free_ a) (ctrl a) (c_top_ a) (d_top_ a) (d_end_ a) pt)).
      { unfold CommitMemoryAheadIfNeeded. destruct (_ >=? _); [exists (p_top_ a); by destruct a|]. rewrite (proj2 (Z.ltb_ge _ _)) by lia. by eexists. }
      destruct Hcom as [pt Ec]. rewrite Ec. cbn. eexists _, _. split; [done|]. set (a' := mk_arena _ _ _ _ _ _ _).
      assert (Hmod : (d_top_ a + ob_size_ a) mod ob_size_ a = 0) by (rewrite Zplus_mod, Z_mod_same_full, Z.add_0_r, Zmod_mod; lia).
      split; [split; cbn; try done; [lia|by rewrite Ef in *|by rewrite Ef|]|].
      * split; [change (NoDup (free_slots a)); rewrite Hemp; constructor|]. intros y Hy. change (y ∈ free_slots a) in Hy. rewrite Hemp in Hy. by apply not_elem_of_nil in Hy.
      * split; [done|]. unfold allocated, slot. change (free_slots a') with (free_slots a). rewrite Hemp. cbn. split_and!; [lia|lia|lia|intros [[? _] _]; lia|].
        intros y. split; [|intros [->|[[? ?] ?]]; (split; [split; [lia|tauto]|apply not_elem_of_nil])]. intros [[Hy Hym] _]. destruct (decide (y = d_top_ a)) as [|Hne]; [by left|right].
        split; [|apply not_elem_of_nil]. split; [|done]. destruct (decide (d_top_ a < y)) as [Hlt|]; [|lia]. pose proof (mult_step (ob_size_ a) (d_top_ a) y). lia.
    + eexists _, _. split; [done|]. split; [done|]. split; [done|]. split; [done|]. intros x Hx Hm. split; [split; [lia|done]|]. rewrite Hemp. apply not_elem_of_nil.
  - destruct (Hc node) as [x Hx]; [set_solver|]. rewrite Hx. cbn. eexists _, _. split; [done|]. set (a' := mk_arena _ _ _ _ _ _ _).
    destruct Hn as [Hc0 Hn]. assert (Hfs0 : free_slots a = x :: free_slots a') by (unfold free_slots; rewrite Ef; cbn; by rewrite Hx).
    rewrite Hfs0 in Hnd, Hfs. apply list.NoDup_cons in Hnd as [Hxn Hnd].
    assert (Hct : 0 < c_top_ a) by (destruct (decide (c_top_ a = 0)) as [E|]; [rewrite E in Hn; done|lia]).
    replace (c_top_ a) with (c_top_ a - 1 + 1) in Hn by lia. rewrite reverse_seqZ in Hn by lia. injection Hn as -> Hrest.
    assert (Hxs : slot a x) by (apply Hfs; set_solver).
    split; [split; cbn; try done; [split; [lia|done]|intros n Hin; apply Hc; set_solver|]|].
    + split; [done|]. intros y Hy. apply Hfs. set_solver.
    + split; [done|]. split; [done|]. unfold allocated. change (slot a') with (slot a). rewrite Hfs0. split; [set_solver|].
      intros y. rewrite not_elem_of_cons. destruct (decide (y = x)) as [->|]; [naive_solver|tauto].
Qed.

Lemma arena_free_ok a x :
  ainv a → allocated a x →
  ∃ a', ArenaFree a x = Some a' ∧ ainv a' ∧ ob_size_ a' = ob_size_ a ∧ ∀ y, allocated a' y ↔ y ≠ x ∧ allocated a y.
Proof.
  intros Hi [[Hx Hm] Hxf]. pose proof Hi as [Hs Ht He [Hc0 Hn] Hc [Hnd Hfs]]. unfold ArenaFree.
  rewrite (proj2 (Z.leb_le _ _)), (proj2 (Z.ltb_lt _ _)) by lia. cbn. eexists. split; [done|]. set (a' := mk_arena _ _ _ _ _ _ _).
  assert (Hfs' : free_slots a' = x :: free_slots a).
  { unfold free_slots. cbn. rewrite lookup_insert_eq. f_equal. assert (Hb : ∀ n, n ∈ free_ a → n ≠ c_top_ a).
    { intros n Hin. pose proof (node_bound a n Hi Hin). lia. }
    clear -Hb. induction (free_ a) as [|n l IH]; [done|]. cbn. rewrite lookup_insert_ne by (symmetry; apply Hb; set_solver).
    destruct (ctrl a !! n); [f_equal|]; apply IH; intros m Hm; apply Hb; set_solver. }
  split; [split; cbn; try done; [split; [lia|by rewrite reverse_seqZ, Hn by lia]| |]|].
  - intros n [->|Hin]%elem_of_cons; [by rewrite lookup_insert_eq|]. pose proof (node_bound a n Hi Hin). rewrite lookup_insert_ne by lia. by apply Hc.
  - change (NoDup (free_slots a') ∧ ∀ y, y ∈ free_slots a' → slot a y). rewrite Hfs'. split; [by constructor|]. intros y [->|Hy]%elem_of_cons; [done|by apply Hfs].
  - split; [done|]. intros y. unfold allocated. change (slot a') with (slot a). rewrite Hfs', not_elem_of_cons. tauto.
Qed.

Lemma arena_init_ok name_len ob count :
  0 < ob ≤ PAGE_SIZE → 0 < count → count * ob < 2 ^ 32 → name_len < 24 →
  ∃ a, ArenaInit name_len ob count 0 true 0 = (NO_ERROR, a) ∧ ainv a ∧ ∀ x, ¬ allocated a x.
Proof.
  intros Ho Hcn Hmax Hl. unfold ArenaInit. rewrite (proj2 (Z.eqb_neq ob 0)), (proj2 (Z.eqb_neq count 0)) by lia. unfold PAGE_SIZE in *.
  destruct (ob >? 4096) eqn:E1; [lia|]. destruct (name_len >=? 24) eqn:E2; [lia|]. cbn. eexists. split; [done|]. rewrite u64_id by (unfold is_u64; nia). split.
  - split; cbn; unfold PAGE_SIZE; try done; [split; [nia|apply Z.mod_0_l; lia]|split; [done|apply Z_mod_mult]|intros n Hn; by apply not_elem_of_nil in Hn|].
    split; [constructor|]. intros x Hx. by apply not_elem_of_nil in Hx.
  - intros x [[? _] _]. cbn in *. lia.
Qed.

(** ** Values of handles *)

Lemma u32_bits x i : 0 ≤ i → Z.testbit (u32 x) i = (i <? 32) && Z.testbit x i.
Proof.
  intros Hi. unfold u32. destruct (i <? 32) eqn:E; zb; [by rewrite Z.mod_pow2_bits_low by lia|by rewrite Z.mod_pow2_bits_high by lia].
Qed.

Lemma u32_lxor a b : u32 (Z.lxor a b) = Z.lxor (u32 a) (u32 b).
Proof. apply Z.bits_inj'. intros i Hi. rewrite Z.lxor_spec, !u32_bits, Z.lxor_spec by done. by destruct (i <? 32). Qed.

Lemma u32_idem x : u32 (u32 x) = u32 x.
Proof. apply Zmod_mod. Qed.

Lemma u32_add_l a b : u32 (u32 a + b) = u32 (a + b).
Proof. apply Zplus_mod_idemp_l. Qed.

Lemma u32_sub_l a b : u32 (u32 a - b) = u32 (a - b).
Proof. apply Zminus_mod_idemp_l. Qed.

Lemma u32_i32 x : u32 (i32 x) = u32 x.
Proof. unfold u32, i32. rewrite Zminus_mod_idemp_l. f_equal. lia. Qed.

Lemma i32_u32 x : i32 (u32 x) = i32 x.
Proof. unfold i32, u32. by rewrite Zplus_mod_idemp_l. Qed.

Definition is_i32 (x : Z) : Prop := - 2 ^ 31 ≤ x < 2 ^ 31.

Lemma i32_id x : is_i32 x → i32 x = x.
Proof. unfold is_i32, i32. intros Hx. rewrite Z.mod_small by lia. lia. Qed.

Lemma value_index p x : is_u32 (handle_rand_ p) → 0 ≤ x < 2 ^ 32 → index_of_value p (MapHandleToValue p x) = x.
Proof.
  intros Hr Hx. unfold index_of_value, MapHandleToValue, MapHandleToU32. rewrite <- u32_sub_l, u32_lxor, u32_i32, u32_lxor.
  rewrite !u32_idem, Z.lxor_assoc, Z.lxor_nilpotent, Z.lxor_0_r, u32_add_l, u32_sub_l. replace (x + 1 - 1) with x by lia. by apply u32_id.
Qed.

Lemma index_value p v : is_i32 v → MapHandleToValue p (index_of_value p v) = v.
Proof.
  intros Hv. unfold index_of_value, MapHandleToValue, MapHandleToU32. rewrite u32_idem, u32_add_l.
  replace (Z.lxor v (handle_rand_ p) - 1 + 1) with (Z.lxor v (handle_rand_ p)) by lia.
  rewrite <- u32_lxor, Z.lxor_assoc, Z.lxor_nilpotent, Z.lxor_0_r, i32_u32. by apply i32_id.
Qed.

(** ** Handles and tables *)

Record hinv (h : hstate) : Prop := {
  hi_arena : ainv (handle_arena h);
  hi_live : ∀ x, allocated (handle_arena h) x ↔ is_Some (dispatcher_ (get_handle h x));
  hi_zero : ∀ x, ¬ allocated (handle_arena h) x → get_handle h x = zero_handle }.

Record pinv (h : hstate) (p : process) : Prop := {
  pi_koid : koid p ≠ 0;
  pi_rand : is_u32 (handle_rand_ p);
  pi_nodup : NoDup (handles_ p);
  pi_list : ∀ x, x ∈ handles_ p ↔ process_id_ (get_handle h x) = koid p }.

Lemma slot_get_set h x v y : get_handle (set_slot h x v) y = if decide (y = x) then v else get_handle h y.
Proof.
  unfold get_handle, set_slot. cbn. case_decide as E; [subst; by rewrite lookup_insert_eq|by rewrite lookup_insert_ne].
Qed.

Lemma owned_allocated h p x : hinv h → pinv h p → x ∈ handles_ p → allocated (handle_arena h) x.
Proof.
  intros Hi Hp Hx. apply (pi_list _ _ Hp) in Hx. apply (hi_live _ Hi).
  destruct (dispatcher_ (get_handle h x)) eqn:E; [done|]. exfalso. apply (pi_koid _ _ Hp). rewrite <- Hx.
  rewrite (hi_zero _ Hi x); [done|]. rewrite (hi_live _ Hi), E. by intros [].
Qed.

(** A value names a handle of a process exactly when it was given for it. *)
Lemma lookup_exact h p v x :
  hinv h → pinv h p → is_i32 v → GetHandle h p v = Some x ↔ x ∈ handles_ p ∧ MapHandleToValue p x = v.
Proof.
  intros Hi Hp Hv. unfold GetHandle, MapU32ToHandle, HandleInRange, in_range. split.
  - destruct (negb (_ =? 0)) eqn:E1; [done|]. destruct (negb (_ && _)) eqn:E2; [done|]. destruct (_ =? koid p) eqn:E3; [|done].
    intros [= <-]. zb. split; [by apply (pi_list _ _ Hp)|by apply index_value].
  - intros [Hx <-]. destruct (owned_allocated h p x Hi Hp Hx) as [[Hr Hm] _]. pose proof (hi_arena _ Hi) as [Ho Ht He _ _ _].
    rewrite (value_index p x) by (apply Hp || lia). rewrite Hm, (proj2 (Z.leb_le _ _)), (proj2 (Z.ltb_lt _ _)) by lia. cbn.
    by rewrite (proj2 (Z.eqb_eq _ _) (proj1 (pi_list _ _ Hp x) Hx)).
Qed.

Lemma pinv_frame h h' p :
  (∀ x, process_id_ (get_handle h' x) = koid p ↔ process_id_ (get_handle h x) = koid p) → pinv h p → pinv h' p.
Proof. intros Hf []. split; try done. intros x. by rewrite Hf. Qed.

(** The slot of a new handle. *)
Lemma new_slot h a x v :
  hinv h → ainv a → ob_size_ a = ob_size_ (handle_arena h) → (∀ y, allocated a y ↔ y = x ∨ allocated (handle_arena h) y) →
  is_Some (dispatcher_ v) → hinv (set_slot (set_arena h a) x v).
Proof.
  intros Hi Ha Ho Hall Hd. split; cbn; [done| |]; intros y; rewrite Hall, slot_get_set; change (get_handle (set_arena h a)) with (get_handle h).
  - case_decide as E; [naive_solver|]. rewrite <- (hi_live _ Hi). naive_solver.
  - intros Hn. rewrite decide_False by naive_solver. apply (hi_zero _ Hi). naive_solver.
Qed.

Lemma hinv_counts h c z : hinv h → hinv (mk_hstate (handle_arena h) (slots h) c z).
Proof. intros []. by split. Qed.

Definition given (h : hstate) (x : Z) (v : Handle) (h' : hstate) : Prop :=
  hinv h' ∧ get_handle h x = zero_handle ∧ ∀ y, get_handle h' y = if decide (y = x) then v else get_handle h y.

Lemma make_ok h d rights len :
  hinv h → 0 ≤ len → ∃ r h', MakeHandle h d rights len = Some (r, h') ∧
    match r with Some x => given h x (mk_handle 0 rights (Some d)) h' | None => hinv h' ∧ get_handle h' = get_handle h end.
Proof.
  intros Hi Hl. destruct (arena_alloc_ok _ len (hi_arena _ Hi) Hl) as (r & a & E & Ha & Ho & Hr). unfold MakeHandle. rewrite E. cbn [mbind option_bind].
  eexists _, _. split; [done|]. destruct r as [x|].
  - destruct Hr as (_ & Hna & Hall). split; [apply hinv_counts, new_slot; done|]. split; [by apply (hi_zero _ Hi)|].
    intros y. exact (slot_get_set (set_arena h a) x (mk_handle 0 rights (Some d)) y).
  - destruct Hr as [-> _]. split; [|done]. destruct Hi. by split.
Qed.

Lemma dup_ok h source rights len :
  hinv h → 0 ≤ len → is_Some (dispatcher_ (get_handle h source)) → ∃ r h', DupHandle h source rights len = Some (r, h') ∧
    match r with
    | Some x => given h x (mk_handle (process_id_ (get_handle h source)) rights (dispatcher_ (get_handle h source))) h'
    | None => hinv h' ∧ get_handle h' = get_handle h end.
Proof.
  intros Hi Hl Hd. destruct (arena_alloc_ok _ len (hi_arena _ Hi) Hl) as (r & a & E & Ha & Ho & Hr). unfold DupHandle. rewrite E. cbn [mbind option_bind].
  eexists _, _. split; [done|]. destruct r as [x|].
  - destruct Hr as (_ & Hna & Hall). split; [apply new_slot; done|]. split; [by apply (hi_zero _ Hi)|].
    intros y. exact (slot_get_set (set_arena h a) x _ y).
  - destruct Hr as [-> _]. split; [|done]. destruct Hi. by split.
Qed.

Lemma set_pid_ok h x pid : hinv h → allocated (handle_arena h) x → hinv (set_process_id h x pid).
Proof.
  intros Hi Hx. unfold set_process_id. split; cbn; [apply Hi| |]; intros y; rewrite slot_get_set.
  - case_decide as E; [subst; cbn; by rewrite <- (hi_live _ Hi)|apply (hi_live _ Hi)].
  - intros Hn. rewrite decide_False by naive_solver. by apply (hi_zero _ Hi).
Qed.

Lemma get_set_pid h x pid y :
  get_handle (set_process_id h x pid) y = if decide (y = x) then mk_handle pid (rights_ (get_handle h x)) (dispatcher_ (get_handle h x)) else get_handle h y.
Proof. apply slot_get_set. Qed.

(** A handle that belongs to no process joins a table. *)
Lemma table_add_ok h p x :
  hinv h → pinv h p → allocated (handle_arena h) x → process_id_ (get_handle h x) ≠ koid p →
  let '(h', p') := AddHandle h p x in hinv h' ∧ pinv h' p'.
Proof.
  intros Hi Hp Hx Hpid. cbn. split; [by apply set_pid_ok|]. destruct Hp as [Hk Hr Hnd Hl]. split; cbn; [done|done| |].
  - constructor; [|done]. by rewrite Hl.
  - intros y. rewrite get_set_pid, elem_of_cons, Hl. case_decide; [subst; cbn; tauto|tauto].
Qed.

Lemma remove_ok h p v :
  hinv h → pinv h p → is_i32 v → ∃ r h' p', RemoveHandle h p v = Some (r, h', p') ∧ hinv h' ∧ pinv h' p' ∧ koid p' = koid p ∧
    match r with
    | Some x => x ∈ handles_ p ∧ MapHandleToValue p x = v ∧ handles_ p' = filter (λ y, y ≠ x) (handles_ p) ∧
        h' = set_process_id h x 0 ∧ allocated (handle_arena h') x
    | None => h' = h ∧ p' = p end.
Proof.
  intros Hi Hp Hv. unfold RemoveHandle. destruct (GetHandle h p v) as [x|] eqn:E.
  - apply (lookup_exact h p v x Hi Hp Hv) in E as [Hx Hm]. rewrite bool_decide_eq_true_2 by done. eexists _, _, _. split; [done|].
    pose proof (owned_allocated h p x Hi Hp Hx) as Ha. split; [by apply set_pid_ok|]. split; [|done].
    destruct Hp as [Hk Hr Hnd Hl]. split; cbn; [done|done|by apply list.NoDup_filter|].
    intros y. rewrite get_set_pid, list_elem_of_filter, Hl. case_decide; cbn; [split; [tauto|intros Hz; congruence]|tauto].
  - eexists _, _, _. split; [done|]. done.
Qed.

Section delete_facts.
Context {K : Type} (cancel : K → nat → Z → option K) (Kok : K → Prop).
Context (cancel_total : ∀ k d x, Kok k → ∃ k', cancel k d x = Some k' ∧ Kok k').

Lemma delete_ok k h x :
  Kok k → hinv h → allocated (handle_arena h) x → ∃ k' h', DeleteHandle cancel k h x = Some (k', h') ∧ Kok k' ∧ hinv h' ∧
    ∀ y, get_handle h' y = if decide (y = x) then zero_handle else get_handle h y.
Proof using cancel_total.
  intros Hk Hi Hx. destruct (proj1 (hi_live _ Hi x) Hx) as [d Hd]. destruct (cancel_total k d x Hk) as (k' & Ek & Hk').
  unfold DeleteHandle, Handle_destroy. rewrite Hd. cbn [mbind option_bind]. rewrite Ek. cbn [mbind option_bind].
  destruct (arena_free_ok _ x (hi_arena _ Hi) Hx) as (a & Ea & Ha & Ho & Hall). cbn [handle_arena set_slot remove_handle]. rewrite Ea. cbn [mbind option_bind].
  eexists _, _. split; [done|]. split; [done|]. set (h' := set_arena _ a).
  assert (Hg : ∀ y, get_handle h' y = if decide (y = x) then zero_handle else get_handle h y) by (intros y; exact (slot_get_set (remove_handle h d) x zero_handle y)).
  split; [|done]. split; [done| |]; intros y; rewrite Hg; change (handle_arena h') with a; rewrite Hall.
  - case_decide as E; [subst; split; [tauto|by intros []]|]. rewrite <- (hi_live _ Hi). tauto.
  - case_decide as E; [done|]. intros Hn. apply (hi_zero _ Hi). tauto.
Qed.

End delete_facts.

(** ** Processes that share the arena *)

Record sys (K : Type) := mk_sys { sys_k : K; sys_h : hstate; sys_procs : gmap Z process }.
Arguments mk_sys {K}. Arguments sys_k {K}. Arguments sys_h {K}. Arguments sys_procs {K}.

Record sysinv {K} (Kok : K → Prop) (s : sys K) : Prop := {
  si_k : Kok (sys_k s);
  si_h : hinv (sys_h s);
  si_procs : ∀ id p, sys_procs s !! id = Some p → koid p = id ∧ pinv (sys_h s) p }.

(** A new object for a process, and the system calls on its handles; a message
    takes handles from a table and gives them to another. *)
Inductive op :=
| HCreate (id : Z) (d : nat) (rights len : Z)
| HDuplicate (id v rights len : Z)
| HClose (id v : Z)
| HTake (id v : Z)
| HGive (id x : Z).

Definition op_process (o : op) : Z :=
  match o with HCreate id _ _ _ | HDuplicate id _ _ _ | HClose id _ | HTake id _ | HGive id _ => id end.

(** Memory is committed, values are 32-bit, and a handle that is given to a
    process belongs to none. *)
Definition op_ok (h : hstate) (o : op) : Prop :=
  match o with
  | HCreate _ _ _ len => 0 ≤ len
  | HDuplicate _ v _ len => is_i32 v ∧ 0 ≤ len
  | HClose _ v | HTake _ v => is_i32 v
  | HGive _ x => allocated (handle_arena h) x ∧ process_id_ (get_handle h x) = 0
  end.

Definition run {K} (cancel : K → nat → Z → option K) (k : K) (h : hstate) (p : process) (o : op) : option (K * hstate * process) :=
  match o with
  | HCreate _ d rights len =>
    '(r, h1) ← MakeHandle h d rights len;
    Some match r with Some x => let '(h2, p2) := AddHandle h1 p x in (k, h2, p2) | None => (k, h1, p) end
  | HDuplicate _ v rights len => '(_, h1, p1) ← sys_handle_duplicate h p v rights len; Some (k, h1, p1)
  | HClose _ v => '(_, k1, h1, p1) ← sys_handle_close cancel k h p v; Some (k1, h1, p1)
  | HTake _ v => '(_, h1, p1) ← RemoveHandle h p v; Some (k, h1, p1)
  | HGive _ x => let '(h1, p1) := AddHandle h p x in Some (k, h1, p1)
  end.

(** The other processes keep their handles. *)
Definition frame (h h' : hstate) (id : Z) : Prop :=
  ∀ i x, i ≠ 0 → i ≠ id → process_id_ (get_handle h' x) = i ↔ process_id_ (get_handle h x) = i.

Definition kept {K} (Kok : K → Prop) (h : hstate) (p : process) (r : option (K * hstate * process)) : Prop :=
  ∃ k' h' p', r = Some (k', h', p') ∧ Kok k' ∧ hinv h' ∧ pinv h' p' ∧ koid p' = koid p ∧ frame h h' (koid p).

Lemma frame_pid h x p pid :
  (process_id_ (get_handle h x) = 0 ∨ process_id_ (get_handle h x) = koid p) → pid = 0 ∨ pid = koid p →
  frame h (set_process_id h x pid) (koid p).
Proof. intros H1 H2 i y Hi Hne. rewrite get_set_pid. case_decide; [subst; cbn; naive_solver|done]. Qed.

Lemma frame_trans h1 h2 h3 id : frame h1 h2 id → frame h2 h3 id → frame h1 h3 id.
Proof. intros H1 H2 i x Hi Hne. rewrite (H2 i x Hi Hne). by apply H1. Qed.

(** A slot that belongs to nobody, or to the process, is written. *)
Lemma frame_slot h h' x v id :
  (∀ y, get_handle h' y = if decide (y = x) then v else get_handle h y) →
  (process_id_ (get_handle h x) = 0 ∨ process_id_ (get_handle h x) = id) → (process_id_ v = 0 ∨ process_id_ v = id) → frame h h' id.
Proof. intros Hg H1 H2 i y Hi Hne. rewrite Hg. case_decide; [subst; naive_solver|done]. Qed.

Lemma given_pid h x v h' p :
  pinv h p → given h x v h' → is_Some (dispatcher_ v) → allocated (handle_arena h') x.
Proof. intros _ (Hi & _ & Hg) Hd. apply (hi_live _ Hi). by rewrite Hg, decide_True. Qed.

(** A fresh handle joins a table, whatever process its constructor named. *)
Lemma give_new h x v h1 p :
  hinv h → pinv h p → given h x v h1 → is_Some (dispatcher_ v) → process_id_ v = 0 ∨ process_id_ v = koid p →
  let '(h2, p2) := AddHandle h1 p x in hinv h2 ∧ pinv h2 p2 ∧ koid p2 = koid p ∧ frame h h2 (koid p).
Proof.
  intros Hi Hp Hgv Hd Hv. pose proof (given_pid h x v h1 p Hp Hgv Hd) as Ha. destruct Hgv as (Hi1 & Hz & Hg). cbn.
  assert (Hx1 : get_handle h1 x = v) by (by rewrite Hg, decide_True). split; [by apply set_pid_ok|]. split; [|split; [done|]].
  - destruct Hp as [Hk Hr Hnd Hl]. split; cbn; [done|done| |].
    + constructor; [|done]. rewrite Hl, Hz. cbn. congruence.
    + intros y. rewrite get_set_pid, elem_of_cons, Hl, (Hg y). destruct (decide (y = x)); [subst; cbn; tauto|tauto].
  - apply (frame_trans _ h1); [apply (frame_slot _ _ x v _ Hg); [rewrite Hz; by left|done]|]. apply frame_pid; [by rewrite Hx1|by right].
Qed.

Lemma run_create {K} (cancel : K → nat → Z → option K) (Kok : K → Prop) k h p id d rights len :
  Kok k → hinv h → pinv h p → 0 ≤ len → kept Kok h p (run cancel k h p (HCreate id d rights len)).
Proof.
  intros Hk Hi Hp Hl. cbn [run]. destruct (make_ok h d rights len Hi Hl) as (r & h1 & E & Hr). rewrite E. cbn [mbind option_bind]. destruct r as [x|].
  - pose proof (give_new h x _ h1 p Hi Hp Hr ltac:(done) (or_introl eq_refl)) as (? & ? & ? & ?). eexists _, _, _. split; [done|]. done.
  - destruct Hr as [Hi1 Hg]. exists k, h1, p. split; [done|]. split; [done|]. split; [done|].
    split; [apply (pinv_frame h); [by rewrite Hg|done]|]. split; [done|]. intros i x _ _. by rewrite Hg.
Qed.

Lemma run_duplicate {K} (cancel : K → nat → Z → option K) (Kok : K → Prop) k h p id v rights len :
  Kok k → hinv h → pinv h p → is_i32 v → 0 ≤ len → kept Kok h p (run cancel k h p (HDuplicate id v rights len)).
Proof.
  intros Hk Hi Hp Hv Hl. cbn [run]. unfold sys_handle_duplicate. assert (Hsame : kept Kok h p (Some (k, h, p))) by (exists k, h, p; done).
  destruct (GetHandle h p v) as [src|] eqn:E; [|done]. apply (lookup_exact h p v src Hi Hp Hv) in E as [Hsrc _].
  destruct (negb (magenta_rights_check _ _)); [done|]. destruct (_ && _); [done|].
  pose proof (proj1 (hi_live _ Hi src) (owned_allocated h p src Hi Hp Hsrc)) as Hd.
  match goal with |- context [DupHandle h src ?rs len] => destruct (dup_ok h src rs len Hi Hl Hd) as (r & h1 & E & Hr) end.
  rewrite E. cbn [mbind option_bind]. destruct r as [x|].
  - pose proof (proj1 (pi_list _ _ Hp src) Hsrc) as Hpid.
    pose proof (give_new h x _ h1 p Hi Hp Hr Hd (or_intror Hpid)) as (? & ? & ? & ?). eexists _, _, _. split; [done|]. done.
  - destruct Hr as [Hi1 Hg]. exists k, h1, p. split; [done|]. split; [done|]. split; [done|].
    split; [apply (pinv_frame h); [by rewrite Hg|done]|]. split; [done|]. intros i x _ _. by rewrite Hg.
Qed.

Lemma run_take {K} (cancel : K → nat → Z → option K) (Kok : K → Prop) k h p id v :
  Kok k → hinv h → pinv h p → is_i32 v → kept Kok h p (run cancel k h p (HTake id v)).
Proof.
  intros Hk Hi Hp Hv. cbn [run]. destruct (remove_ok h p v Hi Hp Hv) as (r & h1 & p1 & E & Hi1 & Hp1 & Hko & Hr). rewrite E. cbn [mbind option_bind].
  exists k, h1, p1. do 5 (split; [done|]). destruct r as [x|]; [|by destruct Hr as [-> ->]].
  destruct Hr as (Hx & _ & _ & -> & _). apply frame_pid; [right; by apply (pi_list _ _ Hp)|by left].
Qed.

Lemma run_close {K} (cancel : K → nat → Z → option K) (Kok : K → Prop) k h p id v :
  (∀ k d x, Kok k → ∃ k', cancel k d x = Some k' ∧ Kok k') →
  Kok k → hinv h → pinv h p → is_i32 v → kept Kok h p (run cancel k h p (HClose id v)).
Proof.
  intros Htot Hk Hi Hp Hv. cbn [run]. unfold sys_handle_close.
  destruct (remove_ok h p v Hi Hp Hv) as (r & h1 & p1 & E & Hi1 & Hp1 & Hko & Hr). rewrite E. cbn [mbind option_bind].
  destruct r as [x|]; [|destruct Hr as [-> ->]; by exists k, h, p]. destruct Hr as (Hx & _ & _ & -> & Ha).
  destruct (delete_ok cancel Kok Htot k _ x Hk Hi1 Ha) as (k' & h2 & Ed & Hk' & Hi2 & Hg). rewrite Ed. cbn [mbind option_bind].
  assert (Hz : process_id_ (get_handle (set_process_id h x 0) x) = 0) by (by rewrite get_set_pid, decide_True).
  exists k', h2, p1. split; [done|]. split; [done|]. split; [done|]. split; [|split; [done|]].
  - apply (pinv_frame (set_process_id h x 0)); [|done]. intros y. rewrite Hg. case_decide; [subst; by rewrite Hz|done].
  - apply (frame_trans _ (set_process_id h x 0)); [apply frame_pid; [right; by apply (pi_list _ _ Hp)|by left]|].
    apply (frame_slot _ _ x _ _ Hg); [by left|by left].
Qed.

Lemma run_give {K} (cancel : K → nat → Z → option K) (Kok : K → Prop) k h p id x :
  Kok k → hinv h → pinv h p → allocated (handle_arena h) x → process_id_ (get_handle h x) = 0 → kept Kok h p (run cancel k h p (HGive id x)).
Proof.
  intros Hk Hi Hp Ha Hz. assert (Hne : process_id_ (get_handle h x) ≠ koid p) by (rewrite Hz; intros E; by apply (pi_koid _ _ Hp)).
  pose proof (table_add_ok h p x Hi Hp Ha Hne) as [Hi1 Hp1]. eexists _, _, _. split; [reflexivity|]. do 4 (split; [done|]). apply frame_pid; [by left|by right].
Qed.

Lemma run_kept {K} (cancel : K → nat → Z → option K) (Kok : K → Prop) k h p o :
  (∀ k d x, Kok k → ∃ k', cancel k d x = Some k' ∧ Kok k') →
  Kok k → hinv h → pinv h p → op_ok h o → kept Kok h p (run cancel k h p o).
Proof.
  intros Ht Hk Hi Hp Ho. destruct o; cbn in Ho;
    [by apply run_create|destruct Ho; by apply run_duplicate|by apply run_close|by apply run_take|destruct Ho; by apply run_give].
Qed.

(** A duplicate names the object of its source, with no right the source lacks. *)
Definition attenuates (h : hstate) (p : process) (v status : Z) (h' : hstate) (p' : process) : Prop :=
  p' = p ∧ get_handle h' = get_handle h ∨
  ∃ src x, src ∈ handles_ p ∧ MapHandleToValue p src = v ∧ x ∉ handles_ p ∧ handles_ p' = x :: handles_ p ∧
    status = MapHandleToValue p x ∧ dispatcher_ (get_handle h' x) = dispatcher_ (get_handle h src) ∧
    Z.land (rights_ (get_handle h src)) (rights_ (get_handle h' x)) = rights_ (get_handle h' x).

Lemma duplicate_attenuates h p v rights len r h' p' :
  hinv h → pinv h p → is_i32 v → 0 ≤ len → sys_handle_duplicate h p v rights len = Some (r, h', p') → attenuates h p v r h' p'.
Proof.
  intros Hi Hp Hv Hl. unfold sys_handle_duplicate. destruct (GetHandle h p v) as [src|] eqn:E; [|intros [= <- <- <-]; by left].
  apply (lookup_exact h p v src Hi Hp Hv) in E as [Hsrc Hval]. pose proof (proj1 (hi_live _ Hi src) (owned_allocated h p src Hi Hp Hsrc)) as Hd.
  destruct (negb (magenta_rights_check _ _)); [intros [= <- <- <-]; by left|]. destruct (_ && _) eqn:Er; [intros [= <- <- <-]; by left|].
  set (rs := if rights =? _ then _ else _). destruct (dup_ok h src rs len Hi Hl Hd) as (dest & h1 & E & Hr). rewrite E. cbn [mbind option_bind].
  destruct dest as [x|]; [|intros [= <- <- <-]; left; split; [done|by destruct Hr]]. destruct Hr as (_ & Hz & Hg). intros [= <- <- <-]. right. exists src, x.
  split; [done|]. split; [done|]. split; [rewrite (pi_list _ _ Hp), Hz; cbn; intros E0; by apply (pi_koid _ _ Hp)|]. split; [done|]. split; [done|].
  rewrite get_set_pid, decide_True by done. cbn. rewrite !(Hg x), decide_True by done. cbn. split; [done|]. unfold rs. destruct (rights =? _) eqn:Es.
  - apply Z.land_diag.
  - cbn in Er. apply negb_false_iff in Er. by zb.
Qed.

Definition exec {K} (cancel : K → nat → Z → option K) (s : sys K) (o : op) : option (sys K) :=
  p ← sys_procs s !! op_process o;
  '(k', h', p') ← run cancel (sys_k s) (sys_h s) p o;
  Some (mk_sys k' h' (<[op_process o := p']> (sys_procs s))).

(** Processes with empty tables over a fresh arena. *)
Definition boot {K} (k : K) (size count : Z) (procs : gmap Z process) : sys K :=
  mk_sys k (mk_hstate (ArenaInit 7 size count 0 true 0).2 ∅ ∅ []) procs.

Inductive reaches {K} (cancel : K → nat → Z → option K) : sys K → sys K → Prop :=
| reaches_refl s : reaches cancel s s
| reaches_step s s1 s2 o : reaches cancel s s1 → op_ok (sys_h s1) o → exec cancel s1 o = Some s2 → reaches cancel s s2.

Lemma handle_exec_ok {K} (cancel : K → nat → Z → option K) (Kok : K → Prop) s o :
  (∀ k d x, Kok k → ∃ k', cancel k d x = Some k' ∧ Kok k') →
  sysinv Kok s → op_ok (sys_h s) o → is_Some (sys_procs s !! op_process o) → ∃ s', exec cancel s o = Some s' ∧ sysinv Kok s'.
Proof.
  intros Ht [Hk Hi Hps] Ho [p Hp]. unfold exec. rewrite Hp. cbn [mbind option_bind]. destruct (Hps _ _ Hp) as [Hid Hpi].
  destruct (run_kept cancel Kok _ _ p o Ht Hk Hi Hpi Ho) as (k' & h' & p' & E & Hk' & Hi' & Hp' & Hko & Hf). rewrite E. cbn [mbind option_bind].
  eexists. split; [done|]. split; cbn; [done|done|]. intros id q. destruct (decide (id = op_process o)) as [->|Hne].
  - rewrite lookup_insert_eq. intros [= <-]. split; [congruence|done].
  - rewrite lookup_insert_ne by done. intros Hq. destruct (Hps _ _ Hq) as [Hidq Hpq]. split; [done|].
    apply (pinv_frame (sys_h s)); [|done]. intros x. apply Hf; [apply Hpq|congruence].
Qed.

Lemma new_process_rand id rand : is_u32 (handle_rand_ (new_process id rand)).
Proof.
  unfold new_process, is_u32. cbn [handle_rand_]. replace (2 ^ 31 - 1) with (Z.ones 31) by done. rewrite Z.land_ones by lia.
  pose proof (Z.mod_pos_bound (i32 (Z.shiftl rand 2)) (2 ^ 31)). lia.
Qed.

Lemma handle_boot_ok {K} (Kok : K → Prop) k size count procs :
  0 < size ≤ PAGE_SIZE → 0 < count → count * size < 2 ^ 32 → Kok k →
  (∀ id p, procs !! id = Some p → id ≠ 0 ∧ ∃ rand, p = new_process id rand) → sysinv Kok (boot k size count procs).
Proof.
  intros Hs Hc Hm Hk Hps. destruct (arena_init_ok 7 size count Hs Hc Hm ltac:(lia)) as (a & E & Ha & Hn). unfold boot. rewrite E. cbn [snd].
  split; cbn; [done| |].
  - split; cbn; [done| |done]. intros x. split; [intros Hx; by apply Hn in Hx|]. unfold get_handle. cbn. rewrite lookup_empty. by intros [].
  - intros id p Hp. destruct (Hps _ _ Hp) as [Hne [rand ->]]. split; [done|]. split; [done|apply new_process_rand|constructor|].
    intros x. split; [intros Hx; by apply not_elem_of_nil in Hx|]. unfold get_handle. cbn. rewrite lookup_empty. cbn. congruence.
Qed.

Lemma reaches_inv {K} (cancel : K → nat → Z → option K) (Kok : K → Prop) s s' :
  (∀ k d x, Kok k → ∃ k', cancel k d x = Some k' ∧ Kok k') → reaches cancel s s' → sysinv Kok s → sysinv Kok s'.
Proof.
  intros Ht Hr. induction Hr as [|s s1 s2 o Hr IH Ho He]; intros Hs; [done|]. specialize (IH Hs).
  assert (Hp : is_Some (sys_procs s1 !! op_process o)) by (unfold exec in He; by destruct (sys_procs s1 !! op_process o)).
  destruct (handle_exec_ok cancel Kok s1 o Ht IH Ho Hp) as (s3 & E & H3). congruence.
Qed.

Lemma delete_counts {K} (cancel : K → nat → Z → option K) k h x d k' h' :
  dispatcher_ (get_handle h x) = Some d → DeleteHandle cancel k h x = Some (k', h') →
  zero_calls h' = if count_of h d =? 1 then zero_calls h ++ [d] else zero_calls h.
Proof.
  unfold DeleteHandle, Handle_destroy. intros ->. cbn [mbind option_bind]. destruct (cancel k d x); [|done]. cbn [mbind option_bind].
  destruct (ArenaFree _ x); [|done]. cbn [mbind option_bind]. by intros [= _ <-].
Qed.

Lemma dup_counts h source rights len r h' :
  DupHandle h source rights len = Some (r, h') → zero_calls h' = zero_calls h ∧ ∀ d, count_of h' d = count_of h d.
Proof.
  unfold DupHandle. destruct (ArenaAlloc _ len) as [[[x|] a]|]; [| |done]; cbn; by intros [= <- <-].
Qed.

Lemma value_range p x : is_i32 (MapHandleToValue p x).
Proof. unfold MapHandleToValue, is_i32, i32. pose proof (Z.mod_pos_bound (Z.lxor (u32 (MapHandleToU32 x + 1)) (u32 (handle_rand_ p)) + 2 ^ 31) (2 ^ 32)). lia. Qed.

(** A handle of the process that is not yet on its list. *)
Lemma close_unlisted {K} (cancel : K → nat → Z → option K) k h p x :
  hinv h → is_u32 (handle_rand_ p) → allocated (handle_arena h) x → process_id_ (get_handle h x) = koid p → x ∉ handles_ p →
  sys_handle_close cancel k h p (MapHandleToValue p x) = None.
Proof.
  intros Hi Hr [[Hx Hm] _] Hpid Hn. pose proof (hi_arena _ Hi) as [_ Ht He _ _ _].
  unfold sys_handle_close, RemoveHandle, GetHandle, MapU32ToHandle, HandleInRange, in_range. rewrite value_index by (done || lia).
  rewrite Hm, (proj2 (Z.leb_le _ _)), (proj2 (Z.ltb_lt _ _)) by lia. cbn. rewrite (proj2 (Z.eqb_eq _ _) Hpid), bool_decide_eq_false_2 by done. done.
Qed.


(** The constructor that duplicates a handle does not count it, and gives it the
    process of its source at once.  So after a duplicate of the only handle of an
    object, the first of the two to be deleted reports that the object has no
    handles, while the other still names it; and between the two halves of
    [sys_handle_duplicate], which releases the lock of the table in between, a close
    of the new value finds a handle that is not on the table's list and fails an
    assertion. *)
Theorem handle_duplicate_uncounted {K} (cancel : K → nat → Z → option K) (Kok : K → Prop) k h p x d rights len y h' :
  (∀ k d x, Kok k → ∃ k', cancel k d x = Some k' ∧ Kok k') → Kok k →
  hinv h → pinv h p → 0 ≤ len → x ∈ handles_ p → dispatcher_ (get_handle h x) = Some d → count_of h d = 1 →
  DupHandle h x rights len = Some (Some y, h') →
  sys_handle_close cancel k h' p (MapHandleToValue p y) = None ∧
  ∃ k1 h1, DeleteHandle cancel k h' x = Some (k1, h1) ∧ zero_calls h1 = zero_calls h ++ [d] ∧ dispatcher_ (get_handle h1 y) = Some d.
Proof.
  intros Ht Hk Hi Hp Hl Hx Hd Hc E. destruct (dup_counts _ _ _ _ _ _ E) as [Hz Hcs].
  destruct (dup_ok h x rights len Hi Hl ltac:(by rewrite Hd)) as (r & h0 & E' & Hr). rewrite E in E'. injection E' as <- <-.
  destruct Hr as (Hi' & Hzero & Hg). pose proof (proj1 (pi_list _ _ Hp x) Hx) as Hpid.
  assert (Hne : x ≠ y) by (intros ->; by rewrite Hzero in Hd).
  assert (Hy : get_handle h' y = mk_handle (koid p) rights (Some d)) by (rewrite Hg, decide_True by done; by rewrite Hpid, Hd).
  assert (Hgx : get_handle h' x = get_handle h x) by (by rewrite Hg, decide_False).
  split; [apply close_unlisted; [done|apply Hp|apply (hi_live _ Hi'); by rewrite Hy|by rewrite Hy|]|].
  - rewrite (pi_list _ _ Hp), Hzero. cbn. intros E0. by apply (pi_koid _ _ Hp).
  - destruct (delete_ok cancel Kok Ht k h' x Hk Hi') as (k1 & h1 & Ed & _ & _ & Hg1); [apply (hi_live _ Hi'); by rewrite Hgx, Hd|].
    exists k1, h1. split; [done|]. rewrite (delete_counts cancel k h' x d k1 h1 ltac:(by rewrite Hgx) Ed), Hcs, Hc, Hz. split; [done|].
    rewrite Hg1, decide_False, Hy by done. done.
Qed.

(** ** Witnesses *)

Definition ex_cancel (k : unit) (_ : nat) (_ : Z) : option unit := Some k.

Definition ex_procs : gmap Z process := {[ 5 := new_process 5 77; 6 := new_process 6 123456789 ]}.

Lemma ex_procs_new id p : ex_procs !! id = Some p → id ≠ 0 ∧ ∃ rand, p = new_process id rand.
Proof.
  unfold ex_procs. rewrite lookup_insert_Some, lookup_singleton_Some. intros [[<- <-]|(_ & <- & <-)]; (split; [done|by eexists]).
Qed.

Definition ex_boot : sys unit := boot () 32 100 ex_procs.
Definition ex_run (s : sys unit) (o : op) : sys unit := default s (exec ex_cancel s o).

(** Process 5 creates an object and duplicates its handle. *)
Definition ex_created : sys unit := ex_run ex_boot (HCreate 5 9 3 16384).
Definition ex_value : Z := MapHandleToValue (new_process 5 77) 0.
Definition ex_two : sys unit := ex_run ex_created (HDuplicate 5 ex_value 1 16384).

Lemma ex_two_reached : reaches ex_cancel ex_boot ex_two.
Proof.
  apply (reaches_step ex_cancel _ ex_created _ (HDuplicate 5 ex_value 1 16384)); [|split; [split; vm_compute; congruence|done]|reflexivity].
  apply (reaches_step ex_cancel _ ex_boot _ (HCreate 5 9 3 16384)); [constructor|done|reflexivity].
Qed.

Lemma ex_cancel_total k d x : True → ∃ k', ex_cancel k d x = Some k' ∧ True.
Proof. intros _. by exists k. Qed.

Definition ex_process (l : list Z) : process := mk_process 5 308 l.


Lemma ex_created_inv : sysinv (λ _, True) ex_created.
Proof.
  apply (reaches_inv ex_cancel (λ _, True) ex_boot); [exact ex_cancel_total| |].
  - apply (reaches_step ex_cancel _ ex_boot _ (HCreate 5 9 3 16384)); [constructor|done|reflexivity].
  - apply handle_boot_ok; [vm_compute; split; congruence|lia|lia|done|exact ex_procs_new].
Qed.

Lemma handle_duplicate_uncounted_witness :
  ∃ h', DupHandle (sys_h ex_created) 0 1 16384 = Some (Some 32, h') ∧
    sys_handle_close ex_cancel () h' (ex_process [0]) (MapHandleToValue (ex_process [0]) 32) = None.
Proof.
  eexists. split; [vm_compute; reflexivity|].
  apply (handle_duplicate_uncounted ex_cancel (λ _, True) () (sys_h ex_created) (ex_process [0]) 0 9 1 16384 32 _ ex_cancel_total I);
    [apply ex_created_inv|apply (si_procs _ _ ex_created_inv 5); vm_compute; reflexivity|lia|apply list_elem_of_here|vm_compute; reflexivity..].
Defined.

End HandlesFacts.
