(* ===== verification/CString.v ===== *)
(** * The memory and string routines of the kernel's C library

    [src/kernel/lib/libc/string/*.c] and [bsearch.c].  The memory is a finite map
    from addresses to bytes; an access to an address that is not mapped makes the
    routine [None].  A loop with a counter recurses on the counter, a loop over a
    string on [fuel]: each turn reads an address the loop has not read before, so
    [fuel_of], one more than the number of mapped addresses, is never used up before
    the loop ends or faults.  A [size_t] counter is a [Z] wrapped at 64 bits, an
    [int] one is wrapped at 32; a word has eight bytes. *)

From stdpp Require Import base tactics numbers list list_numbers gmap.
From Stdlib Require Import ZArith.
From S2P Require Import Prelude.
#[local] Open Scope Z_scope.

Module CString.

Notation memory := (gmap Z Z).

Definition fuel_of (m : memory) : nat := S (size m).

(** [n] bytes from address [a] on. *)
Fixpoint load_bytes (m : memory) (a : Z) (n : nat) : option (list Z) :=
  match n with
  | O => Some []
  | S n' => b ← m !! a; l ← load_bytes m (a + 1) n'; Some (b :: l)
  end.

Definition store (m : memory) (a b : Z) : option memory := ASSERT bool_decide (is_Some (m !! a)); Some (<[a := b]> m).

Fixpoint store_bytes (m : memory) (a : Z) (l : list Z) : option memory :=
  match l with
  | [] => Some m
  | b :: l' => m1 ← store m a b; store_bytes m1 (a + 1) l'
  end.

(** The bytes of a number, least significant first. *)
Fixpoint bytes_of (x : Z) (n : nat) : list Z :=
  match n with O => [] | S n' => x mod 256 :: bytes_of (x / 256) n' end.

Definition schar (b : Z) : Z := (b + 128) mod 256 - 128.

Definition lsize : Z := 8.
Definition lmask : Z := lsize - 1.

(** ** Copying *)

(** [*d = *s] for an object of [b] bytes. *)
Definition move (m : memory) (d s : Z) (b : nat) : option memory := l ← load_bytes m s b; store_bytes m d l.

(** [n] turns of [*d++ = *s++], with pointers to objects of [b] bytes. *)
Fixpoint move_up (b : nat) (n : nat) (m : memory) (d s : Z) : option (memory * Z * Z) :=
  match n with
  | O => Some (m, d, s)
  | S n' => m1 ← move m d s b; move_up b n' m1 (d + Z.of_nat b) (s + Z.of_nat b)
  end.

(** [n] turns of [*--d = *--s]. *)
Fixpoint move_down (b : nat) (n : nat) (m : memory) (d s : Z) : option (memory * Z * Z) :=
  match n with
  | O => Some (m, d, s)
  | S n' =>
    let d1 := d - Z.of_nat b in let s1 := s - Z.of_nat b in
    m1 ← move m d1 s1 b; move_down b n' m1 d1 s1
  end.

(** A [for (; len > 0; len--)] loop makes no turn for a negative [len]. *)
Definition turns (len : Z) : nat := Z.to_nat (i32 len).

(** The loop up to a word boundary, or over all bytes if the blocks are aligned
    differently or small. *)
Definition align_up (m : memory) (d s count : Z) : option (memory * Z * Z * Z) :=
  if negb (Z.land (Z.lor d s) lmask =? 0) then
    let len := if negb (Z.land (Z.lxor d s) lmask =? 0) || (count <? lsize) then i32 count else lsize - Z.land d lmask in
    '(m1, d1, s1) ← move_up 1 (turns len) m d s; Some (m1, d1, s1, u64 (count - len))
  else Some (m, d, s, count).

Definition align_down (m : memory) (d s count : Z) : option (memory * Z * Z * Z) :=
  if negb (Z.land (Z.lor d s) lmask =? 0) then
    let len := if negb (Z.land (Z.lxor d s) lmask =? 0) || (count <=? lsize) then i32 count else Z.land d lmask in
    '(m1, d1, s1) ← move_down 1 (turns len) m d s; Some (m1, d1, s1, u64 (count - len))
  else Some (m, d, s, count).

(** The loops of a copy from low to high addresses, and from high to low. *)
Definition copy_up (m : memory) (d s count : Z) : option memory :=
  '(m1, d1, s1, count1) ← align_up m d s count;
  '(m2, d2, s2) ← move_up (Z.to_nat lsize) (turns (count1 / lsize)) m1 d1 s1;
  '(m3, _, _) ← move_up 1 (turns (Z.land count1 lmask)) m2 d2 s2;
  Some m3.

Definition copy_down (m : memory) (d s count : Z) : option memory :=
  '(m1, d1, s1, count1) ← align_down m d s count;
  '(m2, d2, s2) ← move_down (Z.to_nat lsize) (turns (count1 / lsize)) m1 d1 s1;
  '(m3, _, _) ← move_down 1 (turns (Z.land count1 lmask)) m2 d2 s2;
  Some m3.

Definition memcpy (m : memory) (dest src count : Z) : option memory :=
  if (count =? 0) || (dest =? src) then Some m else copy_up m dest src count.

Definition memmove (m : memory) (dest src count : Z) : option memory :=
  if (count =? 0) || (dest =? src) then Some m
  else if dest <? src then copy_up m dest src count
  else copy_down m (dest + count) (src + count) count.

(** [n] turns of [*xs++ = w], with a pointer to objects of [length w] bytes. *)
Fixpoint fill (n : nat) (m : memory) (xs : Z) (w : list Z) : option (memory * Z) :=
  match n with
  | O => Some (m, xs)
  | S n' => m1 ← store_bytes m xs w; fill n' m1 (xs + zlen w) w
  end.

Definition memset (m : memory) (s c count : Z) : option memory :=
  let len := Z.land (u64 (- s)) 7 in
  let cc := Z.land c 255 in
  let byte := bytes_of c 1 in
  '(m1, xs1, count1) ←
    (if count >? len then
       let cc1 := Z.lor cc (Z.shiftl cc 8) in
       let cc2 := Z.lor cc1 (Z.shiftl cc1 16) in
       let cc3 := Z.lor cc2 (Z.shiftl cc2 32) in
       '(m1, xs1) ← fill (Z.to_nat len) m s byte;
       '(m2, xs2) ← fill (Z.to_nat ((count - len) / 8)) m1 xs1 (bytes_of cc3 8);
       Some (m2, xs2, Z.land (count - len) 7)
     else Some (m, s, count));
  '(m2, _) ← fill (Z.to_nat count1) m1 xs1 byte;
  Some m2.

Definition bcopy (m : memory) (src dest count : Z) : option memory := memcpy m dest src count.
Definition bzero (m : memory) (dst count : Z) : option memory := memset m dst 0 count.

(** ** Searching and comparing blocks *)

(** The offset of the byte, if it is found. *)
Fixpoint memchr_loop (n : nat) (m : memory) (b x i : Z) : option (option Z) :=
  match n with
  | O => Some None
  | S n' => c ← m !! (b + i); if c =? x then Some (Some (b + i)) else memchr_loop n' m b x (i + 1)
  end.

Definition memchr (m : memory) (buf c len : Z) : option (option Z) := memchr_loop (Z.to_nat len) m buf (Z.land c 255) 0.

Fixpoint memcmp_loop (n : nat) (m : memory) (su1 su2 res : Z) : option Z :=
  match n with
  | O => Some res
  | S n' =>
    x ← m !! su1; y ← m !! su2;
    let res1 := schar (x - y) in
    if negb (res1 =? 0) then Some res1 else memcmp_loop n' m (su1 + 1) (su2 + 1) res1
  end.

Definition memcmp (m : memory) (cs ct count : Z) : option Z := memcmp_loop (Z.to_nat count) m cs ct 0.

(** ** Strings *)

Fixpoint strlen_loop (fuel : nat) (m : memory) (s i : Z) : option Z :=
  match fuel with
  | O => None
  | S f => c ← m !! (s + i); if c =? 0 then Some i else strlen_loop f m s (i + 1)
  end.

Definition strlen (m : memory) (s : Z) : option Z := strlen_loop (fuel_of m) m s 0.

Fixpoint strnlen_loop (n : nat) (m : memory) (sc : Z) : option Z :=
  match n with
  | O => Some sc
  | S n' => c ← m !! sc; if c =? 0 then Some sc else strnlen_loop n' m (sc + 1)
  end.

Definition strnlen (m : memory) (s count : Z) : option Z := sc ← strnlen_loop (Z.to_nat count) m s; Some (sc - s).

(** Copies up to and including the terminator. *)
Fixpoint strcpy_loop (fuel : nat) (m : memory) (dest src : Z) : option memory :=
  match fuel with
  | O => None
  | S f => c ← m !! src; m1 ← store m dest c; if c =? 0 then Some m1 else strcpy_loop f m1 (dest + 1) (src + 1)
  end.

Definition strcpy (m : memory) (dest src : Z) : option memory := strcpy_loop (fuel_of m) m dest src.

Definition strcat (m : memory) (dest src : Z) : option memory :=
  n ← strlen_loop (fuel_of m) m dest 0; strcpy_loop (fuel_of m) m (dest + n) src.

Fixpoint strncpy_loop (n : nat) (m : memory) (dest src : Z) : option memory :=
  match n with
  | O => Some m
  | S n' => c ← m !! src; m1 ← store m dest c; if c =? 0 then Some m1 else strncpy_loop n' m1 (dest + 1) (src + 1)
  end.

Definition strncpy (m : memory) (dest src count : Z) : option memory := strncpy_loop (Z.to_nat count) m dest src.

(** [n] is the number of turns after this one. *)
Fixpoint strncat_loop (n : nat) (m : memory) (dest src : Z) : option memory :=
  c ← m !! src; m1 ← store m dest c;
  if c =? 0 then Some m1 else
  match n with
  | O => store m1 (dest + 1) 0
  | S n' => strncat_loop n' m1 (dest + 1) (src + 1)
  end.

Definition strncat (m : memory) (dest src count : Z) : option memory :=
  if count >? 0 then
    n ← strlen_loop (fuel_of m) m dest 0; strncat_loop (Z.to_nat (count - 1)) m (dest + n) src
  else Some m.

(** [for (i = 0; i < n && src[i]; i++) dst[i] = src[i]; dst[i] = 0;] and the final [i]. *)
Fixpoint bounded_copy (n : nat) (m : memory) (dst src i : Z) : option (memory * Z) :=
  match n with
  | O => m1 ← store m (dst + i) 0; Some (m1, i)
  | S n' =>
    c ← m !! (src + i);
    if c =? 0 then m1 ← store m (dst + i) 0; Some (m1, i)
    else m1 ← store m (dst + i) c; bounded_copy n' m1 dst src (i + 1)
  end.

Definition strlcpy (m : memory) (dst src s : Z) : option (Z * memory) :=
  if s =? 0 then n ← strlen m src; Some (n, m) else
  '(m1, i) ← bounded_copy (Z.to_nat (s - 1)) m dst src 0;
  n ← strlen m1 (src + i); Some (u64 (i + n), m1).

Definition strlcat (m : memory) (dst src s : Z) : option (Z * memory) :=
  j ← strnlen m dst s;
  if s =? 0 then n ← strlen m src; Some (u64 (j + n), m) else
  '(m1, i) ← bounded_copy (Z.to_nat (s - 1)) m (dst + j) src 0;
  n ← strlen m1 (src + i); Some (u64 (j + i + n), m1).

Fixpoint strcmp_loop (fuel : nat) (m : memory) (cs ct : Z) : option Z :=
  match fuel with
  | O => None
  | S f =>
    x ← m !! cs; y ← m !! ct;
    let res := schar (x - y) in
    if negb (res =? 0) || (x =? 0) then Some res else strcmp_loop f m (cs + 1) (ct + 1)
  end.

Definition strcmp (m : memory) (cs ct : Z) : option Z := strcmp_loop (fuel_of m) m cs ct.
Definition strcoll (m : memory) (s1 s2 : Z) : option Z := strcmp m s1 s2.

Fixpoint strncmp_loop (n : nat) (m : memory) (cs ct res : Z) : option Z :=
  match n with
  | O => Some res
  | S n' =>
    x ← m !! cs; y ← m !! ct;
    let res1 := schar (x - y) in
    if negb (res1 =? 0) || (x =? 0) then Some res1 else strncmp_loop n' m (cs + 1) (ct + 1) res1
  end.

Definition strncmp (m : memory) (cs ct count : Z) : option Z := strncmp_loop (Z.to_nat count) m cs ct 0.

Fixpoint strchr_loop (fuel : nat) (m : memory) (s c : Z) : option (option Z) :=
  match fuel with
  | O => None
  | S f => x ← m !! s; if x =? c then Some (Some s) else if x =? 0 then Some None else strchr_loop f m (s + 1) c
  end.

(** [(char) c], as an unsigned byte. *)
Definition strchr (m : memory) (s c : Z) : option (option Z) := strchr_loop (fuel_of m) m s (c mod 256).

(** [*s == c] compares a [char], which is signed, with an [int]. *)
Fixpoint strrchr_loop (fuel : nat) (m : memory) (s c : Z) (last : option Z) : option (option Z) :=
  match fuel with
  | O => None
  | S f =>
    x ← m !! s;
    if x =? 0 then Some last else strrchr_loop f m (s + 1) c (if schar x =? c then Some s else last)
  end.

Definition strrchr (m : memory) (s c : Z) : option (option Z) :=
  strrchr_loop (fuel_of m) m s c (if c =? 0 then Some s else None).

(** Whether the byte [x] is in the string at [a]. *)
Fixpoint in_string (fuel : nat) (m : memory) (x a : Z) : option bool :=
  match fuel with
  | O => None
  | S f => c ← m !! a; if c =? 0 then Some false else if x =? c then Some true else in_string f m x (a + 1)
  end.

Fixpoint strspn_loop (fuel : nat) (m : memory) (p accept count : Z) : option Z :=
  match fuel with
  | O => None
  | S f =>
    x ← m !! p;
    if x =? 0 then Some count else
    found ← in_string (fuel_of m) m x accept;
    if negb found then Some count else strspn_loop f m (p + 1) accept (count + 1)
  end.

Definition strspn (m : memory) (s accept : Z) : option Z := strspn_loop (fuel_of m) m s accept 0.

Fixpoint strpbrk_loop (fuel : nat) (m : memory) (sc1 ct : Z) : option (option Z) :=
  match fuel with
  | O => None
  | S f =>
    x ← m !! sc1;
    if x =? 0 then Some None else
    found ← in_string (fuel_of m) m x ct;
    if (found : bool) then Some (Some sc1) else strpbrk_loop f m (sc1 + 1) ct
  end.

Definition strpbrk (m : memory) (cs ct : Z) : option (option Z) := strpbrk_loop (fuel_of m) m cs ct.

Fixpoint strstr_loop (n : nat) (m : memory) (s1 s2 l2 : Z) : option (option Z) :=
  match n with
  | O => Some None
  | S n' =>
    r ← memcmp m s1 s2 l2;
    if r =? 0 then Some (Some s1) else strstr_loop n' m (s1 + 1) s2 l2
  end.

(** The loop runs while [l1 >= l2], with [l1] one less on each turn. *)
Definition strstr (m : memory) (s1 s2 : Z) : option (option Z) :=
  n2 ← strlen m s2;
  let l2 := i32 n2 in
  if l2 =? 0 then Some (Some s1) else
  n1 ← strlen m s1;
  let l1 := i32 n1 in
  strstr_loop (Z.to_nat (l1 - l2 + 1)) m s1 s2 l2.

(** [saved] is [___strtok]; the results are the token, the memory and [___strtok]. *)
Definition strtok (m : memory) (saved s : option Z) (ct : Z) : option (option Z * memory * option Z) :=
  match (match s with Some a => Some a | None => saved end) with
  | None => Some (None, m, saved)
  | Some sbegin0 =>
    n ← strspn m sbegin0 ct;
    let sbegin := sbegin0 + n in
    c ← m !! sbegin;
    if c =? 0 then Some (None, m, None) else
    send ← strpbrk m sbegin ct;
    match (send : option Z) with
    | Some e => m1 ← store m e 0; Some (Some sbegin, m1, Some (e + 1))
    | None => Some (Some sbegin, m, None)
    end
  end.

Definition strdup (m : memory) (oracle : mem) (str : Z) (copy : Z) : option (option Z * memory * mem) :=
  n ← strlen m str;
  let len := u64 (n + 1) in
  let '(ok, o1) := alloc oracle in
  if negb ok then Some (None, m, o1) else m1 ← memcpy m copy str len; Some (Some copy, m1, o1).

Definition strxfrm (m : memory) (dest src n : Z) : option (Z * memory) :=
  len ← strlen m src;
  if n =? 0 then Some (len, m) else
  let copy_len := if len <? n then len else n - 1 in
  m1 ← memcpy m dest src copy_len;
  m2 ← store m1 (dest + copy_len) 0;
  Some (len, m2).

(** ** Binary search *)

(** [cmp i] is the result of comparing the key with element [i] of the array, if
    there is one; an index outside the array makes the search [None].  The loop runs
    as long as it does not return: [fuel] is the number of elements and one more. *)
Fixpoint bsearch_loop (fuel : nat) (cmp : Z → option Z) (low high : Z) : option (option Z) :=
  match fuel with
  | O => None
  | S f =>
    let mid := u64 (low + u64 (high - low) / 2) in
    r ← cmp mid;
    if r <? 0 then
      if mid =? 0 then Some None else bsearch_loop f cmp low (mid - 1)
    else if r >? 0 then
      let low1 := u64 (mid + 1) in
      if (low1 <? mid) || (low1 >? high) then Some None else bsearch_loop f cmp low1 high
    else Some (Some mid)
  end.

Definition bsearch (cmp : Z → option Z) (num_elems : Z) : option (option Z) :=
  if num_elems =? 0 then Some None else bsearch_loop (Z.to_nat num_elems + 1) cmp 0 (num_elems - 1).

End CString.
