(* ===== verification/CStringFacts.v ===== *)
(** * Correctness of the memory and string routines

    The routines that copy and fill by words do what their byte-wise definitions do.
    On strings the routines are the functions on lists of characters that their
    names promise, with the exceptions that the last theorems show. *)

From stdpp Require Import base tactics numbers list list_numbers gmap.
From Stdlib Require Import ZArith Lia.
From S2P Require Import Prelude CString.
#[local] Open Scope Z_scope.

Module CStringFacts.
Import CString.

(** ** Blocks of memory *)

Definition mapped (m : memory) (a n : Z) : Prop := ∀ x, a ≤ x < a + n → is_Some (m !! x).

(** [m'] is [m] with the [n] bytes at [s] also at [d]. *)
Definition moved (m m' : memory) (d s n : Z) : Prop :=
  ∀ x, m' !! x = if decide (d ≤ x < d + n) then m !! (x - d + s) else m !! x.

Definition filled (m m' : memory) (a n b : Z) : Prop :=
  ∀ x, m' !! x = if decide (a ≤ x < a + n) then Some b else m !! x.

Lemma mapped_sub m a n a' n' : mapped m a n → a ≤ a' → a' + n' ≤ a + n → mapped m a' n'.
Proof. intros Hm ?? x Hx. apply Hm. lia. Qed.

Lemma moved_nil m d s : moved m m d s 0.
Proof. intros x. by rewrite decide_False by lia. Qed.

Lemma filled_nil m a b : filled m m a 0 b.
Proof. intros x. by rewrite decide_False by lia. Qed.

Lemma moved_det m m1 m2 d s n : moved m m1 d s n → moved m m2 d s n → m1 = m2.
Proof. intros H1 H2. apply map_eq. intros x. by rewrite H1, H2. Qed.

Lemma filled_det m m1 m2 a n b : filled m m1 a n b → filled m m2 a n b → m1 = m2.
Proof. intros H1 H2. apply map_eq. intros x. by rewrite H1, H2. Qed.

Lemma moved_mapped m m' d s n a k : mapped m s n → moved m m' d s n → mapped m a k → mapped m' a k.
Proof. intros Hs Hm Ha x Hx. rewrite Hm. case_decide; [apply Hs; lia|by apply Ha]. Qed.

Lemma filled_mapped m m' a n b a' k : filled m m' a n b → mapped m a' k → mapped m' a' k.
Proof. intros Hm Ha x Hx. rewrite Hm. case_decide; [done|by apply Ha]. Qed.

Lemma load_ok m a n :
  mapped m a (Z.of_nat n) → ∃ l, load_bytes m a n = Some l ∧ length l = n ∧ ∀ i, (i < n)%nat → l !! i = m !! (a + Z.of_nat i).
Proof.
  revert a. induction n as [|n IH]; intros a Hm; cbn [load_bytes]; [exists []; split; [done|]; split; [done|]; intros; lia|].
  destruct (Hm a ltac:(lia)) as [b Hb]. rewrite Hb. cbn. destruct (IH (a + 1)) as (l & El & Hl & Hi); [apply (mapped_sub _ _ _ _ _ Hm); lia|].
  rewrite El. cbn. eexists. split; [done|]. split; [cbn; lia|]. intros [|i] Hlt; cbn; [by rewrite Z.add_0_r|].
  rewrite Hi by lia. f_equal. lia.
Qed.

Lemma store_list_ok m a l :
  mapped m a (zlen l) →
  ∃ m', store_bytes m a l = Some m' ∧ ∀ x, m' !! x = if decide (a ≤ x < a + zlen l) then l !! Z.to_nat (x - a) else m !! x.
Proof.
  revert m a. induction l as [|b l IH]; intros m a Hm; cbn [store_bytes].
  - exists m. split; [done|]. intros x. unfold zlen. cbn. by rewrite decide_False by lia.
  - unfold store. rewrite bool_decide_eq_true_2 by (apply Hm; unfold zlen; cbn; lia). cbn. unfold zlen in *. cbn [length] in *.
    destruct (IH (<[a:=b]> m) (a + 1)) as (m' & E & Hx).
    { intros x Hx. destruct (decide (x = a)) as [->|]; [by rewrite lookup_insert_eq|]. rewrite lookup_insert_ne by done. apply Hm. lia. }
    exists m'. split; [done|]. intros x. rewrite Hx. destruct (decide (x = a)) as [->|Hne].
    + rewrite decide_False, decide_True by lia. by rewrite lookup_insert_eq, Z.sub_diag.
    + rewrite lookup_insert_ne by done. destruct (decide (a + 1 ≤ x < _)).
      * rewrite decide_True by lia. replace (Z.to_nat (x - a)) with (S (Z.to_nat (x - (a + 1)))) by lia. done.
      * by rewrite decide_False by lia.
Qed.

Lemma move_ok m d s b :
  mapped m d (Z.of_nat b) → mapped m s (Z.of_nat b) → ∃ m', move m d s b = Some m' ∧ moved m m' d s (Z.of_nat b).
Proof.
  intros Hd Hs. unfold move. destruct (load_ok m s b Hs) as (l & -> & Hl & Hi). cbn. unfold zlen in *.
  destruct (store_list_ok m d l) as (m' & E & Hx); [unfold zlen; by rewrite Hl|]. exists m'. split; [done|].
  intros x. rewrite Hx. unfold zlen. rewrite Hl. case_decide; [|done]. rewrite Hi by lia. f_equal. lia.
Qed.

(** A block after, or before, the blocks that were moved. *)
Lemma moved_app m0 m m1 d s k b :
  0 ≤ k → 0 ≤ b → d ≤ s ∨ s + k + b ≤ d → moved m0 m d s k → moved m m1 (d + k) (s + k) b → moved m0 m1 d s (k + b).
Proof.
  intros Hk Hb Hor H0 H1 x. rewrite H1. case_decide.
  - replace (x - (d + k) + (s + k)) with (x - d + s) by lia. rewrite H0, decide_False by lia. by rewrite decide_True by lia.
  - rewrite H0. case_decide; [by rewrite decide_True by lia|by rewrite decide_False by lia].
Qed.

Lemma moved_before m0 m m1 d s k b :
  0 ≤ k → 0 ≤ b → s ≤ d → moved m0 m d s k → moved m m1 (d - b) (s - b) b → moved m0 m1 (d - b) (s - b) (k + b).
Proof.
  intros Hk Hb Hor H0 H1 x. rewrite H1. case_decide.
  - rewrite H0, decide_False by lia. by rewrite decide_True by lia.
  - rewrite H0. case_decide; [rewrite decide_True by lia; f_equal; lia|by rewrite decide_False by lia].
Qed.

Lemma turns_total b n k :
  k + Z.of_nat b * Z.of_nat (S n) = k + Z.of_nat b + Z.of_nat b * Z.of_nat n ∧ 0 ≤ Z.of_nat b * Z.of_nat n.
Proof. split; [rewrite Nat2Z.inj_succ; lia|]. apply Z.mul_nonneg_nonneg; lia. Qed.

Lemma move_up_ok b n m0 m d s k :
  0 ≤ k → moved m0 m d s k → let t := k + Z.of_nat b * Z.of_nat n in
  d ≤ s ∨ s + t ≤ d → mapped m0 d t → mapped m0 s t →
  ∃ m', move_up b n m (d + k) (s + k) = Some (m', d + t, s + t) ∧ moved m0 m' d s t.
Proof.
  revert m k. induction n as [|n IH]; intros m k Hk H0 t Hor Hd Hs; cbn [move_up].
  - exists m. unfold t. rewrite Z.mul_0_r, Z.add_0_r. done.
  - pose proof (turns_total b n k) as [Ht Hp]. fold t in Ht. clearbody t. cbv zeta in IH. set (p := Z.of_nat b * Z.of_nat n) in *.
    assert (Hm : ∀ a q, mapped m0 a q → mapped m a q) by (intros a q; apply (moved_mapped m0 m d s k); [apply (mapped_sub _ _ _ _ _ Hs); lia|done]).
    destruct (move_ok m (d + k) (s + k) b) as (m1 & -> & H1); [eapply mapped_sub; [apply Hm, Hd|lia..]|eapply mapped_sub; [apply Hm, Hs|lia..]|]. cbn.
    replace (d + k + Z.of_nat b) with (d + (k + Z.of_nat b)) by lia. replace (s + k + Z.of_nat b) with (s + (k + Z.of_nat b)) by lia.
    destruct (IH m1 (k + Z.of_nat b)) as (m' & E & Hx); [lia|apply (moved_app _ m); (done || lia)|lia|apply (mapped_sub _ _ _ _ _ Hd); lia|apply (mapped_sub _ _ _ _ _ Hs); lia|].
    exists m'. rewrite Ht. done.
Qed.

(** Here [d] and [s] are the ends of the blocks. *)
Lemma move_down_ok b n m0 m d s k :
  0 ≤ k → s ≤ d → moved m0 m (d - k) (s - k) k → let t := k + Z.of_nat b * Z.of_nat n in
  mapped m0 (d - t) t → mapped m0 (s - t) t →
  ∃ m', move_down b n m (d - k) (s - k) = Some (m', d - t, s - t) ∧ moved m0 m' (d - t) (s - t) t.
Proof.
  revert m k. induction n as [|n IH]; intros m k Hk Hsd H0 t Hd Hs; cbn [move_down].
  - exists m. unfold t. rewrite Z.mul_0_r, Z.add_0_r. done.
  - pose proof (turns_total b n k) as [Ht Hp]. fold t in Ht. clearbody t. cbv zeta in IH. set (p := Z.of_nat b * Z.of_nat n) in *.
    assert (Hm : ∀ a q, mapped m0 a q → mapped m a q) by (intros a q; apply (moved_mapped m0 m (d - k) (s - k) k); [apply (mapped_sub _ _ _ _ _ Hs); lia|done]).
    destruct (move_ok m (d - k - Z.of_nat b) (s - k - Z.of_nat b) b) as (m1 & -> & H1); [eapply mapped_sub; [apply Hm, Hd|lia..]|eapply mapped_sub; [apply Hm, Hs|lia..]|]. cbn.
    replace (d - k - Z.of_nat b) with (d - (k + Z.of_nat b)) in * by lia. replace (s - k - Z.of_nat b) with (s - (k + Z.of_nat b)) in * by lia.
    destruct (IH m1 (k + Z.of_nat b)) as (m' & E & Hx); [lia|done| |apply (mapped_sub _ _ _ _ _ Hd); lia|apply (mapped_sub _ _ _ _ _ Hs); lia|].
    + replace (d - (k + Z.of_nat b)) with (d - k - Z.of_nat b) in * by lia. replace (s - (k + Z.of_nat b)) with (s - k - Z.of_nat b) in * by lia.
      apply (moved_before _ m); (done || lia).
    + exists m'. rewrite Ht. done.
Qed.

Lemma turns_small x : 0 ≤ x < 2 ^ 31 → Z.of_nat (turns x) = x.
Proof. intros Hx. unfold turns, i32. rewrite Z.mod_small by lia. lia. Qed.

Lemma i32_small x : 0 ≤ x < 2 ^ 31 → i32 x = x.
Proof. intros Hx. unfold i32. rewrite Z.mod_small by lia. lia. Qed.

Lemma lmask_range x : 0 ≤ Z.land x lmask < 8.
Proof. unfold lmask, lsize. change (8 - 1) with (2 ^ 3 - 1). rewrite land_ones_mod by lia. apply Z.mod_pos_bound. lia. Qed.

(** The counters of the three loops add up. *)
Lemma split_count c : 0 ≤ c < 2 ^ 31 → 8 * Z.of_nat (turns (c / lsize)) + Z.of_nat (turns (Z.land c lmask)) = c.
Proof.
  intros Hc. pose proof (lmask_range c). unfold lmask, lsize in *. rewrite (turns_small (Z.land _ _)) by lia.
  rewrite turns_small by (split; [apply Z.div_pos; lia|]; pose proof (Z.mul_div_le c 8); lia).
  change (8 - 1) with (2 ^ 3 - 1). rewrite land_ones_mod by lia. change (2 ^ 3) with 8. pose proof (Z.div_mod c 8). lia.
Qed.

Lemma copy_up_ok m d s count :
  0 ≤ count < 2 ^ 31 → d ≤ s ∨ s + count ≤ d → mapped m d count → mapped m s count →
  ∃ m', copy_up m d s count = Some m' ∧ moved m m' d s count.
Proof.
  intros Hc Hor Hd Hs. unfold copy_up.
  assert (Hpre : ∃ m1 len, 0 ≤ len ≤ count ∧ moved m m1 d s len ∧
    align_up m d s count = Some (m1, d + len, s + len, count - len)).
  { unfold align_up. destruct (negb _); [|exists m, 0; split; [lia|]; split; [apply moved_nil|]; by rewrite !Z.add_0_r, Z.sub_0_r].
    set (len := if _ || _ then _ else _). assert (Hl : 0 ≤ len ≤ count).
    { unfold len. pose proof (lmask_range d). destruct (_ || _) eqn:E; [rewrite i32_small; lia|]. zb. unfold lsize in *. lia. }
    destruct (move_up_ok 1 (turns len) m m d s 0) as (m1 & E1 & H1); [lia|apply moved_nil|rewrite turns_small by lia; lia|
      rewrite turns_small by lia; apply (mapped_sub _ _ _ _ _ Hd); lia|rewrite turns_small by lia; apply (mapped_sub _ _ _ _ _ Hs); lia|].
    rewrite !Z.add_0_r, !Z.add_0_l, !Z.mul_1_l, turns_small in E1 by lia. rewrite !Z.add_0_l, !Z.mul_1_l, turns_small in H1 by lia.
    exists m1, len. split; [done|]. split; [done|]. cbv zeta. rewrite E1. cbn. rewrite u64_id by (unfold is_u64; lia). done. }
  destruct Hpre as (m1 & len & Hl & H1 & ->). cbn [mbind option_bind]. pose proof (split_count (count - len) ltac:(lia)) as Hsum.
  set (w := turns ((count - len) / lsize)) in *. set (r := turns (Z.land (count - len) lmask)) in *. change (Z.of_nat (Z.to_nat lsize)) with 8.
  destruct (move_up_ok (Z.to_nat lsize) w m m1 d s len) as (m2 & -> & H2); [lia|done|unfold lsize; lia|apply (mapped_sub _ _ _ _ _ Hd); unfold lsize; lia|apply (mapped_sub _ _ _ _ _ Hs); unfold lsize; lia|].
  change (Z.of_nat (Z.to_nat lsize)) with 8 in *. cbn [mbind option_bind].
  destruct (move_up_ok 1 r m m2 d s (len + 8 * Z.of_nat w)) as (m3 & -> & H3); [lia|done|lia|apply (mapped_sub _ _ _ _ _ Hd); lia|apply (mapped_sub _ _ _ _ _ Hs); lia|].
  exists m3. split; [done|]. by replace count with (len + 8 * Z.of_nat w + 1 * Z.of_nat r) by lia.
Qed.

Lemma copy_down_ok m d s count :
  0 ≤ count < 2 ^ 31 → s ≤ d → mapped m d count → mapped m s count →
  ∃ m', copy_down m (d + count) (s + count) count = Some m' ∧ moved m m' d s count.
Proof.
  intros Hc Hor Hd Hs. unfold copy_down. set (de := d + count). set (se := s + count).
  assert (Hpre : ∃ m1 len, 0 ≤ len ≤ count ∧ moved m m1 (de - len) (se - len) len ∧
    align_down m de se count = Some (m1, de - len, se - len, count - len)).
  { unfold align_down. destruct (negb _); [|exists m, 0; split; [lia|]; rewrite !Z.sub_0_r; split; [apply moved_nil|done]].
    set (len := if _ || _ then _ else _). assert (Hl : 0 ≤ len ≤ count).
    { unfold len. pose proof (lmask_range de). destruct (_ || _) eqn:E; [rewrite i32_small; lia|]. zb. unfold lsize in *. lia. }
    destruct (move_down_ok 1 (turns len) m m de se 0) as (m1 & E1 & H1); [lia|lia|rewrite !Z.sub_0_r; apply moved_nil|
      rewrite turns_small by lia; apply (mapped_sub _ _ _ _ _ Hd); lia|rewrite turns_small by lia; apply (mapped_sub _ _ _ _ _ Hs); lia|].
    rewrite !Z.sub_0_r, !Z.add_0_l, !Z.mul_1_l, turns_small in E1 by lia. rewrite !Z.add_0_l, !Z.mul_1_l, turns_small in H1 by lia.
    exists m1, len. split; [done|]. split; [done|]. cbv zeta. rewrite E1. cbn. rewrite u64_id by (unfold is_u64; lia). done. }
  destruct Hpre as (m1 & len & Hl & H1 & ->). cbn [mbind option_bind]. pose proof (split_count (count - len) ltac:(lia)) as Hsum.
  set (w := turns ((count - len) / lsize)) in *. set (r := turns (Z.land (count - len) lmask)) in *.
  destruct (move_down_ok (Z.to_nat lsize) w m m1 de se len) as (m2 & -> & H2); [lia|lia|done|apply (mapped_sub _ _ _ _ _ Hd); unfold lsize; lia|apply (mapped_sub _ _ _ _ _ Hs); unfold lsize; lia|].
  change (Z.of_nat (Z.to_nat lsize)) with 8 in *. cbn [mbind option_bind].
  destruct (move_down_ok 1 r m m2 de se (len + 8 * Z.of_nat w)) as (m3 & -> & H3); [lia|lia|done|apply (mapped_sub _ _ _ _ _ Hd); lia|apply (mapped_sub _ _ _ _ _ Hs); lia|].
  exists m3. split; [done|]. change (Z.of_nat 1) with 1 in H3. replace (len + 8 * Z.of_nat w + 1 * Z.of_nat r) with count in H3 by lia.
  unfold de, se in H3. rewrite !Z.add_simpl_r in H3. exact H3.
Qed.

(** ** Filling *)

Lemma store_replicate m a n b :
  mapped m a (Z.of_nat n) → ∃ m', store_bytes m a (replicate n b) = Some m' ∧ filled m m' a (Z.of_nat n) b.
Proof.
  intros Hm. destruct (store_list_ok m a (replicate n b)) as (m' & E & Hx); [unfold zlen; by rewrite length_replicate|].
  exists m'. split; [done|]. intros x. rewrite Hx. unfold zlen. rewrite length_replicate. case_decide; [|done].
  apply lookup_replicate_2. lia.
Qed.

Lemma filled_app m0 m m1 a k n b : 0 ≤ k → 0 ≤ n → filled m0 m a k b → filled m m1 (a + k) n b → filled m0 m1 a (k + n) b.
Proof.
  intros Hk Hn H0 H1 x. rewrite H1, H0. repeat case_decide; (done || lia).
Qed.

Lemma fill_ok w n b m0 m a k :
  0 ≤ k → filled m0 m a k b → let t := k + Z.of_nat w * Z.of_nat n in mapped m0 a t →
  ∃ m', fill n m (a + k) (replicate w b) = Some (m', a + t) ∧ filled m0 m' a t b.
Proof.
  revert m k. induction n as [|n IH]; intros m k Hk H0 t Hm; cbn [fill].
  - exists m. unfold t. rewrite Z.mul_0_r, Z.add_0_r. done.
  - pose proof (turns_total w n k) as [Ht Hp]. fold t in Ht. clearbody t. cbv zeta in IH. set (p := Z.of_nat w * Z.of_nat n) in *.
    destruct (store_replicate m (a + k) w b) as (m1 & -> & H1).
    { apply (filled_mapped m0 m a k b _ _ H0), (mapped_sub _ _ _ _ _ Hm); lia. }
    cbn. unfold zlen. rewrite length_replicate. rewrite <- Z.add_assoc.
    destruct (IH m1 (k + Z.of_nat w)) as (m' & E & Hx); [lia|apply (filled_app _ m); (done || lia)|apply (mapped_sub _ _ _ _ _ Hm); lia|].
    exists m'. by rewrite Ht.
Qed.

Lemma cc_bytes c :
  let cc := Z.land c 255 in let cc1 := Z.lor cc (Z.shiftl cc 8) in let cc2 := Z.lor cc1 (Z.shiftl cc1 16) in
  bytes_of (Z.lor cc2 (Z.shiftl cc2 32)) 8 = replicate 8 (c mod 256).
Proof.
  change 255 with (2 ^ 8 - 1). rewrite land_ones_mod by lia. change (2 ^ 8) with 256. pose proof (Z.mod_pos_bound c 256 ltac:(lia)) as Hc.
  assert (Hall : Forall (λ v, let cc1 := Z.lor v (Z.shiftl v 8) in let cc2 := Z.lor cc1 (Z.shiftl cc1 16) in
    bytes_of (Z.lor cc2 (Z.shiftl cc2 32)) 8 = replicate 8 v) (seqZ 0 256)) by (apply (bool_decide_unpack _); vm_compute; exact I).
  rewrite Forall_forall in Hall. apply (Hall (c mod 256)). apply elem_of_seqZ. lia.
Qed.

Lemma memset_ok m s c count :
  0 ≤ count → mapped m s count → ∃ m', memset m s c count = Some m' ∧ filled m m' s count (c mod 256).
Proof.
  intros Hc Hm. unfold memset. set (len := Z.land _ 7).
  assert (Hl : 0 ≤ len < 8) by (unfold len; change 7 with (2 ^ 3 - 1); rewrite land_ones_mod by lia; apply Z.mod_pos_bound; lia).
  change (bytes_of c 1) with (replicate 1 (c mod 256)). rewrite cc_bytes. set (b := c mod 256).
  destruct (count >? len) eqn:E.
  - apply Z.gtb_lt in E. set (q := (count - len) / 8). set (r := Z.land (count - len) 7).
    assert (Hqr : 8 * q + r = count - len ∧ 0 ≤ q ∧ 0 ≤ r).
    { unfold q, r. change 7 with (2 ^ 3 - 1). rewrite land_ones_mod by lia. change (2 ^ 3) with 8. pose proof (Z.div_mod (count - len) 8).
      pose proof (Z.mod_pos_bound (count - len) 8). pose proof (Z.div_pos (count - len) 8). lia. }
    destruct (fill_ok 1 (Z.to_nat len) b m m s 0) as (m1 & E1 & H1); [lia|apply filled_nil|apply (mapped_sub _ _ _ _ _ Hm); lia|].
    rewrite Z.add_0_r in E1. rewrite E1. cbn [mbind option_bind].
    destruct (fill_ok 8 (Z.to_nat q) b m m1 s (0 + Z.of_nat 1 * Z.of_nat (Z.to_nat len))) as (m2 & E2 & H2); [lia|done|apply (mapped_sub _ _ _ _ _ Hm); lia|].
    rewrite E2. cbn [mbind option_bind].
    destruct (fill_ok 1 (Z.to_nat r) b m m2 s (0 + Z.of_nat 1 * Z.of_nat (Z.to_nat len) + Z.of_nat 8 * Z.of_nat (Z.to_nat q))) as (m3 & E3 & H3);
      [lia|done|apply (mapped_sub _ _ _ _ _ Hm); lia|].
    rewrite E3. cbn [mbind option_bind]. exists m3. split; [done|]. by replace count with
      (0 + Z.of_nat 1 * Z.of_nat (Z.to_nat len) + Z.of_nat 8 * Z.of_nat (Z.to_nat q) + Z.of_nat 1 * Z.of_nat (Z.to_nat r)) by lia.
  - cbn [mbind option_bind]. destruct (fill_ok 1 (Z.to_nat count) b m m s 0) as (m1 & E1 & H1); [lia|apply filled_nil|apply (mapped_sub _ _ _ _ _ Hm); lia|].
    rewrite Z.add_0_r in E1. rewrite E1. cbn [mbind option_bind]. exists m1. split; [done|]. by replace count with (0 + Z.of_nat 1 * Z.of_nat (Z.to_nat count)) by lia.
Qed.

Lemma memmove_ok m d s n :
  0 ≤ n < 2 ^ 31 → mapped m d n → mapped m s n → ∃ m', memmove m d s n = Some m' ∧ moved m m' d s n.
Proof.
  intros Hn Hd Hs. unfold memmove. destruct (n =? 0) eqn:E0; zb; [exists m; split; [done|]; subst; apply moved_nil|].
  destruct (d =? s) eqn:E1; zb; cbn.
  - exists m. split; [done|]. subst. intros x. case_decide; [f_equal; lia|done].
  - destruct (d <? s) eqn:E2; zb; [apply copy_up_ok; (done || lia)|apply copy_down_ok; (done || lia)].
Qed.

Lemma memcpy_ok m d s n :
  0 ≤ n < 2 ^ 31 → d ≤ s ∨ s + n ≤ d → mapped m d n → mapped m s n → ∃ m', memcpy m d s n = Some m' ∧ moved m m' d s n.
Proof.
  intros Hn Hor Hd Hs. unfold memcpy. destruct (n =? 0) eqn:E0; zb; [exists m; split; [done|]; subst; apply moved_nil|].
  destruct (d =? s) eqn:E1; zb; cbn; [|by apply copy_up_ok].
  exists m. split; [done|]. subst. intros x. case_decide; [f_equal; lia|done].
Qed.

(** C20. The routines that copy and fill memory by words, from either end and from any
    alignment, do what byte-wise definitions do: [memmove] loads the whole block
    and then stores it, whatever the overlap; [memcpy] does for blocks that do not
    overlap or overlap with the destination first; [memset] stores the byte [count] times. *)
Theorem memory_routines_equivalent m d s c n :
  0 ≤ n < 2 ^ 31 → mapped m d n → mapped m s n →
  memmove m d s n = move m d s (Z.to_nat n) ∧
  (d ≤ s ∨ s + n ≤ d → memcpy m d s n = move m d s (Z.to_nat n)) ∧
  memset m d c n = store_bytes m d (replicate (Z.to_nat n) (c mod 256)).
Proof.
  intros Hn Hd Hs. destruct (move_ok m d s (Z.to_nat n)) as (m' & -> & Hm); [by rewrite Z2Nat.id by lia..|]. rewrite Z2Nat.id in Hm by lia. split_and!.
  - destruct (memmove_ok m d s n Hn Hd Hs) as (m1 & -> & H1). f_equal. by apply (moved_det m _ _ d s n).
  - intros Hor. destruct (memcpy_ok m d s n Hn Hor Hd Hs) as (m1 & -> & H1). f_equal. by apply (moved_det m _ _ d s n).
  - destruct (memset_ok m d c n ltac:(lia) Hd) as (m1 & -> & H1). destruct (store_replicate m d (Z.to_nat n) (c mod 256)) as (m2 & -> & H2); [by rewrite Z2Nat.id by lia|].
    rewrite Z2Nat.id in H2 by lia. f_equal. by apply (filled_det m _ _ d n (c mod 256)).
Qed.

Definition ex_memory : memory := list_to_map (zip (seqZ 100 40) (seqZ 0 40)).

Lemma ex_mapped a n : 100 ≤ a → a + n ≤ 140 → mapped ex_memory a n.
Proof.
  intros Ha Hn x Hx. apply elem_of_dom. unfold ex_memory. rewrite dom_list_to_map, fst_zip by (rewrite !length_seqZ; lia).
  apply elem_of_list_to_set, elem_of_seqZ. lia.
Qed.

(** Blocks that overlap. *)
Lemma memory_routines_equivalent_witness :
  memmove ex_memory 109 106 20 = move ex_memory 109 106 20 ∧
  (λ m, load_bytes m 107 6) <$> memmove ex_memory 109 106 20 = Some (Some [7; 8; 6; 7; 8; 9]).
Proof.
  split; [|vm_compute; reflexivity]. apply (memory_routines_equivalent ex_memory 109 106 0 20 ltac:(lia)); apply ex_mapped; lia.
Defined.

(** ** Strings *)

(** The string [l] at address [s]. *)
Record cstr (m : memory) (s : Z) (l : list Z) : Prop := {
  cs_bytes : ∀ i, (i < length l)%nat → m !! (s + Z.of_nat i) = l !! i;
  cs_chars : Forall (λ b, 0 < b < 256) l;
  cs_end : m !! (s + zlen l) = Some 0 }.

Lemma cstr_cons m s b l : cstr m s (b :: l) → m !! s = Some b ∧ 0 < b < 256 ∧ cstr m (s + 1) l.
Proof.
  intros [Hb Hc He]. apply Forall_cons in Hc as [Hb0 Hc]. split; [rewrite <- (Z.add_0_r s); apply (Hb 0%nat); cbn; lia|]. split; [done|].
  split; [|done|]; [intros i Hi|].
  - replace (s + 1 + Z.of_nat i) with (s + Z.of_nat (S i)) by lia. apply Hb. cbn. lia.
  - rewrite <- He. f_equal. unfold zlen. cbn. lia.
Qed.

Lemma cstr_nil m s : cstr m s [] → m !! s = Some 0.
Proof. intros [_ _ He]. by rewrite Z.add_0_r in He. Qed.

(** The fuel of a loop over a string is enough. *)
Lemma mapped_size m s n : mapped m s n → n ≤ Z.of_nat (size m).
Proof.
  intros Hm. destruct (decide (0 ≤ n)); [|lia].
  assert (Hsub : list_to_set (seqZ s n) ⊆ dom m) by (intros x Hx; apply elem_of_list_to_set, elem_of_seqZ in Hx; apply elem_of_dom, Hm; lia).
  apply subseteq_size in Hsub. rewrite size_dom, size_list_to_set, length_seqZ in Hsub by apply NoDup_seqZ. lia.
Qed.

Lemma cstr_mapped m s l : cstr m s l → mapped m s (zlen l + 1).
Proof.
  intros [Hb _ He] x Hx. destruct (decide (x = s + zlen l)) as [->|]; [by rewrite He|].
  replace x with (s + Z.of_nat (Z.to_nat (x - s))) by lia. unfold zlen in *. rewrite Hb by lia. apply lookup_lt_is_Some_2. lia.
Qed.

Lemma cstr_fuel m s l : cstr m s l → (length l < fuel_of m)%nat.
Proof. intros Hs. pose proof (mapped_size _ _ _ (cstr_mapped m s l Hs)). unfold fuel_of, zlen in *. lia. Qed.

Lemma strlen_loop_ok f m s l i : cstr m (s + i) l → (length l < f)%nat → strlen_loop f m s i = Some (i + zlen l).
Proof.
  revert i l. induction f as [|f IH]; intros i l Hs Hf; [lia|]. cbn [strlen_loop]. destruct l as [|b l].
  - rewrite (cstr_nil _ _ Hs). cbn. unfold zlen. cbn. by rewrite Z.add_0_r.
  - apply cstr_cons in Hs as (-> & Hb & Hs). cbn. rewrite (proj2 (Z.eqb_neq _ _)) by lia. rewrite (IH (i + 1) l); [|by rewrite Z.add_assoc|cbn in Hf; lia].
    f_equal. unfold zlen. cbn. lia.
Qed.

Lemma strlen_ok m s l : cstr m s l → strlen m s = Some (zlen l).
Proof. intros Hs. unfold strlen. rewrite (strlen_loop_ok _ m s l 0); [done|by rewrite Z.add_0_r|by apply (cstr_fuel m s)]. Qed.

Lemma strnlen_loop_ok n m s l : cstr m s l → strnlen_loop n m s = Some (s + Z.min (Z.of_nat n) (zlen l)).
Proof.
  revert s l. induction n as [|n IH]; intros s l Hs; cbn [strnlen_loop]; [f_equal; unfold zlen; lia|]. destruct l as [|b l].
  - rewrite (cstr_nil _ _ Hs). cbn. f_equal. unfold zlen. cbn. lia.
  - apply cstr_cons in Hs as (-> & Hb & Hs). cbn. rewrite (proj2 (Z.eqb_neq _ _)) by lia. rewrite (IH _ _ Hs). f_equal. unfold zlen. cbn. lia.
Qed.

Lemma strnlen_ok m s l n : cstr m s l → 0 ≤ n → strnlen m s n = Some (Z.min n (zlen l)).
Proof. intros Hs Hn. unfold strnlen. rewrite (strnlen_loop_ok _ _ _ _ Hs). cbn. f_equal. lia. Qed.

Lemma schar_zero x y : 0 ≤ x < 256 → 0 ≤ y < 256 → schar (x - y) = 0 → x = y.
Proof.
  unfold schar. intros Hx Hy H0. assert (Hm : (x - y + 128) mod 256 = 128) by lia.
  pose proof (Z.div_mod (x - y + 128) 256 ltac:(lia)). lia.
Qed.

Lemma strcmp_loop_ok f m s t l r :
  cstr m s l → cstr m t r → (length l < f)%nat → ∃ d, strcmp_loop f m s t = Some d ∧ -128 ≤ d < 128 ∧ (d = 0 ↔ l = r).
Proof.
  revert s t l r. induction f as [|f IH]; intros s t l r Hs Ht Hf; [lia|]. cbn [strcmp_loop].
  assert (Hrange : ∀ x, -128 ≤ schar x < 128) by (intros x; unfold schar; pose proof (Z.mod_pos_bound (x + 128) 256); lia).
  destruct l as [|b l], r as [|c r].
  - rewrite (cstr_nil _ _ Hs), (cstr_nil _ _ Ht). cbn. by exists 0.
  - rewrite (cstr_nil _ _ Hs). apply cstr_cons in Ht as (-> & Hc & _). cbn. rewrite orb_true_r. eexists. split; [done|]. split; [apply Hrange|].
    split; [|done]. intros E. change (- c) with (0 - c) in E. apply schar_zero in E; lia.
  - rewrite (cstr_nil _ _ Ht). apply cstr_cons in Hs as (-> & Hb & _). cbn [mbind option_bind]. destruct (schar (b - 0) =? 0) eqn:E; zb; [apply schar_zero in E; lia|].
    cbn. eexists. split; [done|]. split; [apply Hrange|]. done.
  - apply cstr_cons in Hs as (-> & Hb & Hs). apply cstr_cons in Ht as (-> & Hc & Ht). cbn [mbind option_bind]. destruct (schar (b - c) =? 0) eqn:E; zb; cbn.
    + apply schar_zero in E as ->; [|lia..]. rewrite (proj2 (Z.eqb_neq _ _)) by lia. destruct (IH _ _ _ _ Hs Ht ltac:(cbn in Hf; lia)) as (d & -> & Hd & Hiff).
      exists d. split; [done|]. split; [done|]. rewrite Hiff. split; [by intros ->|by intros [= ->]].
    + eexists. split; [done|]. split; [apply Hrange|]. split; [done|]. intros [= -> ->]. by rewrite Z.sub_diag in E.
Qed.

(** ** Bounded copies *)

(** Only the [n] bytes at [a] may have changed. *)
Definition only (m m' : memory) (a n : Z) : Prop := ∀ x, ¬ (a ≤ x < a + n) → m' !! x = m !! x.

Lemma only_trans m m1 m2 a n : only m m1 a n → only m1 m2 a n → only m m2 a n.
Proof. intros H1 H2 x Hx. by rewrite H2, H1. Qed.

Lemma only_cstr m m' a n s l : only m m' a n → a + n ≤ s ∨ s + zlen l < a → cstr m s l → cstr m' s l.
Proof.
  intros Ho Hd [Hb Hc He]. unfold zlen in *. split; [|done|]; [intros i Hi|]; rewrite Ho by (unfold zlen in *; lia); [by apply Hb|done].
Qed.

Lemma only_mapped m m' a n b k : only m m' a n → mapped m' a n → mapped m b k → mapped m' b k.
Proof. intros Ho Ha Hm x Hx. destruct (decide (a ≤ x < a + n)); [by apply Ha|]. rewrite Ho by done. by apply Hm. Qed.

Lemma store_byte_ok m a b : is_Some (m !! a) → store m a b = Some (<[a := b]> m).
Proof. intros Ha. unfold store. by rewrite bool_decide_eq_true_2. Qed.

Lemma insert_only m x b a n : a ≤ x < a + n → only m (<[x := b]> m) a n.
Proof. intros Hx y Hy. apply lookup_insert_ne. lia. Qed.

Lemma cstr_empty m s : cstr (<[s := 0]> m) s [].
Proof. split; [intros j Hj; cbn in Hj; lia|constructor|]. cbn. rewrite Z.add_0_r. apply lookup_insert_eq. Qed.

(** The final index, and the memory with the first [k] characters and a terminator. *)
Lemma bounded_copy_ok n m dst src l i :
  cstr m (src + i) l → let k := Z.min (Z.of_nat n) (zlen l) in
  mapped m (dst + i) (k + 1) → dst + i + k < src + i ∨ src + i + zlen l < dst + i →
  ∃ m', bounded_copy n m dst src i = Some (m', i + k) ∧ only m m' (dst + i) (k + 1) ∧ cstr m' (dst + i) (take n l).
Proof.
  revert m l i. induction n as [|n IH]; intros m l i Hs k Hm Hd; cbn [bounded_copy].
  - assert (k = 0) as -> by (unfold k, zlen; lia). rewrite store_byte_ok by (apply Hm; lia). cbn. eexists. rewrite Z.add_0_r. split; [done|].
    split; [apply insert_only; lia|]. rewrite take_0. apply cstr_empty.
  - destruct l as [|b l].
    + assert (k = 0) as -> by (unfold k, zlen; cbn; lia). rewrite (cstr_nil _ _ Hs). cbn. rewrite store_byte_ok by (apply Hm; lia). cbn. eexists. rewrite Z.add_0_r. split; [done|].
      split; [apply insert_only; lia|]. cbn. apply cstr_empty.
    + pose proof (cstr_cons _ _ _ _ Hs) as (Hb & Hr & Hs'). rewrite Hb. cbn [mbind option_bind]. rewrite (proj2 (Z.eqb_neq _ _)) by lia.
      assert (Hk : k = 1 + Z.min (Z.of_nat n) (zlen l) ∧ zlen (b :: l) = 1 + zlen l ∧ 0 ≤ zlen l) by (unfold k, zlen; cbn [length]; lia).
      rewrite store_byte_ok by (apply Hm; lia). cbn [mbind option_bind]. set (m1 := <[_ := _]> m). assert (Ho : only m m1 (dst + i) 1) by (apply insert_only; lia).
      destruct (IH m1 l (i + 1)) as (m' & E & Hom & Hcs).
      * apply (only_cstr m m1 (dst + i) 1); [done|lia|by rewrite Z.add_assoc].
      * apply (only_mapped m m1 (dst + i) 1); [done|intros x Hx; unfold m1; replace x with (dst + i) by lia; by rewrite lookup_insert_eq|apply (mapped_sub _ _ _ _ _ Hm); lia].
      * lia.
      * rewrite E. exists m'. split; [do 2 f_equal; lia|]. split.
        -- intros x Hx. rewrite Hom, Ho by lia. done.
        -- destruct Hcs as [Hcb Hcc Hce]. split; cbn [take length]; [|by constructor|].
           ++ intros [|j] Hj; [rewrite Z.add_0_r, Hom by lia; by apply lookup_insert_eq|]. cbn. rewrite <- Hcb by lia. f_equal. lia.
           ++ rewrite <- Hce. f_equal. unfold zlen. cbn [length]. lia.
Qed.

Lemma cstr_drop m s l k : cstr m s l → (k ≤ length l)%nat → cstr m (s + Z.of_nat k) (drop k l).
Proof.
  intros [Hb Hc He] Hk. split; [|by apply Forall_drop|].
  - intros i Hi. rewrite length_drop in Hi. rewrite lookup_drop, <- Hb by lia. f_equal. lia.
  - rewrite <- He. f_equal. unfold zlen. rewrite length_drop. lia.
Qed.

Lemma strlcpy_ok m dst src l s :
  cstr m src l → 0 < s < 2 ^ 63 → zlen l < 2 ^ 63 → mapped m dst s → dst + s ≤ src ∨ src + zlen l < dst →
  ∃ m', strlcpy m dst src s = Some (zlen l, m') ∧ only m m' dst s ∧ cstr m' dst (take (Z.to_nat (s - 1)) l).
Proof.
  intros Hl Hs Hz Hm Hd. unfold strlcpy. rewrite (proj2 (Z.eqb_neq s 0)) by lia. assert (0 ≤ zlen l) by (unfold zlen; lia).
  set (k := Z.min (Z.of_nat (Z.to_nat (s - 1))) (zlen l)).
  destruct (bounded_copy_ok (Z.to_nat (s - 1)) m dst src l 0) as (m1 & E & Ho & Hc); [by rewrite Z.add_0_r|apply (mapped_sub _ _ _ _ _ Hm); lia|lia|].
  rewrite E. cbn [mbind option_bind]. fold k in Ho |- *. rewrite Z.add_0_r in Ho, Hc. rewrite Z.add_0_l.
  assert (Hl1 : cstr m1 src l) by (apply (only_cstr m m1 dst (k + 1)); (done || lia)).
  assert (Hk : k = Z.of_nat (Z.to_nat k)) by lia. pose proof (cstr_drop m1 src l (Z.to_nat k) Hl1 ltac:(unfold k, zlen; lia)) as Hdr. rewrite <- Hk in Hdr.
  rewrite (strlen_ok _ _ _ Hdr). cbn [mbind option_bind]. exists m1. split; [|split; [|done]].
  - do 2 f_equal. unfold zlen in *. rewrite length_drop. rewrite u64_id by (unfold is_u64; lia). lia.
  - intros x Hx. apply Ho. lia.
Qed.

Lemma strchr_loop_ok f m s l c :
  cstr m s l → (length l < f)%nat → strchr_loop f m s c = Some ((λ x, s + Z.of_nat x.1) <$> list_find (λ b, b = c) (l ++ [0])).
Proof.
  revert s l. induction f as [|f IH]; intros s l Hs Hf; [lia|]. cbn [strchr_loop]. destruct l as [|b l].
  - rewrite (cstr_nil _ _ Hs). cbn [mbind option_bind app list_find]. case_decide as E; [subst; cbn; by rewrite Z.add_0_r|]. rewrite (proj2 (Z.eqb_neq 0 c)) by done. done.
  - apply cstr_cons in Hs as (-> & Hb & Hs). cbn [mbind option_bind app list_find]. case_decide as E; [subst; rewrite Z.eqb_refl; cbn; by rewrite Z.add_0_r|].
    rewrite (proj2 (Z.eqb_neq b c)), (proj2 (Z.eqb_neq b 0)) by lia. rewrite (IH _ _ Hs ltac:(cbn in Hf; lia)). f_equal.
    destruct (list_find _ _) as [[i x]|]; cbn; [f_equal; lia|done].
Qed.

(** On strings in memory, [strlen] and [strnlen] give the length, [strcmp] gives
    zero exactly for equal strings, [strchr] gives the first occurrence of a
    character or of the terminator, and [strlcpy] into a buffer of [n] bytes leaves
    there the longest prefix that fits, with a terminator, writes nothing outside the
    buffer and gives the length of the source.  None of them faults. *)
Theorem string_routines_correct m s t l r c dst n :
  cstr m s l → cstr m t r → 0 < n < 2 ^ 63 → zlen l < 2 ^ 63 → mapped m dst n → dst + n ≤ s ∨ s + zlen l < dst →
  strlen m s = Some (zlen l) ∧
  strnlen m s n = Some (Z.min n (zlen l)) ∧
  (∃ d, strcmp m s t = Some d ∧ (d = 0 ↔ l = r)) ∧
  strchr m s c = Some ((λ x, s + Z.of_nat x.1) <$> list_find (λ b, b = c mod 256) (l ++ [0])) ∧
  ∃ m', strlcpy m dst s n = Some (zlen l, m') ∧ only m m' dst n ∧ cstr m' dst (take (Z.to_nat (n - 1)) l).
Proof.
  intros Hs Ht Hn Hz Hm Hd. split_and!.
  - by apply strlen_ok.
  - apply strnlen_ok; [done|lia].
  - destruct (strcmp_loop_ok (fuel_of m) m s t l r Hs Ht (cstr_fuel m s l Hs)) as (d & E & _ & Hiff). by exists d.
  - apply strchr_loop_ok; [done|by apply (cstr_fuel m s)].
  - by apply strlcpy_ok.
Qed.

Definition ex_strings : memory := list_to_map (zip (seqZ 100 20) [97; 98; 97; 0; 99; 100; 101; 102; 103; 0; 97; 98; 97; 0; 1; 2; 3; 4; 5; 6]).

Lemma ex_strings_mapped a n : 100 ≤ a → a + n ≤ 120 → mapped ex_strings a n.
Proof.
  intros Ha Hn x Hx. apply elem_of_dom. unfold ex_strings. rewrite dom_list_to_map, fst_zip by (rewrite length_seqZ; cbn; lia).
  apply elem_of_list_to_set, elem_of_seqZ. lia.
Qed.

Ltac cstr_compute := split; [intros i Hi; cbn in Hi; repeat (destruct i as [|i]; [vm_compute; reflexivity|]); lia|repeat constructor|vm_compute; reflexivity].

Lemma ex_string_aba : cstr ex_strings 100 [97; 98; 97].
Proof. cstr_compute. Qed.

Lemma ex_string_cdefg : cstr ex_strings 104 [99; 100; 101; 102; 103].
Proof. cstr_compute. Qed.

Lemma ex_string_copy : cstr ex_strings 110 [97; 98; 97].
Proof. cstr_compute. Qed.

Lemma string_routines_correct_witness :
  strlen ex_strings 100 = Some 3 ∧ strchr ex_strings 100 98 = Some (Some 101) ∧
  ∃ m', strlcpy ex_strings 114 100 3 = Some (3, m') ∧ cstr m' 114 [97; 98].
Proof.
  destruct (string_routines_correct ex_strings 100 110 _ _ 98 114 3 ex_string_aba ex_string_copy ltac:(lia) ltac:(vm_compute; reflexivity)
    (ex_strings_mapped 114 3 ltac:(lia) ltac:(lia)) ltac:(vm_compute; right; reflexivity)) as (H1 & _ & _ & H2 & m' & H3 & _ & H4).
  split; [exact H1|]. split; [exact H2|]. exists m'. split; [exact H3|exact H4].
Defined.

(** ** Appending to a buffer *)

(** A guard byte after the buffer that is not mapped. *)
Lemma bounded_copy_fault n m dst src l i g :
  cstr m (src + i) l → i ≤ g ≤ i + Z.min (Z.of_nat n) (zlen l) → m !! (dst + g) = None →
  dst + g ≤ src + i ∨ src + i + zlen l < dst + i → bounded_copy n m dst src i = None.
Proof.
  revert m l i. induction n as [|n IH]; intros m l i Hs Hg Hm Hd; cbn [bounded_copy].
  - replace (dst + i) with (dst + g) by (unfold zlen in *; lia). unfold store. rewrite Hm. by rewrite bool_decide_eq_false_2 by (by intros []).
  - destruct (m !! (src + i)) as [c|] eqn:Ec; [|done]. cbn [mbind option_bind]. unfold store. destruct (decide (g = i)) as [->|Hne].
    + rewrite Hm. destruct (c =? 0); by rewrite bool_decide_eq_false_2 by (by intros []).
    + destruct l as [|b l]; [unfold zlen in *; cbn in *; lia|]. apply cstr_cons in Hs as (Hb & Hr & Hs). rewrite Ec in Hb. injection Hb as ->.
      rewrite (proj2 (Z.eqb_neq _ _)) by lia. destruct (bool_decide _); [|done]. cbn [mbind option_bind].
      assert (zlen (b :: l) = 1 + zlen l) by (unfold zlen; cbn [length]; lia).
      apply (IH _ l); [|lia|rewrite lookup_insert_ne by lia; done|lia].
      apply (only_cstr m _ (dst + i) 1); [apply insert_only; lia|lia|by rewrite Z.add_assoc].
Qed.

Lemma cstr_app m s l r : cstr m (s + zlen l) r → (∀ i, (i < length l)%nat → m !! (s + Z.of_nat i) = l !! i) → Forall (λ b, 0 < b < 256) l → cstr m s (l ++ r).
Proof.
  intros [Hb Hc He] Hl Hf. split; [|by apply Forall_app|].
  - intros i Hi. rewrite length_app in Hi. destruct (decide (i < length l)%nat).
    + rewrite lookup_app_l by lia. by apply Hl.
    + rewrite lookup_app_r, <- Hb by lia. f_equal. unfold zlen. lia.
  - rewrite <- He. f_equal. unfold zlen. rewrite length_app. lia.
Qed.

(** [strlcat] bounds what it appends by the size of the buffer and not by the room
    left in it.  If the result fits, it is the concatenation; if it does not and the
    buffer was not empty, the routine writes past the end of the buffer, and faults if
    the byte there is not mapped. *)
Theorem strlcat_overruns m dst src l0 l s :
  cstr m dst l0 → cstr m src l → 0 < zlen l0 < s → s < 2 ^ 62 → zlen l < 2 ^ 62 → mapped m dst s → dst + s ≤ src ∨ src + zlen l < dst →
  (zlen l0 + zlen l < s → ∃ m', strlcat m dst src s = Some (zlen l0 + zlen l, m') ∧ only m m' dst s ∧ cstr m' dst (l0 ++ l)) ∧
  (s ≤ zlen l0 + zlen l → m !! (dst + s) = None → strlcat m dst src s = None).
Proof.
  intros H0 Hl Hj Hs Hz Hm Hd. unfold strlcat. rewrite (strnlen_ok m dst l0 s H0) by lia. cbn [mbind option_bind].
  rewrite Z.min_r, (proj2 (Z.eqb_neq s 0)) by lia. set (j := zlen l0) in *. assert (0 ≤ zlen l) by (unfold zlen; lia). split.
  - intros Hfit. destruct (bounded_copy_ok (Z.to_nat (s - 1)) m (dst + j) src l 0) as (m1 & E & Ho & Hc);
      [by rewrite Z.add_0_r|apply (mapped_sub _ _ _ _ _ Hm); lia|lia|].
    rewrite E. cbn [mbind option_bind]. rewrite Z.min_r, Z.add_0_r in * by lia. rewrite Z.add_0_l. rewrite take_ge in Hc by (unfold zlen in *; lia).
    assert (Hl1 : cstr m1 src l) by (apply (only_cstr m m1 (dst + j) (zlen l + 1)); (done || lia)).
    pose proof (cstr_drop m1 src l (length l) Hl1 ltac:(lia)) as Hdr. rewrite drop_all in Hdr. fold (zlen l) in Hdr.
    rewrite (strlen_ok _ _ _ Hdr). cbn [mbind option_bind]. exists m1. change (zlen []) with 0. rewrite Z.add_0_r, u64_id by (unfold is_u64; lia). split; [done|].
    split; [intros x Hx; apply Ho; lia|]. destruct H0 as [Hb0 Hc0 _]. apply cstr_app; [done| |done].
    intros i Hi. rewrite Ho by (unfold j, zlen in *; lia). by apply Hb0.
  - intros Hover Hg. rewrite (bounded_copy_fault _ m (dst + j) src l 0 (s - j)); [done|by rewrite Z.add_0_r|lia| |lia].
    by replace (dst + j + (s - j)) with (dst + s) by lia.
Qed.

(** A buffer of six bytes at 200 that holds a string of three characters. *)
Definition ex_buffer : memory := ex_strings ∪ list_to_map (zip (seqZ 200 6) [97; 98; 97; 0; 7; 7]).

Lemma strlcat_overruns_witness : strlcat ex_buffer 200 104 6 = None.
Proof.
  assert (H0 : cstr ex_buffer 200 [97; 98; 97]) by cstr_compute. assert (Hl : cstr ex_buffer 104 [99; 100; 101; 102; 103]) by cstr_compute.
  apply (strlcat_overruns ex_buffer 200 104 _ _ 6 H0 Hl); [vm_compute; split; reflexivity|vm_compute; reflexivity|vm_compute; reflexivity| |vm_compute; right; reflexivity| |].
  - intros x Hx. assert (Hin : x ∈ seqZ 200 6) by (apply elem_of_seqZ; lia). clear Hx. revert x Hin. apply Forall_forall. vm_compute. repeat constructor; eauto.
  - vm_compute. congruence.
  - vm_compute. reflexivity.
Defined.

(** ** Binary search *)

Lemma bsearch_loop_ok f cmp n p low high :
  n < 2 ^ 63 → (∀ i, 0 ≤ i < p → ∃ r, cmp i = Some r ∧ 0 < r) → cmp p = Some 0 → (∀ i, p < i < n → ∃ r, cmp i = Some r ∧ r < 0) →
  0 ≤ low ≤ p → p ≤ high < n → high - low < Z.of_nat f → bsearch_loop f cmp low high = Some (Some p).
Proof.
  intros Hn Hlo Heq Hhi. revert low high. induction f as [|f IH]; intros low high Hl Hh Hf; [lia|]. cbn [bsearch_loop].
  rewrite (u64_id (high - low)) by (unfold is_u64; lia). pose proof (Z.div_pos (high - low) 2). pose proof (Z.mul_div_le (high - low) 2).
  set (h := (high - low) / 2) in *. rewrite (u64_id (low + h)) by (unfold is_u64; lia). destruct (Z.lt_trichotomy (low + h) p) as [Hc|[Hc|Hc]].
  - destruct (Hlo (low + h)) as (r & -> & Hr); [lia|]. cbn [mbind option_bind]. rewrite (proj2 (Z.ltb_ge r 0)), (proj2 (Z.gtb_lt r 0)) by lia.
    rewrite u64_id by (unfold is_u64; lia). rewrite (proj2 (Z.ltb_ge _ _)) by lia. destruct (_ >? high) eqn:E; [apply Z.gtb_lt in E; lia|]. cbn. apply IH; lia.
  - rewrite Hc, Heq. done.
  - destruct (Hhi (low + h)) as (r & -> & Hr); [lia|]. cbn [mbind option_bind]. rewrite (proj2 (Z.ltb_lt r 0)) by lia.
    rewrite (proj2 (Z.eqb_neq _ _)) by lia. apply IH; lia.
Qed.

(** [bsearch] finds a key that is in a sorted array; but it does not notice that
    its interval is empty when it has moved the upper end, and reads far outside the
    array for a key that lies between the elements of an array of two. *)
Theorem bsearch_absent_wild cmp n :
  n < 2 ^ 63 →
  (∀ p, 0 ≤ p < n → (∀ i, 0 ≤ i < p → ∃ r, cmp i = Some r ∧ 0 < r) → cmp p = Some 0 → (∀ i, p < i < n → ∃ r, cmp i = Some r ∧ r < 0) →
   bsearch cmp n = Some (Some p)) ∧
  (n = 2 → (∀ i, n ≤ i → cmp i = None) → (∃ r, cmp 0 = Some r ∧ 0 < r) → (∃ r, cmp 1 = Some r ∧ r < 0) → bsearch cmp n = None).
Proof.
  intros Hn. split.
  - intros p Hp Hlo Heq Hhi. unfold bsearch. rewrite (proj2 (Z.eqb_neq n 0)) by lia. by apply (bsearch_loop_ok _ cmp n p); (done || lia).
  - intros -> Hout (r0 & E0 & H0) (r1 & E1 & H1). unfold bsearch. cbn [Z.eqb]. change (Z.to_nat 2 + 1)%nat with 3%nat. cbn [bsearch_loop].
    change (u64 (0 + u64 (2 - 1 - 0) / 2)) with 0. rewrite E0. cbn [mbind option_bind]. rewrite (proj2 (Z.ltb_ge r0 0)), (proj2 (Z.gtb_lt r0 0)) by lia.
    change (u64 (0 + 1)) with 1. change ((1 <? 0) || (1 >? 2 - 1)) with false. cbn [orb]. change (u64 (1 + u64 (2 - 1 - 1) / 2)) with 1.
    rewrite E1. cbn [mbind option_bind]. rewrite (proj2 (Z.ltb_lt r1 0)) by lia. change (1 =? 0) with false. cbv iota.
    change (u64 (1 + u64 (1 - 1 - 1) / 2)) with (2 ^ 63). by rewrite Hout by lia.
Qed.

(** A search for 2 among 1 and 3. *)
Definition ex_compare (i : Z) : option Z := e ← ([1; 3] !! Z.to_nat i); Some (2 - e).

Lemma bsearch_absent_wild_witness : bsearch ex_compare 2 = None.
Proof.
  apply (bsearch_absent_wild ex_compare 2 ltac:(lia)); [reflexivity| |by exists 1|by exists (-1)].
  intros i Hi. unfold ex_compare. by rewrite lookup_ge_None_2 by (cbn; lia).
Defined.
End CStringFacts.
