(* ===== verification/Qsort.v ===== *)
(** * Sorting

    [src/kernel/lib/libc/qsort.c]: Bentley and McIlroy's quicksort, with insertion
    sort for small arrays and for arrays that a partition left as they were.

    The array is the list of its elements; a pointer into it is the index of an
    element, and an access outside it makes the routine [None].  An exchange of two
    elements, by words or by bytes, exchanges them in the list.  The [int]s [d] and
    [r] of the source count bytes: [es] is the size of an element.  The loops that
    move a pointer recurse on the distance it has left; [fuel] bounds the depth of
    the recursion and the turns of the partition by the number of elements. *)

From stdpp Require Import base tactics numbers list.
From Stdlib Require Import ZArith.
From S2P Require Import Prelude.
#[local] Open Scope Z_scope.

Module Qsort.

Section qsort.
Context {A : Type} (cmp : A → A → Z) (es : Z).

Definition compare (l : list A) (i j : nat) : option Z := x ← l !! i; y ← l !! j; Some (cmp x y).

Definition swap (l : list A) (i j : nat) : option (list A) := x ← l !! i; y ← l !! j; Some (<[i := y]> (<[j := x]> l)).

(** The bytes of [k] elements in an [int], and the elements of [r] bytes. *)
Definition in_bytes (k : Z) : Z := i32 (k * es).
Definition elements (r : Z) : nat := Z.to_nat (r / es).

(** [swapfunc] on [k] elements: the loop of [swapcode]. *)
Fixpoint swapfunc (k : nat) (l : list A) (i j : nat) : option (list A) :=
  match k with
  | O => Some l
  | S k' => l1 ← swap l i j; swapfunc k' l1 (S i) (S j)
  end.

Definition vecswap (l : list A) (i j : nat) (r : Z) : option (list A) := if r >? 0 then swapfunc (elements r) l i j else Some l.

Definition med3 (l : list A) (a b c : nat) : option nat :=
  ab ← compare l a b; bc ← compare l b c; ac ← compare l a c;
  Some (if ab <? 0 then (if bc <? 0 then b else if ac <? 0 then c else a)
        else (if bc >? 0 then b else if ac <? 0 then a else c)).

(** ** Insertion sort *)

(** The inner loop, from [pl = a + k] down. *)
Fixpoint sink (k : nat) (l : list A) (a : nat) : option (list A) :=
  match k with
  | O => Some l
  | S k' =>
    r ← compare l (a + k') (a + k);
    if r >? 0 then l1 ← swap l (a + k) (a + k'); sink k' l1 a else Some l
  end.

(** [m] turns of the outer loop, from [pm = a + k] on. *)
Fixpoint insertion (m k : nat) (l : list A) (a : nat) : option (list A) :=
  match m with
  | O => Some l
  | S m' => l1 ← sink k l a; insertion m' (S k) l1 a
  end.

(** ** Partition *)

(** The two inner loops: [k] is the number of elements from [pb] to [pc].  The
    results are the array, the pointer at the equal elements, the moving pointer,
    and whether anything was exchanged. *)
Fixpoint scan_up (k : nat) (l : list A) (a pa pb : nat) (swap_cnt : bool) : option (list A * nat * nat * bool) :=
  match k with
  | O => Some (l, pa, pb, swap_cnt)
  | S k' =>
    r ← compare l pb a;
    if r >? 0 then Some (l, pa, pb, swap_cnt)
    else if r =? 0 then l1 ← swap l pa pb; scan_up k' l1 a (S pa) (S pb) true
    else scan_up k' l a pa (S pb) swap_cnt
  end.

Fixpoint scan_down (k : nat) (l : list A) (a pc pd : nat) (swap_cnt : bool) : option (list A * nat * nat * bool) :=
  match k with
  | O => Some (l, pc, pd, swap_cnt)
  | S k' =>
    r ← compare l pc a;
    if r <? 0 then Some (l, pc, pd, swap_cnt)
    else if r =? 0 then l1 ← swap l pc pd; scan_down k' l1 a (pc - 1) (pd - 1) true
    else scan_down k' l a (pc - 1) pd swap_cnt
  end.

Fixpoint partition (fuel : nat) (l : list A) (a pa pb pc pd : nat) (swap_cnt : bool)
  : option (list A * nat * nat * nat * nat * bool) :=
  match fuel with
  | O => None
  | S f =>
    '(l1, pa1, pb1, c1) ← scan_up (S pc - pb) l a pa pb swap_cnt;
    '(l2, pc1, pd1, c2) ← scan_down (S pc - pb1) l1 a pc pd c1;
    if (pc1 <? pb1)%nat then Some (l2, pa1, pb1, pc1, pd1, c2)
    else l3 ← swap l2 pb1 pc1; partition f l3 a pa1 (S pb1) (pc1 - 1) pd1 true
  end.

(** The element to partition by. *)
Definition pivot (l : list A) (a n : nat) : option nat :=
  let pm := (a + n / 2)%nat in
  if (7 <? n)%nat then
    let pl := a in let pn := (a + (n - 1))%nat in
    if (40 <? n)%nat then
      let d := elements (in_bytes (Z.of_nat (n / 8))) in
      pl1 ← med3 l pl (pl + d) (pl + 2 * d);
      pm1 ← med3 l (pm - d) pm (pm + d);
      pn1 ← med3 l (pn - 2 * d) (pn - d) pn;
      med3 l pl1 pm1 pn1
    else med3 l pl pm pn
  else Some pm.

(** [qsort(a, n, es, cmp)]; the jump to [loop] is a call. *)
Fixpoint qsort (fuel : nat) (l : list A) (a n : nat) : option (list A) :=
  match fuel with
  | O => None
  | S f =>
    if (n <? 7)%nat then insertion (n - 1) 1 l a else
    pm ← pivot l a n;
    l1 ← swap l a pm;
    '(l2, pa, pb, pc, pd, swap_cnt) ← partition n l1 a (S a) (S a) (a + (n - 1)) (a + (n - 1)) false;
    if negb swap_cnt then insertion (n - 1) 1 l2 a else
    let pn := (a + n)%nat in
    let r := in_bytes (Z.min (Z.of_nat pa - Z.of_nat a) (Z.of_nat pb - Z.of_nat pa)) in
    l3 ← vecswap l2 a (pb - elements r) r;
    let r := in_bytes (Z.min (Z.of_nat pd - Z.of_nat pc) (Z.of_nat pn - Z.of_nat pd - 1)) in
    l4 ← vecswap l3 pb (pn - elements r) r;
    let r := in_bytes (Z.of_nat pb - Z.of_nat pa) in
    l5 ← (if r >? es then qsort f l4 a (elements r) else Some l4);
    let r := in_bytes (Z.of_nat pd - Z.of_nat pc) in
    if r >? es then qsort f l5 (pn - elements r) (elements r) else Some l5
  end.

End qsort.
End Qsort.
