(* ===== verification/QsortFacts.v ===== *)
(** * The sort sorts

    Every exchange of [Qsort] is inside the array that is being sorted ([reorder]);
    insertion sort keeps a sorted prefix; the partition keeps the elements that are
    equal to the pivot at the two ends and the others on their sides ([part_inv]). *)

From stdpp Require Import base tactics numbers list list_numbers.
From Stdlib Require Import ZArith Lia.
From S2P Require Import Prelude Qsort.
#[local] Open Scope Z_scope.

Module QsortFacts.
Import Qsort.

(** The result of a comparison function orders the elements. *)
Class Ordering {A} (cmp : A → A → Z) : Prop := {
  cmp_sym : ∀ x y, cmp x y < 0 ↔ 0 < cmp y x;
  cmp_trans : ∀ x y z, cmp x y ≤ 0 → cmp y z ≤ 0 → cmp x z ≤ 0 }.

Section facts.
Context {A : Type} (cmp : A → A → Z) `{!Ordering cmp}.

Implicit Types l : list A.

(** ** Exchanges *)

Lemma swap_ok l i j :
  (i < length l)%nat → (j < length l)%nat →
  ∃ l', swap l i j = Some l' ∧ length l' = length l ∧
    ∀ t, l' !! t = if decide (t = i) then l !! j else if decide (t = j) then l !! i else l !! t.
Proof.
  intros Hi Hj. unfold swap. destruct (lookup_lt_is_Some_2 l i Hi) as [x Hx], (lookup_lt_is_Some_2 l j Hj) as [y Hy]. rewrite Hx, Hy. cbn.
  eexists. split; [done|]. split; [by rewrite !length_insert|]. intros t. case_decide as E; [subst; rewrite list_lookup_insert_eq by (by rewrite length_insert); done|].
  rewrite list_lookup_insert_ne by done. case_decide; [subst; by rewrite list_lookup_insert_eq|by rewrite list_lookup_insert_ne].
Qed.

(** Exchanges among the [n] elements from [a] on. *)
Inductive reorder (a n : nat) : list A → list A → Prop :=
| reorder_refl l : reorder a n l l
| reorder_step l l1 l2 i j : (a ≤ i < a + n)%nat → (a ≤ j < a + n)%nat → swap l i j = Some l1 → reorder a n l1 l2 → reorder a n l l2.

Lemma reorder_trans a n l1 l2 l3 : reorder a n l1 l2 → reorder a n l2 l3 → reorder a n l1 l3.
Proof. induction 1 as [|l l1 l2 i j Hi Hj E _ IH]; [done|]. intros H3. apply (reorder_step _ _ _ l1 _ i j); [done|done|done|by apply IH]. Qed.

Lemma reorder_one a n l i j l' : (a ≤ i < a + n)%nat → (a ≤ j < a + n)%nat → swap l i j = Some l' → reorder a n l l'.
Proof. intros Hi Hj E. apply (reorder_step _ _ _ l' _ i j); [done|done|done|constructor]. Qed.

Lemma reorder_mono a n a' n' l l' : (a' ≤ a)%nat → (a + n ≤ a' + n')%nat → reorder a n l l' → reorder a' n' l l'.
Proof. intros H1 H2. induction 1 as [|l l1 l2 i j Hi Hj E _ IH]; [constructor|]. apply (reorder_step _ _ _ l1 _ i j); [lia|lia|done|done]. Qed.

Lemma swap_bounds l i j l' : swap l i j = Some l' → (i < length l)%nat ∧ (j < length l)%nat.
Proof.
  unfold swap. destruct (l !! i) eqn:Ei; [|done]. destruct (l !! j) eqn:Ej; [|done]. intros _. split; by eapply lookup_lt_Some.
Qed.

Lemma swap_lookup l i j l' :
  swap l i j = Some l' → length l' = length l ∧ ∀ t, l' !! t = if decide (t = i) then l !! j else if decide (t = j) then l !! i else l !! t.
Proof. intros E. destruct (swap_bounds _ _ _ _ E) as [Hi Hj]. destruct (swap_ok l i j Hi Hj) as (l1 & E1 & ?). rewrite E in E1. by injection E1 as <-. Qed.

Lemma reorder_length a n l l' : reorder a n l l' → length l' = length l.
Proof. induction 1 as [|l l1 l2 i j _ _ E _ IH]; [done|]. rewrite IH. by apply swap_lookup in E as [-> _]. Qed.

Lemma reorder_out a n l l' t : reorder a n l l' → ¬ (a ≤ t < a + n)%nat → l' !! t = l !! t.
Proof.
  induction 1 as [|l l1 l2 i j Hi Hj E _ IH]; intros Ht; [done|]. rewrite IH by done. apply swap_lookup in E as [_ ->].
  by rewrite !decide_False by (intros ->; lia).
Qed.

Lemma swap_perm l i j l' : swap l i j = Some l' → l' ≡ₚ l.
Proof.
  intros E. apply swap_lookup in E as [Hl Hx]. apply Permutation_inj. split; [done|].
  exists (λ t, if decide (t = i) then j else if decide (t = j) then i else t). split.
  - intros x y. repeat case_decide; congruence.
  - intros t. rewrite Hx. by repeat case_decide.
Qed.

Lemma reorder_perm a n l l' : reorder a n l l' → l' ≡ₚ l.
Proof. induction 1 as [|l l1 l2 i j _ _ E _ IH]; [done|]. rewrite IH. by apply (swap_perm _ i j). Qed.

(** [P] holds of the elements from [i] on and before [j]. *)
Definition seg (P : A → Prop) l (i j : nat) : Prop := ∀ t x, (i ≤ t < j)%nat → l !! t = Some x → P x.

Lemma seg_reorder P a n l l' : reorder a n l l' → seg P l a (a + n) → seg P l' a (a + n).
Proof.
  induction 1 as [|l l1 l2 i j Hi Hj E _ IH]; intros Hs; [done|]. apply IH. apply swap_lookup in E as [_ Hx]. intros t x Ht. rewrite Hx.
  repeat case_decide; subst; by apply Hs.
Qed.

Lemma seg_out P a n l l' i j : reorder a n l l' → (j ≤ a ∨ a + n ≤ i)%nat → seg P l i j → seg P l' i j.
Proof. intros Hr Hd Hs t x Ht. rewrite (reorder_out a n l l' t Hr) by lia. by apply Hs. Qed.

(** ** Insertion sort *)

Definition sorted l (a n : nat) : Prop :=
  ∀ i j x y, (a ≤ i)%nat → (i < j)%nat → (j < a + n)%nat → l !! i = Some x → l !! j = Some y → cmp x y ≤ 0.

(** Sorted, except that the element at [k] may be smaller than those before it. *)
Definition almost l (a n k : nat) : Prop :=
  ∀ i j x y, (a ≤ i)%nat → (i < j)%nat → (j < a + n)%nat → j ≠ (a + k)%nat → l !! i = Some x → l !! j = Some y → cmp x y ≤ 0.

Lemma compare_ok l i j x y : l !! i = Some x → l !! j = Some y → compare cmp l i j = Some (cmp x y).
Proof. intros Hx Hy. unfold compare. by rewrite Hx, Hy. Qed.

Lemma sink_ok k l a n :
  almost l a n k → (k < n)%nat → (a + n ≤ length l)%nat → ∃ l', sink cmp k l a = Some l' ∧ reorder a n l l' ∧ sorted l' a n.
Proof using Ordering0.
  revert l. induction k as [|k IH]; intros l Ha Hk Hlen; cbn [sink].
  - exists l. split; [done|]. split; [constructor|]. intros i j x y Hi Hij Hj. apply Ha; lia.
  - destruct (lookup_lt_is_Some_2 l (a + k)) as [x Hx]; [lia|]. destruct (lookup_lt_is_Some_2 l (a + S k)) as [y Hy]; [lia|].
    rewrite (compare_ok l _ _ _ _ Hx Hy). cbn [mbind option_bind]. destruct (cmp x y >? 0) eqn:E.
    + apply Z.gtb_lt in E. apply (cmp_sym y x) in E. destruct (swap_ok l (a + S k) (a + k)) as (l1 & Es & Hl1 & Hs); [lia|lia|]. rewrite Es. cbn [mbind option_bind].
      destruct (IH l1) as (l' & E' & Hr & Hs'); [|lia|lia|exists l'; split; [done|]; split; [|done]; apply (reorder_step _ _ _ l1 _ (a + S k) (a + k)); (done || lia)].
      intros i j u v Hi Hij Hj Hne. rewrite !Hs. rewrite (decide_False (P := j = (a + k)%nat)) by done. destruct (decide (j = a + S k)%nat) as [->|Hj'].
      * rewrite (decide_False (P := i = (a + S k)%nat)) by lia. rewrite Hx, Hy. destruct (decide (i = a + k)%nat); intros Hu [= <-]; [injection Hu as <-; lia|].
        apply (Ha i (a + k)%nat); (done || lia).
      * destruct (decide (i = a + S k)%nat); [|destruct (decide (i = a + k)%nat)]; intros Hu Hv;
          [apply (Ha (a + k)%nat j)|apply (Ha (a + S k)%nat j)|apply (Ha i j)]; (done || lia).
    + assert (Hle : cmp x y ≤ 0) by (destruct (Z.gtb_spec (cmp x y) 0); [done|lia]). exists l. split; [done|]. split; [constructor|].
      intros i j u v Hi Hij Hj Hu Hv. destruct (decide (j = a + S k)%nat) as [->|Hne]; [|by apply (Ha i j)].
      rewrite Hy in Hv. injection Hv as <-. destruct (decide (i = a + k)%nat) as [->|]; [congruence|].
      apply (cmp_trans u x y); [|done]. apply (Ha i (a + k)%nat); (done || lia).
Qed.

Lemma insertion_ok m k l a :
  sorted l a k → (a + k + m ≤ length l)%nat → ∃ l', insertion cmp m k l a = Some l' ∧ reorder a (k + m) l l' ∧ sorted l' a (k + m).
Proof using Ordering0.
  revert k l. induction m as [|m IH]; intros k l Hs Hlen; cbn [insertion].
  - exists l. rewrite Nat.add_0_r. split; [done|]. split; [constructor|done].
  - destruct (sink_ok k l a (S k)) as (l1 & -> & Hr & Hs1); [|lia|lia|].
    { intros i j x y Hi Hij Hj Hne. apply Hs; lia. }
    cbn [mbind option_bind]. destruct (IH (S k) l1 Hs1) as (l' & E & Hr' & Hs'); [rewrite (reorder_length _ _ _ _ Hr); lia|].
    exists l'. replace (k + S m)%nat with (S k + m)%nat by lia. split; [done|]. split; [|done].
    apply (reorder_trans _ _ _ l1); [|done]. by apply (reorder_mono a (S k)); [lia|lia|].
Qed.

Lemma insertion_all l a n : (a + n ≤ length l)%nat → ∃ l', insertion cmp (n - 1) 1 l a = Some l' ∧ reorder a n l l' ∧ sorted l' a n.
Proof using Ordering0.
  intros Hlen. destruct n as [|n]; [exists l; split; [done|]; split; [constructor|]; intros ? **; lia|].
  destruct (insertion_ok n 1 l a) as (l' & E & Hr & Hs); [intros ? **; lia|lia|]. exists l'. rewrite Nat.sub_1_r. done.
Qed.

(** ** The partition *)

Definition lt_ v x : Prop := cmp x v < 0.
Definition eq_ v x : Prop := cmp x v = 0.
Definition gt_ v x : Prop := 0 < cmp x v.

(** The pivot is at [a]; equal elements come first and last, then the smaller and
    the greater ones, and the rest is between [pb] and [pc]. *)
Record part_inv l (a n : nat) (v : A) (pa pb pc pd : nat) : Prop := {
  pv_len : (a + n ≤ length l)%nat;
  pv_pivot : l !! a = Some v;
  pv_order : (a < pa ≤ pb)%nat ∧ (pb ≤ S pc)%nat ∧ (pc ≤ pd < a + n)%nat;
  pv_eq1 : seg (eq_ v) l (S a) pa;
  pv_lt : seg (lt_ v) l pa pb;
  pv_gt : seg (gt_ v) l (S pc) (S pd);
  pv_eq2 : seg (eq_ v) l (S pd) (a + n) }.

Lemma seg_empty P l i j : (j ≤ i)%nat → seg P l i j.
Proof. intros H t x Ht. lia. Qed.

Lemma seg_snoc P l i j x : seg P l i j → l !! j = Some x → P x → seg P l i (S j).
Proof. intros Hs Hx HP t y Ht Hy. destruct (decide (t = j)) as [->|]; [congruence|]. apply (Hs t); (done || lia). Qed.

Lemma seg_cons P l i j x : seg P l (S i) j → l !! i = Some x → P x → seg P l i j.
Proof. intros Hs Hx HP t y Ht Hy. destruct (decide (t = i)) as [->|]; [congruence|]. apply (Hs t); (done || lia). Qed.

(** What an exchange of positions [i] and [j] does to a segment. *)
Lemma seg_swap P l i j l' b e :
  swap l i j = Some l' → seg P l b e → (∀ x, (b ≤ i < e)%nat → l !! j = Some x → P x) → (∀ x, (b ≤ j < e)%nat → l !! i = Some x → P x) → seg P l' b e.
Proof.
  intros E Hs Hi Hj t x Ht. apply swap_lookup in E as [_ ->]. destruct (decide (t = i)) as [->|]; [by apply Hi|].
  destruct (decide (t = j)) as [->|]; [by apply Hj|]. by apply (Hs t).
Qed.

Lemma seg_swap_out P l i j l' b e :
  swap l i j = Some l' → (i < b ∨ e ≤ i)%nat → (j < b ∨ e ≤ j)%nat → seg P l b e → seg P l' b e.
Proof. intros E Hi Hj Hs. apply (seg_swap P l i j l' b e E Hs); intros; lia. Qed.

(** An element equal to the pivot joins the first block of equal elements. *)
Lemma up_equal l a n v pa pb pc pd x :
  part_inv l a n v pa pb pc pd → (pb ≤ pc)%nat → l !! pb = Some x → cmp x v = 0 →
  ∃ l', swap l pa pb = Some l' ∧ part_inv l' a n v (S pa) (S pb) pc pd ∧ reorder a n l l'.
Proof.
  intros [Hlen Hv Ho H1 H2 H3 H4] Hb Hx E. destruct (swap_ok l pa pb) as (l' & Es & Hl' & Hlk); [lia|lia|]. exists l'. split; [done|].
  split; [|by apply (reorder_one _ _ _ pa pb); [lia|lia|]]. split; [lia|rewrite Hlk; by rewrite !decide_False by lia|lia| | | |].
  - apply (seg_snoc _ _ _ _ x); [by apply (seg_swap_out _ l pa pb); [|lia|lia|]|by rewrite Hlk, decide_True|done].
  - intros t y Ht. rewrite Hlk, decide_False by lia. case_decide; intros Hy; [apply (H2 pa); (done || lia)|apply (H2 t); (done || lia)].
  - apply (seg_swap_out _ l pa pb); (done || lia).
  - apply (seg_swap_out _ l pa pb); (done || lia).
Qed.

Lemma down_equal l a n v pa pb pc pd x :
  part_inv l a n v pa pb pc pd → (pb ≤ pc)%nat → l !! pc = Some x → cmp x v = 0 →
  ∃ l', swap l pc pd = Some l' ∧ part_inv l' a n v pa pb (pc - 1) (pd - 1) ∧ reorder a n l l' ∧ ∀ t, (t < pc)%nat → l' !! t = l !! t.
Proof.
  intros [Hlen Hv Ho H1 H2 H3 H4] Hb Hx E. destruct (swap_ok l pc pd) as (l' & Es & Hl' & Hlk); [lia|lia|]. exists l'. split; [done|].
  split; [|split; [by apply (reorder_one _ _ _ pc pd); [lia|lia|]|intros t Ht; rewrite Hlk; by rewrite !decide_False by lia]].
  split; [lia|rewrite Hlk; by rewrite !decide_False by lia|lia| | | |].
  - apply (seg_swap_out _ l pc pd); (done || lia).
  - apply (seg_swap_out _ l pc pd); (done || lia).
  - replace (S (pc - 1)) with pc by lia. replace (S (pd - 1)) with pd by lia. intros t y Ht. rewrite Hlk. rewrite (decide_False (P := t = pd)) by lia.
    case_decide; intros Hy; [apply (H3 pd); (done || lia)|apply (H3 t); (done || lia)].
  - replace (S (pd - 1)) with pd by lia. apply (seg_cons _ _ _ _ x); [by apply (seg_swap_out _ l pc pd); [|lia|lia|]| |done].
    rewrite Hlk. case_decide; [congruence|]. by rewrite decide_True.
Qed.

Lemma scan_up_ok k l a n v pa pb pc pd c :
  part_inv l a n v pa pb pc pd → k = (S pc - pb)%nat →
  ∃ l' pa' pb' c', scan_up cmp k l a pa pb c = Some (l', pa', pb', c') ∧ part_inv l' a n v pa' pb' pc pd ∧ reorder a n l l' ∧
    (pb ≤ pb')%nat ∧ ((pb' ≤ pc)%nat → ∃ x, l' !! pb' = Some x ∧ gt_ v x).
Proof.
  revert l pa pb c. induction k as [|k IH]; intros l pa pb c Hi Hk; cbn [scan_up].
  - eexists _, _, _, _. split; [done|]. split; [done|]. split; [constructor|]. split; [lia|]. intros. pose proof (pv_order _ _ _ _ _ _ _ _ Hi). lia.
  - pose proof Hi as [Hlen Hv Ho H1 H2 H3 H4]. destruct (lookup_lt_is_Some_2 l pb) as [x Hx]; [lia|]. rewrite (compare_ok l _ _ _ _ Hx Hv). cbn [mbind option_bind].
    destruct (cmp x v >? 0) eqn:E; [|destruct (cmp x v =? 0) eqn:E0; zb].
    + eexists _, _, _, _. split; [done|]. split; [done|]. split; [constructor|]. split; [lia|]. intros _. exists x. split; [done|]. by apply Z.gtb_lt.
    + destruct (up_equal l a n v pa pb pc pd x Hi ltac:(lia) Hx E0) as (l1 & -> & Hi1 & Hr1). cbn [mbind option_bind].
      destruct (IH l1 (S pa) (S pb) true Hi1 ltac:(lia)) as (l' & pa' & pb' & c' & -> & Hi' & Hr & Hle & Hg).
      eexists _, _, _, _. split; [done|]. split; [done|]. split; [by apply (reorder_trans _ _ _ l1)|]. split; [lia|done].
    + assert (Hlt : cmp x v < 0) by (destruct (Z.gtb_spec (cmp x v) 0); [done|lia]).
      destruct (IH l pa (S pb) c) as (l' & pa' & pb' & c' & -> & Hi' & Hr & Hle & Hg); [|lia|].
      { split; try done; [lia|]. by apply (seg_snoc _ _ _ _ x). }
      eexists _, _, _, _. split; [done|]. split; [done|]. split; [done|]. split; [lia|done].
Qed.

Lemma scan_down_ok k l a n v pa pb pc pd c :
  part_inv l a n v pa pb pc pd → k = (S pc - pb)%nat → ((pb ≤ pc)%nat → ∃ x, l !! pb = Some x ∧ gt_ v x) →
  ∃ l' pc' pd' c', scan_down cmp k l a pc pd c = Some (l', pc', pd', c') ∧ part_inv l' a n v pa pb pc' pd' ∧ reorder a n l l' ∧ (pc' ≤ pc)%nat ∧
    ((pb ≤ pc')%nat → (∃ x, l' !! pb = Some x ∧ gt_ v x) ∧ ∃ y, l' !! pc' = Some y ∧ lt_ v y).
Proof.
  revert l pc pd c. induction k as [|k IH]; intros l pc pd c Hi Hk Hpb; cbn [scan_down].
  - eexists _, _, _, _. split; [done|]. split; [done|]. split; [constructor|]. split; [lia|]. intros. pose proof (pv_order _ _ _ _ _ _ _ _ Hi). lia.
  - pose proof Hi as [Hlen Hv Ho H1 H2 H3 H4]. destruct (lookup_lt_is_Some_2 l pc) as [y Hy]; [lia|]. rewrite (compare_ok l _ _ _ _ Hy Hv). cbn [mbind option_bind].
    destruct (cmp y v <? 0) eqn:E; [|destruct (cmp y v =? 0) eqn:E0]; zb.
    + eexists _, _, _, _. split; [done|]. split; [done|]. split; [constructor|]. split; [lia|]. intros Hle. split; [by apply Hpb|]. by exists y.
    + destruct (down_equal l a n v pa pb pc pd y Hi ltac:(lia) Hy E0) as (l1 & -> & Hi1 & Hr1 & Hsame). cbn [mbind option_bind].
      destruct (IH l1 (pc - 1)%nat (pd - 1)%nat true Hi1 ltac:(lia)) as (l' & pc' & pd' & c' & -> & Hi' & Hr & Hle & Hg).
      { intros Hle. rewrite Hsame by lia. apply Hpb. lia. }
      eexists _, _, _, _. split; [done|]. split; [done|]. split; [by apply (reorder_trans _ _ _ l1)|]. split; [lia|done].
    + destruct (IH l (pc - 1)%nat pd c) as (l' & pc' & pd' & c' & -> & Hi' & Hr & Hle & Hg); [|lia|intros; apply Hpb; lia|].
      { split; try done; [lia|]. replace (S (pc - 1)) with pc by lia. apply (seg_cons _ _ _ _ y); [done|done|]. unfold gt_. lia. }
      eexists _, _, _, _. split; [done|]. split; [done|]. split; [done|]. split; [lia|done].
Qed.

(** The two elements the scans stopped at change sides. *)
Lemma exchange_ok l a n v pa pb pc pd x y :
  part_inv l a n v pa pb pc pd → (pb ≤ pc)%nat → l !! pb = Some x → gt_ v x → l !! pc = Some y → lt_ v y →
  ∃ l', swap l pb pc = Some l' ∧ part_inv l' a n v pa (S pb) (pc - 1) pd ∧ reorder a n l l' ∧ (pb < pc)%nat.
Proof.
  intros [Hlen Hv Ho H1 H2 H3 H4] Hb Hx Hgx Hy Hly. assert (pb < pc)%nat.
  { destruct (decide (pb = pc)) as [->|]; [|lia]. unfold gt_, lt_ in *. rewrite Hx in Hy. injection Hy as ->. lia. }
  destruct (swap_ok l pb pc) as (l' & Es & Hl' & Hlk); [lia|lia|]. exists l'. split; [done|].
  split; [|split; [by apply (reorder_one _ _ _ pb pc); [lia|lia|]|done]]. split; [lia|rewrite Hlk; by rewrite !decide_False by lia|lia| | | |].
  - apply (seg_swap_out _ l pb pc); (done || lia).
  - apply (seg_snoc _ _ _ _ y); [apply (seg_swap_out _ l pb pc); (done || lia)|by rewrite Hlk, decide_True|done].
  - replace (S (pc - 1)) with pc by lia. apply (seg_cons _ _ _ _ x); [apply (seg_swap_out _ l pb pc); (done || lia)|by rewrite Hlk, decide_False, decide_True by lia|done].
  - apply (seg_swap_out _ l pb pc); (done || lia).
Qed.

Lemma partition_ok f l a n v pa pb pc pd c :
  part_inv l a n v pa pb pc pd → (S pc - pb < f)%nat →
  ∃ l' pa' pb' pc' pd' c', partition cmp f l a pa pb pc pd c = Some (l', pa', pb', pc', pd', c') ∧
    part_inv l' a n v pa' pb' pc' pd' ∧ reorder a n l l' ∧ pb' = S pc'.
Proof.
  revert l pa pb pc pd c. induction f as [|f IH]; intros l pa pb pc pd c Hi Hf; [lia|]. cbn [partition].
  destruct (scan_up_ok _ l a n v pa pb pc pd c Hi eq_refl) as (l1 & pa1 & pb1 & c1 & -> & Hi1 & Hr1 & Hle1 & Hg1). cbn [mbind option_bind].
  destruct (scan_down_ok _ l1 a n v pa1 pb1 pc pd c1 Hi1 eq_refl Hg1) as (l2 & pc1 & pd1 & c2 & -> & Hi2 & Hr2 & Hle2 & Hg2). cbn [mbind option_bind].
  destruct (Nat.ltb_spec pc1 pb1) as [Hlt|Hge].
  - eexists _, _, _, _, _, _. split; [done|]. split; [done|]. split; [by apply (reorder_trans _ _ _ l1)|]. pose proof (pv_order _ _ _ _ _ _ _ _ Hi2). lia.
  - destruct (Hg2 Hge) as [(x & Hx & Hgx) (y & Hy & Hly)].
    destruct (exchange_ok l2 a n v pa1 pb1 pc1 pd1 x y Hi2 Hge Hx Hgx Hy Hly) as (l3 & -> & Hi3 & Hr3 & Hlt). cbn [mbind option_bind].
    destruct (IH l3 pa1 (S pb1) (pc1 - 1)%nat pd1 true Hi3 ltac:(lia)) as (l' & pa' & pb' & pc' & pd' & c' & -> & Hi' & Hr & Heq).
    eexists _, _, _, _, _, _. split; [done|]. split; [done|]. split; [|done].
    apply (reorder_trans _ _ _ l1); [done|]. apply (reorder_trans _ _ _ l2); [done|]. by apply (reorder_trans _ _ _ l3).
Qed.

(** ** The equal elements move to the middle *)

Lemma swapfunc_ok k l i j a n :
  (i + k ≤ j)%nat → (j + k ≤ length l)%nat → (a ≤ i)%nat → (j + k ≤ a + n)%nat →
  ∃ l', swapfunc k l i j = Some l' ∧ reorder a n l l' ∧
    ∀ t, l' !! t = if decide (i ≤ t < i + k)%nat then l !! (j + (t - i))%nat
                   else if decide (j ≤ t < j + k)%nat then l !! (i + (t - j))%nat else l !! t.
Proof.
  revert l i j. induction k as [|k IH]; intros l i j Hij Hj Ha Hn; cbn [swapfunc].
  - exists l. split; [done|]. split; [constructor|]. intros t. by rewrite !decide_False by lia.
  - destruct (swap_ok l i j) as (l1 & -> & Hl1 & Hlk); [lia|lia|]. assert (Hr1 : swap l i j = Some l1) by (destruct (swap_ok l i j) as (l0 & E & _ & Hlk0); [lia|lia|];
      rewrite E; f_equal; apply list_eq; intros t; by rewrite Hlk, Hlk0). cbn [mbind option_bind].
    destruct (IH l1 (S i) (S j)) as (l' & E & Hr & Hx); [lia|lia|lia|lia|]. exists l'. split; [done|].
    split; [apply (reorder_step _ _ _ l1 _ i j); (done || lia)|]. intros t. rewrite Hx, !Hlk.
    destruct (decide (t = i)) as [->|]; [|destruct (decide (t = j)) as [->|]].
    + rewrite !decide_False by lia. rewrite !decide_True by lia. by rewrite Nat.sub_diag, Nat.add_0_r.
    + rewrite (decide_False (P := (S i ≤ j < S i + k)%nat)), (decide_False (P := (S j ≤ j < S j + k)%nat)) by lia.
      rewrite (decide_False (P := (i ≤ j < i + S k)%nat)), (decide_True (P := (j ≤ j < j + S k)%nat)) by lia. by rewrite Nat.sub_diag, Nat.add_0_r.
    + destruct (decide (S i ≤ t < S i + k)%nat); [|destruct (decide (S j ≤ t < S j + k)%nat)].
      * rewrite (decide_True (P := (i ≤ t < i + S k)%nat)) by lia. rewrite !decide_False by lia. f_equal. lia.
      * rewrite (decide_False (P := (i ≤ t < i + S k)%nat)), (decide_True (P := (j ≤ t < j + S k)%nat)) by lia. rewrite !decide_False by lia. f_equal. lia.
      * by rewrite !decide_False by lia.
Qed.

Lemma cmp_refl v : cmp v v = 0.
Proof using Ordering0. pose proof (cmp_sym v v). lia. Qed.

Section bytes.
Context (es : Z) (n : nat) (Hes : 0 < es) (Hn : Z.of_nat n * es < 2 ^ 31).

Lemma in_bytes_ok k : 0 ≤ k ≤ Z.of_nat n → in_bytes es k = k * es ∧ elements es (k * es) = Z.to_nat k.
Proof using Hes Hn.
  intros Hk. assert (0 ≤ k * es < 2 ^ 31) by nia. unfold in_bytes, elements, i32. rewrite Z.mod_small by lia. split; [lia|]. by rewrite Z.div_mul by lia.
Qed.

Lemma vecswap_ok k l i j a :
  0 ≤ k ≤ Z.of_nat n → (i + Z.to_nat k ≤ j)%nat → (j + Z.to_nat k ≤ length l)%nat → (a ≤ i)%nat → (j + Z.to_nat k ≤ a + n)%nat →
  ∃ l', vecswap es l i j (in_bytes es k) = Some l' ∧ reorder a n l l' ∧
    ∀ t, l' !! t = if decide (i ≤ t < i + Z.to_nat k)%nat then l !! (j + (t - i))%nat
                   else if decide (j ≤ t < j + Z.to_nat k)%nat then l !! (i + (t - j))%nat else l !! t.
Proof using Hes Hn.
  intros Hk Hij Hj Ha Hb. destruct (in_bytes_ok k Hk) as [E1 E2]. unfold vecswap. rewrite E1, E2. destruct (k * es >? 0) eqn:E.
  - by apply swapfunc_ok.
  - assert (k = 0) as -> by (destruct (Z.gtb_spec (k * es) 0); [done|nia]). exists l. split; [done|]. split; [constructor|].
    intros t. by rewrite !decide_False by lia.
Qed.

(** Smaller elements before [p], equal ones before [q], greater ones after. *)
Record arranged l (a : nat) (v : A) (p q : nat) : Prop := {
  ar_lt : seg (lt_ v) l a p;
  ar_eq : seg (eq_ v) l p q;
  ar_gt : seg (gt_ v) l q (a + n) }.

Lemma arrange_ok l a v pa pb pc pd :
  part_inv l a n v pa pb pc pd → pb = S pc →
  ∃ l3 l4, let k1 := Z.min (Z.of_nat pa - Z.of_nat a) (Z.of_nat pb - Z.of_nat pa) in
    let k2 := Z.min (Z.of_nat pd - Z.of_nat pc) (Z.of_nat (a + n) - Z.of_nat pd - 1) in
    vecswap es l a (pb - elements es (in_bytes es k1)) (in_bytes es k1) = Some l3 ∧
    vecswap es l3 pb (a + n - elements es (in_bytes es k2)) (in_bytes es k2) = Some l4 ∧
    reorder a n l l4 ∧ arranged l4 a v (a + (pb - pa)) (a + n - (pd - pc)).
Proof using Ordering0 Hes Hn.
  intros [Hlen Hv Ho H1 H2 H3 H4] Hpb. assert (H1' : seg (eq_ v) l a pa) by (apply (seg_cons _ _ _ _ v); [done|done|apply cmp_refl]).
  set (k1 := Z.min (Z.of_nat pa - Z.of_nat a) _). set (k2 := Z.min (Z.of_nat pd - Z.of_nat pc) _).
  destruct (in_bytes_ok k1 ltac:(lia)) as [E1 E1']. destruct (in_bytes_ok k2 ltac:(lia)) as [E2 E2'].
  destruct (vecswap_ok k1 l a (pb - Z.to_nat k1) a) as (l3 & F1 & Hr3 & Hx3); [lia|lia|lia|lia|lia|].
  destruct (vecswap_ok k2 l3 pb (a + n - Z.to_nat k2) a) as (l4 & F2 & Hr4 & Hx4); [lia|lia|rewrite (reorder_length _ _ _ _ Hr3); lia|lia|lia|].
  exists l3, l4. cbv zeta. rewrite E1, E2, E1', E2' in *. split; [done|]. split; [done|]. split; [by apply (reorder_trans _ _ _ l3)|].
  assert (L3 : seg (lt_ v) l3 a (a + (pb - pa))).
  { intros t x Ht. rewrite Hx3. repeat case_decide; try lia; intros Hx; [apply (H2 (pb - Z.to_nat k1 + (t - a))%nat)|apply (H2 t)]; (done || lia). }
  assert (E3 : seg (eq_ v) l3 (a + (pb - pa)) pb).
  { intros t x Ht. rewrite Hx3. repeat case_decide; try lia; intros Hx; [apply (H1' (a + (t - (pb - Z.to_nat k1)))%nat)|apply (H1' t)]; (done || lia). }
  assert (R3 : ∀ t, (pb ≤ t)%nat → l3 !! t = l !! t) by (intros t Ht; rewrite Hx3; by rewrite !decide_False by lia).
  split.
  - intros t x Ht. rewrite Hx4, !decide_False by lia. by apply L3.
  - intros t x Ht. rewrite Hx4. destruct (decide (t < pb)%nat); [rewrite !decide_False by lia; apply E3; lia|].
    repeat case_decide; try lia; rewrite R3 by lia; intros Hx; [apply (H4 (a + n - Z.to_nat k2 + (t - pb))%nat)|apply (H4 t)]; (done || lia).
  - intros t x Ht. rewrite Hx4. repeat case_decide; try lia; rewrite R3 by lia; intros Hx;
      [apply (H3 (pb + (t - (a + n - Z.to_nat k2)))%nat)|apply (H3 t)]; (done || lia).
Qed.

Lemma arranged_reorder l l' a v p q b m :
  arranged l a v p q → reorder b m l l' → (a ≤ p ≤ q)%nat → (q ≤ a + n)%nat → (b = a ∧ b + m = p ∨ b = q ∧ b + m = a + n)%nat → arranged l' a v p q.
Proof.
  clear Hes Hn. intros [Hl He Hg] Hr Hpq Hq [[-> <-]|[-> Hm]]; split;
    solve [by apply (seg_reorder _ _ _ l)|apply (seg_out _ _ _ l _ _ _ Hr); (done || lia)|rewrite <- Hm in *; by apply (seg_reorder _ _ _ l)].
Qed.

Lemma arranged_sorted l a v p q :
  arranged l a v p q → (a ≤ p ≤ q)%nat → (q ≤ a + n)%nat → sorted l a (p - a) → sorted l q (a + n - q) → sorted l a n.
Proof using Ordering0.
  clear Hes Hn. intros [Hl He Hg] Hpq Hq S1 S2 i j x y Hi Hij Hj Hx Hy.
  assert (Hle : ∀ t u, (a ≤ t < q)%nat → l !! t = Some u → cmp u v ≤ 0).
  { intros t u Ht Hu. destruct (decide (t < p)%nat); [assert (lt_ v u) by (apply (Hl t); (done || lia))|assert (eq_ v u) by (apply (He t); (done || lia))];
      unfold lt_, eq_ in *; lia. }
  assert (Hge : ∀ t u, (p ≤ t < a + n)%nat → l !! t = Some u → cmp v u ≤ 0).
  { intros t u Ht Hu. pose proof (cmp_sym u v). destruct (decide (t < q)%nat); [assert (eq_ v u) by (apply (He t); (done || lia))|assert (gt_ v u) by (apply (Hg t); (done || lia))];
      unfold eq_, gt_ in *; pose proof (cmp_sym v u); lia. }
  destruct (decide (j < p)%nat); [apply (S1 i j); (done || lia)|]. destruct (decide (q ≤ i)%nat); [apply (S2 i j); (done || lia)|].
  apply (cmp_trans x v y); [apply (Hle i)|apply (Hge j)]; (done || lia).
Qed.
End bytes.

(** ** The sort *)

Lemma med3_ok l a b c :
  (a < length l)%nat → (b < length l)%nat → (c < length l)%nat → ∃ r, med3 cmp l a b c = Some r ∧ (r = a ∨ r = b ∨ r = c).
Proof.
  intros Ha Hb Hc. destruct (lookup_lt_is_Some_2 l a Ha) as [x Hx], (lookup_lt_is_Some_2 l b Hb) as [y Hy], (lookup_lt_is_Some_2 l c Hc) as [z Hz].
  unfold med3. rewrite (compare_ok l a b x y), (compare_ok l b c y z), (compare_ok l a c x z) by done. cbn. eexists. split; [done|]. repeat case_match; auto.
Qed.

Lemma pivot_ok es l a n :
  0 < es → Z.of_nat n * es < 2 ^ 31 → (7 ≤ n)%nat → (a + n ≤ length l)%nat → ∃ pm, pivot cmp es l a n = Some pm ∧ (a ≤ pm < a + n)%nat.
Proof.
  intros Hes Hn H7 Hlen. unfold pivot. pose proof (Nat.Div0.div_mod n 2) as D2. pose proof (Nat.mod_upper_bound n 2).
  pose proof (Nat.Div0.div_mod n 8) as D8. pose proof (Nat.mod_upper_bound n 8). set (h := (n / 2)%nat) in *. set (e := (n / 8)%nat) in *.
  destruct (Nat.ltb_spec 7 n) as [Hgt|]; [|exists (a + h)%nat; split; [done|lia]]. destruct (Nat.ltb_spec 40 n) as [H40|].
  - destruct (in_bytes_ok es n Hes Hn (Z.of_nat e) ltac:(lia)) as [-> ->]. rewrite Nat2Z.id.
    destruct (med3_ok l a (a + e) (a + 2 * e)) as (r1 & -> & R1); [lia..|]. destruct (med3_ok l (a + h - e) (a + h) (a + h + e)) as (r2 & -> & R2); [lia..|].
    destruct (med3_ok l (a + (n - 1) - 2 * e) (a + (n - 1) - e) (a + (n - 1))) as (r3 & -> & R3); [lia..|]. cbn [mbind option_bind].
    destruct (med3_ok l r1 r2 r3) as (r & -> & R); [lia..|]. exists r. split; [done|lia].
  - destruct (med3_ok l a (a + h) (a + (n - 1))) as (r & -> & R); [lia..|]. exists r. split; [done|lia].
Qed.

(** A part of the array that is sorted only if it has more than one element. *)
Lemma sub_sort es n (IH : list A → nat → nat → option (list A)) l a k :
  0 < es → Z.of_nat n * es < 2 ^ 31 → (k ≤ n)%nat → (a + k ≤ length l)%nat →
  (∀ b, (b + k ≤ length l)%nat → ∃ l', IH l b k = Some l' ∧ reorder b k l l' ∧ sorted l' b k) →
  ∃ l', (if in_bytes es (Z.of_nat k) >? es then IH l a (elements es (in_bytes es (Z.of_nat k))) else Some l) = Some l' ∧ reorder a k l l' ∧ sorted l' a k.
Proof.
  intros Hes Hn Hk Hlen HIH. destruct (in_bytes_ok es n Hes Hn (Z.of_nat k) ltac:(lia)) as [E1 E2]. rewrite E1, E2, Nat2Z.id.
  destruct (Z.of_nat k * es >? es) eqn:E; [by apply HIH|]. assert (k ≤ 1)%nat by (destruct (Z.gtb_spec (Z.of_nat k * es) es); [done|nia]).
  exists l. split; [done|]. split; [constructor|]. intros ? **. lia.
Qed.

Lemma part_start l a n v : (2 ≤ n)%nat → (a + n ≤ length l)%nat → l !! a = Some v → part_inv l a n v (S a) (S a) (a + (n - 1)) (a + (n - 1)).
Proof. intros Hn Hlen Hv. split; [done|done|lia|apply seg_empty; lia..]. Qed.

Lemma qsort_ok es f l a n :
  0 < es → Z.of_nat n * es < 2 ^ 31 → (n < f)%nat → (a + n ≤ length l)%nat →
  ∃ l', qsort cmp es f l a n = Some l' ∧ reorder a n l l' ∧ sorted l' a n.
Proof using Ordering0.
  intros Hes. revert l a n. induction f as [|f IH]; intros l a n Hn Hf Hlen; [lia|]. cbn [qsort].
  destruct (Nat.ltb_spec n 7) as [|H7]; [by apply insertion_all|]. destruct (pivot_ok es l a n Hes Hn H7 Hlen) as (pm & -> & Hpm). cbn [mbind option_bind].
  destruct (swap_ok l a pm) as (l1 & Es & Hl1 & _); [lia|lia|]. assert (Hr1 : reorder a n l l1) by (apply (reorder_one _ _ _ a pm); (done || lia)).
  rewrite Es. cbn [mbind option_bind]. destruct (lookup_lt_is_Some_2 l1 a) as [v Hv]; [lia|].
  destruct (partition_ok n l1 a n v _ _ _ _ false (part_start l1 a n v ltac:(lia) ltac:(lia) Hv) ltac:(lia)) as (l2 & pa & pb & pc & pd & c & -> & Hi & Hr2 & Hpb).
  cbn [mbind option_bind]. assert (Hr12 : reorder a n l l2) by (by apply (reorder_trans _ _ _ l1)). pose proof (reorder_length _ _ _ _ Hr12) as Hl2.
  destruct (negb c).
  { destruct (insertion_all l2 a n) as (l' & -> & Hr & Hs); [lia|]. exists l'. split; [done|]. split; [by apply (reorder_trans _ _ _ l2)|done]. }
  destruct (arrange_ok es n Hes Hn l2 a v pa pb pc pd Hi Hpb) as (l3 & l4 & -> & E4 & Hr4 & Har). cbn [mbind option_bind]. rewrite E4. cbn [mbind option_bind].
  pose proof (pv_order _ _ _ _ _ _ _ _ Hi) as Ho. pose proof (reorder_length _ _ _ _ Hr4) as Hl4.
  replace (Z.of_nat pb - Z.of_nat pa) with (Z.of_nat (pb - pa)) by lia. replace (Z.of_nat pd - Z.of_nat pc) with (Z.of_nat (pd - pc)) by lia.
  destruct (sub_sort es n (qsort cmp es f) l4 a (pb - pa) Hes Hn) as (l5 & -> & Hr5 & Hs5); [lia|lia|intros b Hb; apply IH; [nia|lia|lia]|]. cbn [mbind option_bind].
  pose proof (reorder_length _ _ _ _ Hr5) as Hl5. destruct (in_bytes_ok es n Hes Hn (Z.of_nat (pd - pc)) ltac:(lia)) as [Eb1 Eb2].
  destruct (sub_sort es n (qsort cmp es f) l5 (a + n - (pd - pc)) (pd - pc) Hes Hn) as (l6 & E6 & Hr6 & Hs6); [lia|lia|intros b Hb; apply IH; [nia|lia|lia]|].
  rewrite Eb1, Eb2, Nat2Z.id in E6 |- *. exists l6. split; [done|]. split.
  - apply (reorder_trans _ _ _ l2); [done|]. apply (reorder_trans _ _ _ l4); [done|]. apply (reorder_trans _ _ _ l5); [apply (reorder_mono a (pb - pa)); (done || lia)|].
    apply (reorder_mono (a + n - (pd - pc)) (pd - pc)); (done || lia).
  - apply (arranged_sorted n l6 a v (a + (pb - pa)) (a + n - (pd - pc))); [|lia|lia| |by replace (a + n - (a + n - (pd - pc)))%nat with (pd - pc)%nat by lia].
    + apply (arranged_reorder n l5 _ _ _ _ _ (a + n - (pd - pc)) (pd - pc)); [|done|lia|lia|lia].
      apply (arranged_reorder n l4 _ _ _ _ _ a (pb - pa)); (done || lia).
    + replace (a + (pb - pa) - a)%nat with (pb - pa)%nat by lia. intros i j x y Hia Hij Hj. rewrite !(reorder_out _ _ _ _ _ Hr6) by lia. by apply Hs5.
Qed.

(** C21. For a comparison function that orders the elements, [qsort] ends without an
    access outside the array, leaves a permutation of its elements, in order, and
    touches nothing outside the part that it is given. *)
Theorem qsort_sorts es l a n :
  0 < es → Z.of_nat n * es < 2 ^ 31 → (a + n ≤ length l)%nat →
  ∃ l', qsort cmp es (S n) l a n = Some l' ∧ l' ≡ₚ l ∧ (∀ t, ¬ (a ≤ t < a + n)%nat → l' !! t = l !! t) ∧
    ∀ i j x y, (a ≤ i)%nat → (i < j)%nat → (j < a + n)%nat → l' !! i = Some x → l' !! j = Some y → cmp x y ≤ 0.
Proof using Ordering0.
  intros Hes Hn Hlen. destruct (qsort_ok es (S n) l a n Hes Hn ltac:(lia) Hlen) as (l' & E & Hr & Hs). exists l'. split; [done|].
  split; [by apply (reorder_perm a n)|]. split; [|done]. intros t. by apply reorder_out.
Qed.

End facts.

#[local] Instance sub_ordering : Ordering Z.sub.
Proof. split; intros; lia. Qed.

Definition ex_array : list Z := (λ i, (i * 37 + 11) mod 53) <$> seqZ 0 60.

Lemma qsort_sorts_witness : ∃ l', qsort Z.sub 8 61 ex_array 0 60 = Some l' ∧ l' ≡ₚ ex_array ∧ take 6 l' = [0; 0; 1; 2; 3; 4].
Proof.
  destruct (qsort_sorts Z.sub 8 ex_array 0 60) as (l' & E & Hp & _); [lia|lia|vm_compute; lia|]. exists l'. split; [exact E|]. split; [exact Hp|].
  vm_compute in E. injection E as <-. reflexivity.
Defined.
End QsortFacts.
