(* ===== verification/IoPort.v ===== *)
(** * I/O ports

    [src/kernel/lib/magenta/{io_port_dispatcher,io_port_observer}.cpp].  A port is a
    queue of packets with an event that unsignals itself; an observer of a tracker
    that is bound to a port queues a packet when a watched signal is satisfied.

    A packet is a notification or the bytes a user gave.  [Wait] takes the lock of
    the port to look for a packet and gives it up before it sleeps, so it is three
    definitions: the look, the call of [event_wait_timeout] and the return from it.
    Ports and observers are pointers into a store, like the wait events of
    [StateTracker]; a deleted observer is not in the store, and its use is [None].
    The time a notification carries is the clock of the store. *)

From stdpp Require Import base tactics numbers list gmap.
From Stdlib Require Import ZArith.
From S2P Require Import Prelude Sync StateTracker.
#[local] Open Scope Z_scope.

Module IoPort.
Import Sync StateTracker.

Definition kDefaultIOPortRights : Z := Z.lor (Z.lor (Z.lor 1 2) 4) 8.

(** ** Packets *)

Inductive payload := notification (key time signals : Z) | user_data (bytes : list Z).

Record IOP_Packet := mk_iop { contents : payload; data_size : Z }.

Definition sizeof_io_packet : Z := 40.

(** [new] and the copy of the payload. *)
Definition Make (m : mem) (data : payload) (size : Z) : option IOP_Packet * mem :=
  let '(ok, m1) := alloc m in (if ok then Some (mk_iop data size) else None, m1).

(** [copied] is the status of [magenta_copy_from_user]. *)
Definition MakeFromUser (m : mem) (bytes : list Z) (size copied : Z) : option IOP_Packet * mem :=
  let '(ok, m1) := alloc m in
  if negb ok then (None, m1) else
  ((if copied =? NO_ERROR then Some (mk_iop (user_data bytes) size) else None), m1).

(** The result is converted to [bool]: a status that is not zero is [true].  The
    results are that, the size and whether the data was copied; [copied] is the
    status of [copy_to_user]. *)
Definition CopyToUser (p : IOP_Packet) (size copied : Z) : bool * Z * bool :=
  if size <? data_size p then (negb (ERR_NOT_ENOUGH_BUFFER =? 0), size, false)
  else (copied =? NO_ERROR, data_size p, copied =? NO_ERROR).

(** ** Ports *)

Record IOPortDispatcher := mk_port {
  options_ : Z; no_clients_ : bool; io_observers_ : list nat; packets_ : list IOP_Packet; port_event : event }.

Definition set_packets (p : IOPortDispatcher) (l : list IOP_Packet) : IOPortDispatcher :=
  mk_port (options_ p) (no_clients_ p) (io_observers_ p) l (port_event p).
Definition set_event (p : IOPortDispatcher) (e : event) : IOPortDispatcher :=
  mk_port (options_ p) (no_clients_ p) (io_observers_ p) (packets_ p) e.
Definition set_io_observers (p : IOPortDispatcher) (l : list nat) : IOPortDispatcher :=
  mk_port (options_ p) (no_clients_ p) l (packets_ p) (port_event p).

Definition FreePackets (p : IOPortDispatcher) : IOPortDispatcher := set_packets p [].

Definition on_zero_handles (p : IOPortDispatcher) : IOPortDispatcher :=
  FreePackets (mk_port (options_ p) true (io_observers_ p) (packets_ p) (port_event p)).

Section port.
Context {K : Type} `{WaitOps K} (thread_yield : K → nat → option K).

(** [w] is the wait queue of the new event. *)
Definition new_port (k : K) (options : Z) (w : nat) : IOPortDispatcher * K :=
  let '(e, k1) := event_init k w false EVENT_FLAG_AUTOUNSIGNAL in (mk_port options false [] [] e, k1).

Definition IOPort_Create (m : mem) (k : K) (options : Z) (w : nat) : Z * option (IOPortDispatcher * Z) * mem * K :=
  let '(ok, m1) := alloc m in
  if negb ok then (ERR_NO_MEMORY, None, m1, k) else
  let '(p, k1) := new_port k options w in (NO_ERROR, Some (p, kDefaultIOPortRights), m1, k1).

Definition Queue (k : K) (c : nat) (p : IOPortDispatcher) (packet : IOP_Packet) : option (Z * K * IOPortDispatcher) :=
  if no_clients_ p then Some (ERR_NOT_AVAILABLE, k, p) else
  '(wake_count, e1, k1) ← event_signal_etc k c (port_event p) false NO_ERROR;
  k2 ← (if wake_count =? 0 then Some k1 else thread_yield k1 c);
  Some (NO_ERROR, k2, set_event (set_packets p (packets_ p ++ [packet])) e1).

(** The look for a packet. *)
Definition Wait_check (p : IOPortDispatcher) : option IOP_Packet * IOPortDispatcher :=
  match packets_ p with
  | [] => (None, p)
  | packet :: rest => (Some packet, set_packets p rest)
  end.

Definition Wait_sleep (k : K) (c : nat) (p : IOPortDispatcher) : option (IOPortDispatcher * result K Z) :=
  '(e1, r) ← event_wait_timeout k c (port_event p) INFINITE_TIME true; Some (set_event p e1, r).

Definition Wait_wake (k : K) (t : nat) : option (Z * K) := event_wait_resume k t INFINITE_TIME.

(** ** Observers *)

Inductive observer_state := NEW | OB_CANCELLED | UNBOUND.

#[global] Instance observer_state_eq_dec : EqDecision observer_state.
Proof. solve_decision. Defined.

Record IOPortObserver := mk_io_observer {
  io_state : observer_state; io_handle : option nat; io_watched : Z; io_key : Z; io_port : nat }.

Record pworld := mk_pworld { pkern : K; ports : gmap nat IOPortDispatcher; iobs : gmap nat IOPortObserver; pmem : mem; clock : Z }.

Definition set_port (s : pworld) (id : nat) (p : IOPortDispatcher) : pworld :=
  mk_pworld (pkern s) (<[id := p]> (ports s)) (iobs s) (pmem s) (clock s).
Definition set_iob (s : pworld) (o : nat) (ob : IOPortObserver) : pworld :=
  mk_pworld (pkern s) (ports s) (<[o := ob]> (iobs s)) (pmem s) (clock s).

Definition port_queue (s : pworld) (c id : nat) (packet : IOP_Packet) : option (Z * pworld) :=
  p ← ports s !! id;
  '(st, k1, p1) ← Queue (pkern s) c p packet;
  Some (st, mk_pworld k1 (<[id := p1]> (ports s)) (iobs s) (pmem s) (clock s)).

Definition SendIOPortPacket (s : pworld) (c id : nat) (key signals : Z) : option (bool * pworld) :=
  let '(packet, m1) := Make (pmem s) (notification key (clock s) signals) sizeof_io_packet in
  let s1 := mk_pworld (pkern s) (ports s) (iobs s) m1 (clock s) in
  match packet with
  | None => Some (false, s1)
  | Some pk => '(st, s2) ← port_queue s1 c id pk; Some (st =? NO_ERROR, s2)
  end.

Definition IOPort_MaybeSignal (s : pworld) (c o : nat) (st : mx_signals_state) : option (bool * pworld) :=
  ob ← iobs s !! o;
  let match_ := Z.land (satisfied st) (io_watched ob) in
  if negb (match_ =? 0) then SendIOPortPacket s c (io_port ob) (io_key ob) match_ else Some (false, s).

(** Whether a thread was woken, [should_remove] and [call_did_cancel]. *)
Definition IOPort_OnCancel (s : pworld) (c o handle : nat) : option (bool * bool * bool * pworld) :=
  ob ← iobs s !! o;
  if negb (bool_decide (io_handle ob = Some handle)) then Some (false, false, false, s) else
  if bool_decide (io_state ob = NEW)
  then Some (false, true, true, set_iob s o (mk_io_observer OB_CANCELLED None (io_watched ob) (io_key ob) (io_port ob)))
  else Some (false, false, false, set_iob s o (mk_io_observer (io_state ob) None (io_watched ob) (io_key ob) (io_port ob))).

(** Erasing an observer that is not on the list fails an assertion. *)
Definition CancelObserver (s : pworld) (id o : nat) : option pworld :=
  p ← ports s !! id;
  ASSERT bool_decide (o ∈ io_observers_ p);
  Some (mk_pworld (pkern s) (<[id := set_io_observers p (filter (λ x, x ≠ o) (io_observers_ p))]> (ports s))
          (delete o (iobs s)) (pmem s) (clock s)).

Definition IOPort_OnDidCancel (s : pworld) (c o : nat) : option pworld := ob ← iobs s !! o; CancelObserver s (io_port ob) o.

Definition pworld_yield (s : pworld) (c : nat) : option pworld :=
  k1 ← thread_yield (pkern s) c; Some (mk_pworld k1 (ports s) (iobs s) (pmem s) (clock s)).

#[local] Instance io_port_observer : StateObserver pworld := {|
  OnInitialize s _ _ _ := Some (false, s);
  OnStateChange := IOPort_MaybeSignal;
  OnCancel := IOPort_OnCancel;
  OnDidCancel := IOPort_OnDidCancel;
  yield := pworld_yield |}.

(** [tracker] is that of the object of the handle; [o] is the pointer that [new]
    returns. *)
Definition Bind (s : pworld) (c id handle : nat) (tracker : option StateTracker) (signals key : Z) (o : nat)
  : option (Z * pworld * option StateTracker) :=
  match tracker with
  | None => Some (ERR_NOT_SUPPORTED, s, None)
  | Some tr =>
    if negb (is_waitable_ tr) then Some (ERR_NOT_SUPPORTED, s, Some tr) else
    let '(ok, m1) := alloc (pmem s) in
    let s1 := mk_pworld (pkern s) (ports s) (iobs s) m1 (clock s) in
    if negb ok then Some (ERR_NO_MEMORY, s1, Some tr) else
    p ← ports s1 !! id;
    let s2 := set_port (set_iob s1 o (mk_io_observer NEW (Some handle) signals key id)) id (set_io_observers p (o :: io_observers_ p)) in
    '(r, s3, tr1) ← AddObserver s2 c tr o;
    if negb (r =? NO_ERROR) then s4 ← CancelObserver s3 id o; Some (r, s4, Some tr1)
    else Some (NO_ERROR, s3, Some tr1)
  end.

(** The first observer on the list with the handle and the key. *)
Definition find_observer (s : pworld) (l : list nat) (handle : nat) (key : Z) : option nat :=
  fst <$> head (filter (λ x, io_handle x.2 = Some handle ∧ io_key x.2 = key) (omap (λ o, (λ ob, (o, ob)) <$> iobs s !! o) l)).

Definition Unbind (s : pworld) (id handle : nat) (key : Z) (tr : StateTracker) : option (Z * pworld * StateTracker) :=
  p ← ports s !! id;
  match find_observer s (io_observers_ p) handle key with
  | None => Some (ERR_BAD_HANDLE, s, tr)
  | Some o =>
    ob ← iobs s !! o;
    let s1 := set_iob s o (mk_io_observer UNBOUND (io_handle ob) (io_watched ob) (io_key ob) (io_port ob)) in
    if negb (bool_decide (io_state ob = NEW)) then Some (NO_ERROR, s1, tr) else
    let s2 := set_port s1 id (set_io_observers p (filter (λ x, x ≠ o) (io_observers_ p))) in
    '(_, tr1) ← RemoveObserver tr o;
    Some (NO_ERROR, mk_pworld (pkern s2) (ports s2) (delete o (iobs s2)) (pmem s2) (clock s2), tr1)
  end.

End port.
End IoPort.
