(* ===== verification/IoPortFacts.v ===== *)
(** * I/O ports deliver packets in order, and can lose a wakeup

    Threads that wait on a port, threads that queue packets and the rest of the kernel
    in any order, against the wait queues of [SyncFacts].  The packets are taken in
    the order they were queued; as long as at most one thread waits at a time, no
    thread sleeps while there is a packet.  Two waiting threads can be left with one
    of them asleep and a packet in the queue. *)

From stdpp Require Import base tactics numbers list gmap sets.
From Stdlib Require Import ZArith Lia.
From S2P Require Import Prelude Sched SchedFacts Sync SyncFacts SyncSched StateTracker StateTrackerFacts IoPort.
#[local] Open Scope Z_scope.

Module IoPortFacts.
Import Sync SyncFacts StateTracker IoPort.

(** Where a thread is in its call of [Wait]: before the look for a packet, after a
    look that found none, or blocked. *)
Inductive phase := Checking | Sleeping | Blocked.

Section facts.
Context {K : Type} `{WaitSpec K} (thread_yield : K → nat → option K) `{!YieldSpec K thread_yield}.

(** A port among threads: the calls of [Wait], and what was queued and taken. *)
Record pcfg := mk_pcfg { ck : K; cport : IOPortDispatcher; waits : gmap nat phase; queued : list IOP_Packet; taken : list IOP_Packet }.

Definition queue_of (s : pcfg) : nat := e_wait (port_event (cport s)).

(** A call whose sleep ended with status [st]. *)
Definition woken (w : gmap nat phase) (t : nat) (st : Z) : gmap nat phase := if st =? NO_ERROR then <[t := Checking]> w else delete t w.

Definition after_sleep (s : pcfg) (t : nat) (p : IOPortDispatcher) (r : result K Z) : pcfg :=
  match r with
  | Done st k => mk_pcfg k p (woken (waits s) t st) (queued s) (taken s)
  | Wait k => mk_pcfg k p (<[t := Blocked]> (waits s)) (queued s) (taken s)
  end.

(** At most [limit] threads are in [Wait] at a time. *)
Inductive pstep (limit : nat) : pcfg → pcfg → Prop :=
| ps_enter s c t :
    krunning (ck s) c t → waits s !! t = None → (size (waits s) < limit)%nat →
    pstep limit s (mk_pcfg (ck s) (cport s) (<[t := Checking]> (waits s)) (queued s) (taken s))
| ps_take s c t pk p' :
    krunning (ck s) c t → waits s !! t = Some Checking → Wait_check (cport s) = (Some pk, p') →
    pstep limit s (mk_pcfg (ck s) p' (delete t (waits s)) (queued s) (taken s ++ [pk]))
| ps_empty s c t p' :
    krunning (ck s) c t → waits s !! t = Some Checking → Wait_check (cport s) = (None, p') →
    pstep limit s (mk_pcfg (ck s) p' (<[t := Sleeping]> (waits s)) (queued s) (taken s))
| ps_sleep s c t p' r :
    krunning (ck s) c t → waits s !! t = Some Sleeping → Wait_sleep (ck s) c (cport s) = Some (p', r) →
    pstep limit s (after_sleep s t p' r)
| ps_wake s c t st k' :
    krunning (ck s) c t → waits s !! t = Some Blocked → Wait_wake (ck s) t = Some (st, k') →
    pstep limit s (mk_pcfg k' (cport s) (woken (waits s) t st) (queued s) (taken s))
| ps_queue s c t pk st k' p' :
    krunning (ck s) c t → waits s !! t = None → Queue thread_yield (ck s) c (cport s) pk = Some (st, k', p') →
    pstep limit s (mk_pcfg k' p' (waits s) (if st =? NO_ERROR then queued s ++ [pk] else queued s) (taken s))
(** The packets that are left are dropped. *)
| ps_zero s : pstep limit s (mk_pcfg (ck s) (on_zero_handles (cport s)) (waits s) (taken s) (taken s))
| ps_env s k' :
    kok k' → kwq k' (queue_of s) → kwaiters k' (queue_of s) `sublist_of` kwaiters (ck s) (queue_of s) →
    pstep limit s (mk_pcfg k' (cport s) (waits s) (queued s) (taken s)).

Inductive preach (limit : nat) : pcfg → Prop :=
| preach_init k0 options w : let '(p, k) := new_port k0 options w in
    kok k → kwq k w → kwaiters k w = [] → preach limit (mk_pcfg k p ∅ [] [])
| preach_step s s' : preach limit s → pstep limit s s' → preach limit s'.

Record pinv_ (limit : nat) (s : pcfg) : Prop := {
  pj_event : einv (ck s, port_event (cport s));
  pj_auto : autounsignal (port_event (cport s)) = true;
  pj_order : taken s ++ packets_ (cport s) = queued s;
  pj_blocked : ∀ t, t ∈ kwaiters (ck s) (queue_of s) → waits s !! t = Some Blocked;
  pj_size : (size (waits s) ≤ limit)%nat;
  pj_sleeping : limit = 1%nat → ∀ t, waits s !! t = Some Sleeping → packets_ (cport s) ≠ [] → signalled (port_event (cport s)) = true;
  pj_one : limit = 1%nat → (length (kwaiters (ck s) (queue_of s)) ≤ 1)%nat;
  pj_asleep : limit = 1%nat → kwaiters (ck s) (queue_of s) ≠ [] → packets_ (cport s) = [] }.

(** Only one call at a time. *)
Lemma only_call (w : gmap nat phase) t u a b : (size w ≤ 1)%nat → w !! t = Some a → w !! u = Some b → t = u.
Proof.
  intros Hs Ht Hu. destruct (decide (t = u)) as [|Hne]; [done|exfalso].
  assert (Hd : delete t w !! u = Some b) by (by rewrite lookup_delete_ne).
  rewrite <- (insert_delete_id w t a Ht), map_size_insert_None in Hs by apply lookup_delete_eq.
  assert (Hz : size (delete t w) = 0%nat) by lia. apply map_size_empty_inv in Hz. by rewrite Hz, lookup_empty in Hd.
Qed.

Lemma size_update (w : gmap nat phase) t a b n : w !! t = Some a → (size w ≤ n)%nat → (size (<[t := b]> w) ≤ n)%nat.
Proof. intros Ht Hs. rewrite map_size_insert_Some; [done|]. by rewrite Ht. Qed.

Lemma size_remove (w : gmap nat phase) t n : (size w ≤ n)%nat → (size (delete t w) ≤ n)%nat.
Proof. intros Hs. rewrite map_size_delete. destruct (w !! t); [cbn; lia|done]. Qed.

Lemma woken_size w t st a n : w !! t = Some a → (size w ≤ n)%nat → (size (woken w t st) ≤ n)%nat.
Proof. intros Ht Hs. unfold woken. destruct (_ =? _); [by eapply size_update|by apply size_remove]. Qed.

Lemma woken_other w t st u : u ≠ t → woken w t st !! u = w !! u.
Proof. intros Hu. unfold woken. destruct (_ =? _); [by rewrite lookup_insert_ne|by rewrite lookup_delete_ne]. Qed.

Lemma woken_sleeping w t st u : woken w t st !! u = Some Sleeping → u ≠ t ∧ w !! u = Some Sleeping.
Proof.
  destruct (decide (u = t)) as [->|Hu]; [|by rewrite woken_other]. unfold woken. destruct (_ =? _); [by rewrite lookup_insert_eq|by rewrite lookup_delete_eq].
Qed.

(** A thread that runs is not on the queue. *)
Lemma running_off limit s c t u : pinv_ limit s → krunning (ck s) c t → u ∈ kwaiters (ck s) (queue_of s) → u ≠ t.
Proof. intros [(Hk & _) _ _ _ _ _ _ _] Hr Hu ->. by eapply running_not_waiting. Qed.

Lemma wake_inv limit s c t st k' :
  pinv_ limit s → krunning (ck s) c t → waits s !! t = Some Blocked → Wait_wake (ck s) t = Some (st, k') →
  pinv_ limit (mk_pcfg k' (cport s) (woken (waits s) t st) (queued s) (taken s)).
Proof.
  intros Hi Hr Ht E. pose proof Hi as [He Ha Ho Hb Hs Hsl Hone Has]. pose proof He as (Hk & Hw & Hm & Hsig). cbn in *.
  revert E. unfold Wait_wake, event_wait_resume. destruct (resume_law (ck s) c t (queue_of s) INFINITE_TIME Hk Hr) as (k2 & -> & Hch). cbn [mbind option_bind].
  intros [= <- <-]. destruct (interruptable_view k2 t false (changed_ok _ _ _ _ _ Hch)) as (Hk1 & Hw1 & Hq1).
  assert (Ew : kwaiters (set_thread_interruptable k2 t false) (queue_of s) = kwaiters (ck s) (queue_of s)) by (by rewrite Hw1, (changed_waiters _ _ _ _ _ Hch)).
  unfold queue_of in *. split; cbn; unfold queue_of; cbn; try done; rewrite ?Ew in *.
  - split_and!; cbn; [done|by apply Hq1, (changed_wq _ _ _ _ _ _ Hch)|done|by rewrite Ew].
  - intros u Hu. rewrite woken_other; [by apply Hb|]. by apply (running_off limit s c t u Hi Hr).
  - by eapply woken_size.
  - intros Hl u Hu. apply woken_sleeping in Hu as [_ Hu]. by apply (Hsl Hl u).
  - done.
  - done.
Qed.

(** What a sleep comes to: the event was signalled, the thread is being killed, or
    the thread is at the end of the queue. *)
Lemma sleep_cases limit s c t :
  pinv_ limit s → krunning (ck s) c t →
  ∃ p' r, Wait_sleep (ck s) c (cport s) = Some (p', r) ∧ packets_ p' = packets_ (cport s) ∧ e_wait (port_event p') = queue_of s ∧
    autounsignal (port_event p') = true ∧
    match r with
    | Done _ k' => einv (k', port_event p') ∧ kwaiters k' (queue_of s) = kwaiters (ck s) (queue_of s)
    | Wait k' => einv (k', port_event p') ∧ signalled (port_event (cport s)) = false ∧ kwaiters k' (queue_of s) = kwaiters (ck s) (queue_of s) ++ [t]
    end.
Proof.
  intros [(Hk & Hw & Hm & Hsig) Ha _ _ _ _ _ _] Hr. unfold Wait_sleep, event_wait_timeout. cbn in *. rewrite (running_current _ _ _ Hr). cbn [mbind option_bind].
  rewrite Hm, Z.eqb_refl. unfold queue_of in *. destruct (kill_pending (ck s) t); cbn [andb mbind option_bind].
  { eexists _, _. split; [done|]. cbn. split_and!; try done. }
  set (k1 := set_thread_interruptable (ck s) t true). destruct (interruptable_view (ck s) t true Hk) as (Hk1 & Hw1 & Hq1). fold k1 in Hk1, Hw1, Hq1.
  pose proof (interruptable_running (ck s) c t t true Hr) as Hr1. fold k1 in Hr1. destruct (interruptable_view k1 t false Hk1) as (Hk2 & Hw2 & Hq2).
  destruct (signalled (port_event (cport s))) eqn:Es; rewrite ?Ha.
  - eexists _, _. split; [done|]. cbn. split_and!; try done; [split_and!; [done|exact (Hq2 _ (Hq1 _ Hw))|done|done]|by rewrite Hw2, Hw1].
  - destruct (block_law k1 c t (e_wait (port_event (cport s))) INFINITE_TIME Hk1 (Hq1 _ Hw) Hr1 ltac:(done)) as (k' & -> & Hch). cbn [mbind option_bind].
    eexists _, _. split; [done|]. cbn. split_and!; try done.
    + split_and!; cbn; [exact (changed_ok _ _ _ _ _ Hch)|exact (changed_wq _ _ _ _ _ _ Hch (Hq1 _ Hw))|done|by rewrite Es].
    + by rewrite (changed_waiters _ _ _ _ _ Hch), Hw1.
Qed.

Lemma sleep_inv limit s c t p' r :
  pinv_ limit s → krunning (ck s) c t → waits s !! t = Some Sleeping → Wait_sleep (ck s) c (cport s) = Some (p', r) → pinv_ limit (after_sleep s t p' r).
Proof.
  intros Hi Hr Ht E. pose proof Hi as [He Ha Ho Hb Hs Hsl Hone Has]. destruct (sleep_cases limit s c t Hi Hr) as (p1 & r1 & E1 & Hp & Hew & Hau & Hc).
  rewrite E in E1. injection E1 as <- <-. unfold after_sleep. destruct r as [st k'|k'].
  - destruct Hc as [He' Hkw]. split; cbn; unfold queue_of in *; cbn; rewrite ?Hew, ?Hp, ?Hkw; try done.
    + intros u Hu. rewrite woken_other; [by apply Hb|]. by apply (running_off limit s c t u Hi Hr).
    + by eapply woken_size.
    + intros Hl u Hu Hpk. exfalso. apply woken_sleeping in Hu as [Hne Hu]. apply Hne, (only_call (waits s) u t Sleeping Sleeping); [lia|done|done].
  - destruct Hc as (He' & Hns & Hkw). split; cbn; unfold queue_of in *; cbn; rewrite ?Hew, ?Hp, ?Hkw; try done.
    + intros u [Hu| ->%list_elem_of_singleton]%elem_of_app; [|by rewrite lookup_insert_eq].
      rewrite lookup_insert_ne; [by apply Hb|]. intros <-. by apply (running_off limit s c t t Hi Hr).
    + by eapply size_update.
    + intros Hl u Hu Hpk. destruct (decide (u = t)) as [->|Hne]; [by rewrite lookup_insert_eq in Hu|]. rewrite lookup_insert_ne in Hu by done.
      exfalso. apply Hne, (only_call (waits s) u t Sleeping Sleeping); [lia|done|done].
    + intros Hl. destruct (kwaiters (ck s) (e_wait (port_event (cport s)))) as [|v l] eqn:El; [done|exfalso].
      assert (Hv : waits s !! v = Some Blocked) by (apply Hb; by left). assert (v = t) as -> by (apply (only_call (waits s) v t Blocked Sleeping); (done || lia)). congruence.
    + intros Hl _. destruct (packets_ (cport s)) eqn:Ep; [done|]. rewrite (Hsl Hl t Ht) in Hns; done.
Qed.

(** Queueing a packet. *)
Lemma queue_cases limit s c t pk :
  pinv_ limit s → krunning (ck s) c t →
  ∃ st k' p', Queue thread_yield (ck s) c (cport s) pk = Some (st, k', p') ∧
    (st = ERR_NOT_AVAILABLE ∧ k' = ck s ∧ p' = cport s ∨
     st = NO_ERROR ∧ einv (k', port_event p') ∧ autounsignal (port_event p') = true ∧ e_wait (port_event p') = queue_of s ∧
     packets_ p' = packets_ (cport s) ++ [pk] ∧ kwaiters k' (queue_of s) = tail (kwaiters (ck s) (queue_of s)) ∧
     (kwaiters (ck s) (queue_of s) = [] → signalled (port_event p') = true)).
Proof.
  intros [He Ha _ _ _ _ _ _] Hr. unfold Queue. destruct (no_clients_ (cport s)); [eexists _, _, _; split; [done|]; by left|].
  destruct (event_signal_cases (ck s) c (port_event (cport s)) false NO_ERROR He ltac:(done)) as (n & e' & k1 & E & Hc).
  destruct (event_signal_einv (ck s) c (port_event (cport s)) false NO_ERROR n e' k1 He ltac:(done) E) as (He' & Hfl & Hew & _).
  rewrite E. cbn [mbind option_bind]. rewrite Ha in Hc. unfold queue_of. set (w := e_wait (port_event (cport s))) in *.
  assert (Hau : autounsignal e' = true) by (unfold autounsignal in *; by rewrite Hfl).
  assert (Hfin : n = 0 → k1 = ck s → kwaiters (ck s) w = [] → signalled e' = true → ∃ st k' p',
    (k2 ← (if n =? 0 then Some k1 else thread_yield k1 c); Some (NO_ERROR, k2, set_event (set_packets (cport s) (packets_ (cport s) ++ [pk])) e')) = Some (st, k', p') ∧
    (st = ERR_NOT_AVAILABLE ∧ k' = ck s ∧ p' = cport s ∨
     st = NO_ERROR ∧ einv (k', port_event p') ∧ autounsignal (port_event p') = true ∧ e_wait (port_event p') = w ∧
     packets_ p' = packets_ (cport s) ++ [pk] ∧ kwaiters k' w = tail (kwaiters (ck s) w) ∧ (kwaiters (ck s) w = [] → signalled (port_event p') = true))).
  { intros -> -> Hnil Hs'. eexists _, _, _. cbn. split; [done|]. right. split_and!; try done. by rewrite Hnil. }
  pose proof He as (Hk & Hw & Hm & Hsig). cbn in Hk, Hw, Hm, Hsig. destruct (signalled (port_event (cport s))) eqn:Es.
  - destruct Hc as (Hn & -> & ->). apply Hfin; [done|done|by apply Hsig|done].
  - destruct (kwaiters (ck s) w) as [|u l] eqn:El; [destruct Hc as (Hn & -> & ->); by apply Hfin|]. clear Hfin. destruct Hc as (-> & -> & Hch). cbn.
    assert (Hr1 : krunning k1 c t).
    { revert E. unfold event_signal_etc. rewrite Hm, Z.eqb_refl, Es, Ha. destruct (wq_wake_one _ _ _ _ _) as [[m k2]|] eqn:Ew; [|done]. cbn [mbind option_bind].
      intros [= _ _ ->]. by eapply running_wake. }
    destruct (yield_law k1 c (changed_ok _ _ _ _ _ Hch) (running_kcurrent k1 c t Hr1)) as (k2 & -> & Hk2 & Hw2 & Hq2 & _). cbn [mbind option_bind].
    eexists _, _, _. split; [done|]. right. cbn. split_and!; try done.
    + split_and!; cbn; [done|by apply Hq2, (changed_wq _ _ _ _ _ _ Hch)|done|by rewrite Es].
    + by rewrite Hw2, (changed_waiters _ _ _ _ _ Hch).
Qed.

Lemma queue_inv limit s c t pk st k' p' :
  pinv_ limit s → krunning (ck s) c t → Queue thread_yield (ck s) c (cport s) pk = Some (st, k', p') →
  pinv_ limit (mk_pcfg k' p' (waits s) (if st =? NO_ERROR then queued s ++ [pk] else queued s) (taken s)).
Proof.
  intros Hi Hr E. destruct (queue_cases limit s c t pk Hi Hr) as (st1 & k1 & p1 & E1 & Hc). rewrite E in E1. injection E1 as <- <- <-.
  pose proof Hi as [He Ha Ho Hb Hs Hsl Hone Has]. destruct Hc as [(-> & -> & ->)|(-> & He' & Hau & Hew & Hp & Hkw & Hsig)]; [by split|].
  split; cbn; unfold queue_of in *; cbn; rewrite ?Hew, ?Hp, ?Hkw; try done.
  - by rewrite app_assoc, Ho.
  - intros u Hu. apply Hb. destruct (kwaiters (ck s) (e_wait (port_event (cport s)))) as [|v l]; cbn in Hu; [by apply not_elem_of_nil in Hu|by right].
  - intros Hl u Hu _. destruct (kwaiters (ck s) (e_wait (port_event (cport s)))) as [|v l] eqn:El; [by apply Hsig|].
    assert (Hv : waits s !! v = Some Blocked) by (apply Hb; by left). assert (u = v) as -> by (apply (only_call (waits s) u v Sleeping Blocked); (done || lia)). congruence.
  - intros Hl. specialize (Hone Hl). destruct (kwaiters (ck s) (e_wait (port_event (cport s)))) as [|v l]; cbn in Hone |- *; lia.
  - intros Hl Hne. destruct (kwaiters (ck s) (e_wait (port_event (cport s)))) as [|v [|u l]] eqn:El; [done|done|exfalso].
    specialize (Hone Hl). cbn in Hone. lia.
Qed.

Lemma take_inv limit s c t pk p' :
  pinv_ limit s → krunning (ck s) c t → waits s !! t = Some Checking → Wait_check (cport s) = (Some pk, p') →
  pinv_ limit (mk_pcfg (ck s) p' (delete t (waits s)) (queued s) (taken s ++ [pk])).
Proof.
  intros Hi Hr Ht. pose proof Hi as [He Ha Ho Hb Hs Hsl Hone Has]. unfold Wait_check. destruct (packets_ (cport s)) as [|q rest] eqn:Ep; [done|]. intros [= <- <-].
  split; cbn; unfold queue_of in *; cbn; try done.
  - by rewrite <- app_assoc.
  - intros u Hu. rewrite lookup_delete_ne; [by apply Hb|]. intros <-. by apply (running_off limit s c t t Hi Hr).
  - by apply size_remove.
  - intros Hl u Hu _. destruct (decide (u = t)) as [->|Hne]; [by rewrite lookup_delete_eq in Hu|]. rewrite lookup_delete_ne in Hu by done. by apply (Hsl Hl u).
  - intros Hl Hne. specialize (Has Hl Hne). done.
Qed.

Lemma empty_inv limit s c t p' :
  pinv_ limit s → krunning (ck s) c t → waits s !! t = Some Checking → Wait_check (cport s) = (None, p') →
  pinv_ limit (mk_pcfg (ck s) p' (<[t := Sleeping]> (waits s)) (queued s) (taken s)).
Proof.
  intros Hi Hr Ht. pose proof Hi as [He Ha Ho Hb Hs Hsl Hone Has]. unfold Wait_check. destruct (packets_ (cport s)) as [|q rest] eqn:Ep; [|done]. intros [= <-].
  split; cbn; unfold queue_of in *; cbn; try done.
  - by rewrite Ep.
  - intros u Hu. rewrite lookup_insert_ne; [by apply Hb|]. intros <-. by apply (running_off limit s c t t Hi Hr).
  - by eapply size_update.
Qed.

Lemma env_inv limit s k' :
  pinv_ limit s → kok k' → kwq k' (queue_of s) → kwaiters k' (queue_of s) `sublist_of` kwaiters (ck s) (queue_of s) →
  pinv_ limit (mk_pcfg k' (cport s) (waits s) (queued s) (taken s)).
Proof.
  intros [He Ha Ho Hb Hs Hsl Hone Has] Hk Hq Hsub. split; cbn; unfold queue_of in *; cbn; try done.
  - destruct He as (_ & _ & Hm & Hsig). split_and!; cbn in *; [done|done|done|]. intros E. rewrite (Hsig E) in Hsub. by apply sublist_nil_r in Hsub.
  - intros u Hu. apply Hb. by eapply elem_of_sublist.
  - intros Hl. apply sublist_length in Hsub. specialize (Hone Hl). lia.
  - intros Hl Hne. apply Has; [done|]. intros E. rewrite E in Hsub. by apply sublist_nil_r in Hsub.
Qed.

Lemma pstep_inv limit s s' : pinv_ limit s → pstep limit s s' → pinv_ limit s'.
Proof.
  intros Hi Hst. destruct Hst as [s c t Hr Ht Hl|s c t pk p' Hr Ht E|s c t p' Hr Ht E|s c t p' r Hr Ht E|s c t st k' Hr Ht E|s c t pk st k' p' Hr Ht E|s|s k' Hk Hq Hsub].
  - destruct Hi as [He Ha Ho Hb Hs Hsl Hone Has]. split; cbn; unfold queue_of in *; cbn; try done.
    + intros u Hu. rewrite lookup_insert_ne; [by apply Hb|]. intros <-. specialize (Hb t Hu). congruence.
    + rewrite map_size_insert_None by done. lia.
    + intros Hl1 u Hu. destruct (decide (u = t)) as [->|Hne]; [by rewrite lookup_insert_eq in Hu|]. rewrite lookup_insert_ne in Hu by done. by apply (Hsl Hl1 u).
  - by apply (take_inv limit s c t).
  - by apply (empty_inv limit s c t).
  - by apply (sleep_inv limit s c t).
  - by apply (wake_inv limit s c t).
  - by apply (queue_inv limit s c t).
  - destruct Hi as [He Ha Ho Hb Hs Hsl Hone Has]. split; cbn; unfold queue_of in *; cbn; try done. by rewrite app_nil_r.
  - by apply env_inv.
Qed.

Lemma preach_inv limit s : preach limit s → pinv_ limit s.
Proof.
  induction 1 as [k0 options w Hk Hq Hw|s s' _ IH Hst]; [|by eapply pstep_inv]. unfold new_port, event_init in *. cbn in *.
  split; cbn; unfold queue_of; cbn; try done.
  - intros t. rewrite Hw. intros Ht. by apply not_elem_of_nil in Ht.
  - rewrite map_size_empty. lia.
  - rewrite Hw. cbn. lia.
Qed.

(** C22. Whatever the order in which threads wait on a port, queue packets and the
    kernel runs, the packets that were taken, followed by those in the queue, are the
    packets that were queued, in order; no step of a thread that runs fails an
    assertion; and if at most one thread waits at a time, no thread is on the queue of
    the port's event while there is a packet. *)
Theorem io_port_delivers limit s :
  preach limit s →
  taken s ++ packets_ (cport s) = queued s ∧
  (∀ c t pk, krunning (ck s) c t → is_Some (Wait_sleep (ck s) c (cport s)) ∧ is_Some (Queue thread_yield (ck s) c (cport s) pk)) ∧
  (limit = 1%nat → ∀ t, t ∈ kwaiters (ck s) (e_wait (port_event (cport s))) → packets_ (cport s) = []).
Proof.
  intros Hr%preach_inv. split_and!.
  - apply (pj_order _ _ Hr).
  - intros c t pk Hrun. destruct (sleep_cases limit s c t Hr Hrun) as (? & ? & -> & _). destruct (queue_cases limit s c t pk Hr Hrun) as (? & ? & ? & -> & _). done.
  - intros Hl t Ht. apply (pj_asleep _ _ Hr Hl). unfold queue_of. intros E. rewrite E in Ht. by apply not_elem_of_nil in Ht.
Qed.

End facts.

(** ** Two waiting threads and two packets *)

Definition io_enter (s : pcfg (K := Sched.kstate)) (t : nat) : pcfg := mk_pcfg (ck s) (cport s) (<[t := Checking]> (waits s)) (queued s) (taken s).
Definition io_check (s : pcfg (K := Sched.kstate)) (t : nat) : pcfg :=
  match Wait_check (cport s) with
  | (Some pk, p') => mk_pcfg (ck s) p' (delete t (waits s)) (queued s) (taken s ++ [pk])
  | (None, p') => mk_pcfg (ck s) p' (<[t := Sleeping]> (waits s)) (queued s) (taken s)
  end.
Definition io_sleep (s : pcfg (K := Sched.kstate)) (t : nat) : pcfg :=
  match Wait_sleep (ck s) 0 (cport s) with Some (p', r) => after_sleep s t p' r | None => s end.
Definition io_queue (s : pcfg (K := Sched.kstate)) (pk : IOP_Packet) : pcfg :=
  match Queue Sched.thread_yield (ck s) 0 (cport s) pk with
  | Some (st, k', p') => mk_pcfg k' p' (waits s) (if st =? NO_ERROR then queued s ++ [pk] else queued s) (taken s)
  | None => s
  end.
Definition io_op (s : pcfg (K := Sched.kstate)) (o : SchedFacts.op) : pcfg :=
  mk_pcfg (SchedFacts.ex_run (ck s) o) (cport s) (waits s) (queued s) (taken s).

#[local] Notation io_reach := (preach Sched.thread_yield).

Lemma reach_enter n s t : io_reach n s → SyncSched.running (ck s) 0 t → waits s !! t = None → (size (waits s) < n)%nat → io_reach n (io_enter s t).
Proof. intros Hr Hrun Ht Hs. apply (preach_step _ _ s); [done|]. by apply (ps_enter _ _ s 0). Qed.

Lemma reach_check n s t : io_reach n s → SyncSched.running (ck s) 0 t → waits s !! t = Some Checking → io_reach n (io_check s t).
Proof.
  intros Hr Hrun Ht. unfold io_check. destruct (Wait_check (cport s)) as [[pk|] p'] eqn:E; (apply (preach_step _ _ s); [done|]);
    [by apply (ps_take _ _ s 0)|by apply (ps_empty _ _ s 0)].
Qed.

Lemma reach_sleep n s t : io_reach n s → SyncSched.running (ck s) 0 t → waits s !! t = Some Sleeping → io_reach n (io_sleep s t).
Proof.
  intros Hr Hrun Ht. unfold io_sleep. destruct (Wait_sleep (ck s) 0 (cport s)) as [[p' r]|] eqn:E; [|done]. apply (preach_step _ _ s); [done|]. by apply (ps_sleep _ _ s 0).
Qed.

Lemma reach_queue n s t pk : io_reach n s → SyncSched.running (ck s) 0 t → waits s !! t = None → io_reach n (io_queue s pk).
Proof.
  intros Hr Hrun Ht. unfold io_queue. destruct (Queue _ _ _ _ _) as [[[st k'] p']|] eqn:E; [|done]. apply (preach_step _ _ s); [done|]. by apply (ps_queue _ _ s 0 t).
Qed.

Lemma reach_io_op n s o :
  io_reach n s → SchedFacts.pre (ck s) o → SchedFacts.wq_ok (SchedFacts.ex_run (ck s) o) (queue_of s) →
  SchedFacts.waiters (SchedFacts.ex_run (ck s) o) (queue_of s) = SchedFacts.waiters (ck s) (queue_of s) → io_reach n (io_op s o).
Proof.
  intros Hr Hp Hq Hw. apply (preach_step _ _ s); [done|]. pose proof (pj_event _ _ (preach_inv _ _ _ Hr)) as (Hk & _).
  destruct (SchedFacts.exec_ok (ck s) o Hk Hp) as (k2 & E & Hk2). assert (E2 : SchedFacts.ex_run (ck s) o = k2) by (unfold SchedFacts.ex_run; by rewrite E).
  apply ps_env; [by rewrite E2|done|]. cbn. by rewrite Hw.
Qed.

Definition pk1 : IOP_Packet := mk_iop (notification 1 0 1) 40.
Definition pk2 : IOP_Packet := mk_iop (notification 2 0 1) 40.

(** Threads 2 and 3 find no packet; thread 4 queues two and goes away. *)
Definition io0 : pcfg := let '(p, k) := new_port SyncSched.ex_three 0 205 in mk_pcfg k p ∅ [] [].
Definition io1 : pcfg := io_check (io_enter io0 2) 2.
Definition io2 : pcfg := io_op io1 (SchedFacts.OResume 0 3 false).
Definition io3 : pcfg := io_check (io_enter io2 3) 3.
Definition io4 : pcfg := io_op io3 (SchedFacts.OResume 0 4 false).
Definition io5 : pcfg := io_queue (io_queue io4 pk1) pk2.
Definition io6 : pcfg := io_op io5 (SchedFacts.OSleep 0 false).
(** Thread 2 takes the first packet; thread 3 goes to sleep. *)
Definition io7 : pcfg := io_check (io_sleep io6 2) 2.
Definition io8 : pcfg := io_op io7 (SchedFacts.OYield 0).
Definition io9 : pcfg := io_sleep io8 3.

Ltac io_op_compute Hp := apply reach_io_op; [exact Hp| |eexists; split; SyncSched.concrete|SyncSched.concrete].

Lemma io0_reach : io_reach 2 io0.
Proof.
  apply (preach_init Sched.thread_yield 2 SyncSched.ex_three 0 205); [|eexists; split; SyncSched.concrete|SyncSched.concrete].
  apply (SyncSched.kinv_wq_init SyncSched.ex_three 205); [apply SyncSched.ex_three_kinv|SyncSched.concrete].
Qed.

Lemma io1_reach : io_reach 2 io1.
Proof.
  apply reach_check; [apply reach_enter; [apply io0_reach|SyncSched.concrete_running|SyncSched.concrete|vm_compute; lia]|SyncSched.concrete_running|SyncSched.concrete].
Qed.

Lemma io2_reach : io_reach 2 io2.
Proof. io_op_compute io1_reach. SyncSched.concrete_resume. Qed.

Lemma io3_reach : io_reach 2 io3.
Proof.
  apply reach_check; [apply reach_enter; [apply io2_reach|SyncSched.concrete_running|SyncSched.concrete|vm_compute; lia]|SyncSched.concrete_running|SyncSched.concrete].
Qed.

Lemma io4_reach : io_reach 2 io4.
Proof. io_op_compute io3_reach. SyncSched.concrete_resume. Qed.

Lemma io5_reach : io_reach 2 io5.
Proof.
  apply (reach_queue 2 _ 4); [apply (reach_queue 2 _ 4); [apply io4_reach|SyncSched.concrete_running|SyncSched.concrete]|SyncSched.concrete_running|SyncSched.concrete].
Qed.

Lemma io6_reach : io_reach 2 io6.
Proof. io_op_compute io5_reach. eexists _, _. split_and!; SyncSched.concrete. Qed.

Lemma io7_reach : io_reach 2 io7.
Proof.
  apply reach_check; [apply reach_sleep; [apply io6_reach|SyncSched.concrete_running|SyncSched.concrete]|SyncSched.concrete_running|SyncSched.concrete].
Qed.

Lemma io8_reach : io_reach 2 io8.
Proof. io_op_compute io7_reach. eexists. SyncSched.concrete. Qed.

Lemma io9_reach : io_reach 2 io9.
Proof. apply reach_sleep; [apply io8_reach|SyncSched.concrete_running|SyncSched.concrete]. Qed.

(** With two waiting threads a wakeup can be lost: the kernel reaches a state in
    which one thread has taken the first of two packets and left, the other is the
    only one that waits, blocked on the event, the event is not signalled, and the
    second packet is in the queue. *)
Theorem io_port_lost_wakeup : ∃ s : pcfg (K := Sched.kstate),
  preach Sched.thread_yield 2 s ∧ waits s = {[ 3%nat := Blocked ]} ∧
  SchedFacts.waiters (ck s) (e_wait (port_event (cport s))) = [3%nat] ∧
  signalled (port_event (cport s)) = false ∧ packets_ (cport s) ≠ [] ∧ no_clients_ (cport s) = false.
Proof. exists io9. split; [apply io9_reach|]. split_and!; [SyncSched.concrete..|vm_compute; congruence|SyncSched.concrete]. Qed.

(** The packets of that run. *)
Lemma io_port_delivers_witness : preach Sched.thread_yield 2 io9 ∧ taken io9 ++ packets_ (cport io9) = [pk1; pk2].
Proof.
  split; [apply io9_reach|]. rewrite (proj1 (io_port_delivers Sched.thread_yield 2 io9 io9_reach)). vm_compute. reflexivity.
Defined.
End IoPortFacts.
