(* ===== verification/WaitSet.v ===== *)
(** * Wait sets

    [src/kernel/lib/magenta/wait_set_dispatcher.cpp].  A wait set watches many objects:
    each of its entries is an observer of the tracker of an object, and the entries
    whose signals are satisfied, or can no longer be, or whose handle was closed, are
    on a list of triggered entries that [Wait] reports.

    Entries are pointers into a store; a deleted entry is not in the store, and its use
    is [None].  Pointer 0 is the set itself, which observes its own handle.  The hash
    table of entries is a finite map from cookies, which is what [HashTable] shows of
    it.  Each section under the mutex of the set is one definition: [AddEntry] and
    [RemoveEntry] give it up before they call the tracker, and a wait gives it up while
    it sleeps on the condition variable.  The mutex itself is not represented. *)

From stdpp Require Import base tactics numbers list gmap.
From Stdlib Require Import ZArith.
From S2P Require Import Prelude Sync StateTracker.
#[local] Open Scope Z_scope.

Module WaitSet.
Import Sync StateTracker.

Definition kDefaultWaitSetRights : Z := Z.lor (Z.shiftl 1 2) (Z.shiftl 1 3).
Definition MX_TIME_INFINITE : Z := 2 ^ 64 - 1.

(** From nanoseconds to milliseconds. *)
Definition mx_time_to_lk (mxt : Z) : Z :=
  if mxt =? MX_TIME_INFINITE then INFINITE_TIME else
  let temp := mxt / 1000000 in
  if 2 ^ 32 - 1 <=? temp then 2 ^ 32 - 1 - 1 else Z.land temp 0xffffffff.

Definition timeout_to_deadline (now timeout : Z) : Z :=
  if timeout >? 2 ^ 32 - 1 - now then INFINITE_TIME else now + timeout.

(** ** Entries *)

Inductive State := UNINITIALIZED | ADD_PENDING | ADDED | REMOVED.

#[global] Instance State_eq_dec : EqDecision State.
Proof. solve_decision. Defined.

(** [handle_] and [dispatcher_] are null or a handle and an object. *)
Record Entry := mk_entry {
  en_watched : Z; en_cookie : Z; en_state : State; en_owned : bool; en_handle : option nat; en_object : option nat;
  is_triggered_ : bool; en_signals : mx_signals_state }.

Definition set_state (e : Entry) (st : State) : Entry :=
  mk_entry (en_watched e) (en_cookie e) st (en_owned e) (en_handle e) (en_object e) (is_triggered_ e) (en_signals e).
Definition set_triggered (e : Entry) (b : bool) : Entry :=
  mk_entry (en_watched e) (en_cookie e) (en_state e) (en_owned e) (en_handle e) (en_object e) b (en_signals e).
Definition set_signals (e : Entry) (st : mx_signals_state) : Entry :=
  mk_entry (en_watched e) (en_cookie e) (en_state e) (en_owned e) (en_handle e) (en_object e) (is_triggered_ e) st.
Definition set_handle (e : Entry) (handle object : option nat) : Entry :=
  mk_entry (en_watched e) (en_cookie e) (en_state e) (en_owned e) handle object (is_triggered_ e) (en_signals e).

Definition new_entry (watched_signals cookie : Z) : Entry :=
  mk_entry watched_signals cookie UNINITIALIZED false None None false (mk_signals 0 0).

Definition Entry_Create (m : mem) (watched_signals cookie : Z) : Z * option Entry * mem :=
  let '(ok, m1) := alloc m in
  if negb ok then (ERR_NO_MEMORY, None, m1) else (NO_ERROR, Some (new_entry watched_signals cookie), m1).

Definition Init_NoLock (e : Entry) (handle object : nat) : option Entry :=
  ASSERT bool_decide (en_state e = UNINITIALIZED);
  ASSERT negb (en_owned e);
  ASSERT bool_decide (en_handle e = None);
  ASSERT bool_decide (en_object e = None);
  Some (mk_entry (en_watched e) (en_cookie e) ADD_PENDING true (Some handle) (Some object) (is_triggered_ e) (en_signals e)).

(** ** Sets *)

Record WaitSetDispatcher := mk_set {
  cv_ : cond; waiter_count_ : Z; cancelled_ : bool; entries_ : gmap Z nat; triggered_entries_ : list nat; num_triggered_entries_ : Z }.

Definition set_cancelled (d : WaitSetDispatcher) (b : bool) : WaitSetDispatcher :=
  mk_set (cv_ d) (waiter_count_ d) b (entries_ d) (triggered_entries_ d) (num_triggered_entries_ d).
Definition set_entries (d : WaitSetDispatcher) (es : gmap Z nat) : WaitSetDispatcher :=
  mk_set (cv_ d) (waiter_count_ d) (cancelled_ d) es (triggered_entries_ d) (num_triggered_entries_ d).
Definition set_list (d : WaitSetDispatcher) (l : list nat) (n : Z) : WaitSetDispatcher :=
  mk_set (cv_ d) (waiter_count_ d) (cancelled_ d) (entries_ d) l n.

Definition InTriggeredEntriesList_NoLock (d : WaitSetDispatcher) (e : nat) : bool := bool_decide (e ∈ triggered_entries_ d).

Record mx_wait_set_result := mk_result { r_cookie : Z; r_wait_result : Z; r_signals : mx_signals_state }.

(** The store: the kernel, the set and the entries. *)
Record wsworld (K : Type) := mk_ws { ws_kern : K; ws_set : WaitSetDispatcher; ws_entries : gmap nat Entry }.
#[global] Arguments mk_ws {K}.
#[global] Arguments ws_kern {K}.
#[global] Arguments ws_set {K}.
#[global] Arguments ws_entries {K}.

Section set.
Context {K : Type} `{WaitOps K} (thread_yield : K → nat → option K).
Notation ws := (wsworld K).

Definition put_set (s : ws) (d : WaitSetDispatcher) : ws := mk_ws (ws_kern s) d (ws_entries s).
Definition put_entry (s : ws) (e : nat) (en : Entry) : ws := mk_ws (ws_kern s) (ws_set s) (<[e := en]> (ws_entries s)).
Definition put_kern (s : ws) (k : K) : ws := mk_ws k (ws_set s) (ws_entries s).

(** The state of an entry that ends a wait: some watched signal is satisfied, or none
    can be. *)
Definition satisfied_or_never (watched : Z) (st : mx_signals_state) : bool :=
  negb (Z.land watched (satisfied st) =? 0) || (Z.land watched (satisfiable st) =? 0).

(** Adding an entry that is on the list already fails an assertion of the list. *)
Definition Trigger_NoLock (s : ws) (c e : nat) : option (bool * ws) :=
  en ← ws_entries s !! e;
  ASSERT negb (is_triggered_ en);
  let d := ws_set s in
  let was_empty := bool_decide (triggered_entries_ d = []) in
  ASSERT negb (InTriggeredEntriesList_NoLock d e);
  let s1 := put_set (put_entry s e (set_triggered en true)) (set_list d (triggered_entries_ d ++ [e]) (u32 (num_triggered_entries_ d + 1))) in
  if was_empty then
    k1 ← cond_broadcast (ws_kern s1) c (cv_ d);
    Some (negb (waiter_count_ d =? 0), put_kern s1 k1)
  else Some (false, s1).

(** Taking an entry off the list of triggered entries. *)
Definition untrigger (d : WaitSetDispatcher) (e : nat) : option WaitSetDispatcher :=
  ASSERT InTriggeredEntriesList_NoLock d e;
  ASSERT 0 <? num_triggered_entries_ d;
  Some (set_list d (filter (λ x, x ≠ e) (triggered_entries_ d)) (num_triggered_entries_ d - 1)).

Definition Entry_OnInitialize (s : ws) (c e : nat) (initial_state : mx_signals_state) : option (bool * ws) :=
  en ← ws_entries s !! e;
  ASSERT bool_decide (en_state en = ADD_PENDING);
  let s1 := put_entry s e (set_signals (set_state en ADDED) initial_state) in
  if satisfied_or_never (en_watched en) initial_state then Trigger_NoLock s1 c e else Some (false, s1).

Definition Entry_OnStateChange (s : ws) (c e : nat) (new_state : mx_signals_state) : option (bool * ws) :=
  en ← ws_entries s !! e;
  if bool_decide (en_state en = REMOVED) then Some (false, s) else
  ASSERT bool_decide (en_state en = ADDED);
  let en1 := set_signals en new_state in
  let s1 := put_entry s e en1 in
  if satisfied_or_never (en_watched en) new_state then
    if is_triggered_ en then Some (false, s1) else Trigger_NoLock s1 c e
  else if is_triggered_ en then
    d ← untrigger (ws_set s) e;
    Some (false, put_set (put_entry s e (set_triggered en1 false)) d)
  else Some (false, s1).

(** Whether a thread was woken, [should_remove] and [call_did_cancel]. *)
Definition Entry_OnCancel (s : ws) (c e handle : nat) : option (bool * bool * bool * ws) :=
  en ← ws_entries s !! e;
  if bool_decide (en_state en = REMOVED) then Some (false, false, false, s) else
  ASSERT bool_decide (en_state en = ADDED);
  ASSERT bool_decide (is_Some (en_handle en));
  if negb (bool_decide (en_handle en = Some handle)) then Some (false, false, false, s) else
  let s1 := put_entry s e (set_handle en None None) in
  if negb (is_triggered_ en) then '(b, s2) ← Trigger_NoLock s1 c e; Some (b, true, false, s2)
  else Some (false, true, false, s1).

Definition WaitSet_OnCancel (s : ws) (c : nat) : option (bool * bool * bool * ws) :=
  let d := set_cancelled (ws_set s) true in
  k1 ← cond_broadcast (ws_kern s) c (cv_ d);
  Some (0 <? waiter_count_ d, false, false, mk_ws k1 d (ws_entries s)).

Definition ws_yield (s : ws) (c : nat) : option ws := k1 ← thread_yield (ws_kern s) c; Some (put_kern s k1).

#[local] Instance wait_set_observer : StateObserver ws := {|
  OnInitialize s c o st := if bool_decide (o = 0%nat) then Some (false, s) else Entry_OnInitialize s c o st;
  OnStateChange s c o st := if bool_decide (o = 0%nat) then Some (false, s) else Entry_OnStateChange s c o st;
  OnCancel s c o handle := if bool_decide (o = 0%nat) then WaitSet_OnCancel s c else Entry_OnCancel s c o handle;
  OnDidCancel s _ _ := Some s;
  yield := ws_yield |}.

(** [w] is the wait queue of the condition variable; the tracker of the set holds the
    set as its observer. *)
Definition new_set (k : K) (c w : nat) : option (ws * StateTracker) :=
  let '(cv, k1) := cond_init k w in
  let s := mk_ws k1 (mk_set cv 0 false ∅ [] 0) ∅ in
  '(_, s1, tr) ← AddObserver s c (mk_tracker false [] (mk_signals 0 0)) 0;
  Some (s1, tr).

Definition WaitSet_Create (m : mem) (k : K) (c w : nat) : option (Z * option (ws * StateTracker * Z) * mem) :=
  let '(ok, m1) := alloc m in
  if negb ok then Some (ERR_NO_MEMORY, None, m1) else
  '(s, tr) ← new_set k c w; Some (NO_ERROR, Some (s, tr, kDefaultWaitSetRights), m1).

(** ** [AddEntry] and [RemoveEntry] *)

(** Up to the end of the locked section; an entry that is refused is destroyed.
    [tracker] is that of the object of [handle]. *)
Definition AddEntry_insert (s : ws) (e handle object : nat) (tracker : option StateTracker) : option (Z * ws) :=
  let refused err := Some (err, mk_ws (ws_kern s) (ws_set s) (delete e (ws_entries s))) in
  match tracker with
  | None => refused ERR_NOT_SUPPORTED
  | Some tr =>
    if negb (is_waitable_ tr) then refused ERR_NOT_SUPPORTED else
    en ← ws_entries s !! e;
    if bool_decide (is_Some (entries_ (ws_set s) !! en_cookie en)) then refused ERR_ALREADY_EXISTS else
    en1 ← Init_NoLock en handle object;
    Some (NO_ERROR, put_set (put_entry s e en1) (set_entries (ws_set s) (<[en_cookie en := e]> (entries_ (ws_set s)))))
  end.

(** After a failure the entry is erased and destroyed. *)
Definition AddEntry_observe (s : ws) (c e : nat) (tr : StateTracker) : option (Z * ws * StateTracker) :=
  '(result, s1, tr1) ← AddObserver s c tr e;
  if negb (result =? NO_ERROR) then
    en ← ws_entries s1 !! e;
    ASSERT bool_decide (en_state en = ADD_PENDING);
    ASSERT bool_decide (entries_ (ws_set s1) !! en_cookie en = Some e);
    let d := set_entries (ws_set s1) (delete (en_cookie en) (entries_ (ws_set s1))) in
    Some (result, mk_ws (ws_kern s1) d (delete e (ws_entries s1)), tr1)
  else Some (NO_ERROR, s1, tr1).

(** Up to the end of the locked section: the status, and the entry that the caller now
    owns with its object. *)
Definition RemoveEntry_take (s : ws) (cookie : Z) : option (Z * option (nat * option nat) * ws) :=
  match entries_ (ws_set s) !! cookie with
  | None => Some (ERR_NOT_FOUND, None, s)
  | Some e =>
    en ← ws_entries s !! e;
    d ← (if is_triggered_ en then untrigger (ws_set s) e else Some (ws_set s));
    if bool_decide (en_state en = ADD_PENDING) then Some (NO_ERROR, None, put_set s d) else
    ASSERT bool_decide (en_state en = ADDED);
    Some (NO_ERROR, Some (e, en_object en),
      put_set (put_entry s e (set_state en REMOVED)) (set_entries d (delete cookie (entries_ d))))
  end.

(** [tracker] is that of the object, if the entry has one; the entry is destroyed. *)
Definition RemoveEntry_observe (s : ws) (e : nat) (tracker : option StateTracker) : option (ws * option StateTracker) :=
  let s1 := mk_ws (ws_kern s) (ws_set s) (delete e (ws_entries s)) in
  match tracker with
  | Some tr => '(_, tr1) ← RemoveObserver tr e; Some (s1, Some tr1)
  | None => Some (s1, None)
  end.

(** ** [Wait] *)

Definition result_of (e : Entry) : option mx_wait_set_result :=
  if bool_decide (is_Some (en_handle e)) then
    let st := en_signals e in
    if negb (Z.land (satisfied st) (en_watched e) =? 0) then Some (mk_result (en_cookie e) NO_ERROR st)
    else ASSERT Z.land (satisfiable st) (en_watched e) =? 0; Some (mk_result (en_cookie e) ERR_BAD_STATE st)
  else Some (mk_result (en_cookie e) ERR_CANCELLED (mk_signals 0 0)).

Fixpoint collect (k : nat) (s : ws) (l : list nat) : option (list mx_wait_set_result) :=
  match k, l with
  | O, _ => Some []
  | S _, [] => None
  | S k', e :: l' => en ← ws_entries s !! e; r ← result_of en; rs ← collect k' s l'; Some (r :: rs)
  end.

(** What a wait returns: the status, and the results with [num_results] of them and
    [max_results]. *)
Record answer := mk_answer { a_status : Z; a_results : list mx_wait_set_result; a_num : Z; a_max : Z }.

Definition Wait_finish (s : ws) (result num_results max_results : Z) : option answer :=
  let d := ws_set s in
  if negb (result =? NO_ERROR) && negb (result =? ERR_TIMED_OUT)
  then ASSERT result =? ERR_INTERRUPTED; Some (mk_answer result [] num_results max_results)
  else if cancelled_ d then Some (mk_answer ERR_CANCELLED [] num_results max_results)
  else if num_triggered_entries_ d =? 0
  then ASSERT result =? ERR_TIMED_OUT; Some (mk_answer ERR_TIMED_OUT [] num_results max_results)
  else
    let n := if num_triggered_entries_ d <? num_results then num_triggered_entries_ d else num_results in
    rs ← collect (Z.to_nat n) s (triggered_entries_ d);
    Some (mk_answer NO_ERROR rs n (num_triggered_entries_ d)).

(** The wait for the condition variable up to [deadline]; [INFINITE_TIME] is none.
    The result has the time to wait for. *)
Definition cv_block (s : ws) (c : nat) (deadline now : Z) : option (Z * result ws Z) :=
  ASSERT c_magic (cv_ (ws_set s)) =? COND_MAGIC;
  let timeout := if deadline =? INFINITE_TIME then INFINITE_TIME else u32 (deadline - now) in
  r ← wq_block (ws_kern s) c (c_wait (cv_ (ws_set s))) timeout;
  Some (timeout, match r with Done st k1 => Done st (put_kern s k1) | Wait k1 => Wait (put_kern s k1) end).

(** Whether the wait is over, after [cond_wait_timeout] returned [result]; if not it
    goes on. *)
Definition DoWait_check (s : ws) (c : nat) (deadline now result : Z) : option (Z * Sync.result ws Z) :=
  let d := ws_set s in
  if negb (num_triggered_entries_ d =? 0) || cancelled_ d || negb (result =? NO_ERROR) then Some (0, Done result s)
  else if negb (deadline =? INFINITE_TIME) && (deadline <=? now) then Some (0, Done ERR_TIMED_OUT s)
  else cv_block s c deadline now.

(** The deadline of a wait. *)
Definition wait_deadline (timeout now : Z) : Z :=
  let lk_timeout := mx_time_to_lk timeout in
  if lk_timeout =? INFINITE_TIME then INFINITE_TIME else timeout_to_deadline now lk_timeout.

(** The first part of [Wait], up to where it blocks or has a status. *)
Definition Wait_begin (s : ws) (c : nat) (timeout now : Z) : option (Z * result ws Z) :=
  if (num_triggered_entries_ (ws_set s) =? 0) && negb (cancelled_ (ws_set s)) then
    '(t, r) ← cv_block s c (wait_deadline timeout now) now;
    match r with
    | Done st s1 => DoWait_check s1 c (wait_deadline timeout now) now st
    | Wait s1 => Some (t, Wait s1)
    end
  else Some (0, Done NO_ERROR s).

(** Thread [t], which waited for [slept], goes on. *)
Definition Wait_resume (s : ws) (c t : nat) (deadline slept now : Z) : option (Z * result ws Z) :=
  '(ret, k1) ← wq_block_resume (ws_kern s) t slept;
  DoWait_check (put_kern s k1) c deadline now ret.

(** ** Destruction *)

(** All entries become [REMOVED]; the result is the list of them. *)
Fixpoint remove_all (l : list nat) (es : gmap nat Entry) : option (gmap nat Entry) :=
  match l with
  | [] => Some es
  | e :: l' => en ← es !! e; ASSERT bool_decide (en_state en = ADDED); remove_all l' (<[e := set_state en REMOVED]> es)
  end.

(** The entries come in the order of the map of entries, not in that of the buckets. *)
Definition destroy_lock (s : ws) : option (list nat * ws) :=
  let l := (map_to_list (entries_ (ws_set s))).*2 in
  es ← remove_all l (ws_entries s);
  Some (l, mk_ws (ws_kern s) (set_list (ws_set s) [] (num_triggered_entries_ (ws_set s))) es).

(** [trackers] are the trackers of the objects. *)
Fixpoint destroy_observe (s : ws) (l : list nat) (trackers : gmap nat StateTracker) : option (gmap nat StateTracker) :=
  match l with
  | [] => Some trackers
  | e :: l' =>
    en ← ws_entries s !! e;
    ASSERT bool_decide (en_state en = REMOVED);
    match en_object en with
    | Some o => tr ← trackers !! o; '(_, tr1) ← RemoveObserver tr e; destroy_observe s l' (<[o := tr1]> trackers)
    | None => destroy_observe s l' trackers
    end
  end.

(** [own] is the tracker of the set itself. *)
Definition WaitSet_destroy (s : ws) (c : nat) (own : StateTracker) (trackers : gmap nat StateTracker)
  : option (result K () * StateTracker * gmap nat StateTracker) :=
  '(l, s1) ← destroy_lock s;
  trackers1 ← destroy_observe s1 l trackers;
  '(_, own1) ← RemoveObserver own 0;
  '(_, r) ← cond_destroy (ws_kern s1) c (cv_ (ws_set s1));
  Some (r, own1, trackers1).

End set.
End WaitSet.
