(* ===== verification/WaitSetFacts.v ===== *)
(** * Wait sets report what happened, and no waiter sleeps through it

    The invariant of a wait set under any interleaving of its locked sections with the
    calls of the trackers, waits, and steps of the kernel.  A tracker is represented by
    what a set can see of it: the entries it has linked. *)

From stdpp Require Import base tactics numbers list gmap sets.
From Stdlib Require Import ZArith Lia.
From S2P Require Import Prelude Sched SchedFacts Sync SyncFacts SyncSched StateTracker StateTrackerFacts WaitSet.
#[local] Open Scope Z_scope.

Module WaitSetFacts.
Import Sync SyncFacts StateTracker WaitSet.

Section facts.
Context {K : Type} `{WaitSpec K}.

(** A set, with the entries that trackers have linked, the entries that [RemoveEntry]
    has taken but not yet destroyed, with their objects, and the threads that wait,
    with their deadlines and the times they sleep for. *)
Record config := mk_config { world_ : wsworld K; linked : gset nat; taken : gmap nat (option nat); sleepers : gmap nat (Z * Z) }.

Notation the_set s := (ws_set (world_ s)).
Notation ents s := (ws_entries (world_ s)).

Definition cv_queue (s : config) : list nat := kwaiters (ws_kern (world_ s)) (c_wait (cv_ (the_set s))).

(** The condition under which an entry is reported. *)
Definition reportable (en : Entry) : bool := bool_decide (en_handle en = None) || satisfied_or_never (en_watched en) (en_signals en).

(** What is known of the entry at [e], by its state. *)
Definition entry_ok (s : config) (e : nat) (en : Entry) : Prop :=
  let listed := entries_ (the_set s) !! en_cookie en = Some e in
  let triggered := e ∈ triggered_entries_ (the_set s) in
  (is_Some (en_handle en) ↔ is_Some (en_object en)) ∧
  match en_state en with
  | UNINITIALIZED => en = new_entry (en_watched en) (en_cookie en) ∧ ¬ listed ∧ ¬ triggered ∧ e ∉ linked s ∧ taken s !! e = None
  | ADD_PENDING => listed ∧ is_triggered_ en = false ∧ ¬ triggered ∧ is_Some (en_handle en) ∧ e ∉ linked s ∧ taken s !! e = None
  | ADDED => listed ∧ is_triggered_ en = reportable en ∧ (triggered ↔ is_triggered_ en = true) ∧ (e ∈ linked s ↔ is_Some (en_object en)) ∧ taken s !! e = None
  | REMOVED => ¬ listed ∧ ¬ triggered ∧ (e ∈ linked s ↔ is_Some (en_object en)) ∧ taken s !! e = Some (en_object en)
  end.

(** The status with which a waiting thread goes on: a wait without a deadline does not
    time out. *)
Definition wait_status (p : Z * Z) (st : Z) : Prop :=
  (p.1 = INFINITE_TIME → p.2 = INFINITE_TIME) ∧ (st = NO_ERROR ∨ (st = ERR_TIMED_OUT ∧ p.2 ≠ INFINITE_TIME) ∨ st = ERR_INTERRUPTED).

Record kern_ok (s : config) : Prop := {
  ko_ok : kok (ws_kern (world_ s));
  ko_wq : kwq (ws_kern (world_ s)) (c_wait (cv_ (the_set s)));
  ko_magic : c_magic (cv_ (the_set s)) = COND_MAGIC;
  ko_count : waiter_count_ (the_set s) = 0;
  ko_status t p : sleepers s !! t = Some p → wait_status p (kstatus (ws_kern (world_ s)) t) }.

Record wsinv (s : config) : Prop := {
  wi_kern : kern_ok s;
  wi_ok e en : ents s !! e = Some en → e ≠ 0%nat ∧ entry_ok s e en;
  wi_listed ck e : entries_ (the_set s) !! ck = Some e → ∃ en, ents s !! e = Some en ∧ en_cookie en = ck;
  wi_triggered e : e ∈ triggered_entries_ (the_set s) → is_Some (ents s !! e);
  wi_linked e : e ∈ linked s → is_Some (ents s !! e);
  wi_taken e : is_Some (taken s !! e) → is_Some (ents s !! e);
  wi_list : NoDup (triggered_entries_ (the_set s)) ∧ num_triggered_entries_ (the_set s) = Z.of_nat (length (triggered_entries_ (the_set s)));
  wi_size : Z.of_nat (size (entries_ (the_set s))) < 2 ^ 32;
  wi_sleep : cv_queue s ≠ [] → triggered_entries_ (the_set s) = [] ∧ cancelled_ (the_set s) = false }.

Ltac keep_kern Hi := destruct (wi_kern _ Hi); by constructor.

(** Only the entry at [e] differs. *)
Record only_entry (e : nat) (s s' : config) : Prop := {
  oe_ents x : x ≠ e → ents s' !! x = ents s !! x;
  oe_listed x ck : x ≠ e → entries_ (the_set s') !! ck = Some x ↔ entries_ (the_set s) !! ck = Some x;
  oe_triggered x : x ≠ e → x ∈ triggered_entries_ (the_set s') ↔ x ∈ triggered_entries_ (the_set s);
  oe_linked x : x ≠ e → x ∈ linked s' ↔ x ∈ linked s;
  oe_taken x : x ≠ e → taken s' !! x = taken s !! x }.

Lemma only_entry_ok e s s' x en : only_entry e s s' → x ≠ e → entry_ok s x en → entry_ok s' x en.
Proof.
  intros [A1 A2 A3 A4 A5] Hx. unfold entry_ok. destruct (en_state en); rewrite ?(A2 x _ Hx), ?(A3 x Hx), ?(A4 x Hx), ?(A5 x Hx); done.
Qed.

(** A change of one entry keeps the invariant if it keeps what concerns that entry. *)
Lemma wsinv_change e s s' :
  wsinv s → only_entry e s s' →
  kern_ok s' →
  match ents s' !! e with
  | Some en => e ≠ 0%nat ∧ entry_ok s' e en ∧ ∀ ck, entries_ (the_set s') !! ck = Some e → en_cookie en = ck
  | None => (∀ ck, entries_ (the_set s') !! ck ≠ Some e) ∧ e ∉ triggered_entries_ (the_set s') ∧ e ∉ linked s' ∧ taken s' !! e = None
  end →
  NoDup (triggered_entries_ (the_set s')) → num_triggered_entries_ (the_set s') = Z.of_nat (length (triggered_entries_ (the_set s'))) →
  Z.of_nat (size (entries_ (the_set s'))) < 2 ^ 32 →
  (cv_queue s' ≠ [] → triggered_entries_ (the_set s') = [] ∧ cancelled_ (the_set s') = false) → wsinv s'.
Proof.
  intros [I1 I2 I3 I4 I5 I6 I7 I8 I9] Ho Hk He Hnd Hnum Hsz Hsl. pose proof Ho as [A1 A2 A3 A4 A5].
  assert (Hsome : ∀ x, (x = e → ents s' !! e ≠ None) → (x ≠ e → is_Some (ents s !! x)) → is_Some (ents s' !! x)).
  { intros x Hx1 Hx2. destruct (decide (x = e)) as [->|Hx]; [destruct (ents s' !! e); [eauto|by destruct Hx1]|rewrite A1 by done; auto]. }
  split; [done| | | | | |by split|done|done].
  - intros x en Hx. destruct (decide (x = e)) as [->|Hne]; [rewrite Hx in He; by destruct He as (? & ? & _)|]. rewrite A1 in Hx by done. destruct (I2 x en Hx) as [? Hok]. split; [done|]. by eapply only_entry_ok.
  - intros ck x Hx. destruct (decide (x = e)) as [->|Hne].
    + destruct (ents s' !! e) as [en|]; [exists en; split; [done|]; by apply He|by destruct He as [Hn _]; destruct (Hn ck)].
    + rewrite A2 in Hx by done. rewrite A1 by done. eauto.
  - intros x Hx. apply Hsome; [intros ->|intros Hne; apply I4; by apply A3]. intros E. rewrite E in He. by destruct He as (_ & ? & _).
  - intros x Hx. apply Hsome; [intros ->|intros Hne; apply I5; by apply A4]. intros E. rewrite E in He. by destruct He as (_ & _ & ? & _).
  - intros x Hx. apply Hsome; [intros ->|intros Hne; apply I6; by rewrite <- A5]. intros E. rewrite E in He. destruct He as (_ & _ & _ & He). rewrite He in Hx. by destruct Hx.
Qed.

(** An entry is under at most one cookie. *)
Lemma listed_cookie s e en ck : wsinv s → ents s !! e = Some en → entries_ (the_set s) !! ck = Some e → en_cookie en = ck.
Proof. intros Hi He Hc. destruct (wi_listed _ Hi ck e Hc) as (en' & He' & <-). congruence. Qed.

(** A triggered entry is one of the entries of the set. *)
Lemma triggered_listed s e : wsinv s → e ∈ triggered_entries_ (the_set s) → ∃ en, ents s !! e = Some en ∧ en_state en = ADDED ∧ entries_ (the_set s) !! en_cookie en = Some e.
Proof.
  intros Hi He. destruct (wi_triggered _ Hi e He) as [en Hen]. exists en. split; [done|]. destruct (wi_ok _ Hi e en Hen) as (_ & _ & Hok).
  destruct (en_state en); [by destruct Hok as (_ & _ & ? & _)|by destruct Hok as (_ & _ & ? & _)|by destruct Hok as (? & _)|by destruct Hok as (_ & ? & _)].
Qed.

Lemma triggered_room s ck e :
  wsinv s → entries_ (the_set s) !! ck = Some e → e ∉ triggered_entries_ (the_set s) → Z.of_nat (length (triggered_entries_ (the_set s))) + 1 < 2 ^ 32.
Proof.
  intros Hi Hck Hn. destruct (wi_list _ Hi) as [Hnd _]. pose proof (wi_size _ Hi) as Hsz. enough (length (e :: triggered_entries_ (the_set s)) ≤ size (entries_ (the_set s)))%nat by (cbn in *; lia).
  rewrite <- length_map_to_list, <- (length_fmap snd). apply submseteq_length, NoDup_submseteq; [by apply list.NoDup_cons|]. intros x [->|Hx]%elem_of_cons; apply list_elem_of_fmap.
  - exists (ck, e). split; [done|]. by apply elem_of_map_to_list.
  - destruct (triggered_listed s x Hi Hx) as (en & _ & _ & Hl). exists (en_cookie en, x). split; [done|]. by apply elem_of_map_to_list.
Qed.

(** ** Triggering *)

(** The kernel after a broadcast. *)
Record broadcasted (s : config) (k' : K) : Prop := {
  bc_ok : kok k';
  bc_wq : kwq k' (c_wait (cv_ (the_set s)));
  bc_queue : kwaiters k' (c_wait (cv_ (the_set s))) = [];
  bc_status t : kstatus k' t = NO_ERROR ∨ kstatus k' t = kstatus (ws_kern (world_ s)) t }.

Lemma broadcast_ok s c t :
  wsinv s → krunning (ws_kern (world_ s)) c t → ∃ k', cond_broadcast (ws_kern (world_ s)) c (cv_ (the_set s)) = Some k' ∧ broadcasted s k'.
Proof.
  intros Hi Hr. destruct (wi_kern _ Hi) as [Hk Hq Hm _ _]. unfold cond_broadcast. rewrite Hm, Z.eqb_refl. destruct (wake_all_law _ c _ true NO_ERROR Hk Hq ltac:(eauto)) as (k' & -> & Hc). cbn [mbind option_bind].
  exists k'. split; [done|]. split; [by eapply changed_ok|by eapply changed_wq|by eapply changed_waiters|]. intros x. rewrite (changed_status _ _ _ _ _ x Hc). case_decide; auto.
Qed.

(** The set may change around it. *)
Lemma broadcasted_kern s k' d es lk tk :
  wsinv s → broadcasted s k' → cv_ d = cv_ (the_set s) → waiter_count_ d = waiter_count_ (the_set s) → kern_ok (mk_config (mk_ws k' d es) lk tk (sleepers s)).
Proof.
  intros Hi [Hk Hq _ Hst] Ec Ew. destruct (wi_kern _ Hi) as [_ _ Hm Hw Hs]. split; cbn; rewrite ?Ec, ?Ew; try done.
  intros t p Hp. destruct (Hs t p Hp) as [? ?]. split; [done|]. destruct (Hst t) as [->| ->]; [by left|done].
Qed.

(** With an entry on the list already nobody sleeps; otherwise a broadcast wakes all. *)
Lemma trigger_ok s c t e en1 ck :
  wsinv s → krunning (ws_kern (world_ s)) c t → entries_ (the_set s) !! ck = Some e → e ∉ triggered_entries_ (the_set s) → is_triggered_ en1 = false →
  let d := the_set s in let d' := set_list d (triggered_entries_ d ++ [e]) (num_triggered_entries_ d + 1) in
  ∃ k', Trigger_NoLock (put_entry (world_ s) e en1) c e = Some (false, mk_ws k' d' (<[e := set_triggered en1 true]> (ents s))) ∧ broadcasted s k'.
Proof.
  intros Hi Hr Hck Hn Ht d d'. unfold Trigger_NoLock, put_entry. cbn [ws_entries ws_set ws_kern]. rewrite lookup_insert_eq. cbn [mbind option_bind]. rewrite Ht. cbn [negb].
  fold d. unfold InTriggeredEntriesList_NoLock. fold d in Hn. rewrite bool_decide_eq_false_2 by done. cbn [negb]. unfold put_set, put_kern. cbn [ws_entries ws_set ws_kern]. rewrite insert_insert_eq.
  pose proof (triggered_room s ck e Hi Hck Hn) as Hroom. destruct (wi_list _ Hi) as [_ Hnum]. fold d in Hroom, Hnum. rewrite u32_id by (unfold is_u32; lia). case_bool_decide as He.
  - destruct (broadcast_ok s c t Hi Hr) as (k' & E & Hk). fold d in E. rewrite E. cbn [mbind option_bind]. unfold d at 1. rewrite (ko_count _ (wi_kern _ Hi)). exists k'. split; [reflexivity|exact Hk].
  - eexists. split; [reflexivity|]. destruct (wi_kern _ Hi) as [Hk Hq _ _ _]. split; [done|done| |auto]. pose proof (wi_sleep _ Hi) as Hs. unfold cv_queue in Hs. destruct (kwaiters _ _); [done|]. destruct Hs as [? _]; done.
Qed.

(** ** The calls of the trackers *)

Definition with_world (s : config) (w : wsworld K) : config := mk_config w (linked s) (taken s) (sleepers s).
Definition link_entry (s : config) (w : wsworld K) (e : nat) : config := mk_config w (linked s ∪ {[e]}) (taken s) (sleepers s).
Definition unlink_entry (s : config) (w : wsworld K) (e : nat) : config := mk_config w (linked s ∖ {[e]}) (taken s) (sleepers s).

Ltac wsimp := cbn [world_ linked taken sleepers with_world link_entry unlink_entry ws_kern ws_set ws_entries put_entry put_set put_kern cv_ cancelled_ entries_ triggered_entries_ num_triggered_entries_
  set_list set_entries set_cancelled waiter_count_ en_watched en_cookie en_state en_owned en_handle en_object is_triggered_ en_signals set_state set_triggered set_signals set_handle] in *.

(** A new triggered entry, or one that changes off the list. *)
Lemma triggered_inv s c t e en en1 lk :
  wsinv s → krunning (ws_kern (world_ s)) c t → ents s !! e = Some en → entries_ (the_set s) !! en_cookie en = Some e → e ∉ triggered_entries_ (the_set s) → taken s !! e = None →
  en_cookie en1 = en_cookie en → en_state en1 = ADDED → is_triggered_ en1 = false → reportable en1 = true → (is_Some (en_handle en1) ↔ is_Some (en_object en1)) →
  (∀ x, x ≠ e → x ∈ lk ↔ x ∈ linked s) → (e ∈ lk ↔ is_Some (en_object en1)) →
  ∃ w', Trigger_NoLock (put_entry (world_ s) e en1) c e = Some (false, w') ∧ wsinv (mk_config w' lk (taken s) (sleepers s)).
Proof.
  intros Hi Hr He Hck Hn Htk Ec Est Ht Hrep Hho Hlk Hlk'. destruct (trigger_ok s c t e en1 _ Hi Hr Hck Hn Ht) as (k' & E & Hk). eexists. split; [exact E|].
  destruct (wi_list _ Hi) as [Hnd Hnum]. apply (wsinv_change e s); wsimp.
  - done.
  - split; wsimp; [intros x Hx; by rewrite lookup_insert_ne|done| |done|done]. intros x Hx. rewrite elem_of_app, list_elem_of_singleton. tauto.
  - by apply broadcasted_kern.
  - rewrite lookup_insert_eq. split; [by apply (wi_ok _ Hi e en He)|]. split; [|intros ck Hc; wsimp; rewrite Ec; by apply (listed_cookie s e en ck Hi He)].
    unfold entry_ok. wsimp. rewrite Est, Ec. split; [done|]. split; [done|]. split; [by rewrite <- Hrep|]. split; [|done]. split; [done|]. intros _. apply elem_of_app. right. by apply list_elem_of_singleton.
  - apply NoDup_app. split; [done|]. split; [|apply NoDup_singleton]. intros x Hx ->%list_elem_of_singleton. done.
  - rewrite length_app, Hnum. cbn. lia.
  - apply (wi_size _ Hi).
  - unfold cv_queue. wsimp. by rewrite (bc_queue _ _ Hk).
Qed.

(** A change of an entry that does not concern the list. *)
Lemma quiet_inv s e en en1 lk :
  wsinv s → ents s !! e = Some en → en_cookie en1 = en_cookie en → (∀ x, x ≠ e → x ∈ lk ↔ x ∈ linked s) →
  (let s' := mk_config (put_entry (world_ s) e en1) lk (taken s) (sleepers s) in entry_ok s' e en1 → wsinv s').
Proof.
  intros Hi He Ec Hlk s' Hok. destruct (wi_list _ Hi) as [Hnd Hnum]. apply (wsinv_change e s); unfold s' in *; wsimp; try done.
  - split; wsimp; [intros x Hx; by rewrite lookup_insert_ne|done..].
  - keep_kern Hi.
  - rewrite lookup_insert_eq. split; [by apply (wi_ok _ Hi e en He)|]. split; [done|]. intros ck Hc. rewrite Ec. by apply (listed_cookie s e en ck Hi He).
  - apply (wi_size _ Hi).
  - apply (wi_sleep _ Hi).
Qed.

(** [AddObserver] calls [OnInitialize] and links the entry. *)
Lemma initialize_ok s c t e en st :
  wsinv s → krunning (ws_kern (world_ s)) c t → ents s !! e = Some en → en_state en = ADD_PENDING →
  ∃ w', Entry_OnInitialize (world_ s) c e st = Some (false, w') ∧ wsinv (link_entry s w' e).
Proof.
  intros Hi Hr He Est. destruct (wi_ok _ Hi e en He) as (_ & Hho & Hok). rewrite Est in Hok. destruct Hok as (Hl & Ht & Hn & Hh & Hlk & Htk). unfold Entry_OnInitialize. rewrite He. cbn [mbind option_bind]. rewrite bool_decide_eq_true_2 by done.
  set (en1 := set_signals (set_state en ADDED) st). assert (Hlk' : ∀ x, x ≠ e → x ∈ linked s ∪ {[e]} ↔ x ∈ linked s) by set_solver.
  destruct (satisfied_or_never (en_watched en) st) eqn:Esat.
  - destruct (triggered_inv s c t e en en1 (linked s ∪ {[e]})) as (w' & E & Hi'); try done; [unfold reportable, en1; wsimp; by rewrite Esat, orb_true_r|wsimp; split; [intros _; by apply Hho|set_solver]|]. exists w'. split; [exact E|exact Hi'].
  - eexists. split; [done|]. apply (quiet_inv s e en en1); try done. unfold entry_ok, en1. wsimp. split; [done|]. split; [done|]. split; [unfold reportable; wsimp; rewrite Esat, orb_false_r, Ht; symmetry; apply bool_decide_eq_false; by destruct Hh as [? ->]|].
    rewrite Ht. split; [done|]. split; [|done]. split; [intros _; by apply Hho|set_solver].
Qed.

Lemma remove_elem e (l : list nat) : NoDup l → e ∈ l → NoDup (filter (λ x, x ≠ e) l) ∧ Z.of_nat (length (filter (λ x, x ≠ e) l)) = Z.of_nat (length l) - 1.
Proof.
  intros Hnd He. split; [by apply NoDup_filter|]. induction l as [|y l IH]; [by apply not_elem_of_nil in He|]. apply list.NoDup_cons in Hnd as [Hy Hnd]. destruct (decide (y = e)) as [->|Hne].
  - rewrite filter_cons_False by tauto. cbn [length]. assert (Ef : filter (λ x, x ≠ e) l = l); [|rewrite Ef; lia]. clear -Hy. induction l as [|z l IH]; [done|].
    rewrite filter_cons_True, IH; [done|set_solver|intros ->; apply Hy; by left].
  - rewrite filter_cons_True by done. apply elem_of_cons in He as [?|He]; [done|]. cbn [length]. specialize (IH Hnd He). lia.
Qed.

Lemma untrigger_ok s e : wsinv s → e ∈ triggered_entries_ (the_set s) →
  untrigger (the_set s) e = Some (set_list (the_set s) (filter (λ x, x ≠ e) (triggered_entries_ (the_set s))) (num_triggered_entries_ (the_set s) - 1)).
Proof.
  intros Hi He. unfold untrigger, InTriggeredEntriesList_NoLock. rewrite bool_decide_eq_true_2 by done. destruct (wi_list _ Hi) as [_ Hnum]. rewrite (proj2 (Z.ltb_lt 0 _)); [done|].
  rewrite Hnum. destruct (triggered_entries_ (the_set s)); [by apply not_elem_of_nil in He|cbn; lia].
Qed.

(** An entry leaves the list. *)
Lemma untriggered_inv s e en en1 es lk tk :
  wsinv s → ents s !! e = Some en → e ∈ triggered_entries_ (the_set s) → en_cookie en1 = en_cookie en →
  let d := the_set s in let d' := set_entries (set_list d (filter (λ x, x ≠ e) (triggered_entries_ d)) (num_triggered_entries_ d - 1)) es in
  (∀ x ck, x ≠ e → es !! ck = Some x ↔ entries_ d !! ck = Some x) → (∀ ck, es !! ck = Some e → entries_ d !! ck = Some e) → (size es ≤ size (entries_ d))%nat →
  (∀ x, x ≠ e → x ∈ lk ↔ x ∈ linked s) → (∀ x, x ≠ e → tk !! x = taken s !! x) →
  let s' := mk_config (mk_ws (ws_kern (world_ s)) d' (<[e := en1]> (ents s))) lk tk (sleepers s) in
  entry_ok s' e en1 → wsinv s'.
Proof.
  intros Hi He Ht Ec d d' Hes Hese Hsz Hlk Htk s' Hok. destruct (wi_list _ Hi) as [Hnd Hnum]. destruct (remove_elem e _ Hnd Ht) as [Hnd' Hlen]. apply (wsinv_change e s); unfold s', d', d in *; wsimp; try done.
  - split; wsimp; [intros x Hx; by rewrite lookup_insert_ne|done| |done|done]. intros x Hx. rewrite list_elem_of_filter. tauto.
  - keep_kern Hi.
  - rewrite lookup_insert_eq. split; [by apply (wi_ok _ Hi e en He)|]. split; [done|]. intros ck Hc. rewrite Ec. apply (listed_cookie s e en ck Hi He). by apply Hese.
  - lia.
  - pose proof (wi_size _ Hi). lia.
  - intros Hq. destruct (wi_sleep _ Hi Hq) as [E _]. rewrite E in Ht. by apply not_elem_of_nil in Ht.
Qed.

(** A tracker that linked an entry calls [OnStateChange]. *)
Lemma state_change_ok s c t e st :
  wsinv s → krunning (ws_kern (world_ s)) c t → e ∈ linked s →
  ∃ w', Entry_OnStateChange (world_ s) c e st = Some (false, w') ∧ wsinv (with_world s w').
Proof.
  intros Hi Hr Hlk. destruct (wi_linked _ Hi e Hlk) as [en He]. destruct (wi_ok _ Hi e en He) as (_ & Hho & Hok). unfold Entry_OnStateChange. rewrite He. cbn [mbind option_bind].
  destruct (en_state en) eqn:Est; [by destruct Hok as (_ & _ & _ & ? & _)|by destruct Hok as (_ & _ & _ & _ & ? & _)| |].
  2: { exists (world_ s). split; [by rewrite bool_decide_eq_true_2|]. by destruct s. }
  destruct Hok as (Hl & Ht & Htr & Hlk' & Htk). rewrite bool_decide_eq_false_2, bool_decide_eq_true_2 by done. set (en1 := set_signals en st).
  assert (Hh : is_Some (en_handle en)) by (by apply Hho, Hlk'). assert (Hrep : reportable en1 = satisfied_or_never (en_watched en) st) by (unfold reportable, en1; wsimp; destruct Hh as [? ->]; by rewrite bool_decide_eq_false_2).
  destruct (satisfied_or_never (en_watched en) st) eqn:Esat.
  - destruct (is_triggered_ en) eqn:Etr.
    + eexists. split; [done|]. apply (quiet_inv s e en en1); try done. unfold entry_ok, en1 in *. wsimp. rewrite Est, Etr. split_and!; done.
    + destruct (triggered_inv s c t e en en1 (linked s)) as (w' & E & Hi'); try done; [intros Hx; by apply Htr in Hx|]. exists w'. split; [exact E|exact Hi'].
  - destruct (is_triggered_ en) eqn:Etr.
    + rewrite untrigger_ok by (done || by apply Htr). cbn [mbind option_bind]. eexists. split; [done|]. unfold with_world. 
      apply (untriggered_inv s e en (set_triggered en1 false) (entries_ (the_set s)) (linked s) (taken s)); try done; [by apply Htr|].
      unfold entry_ok, en1 in *. wsimp. rewrite Est. split; [done|]. split; [done|]. split; [unfold reportable in *; wsimp; done|]. split; [|done]. split; [|done]. rewrite list_elem_of_filter. tauto.
    + eexists. split; [done|]. apply (quiet_inv s e en en1); try done. unfold entry_ok, en1 in *. wsimp. rewrite Est, Etr. split_and!; done.
Qed.

(** A tracker that linked an entry calls [OnCancel] and unlinks it if told to. *)
Lemma cancel_entry_ok s c t e handle :
  wsinv s → krunning (ws_kern (world_ s)) c t → e ∈ linked s →
  ∃ remove w', Entry_OnCancel (world_ s) c e handle = Some (false, remove, false, w') ∧ wsinv (if (remove : bool) then unlink_entry s w' e else with_world s w').
Proof.
  intros Hi Hr Hlk. destruct (wi_linked _ Hi e Hlk) as [en He]. destruct (wi_ok _ Hi e en He) as (_ & Hho & Hok). unfold Entry_OnCancel. rewrite He. cbn [mbind option_bind].
  assert (Hsame : wsinv (with_world s (world_ s))) by (by destruct s).
  destruct (en_state en) eqn:Est; [by destruct Hok as (_ & _ & _ & ? & _)|by destruct Hok as (_ & _ & _ & _ & ? & _)| |].
  2: { exists false, (world_ s). split; [by rewrite bool_decide_eq_true_2|done]. }
  destruct Hok as (Hl & Ht & Htr & Hlk' & Htk). rewrite bool_decide_eq_false_2, bool_decide_eq_true_2 by done. assert (Hh : is_Some (en_handle en)) by (by apply Hho, Hlk'). rewrite bool_decide_eq_true_2 by done.
  case_bool_decide as Eh; cbn [negb]; [|exists false, (world_ s); by split]. set (en1 := set_handle en None None).
  assert (Hlk1 : ∀ x, x ≠ e → x ∈ linked s ∖ {[e]} ↔ x ∈ linked s) by set_solver. destruct (is_triggered_ en) eqn:Etr; cbn [negb].
  - eexists true, _. split; [done|]. apply (quiet_inv s e en en1); try done. unfold entry_ok, en1 in *. wsimp. rewrite Est, Etr. split; [by split; intros [? ?]|]. split; [done|]. split; [done|]. split; [done|]. split; [|done]. split; [set_solver|by intros [? ?]].
  - destruct (triggered_inv s c t e en en1 (linked s ∖ {[e]})) as (w' & E & Hi'); try done; [intros Hx; by apply Htr in Hx|split; [set_solver|by intros [? ?]]|].
    rewrite E. cbn [mbind option_bind]. exists true, w'. split; [done|exact Hi'].
Qed.

(** The handle of the set is closed. *)
Lemma cancel_set_ok s c t :
  wsinv s → krunning (ws_kern (world_ s)) c t → ∃ w', WaitSet_OnCancel (world_ s) c = Some (false, false, false, w') ∧ wsinv (with_world s w').
Proof.
  intros Hi Hr. unfold WaitSet_OnCancel. wsimp. destruct (broadcast_ok s c t Hi Hr) as (k' & E & Hk). rewrite E. cbn [mbind option_bind]. rewrite (ko_count _ (wi_kern _ Hi)). eexists. split; [done|].
  pose proof (broadcasted_kern s k' (set_cancelled (the_set s) true) (ents s) (linked s) (taken s) Hi Hk eq_refl eq_refl) as Hk'.
  destruct Hi as [I1 I2 I3 I4 I5 I6 I7 I8 I9]. split; wsimp; [exact Hk'|done..|]. unfold cv_queue. wsimp. by rewrite (bc_queue _ _ Hk).
Qed.

(** ** [AddEntry] and [RemoveEntry] *)

Lemma create_entry_ok s e watched cookie :
  wsinv s → e ≠ 0%nat → ents s !! e = None → wsinv (with_world s (put_entry (world_ s) e (new_entry watched cookie))).
Proof.
  intros Hi He0 He. destruct (wi_list _ Hi) as [Hnd Hnum].
  assert (Hl : ∀ ck, entries_ (the_set s) !! ck ≠ Some e) by (intros ck Hc; destruct (wi_listed _ Hi ck e Hc) as (en & ? & _); congruence).
  assert (Ht : e ∉ triggered_entries_ (the_set s)) by (intros Hx; destruct (wi_triggered _ Hi e Hx); congruence).
  assert (Hk : e ∉ linked s) by (intros Hx; destruct (wi_linked _ Hi e Hx); congruence).
  assert (Htk : taken s !! e = None) by (destruct (taken s !! e) eqn:E; [|done]; destruct (wi_taken _ Hi e ltac:(eauto)); congruence).
  apply (wsinv_change e s); wsimp; try done.
  - split; wsimp; [intros x Hx; by rewrite lookup_insert_ne|done..].
  - keep_kern Hi.
  - rewrite lookup_insert_eq. split; [done|]. split; [|intros ck Hc; by destruct (Hl ck)]. unfold entry_ok. wsimp. cbn. split_and!; done.
  - apply (wi_size _ Hi).
  - apply (wi_sleep _ Hi).
Qed.

(** An entry that is refused is gone. *)
Lemma drop_entry_ok s e en :
  wsinv s → ents s !! e = Some en → en_state en = UNINITIALIZED → wsinv (with_world s (mk_ws (ws_kern (world_ s)) (the_set s) (delete e (ents s)))).
Proof.
  intros Hi He Est. destruct (wi_ok _ Hi e en He) as (_ & _ & Hok). rewrite Est in Hok. destruct Hok as (_ & Hl & Ht & Hk & Htk). destruct (wi_list _ Hi) as [Hnd Hnum]. apply (wsinv_change e s); wsimp; try done.
  - split; wsimp; [intros x Hx; by rewrite lookup_delete_ne|done..].
  - keep_kern Hi.
  - rewrite lookup_delete_eq. split; [|done]. intros ck Hc. apply Hl. by rewrite (listed_cookie s e en ck Hi He Hc).
  - apply (wi_size _ Hi).
  - apply (wi_sleep _ Hi).
Qed.

Lemma insert_entry_ok s e en handle object tracker :
  wsinv s → ents s !! e = Some en → en_state en = UNINITIALIZED → Z.of_nat (size (entries_ (the_set s))) + 1 < 2 ^ 32 →
  ∃ r w', AddEntry_insert (world_ s) e handle object tracker = Some (r, w') ∧ wsinv (with_world s w') ∧
    (r = NO_ERROR ↔ (∃ tr, tracker = Some tr ∧ is_waitable_ tr = true) ∧ entries_ (the_set s) !! en_cookie en = None) ∧
    (r = NO_ERROR → ∃ en', ws_entries w' !! e = Some en' ∧ en_state en' = ADD_PENDING ∧ entries_ (ws_set w') = <[en_cookie en := e]> (entries_ (the_set s))).
Proof.
  intros Hi He Est Hsz. pose proof (drop_entry_ok s e en Hi He Est) as Hdrop. unfold AddEntry_insert. destruct tracker as [tr|].
  2: { eexists _, _. split; [done|]. split; [done|]. split; [|done]. split; [done|]. intros [(tr & [=] & _) _]. }
  destruct (is_waitable_ tr) eqn:Ew; cbn [negb].
  2: { eexists _, _. split; [done|]. split; [done|]. split; [|done]. split; [done|]. intros [(tr' & [= <-] & ?) _]. congruence. }
  rewrite He. cbn [mbind option_bind]. case_bool_decide as Ein.
  { eexists _, _. split; [done|]. split; [done|]. split; [|done]. split; [done|]. intros [_ Hn]. rewrite Hn in Ein. by destruct Ein. }
  apply eq_None_not_Some in Ein. destruct (wi_ok _ Hi e en He) as (He0 & _ & Hok). rewrite Est in Hok. destruct Hok as (Enew & Hl & Ht & Hk & Htk). unfold Init_NoLock. rewrite bool_decide_eq_true_2 by done. rewrite Enew. cbn [en_owned en_handle en_object new_entry negb].
  rewrite !bool_decide_eq_true_2 by done. cbn [mbind option_bind]. eexists _, _. split; [done|]. split; [|split; [split; [eauto|done]|]].
  - destruct (wi_list _ Hi) as [Hnd Hnum]. apply (wsinv_change e s); wsimp; try done.
    + split; wsimp; [intros x Hx; by rewrite lookup_insert_ne| |done..]. intros x ck Hx. cbn. rewrite lookup_insert_Some. split; [intros [[_ ?]|[_ ?]]; [congruence|done]|]. intros Hc. right. split; [|done]. intros <-. congruence.
    + keep_kern Hi.
    + rewrite lookup_insert_eq. split; [done|]. unfold entry_ok. wsimp. cbn. rewrite lookup_insert_eq. split; [split_and!; eauto; done|]. intros ck. rewrite lookup_insert_Some. intros [[? _]|[_ Hc]]; [done|]. destruct Hl. by rewrite (listed_cookie s e en ck Hi He Hc).
    + cbn. rewrite map_size_insert_None by done. lia.
    + apply (wi_sleep _ Hi).
  - intros _. wsimp. rewrite lookup_insert_eq. eauto.
Qed.

Context (thread_yield : K → nat → option K).

(** The rest of [AddEntry] succeeds: the tracker links the entry. *)
Lemma observe_ok s c t e en tr :
  wsinv s → krunning (ws_kern (world_ s)) c t → ents s !! e = Some en → en_state en = ADD_PENDING →
  ∃ w', AddEntry_observe thread_yield (world_ s) c e tr = Some (NO_ERROR, w', mk_tracker (is_waitable_ tr) (e :: observers_ tr) (signals_state_ tr)) ∧ wsinv (link_entry s w' e).
Proof.
  intros Hi Hr He Est. destruct (initialize_ok s c t e en (signals_state_ tr) Hi Hr He Est) as (w' & E & Hi'). exists w'. split; [|done]. destruct (wi_ok _ Hi e en He) as [He0 _].
  unfold AddEntry_observe, AddObserver. cbn [OnInitialize wait_set_observer]. rewrite bool_decide_eq_false_2 by done. by rewrite E.
Qed.

(** An entry of state [ADDED] leaves the set. *)
Lemma taken_inv s e en d' :
  wsinv s → ents s !! e = Some en → en_state en = ADDED →
  (if is_triggered_ en then untrigger (the_set s) e else Some (the_set s)) = Some d' →
  wsinv (mk_config (mk_ws (ws_kern (world_ s)) (set_entries d' (delete (en_cookie en) (entries_ d'))) (<[e := set_state en REMOVED]> (ents s))) (linked s) (<[e := en_object en]> (taken s)) (sleepers s)).
Proof.
  intros Hi He Est Hd. destruct (wi_ok _ Hi e en He) as (_ & Hho & Hok). rewrite Est in Hok. destruct Hok as (Hl & Ht & Htr & Hlk & Htk).
  assert (Hdel : ∀ x ck, x ≠ e → delete (en_cookie en) (entries_ (the_set s)) !! ck = Some x ↔ entries_ (the_set s) !! ck = Some x).
  { intros x ck Hx. rewrite lookup_delete_Some. split; [tauto|]. intros Hc. split; [|done]. intros <-. congruence. }
  assert (Hgone : delete (en_cookie en) (entries_ (the_set s)) !! en_cookie en ≠ Some e) by (by rewrite lookup_delete_eq).
  assert (Hsz : (size (delete (en_cookie en) (entries_ (the_set s))) ≤ size (entries_ (the_set s)))%nat) by (rewrite map_size_delete, Hl; cbn; lia).
  destruct (is_triggered_ en) eqn:Etr.
  - rewrite untrigger_ok in Hd by (done || by apply Htr). injection Hd as <-. wsimp. apply (untriggered_inv s e en); try done; [by apply Htr|intros ck Hc; by apply lookup_delete_Some in Hc as [_ ?]|by intros x Hx; rewrite lookup_insert_ne|].
    unfold entry_ok. wsimp. rewrite lookup_insert_eq. split_and!; try done. rewrite list_elem_of_filter. tauto.
  - injection Hd as <-. destruct (wi_list _ Hi) as [Hnd Hnum]. apply (wsinv_change e s); wsimp; try done.
    + split; wsimp; [intros x Hx; by rewrite lookup_insert_ne|done|done|done|intros x Hx; by rewrite lookup_insert_ne].
    + keep_kern Hi.
    + rewrite lookup_insert_eq. split; [by apply (wi_ok _ Hi e en He)|]. split; [|intros ck Hc; apply lookup_delete_Some in Hc as [_ Hc]; by apply (listed_cookie s e en ck Hi He)].
      unfold entry_ok. wsimp. rewrite lookup_insert_eq. split_and!; try done. intros Hx. by apply Htr in Hx.
    + pose proof (wi_size _ Hi). lia.
    + apply (wi_sleep _ Hi).
Qed.

(** [RemoveEntry] under the mutex: an entry that is being added stays. *)
Lemma take_ok s cookie :
  wsinv s →
  match entries_ (the_set s) !! cookie with
  | None => RemoveEntry_take (world_ s) cookie = Some (ERR_NOT_FOUND, None, world_ s)
  | Some e => ∃ en, ents s !! e = Some en ∧
    ((en_state en = ADD_PENDING ∧ RemoveEntry_take (world_ s) cookie = Some (NO_ERROR, None, world_ s)) ∨
     (en_state en = ADDED ∧ ∃ w', RemoveEntry_take (world_ s) cookie = Some (NO_ERROR, Some (e, en_object en), w') ∧
        wsinv (mk_config w' (linked s) (<[e := en_object en]> (taken s)) (sleepers s))))
  end.
Proof.
  intros Hi. unfold RemoveEntry_take. destruct (entries_ (the_set s) !! cookie) as [e|] eqn:Hc; [|done]. destruct (wi_listed _ Hi cookie e Hc) as (en & He & <-). exists en. split; [done|]. rewrite He. cbn [mbind option_bind].
  destruct (wi_ok _ Hi e en He) as (_ & _ & Hok). destruct (en_state en) eqn:Est; [by destruct Hok as (_ & ? & _)| | |by destruct Hok as (? & _)].
  - left. split; [done|]. destruct Hok as (_ & -> & _). cbn [mbind option_bind]. rewrite bool_decide_eq_true_2 by done. by destruct (world_ s).
  - right. split; [done|]. destruct (if is_triggered_ en then untrigger _ _ else _) as [d'|] eqn:Hd.
    + cbn [mbind option_bind]. rewrite bool_decide_eq_false_2, bool_decide_eq_true_2 by done. eexists. split; [done|]. by apply taken_inv.
    + destruct Hok as (_ & _ & Htr & _). destruct (is_triggered_ en); [|done]. rewrite untrigger_ok in Hd by (done || by apply Htr). done.
Qed.

(** The rest of [RemoveEntry]: the tracker of the object has the entry, if there is
    an object, and gives it up before the entry is destroyed. *)
Lemma finish_ok s e object tracker w' tracker' :
  wsinv s → taken s !! e = Some object → RemoveEntry_observe (world_ s) e tracker = Some (w', tracker') →
  (e ∈ linked s ↔ is_Some object) ∧ wsinv (mk_config w' (linked s ∖ {[e]}) (delete e (taken s)) (sleepers s)).
Proof.
  intros Hi Htk E. destruct (wi_taken _ Hi e ltac:(eauto)) as [en He]. destruct (wi_ok _ Hi e en He) as (He0 & Hho & Hok).
  assert (Ew : w' = mk_ws (ws_kern (world_ s)) (the_set s) (delete e (ents s))).
  { unfold RemoveEntry_observe in E. destruct tracker as [tr|]; [|congruence]. destruct (RemoveObserver tr e) as [[? ?]|]; cbn [mbind option_bind] in E; congruence. }
  destruct (en_state en); [by destruct Hok as (_ & _ & _ & _ & ?); simplify_eq|by destruct Hok as (_ & _ & _ & _ & _ & ?); simplify_eq|by destruct Hok as (_ & _ & _ & _ & ?); simplify_eq|].
  destruct Hok as (Hl & Ht & Hlk & Htk'). rewrite Htk in Htk'. injection Htk' as ->. split; [done|]. subst w'. destruct (wi_list _ Hi) as [Hnd Hnum]. apply (wsinv_change e s); wsimp; try done.
  - split; wsimp; [intros x Hx; by rewrite lookup_delete_ne|done|done|set_solver|intros x Hx; by rewrite lookup_delete_ne].
  - keep_kern Hi.
  - rewrite !lookup_delete_eq. split; [|split; [done|split; [set_solver|done]]]. intros ck Hc. apply Hl. by rewrite (listed_cookie s e en ck Hi He Hc).
  - apply (wi_size _ Hi).
  - apply (wi_sleep _ Hi).
Qed.

(** ** Waits *)

Definition asleep (s : config) (w : wsworld K) (t : nat) (p : Z * Z) : config := mk_config w (linked s) (taken s) (<[t := p]> (sleepers s)).
Definition awake (s : config) (w : wsworld K) (t : nat) : config := mk_config w (linked s) (taken s) (delete t (sleepers s)).

(** The status at the end of the sleep, which [Wait] turns into an answer. *)
Definition settled (s : config) (deadline st : Z) : Prop :=
  (st = NO_ERROR ∨ st = ERR_TIMED_OUT ∨ st = ERR_INTERRUPTED) ∧ (st = ERR_TIMED_OUT → deadline ≠ INFINITE_TIME) ∧
  (st = NO_ERROR → triggered_entries_ (the_set s) ≠ [] ∨ cancelled_ (the_set s) = true).

Lemma none_triggered s : wsinv s → (num_triggered_entries_ (the_set s) =? 0) = bool_decide (triggered_entries_ (the_set s) = []).
Proof. intros Hi. destruct (wi_list _ Hi) as [_ ->]. by destruct (triggered_entries_ (the_set s)). Qed.

(** The kernel changes, with the waiting threads: the queue of the condition variable
    may be shorter. *)
Lemma kernel_inv s k' sl :
  wsinv s → kern_ok (mk_config (put_kern (world_ s) k') (linked s) (taken s) sl) →
  (kwaiters k' (c_wait (cv_ (the_set s))) ≠ [] → cv_queue s ≠ [] ∨ (triggered_entries_ (the_set s) = [] ∧ cancelled_ (the_set s) = false)) →
  wsinv (mk_config (put_kern (world_ s) k') (linked s) (taken s) sl).
Proof.
  intros [I1 I2 I3 I4 I5 I6 I7 I8 I9] Hk Hq. split; try done. unfold cv_queue. wsimp. intros Hx. destruct (Hq Hx) as [?|?]; [by apply I9|done].
Qed.

Lemma cv_block_ok s c t deadline now :
  wsinv s → krunning (ws_kern (world_ s)) c t → triggered_entries_ (the_set s) = [] → cancelled_ (the_set s) = false →
  ∃ slept r, cv_block (world_ s) c deadline now = Some (slept, r) ∧
    match r with
    | Done st w' => w' = world_ s ∧ st = ERR_TIMED_OUT ∧ deadline ≠ INFINITE_TIME
    | Wait w' => wsinv (asleep s w' t (deadline, slept))
    end.
Proof.
  intros Hi Hr Ht Hc. destruct (wi_kern _ Hi) as [Hk Hq Hm Hw Hs]. unfold cv_block. rewrite Hm, Z.eqb_refl.
  set (timeout := if deadline =? INFINITE_TIME then INFINITE_TIME else u32 (deadline - now)).
  assert (Hinf : deadline = INFINITE_TIME → timeout = INFINITE_TIME) by (intros ->; unfold timeout; by rewrite Z.eqb_refl). clearbody timeout.
  destruct (decide (timeout = 0)) as [->|Hne].
  - rewrite (block_zero _ c t) by done. cbn [mbind option_bind]. eexists _, _. split; [done|]. split; [by destruct (world_ s)|]. split; [done|]. intros E. by specialize (Hinf E).
  - destruct (block_law _ c t _ timeout Hk Hq Hr Hne) as (k' & -> & Hch). cbn [mbind option_bind]. eexists _, _. split; [done|]. cbv beta iota. apply kernel_inv; [done| |auto].
    split; wsimp; [by eapply changed_ok|by eapply changed_wq|done|done|]. intros x p. rewrite (changed_status _ _ _ _ _ x Hch). unfold with_status. rewrite lookup_insert_Some. intros [[<- <-]|[Hx Hp]].
    + rewrite decide_True by done. split; [done|by left].
    + rewrite decide_False by done. eauto.
Qed.

Lemma check_ok s c t deadline now st :
  wsinv s → krunning (ws_kern (world_ s)) c t → st = NO_ERROR ∨ (st = ERR_TIMED_OUT ∧ deadline ≠ INFINITE_TIME) ∨ st = ERR_INTERRUPTED →
  ∃ slept r, DoWait_check (world_ s) c deadline now st = Some (slept, r) ∧
    match r with
    | Done st' w' => w' = world_ s ∧ settled s deadline st'
    | Wait w' => wsinv (asleep s w' t (deadline, slept)) ∧ triggered_entries_ (the_set s) = [] ∧ cancelled_ (the_set s) = false
    end.
Proof.
  intros Hi Hr Hst. unfold DoWait_check. rewrite (none_triggered s Hi). destruct (_ || _ || _) eqn:E.
  - eexists _, _. split; [done|]. split; [done|]. split; [tauto|]. split; [intros ->; destruct Hst as [?|[[_ ?]|?]]; done|]. intros ->. change (negb (NO_ERROR =? NO_ERROR)) with false in E. rewrite orb_false_r in E. apply orb_true_iff in E as [E|E]; [left|by right]. by apply negb_true_iff, bool_decide_eq_false in E.
  - apply orb_false_iff in E as [[E1 E2]%orb_false_iff E3]. apply negb_false_iff in E1, E3. apply bool_decide_eq_true in E1. apply Z.eqb_eq in E3. subst st. destruct (_ && _) eqn:E4.
    + eexists _, _. split; [done|]. split; [done|]. split; [tauto|]. split; [|done]. intros _ ->. rewrite Z.eqb_refl in E4. done.
    + destruct (cv_block_ok s c t deadline now Hi Hr E1 E2) as (slept & r & E & Hres). exists slept, r. split; [done|]. destruct r as [st' w'|w']; [|done]. destruct Hres as (-> & -> & Hd). split; [done|]. split; [tauto|]. by split.
Qed.

(** A wait starts. *)
Lemma wait_begin_ok s c t timeout now :
  wsinv s → krunning (ws_kern (world_ s)) c t →
  ∃ slept r, Wait_begin (world_ s) c timeout now = Some (slept, r) ∧
    match r with
    | Done st w' => w' = world_ s ∧ settled s (wait_deadline timeout now) st
    | Wait w' => wsinv (asleep s w' t (wait_deadline timeout now, slept)) ∧ triggered_entries_ (the_set s) = [] ∧ cancelled_ (the_set s) = false
    end.
Proof.
  intros Hi Hr. unfold Wait_begin. rewrite (none_triggered s Hi). destruct (bool_decide _ && _) eqn:E.
  - apply andb_true_iff in E as [E1%bool_decide_eq_true E2%negb_true_iff]. destruct (cv_block_ok s c t (wait_deadline timeout now) now Hi Hr E1 E2) as (slept & r & -> & Hres). cbn [mbind option_bind].
    destruct r as [st w'|w']; [|by eexists _, _]. destruct Hres as (-> & -> & Hd). apply check_ok; [done|done|auto].
  - eexists _, _. split; [done|]. split; [done|]. split; [by left|]. split; [done|]. intros _. apply andb_false_iff in E as [E%bool_decide_eq_false|E%negb_false_iff]; auto.
Qed.

(** A thread that slept goes on. *)
Lemma wait_resume_ok s c t deadline slept now :
  wsinv s → krunning (ws_kern (world_ s)) c t → sleepers s !! t = Some (deadline, slept) →
  ∃ slept' r, Wait_resume (world_ s) c t deadline slept now = Some (slept', r) ∧
    match r with
    | Done st w' => wsinv (awake s w' t) ∧ settled (awake s w' t) deadline st
    | Wait w' => wsinv (asleep (awake s w' t) w' t (deadline, slept')) ∧ triggered_entries_ (ws_set w') = [] ∧ cancelled_ (ws_set w') = false
    end.
Proof.
  intros Hi Hr Hsl. destruct (wi_kern _ Hi) as [Hk Hq Hm Hw Hs]. unfold Wait_resume. destruct (resume_law _ c t (c_wait (cv_ (the_set s))) slept Hk Hr) as (k1 & E & Hch). rewrite E. cbn [mbind option_bind]. pose proof (resume_running _ _ _ _ _ _ _ Hr E) as Hr1.
  set (s1 := awake s (put_kern (world_ s) k1) t). assert (Hi1 : wsinv s1).
  { apply kernel_inv; [done| |intros Hx; left; unfold cv_queue; by rewrite (changed_waiters _ _ _ _ _ Hch) in Hx]. split; wsimp; [by eapply changed_ok|by eapply changed_wq|done|done|].
    intros x p [_ Hp]%lookup_delete_Some. rewrite (changed_status _ _ _ _ _ x Hch). eauto. }
  destruct (Hs t _ Hsl) as [Hd Hst]. destruct (check_ok s1 c t deadline now (kstatus (ws_kern (world_ s)) t) Hi1 Hr1) as (slept' & r & E' & Hres).
  { cbn in *. destruct Hst as [?|[[? ?]|?]]; [by left|right; left; split; [done|tauto]|tauto]. }
  exists slept', r. split; [exact E'|]. destruct r as [st w'|w'].
  - destruct Hres as [-> Hset]. by split.
  - destruct Hres as (Hi2 & Ht & Hc).
    assert (Hd' : ws_set w' = the_set s1) by (unfold DoWait_check, cv_block in E'; repeat case_match; simplify_eq; destruct (wq_block _ _ _ _) as [[]|]; cbn [mbind option_bind] in *; simplify_eq; done).
    rewrite Hd'. split; [exact Hi2|by split].
Qed.

(** What is reported of an entry. *)
Definition report (en : Entry) : mx_wait_set_result :=
  if bool_decide (en_handle en = None) then mk_result (en_cookie en) ERR_CANCELLED (mk_signals 0 0)
  else mk_result (en_cookie en) (if Z.land (en_watched en) (satisfied (en_signals en)) =? 0 then ERR_BAD_STATE else NO_ERROR) (en_signals en).

(** The answer of a wait with status [st]: an interruption, a closed handle, the first
    entries that are triggered, or a timeout, in this order. *)
Definition answers (s : config) (st num max : Z) (a : answer) : Prop :=
  let l := triggered_entries_ (the_set s) in
  if st =? ERR_INTERRUPTED then a = mk_answer ERR_INTERRUPTED [] num max
  else if cancelled_ (the_set s) then a = mk_answer ERR_CANCELLED [] num max
  else if bool_decide (l = []) then a = mk_answer ERR_TIMED_OUT [] num max
  else a_status a = NO_ERROR ∧ a_num a = Z.min num (Z.of_nat (length l)) ∧ a_max a = Z.of_nat (length l) ∧
    Forall2 (λ e r, ∃ en, ents s !! e = Some en ∧ en_state en = ADDED ∧ r = report en) (take (Z.to_nat num) l) (a_results a).

Lemma triggered_reportable s e : wsinv s → e ∈ triggered_entries_ (the_set s) → ∃ en, ents s !! e = Some en ∧ en_state en = ADDED ∧ reportable en = true.
Proof.
  intros Hi He. destruct (triggered_listed s e Hi He) as (en & Hen & Est & _). exists en. split; [done|]. split; [done|]. destruct (wi_ok _ Hi e en Hen) as (_ & _ & Hok). rewrite Est in Hok. destruct Hok as (_ & <- & Ht & _). by apply Ht.
Qed.

Lemma result_of_ok en : reportable en = true → result_of en = Some (report en).
Proof.
  unfold reportable, satisfied_or_never, result_of, report. destruct (en_handle en) as [h|]; [|done]. rewrite (bool_decide_eq_true_2 (is_Some _)) by eauto. rewrite !bool_decide_eq_false_2 by done. cbn [orb]. rewrite (Z.land_comm (satisfied _)), (Z.land_comm (satisfiable _)).
  destruct (Z.land (en_watched en) (satisfied (en_signals en)) =? 0); [|done]. cbn [negb orb]. by intros ->.
Qed.

Lemma collect_ok s n : ∀ l, wsinv s → (n ≤ length l)%nat → (∀ e, e ∈ l → e ∈ triggered_entries_ (the_set s)) →
  ∃ rs, collect n (world_ s) l = Some rs ∧ Forall2 (λ e r, ∃ en, ents s !! e = Some en ∧ en_state en = ADDED ∧ r = report en) (take n l) rs.
Proof.
  induction n as [|n IH]; intros l Hi Hn Hl; [by exists []; split; [|constructor]|]. destruct l as [|e l]; [cbn in Hn; lia|]. cbn [collect take].
  destruct (triggered_reportable s e Hi ltac:(apply Hl; by left)) as (en & He & Est & Hrep). rewrite He. cbn [mbind option_bind]. rewrite (result_of_ok en Hrep). cbn [mbind option_bind].
  destruct (IH l Hi ltac:(cbn in Hn; lia)) as (rs & -> & Hrs); [intros x Hx; apply Hl; by right|]. eexists. split; [done|]. constructor; [eauto|done].
Qed.

(** The end of [Wait]. *)
Lemma wait_finish_ok s deadline st num max :
  wsinv s → settled s deadline st → 0 ≤ num → ∃ a, Wait_finish (world_ s) st num max = Some a ∧ answers s st num max a ∧ (a_status a = ERR_TIMED_OUT → deadline ≠ INFINITE_TIME).
Proof.
  intros Hi (Hst & Hto & Hno) Hnum. unfold Wait_finish, answers. rewrite (none_triggered s Hi). destruct (wi_list _ Hi) as [_ Hlen]. rewrite Hlen. destruct Hst as [->|[->| ->]].
  3: { eexists. split; [done|]. by split. }
  all: cbn [Z.eqb negb andb]; destruct (cancelled_ (the_set s)) eqn:Ec; [eexists; split; [done|]; by split|].
  all: case_bool_decide as Et.
  1: by destruct (Hno eq_refl).
  2: { eexists. split; [done|]. split; [done|]. intros _. by apply Hto. }
  all: set (l := triggered_entries_ (the_set s)) in *.
  all: destruct (collect_ok s (Z.to_nat (Z.min num (Z.of_nat (length l)))) l Hi ltac:(lia) ltac:(done)) as (rs & E & Hrs).
  all: replace (if Z.of_nat (length l) <? num then Z.of_nat (length l) else num) with (Z.min num (Z.of_nat (length l))) by (destruct (Z.ltb_spec (Z.of_nat (length l)) num); lia).
  all: rewrite E; cbn [mbind option_bind]; eexists; split; [done|]; split; [|done]; split; [done|]; split; [done|]; split; [done|].
  all: cbn [a_results]; destruct (Z.le_gt_cases num (Z.of_nat (length l))); [by rewrite Z.min_l in Hrs|].
  all: rewrite Z.min_r in Hrs by lia; rewrite Nat2Z.id, firstn_all in Hrs; by rewrite take_ge by lia.
Qed.

(** ** Destruction *)

Lemma remove_all_ok l : ∀ es : gmap nat Entry, NoDup l → (∀ e, e ∈ l → ∃ en, es !! e = Some en ∧ en_state en = ADDED) →
  ∃ es', remove_all l es = Some es' ∧ ∀ x, es' !! x = if decide (x ∈ l) then (λ en, set_state en REMOVED) <$> es !! x else es !! x.
Proof.
  induction l as [|e l IH]; intros es Hnd Hl; [by exists es|]. apply list.NoDup_cons in Hnd as [Hn Hnd]. cbn [remove_all]. destruct (Hl e) as (en & He & Est); [by left|]. rewrite He. cbn [mbind option_bind]. rewrite bool_decide_eq_true_2 by done.
  destruct (IH (<[e := set_state en REMOVED]> es) Hnd) as (es' & E & Hes).
  { intros x Hx. rewrite lookup_insert_ne by (intros <-; done). apply Hl. by right. }
  exists es'. split; [done|]. intros x. rewrite Hes. destruct (decide (x = e)) as [->|Hx].
  - rewrite lookup_insert_eq. rewrite decide_False by done. rewrite decide_True by (by left). by rewrite He.
  - rewrite lookup_insert_ne by done. apply decide_ext. rewrite elem_of_cons. tauto.
Qed.

(** The entry [e] is one of [l], and its object is [o]. *)
Definition of_object (s : wsworld K) (l : list nat) (o e : nat) : Prop := e ∈ l ∧ ws_entries s !! e ≫= en_object = Some o.
#[local] Instance of_object_dec s l o e : Decision (of_object s l o e).
Proof. unfold of_object. apply _. Defined.

Definition pruned (s : wsworld K) (l : list nat) (o : nat) (tr : StateTracker) : StateTracker :=
  mk_tracker (is_waitable_ tr) (filter (λ e, ¬ of_object s l o e) (observers_ tr)) (signals_state_ tr).

Lemma pruned_nil s o tr : pruned s [] o tr = tr.
Proof.
  destruct tr as [wt obs sg]. unfold pruned. cbn. f_equal. induction obs as [|x obs IH]; [done|]. rewrite filter_cons_True, IH; [done|]. intros [Hx _]. by apply not_elem_of_nil in Hx.
Qed.

Lemma destroy_observe_ok w l : ∀ trackers, NoDup l →
  (∀ e, e ∈ l → ∃ en, ws_entries w !! e = Some en ∧ en_state en = REMOVED ∧ ∀ o, en_object en = Some o → ∃ tr, trackers !! o = Some tr ∧ e ∈ observers_ tr) →
  ∃ trackers', destroy_observe w l trackers = Some trackers' ∧ ∀ o, trackers' !! o = pruned w l o <$> trackers !! o.
Proof.
  induction l as [|e l IH]; intros trackers Hnd Hl.
  { exists trackers. split; [done|]. intros o. destruct (trackers !! o) as [tr|]; [|done]. cbn. by rewrite pruned_nil. }
  apply list.NoDup_cons in Hnd as [Hn Hnd]. cbn [destroy_observe]. destruct (Hl e) as (en & He & Est & Hob); [by left|]. rewrite He. cbn [mbind option_bind]. rewrite bool_decide_eq_true_2 by done.
  assert (Hcons : ∀ o x, of_object w (e :: l) o x ↔ (x = e ∧ en_object en = Some o) ∨ of_object w l o x).
  { intros o x. unfold of_object. rewrite elem_of_cons. destruct (decide (x = e)) as [->|]; [rewrite He; cbn|]; tauto. }
  destruct (en_object en) as [o|] eqn:Eo.
  - destruct (Hob o eq_refl) as (tr & Htr & Hin). rewrite Htr. cbn [mbind option_bind]. unfold RemoveObserver. rewrite bool_decide_eq_true_2 by done. cbn [mbind option_bind]. set (tr1 := mk_tracker _ _ _).
    destruct (IH (<[o := tr1]> trackers) Hnd) as (trackers' & E & Hts).
    { intros x Hx. destruct (Hl x) as (enx & Hex & Estx & Hobx); [by right|]. exists enx. split; [done|]. split; [done|]. intros o' Ho'. destruct (Hobx o' Ho') as (tr' & Htr' & Hin'). destruct (decide (o' = o)) as [->|Hne].
      - exists tr1. rewrite lookup_insert_eq. split; [done|]. rewrite Htr in Htr'. injection Htr' as <-. apply list_elem_of_filter. split; [|done]. intros ->. done.
      - exists tr'. by rewrite lookup_insert_ne. }
    exists trackers'. split; [done|]. intros o'. rewrite Hts. destruct (decide (o' = o)) as [->|Hne].
    + rewrite lookup_insert_eq, Htr. cbn. f_equal. unfold pruned, tr1. cbn. f_equal. rewrite list_filter_filter. apply list_filter_iff. intros x. rewrite Hcons. split; [intros [H1' H2'] [[? _]|?]; done|intros Hx; split; [tauto|intros ->; apply Hx; by left]].
    + rewrite lookup_insert_ne by done. destruct (trackers !! o') as [tr'|]; [|done]. cbn. f_equal. unfold pruned. f_equal. apply list_filter_iff. intros x. rewrite Hcons. split; [intros Hx [[_ [=]]|?]; [congruence|done]|tauto].
  - destruct (IH trackers Hnd) as (trackers' & E & Hts); [intros x Hx; apply Hl; by right|]. exists trackers'. split; [done|]. intros o'. rewrite Hts. destruct (trackers !! o') as [tr'|]; [|done]. cbn. f_equal. unfold pruned. f_equal. apply list_filter_iff. intros x. rewrite Hcons. split; [intros Hx [[_ [=]]|?]; done|tauto].
Qed.

Lemma listed_nodup s : wsinv s → NoDup (map_to_list (entries_ (the_set s))).*2.
Proof.
  intros Hi. apply NoDup_fmap_2_strong; [|apply NoDup_map_to_list]. intros [ck e] [ck' e'] Hx%elem_of_map_to_list Hy%elem_of_map_to_list. cbn. intros <-.
  destruct (wi_listed _ Hi ck e Hx) as (en & He & <-). f_equal. symmetry. by rewrite (listed_cookie s e en ck' Hi He).
Qed.

(** When no thread adds or removes an entry, the set can be destroyed, and no tracker
    keeps one of its entries. *)
Lemma destroy_set_ok s c own trackers :
  wsinv s → (∀ ck e en, entries_ (the_set s) !! ck = Some e → ents s !! e = Some en → en_state en ≠ ADD_PENDING) → 0%nat ∈ observers_ own →
  (∀ ck e en o, entries_ (the_set s) !! ck = Some e → ents s !! e = Some en → en_object en = Some o → ∃ tr, trackers !! o = Some tr ∧ e ∈ observers_ tr) →
  ∃ own' trackers', WaitSet_destroy (world_ s) c own trackers = ('(_, r) ← cond_destroy (ws_kern (world_ s)) c (cv_ (the_set s)); Some (r, own', trackers')) ∧
    0%nat ∉ observers_ own' ∧
    ∀ o tr', trackers' !! o = Some tr' → ∃ tr, trackers !! o = Some tr ∧ ∀ e, e ∈ observers_ tr' ↔ e ∈ observers_ tr ∧ ¬ ∃ ck en, entries_ (the_set s) !! ck = Some e ∧ ents s !! e = Some en ∧ en_object en = Some o.
Proof.
  intros Hi Hadd Hown Htr. set (l := (map_to_list (entries_ (the_set s))).*2).
  assert (Hl : ∀ e, e ∈ l ↔ ∃ ck, entries_ (the_set s) !! ck = Some e).
  { intros e. unfold l. rewrite list_elem_of_fmap. split; [intros ([ck e'] & -> & Hx%elem_of_map_to_list); eauto|intros [ck Hx]; exists (ck, e); split; [done|by apply elem_of_map_to_list]]. }
  destruct (remove_all_ok l (ents s) (listed_nodup s Hi)) as (es' & E1 & Hes).
  { intros e [ck Hck]%Hl. destruct (wi_listed _ Hi ck e Hck) as (en & He & <-). exists en. split; [done|]. destruct (wi_ok _ Hi e en He) as (_ & _ & Hok). pose proof (Hadd _ _ _ Hck He). destruct (en_state en); [by destruct Hok as (_ & ? & _)|done|done|by destruct Hok as (? & _)]. }
  set (s1 := mk_ws (ws_kern (world_ s)) (set_list (the_set s) [] (num_triggered_entries_ (the_set s))) es').
  destruct (destroy_observe_ok s1 l trackers (listed_nodup s Hi)) as (trackers' & E2 & Hts).
  { intros e He. pose proof He as [ck Hck]%Hl. destruct (wi_listed _ Hi ck e Hck) as (en & Hen & <-). exists (set_state en REMOVED). cbn. rewrite Hes, decide_True, Hen by done. split; [done|]. split; [done|]. intros o Ho. by eapply Htr. }
  eexists _, trackers'. split; [|split; [|]].
  - unfold WaitSet_destroy, destroy_lock. fold l. rewrite E1. cbn [mbind option_bind]. fold s1. rewrite E2. cbn [mbind option_bind]. unfold RemoveObserver. rewrite bool_decide_eq_true_2 by done. reflexivity.
  - cbn. rewrite list_elem_of_filter. tauto.
  - intros o tr'. rewrite Hts. destruct (trackers !! o) as [tr|]; [|done]. intros [= <-]. exists tr. split; [done|]. intros e. cbn. rewrite list_elem_of_filter. split; intros [A1 A2].
    + split; [done|]. intros (ck & en & Hck & He & Ho). apply A1. assert (Hle : e ∈ l) by (apply Hl; eauto). split; [done|]. cbn. by rewrite Hes, decide_True, He.
    + split; [|done]. intros [Hle Ho]. pose proof Hle as [ck Hck]%Hl. destruct (wi_listed _ Hi ck e Hck) as (en & He & _). apply A2. exists ck, en. cbn in Ho. rewrite Hes, decide_True, He in Ho by done. done.
Qed.

(** ** Sequences of steps *)

(** One locked section of a call, one call of a tracker, or a step of the kernel, which
    may take threads off the queue: a timeout, or an interruption.  A tracker that is
    told to removes the entry before another step is taken. *)
Inductive wstep (s : config) : config → Prop :=
| st_create e watched cookie :
    e ≠ 0%nat → ents s !! e = None → wstep s (with_world s (put_entry (world_ s) e (new_entry watched cookie)))
| st_insert e en handle object tracker r w' :
    ents s !! e = Some en → en_state en = UNINITIALIZED → Z.of_nat (size (entries_ (the_set s))) + 1 < 2 ^ 32 →
    AddEntry_insert (world_ s) e handle object tracker = Some (r, w') → wstep s (with_world s w')
| st_observe c t e en tr r w' tr' :
    krunning (ws_kern (world_ s)) c t → ents s !! e = Some en → en_state en = ADD_PENDING →
    AddEntry_observe thread_yield (world_ s) c e tr = Some (r, w', tr') → wstep s (link_entry s w' e)
| st_change c t e state b w' :
    krunning (ws_kern (world_ s)) c t → e ∈ linked s → Entry_OnStateChange (world_ s) c e state = Some (b, w') → wstep s (with_world s w')
| st_cancel c t e handle b (remove dc : bool) w' :
    krunning (ws_kern (world_ s)) c t → e ∈ linked s → Entry_OnCancel (world_ s) c e handle = Some (b, remove, dc, w') →
    wstep s (if remove then unlink_entry s w' e else with_world s w')
| st_cancel_set c t b remove dc w' :
    krunning (ws_kern (world_ s)) c t → WaitSet_OnCancel (world_ s) c = Some (b, remove, dc, w') → wstep s (with_world s w')
| st_take cookie r o w' :
    RemoveEntry_take (world_ s) cookie = Some (r, o, w') →
    wstep s (mk_config w' (linked s) (match o with Some (e, object) => <[e := object]> (taken s) | None => taken s end) (sleepers s))
| st_finish e object tracker w' tracker' :
    taken s !! e = Some object → (is_Some tracker ↔ is_Some object) → RemoveEntry_observe (world_ s) e tracker = Some (w', tracker') →
    wstep s (mk_config w' (linked s ∖ {[e]}) (delete e (taken s)) (sleepers s))
| st_wait c t timeout now slept r :
    krunning (ws_kern (world_ s)) c t → sleepers s !! t = None → Wait_begin (world_ s) c timeout now = Some (slept, r) →
    wstep s (match r with Done _ w' => with_world s w' | Wait w' => asleep s w' t (wait_deadline timeout now, slept) end)
| st_resume c t deadline slept now slept' r :
    krunning (ws_kern (world_ s)) c t → sleepers s !! t = Some (deadline, slept) → Wait_resume (world_ s) c t deadline slept now = Some (slept', r) →
    wstep s (match r with Done _ w' => awake s w' t | Wait w' => asleep (awake s w' t) w' t (deadline, slept') end)
| st_kernel k' :
    kok k' → kwq k' (c_wait (cv_ (the_set s))) → (∀ t, t ∈ kwaiters k' (c_wait (cv_ (the_set s))) → t ∈ cv_queue s) →
    (∀ t p, sleepers s !! t = Some p → kstatus k' t = kstatus (ws_kern (world_ s)) t ∨ (kstatus k' t = ERR_TIMED_OUT ∧ p.2 ≠ INFINITE_TIME) ∨ kstatus k' t = ERR_INTERRUPTED) →
    wstep s (with_world s (put_kern (world_ s) k')).

Inductive wreach : config → Prop :=
| wreach_init k c w s0 own :
    new_set thread_yield k c w = Some (s0, own) → kok (ws_kern s0) → kwq (ws_kern s0) w → kwaiters (ws_kern s0) w = [] → wreach (mk_config s0 ∅ ∅ ∅)
| wreach_step s s' : wreach s → wstep s s' → wreach s'.

Lemma init_ok k c w s0 own :
  new_set thread_yield k c w = Some (s0, own) → kok (ws_kern s0) → kwq (ws_kern s0) w → kwaiters (ws_kern s0) w = [] → wsinv (mk_config s0 ∅ ∅ ∅).
Proof.
  unfold new_set, cond_init, AddObserver. cbn. intros [= <- _] Hk Hq Hw. wsimp.
  split; wsimp; [by split|done|done|intros e He; by apply not_elem_of_nil in He|set_solver|by intros e [x Hx]|by split; [constructor|]|done|unfold cv_queue; wsimp; cbn; by rewrite Hw].
Qed.

Lemma kernel_step_ok s k' :
  wsinv s → kok k' → kwq k' (c_wait (cv_ (the_set s))) → (∀ t, t ∈ kwaiters k' (c_wait (cv_ (the_set s))) → t ∈ cv_queue s) →
  (∀ t p, sleepers s !! t = Some p → kstatus k' t = kstatus (ws_kern (world_ s)) t ∨ (kstatus k' t = ERR_TIMED_OUT ∧ p.2 ≠ INFINITE_TIME) ∨ kstatus k' t = ERR_INTERRUPTED) →
  wsinv (with_world s (put_kern (world_ s) k')).
Proof.
  intros Hi Hk Hq Hw Hst. destruct (wi_kern _ Hi) as [_ _ Hm Hc Hs]. apply kernel_inv; [done| |].
  - split; wsimp; try done. intros t p Hp. destruct (Hs t p Hp) as [? Hold]. split; [done|]. destruct (Hst t p Hp) as [->|[?|?]]; auto.
  - intros Hne. left. destruct (kwaiters k' _) as [|t l]; [done|]. intros E. specialize (Hw t ltac:(by left)). rewrite E in Hw. by apply not_elem_of_nil in Hw.
Qed.

Lemma wstep_inv s s' : wsinv s → wstep s s' → wsinv s'.
Proof.
  intros Hi. destruct 1 as [e watched cookie He0 He|e en handle object tracker r w' He Est Hsz E|c t e en tr r w' tr' Hr He Est E|c t e state b w' Hr Hlk E|c t e handle b rm dc w' Hr Hlk E|c t b rm dc w' Hr E|cookie r o w' E|e object tracker w' tracker' Htk _ E|c t timeout now slept r Hr Hsl E|c t deadline slept now slept' r Hr Hsl E|k' Hk Hq Hw Hst].
  - by apply create_entry_ok.
  - destruct (insert_entry_ok s e en handle object tracker Hi He Est Hsz) as (r' & w1 & E' & Hi' & _). rewrite E' in E. by simplify_eq.
  - destruct (observe_ok s c t e en tr Hi Hr He Est) as (w1 & E' & Hi'). rewrite E' in E. by simplify_eq.
  - destruct (state_change_ok s c t e state Hi Hr Hlk) as (w1 & E' & Hi'). rewrite E' in E. by simplify_eq.
  - destruct (cancel_entry_ok s c t e handle Hi Hr Hlk) as (rm' & w1 & E' & Hi'). rewrite E' in E. by simplify_eq.
  - destruct (cancel_set_ok s c t Hi Hr) as (w1 & E' & Hi'). rewrite E' in E. by simplify_eq.
  - pose proof (take_ok s cookie Hi) as Ht. assert (Hsame : wsinv (mk_config (world_ s) (linked s) (taken s) (sleepers s))) by (by destruct s).
    destruct (entries_ (the_set s) !! cookie) as [e|]; [destruct Ht as (en & _ & [[_ E']|(_ & w1 & E' & Hi')])|rename Ht into E']; rewrite E' in E; by simplify_eq.
  - by eapply finish_ok.
  - destruct (wait_begin_ok s c t timeout now Hi Hr) as (slept' & r' & E' & Hres). rewrite E' in E. simplify_eq. destruct r as [st w'|w']; [destruct Hres as [-> _]; by destruct s|by destruct Hres].
  - destruct (wait_resume_ok s c t deadline slept now Hi Hr Hsl) as (slept1 & r' & E' & Hres). rewrite E' in E. simplify_eq. destruct r as [st w'|w']; by destruct Hres.
  - by apply kernel_step_ok.
Qed.

Lemma wreach_inv s : wreach s → wsinv s.
Proof. induction 1; [by eapply init_ok|by eapply wstep_inv]. Qed.


(** A wait returns or sleeps, without failing an assertion.  It sleeps only while
    no entry is triggered and the handle of the set is open.  Its answer is
    [ERR_INTERRUPTED] if its thread was interrupted, [ERR_CANCELLED] if the handle of
    the set was closed, or else the first [num_results] triggered entries, in the order
    in which they were triggered, each with the status and the signals of its object,
    and the number of all of them; it is [ERR_TIMED_OUT] only if there are none and the
    wait had a deadline. *)
Theorem wait_set_answers s c t deadline slept now timeout num max :
  wreach s → krunning (ws_kern (world_ s)) c t → 0 ≤ num →
  (∃ slept' r, Wait_begin (world_ s) c timeout now = Some (slept', r) ∧
    match r with
    | Done st w' => w' = world_ s ∧ ∃ a, Wait_finish w' st num max = Some a ∧ answers s st num max a ∧ (a_status a = ERR_TIMED_OUT → wait_deadline timeout now ≠ INFINITE_TIME)
    | Wait _ => triggered_entries_ (ws_set (world_ s)) = [] ∧ cancelled_ (ws_set (world_ s)) = false
    end) ∧
  (sleepers s !! t = Some (deadline, slept) → ∃ slept' r, Wait_resume (world_ s) c t deadline slept now = Some (slept', r) ∧
    match r with
    | Done st w' => ∃ a, Wait_finish w' st num max = Some a ∧ answers (awake s w' t) st num max a ∧ (a_status a = ERR_TIMED_OUT → deadline ≠ INFINITE_TIME)
    | Wait w' => triggered_entries_ (ws_set w') = [] ∧ cancelled_ (ws_set w') = false
    end).
Proof.
  intros Hi%wreach_inv Hr Hnum. split.
  - destruct (wait_begin_ok s c t timeout now Hi Hr) as (slept' & r & E & Hres). exists slept', r. split; [done|]. destruct r as [st w'|w']; [|apply Hres]. destruct Hres as [-> Hset]. split; [done|]. by apply wait_finish_ok.
  - intros Hsl. destruct (wait_resume_ok s c t deadline slept now Hi Hr Hsl) as (slept' & r & E & Hres). exists slept', r. split; [done|]. destruct r as [st w'|w']; [|apply Hres]. destruct Hres as [Hi' Hset]. by apply (wait_finish_ok (awake s w' t)).
Qed.

(** When no thread is adding an entry and the trackers have the entries of the set,
    the destructor fails no assertion, and afterwards the trackers have the observers
    they had, without the entries of the set, and the tracker of the set is without
    the set. *)
Theorem wait_set_destroyed s c own trackers :
  wreach s →
  (∀ ck e en, entries_ (ws_set (world_ s)) !! ck = Some e → ws_entries (world_ s) !! e = Some en → en_state en ≠ ADD_PENDING) → 0%nat ∈ observers_ own →
  (∀ ck e en o, entries_ (ws_set (world_ s)) !! ck = Some e → ws_entries (world_ s) !! e = Some en → en_object en = Some o → ∃ tr, trackers !! o = Some tr ∧ e ∈ observers_ tr) →
  ∃ own' trackers', WaitSet_destroy (world_ s) c own trackers = ('(_, r) ← cond_destroy (ws_kern (world_ s)) c (cv_ (ws_set (world_ s))); Some (r, own', trackers')) ∧
    0%nat ∉ observers_ own' ∧
    ∀ o tr', trackers' !! o = Some tr' → ∃ tr, trackers !! o = Some tr ∧
      ∀ e, e ∈ observers_ tr' ↔ e ∈ observers_ tr ∧ ¬ ∃ ck en, entries_ (ws_set (world_ s)) !! ck = Some e ∧ ws_entries (world_ s) !! e = Some en ∧ en_object en = Some o.
Proof. intros Hi%wreach_inv. by apply destroy_set_ok. Qed.

(** What the set looks like between [OnCancel] and the removal by the tracker. *)
Lemma cancelled_entry s c t e en handle :
  wsinv s → krunning (ws_kern (world_ s)) c t → ents s !! e = Some en → en_state en = ADDED → en_handle en = Some handle →
  ∃ w1 en1, Entry_OnCancel (world_ s) c e handle = Some (false, true, false, w1) ∧ entries_ (ws_set w1) = entries_ (the_set s) ∧
    ws_entries w1 !! e = Some en1 ∧ en_state en1 = ADDED ∧ en_object en1 = None ∧ e ∈ linked s.
Proof.
  intros Hi Hr He Est Hh. destruct (wi_ok _ Hi e en He) as (_ & Hho & Hok). rewrite Est in Hok. destruct Hok as (Hl & Ht & Htr & Hlk & Htk). assert (Hlk' : e ∈ linked s) by (apply Hlk, Hho; eauto).
  unfold Entry_OnCancel. rewrite He. cbn [mbind option_bind]. rewrite bool_decide_eq_false_2 by congruence. rewrite bool_decide_eq_true_2 by done. rewrite bool_decide_eq_true_2 by eauto. rewrite bool_decide_eq_true_2 by done. cbn [negb].
  destruct (is_triggered_ en) eqn:Etr; cbn [negb].
  - eexists _, _. split; [done|]. split; [done|]. wsimp. rewrite lookup_insert_eq. done.
  - destruct (trigger_ok s c t e (set_handle en None None) _ Hi Hr Hl) as (k' & E & _); [intros Hx; by apply Htr in Hx|done|]. rewrite E. cbn [mbind option_bind]. eexists _, _. split; [done|]. split; [done|]. wsimp. rewrite lookup_insert_eq. done.
Qed.

(** A race of [Cancel] and [RemoveEntry]: after [OnCancel] told the tracker to
    remove an entry, but before the tracker did so, which it does without the mutex of
    the set, [RemoveEntry] finds the entry without an object, does not call the tracker,
    and destroys the entry while it is on the list of the tracker. *)
Theorem wait_set_cancel_race s c t e en handle :
  wreach s → krunning (ws_kern (world_ s)) c t → ws_entries (world_ s) !! e = Some en → en_state en = ADDED → en_handle en = Some handle →
  e ∈ linked s ∧ ∃ w1 w2 w3,
    Entry_OnCancel (world_ s) c e handle = Some (false, true, false, w1) ∧
    RemoveEntry_take w1 (en_cookie en) = Some (NO_ERROR, Some (e, None), w2) ∧ RemoveEntry_observe w2 e None = Some (w3, None) ∧
    ws_entries w3 !! e = None ∧ ∀ state, Entry_OnStateChange w3 c e state = None.
Proof.
  intros Hi%wreach_inv Hr He Est Hh. destruct (cancelled_entry s c t e en handle Hi Hr He Est Hh) as (w1 & en1 & E1 & Ees & He1 & Est1 & Eo1 & Hlk). split; [done|].
  destruct (cancel_entry_ok s c t e handle Hi Hr Hlk) as (rm & w1' & E1' & Hi1). rewrite E1 in E1'. injection E1' as <- <-. destruct (wi_ok _ Hi e en He) as (_ & _ & Hok). rewrite Est in Hok. destruct Hok as (Hl & _).
  pose proof (take_ok _ (en_cookie en) Hi1) as Ht. wsimp. rewrite Ees, Hl in Ht. destruct Ht as (en1' & He1' & Ht). rewrite He1 in He1'. injection He1' as <-. rewrite Est1 in Ht. destruct Ht as [[? _]|(_ & w2 & E2 & _)]; [done|]. rewrite Eo1 in E2.
  exists w1, w2, (mk_ws (ws_kern w2) (ws_set w2) (delete e (ws_entries w2))). split; [done|]. split; [done|]. split; [done|]. wsimp. split; [by rewrite lookup_delete_eq|]. intros st. unfold Entry_OnStateChange. wsimp. by rewrite lookup_delete_eq.
Qed.

End facts.

(** ** A wait for one object *)

Notation sconfig := (config (K := Sched.kstate)).

Definition ws_create (s : sconfig) (e : nat) (watched cookie : Z) : sconfig := with_world s (put_entry (world_ s) e (new_entry watched cookie)).
Definition ws_insert (s : sconfig) (e handle object : nat) (tr : StateTracker) : sconfig :=
  match AddEntry_insert (world_ s) e handle object (Some tr) with Some (_, w') => with_world s w' | None => s end.
Definition ws_observe (s : sconfig) (e : nat) (tr : StateTracker) : sconfig :=
  match AddEntry_observe Sched.thread_yield (world_ s) 0 e tr with Some (_, w', _) => link_entry s w' e | None => s end.
Definition ws_change (s : sconfig) (e : nat) (st : mx_signals_state) : sconfig :=
  match Entry_OnStateChange (world_ s) 0 e st with Some (_, w') => with_world s w' | None => s end.
Definition ws_wait (s : sconfig) (t : nat) (timeout now : Z) : sconfig :=
  match Wait_begin (world_ s) 0 timeout now with
  | Some (_, Done _ w') => with_world s w'
  | Some (slept, Wait w') => asleep s w' t (wait_deadline timeout now, slept)
  | None => s
  end.

Definition ws_op (s : sconfig) (o : SchedFacts.op) : sconfig := with_world s (put_kern (world_ s) (SchedFacts.ex_run (ws_kern (world_ s)) o)).

(** Thread 2 adds an entry for an object that is not readable, and waits; the next
    thread makes the object readable. *)
Definition quiet_tracker : StateTracker := mk_tracker true [] (mk_signals MX_SIGNAL_WRITABLE (Z.lor MX_SIGNAL_READABLE MX_SIGNAL_WRITABLE)).
Definition ws0 : sconfig :=
  match new_set Sched.thread_yield SyncSched.ex_three 0 206 with
  | Some (s, _) => mk_config s ∅ ∅ ∅
  | None => mk_config (mk_ws SyncSched.ex_three (mk_set (mk_cond 0 0) 0 false ∅ [] 0) ∅) ∅ ∅ ∅
  end.
Definition ws1 : sconfig := ws_insert (ws_create ws0 1 MX_SIGNAL_READABLE 77) 1 5 9 quiet_tracker.
Definition ws2 : sconfig := ws_observe ws1 1 quiet_tracker.
Definition ws3 : sconfig := ws_wait ws2 2 MX_TIME_INFINITE 1000.
Definition ws4 : sconfig := ws_op ws3 (SchedFacts.OResume 0 3 false).
Definition ws5 : sconfig := ws_change ws4 1 (mk_signals MX_SIGNAL_READABLE (Z.lor MX_SIGNAL_READABLE MX_SIGNAL_WRITABLE)).

#[local] Notation ws_reach := (wreach Sched.thread_yield).

Lemma reach_ws_op s o :
  ws_reach s → SchedFacts.pre (ws_kern (world_ s)) o →
  let k' := SchedFacts.ex_run (ws_kern (world_ s)) o in let q := c_wait (cv_ (ws_set (world_ s))) in
  SchedFacts.wq_ok k' q → SchedFacts.waiters k' q = SchedFacts.waiters (ws_kern (world_ s)) q →
  (∀ t, is_Some (sleepers s !! t) → kstatus k' t = kstatus (ws_kern (world_ s)) t) → ws_reach (ws_op s o).
Proof.
  intros Hr Hp k' q Hq Hw Hst. pose proof (ko_ok _ (wi_kern _ (wreach_inv _ _ Hr))) as Hk. destruct (SchedFacts.exec_ok _ o Hk Hp) as (k2 & E & Hk2). assert (E2 : k' = k2) by (unfold k', SchedFacts.ex_run; by rewrite E).
  apply (wreach_step _ s); [done|]. apply st_kernel; [fold k'; by rewrite E2|done|intros t; cbn; fold k' q; by rewrite Hw|intros t p Ht; left; apply Hst; eauto].
Qed.

Lemma ws0_reach : ws_reach ws0.
Proof.
  eapply (wreach_init Sched.thread_yield SyncSched.ex_three 0 206); [reflexivity| |eexists; split; SyncSched.concrete|SyncSched.concrete].
  apply (SyncSched.kinv_wq_init SyncSched.ex_three 206); [apply SyncSched.ex_three_kinv|SyncSched.concrete].
Qed.

Lemma reach_insert s e en handle object tr :
  ws_reach s → ws_entries (world_ s) !! e = Some en → en_state en = UNINITIALIZED → Z.of_nat (size (entries_ (ws_set (world_ s)))) + 1 < 2 ^ 32 → ws_reach (ws_insert s e handle object tr).
Proof. intros Hr He Est Hsz. unfold ws_insert. destruct (AddEntry_insert _ _ _ _ _) as [[r w']|] eqn:E; [|done]. apply (wreach_step _ s); [done|]. by eapply st_insert. Qed.

Lemma reach_observe s t e en tr :
  ws_reach s → SyncSched.running (ws_kern (world_ s)) 0 t → ws_entries (world_ s) !! e = Some en → en_state en = ADD_PENDING → ws_reach (ws_observe s e tr).
Proof. intros Hr Hrun He Est. unfold ws_observe. destruct (AddEntry_observe _ _ _ _ _) as [[[r w'] tr']|] eqn:E; [|done]. apply (wreach_step _ s); [done|]. by eapply st_observe. Qed.

Lemma reach_wait s t timeout now : ws_reach s → SyncSched.running (ws_kern (world_ s)) 0 t → sleepers s !! t = None → ws_reach (ws_wait s t timeout now).
Proof.
  intros Hr Hrun Ht. unfold ws_wait. destruct (Wait_begin _ _ _ _) as [[slept r]|] eqn:E; [|done]. pose proof (st_wait Sched.thread_yield s 0 t timeout now slept r Hrun Ht E) as Hs. destruct r; by apply (wreach_step _ s).
Qed.

Lemma reach_change s t e st : ws_reach s → SyncSched.running (ws_kern (world_ s)) 0 t → e ∈ linked s → ws_reach (ws_change s e st).
Proof. intros Hr Hrun He. unfold ws_change. destruct (Entry_OnStateChange _ _ _ _) as [[b w']|] eqn:E; [|done]. apply (wreach_step _ s); [done|]. by eapply st_change. Qed.

Lemma ws1_reach : ws_reach ws1.
Proof.
  eapply (reach_insert _ 1); [eapply wreach_step; [apply ws0_reach|apply (st_create _ _ 1 MX_SIGNAL_READABLE 77); [done|SyncSched.concrete]]|SyncSched.concrete|SyncSched.concrete|SyncSched.concrete].
Qed.

Lemma ws2_reach : ws_reach ws2.
Proof. eapply (reach_observe _ 2); [apply ws1_reach|SyncSched.concrete_running|SyncSched.concrete|SyncSched.concrete]. Qed.

Lemma ws3_reach : ws_reach ws3.
Proof. apply reach_wait; [apply ws2_reach|SyncSched.concrete_running|SyncSched.concrete]. Qed.

Lemma ws4_reach : ws_reach ws4.
Proof.
  apply reach_ws_op; [apply ws3_reach|SyncSched.concrete_resume|eexists; split; SyncSched.concrete|SyncSched.concrete|].
  intros t [p Hp]. apply (lookup_singleton_Some (M := gmap nat) 2%nat t (INFINITE_TIME, INFINITE_TIME) p) in Hp as [<- _]. SyncSched.concrete.
Qed.

Lemma ws5_reach : ws_reach ws5.
Proof. apply (reach_change _ 3); [apply ws4_reach|SyncSched.concrete_running|vm_compute; set_solver]. Qed.


(** Thread 2 gets its answer. *)
Lemma wait_set_answers_witness : ∃ st w' a, Wait_resume (world_ ws5) 0 2 INFINITE_TIME INFINITE_TIME 1005 = Some (0, Done st w') ∧ Wait_finish w' st 4 0 = Some a ∧
  a = mk_answer NO_ERROR [mk_result 77 NO_ERROR (mk_signals 1 3)] 1 1.
Proof.
  destruct (wait_set_answers Sched.thread_yield ws5 0 2 INFINITE_TIME INFINITE_TIME 1005 0 4 0) as [_ Hres]; [apply ws5_reach|SyncSched.concrete_running|lia|]. destruct Hres as (slept & r & E & Hres); [vm_compute; reflexivity|].
  destruct r as [st w'|w']; [|exfalso; vm_compute in E; discriminate]. destruct Hres as (a & Ea & _). exists st, w', a. vm_compute in E. injection E as <- <- <-. vm_compute in Ea. injection Ea as <-. split; [vm_compute; reflexivity|]. split; vm_compute; reflexivity.
Defined.

Lemma wait_set_destroyed_witness : ∃ own' trackers',
  WaitSet_destroy (world_ ws2) 0 (mk_tracker false [0%nat] (mk_signals 0 0)) {[9%nat := mk_tracker true [4%nat; 1%nat] (mk_signals 0 0)]} =
    ('(_, r) ← cond_destroy (ws_kern (world_ ws2)) 0 (cv_ (ws_set (world_ ws2))); Some (r, own', trackers')) ∧ 0%nat ∉ observers_ own'.
Proof.
  destruct (wait_set_destroyed Sched.thread_yield ws2 0 (mk_tracker false [0%nat] (mk_signals 0 0)) {[9%nat := mk_tracker true [4%nat; 1%nat] (mk_signals 0 0)]}) as (own' & trackers' & E & Hown & _).
  - apply ws2_reach.
  - intros ck e en Hck. apply (lookup_singleton_Some (M := gmap Z) 77 ck 1%nat e) in Hck as [<- <-]. intros He. vm_compute in He. injection He as <-. discriminate.
  - cbn. set_solver.
  - intros ck e en o Hck. apply (lookup_singleton_Some (M := gmap Z) 77 ck 1%nat e) in Hck as [<- <-]. intros He. vm_compute in He. injection He as <-. intros [= <-]. eexists. split; [reflexivity|cbn; set_solver].
  - exists own', trackers'. by split.
Defined.

Lemma wait_set_cancel_race_witness : 1%nat ∈ linked ws2 ∧ ∃ w1 w2 w3,
  Entry_OnCancel (world_ ws2) 0 1 5 = Some (false, true, false, w1) ∧ RemoveEntry_take w1 77 = Some (NO_ERROR, Some (1%nat, None), w2) ∧
  RemoveEntry_observe w2 1 None = Some (w3, None) ∧ ws_entries w3 !! 1%nat = None.
Proof.
  destruct (ws_entries (world_ ws2) !! 1%nat) as [en|] eqn:E; [|exfalso; vm_compute in E; discriminate].
  destruct (wait_set_cancel_race Sched.thread_yield ws2 0 2 1 en 5) as (Hlk & w1 & w2 & w3 & E1 & E2 & E3 & E4 & _); [apply ws2_reach|SyncSched.concrete_running|exact E|vm_compute in E; injection E as <-; reflexivity|vm_compute in E; injection E as <-; reflexivity|].
  split; [exact Hlk|]. exists w1, w2, w3. assert (Ec : en_cookie en = 77) by (vm_compute in E; injection E as <-; reflexivity). rewrite Ec in E2. split; [exact E1|]. split; [exact E2|]. split; [exact E3|exact E4].
Defined.
End WaitSetFacts.
