(* ===== verification/Heap.v ===== *)
(** * The kernel heap

    [src/kernel/lib/heap/cmpctmalloc/cmpctmalloc.c] and the wrapper
    [src/kernel/lib/heap/heap_wrapper.c], on a 64-bit machine with [CMPCT_DEBUG] and
    [WITH_KERNEL_VM].

    The memory is a finite map from the addresses of 8-byte words to their values;
    its domain is the memory that is mapped, and a load or store outside it is
    [None], like a failed assertion.  The fields of [header_t] and [free_t] are the
    words from the address of the structure on: [left] and [size], then [next] and
    [prev].  A null pointer is 0.  What [page_alloc] returns is taken from a list of
    answers: an address and the contents of the pages, or nothing.  The mutex is not
    represented: each operation runs under it, but for the fills at the end of
    [large_alloc]. *)

From stdpp Require Import base tactics numbers list list_numbers gmap.
From Stdlib Require Import ZArith.
From S2P Require Import Prelude.
#[local] Open Scope Z_scope.

Module Heap.

Definition PAGE_SIZE : Z := 4096.
Definition sizeof_header : Z := 16.
Definition sizeof_free : Z := 32.
Definition ALLOC_FILL : Z := 0x99.
Definition FREE_FILL : Z := 0x77.
Definition PADDING_FILL : Z := 0x55.
Definition HEAP_GROW_SIZE : Z := 1 * 1024 * 1024.
Definition HEAP_ALLOC_VIRTUAL_BITS : Z := 22.
Definition NUMBER_OF_BUCKETS : Z := 1 + 15 + (HEAP_ALLOC_VIRTUAL_BITS - 7) * 8.
Definition BUCKET_WORDS : Z := Z.shiftr (NUMBER_OF_BUCKETS + 31) 5.

Definition ROUNDDOWN (a b : Z) : Z := Z.land a (Z.lnot (b - 1)).
Definition ROUNDUP (a b : Z) : Z := ROUNDDOWN (u64 (a + (b - 1))) b.
Definition IS_ALIGNED (a b : Z) : bool := Z.land a (b - 1) =? 0.

Record heap := mk_heap {
  words : gmap Z Z; heap_size : Z; remaining : Z; free_lists : list Z; free_list_bits : list Z }.

Definition set_words (h : heap) (w : gmap Z Z) : heap := mk_heap w (heap_size h) (remaining h) (free_lists h) (free_list_bits h).
Definition set_size (h : heap) (n : Z) : heap := mk_heap (words h) n (remaining h) (free_lists h) (free_list_bits h).
Definition set_remaining (h : heap) (n : Z) : heap := mk_heap (words h) (heap_size h) n (free_lists h) (free_list_bits h).
Definition set_lists (h : heap) (l : list Z) : heap := mk_heap (words h) (heap_size h) (remaining h) l (free_list_bits h).
Definition set_bits (h : heap) (l : list Z) : heap := mk_heap (words h) (heap_size h) (remaining h) (free_lists h) l.

(** ** Memory *)

Definition load (h : heap) (a : Z) : option Z := words h !! a.

Definition store (h : heap) (a v : Z) : option heap :=
  ASSERT bool_decide (is_Some (words h !! a)); Some (set_words h (<[a := v]> (words h))).

Definition header_left (h : heap) (p : Z) : option Z := load h p.
Definition header_size (h : heap) (p : Z) : option Z := load h (p + 8).
Definition free_next (h : heap) (p : Z) : option Z := load h (p + 16).
Definition free_prev (h : heap) (p : Z) : option Z := load h (p + 24).

(** The bytes from [lo] to [hi] of the word at [x] become those of [new]. *)
Definition mix_word (old new x lo hi : Z) : Z :=
  let first := Z.max 0 (lo - x) in
  let mask := Z.shiftl (Z.ones (8 * (Z.min 8 (hi - x) - first))) (8 * first) in
  Z.lor (Z.ldiff old mask) (Z.land new mask).

Fixpoint memset_loop (k : nat) (w : gmap Z Z) (x lo hi c : Z) : option (gmap Z Z) :=
  match k with
  | O => Some w
  | S k' => old ← w !! x; memset_loop k' (<[x := mix_word old (c * 0x0101010101010101) x lo hi]> w) (x + 8) lo hi c
  end.

(** The words that the bytes from [s] to [s + n] lie in. *)
Definition word_count (s n : Z) : nat := Z.to_nat ((s + n + 7) / 8 - s / 8).

Definition memset (h : heap) (s c n : Z) : option heap :=
  if n =? 0 then Some h else
  w ← memset_loop (word_count s n) (words h) (s / 8 * 8) s (s + n) c; Some (set_words h w).

(** [memcpy] between aligned addresses. *)
Fixpoint memcpy_loop (k : nat) (w : gmap Z Z) (d s hi : Z) : option (gmap Z Z) :=
  match k with
  | O => Some w
  | S k' =>
    v ← w !! s; old ← w !! d;
    memcpy_loop k' (<[d := mix_word old v d d hi]> w) (d + 8) (s + 8) hi
  end.

Definition memcpy (h : heap) (d s n : Z) : option heap :=
  if n =? 0 then Some h else
  w ← memcpy_loop (word_count d n) (words h) d s (d + n); Some (set_words h w).

(** ** Pages *)

Notation os := (list (option (Z * (Z → Z)))).

Definition page_alloc (o : os) : option (Z * (Z → Z)) * os :=
  match o with [] => (None, []) | ans :: o' => (ans, o') end.

(** [k] words from [x] on come into being. *)
Fixpoint map_words (k : nat) (w : gmap Z Z) (x : Z) (contents : Z → Z) : gmap Z Z :=
  match k with O => w | S k' => map_words k' (<[x := contents x]> w) (x + 8) contents end.

Definition map_pages (h : heap) (ptr size : Z) (contents : Z → Z) : heap :=
  set_words h (map_words (Z.to_nat (size / 8)) (words h) ptr contents).

Definition page_free (h : heap) (ptr pages : Z) : option heap :=
  ASSERT IS_ALIGNED ptr PAGE_SIZE;
  Some (set_words h (filter (λ kv, ¬ (ptr ≤ kv.1 < ptr + pages * PAGE_SIZE)) (words h))).

(** ** Buckets *)

(** The index and [rounded_up_out]. *)
Definition size_to_index_helper (size adjust increment : Z) : option (Z * Z) :=
  if size <=? 128 then
    Some (Z.shiftr size 3 - 1, if size <=? sizeof_free - sizeof_header then sizeof_free - sizeof_header else size)
  else
    let size := u64 (size + adjust) in
    let row := 64 - 4 - (63 - Z.log2 size) in
    let column := Z.land (Z.shiftr size row) 7 in
    let row_column := Z.lor (Z.shiftl row 3) column + increment in
    let size := Z.shiftl (8 + Z.land row_column 7) (Z.shiftr row_column 3) in
    let answer := row_column + 15 - 32 in
    ASSERT answer <? NUMBER_OF_BUCKETS;
    Some (answer, size).

Definition size_to_index_allocating (size : Z) : option (Z * Z) := size_to_index_helper (ROUNDUP size 8) (-8) 1.

Definition size_to_index_freeing (size : Z) : option Z := '(index, _) ← size_to_index_helper size 0 0; Some index.

Definition tag_as_free (left : Z) : Z := Z.lor left 1.
Definition untag (left : Z) : Z := Z.land left (Z.lnot 1).
Definition is_tagged_as_free (h : heap) (p : Z) : option bool := left ← header_left h p; Some (negb (Z.land left 1 =? 0)).
Definition right_header (h : heap) (p : Z) : option Z := size ← header_size h p; Some (p + size).

(** Elements of an array by an [int] index. *)
Definition at_ {A} (l : list A) (i : Z) : option A := if i <? 0 then None else l !! Z.to_nat i.
Definition put {A} (l : list A) (i : Z) (x : A) : option (list A) :=
  ASSERT (0 <=? i) && (i <? zlen l); Some (<[Z.to_nat i := x]> l).

Definition bit_of (index : Z) : Z := Z.shiftl 1 (31 - Z.land index 0x1f).

Definition set_free_list_bit (h : heap) (index : Z) : option heap :=
  w ← at_ (free_list_bits h) (Z.shiftr index 5);
  l ← put (free_list_bits h) (Z.shiftr index 5) (Z.lor w (bit_of index)); Some (set_bits h l).

Definition clear_free_list_bit (h : heap) (index : Z) : option heap :=
  w ← at_ (free_list_bits h) (Z.shiftr index 5);
  l ← put (free_list_bits h) (Z.shiftr index 5) (Z.ldiff w (bit_of index)); Some (set_bits h l).

Definition clz32 (x : Z) : Z := 31 - Z.log2 x.

(** [k] turns of the loop from [index] on; no more are left when it is above the
    number of buckets. *)
Fixpoint find_loop (k : nat) (h : heap) (index : Z) : option Z :=
  match k with
  | O => Some (-1)
  | S k' =>
    if index <=? NUMBER_OF_BUCKETS then
      mask ← at_ (free_list_bits h) (Z.shiftr index 5);
      if negb (mask =? 0) then Some (index + clz32 mask) else find_loop k' h (index + 32)
    else Some (-1)
  end.

Definition find_nonempty_bucket (h : heap) (index : Z) : option Z :=
  let mask := bit_of index - 1 in
  let mask := u32 (mask * 2 + 1) in
  w ← at_ (free_list_bits h) (Z.shiftr index 5);
  let mask := Z.land mask w in
  if negb (mask =? 0) then Some (Z.land index (Z.lnot 0x1f) + clz32 mask)
  else find_loop (Z.to_nat BUCKET_WORDS) h (ROUNDUP (index + 1) 32).

Definition is_start_of_os_allocation (h : heap) (p : Z) : option bool := left ← header_left h p; Some (left =? 0).
Definition is_end_of_os_allocation (h : heap) (p : Z) : option bool := size ← header_size h p; Some (size =? 0).

(** ** Areas *)

(** [own] is that the bucket is the variable of [large_alloc], which is null and
    becomes the address. *)
Definition create_free_area (h : heap) (address left size : Z) (own : bool) : option heap :=
  h ← store h (address + 8) size;
  h ← store h address (tag_as_free left);
  h ←
    (if own then h ← store h (address + 16) 0; store h (address + 24) 0
     else
       index ← size_to_index_freeing (u64 (size - sizeof_header));
       h ← set_free_list_bit h index;
       old_head ← at_ (free_lists h) index;
       h ← (if negb (old_head =? 0) then store h (old_head + 24) address else Some h);
       h ← store h (address + 16) old_head;
       h ← store h (address + 24) 0;
       l ← put (free_lists h) index address;
       Some (set_lists h l));
  memset (set_remaining h (u64 (remaining h + size))) (address + sizeof_free) FREE_FILL (u64 (size - sizeof_free)).

Definition free_to_os (h : heap) (header size : Z) : option heap :=
  ASSERT IS_ALIGNED size PAGE_SIZE;
  h ← page_free h header (Z.shiftr size 12);
  Some (set_size h (u64 (heap_size h - size))).

(** The three conditions of [free_memory], as they are evaluated. *)
Definition is_whole_os_allocation (h : heap) (address left size : Z) : option bool :=
  if IS_ALIGNED left PAGE_SIZE then
    start ← is_start_of_os_allocation h left;
    if (start : bool) then is_end_of_os_allocation h (address + size) else Some false
  else Some false.

Definition free_memory (h : heap) (address left size : Z) : option heap :=
  let left := untag left in
  whole ← is_whole_os_allocation h address left size;
  if (whole : bool) then left_size ← header_size h left; free_to_os h left (u64 (size + left_size + sizeof_header))
  else create_free_area h address left size false.

Definition unlink_free (h : heap) (free_area bucket : Z) : option heap :=
  size ← header_size h free_area;
  let h := set_remaining h (u64 (remaining h - size)) in
  ASSERT remaining h <? 4000000000;
  next ← free_next h free_area;
  prev ← free_prev h free_area;
  head ← at_ (free_lists h) bucket;
  h ← (if head =? free_area then
         l ← put (free_lists h) bucket next;
         let h := set_lists h l in
         if next =? 0 then clear_free_list_bit h bucket else Some h
       else Some h);
  h ← (if negb (prev =? 0) then store h (prev + 16) next else Some h);
  if negb (next =? 0) then store h (next + 24) prev else Some h.

Definition unlink_free_unknown_bucket (h : heap) (free_area : Z) : option heap :=
  size ← header_size h free_area;
  index ← size_to_index_freeing (u64 (size - sizeof_header));
  unlink_free h free_area index.

(** The result is the address after the header. *)
Definition create_allocation_header (h : heap) (address offset size left : Z) : option (Z * heap) :=
  let standalone := address + offset in
  h ← store h standalone (untag left);
  h ← store h (standalone + 8) size;
  Some (standalone + sizeof_header, h).

Definition FixLeftPointer (h : heap) (right new_left : Z) : option heap :=
  left ← header_left h right;
  store h right (Z.lor (Z.land new_left (Z.lnot 1)) (Z.land left 1)).

(** ** Growing *)

Definition add_to_heap (h : heap) (new_area size : Z) (own : bool) : option heap :=
  let top := new_area + size in
  '(_, h) ← create_allocation_header h new_area 0 sizeof_header 0;
  let new_header := new_area + sizeof_header in
  let free_size := u64 (size - 2 * sizeof_header) in
  h ← create_free_area h new_header new_area free_size own;
  '(_, h) ← create_allocation_header h (top - sizeof_header) 0 0 new_header;
  Some h.

Definition i64 (x : Z) : Z := (x + 2 ^ 63) mod 2 ^ 64 - 2 ^ 63.

(** The result, and the address of the new free area. *)
Definition heap_grow (h : heap) (o : os) (size : Z) (own : bool) : option (Z * Z * heap * os) :=
  let size := u64 (size + 2 * sizeof_header) in
  let size := ROUNDUP size PAGE_SIZE in
  let '(ptr, o1) := page_alloc o in
  let h := set_size h (u64 (heap_size h + size)) in
  match ptr with
  | None => Some (-1, 0, h, o1)
  | Some (ptr, contents) =>
    h ← add_to_heap (map_pages h ptr size contents) ptr size own;
    Some (i64 size, ptr + sizeof_header, h, o1)
  end.

Definition cmpct_init (o : os) : option (heap * os) :=
  let h := mk_heap ∅ 0 0 (replicate (Z.to_nat NUMBER_OF_BUCKETS) 0) (replicate (Z.to_nat BUCKET_WORDS) 0) in
  '(_, _, h, o1) ← heap_grow h o (HEAP_GROW_SIZE - 2 * sizeof_header) false;
  Some (h, o1).

(** ** Allocation *)

Definition large_alloc (h : heap) (o : os) (size : Z) : option (Z * heap * os) :=
  let requested_size := size in
  let size := ROUNDUP size 8 in
  '(r, free_area, h, o1) ← heap_grow h o size true;
  if r <? 0 then Some (0, h, o1) else
  area_size ← header_size h free_area;
  left ← header_left h free_area;
  '(result, h) ← create_allocation_header h free_area 0 area_size left;
  let h := set_remaining h (u64 (remaining h - area_size)) in
  h ← memset h result ALLOC_FILL requested_size;
  area_size ← header_size h free_area;
  h ← memset h (result + requested_size) PADDING_FILL (u64 (area_size - requested_size));
  Some (result, h, o1).

(** Whether the heap has grown.  Each turn halves [growby], which is at most
    [2^22]. *)
Fixpoint grow_loop (fuel : nat) (h : heap) (o : os) (growby rounded_up : Z) : option (bool * heap * os) :=
  match fuel with
  | O => None
  | S f =>
    '(r, _, h, o) ← heap_grow h o growby false;
    if r <? 0 then
      if growby <=? rounded_up then Some (false, h, o) else grow_loop f h o (Z.max (Z.shiftr growby 1) rounded_up) rounded_up
    else Some (true, h, o)
  end.

(** The part of [cmpct_alloc] that takes the head of a bucket. *)
Definition take_area (h : heap) (size rounded_up bucket : Z) : option (Z * heap) :=
  head ← at_ (free_lists h) bucket;
  head_size ← header_size h head;
  let left_over := u64 (head_size - rounded_up) in
  h ← (if (sizeof_free <=? left_over) && (Z.shiftr size 6 <? left_over) then
         right ← right_header h head;
         h ← unlink_free h head bucket;
         let free := head + rounded_up in
         h ← create_free_area h free head left_over false;
         h ← FixLeftPointer h right free;
         head_size ← header_size h head;
         store h (head + 8) (u64 (head_size - left_over))
       else unlink_free h head bucket);
  head_size ← header_size h head;
  left ← header_left h head;
  '(result, h) ← create_allocation_header h head 0 head_size left;
  h ← memset h result ALLOC_FILL size;
  h ← memset h (result + size) PADDING_FILL (u64 (rounded_up - size - sizeof_header));
  Some (result, h).

Definition cmpct_alloc (h : heap) (o : os) (size : Z) : option (Z * heap * os) :=
  if size =? 0 then Some (0, h, o) else
  if u64 (size + sizeof_header) >? Z.shiftl 1 HEAP_ALLOC_VIRTUAL_BITS then large_alloc h o size else
  '(start_bucket, rounded_up) ← size_to_index_allocating size;
  let rounded_up := u64 (rounded_up + sizeof_header) in
  bucket ← find_nonempty_bucket h start_bucket;
  if bucket =? -1 then
    let growby := Z.min (Z.shiftl 1 HEAP_ALLOC_VIRTUAL_BITS)
                    (Z.max (Z.shiftr (heap_size h) 3) (Z.max HEAP_GROW_SIZE rounded_up)) in
    '(grown, h, o) ← grow_loop 23 h o growby rounded_up;
    if negb grown then Some (0, h, o) else
    bucket ← find_nonempty_bucket h start_bucket;
    '(result, h) ← take_area h size rounded_up bucket;
    Some (result, h, o)
  else
    '(result, h) ← take_area h size rounded_up bucket;
    Some (result, h, o).

(** ** Release *)

Definition cmpct_free (h : heap) (payload : Z) : option heap :=
  if payload =? 0 then Some h else
  let header := payload - sizeof_header in
  tagged ← is_tagged_as_free h header;
  ASSERT negb tagged;
  size ← header_size h header;
  left ← header_left h header;
  left_free ← (if negb (left =? 0) then is_tagged_as_free h left else Some false);
  if (left_free : bool) then
    h ← unlink_free_unknown_bucket h left;
    right ← right_header h header;
    right_free ← is_tagged_as_free h right;
    if (right_free : bool) then
      h ← unlink_free_unknown_bucket h right;
      right_right ← right_header h right;
      h ← FixLeftPointer h right_right left;
      left_left ← header_left h left;
      left_size ← header_size h left;
      right_size ← header_size h right;
      free_memory h left left_left (u64 (left_size + size + right_size))
    else
      h ← FixLeftPointer h right left;
      left_left ← header_left h left;
      left_size ← header_size h left;
      free_memory h left left_left (u64 (left_size + size))
  else
    right ← right_header h header;
    right_free ← is_tagged_as_free h right;
    if (right_free : bool) then
      right_right ← right_header h right;
      h ← unlink_free_unknown_bucket h right;
      h ← FixLeftPointer h right_right header;
      right_size ← header_size h right;
      free_memory h header left (u64 (size + right_size))
    else free_memory h header left size.

Definition cmpct_memalign (h : heap) (o : os) (size alignment : Z) : option (Z * heap * os) :=
  if alignment <? 8 then cmpct_alloc h o size else
  let padded_size := u64 (size + alignment + sizeof_free + sizeof_header) in
  '(unaligned, h, o) ← cmpct_alloc h o padded_size;
  let mask := alignment - 1 in
  let payload_int := u64 (unaligned + sizeof_free + sizeof_header + mask) in
  let payload := Z.land payload_int (Z.lnot mask) in
  if negb (unaligned =? payload) then
    let unaligned_header := unaligned - sizeof_header in
    let header := payload - sizeof_header in
    let left_over := u64 (payload - unaligned) in
    unaligned_size ← header_size h unaligned_header;
    '(_, h) ← create_allocation_header h header 0 (u64 (unaligned_size - left_over)) unaligned_header;
    right ← right_header h unaligned_header;
    h ← store h (unaligned_header + 8) left_over;
    h ← FixLeftPointer h right header;
    h ← cmpct_free h unaligned;
    Some (payload, h, o)
  else Some (payload, h, o).

Definition cmpct_realloc (h : heap) (o : os) (payload size : Z) : option (Z * heap * os) :=
  if payload =? 0 then cmpct_alloc h o size else
  header_size_ ← header_size h (payload - sizeof_header);
  let old_size := u64 (header_size_ - sizeof_header) in
  '(new_payload, h, o) ← cmpct_alloc h o size;
  h ← memcpy h new_payload payload (Z.min size old_size);
  h ← cmpct_free h payload;
  Some (new_payload, h, o).

(** ** Trimming *)

(** The body of the loop of [cmpct_trim] for one area. *)
Definition trim_area (h : heap) (bucket free_area : Z) : option heap :=
  size ← header_size h free_area;
  ASSERT PAGE_SIZE + sizeof_header <=? size;
  right ← right_header h free_area;
  at_end ← is_end_of_os_allocation h right;
  if (at_end : bool) then
    let old_os_allocation_end := ROUNDUP right PAGE_SIZE in
    let new_os_allocation_end := ROUNDUP (free_area + sizeof_header + sizeof_free) PAGE_SIZE in
    let freed_up := u64 (old_os_allocation_end - new_os_allocation_end) in
    ASSERT IS_ALIGNED freed_up PAGE_SIZE;
    if freed_up =? 0 then Some h else
    h ← unlink_free h free_area bucket;
    let new_free_size := u64 (size - freed_up) in
    ASSERT sizeof_free <=? new_free_size;
    '(_, h) ← create_allocation_header h free_area new_free_size 0 free_area;
    left ← header_left h free_area;
    h ← create_free_area h free_area (untag left) new_free_size false;
    h ← page_free h new_os_allocation_end (Z.shiftr freed_up 12);
    Some (set_size h (u64 (heap_size h - freed_up)))
  else
    left ← header_left h free_area;
    at_start ← is_start_of_os_allocation h (untag left);
    if (at_start : bool) then
      let old_os_allocation_start := ROUNDDOWN free_area PAGE_SIZE in
      let new_os_allocation_start := ROUNDDOWN (right - sizeof_header) PAGE_SIZE in
      let freed_up := u64 (new_os_allocation_start - old_os_allocation_start) in
      ASSERT IS_ALIGNED freed_up PAGE_SIZE;
      if freed_up =? 0 then Some h else
      h ← unlink_free h free_area bucket;
      let new_free_size := u64 (size - freed_up) in
      let '(sentinel_size, new_free_size) :=
        if new_free_size <? sizeof_free then (sizeof_header + new_free_size, 0) else (sizeof_header, new_free_size) in
      '(_, h) ← create_allocation_header h new_os_allocation_start 0 sentinel_size 0;
      h ← (if new_free_size =? 0 then FixLeftPointer h right new_os_allocation_start
           else
             let new_free := new_os_allocation_start + sentinel_size in
             h ← create_free_area h new_free new_os_allocation_start new_free_size false;
             FixLeftPointer h right new_free);
      h ← page_free h old_os_allocation_start (Z.shiftr freed_up 12);
      Some (set_size h (u64 (heap_size h - freed_up)))
    else Some h.

(** The areas of a bucket from [free_area] on; an area has at least 32 bytes. *)
Fixpoint trim_list (fuel : nat) (h : heap) (bucket free_area : Z) : option heap :=
  if free_area =? 0 then Some h else
  match fuel with
  | O => None
  | S f => next ← free_next h free_area; h ← trim_area h bucket free_area; trim_list f h bucket next
  end.

Fixpoint trim_buckets (k : nat) (h : heap) (bucket : Z) : option heap :=
  match k with
  | O => Some h
  | S k' =>
    first ← at_ (free_lists h) bucket;
    h ← trim_list (Z.to_nat (remaining h / sizeof_free)) h bucket first;
    trim_buckets k' h (bucket + 1)
  end.

Definition cmpct_trim (h : heap) : option heap :=
  bucket ← size_to_index_freeing PAGE_SIZE;
  trim_buckets (Z.to_nat (NUMBER_OF_BUCKETS - bucket)) h bucket.

(** ** The wrapper

    The second component of the state is the list of blocks whose release was
    delayed, linked through the blocks in the source. *)

Fixpoint free_all (h : heap) (l : list Z) : option heap :=
  match l with [] => Some h | p :: l' => h ← cmpct_free h p; free_all h l' end.

(** The blocks are moved, one by one, to the head of a list of their own. *)
Definition heap_free_delayed_list (h : heap) (delayed : list Z) : option (heap * list Z) :=
  h ← free_all h (rev delayed); Some (h, []).

Definition heap_delayed_free (delayed : list Z) (ptr : Z) : list Z := ptr :: delayed.

Definition heap_init (o : os) : option (heap * os) := cmpct_init o.

Definition free (h : heap) (ptr : Z) : option heap := cmpct_free h ptr.

Definition malloc (h : heap) (delayed : list Z) (o : os) (size : Z) : option (Z * heap * list Z * os) :=
  '(h, delayed) ← heap_free_delayed_list h delayed;
  '(ptr, h, o) ← cmpct_alloc h o size; Some (ptr, h, delayed, o).

Definition memalign (h : heap) (delayed : list Z) (o : os) (boundary size : Z) : option (Z * heap * list Z * os) :=
  '(h, delayed) ← heap_free_delayed_list h delayed;
  '(ptr, h, o) ← cmpct_memalign h o size boundary; Some (ptr, h, delayed, o).

Definition calloc (h : heap) (delayed : list Z) (o : os) (count size : Z) : option (Z * heap * list Z * os) :=
  '(h, delayed) ← heap_free_delayed_list h delayed;
  let realsize := u64 (count * size) in
  '(ptr, h, o) ← cmpct_alloc h o realsize;
  h ← (if negb (ptr =? 0) then memset h ptr 0 realsize else Some h);
  Some (ptr, h, delayed, o).

Definition realloc (h : heap) (delayed : list Z) (o : os) (ptr size : Z) : option (Z * heap * list Z * os) :=
  '(h, delayed) ← heap_free_delayed_list h delayed;
  '(ptr2, h, o) ← cmpct_realloc h o ptr size; Some (ptr2, h, delayed, o).

Definition heap_trim (h : heap) (delayed : list Z) : option (heap * list Z) :=
  '(h, delayed) ← heap_free_delayed_list h delayed; h ← cmpct_trim h; Some (h, delayed).

End Heap.
