(* ===== verification/HeapLists.v ===== *)
(** * The free lists of the heap

    The arithmetic of bucket sizes, the bitmap of the buckets that are not empty, and
    the doubly-linked lists of free areas: what [find_nonempty_bucket],
    [unlink_free] and [create_free_area] do to them. *)

From stdpp Require Import base tactics numbers list list_numbers gmap.
From Stdlib Require Import ZArith Lia.
From S2P Require Import Prelude Heap.
#[local] Open Scope Z_scope.

Module HeapLists.
Import Heap.

(** ** Rounding *)

Lemma rounddown_eq a k : 0 ≤ k → ROUNDDOWN a (2 ^ k) = a - a mod 2 ^ k.
Proof.
  intros Hk. unfold ROUNDDOWN. rewrite <- Z.ldiff_land. replace (2 ^ k - 1) with (Z.ones k) by (rewrite Z.ones_equiv; lia). rewrite Z.ldiff_ones_r by lia.
  rewrite Z.shiftr_div_pow2, Z.shiftl_mul_pow2 by lia. pose proof (Z.div_mod a (2 ^ k)). pose proof (pow2_pos k). lia.
Qed.

Lemma roundup_spec a k :
  0 ≤ k → 0 ≤ a → a + 2 ^ k ≤ 2 ^ 64 → a ≤ ROUNDUP a (2 ^ k) < a + 2 ^ k ∧ ROUNDUP a (2 ^ k) mod 2 ^ k = 0.
Proof.
  intros Hk Ha Hb. pose proof (pow2_pos k). unfold ROUNDUP. rewrite u64_id by (unfold is_u64; lia). rewrite rounddown_eq by lia.
  pose proof (Z.mod_pos_bound (a + (2 ^ k - 1)) (2 ^ k)). split; [lia|].
  rewrite <- (Z.mod_add _ ((a + (2 ^ k - 1)) / 2 ^ k) (2 ^ k)) by lia. pose proof (Z.div_mod (a + (2 ^ k - 1)) (2 ^ k)).
  replace (_ - _ + _) with (2 * ((a + (2 ^ k - 1)) / 2 ^ k) * 2 ^ k) by lia. apply Z_mod_mult.
Qed.

Lemma is_aligned_eq a k : 0 ≤ k → IS_ALIGNED a (2 ^ k) = (a mod 2 ^ k =? 0).
Proof. intros Hk. unfold IS_ALIGNED. by rewrite land_ones_mod. Qed.

(** ** Buckets *)

(** The smallest payload of an area of bucket [j]. *)
Definition bucket_min (j : Z) : Z :=
  if j <? 16 then 8 * (j + 1) else Z.shiftl (8 + Z.land (j + 17) 7) (Z.shiftr (j + 17) 3).

Lemma bucket_min_step : ∀ j, 0 ≤ j < 136 → bucket_min j < bucket_min (j + 1).
Proof.
  assert (H : forallb (λ j, bucket_min j <? bucket_min (j + 1)) (seqZ 0 136) = true) by (vm_compute; reflexivity).
  intros j Hj. rewrite forallb_forall in H. specialize (H j). rewrite <- list_elem_of_In, elem_of_seqZ in H. specialize (H ltac:(lia)). by zb.
Qed.

Lemma bucket_min_aligned : ∀ j, 0 ≤ j < 136 → bucket_min j mod 8 = 0 ∧ 8 ≤ bucket_min j ≤ 2 ^ 22.
Proof.
  assert (H : forallb (λ j, (bucket_min j mod 8 =? 0) && (8 <=? bucket_min j) && (bucket_min j <=? 2 ^ 22)) (seqZ 0 136) = true) by (vm_compute; reflexivity).
  intros j Hj. rewrite forallb_forall in H. specialize (H j). rewrite <- list_elem_of_In, elem_of_seqZ in H. specialize (H ltac:(lia)). zb. lia.
Qed.

Lemma bucket_min_mono i j : 0 ≤ i → i ≤ j → j ≤ 136 → bucket_min i ≤ bucket_min j.
Proof.
  intros Hi Hj. pattern j. apply (Zlt_lower_bound_ind _ i); [|done]. clear j Hj. intros j IH Hij Hj.
  destruct (Z.eq_dec i j) as [->|]; [lia|]. pose proof (IH (j - 1) ltac:(lia) ltac:(lia)). pose proof (bucket_min_step (j - 1) ltac:(lia)).
  replace (j - 1 + 1) with j in * by lia. lia.
Qed.

Lemma bucket_min_inj i j s : 0 ≤ i ≤ 135 → 0 ≤ j ≤ 135 → bucket_min i ≤ s → s < bucket_min (j + 1) → i ≤ j.
Proof. intros Hi Hj H1 H2. destruct (decide (i ≤ j)); [done|]. pose proof (bucket_min_mono (j + 1) i). lia. Qed.

(** The row and column of a size: [8 + column] is its leading four bits. *)
Lemma row_column s : 128 ≤ s →
  let row := 64 - 4 - (63 - Z.log2 s) in let rc := Z.lor (Z.shiftl row 3) (Z.land (Z.shiftr s row) 7) in
  4 ≤ row ∧ rc = 8 * row + (s / 2 ^ row - 8) ∧ 8 ≤ s / 2 ^ row < 16 ∧ Z.log2 s = row + 3.
Proof.
  intros Hs row rc. assert (Hl : 7 ≤ Z.log2 s) by (change 7 with (Z.log2 128); apply Z.log2_le_mono; lia).
  assert (Hr : row = Z.log2 s - 3) by (unfold row; lia). pose proof (Z.log2_spec s ltac:(lia)) as [H1 H2].
  assert (Hd : 8 ≤ s / 2 ^ row < 16).
  { pose proof (pow2_pos row ltac:(lia)). assert (E1 : 2 ^ Z.log2 s = 8 * 2 ^ row) by (rewrite Hr; change 8 with (2 ^ 3); rewrite <- Z.pow_add_r by lia; f_equal; lia).
    assert (E2 : 2 ^ Z.succ (Z.log2 s) = 16 * 2 ^ row) by (rewrite Hr; change 16 with (2 ^ 4); rewrite <- Z.pow_add_r by lia; f_equal; lia).
    split; [apply Z.div_le_lower_bound; lia|apply Z.div_lt_upper_bound; lia]. }
  split; [lia|]. split; [|split; [done|lia]]. unfold rc. rewrite Z.shiftr_div_pow2 by lia. change 7 with (2 ^ 3 - 1) at 1.
  rewrite land_ones_mod by lia. change (2 ^ 3) with 8. replace ((s / 2 ^ row) mod 8) with (s / 2 ^ row - 8).
  2: { apply (Z.mod_unique_pos _ _ 1); lia. }
  rewrite Z.shiftl_mul_pow2 by lia. change (2 ^ 3) with 8. pose proof (Z.add_lor_land (row * 8) (s / 2 ^ row - 8)) as Ha.
  replace (Z.land (row * 8) (s / 2 ^ row - 8)) with 0 in Ha; [lia|].
  symmetry. apply Z.bits_inj'. intros n Hn. rewrite Z.land_spec, Z.bits_0. change 8 with (2 ^ 3) at 1. rewrite <- Z.shiftl_mul_pow2 by lia.
  destruct (decide (n < 3)); [by rewrite Z.shiftl_spec_low by lia|]. rewrite (Z.bits_above_log2 (s / 2 ^ row - 8)); [by rewrite andb_false_r|lia|].
  destruct (decide (s / 2 ^ row - 8 = 0)) as [->|]; [cbn; lia|]. apply Z.log2_lt_pow2; [lia|]. pose proof (pow2_le 3 n ltac:(lia)). lia.
Qed.

Lemma bucket_min_row row col : 4 ≤ row → 0 ≤ col < 8 →
  let rc := 8 * row + col in
  Z.shiftl (8 + Z.land rc 7) (Z.shiftr rc 3) = (8 + col) * 2 ^ row ∧ bucket_min (rc + 15 - 32) = (8 + col) * 2 ^ row.
Proof.
  intros Hr Hc rc. assert (E : Z.shiftl (8 + Z.land rc 7) (Z.shiftr rc 3) = (8 + col) * 2 ^ row).
  { change 7 with (2 ^ 3 - 1). rewrite land_ones_mod, Z.shiftr_div_pow2, Z.shiftl_mul_pow2 by (try apply Z.div_pos; lia). unfold rc. change (2 ^ 3) with 8.
    replace ((8 * row + col) mod 8) with col by (apply (Z.mod_unique_pos _ _ row); lia).
    replace ((8 * row + col) / 8) with row by (apply (Z.div_unique_pos _ _ _ col); lia). done. }
  split; [done|]. unfold bucket_min. destruct (_ <? 16) eqn:E1; zb; [|by replace (rc + 15 - 32 + 17) with rc by lia].
  assert (row = 4 ∧ col = 0) as [-> ->] by lia. reflexivity.
Qed.

Lemma bucket_min_next row col : 4 ≤ row → 0 ≤ col < 8 → bucket_min (8 * row + col + 1 + 15 - 32) = (9 + col) * 2 ^ row.
Proof.
  intros Hr Hc. destruct (decide (col = 7)) as [->|].
  - replace (8 * row + 7 + 1 + 15 - 32) with (8 * (row + 1) + 0 + 15 - 32) by lia. rewrite (proj2 (bucket_min_row (row + 1) 0 ltac:(lia) ltac:(lia))).
    rewrite pow2_succ by lia. lia.
  - replace (8 * row + col + 1 + 15 - 32) with (8 * row + (col + 1) + 15 - 32) by lia.
    rewrite (proj2 (bucket_min_row row (col + 1) ltac:(lia) ltac:(lia))). f_equal. lia.
Qed.

(** The largest area that a bucket can hold. *)
Definition max_area : Z := 2 ^ 22 + 4096.

Lemma row_column_range s row : 128 ≤ s → s < 9 * 2 ^ 19 → Z.log2 s = row + 3 → 8 * row + (s / 2 ^ row - 8) ≤ 152.
Proof.
  intros Hs1 Hs2 Hl. pose proof (Z.log2_spec s ltac:(lia)) as [H1 H2].
  assert (Hrow : row ≤ 19). { destruct (decide (row ≤ 19)); [done|]. pose proof (pow2_le 23 (Z.log2 s) ltac:(lia)). lia. }
  destruct (decide (row = 19)) as [->|].
  - assert (s / 2 ^ 19 < 9) by (apply Z.div_lt_upper_bound; lia). lia.
  - assert (Hd : s / 2 ^ row < 16).
    { assert (7 ≤ Z.log2 s) by (change 7 with (Z.log2 128); apply Z.log2_le_mono; lia). apply Z.div_lt_upper_bound; [apply pow2_pos; lia|].
      replace (2 ^ row * 16) with (2 ^ Z.succ (Z.log2 s)); [lia|]. change 16 with (2 ^ 4). rewrite <- Z.pow_add_r by lia. f_equal. lia. }
    lia.
Qed.

Lemma index_freeing s : 8 ≤ s ≤ max_area → s mod 8 = 0 →
  ∃ j, size_to_index_freeing s = Some j ∧ 0 ≤ j < 136 ∧ bucket_min j ≤ s < bucket_min (j + 1).
Proof.
  unfold max_area. intros Hs Ha. unfold size_to_index_freeing, size_to_index_helper. destruct (s <=? 128) eqn:E; zb; cbn [mbind option_bind].
  - rewrite Z.shiftr_div_pow2 by lia. change (2 ^ 3) with 8. pose proof (Z.div_mod s 8 ltac:(lia)). eexists. split; [done|].
    assert (1 ≤ s / 8 ≤ 16) by lia. split; [lia|]. unfold bucket_min. destruct (decide (s / 8 = 16)) as [E16|].
    { replace s with 128 by lia. vm_compute. split; congruence. }
    rewrite !(proj2 (Z.ltb_lt _ _)) by lia. lia.
  - cbv zeta. rewrite (Z.add_0_r s), u64_id, Z.add_0_r by (unfold is_u64; lia). destruct (row_column s ltac:(lia)) as (Hr & Hrc & Hd & Hl). cbn zeta in Hrc.
    set (row := 64 - 4 - (63 - Z.log2 s)) in *. rewrite Hrc. pose proof (row_column_range s row ltac:(lia) ltac:(lia) Hl) as Hmax.
    change NUMBER_OF_BUCKETS with 136. rewrite (proj2 (Z.ltb_lt _ _)) by lia. cbn [mbind option_bind]. eexists. split; [done|]. split; [lia|].
    rewrite (proj2 (bucket_min_row row (s / 2 ^ row - 8) Hr ltac:(lia))).
    replace (8 * row + (s / 2 ^ row - 8) + 15 - 32 + 1) with (8 * row + (s / 2 ^ row - 8) + 1 + 15 - 32) by lia.
    rewrite (bucket_min_next row (s / 2 ^ row - 8) Hr ltac:(lia)). pose proof (pow2_pos row ltac:(lia)). pose proof (Z.div_mod s (2 ^ row) ltac:(lia)).
    pose proof (Z.mod_pos_bound s (2 ^ row) ltac:(lia)). lia.
Qed.

(** An area in the bucket that an allocation of [n] bytes starts from, or in a later
    one, has room for it; an area with room for it is in one of these. *)
Lemma index_allocating n : 0 < n ≤ 2 ^ 22 - 16 →
  ∃ i r, size_to_index_allocating n = Some (i, r) ∧ 0 ≤ i < 136 ∧ n ≤ r ≤ 2 ^ 22 ∧ 16 ≤ r ∧ r mod 8 = 0 ∧
    ∀ s j, 16 ≤ s ≤ max_area → s mod 8 = 0 → size_to_index_freeing s = Some j → (i ≤ j ↔ r ≤ s).
Proof.
  intros Hn. unfold size_to_index_allocating. destruct (roundup_spec n 3 ltac:(lia) ltac:(lia) ltac:(lia)) as [Hr1 Hr2]. change (2 ^ 3) with 8 in *.
  set (m := ROUNDUP n 8) in *. assert (Hfin : ∀ i r, 0 ≤ i < 136 → bucket_min i ≤ r → (r = bucket_min i ∨ i = 0 ∧ r = 16) →
    ∀ s j, 16 ≤ s ≤ max_area → s mod 8 = 0 → size_to_index_freeing s = Some j → (i ≤ j ↔ r ≤ s)).
  { intros i r Hi Hir Hcase s j Hs1 Hs2 Hj. destruct (index_freeing s ltac:(lia) Hs2) as (j' & E & Hj' & Hb). rewrite Hj in E. injection E as <-.
    destruct Hcase as [->|[-> ->]]; [|split; [lia|intros; lia]]. split; intros Hx.
    - pose proof (bucket_min_mono i j ltac:(lia) Hx ltac:(lia)). lia.
    - apply (bucket_min_inj i j s); lia. }
  unfold size_to_index_helper. destruct (m <=? 128) eqn:E; zb.
  - rewrite Z.shiftr_div_pow2 by lia. change (2 ^ 3) with 8. pose proof (Z.div_mod m 8 ltac:(lia)). assert (Hq : 1 ≤ m / 8 ≤ 16) by lia.
    change (sizeof_free - sizeof_header) with 16. assert (Hb : bucket_min (m / 8 - 1) = m).
    { unfold bucket_min. rewrite (proj2 (Z.ltb_lt _ _)) by lia. lia. }
    destruct (m <=? 16) eqn:E16; zb; (eexists _, _; split; [done|]; split; [lia|]; split; [lia|]; split; [lia|]; split; [done|]); apply Hfin.
    all: lia.
  - cbv zeta. assert (H136 : 136 ≤ m) by (pose proof (Z.div_mod m 8 ltac:(lia)); lia). rewrite u64_id by (unfold is_u64; lia). destruct (row_column (m + -8) ltac:(lia)) as (Hr & Hrc & Hd & Hl). cbn zeta in Hrc.
    set (s := m + -8) in *. set (row := 64 - 4 - (63 - Z.log2 s)) in *. rewrite Hrc.
    set (col := s / 2 ^ row - 8) in *. assert (Hcol : 0 ≤ col < 8) by lia.
    pose proof (pow2_pos row ltac:(lia)). pose proof (Z.div_mod s (2 ^ row) ltac:(lia)). pose proof (Z.mod_pos_bound s (2 ^ row) ltac:(lia)).
    assert (Hsz : Z.shiftl (8 + Z.land (8 * row + col + 1) 7) (Z.shiftr (8 * row + col + 1) 3) = (9 + col) * 2 ^ row).
    { destruct (decide (col = 7)) as [->|].
      - replace (8 * row + 7 + 1) with (8 * (row + 1) + 0) by lia. rewrite (proj1 (bucket_min_row (row + 1) 0 ltac:(lia) ltac:(lia))), pow2_succ by lia. lia.
      - rewrite <- Z.add_assoc, (proj1 (bucket_min_row row (col + 1) ltac:(lia) ltac:(lia))). f_equal. lia. }
    rewrite Hsz. pose proof (bucket_min_next row col Hr Hcol) as Hbm. pose proof (row_column_range s row ltac:(lia) ltac:(lia) Hl) as Hmax. fold col in Hmax.
    assert (Hs22 : s < 2 ^ 22) by lia. assert (Hmax' : 8 * row + col ≤ 151).
    { destruct (decide (8 * row + col = 152)) as [E2|]; [|lia]. assert (row = 19 ∧ col = 0) as [-> ->] by lia. lia. }
    change NUMBER_OF_BUCKETS with 136. rewrite (proj2 (Z.ltb_lt _ _)) by lia. eexists _, _. split; [done|]. split; [lia|].
    rewrite <- Hbm. pose proof (bucket_min_aligned (8 * row + col + 1 + 15 - 32) ltac:(lia)) as [Hal Hle]. assert (s < bucket_min (8 * row + col + 1 + 15 - 32)) by lia.
    assert (Hm : m ≤ bucket_min (8 * row + col + 1 + 15 - 32)).
    { pose proof (Z.div_mod m 8 ltac:(lia)). pose proof (Z.div_mod (bucket_min (8 * row + col + 1 + 15 - 32)) 8 ltac:(lia)). lia. }
    split; [lia|]. split; [lia|]. split; [done|]. apply Hfin; [lia|lia|by left].
Qed.

(** ** The bitmap *)

(** The bitmap [bits] says which of the lists [L] are not empty. *)
Record bits_inv (bits : list Z) (L : list (list Z)) : Prop := {
  bi_len : length bits = 5%nat;
  bi_range i w : bits !! i = Some w → 0 ≤ w < 2 ^ 32;
  bi_bit j w : 0 ≤ j < 160 → bits !! Z.to_nat (j / 32) = Some w →
    Z.testbit w (31 - j mod 32) = true ↔ ∃ l, L !! Z.to_nat j = Some l ∧ l ≠ [] }.

Lemma bits_word bits L j : bits_inv bits L → 0 ≤ j < 160 → ∃ w, bits !! Z.to_nat (j / 32) = Some w ∧ 0 ≤ w < 2 ^ 32.
Proof.
  intros Hb Hj. assert (0 ≤ j / 32 < 5) by (split; [apply Z.div_pos; lia|apply Z.div_lt_upper_bound; lia]).
  destruct (lookup_lt_is_Some_2 bits (Z.to_nat (j / 32))) as [w Hw]; [rewrite (bi_len _ _ Hb); lia|]. exists w. split; [done|]. by apply (bi_range _ _ Hb _ _ Hw).
Qed.

Lemma at_some {A} (l : list A) i : 0 ≤ i → at_ l i = l !! Z.to_nat i.
Proof. intros Hi. unfold at_. by rewrite (proj2 (Z.ltb_ge _ _)) by lia. Qed.

Lemma put_some {A} (l : list A) i x : 0 ≤ i < zlen l → put l i x = Some (<[Z.to_nat i := x]> l).
Proof. intros Hi. unfold put. rewrite (proj2 (Z.leb_le _ _)), (proj2 (Z.ltb_lt _ _)) by lia. done. Qed.

Lemma bit_of_eq j : bit_of j = 2 ^ (31 - j mod 32).
Proof. unfold bit_of. change 0x1f with (2 ^ 5 - 1). rewrite land_ones_mod, Z.shiftl_1_l by lia. done. Qed.

Lemma shiftr5 j : Z.shiftr j 5 = j / 32.
Proof. by rewrite Z.shiftr_div_pow2 by lia. Qed.

(** The highest bit of a word of the bitmap below position [32 - k]. *)
Lemma top_bit w k : 0 ≤ k < 32 → 0 ≤ w < 2 ^ 32 → let m := Z.land (2 ^ (32 - k) - 1) w in
  (m = 0 ∧ ∀ p, 0 ≤ p < 32 - k → Z.testbit w p = false) ∨
  (m ≠ 0 ∧ 0 ≤ Z.log2 m < 32 - k ∧ Z.testbit w (Z.log2 m) = true).
Proof.
  intros Hk Hw m. assert (Hm : m = w mod 2 ^ (32 - k)) by (unfold m; by rewrite Z.land_comm, land_ones_mod by lia).
  assert (Hbit : ∀ p, 0 ≤ p < 32 - k → Z.testbit m p = Z.testbit w p) by (intros p Hp; rewrite Hm; apply Z.mod_pow2_bits_low; lia).
  destruct (decide (m = 0)) as [E|E]; [left|right]; split; try done.
  - intros p Hp. by rewrite <- (Hbit p Hp), E, Z.bits_0.
  - pose proof (Z.mod_pos_bound w (2 ^ (32 - k)) (pow2_pos (32 - k) ltac:(lia))).
    assert (Hl : 0 ≤ Z.log2 m < 32 - k) by (split; [apply Z.log2_nonneg|apply Z.log2_lt_pow2; lia]).
    split; [done|]. rewrite <- (Hbit _ Hl). apply Z.bit_log2. lia.
Qed.

Definition nonempty (L : list (list Z)) (j : Z) : Prop := ∃ l, L !! Z.to_nat j = Some l ∧ l ≠ [].

(** What a look at one word of the bitmap finds, from bucket [32 * q + k] on. *)
Lemma word_scan bits L q k w :
  bits_inv bits L → 0 ≤ q < 5 → 0 ≤ k < 32 → bits !! Z.to_nat q = Some w → let m := Z.land (2 ^ (32 - k) - 1) w in
  (m = 0 ∧ ∀ j, 32 * q + k ≤ j < 32 * q + 32 → ¬ nonempty L j) ∨
  (m ≠ 0 ∧ 32 * q + k ≤ 32 * q + clz32 m < 32 * q + 32 ∧ nonempty L (32 * q + clz32 m)).
Proof.
  intros Hb Hq Hk Hw m. unfold clz32.
  assert (Hx : ∀ r, 0 ≤ r < 32 → Z.testbit w (31 - r) = true ↔ nonempty L (32 * q + r)).
  { intros r Hr. rewrite <- (bi_bit _ _ Hb (32 * q + r) w).
    - f_equiv. f_equal. f_equal. apply (Z.mod_unique_pos _ _ q); lia.
    - lia.
    - rewrite <- Hw. f_equal. f_equal. symmetry. apply (Z.div_unique_pos _ _ _ r); lia. }
  destruct (top_bit w k Hk (bi_range _ _ Hb _ _ Hw)) as [[E H0]|(E & Hl & Ht)]; fold m in E; [left|right]; (split; [done|]).
  - intros j Hj Hne. replace j with (32 * q + (j - 32 * q)) in Hne by lia. apply Hx in Hne; [|lia]. rewrite H0 in Hne; [done|lia].
  - fold m in Hl, Ht. split; [lia|]. apply Hx; [lia|]. by replace (31 - (31 - Z.log2 m)) with (Z.log2 m) by lia.
Qed.

Definition found (L : list (list Z)) (index b : Z) : Prop :=
  (b = -1 ∧ ∀ j, index ≤ j < 160 → ¬ nonempty L j) ∨ (index ≤ b < 160 ∧ nonempty L b).

Lemma find_loop_ok h L k q :
  bits_inv (free_list_bits h) L → 0 ≤ q ≤ 5 → 5 ≤ q + Z.of_nat k → ∃ b, find_loop k h (32 * q) = Some b ∧ found L (32 * q) b.
Proof.
  intros Hb. revert q. induction k as [|k IH]; intros q Hq Hk; cbn [find_loop].
  - exists (-1). split; [done|]. left. split; [done|]. intros j Hj. lia.
  - change NUMBER_OF_BUCKETS with 136. destruct (_ <=? _) eqn:E; zb.
    2: { exists (-1). split; [done|]. left. split; [done|]. intros j Hj. lia. }
    rewrite shiftr5, at_some by (apply Z.div_pos; lia). replace (32 * q / 32) with q by (rewrite Z.mul_comm, Z.div_mul; lia).
    destruct (lookup_lt_is_Some_2 (free_list_bits h) (Z.to_nat q)) as [w Hw]; [rewrite (bi_len _ _ Hb); lia|]. rewrite Hw. cbn [mbind option_bind].
    pose proof (bi_range _ _ Hb _ _ Hw) as Hr. assert (Hm : Z.land (2 ^ (32 - 0) - 1) w = w) by (rewrite Z.land_comm, land_ones_mod by lia; apply Z.mod_small; lia).
    destruct (word_scan _ _ q 0 w Hb ltac:(lia) ltac:(lia) Hw) as [[E0 Hn]|(E0 & Hl & Hn)]; rewrite Hm in *.
    + rewrite E0. cbn [negb Z.eqb]. replace (32 * q + 32) with (32 * (q + 1)) by lia. destruct (IH (q + 1) ltac:(lia) ltac:(lia)) as (b & -> & Hf).
      exists b. split; [done|]. destruct Hf as [[-> Hf]|[Hf1 Hf2]]; [left|right; split; [lia|done]]. split; [done|]. intros j Hj.
      destruct (decide (j < 32 * q + 32)); [apply Hn; lia|apply Hf; lia].
    + rewrite (proj2 (Z.eqb_neq _ _)) by done. cbn [negb]. eexists. split; [done|]. right. split; [lia|done].
Qed.

Lemma find_ok h L index :
  bits_inv (free_list_bits h) L → 0 ≤ index < 136 → ∃ b, find_nonempty_bucket h index = Some b ∧ found L index b.
Proof.
  intros Hb Hi. unfold find_nonempty_bucket. rewrite bit_of_eq, shiftr5, at_some by (apply Z.div_pos; lia).
  pose proof (Z.div_mod index 32 ltac:(lia)) as Hdm. pose proof (Z.mod_pos_bound index 32 ltac:(lia)) as Hk. set (q := index / 32) in *. set (k := index mod 32) in *.
  destruct (bits_word _ _ index Hb ltac:(lia)) as (w & Hw & Hr). fold q in Hw. rewrite Hw. cbn [mbind option_bind].
  assert (Hmask : u32 ((2 ^ (31 - k) - 1) * 2 + 1) = 2 ^ (32 - k) - 1).
  { replace (2 ^ (32 - k)) with (2 * 2 ^ (31 - k)) by (rewrite <- pow2_succ by lia; f_equal; lia). pose proof (pow2_pos (31 - k) ltac:(lia)).
    pose proof (pow2_le (31 - k) 31 ltac:(lia)). rewrite u32_id by (unfold is_u32; lia). lia. }
  rewrite Hmask. assert (Hq : 0 ≤ q < 5) by lia. destruct (word_scan _ _ q k w Hb Hq ltac:(lia) Hw) as [[E0 Hn]|(E0 & Hl & Hn)].
  - rewrite E0. cbn [negb Z.eqb]. destruct (roundup_spec (index + 1) 5 ltac:(lia) ltac:(lia) ltac:(lia)) as [H1 H2]. change (2 ^ 5) with 32 in *.
    assert (Hrd : ROUNDUP (index + 1) 32 = 32 * (q + 1)) by (pose proof (Z.div_mod (ROUNDUP (index + 1) 32) 32 ltac:(lia)); lia). rewrite Hrd.
    destruct (find_loop_ok h L (Z.to_nat BUCKET_WORDS) (q + 1) Hb ltac:(lia)) as (b & -> & Hf); [change (Z.of_nat (Z.to_nat BUCKET_WORDS)) with 5; lia|].
    exists b. split; [done|]. destruct Hf as [[-> Hf]|[Hf1 Hf2]]; [left|right; split; [lia|done]]. split; [done|]. intros j Hj.
    destruct (decide (j < 32 * q + 32)); [apply Hn; lia|apply Hf; lia].
  - rewrite (proj2 (Z.eqb_neq _ _)) by done. cbn [negb]. change (Z.lnot 0x1f) with (Z.lnot (2 ^ 5 - 1)).
    fold (ROUNDDOWN index (2 ^ 5)). rewrite rounddown_eq by lia. change (2 ^ 5) with 32. fold k. replace (index - k) with (32 * q) by lia.
    eexists. split; [done|]. right. split; [lia|done].
Qed.

(** Setting and clearing the bit of a bucket. *)
Lemma bits_update bits L j w l (b : bool) :
  bits_inv bits L → 0 ≤ j < 136 → length L = 136%nat → bits !! Z.to_nat (j / 32) = Some w → (b = true ↔ l ≠ []) →
  bits_inv (<[Z.to_nat (j / 32) := if b then Z.lor w (2 ^ (31 - j mod 32)) else Z.ldiff w (2 ^ (31 - j mod 32))]> bits) (<[Z.to_nat j := l]> L).
Proof.
  intros Hb Hj HL Hw Hbl. pose proof (bi_range _ _ Hb _ _ Hw) as Hr. pose proof (Z.mod_pos_bound j 32 ltac:(lia)) as Hk.
  set (p := 31 - j mod 32) in *. set (w' := if b then _ else _).
  assert (Hbit : ∀ n, 0 ≤ n → Z.testbit w' n = if decide (n = p) then b else Z.testbit w n).
  { intros n Hn. unfold w'. destruct b; rewrite ?Z.lor_spec, ?Z.ldiff_spec, Z.pow2_bits_eqb by lia; case_decide as En.
    - rewrite En, Z.eqb_refl. apply orb_true_r.
    - rewrite (proj2 (Z.eqb_neq _ _)) by lia. apply orb_false_r.
    - rewrite En, Z.eqb_refl. apply andb_false_r.
    - rewrite (proj2 (Z.eqb_neq _ _)) by lia. apply andb_true_r. }
  assert (Hlen : (Z.to_nat (j / 32) < length bits)%nat) by (apply lookup_lt_is_Some; eauto). split.
  - rewrite length_insert. apply (bi_len _ _ Hb).
  - intros i x Hx. apply list_lookup_insert_Some in Hx as [(<- & <- & _)|[_ Hx]]; [|by apply (bi_range _ _ Hb _ _ Hx)].
    assert (0 ≤ w') by (unfold w'; destruct b; [apply Z.lor_nonneg; split; [lia|apply Z.pow_nonneg; lia]|apply Z.ldiff_nonneg; left; lia]). split; [done|].
    destruct (decide (w' = 0)) as [->|]; [lia|]. apply Z.log2_lt_pow2; [lia|].
    destruct (decide (Z.log2 w' < 32)) as [|Hge]; [done|]. pose proof (Z.bit_log2 w' ltac:(lia)) as Ht. rewrite Hbit in Ht by lia.
    rewrite decide_False in Ht by lia. rewrite (Z.bits_above_log2 w) in Ht; [done|lia|]. destruct (decide (w = 0)) as [->|]; [cbn; lia|]. apply Z.log2_lt_pow2; [lia|]. pose proof (pow2_le 32 (Z.log2 w')). lia.
  - intros i x Hi Hx. apply list_lookup_insert_Some in Hx as [(Eq & <- & _)|[Hne Hx]].
    + assert (Hij : i / 32 = j / 32) by (apply Z2Nat.inj in Eq; [done|apply Z.div_pos; lia..]). pose proof (Z.mod_pos_bound i 32 ltac:(lia)). rewrite Hbit by lia. case_decide as Ep.
      * assert (i = j) as -> by (pose proof (Z.div_mod i 32 ltac:(lia)); pose proof (Z.div_mod j 32 ltac:(lia)); lia).
        rewrite list_lookup_insert_eq by lia. rewrite Hbl. split; [by exists l|]. by intros (l' & [= <-] & ?).
      * rewrite list_lookup_insert_ne; [apply (bi_bit _ _ Hb); [done|by rewrite Hij]|]. intros Hn. apply Z2Nat.inj in Hn; [|lia..]. subst i. done.
    + rewrite list_lookup_insert_ne; [by apply (bi_bit _ _ Hb)|]. intros Hn. apply Z2Nat.inj in Hn; [|lia..]. by subst i.
Qed.

Lemma bits_keep bits L j l l' :
  bits_inv bits L → L !! Z.to_nat j = Some l → l ≠ [] → l' ≠ [] → bits_inv bits (<[Z.to_nat j := l']> L).
Proof.
  intros Hb Hl Hne Hne'. split; [apply (bi_len _ _ Hb)|apply (bi_range _ _ Hb)|]. intros i w Hi Hw. rewrite (bi_bit _ _ Hb i w Hi Hw).
  destruct (decide (Z.to_nat i = Z.to_nat j)) as [->|Hij]; [|by rewrite list_lookup_insert_ne]. rewrite Hl, list_lookup_insert_eq by (by apply lookup_lt_Some in Hl).
  split; intros (? & [= <-] & _); eauto.
Qed.

(** ** Linked lists *)

Definition first (l : list Z) (q : Z) : Z := match l with [] => q | x :: _ => x end.
Definition last_ (p : Z) (l : list Z) : Z := default p (last l).

(** The areas [l] are linked in the memory [w], after [p] and before [q]. *)
Fixpoint linked (w : gmap Z Z) (p : Z) (l : list Z) (q : Z) : Prop :=
  match l with
  | [] => True
  | x :: l' => w !! (x + 24) = Some p ∧ w !! (x + 16) = Some (first l' q) ∧ linked w x l' q
  end.

Lemma last_app p l1 x l2 : last_ p (l1 ++ x :: l2) = last_ x l2.
Proof. unfold last_. rewrite last_app. by destruct l2 using rev_ind; [|rewrite last_snoc; cbn; rewrite app_comm_cons, last_snoc]. Qed.

Lemma linked_app w p l1 l2 q : linked w p (l1 ++ l2) q ↔ linked w p l1 (first l2 q) ∧ linked w (last_ p l1) l2 q.
Proof.
  revert p. induction l1 as [|x l1 IH]; intros p; cbn [app linked]; [naive_solver|]. rewrite IH.
  assert (E : last_ p (x :: l1) = last_ x l1) by (apply (last_app p [] x l1)). rewrite E.
  assert (F : first (l1 ++ l2) q = first l1 (first l2 q)) by (by destruct l1). rewrite F. naive_solver.
Qed.

Definition spaced (l : list Z) : Prop := NoDup l ∧ ∀ x y, x ∈ l → y ∈ l → x ≠ y → x + 32 ≤ y ∨ y + 32 ≤ x.

Lemma spaced_app l1 l2 : spaced (l1 ++ l2) → spaced l1 ∧ spaced l2 ∧ ∀ x y, x ∈ l1 → y ∈ l2 → x + 32 ≤ y ∨ y + 32 ≤ x.
Proof.
  intros [Hn Hs]. apply NoDup_app in Hn as (H1 & Hd & H2). split_and!.
  - split; [done|]. intros x y Hx Hy. apply Hs; set_solver.
  - split; [done|]. intros x y Hx Hy. apply Hs; set_solver.
  - intros x y Hx Hy. apply Hs; [set_solver|set_solver|]. intros <-. by apply (Hd x).
Qed.

Lemma linked_frame w w' p l q :
  (∀ x, x ∈ l → w' !! (x + 16) = w !! (x + 16) ∧ w' !! (x + 24) = w !! (x + 24)) → linked w p l q → linked w' p l q.
Proof.
  revert p. induction l as [|x l IH]; intros p Hf; cbn [linked]; [done|]. intros (H1 & H2 & H3).
  destruct (Hf x ltac:(by left)) as [-> ->]. split; [done|]. split; [done|]. apply IH; [|done]. intros y Hy. apply Hf. by right.
Qed.

(** The last area gets a new successor, the first a new predecessor. *)
Lemma linked_set_next w p l y q q' : spaced (l ++ [y]) → linked w p (l ++ [y]) q → linked (<[y + 16 := q']> w) p (l ++ [y]) q'.
Proof.
  intros Hs Hl. apply linked_app in Hl as [H1 (H2 & _ & _)]. cbn [first] in H1. apply spaced_app in Hs as (_ & _ & Hd). apply linked_app. split; cbn [first].
  - eapply linked_frame; [|done]. intros x Hx. specialize (Hd x y Hx ltac:(by left)). rewrite !lookup_insert_ne by lia. done.
  - cbn [linked first]. rewrite lookup_insert_eq, lookup_insert_ne by lia. done.
Qed.

Lemma linked_set_prev w p p' y l q : spaced (y :: l) → linked w p (y :: l) q → linked (<[y + 24 := p']> w) p' (y :: l) q.
Proof.
  intros Hs (H1 & H2 & H3). apply (spaced_app [y] l) in Hs as (_ & _ & Hd). cbn [linked]. rewrite lookup_insert_eq, lookup_insert_ne by lia. split_and!; [done..|].
  eapply linked_frame; [|done]. intros x Hx. specialize (Hd y x ltac:(by left) Hx). rewrite !lookup_insert_ne by lia. done.
Qed.

(** ** Free lists *)

Ltac hsimp := cbn [words heap_size remaining free_lists free_list_bits set_words set_size set_remaining set_lists set_bits].

(** The lists of [h] hold the areas [F], given with their sizes. *)
Record lists_inv (h : heap) (F : gmap Z Z) (L : list (list Z)) : Prop := {
  li_len : length L = 136%nat;
  li_heads : free_lists h = (λ l, first l 0) <$> L;
  li_linked j l : L !! j = Some l → linked (words h) 0 l 0;
  li_member j l x : L !! j = Some l → x ∈ l ↔ ∃ s, F !! x = Some s ∧ size_to_index_freeing (s - 16) = Some (Z.of_nat j);
  li_nodup j l : L !! j = Some l → NoDup l;
  li_bits : bits_inv (free_list_bits h) L;
  li_area x s : F !! x = Some s → 0 < x ∧ 32 ≤ s ≤ max_area ∧ s mod 8 = 0 ∧ words h !! (x + 8) = Some s;
  li_spaced x y s t : F !! x = Some s → F !! y = Some t → x ≠ y → x + 32 ≤ y ∨ y + 32 ≤ x }.

(** The links of the areas of [F]. *)
Definition link_word (F : gmap Z Z) (z : Z) : Prop := ∃ x, is_Some (F !! x) ∧ (z = x + 16 ∨ z = x + 24).

(** [w'] is [w] but for words in [P]. *)
Definition touched (w w' : gmap Z Z) (P : Z → Prop) : Prop :=
  (∀ z, is_Some (w' !! z) ↔ is_Some (w !! z)) ∧ ∀ z, ¬ P z → w' !! z = w !! z.

Lemma touched_refl w P : touched w w P.
Proof. done. Qed.
Lemma touched_weaken w w' (P Q : Z → Prop) : touched w w' P → (∀ z, P z → Q z) → touched w w' Q.
Proof. intros [Hd Ht] HPQ. split; [done|]. intros z Hz. apply Ht. eauto. Qed.
Lemma touched_trans w w1 w2 P : touched w w1 P → touched w1 w2 P → touched w w2 P.
Proof. intros [Hd1 Ht1] [Hd2 Ht2]. split; [intros z; by rewrite Hd2|]. intros z Hz. by rewrite Ht2, Ht1. Qed.

Lemma word_store_ok h a v : is_Some (words h !! a) → store h a v = Some (set_words h (<[a := v]> (words h))).
Proof. intros Ha. unfold store. by rewrite bool_decide_eq_true_2. Qed.

Lemma touched_insert w a v P : is_Some (w !! a) → P a → touched w (<[a := v]> w) P.
Proof.
  intros Ha HP. split; intros z; (destruct (decide (z = a)) as [->|]; [rewrite lookup_insert_eq|rewrite lookup_insert_ne by done]); done.
Qed.

Lemma lists_member h F L x s :
  lists_inv h F L → F !! x = Some s →
  ∃ j l1 l2, size_to_index_freeing (s - 16) = Some j ∧ 0 ≤ j < 136 ∧ L !! Z.to_nat j = Some (l1 ++ x :: l2).
Proof.
  intros Hi Hx. destruct (li_area _ _ _ Hi x s Hx) as (_ & Hs & Ha & _).
  destruct (index_freeing (s - 16)) as (j & Ej & Hj & _); [unfold max_area in *; lia|rewrite Zminus_mod, Ha; done|].
  destruct (lookup_lt_is_Some_2 L (Z.to_nat j)) as [l Hl]; [rewrite (li_len _ _ _ Hi); lia|].
  assert (Hin : x ∈ l) by (apply (li_member _ _ _ Hi _ _ x Hl); exists s; rewrite Z2Nat.id by lia; done).
  apply list_elem_of_split in Hin as (l1 & l2 & ->). by exists j, l1, l2.
Qed.

Lemma lists_spaced h F L j l : lists_inv h F L → L !! j = Some l → spaced l.
Proof.
  intros Hi Hl. split; [by apply (li_nodup _ _ _ Hi j)|]. intros x y Hx Hy. apply (li_member _ _ _ Hi _ _ _ Hl) in Hx as (s & Hx & _), Hy as (t & Hy & _).
  by apply (li_spaced _ _ _ Hi x y s t).
Qed.

(** Members of different lists are different areas. *)
Lemma lists_disjoint h F L i j l l' x : lists_inv h F L → L !! i = Some l → L !! j = Some l' → x ∈ l → x ∈ l' → i = j.
Proof.
  intros Hi Hl Hl' Hx Hy. apply (li_member _ _ _ Hi _ _ _ Hl) in Hx as (s & Hx & E). apply (li_member _ _ _ Hi _ _ _ Hl') in Hy as (t & Hy & E').
  rewrite Hx in Hy. injection Hy as <-. rewrite E in E'. injection E' as E'. lia.
Qed.

Lemma lists_head h F L j l : lists_inv h F L → 0 ≤ j → L !! Z.to_nat j = Some l → at_ (free_lists h) j = Some (first l 0).
Proof. intros Hi Hj Hl. rewrite at_some, (li_heads _ _ _ Hi), list_lookup_fmap, Hl by done. done. Qed.

Lemma member_area h F L j l x : lists_inv h F L → L !! j = Some l → x ∈ l → ∃ s, F !! x = Some s ∧ size_to_index_freeing (s - 16) = Some (Z.of_nat j).
Proof. intros Hi Hl. by apply (li_member _ _ _ Hi _ _ x Hl). Qed.

(** The memory after [unlink_free] of [x], between [l1] and [l2]. *)
Definition unlinked (w : gmap Z Z) (l1 l2 : list Z) : gmap Z Z :=
  let w1 := if decide (l1 = []) then w else <[last_ 0 l1 + 16 := first l2 0]> w in
  if decide (l2 = []) then w1 else <[first l2 0 + 24 := last_ 0 l1]> w1.

Lemma last_in p l : l ≠ [] → last_ p l ∈ l.
Proof.
  intros Hl. unfold last_. destruct (last l) as [y|] eqn:E; [by apply last_Some_elem_of|]. by apply last_None in E.
Qed.
Lemma first_in l q : l ≠ [] → first l q ∈ l.
Proof. destruct l; [done|]. by left. Qed.

Lemma linked_next w p l1 x l2 q : linked w p (l1 ++ x :: l2) q → w !! (x + 24) = Some (last_ p l1) ∧ w !! (x + 16) = Some (first l2 q).
Proof. intros Hl. apply linked_app in Hl as [_ (H1 & H2 & _)]. done. Qed.

(** Outside the links of the neighbours nothing changes; the neighbours are linked
    to each other. *)
Lemma unlinked_other w l1 l2 z :
  (∀ y, y ∈ l1 ++ l2 → z ≠ y + 16 ∧ z ≠ y + 24) → unlinked w l1 l2 !! z = w !! z.
Proof.
  intros Hz. unfold unlinked. repeat case_decide; [done|..]; rewrite ?lookup_insert_ne; try done; (apply Hz, elem_of_app; auto using first_in, last_in) || idtac.
  all: try (apply not_eq_sym, Hz, elem_of_app; auto using first_in, last_in).
Qed.

Lemma unlinked_linked w x l1 l2 :
  spaced (l1 ++ x :: l2) → linked w 0 (l1 ++ x :: l2) 0 → linked (unlinked w l1 l2) 0 (l1 ++ l2) 0.
Proof.
  intros Hs Hl. apply linked_app in Hl as [H1 (_ & _ & H2)]. cbn [first] in H1. apply spaced_app in Hs as (Hs1 & Hs2 & Hd).
  apply (spaced_app [x] l2) in Hs2 as (_ & Hs2 & _). apply linked_app. unfold unlinked.
  set (w1 := if decide (l1 = []) then w else <[last_ 0 l1 + 16 := first l2 0]> w). split.
  - assert (Hw1 : linked w1 0 l1 (first l2 0)).
    { unfold w1. case_decide as E; [by rewrite E|]. destruct l1 as [|y l1' _] using rev_ind; [done|]. rewrite (last_app 0 l1' y []). by apply (linked_set_next w 0 l1' y x). }
    clearbody w1. case_decide as E; [exact Hw1|]. eapply linked_frame; [|exact Hw1]. intros y Hy. pose proof (first_in l2 0 E) as Hf.
    specialize (Hd y (first l2 0) Hy ltac:(by right)). rewrite !lookup_insert_ne by lia. done.
  - assert (Hw2 : linked w1 x l2 0).
    { unfold w1. case_decide as E; [done|]. eapply linked_frame; [|exact H2]. intros y Hy. specialize (Hd _ y (last_in 0 l1 E) ltac:(by right)). rewrite !lookup_insert_ne by lia. done. }
    clearbody w1. case_decide as E; [by rewrite E|]. destruct l2 as [|y l2]; [done|]. cbn [first]. by apply (linked_set_prev _ x).
Qed.

(** ** [unlink_free] *)

Lemma unlinked_touched h F L j x s l1 l2 :
  lists_inv h F L → L !! j = Some (l1 ++ x :: l2) → F !! x = Some s →
  touched (words h) (unlinked (words h) l1 l2) (link_word (delete x F)).
Proof.
  intros Hi Hl Hx. pose proof (lists_spaced _ _ _ _ _ Hi Hl) as [Hnd _].
  assert (Hmem : ∀ y, y ∈ l1 ++ l2 → is_Some (delete x F !! y) ∧ is_Some (words h !! (y + 16)) ∧ is_Some (words h !! (y + 24))).
  { intros y Hy. assert (Hyx : y ≠ x) by (intros ->; apply NoDup_app in Hnd as (_ & Hd & Hn2); apply list.NoDup_cons in Hn2; set_solver).
    assert (Hy' : y ∈ l1 ++ x :: l2) by set_solver. destruct (member_area _ _ _ _ _ y Hi Hl Hy') as (t & Ht & _). rewrite lookup_delete_ne by done.
    split; [eauto|]. apply list_elem_of_split in Hy' as (m1 & m2 & Em). pose proof (li_linked _ _ _ Hi _ _ Hl) as Hk. rewrite Em in Hk.
    apply linked_next in Hk as [-> ->]. eauto. }
  unfold unlinked. set (w1 := if decide (l1 = []) then words h else _).
  assert (Ht1 : touched (words h) w1 (link_word (delete x F))).
  { unfold w1. case_decide as E; [apply touched_refl|]. destruct (Hmem (last_ 0 l1)) as (H1 & H2 & _); [apply elem_of_app; left; by apply last_in|].
    apply touched_insert; [done|]. exists (last_ 0 l1). auto. }
  clearbody w1. apply (touched_trans _ w1); [done|]. case_decide as E; [apply touched_refl|].
  destruct (Hmem (first l2 0)) as (H1 & _ & H3); [apply elem_of_app; right; by apply first_in|].
  apply touched_insert; [by apply Ht1|]. exists (first l2 0). auto.
Qed.

Definition unlinked_heap (h : heap) (s j : Z) (l1 l2 : list Z) : heap :=
  mk_heap (unlinked (words h) l1 l2) (heap_size h) (remaining h - s) (<[Z.to_nat j := first (l1 ++ l2) 0]> (free_lists h))
    (if decide (l1 ++ l2 = []) then <[Z.to_nat (j / 32) := Z.ldiff (default 0 (free_list_bits h !! Z.to_nat (j / 32))) (2 ^ (31 - j mod 32))]> (free_list_bits h)
     else free_list_bits h).

(** Decide which lists are empty. *)
Ltac dnil := cbn [app]; repeat (rewrite decide_True by done || rewrite decide_False by done).

Lemma unlink_free_eq h F L x s j l1 l2 :
  lists_inv h F L → F !! x = Some s → 0 ≤ j < 136 → L !! Z.to_nat j = Some (l1 ++ x :: l2) → s ≤ remaining h < 4000000000 →
  unlink_free h x j = Some (unlinked_heap h s j l1 l2).
Proof.
  intros Hi Hx Hj Hl Hr. destruct (li_area _ _ _ Hi x s Hx) as (Hx0 & Hs & _ & Hsz). pose proof (lists_spaced _ _ _ _ _ Hi Hl) as [Hnd _].
  pose proof (linked_next _ _ _ _ _ _ (li_linked _ _ _ Hi _ _ Hl)) as [Hpv Hnx].
  assert (Hpos : ∀ y, y ∈ l1 ++ x :: l2 → 0 < y) by (intros y Hy; destruct (member_area _ _ _ _ _ y Hi Hl Hy) as (t & Ht & _); by apply (li_area _ _ _ Hi y t)).
  destruct (unlinked_touched _ _ _ _ _ _ _ _ Hi Hl Hx) as [Hdom _].
  unfold unlink_free, header_size, free_next, free_prev, load. rewrite Hsz. cbn [mbind option_bind]. hsimp.
  rewrite u64_id by (unfold is_u64; lia). rewrite (proj2 (Z.ltb_lt _ _)), Hnx, Hpv by lia. cbn [mbind option_bind].
  rewrite (lists_head h F L j _ Hi ltac:(lia) Hl). cbn [mbind option_bind]. unfold unlinked_heap, unlinked in *.
  destruct (bits_word _ _ j (li_bits _ _ _ Hi) ltac:(lia)) as (w & Hw & _). rewrite Hw. cbn [default].
  assert (Hlen : zlen (free_lists h) = 136) by (unfold zlen; rewrite (li_heads _ _ _ Hi), length_fmap, (li_len _ _ _ Hi); done).
  assert (Hst1 : l1 ≠ [] → is_Some (words h !! (last_ 0 l1 + 16))).
  { intros E. pose proof (last_in 0 l1 E) as Hin. assert (Hy : last_ 0 l1 ∈ l1 ++ x :: l2) by set_solver. apply list_elem_of_split in Hy as (m1 & m2 & Em).
    pose proof (li_linked _ _ _ Hi _ _ Hl) as Hk. rewrite Em in Hk. apply linked_next in Hk as [_ ->]. eauto. }
  assert (Hst2 : l2 ≠ [] → is_Some (words h !! (first l2 0 + 24))).
  { intros E. pose proof (first_in l2 0 E) as Hin. assert (Hy : first l2 0 ∈ l1 ++ x :: l2) by set_solver. apply list_elem_of_split in Hy as (m1 & m2 & Em).
    pose proof (li_linked _ _ _ Hi _ _ Hl) as Hk. rewrite Em in Hk. apply linked_next in Hk as [-> _]. eauto. }
  destruct l1 as [|y1 l1].
  - cbn [app first last_ default last]. rewrite (Z.eqb_refl x), put_some by lia. cbn [mbind option_bind Z.eqb negb].
    destruct l2 as [|y2 l2]; cbn [first].
    + cbn [Z.eqb]. unfold clear_free_list_bit. hsimp. rewrite shiftr5, at_some by (apply Z.div_pos; lia). rewrite Hw. cbn [mbind option_bind].
      rewrite put_some, bit_of_eq; [by dnil|]. split; [apply Z.div_pos; lia|]. unfold zlen. apply lookup_lt_Some in Hw. assert (0 ≤ j / 32) by (apply Z.div_pos; lia). lia.
    + assert (Hy2 : 0 < y2) by (apply Hpos; set_solver). rewrite (proj2 (Z.eqb_neq _ _)) by lia. cbn [mbind option_bind negb].
      rewrite word_store_ok by (apply Hst2; done). hsimp. by dnil.
  - assert (Hy1 : 0 < y1) by (apply Hpos; set_solver). assert (Hne : y1 ≠ x) by (intros ->; apply list.NoDup_cons in Hnd as [Hn _]; set_solver).
    change (first ((y1 :: l1) ++ x :: l2) 0) with y1. rewrite (proj2 (Z.eqb_neq _ _) Hne). cbn [mbind option_bind].
    assert (Hlast : 0 < last_ 0 (y1 :: l1)) by (apply Hpos, elem_of_app; left; by apply last_in). rewrite (proj2 (Z.eqb_neq (last_ 0 (y1 :: l1)) 0)) by lia. cbn [negb].
    rewrite word_store_ok by (apply Hst1; done). cbn [mbind option_bind]. hsimp.
    change (first ((y1 :: l1) ++ l2) 0) with y1. rewrite list_insert_id.
    2: { rewrite (li_heads _ _ _ Hi), list_lookup_fmap, Hl. done. }
    destruct l2 as [|y2 l2]; cbn [first].
    + cbn [Z.eqb negb]. by dnil.
    + assert (Hy2 : 0 < y2) by (apply Hpos; set_solver). rewrite (proj2 (Z.eqb_neq _ _)) by lia. cbn [negb]. rewrite word_store_ok.
      * hsimp. by dnil.
      * cbn [words]. apply lookup_insert_is_Some. destruct (decide (last_ 0 (y1 :: l1) + 16 = y2 + 24)); [by left|right]. split; [done|]. by apply Hst2.
Qed.

Lemma unlinked_inv h F L x s j l1 l2 :
  lists_inv h F L → F !! x = Some s → 0 ≤ j < 136 → size_to_index_freeing (s - 16) = Some j → L !! Z.to_nat j = Some (l1 ++ x :: l2) →
  lists_inv (unlinked_heap h s j l1 l2) (delete x F) (<[Z.to_nat j := l1 ++ l2]> L).
Proof.
  intros Hi Hx Hj Ej Hl. pose proof (lists_spaced _ _ _ _ _ Hi Hl) as Hsp. pose proof Hsp as [Hnd _].
  assert (Hx12 : x ∉ l1 ++ l2) by (apply NoDup_app in Hnd as (_ & Hd & Hn2); apply list.NoDup_cons in Hn2; set_solver).
  assert (Hlt : (Z.to_nat j < length L)%nat) by (rewrite (li_len _ _ _ Hi); lia).
  destruct (unlinked_touched _ _ _ _ _ _ _ _ Hi Hl Hx) as [_ Htch]. split; cbn [words free_lists free_list_bits unlinked_heap].
  - rewrite length_insert. apply (li_len _ _ _ Hi).
  - rewrite (li_heads _ _ _ Hi). by rewrite list_fmap_insert.
  - intros i l Hil. apply list_lookup_insert_Some in Hil as [(<- & <- & _)|[Hne Hil]]; [apply unlinked_linked with x; [done|by apply (li_linked _ _ _ Hi _ _ Hl)]|].
    eapply linked_frame; [|by apply (li_linked _ _ _ Hi _ _ Hil)]. intros y Hy.
    assert (Hyl : ∀ z, z ∈ l1 ++ l2 → y + 32 ≤ z ∨ z + 32 ≤ y).
    { intros z Hz. destruct (member_area _ _ _ _ _ y Hi Hil Hy) as (t & Ht & _). destruct (member_area _ _ _ _ _ z Hi Hl ltac:(set_solver)) as (u & Hu & _).
      apply (li_spaced _ _ _ Hi y z t u Ht Hu). intros ->. apply Hne. by apply (lists_disjoint _ _ _ _ _ _ _ z Hi Hl Hil); [set_solver|]. }
    split; apply unlinked_other; intros z Hz; specialize (Hyl z Hz); lia.
  - intros i l y Hil. apply list_lookup_insert_Some in Hil as [(<- & <- & _)|[Hne Hil]].
    + rewrite Z2Nat.id by lia. split.
      * intros Hy. assert (Hyx : y ≠ x) by (by intros ->). apply (li_member _ _ _ Hi _ _ y) in Hl as Hm. destruct (proj1 Hm ltac:(set_solver)) as (t & Ht & Et).
        rewrite Z2Nat.id in Et by lia. exists t. by rewrite lookup_delete_ne by done.
      * intros (t & [Hyx Ht]%lookup_delete_Some & Et). assert (y ∈ l1 ++ x :: l2); [|set_solver]. apply (li_member _ _ _ Hi _ _ y Hl). exists t. by rewrite Z2Nat.id by lia.
    + rewrite (li_member _ _ _ Hi _ _ y Hil). split.
      * intros (t & Ht & Et). exists t. rewrite lookup_delete_ne; [done|]. intros <-. rewrite Hx in Ht. injection Ht as <-. rewrite Ej in Et. injection Et as Et. lia.
      * intros (t & [_ Ht]%lookup_delete_Some & Et). eauto.
  - intros i l Hil. apply list_lookup_insert_Some in Hil as [(<- & <- & _)|[Hne Hil]]; [|by apply (li_nodup _ _ _ Hi _ _ Hil)].
    apply NoDup_app in Hnd as (Hn1 & Hd & Hn2). apply list.NoDup_cons in Hn2 as [_ Hn2]. apply NoDup_app. split_and!; [done| |done]. set_solver.
  - pose proof (li_bits _ _ _ Hi) as Hb. destruct (bits_word _ _ j Hb ltac:(lia)) as (w & Hw & _). rewrite Hw. cbn [default]. case_decide as E.
    + rewrite E. apply (bits_update _ _ j w [] false Hb Hj (li_len _ _ _ Hi) Hw). done.
    + apply bits_keep with (l1 ++ x :: l2); [done|done|by destruct l1|done].
  - intros y t [Hyx Hy]%lookup_delete_Some. destruct (li_area _ _ _ Hi y t Hy) as (? & ? & ? & ?). do 3 (split; [done|]).
    rewrite Htch; [done|]. intros (z & [u [Hzx Hz]%lookup_delete_Some] & Hzz). destruct (decide (z = y)); [lia|]. pose proof (li_spaced _ _ _ Hi z y u t Hz Hy). lia.
  - intros y z t u [_ Hy]%lookup_delete_Some [_ Hz]%lookup_delete_Some. by apply (li_spaced _ _ _ Hi y z t u).
Qed.

(** ** [memset] *)

Lemma memset_loop_ok k c lo hi : ∀ w x, (∀ z, x ≤ z < x + 8 * Z.of_nat k → (z - x) mod 8 = 0 → is_Some (w !! z)) →
  ∃ w', memset_loop k w x lo hi c = Some w' ∧ touched w w' (λ z, x ≤ z < x + 8 * Z.of_nat k ∧ (z - x) mod 8 = 0).
Proof.
  induction k as [|k IH]; intros w x Hm; cbn [memset_loop].
  - exists w. split; [done|]. apply touched_refl.
  - destruct (Hm x ltac:(lia)) as [old Hold]; [by rewrite Z.sub_diag|]. rewrite Hold. cbn [mbind option_bind].
    destruct (IH (<[x := mix_word old (c * 0x0101010101010101) x lo hi]> w) (x + 8)) as (w' & E & Ht).
    { intros z Hz Ha. rewrite lookup_insert_ne by lia. apply Hm; [lia|]. replace (z - x) with (z - (x + 8) + 1 * 8) by lia. by rewrite Z.mod_add. }
    exists w'. split; [done|]. apply (touched_trans _ (<[x := mix_word old (c * 0x0101010101010101) x lo hi]> w)).
    + apply touched_insert; [by eexists|]. rewrite Z.sub_diag. split; [lia|done].
    + eapply touched_weaken; [done|]. intros z [Hz Ha]. split; [lia|]. replace (z - x) with (z - (x + 8) + 1 * 8) by lia. by rewrite Z.mod_add.
Qed.

(** The whole of the range from [lo] to [hi] is memory. *)
Definition mapped (w : gmap Z Z) (lo hi : Z) : Prop := ∀ z, lo ≤ z < hi → z mod 8 = 0 → is_Some (w !! z).

Lemma mapped_touched w w' P lo hi : touched w w' P → mapped w lo hi → mapped w' lo hi.
Proof. intros [Hd _] Hm z Hz Ha. apply Hd. by apply Hm. Qed.

Lemma mapped_within w lo hi lo' hi' : mapped w lo hi → lo ≤ lo' → hi' ≤ hi → mapped w lo' hi'.
Proof. intros Hm H1 H2 z Hz. apply Hm. lia. Qed.

Lemma fill_words h s c n lo hi :
  0 ≤ n → mapped (words h) lo hi → lo mod 8 = 0 → hi mod 8 = 0 → lo ≤ s → s + n ≤ hi →
  ∃ w', memset h s c n = Some (set_words h w') ∧ touched (words h) w' (λ z, lo ≤ z < hi ∧ s - 8 < z < s + n).
Proof.
  intros Hn Hm Hlo Hhi Hls Hsh. unfold memset. destruct (n =? 0) eqn:E; zb.
  { exists (words h). split; [by destruct h|]. apply touched_refl. }
  pose proof (Z.div_mod s 8 ltac:(lia)). pose proof (Z.mod_pos_bound s 8 ltac:(lia)). pose proof (Z.div_mod (s + n + 7) 8 ltac:(lia)). pose proof (Z.mod_pos_bound (s + n + 7) 8 ltac:(lia)).
  pose proof (Z.div_mod lo 8 ltac:(lia)). pose proof (Z.div_mod hi 8 ltac:(lia)). unfold word_count.
  assert (Hk : Z.of_nat (Z.to_nat ((s + n + 7) / 8 - s / 8)) = (s + n + 7) / 8 - s / 8) by (rewrite Z2Nat.id; lia).
  destruct (memset_loop_ok (Z.to_nat ((s + n + 7) / 8 - s / 8)) c s (s + n) (words h) (s / 8 * 8)) as (w' & Ew & Ht).
  { intros z Hz Ha. rewrite Hk in Hz. apply Hm; [lia|]. replace z with (z - s / 8 * 8 + s / 8 * 8) by lia. by rewrite Z.mod_add. }
  rewrite Ew. cbn [mbind option_bind]. exists w'. split; [done|]. rewrite Hk in Ht. split; [apply Ht|]. intros z Hz.
  apply Ht. intros [Hz2 Ha]. apply Hz. pose proof (Z.div_mod (z - s / 8 * 8) 8 ltac:(lia)). lia.
Qed.

(** ** [create_free_area] *)

Lemma lists_frame h h' F L :
  free_lists h' = free_lists h → free_list_bits h' = free_list_bits h →
  (∀ y t z, F !! y = Some t → y + 8 ≤ z < y + 32 → words h' !! z = words h !! z) → lists_inv h F L → lists_inv h' F L.
Proof.
  intros E1 E2 Hf [Hl Hh Hk Hm Hn Hb Ha Hs]. split; rewrite ?E1, ?E2; try done.
  - intros j l Hj. eapply linked_frame; [|by eapply Hk]. intros x Hx. apply (Hm _ _ _ Hj) in Hx as (s & Hx & _). split; apply (Hf x s); (done || lia).
  - intros x s Hx. destruct (Ha x s Hx) as (? & ? & ? & ?). do 3 (split; [done|]). rewrite (Hf x s); [done|done|lia].
Qed.

Definition pushed (w : gmap Z Z) (x : Z) (l : list Z) : gmap Z Z :=
  <[x + 24 := 0]> (<[x + 16 := first l 0]> (if decide (l = []) then w else <[first l 0 + 24 := x]> w)).

Lemma pushed_lookup w x l z :
  pushed w x l !! z = if decide (z = x + 24) then Some 0 else if decide (z = x + 16) then Some (first l 0) else
    if decide (l ≠ [] ∧ z = first l 0 + 24) then Some x else w !! z.
Proof.
  unfold pushed. destruct (decide (z = x + 24)) as [->|]; [by rewrite lookup_insert_eq|]. rewrite lookup_insert_ne by done.
  destruct (decide (z = x + 16)) as [->|]; [by rewrite lookup_insert_eq|]. rewrite lookup_insert_ne by done.
  destruct (decide (l = [])) as [->|Hl]; [by rewrite decide_False by naive_solver|].
  destruct (decide (z = first l 0 + 24)) as [->|]; [by rewrite lookup_insert_eq, decide_True|]. by rewrite lookup_insert_ne, decide_False by naive_solver.
Qed.

Definition pushed_heap (h : heap) (x s j : Z) (l : list Z) : heap :=
  mk_heap (pushed (words h) x l) (heap_size h) (remaining h + s) (<[Z.to_nat j := x]> (free_lists h))
    (<[Z.to_nat (j / 32) := Z.lor (default 0 (free_list_bits h !! Z.to_nat (j / 32))) (2 ^ (31 - j mod 32))]> (free_list_bits h)).

Lemma pushed_inv h F L x s j l :
  lists_inv h F L → F !! x = None → 0 < x → 32 ≤ s ≤ max_area → s mod 8 = 0 → words h !! (x + 8) = Some s →
  (∀ y t, F !! y = Some t → x + 32 ≤ y ∨ y + 32 ≤ x) → 0 ≤ j < 136 → size_to_index_freeing (s - 16) = Some j → L !! Z.to_nat j = Some l →
  lists_inv (pushed_heap h x s j l) (<[x := s]> F) (<[Z.to_nat j := x :: l]> L).
Proof.
  intros Hi Hx Hx0 Hs Ha Hw Hsp Hj Ej Hl. assert (Hlt : (Z.to_nat j < length L)%nat) by (rewrite (li_len _ _ _ Hi); lia).
  assert (Hmem : ∀ i l' y, L !! i = Some l' → y ∈ l' → y ≠ x ∧ (x + 32 ≤ y ∨ y + 32 ≤ x)).
  { intros i l' y Hi' Hy. destruct (member_area _ _ _ _ _ y Hi Hi' Hy) as (t & Ht & _). split; [congruence|by apply (Hsp y t)]. }
  split; cbn [words free_lists free_list_bits pushed_heap].
  - rewrite length_insert. apply (li_len _ _ _ Hi).
  - rewrite (li_heads _ _ _ Hi). by rewrite list_fmap_insert.
  - intros i l' Hil. apply list_lookup_insert_Some in Hil as [(<- & <- & _)|[Hne Hil]].
    + cbn [linked]. rewrite !pushed_lookup. rewrite decide_True by done. rewrite decide_False, decide_True by lia. split; [done|]. split; [done|].
      pose proof (li_linked _ _ _ Hi _ _ Hl) as Hk. pose proof (lists_spaced _ _ _ _ _ Hi Hl) as Hls. destruct l as [|y l]; [done|].
      eapply linked_frame; [|apply (linked_set_prev (words h) 0 x y l 0 Hls Hk)]. intros z Hz. destruct (Hmem _ _ z Hl Hz) as [Hzx Hzs]. rewrite !pushed_lookup. cbn [first].
      rewrite !(decide_False (P := _ = x + 24)), !(decide_False (P := _ = x + 16)) by lia. split; case_decide as Ed.
      * destruct Ed as [_ Ed]. destruct (decide (z = y)) as [->|Hzy]; [lia|]. destruct Hls as [_ Hls]. specialize (Hls z y Hz ltac:(by left) Hzy). lia.
      * rewrite lookup_insert_ne; [done|]. intros E. apply Ed. split; [done|lia].
      * destruct Ed as [_ Ed]. replace (z + 24) with (y + 24) by lia. by rewrite lookup_insert_eq.
      * rewrite lookup_insert_ne; [done|]. intros E. apply Ed. split; [done|lia].
    + eapply linked_frame; [|by apply (li_linked _ _ _ Hi _ _ Hil)]. intros z Hz. destruct (Hmem _ _ z Hil Hz) as [Hzx Hzs]. rewrite !pushed_lookup.
      rewrite !(decide_False (P := _ = x + 24)), !(decide_False (P := _ = x + 16)) by lia.
      split; (rewrite decide_False; [done|]; intros [Hne' Ed]); pose proof (first_in l 0 Hne') as Hf; destruct (member_area _ _ _ _ _ _ Hi Hl Hf) as (t & Ht & _);
        destruct (member_area _ _ _ _ _ _ Hi Hil Hz) as (u & Hu & _); (destruct (decide (first l 0 = z)) as [E|Hd]; [rewrite E in Hf; apply Hne; by apply (lists_disjoint _ _ _ _ _ _ _ z Hi Hl Hil)|]);
        pose proof (li_spaced _ _ _ Hi _ _ _ _ Ht Hu Hd); lia.
  - intros i l' y Hil. apply list_lookup_insert_Some in Hil as [(<- & <- & _)|[Hne Hil]].
    + rewrite Z2Nat.id by lia. rewrite elem_of_cons, (li_member _ _ _ Hi _ _ y Hl), Z2Nat.id by lia. split.
      * intros [->|(t & Ht & Et)]; [exists s; by rewrite lookup_insert_eq|]. exists t. rewrite lookup_insert_ne by congruence. done.
      * intros (t & [[<- <-]|[_ Ht]]%lookup_insert_Some & Et); [by left|right; eauto].
    + rewrite (li_member _ _ _ Hi _ _ y Hil). split.
      * intros (t & Ht & Et). exists t. rewrite lookup_insert_ne by congruence. done.
      * intros (t & [[<- <-]|[_ Ht]]%lookup_insert_Some & Et); [|eauto]. rewrite Ej in Et. injection Et as Et. lia.
  - intros i l' Hil. apply list_lookup_insert_Some in Hil as [(<- & <- & _)|[Hne Hil]]; [|by apply (li_nodup _ _ _ Hi _ _ Hil)].
    apply list.NoDup_cons. split; [|by apply (li_nodup _ _ _ Hi _ _ Hl)]. intros Hin. by destruct (Hmem _ _ x Hl Hin).
  - pose proof (li_bits _ _ _ Hi) as Hb. destruct (bits_word _ _ j Hb ltac:(lia)) as (w & Hww & _). rewrite Hww. cbn [default].
    by apply (bits_update _ _ j w (x :: l) true Hb Hj (li_len _ _ _ Hi) Hww).
  - intros y t [[<- <-]|[Hne Hy]]%lookup_insert_Some.
    + do 3 (split; [done|]). rewrite pushed_lookup, !decide_False; [done| |lia..]. intros [Hne' Ed]. pose proof (first_in l 0 Hne') as Hf. destruct (Hmem _ _ _ Hl Hf). lia.
    + destruct (li_area _ _ _ Hi y t Hy) as (? & ? & ? & ?). do 3 (split; [done|]). specialize (Hsp y t Hy). rewrite pushed_lookup, !decide_False; [done| |lia..].
      intros [Hne' Ed]. pose proof (first_in l 0 Hne') as Hf. destruct (member_area _ _ _ _ _ _ Hi Hl Hf) as (u & Hu & _).
      destruct (decide (first l 0 = y)); [lia|]. pose proof (li_spaced _ _ _ Hi _ _ _ _ Hu Hy). lia.
  - intros y z t u [[<- <-]|[Hne Hy]]%lookup_insert_Some [[<- <-]|[Hne' Hz]]%lookup_insert_Some Hyz; [done|by apply (Hsp z u)|specialize (Hsp y t Hy); lia|].
    by apply (li_spaced _ _ _ Hi y z t u).
Qed.

Lemma link_words h F L y t : lists_inv h F L → F !! y = Some t → is_Some (words h !! (y + 16)) ∧ is_Some (words h !! (y + 24)).
Proof.
  intros Hi Hy. destruct (lists_member _ _ _ _ _ Hi Hy) as (j & l1 & l2 & _ & _ & Hl).
  destruct (linked_next _ _ _ _ _ _ (li_linked _ _ _ Hi _ _ Hl)) as [-> ->]. eauto.
Qed.

Lemma unlink_free_ok h F L x s j :
  lists_inv h F L → F !! x = Some s → size_to_index_freeing (s - 16) = Some j → s ≤ remaining h < 4000000000 →
  ∃ h' l1 l2, unlink_free h x j = Some h' ∧ L !! Z.to_nat j = Some (l1 ++ x :: l2) ∧
    lists_inv h' (delete x F) (<[Z.to_nat j := l1 ++ l2]> L) ∧
    remaining h' = remaining h - s ∧ heap_size h' = heap_size h ∧ touched (words h) (words h') (link_word (delete x F)).
Proof.
  intros Hi Hx Ej Hr. destruct (lists_member _ _ _ _ _ Hi Hx) as (j' & l1 & l2 & Ej' & Hj & Hl). rewrite Ej in Ej'. injection Ej' as <-.
  exists (unlinked_heap h s j l1 l2), l1, l2. split; [by apply (unlink_free_eq h F L)|]. split; [done|]. split; [by apply unlinked_inv|].
  split; [done|]. split; [done|]. by apply (unlinked_touched h F L (Z.to_nat j) x s).
Qed.

Lemma unlink_unknown_ok h F L x s :
  lists_inv h F L → F !! x = Some s → s ≤ remaining h < 4000000000 →
  ∃ h' L', unlink_free_unknown_bucket h x = Some h' ∧ lists_inv h' (delete x F) L' ∧
    remaining h' = remaining h - s ∧ heap_size h' = heap_size h ∧ touched (words h) (words h') (link_word (delete x F)).
Proof.
  intros Hi Hx Hr. destruct (li_area _ _ _ Hi x s Hx) as (_ & Hs & Ha & Hw). unfold unlink_free_unknown_bucket, header_size, load. rewrite Hw. cbn [mbind option_bind].
  change sizeof_header with 16. rewrite u64_id by (unfold is_u64, max_area in *; lia). destruct (lists_member _ _ _ _ _ Hi Hx) as (j & l1 & l2 & Ej & Hj & Hl).
  rewrite Ej. cbn [mbind option_bind]. destruct (unlink_free_ok h F L x s j Hi Hx Ej Hr) as (h' & m1 & m2 & -> & _ & Hi' & Hrest). eauto.
Qed.

(** An area joins the list of its bucket. *)
Lemma push_area_ok h F L x s j l :
  lists_inv h F L → x mod 8 = 0 → 32 ≤ s ≤ max_area → mapped (words h) x (x + s) → size_to_index_freeing (s - 16) = Some j → 0 ≤ j < 136 → L !! Z.to_nat j = Some l →
  (index ← size_to_index_freeing (u64 (s - sizeof_header)); h ← set_free_list_bit h index; old_head ← at_ (free_lists h) index;
   h ← (if negb (old_head =? 0) then store h (old_head + 24) x else Some h); h ← store h (x + 16) old_head; h ← store h (x + 24) 0;
   l ← put (free_lists h) index x; Some (set_lists h l)) = Some (set_remaining (pushed_heap h x s j l) (remaining h)) ∧
  touched (words h) (pushed (words h) x l) (λ z, x ≤ z < x + s ∨ link_word F z).
Proof.
  intros Hi Hxa Hs Hm Ej Hj Hl. assert (Hmx : ∀ d, 0 ≤ d < s → d mod 8 = 0 → is_Some (words h !! (x + d))) by (intros d Hd Hda; apply Hm; [lia|]; by rewrite Z.add_mod, Hxa, Hda by lia).
  change sizeof_header with 16. rewrite (u64_id (s - 16)) by (unfold is_u64, max_area in *; lia). rewrite Ej. cbn [mbind option_bind].
  unfold set_free_list_bit. destruct (bits_word _ _ j (li_bits _ _ _ Hi) ltac:(lia)) as (w & Hw & _). rewrite shiftr5, at_some by (apply Z.div_pos; lia). rewrite Hw. cbn [mbind option_bind].
  assert (Hlb : 0 ≤ j / 32 < zlen (free_list_bits h)).
  { split; [apply Z.div_pos; lia|]. unfold zlen. apply lookup_lt_Some in Hw. assert (0 ≤ j / 32) by (apply Z.div_pos; lia). lia. }
  rewrite put_some, bit_of_eq by done. cbn [mbind option_bind]. hsimp. rewrite (lists_head h F L j l Hi ltac:(lia) Hl). cbn [mbind option_bind].
  set (h2 := set_bits h _). assert (Hfst : l ≠ [] → 0 < first l 0 ∧ is_Some (words h !! (first l 0 + 24)) ∧ is_Some (F !! first l 0)).
  { intros Hne. destruct (member_area _ _ _ _ _ _ Hi Hl (first_in l 0 Hne)) as (t & Ht & _). split; [by apply (li_area _ _ _ Hi _ _ Ht)|]. split; [|eauto]. by apply (link_words h F L _ t). }
  set (w2 := if decide (l = []) then words h else <[first l 0 + 24 := x]> (words h)).
  assert (E2 : (if negb (first l 0 =? 0) then store h2 (first l 0 + 24) x else Some h2) = Some (set_words h2 w2)).
  { unfold w2. case_decide as Hne; [subst l; by destruct h|]. destruct (Hfst Hne) as (H1 & H2 & _). rewrite (proj2 (Z.eqb_neq _ _)) by lia. cbn [negb]. by rewrite word_store_ok. }
  rewrite E2. cbn [mbind option_bind]. assert (Ht2 : touched (words h) w2 (λ z, x ≤ z < x + s ∨ link_word F z)).
  { unfold w2. case_decide as Hne; [apply touched_refl|]. destruct (Hfst Hne) as (_ & H2 & H3). apply touched_insert; [done|]. right. exists (first l 0). auto. }
  assert (Hm2 : ∀ d, 0 ≤ d < s → d mod 8 = 0 → is_Some (w2 !! (x + d))) by (intros; apply Ht2; by apply Hmx).
  rewrite word_store_ok by (hsimp; apply Hm2; [lia|done]). cbn [mbind option_bind]. hsimp.
  rewrite word_store_ok by (hsimp; rewrite lookup_insert_ne by lia; apply Hm2; [lia|done]). cbn [mbind option_bind]. hsimp.
  assert (Hlen : zlen (free_lists h) = 136) by (unfold zlen; rewrite (li_heads _ _ _ Hi), length_fmap, (li_len _ _ _ Hi); done). change (free_lists h2) with (free_lists h). rewrite put_some by lia. cbn [mbind option_bind]. hsimp. split.
  - unfold pushed_heap. by rewrite Hw.
  - eapply touched_trans; [exact Ht2|]. unfold pushed. fold w2. apply (touched_trans _ (<[x + 16 := first l 0]> w2)); apply touched_insert; [apply Hm2; [lia|done]|left; lia| |left; lia].
    rewrite lookup_insert_ne by lia. apply Hm2; [lia|done].
Qed.

Lemma create_ok h F L x left s j l :
  lists_inv h F L → F !! x = None → 0 < x → x mod 8 = 0 → 32 ≤ s ≤ max_area → s mod 8 = 0 → mapped (words h) x (x + s) →
  (∀ y t, F !! y = Some t → x + s ≤ y ∨ y + 32 ≤ x) → 0 ≤ remaining h < 4000000000 →
  size_to_index_freeing (s - 16) = Some j → 0 ≤ j < 136 → L !! Z.to_nat j = Some l →
  ∃ h', create_free_area h x left s false = Some h' ∧ lists_inv h' (<[x := s]> F) (<[Z.to_nat j := x :: l]> L) ∧
    remaining h' = remaining h + s ∧ heap_size h' = heap_size h ∧
    words h' !! x = Some (tag_as_free left) ∧ words h' !! (x + 8) = Some s ∧
    touched (words h) (words h') (λ z, x ≤ z < x + s ∨ link_word F z).
Proof.
  intros Hi Hx Hx0 Hxa Hs Hsa Hm Hsp Hr Ej Hj Hl. unfold create_free_area.
  assert (Hmx : ∀ d, 0 ≤ d < s → d mod 8 = 0 → is_Some (words h !! (x + d))) by (intros d Hd Hda; apply Hm; [lia|]; by rewrite Z.add_mod, Hxa, Hda by lia).
  rewrite word_store_ok by (apply Hmx; [lia|done]). cbn [mbind option_bind]. hsimp.
  rewrite word_store_ok by (hsimp; rewrite lookup_insert_ne by lia; rewrite <- (Z.add_0_r x); apply Hmx; [lia|done]). cbn [mbind option_bind]. hsimp.
  set (w1 := <[x := tag_as_free left]> (<[x + 8 := s]> (words h))). set (h1 := set_words (set_words h (<[x + 8 := s]> (words h))) w1).
  assert (Ht1 : touched (words h) w1 (λ z, x ≤ z < x + s ∨ link_word F z)).
  { apply (touched_trans _ (<[x + 8 := s]> (words h))); apply touched_insert; [apply Hmx; [lia|done]|left; lia| |left; lia].
    rewrite lookup_insert_ne by lia. rewrite <- (Z.add_0_r x). apply Hmx; [lia|done]. }
  assert (Hi1 : lists_inv h1 F L).
  { apply (lists_frame h); [done|done| |done]. intros y t z Hy Hz. specialize (Hsp y t Hy). unfold h1, w1. hsimp. by rewrite !lookup_insert_ne by lia. }
  assert (Hm1 : mapped (words h1) x (x + s)) by (by eapply mapped_touched).
  destruct (push_area_ok h1 F L x s j l Hi1 Hxa Hs Hm1 Ej Hj Hl) as [-> Ht3]. cbn [mbind option_bind]. hsimp. set (ph := pushed_heap h1 x s j l).
  rewrite (u64_id (remaining h1 + s)) by (change (remaining h1) with (remaining h); unfold is_u64, max_area in *; lia). change sizeof_free with 32. rewrite (u64_id (s - 32)) by (unfold is_u64, max_area in *; lia).
  assert (Hpi : lists_inv ph (<[x := s]> F) (<[Z.to_nat j := x :: l]> L)).
  { apply pushed_inv; try done; [|intros y t Hy; specialize (Hsp y t Hy); lia]. unfold h1, w1. hsimp. by rewrite lookup_insert_ne, lookup_insert_eq by lia. }
  change (set_remaining (set_remaining ph (remaining h1)) (remaining h1 + s)) with ph.
  destruct (fill_words ph (x + 32) FREE_FILL (s - 32) (x + 32) (x + s)) as (w4 & Ew & Ht4); [lia| |by rewrite Z.add_mod, Hxa by lia|by rewrite Z.add_mod, Hxa, Hsa by lia|lia|lia|].
  { eapply mapped_touched; [exact Ht3|]. eapply mapped_within; [exact Hm1|lia|lia]. }
  rewrite Ew. eexists. split; [done|]. cbn [ph pushed_heap words] in Ht4. split_and!; hsimp; [|done|done| | |].
  - apply (lists_frame ph); [done|done| |done]. intros y t z Hy Hz. hsimp. apply Ht4. intros [Hz2 _].
    apply lookup_insert_Some in Hy as [[<- <-]|[Hne Hy]]; [lia|]. specialize (Hsp y t Hy). lia.
  - rewrite (proj2 Ht4) by lia. rewrite pushed_lookup, !decide_False; [unfold h1, w1; hsimp; by rewrite lookup_insert_eq| |lia..].
    intros [Hne E]. destruct (member_area _ _ _ _ _ _ Hi Hl (first_in l 0 Hne)) as (t & Ht & _). specialize (Hsp _ t Ht). lia.
  - rewrite (proj2 Ht4) by lia. apply (li_area _ _ _ Hpi x s). by rewrite lookup_insert_eq.
  - eapply touched_trans; [exact Ht1|]. eapply touched_trans; [exact Ht3|]. eapply touched_weaken; [exact Ht4|]. intros z [Hz _]. left. lia.
Qed.
End HeapLists.
