(* ===== verification/HeapRanges.v ===== *)
(** * The ranges of the kernel heap

    The memory that the heap has from the page allocator is a set of ranges, each
    tiled by a sentinel, areas that are free or in use, and a sentinel.  [hinv] is the
    invariant: the headers in memory describe the tiling, no two free areas are
    neighbours, and the free lists of [HeapLists] hold exactly the free areas. *)

From stdpp Require Import base tactics numbers list list_numbers gmap.
From Stdlib Require Import ZArith Lia.
From S2P Require Import Prelude Heap HeapLists.
#[local] Open Scope Z_scope.

Module HeapRanges.
Import Heap HeapLists.

(** ** Tilings *)

(** Areas in memory order: whether they are free, and their sizes. *)
Notation areas := (list (bool * Z)).

(** A range from the page allocator: the size of the left sentinel, and the areas. *)
Record range := mk_range { sentinel : Z; items : areas }.

Fixpoint total (l : areas) : Z := match l with [] => 0 | (_, s) :: l' => s + total l' end.
Fixpoint free_total (l : areas) : Z := match l with [] => 0 | (f, s) :: l' => (if f then s else 0) + free_total l' end.

(** The address of the last area, or [left]. *)
Fixpoint last_area (left a : Z) (l : areas) : Z := match l with [] => left | (_, s) :: l' => last_area a (a + s) l' end.

Definition left_word (f : bool) (left : Z) : Z := if f then tag_as_free left else left.

(** The headers of the areas [l] from address [a] on, after the area at [left]:
    address, first word and second word. *)
Fixpoint headers (left a : Z) (l : areas) : list (Z * Z * Z) :=
  match l with [] => [] | (f, s) :: l' => (a, left_word f left, s) :: headers a (a + s) l' end.

Definition range_end (b : Z) (o : range) : Z := b + sentinel o + total (items o) + 16.

Definition range_headers (b : Z) (o : range) : list (Z * Z * Z) :=
  (b, 0, sentinel o) :: headers b (b + sentinel o) (items o) ++
  [(b + sentinel o + total (items o), last_area b (b + sentinel o) (items o), 0)].

(** The areas of kind [f], by address. *)
Fixpoint area_list (f : bool) (a : Z) (l : areas) : list (Z * Z) :=
  match l with [] => [] | (g, s) :: l' => (if Bool.eqb f g then [(a, s)] else []) ++ area_list f (a + s) l' end.

Definition area_ok (x : bool * Z) : Prop := 32 ≤ x.2 ∧ x.2 mod 8 = 0.

Fixpoint coalesced (l : areas) : Prop :=
  match l with
  | [] => True
  | (f, _) :: l' => coalesced l' ∧ match l' with (true, _) :: _ => f = false | _ => True end
  end.

Definition max_range : Z := max_area.

Record range_ok (b : Z) (o : range) : Prop := {
  ro_base : 0 < b ∧ b mod 4096 = 0;
  ro_sentinel : 16 ≤ sentinel o < 48 ∧ sentinel o mod 8 = 0;
  ro_areas : Forall area_ok (items o);
  ro_coalesced : coalesced (items o);
  ro_end : range_end b o mod 4096 = 0;
  ro_max : range_end b o ≤ b + max_range;
  ro_top : range_end b o ≤ 2 ^ 63 }.

Lemma total_app l1 l2 : total (l1 ++ l2) = total l1 + total l2.
Proof. induction l1 as [|[f s] l1 IH]; cbn [app total]; lia. Qed.
Lemma free_total_app l1 l2 : free_total (l1 ++ l2) = free_total l1 + free_total l2.
Proof. induction l1 as [|[f s] l1 IH]; cbn [app free_total]; lia. Qed.
Lemma last_area_app left a l1 l2 : last_area left a (l1 ++ l2) = last_area (last_area left a l1) (a + total l1) l2.
Proof.
  revert left a. induction l1 as [|[f s] l1 IH]; intros left a; cbn [app total last_area]; [by rewrite Z.add_0_r|]. rewrite IH. f_equal. lia.
Qed.
Lemma headers_app left a l1 l2 : headers left a (l1 ++ l2) = headers left a l1 ++ headers (last_area left a l1) (a + total l1) l2.
Proof.
  revert left a. induction l1 as [|[f s] l1 IH]; intros left a; cbn [app total last_area headers]; [by rewrite Z.add_0_r|]. rewrite IH. do 3 f_equal. lia.
Qed.
Lemma area_list_app f a l1 l2 : area_list f a (l1 ++ l2) = area_list f a l1 ++ area_list f (a + total l1) l2.
Proof.
  revert a. induction l1 as [|[g s] l1 IH]; intros a; cbn [app total area_list]; [by rewrite Z.add_0_r|]. rewrite IH, app_assoc. do 2 f_equal. lia.
Qed.

Lemma total_nonneg l : Forall area_ok l → 0 ≤ total l ∧ total l mod 8 = 0.
Proof.
  induction 1 as [|[f s] l [Hs Ha] Hl IH]; cbn [total]; [done|]. cbn in Hs, Ha. split; [lia|]. by rewrite Z.add_mod, Ha, (proj2 IH) by lia.
Qed.
Lemma free_total_le l : Forall area_ok l → 0 ≤ free_total l ≤ total l.
Proof. induction 1 as [|[f s] l [Hs Ha] Hl IH]; cbn [total free_total]; [done|]. cbn in Hs. destruct f; lia. Qed.

Definition ends_free (l : areas) : bool := match last l with Some (true, _) => true | _ => false end.
Definition starts_free (l : areas) : bool := match l with (true, _) :: _ => true | _ => false end.

Lemma coalesced_app l1 l2 : coalesced (l1 ++ l2) ↔ coalesced l1 ∧ coalesced l2 ∧ (ends_free l1 && starts_free l2 = false).
Proof.
  induction l1 as [|[f s] l1 IH]; cbn [app coalesced]; [naive_solver|]. rewrite IH. destruct l1 as [|[g t] l1].
  - cbn. unfold ends_free. cbn. destruct l2 as [|[[] t] l2], f; cbn; naive_solver.
  - assert (E : ends_free ((f, s) :: (g, t) :: l1) = ends_free ((g, t) :: l1)) by done. rewrite E. cbn [app]. destruct g; naive_solver.
Qed.

(** Where the areas of a list are. *)
Lemma area_list_range f a l x s :
  Forall area_ok l → (x, s) ∈ area_list f a l → ∃ l1 l2, l = l1 ++ (f, s) :: l2 ∧ x = a + total l1.
Proof.
  intros Hok. revert a. induction Hok as [|[g t] l [Ht Hta] Hl IH]; intros a; cbn [area_list]; [by intros ?%not_elem_of_nil|].
  rewrite elem_of_app. intros [Hx|Hx].
  - destruct (Bool.eqb f g) eqn:E; [|by apply not_elem_of_nil in Hx]. apply Bool.eqb_prop in E as ->. apply list_elem_of_singleton in Hx as [= -> ->].
    exists [], l. cbn. split; [done|lia].
  - destruct (IH _ Hx) as (l1 & l2 & -> & ->). exists ((g, t) :: l1), l2. cbn [app total]. split; [done|lia].
Qed.

Lemma area_list_in f a l1 s l2 : (a + total l1, s) ∈ area_list f a (l1 ++ (f, s) :: l2).
Proof. rewrite area_list_app. apply elem_of_app. right. cbn [area_list]. rewrite Bool.eqb_reflx. by left. Qed.

Lemma area_list_bounds f a l x s : Forall area_ok l → (x, s) ∈ area_list f a l → a ≤ x ∧ x + s ≤ a + total l ∧ 32 ≤ s ∧ s mod 8 = 0 ∧ (x - a) mod 8 = 0.
Proof.
  intros Hok Hx. destruct (area_list_range f a l x s Hok Hx) as (l1 & l2 & -> & ->). apply Forall_app in Hok as [H1 H2]. apply Forall_cons in H2 as [[Hs Ha] H2].
  apply total_nonneg in H1, H2. rewrite total_app. cbn [total]. cbn in Hs, Ha. replace (a + total l1 - a) with (total l1) by lia. lia.
Qed.

Lemma header_bounds left a l e : Forall area_ok l → e ∈ headers left a l → a ≤ e.1.1 ∧ e.1.1 + 32 ≤ a + total l.
Proof.
  intros Hok. revert left a. induction Hok as [|[g t] l [Ht Hta] Hl IH]; intros left a; cbn [headers]; [by intros ?%not_elem_of_nil|].
  apply total_nonneg in Hl as [Hl _]. cbn in Ht. cbn [total]. rewrite elem_of_cons. intros [->|He]; [cbn; lia|]. destruct (IH _ _ He). lia.
Qed.

(** ** The invariant *)

Definition is_area (O : gmap Z range) (f : bool) (x s : Z) : Prop :=
  ∃ b o, O !! b = Some o ∧ (x, s) ∈ area_list f (b + sentinel o) (items o).

Definition header_in (w : gmap Z Z) (e : Z * Z * Z) : Prop := w !! e.1.1 = Some e.1.2 ∧ w !! (e.1.1 + 8) = Some e.2.

Definition range_sum (f : areas → Z) (O : gmap Z range) : Z := map_fold (λ _ o acc, f (items o) + acc) 0 O.

Record ranges_ok (w : gmap Z Z) (O : gmap Z range) : Prop := {
  rs_range b o : O !! b = Some o → range_ok b o;
  rs_apart b c o p : O !! b = Some o → O !! c = Some p → b ≠ c → range_end b o ≤ c ∨ range_end c p ≤ b;
  rs_headers b o e : O !! b = Some o → e ∈ range_headers b o → header_in w e;
  rs_mapped b o : O !! b = Some o → mapped w b (range_end b o) }.

Definition frees_of (F : gmap Z Z) (O : gmap Z range) : Prop := ∀ x s, F !! x = Some s ↔ is_area O true x s.

Record hinv (h : heap) (O : gmap Z range) : Prop := {
  hv_ranges : ranges_ok (words h) O;
  hv_lists : ∃ F L, lists_inv h F L ∧ frees_of F O;
  hv_remaining : remaining h = range_sum free_total O;
  hv_total : range_sum total O < 4000000000 }.

Lemma range_sum_insert f O b o : O !! b = None → range_sum f (<[b := o]> O) = f (items o) + range_sum f O.
Proof. intros Hb. unfold range_sum. rewrite (map_fold_insert_L _ 0 b o O); [done| |done]. intros. lia. Qed.

Lemma range_sum_delete f O b o : O !! b = Some o → range_sum f O = f (items o) + range_sum f (delete b O).
Proof. intros Hb. rewrite <- (range_sum_insert f (delete b O) b o), insert_delete_id by (done || apply lookup_delete_eq). done. Qed.

Lemma range_sum_update f O b o o' : O !! b = Some o → range_sum f (<[b := o']> O) = range_sum f O + f (items o') - f (items o).
Proof. intros Hb. rewrite (range_sum_delete f O b o Hb), <- insert_delete_eq, range_sum_insert by apply lookup_delete_eq. lia. Qed.

Lemma range_sum_le O : (∀ b o, O !! b = Some o → Forall area_ok (items o)) → 0 ≤ range_sum free_total O ≤ range_sum total O.
Proof.
  induction O as [|b o O Hb IH] using map_ind; intros Hok; [done|]. rewrite !range_sum_insert by done.
  pose proof (free_total_le (items o) (Hok b o ltac:(by rewrite lookup_insert_eq))). assert (0 ≤ range_sum free_total O ≤ range_sum total O); [|lia].
  apply IH. intros c p Hc. apply (Hok c). rewrite lookup_insert_ne by congruence. done.
Qed.

(** Two areas, or an area and a header, do not overlap. *)
Lemma split_bounds b z l1 mid l2 :
  Forall area_ok (l1 ++ mid ++ l2) → 0 ≤ total l1 ∧ 0 ≤ total mid ∧ 0 ≤ total l2 ∧ total (l1 ++ mid ++ l2) = total l1 + total mid + total l2 ∧
  range_end b (mk_range z (l1 ++ mid ++ l2)) = b + z + total l1 + total mid + total l2 + 16.
Proof.
  rewrite !Forall_app. intros (H1 & H2 & H3). apply total_nonneg in H1, H2, H3. unfold range_end. cbn [sentinel items]. rewrite !total_app. lia.
Qed.

Lemma area_in_range O w f x s b o :
  ranges_ok w O → O !! b = Some o → (x, s) ∈ area_list f (b + sentinel o) (items o) → b + 16 ≤ x ∧ x + s + 16 ≤ range_end b o ∧ 32 ≤ s ∧ s mod 8 = 0 ∧ x mod 8 = 0.
Proof.
  intros Hr Hb Hx. destruct (rs_range _ _ Hr b o Hb) as [[Hb0 Hba] [Hs Hsa] Ha _ _ _ _]. apply area_list_bounds in Hx as (H1 & H2 & H3 & H4 & H5); [|done].
  unfold range_end. do 4 (split; [lia|]). replace x with (x - (b + sentinel o) + (b + sentinel o)) by lia.
  assert (b mod 8 = 0) by (pose proof (Z.div_mod b 4096 ltac:(lia)); replace b with (512 * (b / 4096) * 8) by lia; apply Z_mod_mult).
  assert ((b + sentinel o) mod 8 = 0) as E by (rewrite Z.add_mod, Hsa by lia; replace (b mod 8) with 0 by lia; done). by rewrite Z.add_mod, H5, E by lia.
Qed.

Lemma same_range_apart b o f g x s y t :
  range_ok b o → (x, s) ∈ area_list f (b + sentinel o) (items o) → (y, t) ∈ area_list g (b + sentinel o) (items o) →
  (x = y ∧ s = t ∧ f = g) ∨ x + s ≤ y ∨ y + t ≤ x.
Proof.
  intros [_ _ Ha _ _ _ _] Hx Hy. destruct (area_list_range _ _ _ _ _ Ha Hx) as (l1 & l2 & E & ->). rewrite E in Hy, Ha. rewrite area_list_app in Hy.
  apply Forall_app in Ha as [H1 H2]. apply Forall_cons in H2 as [_ H2]. apply elem_of_app in Hy as [Hy|Hy].
  - apply area_list_bounds in Hy; [|done]. lia.
  - cbn [area_list] in Hy. apply elem_of_app in Hy as [Hy|Hy].
    + destruct (Bool.eqb g f) eqn:Eg; [|by apply not_elem_of_nil in Hy]. apply Bool.eqb_prop in Eg as ->. apply list_elem_of_singleton in Hy as [= -> ->]. by left.
    + apply area_list_bounds in Hy; [|done]. lia.
Qed.

Lemma areas_apart w O f g x s y t :
  ranges_ok w O → is_area O f x s → is_area O g y t → (x = y ∧ s = t ∧ f = g) ∨ x + s ≤ y ∨ y + t ≤ x.
Proof.
  intros Hr (b & o & Hb & Hx) (c & p & Hc & Hy). destruct (decide (b = c)) as [->|Hne].
  - rewrite Hb in Hc. injection Hc as <-. eapply same_range_apart; eauto using rs_range.
  - destruct (area_in_range _ _ _ _ _ _ _ Hr Hb Hx) as (? & ? & ? & _). destruct (area_in_range _ _ _ _ _ _ _ Hr Hc Hy) as (? & ? & ? & _).
    destruct (rs_apart _ _ Hr b c o p Hb Hc Hne); lia.
Qed.

Lemma header_in_range b o e : range_ok b o → e ∈ range_headers b o → b ≤ e.1.1 ∧ e.1.1 + 16 ≤ range_end b o.
Proof.
  intros [[Hb0 Hba] [Hs Hsa] Ha _ _ _ _] He. pose proof (total_nonneg _ Ha) as [Hn _]. unfold range_end. apply elem_of_cons in He as [->|He]; [cbn; lia|].
  apply elem_of_app in He as [He|He]; [apply header_bounds in He; [lia|done]|]. apply list_elem_of_singleton in He as ->. cbn. lia.
Qed.

(** A header is at the start of an area, or outside it. *)
Lemma header_apart w O f x s b o e :
  ranges_ok w O → is_area O f x s → O !! b = Some o → e ∈ range_headers b o → e.1.1 = x ∨ e.1.1 + 16 ≤ x ∨ x + s ≤ e.1.1.
Proof.
  intros Hr (c & p & Hc & Hx) Hb He. pose proof (rs_range _ _ Hr b o Hb) as [[Hb0 Hba] [Hs Hsa] Ha _ _ _ _]. pose proof (total_nonneg _ Ha) as [Hn _].
  pose proof (header_in_range _ _ _ (rs_range _ _ Hr b o Hb) He) as Hin.
  destruct (decide (b = c)) as [->|Hne].
  - rewrite Hb in Hc. injection Hc as <-. destruct (area_list_range _ _ _ _ _ Ha Hx) as (l1 & l2 & E & ->). unfold range_headers in He. rewrite E in He, Ha.
    apply Forall_app in Ha as [H1 H2]. apply Forall_cons in H2 as [_ H2]. pose proof (total_nonneg _ H1). pose proof (total_nonneg _ H2).
    apply elem_of_cons in He as [->|He]; [cbn; lia|]. apply elem_of_app in He as [He|He]; [|apply list_elem_of_singleton in He as ->; cbn; rewrite total_app; cbn [total]; lia].
    rewrite headers_app in He. cbn [headers] in He. apply elem_of_app in He as [He|[->|He]%elem_of_cons]; [|by left|].
    + apply header_bounds in He; [lia|done].
    + apply header_bounds in He; [lia|done].
  - destruct (area_in_range _ _ _ _ _ _ _ Hr Hc Hx) as (? & ? & ? & _). destruct (rs_apart _ _ Hr b c o p Hb Hc Hne); lia.
Qed.

(** ** Replacing the areas in the middle of a range *)

Definition tail_headers (left a : Z) (l : areas) : list (Z * Z * Z) := headers left a l ++ [(a + total l, last_area left a l, 0)].

(** Only the first header after an area points to it. *)
Lemma tail_headers_cons a l : Forall area_ok l →
  ∃ s r, (∀ left, tail_headers left a l = (a, left_word (starts_free l) left, s) :: r) ∧ ∀ e, e ∈ r → a + 32 ≤ e.1.1.
Proof.
  intros Hok. destruct l as [|[f s] l].
  - exists 0, []. split; [|by intros e ?%not_elem_of_nil]. intros left. unfold tail_headers. cbn. by rewrite Z.add_0_r.
  - exists s, (tail_headers a (a + s) l). split.
    + intros left. unfold tail_headers. cbn [headers app total last_area]. rewrite Z.add_assoc. by destruct f.
    + apply Forall_cons in Hok as [[Hs _] Hok]. cbn in Hs. pose proof (total_nonneg _ Hok). intros e He. unfold tail_headers in He.
      apply elem_of_app in He as [He|He]; [apply header_bounds in He; [lia|done]|]. apply list_elem_of_singleton in He as ->. cbn. lia.
Qed.

Lemma range_headers_split b z l1 mid l2 :
  range_headers b (mk_range z (l1 ++ mid ++ l2)) =
  (b, 0, z) :: headers b (b + z) l1 ++ headers (last_area b (b + z) l1) (b + z + total l1) mid ++
    tail_headers (last_area (last_area b (b + z) l1) (b + z + total l1) mid) (b + z + total l1 + total mid) l2.
Proof.
  unfold range_headers, tail_headers. cbn [sentinel items]. rewrite !headers_app, !total_app, !last_area_app, <- !app_assoc. do 4 f_equal.
  by rewrite !Z.add_assoc.
Qed.

(** What a change of the areas [mid], which start at [a], writes to. *)
Definition changes (F : gmap Z Z) (a n y : Z) : Prop := a ≤ y < a + n ∨ y = a + n ∨ link_word F y.

Lemma link_word_area w O F y : ranges_ok w O → frees_of F O → link_word F y → ∃ x s, is_area O true x s ∧ x + 16 ≤ y < x + s ∧ (y = x + 16 ∨ y = x + 24).
Proof.
  intros Hr HF (x & [s Hs] & Hy). exists x, s. apply HF in Hs. split; [done|]. destruct Hs as (b & o & Hb & Hx).
  destruct (area_in_range _ _ _ _ _ _ _ Hr Hb Hx) as (_ & _ & ? & _). lia.
Qed.

(** No link is in a header. *)
Lemma header_no_link w O F b o e d :
  ranges_ok w O → frees_of F O → O !! b = Some o → e ∈ range_headers b o → 0 ≤ d < 16 → ¬ link_word F (e.1.1 + d).
Proof.
  intros Hr HF Hb He Hd Hy. destruct (link_word_area _ _ _ _ Hr HF Hy) as (x & s & Hx & Hxs & _). destruct (header_apart _ _ _ _ _ _ _ _ Hr Hx Hb He); lia.
Qed.

(** A header away from the change stays as it is. *)
Lemma header_kept w w' O F a n b o e d :
  ranges_ok w O → frees_of F O → touched w w' (changes F a n) → O !! b = Some o → e ∈ range_headers b o → 0 ≤ d < 16 →
  e.1.1 + 16 ≤ a ∨ a + n ≤ e.1.1 + d → e.1.1 + d ≠ a + n → w' !! (e.1.1 + d) = w !! (e.1.1 + d).
Proof.
  intros Hr HF Ht Hb He Hd Hout Hne. apply Ht. intros [Hy|[Hy|Hy]]; [lia|lia|]. by eapply header_no_link in Hy.
Qed.

Lemma range_sub w O b z l1 mid l2 :
  ranges_ok w O → O !! b = Some (mk_range z (l1 ++ mid ++ l2)) → mid ≠ [] →
  let a := b + z + total l1 in
  Forall area_ok l1 ∧ Forall area_ok mid ∧ Forall area_ok l2 ∧ 16 ≤ z < 48 ∧ 0 ≤ total l1 ∧ 32 ≤ total mid ∧ 0 ≤ total l2 ∧ 0 < b ∧
  range_end b (mk_range z (l1 ++ mid ++ l2)) = a + total mid + total l2 + 16.
Proof.
  intros Hr Hb Hne a. destruct (rs_range _ _ Hr _ _ Hb) as [[Hb0 _] [Hz _] Ha _ _ _ _]. cbn [items sentinel] in *. destruct (split_bounds b z l1 mid l2 Ha) as (H1 & H2 & H3 & H4 & H5).
  apply Forall_app in Ha as [Ha1 Ha]. apply Forall_app in Ha as [Ha2 Ha3]. do 3 (split; [done|]). unfold a. rewrite H5.
  destruct mid as [|[f s] mid]; [done|]. apply Forall_cons in Ha2 as [[Hs _] Ha2]. cbn in Hs. pose proof (total_nonneg _ Ha2). cbn [total] in *. lia.
Qed.

(** Headers of other ranges. *)
Lemma other_range_kept w w' O F b z l1 mid l2 c p e :
  ranges_ok w O → O !! b = Some (mk_range z (l1 ++ mid ++ l2)) → mid ≠ [] → frees_of F O → touched w w' (changes F (b + z + total l1) (total mid)) →
  O !! c = Some p → c ≠ b → e ∈ range_headers c p → header_in w' e.
Proof.
  intros Hr Hb Hne HF Ht Hc Hcb He. destruct (range_sub _ _ _ _ _ _ _ Hr Hb Hne) as (_ & _ & _ & Hz & H1 & H2 & H3 & _ & Hend). cbn zeta in *.
  destruct (rs_headers _ _ Hr c p e Hc He) as [E1 E2]. destruct (rs_range _ _ Hr c p Hc) as [_ [Hs _] Ha _ _ _ _]. pose proof (total_nonneg _ Ha).
  pose proof (header_in_range _ _ _ (rs_range _ _ Hr c p Hc) He) as Hin.
  destruct (rs_apart _ _ Hr c b p _ Hc Hb Hcb) as [Hap|Hap]; (split;
    [rewrite <- (Z.add_0_r e.1.1), (header_kept w w' O F (b + z + total l1) (total mid) c p e 0 Hr HF Ht Hc He), Z.add_0_r; (done || lia)
    |rewrite (header_kept w w' O F (b + z + total l1) (total mid) c p e 8 Hr HF Ht Hc He); (done || lia)]).
Qed.

Lemma same_range_kept w w' O F b z l1 mid mid' l2 e :
  ranges_ok w O → O !! b = Some (mk_range z (l1 ++ mid ++ l2)) → mid ≠ [] → frees_of F O → touched w w' (changes F (b + z + total l1) (total mid)) →
  let a := b + z + total l1 in let left := last_area b (b + z) l1 in
  total mid' = total mid → (∀ e, e ∈ headers left a mid' → header_in w' e) →
  w' !! (a + total mid) = Some (left_word (starts_free l2) (last_area left a mid')) →
  e ∈ range_headers b (mk_range z (l1 ++ mid' ++ l2)) → header_in w' e.
Proof.
  intros Hr Hb Hne HF Ht a left Htot Hmid Hnext He. destruct (range_sub _ _ _ _ _ _ _ Hr Hb Hne) as (Hl1 & _ & Hl2 & Hz & H1 & H2 & H3 & Hb0 & Hend). fold a in Hend.
  assert (Hold : ∀ e', e' ∈ range_headers b (mk_range z (l1 ++ mid ++ l2)) → e'.1.1 + 16 ≤ a ∨ a + total mid + 32 ≤ e'.1.1 → header_in w' e').
  { intros e' He' Hout. destruct (rs_headers _ _ Hr _ _ e' Hb He') as [E1 E2]. split.
    - rewrite <- (Z.add_0_r e'.1.1), (header_kept w w' O F a (total mid) b _ e' 0 Hr HF Ht Hb He'), Z.add_0_r; (done || lia).
    - rewrite (header_kept w w' O F a (total mid) b _ e' 8 Hr HF Ht Hb He'); (done || lia). }
  rewrite range_headers_split in He, Hold. fold a left in He, Hold. rewrite Htot in He.
  destruct (tail_headers_cons (a + total mid) l2 Hl2) as (s & r & Htl & Hrb). rewrite Htl in He, Hold.
  apply elem_of_cons in He as [->|He]; [apply Hold; [by left|cbn; unfold a; lia]|]. apply elem_of_app in He as [He|He].
  - apply Hold; [right; apply elem_of_app; by left|]. apply header_bounds in He; [unfold a; lia|done].
  - apply elem_of_app in He as [He|He]; [by apply Hmid|]. apply elem_of_cons in He as [->|He].
    + split; cbn; [exact Hnext|]. set (e' := (a + total mid, left_word (starts_free l2) (last_area left a mid), s)).
      assert (He' : e' ∈ range_headers b (mk_range z (l1 ++ mid ++ l2))).
      { rewrite range_headers_split. fold a left. rewrite Htl. right. apply elem_of_app. right. apply elem_of_app. right. by left. }
      etrans; [|exact (proj2 (rs_headers _ _ Hr _ _ e' Hb He'))]. apply (header_kept w w' O F a (total mid) b _ e' 8 Hr HF Ht Hb He'); cbn; lia.
    + apply Hold; [|right; by apply Hrb]. right. apply elem_of_app. right. apply elem_of_app. right. by right.
Qed.

Lemma replace_ranges w w' O F b z l1 mid mid' l2 :
  ranges_ok w O → O !! b = Some (mk_range z (l1 ++ mid ++ l2)) → mid ≠ [] → frees_of F O → touched w w' (changes F (b + z + total l1) (total mid)) →
  let a := b + z + total l1 in let left := last_area b (b + z) l1 in
  total mid' = total mid → Forall area_ok mid' → coalesced (l1 ++ mid' ++ l2) → (∀ e, e ∈ headers left a mid' → header_in w' e) →
  w' !! (a + total mid) = Some (left_word (starts_free l2) (last_area left a mid')) →
  ranges_ok w' (<[b := mk_range z (l1 ++ mid' ++ l2)]> O).
Proof.
  intros Hr Hb Hne HF Ht a left Htot Hok Hco Hmid Hnext. destruct (range_sub _ _ _ _ _ _ _ Hr Hb Hne) as (Hl1 & _ & Hl2 & _ & _ & _ & _ & _ & Hend).
  assert (He : range_end b (mk_range z (l1 ++ mid' ++ l2)) = range_end b (mk_range z (l1 ++ mid ++ l2))) by (unfold range_end; cbn [sentinel items]; rewrite !total_app; lia).
  split.
  - intros c p [[<- <-]|[Hcb Hc]]%lookup_insert_Some; [|by apply (rs_range _ _ Hr)]. destruct (rs_range _ _ Hr _ _ Hb) as [R1 R2 R3 R4 R5 R6 R7].
    split; rewrite ?He; try done. cbn [items]. rewrite !Forall_app. done.
  - intros c d p q Hc Hd Hcd. apply lookup_insert_Some in Hc as [[<- <-]|[Hcb Hc]], Hd as [[<- <-]|[Hdb Hd]]; rewrite ?He; [done| | |]; by apply (rs_apart _ _ Hr).
  - intros c p e [[<- <-]|[Hcb Hc]]%lookup_insert_Some Hin; [by eapply same_range_kept|]. eapply other_range_kept; eauto.
  - intros c p [[<- <-]|[Hcb Hc]]%lookup_insert_Some; rewrite ?He; (eapply mapped_touched; [exact Ht|]); by apply (rs_mapped _ _ Hr).
Qed.

Lemma replace_areas w O b z l1 mid mid' l2 f x s :
  ranges_ok w O → O !! b = Some (mk_range z (l1 ++ mid ++ l2)) → mid ≠ [] → total mid' = total mid → Forall area_ok mid' →
  let a := b + z + total l1 in
  is_area (<[b := mk_range z (l1 ++ mid' ++ l2)]> O) f x s ↔ (x, s) ∈ area_list f a mid' ∨ (is_area O f x s ∧ ¬ (a ≤ x < a + total mid)).
Proof.
  intros Hr Hb Hne Htot Hok a. destruct (range_sub _ _ _ _ _ _ _ Hr Hb Hne) as (Hl1 & Hm & Hl2 & Hz & H1 & H2 & H3 & Hb0 & Hend). fold a in Hend.
  assert (Hsp : ∀ m, area_list f (b + z) (l1 ++ m ++ l2) = area_list f (b + z) l1 ++ area_list f a m ++ area_list f (a + total m) l2) by (intros m; by rewrite !area_list_app).
  split.
  - intros (c & p & [[<- <-]|[Hcb Hc]]%lookup_insert_Some & Hx).
    + cbn [sentinel items] in Hx. rewrite Hsp, Htot in Hx. apply elem_of_app in Hx as [Hx|Hx].
      * right. split; [exists b, (mk_range z (l1 ++ mid ++ l2)); split; [done|]; cbn; rewrite Hsp; by apply elem_of_app; left|]. apply area_list_bounds in Hx; [unfold a; lia|done].
      * apply elem_of_app in Hx as [Hx|Hx]; [by left|right]. split; [|apply area_list_bounds in Hx; [lia|done]].
        exists b, (mk_range z (l1 ++ mid ++ l2)). split; [done|]. cbn. rewrite Hsp. apply elem_of_app. right. apply elem_of_app. by right.
    + right. split; [by exists c, p|]. destruct (area_in_range _ _ _ _ _ _ _ Hr Hc Hx) as (? & ? & ? & _). pose proof (rs_apart _ _ Hr c b p _ Hc Hb ltac:(done)). unfold a in *. lia.
  - intros [Hx|[(c & p & Hc & Hx) Hout]].
    + exists b. eexists. rewrite lookup_insert_eq. split; [done|]. cbn. rewrite Hsp. apply elem_of_app. right. apply elem_of_app. by left.
    + destruct (decide (c = b)) as [->|Hcb]; [|exists c, p; by rewrite lookup_insert_ne]. rewrite Hb in Hc. injection Hc as <-. cbn [sentinel items] in Hx.
      exists b. eexists. rewrite lookup_insert_eq. split; [done|]. cbn. rewrite Hsp in Hx |- *. rewrite Htot. apply elem_of_app in Hx as [Hx|Hx]; [by apply elem_of_app; left|].
      apply elem_of_app in Hx as [Hx|Hx]; [apply area_list_bounds in Hx; [lia|done]|]. apply elem_of_app. right. apply elem_of_app. by right.
Qed.

(** The memory of the blocks outside the change stays as it is. *)
(** An area that does not start in the middle does not meet it. *)
Lemma outside_mid w O b z l1 mid l2 f x s :
  ranges_ok w O → O !! b = Some (mk_range z (l1 ++ mid ++ l2)) → mid ≠ [] → let a := b + z + total l1 in
  is_area O f x s → ¬ (a ≤ x < a + total mid) → (x + s ≤ a ∨ a + total mid ≤ x) ∧ 32 ≤ s.
Proof.
  intros Hr Hb Hne a (c & p & Hc & Hx) Hout. destruct (range_sub _ _ _ _ _ _ _ Hr Hb Hne) as (Hl1 & Hm & Hl2 & Hz & H1 & H2 & H3 & Hb0 & Hend). fold a in Hend.
  destruct (area_in_range _ _ _ _ _ _ _ Hr Hc Hx) as (? & ? & ? & _). split; [|done]. destruct (decide (c = b)) as [->|Hcb].
  - rewrite Hb in Hc. injection Hc as <-. cbn [sentinel items] in Hx. rewrite !area_list_app in Hx. fold a in Hx. apply elem_of_app in Hx as [Hx|Hx]; [apply area_list_bounds in Hx; [unfold a; lia|done]|].
    apply elem_of_app in Hx as [Hx|Hx]; apply area_list_bounds in Hx; (lia || done).
  - pose proof (rs_apart _ _ Hr c b p _ Hc Hb Hcb). unfold a in *. lia.
Qed.

Lemma replace_kept w w' O F b z l1 mid l2 x s y :
  ranges_ok w O → O !! b = Some (mk_range z (l1 ++ mid ++ l2)) → mid ≠ [] → frees_of F O → touched w w' (changes F (b + z + total l1) (total mid)) →
  is_area O false x s → ¬ (b + z + total l1 ≤ x < b + z + total l1 + total mid) → x + 16 ≤ y < x + s → w' !! y = w !! y.
Proof.
  intros Hr Hb Hne HF Ht Hx Hout Hy. apply Ht. destruct (outside_mid _ _ _ _ _ _ _ _ _ _ Hr Hb Hne Hx Hout) as [Hcase _]. destruct (range_sub _ _ _ _ _ _ _ Hr Hb Hne) as (_ & _ & _ & _ & _ & ? & _). intros [Hz'|[Hz'|Hz']]; [lia|lia|].
  destruct (link_word_area _ _ _ _ Hr HF Hz') as (u & t & Hu & Hut & _). destruct (areas_apart _ _ _ _ _ _ _ _ Hr Hx Hu) as [(_ & _ & ?)|?]; [done|lia].
Qed.

Lemma replace_inv h h' O F F' L' b z l1 mid mid' l2 :
  hinv h O → O !! b = Some (mk_range z (l1 ++ mid ++ l2)) → mid ≠ [] → frees_of F O →
  touched (words h) (words h') (changes F (b + z + total l1) (total mid)) →
  let a := b + z + total l1 in let left := last_area b (b + z) l1 in
  total mid' = total mid → Forall area_ok mid' → coalesced (l1 ++ mid' ++ l2) → (∀ e, e ∈ headers left a mid' → header_in (words h') e) →
  words h' !! (a + total mid) = Some (left_word (starts_free l2) (last_area left a mid')) →
  lists_inv h' F' L' → (∀ x s, F' !! x = Some s ↔ (x, s) ∈ area_list true a mid' ∨ (F !! x = Some s ∧ ¬ (a ≤ x < a + total mid))) →
  remaining h' = remaining h + free_total mid' - free_total mid →
  hinv h' (<[b := mk_range z (l1 ++ mid' ++ l2)]> O).
Proof.
  intros [Hr Hl Hrem Htl] Hb Hne HF Ht a left Htot Hok Hco Hmid Hnext Hl' HF' Hrem'. split.
  - by eapply replace_ranges.
  - exists F', L'. split; [done|]. intros x s. rewrite HF'. unfold frees_of in HF. rewrite HF. symmetry. by eapply replace_areas.
  - rewrite (range_sum_update _ _ _ _ _ Hb), <- Hrem, Hrem'. cbn [items]. rewrite !free_total_app. lia.
  - rewrite (range_sum_update _ _ _ _ _ Hb). cbn [items]. rewrite !total_app, Htot. lia.
Qed.

(** The bound of the free memory that [unlink_free] checks. *)
Lemma remaining_bound h O b z l1 mid l2 :
  hinv h O → O !! b = Some (mk_range z (l1 ++ mid ++ l2)) → 0 ≤ free_total mid ≤ remaining h ∧ remaining h + total mid - free_total mid < 4000000000.
Proof.
  intros [Hr _ Hrem Htl] Hb. destruct (rs_range _ _ Hr _ _ Hb) as [_ _ Ha _ _ _ _]. cbn [items] in Ha. apply Forall_app in Ha as [Ha1 Ha]. apply Forall_app in Ha as [Ha2 Ha3].
  apply free_total_le in Ha1, Ha2, Ha3. pose proof (range_sum_le (delete b O)) as Hle.
  rewrite (range_sum_delete free_total O b _ Hb) in Hrem. rewrite (range_sum_delete total O b _ Hb) in Htl. cbn [items] in *. rewrite !free_total_app in Hrem. rewrite !total_app in Htl.
  assert (0 ≤ range_sum free_total (delete b O) ≤ range_sum total (delete b O)); [|lia]. apply Hle. intros c p [_ Hc]%lookup_delete_Some. apply (rs_range _ _ Hr c p Hc).
Qed.

(** Finding an area. *)
Lemma area_split w O f x s :
  ranges_ok w O → is_area O f x s → ∃ b z l1 l2, O !! b = Some (mk_range z (l1 ++ [(f, s)] ++ l2)) ∧ x = b + z + total l1.
Proof.
  intros Hr (b & [z l] & Hb & Hx). destruct (rs_range _ _ Hr _ _ Hb) as [_ _ Ha _ _ _ _]. cbn [items sentinel] in *.
  destruct (area_list_range _ _ _ _ _ Ha Hx) as (l1 & l2 & -> & ->). by exists b, z, l1, l2.
Qed.

(** All addresses and words of headers are even, and all addresses are positive. *)
Lemma address_facts w O b z l1 mid l2 :
  ranges_ok w O → O !! b = Some (mk_range z (l1 ++ mid ++ l2)) → 0 < b ∧ 0 < last_area b (b + z) l1 ∧ last_area b (b + z) l1 mod 8 = 0 ∧
  (b + z + total l1) mod 8 = 0 ∧ (l1 = [] → last_area b (b + z) l1 = b) ∧ (l1 ≠ [] → last_area b (b + z) l1 ≠ b ∧ b + 16 ≤ last_area b (b + z) l1).
Proof.
  intros Hr Hb. destruct (rs_range _ _ Hr _ _ Hb) as [[Hb0 Hba] [Hz Hza] Ha _ _ _ _]. cbn [items sentinel] in *. apply Forall_app in Ha as [Ha _].
  assert (Hb8 : b mod 8 = 0) by (pose proof (Z.div_mod b 4096 ltac:(lia)); replace b with (512 * (b / 4096) * 8) by lia; apply Z_mod_mult).
  assert (Hbz : (b + z) mod 8 = 0) by (by rewrite Z.add_mod, Hb8, Hza by lia).
  pose proof (total_nonneg _ Ha) as [Hn Hn8]. assert (Hsum : (b + z + total l1) mod 8 = 0) by (by rewrite Z.add_mod, Hbz, Hn8 by lia).
  destruct l1 as [|x l1 _] using rev_ind; [cbn [last_area]; split_and!; (done || lia)|]. rewrite last_area_app. destruct x as [f s]. cbn [last_area]. apply Forall_app in Ha as [Ha _]. pose proof (total_nonneg _ Ha) as [Hn1 Hn18].
  assert ((b + z + total l1) mod 8 = 0) by (by rewrite Z.add_mod, Hbz, Hn18 by lia). split_and!; try lia; try done; by destruct l1.
Qed.
End HeapRanges.
