(* ===== verification/HeapAlloc.v ===== *)
(** * Allocation from the kernel heap

    [take_area], [heap_grow] and [cmpct_alloc] of [Heap] keep the invariant [hinv] of
    [HeapRanges] and give out a new block without touching the others. *)

From stdpp Require Import base tactics numbers list list_numbers gmap.
From Stdlib Require Import ZArith Lia.
From S2P Require Import Prelude Heap HeapLists HeapRanges.
#[local] Open Scope Z_scope.

Module HeapAlloc.
Import Heap HeapLists HeapRanges.


(** ** Tags *)

Lemma even_of_8 p : p mod 8 = 0 → p mod 2 = 0.
Proof. intros Hp. pose proof (Z.div_mod p 8 ltac:(lia)). replace p with (4 * (p / 8) * 2) by lia. apply Z_mod_mult. Qed.

Lemma tag_eq p : p mod 8 = 0 → tag_as_free p = p + 1.
Proof.
  intros Hp%even_of_8. unfold tag_as_free. pose proof (Z.add_lor_land p 1) as Ha. rewrite (Z.land_comm p 1), (Z.land_comm 1 p) in Ha.
  change 1 with (2 ^ 1 - 1) in Ha at 2. rewrite land_ones_mod in Ha by lia. change (2 ^ 1) with 2 in Ha. lia.
Qed.

Lemma land1 p : Z.land p 1 = p mod 2.
Proof. change 1 with (2 ^ 1 - 1). by rewrite land_ones_mod by lia. Qed.

Lemma untag_eq p : untag p = p - p mod 2.
Proof. unfold untag. change (Z.lnot 1) with (Z.lnot (2 ^ 1 - 1)). fold (ROUNDDOWN p (2 ^ 1)). by rewrite rounddown_eq by lia. Qed.

Lemma left_word_mod f p : p mod 8 = 0 → left_word f p mod 2 = if f then 1 else 0.
Proof. intros Hp. unfold left_word. destruct f; [rewrite tag_eq by done|by apply even_of_8]. rewrite Z.add_mod, (even_of_8 p Hp) by lia. done. Qed.

Lemma untag_left f p : p mod 8 = 0 → untag (left_word f p) = p.
Proof. intros Hp. rewrite untag_eq, left_word_mod by done. unfold left_word. destruct f; [rewrite tag_eq by done|]; lia. Qed.

Lemma tagged_left f p : p mod 8 = 0 → negb (Z.land (left_word f p) 1 =? 0) = f.
Proof. intros Hp. rewrite land1, left_word_mod by done. by destruct f. Qed.

Lemma fix_left f p q : p mod 8 = 0 → q mod 8 = 0 → Z.lor (Z.land q (Z.lnot 1)) (Z.land (left_word f p) 1) = left_word f q.
Proof.
  intros Hp Hq. fold (untag q). rewrite (untag_left false q Hq : untag q = q), land1, left_word_mod by done. destruct f; [done|]. cbn. by rewrite Z.lor_0_r.
Qed.

(** ** Taking an area *)

Lemma set_words_eq h w w' : set_words (set_words h w) w' = set_words h w'.
Proof. done. Qed.

(** The header and the fills of a block. *)
Definition finish_block (h : heap) (head size rounded_up : Z) : option (Z * heap) :=
  head_size ← header_size h head;
  left ← header_left h head;
  '(result, h) ← create_allocation_header h head 0 head_size left;
  h ← memset h result ALLOC_FILL size;
  h ← memset h (result + size) PADDING_FILL (u64 (rounded_up - size - sizeof_header));
  Some (result, h).

Lemma finish_block_ok h x s lw n R :
  x mod 8 = 0 → R mod 8 = 0 → 0 ≤ n → n + 16 ≤ R < 2 ^ 64 → R ≤ s → mapped (words h) x (x + s) →
  words h !! x = Some lw → words h !! (x + 8) = Some s →
  ∃ w', finish_block h x n R = Some (x + 16, set_words h w') ∧ touched (words h) w' (λ z, x ≤ z < x + R) ∧ w' !! x = Some (untag lw) ∧ w' !! (x + 8) = Some s.
Proof.
  intros Hx HR Hn HnR HRs Hm E0 E8. unfold finish_block, header_size, header_left, load, create_allocation_header. rewrite E0, E8. cbn [mbind option_bind]. rewrite Z.add_0_r.
  rewrite word_store_ok by eauto. cbn [mbind option_bind]. rewrite word_store_ok by (hsimp; rewrite lookup_insert_ne by lia; eauto). cbn [mbind option_bind]. hsimp. rewrite !set_words_eq.
  set (w1 := <[x + 8 := s]> (<[x := untag lw]> (words h))). change sizeof_header with 16.
  assert (Ht1 : touched (words h) w1 (λ z, x ≤ z < x + R)).
  { apply (touched_trans _ (<[x := untag lw]> (words h))); apply touched_insert; [eauto|lia|rewrite lookup_insert_ne by lia; eauto|lia]. }
  destruct (fill_words (set_words h w1) (x + 16) ALLOC_FILL n (x + 16) (x + R)) as (w2 & E2 & Ht2); [lia| |by rewrite Z.add_mod, Hx by lia|by rewrite Z.add_mod, Hx, HR by lia|lia|lia|].
  { hsimp. eapply mapped_touched; [exact Ht1|]. eapply mapped_within; [exact Hm|lia|lia]. }
  rewrite E2. cbn [mbind option_bind]. hsimp. rewrite set_words_eq. rewrite u64_id by (unfold is_u64; lia). cbn [words set_words] in Ht2.
  destruct (fill_words (set_words h w2) (x + 16 + n) PADDING_FILL (R - n - 16) (x + 16) (x + R)) as (w3 & E3 & Ht3); [lia| |by rewrite Z.add_mod, Hx by lia|by rewrite Z.add_mod, Hx, HR by lia|lia|lia|].
  { hsimp. eapply mapped_touched; [exact Ht2|]. eapply mapped_touched; [exact Ht1|]. eapply mapped_within; [exact Hm|lia|lia]. }
  rewrite E3. cbn [mbind option_bind]. rewrite set_words_eq. cbn [words set_words] in Ht3. exists w3. split; [done|]. split; [|split].
  - eapply touched_trans; [exact Ht1|]. eapply touched_trans; [eapply touched_weaken; [exact Ht2|]|eapply touched_weaken; [exact Ht3|]]; intros z Hz; cbn in Hz; lia.
  - rewrite (proj2 Ht3), (proj2 Ht2) by lia. unfold w1. by rewrite lookup_insert_ne, lookup_insert_eq by lia.
  - rewrite (proj2 Ht3), (proj2 Ht2) by lia. unfold w1. by rewrite lookup_insert_eq.
Qed.

(** What an allocation promises: a new block at [x], and the others as before. *)
Record allocated (h h' : heap) (O O' : gmap Z range) (x s : Z) : Prop := {
  al_inv : hinv h' O';
  al_blocks y t : is_area O' false y t ↔ (y = x ∧ t = s) ∨ is_area O false y t;
  al_kept y t z : is_area O false y t → y + 16 ≤ z < y + t → words h' !! z = words h !! z }.

Lemma tail_size a l : Forall area_ok l → ∃ s r, (∀ left, tail_headers left a l = (a, left_word (starts_free l) left, s) :: r) ∧ (s = 0 ↔ l = []).
Proof.
  intros Hok. destruct l as [|[f s] l].
  - exists 0, []. split; [|done]. intros left. unfold tail_headers. cbn. by rewrite Z.add_0_r.
  - exists s, (tail_headers a (a + s) l). apply Forall_cons in Hok as [[Hs _] _]. cbn in Hs. split; [|split; [lia|done]]. intros left. unfold tail_headers. cbn [headers app total last_area]. rewrite Z.add_assoc. by destruct f.
Qed.

(** The headers around and in the middle of a range. *)
Lemma mid_headers w O b z l1 mid l2 :
  ranges_ok w O → O !! b = Some (mk_range z (l1 ++ mid ++ l2)) →
  let a := b + z + total l1 in let left := last_area b (b + z) l1 in
  (∀ e, e ∈ headers left a mid → header_in w e) ∧ w !! (a + total mid) = Some (left_word (starts_free l2) (last_area left a mid)) ∧
  ∃ s, w !! (a + total mid + 8) = Some s ∧ (s = 0 ↔ l2 = []).
Proof.
  intros Hr Hb a left.
  assert (Hh : ∀ e, e ∈ (b, 0, z) :: headers b (b + z) l1 ++ headers left a mid ++ tail_headers (last_area left a mid) (a + total mid) l2 → header_in w e).
  { intros e He. apply (rs_headers _ _ Hr b _ e Hb). rewrite range_headers_split. exact He. }
  destruct (rs_range _ _ Hr _ _ Hb) as [_ _ Ha _ _ _ _]. cbn [items] in Ha. apply Forall_app in Ha as [_ Ha]. apply Forall_app in Ha as [_ Ha].
  destruct (tail_size (a + total mid) l2 Ha) as (s & r & Htl & Hs0). rewrite Htl in Hh. split.
  - intros e He. apply Hh. right. apply elem_of_app. right. apply elem_of_app. by left.
  - destruct (Hh (a + total mid, left_word (starts_free l2) (last_area left a mid), s)) as [H1 H2].
    { right. apply elem_of_app. right. apply elem_of_app. right. by left. }
    split; [exact H1|]. exists s. split; [exact H2|done].
Qed.

Lemma mid_mapped w O b z l1 mid l2 :
  ranges_ok w O → O !! b = Some (mk_range z (l1 ++ mid ++ l2)) → mapped w (b + z + total l1) (b + z + total l1 + total mid + 16).
Proof.
  intros Hr Hb. destruct (rs_range _ _ Hr _ _ Hb) as [_ [Hz _] Ha _ _ _ _]. cbn [items sentinel] in *. destruct (split_bounds b z l1 mid l2 Ha) as (? & ? & ? & ? & He).
  eapply mapped_within; [by apply (rs_mapped _ _ Hr)|lia|]. rewrite He. lia.
Qed.

Lemma free_area_facts h O F L x s :
  hinv h O → lists_inv h F L → frees_of F O → F !! x = Some s →
  ∃ b z l1 l2, O !! b = Some (mk_range z (l1 ++ [(true, s)] ++ l2)) ∧ x = b + z + total l1 ∧ 0 < x ∧ x mod 8 = 0 ∧ 32 ≤ s ≤ max_area ∧ s mod 8 = 0 ∧
    s ≤ remaining h < 4000000000 ∧ coalesced (l1 ++ [(true, s)] ++ l2) ∧ starts_free l2 = false ∧ ends_free l1 = false.
Proof.
  intros Hi Hl HF Hx. pose proof (hv_ranges _ _ Hi) as Hr. destruct (area_split _ _ _ _ _ Hr (proj1 (HF x s) Hx)) as (b & z & l1 & l2 & Hb & ->).
  destruct (li_area _ _ _ Hl _ _ Hx) as (Hx0 & Hs & Hs8 & _). destruct (address_facts _ _ _ _ _ _ _ Hr Hb) as (_ & _ & _ & Ha8 & _).
  destruct (remaining_bound _ _ _ _ _ _ _ Hi Hb) as [Hrm1 Hrm2]. cbn in Hrm1, Hrm2. destruct (rs_range _ _ Hr _ _ Hb) as [_ _ _ Hco _ _ _]. cbn [items] in Hco.
  exists b, z, l1, l2. split; [done|]. split; [done|]. do 5 (split; [done || lia|]). split; [done|]. apply coalesced_app in Hco as (_ & Hco & Hc1). apply coalesced_app in Hco as (_ & _ & Hc2).
  cbn in Hc1, Hc2. split; [done|]. by rewrite andb_true_r in Hc1.
Qed.

Lemma coalesced_used l1 f s l2 g r t : coalesced (l1 ++ [(f, s)] ++ l2) → (g = true → starts_free l2 = false) → coalesced (l1 ++ [(false, r); (g, t)] ++ l2).
Proof.
  rewrite !coalesced_app. intros (H1 & (H2 & H3 & H4) & H5) Hg. cbn. rewrite andb_false_r. split_and!; try done; [by destruct g|].
  unfold ends_free. cbn. destruct g; [by rewrite Hg|done].
Qed.

Lemma coalesced_take l1 s l2 r : coalesced (l1 ++ [(true, s)] ++ l2) → coalesced (l1 ++ [(false, r)] ++ l2).
Proof. rewrite !coalesced_app. intros (H1 & (H2 & H3 & H4) & H5). cbn. rewrite andb_false_r. done. Qed.

Lemma apart_area w O f g x s y t :
  ranges_ok w O → is_area O f x s → is_area O g y t → y ≠ x ∨ g ≠ f → (x + s ≤ y ∨ y + t ≤ x) ∧ 32 ≤ s ∧ 32 ≤ t.
Proof.
  intros Hr Hx Hy Hne. destruct (areas_apart _ _ _ _ _ _ _ _ Hr Hx Hy) as [(-> & _ & ->)|Hap]; [by destruct Hne|]. split; [done|].
  destruct Hx as (b & o & Hb & Hx), Hy as (c & p & Hc & Hy). destruct (area_in_range _ _ _ _ _ _ _ Hr Hb Hx) as (_ & _ & ? & _), (area_in_range _ _ _ _ _ _ _ Hr Hc Hy) as (_ & _ & ? & _). done.
Qed.

(** The head of a bucket becomes a block. *)
Lemma take_whole_ok h O F L x s j n R :
  hinv h O → lists_inv h F L → frees_of F O → F !! x = Some s → size_to_index_freeing (s - 16) = Some j → at_ (free_lists h) j = Some x →
  0 ≤ n → n + 16 ≤ R → R ≤ s → R mod 8 = 0 → (32 <=? s - R) && (Z.shiftr n 6 <? s - R) = false →
  ∃ h' O', take_area h n R j = Some (x + 16, h') ∧ allocated h h' O O' x s.
Proof.
  intros Hi Hl HF Hx Ej Hhd Hn HnR HRs HR Hno. pose proof (hv_ranges _ _ Hi) as Hr.
  destruct (free_area_facts _ _ _ _ _ _ Hi Hl HF Hx) as (b & z & l1 & l2 & Hb & Ex & Hx0 & Hx8 & Hs & Hs8 & Hrm & Hco & Hsf & Hef).
  destruct (mid_headers _ _ _ _ _ _ _ Hr Hb) as (Hh & Hnx & _). cbn [headers total last_area] in *. rewrite <- Ex, Z.add_0_r in *.
  destruct (Hh _ ltac:(by left)) as [Hw0 Hw8]. cbn in Hw0, Hw8. destruct (address_facts _ _ _ _ _ _ _ Hr Hb) as (_ & _ & Hla8 & _).
  pose proof (mid_mapped _ _ _ _ _ _ _ Hr Hb) as Hmp. cbn [total] in Hmp. rewrite <- Ex, Z.add_0_r in Hmp.
  unfold take_area. rewrite Hhd. cbn [mbind option_bind]. rewrite (Hw8 : header_size h x = Some s). cbn [mbind option_bind].
  rewrite (u64_id (s - R)) by (unfold is_u64, max_area in *; lia). change sizeof_free with 32. rewrite Hno.
  destruct (unlink_free_ok h F L x s j Hl Hx Ej Hrm) as (h1 & m1 & m2 & -> & _ & Hl1 & Hrm1 & _ & Ht1). cbn [mbind option_bind].
  assert (Hnl : ∀ d, d = 0 ∨ d = 8 → words h1 !! (x + d) = words h !! (x + d)).
  { intros d Hd. apply Ht1. intros (y & [t [Hyx Hy]%lookup_delete_Some] & Hy'). pose proof (li_spaced _ _ _ Hl x y s t Hx Hy). lia. }
  fold (finish_block h1 x n R). destruct (finish_block_ok h1 x s (left_word true (last_area b (b + z) l1)) n R) as (w' & -> & Htf & Hf0 & Hf8); try done.
  { unfold max_area in *. lia. }
  { eapply mapped_touched; [exact Ht1|]. eapply mapped_within; [exact Hmp|lia|lia]. }
  { rewrite <- (Z.add_0_r x), Hnl, Z.add_0_r by auto. done. }
  { rewrite Hnl by auto. done. }
  rewrite untag_left in Hf0 by done. exists (set_words h1 w'), (<[b := mk_range z (l1 ++ [(false, s)] ++ l2)]> O). split; [done|].
  assert (Ht : touched (words h) w' (changes F x s)).
  { eapply touched_trans; [eapply touched_weaken; [exact Ht1|]|eapply touched_weaken; [exact Htf|]]; intros y Hy; cbn beta in Hy; [|left; lia].
    right. right. destruct Hy as (u & [t [_ Hu]%lookup_delete_Some] & Hy). exists u. eauto. }
  split.
  - rewrite Ex in Ht. replace s with (total [(true, s)]) in Ht by (cbn; lia). eapply (replace_inv h _ O F (delete x F)); try done; cbn [total free_total headers]; rewrite <- ?Ex.
    + apply Forall_singleton. split; cbn; (lia || done).
    + eapply coalesced_take; done.
    + intros e ->%list_elem_of_singleton. by split.
    + cbn [last_area]. hsimp. rewrite Z.add_0_r. rewrite (proj2 Htf) by lia. rewrite (proj2 Ht1); [done|].
      intros (y & [t [Hyx Hy]%lookup_delete_Some] & Hy'). apply HF in Hy, Hx. pose proof (apart_area _ _ _ _ _ _ _ _ Hr Hx Hy ltac:(auto)). lia.
    + eapply lists_frame; [..|exact Hl1]; [done|done|]. intros y t q [Hyx Hy]%lookup_delete_Some Hq. hsimp. apply Htf.
      apply HF in Hy, Hx. pose proof (apart_area _ _ _ _ _ _ _ _ Hr Hx Hy ltac:(auto)). lia.
    + intros y t. rewrite lookup_delete_Some. cbn. rewrite elem_of_nil. split; [|naive_solver lia]. intros [Hyx Hy]. right. split; [done|].
      apply HF in Hy, Hx. pose proof (apart_area _ _ _ _ _ _ _ _ Hr Hx Hy ltac:(auto)). lia.
    + hsimp. lia.
  - intros y t. rewrite (replace_areas _ O b z l1 [(true, s)] [(false, s)] l2) by (done || (apply Forall_singleton; split; cbn; (lia || done))). rewrite <- Ex. cbn [area_list Bool.eqb app total]. rewrite Z.add_0_r, list_elem_of_singleton.
    split; [intros [[= -> ->]|[? _]]; auto|]. intros [[-> ->]|Hy]; [by left|right]. split; [done|]. apply HF in Hx. pose proof (apart_area _ _ _ _ _ _ _ _ Hr Hx Hy ltac:(auto)). lia.
  - intros y t q Hy Hq. hsimp. rewrite Ex in Ht. replace s with (total [(true, s)]) in Ht by (cbn; lia). eapply replace_kept; eauto. rewrite <- Ex. cbn [total].
    apply HF in Hx. pose proof (apart_area _ _ _ _ _ _ _ _ Hr Hx Hy ltac:(auto)). lia.
Qed.

Lemma create_ok' h F L x left s :
  lists_inv h F L → F !! x = None → 0 < x → x mod 8 = 0 → 32 ≤ s ≤ max_area → s mod 8 = 0 → mapped (words h) x (x + s) →
  (∀ y t, F !! y = Some t → x + s ≤ y ∨ y + 32 ≤ x) → 0 ≤ remaining h < 4000000000 →
  ∃ h' L', create_free_area h x left s false = Some h' ∧ lists_inv h' (<[x := s]> F) L' ∧
    remaining h' = remaining h + s ∧ heap_size h' = heap_size h ∧
    words h' !! x = Some (tag_as_free left) ∧ words h' !! (x + 8) = Some s ∧
    touched (words h) (words h') (λ z, x ≤ z < x + s ∨ link_word F z).
Proof.
  intros Hi Hx Hx0 Hx8 Hs Hs8 Hm Hsp Hr. destruct (index_freeing (s - 16)) as (j & Ej & Hj & _); [unfold max_area in *; lia|rewrite Zminus_mod, Hs8; done|].
  destruct (lookup_lt_is_Some_2 L (Z.to_nat j)) as [l Hl]; [rewrite (li_len _ _ _ Hi); lia|].
  destruct (create_ok h F L x left s j l) as (h' & E & Hi' & Hrest); [done..|]. eauto.
Qed.

(** A word that is no link of another free area. *)
Lemma not_link w O F x s z :
  ranges_ok w O → frees_of F O → F !! x = Some s → x ≤ z ≤ x + s → ¬ link_word (delete x F) z.
Proof.
  intros Hr HF Hx Hz (y & [t [Hyx Hy]%lookup_delete_Some] & Hy'). apply HF in Hy, Hx. pose proof (apart_area _ _ _ _ _ _ _ _ Hr Hx Hy ltac:(auto)). lia.
Qed.

Lemma link_word_delete F x z : link_word (delete x F) z → link_word F z.
Proof. intros (y & [t [_ Hy]%lookup_delete_Some] & Hz). exists y. eauto. Qed.

(** The list part of a split: the area is unlinked, its rest becomes an area. *)
Lemma split_lists h O F L x s j R nb :
  hinv h O → lists_inv h F L → frees_of F O → F !! x = Some s → size_to_index_freeing (s - 16) = Some j → x mod 8 = 0 → 0 < x → s ≤ remaining h < 4000000000 →
  32 ≤ R → R mod 8 = 0 → 32 ≤ s - R → mapped (words h) x (x + s + 16) → words h !! (x + 8) = Some s → words h !! (x + s) = Some (left_word nb x) →
  ∃ h' L', (right ← right_header h x; h ← unlink_free h x j; h ← create_free_area h (x + R) x (s - R) false; h ← FixLeftPointer h right (x + R);
            head_size ← header_size h x; store h (x + 8) (u64 (head_size - (s - R)))) = Some h' ∧
    lists_inv h' (<[x + R := s - R]> (delete x F)) L' ∧ remaining h' = remaining h - R ∧ heap_size h' = heap_size h ∧
    words h' !! x = words h !! x ∧ words h' !! (x + 8) = Some R ∧ words h' !! (x + R) = Some (left_word true x) ∧ words h' !! (x + R + 8) = Some (s - R) ∧
    words h' !! (x + s) = Some (left_word nb (x + R)) ∧ touched (words h) (words h') (changes F x s).
Proof.
  intros Hi Hl HF Hx Ej Hx8 Hx0 Hrm HR HR8 HsR Hmp Hw8 Hnx. pose proof (hv_ranges _ _ Hi) as Hr. destruct (li_area _ _ _ Hl _ _ Hx) as (_ & Hs & Hs8 & _).
  unfold right_header. rewrite (Hw8 : header_size h x = Some s). cbn [mbind option_bind].
  destruct (unlink_free_ok h F L x s j Hl Hx Ej Hrm) as (h1 & m1 & m2 & -> & _ & Hl1 & Hrm1 & Hsz1 & Ht1). cbn [mbind option_bind].
  assert (Hk1 : ∀ z, x ≤ z ≤ x + s → words h1 !! z = words h !! z) by (intros z Hz; apply Ht1; by apply (not_link _ _ _ _ _ _ Hr HF Hx)).
  destruct (create_ok' h1 (delete x F) _ (x + R) x (s - R) Hl1) as (h2 & L2 & -> & Hl2 & Hrm2 & Hsz2 & Hc0 & Hc8 & Ht2).
  { apply lookup_delete_None. right. destruct (F !! (x + R)) as [t|] eqn:Ey; [|done]. apply HF in Ey, Hx. pose proof (apart_area _ _ _ _ _ _ _ _ Hr Hx Ey ltac:(lia)). lia. }
  { lia. }
  { by rewrite Z.add_mod, Hx8, HR8 by lia. }
  { unfold max_area in *. lia. }
  { by rewrite Zminus_mod, Hs8, HR8. }
  { eapply mapped_touched; [exact Ht1|]. eapply mapped_within; [exact Hmp|lia|lia]. }
  { intros y t [Hyx Hy]%lookup_delete_Some. apply HF in Hy, Hx. pose proof (apart_area _ _ _ _ _ _ _ _ Hr Hx Hy ltac:(auto)). lia. }
  { lia. }
  cbn [mbind option_bind]. assert (Hk2 : ∀ z, x ≤ z ≤ x + s → ¬ (x + R ≤ z < x + s) → words h2 !! z = words h !! z).
  { intros z Hz Hz'. rewrite (proj2 Ht2), Hk1; [done|done|]. intros [?|?]; [lia|]. by eapply (not_link _ _ _ _ _ _ Hr HF Hx Hz). }
  unfold FixLeftPointer. assert (Hnx2 : header_left h2 (x + s) = Some (left_word nb x)) by (unfold header_left, load; by rewrite Hk2 by lia). rewrite Hnx2. cbn [mbind option_bind].
  rewrite fix_left; [|done|by rewrite Z.add_mod, Hx8, HR8 by lia]. rewrite word_store_ok; [|rewrite Hk2 by lia; eauto]. cbn [mbind option_bind].
  unfold header_size, load. hsimp. rewrite lookup_insert_ne, (Hk2 (x + 8)), Hw8 by lia. cbn [mbind option_bind].
  rewrite u64_id by (unfold is_u64, max_area in *; lia). replace (s - (s - R)) with R by lia.
  rewrite word_store_ok by (hsimp; rewrite lookup_insert_ne, Hk2 by lia; eauto). eexists _, L2. split; [done|]. hsimp. split_and!; try lia.
  - eapply lists_frame; [..|exact Hl2]; [done|done|]. intros y t q Hy Hq. hsimp. assert (Hq' : q ≠ x + s ∧ q ≠ x + 8); [|by rewrite !lookup_insert_ne by lia].
    apply lookup_insert_Some in Hy as [[<- <-]|[_ [Hyx Hy]%lookup_delete_Some]]; [lia|]. apply HF in Hy, Hx. pose proof (apart_area _ _ _ _ _ _ _ _ Hr Hx Hy ltac:(auto)). lia.
  - by rewrite !lookup_insert_ne, Hk2 by lia.
  - by rewrite lookup_insert_eq.
  - rewrite !lookup_insert_ne by lia. rewrite Hc0. done.
  - rewrite !lookup_insert_ne by lia. done.
  - by rewrite lookup_insert_ne, lookup_insert_eq by lia.
  - assert (Hlw : ∀ z, link_word (delete x F) z → changes F x s z) by (intros z Hz; right; right; by eapply link_word_delete).
    eapply touched_trans; [eapply touched_weaken; [exact Ht1|exact Hlw]|]. eapply touched_trans; [eapply touched_weaken; [exact Ht2|]; intros z [Hz|Hz]; [left; lia|by apply Hlw]|].
    apply (touched_trans _ (<[x + s := left_word nb (x + R)]> (words h2))); apply touched_insert; [rewrite Hk2 by lia; eauto|right; left; done| |left; lia].
    rewrite lookup_insert_ne, Hk2 by lia. eauto.
Qed.

Lemma take_split_ok h O F L x s j n R :
  hinv h O → lists_inv h F L → frees_of F O → F !! x = Some s → size_to_index_freeing (s - 16) = Some j → at_ (free_lists h) j = Some x →
  0 ≤ n → n + 16 ≤ R → 32 ≤ R → R mod 8 = 0 → 32 ≤ s - R → (32 <=? s - R) && (Z.shiftr n 6 <? s - R) = true →
  ∃ h' O', take_area h n R j = Some (x + 16, h') ∧ allocated h h' O O' x R.
Proof.
  intros Hi Hl HF Hx Ej Hhd Hn HnR HR HR8 HsR Hyes. pose proof (hv_ranges _ _ Hi) as Hr.
  destruct (free_area_facts _ _ _ _ _ _ Hi Hl HF Hx) as (b & z & l1 & l2 & Hb & Ex & Hx0 & Hx8 & Hs & Hs8 & Hrm & Hco & Hsf & Hef).
  destruct (mid_headers _ _ _ _ _ _ _ Hr Hb) as (Hh & Hnx & _). cbn [headers total last_area] in *. rewrite <- Ex, Z.add_0_r in *.
  destruct (Hh _ ltac:(by left)) as [Hw0 Hw8]. cbn in Hw0, Hw8. destruct (address_facts _ _ _ _ _ _ _ Hr Hb) as (_ & _ & Hla8 & _).
  pose proof (mid_mapped _ _ _ _ _ _ _ Hr Hb) as Hmp. cbn [total] in Hmp. rewrite <- Ex, Z.add_0_r in Hmp.
  destruct (split_lists h O F L x s j R (starts_free l2) Hi Hl HF Hx Ej Hx8 Hx0 Hrm HR HR8 HsR Hmp Hw8 Hnx)
    as (h1 & L1 & E1 & Hl1 & Hrm1 & _ & Hx1 & Hx81 & Hf1 & Hf81 & Hn1 & Ht1).
  unfold take_area. rewrite Hhd. cbn [mbind option_bind]. rewrite (Hw8 : header_size h x = Some s). cbn [mbind option_bind].
  rewrite (u64_id (s - R)) by (unfold is_u64, max_area in *; lia). change sizeof_free with 32. rewrite Hyes. cbv zeta. rewrite E1. cbn [mbind option_bind].
  fold (finish_block h1 x n R). destruct (finish_block_ok h1 x R (left_word true (last_area b (b + z) l1)) n R) as (w' & -> & Htf & Hf0 & Hf8); try done.
  { unfold max_area in *. lia. }
  { eapply mapped_touched; [exact Ht1|]. eapply mapped_within; [exact Hmp|lia|lia]. }
  { by rewrite Hx1. }
  rewrite untag_left in Hf0 by done. exists (set_words h1 w'), (<[b := mk_range z (l1 ++ [(false, R); (true, s - R)] ++ l2)]> O). split; [done|].
  assert (Ht : touched (words h) w' (changes F (b + z + total l1) (total [(true, s)]))).
  { rewrite <- Ex. cbn [total]. rewrite Z.add_0_r. eapply touched_trans; [exact Ht1|]. eapply touched_weaken; [exact Htf|]. intros y Hy. cbn beta in Hy. left. lia. }
  assert (Hok : Forall area_ok [(false, R); (true, s - R)]).
  { apply Forall_cons. split; [by split|]. apply Forall_singleton. split; cbn; [done|]. by rewrite Zminus_mod, Hs8, HR8. }
  assert (Htot : total [(false, R); (true, s - R)] = total [(true, s)]) by (cbn; lia).
  assert (Hother : ∀ y f t, is_area O f y t → y ≠ x ∨ f = false → (x + s ≤ y ∨ y + t ≤ x) ∧ 32 ≤ t).
  { intros y f t Hy Hne. pose proof (proj1 (HF x s) Hx) as Hxa. destruct (apart_area _ _ _ _ _ _ _ _ Hr Hxa Hy) as (? & _ & ?); [|done]. destruct Hne as [?| ->]; auto. }
  split.
  - eapply (replace_inv h _ O F (<[x + R := s - R]> (delete x F))); try done; rewrite <- ?Ex.
    + eapply coalesced_used; [exact Hco|done].
    + intros e He. cbn [headers] in He. apply elem_of_cons in He as [->|He]; [by split|]. apply list_elem_of_singleton in He as ->. split; cbn; hsimp; rewrite (proj2 Htf) by lia; done.
    + cbn [last_area total]. hsimp. rewrite Z.add_0_r, (proj2 Htf) by lia. done.
    + eapply lists_frame; [..|exact Hl1]; [done|done|]. intros y t q Hy Hq. hsimp. apply Htf. apply lookup_insert_Some in Hy as [[<- <-]|[_ [Hyx Hy]%lookup_delete_Some]]; [lia|].
      destruct (Hother y true t); [by apply HF|by left|]. lia.
    + intros y t. cbn [area_list Bool.eqb app total]. rewrite list_elem_of_singleton, lookup_insert_Some, lookup_delete_Some. split.
      * intros [[<- <-]|[_ [Hyx Hy]]]; [by left|right]. split; [done|]. destruct (Hother y true t); [by apply HF|by left|]. lia.
      * intros [[= -> ->]|[Hy Hout]]; [by left|right]. assert (y ≠ x) by (intros ->; lia). destruct (Hother y true t); [by apply HF|by left|]. split; [lia|done].
    + cbn. hsimp. lia.
  - intros y t. rewrite (replace_areas _ O b z l1 [(true, s)] [(false, R); (true, s - R)] l2) by done. rewrite <- Ex. cbn [area_list Bool.eqb app total]. rewrite list_elem_of_singleton.
    split; [intros [[= -> ->]|[? _]]; auto|]. intros [[-> ->]|Hy]; [by left|right]. split; [done|]. destruct (Hother y false t Hy); [by right|]. lia.
  - intros y t q Hy Hq. hsimp. eapply replace_kept; eauto. rewrite <- Ex. cbn [total]. destruct (Hother y false t Hy); [by right|]. lia.
Qed.

(** Taking the first area of a bucket that has room. *)
Lemma take_area_ok h O F L j l n R :
  hinv h O → lists_inv h F L → frees_of F O → 0 ≤ j < 136 → L !! Z.to_nat j = Some l → l ≠ [] → 0 ≤ n → n + 16 ≤ R → 32 ≤ R → R mod 8 = 0 →
  (∀ s, 32 ≤ s ≤ max_area → s mod 8 = 0 → size_to_index_freeing (s - 16) = Some j → R ≤ s) →
  ∃ x s h' O', take_area h n R j = Some (x + 16, h') ∧ allocated h h' O O' x s ∧ R ≤ s ∧ is_area O true x (default 0 (F !! x)).
Proof.
  intros Hi Hl HF Hj Hlj Hne Hn HnR HR HR8 Hroom. destruct (member_area _ _ _ _ _ _ Hl Hlj (first_in l 0 Hne)) as (s & Hx & Ej). rewrite Z2Nat.id in Ej by lia.
  set (x := first l 0) in *. pose proof (lists_head h F L j l Hl ltac:(lia) Hlj) as Hhd. fold x in Hhd. destruct (li_area _ _ _ Hl _ _ Hx) as (_ & Hs & Hs8 & _). specialize (Hroom s Hs Hs8 Ej).
  destruct ((32 <=? s - R) && (Z.shiftr n 6 <? s - R)) eqn:E.
  - assert (32 ≤ s - R) by (zb; lia). destruct (take_split_ok h O F L x s j n R) as (h' & O' & Et & Ha); try done. exists x, R, h', O'. rewrite Hx. split_and!; try done. by apply HF.
  - destruct (take_whole_ok h O F L x s j n R) as (h' & O' & Et & Ha); try done. exists x, s, h', O'. rewrite Hx. split_and!; try done. by apply HF.
Qed.
End HeapAlloc.
