(* ===== verification/HeapGrow.v ===== *)
(** * Growth of the kernel heap

    [heap_grow] adds a range of pages that is one free area to the invariant [hinv];
    [cmpct_alloc] of at most 4 MB then finds an area or reports that there are no
    pages. *)

From stdpp Require Import base tactics numbers list list_numbers gmap.
From Stdlib Require Import ZArith Lia.
From S2P Require Import Prelude Heap HeapLists HeapRanges HeapAlloc.
#[local] Open Scope Z_scope.

Module HeapGrow.
Import Heap HeapLists HeapRanges HeapAlloc.

(** ** New pages *)

Lemma map_words_lookup k c : ∀ w x z, map_words k w x c !! z =
  if decide (x ≤ z < x + 8 * Z.of_nat k ∧ (z - x) mod 8 = 0) then Some (c z) else w !! z.
Proof.
  induction k as [|k IH]; intros w x z; cbn [map_words]; [by rewrite decide_False by lia|]. rewrite IH.
  assert (Hm : (z - x) mod 8 = (z - (x + 8)) mod 8) by (replace (z - x) with (z - (x + 8) + 1 * 8) by lia; by rewrite Z.mod_add).
  destruct (decide (z = x)) as [->|Hne].
  - rewrite decide_False, lookup_insert_eq, decide_True; [done| |lia]. rewrite Z.sub_diag. split; [lia|done].
  - rewrite lookup_insert_ne by done. destruct (decide (_ ∧ _)) as [H1|H1]; destruct (decide (_ ∧ _)) as [H2|H2]; try done; [destruct H2; lia|].
    destruct H1. split; [|by rewrite <- Hm; apply H2]. destruct H2 as [H2 H3]. pose proof (Z.div_mod (z - x) 8 ltac:(lia)). lia.
Qed.

(** What the page allocator owes to the heap: pages that the heap does not have, not
    more than the bound on its free memory, below [2^63]. *)
Definition answer_ok (O : gmap Z range) (ptr gross : Z) : Prop :=
  0 < ptr ∧ ptr mod 4096 = 0 ∧ ptr + gross ≤ 2 ^ 63 ∧ range_sum total O + gross < 4000000000 ∧
  ∀ b o, O !! b = Some o → range_end b o ≤ ptr ∨ ptr + gross ≤ b.

(** The words of the links do not matter to the ranges; some ranges may go away. *)
Lemma ranges_kept w w' O O' F :
  ranges_ok w O → frees_of F O → O' ⊆ O → (∀ b o z, O' !! b = Some o → b ≤ z < range_end b o → ¬ link_word F z → w' !! z = w !! z) →
  (∀ b o z, O' !! b = Some o → b ≤ z < range_end b o → is_Some (w' !! z) ↔ is_Some (w !! z)) → ranges_ok w' O'.
Proof.
  intros Hr HF Hsub Hk Hd. pose proof Hr as [R1 R2 R3 R4]. assert (Hs : ∀ b o, O' !! b = Some o → O !! b = Some o) by (intros b o Hb; by eapply lookup_weaken). split; [eauto|eauto| |].
  - intros b o e Hb He. destruct (R3 b o e (Hs _ _ Hb) He) as [H1 H2]. pose proof (header_in_range _ _ _ (R1 b o (Hs _ _ Hb)) He) as Hin.
    assert (Hno : ∀ d, 0 ≤ d < 16 → ¬ link_word F (e.1.1 + d)) by (intros d Hd8; eapply header_no_link; eauto).
    split; rewrite (Hk b o); [done|done|lia| |done|done|lia|by apply Hno]. rewrite <- (Z.add_0_r e.1.1). by apply Hno.
  - intros b o Hb z Hz Ha. apply (Hd b o z Hb Hz). by apply (R4 b o (Hs _ _ Hb)).
Qed.

Lemma insert_range w O b o :
  ranges_ok w O → range_ok b o → (∀ c p, O !! c = Some p → range_end c p ≤ b ∨ range_end b o ≤ c) →
  (∀ e, e ∈ range_headers b o → header_in w e) → mapped w b (range_end b o) → ranges_ok w (<[b := o]> O).
Proof.
  intros [R1 R2 R3 R4] Ho Hap Hh Hm. split.
  - intros c p [[<- <-]|[_ Hc]]%lookup_insert_Some; eauto.
  - intros c d p q [[<- <-]|[Hc1 Hc]]%lookup_insert_Some [[<- <-]|[Hd1 Hd]]%lookup_insert_Some Hcd; [done| |eauto|eauto]. destruct (Hap _ _ Hd); auto.
  - intros c p e [[<- <-]|[_ Hc]]%lookup_insert_Some; eauto.
  - intros c p [[<- <-]|[_ Hc]]%lookup_insert_Some; eauto.
Qed.

Lemma insert_areas O b o f x s :
  O !! b = None → is_area (<[b := o]> O) f x s ↔ (x, s) ∈ area_list f (b + sentinel o) (items o) ∨ is_area O f x s.
Proof.
  intros Hb. split.
  - intros (c & p & [[<- <-]|[_ Hc]]%lookup_insert_Some & Hx); [by left|right; by exists c, p].
  - intros [Hx|(c & p & Hc & Hx)]; [exists b, o; by rewrite lookup_insert_eq|]. exists c, p. rewrite lookup_insert_ne by congruence. done.
Qed.

Lemma hinv_size h O n : hinv h O → hinv (set_size h n) O.
Proof.
  intros [Hr (F & L & Hl & HF) Hrm Ht]. split; [done| |done|done]. exists F, L. split; [|done]. eapply lists_frame; [..|exact Hl]; done.
Qed.

Lemma create_header_ok h a s left :
  is_Some (words h !! a) → is_Some (words h !! (a + 8)) →
  create_allocation_header h a 0 s left = Some (a + 16, set_words h (<[a + 8 := s]> (<[a := untag left]> (words h)))).
Proof.
  intros H0 H8. unfold create_allocation_header. rewrite Z.add_0_r, word_store_ok by done. cbn [mbind option_bind]. rewrite word_store_ok by (hsimp; rewrite lookup_insert_ne by lia; done). done.
Qed.

Lemma page_8 p : p mod 4096 = 0 → p mod 8 = 0.
Proof. intros Hp. pose proof (Z.div_mod p 4096 ltac:(lia)). replace p with (512 * (p / 4096) * 8) by lia. apply Z_mod_mult. Qed.

Lemma map_pages_words h ptr gross c z :
  0 ≤ gross → gross mod 8 = 0 →
  words (map_pages h ptr gross c) !! z = if decide (ptr ≤ z < ptr + gross ∧ (z - ptr) mod 8 = 0) then Some (c z) else words h !! z.
Proof.
  intros Hg Hg8. unfold map_pages. hsimp. rewrite map_words_lookup. pose proof (Z.div_mod gross 8 ltac:(lia)). rewrite Z2Nat.id by (apply Z.div_pos; lia). by replace (8 * (gross / 8)) with gross by lia.
Qed.

Lemma map_pages_mapped h ptr gross c : ptr mod 8 = 0 → 0 ≤ gross → gross mod 8 = 0 → mapped (words (map_pages h ptr gross c)) ptr (ptr + gross).
Proof.
  intros Hp Hg Hg8 z Hz Hz8. rewrite map_pages_words, decide_True by (done || (split; [done|]; by rewrite Zminus_mod, Hz8, Hp)). eauto.
Qed.

Lemma map_pages_outside h ptr gross c z : 0 ≤ gross → gross mod 8 = 0 → ¬ (ptr ≤ z < ptr + gross) → words (map_pages h ptr gross c) !! z = words h !! z.
Proof. intros Hg Hg8 Hz. rewrite map_pages_words, decide_False by (done || intros [? _]; done). done. Qed.

(** No free area meets the words from [lo] to [hi]. *)
Definition clear_of (F : gmap Z Z) (lo hi : Z) : Prop := ∀ y t, F !! y = Some t → 32 ≤ t ∧ (y + t ≤ lo ∨ hi ≤ y).

Lemma clear_lists h h' F L lo hi :
  clear_of F lo hi → free_lists h' = free_lists h → free_list_bits h' = free_list_bits h →
  (∀ z, ¬ (lo ≤ z < hi) → words h' !! z = words h !! z) → lists_inv h F L → lists_inv h' F L.
Proof. intros Hc E1 E2 Hw. apply lists_frame; [done|done|]. intros y t z Hy Hz. apply Hw. destruct (Hc y t Hy); lia. Qed.

Lemma clear_link F lo hi z : clear_of F lo hi → lo ≤ z < hi → ¬ link_word F z.
Proof. intros Hc Hz (y & [t Hy] & Hzy). destruct (Hc y t Hy); lia. Qed.

(** The words that describe a new range: two sentinels and a free area between them. *)
Lemma add_to_heap_ok h F L ptr gross :
  lists_inv h F L → clear_of F ptr (ptr + gross) → 0 < ptr → ptr mod 8 = 0 → 64 ≤ gross ≤ max_area → gross mod 8 = 0 →
  mapped (words h) ptr (ptr + gross) → 0 ≤ remaining h < 4000000000 →
  ∃ h' L', add_to_heap h ptr gross false = Some h' ∧ heap_size h' = heap_size h ∧ remaining h' = remaining h + (gross - 32) ∧
    lists_inv h' (<[ptr + 16 := gross - 32]> F) L' ∧ (∀ e, e ∈ range_headers ptr (mk_range 16 [(true, gross - 32)]) → header_in (words h') e) ∧
    touched (words h) (words h') (λ z, ptr ≤ z < ptr + gross ∨ link_word F z).
Proof.
  intros Hl Hc Hp0 Hp8 Hg Hg8 Hm Hrm. unfold add_to_heap. assert (Hm8 : ∀ k, 0 ≤ k < gross → k mod 8 = 0 → is_Some (words h !! (ptr + k))) by (intros k Hk Hk8; apply Hm; [lia|by rewrite Z.add_mod, Hp8, Hk8 by lia]).
  rewrite create_header_ok; [|rewrite <- (Z.add_0_r ptr); apply Hm8; [lia|done]|by apply Hm8; [lia|]]. cbn [mbind option_bind]. change sizeof_header with 16. change (2 * 16) with 32.
  rewrite u64_id by (unfold is_u64, max_area in *; lia). change (untag 0) with 0. set (h1 := set_words h _).
  assert (Ht1 : touched (words h) (words h1) (λ z, ptr ≤ z < ptr + gross ∨ link_word F z)).
  { apply (touched_trans _ (<[ptr := 0]> (words h))); apply touched_insert; [rewrite <- (Z.add_0_r ptr); apply Hm8; [lia|done]|left; lia| |left; lia]. rewrite lookup_insert_ne by lia. by apply Hm8; [lia|]. }
  assert (Hl1 : lists_inv h1 F L) by (apply (clear_lists h h1 F L ptr (ptr + gross)); [exact Hc|done|done| |exact Hl]; intros z Hz; unfold h1; hsimp; by rewrite !lookup_insert_ne by lia).
  destruct (create_ok' h1 F L (ptr + 16) ptr (gross - 32) Hl1) as (h2 & L2 & -> & Hl2 & Hrm2 & Hsz2 & Hc0 & Hc8 & Ht2).
  { destruct (F !! (ptr + 16)) as [t|] eqn:Ef; [|done]. destruct (Hc _ _ Ef); lia. }
  { lia. }
  { by rewrite Z.add_mod, Hp8 by lia. }
  { unfold max_area in *. lia. }
  { by rewrite Zminus_mod, Hg8. }
  { eapply mapped_touched; [exact Ht1|]. eapply mapped_within; [exact Hm|lia|lia]. }
  { intros y t Hy. destruct (Hc y t Hy); lia. }
  { done. }
  cbn [mbind option_bind]. assert (Ht2' : touched (words h) (words h2) (λ z, ptr ≤ z < ptr + gross ∨ link_word F z)).
  { eapply touched_trans; [exact Ht1|]. eapply touched_weaken; [exact Ht2|]. intros z [?|?]; [left; lia|by right]. }
  assert (Hm2 : ∀ k, 0 ≤ k < gross → k mod 8 = 0 → is_Some (words h2 !! (ptr + k))) by (intros k Hk Hk8; by apply Ht2', Hm8).
  assert ((gross - 16) mod 8 = 0 ∧ (gross - 16 + 8) mod 8 = 0) as [He1 He2] by (split; [by rewrite Zminus_mod, Hg8|]; by rewrite Z.add_mod, Zminus_mod, Hg8 by lia).
  replace (ptr + gross - 16) with (ptr + (gross - 16)) by lia. rewrite create_header_ok; [|by apply Hm2; [lia|]|by rewrite <- Z.add_assoc; apply Hm2; [lia|]]. cbn [mbind option_bind].
  assert (Hp16 : (ptr + 16) mod 8 = 0) by (by rewrite Z.add_mod, Hp8 by lia). rewrite (untag_left false (ptr + 16) Hp16 : untag (ptr + 16) = ptr + 16). eexists _, L2. split; [done|]. hsimp.
  split; [exact Hsz2|]. split; [exact Hrm2|]. split_and!.
  - eapply lists_frame; [..|exact Hl2]; [done|done|]. intros y t z Hy Hz. hsimp. apply lookup_insert_Some in Hy as [[<- <-]|[_ Hy]]; [by rewrite !lookup_insert_ne by lia|]. destruct (Hc y t Hy); by rewrite !lookup_insert_ne by lia.
  - assert (Hk : ∀ z, ptr ≤ z < ptr + 16 → words h2 !! z = words h1 !! z) by (intros z Hz; apply Ht2; intros [?|?]; [lia|]; by eapply clear_link; [exact Hc| |done]; lia).
    intros e He. unfold range_headers in He. cbn [sentinel items headers app total last_area] in He. unfold header_in.
    apply elem_of_cons in He as [->|He]; [cbn [fst snd]; rewrite !lookup_insert_ne, !Hk by lia; unfold h1; hsimp; rewrite lookup_insert_eq, lookup_insert_ne, lookup_insert_eq by lia; done|].
    apply elem_of_cons in He as [->|He]; [cbn [fst snd]; rewrite !lookup_insert_ne by lia; done|]. apply list_elem_of_singleton in He as ->. cbn [fst snd].
    replace (ptr + 16 + (gross - 32 + 0)) with (ptr + (gross - 16)) by lia. rewrite lookup_insert_eq, lookup_insert_ne, lookup_insert_eq by lia. done.
  - eapply touched_trans; [exact Ht2'|]. apply (touched_trans _ (<[ptr + (gross - 16) := ptr + 16]> (words h2))); apply touched_insert; [by apply Hm2; [lia|]|left; lia| |left; lia].
    rewrite lookup_insert_ne by lia. rewrite <- Z.add_assoc. by apply Hm2; [lia|].
Qed.

(** The blocks are as before. *)
Record same_blocks (h h' : heap) (O O' : gmap Z range) : Prop := {
  sb_inv : hinv h' O';
  sb_blocks y t : is_area O' false y t ↔ is_area O false y t;
  sb_kept y t z : is_area O false y t → y + 16 ≤ z < y + t → words h' !! z = words h !! z }.

Lemma same_allocated h h1 h' O O1 O' x s : same_blocks h h1 O O1 → allocated h1 h' O1 O' x s → allocated h h' O O' x s.
Proof.
  intros [_ B1 K1] [I2 B2 K2]. split; [done| |].
  - intros y t. by rewrite B2, B1.
  - intros y t z Hy Hz. rewrite (K2 y t) by (done || by apply B1). by apply (K1 y t).
Qed.

Lemma blocks_trans h h1 h' O O1 O' : same_blocks h h1 O O1 → same_blocks h1 h' O1 O' → same_blocks h h' O O'.
Proof.
  intros [_ B1 K1] [I2 B2 K2]. split; [done| |].
  - intros y t. by rewrite B2, B1.
  - intros y t z Hy Hz. rewrite (K2 y t) by (done || by apply B1). by apply (K1 y t).
Qed.

Lemma clear_of_ranges O F w lo hi :
  ranges_ok w O → frees_of F O → (∀ b o, O !! b = Some o → range_end b o ≤ lo ∨ hi ≤ b) → clear_of F lo hi.
Proof.
  intros Hr HF Hap y t (b & o & Hb & Hy)%HF. destruct (area_in_range _ _ _ _ _ _ _ Hr Hb Hy) as (? & ? & ? & _). destruct (Hap b o Hb); lia.
Qed.

(** The range of an answer joins the others. *)
Lemma fresh_range O ptr gross :
  answer_ok O ptr gross → 4096 ≤ gross ≤ max_range → gross mod 4096 = 0 →
  let o := mk_range 16 [(true, gross - 32)] in range_ok ptr o ∧ range_end ptr o = ptr + gross.
Proof.
  intros (Hp0 & Hpa & Hp63 & _ & _) Hg Hga o. assert (He : range_end ptr o = ptr + gross) by (unfold range_end, o; cbn; lia). split; [|done].
  split; rewrite ?He; cbn [items sentinel o]; try (done || lia).
  - apply Forall_singleton. split; cbn; [lia|]. by rewrite Zminus_mod, (page_8 gross Hga).
  - by rewrite Z.add_mod, Hpa, Hga by lia.
Qed.

Lemma fresh_inv h O ptr gross c :
  hinv h O → answer_ok O ptr gross → 4096 ≤ gross ≤ max_range → gross mod 4096 = 0 →
  ∃ h', add_to_heap (map_pages h ptr gross c) ptr gross false = Some h' ∧ heap_size h' = heap_size h ∧
    same_blocks h h' O (<[ptr := mk_range 16 [(true, gross - 32)]]> O) ∧ O !! ptr = None.
Proof.
  intros Hi Ha Hg Hga. pose proof (hv_ranges _ _ Hi) as Hr. destruct (hv_lists _ _ Hi) as (F & L & Hl & HF). destruct (fresh_range O ptr gross Ha Hg Hga) as [Hok Hend].
  set (o := mk_range 16 [(true, gross - 32)]) in *. destruct Ha as (Hp0 & Hpa & _ & Htot & Hap). pose proof (page_8 _ Hpa) as Hp8. pose proof (page_8 _ Hga) as Hg8.
  pose proof (clear_of_ranges _ _ _ _ _ Hr HF Hap) as Hc. set (h0 := map_pages h ptr gross c).
  assert (Hout : ∀ z, ¬ (ptr ≤ z < ptr + gross) → words h0 !! z = words h !! z) by (intros z Hz; apply map_pages_outside; (done || lia)).
  pose proof (range_sum_le O ltac:(intros b p Hb; apply (rs_range _ _ Hr b p Hb))) as Hsum. pose proof (hv_remaining _ _ Hi) as Hrem.
  assert (Hl0 : lists_inv h0 F L) by (apply (clear_lists h h0 F L ptr (ptr + gross)); done).
  assert (Hm0 : mapped (words h0) ptr (ptr + gross)) by (apply map_pages_mapped; (done || lia)).
  destruct (add_to_heap_ok h0 F L ptr gross Hl0 Hc Hp0 Hp8) as (h' & L' & E & Hsz & Hrm & Hl' & Hh & Ht); [unfold max_range in *; lia|done|done|change (remaining h0) with (remaining h); lia|].
  assert (Hnone : O !! ptr = None).
  { destruct (O !! ptr) as [p|] eqn:Ep; [|done]. destruct (rs_range _ _ Hr _ _ Ep) as [_ [Hs _] Hia _ _ _ _]. pose proof (total_nonneg _ Hia). specialize (Hap _ _ Ep). unfold range_end in Hap. lia. }
  assert (Hareas : ∀ f x s, is_area (<[ptr := o]> O) f x s ↔ (f = true ∧ x = ptr + 16 ∧ s = gross - 32) ∨ is_area O f x s).
  { intros f x s. rewrite (insert_areas _ _ _ _ _ _ Hnone). unfold o. cbn [sentinel items area_list]. rewrite app_nil_r. destruct f; cbn [Bool.eqb]; [rewrite list_elem_of_singleton|rewrite elem_of_nil]; naive_solver. }
  assert (Hkeep : ∀ b p z, O !! b = Some p → b ≤ z < range_end b p → ¬ link_word F z → words h' !! z = words h !! z).
  { intros b p z Hb Hz Hn. destruct (Hap b p Hb); (rewrite (proj2 Ht); [apply Hout; lia|intros [?|?]; [lia|done]]). }
  assert (Hdom : ∀ b p z, O !! b = Some p → b ≤ z < range_end b p → is_Some (words h' !! z) ↔ is_Some (words h !! z)).
  { intros b p z Hb Hz. rewrite (proj1 Ht), Hout; [done|]. destruct (Hap b p Hb); lia. }
  exists h'. split; [exact E|]. split; [exact Hsz|]. split; [|done]. split; [split| |].
  - apply insert_range; [|done|by rewrite Hend|done|rewrite Hend; by eapply mapped_touched].
    eapply ranges_kept; [exact Hr|exact HF|done|exact Hkeep|exact Hdom].
  - exists (<[ptr + 16 := gross - 32]> F), L'. split; [done|]. intros x s. rewrite Hareas, <- (HF x s). rewrite lookup_insert_Some. split; [naive_solver|].
    intros [(_ & -> & ->)|Hx]; [by left|]. right. split; [|done]. intros <-. destruct (Hc _ _ Hx); unfold max_range, max_area in *; lia.
  - rewrite range_sum_insert, Hrm by done. change (remaining h0) with (remaining h). rewrite Hrem. unfold o. cbn. lia.
  - rewrite range_sum_insert by done. unfold o. cbn. lia.
  - intros y t. rewrite Hareas. naive_solver.
  - intros y t z Hy Hz. pose proof Hy as (b & p & Hb & Hyb). destruct (area_in_range _ _ _ _ _ _ _ Hr Hb Hyb) as (? & ? & ? & _). apply (Hkeep b p); [done|lia|].
    intros Hlk. destruct (link_word_area _ _ _ _ Hr HF Hlk) as (u & v & Hu & Huv & _). destruct (areas_apart _ _ _ _ _ _ _ _ Hr Hy Hu) as [(_ & _ & ?)|?]; [done|lia].
Qed.

Lemma answer_mono O ptr g g' : answer_ok O ptr g → g' ≤ g → answer_ok O ptr g'.
Proof. intros (H1 & H2 & H3 & H4 & H5) Hle. do 4 (split; [done || lia|]). intros b o Hb. destruct (H5 b o Hb); lia. Qed.

(** ** [heap_grow] *)

Lemma grow_size size : 0 ≤ size ≤ 2 ^ 22 → let g := ROUNDUP (u64 (size + 2 * sizeof_header)) PAGE_SIZE in
  size + 32 ≤ g < size + 32 + 4096 ∧ 4096 ≤ g ≤ max_range ∧ g mod 4096 = 0.
Proof.
  intros Hs. change (2 * sizeof_header) with 32. rewrite u64_id by (unfold is_u64; lia). destruct (roundup_spec (size + 32) 12) as [H1 H2]; [lia..|]. change (2 ^ 12) with 4096 in *. change PAGE_SIZE with 4096. intros g. fold g in H1, H2.
  split; [lia|]. split; [|done]. pose proof (Z.div_mod g 4096 ltac:(lia)). unfold max_range, max_area. lia.
Qed.

Lemma heap_grow_refused h O o size : hinv h O →
  ∃ h', heap_grow h (None :: o) size false = Some (-1, 0, h', o) ∧ same_blocks h h' O O.
Proof. intros Hi. eexists. split; [reflexivity|]. split; [by apply hinv_size|done|done]. Qed.

Lemma heap_grow_ok h O o size ptr c :
  hinv h O → 0 ≤ size ≤ 2 ^ 22 → answer_ok O ptr max_range →
  ∃ r h' O' x s, heap_grow h (Some (ptr, c) :: o) size false = Some (r, ptr + 16, h', o) ∧ 0 ≤ r ∧ same_blocks h h' O O' ∧ is_area O' true x s ∧ size ≤ s ∧ s mod 4096 = 4064.
Proof.
  intros Hi Hs Ha. pose proof (grow_size size Hs) as Hg. cbn zeta in Hg. unfold heap_grow, page_alloc. set (g := ROUNDUP _ _) in *. destruct Hg as (Hg1 & Hg2 & Hg3).
  destruct (fresh_inv (set_size h (u64 (heap_size h + g))) O ptr g c) as (h' & -> & _ & Hb & Hnone); [by apply hinv_size|eapply answer_mono; [exact Ha|lia]|done|done|]. cbn [mbind option_bind].
  exists g, h', (<[ptr := mk_range 16 [(true, g - 32)]]> O), (ptr + 16), (g - 32).
  assert (E : i64 g = g) by (unfold i64, max_range, max_area in *; rewrite Z.mod_small by lia; lia). rewrite E. split; [done|]. split; [lia|]. split; [by destruct Hb|]. split.
  - rewrite insert_areas by done. left. cbn. by left.
  - split; [lia|]. replace (g - 32) with (4064 + (g / 4096 - 1) * 4096) by (pose proof (Z.div_mod g 4096 ltac:(lia)); lia). by rewrite Z.mod_add.
Qed.

(** Answers that the heap can use. *)
Definition answers_ok (O : gmap Z range) (o : os) : Prop := ∀ ptr c, Some (ptr, c) ∈ o → answer_ok O ptr max_range.

(** All answers from [o] to [o'] were refusals. *)
Definition refused (o o' : os) : Prop := ∃ n, (0 < n)%nat ∧ o' = drop n o ∧ ∀ ptr c, Some (ptr, c) ∉ take n o.

Lemma grow_step h O o size :
  hinv h O → answers_ok O o → 0 ≤ size ≤ 2 ^ 22 →
  (∃ r p h' o' O' x s, heap_grow h o size false = Some (r, p, h', o') ∧ 0 ≤ r ∧ same_blocks h h' O O' ∧ is_area O' true x s ∧ size ≤ s ∧ s mod 4096 = 4064) ∨
  (∃ h', heap_grow h o size false = Some (-1, 0, h', drop 1 o) ∧ same_blocks h h' O O ∧ ∀ ptr c, Some (ptr, c) ∉ take 1 o).
Proof.
  intros Hi Ha Hs. destruct o as [|[[ptr c]|] o].
  - right. eexists. split; [reflexivity|]. split; [split; [by apply hinv_size|done|done]|]. by intros ptr c ?%not_elem_of_nil.
  - left. destruct (heap_grow_ok h O o size ptr c Hi Hs (Ha ptr c ltac:(by left))) as (r & h' & O' & x & s & E & Hrest). by exists r, (ptr + 16), h', o, O', x, s.
  - right. destruct (heap_grow_refused h O o size Hi) as (h1 & E & Hb). exists h1. split; [exact E|]. split; [exact Hb|]. by intros ptr c [=]%list_elem_of_singleton.
Qed.

Lemma refused_step o o' : (∀ ptr c, Some (ptr, c) ∉ take 1 o) → refused (drop 1 o) o' → refused o o'.
Proof.
  intros Hn (n & Hn0 & -> & Hn'). exists (1 + n)%nat. split; [lia|]. split; [by rewrite drop_drop|]. intros ptr c Hin. destruct o as [|a o]; [by apply not_elem_of_nil in Hin|].
  apply elem_of_cons in Hin as [<-|Hin]; [by apply (Hn ptr c); left|by apply (Hn' ptr c)].
Qed.

(** The loop grows the heap by enough, or the pages it asked for were refused. *)
Lemma grow_loop_ok O R k : ∀ h o growby, hinv h O → answers_ok O o → 1 ≤ R ≤ 2 ^ 22 + 4064 → R ≤ growby ∨ growby = 2 ^ 22 → growby ≤ 2 ^ 22 → growby ≤ Z.max (2 ^ (Z.of_nat k - 1)) R →
  (0 < k)%nat →
  ∃ grown h' o' O', grow_loop k h o growby R = Some (grown, h', o') ∧ same_blocks h h' O O' ∧
    if (grown : bool) then ∃ x s, is_area O' true x s ∧ R ≤ s else O' = O ∧ refused o o'.
Proof.
  induction k as [|k IH]; intros h o growby Hi Ha HR Hlo Hhi Hk Hk0; [lia|]. cbn [grow_loop].
  destruct (grow_step h O o growby Hi Ha ltac:(lia)) as [(r & p & h1 & o1 & O1 & x & s & -> & Hr & Hb & Hx & Hs & Hs4)|(h1 & -> & Hb & Hn)]; cbn [mbind option_bind].
  - rewrite (proj2 (Z.ltb_ge r 0)) by lia. exists true, h1, o1, O1. split; [done|]. split; [done|]. exists x, s. split; [done|]. pose proof (Z.div_mod s 4096 ltac:(lia)). lia.
  - cbn [Z.ltb Z.compare]. destruct (growby <=? R) eqn:Eg; zb.
    { exists false, h1, (drop 1 o), O. do 3 (split; [done|]). exists 1%nat. split; [lia|done]. }
    assert (Hk' : (0 < k)%nat) by (destruct k; [change (2 ^ (Z.of_nat 1 - 1)) with 1 in Hk|]; lia).
    assert (E2 : 2 ^ (Z.of_nat (S k) - 1) = 2 * 2 ^ (Z.of_nat k - 1)) by (rewrite <- Z.pow_succ_r by lia; f_equal; lia). rewrite E2 in Hk. generalize dependent (2 ^ (Z.of_nat k - 1)). intros P IH HP _. rewrite Z.shiftr_div_pow2 by lia. change (2 ^ 1) with 2. pose proof (Z.div_mod growby 2 ltac:(lia)). pose proof (Z.mod_pos_bound growby 2 ltac:(lia)).
    destruct (IH h1 (drop 1 o) (Z.max (growby / 2) R)) as (grown & h' & o' & O' & E' & Hb' & Hres); [apply Hb| |lia|lia|lia|lia|done|].
    { intros ptr c Hin. apply (Ha ptr c). rewrite <- (take_drop 1 o). apply elem_of_app. by right. }
    exists grown, h', o', O'. split; [exact E'|]. split; [by eapply blocks_trans|]. destruct grown; [done|]. destruct Hres as [-> Hres]. split; [done|]. by apply refused_step.
Qed.

(** ** [cmpct_alloc] *)

(** A block that does not meet those before. *)
Definition new_block (h h' : heap) (O O' : gmap Z range) (x s : Z) : Prop :=
  allocated h h' O O' x s ∧ 0 < x ∧ x mod 8 = 0 ∧ ∀ y t, is_area O false y t → x + s ≤ y ∨ y + t ≤ x.

Lemma new_block_of h h' O O' x s u :
  ranges_ok (words h) O → allocated h h' O O' x s → is_area O true x u → new_block h h' O O' x s.
Proof.
  intros Hr Ha Hx. pose proof (hv_ranges _ _ (al_inv _ _ _ _ _ _ Ha)) as Hr'. assert (Hn : is_area O' false x s) by (apply (al_blocks _ _ _ _ _ _ Ha); auto).
  split; [done|]. pose proof Hn as (b & o & Hb & Hxb). destruct (area_in_range _ _ _ _ _ _ _ Hr' Hb Hxb) as (? & _ & ? & _ & ?). destruct (rs_range _ _ Hr' _ _ Hb) as [[? _] _ _ _ _ _ _]. split; [lia|]. split; [done|].
  intros y t Hy. destruct (areas_apart _ _ _ _ _ _ _ _ Hr' Hn (proj2 (al_blocks _ _ _ _ _ _ Ha y t) (or_intror Hy))) as [(-> & -> & _)|?]; [|done].
  pose proof (apart_area _ _ _ _ _ _ _ _ Hr Hx Hy ltac:(by right)). lia.
Qed.

Lemma same_new_block h h1 h' O O1 O' x s : same_blocks h h1 O O1 → new_block h1 h' O1 O' x s → new_block h h' O O' x s.
Proof. intros Hb (Ha & H0 & H8 & Hd). split; [by eapply same_allocated|]. split; [done|]. split; [done|]. intros y t Hy. by apply Hd, (sb_blocks _ _ _ _ Hb). Qed.

(** Looking for an area and taking it: there is one exactly if a free area is large
    enough. *)
Lemma find_take h O i r n :
  hinv h O → 0 ≤ i < 136 → 0 < n ≤ r → 16 ≤ r ≤ 2 ^ 22 → r mod 8 = 0 →
  (∀ s j, 16 ≤ s ≤ max_area → s mod 8 = 0 → size_to_index_freeing s = Some j → (i ≤ j ↔ r ≤ s)) →
  ∃ b, find_nonempty_bucket h i = Some b ∧
    ((b = -1 ∧ ∀ x s, is_area O true x s → s < r + 16) ∨
     (b ≠ -1 ∧ ∃ x s h' O', take_area h n (r + 16) b = Some (x + 16, h') ∧ new_block h h' O O' x s ∧ r + 16 ≤ s)).
Proof.
  intros Hi Hir Hn Hr Hr8 Hix. destruct (hv_lists _ _ Hi) as (F & L & Hl & HF). destruct (find_ok h L i (li_bits _ _ _ Hl) Hir) as (b & E & Hf). exists b. split; [exact E|]. destruct Hf as [[-> Hno]|[Hb (l & Hlb & Hne)]].
  - left. split; [done|]. intros x s Hx. apply HF in Hx. destruct (li_area _ _ _ Hl _ _ Hx) as (_ & Hs & Hs8 & _). destruct (lists_member _ _ _ _ _ Hl Hx) as (j & l1 & l2 & Ej & Hj & Hlj).
    destruct (decide (s < r + 16)) as [|Hge]; [done|]. exfalso. apply (Hno j); [|exists (l1 ++ x :: l2); split; [done|by destruct l1]].
    split; [|lia]. apply (Hix (s - 16) j); [lia|by rewrite Zminus_mod, Hs8|done|lia].
  - right. split; [lia|]. assert (Hb' : 0 ≤ b < 136) by (apply lookup_lt_Some in Hlb; rewrite (li_len _ _ _ Hl) in Hlb; lia).
    destruct (take_area_ok h O F L b l n (r + 16)) as (x & s & h' & O' & Et & Ha & HRs & Hx); [done|done|done|done|done|done|lia|lia|lia|by rewrite Z.add_mod, Hr8 by lia| |].
    { intros s Hs Hs8 Ej. assert (r ≤ s - 16); [|lia]. apply (Hix (s - 16) b); [lia|by rewrite Zminus_mod, Hs8|done|lia]. }
    exists x, s, h', O'. split; [done|]. split; [|done]. eapply new_block_of; [apply (hv_ranges _ _ Hi)|done|done].
Qed.

Lemma cmpct_alloc_ok h O o n :
  hinv h O → answers_ok O o → 0 < n ≤ 2 ^ 22 - 16 →
  ∃ p h' o', cmpct_alloc h o n = Some (p, h', o') ∧
    ((p = 0 ∧ same_blocks h h' O O ∧ refused o o') ∨ (0 < p ∧ ∃ s O', new_block h h' O O' (p - 16) s ∧ n + 16 ≤ s)).
Proof.
  intros Hi Ha Hn. destruct (index_allocating n Hn) as (i & r & Ei & Hi' & Hr & Hr16 & Hr8 & Hix). unfold cmpct_alloc. rewrite (proj2 (Z.eqb_neq n 0)) by lia.
  change (Z.shiftl 1 HEAP_ALLOC_VIRTUAL_BITS) with (2 ^ 22). change sizeof_header with 16. rewrite !u64_id by (unfold is_u64; lia).
  assert (Eg : (n + 16 >? 2 ^ 22) = false) by (rewrite Z.gtb_ltb; apply Z.ltb_ge; lia). rewrite Eg, Ei. cbn [mbind option_bind]. rewrite u64_id by (unfold is_u64; lia).
  assert (Hdone : ∀ x s h1 h' O1 O' (o' : os), same_blocks h h1 O O1 → new_block h1 h' O1 O' x s → r + 16 ≤ s →
    (x + 16 = 0 ∧ same_blocks h h' O O ∧ refused o o') ∨ (0 < x + 16 ∧ ∃ s O', new_block h h' O O' (x + 16 - 16) s ∧ n + 16 ≤ s)).
  { intros x s h1 h' O1 O' o' Hb Hnb Hs. right. assert (0 < x) by apply Hnb. split; [lia|]. exists s, O'. replace (x + 16 - 16) with x by lia. split; [by eapply same_new_block|lia]. }
  assert (Hself : same_blocks h h O O) by done.
  destruct (find_take h O i r n) as (b & -> & [[-> Hno]|(Hb & x & s & h' & O' & Et & Hnb & Hs)]); try (done || lia); cbn [mbind option_bind].
  2: { rewrite (proj2 (Z.eqb_neq b (-1))) by done. rewrite Et. cbn [mbind option_bind]. eexists _, _, _. split; [done|]. by eapply Hdone. }
  cbn [Z.eqb Pos.eqb]. set (growby := Z.min _ _). assert (Hgb : (r + 16 ≤ growby ∨ growby = 2 ^ 22) ∧ growby ≤ 2 ^ 22) by (unfold growby; lia). 
  destruct (grow_loop_ok O (r + 16) 23 h o growby Hi Ha) as (grown & h1 & o1 & O1 & -> & Hb1 & Hres); [lia|apply Hgb|apply Hgb|change (2 ^ (Z.of_nat 23 - 1)) with (2 ^ 22); lia|lia|]. cbn [mbind option_bind].
  destruct grown; cbn [negb]; [|destruct Hres as [-> Hres]; exists 0, h1, o1; split; [done|]; by left]. destruct Hres as (y & t & Hy & Ht).
  destruct (find_take h1 O1 i r n) as (b & -> & [[_ Hno1]|(_ & x & s & h' & O' & Et & Hnb & Hs)]); try (done || lia); cbn [mbind option_bind]; [apply Hb1|specialize (Hno1 y t Hy); lia|].
  rewrite Et. cbn [mbind option_bind]. eexists _, _, _. split; [done|]. by eapply Hdone.
Qed.
End HeapGrow.
