(* ===== verification/HeapFree.v ===== *)
(** * Release into the kernel heap

    [cmpct_free] merges a block with its free neighbours, or gives a range without
    blocks back to the page allocator; the other blocks are as before. *)

From stdpp Require Import base tactics numbers list list_numbers gmap.
From Stdlib Require Import ZArith Lia.
From S2P Require Import Prelude Heap HeapLists HeapRanges HeapAlloc HeapGrow.
#[local] Open Scope Z_scope.

Module HeapFree.
Import Heap HeapLists HeapRanges HeapAlloc HeapGrow.

(** ** [free_memory] *)

(** Between the unlinking of the neighbours and [free_memory]: the areas [mid], at
    [a], are in no list, and the header after them points to [a]. *)
Record merged (h h1 : heap) (F F1 : gmap Z Z) (a : Z) (mid l2 : areas) : Prop := {
  mg_lists : ∃ L1, lists_inv h1 F1 L1;
  mg_free x s : F1 !! x = Some s ↔ F !! x = Some s ∧ ¬ (a ≤ x < a + total mid);
  mg_remaining : remaining h1 = remaining h - free_total mid;
  mg_touched : touched (words h) (words h1) (changes F a (total mid));
  mg_next : words h1 !! (a + total mid) = Some (left_word (starts_free l2) a) }.

(** What a release promises: the block at [x] is gone, and the others are as before. *)
Record freed (h h' : heap) (O O' : gmap Z range) (x : Z) : Prop := {
  fr_inv : hinv h' O';
  fr_blocks y t : is_area O' false y t ↔ is_area O false y t ∧ y ≠ x;
  fr_kept y t z : is_area O false y t → y ≠ x → y + 16 ≤ z < y + t → words h' !! z = words h !! z }.

(** The headers to the left of the middle and after it. *)
Lemma left_header w O b z l1 mid l2 :
  ranges_ok w O → O !! b = Some (mk_range z (l1 ++ mid ++ l2)) → let left := last_area b (b + z) l1 in
  ∃ e, e ∈ range_headers b (mk_range z (l1 ++ mid ++ l2)) ∧ e.1.1 = left ∧ left + 16 ≤ b + z + total l1 ∧
    negb (Z.land e.1.2 1 =? 0) = ends_free l1 ∧ (e.1.2 = 0 ↔ l1 = []) ∧ (l1 = [] → e.2 = z).
Proof.
  intros Hr Hb left. destruct (rs_range _ _ Hr _ _ Hb) as [_ [Hz _] Ha _ _ _ _]. cbn [items sentinel] in *. destruct l1 as [|[f s] l1 _] using rev_ind.
  - exists (b, 0, z). split; [by left|]. cbn in *. split_and!; (done || lia).
  - rewrite <- app_assoc in Hb, Ha. destruct (address_facts _ _ _ _ _ _ _ Hr Hb) as (_ & Hp & Hp8 & _). unfold left. rewrite last_area_app, total_app. cbn [last_area total].
    apply Forall_app in Ha as [_ Ha]. apply Forall_app in Ha as [[[Hs _] _]%Forall_cons _]. cbn in Hs.
    exists (b + z + total l1, left_word f (last_area b (b + z) l1), s). rewrite <- app_assoc, range_headers_split. cbn [fst snd]. split; [right; apply elem_of_app; right; by left|].
    split; [done|]. split; [lia|]. rewrite tagged_left by done. split; [unfold ends_free; by rewrite last_snoc; destruct f|]. split; [|by destruct l1]. split; [|by destruct l1].
    intros E0. destruct f; cbn in E0; [rewrite tag_eq in E0 by done|]; lia.
Qed.

Lemma next_header w O b z l1 mid l2 :
  ranges_ok w O → O !! b = Some (mk_range z (l1 ++ mid ++ l2)) →
  ∃ e, e ∈ range_headers b (mk_range z (l1 ++ mid ++ l2)) ∧ e.1.1 = b + z + total l1 + total mid ∧ (e.2 = 0 ↔ l2 = []).
Proof.
  intros Hr Hb. destruct (rs_range _ _ Hr _ _ Hb) as [_ _ Ha _ _ _ _]. cbn [items] in Ha. apply Forall_app in Ha as [_ Ha]. apply Forall_app in Ha as [_ Ha].
  destruct (tail_size (b + z + total l1 + total mid) l2 Ha) as (s & r & Htl & Hs0). rewrite range_headers_split, Htl. eexists. split; [right; apply elem_of_app; right; apply elem_of_app; right; by left|done].
Qed.

Lemma coalesced_merge l1 mid l2 n : coalesced (l1 ++ mid ++ l2) → ends_free l1 = false → starts_free l2 = false → coalesced (l1 ++ [(true, n)] ++ l2).
Proof. rewrite !coalesced_app. intros (H1 & (_ & H2 & _) & _) E1 E2. rewrite E1, E2. cbn. split_and!; done. Qed.

(** Blocks in the middle: only [x]. *)
Definition only_block (a x : Z) (mid : areas) : Prop := ∀ y t, (y, t) ∈ area_list false a mid → y = x.

Lemma mid_blocks w O b z l1 mid l2 f y t :
  ranges_ok w O → O !! b = Some (mk_range z (l1 ++ mid ++ l2)) → mid ≠ [] → let a := b + z + total l1 in
  is_area O f y t → a ≤ y < a + total mid → (y, t) ∈ area_list f a mid.
Proof.
  intros Hr Hb Hne a (c & p & Hc & Hy) Hin. destruct (range_sub _ _ _ _ _ _ _ Hr Hb Hne) as (Hl1 & Hm & Hl2 & Hz & H1 & H2 & H3 & Hb0 & Hend). fold a in Hend. destruct (decide (c = b)) as [->|Hcb].
  - rewrite Hb in Hc. injection Hc as <-. cbn [sentinel items] in Hy. rewrite !area_list_app in Hy. fold a in Hy. apply elem_of_app in Hy as [Hy|Hy]; [apply area_list_bounds in Hy; [unfold a in *; lia|done]|].
    apply elem_of_app in Hy as [Hy|Hy]; [done|]. apply area_list_bounds in Hy; [lia|done].
  - destruct (area_in_range _ _ _ _ _ _ _ Hr Hc Hy) as (? & ? & ? & _). pose proof (rs_apart _ _ Hr c b p _ Hc Hb Hcb). unfold a in *. lia.
Qed.

(** The merged area becomes a free area. *)
Lemma merged_create h h1 O F F1 b z l1 mid l2 x :
  hinv h O → O !! b = Some (mk_range z (l1 ++ mid ++ l2)) → mid ≠ [] → frees_of F O →
  let a := b + z + total l1 in let left := last_area b (b + z) l1 in
  merged h h1 F F1 a mid l2 → ends_free l1 = false → starts_free l2 = false → a ≤ x < a + total mid → only_block a x mid →
  ∃ h', create_free_area h1 a left (total mid) false = Some h' ∧ freed h h' O (<[b := mk_range z (l1 ++ [(true, total mid)] ++ l2)]> O) x.
Proof.
  intros Hi Hb Hne HF a left [[L1 Hl1] Hfree Hrm Ht Hnx] E1 E2 Hx Hob. pose proof (hv_ranges _ _ Hi) as Hr. destruct (range_sub _ _ _ _ _ _ _ Hr Hb Hne) as (Hok1 & Hm & Hok2 & Hz & H1 & H2 & H3 & Hb0 & Hend).
  destruct (rs_range _ _ Hr _ _ Hb) as [_ [Hz16 _] _ Hco _ Hmax _]. cbn [items sentinel] in Hco, Hz16. destruct (address_facts _ _ _ _ _ _ _ Hr Hb) as (_ & _ & Hp8 & Ha8 & _). fold a in Ha8, Hend. fold left in Hp8.
  pose proof (total_nonneg _ Hm) as [_ Hm8]. destruct (remaining_bound _ _ _ _ _ _ _ Hi Hb) as [Hrb1 Hrb2].
  assert (Hsp : ∀ y t, F1 !! y = Some t → (y + t ≤ a ∨ a + total mid ≤ y) ∧ 32 ≤ t) by (intros y t [Hy Hout]%Hfree; eapply outside_mid; [exact Hr|exact Hb|done|by apply HF|done]).
  pose proof (free_total_le _ Hm) as Hfl.
  destruct (create_ok' h1 F1 L1 a left (total mid) Hl1) as (h' & L' & E & Hl' & Hrm' & _ & Hc0 & Hc8 & Ht').
  { destruct (F1 !! a) as [t|] eqn:Ef; [|done]. apply Hfree in Ef as [_ Ef]. lia. }
  { unfold a. lia. }
  { done. }
  { rewrite Hend in Hmax. unfold max_range, a in *. lia. }
  { done. }
  { eapply mapped_touched; [exact Ht|]. eapply mapped_within; [by eapply mid_mapped|fold a; lia|fold a; lia]. }
  { intros y t Hy. destruct (Hsp y t Hy); lia. }
  { lia. }
  assert (Ht2 : touched (words h) (words h') (changes F a (total mid))).
  { eapply touched_trans; [exact Ht|]. eapply touched_weaken; [exact Ht'|]. intros y [Hy|(u & [t [Hu _]%Hfree] & Hy)]; [left; lia|right; right; exists u; eauto]. }
  assert (Hareas : ∀ f y t, is_area (<[b := mk_range z (l1 ++ [(true, total mid)] ++ l2)]> O) f y t ↔ (y, t) ∈ area_list f a [(true, total mid)] ∨ (is_area O f y t ∧ ¬ (a ≤ y < a + total mid))).
  { intros f y t. eapply replace_areas; [exact Hr|exact Hb|done|cbn; lia|]. apply Forall_singleton. split; cbn; [lia|done]. }
  exists h'. split; [exact E|]. split.
  - eapply replace_inv; [exact Hi|exact Hb|done|exact HF|exact Ht2|cbn; lia| | | |fold a|exact Hl'| |].
    + apply Forall_singleton. split; cbn; [lia|done].
    + by eapply coalesced_merge.
    + intros e He. cbn [headers] in He. apply list_elem_of_singleton in He as ->. split; cbn [fst snd]; [exact Hc0|exact Hc8].
    + cbn [last_area]. rewrite (proj2 Ht'); [exact Hnx|]. intros [?|(u & [t Hu] & Hy)]; [lia|]. destruct (Hsp u t Hu); lia.
    + intros y t. fold a. cbn [area_list Bool.eqb app]. rewrite list_elem_of_singleton, lookup_insert_Some, Hfree. split; [intros [[<- <-]|[? ?]]; auto|].
      intros [[= -> ->]|[? ?]]; [by left|right; split; [lia|done]].
    + cbn [free_total]. lia.
  - intros y t. rewrite Hareas. cbn [area_list Bool.eqb app]. rewrite elem_of_nil. split; [intros [[]|[Hy Hout]]; split; [done|lia]|]. intros [Hy Hyx]. right. split; [done|]. intros Hin. apply Hyx. eapply Hob. by eapply mid_blocks.
  - intros y t q Hy Hyx Hq. eapply replace_kept; [exact Hr|exact Hb|done|exact HF|exact Ht2|exact Hy| |exact Hq]. intros Hin. apply Hyx. eapply Hob. by eapply mid_blocks.
Qed.

(** The test for a range without blocks. *)
Lemma whole_ok h h1 O F F1 b z l1 mid l2 :
  hinv h O → O !! b = Some (mk_range z (l1 ++ mid ++ l2)) → mid ≠ [] → frees_of F O →
  let a := b + z + total l1 in let left := last_area b (b + z) l1 in
  merged h h1 F F1 a mid l2 →
  is_whole_os_allocation h1 a left (total mid) = Some (bool_decide (l1 = [] ∧ l2 = [])) ∧ (l1 = [] → words h1 !! (left + 8) = Some z).
Proof.
  intros Hi Hb Hne HF a left Hmg. pose proof (hv_ranges _ _ Hi) as Hr. destruct (left_header _ _ _ _ _ _ _ Hr Hb) as (e & He & Ee & Hle & _ & He0 & Hez).
  destruct (next_header _ _ _ _ _ _ _ Hr Hb) as (g & Hg & Eg & Hg0). destruct (rs_headers _ _ Hr _ _ _ Hb He) as [W1 W2]. destruct (rs_headers _ _ Hr _ _ _ Hb Hg) as [_ W3].
  destruct (range_sub _ _ _ _ _ _ _ Hr Hb Hne) as (_ & _ & _ & _ & _ & Hm & _). fold left in Ee, Hle. fold a in Eg, Hle. pose proof (mg_touched _ _ _ _ _ _ _ Hmg) as Ht.
  assert (V1 : words h1 !! left = Some e.1.2) by (rewrite <- Ee, <- (Z.add_0_r e.1.1), (header_kept _ _ _ _ _ _ _ _ _ 0 Hr HF Ht Hb He), Z.add_0_r by lia; done).
  assert (V2 : words h1 !! (left + 8) = Some e.2) by (rewrite <- Ee, (header_kept _ _ _ _ _ _ _ _ _ 8 Hr HF Ht Hb He) by lia; done).
  assert (V3 : words h1 !! (a + total mid + 8) = Some g.2) by (rewrite <- Eg, (header_kept _ _ _ _ _ _ _ _ _ 8 Hr HF Ht Hb Hg) by lia; done).
  split; [|intros E; by rewrite <- (Hez E)]. unfold is_whole_os_allocation, is_start_of_os_allocation, is_end_of_os_allocation, header_left, header_size, load. rewrite V1, V3. cbn [mbind option_bind].
  destruct (decide (l1 = [])) as [E1|E1].
  - assert (Hal : IS_ALIGNED left PAGE_SIZE = true) by (change PAGE_SIZE with (2 ^ 12); rewrite is_aligned_eq by lia; apply Z.eqb_eq; unfold left; rewrite E1; cbn [last_area]; by destruct (rs_range _ _ Hr _ _ Hb) as [[_ ?] _ _ _ _ _ _]).
    rewrite Hal, (proj2 (Z.eqb_eq e.1.2 0)) by (by apply He0). f_equal. case_bool_decide as E; [apply Z.eqb_eq, Hg0; naive_solver|apply Z.eqb_neq; rewrite Hg0; naive_solver].
  - rewrite (bool_decide_eq_false_2 (l1 = [] ∧ l2 = [])) by naive_solver. rewrite (proj2 (Z.eqb_neq e.1.2 0)) by (by rewrite He0). by destruct (IS_ALIGNED _ _).
Qed.

(** A range whose areas are all free, but for [x], goes back to the page allocator. *)
Lemma merged_return h h1 O F F1 b z mid x :
  hinv h O → O !! b = Some (mk_range z mid) → mid ≠ [] → frees_of F O →
  merged h h1 F F1 (b + z) mid [] → b + z ≤ x < b + z + total mid → only_block (b + z) x mid →
  ∃ h', free_to_os h1 b (z + total mid + 16) = Some h' ∧ freed h h' O (delete b O) x.
Proof.
  intros Hi Hb Hne HF Hmg Hx Hob. pose proof (hv_ranges _ _ Hi) as Hr. destruct (rs_range _ _ Hr _ _ Hb) as [[Hb0 Hba] [Hz _] Hok _ Hea Hmax _]. cbn [items sentinel] in *.
  assert (Hend : range_end b (mk_range z mid) = b + (z + total mid + 16)) by (unfold range_end; cbn; lia). rewrite Hend in Hea, Hmax. set (n := z + total mid + 16) in *.
  assert (Hn : n mod 4096 = 0) by (replace n with (b + n - b) by lia; by rewrite Zminus_mod, Hea, Hba). pose proof (total_nonneg _ Hok) as [Hm0 _].
  unfold free_to_os, page_free. change PAGE_SIZE with (2 ^ 12). rewrite !is_aligned_eq by lia. change (2 ^ 12) with 4096. rewrite Hn, Hba. cbn [Z.eqb mbind option_bind].
  assert (En : Z.shiftr n 12 * 4096 = n) by (rewrite Z.shiftr_div_pow2 by lia; change (2 ^ 12) with 4096; pose proof (Z.div_mod n 4096 ltac:(lia)); lia). rewrite En.
  eexists. split; [done|]. set (w' := filter _ _).
  assert (Hw' : ∀ y, ¬ (b ≤ y < b + n) → w' !! y = words h1 !! y).
  { intros y Hy. unfold w'. apply option_eq. intros v. rewrite map_lookup_filter_Some. naive_solver. }
  destruct Hmg as [[L1 Hl1] Hfree Hrm Ht _].
  assert (Hb' : O !! b = Some (mk_range z ([] ++ mid ++ []))) by (by rewrite app_nil_r).
  assert (Hin : ∀ f y t, is_area O f y t → (b + z ≤ y < b + z + total mid) ∨ ((y + t ≤ b ∨ b + n ≤ y) ∧ 32 ≤ t)).
  { intros f y t (c & p & Hc & Hy). destruct (area_in_range _ _ _ _ _ _ _ Hr Hc Hy) as (? & ? & ? & _). destruct (decide (c = b)) as [->|Hcb].
    - rewrite Hb in Hc. injection Hc as <-. cbn [sentinel items] in Hy. apply area_list_bounds in Hy; [|done]. left. lia.
    - right. destruct (rs_apart _ _ Hr c b p _ Hc Hb Hcb); lia. }
  assert (Hareas : ∀ f y t, is_area (delete b O) f y t ↔ is_area O f y t ∧ ¬ (b + z ≤ y < b + z + total mid)).
  { intros f y t. split.
    - intros (c & p & [Hcb Hc]%lookup_delete_Some & Hy). split; [by exists c, p|]. destruct (area_in_range _ _ _ _ _ _ _ Hr Hc Hy) as (? & ? & ? & _). destruct (rs_apart _ _ Hr c b p _ Hc Hb ltac:(done)); lia.
    - intros [(c & p & Hc & Hy) Hout]. exists c, p. split; [|done]. apply lookup_delete_Some. split; [|done]. intros <-. rewrite Hb in Hc. injection Hc as <-. cbn [sentinel items] in Hy. apply area_list_bounds in Hy; [lia|done]. }
  assert (Hkeep : ∀ c p y, delete b O !! c = Some p → c ≤ y < range_end c p → ¬ link_word F y → w' !! y = words h !! y).
  { intros c p y [Hcb Hc]%lookup_delete_Some Hy Hlk. pose proof (rs_apart _ _ Hr c b p _ Hc Hb ltac:(done)). rewrite Hw' by lia. apply Ht. unfold changes. intros [?|[?|?]]; (lia || done). }
  assert (Hblk : ∀ y t, is_area O false y t → y ≠ x → ¬ (b + z ≤ y < b + z + total mid)).
  { intros y t Hy Hyx Hyi. apply Hyx. apply (Hob y t). pose proof (mid_blocks _ _ _ _ [] _ _ _ _ _ Hr Hb' Hne Hy) as Hmb. cbn in Hmb. rewrite Z.add_0_r in Hmb. by apply Hmb. }
  split; [split|..]; hsimp.
  - apply (ranges_kept (words h) w' O (delete b O) F); [done|done|apply delete_subseteq|exact Hkeep|]. intros c p y [Hcb Hc]%lookup_delete_Some Hy. pose proof (rs_apart _ _ Hr c b p _ Hc Hb ltac:(done)). rewrite Hw' by lia. apply Ht.
  - exists F1, L1. split; [|intros y t; rewrite Hfree, Hareas; unfold frees_of in HF; by rewrite HF]. eapply lists_frame; [..|exact Hl1]; [done|done|]. intros y t q Hy Hq. hsimp. apply Hw'.
    apply Hfree in Hy as [Hy Hout]. apply HF in Hy. destruct (Hin _ _ _ Hy); lia.
  - rewrite Hrm, (hv_remaining _ _ Hi), (range_sum_delete _ _ _ _ Hb). cbn [items]. lia.
  - pose proof (hv_total _ _ Hi) as Htl. rewrite (range_sum_delete _ _ _ _ Hb) in Htl. cbn [items] in Htl. lia.
  - intros y t. rewrite Hareas. split; [intros [Hy Hout]; split; [done|lia]|]. intros [Hy Hyx]. split; [done|]. by eapply Hblk.
  - intros y t q Hy Hyx Hq. pose proof (Hblk y t Hy Hyx) as Hout. destruct (Hin _ _ _ Hy); [lia|]. rewrite Hw' by lia.
    pose proof (replace_kept (words h) (words h1) _ _ _ _ [] _ _ y t q Hr Hb' Hne HF) as Hk. cbn in Hk. rewrite Z.add_0_r in Hk. by apply Hk.
Qed.

Lemma free_memory_ok h h1 O F F1 b z l1 mid l2 x lw :
  hinv h O → O !! b = Some (mk_range z (l1 ++ mid ++ l2)) → mid ≠ [] → frees_of F O →
  let a := b + z + total l1 in
  merged h h1 F F1 a mid l2 → ends_free l1 = false → starts_free l2 = false → a ≤ x < a + total mid → only_block a x mid →
  untag lw = last_area b (b + z) l1 →
  ∃ h' O', free_memory h1 a lw (total mid) = Some h' ∧ freed h h' O O' x.
Proof.
  intros Hi Hb Hne HF a Hmg E1 E2 Hx Hob Hlw. destruct (whole_ok _ _ _ _ _ _ _ _ _ _ Hi Hb Hne HF Hmg) as [Hw Hz]. unfold free_memory. rewrite Hlw. cbv zeta. fold a in Hw. rewrite Hw. cbn [mbind option_bind].
  destruct (bool_decide_reflect (l1 = [] ∧ l2 = [])) as [[-> ->]|_].
  - unfold header_size, load. rewrite (Hz eq_refl). cbn [mbind option_bind last_area]. cbn [app] in Hb. rewrite app_nil_r in Hb. pose proof (hv_ranges _ _ Hi) as Hr.
    destruct (rs_range _ _ Hr _ _ Hb) as [[Hb0 _] [Hz16 _] Hok _ _ _ Htop]. cbn [items sentinel] in *. pose proof (total_nonneg _ Hok) as [Hm0 _]. unfold range_end in Htop. cbn in Htop. subst a. cbn [total] in *. rewrite Z.add_0_r in *.
    destruct (merged_return h h1 O F F1 b z mid x) as (h' & E & Hf); try done. exists h', (delete b O). split; [|done]. change sizeof_header with 16. rewrite u64_id by (unfold is_u64; lia).
    replace (total mid + z + 16) with (z + total mid + 16) by lia. exact E.
  - destruct (merged_create h h1 O F F1 b z l1 mid l2 x) as (h' & E & Hf); try done. eexists h', _. split; [exact E|exact Hf].
Qed.

(** ** [cmpct_free] *)

(** Some free areas are out of the lists; the headers are as they were. *)
Record unlinking (h h1 : heap) (O : gmap Z range) (F F1 : gmap Z Z) : Prop := {
  ul_ranges : ranges_ok (words h1) O;
  ul_lists : ∃ L1, lists_inv h1 F1 L1;
  ul_sub : F1 ⊆ F;
  ul_touched : touched (words h) (words h1) (link_word F) }.

Lemma unlink_step h h1 O F F1 y t :
  frees_of F O → unlinking h h1 O F F1 → F1 !! y = Some t → t ≤ remaining h1 < 4000000000 →
  ∃ h2, unlink_free_unknown_bucket h1 y = Some h2 ∧ unlinking h h2 O F (delete y F1) ∧ remaining h2 = remaining h1 - t.
Proof.
  intros HF [Hr [L1 Hl] Hs Ht] Hy Hrm. destruct (unlink_unknown_ok h1 F1 L1 y t Hl Hy Hrm) as (h2 & L2 & E & Hl2 & Hrm2 & _ & Ht2). exists h2. split; [exact E|]. split; [|done].
  assert (Hs2 : delete y F1 ⊆ F) by (etrans; [apply delete_subseteq|done]).
  assert (Ht2' : touched (words h1) (words h2) (link_word F)).
  { eapply touched_weaken; [exact Ht2|]. intros q (u & [v Hu] & Hq). exists u. split; [|done]. exists v. by eapply lookup_weaken. }
  split; [|eauto|done|by eapply touched_trans]. apply (ranges_kept (words h1) (words h2) O O F); [done|done|done| |]; intros b o q Hb Hq; [intros Hlk; by apply Ht2'|apply Ht2'].
Qed.

Lemma unlinking_start h O F L : hinv h O → lists_inv h F L → unlinking h h O F F.
Proof. intros Hi Hl. split; [apply (hv_ranges _ _ Hi)|eauto|done|apply touched_refl]. Qed.

Lemma unlinked_free w O F (F1 : gmap Z Z) b z l1 mid l2 :
  ranges_ok w O → O !! b = Some (mk_range z (l1 ++ mid ++ l2)) → mid ≠ [] → frees_of F O → let a := b + z + total l1 in
  (∀ y t, F1 !! y = Some t ↔ F !! y = Some t ∧ ∀ u, (y, u) ∉ area_list true a mid) →
  ∀ y t, F1 !! y = Some t ↔ F !! y = Some t ∧ ¬ (a ≤ y < a + total mid).
Proof.
  intros Hr Hb Hne HF a HF1 y t. rewrite HF1. split; intros [Hy Hn]; (split; [done|]).
  - intros Hin. apply (Hn t). eapply mid_blocks; [exact Hr|exact Hb|done|by apply HF|done].
  - intros u Hu. apply Hn. destruct (range_sub _ _ _ _ _ _ _ Hr Hb Hne) as (_ & Hm & _). apply area_list_bounds in Hu; [lia|done].
Qed.

(** The neighbours are unlinked and the header after the areas points to the first. *)
Lemma merged_of h h1 O F F1 b z l1 mid l2 w2 :
  hinv h O → O !! b = Some (mk_range z (l1 ++ mid ++ l2)) → mid ≠ [] → frees_of F O → unlinking h h1 O F F1 → remaining h1 = remaining h - free_total mid →
  let a := b + z + total l1 in
  (∀ y t, F1 !! y = Some t ↔ F !! y = Some t ∧ ∀ u, (y, u) ∉ area_list true a mid) →
  w2 = <[a + total mid := left_word (starts_free l2) a]> (words h1) → merged h (set_words h1 w2) F F1 a mid l2.
Proof.
  intros Hi Hb Hne HF [Hr1 [L1 Hl1] Hs Ht] Hrm a HF1 ->. pose proof (hv_ranges _ _ Hi) as Hr. destruct (mid_headers _ _ _ _ _ _ _ Hr1 Hb) as (_ & Hnx & _). fold a in Hnx.
  pose proof (unlinked_free _ _ _ _ _ _ _ _ _ Hr Hb Hne HF HF1) as Hfree. fold a in Hfree. destruct (range_sub _ _ _ _ _ _ _ Hr Hb Hne) as (_ & _ & _ & _ & _ & Hm & _). split; hsimp.
  - exists L1. eapply lists_frame; [..|exact Hl1]; [done|done|]. intros y t q Hy Hq. hsimp. apply Hfree in Hy as [Hy Hout]. apply HF in Hy.
    destruct (outside_mid _ _ _ _ _ _ _ _ _ _ Hr Hb Hne Hy Hout) as [Hap Ht32]. rewrite lookup_insert_ne; [done|]. fold a in Hap. lia.
  - exact Hfree.
  - done.
  - eapply touched_trans; [eapply touched_weaken; [exact Ht|]; intros q Hq; right; by right|]. apply touched_insert; [eauto|right; by left].
  - by rewrite lookup_insert_eq.
Qed.

Lemma fix_step h O b z l1 mid l2 :
  ranges_ok (words h) O → O !! b = Some (mk_range z (l1 ++ mid ++ l2)) → let a := b + z + total l1 in
  FixLeftPointer h (a + total mid) a = Some (set_words h (<[a + total mid := left_word (starts_free l2) a]> (words h))).
Proof.
  intros Hr Hb a. destruct (mid_headers _ _ _ _ _ _ _ Hr Hb) as (_ & Hnx & _). fold a in Hnx. unfold FixLeftPointer, header_left, load. rewrite Hnx. cbn [mbind option_bind].
  destruct (address_facts _ _ _ _ _ _ _ Hr Hb) as (_ & _ & Hp8 & Ha8 & _). fold a in Ha8. rewrite fix_left; [by apply word_store_ok; eauto| |done].
  destruct mid as [|m mid' _] using rev_ind; [done|]. rewrite last_area_app. destruct m as [f s]. cbn [last_area]. rewrite <- app_assoc in Hb. rewrite app_assoc in Hb.
  destruct (address_facts _ _ _ _ _ _ _ Hr Hb) as (_ & _ & _ & Ha8' & _). rewrite total_app, Z.add_assoc in Ha8'. exact Ha8'.
Qed.

(** The neighbours of a block. *)
Lemma ends_free_split l : ends_free l = true → ∃ l' s, l = l' ++ [(true, s)].
Proof. unfold ends_free. destruct l as [|[f s] l' _] using rev_ind; [done|]. rewrite last_snoc. destruct f; [|done]. eauto. Qed.

Lemma starts_free_split l : starts_free l = true → ∃ s l', l = (true, s) :: l'.
Proof. destruct l as [|[[] s] l']; [done| |done]. eauto. Qed.

Lemma neighbours_used l1 s l2 : coalesced (l1 ++ (true, s) :: l2) → ends_free l1 = false ∧ starts_free l2 = false.
Proof.
  intros Hc. apply (coalesced_app l1 ([(true, s)] ++ l2)) in Hc as (_ & Hc & H1). apply coalesced_app in Hc as (_ & _ & H2). cbn in H1, H2. rewrite andb_true_r in H1. done.
Qed.

Lemma set_words_id h : set_words h (words h) = h.
Proof. by destruct h. Qed.

Lemma right_header_eq h p s : words h !! (p + 8) = Some s → right_header h p = Some (p + s).
Proof. intros E. unfold right_header, header_size, load. by rewrite E. Qed.

Lemma tagged_eq h p f left : left mod 8 = 0 → words h !! p = Some (left_word f left) → is_tagged_as_free h p = Some f.
Proof. intros Hl E. unfold is_tagged_as_free, header_left, load. rewrite E. cbn [mbind option_bind]. by rewrite tagged_left. Qed.


(** The right neighbour is free or not, the left one is not. *)
Lemma free_right_ok h O b z l1 s l2 x left :
  hinv h O → O !! b = Some (mk_range z (l1 ++ [(false, s)] ++ l2)) → x = b + z + total l1 → left = last_area b (b + z) l1 → ends_free l1 = false →
  ∃ h' O', (right ← right_header h x; right_free ← is_tagged_as_free h right;
    if (right_free : bool) then
      right_right ← right_header h right; h ← unlink_free_unknown_bucket h right; h ← FixLeftPointer h right_right x;
      right_size ← header_size h right; free_memory h x left (u64 (s + right_size))
    else free_memory h x left s) = Some h' ∧ freed h h' O O' x.
Proof.
  intros Hi Hb Ex El E1. pose proof (hv_ranges _ _ Hi) as Hr. destruct (hv_lists _ _ Hi) as (F & L & Hl & HF). pose proof (unlinking_start _ _ _ _ Hi Hl) as Hu.
  destruct (address_facts _ _ _ _ _ _ _ Hr Hb) as (_ & _ & Hp8 & Hx8 & _). rewrite <- Ex in Hx8. rewrite <- El in Hp8. pose proof (untag_left false left Hp8 : untag left = left) as Hut.
  destruct (rs_range _ _ Hr _ _ Hb) as [_ _ Hok Hco _ _ _]. cbn [items] in Hok, Hco.
  destruct (mid_headers _ _ _ _ _ _ _ Hr Hb) as (Hh & Hnx & _). destruct (Hh (x, left, s)) as [_ W8]; [subst; by left|]. cbn [fst snd] in W8. rewrite <- Ex in Hnx. cbn [total last_area] in Hnx. rewrite Z.add_0_r in Hnx.
  rewrite (right_header_eq _ _ _ W8). cbn [mbind option_bind]. rewrite (tagged_eq _ _ _ _ Hx8 Hnx). cbn [mbind option_bind].
  destruct (starts_free l2) eqn:E2.
  - apply starts_free_split in E2 as (s2 & l2' & ->). set (mid := [(false, s); (true, s2)]). assert (Hb2 : O !! b = Some (mk_range z (l1 ++ mid ++ l2'))) by done.
    rewrite app_assoc in Hco. apply neighbours_used in Hco as [_ E2']. destruct (mid_headers _ _ _ _ _ _ _ Hr Hb2) as (Hh2 & _). destruct (Hh2 (x + s, left_word true x, s2)) as [_ V8]; [subst; right; by left|]. cbn [fst snd] in V8.
    destruct (remaining_bound _ _ _ _ _ _ _ Hi Hb2) as [Hrb1 Hrb2]. destruct (range_sub _ _ _ _ _ _ _ Hr Hb2 ltac:(done)) as (_ & Hm & _ & _ & _ & _ & _ & _ & Hend). destruct (rs_range _ _ Hr _ _ Hb2) as [_ _ _ _ _ _ Htop]. rewrite Hend in Htop.
    pose proof Hm as [[Hs _] [[Hs2 _] _]%Forall_cons]%Forall_cons. cbn in Hs, Hs2, Hrb1, Hrb2. apply Forall_app in Hok as [_ Hok]. apply Forall_app in Hok as [_ Hok]. apply Forall_cons in Hok as [_ Hok]. pose proof (total_nonneg _ Hok) as [Hn2 _].
    assert (Hfx : F !! (x + s) = Some s2) by (apply HF; exists b; eexists; split; [exact Hb2|]; cbn [sentinel items]; rewrite area_list_app; apply elem_of_app; right; rewrite <- Ex; by left).
    rewrite (right_header_eq _ _ _ V8). cbn [mbind option_bind].
    destruct (unlink_step h h O F F (x + s) s2 HF Hu Hfx ltac:(lia)) as (h1 & -> & Hu1 & Hrm1). cbn [mbind option_bind].
    pose proof (fix_step h1 O b z l1 mid l2' (ul_ranges _ _ _ _ _ Hu1) Hb2) as Hfix. cbv zeta in Hfix. rewrite <- Ex in Hfix. replace (x + s + s2) with (x + total mid) by (cbn; lia). rewrite Hfix. cbn [mbind option_bind].
    unfold header_size, load. hsimp. rewrite lookup_insert_ne by (cbn; lia). destruct (mid_headers _ _ _ _ _ _ _ (ul_ranges _ _ _ _ _ Hu1) Hb2) as (Hh3 & _). destruct (Hh3 (x + s, left_word true x, s2)) as [_ V8']; [subst; right; by left|]. cbn [fst snd] in V8'. rewrite V8'. cbn [mbind option_bind].
    rewrite u64_id by (unfold is_u64; lia). replace (s + s2) with (total mid) by (cbn; lia). rewrite Ex. eapply free_memory_ok; [exact Hi|exact Hb2|done|exact HF| |done|done|cbn; lia| |by rewrite Hut].
    + eapply merged_of; [exact Hi|exact Hb2|done|exact HF|exact Hu1|cbn; lia| |done].
      intros y t. rewrite <- Ex, lookup_delete_Some. cbn. split; [intros [Hy1 Hy2]; split; [done|]; intros u [= -> ->]%list_elem_of_singleton; done|]. intros [Hy1 Hy2]. split; [|done]. intros <-. apply (Hy2 s2). by left.
    + intros y t Hy. cbn in Hy. apply list_elem_of_singleton in Hy as [= -> ->]. done.
  - set (mid := [(false, s)]). assert (Hmg : merged h (set_words h (words h)) F F (b + z + total l1) mid l2).
    { eapply merged_of; [exact Hi|exact Hb|done|exact HF|exact Hu|cbn; lia| |].
      - intros y t. cbn. split; [intros Hy; split; [done|]; by intros u ?%not_elem_of_nil|by intros [? _]].
      - rewrite <- Ex, insert_id; [done|]. cbn. rewrite Z.add_0_r, E2. exact Hnx. }
    rewrite set_words_id in Hmg. replace s with (total mid) by (cbn; lia). rewrite Ex. eapply free_memory_ok; [exact Hi|exact Hb|done|exact HF|exact Hmg|done|done| | |by rewrite Hut].
    + apply Forall_app in Hok as [_ [[Hs _] _]%Forall_cons]. cbn in Hs |- *. lia.
    + intros y t Hy. cbn in Hy. apply list_elem_of_singleton in Hy as [= -> ->]. done.
Qed.

(** The left neighbour is free, the right one is free or not. *)
Lemma free_left_ok h O b z l1 s1 s l2 a x :
  hinv h O → O !! b = Some (mk_range z (l1 ++ [(true, s1); (false, s)] ++ l2)) → a = b + z + total l1 → x = a + s1 →
  ∃ h' O', (h ← unlink_free_unknown_bucket h a; right ← right_header h x; right_free ← is_tagged_as_free h right;
    if (right_free : bool) then
      h ← unlink_free_unknown_bucket h right; right_right ← right_header h right; h ← FixLeftPointer h right_right a;
      left_left ← header_left h a; left_size ← header_size h a; right_size ← header_size h right;
      free_memory h a left_left (u64 (left_size + s + right_size))
    else
      h ← FixLeftPointer h right a; left_left ← header_left h a; left_size ← header_size h a;
      free_memory h a left_left (u64 (left_size + s))) = Some h' ∧ freed h h' O O' x.
Proof.
  intros Hi Hb Ea Ex. pose proof (hv_ranges _ _ Hi) as Hr. destruct (hv_lists _ _ Hi) as (F & L & Hl & HF). pose proof (unlinking_start _ _ _ _ Hi Hl) as Hu.
  destruct (address_facts _ _ _ _ _ _ _ Hr Hb) as (_ & _ & Hp8 & Ha8 & _). rewrite <- Ea in Ha8. set (left := last_area b (b + z) l1) in *.
  destruct (rs_range _ _ Hr _ _ Hb) as [_ _ Hok Hco _ _ _]. cbn [items] in Hok, Hco. pose proof (neighbours_used _ _ _ Hco) as [E1 _].
  pose proof Hok as [_ [[Hs1 H18] [[Hs Hs8] Hok2]%Forall_cons]%Forall_cons]%Forall_app. cbn in Hs1, H18, Hs, Hs8. pose proof (total_nonneg _ Hok2) as [Hn2 _].
  assert (Hx8 : x mod 8 = 0) by (by rewrite Ex, Z.add_mod, Ha8, H18 by lia).
  destruct (remaining_bound _ _ _ _ _ _ _ Hi Hb) as [Hrb1 Hrb2]. cbn in Hrb1, Hrb2.
  assert (Hfa : F !! a = Some s1) by (apply HF; exists b; eexists; split; [exact Hb|]; cbn [sentinel items]; rewrite area_list_app; apply elem_of_app; right; rewrite <- Ea; by left).
  destruct (unlink_step h h O F F a s1 HF Hu Hfa ltac:(lia)) as (h1 & -> & Hu1 & Hrm1). cbn [mbind option_bind]. pose proof (ul_ranges _ _ _ _ _ Hu1) as Hr1.
  destruct (mid_headers _ _ _ _ _ _ _ Hr1 Hb) as (Hh & Hnx & _). destruct (Hh (x, a, s)) as [_ W8]; [subst; right; by left|]. cbn [fst snd] in W8. rewrite <- Ea in Hnx. cbn [total last_area] in Hnx. rewrite Z.add_0_r, Z.add_assoc, <- Ex in Hnx.
  rewrite (right_header_eq _ _ _ W8). cbn [mbind option_bind]. rewrite (tagged_eq _ _ _ _ Hx8 Hnx). cbn [mbind option_bind]. destruct (starts_free l2) eqn:E2.
  - apply starts_free_split in E2 as (s2 & l2' & ->). set (mid := [(true, s1); (false, s); (true, s2)]). assert (Hb2 : O !! b = Some (mk_range z (l1 ++ mid ++ l2'))) by done.
    rewrite app_assoc in Hco. apply neighbours_used in Hco as [_ E2']. apply Forall_cons in Hok2 as [[Hs2 _] Hok2]. cbn in Hs2. pose proof (total_nonneg _ Hok2) as [Hn3 _].
    destruct (remaining_bound _ _ _ _ _ _ _ Hi Hb2) as [Hrb3 Hrb4]. cbn in Hrb3, Hrb4.
    assert (Hfx : delete a F !! (x + s) = Some s2).
    { apply lookup_delete_Some. split; [lia|]. apply HF; exists b; eexists; split; [exact Hb2|]; cbn [sentinel items]; rewrite area_list_app; apply elem_of_app; right; rewrite <- Ea. cbn. right. rewrite Ex. by left. }
    destruct (unlink_step h h1 O F _ (x + s) s2 HF Hu1 Hfx ltac:(lia)) as (h2 & -> & Hu2 & Hrm2). cbn [mbind option_bind]. pose proof (ul_ranges _ _ _ _ _ Hu2) as Hr2.
    destruct (mid_headers _ _ _ _ _ _ _ Hr2 Hb2) as (Hh2 & _). destruct (Hh2 (a, left_word true left, s1)) as [V0 V8]; [subst; by left|]. destruct (Hh2 (x + s, left_word true x, s2)) as [_ U8]; [subst; right; right; by left|]. cbn [fst snd] in V0, V8, U8.
    rewrite (right_header_eq _ _ _ U8). cbn [mbind option_bind]. pose proof (fix_step h2 O b z l1 mid l2' Hr2 Hb2) as Hfix. cbv zeta in Hfix. rewrite <- Ea in Hfix. replace (x + s + s2) with (a + total mid) by (cbn; lia). rewrite Hfix. cbn [mbind option_bind].
    unfold header_left, header_size, load. hsimp. rewrite !lookup_insert_ne by (cbn; lia). rewrite V0, V8, U8. cbn [mbind option_bind].
    rewrite u64_id by (unfold is_u64; lia). replace (s1 + s + s2) with (total mid) by (cbn; lia). rewrite Ea. eapply free_memory_ok; [exact Hi|exact Hb2|done|exact HF| |done|done|cbn; lia| |by apply untag_left].
    + eapply merged_of; [exact Hi|exact Hb2|done|exact HF|exact Hu2|cbn; lia| |done].
      intros y t. rewrite <- Ea, !lookup_delete_Some. cbn. rewrite <- Ex. split.
      * intros (Hy1 & Hy2 & Hy3). split; [done|]. intros u [[= -> ->]|[= -> ->]%list_elem_of_singleton]%elem_of_cons; done.
      * intros [Hy1 Hy2]. split_and!; [intros <-; apply (Hy2 s2); right; by left|intros <-; apply (Hy2 s1); by left|done].
    + intros y t Hy. cbn in Hy. apply list_elem_of_singleton in Hy as [= -> ->]. lia.
  - set (mid := [(true, s1); (false, s)]). destruct (Hh (a, left_word true left, s1)) as [V0 V8]; [subst; by left|]. cbn [fst snd] in V0, V8.
    pose proof (fix_step h1 O b z l1 mid l2 Hr1 Hb) as Hfix. cbv zeta in Hfix. rewrite <- Ea in Hfix. replace (x + s) with (a + total mid) by (cbn; lia). rewrite Hfix. cbn [mbind option_bind].
    unfold header_left, header_size, load. hsimp. rewrite !lookup_insert_ne by (cbn; lia). rewrite V0, V8. cbn [mbind option_bind].
    rewrite u64_id by (unfold is_u64; lia). replace (s1 + s) with (total mid) by (cbn; lia). rewrite Ea. eapply free_memory_ok; [exact Hi|exact Hb|done|exact HF| |done|done|cbn; lia| |by apply untag_left].
    + eapply merged_of; [exact Hi|exact Hb|done|exact HF|exact Hu1|cbn; lia| |done].
      intros y t. rewrite <- Ea, lookup_delete_Some. cbn. split; [intros [Hy1 Hy2]; split; [done|]; intros u [= -> ->]%list_elem_of_singleton; done|]. intros [Hy1 Hy2]. split; [|done]. intros <-. apply (Hy2 s1). by left.
    + intros y t Hy. cbn in Hy. apply list_elem_of_singleton in Hy as [= -> ->]. lia.
Qed.

Lemma cmpct_free_ok h O x s :
  hinv h O → is_area O false x s → ∃ h' O', cmpct_free h (x + 16) = Some h' ∧ freed h h' O O' x.
Proof.
  intros Hi Hx. pose proof (hv_ranges _ _ Hi) as Hr. destruct (area_split _ _ _ _ _ Hr Hx) as (b & z & l1 & l2 & Hb & Ex). destruct (address_facts _ _ _ _ _ _ _ Hr Hb) as (Hb0 & Hl0 & Hp8 & Hx8 & _).
  destruct (range_sub _ _ _ _ _ _ _ Hr Hb ltac:(done)) as (_ & _ & _ & Hz & H1 & _). set (left := last_area b (b + z) l1) in *.
  destruct (mid_headers _ _ _ _ _ _ _ Hr Hb) as (Hh & _). destruct (Hh (x, left_word false left, s)) as [W0 W8]; [subst; by left|]. cbn [fst snd] in W0, W8.
  destruct (left_header _ _ _ _ _ _ _ Hr Hb) as (e & He & Ee & _ & Hf & _). destruct (rs_headers _ _ Hr _ _ _ Hb He) as [WL _]. rewrite Ee in WL. fold left in WL.
  unfold cmpct_free. change sizeof_header with 16. rewrite (proj2 (Z.eqb_neq (x + 16) 0)) by lia. cbv zeta. replace (x + 16 - 16) with x by lia. rewrite (tagged_eq _ _ _ _ Hp8 W0). cbn [mbind option_bind negb].
  rewrite (W8 : header_size h x = Some s), (W0 : header_left h x = Some left). cbn [mbind option_bind]. rewrite (proj2 (Z.eqb_neq left 0)) by lia. cbn [negb].
  assert (Hlt : is_tagged_as_free h left = Some (ends_free l1)) by (unfold is_tagged_as_free, header_left, load; rewrite WL; cbn [mbind option_bind]; by rewrite Hf). rewrite Hlt. destruct (ends_free l1) eqn:E1; cbn [mbind option_bind].
  - apply ends_free_split in E1 as (l1' & s1 & ->). rewrite <- app_assoc in Hb. rewrite total_app in Ex. cbn [total] in Ex. unfold left. rewrite last_area_app. cbn [last_area].
    eapply (free_left_ok h O b z l1' s1 s l2); [done|exact Hb|done|lia].
  - eapply free_right_ok; eauto.
Qed.
End HeapFree.
