(* ===== verification/HeapFacts.v ===== *)
(** * What the kernel heap promises

    The entry points of [Heap]: initialisation, allocation, release, aligned
    allocation and reallocation, against the invariant of [HeapRanges]; and what goes
    wrong with blocks of more than 4 MB. *)

From stdpp Require Import base tactics numbers list list_numbers gmap.
From Stdlib Require Import ZArith Lia.
From S2P Require Import Prelude Heap HeapLists HeapRanges HeapAlloc HeapGrow HeapFree.
#[local] Open Scope Z_scope.

Module HeapFacts.
Import Heap HeapLists HeapRanges HeapAlloc HeapGrow HeapFree.

(** ** Initialisation *)

Definition empty_heap : heap := mk_heap ∅ 0 0 (replicate (Z.to_nat NUMBER_OF_BUCKETS) 0) (replicate (Z.to_nat BUCKET_WORDS) 0).

Lemma empty_heap_inv : hinv empty_heap ∅.
Proof.
  split; [by split|exists ∅, (replicate 136 []); split|done|done].
  - split; try done.
    + intros j l Hl. apply lookup_replicate in Hl as [-> _]. done.
    + intros j l x Hl. apply lookup_replicate in Hl as [-> _]. split; [by intros ?%not_elem_of_nil|by intros (s & ? & _)].
    + intros j l Hl. apply lookup_replicate in Hl as [-> _]. constructor.
    + split; [done| |].
      * intros i w Hw. unfold empty_heap in Hw. cbn [free_list_bits] in Hw. apply lookup_replicate in Hw as [-> _]. done.
      * intros i w Hi Hw. unfold empty_heap in Hw. cbn [free_list_bits] in Hw. apply lookup_replicate in Hw as [-> _]. rewrite Z.testbit_0_l. split; [done|]. intros (l & Hl & Hne). apply lookup_replicate in Hl as [-> _]. done.
  - intros x s. split; [done|]. by intros (b & o & ? & _).
Qed.

(** What memory says of a block. *)
Lemma block_facts h O x s :
  hinv h O → is_area O false x s → header_size h x = Some s ∧ mapped (words h) x (x + s) ∧ 0 < x ∧ x mod 8 = 0 ∧ 32 ≤ s ∧ s mod 8 = 0 ∧ x + s ≤ 2 ^ 63.
Proof.
  intros Hi Hx. pose proof (hv_ranges _ _ Hi) as Hr. destruct (area_split _ _ _ _ _ Hr Hx) as (b & z & l1 & l2 & Hb & Ex). destruct (mid_headers _ _ _ _ _ _ _ Hr Hb) as (Hh & _).
  destruct (Hh (x, left_word false (last_area b (b + z) l1), s)) as [_ W]; [rewrite Ex; by left|]. split; [exact W|]. pose proof (mid_mapped _ _ _ _ _ _ _ Hr Hb) as Hm. rewrite <- Ex in Hm. cbn [total] in Hm.
  split; [eapply mapped_within; [exact Hm|lia|lia]|]. destruct Hx as (c & o & Hc & Hxc). destruct (area_in_range _ _ _ _ _ _ _ Hr Hc Hxc) as (? & ? & ? & ? & ?). destruct (rs_range _ _ Hr _ _ Hc) as [[? _] _ _ _ _ _ ?]. split_and!; (done || lia).
Qed.

(** ** Aligned allocation *)

(** The steps of [cmpct_memalign] that cut the block at [x] in two. *)
Lemma cut_block h O x s lo :
  hinv h O → is_area O false x s → 32 ≤ lo → 32 ≤ s - lo → lo mod 8 = 0 →
  ∃ h' O', ('(_, h) ← create_allocation_header h (x + lo) 0 (s - lo) x; right ← right_header h x; h ← store h (x + 8) lo; FixLeftPointer h right (x + lo)) = Some h' ∧
    hinv h' O' ∧ (∀ y t, is_area O' false y t ↔ (y = x ∧ t = lo) ∨ (y = x + lo ∧ t = s - lo) ∨ (is_area O false y t ∧ y ≠ x)) ∧
    (∀ y t z, is_area O false y t → y ≠ x → y + 16 ≤ z < y + t → words h' !! z = words h !! z).
Proof.
  intros Hi Hx Hlo Hsl Hlo8. pose proof (hv_ranges _ _ Hi) as Hr. destruct (hv_lists _ _ Hi) as (F & L & Hl & HF). destruct (area_split _ _ _ _ _ Hr Hx) as (b & z & l1 & l2 & Hb & Ex).
  destruct (address_facts _ _ _ _ _ _ _ Hr Hb) as (_ & _ & Hp8 & Hx8 & _). rewrite <- Ex in Hx8. destruct (rs_range _ _ Hr _ _ Hb) as [_ _ Hok Hco _ _ _]. cbn [items] in Hok, Hco.
  pose proof Hok as [_ [[Hs Hs8] Hok2]%Forall_cons]%Forall_app. cbn in Hs, Hs8. set (left := last_area b (b + z) l1) in *.
  destruct (mid_headers _ _ _ _ _ _ _ Hr Hb) as (Hh & Hnx & _). destruct (Hh (x, left_word false left, s)) as [W0 W8]; [subst; by left|]. cbn [fst snd] in W0, W8. rewrite <- Ex in Hnx. cbn [total last_area] in Hnx. rewrite Z.add_0_r in Hnx.
  pose proof (mid_mapped _ _ _ _ _ _ _ Hr Hb) as Hm. cbn [total] in Hm. rewrite <- Ex, Z.add_0_r in Hm. assert (Hxl : (x + lo) mod 8 = 0) by (by rewrite Z.add_mod, Hx8, Hlo8 by lia).
  rewrite create_header_ok; [|by apply Hm; [lia|]|apply Hm; [lia|]; by rewrite Z.add_mod, Hxl by lia]. cbn [mbind option_bind]. rewrite (untag_left false x Hx8 : untag x = x).
  rewrite (right_header_eq _ _ s) by (hsimp; rewrite !lookup_insert_ne by lia; done). cbn [mbind option_bind]. rewrite word_store_ok by (hsimp; rewrite !lookup_insert_ne by lia; eauto). cbn [mbind option_bind]. hsimp.
  unfold FixLeftPointer, header_left, load. hsimp. rewrite !lookup_insert_ne, Hnx by lia. cbn [mbind option_bind]. rewrite fix_left by done. rewrite word_store_ok by (hsimp; rewrite !lookup_insert_ne by lia; eauto).
  set (mid' := [(false, lo); (false, s - lo)]). eexists _, (<[b := mk_range z (l1 ++ mid' ++ l2)]> O). split; [reflexivity|]. hsimp. set (w' := <[x + s := _]> _).
  assert (Ht : touched (words h) w' (changes F x s)).
  { unfold w'. eapply touched_trans; [eapply touched_trans; [eapply touched_trans|]|]; apply touched_insert; rewrite ?lookup_insert_ne by lia; eauto; try (left; lia); try (right; left; done); apply Hm; (lia || done || by rewrite Z.add_mod, Hxl by lia). }
  assert (Hok' : Forall area_ok mid').
  { apply Forall_cons. split; [by split|]. apply Forall_singleton. split; cbn; [lia|]. by rewrite Zminus_mod, Hs8, Hlo8. }
  assert (Ht' : touched (words h) w' (changes F (b + z + total l1) (total [(false, s)]))) by (rewrite <- Ex; cbn [total]; by rewrite Z.add_0_r).
  assert (Hareas : ∀ f y t, is_area (<[b := mk_range z (l1 ++ mid' ++ l2)]> O) f y t ↔ (y, t) ∈ area_list f x mid' ∨ (is_area O f y t ∧ ¬ (x ≤ y < x + s))).
  { intros f y t. rewrite (replace_areas _ _ _ _ _ _ mid' _ f y t Hr Hb), <- Ex; [cbn [total]; by rewrite Z.add_0_r|done|cbn; lia|done]. }
  assert (Hout : ∀ y t, is_area O false y t → y ≠ x ↔ ¬ (x ≤ y < x + s)).
  { intros y t Hy. split; [|lia]. intros Hyx Hin. destruct (apart_area _ _ _ _ _ _ _ _ Hr Hx Hy ltac:(auto)); lia. }
  split; [|split].
  - eapply replace_inv; [exact Hi|exact Hb|done|exact HF|exact Ht'|cbn; lia|done| | |cbn [total last_area]| | |].
    + unfold mid'. by eapply coalesced_used.
    + rewrite <- Ex. intros e He. cbn [headers mid'] in He. change (header_in w' e). apply elem_of_cons in He as [->|[->|[]%not_elem_of_nil]%elem_of_cons]; unfold w'; split; cbn [fst snd].
      * rewrite !lookup_insert_ne by lia. done.
      * rewrite lookup_insert_ne, lookup_insert_eq by lia. done.
      * rewrite !lookup_insert_ne, lookup_insert_eq by lia. done.
      * rewrite !lookup_insert_ne, lookup_insert_eq by lia. done.
    + rewrite <- Ex, Z.add_0_r. change (w' !! (x + s) = Some (left_word (starts_free l2) (x + lo))). unfold w'. by rewrite lookup_insert_eq.
    + eapply lists_frame; [..|exact Hl]; [done|done|]. intros y t q Hy Hq. change (w' !! q = words h !! q). destruct (li_area _ _ _ Hl _ _ Hy) as (_ & ? & _). apply HF in Hy.
      pose proof (apart_area _ _ _ _ _ _ _ _ Hr Hx Hy ltac:(by right)) as Hap. unfold w'. by rewrite !lookup_insert_ne by lia.
    + intros y t. rewrite <- Ex. cbn [area_list mid' Bool.eqb app total]. rewrite Z.add_0_r. split; [|by intros [[]%not_elem_of_nil|[? _]]]. intros Hy. right. split; [done|]. apply HF in Hy.
      pose proof (apart_area _ _ _ _ _ _ _ _ Hr Hx Hy ltac:(by right)). lia.
    + cbn. lia.
  - intros y t. rewrite Hareas. cbn [area_list mid' Bool.eqb app]. rewrite elem_of_cons, list_elem_of_singleton. split.
    + intros [[[= -> ->]|[= -> ->]]|[Hy Hn]]; [by left|right; by left|right; right]. split; [done|]. by apply (Hout y t).
    + intros [[-> ->]|[[-> ->]|[Hy Hn]]]; [left; by left|left; by right|right]. split; [done|]. by apply (Hout y t).
  - intros y t q Hy Hyx Hq. eapply replace_kept; [exact Hr|exact Hb|done|exact HF|exact Ht'|exact Hy| |exact Hq]. rewrite <- Ex. cbn [total]. rewrite Z.add_0_r. by apply (Hout y t).
Qed.

Lemma aligned_payload p k : 3 ≤ k → 0 < p → p mod 8 = 0 → let A := 2 ^ k in let q := Z.land (p + 48 + (A - 1)) (Z.lnot (A - 1)) in
  p + 48 ≤ q ≤ p + 40 + A ∧ q mod A = 0 ∧ (q - p) mod 8 = 0.
Proof.
  intros Hk Hp Hp8 A q. assert (HA : A mod 8 = 0 ∧ 8 ≤ A).
  { unfold A. replace k with (3 + (k - 3)) by lia. rewrite Z.pow_add_r by lia. change (2 ^ 3) with 8. rewrite Z.mul_comm. pose proof (pow2_pos (k - 3) ltac:(lia)). split; [apply Z_mod_mult|lia]. }
  assert (Eq : q = p + 48 + (A - 1) - (p + 48 + (A - 1)) mod A) by (unfold q; rewrite <- (rounddown_eq _ k) by lia; done).
  pose proof (Z.mod_pos_bound (p + 48 + (A - 1)) A ltac:(lia)) as Hm. pose proof (Z.div_mod (p + 48 + (A - 1)) A ltac:(lia)) as Hd.
  assert (Hq : q = (p + 48 + (A - 1)) / A * A) by lia. assert (Hq8 : q mod 8 = 0).
  { rewrite Hq. pose proof (Z.div_mod A 8 ltac:(lia)). replace ((p + 48 + (A - 1)) / A * A) with ((p + 48 + (A - 1)) / A * (A / 8) * 8) by (rewrite <- Z.mul_assoc; f_equal; lia). apply Z_mod_mult. }
  assert (Hqp : (q - p) mod 8 = 0) by (by rewrite Zminus_mod, Hq8, Hp8).
  split; [|split; [rewrite Hq; apply Z_mod_mult|done]]. pose proof (Z.div_mod (q - p) 8 ltac:(lia)). pose proof (Z.div_mod A 8 ltac:(lia)). lia.
Qed.

Lemma cmpct_memalign_ok h O o n k :
  hinv h O → answers_ok O o → 3 ≤ k → 0 < n → n + 2 ^ k + 64 ≤ 2 ^ 22 →
  ∃ p h1 o', cmpct_alloc h o (n + 2 ^ k + 48) = Some (p, h1, o') ∧
    (p = 0 ∨ ∃ q s h' O', cmpct_memalign h o n (2 ^ k) = Some (q, h', o') ∧ q mod 2 ^ k = 0 ∧ new_block h h' O O' (q - 16) s ∧ n + 16 ≤ s).
Proof.
  intros Hi Ha Hk Hn Hb. set (A := 2 ^ k) in *. assert (HA : 8 ≤ A) by (unfold A; change 8 with (2 ^ 3); apply Z.pow_le_mono_r; lia).
  destruct (cmpct_alloc_ok h O o (n + A + 48) Hi Ha ltac:(lia)) as (p & h1 & o' & E & Hres). exists p, h1, o'. split; [done|].
  destruct Hres as [(-> & _)|(Hp & s & O1 & (Hal & Hx0 & Hx8 & Hap) & Hs)]; [by left|right]. set (x := p - 16) in *. assert (Ep : p = x + 16) by lia.
  assert (Hp8 : p mod 8 = 0) by (by rewrite Ep, Z.add_mod, Hx8 by lia). destruct (aligned_payload p k Hk Hp Hp8) as (Hq & HqA & Hqp). fold A in Hq, HqA, Hqp.
  unfold cmpct_memalign. rewrite (proj2 (Z.ltb_ge A 8)) by lia. cbv zeta. change sizeof_free with 32. change sizeof_header with 16. rewrite (u64_id (n + A + 32 + 16)) by (unfold is_u64; lia).
  replace (n + A + 32 + 16) with (n + A + 48) by lia. rewrite E. cbn [mbind option_bind].
  assert (Hi1 := al_inv _ _ _ _ _ _ Hal). assert (Hx : is_area O1 false x s) by (apply (al_blocks _ _ _ _ _ _ Hal); auto).
  destruct (block_facts h1 O1 x s Hi1 Hx) as (W8 & _ & _ & _ & _ & Hs8 & Htop).
  rewrite (u64_id (p + 32 + 16 + (A - 1))) by (unfold is_u64; lia). replace (p + 32 + 16 + (A - 1)) with (p + 48 + (A - 1)) by lia. set (q := Z.land _ _) in *.
  rewrite (proj2 (Z.eqb_neq p q)) by lia. cbn [negb]. rewrite u64_id by (unfold is_u64; lia). set (lo := q - p) in *. fold x.
  rewrite W8. cbn [mbind option_bind]. rewrite u64_id by (unfold is_u64; lia). replace (q - 16) with (x + lo) by lia.
  assert (Hsl : 32 ≤ s - lo ∧ n + 16 ≤ s - lo).
  { pose proof (Z.div_mod s 8 ltac:(lia)). pose proof (Z.div_mod lo 8 ltac:(lia)). assert (A mod 8 = 0); [|pose proof (Z.div_mod A 8 ltac:(lia)); lia].
    unfold A. replace k with (3 + (k - 3)) by lia. rewrite Z.pow_add_r by lia. change (2 ^ 3) with 8. rewrite Z.mul_comm. apply Z_mod_mult. }
  destruct (cut_block h1 O1 x s lo Hi1 Hx ltac:(lia) ltac:(lia) Hqp) as (h2 & O2 & E2 & Hi2 & Hb2 & Hk2).
  destruct (cmpct_free_ok h2 O2 x lo Hi2 (proj2 (Hb2 x lo) ltac:(auto))) as (h3 & O3 & E3 & [Hi3 Hb3 Hk3]). exists q, (s - lo), h3, O3.
  replace (Some (q, h3, o')) with (h ← Some h2; h ← cmpct_free h p; Some (q, h, o')) by (cbn [mbind option_bind]; rewrite Ep, E3; done). rewrite <- E2. split.
  { destruct (create_allocation_header _ _ _ _ _) as [[? ?]|]; cbn [mbind option_bind]; [|done]. destruct (right_header _ _); cbn [mbind option_bind]; [|done]. destruct (store _ _ _); cbn [mbind option_bind]; [|done]. done. }
  assert (Hold : ∀ y t, is_area O false y t → y ≠ x).
  { intros y t Hy. destruct (block_facts h O y t Hi Hy) as (_ & _ & _ & _ & ? & _). specialize (Hap y t Hy). lia. }
  split; [done|]. split; [|lia]. split; [split; [done| |]|split_and!; [lia| |]].
  - intros y t. rewrite Hb3, Hb2, (al_blocks _ _ _ _ _ _ Hal). split.
    + intros [[[-> _]|[[-> ->]|[[[-> ->]|Hy] Hyx]]] Hn']; [done|left; lia|done|by right].
    + intros [[-> ->]|Hy]; [split; [right; left; lia|lia]|]. pose proof (Hold y t Hy). split; [right; right; split; [by right|done]|done].
  - intros y t z Hy Hz. pose proof (Hold y t Hy) as Hyx. assert (Hy1 : is_area O1 false y t) by (apply (al_blocks _ _ _ _ _ _ Hal); auto). assert (Hy2 : is_area O2 false y t) by (apply Hb2; auto).
    rewrite (Hk3 y t), (Hk2 y t) by done. by apply (al_kept _ _ _ _ _ _ Hal y t).
  - replace (q - 16) with (x + lo) by lia. by rewrite Z.add_mod, Hx8, Hqp by lia.
  - intros y t Hy. specialize (Hap y t Hy). lia.
Qed.

(** ** Blocks of more than 4 MB *)

(** A fill changes the bits of the bytes it covers. *)
Lemma mix_word_bit old new x lo hi i : lo ≤ hi → x < hi → lo < x + 8 → 0 ≤ i → Z.testbit (mix_word old new x lo hi) i =
  if decide (8 * Z.max 0 (lo - x) ≤ i < 8 * Z.min 8 (hi - x)) then Z.testbit new i else Z.testbit old i.
Proof.
  intros Hlh Hx1 Hx2 Hi. unfold mix_word. set (a := Z.max 0 (lo - x)). set (b := Z.min 8 (hi - x)). assert (Ha : 0 ≤ a ≤ b) by lia.
  assert (Hm : Z.testbit (Z.shiftl (Z.ones (8 * (b - a))) (8 * a)) i = bool_decide (8 * a ≤ i < 8 * b)).
  { rewrite Z.shiftl_spec by lia. case_bool_decide; [apply Z.ones_spec_low; lia|]. destruct (decide (8 * a ≤ i)); [apply Z.ones_spec_high; lia|apply Z.testbit_neg_r; lia]. }
  rewrite Z.lor_spec, Z.ldiff_spec, Z.land_spec, Hm. destruct (bool_decide_reflect (8 * a ≤ i < 8 * b)); [rewrite decide_True by done|rewrite decide_False by done]; cbn; by rewrite ?andb_true_r, ?andb_false_r, ?orb_false_r.
Qed.

Lemma mix_word_range old new x lo hi : lo ≤ hi → x < hi → lo < x + 8 → 0 ≤ old < 2 ^ 64 → 0 ≤ new < 2 ^ 64 → 0 ≤ mix_word old new x lo hi < 2 ^ 64.
Proof.
  intros Hlh Hx1 Hx2 Ho Hn. assert (H0 : 0 ≤ mix_word old new x lo hi).
  { unfold mix_word. apply Z.lor_nonneg. split; [apply Z.ldiff_nonneg; lia|apply Z.land_nonneg; lia]. }
  split; [done|]. apply Z.bounded_iff_bits_nonneg; [lia|done|]. intros l Hl. rewrite mix_word_bit by lia. case_decide; apply (Z.bounded_iff_bits_nonneg 64); lia.
Qed.

Lemma memset_loop_word k c lo hi : ∀ w x w' y old, memset_loop k w x lo hi c = Some w' → x ≤ y < x + 8 * Z.of_nat k → (y - x) mod 8 = 0 → w !! y = Some old →
  w' !! y = Some (mix_word old (c * 0x0101010101010101) y lo hi).
Proof.
  induction k as [|k IH]; intros w x w' y old E Hy Hm Ho; [lia|]. cbn [memset_loop] in E. destruct (w !! x) as [v|] eqn:Ev; [|done]. cbn [mbind option_bind] in E.
  destruct (decide (y = x)) as [->|Hne].
  - rewrite Ev in Ho. injection Ho as ->. assert (Hf : ∀ k w x w', memset_loop k w x lo hi c = Some w' → ∀ z, z < x → w' !! z = w !! z).
    { clear. induction k as [|k IH]; intros w x w' E z Hz; cbn [memset_loop] in E; [by injection E as ->|]. destruct (w !! x); [|done]. cbn [mbind option_bind] in E. rewrite (IH _ _ _ E) by lia. by rewrite lookup_insert_ne by lia. }
    rewrite (Hf _ _ _ _ E) by lia. by rewrite lookup_insert_eq.
  - assert (Hm' : (y - (x + 8)) mod 8 = 0) by (replace (y - (x + 8)) with (y - x + -1 * 8) by lia; by rewrite Z.mod_add). pose proof (Z.div_mod (y - x) 8 ltac:(lia)).
    apply (IH _ _ _ _ _ E); [lia|done|]. by rewrite lookup_insert_ne.
Qed.

Lemma memset_word h s c n h' y old :
  memset h s c n = Some h' → 0 < n → y mod 8 = 0 → s - 8 < y < s + n → words h !! y = Some old →
  words h' !! y = Some (mix_word old (c * 0x0101010101010101) y s (s + n)).
Proof.
  unfold memset. intros E Hn Hy Hys Ho. rewrite (proj2 (Z.eqb_neq n 0)) in E by lia. destruct (memset_loop _ _ _ _ _ _) as [w'|] eqn:Ew; [|done]. cbn [mbind option_bind] in E. injection E as <-. hsimp.
  pose proof (Z.div_mod s 8 ltac:(lia)). pose proof (Z.mod_pos_bound s 8 ltac:(lia)). pose proof (Z.div_mod (s + n + 7) 8 ltac:(lia)). pose proof (Z.mod_pos_bound (s + n + 7) 8 ltac:(lia)). pose proof (Z.div_mod y 8 ltac:(lia)).
  eapply memset_loop_word; [exact Ew| | |done]; [|replace (y - s / 8 * 8) with ((y / 8 - s / 8) * 8) by lia; apply Z_mod_mult]. unfold word_count. rewrite Z2Nat.id by lia. lia.
Qed.

(** What two fills leave in a word that they cover together: the bits that they have
    in common. *)
Lemma both_fills old x lo mid hi i a p :
  lo ≤ x → x + 8 ≤ hi → lo < mid ≤ hi → 0 ≤ old < 2 ^ 64 → 0 ≤ a < 2 ^ 64 → 0 ≤ p < 2 ^ 64 → 0 ≤ i < 64 → Z.testbit a i = true → Z.testbit p i = true →
  let v := if decide (lo - 8 < x < mid) then mix_word old a x lo mid else old in
  let v' := if decide (mid - 8 < x < hi) then mix_word v p x mid hi else v in
  0 ≤ v' < 2 ^ 64 ∧ Z.testbit v' i = true.
Proof.
  intros Hlo Hhi Hmid Ho Ha Hp Hi Ba Bp v v'. assert (Hv : 0 ≤ v < 2 ^ 64) by (unfold v; case_decide; [apply mix_word_range; lia|done]).
  assert (Hv' : 0 ≤ v' < 2 ^ 64) by (unfold v'; case_decide; [apply mix_word_range; lia|done]). split; [done|].
  unfold v'. destruct (decide (mid - 8 < x < hi)) as [H1|H1].
  - rewrite mix_word_bit by lia. case_decide; [done|]. unfold v. rewrite decide_True by lia. rewrite mix_word_bit by lia. by rewrite decide_True by lia.
  - unfold v. rewrite decide_True by lia. rewrite mix_word_bit by lia. by rewrite decide_True by lia.
Qed.

Lemma memset_covered h s c n lo hi :
  0 ≤ n → mapped (words h) lo hi → lo mod 8 = 0 → hi mod 8 = 0 → lo ≤ s → s + n ≤ hi →
  ∃ w', memset h s c n = Some (set_words h w') ∧ touched (words h) w' (λ z, lo ≤ z < hi) ∧
    ∀ y old, y mod 8 = 0 → lo ≤ y < hi → words h !! y = Some old → w' !! y = Some (if decide (s - 8 < y < s + n) then mix_word old (c * 0x0101010101010101) y s (s + n) else old).
Proof.
  intros Hn Hm Hl8 Hh8 Hls Hsh. destruct (fill_words h s c n lo hi) as (w' & E & Ht); [done..|]. exists w'. split; [done|].
  split; [eapply touched_weaken; [exact Ht|]; intros z Hz; apply Hz|]. intros y old Hy Hyr Ho. case_decide as Hd.
  - destruct (decide (n = 0)) as [->|]; [|by apply (memset_word h s c n (set_words h w') y old E); [lia|..]]. unfold memset in E. cbn [Z.eqb] in E.
    assert (Ew : words h = w') by (injection E as E'; apply (f_equal words) in E'; exact E'). rewrite <- Ew, Ho. f_equal. apply Z.bits_inj'. intros i Hi. rewrite mix_word_bit by lia. by rewrite decide_False by lia.
  - rewrite (proj2 Ht); [done|]. intros [_ ?]. lia.
Qed.

(** The words of a range that was made for one large block, after the fills. *)
Record large_range (w : gmap Z Z) (ptr g : Z) : Prop := {
  lr_start : w !! ptr = Some 0;
  lr_left : w !! (ptr + 16) = Some ptr;
  lr_size : w !! (ptr + 24) = Some (g - 32);
  lr_end : ∃ l s, w !! (ptr + g - 16) = Some l ∧ w !! (ptr + g - 8) = Some s ∧ Z.testbit l 0 = true ∧ 2 ^ 60 ≤ s < 2 ^ 64 }.

(** The new range, before the fills. *)
Lemma own_range_ok h ptr g :
  0 < ptr → ptr mod 8 = 0 → 64 ≤ g → g mod 8 = 0 → ptr + g ≤ 2 ^ 63 → mapped (words h) ptr (ptr + g) →
  ∃ h', add_to_heap h ptr g true = Some h' ∧ mapped (words h') ptr (ptr + g) ∧ words h' !! ptr = Some 0 ∧ words h' !! (ptr + 16) = Some (tag_as_free ptr) ∧
    words h' !! (ptr + 24) = Some (g - 32) ∧ words h' !! (ptr + g - 16) = Some (ptr + 16) ∧ words h' !! (ptr + g - 8) = Some 0.
Proof.
  intros Hp0 Hp8 Hg Hg8 Htop Hm. unfold add_to_heap. assert (Hmk : ∀ w', touched (words h) w' (λ z, ptr ≤ z < ptr + g) → ∀ k, 0 ≤ k < g → k mod 8 = 0 → is_Some (w' !! (ptr + k))).
  { intros w' Ht k Hk Hk8. apply Ht, Hm; [lia|by rewrite Z.add_mod, Hp8, Hk8 by lia]. }
  pose proof (Hmk _ (touched_refl _ _)) as Hmk0. rewrite create_header_ok; [|rewrite <- (Z.add_0_r ptr); by apply Hmk0; [lia|]|by apply Hmk0; [lia|]]. cbn [mbind option_bind]. change sizeof_header with 16. change (2 * 16) with 32. change (untag 0) with 0.
  rewrite u64_id by (unfold is_u64; lia). unfold create_free_area. replace (ptr + 16 + 8) with (ptr + 24) by lia. replace (ptr + 16 + 16) with (ptr + 32) by lia. replace (ptr + 16 + 24) with (ptr + 40) by lia.
  rewrite word_store_ok by (hsimp; rewrite !lookup_insert_ne by lia; by apply Hmk0; [lia|]). cbn [mbind option_bind]. hsimp. rewrite word_store_ok by (hsimp; rewrite !lookup_insert_ne by lia; by apply Hmk0; [lia|]). cbn [mbind option_bind]. hsimp.
  rewrite word_store_ok by (hsimp; rewrite !lookup_insert_ne by lia; by apply Hmk0; [lia|]). cbn [mbind option_bind]. hsimp. rewrite word_store_ok by (hsimp; rewrite !lookup_insert_ne by lia; by apply Hmk0; [lia|]). cbn [mbind option_bind]. hsimp.
  change sizeof_free with 32. rewrite (u64_id (g - 32 - 32)) by (unfold is_u64; lia). match goal with |- context [memset ?h0 _ _ _] => set (h1 := h0) end.
  assert (Ht1 : touched (words h) (words h1) (λ z, ptr ≤ z < ptr + g)).
  { unfold h1. hsimp. repeat match goal with |- touched _ (<[_ := _]> _) _ => eapply touched_trans; [|apply touched_insert; [|lia]] end; [apply touched_refl|rewrite <- (Z.add_0_r ptr); by apply Hmk0; [lia|]|..].
    all: rewrite !lookup_insert_ne by lia; by apply Hmk0; [lia|]. }
  destruct (fill_words h1 (ptr + 16 + 32) FREE_FILL (g - 32 - 32) (ptr + 48) (ptr + g - 16)) as (w2 & -> & Ht2); [lia|eapply mapped_within; [eapply mapped_touched; [exact Ht1|exact Hm]|lia|lia]|by rewrite Z.add_mod, Hp8 by lia| |lia|lia|].
  { by rewrite Zminus_mod, Z.add_mod, Hp8, Hg8 by lia. }
  cbn [mbind option_bind]. assert (Ht2' : touched (words h) w2 (λ z, ptr ≤ z < ptr + g)) by (eapply touched_trans; [exact Ht1|eapply touched_weaken; [exact Ht2|]; intros z Hz; cbn beta in Hz; lia]). pose proof (Hmk _ Ht2') as Hmk2.
  replace (ptr + g - 16) with (ptr + (g - 16)) by lia. replace (ptr + g - 8) with (ptr + (g - 8)) by lia. rewrite create_header_ok; hsimp; [|by apply Hmk2; [lia|rewrite Zminus_mod, Hg8]|rewrite <- Z.add_assoc; apply Hmk2; [lia|]; by rewrite Z.add_mod, Zminus_mod, Hg8 by lia]. cbn [mbind option_bind].
  assert (Hp16 : (ptr + 16) mod 8 = 0) by (by rewrite Z.add_mod, Hp8 by lia). rewrite (untag_left false (ptr + 16) Hp16 : untag (ptr + 16) = ptr + 16). eexists. split; [done|]. hsimp.
  assert (Hk : ∀ z, z < ptr + 40 → w2 !! z = words h1 !! z) by (intros z Hz; apply Ht2; intros [? _]; lia). replace (ptr + (g - 16) + 8) with (ptr + (g - 8)) by lia.
  split; [intros z Hz Hz8; rewrite !lookup_insert_is_Some'; right; right; apply Ht2'; by apply Hm|]. rewrite !(lookup_insert_ne _ _ ptr), !(lookup_insert_ne _ _ (ptr + 16)), !(lookup_insert_ne _ _ (ptr + 24)), !Hk by lia. unfold h1. hsimp.
  split_and!; [by rewrite !lookup_insert_ne, lookup_insert_eq by lia|by rewrite !lookup_insert_ne, lookup_insert_eq by lia..| |].
  - by rewrite lookup_insert_ne, lookup_insert_eq by lia.
  - by rewrite lookup_insert_eq.
Qed.

(** The block that [large_alloc] makes. *)
Lemma large_alloc_ok h o n ptr c :
  0 < n → 0 < ptr → ptr mod 4096 = 0 → ptr + n + 8192 ≤ 2 ^ 63 →
  ∃ g h', large_alloc h (Some (ptr, c) :: o) n = Some (ptr + 32, h', o) ∧ n + 32 ≤ g < n + 39 + 4096 ∧ (n mod 8 = 0 → g < n + 32 + 4096) ∧ g mod 4096 = 0 ∧ large_range (words h') ptr g.
Proof.
  intros Hn Hp0 Hpa Htop. pose proof (page_8 _ Hpa) as Hp8. unfold large_alloc. cbv zeta. destruct (roundup_spec n 3 ltac:(lia) ltac:(lia) ltac:(lia)) as [Hr Hr8]. change (2 ^ 3) with 8 in Hr, Hr8. set (m := ROUNDUP n 8) in *.
  unfold heap_grow, page_alloc. change (2 * sizeof_header) with 32. rewrite (u64_id (m + 32)) by (unfold is_u64; lia). destruct (roundup_spec (m + 32) 12 ltac:(lia) ltac:(lia) ltac:(lia)) as [Hg Hga]. change (2 ^ 12) with PAGE_SIZE in Hg, Hga. set (g := ROUNDUP (m + 32) PAGE_SIZE) in *. change PAGE_SIZE with 4096 in *.
  pose proof (page_8 _ Hga) as Hg8. pose proof (Z.div_mod g 4096 ltac:(lia)) as Hgd. set (h0 := set_size h _).
  destruct (own_range_ok (map_pages h0 ptr g c) ptr g) as (h1 & -> & Hm & W0 & W16 & W24 & V16 & V8); [done|done|lia|done|lia|apply map_pages_mapped; (done || lia)|]. cbn [mbind option_bind]. change sizeof_header with 16.
  assert (Ei : i64 g = g) by (unfold i64; rewrite Z.mod_small by lia; lia). rewrite Ei, (proj2 (Z.ltb_ge g 0)) by lia. unfold header_size, header_left, load. replace (ptr + 16 + 8) with (ptr + 24) by lia. rewrite W24, W16. cbn [mbind option_bind].
  rewrite create_header_ok; [|by eauto|replace (ptr + 16 + 8) with (ptr + 24) by lia; by eauto]. cbn [mbind option_bind]. replace (ptr + 16 + 8) with (ptr + 24) by lia. replace (ptr + 16 + 16) with (ptr + 32) by lia.
  rewrite (untag_left true ptr Hp8 : untag (tag_as_free ptr) = ptr). match goal with |- context [memset ?h _ ALLOC_FILL _] => set (h2 := h) end.
  assert (Hm2 : mapped (words h2) (ptr + 32) (ptr + g)) by (intros z Hz Hz8; unfold h2; hsimp; rewrite !lookup_insert_ne by lia; apply Hm; [lia|done]).
  assert (H32 : (ptr + 32) mod 8 = 0 ∧ (ptr + g) mod 8 = 0) by (split; by rewrite Z.add_mod, Hp8, ?Hg8 by lia). destruct H32 as [H32 Hpg].
  destruct (memset_covered h2 (ptr + 32) ALLOC_FILL n (ptr + 32) (ptr + g)) as (w3 & -> & Ht3 & F3); [lia|done|done|done|lia|lia|]. cbn [mbind option_bind]. unfold header_size, load. hsimp. replace (ptr + 16 + 8) with (ptr + 24) by lia.
  assert (K24 : w3 !! (ptr + 24) = Some (g - 32)) by (rewrite (proj2 Ht3) by lia; unfold h2; hsimp; by rewrite lookup_insert_eq). rewrite K24. cbn [mbind option_bind]. rewrite u64_id by (unfold is_u64; lia).
  destruct (memset_covered (set_words h2 w3) (ptr + 32 + n) PADDING_FILL (g - 32 - n) (ptr + 32) (ptr + g)) as (w4 & -> & Ht4 & F4); [lia|hsimp; by eapply mapped_touched|done|done|lia|lia|]. cbn [mbind option_bind]. cbn [words set_words] in Ht4, F4.
  exists g. eexists. split; [done|]. split; [lia|]. split; [intros Hn8; pose proof (Z.div_mod n 8 ltac:(lia)); pose proof (Z.div_mod m 8 ltac:(lia)); lia|]. split; [done|]. hsimp. replace (ptr + 32 + n + (g - 32 - n)) with (ptr + g) in F4 by lia. split.
  - rewrite (proj2 Ht4), (proj2 Ht3) by lia. unfold h2. hsimp. by rewrite !lookup_insert_ne by lia.
  - rewrite (proj2 Ht4), (proj2 Ht3) by lia. unfold h2. hsimp. by rewrite lookup_insert_ne, lookup_insert_eq by lia.
  - by rewrite (proj2 Ht4) by lia.
  - assert (E16 : words h2 !! (ptr + g - 16) = Some (ptr + 16)) by (unfold h2; hsimp; by rewrite !lookup_insert_ne by lia). assert (E8 : words h2 !! (ptr + g - 8) = Some 0) by (unfold h2; hsimp; by rewrite !lookup_insert_ne by lia).
    assert (M16 : (ptr + g - 16) mod 8 = 0 ∧ (ptr + g - 8) mod 8 = 0) by (split; by rewrite Zminus_mod, Hpg). destruct M16 as [M16 M8].
    pose proof (F4 _ _ M16 ltac:(lia) (F3 _ _ M16 ltac:(lia) E16)) as G16. pose proof (F4 _ _ M8 ltac:(lia) (F3 _ _ M8 ltac:(lia) E8)) as G8. eexists _, _. split; [exact G16|]. split; [exact G8|].
    assert (Hb : 0 ≤ ALLOC_FILL * 0x0101010101010101 < 2 ^ 64 ∧ 0 ≤ PADDING_FILL * 0x0101010101010101 < 2 ^ 64) by (vm_compute; done).
    destruct (both_fills (ptr + 16) (ptr + g - 16) (ptr + 32) (ptr + 32 + n) (ptr + g) 0 _ _ ltac:(lia) ltac:(lia) ltac:(lia) ltac:(lia) (proj1 Hb) (proj2 Hb) ltac:(lia) eq_refl eq_refl) as [_ B0]. split; [exact B0|].
    destruct (both_fills 0 (ptr + g - 8) (ptr + 32) (ptr + 32 + n) (ptr + g) 60 _ _ ltac:(lia) ltac:(lia) ltac:(lia) ltac:(lia) (proj1 Hb) (proj2 Hb) ltac:(lia) eq_refl eq_refl) as [Hs8 B60]. split; [|apply Hs8].
    apply Z.nlt_ge. intros Hlt. apply (Z.bounded_iff_bits_nonneg 60) with (l := 60) in Hlt; [|lia|apply Hs8|lia]. rewrite B60 in Hlt. done.
Qed.

Lemma index_huge s : 2 ^ 60 ≤ s < 2 ^ 64 → size_to_index_freeing (u64 (s - 16)) = None.
Proof.
  intros Hs. rewrite u64_id by (unfold is_u64; lia). unfold size_to_index_freeing, size_to_index_helper. rewrite (proj2 (Z.leb_gt (s - 16) 128)) by lia. cbv zeta. rewrite Z.add_0_r, u64_id by (unfold is_u64; lia).
  assert (Hl : 59 ≤ Z.log2 (s - 16)) by (change 59 with (Z.log2 (2 ^ 59)); apply Z.log2_le_mono; lia). destruct (row_column (s - 16) ltac:(lia)) as (Hr & Hrc & Hd & _). cbn zeta in Hrc.
  rewrite Z.add_0_r, Hrc. set (row := 64 - 4 - (63 - Z.log2 (s - 16))) in *.
  rewrite (proj2 (Z.ltb_ge _ _)); [done|]. change NUMBER_OF_BUCKETS with 136. lia.
Qed.

Lemma large_free_fails h ptr g : 0 < ptr → ptr mod 8 = 0 → large_range (words h) ptr g → cmpct_free h (ptr + 32) = None.
Proof.
  intros Hp0 Hp8 [W0 W16 W24 (l & s & WL & WS & Hl & Hs)]. unfold cmpct_free. change sizeof_header with 16. rewrite (proj2 (Z.eqb_neq (ptr + 32) 0)) by lia. cbv zeta. replace (ptr + 32 - 16) with (ptr + 16) by lia.
  rewrite (tagged_eq h (ptr + 16) false ptr Hp8 W16). cbn [mbind option_bind negb]. assert (Hsz : header_size h (ptr + 16) = Some (g - 32)) by (unfold header_size, load; by replace (ptr + 16 + 8) with (ptr + 24) by lia). rewrite Hsz. cbn [mbind option_bind].
  rewrite (W16 : header_left h (ptr + 16) = Some ptr). cbn [mbind option_bind]. rewrite (proj2 (Z.eqb_neq ptr 0)) by lia. cbn [negb]. rewrite (tagged_eq h ptr false 0 eq_refl W0). cbn [mbind option_bind].
  rewrite (right_header_eq h (ptr + 16) (g - 32)) by (by replace (ptr + 16 + 8) with (ptr + 24) by lia). cbn [mbind option_bind]. replace (ptr + 16 + (g - 32)) with (ptr + g - 16) by lia.
  assert (Ht : is_tagged_as_free h (ptr + g - 16) = Some true).
  { unfold is_tagged_as_free, header_left, load. rewrite WL. cbn [mbind option_bind]. rewrite land1. rewrite <- Z.bit0_mod, Hl. done. }
  rewrite Ht. cbn [mbind option_bind]. rewrite (right_header_eq _ _ s) by (by replace (ptr + g - 16 + 8) with (ptr + g - 8) by lia). cbn [mbind option_bind].
  unfold unlink_free_unknown_bucket, header_size, load. replace (ptr + g - 16 + 8) with (ptr + g - 8) by lia. rewrite WS. cbn [mbind option_bind]. change sizeof_header with 16. by rewrite index_huge.
Qed.

(** ** Contents of blocks *)

(** The memory of a block is its owner's: writing to it keeps the invariant. *)
Lemma write_block h O x s w' :
  hinv h O → is_area O false x s → touched (words h) w' (λ z, x + 16 ≤ z < x + s) → hinv (set_words h w') O.
Proof.
  intros Hi Hx Ht. pose proof (hv_ranges _ _ Hi) as Hr. destruct (hv_lists _ _ Hi) as (F & L & Hl & HF). destruct Hi as [_ _ Hrm Htl]. split; hsimp; [|exists F, L; split; [|done]|done|done].
  - destruct Hr as [R1 R2 R3 R4] eqn:E. clear E. pose proof Hr as Hr0. split; [done|done| |].
    + intros b o e Hb He. destruct (R3 b o e Hb He) as [H1 H2]. pose proof (header_apart _ _ _ _ _ _ _ _ Hr0 Hx Hb He) as Hap. split; rewrite (proj2 Ht); (done || lia).
    + intros b o Hb z Hz Hz8. apply Ht. by apply (R4 b o Hb).
  - eapply lists_frame; [..|exact Hl]; [done|done|]. intros y t z Hy Hz. hsimp. apply Ht. destruct (li_area _ _ _ Hl _ _ Hy) as (_ & ? & _). apply HF in Hy. pose proof (apart_area _ _ _ _ _ _ _ _ Hr Hx Hy ltac:(by right)). lia.
Qed.

Definition byte_at (w : gmap Z Z) (a : Z) : option Z := v ← w !! (a / 8 * 8); Some (Z.shiftr v (8 * (a mod 8)) mod 256).

Lemma byte_eq v v' r : 0 ≤ r → (∀ i, 8 * r ≤ i < 8 * r + 8 → Z.testbit v i = Z.testbit v' i) → Z.shiftr v (8 * r) mod 256 = Z.shiftr v' (8 * r) mod 256.
Proof.
  intros Hr Hb. change 256 with (2 ^ 8). apply Z.bits_inj'. intros i Hi. destruct (decide (i < 8)).
  - rewrite !Z.mod_pow2_bits_low, !Z.shiftr_spec by lia. apply Hb. lia.
  - by rewrite !Z.mod_pow2_bits_high by lia.
Qed.

Lemma memcpy_loop_ok k hi : ∀ w d s, mapped w d (d + 8 * Z.of_nat k) → mapped w s (s + 8 * Z.of_nat k) → d mod 8 = 0 → s mod 8 = 0 → d + 8 * Z.of_nat k ≤ s ∨ s + 8 * Z.of_nat k ≤ d → 
  ∃ w', memcpy_loop k w d s hi = Some w' ∧ touched w w' (λ z, d ≤ z < d + 8 * Z.of_nat k) ∧
    ∀ q, 0 ≤ q < Z.of_nat k → ∃ old v, w !! (s + 8 * q) = Some v ∧ w' !! (d + 8 * q) = Some (mix_word old v (d + 8 * q) (d + 8 * q) hi).
Proof.
  induction k as [|k IH]; intros w d s Hd Hs Hd8 Hs8 Hap; cbn [memcpy_loop]; [exists w; split; [done|]; split; [apply touched_refl|]; intros q Hq; lia|].
  destruct (Hs s ltac:(lia) Hs8) as [v Ev]. destruct (Hd d ltac:(lia) Hd8) as [old Eo]. rewrite Ev, Eo. cbn [mbind option_bind]. set (w1 := <[d := _]> w).
  assert (Ht1 : touched w w1 (λ z, d ≤ z < d + 8 * Z.of_nat (S k))) by (apply touched_insert; [eauto|lia]).
  destruct (IH w1 (d + 8) (s + 8)) as (w' & E & Ht & Hq); [|..|by rewrite Z.add_mod, Hd8 by lia|by rewrite Z.add_mod, Hs8 by lia|lia|].
  { eapply mapped_within; [eapply mapped_touched; [exact Ht1|exact Hd]|lia|lia]. }
  { eapply mapped_within; [eapply mapped_touched; [exact Ht1|exact Hs]|lia|lia]. }
  exists w'. split; [done|]. split; [eapply touched_trans; [exact Ht1|eapply touched_weaken; [exact Ht|]; intros z Hz; cbn beta in Hz; lia]|].
  intros q Hqr. destruct (decide (q = 0)) as [->|].
  - exists old, v. rewrite !Z.mul_0_r, !Z.add_0_r. split; [done|]. rewrite (proj2 Ht) by lia. unfold w1. by rewrite lookup_insert_eq.
  - destruct (Hq (q - 1) ltac:(lia)) as (old' & v' & E1 & E2). replace (s + 8 + 8 * (q - 1)) with (s + 8 * q) in E1 by lia. replace (d + 8 + 8 * (q - 1)) with (d + 8 * q) in E2 by lia.
    exists old', v'. split; [|done]. unfold w1 in E1. by rewrite lookup_insert_ne in E1 by lia.
Qed.

(** [memcpy] of [n] bytes between two blocks. *)
Lemma copy_ok h d s n hd hs :
  0 ≤ n → mapped (words h) d hd → mapped (words h) s hs → d mod 8 = 0 → s mod 8 = 0 → hd mod 8 = 0 → hs mod 8 = 0 → d + n ≤ hd → s + n ≤ hs → hd ≤ s ∨ hs ≤ d →
  ∃ w', memcpy h d s n = Some (set_words h w') ∧ touched (words h) w' (λ z, d ≤ z < hd) ∧ ∀ j, 0 ≤ j < n → byte_at w' (d + j) = byte_at (words h) (s + j).
Proof.
  intros Hn Hd Hs Hd8 Hs8 Hhd8 Hhs8 Hdn Hsn Hap. unfold memcpy. destruct (n =? 0) eqn:E; zb.
  { exists (words h). split; [by destruct h|]. split; [apply touched_refl|]. intros j Hj. lia. }
  pose proof (Z.div_mod d 8 ltac:(lia)). pose proof (Z.div_mod s 8 ltac:(lia)). pose proof (Z.div_mod hd 8 ltac:(lia)). pose proof (Z.div_mod hs 8 ltac:(lia)).
  pose proof (Z.div_mod (d + n + 7) 8 ltac:(lia)). pose proof (Z.mod_pos_bound (d + n + 7) 8 ltac:(lia)). set (k := word_count d n). assert (Hk : Z.of_nat k = (d + n + 7) / 8 - d / 8) by (unfold k, word_count; rewrite Z2Nat.id; lia).
  destruct (memcpy_loop_ok k (d + n) (words h) d s) as (w' & -> & Ht & Hw); [eapply mapped_within; [exact Hd|lia|lia]|eapply mapped_within; [exact Hs|lia|lia]|done|done|lia|]. cbn [mbind option_bind].
  exists w'. split; [done|]. split; [eapply touched_weaken; [exact Ht|]; intros z Hz; cbn beta in Hz; lia|]. intros j Hj. unfold byte_at.
  pose proof (Z.div_mod j 8 ltac:(lia)) as Hj1. pose proof (Z.mod_pos_bound j 8 ltac:(lia)) as Hj2. set (q := j / 8) in *. set (r := j mod 8) in *.
  assert (Hsplit : ∀ a, a mod 8 = 0 → (a + j) / 8 * 8 = a + 8 * q ∧ (a + j) mod 8 = r).
  { intros a Ha. assert (Er : (a + j) mod 8 = r) by (unfold r; rewrite Z.add_mod, Ha by lia; rewrite Z.add_0_l, Z.mod_mod by lia; done). pose proof (Z.div_mod (a + j) 8 ltac:(lia)). lia. }
  destruct (Hsplit d Hd8) as [-> ->], (Hsplit s Hs8) as [-> ->]. destruct (Hw q ltac:(lia)) as (old & v & -> & ->). cbn [mbind option_bind]. f_equal. apply byte_eq; [lia|].
  intros i Hi. rewrite mix_word_bit by lia. by rewrite decide_True by lia.
Qed.

(** ** Reallocation *)

Lemma byte_kept w w' lo hi a : lo mod 8 = 0 → lo ≤ a < hi → (∀ z, lo ≤ z < hi → w' !! z = w !! z) → byte_at w' a = byte_at w a.
Proof.
  intros Hl Ha Hw. unfold byte_at. pose proof (Z.div_mod a 8 ltac:(lia)). pose proof (Z.mod_pos_bound a 8 ltac:(lia)). pose proof (Z.div_mod lo 8 ltac:(lia)). by rewrite Hw by lia.
Qed.

(** What [cmpct_realloc] promises: the block [y] of [t] bytes in place of [x], with
    the contents of [x] up to the smaller size. *)
Record reallocated (h h' : heap) (O O' : gmap Z range) (x s y t n : Z) : Prop := {
  ra_inv : hinv h' O';
  ra_size : n + 16 ≤ t;
  ra_blocks v u : is_area O' false v u ↔ (v = y ∧ u = t) ∨ (is_area O false v u ∧ v ≠ x);
  ra_kept v u z : is_area O false v u → v ≠ x → v + 16 ≤ z < v + u → words h' !! z = words h !! z;
  ra_copied j : 0 ≤ j < Z.min n (s - 16) → byte_at (words h') (y + 16 + j) = byte_at (words h) (x + 16 + j) }.

Lemma cmpct_realloc_ok h O o x s n :
  hinv h O → answers_ok O o → is_area O false x s → 0 < n ≤ 2 ^ 22 - 16 →
  ∃ p h1 o', cmpct_alloc h o n = Some (p, h1, o') ∧
    (p = 0 ∨ ∃ h' O' t, cmpct_realloc h o (x + 16) n = Some (p, h', o') ∧ reallocated h h' O O' x s (p - 16) t n).
Proof.
  intros Hi Ha Hx Hn. destruct (cmpct_alloc_ok h O o n Hi Ha Hn) as (p & h1 & o' & E & Hres). exists p, h1, o'. split; [done|].
  destruct Hres as [(-> & _)|(Hp & t & O1 & (Hal & Hy0 & Hy8 & Hap) & Ht)]; [by left|right]. set (y := p - 16) in *. assert (Ep : p = y + 16) by lia.
  destruct (block_facts h O x s Hi Hx) as (W8 & _ & Hx0 & Hx8 & Hs & Hs8 & Htop). unfold cmpct_realloc. rewrite (proj2 (Z.eqb_neq (x + 16) 0)) by lia. change sizeof_header with 16. replace (x + 16 - 16) with x by lia. rewrite W8. cbn [mbind option_bind].
  rewrite u64_id by (unfold is_u64; lia). rewrite E. cbn [mbind option_bind]. assert (Hi1 := al_inv _ _ _ _ _ _ Hal). assert (Hx1 : is_area O1 false x s) by (apply (al_blocks _ _ _ _ _ _ Hal); auto). assert (Hy1 : is_area O1 false y t) by (apply (al_blocks _ _ _ _ _ _ Hal); auto).
  destruct (block_facts h1 O1 x s Hi1 Hx1) as (_ & Mx & _). destruct (block_facts h1 O1 y t Hi1 Hy1) as (_ & My & _ & _ & Ht32 & Ht8 & _). pose proof (Hap x s Hx) as Hxy.
  assert (H16 : ∀ a, a mod 8 = 0 → (a + 16) mod 8 = 0) by (intros a Ha8; by rewrite Z.add_mod, Ha8 by lia).
  destruct (copy_ok h1 p (x + 16) (Z.min n (s - 16)) (y + t) (x + s)) as (w2 & -> & Ht2 & Hc); [lia|eapply mapped_within; [exact My|lia|lia]|eapply mapped_within; [exact Mx|lia|lia]|rewrite Ep; by apply H16|by apply H16|by rewrite Z.add_mod, Hy8, Ht8 by lia|by rewrite Z.add_mod, Hx8, Hs8 by lia|lia|lia|lia|].
  cbn [mbind option_bind]. assert (Hi2 : hinv (set_words h1 w2) O1) by (apply (write_block h1 O1 y t w2 Hi1 Hy1); eapply touched_weaken; [exact Ht2|]; intros z Hz; cbn beta in Hz; lia).
  destruct (cmpct_free_ok (set_words h1 w2) O1 x s Hi2 Hx1) as (h3 & O3 & -> & [Hi3 Hb3 Hk3]). cbn [mbind option_bind]. cbn [words set_words] in Hk3. exists h3, O3, t. split; [done|].
  assert (Hold : ∀ v u, is_area O false v u → v ≠ y ∧ (y + t ≤ v ∨ v + u ≤ y)).
  { intros v u Hv. destruct (block_facts h O v u Hi Hv) as (_ & _ & _ & _ & ? & _). specialize (Hap v u Hv). lia. }
  split; [done|lia| | |].
  - intros v u. rewrite Hb3, (al_blocks _ _ _ _ _ _ Hal). split; [intros [[?|?] ?]; auto|]. intros [[-> ->]|[? ?]]; [|auto]. split; [auto|]. destruct (Hold x s Hx). congruence.
  - intros v u z Hv Hvx Hz. destruct (Hold v u Hv) as [_ Hvy]. rewrite (Hk3 v u) by (done || apply (al_blocks _ _ _ _ _ _ Hal); auto). rewrite (proj2 Ht2) by lia. by apply (al_kept _ _ _ _ _ _ Hal v u).
  - intros j Hj. destruct (Hold x s Hx) as [Hne _]. rewrite (byte_kept w2 (words h3) (y + 16) (y + t)); [|by apply H16|lia|]. 2: { intros z Hz. apply (Hk3 y t); (done || congruence || lia). }
    rewrite <- Ep, Hc by lia. apply (byte_kept _ _ (x + 16) (x + s)); [by apply H16|lia|]. intros z Hz. by apply (al_kept _ _ _ _ _ _ Hal x s).
Qed.

(** ** The promises *)

Lemma cmpct_init_ok o :
  answers_ok ∅ o → ∃ h o' O, cmpct_init o = Some (h, o') ∧ hinv h O ∧ ∀ x s, ¬ is_area O false x s.
Proof.
  intros Ha. unfold cmpct_init. fold empty_heap. assert (Hno : ∀ x s, ¬ is_area (∅ : gmap Z range) false x s) by (intros x s (b & p & Hb & _); done).
  destruct (grow_step empty_heap ∅ o (HEAP_GROW_SIZE - 2 * sizeof_header) empty_heap_inv Ha) as [(r & p & h' & o' & O' & x & s & -> & _ & Hb & _)|(h' & -> & Hb & _)]; [by vm_compute|..]; cbn [mbind option_bind].
  - exists h', o', O'. split; [done|]. split; [apply Hb|]. intros y t. rewrite (sb_blocks _ _ _ _ Hb). apply Hno.
  - exists h', (drop 1 o), ∅. split; [done|]. split; [apply Hb|done].
Qed.

(** C23. A heap starts with no blocks and its invariant, and [cmpct_alloc] of at most
    4 MB less a header keeps it: the headers tile the memory, free areas are never
    neighbours, and the free lists and their bitmap hold exactly the free areas.  It
    fails only if every request for pages was refused; else it returns a block that is
    aligned, has at least the size asked for, and does not overlap any block in use,
    whose contents do not change. *)
Theorem cmpct_alloc_block o :
  answers_ok ∅ o →
  (∃ h o' O, cmpct_init o = Some (h, o') ∧ hinv h O ∧ ∀ x s, ¬ is_area O false x s) ∧
  ∀ h O o n, hinv h O → answers_ok O o → 0 < n ≤ 2 ^ 22 - 16 →
    ∃ p h' o', cmpct_alloc h o n = Some (p, h', o') ∧
      ((p = 0 ∧ same_blocks h h' O O ∧ refused o o') ∨ (0 < p ∧ ∃ s O', new_block h h' O O' (p - 16) s ∧ n + 16 ≤ s)).
Proof. intros Ha. split; [by apply cmpct_init_ok|]. intros h O o' n. apply cmpct_alloc_ok. Qed.

(** Blocks whose release was delayed. *)
Lemma free_all_ok l : ∀ h O, hinv h O → NoDup l → (∀ p, p ∈ l → ∃ s, is_area O false (p - 16) s) →
  ∃ h' O', free_all h l = Some h' ∧ hinv h' O' ∧ (∀ y t, is_area O' false y t ↔ is_area O false y t ∧ y + 16 ∉ l) ∧
    (∀ y t z, is_area O false y t → y + 16 ∉ l → y + 16 ≤ z < y + t → words h' !! z = words h !! z).
Proof.
  induction l as [|p l IH]; intros h O Hi Hnd Hl; cbn [free_all].
  - exists h, O. split; [done|]. split; [done|]. split; [|done]. intros y t. split; [intros ?; split; [done|apply not_elem_of_nil]|by intros [? _]].
  - apply list.NoDup_cons in Hnd as [Hp Hnd]. destruct (Hl p ltac:(by left)) as [s Hx]. destruct (cmpct_free_ok h O (p - 16) s Hi Hx) as (h1 & O1 & E & [Hi1 Hb1 Hk1]). replace (p - 16 + 16) with p in E by lia. rewrite E. cbn [mbind option_bind].
    destruct (IH h1 O1 Hi1 Hnd) as (h' & O' & E' & Hi' & Hb' & Hk').
    { intros q Hq. destruct (Hl q ltac:(by right)) as [t Ht]. exists t. apply Hb1. split; [done|]. intros Heq. replace q with p in Hq by lia. done. }
    assert (Hin : ∀ y, y + 16 ∉ p :: l ↔ y ≠ p - 16 ∧ y + 16 ∉ l) by (intros y; rewrite not_elem_of_cons; split; intros [? ?]; (split; [lia|done])).
    exists h', O'. split; [done|]. split; [done|]. split; [intros y t; rewrite Hb', Hb1, Hin; tauto|].
    intros y t z Hy [Hyp Hyl]%Hin Hz. rewrite (Hk' y t) by (done || by apply Hb1). by apply (Hk1 y t).
Qed.

(** C24. [cmpct_free] of any block in use trips no assertion and keeps the invariant of
    the heap, whether its neighbours are free, in use or the ends of the range: the
    block is merged with its free neighbours, or a range without other blocks goes
    back to the page allocator.  The other blocks keep their contents.  The same holds
    for the blocks whose release was delayed, and the invariant does not depend on what
    an owner writes to its block. *)
Theorem cmpct_free_block h O x s :
  hinv h O → is_area O false x s →
  (∃ h' O', cmpct_free h (x + 16) = Some h' ∧ freed h h' O O' x) ∧
  (∀ l, NoDup l → (∀ p, p ∈ l → ∃ s, is_area O false (p - 16) s) → ∃ h' O', heap_free_delayed_list h l = Some (h', []) ∧ hinv h' O' ∧
    (∀ y t, is_area O' false y t ↔ is_area O false y t ∧ y + 16 ∉ l) ∧
    (∀ y t z, is_area O false y t → y + 16 ∉ l → y + 16 ≤ z < y + t → words h' !! z = words h !! z)) ∧
  ∀ w', touched (words h) w' (λ z, x + 16 ≤ z < x + s) → hinv (set_words h w') O.
Proof.
  intros Hi Hx. split; [by eapply cmpct_free_ok|]. split; [|intros w'; by apply (write_block h O x s)]. intros l Hnd Hl. unfold heap_free_delayed_list.
  destruct (free_all_ok (reverse l) h O Hi) as (h' & O' & E & Hi' & Hb & Hk); [by rewrite reverse_Permutation|intros p Hp; apply Hl; by apply elem_of_reverse|].
  rewrite rev_alt in *. unfold reverse in E. rewrite E. cbn [mbind option_bind]. exists h', O'. split; [done|]. split; [done|]. setoid_rewrite elem_of_reverse in Hb. setoid_rewrite elem_of_reverse in Hk. done.
Qed.

(** Unless their allocation fails, [cmpct_memalign] returns a block at a multiple
    of the alignment, apart from all blocks in use, and [cmpct_realloc] moves a block:
    the new one holds the bytes of the old one, up to the smaller of the two sizes,
    and takes its place among the blocks. *)
Theorem cmpct_memalign_realloc h O o :
  hinv h O → answers_ok O o →
  (∀ n k, 3 ≤ k → 0 < n → n + 2 ^ k + 64 ≤ 2 ^ 22 → ∃ p h1 o', cmpct_alloc h o (n + 2 ^ k + 48) = Some (p, h1, o') ∧
    (p = 0 ∨ ∃ q s h' O', cmpct_memalign h o n (2 ^ k) = Some (q, h', o') ∧ q mod 2 ^ k = 0 ∧ new_block h h' O O' (q - 16) s ∧ n + 16 ≤ s)) ∧
  (∀ x s n, is_area O false x s → 0 < n ≤ 2 ^ 22 - 16 → ∃ p h1 o', cmpct_alloc h o n = Some (p, h1, o') ∧
    (p = 0 ∨ ∃ h' O' t, cmpct_realloc h o (x + 16) n = Some (p, h', o') ∧ reallocated h h' O O' x s (p - 16) t n)).
Proof. intros Hi Ha. split; [intros n k|intros x s n]; eauto using cmpct_memalign_ok, cmpct_realloc_ok. Qed.

(** Every block of more than 4 MB is broken: the fill of [large_alloc] with
    [PADDING_FILL] ends at the end of the range instead of before its sentinel, which
    then looks like a huge free area, and [cmpct_free] of the block trips an
    assertion.  And since no room is asked for its header, the block can have 16 bytes
    less than asked for. *)
Theorem large_block_broken h o n ptr c :
  2 ^ 22 - 16 < n → 0 < ptr → ptr mod 4096 = 0 → ptr + n + 8192 ≤ 2 ^ 63 →
  ∃ h' s, cmpct_alloc h (Some (ptr, c) :: o) n = Some (ptr + 32, h', o) ∧ cmpct_free h' (ptr + 32) = None ∧
    header_size h' (ptr + 16) = Some s ∧ (n mod 4096 = 4064 → s - 16 = n - 16).
Proof.
  intros Hn Hp0 Hpa Htop. destruct (large_alloc_ok h o n ptr c) as (g & h' & E & Hg & Hg8 & Hga & Hlr); [lia|done|done|lia|]. exists h', (g - 32). unfold cmpct_alloc. rewrite (proj2 (Z.eqb_neq n 0)) by lia.
  change sizeof_header with 16. rewrite u64_id by (unfold is_u64; lia). change (Z.shiftl 1 HEAP_ALLOC_VIRTUAL_BITS) with (2 ^ 22). assert (Eg : (n + 16 >? 2 ^ 22) = true) by (rewrite Z.gtb_ltb; apply Z.ltb_lt; lia). rewrite Eg.
  split; [done|]. split; [eapply large_free_fails; [done|by apply page_8|done]|]. split; [unfold header_size, load; replace (ptr + 16 + 8) with (ptr + 24) by lia; apply Hlr|].
  intros Hm. pose proof (Z.div_mod n 4096 ltac:(lia)). pose proof (Z.div_mod g 4096 ltac:(lia)).
  assert (n mod 8 = 0) by (replace n with ((512 * (n / 4096) + 508) * 8) by lia; apply Z_mod_mult). specialize (Hg8 ltac:(done)). lia.
Qed.

(** ** Examples *)

(** A heap of [pages] pages. *)
Definition demo_heap (pages : Z) : heap := default empty_heap (add_to_heap (map_pages empty_heap 65536 (pages * 4096) (λ _, 0)) 65536 (pages * 4096) false).
Definition demo_ranges : gmap Z range := {[ 65536 := mk_range 16 [(true, 8160)] ]}.

Lemma demo_inv : hinv (demo_heap 2) demo_ranges.
Proof.
  destruct (fresh_inv empty_heap ∅ 65536 8192 (λ _, 0) empty_heap_inv) as (h' & E & _ & Hb & _); [|by vm_compute|done|].
  - split_and!; try done; by vm_compute.
  - unfold demo_heap. change (2 * 4096) with 8192. rewrite E. apply Hb.
Qed.

Lemma no_answers O : answers_ok O [].
Proof. by intros ptr c ?%not_elem_of_nil. Qed.

Lemma cmpct_alloc_block_witness : ∃ h' o' s O', cmpct_alloc (demo_heap 2) [] 100 = Some (65568, h', o') ∧ new_block (demo_heap 2) h' demo_ranges O' 65552 s ∧ 116 ≤ s.
Proof.
  destruct (cmpct_alloc_block [] (no_answers ∅)) as [_ H]. destruct (H (demo_heap 2) demo_ranges [] 100 demo_inv (no_answers _) ltac:(lia)) as (p & h' & o' & E & Hres).
  assert (Ep : (λ r, r.1.1) <$> cmpct_alloc (demo_heap 2) [] 100 = Some 65568) by (by vm_compute). rewrite E in Ep. injection Ep as Ep. cbn in Ep. subst p.
  destruct Hres as [(? & _)|(_ & s & O' & Hn & Hs)]; [lia|]. exists h', o', s, O'. split; [exact E|]. split; [exact Hn|exact Hs].
Defined.

(** A block in the heap. *)
Lemma demo_block : ∃ h O s, hinv h O ∧ is_area O false 65552 s ∧ 116 ≤ s.
Proof.
  destruct (cmpct_alloc_ok (demo_heap 2) demo_ranges [] 100 demo_inv (no_answers _) ltac:(lia)) as (p & h' & o' & E & Hres).
  assert (Ep : (λ r, r.1.1) <$> cmpct_alloc (demo_heap 2) [] 100 = Some 65568) by (by vm_compute). rewrite E in Ep. injection Ep as Ep. cbn in Ep. subst p.
  destruct Hres as [(? & _)|(_ & s & O' & (Ha & _) & Hs)]; [lia|]. exists h', O', s. split; [apply Ha|]. split; [apply (al_blocks _ _ _ _ _ _ Ha); auto|exact Hs].
Qed.

Lemma cmpct_free_block_witness : ∃ h O h' O', is_area O false 65552 (default 0 (header_size h 65552)) ∧ cmpct_free h 65568 = Some h' ∧ freed h h' O O' 65552.
Proof.
  destruct demo_block as (h & O & s & Hi & Hx & Hs). destruct (cmpct_free_block h O 65552 s Hi Hx) as [(h' & O' & E & Hf) _]. exists h, O, h', O'.
  rewrite (proj1 (block_facts h O 65552 s Hi Hx)). split; [exact Hx|]. split; [exact E|exact Hf].
Defined.

Lemma cmpct_memalign_realloc_witness : ∃ q s h' o' O', cmpct_memalign (demo_heap 2) [] 100 (2 ^ 8) = Some (q, h', o') ∧ q mod 2 ^ 8 = 0 ∧ new_block (demo_heap 2) h' demo_ranges O' (q - 16) s ∧ 116 ≤ s.
Proof.
  destruct (cmpct_memalign_realloc (demo_heap 2) demo_ranges [] demo_inv (no_answers _)) as [Hm _]. destruct (Hm 100 8 ltac:(lia) ltac:(lia) ltac:(lia)) as (p & h1 & o' & E & [->|(q & s & h' & O' & Hq)]).
  - exfalso. assert (Ep : (λ r, r.1.1) <$> cmpct_alloc (demo_heap 2) [] (100 + 2 ^ 8 + 48) = Some 65568) by (by vm_compute). rewrite E in Ep. injection Ep as Ep. cbn in Ep. lia.
  - exists q, s, h', o', O'. exact Hq.
Defined.

Lemma large_block_broken_witness : ∃ h' s, cmpct_alloc empty_heap [Some (65536, λ _, 0)] (5 * 2 ^ 20 + 4064) = Some (65568, h', []) ∧ cmpct_free h' 65568 = None ∧ header_size h' 65552 = Some s ∧ s < 5 * 2 ^ 20 + 4064 + 16.
Proof.
  destruct (large_block_broken empty_heap [] (5 * 2 ^ 20 + 4064) 65536 (λ _, 0)) as (h' & s & E & Ef & Es & Hs); [lia|lia|done|lia|]. exists h', s. split; [exact E|]. split; [exact Ef|]. split; [exact Es|].
  specialize (Hs eq_refl). lia.
Defined.

(** Three blocks at the start of a range of four pages are freed and trimmed, then
    the block after them. *)
Definition trimmed : option (Z * heap) :=
  let h := demo_heap 4 in
  '(a, h, _) ← cmpct_alloc h [] 7168; '(b, h, _) ← cmpct_alloc h [] 960; '(c, h, _) ← cmpct_alloc h [] 40;
  '(p, h, _) ← cmpct_alloc h [] 5120; '(q, h, _) ← cmpct_alloc h [] 100; '(_, h, _) ← cmpct_alloc h [] 100;
  h ← cmpct_free h a; h ← cmpct_free h b; h ← cmpct_free h c; h ← cmpct_trim h;
  h ← cmpct_free h p; h ← cmpct_trim h; Some (q, h).

(** [cmpct_trim] loses memory when it trims the start of a range a second time: it
    takes the sentinel to have the size of a header, although it made it larger the
    first time, and the free area it makes ends 24 bytes before the next header.  Then
    a free, two allocations and a free, all of them legal, trip an assertion. *)
Theorem trim_twice_breaks :
  ('(q, h) ← trimmed; left ← header_left h (q - 16); size ← header_size h left; Some (untag left + size, q - 16)) = Some (78880, 78904) ∧
  ('(q, h) ← trimmed; h ← cmpct_free h q; '(_, h, _) ← cmpct_alloc h [] 1024; '(v, h, _) ← cmpct_alloc h [] 100; Some (cmpct_free h v)) = Some None.
Proof. split; vm_compute; reflexivity. Qed.

(** Allocations that fail are not noticed: the result of [cmpct_alloc] is used as an
    address. *)
Theorem null_not_checked :
  ((λ r, r.1.1) <$> cmpct_alloc (demo_heap 2) [] 10000) = Some 0 ∧ cmpct_memalign (demo_heap 2) [] 9900 16 = None ∧
  ('(p, h, _) ← cmpct_alloc (demo_heap 2) [] 100; cmpct_realloc h [] p 10000) = None.
Proof. split_and!; vm_compute; reflexivity. Qed.

(** [cmpct_memalign] of no bytes makes a block that is smaller than a [free_t]. *)
Theorem memalign_zero_short : ('(p, h, _) ← cmpct_memalign (demo_heap 2) [] 0 8; header_size h (p - 16)) = Some 24.
Proof. vm_compute. reflexivity. Qed.
End HeapFacts.
