(* ===== verification/Pmm.v ===== *)
(** * The allocator of physical pages

    [src/kernel/kernel/vm/pmm.cpp], [bootalloc.cpp], and [mark_pages_in_use] and
    [paddr_to_kvaddr] of [vm.cpp].  Physical memory is a list of arenas in the order of
    their priorities.  An arena has an array with a structure for each of its pages, and
    a list of those that are free.

    A page is the address of its structure.  The structures are in a map from addresses;
    of the list node of a page the model keeps whether it is on a list.  A list that a
    caller passes is a list of pages, [None] for a null pointer.  Removing a page from a
    list that does not have it, or adding one that is on another list, would corrupt
    memory and is [None], like a failed assertion. *)

From stdpp Require Import base tactics numbers list gmap.
From Stdlib Require Import ZArith.
From S2P Require Import Prelude.
#[local] Open Scope Z_scope.

Module Pmm.

Definition PAGE_SIZE : Z := 4096.
Definition PAGE_SIZE_SHIFT : Z := 12.
Definition sizeof_vm_page : Z := 24.

(** [b] is a power of two. *)
Definition ROUNDUP (a b : Z) : Z := Z.ldiff (u64 (a + (b - 1))) (b - 1).
Definition ROUNDDOWN (a b : Z) : Z := Z.ldiff a (b - 1).
Definition IS_PAGE_ALIGNED (x : Z) : bool := Z.land x (PAGE_SIZE - 1) =? 0.

Definition PMM_ARENA_FLAG_KMAP : Z := 1.
Definition PMM_ALLOC_FLAG_ANY : Z := 0.
Definition PMM_ALLOC_FLAG_KMAP : Z := 1.

Inductive vm_page_state := VM_PAGE_STATE_FREE | VM_PAGE_STATE_ALLOC | VM_PAGE_STATE_MMU.

#[global] Instance vm_page_state_eq_dec : EqDecision vm_page_state.
Proof. solve_decision. Defined.

Record vm_page := mk_page { pg_linked : bool; pg_state : vm_page_state }.

Record pmm_arena := mk_arena {
  ar_flags : Z; priority : Z; ar_base : Z; ar_size : Z; free_count : Z; page_array : Z; free_list : list Z }.

Definition set_free (a : pmm_arena) (l : list Z) (n : Z) : pmm_arena :=
  mk_arena (ar_flags a) (priority a) (ar_base a) (ar_size a) n (page_array a) l.

Record pmm := mk_pmm { arenas : list pmm_arena; pages : gmap Z vm_page; boot_alloc_end : Z }.

Definition npages (a : pmm_arena) : Z := ar_size a / PAGE_SIZE.

(** [&a->page_array[i]]. *)
Definition page_at (a : pmm_arena) (i : Z) : Z := page_array a + i * sizeof_vm_page.

Definition PAGE_BELONGS_TO_ARENA (page : Z) (a : pmm_arena) : bool :=
  (page_array a <=? page) && (page <? u64 (page_array a + npages a * sizeof_vm_page)).

Definition PAGE_ADDRESS_FROM_ARENA (page : Z) (a : pmm_arena) : Z :=
  u64 ((page - page_array a) / sizeof_vm_page * PAGE_SIZE + ar_base a).

Definition ADDRESS_IN_ARENA (address : Z) (a : pmm_arena) : bool :=
  (ar_base a <=? address) && (address <=? u64 (ar_base a + ar_size a - 1)).

Definition page_is_free (pg : vm_page) : bool := bool_decide (pg_state pg = VM_PAGE_STATE_FREE).

(** The result for a page of no arena is [-1]. *)
Definition vm_page_to_paddr (s : pmm) (page : Z) : Z :=
  match list_find (λ a, PAGE_BELONGS_TO_ARENA page a = true) (arenas s) with
  | Some (_, a) => PAGE_ADDRESS_FROM_ARENA page a
  | None => 2 ^ 64 - 1
  end.

Definition paddr_to_vm_page (s : pmm) (addr : Z) : option Z :=
  match list_find (λ a, ADDRESS_IN_ARENA addr a = true) (arenas s) with
  | Some (_, a) => Some (page_at a ((addr - ar_base a) / PAGE_SIZE))
  | None => None
  end.

(** ** Set-up *)

Definition boot_alloc_mem (s : pmm) (len : Z) : Z * pmm :=
  let ptr := ROUNDUP (boot_alloc_end s) 8 in
  (ptr, mk_pmm (arenas s) (pages s) (u64 (ptr + ROUNDUP len 8))).

Fixpoint insert_arena (arena : pmm_arena) (l : list pmm_arena) : list pmm_arena :=
  match l with
  | [] => [arena]
  | a :: l' => if priority a >? priority arena then arena :: a :: l' else a :: insert_arena arena l'
  end.

(** The structures of [k] pages from [p] on are cleared and put on the free list. *)
Fixpoint init_pages (k : nat) (p : Z) (m : gmap Z vm_page) : gmap Z vm_page :=
  match k with O => m | S k' => init_pages k' (p + sizeof_vm_page) (<[p := mk_page true VM_PAGE_STATE_FREE]> m) end.

Definition pmm_add_arena (s : pmm) (arena : pmm_arena) : option (Z * pmm) :=
  ASSERT IS_PAGE_ALIGNED (ar_base arena);
  ASSERT IS_PAGE_ALIGNED (ar_size arena);
  ASSERT 0 <? ar_size arena;
  let page_count := npages arena in
  let '(arr, s1) := boot_alloc_mem s (u64 (page_count * sizeof_vm_page)) in
  let fl := (λ i, arr + i * sizeof_vm_page) <$> seqZ 0 page_count in
  let a := mk_arena (ar_flags arena) (priority arena) (ar_base arena) (ar_size arena) page_count arr fl in
  Some (NO_ERROR, mk_pmm (insert_arena a (arenas s1)) (init_pages (Z.to_nat page_count) arr (pages s1)) (boot_alloc_end s1)).

(** ** Allocation *)

(** An arena that is not mapped is skipped if the flags ask for a mapped one. *)
Definition eligible (alloc_flags : Z) (a : pmm_arena) : bool :=
  (Z.land alloc_flags PMM_ALLOC_FLAG_KMAP =? 0) || negb (Z.land (ar_flags a) PMM_ARENA_FLAG_KMAP =? 0).

(** The walk of the arenas: the page and its address, or a null pointer. *)
Fixpoint alloc_page_in (l : list pmm_arena) (m : gmap Z vm_page) (alloc_flags : Z)
  : option (option (Z * Z) * list pmm_arena * gmap Z vm_page) :=
  match l with
  | [] => Some (None, [], m)
  | a :: l' =>
    let next := '(r, l1, m1) ← alloc_page_in l' m alloc_flags; Some (r, a :: l1, m1) in
    if negb (eligible alloc_flags a) then next else
    match free_list a with
    | [] => next
    | page :: fl =>
      pg ← m !! page;
      ASSERT page_is_free pg;
      Some (Some (page, PAGE_ADDRESS_FROM_ARENA page a), set_free a fl (u64 (free_count a - 1)) :: l', <[page := mk_page false VM_PAGE_STATE_ALLOC]> m)
    end
  end.

Definition pmm_alloc_page (s : pmm) (alloc_flags : Z) : option (option (Z * Z) * pmm) :=
  '(r, l, m) ← alloc_page_in (arenas s) (pages s) alloc_flags;
  Some (r, mk_pmm l m (boot_alloc_end s)).

(** The inner loop; the first result is whether the free list was exhausted. *)
Fixpoint take_pages (fl : list Z) (fc : Z) (m : gmap Z vm_page) (allocated count : Z) (lst : list Z)
  : option (bool * list Z * Z * gmap Z vm_page * Z * list Z) :=
  match fl with
  | [] => Some (allocated <? count, [], fc, m, allocated, lst)
  | page :: fl' =>
    if allocated <? count then
      pg ← m !! page;
      ASSERT page_is_free pg;
      take_pages fl' (u64 (fc - 1)) (<[page := mk_page true VM_PAGE_STATE_ALLOC]> m) (u32 (allocated + 1)) count (lst ++ [page])
    else Some (false, fl, fc, m, allocated, lst)
  end.

Fixpoint alloc_pages_in (l : list pmm_arena) (m : gmap Z vm_page) (alloc_flags allocated count : Z) (lst : list Z)
  : option (Z * list Z * list pmm_arena * gmap Z vm_page) :=
  match l with
  | [] => Some (allocated, lst, [], m)
  | a :: l' =>
    if negb (eligible alloc_flags a) then
      '(n, lst1, l1, m1) ← alloc_pages_in l' m alloc_flags allocated count lst; Some (n, lst1, a :: l1, m1)
    else
      '(short, fl, fc, m1, allocated1, lst1) ← take_pages (free_list a) (free_count a) m allocated count lst;
      let a1 := set_free a fl fc in
      if (short : bool) then Some (allocated1, lst1, a1 :: l', m1) else
      '(n, lst2, l2, m2) ← alloc_pages_in l' m1 alloc_flags allocated1 count lst1;
      Some (n, lst2, a1 :: l2, m2)
  end.

Definition pmm_alloc_pages (s : pmm) (count alloc_flags : Z) (lst : list Z) : option (Z * list Z * pmm) :=
  if count =? 0 then Some (0, lst, s) else
  '(n, lst1, l, m) ← alloc_pages_in (arenas s) (pages s) alloc_flags 0 count lst;
  Some (n, lst1, mk_pmm l m (boot_alloc_end s)).

(** A free page of an arena is taken off its list and put on [lst], if there is one. *)
Definition claim_page (a : pmm_arena) (m : gmap Z vm_page) (page : Z) (lst : option (list Z))
  : option (pmm_arena * gmap Z vm_page * option (list Z)) :=
  pg ← m !! page;
  ASSERT pg_linked pg;
  ASSERT bool_decide (page ∈ free_list a);
  Some (set_free a (filter (λ x, x ≠ page) (free_list a)) (u64 (free_count a - 1)),
        <[page := mk_page (bool_decide (is_Some lst)) VM_PAGE_STATE_ALLOC]> m, (λ l, l ++ [page]) <$> lst).

Fixpoint range_loop (fuel : nat) (a : pmm_arena) (m : gmap Z vm_page) (address allocated count : Z) (lst : option (list Z))
  : option (pmm_arena * gmap Z vm_page * Z * Z * option (list Z)) :=
  match fuel with
  | O => None
  | S f =>
    if (allocated <? count) && ADDRESS_IN_ARENA address a then
      let index := (address - ar_base a) / PAGE_SIZE in
      ASSERT index <? npages a;
      let page := page_at a index in
      pg ← m !! page;
      if negb (page_is_free pg) then Some (a, m, address, allocated, lst) else
      '(a1, m1, lst1) ← claim_page a m page lst;
      range_loop f a1 m1 (u64 (address + PAGE_SIZE)) (u32 (allocated + 1)) count lst1
    else Some (a, m, address, allocated, lst)
  end.

Fixpoint alloc_range_in (l : list pmm_arena) (m : gmap Z vm_page) (address allocated count : Z) (lst : option (list Z))
  : option (Z * option (list Z) * list pmm_arena * gmap Z vm_page) :=
  match l with
  | [] => Some (allocated, lst, [], m)
  | a :: l' =>
    '(a1, m1, address1, allocated1, lst1) ← range_loop (S (Z.to_nat (npages a))) a m address allocated count lst;
    if allocated1 =? count then Some (allocated1, lst1, a1 :: l', m1) else
    '(n, lst2, l2, m2) ← alloc_range_in l' m1 address1 allocated1 count lst1;
    Some (n, lst2, a1 :: l2, m2)
  end.

Definition pmm_alloc_range (s : pmm) (address count : Z) (lst : option (list Z)) : option (Z * option (list Z) * pmm) :=
  if count =? 0 then Some (0, lst, s) else
  '(n, lst1, l, m) ← alloc_range_in (arenas s) (pages s) (ROUNDDOWN address PAGE_SIZE) 0 count lst;
  Some (n, lst1, mk_pmm l m (boot_alloc_end s)).

(** The first of [k] pages from [p] on that is not free, as an index. *)
Fixpoint run_free (k : nat) (m : gmap Z vm_page) (p i : Z) : option (option Z) :=
  match k with
  | O => Some None
  | S k' => pg ← m !! p; if negb (page_is_free pg) then Some (Some i) else run_free k' m (p + sizeof_vm_page) (u32 (i + 1))
  end.

(** The search for a run in an arena. *)
Fixpoint find_run (fuel : nat) (a : pmm_arena) (m : gmap Z vm_page) (aligned_offset alignment_log2 start count : Z) : option (option Z) :=
  match fuel with
  | O => None
  | S f =>
    if (start <? npages a) && (u64 (start + count) <=? npages a) then
      r ← run_free (Z.to_nat count) m (page_at a start) 0;
      match r with
      | Some i =>
        find_run f a m aligned_offset alignment_log2
          (u64 (ROUNDUP (u64 (start - aligned_offset + i + 1)) (2 ^ (alignment_log2 - PAGE_SIZE_SHIFT)) + aligned_offset)) count
      | None => Some (Some start)
      end
    else Some None
  end.

Fixpoint claim_run (k : nat) (i : Z) (a : pmm_arena) (m : gmap Z vm_page) (lst : option (list Z))
  : option (pmm_arena * gmap Z vm_page * option (list Z)) :=
  match k with
  | O => Some (a, m, lst)
  | S k' =>
    let p := page_at a i in
    pg ← m !! p;
    ASSERT page_is_free pg;
    '(a1, m1, lst1) ← claim_page a m p lst;
    claim_run k' (i + 1) a1 m1 lst1
  end.

Fixpoint contiguous_in (l : list pmm_arena) (m : gmap Z vm_page) (count alloc_flags alignment_log2 : Z) (lst : option (list Z))
  : option (Z * Z * option (list Z) * list pmm_arena * gmap Z vm_page) :=
  match l with
  | [] => Some (0, 0, lst, [], m)
  | a :: l' =>
    let next := '(n, pa, lst1, l1, m1) ← contiguous_in l' m count alloc_flags alignment_log2 lst; Some (n, pa, lst1, a :: l1, m1) in
    if negb (eligible alloc_flags a) then next else
    let rounded_base := ROUNDUP (ar_base a) (2 ^ alignment_log2) in
    if (rounded_base <? ar_base a) || (u64 (ar_base a + ar_size a - 1) <? rounded_base) then next else
    let aligned_offset := (rounded_base - ar_base a) / PAGE_SIZE in
    r ← find_run (S (Z.to_nat (npages a))) a m aligned_offset alignment_log2 aligned_offset count;
    match r with
    | None => next
    | Some start =>
      '(a1, m1, lst1) ← claim_run (Z.to_nat count) start a m lst;
      Some (count, u64 (ar_base a + start * PAGE_SIZE), lst1, a1 :: l', m1)
    end
  end.

(** The number of pages, the address of the first, and the list. *)
Definition pmm_alloc_contiguous (s : pmm) (count alloc_flags alignment_log2 : Z) (lst : option (list Z)) : option (Z * Z * option (list Z) * pmm) :=
  if count =? 0 then Some (0, 0, lst, s) else
  let alignment_log2 := if alignment_log2 <? PAGE_SIZE_SHIFT then PAGE_SIZE_SHIFT else alignment_log2 in
  '(n, pa, lst1, l, m) ← contiguous_in (arenas s) (pages s) count alloc_flags alignment_log2 lst;
  Some (n, pa, lst1, mk_pmm l m (boot_alloc_end s)).

(** ** Release *)

Fixpoint return_page (l : list pmm_arena) (page : Z) : option (list pmm_arena) :=
  match l with
  | [] => None
  | a :: l' =>
    if PAGE_BELONGS_TO_ARENA page a then Some (set_free a (page :: free_list a) (u64 (free_count a + 1)) :: l')
    else l1 ← return_page l' page; Some (a :: l1)
  end.

(** A page of no arena is taken off the list and left alone. *)
Fixpoint free_loop (lst : list Z) (s : pmm) (count : Z) : option (Z * pmm) :=
  match lst with
  | [] => Some (count, s)
  | page :: lst' =>
    pg ← pages s !! page;
    ASSERT negb (page_is_free pg);
    match return_page (arenas s) page with
    | Some l => free_loop lst' (mk_pmm l (<[page := mk_page true VM_PAGE_STATE_FREE]> (pages s)) (boot_alloc_end s)) (u32 (count + 1))
    | None => free_loop lst' (mk_pmm (arenas s) (<[page := mk_page false (pg_state pg)]> (pages s)) (boot_alloc_end s)) count
    end
  end.

Definition pmm_free (s : pmm) (lst : list Z) : option (Z * pmm) := free_loop lst s 0.

(** A page is put on a list of the caller. *)
Definition link_page (s : pmm) (page : Z) : option pmm :=
  pg ← pages s !! page;
  ASSERT negb (pg_linked pg);
  Some (mk_pmm (arenas s) (<[page := mk_page true (pg_state pg)]> (pages s)) (boot_alloc_end s)).

Definition pmm_free_page (s : pmm) (page : Z) : option (Z * pmm) := s1 ← link_page s page; pmm_free s1 [page].

(** ** Pages that the kernel has mapped *)

Record mmu_initial_mapping := mk_mapping { map_phys : Z; map_virt : Z; map_size : Z; map_temporary : bool }.

(** The table of mappings ends before the first one of size 0. *)
Fixpoint paddr_to_kvaddr (maps : list mmu_initial_mapping) (pa : Z) : option Z :=
  match maps with
  | [] => None
  | mp :: maps' =>
    if map_size mp <=? 0 then None else
    if negb (map_temporary mp) && (map_phys mp <=? pa) && (pa <=? u64 (map_phys mp + map_size mp - 1))
    then Some (u64 (map_virt mp + (pa - map_phys mp))) else paddr_to_kvaddr maps' pa
  end.

(** The pointer and the physical address, or a null pointer. *)
Definition pmm_alloc_kpages (s : pmm) (maps : list mmu_initial_mapping) (count : Z) (lst : option (list Z))
  : option (option (Z * Z) * option (list Z) * pmm) :=
  let mapped pa lst s := ptr ← paddr_to_kvaddr maps pa; Some (Some (ptr, pa), lst, s) in
  if count =? 1 then
    '(r, s1) ← pmm_alloc_page s PMM_ALLOC_FLAG_KMAP;
    match r with
    | None => Some (None, lst, s1)
    | Some (p, pa) =>
      match lst with
      | Some l => s2 ← link_page s1 p; mapped pa (Some (l ++ [p])) s2
      | None => mapped pa None s1
      end
    end
  else
    '(n, pa, lst1, s1) ← pmm_alloc_contiguous s count PMM_ALLOC_FLAG_KMAP PAGE_SIZE_SHIFT lst;
    if n =? 0 then Some (None, lst1, s1) else mapped pa lst1 s1.

Definition pmm_alloc_kpage (s : pmm) (maps : list mmu_initial_mapping) : option (option (Z * Z) * pmm) :=
  '(r, s1) ← pmm_alloc_page s PMM_ALLOC_FLAG_KMAP;
  match r with
  | None => Some (None, s1)
  | Some (_, pa) => ptr ← paddr_to_kvaddr maps pa; Some (Some (ptr, pa), s1)
  end.

(** [vaddr_to_paddr] asks the memory management unit. *)
Fixpoint kpages_list (vaddr_to_paddr : Z → Z) (k : nat) (ptr : Z) (s : pmm) : option (list Z * pmm) :=
  match k with
  | O => Some ([], s)
  | S k' =>
    match paddr_to_vm_page s (vaddr_to_paddr ptr) with
    | Some p => s1 ← link_page s p; '(l, s2) ← kpages_list vaddr_to_paddr k' (u64 (ptr + PAGE_SIZE)) s1; Some (p :: l, s2)
    | None => kpages_list vaddr_to_paddr k' (u64 (ptr + PAGE_SIZE)) s
    end
  end.

Definition pmm_free_kpages (vaddr_to_paddr : Z → Z) (s : pmm) (ptr count : Z) : option (Z * pmm) :=
  '(l, s1) ← kpages_list vaddr_to_paddr (Z.to_nat count) ptr s;
  pmm_free s1 l.

(** [query] is [arch_mmu_query] on the kernel address space; a page that is not mapped
    is a panic. *)
Fixpoint mark_loop (query : Z → option Z) (k : nat) (va : Z) (s : pmm) : option pmm :=
  match k with
  | O => Some s
  | S k' => pa ← query va; '(_, _, s1) ← pmm_alloc_range s pa 1 None; mark_loop query k' (u64 (va + PAGE_SIZE)) s1
  end.

Definition mark_pages_in_use (query : Z → option Z) (s : pmm) (va len : Z) : option pmm :=
  let len := ROUNDUP (u64 (len + Z.land va (PAGE_SIZE - 1))) PAGE_SIZE in
  mark_loop query (Z.to_nat (len / PAGE_SIZE)) (ROUNDDOWN va PAGE_SIZE) s.

End Pmm.
