(* ===== verification/PmmFacts.v ===== *)
(** * The page allocator hands out free pages, and finds a run if there is one

    The invariant of the arenas and of their free lists; each allocation as a sequence of
    claims of free pages, and what a search of contiguous pages finds. *)

From stdpp Require Import base tactics numbers list list_numbers gmap sorting.
From Stdlib Require Import ZArith Lia.
From S2P Require Import Prelude Pmm.
#[local] Open Scope Z_scope.

Module PmmFacts.
Import Pmm.

(** ** Alignment *)

Lemma ldiff_pow2 x k : 0 ≤ k → Z.ldiff x (2 ^ k - 1) = x / 2 ^ k * 2 ^ k.
Proof. intros Hk. replace (2 ^ k - 1) with (Z.ones k) by (rewrite Z.ones_equiv; lia). rewrite Z.ldiff_ones_r by done. by rewrite Z.shiftl_mul_pow2, Z.shiftr_div_pow2. Qed.

Lemma roundup_pow2 a k : 0 ≤ k → 0 ≤ a → a + (2 ^ k - 1) < 2 ^ 64 → ROUNDUP a (2 ^ k) = (a + (2 ^ k - 1)) / 2 ^ k * 2 ^ k.
Proof. intros Hk Ha Hw. pose proof (pow2_pos k Hk). unfold ROUNDUP. rewrite u64_id by (unfold is_u64; lia). by apply ldiff_pow2. Qed.

(** The least multiple that is not less. *)
Lemma roundup_pow2_spec a k : 0 ≤ k → 0 ≤ a → a + (2 ^ k - 1) < 2 ^ 64 →
  a ≤ ROUNDUP a (2 ^ k) < a + 2 ^ k ∧ ROUNDUP a (2 ^ k) mod 2 ^ k = 0 ∧ ∀ x, x mod 2 ^ k = 0 → a ≤ x → ROUNDUP a (2 ^ k) ≤ x.
Proof.
  intros Hk Ha Hw. rewrite roundup_pow2 by done. pose proof (pow2_pos k Hk) as Hp. set (A := 2 ^ k) in *. pose proof (Z.div_mod (a + (A - 1)) A ltac:(lia)) as E. pose proof (Z.mod_pos_bound (a + (A - 1)) A Hp) as Hb. split; [nia|].
  split; [apply Z.mod_mul; lia|]. intros x Hx Hax. pose proof (Z.div_mod x A ltac:(lia)) as Ex. rewrite Hx in Ex. assert ((a + (A - 1)) / A < x / A + 1) by (apply Z.div_lt_upper_bound; lia). nia.
Qed.

(** A sum that wraps is rounded to 0. *)
Lemma roundup_wrap a k : 0 ≤ k ≤ 63 → 0 ≤ a < 2 ^ 64 → 2 ^ 64 ≤ a + (2 ^ k - 1) → ROUNDUP a (2 ^ k) = 0.
Proof.
  intros Hk Ha Hw. pose proof (pow2_pos k ltac:(lia)). pose proof (pow2_le k 63 ltac:(lia)). unfold ROUNDUP. rewrite ldiff_pow2 by lia. unfold u64. rewrite <- (Z.mod_unique_pos (a + (2 ^ k - 1)) (2 ^ 64) 1 (a + (2 ^ k - 1) - 2 ^ 64)) by lia. rewrite Z.div_small by lia. lia.
Qed.

Lemma rounddown_page x : ROUNDDOWN x PAGE_SIZE = x / PAGE_SIZE * PAGE_SIZE.
Proof. unfold ROUNDDOWN. change (PAGE_SIZE - 1) with (2 ^ 12 - 1). by rewrite ldiff_pow2. Qed.

Lemma page_aligned x : IS_PAGE_ALIGNED x = true ↔ x mod PAGE_SIZE = 0.
Proof. unfold IS_PAGE_ALIGNED. change (PAGE_SIZE - 1) with (2 ^ 12 - 1). rewrite land_ones_mod by lia. apply Z.eqb_eq. Qed.

(** ** The layout of the arenas *)

(** An arena without its free list. *)
Definition geo (a : pmm_arena) : pmm_arena := set_free a [] 0.

Definition apart (a b : pmm_arena) : Prop :=
  (page_array a + npages a * sizeof_vm_page ≤ page_array b ∨ page_array b + npages b * sizeof_vm_page ≤ page_array a) ∧
  (ar_base a + ar_size a ≤ ar_base b ∨ ar_base b + ar_size b ≤ ar_base a).

Record geo_ok (a : pmm_arena) : Prop := {
  go_base : 0 ≤ ar_base a ∧ ar_base a mod PAGE_SIZE = 0;
  go_size : 0 < ar_size a ∧ ar_size a mod PAGE_SIZE = 0 ∧ ar_base a + ar_size a ≤ 2 ^ 64;
  go_array : 0 ≤ page_array a ∧ page_array a + npages a * sizeof_vm_page < 2 ^ 64 }.

Definition total_pages (l : list pmm_arena) : Z := foldr (λ a n, npages a + n) 0 l.

Record layout_ok (l : list pmm_arena) (boot : Z) : Prop := {
  lo_geo a : a ∈ l → geo_ok a;
  lo_apart i j a b : l !! i = Some a → l !! j = Some b → i ≠ j → apart a b;
  lo_total : total_pages l < 2 ^ 32;
  lo_boot a : a ∈ l → page_array a + npages a * sizeof_vm_page ≤ boot;
  lo_sorted : StronglySorted (λ a b, priority a ≤ priority b) l }.

Lemma npages_pos a : geo_ok a → 0 < npages a ∧ ar_size a = npages a * PAGE_SIZE.
Proof.
  intros [_ (H1 & H2 & _) _]. unfold npages. pose proof (Z.div_mod (ar_size a) PAGE_SIZE ltac:(unfold PAGE_SIZE; lia)). rewrite H2 in *. unfold PAGE_SIZE in *. lia.
Qed.

Lemma total_pages_cons a l : total_pages (a :: l) = npages a + total_pages l.
Proof. done. Qed.

Lemma total_pages_nonneg l : (∀ x, x ∈ l → 0 ≤ npages x) → 0 ≤ total_pages l.
Proof.
  induction l as [|c l IH]; intros Hp; [done|]. rewrite total_pages_cons. assert (0 ≤ npages c) by (apply Hp; by left). assert (0 ≤ total_pages l) by (apply IH; intros; apply Hp; by right). lia.
Qed.

Lemma total_pages_In l a : (∀ x, x ∈ l → 0 ≤ npages x) → a ∈ l → npages a ≤ total_pages l.
Proof.
  induction l as [|b l IH]; intros Hp Ha; [by apply not_elem_of_nil in Ha|]. rewrite total_pages_cons. assert (0 ≤ total_pages l) by (apply total_pages_nonneg; intros; apply Hp; by right). assert (0 ≤ npages b) by (apply Hp; by left).
  apply elem_of_cons in Ha as [->|Ha]; [lia|]. assert (npages a ≤ total_pages l) by (apply IH; [intros; apply Hp; by right|done]). lia.
Qed.

Lemma npages_small l boot a : layout_ok l boot → a ∈ l → 0 < npages a < 2 ^ 32.
Proof.
  intros Hl Ha. pose proof (npages_pos a (lo_geo _ _ Hl a Ha)) as [? _]. split; [done|]. pose proof (lo_total _ _ Hl). enough (npages a ≤ total_pages l) by lia. apply total_pages_In; [|done]. intros x Hx. pose proof (npages_pos x (lo_geo _ _ Hl x Hx)). lia.
Qed.

Lemma page_at_inj a i j : page_at a i = page_at a j → i = j.
Proof. unfold page_at, sizeof_vm_page. lia. Qed.

(** Pages belong to one arena. *)
Lemma belongs_spec a i : geo_ok a → 0 ≤ i < npages a → PAGE_BELONGS_TO_ARENA (page_at a i) a = true.
Proof.
  intros [_ _ Ha] Hi. unfold PAGE_BELONGS_TO_ARENA. rewrite u64_id by (unfold is_u64, sizeof_vm_page in *; lia). unfold page_at, sizeof_vm_page in *. apply andb_true_intro. split; [apply Z.leb_le; lia|apply Z.ltb_lt; lia].
Qed.

Lemma belongs_other a b i : geo_ok a → geo_ok b → apart a b → 0 ≤ i < npages a → PAGE_BELONGS_TO_ARENA (page_at a i) b = false.
Proof.
  intros Hga Hgb [Hap _] Hi. pose proof (npages_pos b Hgb) as [? _]. destruct Hgb as [_ _ Hb]. unfold PAGE_BELONGS_TO_ARENA. rewrite u64_id by (unfold is_u64, sizeof_vm_page in *; lia). unfold page_at, sizeof_vm_page in *. apply andb_false_iff. destruct Hap; [left; apply Z.leb_gt; lia|right; apply Z.ltb_ge; lia].
Qed.

Lemma page_address a i : geo_ok a → 0 ≤ i < npages a → PAGE_ADDRESS_FROM_ARENA (page_at a i) a = ar_base a + i * PAGE_SIZE.
Proof.
  intros Hg Hi. pose proof (npages_pos a Hg) as [_ Es]. destruct Hg as [Hb (_ & _ & Hs) _]. unfold PAGE_ADDRESS_FROM_ARENA, page_at. replace (page_array a + i * sizeof_vm_page - page_array a) with (i * sizeof_vm_page) by lia. rewrite Z.div_mul by (unfold sizeof_vm_page; lia).
  rewrite u64_id by (unfold is_u64, PAGE_SIZE in *; nia). lia.
Qed.

(** ** The invariant *)

Definition free_page : vm_page := mk_page true VM_PAGE_STATE_FREE.

Record arena_ok (m : gmap Z vm_page) (a : pmm_arena) : Prop := {
  ao_pages i : 0 ≤ i < npages a → is_Some (m !! page_at a i);
  ao_nodup : NoDup (free_list a);
  ao_free p : p ∈ free_list a ↔ (∃ i, 0 ≤ i < npages a ∧ p = page_at a i) ∧ m !! p = Some free_page;
  ao_count : free_count a = zlen (free_list a) }.

Record pmm_inv (s : pmm) : Prop := {
  pi_layout : layout_ok (geo <$> arenas s) (boot_alloc_end s);
  pi_arenas a : a ∈ arenas s → arena_ok (pages s) a;
  pi_linked p pg : pages s !! p = Some pg → pg_state pg = VM_PAGE_STATE_FREE → pg_linked pg = true;
  pi_owned p : is_Some (pages s !! p) → ∃ a i, a ∈ arenas s ∧ 0 ≤ i < npages a ∧ p = page_at a i }.

Lemma arena_geo s a : pmm_inv s → a ∈ arenas s → geo_ok a.
Proof. intros Hi Ha. assert (Hg : geo_ok (geo a)) by (apply (lo_geo _ _ (pi_layout _ Hi)), list_elem_of_fmap; eauto). by destruct Hg. Qed.

Lemma arena_small s a : pmm_inv s → a ∈ arenas s → 0 < npages a < 2 ^ 32.
Proof. intros Hi Ha. apply (npages_small _ _ (geo a) (pi_layout _ Hi)), list_elem_of_fmap. eauto. Qed.

Lemma arenas_apart s l1 a l2 b : pmm_inv s → arenas s = l1 ++ a :: l2 → b ∈ l1 ++ l2 → apart a b.
Proof.
  intros Hi El Hb. pose proof (lo_apart _ _ (pi_layout _ Hi)) as Hap. rewrite El in Hap. assert (Ha : (l1 ++ a :: l2) !! length l1 = Some a) by (by apply list_lookup_middle).
  assert (∃ j, (l1 ++ a :: l2) !! j = Some b ∧ j ≠ length l1) as (j & Hj & Hne).
  { apply elem_of_app in Hb as [Hb|Hb]; apply list_elem_of_lookup in Hb as [j Hj].
    - exists j. pose proof (lookup_lt_Some _ _ _ Hj). split; [by rewrite lookup_app_l|lia].
    - exists (length l1 + S j)%nat. split; [by rewrite lookup_app_r, Nat.add_comm, Nat.add_sub by lia|lia]. }
  apply (Hap (length l1) j (geo a) (geo b)); [by rewrite list_lookup_fmap, Ha|by rewrite list_lookup_fmap, Hj|done].
Qed.

(** The state of a page that is not of this arena does not matter to it. *)
Lemma arena_ok_insert m a p pg : arena_ok m a → (∀ i, 0 ≤ i < npages a → p ≠ page_at a i) → arena_ok (<[p := pg]> m) a.
Proof.
  intros [A1 A2 A3 A4] Hp. split; [| done| |done].
  - intros i Hi. rewrite lookup_insert_ne by (by apply Hp). auto.
  - intros q. rewrite A3. split; intros [(i & Hi & ->) Hq]; (split; [eauto|]); rewrite lookup_insert_ne in *; auto.
Qed.

Lemma pages_apart a b i j : apart a b → 0 ≤ i < npages a → 0 ≤ j < npages b → page_at a i ≠ page_at b j.
Proof. intros [Hap _] Hi Hj. unfold page_at, sizeof_vm_page in *. lia. Qed.

(** An update of one page and of the free list of its arena. *)
Lemma update_inv s l1 a l2 p i pg fl n :
  pmm_inv s → arenas s = l1 ++ a :: l2 → 0 ≤ i < npages a → p = page_at a i → (pg_state pg = VM_PAGE_STATE_FREE → pg_linked pg = true) →
  NoDup fl → (∀ q, q ≠ p → q ∈ fl ↔ q ∈ free_list a) → (p ∈ fl ↔ pg = free_page) → n = zlen fl →
  pmm_inv (mk_pmm (l1 ++ set_free a fl n :: l2) (<[p := pg]> (pages s)) (boot_alloc_end s)).
Proof.
  intros Hi El Hb Ep Hpg Hnd Hfl Hp Hn. destruct Hi as [I1 I2 I3 I4]. split; cbn [arenas pages boot_alloc_end].
  - rewrite El in I1. by rewrite fmap_app in *.
  - intros b Hb'. assert (Hcase : b = set_free a fl n ∨ b ∈ l1 ++ l2) by (rewrite elem_of_app, elem_of_cons in Hb'; rewrite elem_of_app; tauto). destruct Hcase as [->|Hother].
    + destruct (I2 a) as [A1 A2 A3 A4]; [rewrite El; set_solver|]. split; cbn [free_list free_count set_free npages ar_size page_array]; [| done| |done].
      * intros j Hj. destruct (decide (page_at a j = p)) as [<-|Hne]; [rewrite lookup_insert_eq; eauto|rewrite lookup_insert_ne by (by apply not_eq_sym); by apply A1].
      * intros q. destruct (decide (q = p)) as [->|Hne].
        -- rewrite lookup_insert_eq, Hp. split; [intros ->; split; [exists i; by split|done]|by intros [_ [= ->]]].
        -- rewrite Hfl, A3 by done. rewrite lookup_insert_ne by (by apply not_eq_sym). done.
    + apply arena_ok_insert; [apply I2; rewrite El; set_solver|]. intros j Hj. rewrite Ep. apply (pages_apart a b); [|done|done]. apply (arenas_apart s l1 a l2); [by split|done|done].
  - intros q qg. rewrite lookup_insert_Some. intros [[<- <-]|[_ Hq]]; [done|eauto].
  - intros q Hq. assert (Hq' : q = p ∨ is_Some (pages s !! q)) by (destruct (decide (q = p)); [by left|right; by rewrite lookup_insert_ne in Hq]). destruct Hq' as [->|Hq'].
    + exists (set_free a fl n), i. split; [set_solver|]. by split.
    + destruct (I4 q Hq') as (b & j & Hb' & Hj & ->). rewrite El in Hb'. apply elem_of_app in Hb' as [?|[->|?]%elem_of_cons]; [exists b, j|exists (set_free a fl n), j|exists b, j]; (split; [set_solver|by split]).
Qed.

Lemma free_short s a : pmm_inv s → a ∈ arenas s → zlen (free_list a) ≤ npages a.
Proof.
  intros Hi Ha. pose proof (pi_arenas _ Hi a Ha) as Hok. pose proof (arena_small s a Hi Ha). assert (Hle : (length (free_list a) ≤ length (page_at a <$> seqZ 0 (npages a)))%nat).
  - apply submseteq_length, NoDup_submseteq; [apply (ao_nodup _ _ Hok)|]. intros x Hx. apply (ao_free _ _ Hok) in Hx as [(j & Hj & ->) _]. apply list_elem_of_fmap. exists j. split; [done|]. apply elem_of_seqZ. lia.
  - rewrite length_fmap, length_seqZ in Hle. unfold zlen. lia.
Qed.

(** ** Claims *)

(** A free page is taken off its list. *)
Definition claimed (lk : bool) (s : pmm) (p : Z) (s' : pmm) : Prop :=
  ∃ l1 a l2, arenas s = l1 ++ a :: l2 ∧ p ∈ free_list a ∧
    s' = mk_pmm (l1 ++ set_free a (filter (λ x, x ≠ p) (free_list a)) (u64 (free_count a - 1)) :: l2) (<[p := mk_page lk VM_PAGE_STATE_ALLOC]> (pages s)) (boot_alloc_end s).

Inductive claims (lk : bool) : pmm → list Z → pmm → Prop :=
| claims_nil s : claims lk s [] s
| claims_cons s p s1 ps s2 : claimed lk s p s1 → claims lk s1 ps s2 → claims lk s (p :: ps) s2.

Lemma claimed_inv lk s p s' : pmm_inv s → claimed lk s p s' → pmm_inv s'.
Proof.
  intros Hi (l1 & a & l2 & El & Hp & ->). assert (Ha : a ∈ arenas s) by (rewrite El; set_solver). pose proof (pi_arenas _ Hi a Ha) as Hok. pose proof (proj1 (ao_free _ _ Hok p) Hp) as [(i & Hb & Ep) _].
  pose proof (filter_ne_zlen p _ (ao_nodup _ _ Hok) Hp) as Hlen. apply (update_inv s l1 a l2 p i); try done.
  - apply NoDup_filter, (ao_nodup _ _ Hok).
  - intros q Hq. rewrite list_elem_of_filter. tauto.
  - rewrite list_elem_of_filter. split; [tauto|done].
  - rewrite Hlen, (ao_count _ _ Hok). apply u64_id. pose proof (zlen_nonneg (filter (λ x, x ≠ p) (free_list a))). pose proof (free_short s a Hi Ha). pose proof (arena_small s a Hi Ha). unfold is_u64. lia.
Qed.

Lemma claims_inv lk s ps s' : pmm_inv s → claims lk s ps s' → pmm_inv s'.
Proof. intros Hi. induction 1 as [|s p s1 ps s2 Hc _ IH]; [done|]. apply IH. by eapply claimed_inv. Qed.

Lemma claims_app lk s ps s1 qs s2 : claims lk s ps s1 → claims lk s1 qs s2 → claims lk s (ps ++ qs) s2.
Proof. induction 1 as [|s p s1' ps s2' Hc _ IH]; [done|]. intros Hq. cbn. econstructor; [exact Hc|by apply IH]. Qed.

Lemma claims_layout lk s ps s' : claims lk s ps s' → geo <$> arenas s' = geo <$> arenas s.
Proof. induction 1 as [|s p s1 ps s2 (l1 & a & l2 & El & _ & ->) _ IH]; [done|]. rewrite IH. cbn [arenas]. rewrite El, !fmap_app. done. Qed.

(** The pages were free and different, and nothing else changes. *)
Lemma claims_pages lk s ps s' : pmm_inv s → claims lk s ps s' →
  NoDup ps ∧ (∀ p, p ∈ ps → pages s !! p = Some free_page) ∧ ∀ p, pages s' !! p = if decide (p ∈ ps) then Some (mk_page lk VM_PAGE_STATE_ALLOC) else pages s !! p.
Proof.
  intros Hi. induction 1 as [s|s p s1 ps s2 Hc _ IH]; [by split; [constructor|split; [intros ? ?%not_elem_of_nil|]]|]. destruct (IH (claimed_inv _ _ _ _ Hi Hc)) as (Hnd & Hfree & Hall). pose proof Hc as (l1 & a & l2 & El & Hp & ->). cbn [pages] in *.
  assert (Hpf : pages s !! p = Some free_page) by (apply (ao_free _ _ (pi_arenas _ Hi a ltac:(rewrite El; set_solver))); done).
  assert (Hn : p ∉ ps) by (intros Hx; specialize (Hfree p Hx); by rewrite lookup_insert_eq in Hfree). split_and!.
  - by apply list.NoDup_cons.
  - intros q [->|Hq]%elem_of_cons; [done|]. specialize (Hfree q Hq). rewrite lookup_insert_ne in Hfree by (intros ->; done). done.
  - intros q. rewrite Hall. destruct (decide (q = p)) as [->|Hne].
    + rewrite decide_False, decide_True by (done || by left). by rewrite lookup_insert_eq.
    + rewrite lookup_insert_ne by (by apply not_eq_sym). apply decide_ext. rewrite elem_of_cons. tauto.
Qed.

(** ** Pages and addresses *)

Lemma belongs_iff s l1 a l2 i b : pmm_inv s → arenas s = l1 ++ a :: l2 → 0 ≤ i < npages a → b ∈ l1 ++ l2 → PAGE_BELONGS_TO_ARENA (page_at a i) b = false.
Proof.
  intros Hi El Hb Hin. apply belongs_other; [|apply (arena_geo s); [done|]|by apply (arenas_apart s l1 a l2)|done]; [apply (arena_geo s); [done|]|]; rewrite El; set_solver.
Qed.

Lemma to_paddr s a i : pmm_inv s → a ∈ arenas s → 0 ≤ i < npages a → vm_page_to_paddr s (page_at a i) = ar_base a + i * PAGE_SIZE.
Proof.
  intros Hi Ha Hb. pose proof (arena_geo s a Hi Ha) as Hg. pose proof Ha as (l1 & l2 & El)%list_elem_of_split. unfold vm_page_to_paddr.
  assert (E : list_find (λ b, PAGE_BELONGS_TO_ARENA (page_at a i) b = true) (arenas s) = Some (length l1, a)); [|rewrite E; by apply page_address].
  apply list_find_Some. rewrite El. split; [by apply list_lookup_middle|]. split; [by apply belongs_spec|]. intros j b Hj Hlt. rewrite lookup_app_l in Hj by done. rewrite (belongs_iff s l1 a l2 i b); [done|done|done|done|]. apply elem_of_app. left. by eapply list_elem_of_lookup_2.
Qed.

Lemma in_arena x a : geo_ok a → ADDRESS_IN_ARENA x a = true ↔ ar_base a ≤ x < ar_base a + ar_size a.
Proof. intros [Hb Hs _]. unfold ADDRESS_IN_ARENA. rewrite u64_id by (unfold is_u64; lia). rewrite andb_true_iff, Z.leb_le, Z.leb_le. lia. Qed.

Lemma of_paddr s a x : pmm_inv s → a ∈ arenas s → ar_base a ≤ x < ar_base a + ar_size a → paddr_to_vm_page s x = Some (page_at a ((x - ar_base a) / PAGE_SIZE)).
Proof.
  intros Hi Ha Hx. pose proof Ha as (l1 & l2 & El)%list_elem_of_split. unfold paddr_to_vm_page.
  assert (E : list_find (λ b, ADDRESS_IN_ARENA x b = true) (arenas s) = Some (length l1, a)); [|by rewrite E].
  apply list_find_Some. rewrite El. split; [by apply list_lookup_middle|]. split; [apply in_arena; [by apply (arena_geo s)|done]|]. intros j b Hj Hlt Hin. rewrite lookup_app_l in Hj by done. assert (Hb : b ∈ l1 ++ l2) by (apply elem_of_app; left; by eapply list_elem_of_lookup_2).
  apply in_arena in Hin; [|apply (arena_geo s); [done|rewrite El; set_solver]]. destruct (arenas_apart s l1 a l2 b Hi El Hb) as [_ ?]. lia.
Qed.

(** The index of an address. *)
Lemma page_index a x : geo_ok a → ar_base a ≤ x < ar_base a + ar_size a → 0 ≤ (x - ar_base a) / PAGE_SIZE < npages a.
Proof.
  intros Hg Hx. pose proof (npages_pos a Hg) as [_ Es]. split; [apply Z.div_pos; unfold PAGE_SIZE; lia|]. apply Z.div_lt_upper_bound; [unfold PAGE_SIZE; lia|]. lia.
Qed.

(** ** Single pages *)

Lemma claimed_head s l1 a l2 p fl m b :
  s = mk_pmm (l1 ++ a :: l2) m b → pmm_inv s → free_list a = p :: fl → ∀ lk,
  claimed lk s p (mk_pmm (l1 ++ set_free a fl (u64 (free_count a - 1)) :: l2) (<[p := mk_page lk VM_PAGE_STATE_ALLOC]> m) b) ∧ m !! p = Some free_page ∧ ∃ i, 0 ≤ i < npages a ∧ p = page_at a i.
Proof.
  intros -> Hi Hfl lk. assert (Ha : a ∈ l1 ++ a :: l2) by set_solver. pose proof (pi_arenas _ Hi a Ha) as [_ Hnd Hf _]. rewrite Hfl in Hnd, Hf. apply list.NoDup_cons in Hnd as [Hn _]. destruct (proj1 (Hf p) ltac:(by left)) as [Hx Hp]. split; [|by split].
  exists l1, a, l2. split; [done|]. split; [rewrite Hfl; by left|]. rewrite Hfl, filter_cons_False by tauto. by rewrite filter_ne_id.
Qed.

Lemma alloc_page_ok flags l : ∀ pre m b, let s := mk_pmm (pre ++ l) m b in pmm_inv s →
  ∃ r l1 m1, alloc_page_in l m flags = Some (r, l1, m1) ∧
    match r with
    | Some (p, pa) => claimed false s p (mk_pmm (pre ++ l1) m1 b) ∧ vm_page_to_paddr s p = pa ∧ ∃ a, a ∈ l ∧ eligible flags a = true ∧ p ∈ free_list a
    | None => l1 = l ∧ m1 = m ∧ ∀ a, a ∈ l → eligible flags a = true → free_list a = []
    end.
Proof.
  induction l as [|a l IH]; intros pre m b s Hi; [eexists _, _, _; split; [done|]; split_and!; try done; by intros a ?%not_elem_of_nil|]. cbn [alloc_page_in].
  assert (Hnext : (eligible flags a = true → free_list a = []) → ∃ r l1 m1, ('(r, l1, m1) ← alloc_page_in l m flags; Some (r, a :: l1, m1)) = Some (r, l1, m1) ∧
    match r with
    | Some (p, pa) => claimed false s p (mk_pmm (pre ++ l1) m1 b) ∧ vm_page_to_paddr s p = pa ∧ ∃ a', a' ∈ a :: l ∧ eligible flags a' = true ∧ p ∈ free_list a'
    | None => l1 = a :: l ∧ m1 = m ∧ ∀ a', a' ∈ a :: l → eligible flags a' = true → free_list a' = []
    end).
  { intros Hskip. destruct (IH (pre ++ [a]) m b) as (r & l1 & m1 & E & Hr); [by rewrite <- app_assoc|]. rewrite <- app_assoc in Hr. cbn in Hr. rewrite E. cbn [mbind option_bind]. eexists _, _, _. split; [done|]. destruct r as [[p pa]|].
    - destruct Hr as (Hc & Hpa & a' & Ha' & ? & ?). rewrite <- app_assoc in Hc. split_and!; [done|done|]. exists a'. split; [by right|done].
    - destruct Hr as (-> & -> & Hr). split_and!; [done|done|]. intros a' [->|Ha']%elem_of_cons; auto. }
  destruct (eligible flags a) eqn:Eel; cbn [negb]; [|by apply Hnext]. destruct (free_list a) as [|p fl] eqn:Efl; [by apply Hnext|].
  destruct (claimed_head s pre a l p fl m b eq_refl Hi Efl false) as (Hc & Hp & i & Hi' & ->). rewrite Hp. cbn [mbind option_bind]. eexists _, _, _. split; [done|]. cbv beta iota. split; [exact Hc|]. assert (Ha : a ∈ pre ++ a :: l) by set_solver. split.
  - rewrite to_paddr by done. symmetry. apply page_address; [by apply (arena_geo s)|done].
  - exists a. split; [by left|]. split; [done|]. rewrite Efl. by left.
Qed.

(** ** Many pages *)

Lemma take_pages_ok fl : ∀ fc a pre suf m b allocated count lst, let s := mk_pmm (pre ++ set_free a fl fc :: suf) m b in pmm_inv s → 0 ≤ allocated ≤ count → allocated + zlen fl < 2 ^ 32 →
  ∃ ps fl' fc' m', take_pages fl fc m allocated count lst = Some (allocated + zlen ps <? count, fl', fc', m', allocated + zlen ps, lst ++ ps) ∧
    zlen ps = Z.min (count - allocated) (zlen fl) ∧ claims true s ps (mk_pmm (pre ++ set_free a fl' fc' :: suf) m' b) ∧ ∀ q, q ∈ ps → q ∈ fl.
Proof.
  induction fl as [|p fl IH]; intros fc a pre suf m b allocated count lst s Hi Hal Hb; cbn [take_pages].
  - exists [], [], fc, m. rewrite app_nil_r. change (zlen []) with 0. rewrite Z.add_0_r. split; [done|]. split; [change (zlen []) with 0; lia|split; [constructor|done]].
  - assert (Ez : zlen (p :: fl) = zlen fl + 1) by (unfold zlen; cbn; lia). pose proof (zlen_nonneg fl). destruct (allocated <? count) eqn:E; zb.
    + destruct (claimed_head s pre (set_free a (p :: fl) fc) suf p fl m b eq_refl Hi eq_refl true) as (Hc & Hp & _). rewrite Hp. cbn [mbind option_bind]. rewrite u32_id by (unfold is_u32; lia).
      destruct (IH (u64 (fc - 1)) a pre suf (<[p := mk_page true VM_PAGE_STATE_ALLOC]> m) b (allocated + 1) count (lst ++ [p])) as (ps & fl' & fc' & m' & E' & Hlen & Hcl & Hsub); [by eapply claimed_inv|lia|lia|].
      exists (p :: ps), fl', fc', m'. assert (Ep : zlen (p :: ps) = zlen ps + 1) by (unfold zlen; cbn; lia). rewrite Ep. replace (allocated + (zlen ps + 1)) with (allocated + 1 + zlen ps) by lia. split; [rewrite <- app_assoc in E'; exact E'|]. split; [lia|]. split; [econstructor; [exact Hc|exact Hcl]|]. intros q [->|Hq]%elem_of_cons; [by left|right; auto].
    + exists [], (p :: fl), fc, m. change (zlen []) with 0. rewrite app_nil_r, Z.add_0_r. rewrite (proj2 (Z.ltb_ge _ _)) by lia. split; [done|]. split; [lia|split; [constructor|by intros ? ?%not_elem_of_nil]].
Qed.

Lemma set_free_id a : set_free a (free_list a) (free_count a) = a.
Proof. by destruct a. Qed.

Lemma alloc_pages_done l m flags count lst : alloc_pages_in l m flags count count lst = Some (count, lst, l, m).
Proof.
  induction l as [|a l IH]; [done|]. cbn [alloc_pages_in]. destruct (eligible flags a); cbn [negb]; [|by rewrite IH].
  assert (E : take_pages (free_list a) (free_count a) m count count lst = Some (false, free_list a, free_count a, m, count, lst)) by (destruct (free_list a); cbn; by rewrite Z.ltb_irrefl). rewrite E. cbn [mbind option_bind]. rewrite IH. cbn [mbind option_bind]. by rewrite set_free_id.
Qed.

(** The number of free pages of the first arena that may be used. *)
Fixpoint first_free (flags : Z) (l : list pmm_arena) : Z :=
  match l with [] => 0 | a :: l' => if eligible flags a then zlen (free_list a) else first_free flags l' end.

Lemma alloc_pages_ok flags count lst l : 0 ≤ count → ∀ pre m b, let s := mk_pmm (pre ++ l) m b in pmm_inv s →
  ∃ ps l1 m1, alloc_pages_in l m flags 0 count lst = Some (zlen ps, lst ++ ps, l1, m1) ∧ zlen ps = Z.min count (first_free flags l) ∧ claims true s ps (mk_pmm (pre ++ l1) m1 b) ∧ ∀ q, q ∈ ps → ∃ a, a ∈ l ∧ eligible flags a = true ∧ q ∈ free_list a.
Proof.
  intros Hc. induction l as [|a l IH]; intros pre m b s Hi; cbn [alloc_pages_in first_free].
  - exists [], [], m. rewrite app_nil_r. split; [done|]. split; [change (zlen []) with 0; lia|split; [constructor|by intros ? ?%not_elem_of_nil]].
  - destruct (eligible flags a) eqn:Eel; cbn [negb].
    + assert (Ha : a ∈ pre ++ a :: l) by set_solver. pose proof (free_short s a Hi Ha). pose proof (arena_small s a Hi Ha). pose proof (zlen_nonneg (free_list a)).
      destruct (take_pages_ok (free_list a) (free_count a) a pre l m b 0 count lst) as (ps & fl' & fc' & m' & E & Hlen & Hcl & Hsub); [by rewrite set_free_id|lia|lia|]. assert (Hel : ∀ q, q ∈ ps → ∃ a0, a0 ∈ a :: l ∧ eligible flags a0 = true ∧ q ∈ free_list a0) by (intros q Hq; exists a; split; [by left|split; [done|auto]]). rewrite set_free_id in Hcl. rewrite E. cbn [mbind option_bind]. rewrite !Z.add_0_l, Z.sub_0_r in *.
      destruct (zlen ps <? count) eqn:Es; zb.
      * exists ps, (set_free a fl' fc' :: l), m'. split; [done|]. split; [done|]. split; [exact Hcl|done].
      * assert (Ec : zlen ps = count) by lia. rewrite Ec, alloc_pages_done. cbn [mbind option_bind]. exists ps, (set_free a fl' fc' :: l), m'. rewrite Ec. split; [done|]. split; [lia|]. split; [exact Hcl|done].
    + destruct (IH (pre ++ [a]) m b) as (ps & l1 & m1 & E & Hlen & Hcl & Hel); [by rewrite <- app_assoc|]. rewrite E. cbn [mbind option_bind]. exists ps, (a :: l1), m1. rewrite <- !app_assoc in Hcl. split; [done|]. split; [done|]. split; [done|]. intros q Hq. destruct (Hel q Hq) as (a0 & ? & ?). exists a0. split; [by right|done].
Qed.

(** ** Ranges *)

(** The pages from index [i] of an arena on. *)
Definition pages_from (a : pmm_arena) (i : Z) (n : nat) : list Z := (λ j, page_at a (i + Z.of_nat j)) <$> seq 0 n.

Lemma pages_from_S a i n : pages_from a i (S n) = page_at a i :: pages_from a (i + 1) n.
Proof.
  unfold pages_from. rewrite <- cons_seq. rewrite fmap_cons, Z.add_0_r. f_equal. rewrite <- fmap_S_seq, <- list_fmap_compose. apply list_fmap_ext. intros j x _. cbn. f_equal. lia.
Qed.

Lemma pages_from_elem a i n p : p ∈ pages_from a i n ↔ ∃ j, i ≤ j < i + Z.of_nat n ∧ p = page_at a j.
Proof.
  unfold pages_from. rewrite list_elem_of_fmap. split.
  - intros (j & -> & Hj%elem_of_seq). exists (i + Z.of_nat j). split; [lia|done].
  - intros (j & Hj & ->). exists (Z.to_nat (j - i)). split; [f_equal; lia|apply elem_of_seq; lia].
Qed.

(** One free page of an arena. *)
Lemma claim_page_ok pre a suf m b i lst : let s := mk_pmm (pre ++ a :: suf) m b in pmm_inv s → 0 ≤ i < npages a → m !! page_at a i = Some free_page →
  ∃ a' m', claim_page a m (page_at a i) lst = Some (a', m', (λ l, l ++ [page_at a i]) <$> lst) ∧ geo a' = geo a ∧ claimed (bool_decide (is_Some lst)) s (page_at a i) (mk_pmm (pre ++ a' :: suf) m' b) ∧
    (∀ q, q ≠ page_at a i → m' !! q = m !! q).
Proof.
  intros s Hi Hb Hf. unfold claim_page. rewrite Hf. cbn [mbind option_bind pg_linked free_page]. assert (Ha : a ∈ arenas s) by (unfold s; cbn; set_solver).
  assert (Hp : page_at a i ∈ free_list a) by (apply (ao_free _ _ (pi_arenas _ Hi a Ha)); eauto). rewrite bool_decide_eq_true_2 by done. eexists _, _. split; [done|]. split; [done|]. split; [by exists pre, a, suf|]. intros q Hq. by rewrite lookup_insert_ne.
Qed.

Lemma lst_app (lst : option (list Z)) ps qs : (λ l, l ++ qs) <$> ((λ l, l ++ ps) <$> lst) = (λ l, l ++ ps ++ qs) <$> lst.
Proof. destruct lst; [|done]. cbn. by rewrite <- app_assoc. Qed.

Lemma lst_some (lst : option (list Z)) f : bool_decide (is_Some ((f : list Z → list Z) <$> lst)) = bool_decide (is_Some lst).
Proof. by destruct lst. Qed.

Lemma lst_nil (lst : option (list Z)) : (λ l, l ++ []) <$> lst = lst.
Proof. destruct lst; [|done]. cbn. by rewrite app_nil_r. Qed.

Lemma npages_geo a a' : geo a' = geo a → npages a' = npages a ∧ ar_base a' = ar_base a ∧ ar_size a' = ar_size a ∧ page_array a' = page_array a.
Proof. intros E. unfold npages. injection E as _ _ -> -> ->. done. Qed.

Lemma pages_from_geo a a' i n : geo a' = geo a → pages_from a' i n = pages_from a i n.
Proof. intros E. destruct (npages_geo a a' E) as (_ & _ & _ & Ea). unfold pages_from, page_at. by rewrite Ea. Qed.

(** Where the loop stops: it has all pages, it is past the arena, or the page is not
    free. *)
Definition range_stop (a : pmm_arena) (m : gmap Z vm_page) (i allocated count : Z) : Prop :=
  count ≤ allocated ∨ npages a ≤ i ∨ m !! page_at a i ≠ Some free_page.

Lemma range_loop_ok fuel : ∀ pre a suf m b i allocated count lst, let s := mk_pmm (pre ++ a :: suf) m b in
  pmm_inv s → 0 ≤ i ≤ npages a → 0 ≤ allocated → allocated + Z.of_nat fuel ≤ 2 ^ 32 → npages a - i < Z.of_nat fuel →
  ∃ n a' m', range_loop fuel a m (u64 (ar_base a + i * PAGE_SIZE)) allocated count lst = Some (a', m', u64 (ar_base a + (i + Z.of_nat n) * PAGE_SIZE), allocated + Z.of_nat n, (λ l, l ++ pages_from a i n) <$> lst) ∧
    geo a' = geo a ∧ claims (bool_decide (is_Some lst)) s (pages_from a i n) (mk_pmm (pre ++ a' :: suf) m' b) ∧ i + Z.of_nat n ≤ npages a ∧ range_stop a m (i + Z.of_nat n) (allocated + Z.of_nat n) count ∧ (allocated ≤ count → allocated + Z.of_nat n ≤ count).
Proof.
  induction fuel as [|fuel IH]; intros pre a suf m b i allocated count lst s Hi Hb Hal Hb32 Hf; [lia|]. assert (Ha : a ∈ arenas s) by (unfold s; cbn; set_solver). pose proof (arena_geo s a Hi Ha) as Hg. pose proof (npages_pos a Hg) as [Hn Es]. cbn [range_loop].
  assert (Hstop : range_stop a m i allocated count → ∃ n a' m', Some (a, m, u64 (ar_base a + i * PAGE_SIZE), allocated, lst) = Some (a', m', u64 (ar_base a + (i + Z.of_nat n) * PAGE_SIZE), allocated + Z.of_nat n, (λ l, l ++ pages_from a i n) <$> lst) ∧
    geo a' = geo a ∧ claims (bool_decide (is_Some lst)) s (pages_from a i n) (mk_pmm (pre ++ a' :: suf) m' b) ∧ i + Z.of_nat n ≤ npages a ∧ range_stop a m (i + Z.of_nat n) (allocated + Z.of_nat n) count ∧ (allocated ≤ count → allocated + Z.of_nat n ≤ count)).
  { intros Hstop. exists 0%nat, a, m. rewrite !Z.add_0_r. change (pages_from a i 0) with (@nil Z). rewrite lst_nil. split; [done|]. split; [done|]. split; [apply claims_nil|]. split; [lia|]. split; [done|lia]. }
  destruct (_ && _) eqn:E.
  - apply andb_prop in E as [Ec%Z.ltb_lt Ein]. destruct (decide (i = npages a)) as [->|Hlt].
    { exfalso. pose proof (arena_small s a Hi Ha). apply in_arena in Ein; [|done]. destruct Hg as [[Hb0 _] (_ & _ & Hw) _]. rewrite <- Es in Ein. destruct (decide (ar_base a + ar_size a = 2 ^ 64)) as [Ew|]; [rewrite Ew in Ein; change (u64 (2 ^ 64)) with 0 in Ein; unfold PAGE_SIZE in *; lia|]. rewrite u64_id in Ein by (unfold is_u64; lia). lia. }
    assert (Hx : ar_base a + i * PAGE_SIZE < ar_base a + ar_size a) by (unfold PAGE_SIZE in *; nia). assert (Eu : u64 (ar_base a + i * PAGE_SIZE) = ar_base a + i * PAGE_SIZE) by (apply u64_id; destruct Hg; unfold is_u64, PAGE_SIZE in *; nia). rewrite Eu.
    replace ((ar_base a + i * PAGE_SIZE - ar_base a) / PAGE_SIZE) with i by (replace (ar_base a + i * PAGE_SIZE - ar_base a) with (i * PAGE_SIZE) by lia; by rewrite Z.div_mul). rewrite (proj2 (Z.ltb_lt i _)) by lia.
    destruct (ao_pages _ _ (pi_arenas _ Hi a Ha) i ltac:(lia)) as [pg Hpg]. cbn [pages s] in Hpg. rewrite Hpg. cbn [mbind option_bind]. destruct (page_is_free pg) eqn:Ef; cbn [negb].
    + assert (Hfree : m !! page_at a i = Some free_page). { unfold page_is_free in Ef. apply bool_decide_eq_true in Ef. pose proof (pi_linked _ Hi _ _ Hpg Ef). rewrite Hpg. destruct pg. cbn in *. by subst. }
      destruct (claim_page_ok pre a suf m b i lst Hi ltac:(lia) Hfree) as (a1 & m1 & E1 & Hgeo & Hc & Hother). rewrite E1. cbn [mbind option_bind]. rewrite (u32_id (allocated + 1)) by (unfold is_u32; lia). destruct (npages_geo a a1 Hgeo) as (En & Eb & _ & Ea).
      replace (u64 (ar_base a + i * PAGE_SIZE + PAGE_SIZE)) with (u64 (ar_base a1 + (i + 1) * PAGE_SIZE)) by (rewrite Eb; f_equal; lia).
      destruct (IH pre a1 suf m1 b (i + 1) (allocated + 1) count ((λ l, l ++ [page_at a i]) <$> lst)) as (n & a2 & m2 & E2 & Hgeo2 & Hcl & Hle & Hst & Hcnt); [by eapply claimed_inv|lia|lia|lia|lia|].
      exists (S n), a2, m2. rewrite E2, lst_app, Eb. rewrite (pages_from_geo a a1) by done. rewrite pages_from_S. replace (i + Z.of_nat (S n)) with (i + 1 + Z.of_nat n) by lia. replace (allocated + Z.of_nat (S n)) with (allocated + 1 + Z.of_nat n) by lia.
      split; [done|]. split; [congruence|]. split; [econstructor; [exact Hc|]; rewrite lst_some, (pages_from_geo a a1) in Hcl by done; exact Hcl|]. split; [lia|]. split; [|lia]. unfold range_stop in *. rewrite En in Hst. destruct Hst as [?|[?|Hst]]; [by left|by right; left|]. right. right.
      unfold page_at in *. rewrite Ea in Hst. rewrite Hother in Hst by (unfold sizeof_vm_page; lia). done.
    + rewrite <- Eu. apply Hstop. right. right. rewrite Hpg. intros [= ->]. done.
  - apply Hstop. apply andb_false_iff in E as [E%Z.ltb_ge|E]; [by left|]. right. left. apply not_true_iff_false in E. rewrite in_arena in E by done. destruct (decide (i < npages a)) as [Hlt|]; [|lia]. exfalso. apply E. rewrite u64_id by (destruct Hg; unfold is_u64, PAGE_SIZE in *; nia). destruct Hg. unfold PAGE_SIZE in *. nia.
Qed.

Lemma range_loop_out fuel a m address allocated count lst :
  geo_ok a → ¬ (ar_base a ≤ address < ar_base a + ar_size a) → range_loop (S fuel) a m address allocated count lst = Some (a, m, address, allocated, lst).
Proof. intros Hg Hn. cbn [range_loop]. destruct (ADDRESS_IN_ARENA address a) eqn:E; [by apply in_arena in E|]. by rewrite andb_false_r. Qed.

(** The [j]th page of a list has the [j]th address from [A] on. *)
Definition at_addresses (l : list pmm_arena) (A : Z) (ps : list Z) : Prop :=
  ∀ j p, ps !! j = Some p → ∃ a i, a ∈ l ∧ 0 ≤ i < npages a ∧ p = page_at a i ∧ ar_base a + i * PAGE_SIZE = u64 (A + Z.of_nat j * PAGE_SIZE).

Lemma at_addresses_from l a i n A : a ∈ l → geo_ok a → 0 ≤ i → i + Z.of_nat n ≤ npages a → ar_base a + i * PAGE_SIZE = A → at_addresses l A (pages_from a i n).
Proof.
  intros Ha Hg Hi Hn <- j p Hj. unfold pages_from in Hj. rewrite list_lookup_fmap in Hj. destruct (seq 0 n !! j) as [k|] eqn:E; [|done]. injection Hj as <-. apply lookup_seq in E as [-> Hlt]. pose proof (npages_pos a Hg) as [_ Es]. exists a, (i + Z.of_nat j).
  split; [done|]. split; [lia|]. split; [done|]. destruct Hg as [Hb (_ & _ & Hs) _]. rewrite u64_id; unfold is_u64, PAGE_SIZE in *; lia.
Qed.

Lemma at_addresses_app l A ps qs : at_addresses l A ps → at_addresses l (A + zlen ps * PAGE_SIZE) qs → at_addresses l A (ps ++ qs).
Proof.
  intros Hp Hq j p. rewrite lookup_app. destruct (ps !! j) as [x|] eqn:E; [intros [= <-]; by apply Hp|]. apply lookup_ge_None in E. intros Hj. destruct (Hq _ _ Hj) as (a & i & ? & ? & ? & Ea). exists a, i. split; [done|]. split; [done|]. split; [done|]. rewrite Ea. f_equal. unfold zlen, PAGE_SIZE. lia.
Qed.

Lemma at_addresses_u64 l A ps : at_addresses l (u64 A) ps → at_addresses l A ps.
Proof. intros Hp j p Hj. destruct (Hp j p Hj) as (a & i & ? & ? & ? & Ea). exists a, i. split; [done|]. split; [done|]. split; [done|]. rewrite Ea. unfold u64. by rewrite Zplus_mod_idemp_l. Qed.

Lemma at_addresses_mono l l' A ps : (∀ a, a ∈ l → a ∈ l') → at_addresses l A ps → at_addresses l' A ps.
Proof. intros Hl Hp j p Hj. destruct (Hp j p Hj) as (a & i & ? & ?). exists a, i. split; [auto|done]. Qed.

(** The range lies in one arena, and its pages are free. *)
Definition range_free (m : gmap Z vm_page) (a : pmm_arena) (A n : Z) : Prop :=
  ar_base a ≤ A ∧ A + n * PAGE_SIZE ≤ ar_base a + ar_size a ∧ ∀ i, (A - ar_base a) / PAGE_SIZE ≤ i < (A - ar_base a) / PAGE_SIZE + n → m !! page_at a i = Some free_page.

Lemma u64_idemp x y : u64 (u64 x + y) = u64 (x + y).
Proof. unfold u64. apply Zplus_mod_idemp_l. Qed.

Lemma u64_mod_page x : x mod PAGE_SIZE = 0 → u64 x mod PAGE_SIZE = 0.
Proof. intros Hx. unfold u64, PAGE_SIZE in *. rewrite <- Znumtheory.Zmod_div_mod; [done|lia|lia|]. by exists (2 ^ 52). Qed.

Lemma alloc_range_ok l : ∀ pre m b A allocated count lst, let s := mk_pmm (pre ++ l) m b in
  pmm_inv s → A mod PAGE_SIZE = 0 → 0 ≤ A < 2 ^ 64 → 0 ≤ allocated < count → allocated + total_pages l < 2 ^ 32 →
  ∃ ps l1 m1, alloc_range_in l m A allocated count lst = Some (allocated + zlen ps, (λ x, x ++ ps) <$> lst, l1, m1) ∧ claims (bool_decide (is_Some lst)) s ps (mk_pmm (pre ++ l1) m1 b) ∧ at_addresses l A ps ∧
    allocated + zlen ps ≤ count ∧ (∀ a, a ∈ l → range_free m a A (count - allocated) → allocated + zlen ps = count).
Proof.
  induction l as [|a l IH]; intros pre m b A allocated count lst s Hi HA HA' Hal Htot; cbn [alloc_range_in].
  { exists [], [], m. rewrite lst_nil. change (zlen []) with 0. rewrite Z.add_0_r. split; [done|]. split; [apply claims_nil|]. split; [by intros j p ?|]. split; [lia|]. by intros a ?%not_elem_of_nil. }
  assert (Ha : a ∈ arenas s) by (unfold s; cbn; set_solver). pose proof (arena_geo s a Hi Ha) as Hg. pose proof (npages_pos a Hg) as [Hn Es]. rewrite total_pages_cons in Htot.
  assert (Htl : 0 ≤ total_pages l). { apply total_pages_nonneg. intros x Hx. pose proof (npages_pos x (arena_geo s x Hi ltac:(unfold s; cbn; set_solver))). lia. }
  destruct (decide (ar_base a ≤ A < ar_base a + ar_size a)) as [Hin|Hout].
  - pose proof (page_index a A Hg Hin) as Hidx. set (i := (A - ar_base a) / PAGE_SIZE) in *. assert (EA : A = ar_base a + i * PAGE_SIZE).
    { unfold i. destruct Hg as [[_ Hb] _ _]. pose proof (Z.div_mod (A - ar_base a) PAGE_SIZE ltac:(unfold PAGE_SIZE; lia)) as E. rewrite Zminus_mod, HA, Hb in E. change ((0 - 0) mod PAGE_SIZE) with 0 in E. lia. }
    destruct (range_loop_ok (S (Z.to_nat (npages a))) pre a l m b i allocated count lst Hi ltac:(lia) ltac:(lia) ltac:(lia) ltac:(lia)) as (n & a1 & m1 & E & Hgeo & Hcl & Hle & Hst & Hcnt).
    rewrite (u64_id (ar_base a + i * PAGE_SIZE)), <- EA in E by (unfold is_u64; lia). rewrite E. cbn [mbind option_bind]. assert (Hps : zlen (pages_from a i n) = Z.of_nat n) by (unfold zlen, pages_from; by rewrite length_fmap, length_seq).
    assert (Hat : at_addresses (a :: l) A (pages_from a i n)) by (apply (at_addresses_from _ _ _ _ _); [by left|done|lia|lia|done]). assert (Hcomp : range_free m a A (count - allocated) → allocated + Z.of_nat n = count).
    { intros (_ & Hr2 & Hr3). fold i in Hr3. destruct Hst as [?|[?|Hst]]; [lia| |].
      - unfold PAGE_SIZE in *. lia.
      - destruct (decide (allocated + Z.of_nat n = count)); [done|]. destruct Hst. apply Hr3. lia. }
    destruct (allocated + Z.of_nat n =? count) eqn:Ec; zb.
    + exists (pages_from a i n), (a1 :: l), m1. rewrite Hps. split; [done|]. split; [done|]. split; [done|]. split; [lia|]. intros; lia.
    + destruct (IH (pre ++ [a1]) m1 b (u64 (ar_base a + (i + Z.of_nat n) * PAGE_SIZE)) (allocated + Z.of_nat n) count ((λ x, x ++ pages_from a i n) <$> lst)) as (ps & l1 & m2 & E2 & Hcl2 & Hat2 & Hle2 & _); [rewrite <- app_assoc; by eapply claims_inv|apply u64_mod_page|apply u64_range|lia|lia|].
      { replace (ar_base a + (i + Z.of_nat n) * PAGE_SIZE) with (A + Z.of_nat n * PAGE_SIZE) by lia. by rewrite Z.mod_add. }
      rewrite E2. cbn [mbind option_bind]. exists (pages_from a i n ++ ps), (a1 :: l1), m2. rewrite zlen_app, Hps, lst_app. rewrite <- !app_assoc in Hcl2. rewrite lst_some in Hcl2. split; [do 4 f_equal; lia|]. split; [by eapply claims_app|]. split; [|split; [lia|]].
      * apply at_addresses_app; [done|]. apply at_addresses_u64. rewrite Hps, EA. replace (ar_base a + i * PAGE_SIZE + Z.of_nat n * PAGE_SIZE) with (ar_base a + (i + Z.of_nat n) * PAGE_SIZE) by lia. apply (at_addresses_mono l); [by right|done].
      * intros c [->|Hc]%elem_of_cons Hr; [specialize (Hcomp Hr); lia|]. exfalso. destruct (arenas_apart s pre a l c Hi eq_refl ltac:(set_solver)) as [_ Hap]. destruct Hr as (? & ? & _). unfold PAGE_SIZE in *. lia.
  - rewrite (range_loop_out _ a m A allocated count lst Hg Hout). cbn [mbind option_bind]. rewrite (proj2 (Z.eqb_neq allocated count)) by lia. destruct (IH (pre ++ [a]) m b A allocated count lst) as (ps & l1 & m1 & E & Hcl & Hat & Hle & Hcomp); [by rewrite <- app_assoc|done|done|lia|lia|].
    rewrite E. cbn [mbind option_bind]. exists ps, (a :: l1), m1. rewrite <- !app_assoc in Hcl. split; [done|]. split; [done|]. split; [apply (at_addresses_mono l); [by right|done]|]. split; [done|].
    intros c [->|Hc]%elem_of_cons Hr; [|by apply (Hcomp c)]. exfalso. apply Hout. destruct Hr as (? & ? & _). unfold PAGE_SIZE in *. lia.
Qed.

(** ** Contiguous runs *)

(** The pages of an arena from index [st] on are free. *)
Definition run_at (a : pmm_arena) (m : gmap Z vm_page) (count st : Z) : Prop :=
  0 ≤ st ∧ st + count ≤ npages a ∧ ∀ j, st ≤ j < st + count → m !! page_at a j = Some free_page.

(** The structures of an arena are there, and those that are free are on a list. *)
Definition readable (a : pmm_arena) (m : gmap Z vm_page) : Prop :=
  (∀ i, 0 ≤ i < npages a → is_Some (m !! page_at a i)) ∧ ∀ p pg, m !! p = Some pg → pg_state pg = VM_PAGE_STATE_FREE → pg_linked pg = true.

Lemma inv_readable s a : pmm_inv s → a ∈ arenas s → readable a (pages s).
Proof. intros Hi Ha. split; [apply (ao_pages _ _ (pi_arenas _ Hi a Ha))|apply (pi_linked _ Hi)]. Qed.

Lemma readable_free a m p pg : readable a m → m !! p = Some pg → page_is_free pg = true ↔ m !! p = Some free_page.
Proof.
  intros [_ Hl] Hp. unfold page_is_free. rewrite bool_decide_eq_true, Hp. split; [|by intros [= ->]]. intros E. pose proof (Hl _ _ Hp E). destruct pg. cbn in *. by subst.
Qed.

Lemma run_free_ok a m k : ∀ st i0, readable a m → 0 ≤ st → st + Z.of_nat k ≤ npages a → 0 ≤ i0 → i0 + Z.of_nat k < 2 ^ 32 →
  ∃ r, run_free k m (page_at a st) i0 = Some r ∧
    match r with
    | None => ∀ j, st ≤ j < st + Z.of_nat k → m !! page_at a j = Some free_page
    | Some i => i0 ≤ i < i0 + Z.of_nat k ∧ m !! page_at a (st + (i - i0)) ≠ Some free_page
    end.
Proof.
  induction k as [|k IH]; intros st i0 Hr Hst Hk Hi Hb; cbn [run_free]; [eexists; split; [done|]; intros j Hj; lia|].
  destruct (proj1 Hr st ltac:(lia)) as [pg Hpg]. pose proof (readable_free _ _ _ _ Hr Hpg) as Hf. rewrite Hpg. cbn [mbind option_bind]. destruct (page_is_free pg) eqn:E; cbn [negb].
  - replace (page_at a st + sizeof_vm_page) with (page_at a (st + 1)) by (unfold page_at, sizeof_vm_page; lia). rewrite u32_id by (unfold is_u32; lia). destruct (IH (st + 1) (i0 + 1) Hr) as (r & E' & Hres); [lia..|]. exists r. split; [done|]. destruct r as [i|].
    + destruct Hres as [Hi' Hn]. split; [lia|]. by replace (st + (i - i0)) with (st + 1 + (i - (i0 + 1))) by lia.
    + intros j Hj. destruct (decide (j = st)) as [->|]; [by apply Hf|]. apply Hres. lia.
  - eexists. split; [done|]. split; [lia|]. rewrite Z.sub_diag, Z.add_0_r. intros Hx. by apply Hf in Hx.
Qed.

(** The search finds the first aligned run, if there is one. *)
Lemma find_run_ok a m ao k count fuel : ∀ start, readable a m → npages a < 2 ^ 32 → 0 < count < 2 ^ 63 → 0 ≤ ao → 0 ≤ k ≤ 51 → ao ≤ start → (start - ao) mod 2 ^ k = 0 → npages a - start < Z.of_nat fuel → (0 < fuel)%nat →
  ∃ r, find_run fuel a m ao (k + PAGE_SIZE_SHIFT) start count = Some r ∧
    match r with
    | Some st => start ≤ st ∧ (st - ao) mod 2 ^ k = 0 ∧ run_at a m count st
    | None => ∀ st, start ≤ st → (st - ao) mod 2 ^ k = 0 → ¬ run_at a m count st
    end.
Proof.
  induction fuel as [|fuel IH]; intros start Hr Hn Hc Hao Hk Hs Hmod Hf Hpos; [lia|]. cbn [find_run]. destruct (_ && _) eqn:E.
  - apply andb_prop in E as [E1%Z.ltb_lt E2%Z.leb_le]. rewrite u64_id in E2 by (unfold is_u64; lia).
    destruct (run_free_ok a m (Z.to_nat count) start 0 Hr ltac:(lia) ltac:(lia) ltac:(lia) ltac:(lia)) as (r & Er & Hres). rewrite Er. cbn [mbind option_bind]. destruct r as [i|].
    + rewrite Z.sub_0_r, Z2Nat.id in Hres by lia. destruct Hres as [Hi Hnf]. rewrite (u64_id (start - ao + i + 1)) by (unfold is_u64; lia). replace (k + PAGE_SIZE_SHIFT - PAGE_SIZE_SHIFT) with k by lia. pose proof (pow2_le k 51 ltac:(lia)). pose proof (pow2_pos k ltac:(lia)).
      destruct (roundup_pow2_spec (start - ao + i + 1) k ltac:(lia) ltac:(lia) ltac:(lia)) as (Hru & Hrm & Hleast). set (ru := ROUNDUP _ _) in *. rewrite (u64_id (ru + ao)) by (unfold is_u64; lia).
      destruct (IH (ru + ao) Hr Hn Hc Hao Hk ltac:(lia)) as (r & E' & Hres'); [by replace (ru + ao - ao) with ru by lia|lia|destruct fuel; lia|]. exists r. split; [done|].
      assert (Hskip : ∀ st, start ≤ st → (st - ao) mod 2 ^ k = 0 → run_at a m count st → ru + ao ≤ st).
      { intros st Hst Hm (_ & _ & Hrun). destruct (decide (st ≤ start + i)); [exfalso; apply Hnf, Hrun; lia|]. pose proof (Hleast (st - ao) Hm ltac:(lia)). lia. }
      destruct r as [st|]; [destruct Hres' as (? & ? & ?); split; [lia|done]|]. intros st Hst Hm Hrun. apply (Hres' st); auto.
    + rewrite Z2Nat.id in Hres by lia. eexists. split; [done|]. split; [lia|]. split; [done|]. split; [lia|]. by split; [lia|].
  - eexists. split; [done|]. intros st Hst _ (Hp & Hl & _). apply andb_false_iff in E as [E%Z.ltb_ge|E%Z.leb_gt]; [lia|]. rewrite u64_id in E by (unfold is_u64; lia). lia.
Qed.

Lemma claim_run_ok k : ∀ pre a suf m b i lst, let s := mk_pmm (pre ++ a :: suf) m b in pmm_inv s → run_at a m (Z.of_nat k) i →
  ∃ a' m', claim_run k i a m lst = Some (a', m', (λ x, x ++ pages_from a i k) <$> lst) ∧ geo a' = geo a ∧ claims (bool_decide (is_Some lst)) s (pages_from a i k) (mk_pmm (pre ++ a' :: suf) m' b).
Proof.
  induction k as [|k IH]; intros pre a suf m b i lst s Hi Hrun; cbn [claim_run].
  - exists a, m. change (pages_from a i 0) with (@nil Z). rewrite lst_nil. split; [done|]. split; [done|apply claims_nil].
  - destruct Hrun as (H1 & H2 & H3). assert (Hf : m !! page_at a i = Some free_page) by (apply H3; lia). rewrite Hf. cbn [mbind option_bind]. change (page_is_free free_page) with true. cbv iota.
    destruct (claim_page_ok pre a suf m b i lst Hi ltac:(lia) Hf) as (a1 & m1 & E1 & Hgeo & Hc & Hother). rewrite E1. cbn [mbind option_bind]. destruct (npages_geo a a1 Hgeo) as (En & _ & _ & Ea).
    destruct (IH pre a1 suf m1 b (i + 1) ((λ x, x ++ [page_at a i]) <$> lst)) as (a2 & m2 & E2 & Hgeo2 & Hcl); [by eapply claimed_inv| |].
    { split; [lia|]. split; [lia|]. intros j Hj. unfold page_at in *. rewrite Ea. rewrite Hother by (unfold sizeof_vm_page; lia). apply H3. lia. }
    rewrite E2, lst_app, (pages_from_geo a a1), pages_from_S by done. exists a2, m2. rewrite lst_some, (pages_from_geo a a1) in Hcl by done. split; [done|]. split; [congruence|]. by econstructor.
Qed.

(** Addresses that are aligned, in terms of indices. *)
Lemma aligned_base a k : geo_ok a → 0 ≤ k ≤ 51 → let al := k + PAGE_SIZE_SHIFT in let rb := ROUNDUP (ar_base a) (2 ^ al) in
  if (rb <? ar_base a) || (u64 (ar_base a + ar_size a - 1) <? rb) then ∀ st, 0 ≤ st < npages a → (ar_base a + st * PAGE_SIZE) mod 2 ^ al ≠ 0
  else let ao := (rb - ar_base a) / PAGE_SIZE in 0 ≤ ao ∧ ∀ st, 0 ≤ st → (ar_base a + st * PAGE_SIZE) mod 2 ^ al = 0 ↔ ao ≤ st ∧ (st - ao) mod 2 ^ k = 0.
Proof.
  intros Hg Hk al rb. pose proof (npages_pos a Hg) as [Hn Es]. destruct Hg as [[Hb0 Hb] (Hs0 & Hs & Hw) _]. assert (Hal : 2 ^ al = 2 ^ k * PAGE_SIZE) by (unfold al, PAGE_SIZE_SHIFT; rewrite Z.pow_add_r by lia; done). pose proof (pow2_pos k ltac:(lia)) as Hk2. pose proof (pow2_le k 51 ltac:(lia)) as Hk3.
  destruct (decide (ar_base a + (2 ^ al - 1) < 2 ^ 64)) as [Hnw|Hwr].
  - destruct (roundup_pow2_spec (ar_base a) al ltac:(unfold al, PAGE_SIZE_SHIFT; lia) Hb0 Hnw) as (Hr1 & Hr2 & Hr3). fold rb in Hr1, Hr2, Hr3. rewrite u64_id by (unfold is_u64; lia). rewrite (proj2 (Z.ltb_ge rb _)) by lia. cbn [orb].
    destruct (_ <? rb) eqn:E; zb; [intros st Hst Hm; specialize (Hr3 _ Hm ltac:(unfold PAGE_SIZE in *; lia)); unfold PAGE_SIZE in *; lia|].
    cbv zeta. set (ao := (rb - ar_base a) / PAGE_SIZE). assert (Eao : rb = ar_base a + ao * PAGE_SIZE).
    { pose proof (Z.div_mod (rb - ar_base a) PAGE_SIZE ltac:(unfold PAGE_SIZE; lia)) as Ed. assert (Erb : rb mod PAGE_SIZE = 0) by (pose proof (Z.div_mod rb (2 ^ al) ltac:(lia)) as Eq; rewrite Hr2, Hal in Eq; rewrite Eq; replace (2 ^ k * PAGE_SIZE * (rb / (2 ^ k * PAGE_SIZE)) + 0) with (2 ^ k * (rb / (2 ^ k * PAGE_SIZE)) * PAGE_SIZE) by lia; apply Z.mod_mul; unfold PAGE_SIZE; lia).
      rewrite Zminus_mod, Erb, Hb in Ed. change ((0 - 0) mod PAGE_SIZE) with 0 in Ed. fold ao in Ed. lia. }
    assert (Hao : 0 ≤ ao) by (apply Z.div_pos; unfold PAGE_SIZE; lia). split; [done|]. intros st Hst. replace (ar_base a + st * PAGE_SIZE) with (rb + (st - ao) * PAGE_SIZE) by lia.
    assert (Hm : (rb + (st - ao) * PAGE_SIZE) mod 2 ^ al = ((st - ao) mod 2 ^ k) * PAGE_SIZE) by (rewrite <- Zplus_mod_idemp_l, Hr2, Z.add_0_l, Hal; apply Z.mul_mod_distr_r; unfold PAGE_SIZE; lia). rewrite Hm. split; [|intros [_ ->]; done].
    intros Hz. assert (Hz' : (st - ao) mod 2 ^ k = 0) by (unfold PAGE_SIZE in *; lia). split; [|done]. assert (Hx : (ar_base a + st * PAGE_SIZE) mod 2 ^ al = 0) by (replace (ar_base a + st * PAGE_SIZE) with (rb + (st - ao) * PAGE_SIZE) by lia; by rewrite Hm, Hz'). specialize (Hr3 _ Hx ltac:(unfold PAGE_SIZE in *; lia)). unfold PAGE_SIZE in *. lia.
  - assert (Hb64 : ar_base a < 2 ^ 64) by (unfold PAGE_SIZE in *; lia). unfold rb. rewrite roundup_wrap by (unfold al, PAGE_SIZE_SHIFT in *; lia). assert (Hpos : 0 < ar_base a) by (unfold PAGE_SIZE in *; lia). rewrite (proj2 (Z.ltb_lt 0 _)) by lia. cbn [orb].
    intros st Hst Hm. pose proof (Z.div_mod (ar_base a + st * PAGE_SIZE) (2 ^ al) ltac:(unfold PAGE_SIZE in *; lia)) as Eq. rewrite Hm in Eq. set (q := _ / _) in Eq. assert (E64 : 2 ^ 64 = 2 ^ (52 - k) * 2 ^ al) by (unfold al, PAGE_SIZE_SHIFT; rewrite <- Z.pow_add_r by lia; f_equal; lia).
    assert (Hq1 : 2 ^ al * q < 2 ^ (52 - k) * 2 ^ al) by (rewrite <- E64; unfold PAGE_SIZE in *; lia). assert (Hq : q < 2 ^ (52 - k)) by (unfold PAGE_SIZE in *; nia). assert (Hq2 : 2 ^ al * q ≤ 2 ^ al * (2 ^ (52 - k) - 1)) by (unfold PAGE_SIZE in *; nia). rewrite Z.mul_sub_distr_l, Z.mul_1_r in Hq2. unfold PAGE_SIZE in *. lia.
Qed.

Lemma contiguous_ok count flags k lst l : 0 < count < 2 ^ 63 → 0 ≤ k ≤ 51 → ∀ pre m b, let s := mk_pmm (pre ++ l) m b in pmm_inv s →
  ∃ n pa ps l1 m1, contiguous_in l m count flags (k + PAGE_SIZE_SHIFT) lst = Some (n, pa, (λ x, x ++ ps) <$> lst, l1, m1) ∧ claims (bool_decide (is_Some lst)) s ps (mk_pmm (pre ++ l1) m1 b) ∧
    ((n = count ∧ ∃ a st, a ∈ l ∧ eligible flags a = true ∧ run_at a m count st ∧ ps = pages_from a st (Z.to_nat count) ∧ pa = ar_base a + st * PAGE_SIZE ∧ pa mod 2 ^ (k + PAGE_SIZE_SHIFT) = 0) ∨
     (n = 0 ∧ ps = [] ∧ l1 = l ∧ m1 = m ∧ ∀ a st, a ∈ l → eligible flags a = true → (ar_base a + st * PAGE_SIZE) mod 2 ^ (k + PAGE_SIZE_SHIFT) = 0 → ¬ run_at a m count st)).
Proof.
  intros Hc Hk. induction l as [|a l IH]; intros pre m b s Hi; cbn [contiguous_in].
  { exists 0, 0, [], [], m. rewrite lst_nil. split; [done|]. split; [apply claims_nil|]. right. split_and!; try done. by intros a st ?%not_elem_of_nil. }
  assert (Hnext : (∀ st, eligible flags a = true → (ar_base a + st * PAGE_SIZE) mod 2 ^ (k + PAGE_SIZE_SHIFT) = 0 → ¬ run_at a m count st) →
    ∃ n pa ps l1 m1, ('(n, pa, lst1, l1, m1) ← contiguous_in l m count flags (k + PAGE_SIZE_SHIFT) lst; Some (n, pa, lst1, a :: l1, m1)) = Some (n, pa, (λ x, x ++ ps) <$> lst, l1, m1) ∧ claims (bool_decide (is_Some lst)) s ps (mk_pmm (pre ++ l1) m1 b) ∧
    ((n = count ∧ ∃ a' st, a' ∈ a :: l ∧ eligible flags a' = true ∧ run_at a' m count st ∧ ps = pages_from a' st (Z.to_nat count) ∧ pa = ar_base a' + st * PAGE_SIZE ∧ pa mod 2 ^ (k + PAGE_SIZE_SHIFT) = 0) ∨
     (n = 0 ∧ ps = [] ∧ l1 = a :: l ∧ m1 = m ∧ ∀ a' st, a' ∈ a :: l → eligible flags a' = true → (ar_base a' + st * PAGE_SIZE) mod 2 ^ (k + PAGE_SIZE_SHIFT) = 0 → ¬ run_at a' m count st))).
  { intros Hskip. destruct (IH (pre ++ [a]) m b) as (n & pa & ps & l1 & m1 & E & Hcl & Hres); [by rewrite <- app_assoc|]. rewrite E. cbn [mbind option_bind]. rewrite <- !app_assoc in Hcl. exists n, pa, ps, (a :: l1), m1. split; [done|]. split; [done|].
    destruct Hres as [(-> & a' & st & Ha' & Hres)|(-> & -> & -> & -> & Hres)]; [left; split; [done|]; exists a', st; split; [by right|done]|right; split_and!; try done]. intros a' st [->|Ha']%elem_of_cons; [apply Hskip|by apply Hres]. }
  destruct (eligible flags a) eqn:Eel; cbn [negb]; [|by apply Hnext]. assert (Ha : a ∈ arenas s) by (unfold s; cbn; set_solver). pose proof (arena_geo s a Hi Ha) as Hg. pose proof (arena_small s a Hi Ha) as Hsm. pose proof (aligned_base a k Hg Hk) as Hab. cbv zeta in Hab. destruct (_ || _).
  { apply Hnext. intros st _ Hm (H1 & H2 & _). apply (Hab st); [lia|done]. }
  destruct Hab as [Hao Hal]. set (ao := (ROUNDUP _ _ - _) / _) in *.
  destruct (find_run_ok a m ao k count (S (Z.to_nat (npages a))) ao (inv_readable s a Hi Ha) ltac:(lia) Hc Hao Hk ltac:(lia) ltac:(rewrite Z.sub_diag; apply Zmod_0_l) ltac:(lia) ltac:(lia)) as (r & E & Hres). rewrite E. cbn [mbind option_bind]. destruct r as [st|].
  - destruct Hres as (Hst & Hm & Hrun). destruct (claim_run_ok (Z.to_nat count) pre a l m b st lst Hi) as (a1 & m1 & E1 & Hgeo & Hcl); [by rewrite Z2Nat.id by lia|]. rewrite E1. cbn [mbind option_bind]. pose proof (npages_pos a Hg) as [_ Es]. destruct Hrun as (H1 & H2 & H3).
    exists count, (ar_base a + st * PAGE_SIZE), (pages_from a st (Z.to_nat count)), (a1 :: l), m1. rewrite u64_id by (destruct Hg; unfold is_u64, PAGE_SIZE in *; lia). split; [done|]. split; [done|]. left. split; [done|]. exists a, st. split; [by left|]. split; [done|]. split; [by split|]. split; [done|]. split; [done|]. by apply Hal.
  - apply Hnext. intros st _ Hm Hrun. pose proof Hrun as (H1 & _). apply Hal in Hm as [? ?]; [|done]. by apply (Hres st).
Qed.

(** ** Release *)

Lemma return_page_ok s l1 a l2 i : pmm_inv s → arenas s = l1 ++ a :: l2 → 0 ≤ i < npages a →
  return_page (arenas s) (page_at a i) = Some (l1 ++ set_free a (page_at a i :: free_list a) (u64 (free_count a + 1)) :: l2).
Proof.
  intros Hi El Hb. assert (Hg : geo_ok a) by (apply (arena_geo s); [done|rewrite El; set_solver]). assert (Hother : ∀ b, b ∈ l1 → PAGE_BELONGS_TO_ARENA (page_at a i) b = false) by (intros c Hc; apply (belongs_iff s l1 a l2); [done|done|done|set_solver]). rewrite El. clear El. induction l1 as [|c l1 IH]; cbn.
  - by rewrite belongs_spec.
  - rewrite Hother by (by left). rewrite IH; [done|]. intros d Hd. apply Hother. by right.
Qed.

Lemma all_pages_length l : (∀ a, a ∈ l → 0 ≤ npages a) → zlen (concat ((λ a, pages_from a 0 (Z.to_nat (npages a))) <$> l)) = total_pages (geo <$> l).
Proof.
  induction l as [|a l IH]; intros Hp; [done|]. rewrite !fmap_cons. cbn [concat]. rewrite zlen_app, total_pages_cons. change (npages (geo a)) with (npages a). rewrite IH by (intros; apply Hp; by right).
  pose proof (Hp a ltac:(by left)). unfold zlen, pages_from at 1. rewrite length_fmap, length_seq. lia.
Qed.

(** There are no more pages than the arenas have. *)
Lemma pages_bound s ps : pmm_inv s → NoDup ps → (∀ p, p ∈ ps → is_Some (pages s !! p)) → zlen ps < 2 ^ 32.
Proof.
  intros Hi Hnd Hps. pose proof (lo_total _ _ (pi_layout _ Hi)) as Ht. set (all := concat ((λ a, pages_from a 0 (Z.to_nat (npages a))) <$> arenas s)).
  assert (Hall : zlen all = total_pages (geo <$> arenas s)) by (apply all_pages_length; intros a Ha; pose proof (arena_small s a Hi Ha); lia).
  enough (zlen ps ≤ zlen all) by lia. unfold zlen. apply Nat2Z.inj_le, submseteq_length, NoDup_submseteq; [done|]. intros p Hp. destruct (pi_owned _ Hi p (Hps p Hp)) as (a & i & Ha & Hb & ->). unfold all. apply list_elem_of_In, in_concat. exists (pages_from a 0 (Z.to_nat (npages a))).
  split; apply list_elem_of_In; [apply list_elem_of_fmap; eauto|]. apply pages_from_elem. exists i. split; [lia|done].
Qed.

Lemma free_loop_ok lst : ∀ s count, pmm_inv s → NoDup lst → (∀ p, p ∈ lst → ∃ pg, pages s !! p = Some pg ∧ pg_state pg ≠ VM_PAGE_STATE_FREE) → 0 ≤ count → count + zlen lst < 2 ^ 32 →
  ∃ s', free_loop lst s count = Some (count + zlen lst, s') ∧ pmm_inv s' ∧ geo <$> arenas s' = geo <$> arenas s ∧ boot_alloc_end s' = boot_alloc_end s ∧ ∀ p, pages s' !! p = if decide (p ∈ lst) then Some free_page else pages s !! p.
Proof.
  induction lst as [|p lst IH]; intros s count Hi Hnd Hps Hc Hb; cbn [free_loop].
  { exists s. change (zlen []) with 0. rewrite Z.add_0_r. by split_and!. }
  assert (Ez : zlen (p :: lst) = zlen lst + 1) by (unfold zlen; cbn; lia). pose proof (zlen_nonneg lst). apply list.NoDup_cons in Hnd as [Hn Hnd]. destruct (Hps p) as (pg & Hpg & Hst); [by left|]. rewrite Hpg. cbn [mbind option_bind].
  unfold page_is_free. rewrite bool_decide_eq_false_2 by done. cbn [negb]. destruct (pi_owned _ Hi p ltac:(eauto)) as (a & i & Ha & Hbi & Ep). pose proof Ha as (l1 & l2 & El)%list_elem_of_split. pose proof (return_page_ok s l1 a l2 i Hi El Hbi) as Eret. rewrite <- Ep in Eret. rewrite Eret.
  pose proof (pi_arenas _ Hi a Ha) as Hok. assert (Hnp : p ∉ free_list a) by (intros Hx; apply (ao_free _ _ Hok) in Hx as [_ Hx]; rewrite Hpg in Hx; by injection Hx as ->). pose proof (free_short s a Hi Ha). pose proof (arena_small s a Hi Ha). pose proof (zlen_nonneg (free_list a)).
  set (s1 := mk_pmm _ _ _). assert (Hi1 : pmm_inv s1).
  { apply (update_inv s l1 a l2 p i); try done.
    - apply list.NoDup_cons. split; [done|apply (ao_nodup _ _ Hok)].
    - intros q Hq. rewrite elem_of_cons. tauto.
    - split; [done|]. intros _. by left.
    - rewrite (ao_count _ _ Hok), u64_id by (unfold is_u64; lia). unfold zlen. cbn [length]. lia. }
  rewrite u32_id by (unfold is_u32; lia). destruct (IH s1 (count + 1) Hi1 Hnd) as (s' & E & Hi' & Hgeo & Hboot & Hall); [|lia|lia|].
  { intros q Hq. destruct (Hps q) as (qg & Hqg & ?); [by right|]. exists qg. split; [|done]. unfold s1. cbn. rewrite lookup_insert_ne by (intros ->; done). done. }
  exists s'. replace (count + zlen (p :: lst)) with (count + 1 + zlen lst) by lia. split; [done|]. split; [done|]. split; [rewrite Hgeo; unfold s1; cbn; by rewrite El, !fmap_app|]. split; [done|].
  intros q. rewrite Hall. unfold s1. cbn [pages]. destruct (decide (q = p)) as [->|Hne].
  - rewrite decide_False, decide_True by (done || by left). by rewrite lookup_insert_eq.
  - rewrite lookup_insert_ne by (by apply not_eq_sym). apply decide_ext. rewrite elem_of_cons. tauto.
Qed.

(** ** A new arena *)

Record addable (s : pmm) (arena : pmm_arena) : Prop := {
  ad_base : 0 ≤ ar_base arena ∧ ar_base arena mod PAGE_SIZE = 0;
  ad_size : 0 < ar_size arena ∧ ar_size arena mod PAGE_SIZE = 0 ∧ ar_base arena + ar_size arena ≤ 2 ^ 64;
  ad_apart b : b ∈ arenas s → ar_base arena + ar_size arena ≤ ar_base b ∨ ar_base b + ar_size b ≤ ar_base arena;
  ad_total : npages arena + total_pages (arenas s) < 2 ^ 32;
  ad_boot : 0 ≤ boot_alloc_end s < 2 ^ 63 }.

Lemma init_pages_ok k : ∀ p m, (∀ j, 0 ≤ j < Z.of_nat k → init_pages k p m !! (p + j * sizeof_vm_page) = Some free_page) ∧ ∀ q, (∀ j, 0 ≤ j < Z.of_nat k → q ≠ p + j * sizeof_vm_page) → init_pages k p m !! q = m !! q.
Proof.
  induction k as [|k IH]; intros p m; cbn [init_pages]; [split; [lia|done]|]. destruct (IH (p + sizeof_vm_page) (<[p := mk_page true VM_PAGE_STATE_FREE]> m)) as [H1 H2]. split.
  - intros j Hj. destruct (decide (j = 0)) as [->|]; [|replace (p + j * sizeof_vm_page) with (p + sizeof_vm_page + (j - 1) * sizeof_vm_page) by lia; apply H1; lia].
    rewrite Z.mul_0_l, Z.add_0_r, H2; [by rewrite lookup_insert_eq|]. intros j Hj'. unfold sizeof_vm_page. lia.
  - intros q Hq. rewrite H2; [|intros j Hj; replace (p + sizeof_vm_page + j * sizeof_vm_page) with (p + (j + 1) * sizeof_vm_page) by lia; apply Hq; lia]. apply lookup_insert_ne. intros ->. apply (Hq 0); lia.
Qed.

Lemma insert_arena_split a l : StronglySorted (λ x y, priority x ≤ priority y) l →
  ∃ l1 l2, l = l1 ++ l2 ∧ insert_arena a l = l1 ++ a :: l2 ∧ StronglySorted (λ x y, priority x ≤ priority y) (l1 ++ a :: l2).
Proof.
  induction l as [|b l IH]; intros Hs; cbn [insert_arena]; [exists [], []; split_and!; try done; apply SSorted_cons; [constructor|constructor]|]. apply StronglySorted_inv in Hs as [Hs Hb]. destruct (priority b >? priority a) eqn:E; rewrite Z.gtb_ltb in E; zb.
  - exists [], (b :: l). split_and!; try done. apply SSorted_cons; [by apply SSorted_cons|]. constructor; [lia|]. eapply Forall_impl; [exact Hb|]. cbn. lia.
  - destruct (IH Hs) as (l1 & l2 & -> & E' & Hs'). exists (b :: l1), l2. rewrite E'. split_and!; try done. cbn. apply SSorted_cons; [done|]. apply Forall_app in Hb as [Hb1 Hb2]. apply Forall_app. split; [done|]. by constructor.
Qed.

Lemma apart_sym a b : apart a b → apart b a.
Proof. intros [? ?]. split; tauto. Qed.

(** Arenas stay apart when one that is apart from all is put among them. *)
Lemma apart_insert a l1 l2 : (∀ i j x y, (l1 ++ l2) !! i = Some x → (l1 ++ l2) !! j = Some y → i ≠ j → apart x y) → (∀ b, b ∈ l1 ++ l2 → apart a b) →
  ∀ i j x y, (l1 ++ a :: l2) !! i = Some x → (l1 ++ a :: l2) !! j = Some y → i ≠ j → apart x y.
Proof.
  intros Hold Hnew. assert (Hcase : ∀ i x, (l1 ++ a :: l2) !! i = Some x → (i = length l1 ∧ x = a) ∨ (i < length l1 ∧ (l1 ++ l2) !! i = Some x)%nat ∨ (length l1 < i ∧ (l1 ++ l2) !! (i - 1) = Some x)%nat).
  { intros i x Hx. destruct (decide (i < length l1)%nat) as [Hlt|Hge]; [right; left; split; [done|]; by rewrite lookup_app_l in * by done|]. rewrite lookup_app_r in Hx by lia. destruct (i - length l1)%nat as [|k] eqn:E; cbn in Hx.
    - left. injection Hx as <-. split; [lia|done].
    - right. right. split; [lia|]. rewrite lookup_app_r by lia. by replace (i - 1 - length l1)%nat with k by lia. }
  intros i j x y Hx Hy Hne. destruct (Hcase i x Hx) as [[-> ->]|Hi']; destruct (Hcase j y Hy) as [[-> ->]|Hj']; [done| | |].
  - apply Hnew. destruct Hj' as [[_ H]|[_ H]]; by eapply list_elem_of_lookup_2.
  - apply apart_sym, Hnew. destruct Hi' as [[_ H]|[_ H]]; by eapply list_elem_of_lookup_2.
  - destruct Hi' as [[? H]|[? H]]; destruct Hj' as [[? H']|[? H']]; eapply Hold; try eassumption; lia.
Qed.

Lemma total_pages_app l1 l2 : total_pages (l1 ++ l2) = total_pages l1 + total_pages l2.
Proof. induction l1 as [|a l1 IH]; [done|]. cbn [app]. rewrite !total_pages_cons, IH. lia. Qed.

Lemma total_pages_geo l : total_pages (geo <$> l) = total_pages l.
Proof. induction l as [|a l IH]; [done|]. rewrite fmap_cons, !total_pages_cons, IH. done. Qed.

Lemma sorted_geo l : StronglySorted (λ x y, priority x ≤ priority y) (geo <$> l) ↔ StronglySorted (λ x y, priority x ≤ priority y) l.
Proof.
  induction l as [|a l IH]; [by split; constructor|]. rewrite fmap_cons. split; intros [Hs Hf]%StronglySorted_inv; (apply SSorted_cons; [by apply IH|]); [by rewrite Forall_fmap in Hf|by rewrite Forall_fmap].
Qed.

Lemma layout_geo l boot : layout_ok (geo <$> l) boot ↔ layout_ok l boot.
Proof.
  assert (Hg : ∀ a, geo_ok (geo a) ↔ geo_ok a) by (intros a; split; intros [? ? ?]; by split). split; intros [L1 L2 L3 L4 L5]; split.
  - intros a Ha. apply Hg, L1, list_elem_of_fmap. eauto.
  - intros i j a b Hi Hj Hne. apply (L2 i j (geo a) (geo b)); [by rewrite list_lookup_fmap, Hi|by rewrite list_lookup_fmap, Hj|done].
  - by rewrite <- total_pages_geo.
  - intros a Ha. apply (L4 (geo a)), list_elem_of_fmap. eauto.
  - by apply sorted_geo.
  - intros a (b & -> & Hb)%list_elem_of_fmap. apply Hg. auto.
  - intros i j a b. rewrite !list_lookup_fmap. destruct (l !! i) as [x|] eqn:Ei; [|done]. destruct (l !! j) as [y|] eqn:Ej; [|done]. intros [= <-] [= <-] Hne. by apply (L2 i j x y).
  - by rewrite total_pages_geo.
  - intros a (b & -> & Hb)%list_elem_of_fmap. by apply (L4 b).
  - by apply sorted_geo.
Qed.

(** A fresh array lies after all others. *)
Lemma fresh_layout s arena : pmm_inv s → addable s arena →
  let arr := ROUNDUP (boot_alloc_end s) 8 in let a := mk_arena (ar_flags arena) (priority arena) (ar_base arena) (ar_size arena) (npages arena) arr ((λ i, arr + i * sizeof_vm_page) <$> seqZ 0 (npages arena)) in
  boot_alloc_mem s (u64 (npages arena * sizeof_vm_page)) = (arr, mk_pmm (arenas s) (pages s) (arr + npages arena * sizeof_vm_page)) ∧ layout_ok (insert_arena a (arenas s)) (arr + npages arena * sizeof_vm_page) ∧
  (∃ l1 l2, arenas s = l1 ++ l2 ∧ insert_arena a (arenas s) = l1 ++ a :: l2) ∧ ∀ b, b ∈ arenas s → apart a b.
Proof.
  intros Hi [[Hb0 Hb] (Hs0 & Hs & Hw) Hap Htot Hboot] arr a. pose proof (proj1 (layout_geo _ _) (pi_layout _ Hi)) as [L1 L2 L3 L4 L5]. assert (Htn : 0 ≤ total_pages (arenas s)) by (apply total_pages_nonneg; intros x Hx; pose proof (arena_small s x Hi Hx); lia).
  assert (Hn : 0 < npages arena) by (unfold npages; pose proof (Z.div_mod (ar_size arena) PAGE_SIZE ltac:(unfold PAGE_SIZE; lia)) as E; rewrite Hs in E; unfold PAGE_SIZE in *; lia).
  destruct (roundup_pow2_spec (boot_alloc_end s) 3 ltac:(lia) ltac:(lia) ltac:(lia)) as (Hr & _). fold arr in Hr. change (2 ^ 3) with 8 in Hr. assert (Elen : ROUNDUP (npages arena * sizeof_vm_page) 8 = npages arena * sizeof_vm_page).
  { destruct (roundup_pow2_spec (npages arena * sizeof_vm_page) 3 ltac:(lia)) as (Hr1 & Hr2 & Hr3); [unfold sizeof_vm_page; lia|unfold sizeof_vm_page; lia|]. change (2 ^ 3) with 8 in *. apply Z.le_antisymm; [|lia]. apply Hr3; [|lia]. unfold sizeof_vm_page. replace (npages arena * 24) with (npages arena * 3 * 8) by lia. by apply Z.mod_mul. }
  assert (Hga : geo_ok a) by (split; cbn; [done|done|unfold npages at 1; cbn; fold (npages arena); unfold sizeof_vm_page; lia]). assert (Hpa : ∀ b, b ∈ arenas s → apart a b) by (intros b Hb'; specialize (L4 b Hb'); split; [right; cbn; lia|by apply Hap]).
  split; [unfold boot_alloc_mem; fold arr; rewrite (u64_id (npages arena * _)) by (unfold is_u64, sizeof_vm_page; lia); rewrite Elen, u64_id by (unfold is_u64, sizeof_vm_page; lia); done|].
  destruct (insert_arena_split a (arenas s) L5) as (l1 & l2 & El & Eins & Hsort). rewrite Eins. split; [|split; [eauto|done]]. rewrite El in *. split.
  - intros b [?|[->|?]%elem_of_cons]%elem_of_app; [apply L1; set_solver|done|apply L1; set_solver].
  - by apply apart_insert.
  - rewrite total_pages_app, total_pages_cons in *. change (npages a) with (npages arena). lia.
  - assert (Hold : ∀ b, b ∈ l1 ++ l2 → page_array b + npages b * sizeof_vm_page ≤ arr + npages arena * sizeof_vm_page) by (intros b Hb'; specialize (L4 b Hb'); unfold sizeof_vm_page in *; lia).
    intros b [?|[->|?]%elem_of_cons]%elem_of_app; [apply Hold; set_solver|done|apply Hold; set_solver].
  - done.
Qed.

Lemma add_arena_ok s arena : pmm_inv s → addable s arena →
  ∃ s' a, pmm_add_arena s arena = Some (NO_ERROR, s') ∧ pmm_inv s' ∧ a ∈ arenas s' ∧ ar_base a = ar_base arena ∧ ar_size a = ar_size arena ∧ (∀ i, 0 ≤ i < npages a → pages s' !! page_at a i = Some free_page) ∧ ∀ p pg, pages s !! p = Some pg → pages s' !! p = Some pg.
Proof.
  intros Hi Ha. destruct (fresh_layout s arena Hi Ha) as (Ebm & Hlay & (l1 & l2 & El & Eins) & Hap). destruct Ha as [[_ Hb] (Hs0 & Hs & _) _ _ _]. unfold pmm_add_arena. rewrite (proj2 (page_aligned _) Hb), (proj2 (page_aligned _) Hs), (proj2 (Z.ltb_lt 0 _) Hs0), Ebm. cbn [arenas pages boot_alloc_end].
  set (arr := ROUNDUP _ 8) in *. set (a := mk_arena _ _ _ _ _ _ _) in *. set (n := npages arena) in *. set (m' := init_pages _ _ _). eexists _, a. split; [done|]. destruct (init_pages_ok (Z.to_nat n) arr (pages s)) as [Hin Hout]. fold m' in Hin, Hout.
  assert (Hn : 0 < n) by (exact (proj1 (npages_pos a (lo_geo _ _ Hlay a ltac:(rewrite Eins; set_solver))))). assert (Hnew : ∀ i, 0 ≤ i < n → m' !! page_at a i = Some free_page) by (intros i Hi'; apply Hin; lia).
  assert (Hold : ∀ b i, b ∈ arenas s → 0 ≤ i < npages b → m' !! page_at b i = pages s !! page_at b i).
  { intros b i Hb' Hi'. apply Hout. intros j Hj. apply not_eq_sym, (pages_apart a b); [by apply Hap|change (npages a) with n; lia|done]. }
  assert (Hcase : ∀ p, (∃ i, 0 ≤ i < n ∧ p = page_at a i) ∨ ¬ ∃ i, 0 ≤ i < n ∧ p = page_at a i).
  { intros p. destruct (decide (p ∈ pages_from a 0 (Z.to_nat n))) as [H|H]; rewrite pages_from_elem in H; [left|right]; [destruct H as (i & ? & ?)|intros (i & ? & ?); apply H]; exists i; split; (done || lia). }
  split; [|split; [cbn; rewrite Eins; set_solver|split; [done|split; [done|split; [done|]]]]].
  - split; cbn [arenas pages boot_alloc_end].
    + by apply layout_geo.
    + rewrite Eins. intros b Hb'. assert (Hab : b = a ∨ b ∈ arenas s) by (rewrite El; rewrite elem_of_app, elem_of_cons in Hb'; rewrite elem_of_app; tauto). destruct Hab as [->|Hb''].
      * split; [intros i Hi'; rewrite Hnew by done; eauto| | |].
        -- apply NoDup_fmap_2; [intros x y; unfold sizeof_vm_page; lia|apply NoDup_seqZ].
        -- intros p. unfold a. cbn [free_list]. rewrite list_elem_of_fmap. split; [intros (i & -> & Hi'%elem_of_seqZ); split; [exists i; split; [change (npages _) with n; lia|done]|apply Hnew; lia]|]. intros [(i & Hi' & ->) _]. exists i. split; [done|]. apply elem_of_seqZ. change (npages _) with n in Hi'. lia.
        -- unfold a, zlen. cbn [free_list free_count]. rewrite length_fmap, length_seqZ. fold n. lia.
      * destruct (pi_arenas _ Hi b Hb'') as [B1 B2 B3 B4]. split; [intros i Hi'; rewrite Hold by done; auto|done| |done]. intros p. rewrite B3. split; intros [(i & Hi' & ->) Hp]; (split; [eauto|]); [by rewrite Hold|by rewrite Hold in Hp].
    + intros p pg Hp Hst. destruct (Hcase p) as [(i & Hi' & ->)|Hno]; [rewrite Hnew in Hp by done; by injection Hp as <-|]. rewrite Hout in Hp by (intros j Hj ->; apply Hno; exists j; split; [lia|done]). by eapply (pi_linked _ Hi).
    + intros p Hp. rewrite Eins. destruct (Hcase p) as [(i & Hi' & ->)|Hno]; [exists a, i; split; [set_solver|by split]|]. rewrite Hout in Hp by (intros j Hj ->; apply Hno; exists j; split; [lia|done]). destruct (pi_owned _ Hi p Hp) as (b & i & Hb' & ?). exists b, i. split; [|done]. rewrite El in Hb'. set_solver.
  - intros p pg Hp. cbn [pages]. destruct (pi_owned _ Hi p ltac:(eauto)) as (b & i & Hb' & Hi' & ->). by rewrite Hold.
Qed.

(** ** The operations in a state with the invariant *)

Lemma alloc_page_spec s flags : pmm_inv s → ∃ r s', pmm_alloc_page s flags = Some (r, s') ∧
  match r with
  | Some (p, pa) => claims false s [p] s' ∧ vm_page_to_paddr s p = pa ∧ ∃ a, a ∈ arenas s ∧ eligible flags a = true ∧ p ∈ free_list a
  | None => s' = s ∧ ∀ a, a ∈ arenas s → eligible flags a = true → free_list a = []
  end.
Proof.
  destruct s as [l m b]. intros Hi. destruct (alloc_page_ok flags l [] m b Hi) as (r & l1 & m1 & E & Hr). unfold pmm_alloc_page. cbn [arenas pages boot_alloc_end]. rewrite E. cbn [mbind option_bind]. eexists _, _. split; [done|].
  destruct r as [[p pa]|]; [|destruct Hr as (-> & -> & ?); by split]. destruct Hr as (Hc & ?). split; [|done]. econstructor; [exact Hc|constructor].
Qed.

Lemma alloc_pages_spec s count flags lst : pmm_inv s → 0 ≤ count →
  ∃ ps s', pmm_alloc_pages s count flags lst = Some (zlen ps, lst ++ ps, s') ∧ zlen ps = Z.min count (first_free flags (arenas s)) ∧ claims true s ps s' ∧ ∀ q, q ∈ ps → ∃ a, a ∈ arenas s ∧ eligible flags a = true ∧ q ∈ free_list a.
Proof.
  destruct s as [l m b]. intros Hi Hc. unfold pmm_alloc_pages. cbn [arenas pages boot_alloc_end]. destruct (alloc_pages_ok flags count lst l Hc [] m b Hi) as (ps & l1 & m1 & E & Hz & Hcl & Hel). destruct (count =? 0) eqn:E0; zb.
  - assert (ps = []) as -> by (destruct ps; [done|]; unfold zlen in Hz; cbn in Hz; lia). exists [], (mk_pmm l m b). rewrite app_nil_r. split; [done|]. split; [done|split; [constructor|by intros ? ?%not_elem_of_nil]].
  - rewrite E. cbn [mbind option_bind]. by exists ps, (mk_pmm l1 m1 b).
Qed.

Lemma total_bound s : pmm_inv s → 0 ≤ total_pages (arenas s) < 2 ^ 32.
Proof.
  intros Hi. split; [apply total_pages_nonneg; intros a Ha; pose proof (arena_small s a Hi Ha); lia|]. rewrite <- total_pages_geo. apply (lo_total _ _ (pi_layout _ Hi)).
Qed.

Lemma alloc_range_spec s address count lst : pmm_inv s → 0 ≤ address < 2 ^ 64 → 0 < count → let A := ROUNDDOWN address PAGE_SIZE in
  ∃ ps s', pmm_alloc_range s address count lst = Some (zlen ps, (λ x, x ++ ps) <$> lst, s') ∧ claims (bool_decide (is_Some lst)) s ps s' ∧ at_addresses (arenas s) A ps ∧ zlen ps ≤ count ∧
    ∀ a, a ∈ arenas s → range_free (pages s) a A count → zlen ps = count.
Proof.
  intros Hi Ha Hc A. pose proof (total_bound s Hi). destruct s as [l m b]. assert (HA : A = address - address mod PAGE_SIZE) by (unfold A; rewrite rounddown_page; pose proof (Z.div_mod address PAGE_SIZE ltac:(unfold PAGE_SIZE; lia)); lia). pose proof (Z.mod_pos_bound address PAGE_SIZE ltac:(unfold PAGE_SIZE; lia)). pose proof (Z.mod_le address PAGE_SIZE ltac:(lia) ltac:(unfold PAGE_SIZE; lia)).
  destruct (alloc_range_ok l [] m b A 0 count lst Hi) as (ps & l1 & m1 & E & Hc1 & Hc2 & Hc3 & Hc4); [rewrite HA, Zminus_mod, Zmod_mod, Z.sub_diag; done|lia|lia|cbn [arenas] in *; lia|]. rewrite Z.add_0_l in *. rewrite Z.sub_0_r in Hc4.
  unfold pmm_alloc_range. cbn [arenas pages boot_alloc_end]. destruct (count =? 0) eqn:E0; zb; [lia|]. fold A. rewrite E. cbn [mbind option_bind]. by exists ps, (mk_pmm l1 m1 b).
Qed.

(** The number of bits of the alignment: a page at least. *)
Definition align_of (alignment_log2 : Z) : Z := Z.max alignment_log2 PAGE_SIZE_SHIFT.

Lemma contiguous_spec s count flags al lst : pmm_inv s → 0 < count < 2 ^ 63 → al < 64 →
  ∃ n pa ps s', pmm_alloc_contiguous s count flags al lst = Some (n, pa, (λ x, x ++ ps) <$> lst, s') ∧ claims (bool_decide (is_Some lst)) s ps s' ∧
    ((n = count ∧ ∃ a st, a ∈ arenas s ∧ eligible flags a = true ∧ run_at a (pages s) count st ∧ ps = pages_from a st (Z.to_nat count) ∧ pa = ar_base a + st * PAGE_SIZE ∧ pa mod 2 ^ align_of al = 0) ∨
     (n = 0 ∧ ps = [] ∧ s' = s ∧ ∀ a st, a ∈ arenas s → eligible flags a = true → (ar_base a + st * PAGE_SIZE) mod 2 ^ align_of al = 0 → ¬ run_at a (pages s) count st)).
Proof.
  intros Hi Hc Hal. destruct s as [l m b]. destruct (contiguous_ok count flags (align_of al - PAGE_SIZE_SHIFT) lst l Hc ltac:(unfold align_of, PAGE_SIZE_SHIFT; lia) [] m b Hi) as (n & pa & ps & l1 & m1 & E & Hcl & Hr). rewrite Z.sub_add in *.
  unfold pmm_alloc_contiguous. cbn [arenas pages boot_alloc_end]. destruct (count =? 0) eqn:E0; zb; [lia|]. assert (Eal : (if al <? PAGE_SIZE_SHIFT then PAGE_SIZE_SHIFT else al) = align_of al) by (unfold align_of; destruct (al <? PAGE_SIZE_SHIFT) eqn:E1; zb; lia). rewrite Eal, E. cbn [mbind option_bind].
  exists n, pa, ps, (mk_pmm l1 m1 b). split; [done|]. split; [done|]. destruct Hr as [?|(-> & -> & -> & -> & ?)]; [by left|by right].
Qed.

Lemma free_spec s ps : pmm_inv s → NoDup ps → (∀ p, p ∈ ps → ∃ pg, pages s !! p = Some pg ∧ pg_state pg ≠ VM_PAGE_STATE_FREE) →
  ∃ s', pmm_free s ps = Some (zlen ps, s') ∧ pmm_inv s' ∧ geo <$> arenas s' = geo <$> arenas s ∧ ∀ p, pages s' !! p = if decide (p ∈ ps) then Some free_page else pages s !! p.
Proof.
  intros Hi Hnd Hps. assert (zlen ps < 2 ^ 32) by (apply (pages_bound s); [done|done|]; intros p (pg & ? & _)%Hps; eauto). destruct (free_loop_ok ps s 0 Hi Hnd Hps) as (s' & E & ? & ? & _ & ?); [lia|lia|]. by exists s'.
Qed.

(** Pages that were claimed can be freed, which undoes the claims. *)
Lemma claims_free lk s ps s' : pmm_inv s → claims lk s ps s' → ∃ s'', pmm_free s' ps = Some (zlen ps, s'') ∧ pages s'' = pages s ∧ geo <$> arenas s'' = geo <$> arenas s ∧ pmm_inv s''.
Proof.
  intros Hi Hcl. destruct (claims_pages lk s ps s' Hi Hcl) as (Hnd & Hf & Hp). destruct (free_spec s' ps) as (s'' & E & Hi'' & Hg & Hp'); [by eapply claims_inv|done|intros p Hin; rewrite Hp, decide_True by done; eauto|].
  exists s''. split; [done|]. split; [|split; [rewrite Hg; by eapply claims_layout|done]]. apply map_eq. intros p. rewrite Hp', Hp. destruct (decide (p ∈ ps)); [symmetry; auto|done].
Qed.

(** ** Reachable states *)

(** What the owner of an allocated page does with it: its state, and the list that it is
    on. *)
Definition owner_step (s : pmm) (p : Z) (pg : vm_page) : pmm := mk_pmm (arenas s) (<[p := pg]> (pages s)) (boot_alloc_end s).

Inductive pmm_reach : pmm → Prop :=
| pr_boot boot : pmm_reach (mk_pmm [] ∅ boot)
| pr_add s arena e s' : pmm_reach s → addable s arena → pmm_add_arena s arena = Some (e, s') → pmm_reach s'
| pr_page s flags r s' : pmm_reach s → pmm_alloc_page s flags = Some (r, s') → pmm_reach s'
| pr_pages s count flags lst r s' : pmm_reach s → 0 ≤ count → pmm_alloc_pages s count flags lst = Some (r, s') → pmm_reach s'
| pr_range s address count lst r s' : pmm_reach s → 0 ≤ address < 2 ^ 64 → 0 < count → pmm_alloc_range s address count lst = Some (r, s') → pmm_reach s'
| pr_contiguous s count flags al lst r s' : pmm_reach s → 0 < count < 2 ^ 63 → al < 64 → pmm_alloc_contiguous s count flags al lst = Some (r, s') → pmm_reach s'
| pr_owner s p pg pg' : pmm_reach s → pages s !! p = Some pg → pg_state pg ≠ VM_PAGE_STATE_FREE → pg_state pg' ≠ VM_PAGE_STATE_FREE → pmm_reach (owner_step s p pg')
| pr_free s ps n s' : pmm_reach s → NoDup ps → (∀ p, p ∈ ps → ∃ pg, pages s !! p = Some pg ∧ pg_state pg ≠ VM_PAGE_STATE_FREE) → pmm_free s ps = Some (n, s') → pmm_reach s'.

Lemma inv_boot boot : pmm_inv (mk_pmm [] ∅ boot).
Proof. split; cbn [arenas pages]; [split; [by intros ? ?%not_elem_of_nil|done|done|by intros ? ?%not_elem_of_nil|constructor]|by intros ? ?%not_elem_of_nil|by intros ? ? ?%lookup_empty_Some|intros ? [? ?%lookup_empty_Some]; done]. Qed.

Lemma owner_inv s p pg pg' : pmm_inv s → pages s !! p = Some pg → pg_state pg ≠ VM_PAGE_STATE_FREE → pg_state pg' ≠ VM_PAGE_STATE_FREE → pmm_inv (owner_step s p pg').
Proof.
  intros Hi Hp H1 H2. destruct (pi_owned _ Hi p ltac:(eauto)) as (a & i & (l1 & l2 & El)%list_elem_of_split & Hb & Ep). pose proof (pi_arenas _ Hi a ltac:(rewrite El; set_solver)) as Hok.
  assert (Hnf : p ∉ free_list a) by (rewrite (ao_free _ _ Hok), Hp; intros [_ [= ->]]; by apply H1). unfold owner_step. rewrite El, <- (set_free_id a). apply (update_inv s l1 a l2 p i); try done.
  - apply Hok.
  - split; [done|]. intros ->. by destruct H2.
  - apply Hok.
Qed.

Lemma reach_inv s : pmm_reach s → pmm_inv s.
Proof.
  induction 1 as [boot|s arena e s' _ Hi Ha E|s flags r s' _ Hi E|s count flags lst r s' _ Hi Hc E|s address count lst r s' _ Hi Ha Hc E|s count flags al lst r s' _ Hi Hc Hal E|s p pg pg' _ Hi Hp H1 H2|s ps n s' _ Hi Hnd Hps E].
  - apply inv_boot.
  - destruct (add_arena_ok s arena Hi Ha) as (s1 & a & E' & ? & _). rewrite E in E'. by simplify_eq.
  - destruct (alloc_page_spec s flags Hi) as (r' & s1 & E' & Hr). rewrite E in E'. simplify_eq. destruct r' as [[p pa]|]; [|by destruct Hr as [-> _]]. destruct Hr as [Hcl _]. by eapply claims_inv.
  - destruct (alloc_pages_spec s count flags lst Hi Hc) as (ps & s1 & E' & _ & Hcl & _). rewrite E in E'. simplify_eq. by eapply claims_inv.
  - destruct (alloc_range_spec s address count lst Hi Ha Hc) as (ps & s1 & E' & Hcl & _). rewrite E in E'. simplify_eq. by eapply claims_inv.
  - destruct (contiguous_spec s count flags al lst Hi Hc Hal) as (n & pa & ps & s1 & E' & Hcl & _). rewrite E in E'. simplify_eq. by eapply claims_inv.
  - by eapply owner_inv.
  - destruct (free_spec s ps Hi Hnd Hps) as (s1 & E' & ? & _). rewrite E in E'. by simplify_eq.
Qed.

(** ** What the allocator promises *)



(** C3. Allocation and release: the pages that [pmm_alloc_pages], [pmm_alloc_range] or
    [pmm_alloc_contiguous] put on an empty list can be freed at once.  All are returned,
    and afterwards the structure of every page is what it was before the allocation. *)
Theorem pmm_alloc_free s count flags address al : pmm_reach s → 0 < count < 2 ^ 63 → 0 ≤ address < 2 ^ 64 → al < 64 →
  (∃ n ps s1 s2, pmm_alloc_pages s count flags [] = Some (n, ps, s1) ∧ pmm_free s1 ps = Some (n, s2) ∧ pages s2 = pages s) ∧
  (∃ n ps s1 s2, pmm_alloc_range s address count (Some []) = Some (n, Some ps, s1) ∧ pmm_free s1 ps = Some (n, s2) ∧ pages s2 = pages s) ∧
  (∃ n pa ps s1 s2, pmm_alloc_contiguous s count flags al (Some []) = Some (n, pa, Some ps, s1) ∧ pmm_free s1 ps = Some (n, s2) ∧ pages s2 = pages s).
Proof.
  intros Hi%reach_inv Hc Ha Hal. split; [|split].
  - destruct (alloc_pages_spec s count flags [] Hi) as (ps & s1 & E & _ & Hcl & _); [lia|]. destruct (claims_free _ _ _ _ Hi Hcl) as (s2 & Ef & Hp & _). by exists (zlen ps), ps, s1, s2.
  - destruct (alloc_range_spec s address count (Some []) Hi) as (ps & s1 & E & Hcl & _); [done|lia|]. destruct (claims_free _ _ _ _ Hi Hcl) as (s2 & Ef & Hp & _). by exists (zlen ps), ps, s1, s2.
  - destruct (contiguous_spec s count flags al (Some []) Hi Hc Hal) as (n & pa & ps & s1 & E & Hcl & Hr). destruct (claims_free _ _ _ _ Hi Hcl) as (s2 & Ef & Hp & _). exists n, pa, ps, s1, s2. split; [done|]. split; [|done].
    rewrite Ef. do 2 f_equal. destruct Hr as [(-> & a & st & _ & _ & _ & -> & _)|(-> & -> & _)]; [|done]. unfold zlen, pages_from. rewrite length_fmap, length_seq. lia.
Qed.

(** Several pages: all come from the first arena that may be used, even if it has too
    few and a later one has more. *)
Theorem pmm_alloc_pages_one_arena s count flags lst : pmm_reach s → 0 ≤ count →
  ∃ ps s', pmm_alloc_pages s count flags lst = Some (zlen ps, lst ++ ps, s') ∧ zlen ps = Z.min count (first_free flags (arenas s)) ∧ NoDup ps ∧ (∀ p, p ∈ ps → pages s !! p = Some free_page).
Proof.
  intros Hi%reach_inv Hc. destruct (alloc_pages_spec s count flags lst Hi Hc) as (ps & s' & E & Hz & Hcl & _). destruct (claims_pages _ _ _ _ Hi Hcl) as (? & ? & _). by exists ps, s'.
Qed.

(** A range: the pages taken have the addresses from the start of the range on, and are
    all of it if it is free and in one arena. *)
Theorem pmm_alloc_range_takes s address count lst : pmm_reach s → 0 ≤ address < 2 ^ 64 → 0 < count → let A := ROUNDDOWN address PAGE_SIZE in
  ∃ ps s', pmm_alloc_range s address count lst = Some (zlen ps, (λ x, x ++ ps) <$> lst, s') ∧ zlen ps ≤ count ∧
    (∀ j p, ps !! j = Some p → vm_page_to_paddr s p = u64 (A + Z.of_nat j * PAGE_SIZE) ∧ pages s !! p = Some free_page) ∧ (∀ a, a ∈ arenas s → range_free (pages s) a A count → zlen ps = count).
Proof.
  intros Hi%reach_inv Ha Hc A. destruct (alloc_range_spec s address count lst Hi Ha Hc) as (ps & s' & E & Hcl & Hat & Hle & Hfull). destruct (claims_pages _ _ _ _ Hi Hcl) as (_ & Hf & _). exists ps, s'. split; [done|]. split; [done|]. split; [|done].
  intros j p Hj. split; [|by eapply Hf, list_elem_of_lookup_2]. destruct (Hat j p Hj) as (a & i & Ha' & Hb & -> & Eu). rewrite (to_paddr s a) by done. exact Eu.
Qed.

(** ** Pages in use at start-up *)

Lemma paddr_geo s s' x : geo <$> arenas s' = geo <$> arenas s → paddr_to_vm_page s' x = paddr_to_vm_page s x.
Proof.
  intros Hg. assert (H : ∀ l, match list_find (λ a, ADDRESS_IN_ARENA x a = true) l with Some (_, a) => Some (page_at a ((x - ar_base a) / PAGE_SIZE)) | None => None end =
    match list_find (λ a, ADDRESS_IN_ARENA x a = true) (geo <$> l) with Some (_, a) => Some (page_at a ((x - ar_base a) / PAGE_SIZE)) | None => None end); [|unfold paddr_to_vm_page; rewrite (H (arenas s')), (H (arenas s)), Hg; done].
  intros l. rewrite list_find_fmap. change (λ a, ADDRESS_IN_ARENA x (geo a) = true) with (λ a, ADDRESS_IN_ARENA x a = true). unfold compose. cbn. destruct (list_find _ l) as [[i a]|]; done.
Qed.

Lemma rounddown_at x y : x mod PAGE_SIZE = 0 → x ≤ y < x + PAGE_SIZE → ROUNDDOWN y PAGE_SIZE = x.
Proof.
  intros Hx Hy. rewrite rounddown_page. pose proof (Z.div_mod x PAGE_SIZE ltac:(unfold PAGE_SIZE; lia)) as E. rewrite Hx in E. replace (y / PAGE_SIZE) with (x / PAGE_SIZE); [lia|]. apply (Z.div_unique _ _ _ (y - x)); lia.
Qed.

(** The addresses of a page. *)
Lemma page_of_paddr s a i x : pmm_inv s → a ∈ arenas s → 0 ≤ i < npages a → paddr_to_vm_page s x = Some (page_at a i) ↔ ar_base a + i * PAGE_SIZE ≤ x < ar_base a + i * PAGE_SIZE + PAGE_SIZE.
Proof.
  intros Hi Ha Hb. pose proof (npages_pos a (arena_geo s a Hi Ha)) as [_ Es]. split.
  - intros Ep. assert (Hx : ar_base a ≤ x < ar_base a + ar_size a ∧ (x - ar_base a) / PAGE_SIZE = i).
    { unfold paddr_to_vm_page in Ep. destruct (list_find _ _) as [[k b]|] eqn:Ek; [|done]. apply list_find_Some in Ek as (Hk & Hin & _). injection Ep as Ep. assert (Hb' : b ∈ arenas s) by (by eapply list_elem_of_lookup_2). apply in_arena in Hin; [|by apply (arena_geo s)]. pose proof (page_index b x (arena_geo s b Hi Hb') Hin).
      destruct (list_elem_of_split _ _ Ha) as (l1 & l2 & El). assert (Hcase : b = a ∨ b ∈ l1 ++ l2) by (rewrite El, elem_of_app, elem_of_cons in Hb'; rewrite elem_of_app; tauto). destruct Hcase as [->|Hoth]; [split; [done|by eapply page_at_inj]|]. by destruct (pages_apart a b i ((x - ar_base b) / PAGE_SIZE) (arenas_apart s l1 a l2 b Hi El Hoth) Hb). }
    destruct Hx as [Hx <-]. pose proof (Z.div_mod (x - ar_base a) PAGE_SIZE ltac:(unfold PAGE_SIZE; lia)). pose proof (Z.mod_pos_bound (x - ar_base a) PAGE_SIZE ltac:(unfold PAGE_SIZE; lia)). lia.
  - intros Hx. rewrite (of_paddr s a) by (try done; unfold PAGE_SIZE in *; lia). do 2 f_equal. symmetry. apply (Z.div_unique _ _ _ (x - ar_base a - i * PAGE_SIZE)); lia.
Qed.

Lemma page_base s a i : pmm_inv s → a ∈ arenas s → 0 ≤ i < npages a → (ar_base a + i * PAGE_SIZE) mod PAGE_SIZE = 0 ∧ 0 ≤ ar_base a + i * PAGE_SIZE ∧ ar_base a + i * PAGE_SIZE + PAGE_SIZE ≤ Z.min (2 ^ 64) (ar_base a + ar_size a).
Proof.
  intros Hi Ha Hb. pose proof (arena_geo s a Hi Ha) as Hg. pose proof (npages_pos a Hg) as [_ Es]. destruct Hg as [[Hb0 Hbm] (Hs0 & Hsm & Hsz) _]. unfold PAGE_SIZE in *. split; [by rewrite Z.mod_add|]. lia.
Qed.

(** The page of an address is taken if it was free. *)
Lemma mark_one s pa : pmm_inv s → 0 ≤ pa < 2 ^ 64 → ∃ n s', pmm_alloc_range s pa 1 None = Some (n, None, s') ∧ pmm_inv s' ∧ geo <$> arenas s' = geo <$> arenas s ∧
  (∀ p, paddr_to_vm_page s pa = Some p → pages s' !! p ≠ Some free_page) ∧ (∀ p, pages s' !! p = pages s !! p ∨ (paddr_to_vm_page s pa = Some p ∧ pages s !! p = Some free_page)).
Proof.
  intros Hi Hpa. destruct (alloc_range_spec s pa 1 None Hi Hpa) as (ps & s' & E & Hcl & Hat & Hle & Hfull); [lia|]. exists (zlen ps), s'. split; [done|]. split; [by eapply claims_inv|]. split; [by eapply claims_layout|]. destruct (claims_pages _ _ _ _ Hi Hcl) as (_ & Hf & Hp).
  assert (HA : 0 ≤ ROUNDDOWN pa PAGE_SIZE ≤ pa ∧ pa < ROUNDDOWN pa PAGE_SIZE + PAGE_SIZE) by (rewrite rounddown_page; pose proof (Z.div_mod pa PAGE_SIZE ltac:(unfold PAGE_SIZE; lia)); pose proof (Z.mod_pos_bound pa PAGE_SIZE ltac:(unfold PAGE_SIZE; lia)); pose proof (Z.div_pos pa PAGE_SIZE ltac:(lia) ltac:(unfold PAGE_SIZE; lia)); unfold PAGE_SIZE in *; lia).
  assert (Hin : ∀ p, p ∈ ps → paddr_to_vm_page s pa = Some p).
  { intros p [j Hj]%list_elem_of_lookup. assert (j = O) as -> by (apply lookup_lt_Some in Hj; unfold zlen in Hle; lia). destruct (Hat 0%nat p Hj) as (a & i & Ha & Hb & -> & Eu). rewrite Z.mul_0_l, Z.add_0_r, u64_id in Eu by (unfold is_u64; lia). apply page_of_paddr; [done|done|done|]. lia. }
  split; [|intros p; rewrite Hp; destruct (decide (p ∈ ps)); [right; auto|by left]]. intros p Ep Hfree. rewrite Hp in Hfree. destruct (decide (p ∈ ps)) as [|Hn]; [done|]. apply Hn. destruct (pi_owned _ Hi p ltac:(eauto)) as (a & i & Ha & Hb & ->). pose proof (proj1 (page_of_paddr s a i pa Hi Ha Hb) Ep) as Hx.
  destruct (page_base s a i Hi Ha Hb) as (Hm & H0 & Hend). rewrite (rounddown_at _ pa Hm Hx) in *. assert (Hz : zlen ps = 1).
  { apply (Hfull a Ha). split; [unfold PAGE_SIZE in *; lia|]. split; [lia|]. intros i' Hi'. rewrite Z.add_simpl_l, Z.div_mul in Hi' by done. by replace i' with i by lia. }
  destruct ps as [|q [|]]; [done| |unfold zlen in Hz; cbn in Hz; lia]. assert (Eq : Some q = Some (page_at a i)) by (rewrite <- (Hin q) by (by left); done). injection Eq as ->. by left.
Qed.

Lemma mark_loop_ok query k : ∀ va s, pmm_inv s → 0 ≤ va → va + Z.of_nat k * PAGE_SIZE ≤ 2 ^ 64 → (∀ j, 0 ≤ j < Z.of_nat k → ∃ pa, query (va + j * PAGE_SIZE) = Some pa ∧ 0 ≤ pa < 2 ^ 64) →
  ∃ s', mark_loop query k va s = Some s' ∧ pmm_inv s' ∧ geo <$> arenas s' = geo <$> arenas s ∧
    (∀ j pa p, 0 ≤ j < Z.of_nat k → query (va + j * PAGE_SIZE) = Some pa → paddr_to_vm_page s pa = Some p → pages s' !! p ≠ Some free_page) ∧
    (∀ p, pages s' !! p = pages s !! p ∨ (pages s !! p = Some free_page ∧ ∃ j pa, 0 ≤ j < Z.of_nat k ∧ query (va + j * PAGE_SIZE) = Some pa ∧ paddr_to_vm_page s pa = Some p)).
Proof.
  induction k as [|k IH]; intros va s Hi Hva Hend Hq; cbn [mark_loop]; [exists s; split_and!; try done; [lia|by left]|]. destruct (Hq 0) as (pa & Eq & Hpa); [lia|]. rewrite Z.mul_0_l, Z.add_0_r in Eq. rewrite Eq. cbn [mbind option_bind].
  destruct (mark_one s pa Hi Hpa) as (n & s1 & -> & Hi1 & Hg1 & Ht1 & Hu1). cbn [mbind option_bind]. destruct k as [|k'].
  { cbn [mark_loop]. exists s1. split; [done|]. split; [done|]. split; [done|]. split.
    - intros j pa' p Hj. replace j with 0 by lia. rewrite Z.mul_0_l, Z.add_0_r, Eq. intros [= <-]. apply Ht1.
    - intros p. destruct (Hu1 p) as [->|[? ?]]; [by left|right]. split; [done|]. exists 0, pa. by rewrite Z.mul_0_l, Z.add_0_r. }
  rewrite u64_id by (unfold is_u64, PAGE_SIZE in *; lia). set (k := S k') in *. assert (Esh : ∀ j, va + PAGE_SIZE + j * PAGE_SIZE = va + (j + 1) * PAGE_SIZE) by (intros; lia).
  destruct (IH (va + PAGE_SIZE) s1 Hi1) as (s' & E & Hi' & Hg' & Ht' & Hu'); [unfold PAGE_SIZE; lia|lia|intros j Hj; rewrite Esh; apply Hq; lia|]. exists s'. split; [done|]. split; [done|]. split; [by rewrite Hg'|]. split.
  - intros j pa' p Hj Ej Ep. destruct (decide (j = 0)) as [->|].
    + rewrite Z.mul_0_l, Z.add_0_r, Eq in Ej. injection Ej as <-. destruct (Hu' p) as [->|[Hf _]]; [by apply Ht1|]. by destruct (Ht1 p Ep).
    + apply (Ht' (j - 1) pa'); [lia|rewrite Esh, Z.sub_add; done|]. by rewrite (paddr_geo s s1).
  - intros p. destruct (Hu' p) as [->|(Hf & j & pa' & Hj & Ej & Ep)].
    + destruct (Hu1 p) as [->|[? ?]]; [by left|right]. split; [done|]. exists 0, pa. rewrite Z.mul_0_l, Z.add_0_r. split; [lia|done].
    + rewrite (paddr_geo s s1) in Ep by done. right. destruct (Hu1 p) as [Ep1|[Ep1 Hf1]]; [rewrite <- Ep1|]; (split; [done|]); exists (j + 1), pa'; rewrite <- Esh; (split; [lia|done]).
Qed.

(** The pages behind the kernel's image: after [mark_pages_in_use] no page that a virtual
    address of the range is mapped to is free, and no other page has changed. *)
Theorem mark_pages_in_use_marks query s va len : pmm_reach s → 0 ≤ va → 0 < len → va + len + PAGE_SIZE ≤ 2 ^ 64 →
  (∀ x, va ≤ x < va + len → ∃ pa, query (ROUNDDOWN x PAGE_SIZE) = Some pa ∧ 0 ≤ pa < 2 ^ 64) →
  ∃ s', mark_pages_in_use query s va len = Some s' ∧ pmm_inv s' ∧
    (∀ x pa p, va ≤ x < va + len → query (ROUNDDOWN x PAGE_SIZE) = Some pa → paddr_to_vm_page s pa = Some p → pages s' !! p ≠ Some free_page) ∧
    (∀ p, pages s' !! p = pages s !! p ∨ ∃ x pa, va ≤ x < va + len ∧ query (ROUNDDOWN x PAGE_SIZE) = Some pa ∧ paddr_to_vm_page s pa = Some p).
Proof.
  intros Hi%reach_inv Hva Hlen Hend Hq. unfold mark_pages_in_use. assert (Eand : Z.land va (PAGE_SIZE - 1) = va mod PAGE_SIZE) by (change (PAGE_SIZE - 1) with (Z.ones 12); by rewrite Z.land_ones). rewrite Eand. pose proof (Z.mod_pos_bound va PAGE_SIZE ltac:(unfold PAGE_SIZE; lia)) as Hm. pose proof (Z.div_mod va PAGE_SIZE ltac:(unfold PAGE_SIZE; lia)) as Ed.
  pose proof (Z.div_pos va PAGE_SIZE ltac:(lia) ltac:(unfold PAGE_SIZE; lia)) as Hd. rewrite (u64_id (len + _)) by (unfold is_u64, PAGE_SIZE in *; lia). destruct (roundup_pow2_spec (len + va mod PAGE_SIZE) 12) as (Hr & Hrm & _); [lia|lia|unfold PAGE_SIZE in *; lia|]. change (2 ^ 12) with PAGE_SIZE in *.
  set (L := ROUNDUP _ _) in *. pose proof (Z.div_mod L PAGE_SIZE ltac:(unfold PAGE_SIZE; lia)) as EL. rewrite Hrm in EL. set (n := L / PAGE_SIZE) in *. set (v := ROUNDDOWN va PAGE_SIZE). assert (Ev : v = va / PAGE_SIZE * PAGE_SIZE) by apply rounddown_page. assert (Hn : 0 ≤ n) by (unfold PAGE_SIZE in *; lia).
  assert (Hfwd : ∀ j, 0 ≤ j < n → ∃ x, va ≤ x < va + len ∧ ROUNDDOWN x PAGE_SIZE = v + j * PAGE_SIZE).
  { intros j Hj. exists (Z.max va (v + j * PAGE_SIZE)). split; [unfold PAGE_SIZE in *; lia|]. apply rounddown_at; [rewrite Ev, <- Z.mul_add_distr_r; by apply Z.mod_mul|unfold PAGE_SIZE in *; lia]. }
  assert (Hbwd : ∀ x, va ≤ x < va + len → ∃ j, 0 ≤ j < n ∧ ROUNDDOWN x PAGE_SIZE = v + j * PAGE_SIZE).
  { intros x Hx. exists (x / PAGE_SIZE - va / PAGE_SIZE). rewrite rounddown_page. pose proof (Z.div_mod x PAGE_SIZE ltac:(unfold PAGE_SIZE; lia)). pose proof (Z.mod_pos_bound x PAGE_SIZE ltac:(unfold PAGE_SIZE; lia)). unfold PAGE_SIZE in *. split; lia. }
  destruct (mark_loop_ok query (Z.to_nat n) v s Hi) as (s' & E & Hi' & _ & Ht & Hu); [unfold PAGE_SIZE in *; lia|unfold PAGE_SIZE in *; lia|intros j Hj; destruct (Hfwd j) as (x & Hx & <-); [lia|]; by apply Hq|]. exists s'. split; [done|]. split; [done|]. split.
  - intros x pa p Hx Eq Ep. destruct (Hbwd x Hx) as (j & Hj & Ej). apply (Ht j pa p); [lia|by rewrite <- Ej|done].
  - intros p. destruct (Hu p) as [->|(_ & j & pa & Hj & Ej & Ep)]; [by left|right]. destruct (Hfwd j) as (x & Hx & Ex); [lia|]. exists x, pa. by rewrite Ex.
Qed.

(** ** Pages that the kernel has mapped *)

Section kernel_pages.
Context (vaddr_to_paddr : Z → Z).

Lemma kpages_list_ok a v k : (0 ≤ v) → v + npages a * PAGE_SIZE ≤ 2 ^ 64 → (∀ i, 0 ≤ i < npages a → vaddr_to_paddr (v + i * PAGE_SIZE) = ar_base a + i * PAGE_SIZE) →
  ∀ i s, pmm_inv s → a ∈ arenas s → 0 ≤ i → i + Z.of_nat k ≤ npages a → (∀ p, p ∈ pages_from a i k → pages s !! p = Some (mk_page false VM_PAGE_STATE_ALLOC)) →
  ∃ s', kpages_list vaddr_to_paddr k (u64 (v + i * PAGE_SIZE)) s = Some (pages_from a i k, s') ∧ pmm_inv s' ∧ (∀ p, pages s' !! p = if decide (p ∈ pages_from a i k) then Some (mk_page true VM_PAGE_STATE_ALLOC) else pages s !! p).
Proof.
  intros Hv Hend Hq. induction k as [|k IH]; intros i s Hi Ha Hi0 Hk Hps; cbn [kpages_list]; [exists s; split; [done|]; split; [done|]; intros p; by rewrite decide_False by apply not_elem_of_nil|].
  rewrite pages_from_S in Hps |- *. rewrite u64_idemp. assert (Hb : 0 ≤ i < npages a) by lia. rewrite u64_id by (unfold is_u64, PAGE_SIZE in *; lia). rewrite Hq by done. rewrite (proj2 (page_of_paddr s a i _ Hi Ha Hb)) by (unfold PAGE_SIZE; lia). pose proof (Hps (page_at a i) ltac:(by left)) as Hp. unfold link_page at 1. rewrite Hp. cbn [mbind option_bind pg_linked negb pg_state].
  set (s1 := mk_pmm _ _ _). assert (Hi1 : pmm_inv s1) by (by apply (owner_inv s _ _ (mk_page true VM_PAGE_STATE_ALLOC) Hi Hp)). replace (v + i * PAGE_SIZE + PAGE_SIZE) with (v + (i + 1) * PAGE_SIZE) by lia. assert (Hne : page_at a i ∉ pages_from a (i + 1) k) by (rewrite pages_from_elem; intros (j & Hj & E%page_at_inj); lia).
  destruct (IH (i + 1) s1 Hi1 Ha) as (s' & -> & Hi' & Hp'); [lia|lia|intros p Hp1; unfold s1; cbn [pages]; rewrite lookup_insert_ne by (by intros <-); apply Hps; by right|]. exists s'. split; [done|]. split; [done|]. intros p. rewrite Hp'. unfold s1. cbn [pages]. destruct (decide (p ∈ pages_from a (i + 1) k)) as [Hin|Hout]; [by rewrite decide_True by (by right)|].
  destruct (decide (p = page_at a i)) as [->|Hpi]; [rewrite lookup_insert_eq, decide_True by (by left); done|]. rewrite lookup_insert_ne by congruence. by rewrite decide_False by (intros [?|?]%elem_of_cons; done).
Qed.

(** The kernel's mapping of an arena. *)
Definition mapped_at (maps : list mmu_initial_mapping) (a : pmm_arena) (v : Z) : Prop :=
  0 ≤ v ∧ v + ar_size a ≤ 2 ^ 64 ∧ ∀ i, 0 ≤ i < npages a → paddr_to_kvaddr maps (ar_base a + i * PAGE_SIZE) = Some (v + i * PAGE_SIZE) ∧ vaddr_to_paddr (v + i * PAGE_SIZE) = ar_base a + i * PAGE_SIZE.

Lemma free_kpages_ok s maps a v st k s1 : pmm_inv s → a ∈ arenas s → mapped_at maps a v → 0 ≤ st → st + Z.of_nat k ≤ npages a → claims false s (pages_from a st k) s1 →
  ∃ s2, pmm_free_kpages vaddr_to_paddr s1 (u64 (v + st * PAGE_SIZE)) (Z.of_nat k) = Some (Z.of_nat k, s2) ∧ pages s2 = pages s.
Proof.
  intros Hi Ha (Hv & Hend & Hmap) Hst Hk Hcl. pose proof (npages_pos a (arena_geo s a Hi Ha)) as [_ Es]. destruct (claims_pages _ _ _ _ Hi Hcl) as (Hnd & Hf & Hp). pose proof (claims_inv _ _ _ _ Hi Hcl) as Hi1. assert (∃ a1, a1 ∈ arenas s1 ∧ geo a1 = geo a) as (a1 & Ha1 & Eg).
  { assert (Hg : geo a ∈ geo <$> arenas s1) by (rewrite (claims_layout _ _ _ _ Hcl); apply list_elem_of_fmap; eauto). apply list_elem_of_fmap in Hg as (a1 & ? & ?). by exists a1. }
  destruct (npages_geo a a1 Eg) as (En & Eb & _). unfold pmm_free_kpages. rewrite Nat2Z.id. destruct (kpages_list_ok a1 v k Hv ltac:(rewrite En; lia) ltac:(intros i Hi'; rewrite Eb; apply Hmap; lia) st s1 Hi1 Ha1 Hst ltac:(lia)) as (s2 & E & Hi2 & Hp2); [intros p Hin; rewrite (pages_from_geo a a1) in Hin by done; rewrite Hp, decide_True by done; done|].
  rewrite (pages_from_geo a a1) in E, Hp2 by done. rewrite E. cbn [mbind option_bind]. destruct (free_spec s2 (pages_from a st k) Hi2 Hnd) as (s3 & E3 & _ & _ & Hp3); [intros p Hin; rewrite Hp2, decide_True by done; eauto|]. exists s3. rewrite E3. split; [do 2 f_equal; unfold zlen, pages_from; by rewrite length_fmap, length_seq|].
  apply map_eq. intros p. rewrite Hp3, Hp2, Hp. destruct (decide (p ∈ _)); [symmetry; auto|done].
Qed.

(** Pages for the kernel: if every arena that is marked as mapped is mapped in one piece,
    [pmm_alloc_kpages] either finds nothing and changes nothing, or returns the mapping of
    contiguous pages, which [pmm_free_kpages] frees, every one. *)
Theorem pmm_kpages_roundtrip s maps count : pmm_reach s → 0 < count < 2 ^ 63 → (∀ a, a ∈ arenas s → eligible PMM_ALLOC_FLAG_KMAP a = true → ∃ v, mapped_at maps a v) →
  ∃ r s1, pmm_alloc_kpages s maps count None = Some (r, None, s1) ∧
    match r with Some (ptr, pa) => paddr_to_kvaddr maps pa = Some ptr ∧ ∃ s2, pmm_free_kpages vaddr_to_paddr s1 ptr count = Some (count, s2) ∧ pages s2 = pages s | None => s1 = s end.
Proof.
  intros Hi%reach_inv Hc Hmap. unfold pmm_alloc_kpages. destruct (count =? 1) eqn:E1; zb.
  - subst count. destruct (alloc_page_spec s PMM_ALLOC_FLAG_KMAP Hi) as (r & s1 & -> & Hr). cbn [mbind option_bind]. destruct r as [[p pa]|]; [|destruct Hr as [-> _]; by exists None, s]. destruct Hr as (Hcl & Epa & a & Ha & Hel & Hp). destruct (Hmap a Ha Hel) as (v & Hv). apply (ao_free _ _ (pi_arenas _ Hi a Ha)) in Hp as [(i & Hb & ->) _].
    rewrite (to_paddr s a i Hi Ha Hb) in Epa. subst pa. pose proof Hv as (H0 & Hend & Hm). destruct (Hm i Hb) as [Em _]. rewrite Em. cbn [mbind option_bind]. eexists _, s1. split; [done|]. split; [done|]. pose proof (npages_pos a (arena_geo s a Hi Ha)) as [_ Es].
    destruct (free_kpages_ok s maps a v i 1 s1 Hi Ha Hv) as (s2 & E & ?); [lia|lia|unfold pages_from; cbn; by rewrite Z.add_0_r|]. rewrite u64_id in E by (unfold is_u64, PAGE_SIZE in *; lia). by exists s2.
  - destruct (contiguous_spec s count PMM_ALLOC_FLAG_KMAP PAGE_SIZE_SHIFT None Hi Hc ltac:(done)) as (n & pa & ps & s1 & -> & Hcl & Hr). cbn [mbind option_bind fmap option_fmap option_map]. destruct Hr as [(-> & a & st & Ha & Hel & (Hst & Hk & _) & -> & -> & _)|(-> & -> & -> & _)]; [|by exists None, s].
    destruct (count =? 0) eqn:E0; zb; [lia|]. destruct (Hmap a Ha Hel) as (v & Hv). pose proof Hv as (H0 & Hend & Hm). destruct (Hm st) as [Em _]; [lia|]. rewrite Em. cbn [mbind option_bind]. eexists _, s1. split; [done|]. split; [done|]. pose proof (npages_pos a (arena_geo s a Hi Ha)) as [_ Es].
    destruct (free_kpages_ok s maps a v st (Z.to_nat count) s1 Hi Ha Hv) as (s2 & E & ?); [lia|lia|done|]. rewrite u64_id in E by (unfold is_u64, PAGE_SIZE in *; lia). rewrite Z2Nat.id in E by lia. by exists s2.
Qed.

End kernel_pages.

(** ** An instance: two arenas, four pages and three *)

Definition demo_arena (flags prio base n : Z) : pmm_arena := mk_arena flags prio base (n * PAGE_SIZE) 0 0 [].
Definition demo_low : pmm_arena := demo_arena PMM_ARENA_FLAG_KMAP 1 1052672 4.
Definition demo_high : pmm_arena := demo_arena 0 2 4194304 3.
Definition demo_start : pmm := mk_pmm [] ∅ 65537.
Definition demo_one : pmm := match pmm_add_arena demo_start demo_high with Some (_, s) => s | None => demo_start end.
Definition demo : pmm := match pmm_add_arena demo_one demo_low with Some (_, s) => s | None => demo_start end.

Lemma demo_reach : pmm_reach demo.
Proof.
  apply (pr_add demo_one demo_low NO_ERROR).
  - apply (pr_add demo_start demo_high NO_ERROR); [constructor| |vm_compute; reflexivity]. split; cbn [arenas demo_start]; [done|done|by intros b ?%not_elem_of_nil|done|done].
  - split; [done|done| |done|done]. assert (E : arenas demo_one = [mk_arena 0 2 4194304 12288 3 65544 [65544; 65568; 65592]]) by (vm_compute; reflexivity). rewrite E. intros b ->%list_elem_of_singleton. left. by vm_compute.
  - vm_compute. reflexivity.
Qed.



Lemma pmm_alloc_free_witness : ∃ n ps s1 s2, pmm_alloc_pages demo 5 0 [] = Some (n, ps, s1) ∧ n = 4 ∧ pmm_free s1 ps = Some (n, s2) ∧ pages s2 = pages demo.
Proof.
  destruct (pmm_alloc_free demo 5 0 1052672 12 demo_reach) as ((n & ps & s1 & s2 & E & Ef & Hp) & _ & _); [lia|lia|lia|]. exists n, ps, s1, s2. split; [done|]. split; [|done]. assert (En : (λ r, r.1.1) <$> pmm_alloc_pages demo 5 0 [] = Some 4) by (vm_compute; reflexivity). rewrite E in En. by injection En.
Defined.

(** Five pages are not to be had at once, although seven are free. *)
Lemma pmm_alloc_pages_one_arena_witness : ∃ ps s', pmm_alloc_pages demo 5 0 [] = Some (zlen ps, ps, s') ∧ zlen ps = 4 ∧ total_pages (arenas demo) = 7.
Proof.
  destruct (pmm_alloc_pages_one_arena demo 5 0 [] demo_reach) as (ps & s' & E & Hz & _); [lia|]. exists ps, s'. split; [done|]. split; [rewrite Hz; vm_compute; reflexivity|vm_compute; reflexivity].
Defined.

Lemma pmm_alloc_range_takes_witness : ∃ ps s', pmm_alloc_range demo 1056800 2 None = Some (zlen ps, None, s') ∧ zlen ps ≤ 2 ∧ ∀ j p, ps !! j = Some p → vm_page_to_paddr demo p = u64 (1056768 + Z.of_nat j * PAGE_SIZE).
Proof.
  destruct (pmm_alloc_range_takes demo 1056800 2 None demo_reach) as (ps & s' & E & Hle & Hp & _); [lia|lia|]. exists ps, s'. split; [done|]. split; [done|]. intros j p Hj. by apply Hp.
Defined.

Definition demo_maps : list mmu_initial_mapping := [mk_mapping 1052672 (2 ^ 40) 16384 false].

Lemma mark_pages_in_use_marks_witness : ∃ s', mark_pages_in_use (λ va, Some (va - 2 ^ 40 + 1052672)) demo (2 ^ 40 + 5) 4096 = Some s' ∧ pmm_inv s' ∧ ∀ p, paddr_to_vm_page demo 1052672 = Some p → pages s' !! p ≠ Some free_page.
Proof.
  destruct (mark_pages_in_use_marks (λ va, Some (va - 2 ^ 40 + 1052672)) demo (2 ^ 40 + 5) 4096 demo_reach) as (s' & E & Hi & Ht & _); [lia|lia|unfold PAGE_SIZE; lia| |].
  - intros x Hx. eexists. split; [done|]. rewrite rounddown_page. pose proof (Z.div_mod x PAGE_SIZE ltac:(unfold PAGE_SIZE; lia)). pose proof (Z.mod_pos_bound x PAGE_SIZE ltac:(unfold PAGE_SIZE; lia)). unfold PAGE_SIZE in *. lia.
  - exists s'. split; [exact E|]. split; [done|]. intros p Hp. apply (Ht (2 ^ 40 + 5) 1052672 p); [lia|reflexivity|done].
Defined.

Lemma pmm_kpages_roundtrip_witness : ∃ s1 s2, pmm_alloc_kpages demo demo_maps 3 None = Some (Some (2 ^ 40, 1052672), None, s1) ∧ pmm_free_kpages (λ va, va - 2 ^ 40 + 1052672) s1 (2 ^ 40) 3 = Some (3, s2) ∧ pages s2 = pages demo.
Proof.
  assert (Ear : filter (λ a, eligible PMM_ALLOC_FLAG_KMAP a = true) (arenas demo) = take 1 (arenas demo) ∧ (geo <$> take 1 (arenas demo)) = [geo (mk_arena 1 1 1052672 16384 0 65616 [])]) by (split; vm_compute; reflexivity). destruct Ear as [E1 E2].
  destruct (pmm_kpages_roundtrip (λ va, va - 2 ^ 40 + 1052672) demo demo_maps 3 demo_reach) as (r & s1 & E & Hr); [lia| |].
  - intros a Ha Hel. assert (Hin : geo a ∈ geo <$> take 1 (arenas demo)) by (rewrite <- E1; apply list_elem_of_fmap; exists a; split; [done|]; by apply list_elem_of_filter). rewrite E2 in Hin. apply list_elem_of_singleton in Hin. destruct (npages_geo _ _ Hin) as (En & Eb & Es & _). exists (2 ^ 40). unfold mapped_at. rewrite En, Eb, Es. cbn [ar_base ar_size]. split; [lia|]. split; [lia|].
    change (npages _) with 4. intros i Hi. assert (Hcase : i = 0 ∨ i = 1 ∨ i = 2 ∨ i = 3) by lia. destruct Hcase as [->|[->|[->| ->]]]; (split; [vm_compute; reflexivity|vm_compute; reflexivity]).
  - assert (En : (λ r, r.1.1) <$> pmm_alloc_kpages demo demo_maps 3 None = Some (Some (2 ^ 40, 1052672))) by (vm_compute; reflexivity). rewrite E in En. cbn [fmap option_fmap option_map fst] in En. injection En as ->. destruct Hr as [_ (s2 & Ef & Hp)]. by exists s1, s2.
Defined.
End PmmFacts.
