(* ===== verification/VmObject.v ===== *)
(** * Objects of virtual memory

    [src/kernel/kernel/vm/vm_object.cpp] and [TrimRange] of [vm_priv.h].  An object is a
    range of bytes.  It has an array with a pointer for each of its pages, null until the
    page is needed, and a list of the pages that it has.

    The state that all objects share is the allocator of pages, the bytes of physical
    memory, and the oracle of [new].  Physical memory is a map from the address of a page
    to its bytes; the kernel reaches them through its permanent mapping of the page, and
    an access to a page without one is [None].  The copy routine of a transfer gets the
    bytes at its address and returns an error code, the bytes that are there afterwards,
    and the caller's buffer. *)

From stdpp Require Import base tactics numbers list gmap.
From Stdlib Require Import ZArith.
From S2P Require Import Prelude Pmm.
#[local] Open Scope Z_scope.

Module VmObject.
Import Pmm.

Definition MAX_SIZE : Z := ROUNDDOWN (2 ^ 64 - 1) PAGE_SIZE.
Definition ROUNDUP_PAGE_SIZE (x : Z) : Z := ROUNDUP x PAGE_SIZE.

(** The conversion of an unsigned length to [int64_t]. *)
Definition i64 (x : Z) : Z := (x + 2 ^ 63) mod 2 ^ 64 - 2 ^ 63.

(** [arch/x86/rules.mk]. *)
Definition KERNEL_ASPACE_BASE : Z := 2 ^ 64 - 2 ^ 39.
Definition KERNEL_ASPACE_SIZE : Z := 2 ^ 39.
Definition USER_ASPACE_BASE : Z := 2 ^ 24.
Definition USER_ASPACE_SIZE : Z := 2 ^ 47 - 2 ^ 12 - 2 ^ 24.

Definition is_kernel_address (va : Z) : bool := (KERNEL_ASPACE_BASE <=? va) && (va <=? KERNEL_ASPACE_BASE + (KERNEL_ASPACE_SIZE - 1)).
Definition is_user_address (va : Z) : bool := (USER_ASPACE_BASE <=? va) && (va <=? USER_ASPACE_BASE + (USER_ASPACE_SIZE - 1)).

(** A null array is [None]. *)
Record vm_object := mk_vmo { size_ : Z; pmm_alloc_flags_ : Z; page_array_ : option (list (option Z)); page_list_ : list Z }.

Record machine := mk_machine { m_pmm : pmm; m_ram : gmap Z (list Z); m_mem : mem }.

Definition set_pmm (w : machine) (s : pmm) : machine := mk_machine s (m_ram w) (m_mem w).
Definition set_ram (w : machine) (pa : Z) (bs : list Z) : machine := mk_machine (m_pmm w) (<[pa := bs]> (m_ram w)) (m_mem w).

(** The length after trimming, or [None] if the offset is out of range. *)
Definition TrimRange (offset len trim_to_len : Z) : option Z :=
  if u64 (offset + len) <? offset then None else
  if trim_to_len <? offset then None else
  if trim_to_len <? u64 (offset + len) then Some (u64 (trim_to_len - offset)) else Some len.

Definition OffsetToIndex (offset : Z) : Z := offset / PAGE_SIZE.

(** [page_array_[index]]; the array checks the index. *)
Definition page_at_index (v : vm_object) (index : Z) : option (option Z) := l ← page_array_ v; l !! Z.to_nat index.

Section objects.
Context (maps : list mmu_initial_mapping).

(** The bytes of a page that the kernel has mapped. *)
Definition page_bytes (w : machine) (pa : Z) : option (list Z) := _ ← paddr_to_kvaddr maps pa; m_ram w !! pa.

Definition ZeroPage (w : machine) (pa : Z) : option machine :=
  _ ← page_bytes w pa;
  Some (set_ram w pa (replicate (Z.to_nat PAGE_SIZE) 0)).

(** ** Life of an object *)

Definition VmObject_new (flags : Z) : vm_object := mk_vmo 0 flags None [].

Definition Resize (v : vm_object) (w : machine) (s : Z) : option (Z * vm_object * machine) :=
  if MAX_SIZE <? ROUNDUP_PAGE_SIZE s then Some (ERR_TOO_BIG, v, w) else
  if negb (size_ v =? 0) then Some (ERR_NOT_SUPPORTED, v, w) else
  let page_count := OffsetToIndex (ROUNDUP_PAGE_SIZE s) in
  let v1 := mk_vmo s (pmm_alloc_flags_ v) (page_array_ v) (page_list_ v) in
  ASSERT bool_decide (page_array_ v = None);
  let '(ok, m) := alloc (m_mem w) in
  let w1 := mk_machine (m_pmm w) (m_ram w) m in
  if negb ok then Some (ERR_NO_MEMORY, v1, w1) else
  Some (NO_ERROR, mk_vmo s (pmm_alloc_flags_ v) (Some (replicate (Z.to_nat page_count) None)) (page_list_ v), w1).

(** The pages of the array, off the list of the object and on a list of their own. *)
Fixpoint detach (l : list (option Z)) (m : gmap Z vm_page) (plist : list Z) : option (list Z * list Z) :=
  match l with
  | [] => Some ([], plist)
  | None :: l' => detach l' m plist
  | Some p :: l' =>
    pg ← m !! p;
    ASSERT pg_linked pg && bool_decide (p ∈ plist);
    '(lst, plist1) ← detach l' m (filter (λ x, x ≠ p) plist);
    Some (p :: lst, plist1)
  end.

Definition VmObject_delete (v : vm_object) (w : machine) : option machine :=
  '(lst, plist) ← detach (default [] (page_array_ v)) (pages (m_pmm w)) (page_list_ v);
  ASSERT bool_decide (plist = []);
  '(freed, s) ← pmm_free (m_pmm w) lst;
  ASSERT freed =? zlen lst;
  Some (set_pmm w s).

(** The object, or a null pointer. *)
Definition Create (w : machine) (flags size : Z) : option (option vm_object * machine) :=
  if MAX_SIZE <? size then Some (None, w) else
  let '(ok, m) := alloc (m_mem w) in
  let w1 := mk_machine (m_pmm w) (m_ram w) m in
  if negb ok then Some (None, w1) else
  '(err, v, w2) ← Resize (VmObject_new flags) w1 size;
  if err =? ERR_NO_MEMORY then w3 ← VmObject_delete v w2; Some (None, w3) else
  ASSERT err =? NO_ERROR;
  Some (Some v, w2).

(** ** Pages *)

Definition AddPageToArray (v : vm_object) (s : pmm) (index p : Z) : option (vm_object * pmm) :=
  l ← page_array_ v;
  e ← l !! Z.to_nat index;
  ASSERT bool_decide (e = None);
  s1 ← link_page s p;
  Some (mk_vmo (size_ v) (pmm_alloc_flags_ v) (Some (<[Z.to_nat index := Some p]> l)) (page_list_ v ++ [p]), s1).

Definition AddPage (v : vm_object) (w : machine) (p offset : Z) : option (Z * vm_object * machine) :=
  if size_ v <=? offset then Some (ERR_OUT_OF_RANGE, v, w) else
  '(v1, s1) ← AddPageToArray v (m_pmm w) (OffsetToIndex offset) p;
  Some (NO_ERROR, v1, set_pmm w s1).

Definition GetPage (v : vm_object) (offset : Z) : option (option Z) :=
  if size_ v <=? offset then Some None else page_at_index v (OffsetToIndex offset).

Definition FaultPageLocked (v : vm_object) (w : machine) (offset : Z) : option (option Z * vm_object * machine) :=
  if size_ v <=? offset then Some (None, v, w) else
  let index := OffsetToIndex offset in
  e ← page_at_index v index;
  match e with
  | Some p => Some (Some p, v, w)
  | None =>
    '(r, s1) ← pmm_alloc_page (m_pmm w) (pmm_alloc_flags_ v);
    match r with
    | None => Some (None, v, set_pmm w s1)
    | Some (p, pa) =>
      w1 ← ZeroPage (set_pmm w s1) pa;
      '(v2, s2) ← AddPageToArray v (m_pmm w1) index p;
      Some (Some p, v2, set_pmm w1 s2)
    end
  end.

Definition FaultPage (v : vm_object) (w : machine) (offset : Z) : option (option Z * vm_object * machine) := FaultPageLocked v w offset.

(** ** Commitment of a range *)

(** The pages that are missing from [o] on. *)
Fixpoint count_missing (fuel : nat) (v : vm_object) (o e : Z) : option Z :=
  match fuel with
  | O => None
  | S f =>
    if o <? e then
      p ← page_at_index v (OffsetToIndex o);
      n ← count_missing f v (u64 (o + PAGE_SIZE)) e;
      Some (match p with None => n + 1 | Some _ => n end)
    else Some 0
  end.

(** [list_remove_head] takes a page off the list that it is on. *)
Definition unlink_page (s : pmm) (p : Z) : option pmm :=
  pg ← pages s !! p;
  ASSERT pg_linked pg;
  Some (mk_pmm (arenas s) (<[p := mk_page false (pg_state pg)]> (pages s)) (boot_alloc_end s)).

(** The loop that gives a page to each offset. *)
Fixpoint add_pages (fuel : nat) (v : vm_object) (w : machine) (o e : Z) (lst : list Z) : option (vm_object * machine * list Z) :=
  match fuel with
  | O => None
  | S f =>
    if o <? e then
      match lst with
      | [] => None
      | p :: lst' =>
        s1 ← unlink_page (m_pmm w) p;
        w1 ← ZeroPage (set_pmm w s1) (vm_page_to_paddr s1 p);
        '(v2, s2) ← AddPageToArray v (m_pmm w1) (OffsetToIndex o) p;
        add_pages f v2 (set_pmm w1 s2) (u64 (o + PAGE_SIZE)) e lst'
      end
    else Some (v, w, lst)
  end.

(** One turn for each page from [offset] to [e], and one that finds the end. *)
Definition range_fuel (offset e : Z) : nat := S (S (Z.to_nat ((e - offset) / PAGE_SIZE))).

Definition CommitRange (v : vm_object) (w : machine) (offset len : Z) : option (Z * vm_object * machine) :=
  match TrimRange offset len (size_ v) with
  | None => Some (ERR_OUT_OF_RANGE, v, w)
  | Some len =>
    if len =? 0 then Some (0, v, w) else
    let e := ROUNDUP_PAGE_SIZE (u64 (offset + len)) in
    ASSERT offset <? e;
    count ← count_missing (range_fuel offset e) v offset e;
    if count =? 0 then Some (0, v, w) else
    '(allocated, lst, s1) ← pmm_alloc_pages (m_pmm w) count (pmm_alloc_flags_ v) [];
    if allocated <? count then '(_, s2) ← pmm_free s1 lst; Some (ERR_NO_MEMORY, v, set_pmm w s2) else
    '(v2, w2, rest) ← add_pages (range_fuel offset e) v (set_pmm w s1) offset e lst;
    ASSERT bool_decide (rest = []);
    Some (i64 len, v2, w2)
  end.

(** The number of offsets, or [None] inside if one has a page. *)
Fixpoint empty_run (fuel : nat) (v : vm_object) (o e : Z) : option (option Z) :=
  match fuel with
  | O => None
  | S f =>
    if o <? e then
      p ← page_at_index v (OffsetToIndex o);
      match p with
      | Some _ => Some None
      | None => r ← empty_run f v (u64 (o + PAGE_SIZE)) e; Some (match r with Some n => Some (n + 1) | None => None end)
      end
    else Some (Some 0)
  end.

Definition CommitRangeContiguous (v : vm_object) (w : machine) (offset len alignment_log2 : Z) : option (Z * vm_object * machine) :=
  match TrimRange offset len (size_ v) with
  | None => Some (ERR_OUT_OF_RANGE, v, w)
  | Some len =>
    if len =? 0 then Some (0, v, w) else
    let e := ROUNDUP_PAGE_SIZE (u64 (offset + len)) in
    ASSERT offset <? e;
    r ← empty_run (range_fuel offset e) v offset e;
    match r with
    | None => Some (ERR_NO_MEMORY, v, w)
    | Some count =>
      ASSERT count =? len / PAGE_SIZE;
      '(allocated, _, lst, s1) ← pmm_alloc_contiguous (m_pmm w) count (pmm_alloc_flags_ v) alignment_log2 (Some []);
      let lst := default [] lst in
      if allocated <? count then '(_, s2) ← pmm_free s1 lst; Some (ERR_NO_MEMORY, v, set_pmm w s2) else
      ASSERT zlen lst =? allocated;
      '(v2, w2, _) ← add_pages (range_fuel offset e) v (set_pmm w s1) offset e lst;
      Some (i64 (u64 (count * PAGE_SIZE)), v2, w2)
    end
  end.

(** ** Transfers *)

Section transfer.
Context {B : Type} (copyfunc : list Z → Z → Z → B → option (Z * list Z * B)).

Fixpoint rw_loop (fuel : nat) (v : vm_object) (w : machine) (offset len copied : Z) (b : B) : option (Z * Z * vm_object * machine * B) :=
  match fuel with
  | O => None
  | S f =>
    if 0 <? len then
      let page_offset := offset mod PAGE_SIZE in
      let tocopy := Z.min (PAGE_SIZE - page_offset) len in
      '(r, v1, w1) ← FaultPageLocked v w offset;
      match r with
      | None => Some (ERR_NO_MEMORY, copied, v1, w1, b)
      | Some p =>
        let pa := vm_page_to_paddr (m_pmm w1) p in
        bs ← page_bytes w1 pa;
        chunk ← read_at page_offset tocopy bs;
        '(err, chunk1, b1) ← copyfunc chunk copied tocopy b;
        bs1 ← write_at page_offset chunk1 bs;
        let w2 := set_ram w1 pa bs1 in
        if err <? 0 then Some (err, copied, v1, w2, b1) else
        rw_loop f v1 w2 (u64 (offset + tocopy)) (len - tocopy) (u64 (copied + tocopy)) b1
      end
    else Some (NO_ERROR, copied, v, w, b)
  end.

(** The status, the number of bytes copied, and the state.  A turn ends at the end of a
    page or of the range. *)
Definition ReadWriteInternal (v : vm_object) (w : machine) (offset len : Z) (b : B) : option (Z * Z * vm_object * machine * B) :=
  match TrimRange offset len (size_ v) with
  | None => Some (ERR_OUT_OF_RANGE, 0, v, w, b)
  | Some len => if len =? 0 then Some (0, 0, v, w, b) else rw_loop (S (S (S (Z.to_nat (len / PAGE_SIZE))))) v w offset len 0 b
  end.

End transfer.

(** [memcpy] to the caller's buffer, and from it. *)
Definition read_routine (chunk : list Z) (offset len : Z) (b : list Z) : option (Z * list Z * list Z) := b1 ← write_at offset chunk b; Some (NO_ERROR, chunk, b1).
Definition write_routine (chunk : list Z) (offset len : Z) (b : list Z) : option (Z * list Z * list Z) := d ← read_at offset len b; Some (NO_ERROR, d, b).

Definition Read (v : vm_object) (w : machine) (ptr : Z) (buf : list Z) (offset len : Z) : option (Z * Z * vm_object * machine * list Z) :=
  ASSERT is_kernel_address ptr;
  ReadWriteInternal read_routine v w offset len buf.

Definition Write (v : vm_object) (w : machine) (ptr : Z) (buf : list Z) (offset len : Z) : option (Z * Z * vm_object * machine * list Z) :=
  ASSERT is_kernel_address ptr;
  ReadWriteInternal write_routine v w offset len buf.

(** Copies to and from user space: the memory of the user is opaque.  A copy from it
    returns the bytes that were copied before an error. *)
Section user.
Context {U : Type} (copy_to_user : U → Z → list Z → Z * U) (copy_from_user : U → Z → Z → Z * list Z).

Definition read_user_routine (ptr : Z) (chunk : list Z) (offset len : Z) (u : U) : option (Z * list Z * U) :=
  let '(err, u1) := copy_to_user u (u64 (ptr + offset)) chunk in Some (err, chunk, u1).
Definition write_user_routine (ptr : Z) (chunk : list Z) (offset len : Z) (u : U) : option (Z * list Z * U) :=
  let '(err, bs) := copy_from_user u (u64 (ptr + offset)) len in chunk1 ← write_at 0 bs chunk; Some (err, chunk1, u).

Definition ReadUser (v : vm_object) (w : machine) (ptr : Z) (u : U) (offset len : Z) : option (Z * Z * vm_object * machine * U) :=
  ASSERT is_user_address ptr;
  ReadWriteInternal (read_user_routine ptr) v w offset len u.

Definition WriteUser (v : vm_object) (w : machine) (ptr : Z) (u : U) (offset len : Z) : option (Z * Z * vm_object * machine * U) :=
  ASSERT is_user_address ptr;
  ReadWriteInternal (write_user_routine ptr) v w offset len u.

End user.

End objects.

End VmObject.
