(* ===== verification/VmObjectFacts.v ===== *)
(** * An object is an array of bytes, zero at first

    The invariant of the pages of an object; the bytes that it stands for; that faults and
    commitments do not change them, writes store them and reads return them; and that the
    objects do not disturb each other. *)

From stdpp Require Import base tactics numbers list list_numbers gmap sorting.
From Stdlib Require Import ZArith Lia.
From S2P Require Import Prelude Pmm PmmFacts VmObject.
#[local] Open Scope Z_scope.

Module VmObjectFacts.
Import Pmm PmmFacts VmObject.

(** ** Lists of optional pages *)

Lemma omap_insert_None {A} (l : list (option A)) i x : l !! i = Some None → omap id (<[i := Some x]> l) ≡ₚ x :: omap id l.
Proof.
  intros Hi. pose proof (lookup_lt_Some _ _ _ Hi). rewrite <- (take_drop_middle l i None Hi) at 2. rewrite insert_take_drop by done. rewrite !omap_app. cbn [omap list_omap id]. by rewrite Permutation_middle.
Qed.

Lemma omap_id_elem {A} (l : list (option A)) x : x ∈ omap id l ↔ ∃ i, l !! i = Some (Some x).
Proof. rewrite list_elem_of_omap. split; [intros (y & Hy & E); unfold id in E; subst y; by apply list_elem_of_lookup in Hy|intros [i Hi]; exists (Some x); split; [by eapply list_elem_of_lookup_2|done]]. Qed.

Lemma omap_id_inj {A} (l : list (option A)) : NoDup (omap id l) → ∀ i j x, l !! i = Some (Some x) → l !! j = Some (Some x) → i = j.
Proof.
  induction l as [|[y|] l IH]; cbn [omap list_omap id]; intros Hnd [|i] [|j] x Hi Hj; cbn in Hi, Hj; try done; try (f_equal; eapply IH; done).
  - injection Hi as ->. apply list.NoDup_cons in Hnd as [Hn _]. destruct Hn. apply omap_id_elem. eauto.
  - injection Hj as ->. apply list.NoDup_cons in Hnd as [Hn _]. destruct Hn. apply omap_id_elem. eauto.
  - f_equal. apply list.NoDup_cons in Hnd as [_ Hnd]. by eapply IH.
Qed.

(** ** Addresses of pages *)

Lemma paddr_of_geo s s' p : geo <$> arenas s' = geo <$> arenas s → vm_page_to_paddr s' p = vm_page_to_paddr s p.
Proof.
  intros Hg. assert (H : ∀ l, match list_find (λ a, PAGE_BELONGS_TO_ARENA p a = true) l with Some (_, a) => PAGE_ADDRESS_FROM_ARENA p a | None => 2 ^ 64 - 1 end =
    match list_find (λ a, PAGE_BELONGS_TO_ARENA p a = true) (geo <$> l) with Some (_, a) => PAGE_ADDRESS_FROM_ARENA p a | None => 2 ^ 64 - 1 end); [|unfold vm_page_to_paddr; rewrite (H (arenas s')), (H (arenas s)), Hg; done].
  intros l. rewrite list_find_fmap. change (λ a, PAGE_BELONGS_TO_ARENA p (geo a) = true) with (λ a, PAGE_BELONGS_TO_ARENA p a = true). unfold compose. cbn [fmap option_fmap option_map]. destruct (list_find _ l) as [[i a]|]; done.
Qed.

Lemma paddr_inj s p q : pmm_inv s → is_Some (pages s !! p) → is_Some (pages s !! q) → vm_page_to_paddr s p = vm_page_to_paddr s q → p = q.
Proof.
  intros Hi Hp Hq E. destruct (pi_owned _ Hi p Hp) as (a & i & Ha & Hb & ->). destruct (pi_owned _ Hi q Hq) as (b & j & Hb' & Hj & ->). rewrite (to_paddr s a i), (to_paddr s b j) in E by done.
  pose proof (proj2 (page_of_paddr s a i (ar_base a + i * PAGE_SIZE) Hi Ha Hb)) as E1. pose proof (proj2 (page_of_paddr s b j (ar_base b + j * PAGE_SIZE) Hi Hb' Hj)) as E2. rewrite E in E1. rewrite E1 in E2 by (unfold PAGE_SIZE; lia). assert (Eq : Some (page_at a i) = Some (page_at b j)) by (apply E2; unfold PAGE_SIZE; lia). by injection Eq.
Qed.

(** ** The invariant *)

Section facts.
Context (maps : list mmu_initial_mapping).

(** The pages of an object, and the page with an index. *)
Definition owned (v : vm_object) : list Z := omap id (default [] (page_array_ v)).
Definition entry (v : vm_object) (i : Z) : option Z := mjoin (default [] (page_array_ v) !! Z.to_nat i).
Definition pages_of (n : Z) : Z := (n + (PAGE_SIZE - 1)) / PAGE_SIZE.

Definition paddr (w : machine) (p : Z) : Z := vm_page_to_paddr (m_pmm w) p.

Record world_ok (w : machine) : Prop := {
  wo_pmm : pmm_inv (m_pmm w);
  wo_ram p : is_Some (pages (m_pmm w) !! p) → ∃ bs, m_ram w !! paddr w p = Some bs ∧ zlen bs = PAGE_SIZE }.

(** The pages that an object may get are mapped by the kernel. *)
Definition kmapped (w : machine) (flags : Z) : Prop :=
  ∀ a i, a ∈ arenas (m_pmm w) → eligible flags a = true → 0 ≤ i < npages a → is_Some (paddr_to_kvaddr maps (ar_base a + i * PAGE_SIZE)).

Definition held_page : vm_page := mk_page true VM_PAGE_STATE_ALLOC.

Record vmo_ok (w : machine) (v : vm_object) : Prop := {
  vo_size : 0 ≤ size_ v ≤ MAX_SIZE;
  vo_array : ∃ l, page_array_ v = Some l ∧ zlen l = pages_of (size_ v);
  vo_pages p : p ∈ owned v → pages (m_pmm w) !! p = Some held_page ∧ is_Some (paddr_to_kvaddr maps (paddr w p));
  vo_nodup : NoDup (owned v);
  vo_list : page_list_ v ≡ₚ owned v;
  vo_flags : kmapped w (pmm_alloc_flags_ v) }.

(** The byte at an offset. *)
Definition byte (v : vm_object) (w : machine) (o : Z) : Z :=
  match entry v (o / PAGE_SIZE) with Some p => default 0 (bs ← m_ram w !! paddr w p; bs !! Z.to_nat (o mod PAGE_SIZE)) | None => 0 end.

Lemma entry_owned v i p : entry v i = Some p → p ∈ owned v.
Proof. unfold entry, owned. intros E. apply omap_id_elem. destruct (default [] (page_array_ v) !! Z.to_nat i) as [[q|]|] eqn:El; cbn in E; [|done|done]. injection E as ->. eauto. Qed.

Lemma entry_inj w v i j p : vmo_ok w v → 0 ≤ i → 0 ≤ j → entry v i = Some p → entry v j = Some p → i = j.
Proof.
  intros Hv Hi Hj Ei Ej. unfold entry in *. destruct (default [] (page_array_ v) !! Z.to_nat i) as [[q|]|] eqn:El; cbn in Ei; [|done|done]. destruct (default [] (page_array_ v) !! Z.to_nat j) as [[q'|]|] eqn:El'; cbn in Ej; [|done|done]. simplify_eq.
  pose proof (omap_id_inj _ (vo_nodup _ _ Hv) _ _ _ El El'). lia.
Qed.

(** ** What does not concern an object *)

Lemma geo_kmapped w w' flags : geo <$> arenas (m_pmm w') = geo <$> arenas (m_pmm w) → kmapped w flags → kmapped w' flags.
Proof.
  intros Hg Hk a i Ha Hel Hi. assert (Hin : geo a ∈ geo <$> arenas (m_pmm w)) by (rewrite <- Hg; apply list_elem_of_fmap; eauto). apply list_elem_of_fmap in Hin as (b & E & Hb). destruct (npages_geo _ _ E) as (En & Eb & _). rewrite Eb. apply Hk; [done| |lia]. unfold eligible in *. assert (Ef : ar_flags a = ar_flags b) by (by injection E). by rewrite <- Ef.
Qed.

Lemma vmo_frame w w' v : vmo_ok w v → geo <$> arenas (m_pmm w') = geo <$> arenas (m_pmm w) → (∀ p, p ∈ owned v → pages (m_pmm w') !! p = pages (m_pmm w) !! p) → vmo_ok w' v.
Proof.
  intros [V1 V2 V3 V4 V5 V6] Hg Hp. split; try done; [|by eapply geo_kmapped]. intros p Hin. destruct (V3 p Hin) as [E Hk]. unfold paddr. rewrite Hp by done. by rewrite (paddr_of_geo (m_pmm w)).
Qed.

Lemma byte_frame w w' v o : geo <$> arenas (m_pmm w') = geo <$> arenas (m_pmm w) → (∀ p, p ∈ owned v → m_ram w' !! paddr w p = m_ram w !! paddr w p) → byte v w' o = byte v w o.
Proof.
  intros Hg Hr. unfold byte. destruct (entry v (o / PAGE_SIZE)) as [p|] eqn:E; [|done]. unfold paddr at 1. rewrite (paddr_of_geo (m_pmm w)) by done. fold (paddr w p). by rewrite Hr by (by eapply entry_owned).
Qed.

(** What an operation on [v] leaves as it was: the pages in use that are not of [v]. *)
Definition keeps (v : vm_object) (w w' : machine) : Prop :=
  geo <$> arenas (m_pmm w') = geo <$> arenas (m_pmm w) ∧
  ∀ p pg, pages (m_pmm w) !! p = Some pg → pg_state pg ≠ VM_PAGE_STATE_FREE → p ∉ owned v → pages (m_pmm w') !! p = Some pg ∧ m_ram w' !! paddr w p = m_ram w !! paddr w p.

Lemma keeps_refl v w : keeps v w w.
Proof. by split. Qed.

(** Pages that an object gains were free. *)
Definition gains (v v' : vm_object) (w : machine) : Prop := ∀ p, p ∈ owned v' → p ∈ owned v ∨ pages (m_pmm w) !! p = Some free_page.

Lemma keeps_trans v v1 w w1 w2 : keeps v w w1 → gains v v1 w → keeps v1 w1 w2 → keeps v w w2.
Proof.
  intros [G1 K1] Hg [G2 K2]. split; [by rewrite G2|]. intros p pg Hp Hst Hno. destruct (K1 p pg Hp Hst Hno) as [Hp1 Hr1]. assert (Hno1 : p ∉ owned v1) by (intros Hin; destruct (Hg p Hin) as [?|Hf]; [done|]; rewrite Hp in Hf; injection Hf as ->; by apply Hst).
  destruct (K2 p pg Hp1 Hst Hno1) as [Hp2 Hr2]. unfold paddr in Hr2. rewrite (paddr_of_geo (m_pmm w)) in Hr2 by done. split; [done|]. unfold paddr. by rewrite Hr2.
Qed.

Lemma held_used : pg_state held_page ≠ VM_PAGE_STATE_FREE.
Proof. done. Qed.

(** Another object keeps its pages and its bytes. *)
Lemma bystander v w w' u : keeps v w w' → vmo_ok w u → (∀ p, p ∈ owned u → p ∉ owned v) → vmo_ok w' u ∧ ∀ o, byte u w' o = byte u w o.
Proof.
  intros [Hg Hk] Hu Hd. assert (Hp : ∀ p, p ∈ owned u → pages (m_pmm w') !! p = pages (m_pmm w) !! p ∧ m_ram w' !! paddr w p = m_ram w !! paddr w p).
  { intros p Hin. destruct (vo_pages _ _ Hu p Hin) as [E _]. destruct (Hk p _ E held_used (Hd p Hin)) as [E' ?]. by rewrite E, E'. }
  split; [apply (vmo_frame w); [done|done|]; intros; by apply Hp|]. intros o. apply byte_frame; [done|]. intros; by apply Hp.
Qed.

(** ** Pages are claimed, cleared and added *)

Lemma claims_world lk w v ps s1 : world_ok w → vmo_ok w v → claims lk (m_pmm w) ps s1 → let w1 := set_pmm w s1 in
  world_ok w1 ∧ vmo_ok w1 v ∧ (∀ o, byte v w1 o = byte v w o) ∧ keeps v w w1 ∧ (∀ p, p ∈ ps → p ∉ owned v).
Proof.
  intros [Hi Hr] Hv Hcl w1. destruct (claims_pages _ _ _ _ Hi Hcl) as (_ & Hf & Hp). pose proof (claims_layout _ _ _ _ Hcl) as Hg. assert (Hno : ∀ p, p ∈ ps → p ∉ owned v) by (intros p Hin Ho; destruct (vo_pages _ _ Hv p Ho) as [E _]; by rewrite (Hf p Hin) in E).
  split; [split; [by eapply claims_inv|]|split; [apply (vmo_frame w); [done|done|]|split; [intros; by apply byte_frame|split; [split; [done|]|done]]]].
  - intros p Hin. unfold paddr. cbn [m_pmm w1 set_pmm m_ram]. rewrite (paddr_of_geo (m_pmm w)) by done. apply Hr. cbn [m_pmm w1 set_pmm] in Hin. rewrite Hp in Hin. destruct (decide (p ∈ ps)); [rewrite Hf; eauto|done].
  - intros p Ho. cbn [m_pmm w1 set_pmm]. rewrite Hp, decide_False; [done|]. intros Hin. by apply (Hno p).
  - intros p pg Ep Hst _. cbn [m_pmm m_ram w1 set_pmm]. split; [|done]. rewrite Hp, decide_False; [done|]. intros Hin. rewrite (Hf p Hin) in Ep. injection Ep as <-. by apply Hst.
Qed.

Lemma page_bytes_ok w p : world_ok w → is_Some (pages (m_pmm w) !! p) → is_Some (paddr_to_kvaddr maps (paddr w p)) → ∃ bs, page_bytes maps w (paddr w p) = Some bs ∧ m_ram w !! paddr w p = Some bs ∧ zlen bs = PAGE_SIZE.
Proof. intros Hw Hp [kv Hk]. destruct (wo_ram _ Hw p Hp) as (bs & E & Hl). exists bs. unfold page_bytes. rewrite Hk. by cbn. Qed.

(** Storing the bytes of a page. *)
Lemma set_ram_world w p bs : world_ok w → is_Some (pages (m_pmm w) !! p) → zlen bs = PAGE_SIZE → world_ok (set_ram w (paddr w p) bs) ∧ ∀ q, is_Some (pages (m_pmm w) !! q) → q ≠ p → m_ram (set_ram w (paddr w p) bs) !! paddr w q = m_ram w !! paddr w q.
Proof.
  intros [Hi Hr] Hp Hl. assert (Hne : ∀ q, is_Some (pages (m_pmm w) !! q) → q ≠ p → paddr w p ≠ paddr w q) by (intros q Hq Hqp E; by apply Hqp, (paddr_inj (m_pmm w))). split; [split; [done|]|intros q Hq Hqp; cbn [m_ram set_ram]; rewrite lookup_insert_ne; auto].
  intros q Hq. change (paddr (set_ram w (paddr w p) bs) q) with (paddr w q). cbn [m_ram m_pmm set_ram] in *. destruct (decide (q = p)) as [->|Hqp]; [exists bs; by rewrite lookup_insert_eq|]. rewrite lookup_insert_ne by auto. auto.
Qed.

Lemma entry_insert v l i p f : page_array_ v = Some l → 0 ≤ i < zlen l → ∀ j, 0 ≤ j → entry (mk_vmo (size_ v) f (Some (<[Z.to_nat i := Some p]> l)) (page_list_ v ++ [p])) j = if decide (j = i) then Some p else entry v j.
Proof.
  intros El Hi j Hj. unfold entry. rewrite El. cbn [page_array_ from_option id]. unfold zlen in Hi. destruct (decide (j = i)) as [->|Hne]; [rewrite list_lookup_insert_eq by lia; done|by rewrite list_lookup_insert_ne by lia].
Qed.

Lemma attach_ok w v i p : world_ok w → vmo_ok w v → 0 ≤ i < pages_of (size_ v) → entry v i = None → pages (m_pmm w) !! p = Some (mk_page false VM_PAGE_STATE_ALLOC) → p ∉ owned v → is_Some (paddr_to_kvaddr maps (paddr w p)) →
  ∃ w1 v2 s2, ZeroPage maps w (paddr w p) = Some w1 ∧ AddPageToArray v (m_pmm w1) i p = Some (v2, s2) ∧ let w2 := set_pmm w1 s2 in
    world_ok w2 ∧ vmo_ok w2 v2 ∧ (∀ o, 0 ≤ o → byte v2 w2 o = byte v w o) ∧ (∀ j, 0 ≤ j → entry v2 j = if decide (j = i) then Some p else entry v j) ∧ (size_ v2 = size_ v ∧ pmm_alloc_flags_ v2 = pmm_alloc_flags_ v ∧ owned v2 ≡ₚ p :: owned v) ∧
    arenas s2 = arenas (m_pmm w) ∧ (∀ q, q ≠ p → pages s2 !! q = pages (m_pmm w) !! q) ∧ ∀ q, is_Some (pages (m_pmm w) !! q) → q ≠ p → m_ram w2 !! paddr w q = m_ram w !! paddr w q.
Proof.
  intros Hw Hv Hi Hnone Hp Hno Hk. destruct (page_bytes_ok w p Hw ltac:(eauto) Hk) as (bs & Eb & Er & Hbs). set (z := replicate (Z.to_nat PAGE_SIZE) 0). destruct (set_ram_world w p z Hw ltac:(eauto) ltac:(done)) as [Hw1 Hram]. destruct (vo_array _ _ Hv) as (l & El & Hl).
  assert (Hli : l !! Z.to_nat i = Some None). { destruct (l !! Z.to_nat i) as [e|] eqn:E; [|apply lookup_ge_None in E; unfold zlen in Hl; lia]. unfold entry in Hnone. rewrite El in Hnone. cbn [from_option id] in Hnone. rewrite E in Hnone. destruct e; [done|done]. }
  set (v2 := mk_vmo (size_ v) (pmm_alloc_flags_ v) (Some (<[Z.to_nat i := Some p]> l)) (page_list_ v ++ [p])). set (s2 := owner_step (m_pmm w) p held_page). exists (set_ram w (paddr w p) z), v2, s2.
  split; [unfold ZeroPage; rewrite Eb; done|]. split; [unfold AddPageToArray; rewrite El; cbn [mbind option_bind]; rewrite Hli; cbn [mbind option_bind]; unfold link_page; cbn [m_pmm set_ram]; rewrite Hp; done|]. intros w2. assert (Ho : owned v2 ≡ₚ p :: owned v) by (unfold owned, v2; cbn [page_array_ from_option id]; rewrite El; by apply omap_insert_None).
  assert (Hpg : ∀ q, q ≠ p → pages s2 !! q = pages (m_pmm w) !! q) by (intros q Hq; cbn; by rewrite lookup_insert_ne). assert (Hpp : pages s2 !! p = Some held_page) by (cbn; by rewrite lookup_insert_eq). assert (Hent := entry_insert v l i p (pmm_alloc_flags_ v) El ltac:(lia)). fold v2 in Hent.
  split; [|split; [|split; [|split; [done|split; [split; [done|split; [done|done]]|split; [done|split; [done|exact Hram]]]]]]].
  - split; [by apply (owner_inv (m_pmm w) p _ held_page (wo_pmm _ Hw) Hp)|]. intros q Hq. apply (wo_ram _ Hw1). change (is_Some (pages s2 !! q)) in Hq. cbn [m_pmm set_ram]. destruct (decide (q = p)) as [->|Hqp]; [eauto|by rewrite <- Hpg].
  - destruct Hv as [V1 V2 V3 V4 V5 V6]. split; [done|exists (<[Z.to_nat i := Some p]> l); split; [done|unfold zlen in *; by rewrite length_insert]| |by rewrite Ho; apply list.NoDup_cons|cbn [page_list_ v2]; rewrite Ho, V5; by rewrite Permutation_app_comm|done].
    intros q Hq. change (pages (m_pmm w2)) with (pages s2). change (paddr w2 q) with (paddr w q). rewrite Ho in Hq. apply elem_of_cons in Hq as [->|Hq]; [done|]. rewrite Hpg by (intros ->; done). by apply V3.
  - intros o Ho0. unfold byte. rewrite Hent by (apply Z.div_pos; [done|unfold PAGE_SIZE; lia]). change (paddr w2) with (paddr w). change (m_ram w2) with (<[paddr w p := z]> (m_ram w)). destruct (decide (o / PAGE_SIZE = i)) as [->|Hne].
    + rewrite lookup_insert_eq. cbn [mbind option_bind]. rewrite Hnone. unfold z. pose proof (Z.mod_pos_bound o PAGE_SIZE ltac:(unfold PAGE_SIZE; lia)). rewrite lookup_replicate_2 by (unfold PAGE_SIZE in *; lia). done.
    + destruct (entry v (o / PAGE_SIZE)) as [q|] eqn:Eq; [|done]. apply entry_owned in Eq as Hq. rewrite lookup_insert_ne; [done|]. intros E. apply (paddr_inj (m_pmm w) p q (wo_pmm _ Hw)) in E; [by subst q|eauto|]. destruct (vo_pages _ _ Hv q Hq). eauto.
Qed.

(** ** Steps of an object *)

Record steps (v : vm_object) (w : machine) (v' : vm_object) (w' : machine) : Prop := {
  st_world : world_ok w';
  st_vmo : vmo_ok w' v';
  st_keeps : keeps v w w';
  st_gains : gains v v' w;
  st_free p : pages (m_pmm w') !! p = Some free_page → pages (m_pmm w) !! p = Some free_page;
  st_taken p : pages (m_pmm w) !! p = Some free_page → pages (m_pmm w') !! p = Some free_page ∨ p ∈ owned v';
  st_size : size_ v' = size_ v ∧ pmm_alloc_flags_ v' = pmm_alloc_flags_ v;
  st_entries j p : 0 ≤ j → entry v j = Some p → entry v' j = Some p }.

Lemma steps_refl v w : world_ok w → vmo_ok w v → steps v w v w.
Proof. intros. split; try done; intros p; by left. Qed.

Lemma steps_owned v w v' w' p : steps v w v' w' → p ∈ owned v → p ∈ owned v'.
Proof.
  intros Hst [i Hi]%omap_id_elem. apply (entry_owned v' (Z.of_nat i)), (st_entries _ _ _ _ Hst); [lia|]. unfold entry. by rewrite Nat2Z.id, Hi.
Qed.

Lemma steps_trans v w v1 w1 v2 w2 : steps v w v1 w1 → steps v1 w1 v2 w2 → steps v w v2 w2.
Proof.
  intros [A1 A2 A3 A4 A4' At [A5 A5'] A6] HB. pose proof HB as [B1 B2 B3 B4 B4' Bt [B5 B5'] B6]. split; [done|done|by eapply keeps_trans| |auto|intros p Hp; destruct (At p Hp) as [?|?]; [auto|right; by eapply steps_owned]|split; congruence|auto]. intros p Hp. destruct (B4 p Hp) as [H1|Hf]; auto.
Qed.

(** A page that was free is added: [p] is claimed from [w0], which gives [w]. *)
Lemma attach_steps w0 w v i p w1 v2 s2 : world_ok w0 → vmo_ok w0 v → keeps v w0 w → pages (m_pmm w0) !! p = Some free_page → (∀ q, q ≠ p → pages (m_pmm w) !! q = Some free_page ↔ pages (m_pmm w0) !! q = Some free_page) →
  world_ok w → vmo_ok w v → 0 ≤ i < pages_of (size_ v) → entry v i = None → pages (m_pmm w) !! p = Some (mk_page false VM_PAGE_STATE_ALLOC) → p ∉ owned v → is_Some (paddr_to_kvaddr maps (paddr w p)) →
  ZeroPage maps w (paddr w p) = Some w1 → AddPageToArray v (m_pmm w1) i p = Some (v2, s2) →
  steps v w0 v2 (set_pmm w1 s2) ∧ (∀ o, 0 ≤ o → byte v2 (set_pmm w1 s2) o = byte v w o) ∧ (∀ j, 0 ≤ j → entry v2 j = if decide (j = i) then Some p else entry v j) ∧
  (∀ q, q ≠ p → pages s2 !! q = pages (m_pmm w) !! q) ∧ owned v2 ≡ₚ p :: owned v.
Proof.
  intros Hw0 Hv0 [Kg Kk] Hf Hfr Hw Hv Hi He Hp Hno Hk Ez Ea. destruct (attach_ok w v i p Hw Hv Hi He Hp Hno Hk) as (w1' & v2' & s2' & Ez' & Ea' & Hw2 & Hv2 & Hb & Hent & (Hsz & Hfl & Ho) & Har & Hpg & Hram). rewrite Ez in Ez'. injection Ez' as <-. rewrite Ea in Ea'. injection Ea' as <- <-. split; [|split; [done|split; [done|split; [done|done]]]].
  assert (Hpp : pages s2 !! p = Some held_page) by (apply (vo_pages _ _ Hv2 p); rewrite Ho; by left). split; [done|done| |intros q Hq; rewrite Ho in Hq; apply elem_of_cons in Hq as [->|]; [by right|by left]| | |done|intros j q Hj Ej; rewrite Hent by done; destruct (decide (j = i)) as [->|]; [congruence|done]].
  - split; [cbn [m_pmm set_pmm]; by rewrite Har|]. intros q pg Hq Hst Hqo. assert (Hqp : q ≠ p) by (intros ->; rewrite Hf in Hq; injection Hq as <-; by apply Hst). destruct (Kk q pg Hq Hst Hqo) as [Hq1 Hr1]. cbn [m_pmm set_pmm]. rewrite Hpg by done. split; [done|]. rewrite <- Hr1. assert (Epa : paddr w0 q = paddr w q) by (unfold paddr; symmetry; by apply paddr_of_geo). rewrite Epa. apply Hram; [eauto|done].
  - intros q Hq. cbn [m_pmm set_pmm] in Hq. destruct (decide (q = p)) as [->|Hqp]; [done|]. rewrite Hpg in Hq by done. by apply Hfr.
  - intros q Hq. cbn [m_pmm set_pmm]. destruct (decide (q = p)) as [->|Hqp]; [right; rewrite Ho; by left|left]. rewrite Hpg by done. by apply Hfr.
Qed.

Lemma index_bound v w o : vmo_ok w v → 0 ≤ o < size_ v → 0 ≤ o / PAGE_SIZE < pages_of (size_ v).
Proof.
  intros Hv Ho. split; [apply Z.div_pos; [lia|unfold PAGE_SIZE; lia]|]. unfold pages_of. pose proof (Z.div_mod o PAGE_SIZE ltac:(unfold PAGE_SIZE; lia)). pose proof (Z.mod_pos_bound o PAGE_SIZE ltac:(unfold PAGE_SIZE; lia)). pose proof (Z.div_mod (size_ v + (PAGE_SIZE - 1)) PAGE_SIZE ltac:(unfold PAGE_SIZE; lia)). pose proof (Z.mod_pos_bound (size_ v + (PAGE_SIZE - 1)) PAGE_SIZE ltac:(unfold PAGE_SIZE; lia)). unfold PAGE_SIZE in *. lia.
Qed.

Lemma page_at_index_ok v w i : vmo_ok w v → 0 ≤ i < pages_of (size_ v) → page_at_index v i = Some (entry v i).
Proof.
  intros Hv Hi. destruct (vo_array _ _ Hv) as (l & El & Hl). unfold page_at_index, entry. rewrite El. cbn [mbind option_bind from_option id]. destruct (l !! Z.to_nat i) as [e|] eqn:E; [by destruct e|]. apply lookup_ge_None in E. unfold zlen in Hl. lia.
Qed.

(** No page is to be had. *)
Definition exhausted (w : machine) (flags : Z) : Prop := ∀ a, a ∈ arenas (m_pmm w) → eligible flags a = true → free_list a = [].

Lemma set_pmm_id w : set_pmm w (m_pmm w) = w.
Proof. by destruct w. Qed.

(** A page of an arena that the object may use is mapped. *)
Lemma eligible_mapped w v p : world_ok w → vmo_ok w v → (∃ a, a ∈ arenas (m_pmm w) ∧ eligible (pmm_alloc_flags_ v) a = true ∧ p ∈ free_list a) → is_Some (paddr_to_kvaddr maps (paddr w p)).
Proof.
  intros Hw Hv (a & Ha & Hel & Hp). apply (ao_free _ _ (pi_arenas _ (wo_pmm _ Hw) a Ha)) in Hp as [(i & Hb & ->) _]. unfold paddr. rewrite (to_paddr _ a i (wo_pmm _ Hw) Ha Hb). by apply (vo_flags _ _ Hv).
Qed.

Lemma fault_ok w v o : world_ok w → vmo_ok w v → 0 ≤ o → ∃ r v' w', FaultPageLocked maps v w o = Some (r, v', w') ∧ steps v w v' w' ∧ (∀ x, 0 ≤ x → byte v' w' x = byte v w x) ∧
  match r with Some p => o < size_ v ∧ entry v' (o / PAGE_SIZE) = Some p ∧ (is_Some (entry v (o / PAGE_SIZE)) ∨ ¬ exhausted w (pmm_alloc_flags_ v)) | None => v' = v ∧ w' = w ∧ (o < size_ v → entry v (o / PAGE_SIZE) = None ∧ exhausted w (pmm_alloc_flags_ v)) end.
Proof.
  intros Hw Hv Ho. unfold FaultPageLocked. destruct (size_ v <=? o) eqn:Es; zb; [exists None, v, w; split; [done|]; split; [by apply steps_refl|]; split; [done|]; split_and!; try done; lia|]. pose proof (index_bound v w o Hv ltac:(lia)) as Hi. unfold OffsetToIndex. rewrite (page_at_index_ok v w) by done. cbn [mbind option_bind].
  destruct (entry v (o / PAGE_SIZE)) as [p|] eqn:Ee; [exists (Some p), v, w; split; [done|]; split; [by apply steps_refl|]; split; [done|]; split; [done|]; split; [done|left; eauto]|]. destruct (alloc_page_spec (m_pmm w) (pmm_alloc_flags_ v) (wo_pmm _ Hw)) as (r & s1 & -> & Hr). cbn [mbind option_bind]. destruct r as [[p pa]|].
  - destruct Hr as (Hcl & Epa & Hel). destruct (claims_pages _ _ _ _ (wo_pmm _ Hw) Hcl) as (_ & Hf & Hp). destruct (claims_world _ w v [p] s1 Hw Hv Hcl) as (Hw1 & Hv1 & Hb1 & Hk1 & Hno). pose proof (eligible_mapped w v p Hw Hv Hel) as Hmap. set (w1 := set_pmm w s1) in *.
    assert (Ep1 : paddr w1 p = pa) by (unfold paddr; rewrite (paddr_of_geo (m_pmm w)) by apply Hk1; done). assert (Hpf : pages (m_pmm w) !! p = Some free_page) by (apply Hf; by left). assert (Hp1 : pages (m_pmm w1) !! p = Some (mk_page false VM_PAGE_STATE_ALLOC)) by (cbn [m_pmm set_pmm w1]; rewrite Hp, decide_True by (by left); done).
    assert (Hmap1 : is_Some (paddr_to_kvaddr maps (paddr w1 p))) by (rewrite Ep1, <- Epa; exact Hmap). destruct (attach_ok w1 v (o / PAGE_SIZE) p Hw1 Hv1 Hi Ee Hp1 ltac:(apply Hno; by left) Hmap1) as (w2 & v2 & s2 & Ez & Ea & _). rewrite <- Ep1, Ez. cbn [mbind option_bind]. rewrite Ea. cbn [mbind option_bind].
    destruct (attach_steps w w1 v (o / PAGE_SIZE) p w2 v2 s2) as (Hst & Hb & Hent & _); try done; [intros q Hq; cbn [m_pmm set_pmm w1]; by rewrite Hp, decide_False by (by rewrite list_elem_of_singleton)|apply Hno; by left|]. exists (Some p), v2, (set_pmm w2 s2). split; [done|]. split; [done|]. split; [intros x Hx; by rewrite Hb, Hb1|]. split; [done|]. rewrite Hent by lia. rewrite decide_True by done. split; [done|]. right. intros Hex. destruct Hel as (a & Ha & Hel & Hpa). rewrite (Hex a Ha Hel) in Hpa. by apply not_elem_of_nil in Hpa.
  - destruct Hr as [-> Hex]. rewrite set_pmm_id. exists None, v, w. split; [done|]. split; [by apply steps_refl|]. done.
Qed.

(** ** Transfers *)

Lemma page_split o : 0 ≤ o → o = o / PAGE_SIZE * PAGE_SIZE + o mod PAGE_SIZE ∧ 0 ≤ o mod PAGE_SIZE < PAGE_SIZE ∧ 0 ≤ o / PAGE_SIZE.
Proof.
  intros Ho. pose proof (Z.div_mod o PAGE_SIZE ltac:(unfold PAGE_SIZE; lia)). pose proof (Z.mod_pos_bound o PAGE_SIZE ltac:(unfold PAGE_SIZE; lia)). pose proof (Z.div_pos o PAGE_SIZE Ho ltac:(unfold PAGE_SIZE; lia)). split; lia.
Qed.

Lemma same_page o x n : 0 ≤ o → o mod PAGE_SIZE + n ≤ PAGE_SIZE → o ≤ x < o + n → x / PAGE_SIZE = o / PAGE_SIZE ∧ x mod PAGE_SIZE = o mod PAGE_SIZE + (x - o).
Proof.
  intros Ho Hn Hx. destruct (page_split o Ho) as (E & Hb & _). assert (Ed : x / PAGE_SIZE = o / PAGE_SIZE) by (symmetry; apply (Z.div_unique _ _ _ (o mod PAGE_SIZE + (x - o))); lia). split; [done|]. destruct (page_split x ltac:(lia)) as (E' & _ & _). rewrite Ed in E'. lia.
Qed.

(** The bytes of the object in one page, read and replaced. *)
Lemma chunk_ok w v o n p : world_ok w → vmo_ok w v → 0 ≤ o → 0 < n → o mod PAGE_SIZE + n ≤ PAGE_SIZE → entry v (o / PAGE_SIZE) = Some p →
  ∃ bs chunk, page_bytes maps w (paddr w p) = Some bs ∧ read_at (o mod PAGE_SIZE) n bs = Some chunk ∧ zlen chunk = n ∧ (∀ k, 0 ≤ k < n → chunk !! Z.to_nat k = Some (byte v w (o + k))) ∧
    ∀ chunk1, zlen chunk1 = n → ∃ bs1, write_at (o mod PAGE_SIZE) chunk1 bs = Some bs1 ∧ let w2 := set_ram w (paddr w p) bs1 in
      steps v w v w2 ∧ ∀ x, 0 ≤ x → byte v w2 x = if decide (o ≤ x < o + n) then default 0 (chunk1 !! Z.to_nat (x - o)) else byte v w x.
Proof.
  intros Hw Hv Ho Hn Hfit Ee. pose proof (entry_owned _ _ _ Ee) as Hown. destruct (vo_pages _ _ Hv p Hown) as [Hp Hk]. destruct (page_bytes_ok w p Hw ltac:(eauto) Hk) as (bs & Eb & Er & Hl). destruct (page_split o Ho) as (_ & Hb & _).
  exists bs. rewrite read_at_Some by lia. eexists. split; [done|]. split; [done|]. split; [rewrite zlen_take, zlen_drop by lia; lia|]. split.
  - intros k Hk'. destruct (same_page o (o + k) n Ho Hfit ltac:(lia)) as [Ed Em]. unfold byte. rewrite Ed, Ee, Er, Em. cbn [mbind option_bind]. rewrite lookup_take_lt, lookup_drop by lia. replace (Z.to_nat (o mod PAGE_SIZE) + Z.to_nat k)%nat with (Z.to_nat (o mod PAGE_SIZE + (o + k - o))) by lia.
    destruct (list_lookup_Z_lt bs (o mod PAGE_SIZE + (o + k - o))) as [x Hx]; [unfold zlen in Hl; lia|]. by rewrite Hx.
  - intros chunk1 Hl1. destruct (write_at_Some (o mod PAGE_SIZE) chunk1 bs ltac:(lia) ltac:(lia)) as (bs1 & Ew & Hlen & Hbs1). exists bs1. split; [done|]. intros w2. destruct (set_ram_world w p bs1 Hw ltac:(eauto) ltac:(unfold zlen in *; lia)) as [Hw2 Hr]. fold w2 in Hw2, Hr. split.
    + split; [done|by apply (vmo_frame w)| |by left|done|by left|done|done]. split; [done|]. intros q pg Hq _ Hno. split; [done|]. apply Hr; [eauto|by intros ->].
    + intros x Hx. unfold byte. change (paddr w2) with (paddr w). change (m_ram w2) with (<[paddr w p := bs1]> (m_ram w)). destruct (decide (o ≤ x < o + n)) as [Hin|Hout].
      * destruct (same_page o x n Ho Hfit Hin) as [Ed Em]. rewrite Ed, Ee, lookup_insert_eq, Em. cbn [mbind option_bind]. rewrite Hbs1, decide_True by (unfold zlen in *; lia). do 2 f_equal. lia.
      * destruct (entry v (x / PAGE_SIZE)) as [q|] eqn:Eq; [|done]. destruct (page_split x Hx) as (Ex & Hxb & Hxd). destruct (page_split o Ho) as (Eo & _ & Hod). destruct (decide (q = p)) as [->|Hqp].
        -- rewrite lookup_insert_eq, Er. cbn [mbind option_bind]. assert (Ed : x / PAGE_SIZE = o / PAGE_SIZE) by (by apply (entry_inj w v _ _ p)). rewrite Hbs1, decide_False; [done|]. unfold zlen in *. rewrite Ed in Ex. lia.
        -- rewrite lookup_insert_ne; [done|]. intros E. apply Hqp. symmetry. apply (paddr_inj (m_pmm w) p q (wo_pmm _ Hw)); [eauto| |done]. destruct (vo_pages _ _ Hv q (entry_owned _ _ _ Eq)). eauto.
Qed.

(** A rule for the loop.  [Inv k c b] holds when [k] bytes are done, [c] are the bytes of
    the object and [b] is the buffer; [Bad] describes a copy that failed. *)
Section loop.
Context {B : Type} (copyfunc : list Z → Z → Z → B → option (Z * list Z * B)) (off total : Z) (Inv : Z → (Z → Z) → B → Prop) (Bad : Z → Z → (Z → Z) → B → Prop).
Hypothesis Inv_ext : ∀ k c c' b, Inv k c b → (∀ x, 0 ≤ x → c' x = c x) → Inv k c' b.
Hypothesis copy_ok : ∀ k c b n chunk, Inv k c b → 0 ≤ k → 0 < n → k + n ≤ total → zlen chunk = n → (∀ j, 0 ≤ j < n → chunk !! Z.to_nat j = Some (c (off + k + j))) →
  ∃ err chunk1 b1, copyfunc chunk k n b = Some (err, chunk1, b1) ∧ zlen chunk1 = n ∧
    ∀ c', (∀ x, 0 ≤ x → c' x = if decide (off + k ≤ x < off + k + n) then default 0 (chunk1 !! Z.to_nat (x - (off + k))) else c x) → if err <? 0 then Bad err k c' b1 else Inv (k + n) c' b1.

Definition rw_post (k : Z) (v : vm_object) (w : machine) (r : Z * Z * vm_object * machine * B) : Prop :=
  let '(st, n, v', w', b') := r in steps v w v' w' ∧ 0 ≤ n ≤ total ∧ (∀ x, off + k ≤ x < off + n → is_Some (entry v' (x / PAGE_SIZE))) ∧
    ((st = NO_ERROR ∧ n = total ∧ Inv n (byte v' w') b') ∨ (st = ERR_NO_MEMORY ∧ n < total ∧ Inv n (byte v' w') b' ∧ entry v' ((off + n) / PAGE_SIZE) = None ∧ exhausted w' (pmm_alloc_flags_ v)) ∨ (st < 0 ∧ n < total ∧ Bad st n (byte v' w') b')).

Lemma rw_loop_ok fuel : ∀ v w k b, world_ok w → vmo_ok w v → Inv k (byte v w) b → 0 ≤ off → 0 ≤ k ≤ total → off + total ≤ size_ v → (0 < fuel)%nat → (k < total → (off + k) mod PAGE_SIZE + (total - k) ≤ (Z.of_nat fuel - 1) * PAGE_SIZE) →
  ∃ r, rw_loop maps copyfunc fuel v w (off + k) (total - k) k b = Some r ∧ rw_post k v w r.
Proof.
  induction fuel as [|fuel IH]; intros v w k b Hw Hv HI Hoff Hk Hsz Hf Hfuel; [lia|]. cbn [rw_loop]. pose proof (vo_size _ _ Hv) as Hmax. change MAX_SIZE with (2 ^ 64 - 4096) in Hmax. destruct (0 <? total - k) eqn:El; zb; [|eexists; split; [done|]; split; [by apply steps_refl|]; split; [lia|]; split; [lia|]; left; assert (k = total) as -> by lia; done].
  destruct (fault_ok w v (off + k) Hw Hv ltac:(lia)) as (r & v1 & w1 & -> & Hst & Hb & Hr). cbn [mbind option_bind]. destruct r as [p|].
  2:{ destruct Hr as (-> & -> & Hex). eexists. split; [done|]. split; [done|]. split; [lia|]. split; [lia|]. right. left. destruct (Hex ltac:(lia)) as [He Hx]. split_and!; (done || lia). }
  destruct Hr as (_ & Ee & _). destruct (page_split (off + k) ltac:(lia)) as (Eo & Hob & _). set (po := (off + k) mod PAGE_SIZE) in *. set (n := Z.min (PAGE_SIZE - po) (total - k)). assert (Hn : 0 < n ∧ po + n ≤ PAGE_SIZE ∧ k + n ≤ total) by lia. destruct Hn as (Hn & Hfit & Hle).
  destruct (chunk_ok w1 v1 (off + k) n p (st_world _ _ _ _ Hst) (st_vmo _ _ _ _ Hst) ltac:(lia) Hn Hfit Ee) as (bs & chunk & Eb & Erd & Hlc & Hcb & Hwr). fold po in Erd, Hwr. fold (paddr w1 p). rewrite Eb. cbn [mbind option_bind]. rewrite Erd. cbn [mbind option_bind].
  destruct (copy_ok k (byte v1 w1) b n chunk) as (err & chunk1 & b1 & Ec & Hl1 & Hpost); [by apply (Inv_ext k (byte v w))|lia|lia|lia|done|done|]. rewrite Ec. cbn [mbind option_bind]. destruct (Hwr chunk1 Hl1) as (bs1 & Ew & Hst2 & Hb2). rewrite Ew. cbn [mbind option_bind]. set (w2 := set_ram w1 (paddr w1 p) bs1) in *.
  specialize (Hpost (byte v1 w2) Hb2). pose proof (steps_trans _ _ _ _ _ _ Hst Hst2) as Hst3. destruct (err <? 0) eqn:Eerr; zb; [eexists; split; [done|]; split; [done|]; split; [lia|]; split; [lia|]; right; right; split_and!; [done|lia|done]|].
  rewrite !u64_id by (unfold is_u64; lia). replace (off + k + n) with (off + (k + n)) by lia. replace (total - k - n) with (total - (k + n)) by lia. destruct (st_size _ _ _ _ Hst) as [Es1 Ef1]. specialize (Hfuel ltac:(lia)).
  destruct (IH v1 w2 (k + n) b1 (st_world _ _ _ _ Hst2) (st_vmo _ _ _ _ Hst2) Hpost Hoff ltac:(lia) ltac:(lia)) as (r & Er & Hr); [unfold PAGE_SIZE in *; lia| |].
  - intros Hlt. assert (En : n = PAGE_SIZE - po) by lia. assert (Em : (off + (k + n)) mod PAGE_SIZE = 0) by (replace (off + (k + n)) with (((off + k) / PAGE_SIZE + 1) * PAGE_SIZE) by lia; by apply Z.mod_mul). rewrite Em. lia.
  - exists r. split; [done|]. destruct r as [[[[st' n'] v'] w'] b']. destruct Hr as (Hst' & Hn' & Hpres & Hcase). split; [by eapply steps_trans|]. split; [done|]. split; [|by rewrite Ef1 in Hcase]. intros x Hx. destruct (decide (off + k + n ≤ x)); [apply Hpres; lia|]. destruct (same_page (off + k) x n ltac:(lia) Hfit ltac:(lia)) as [Ed _]. rewrite Ed. exists p. apply (st_entries _ _ _ _ Hst'); [apply Z.div_pos; unfold PAGE_SIZE; lia|done].
Qed.

Lemma rw_loop_start v w b : world_ok w → vmo_ok w v → Inv 0 (byte v w) b → 0 ≤ off → 0 < total → off + total ≤ size_ v → ∃ r, rw_loop maps copyfunc (S (S (S (Z.to_nat (total / PAGE_SIZE))))) v w off total 0 b = Some r ∧ rw_post 0 v w r.
Proof.
  intros Hw Hv HI Hoff Ht Hsz. pose proof (rw_loop_ok (S (S (S (Z.to_nat (total / PAGE_SIZE))))) v w 0 b Hw Hv HI Hoff ltac:(lia) Hsz ltac:(lia)) as H. rewrite Z.add_0_r, Z.sub_0_r in H. apply H. intros _. destruct (page_split total ltac:(lia)) as (E & ? & ?). destruct (page_split off Hoff) as (_ & ? & _). unfold PAGE_SIZE in *. lia.
Qed.

End loop.

(** ** Reads and writes *)

(** The length of a transfer: [None] if the range starts after the end or wraps. *)
Definition span (v : vm_object) (offset len : Z) : option Z :=
  if (offset + len <? 2 ^ 64) && (offset <=? size_ v) then Some (Z.min len (size_ v - offset)) else None.

Lemma trim_span v offset len : 0 ≤ size_ v < 2 ^ 64 → is_u64 offset → is_u64 len → TrimRange offset len (size_ v) = span v offset len.
Proof.
  intros Hs Ho Hl. unfold is_u64 in *. unfold TrimRange, span. destruct (offset + len <? 2 ^ 64) eqn:E; zb; cbn [andb].
  - rewrite (u64_id (offset + len)) by (unfold is_u64; lia). rewrite (proj2 (Z.ltb_ge _ _)) by lia. rewrite Z.leb_antisym. destruct (size_ v <? offset) eqn:E1; zb; [done|]. cbn [negb]. destruct (size_ v <? offset + len) eqn:E2; zb; [rewrite u64_id by (unfold is_u64; lia)|]; f_equal; lia.
  - assert (Eu : u64 (offset + len) = offset + len - 2 ^ 64) by (unfold u64; symmetry; apply (Z.mod_unique_pos _ _ 1); lia). rewrite Eu, (proj2 (Z.ltb_lt _ _)) by lia. done.
Qed.

(** How a transfer ends: all is done, or no page is left for the next byte. *)
Definition transfer_ends (v : vm_object) (offset len : Z) (st n : Z) (v' : vm_object) (w' : machine) : Prop :=
  match span v offset len with
  | None => st = ERR_OUT_OF_RANGE ∧ n = 0
  | Some m => (st = NO_ERROR ∧ n = m ∧ ∀ x, offset ≤ x < offset + m → is_Some (entry v' (x / PAGE_SIZE))) ∨ (st = ERR_NO_MEMORY ∧ 0 ≤ n < m ∧ entry v' ((offset + n) / PAGE_SIZE) = None ∧ exhausted w' (pmm_alloc_flags_ v))
  end.

Lemma span_Some v offset len m : is_u64 offset → is_u64 len → span v offset len = Some m → 0 ≤ m ≤ len ∧ offset + m ≤ size_ v.
Proof. unfold span, is_u64. intros Ho Hl E. destruct (_ && _) eqn:Eb; [|done]. zb. injection E as <-. lia. Qed.

Lemma small_size w v : vmo_ok w v → 0 ≤ size_ v < 2 ^ 64.
Proof. intros Hv. pose proof (vo_size _ _ Hv) as H. change MAX_SIZE with (2 ^ 64 - 4096) in H. lia. Qed.

Definition stored (offset n : Z) (buf : list Z) (c c' : Z → Z) : Prop :=
  ∀ x, 0 ≤ x → c' x = if decide (offset ≤ x < offset + n) then default 0 (buf !! Z.to_nat (x - offset)) else c x.

Lemma write_copy off buf c0 total : 0 ≤ off → total ≤ zlen buf → ∀ k c b n chunk, stored off k buf c0 c ∧ b = buf → 0 ≤ k → 0 < n → k + n ≤ total → zlen chunk = n → (∀ j, 0 ≤ j < n → chunk !! Z.to_nat j = Some (c (off + k + j))) →
  ∃ err chunk1 b1, write_routine chunk k n b = Some (err, chunk1, b1) ∧ zlen chunk1 = n ∧
    ∀ c', (∀ x, 0 ≤ x → c' x = if decide (off + k ≤ x < off + k + n) then default 0 (chunk1 !! Z.to_nat (x - (off + k))) else c x) → if err <? 0 then False else stored off (k + n) buf c0 c' ∧ b1 = buf.
Proof.
  intros Hoff Hlen k c b n chunk [Hc ->] Hk Hn Hle Hl _. unfold write_routine. rewrite read_at_Some by lia. cbn [mbind option_bind]. eexists _, _, _. split; [done|]. split; [rewrite zlen_take, zlen_drop by lia; lia|]. intros c' Hc'. cbn. split; [|done]. intros x Hx. rewrite Hc' by done.
  destruct (decide (off + k ≤ x < off + k + n)); [rewrite decide_True by lia; rewrite lookup_take_lt, lookup_drop by lia; do 2 f_equal; lia|]. rewrite Hc by done. destruct (decide (off ≤ x < off + k)); [by rewrite decide_True by lia|by rewrite decide_False by lia].
Qed.

Lemma write_spec v w ptr buf offset len : world_ok w → vmo_ok w v → is_kernel_address ptr = true → is_u64 offset → is_u64 len → len ≤ zlen buf →
  ∃ st n v' w', Write maps v w ptr buf offset len = Some (st, n, v', w', buf) ∧ steps v w v' w' ∧ transfer_ends v offset len st n v' w' ∧ stored offset n buf (byte v w) (byte v' w').
Proof.
  intros Hw Hv Hptr Ho Hl Hbuf. unfold Write, ReadWriteInternal, transfer_ends. rewrite Hptr, trim_span by (done || by eapply small_size). assert (Hnil : stored offset 0 buf (byte v w) (byte v w)) by (intros x Hx; by rewrite decide_False by lia).
  destruct (span v offset len) as [m|] eqn:Es; [|exists ERR_OUT_OF_RANGE, 0, v, w; split; [done|]; split; [by apply steps_refl|done]]. destruct (span_Some v offset len m Ho Hl Es) as [Hm Hend]. unfold is_u64 in *. destruct (m =? 0) eqn:E0; zb; [subst m; exists 0, 0, v, w; split; [done|]; split; [by apply steps_refl|]; split; [left; split_and!; [done|done|lia]|done]|].
  destruct (rw_loop_start write_routine offset m (λ k c b, stored offset k buf (byte v w) c ∧ b = buf) (λ _ _ _ _, False)) with (v := v) (w := w) (b := buf) as (r & Er & Hr); try done; [intros k c c' b [Hc ->] Hcc; split; [|done]; intros x Hx; rewrite Hcc by done; auto|apply write_copy; lia|lia|lia|].
  destruct r as [[[[st n] v'] w'] b']. destruct Hr as (Hst & Hn & Hpres & [(-> & -> & Hs & ->)|[(-> & Hlt & [Hs ->] & Hx)|(_ & _ & [])]]); (eexists _, _, v', w'; split; [done|]; split; [done|]; split; [|done]); [left; rewrite Z.add_0_r in Hpres; done|right; split; [done|]; split; [lia|done]].
Qed.

(** The bytes that a read has put into the buffer. *)
Definition loaded (offset n : Z) (c : Z → Z) (buf buf' : list Z) : Prop :=
  ∀ i, 0 ≤ i < zlen buf → buf' !! Z.to_nat i = if decide (i < n) then Some (c (offset + i)) else buf !! Z.to_nat i.

Lemma read_copy off buf c0 total : 0 ≤ off → total ≤ zlen buf → ∀ k c b n chunk, ((∀ x, 0 ≤ x → c x = c0 x) ∧ loaded off k c0 buf b ∧ zlen b = zlen buf) → 0 ≤ k → 0 < n → k + n ≤ total → zlen chunk = n → (∀ j, 0 ≤ j < n → chunk !! Z.to_nat j = Some (c (off + k + j))) →
  ∃ err chunk1 b1, read_routine chunk k n b = Some (err, chunk1, b1) ∧ zlen chunk1 = n ∧
    ∀ c', (∀ x, 0 ≤ x → c' x = if decide (off + k ≤ x < off + k + n) then default 0 (chunk1 !! Z.to_nat (x - (off + k))) else c x) → if err <? 0 then False else (∀ x, 0 ≤ x → c' x = c0 x) ∧ loaded off (k + n) c0 buf b1 ∧ zlen b1 = zlen buf.
Proof.
  intros Hoff Hlen k c b n chunk (Hc & Hld & Hzl) Hk Hn Hle Hl Hch. unfold read_routine. destruct (write_at_Some k chunk b Hk ltac:(lia)) as (b1 & Ew & Hlen1 & Hb1). rewrite Ew. cbn [mbind option_bind]. eexists _, _, _. split; [done|]. split; [done|]. intros c' Hc'. cbn. split; [|split; [|unfold zlen in *; lia]].
  - intros x Hx. rewrite Hc' by done. destruct (decide (off + k ≤ x < off + k + n)); [|auto]. rewrite Hch by lia. cbn. rewrite Hc by lia. f_equal. lia.
  - intros i Hi. rewrite Hb1. unfold zlen in *. destruct (decide (Z.to_nat k ≤ Z.to_nat i < Z.to_nat k + length chunk)%nat) as [Hin|Hout].
    + rewrite decide_True by lia. replace (Z.to_nat i - Z.to_nat k)%nat with (Z.to_nat (i - k)) by lia. rewrite Hch by lia. rewrite Hc by lia. do 2 f_equal. lia.
    + rewrite Hld by (unfold zlen; lia). destruct (decide (i < k)); [by rewrite decide_True by lia|by rewrite decide_False by lia].
Qed.

Lemma read_spec v w ptr buf offset len : world_ok w → vmo_ok w v → is_kernel_address ptr = true → is_u64 offset → is_u64 len → len ≤ zlen buf →
  ∃ st n v' w' buf', Read maps v w ptr buf offset len = Some (st, n, v', w', buf') ∧ steps v w v' w' ∧ transfer_ends v offset len st n v' w' ∧ (∀ x, 0 ≤ x → byte v' w' x = byte v w x) ∧ loaded offset n (byte v w) buf buf' ∧ zlen buf' = zlen buf.
Proof.
  intros Hw Hv Hptr Ho Hl Hbuf. unfold Read, ReadWriteInternal, transfer_ends. rewrite Hptr, trim_span by (done || by eapply small_size). assert (Hnil : loaded offset 0 (byte v w) buf buf) by (intros i Hi; by rewrite decide_False by lia).
  destruct (span v offset len) as [m|] eqn:Es; [|exists ERR_OUT_OF_RANGE, 0, v, w, buf; split; [done|]; split; [by apply steps_refl|done]]. destruct (span_Some v offset len m Ho Hl Es) as [Hm Hend]. unfold is_u64 in *. destruct (m =? 0) eqn:E0; zb; [subst m; exists 0, 0, v, w, buf; split; [done|]; split; [by apply steps_refl|]; split; [left; split_and!; [done|done|lia]|done]|].
  destruct (rw_loop_start read_routine offset m (λ k c b, (∀ x, 0 ≤ x → c x = byte v w x) ∧ loaded offset k (byte v w) buf b ∧ zlen b = zlen buf) (λ _ _ _ _, False)) with (v := v) (w := w) (b := buf) as (r & Er & Hr); try done; [intros k c c' b (Hc & ?) Hcc; split; [|done]; intros x Hx; rewrite Hcc by done; auto|apply read_copy; lia|lia|lia|].
  destruct r as [[[[st n] v'] w'] b']. destruct Hr as (Hst & Hn & Hpres & [(-> & -> & Hs & ?)|[(-> & Hlt & [Hs ?] & Hx)|(_ & _ & [])]]); (eexists _, _, v', w', b'; split; [done|]; split; [done|]; split; [|done]); [left; rewrite Z.add_0_r in Hpres; done|right; split; [done|]; split; [lia|done]].
Qed.

(** ** Commitment *)

(** The number of indices from [i] on without a page. *)
Definition missing (v : vm_object) (i n : Z) : Z := zlen (filter (λ j, entry v j = None) (seqZ i n)).

Lemma missing_cons v i n : 0 < n → missing v i n = missing v (i + 1) (n - 1) + match entry v i with None => 1 | Some _ => 0 end.
Proof.
  intros Hn. unfold missing. rewrite seqZ_cons by done. rewrite Z.add_1_r, <- Z.sub_1_r. destruct (entry v i) eqn:E; [rewrite filter_cons_False by (by rewrite E); lia|]. rewrite filter_cons_True by done. unfold zlen. cbn [length]. lia.
Qed.

Lemma missing_bound v i n : 0 ≤ n → 0 ≤ missing v i n ≤ n.
Proof. intros Hn. unfold missing, zlen. pose proof (length_filter (λ j, entry v j = None) (seqZ i n)). rewrite length_seqZ in *. lia. Qed.

Lemma missing_full v i n : 0 ≤ n → missing v i n = n ↔ ∀ j, i ≤ j < i + n → entry v j = None.
Proof.
  intros Hn. revert i. induction (Z.to_nat n) as [|k IH] eqn:Ek in n, Hn |- *; intros i; [assert (n = 0) as -> by lia; split; [lia|done]|].
  rewrite missing_cons by lia. pose proof (missing_bound v (i + 1) (n - 1) ltac:(lia)). specialize (IH (n - 1) ltac:(lia) ltac:(lia) (i + 1)). destruct (entry v i) as [p|] eqn:E.
  - split; [lia|]. intros Hall. rewrite Hall in E by lia. done.
  - split.
    + intros Heq j Hj. destruct (decide (j = i)) as [->|]; [done|]. apply IH; lia.
    + intros Hall. enough (missing v (i + 1) (n - 1) = n - 1) by lia. apply IH. intros j Hj. apply Hall. lia.
Qed.

Lemma pages_of_max w v : vmo_ok w v → pages_of (size_ v) * PAGE_SIZE ≤ 2 ^ 64 - PAGE_SIZE ∧ 0 ≤ pages_of (size_ v).
Proof.
  intros Hv. pose proof (vo_size _ _ Hv) as Hs. change MAX_SIZE with (2 ^ 64 - 4096) in Hs. unfold pages_of. destruct (page_split (size_ v + (PAGE_SIZE - 1)) ltac:(unfold PAGE_SIZE; lia)) as (E & Hb & ?). unfold PAGE_SIZE in *. lia.
Qed.

(** The loops go through the pages of the range: from [r] inside of the page [i], while
    the offset is below the end of [n] pages. *)
Lemma loop_test i r n : 0 ≤ r < PAGE_SIZE → (i * PAGE_SIZE + r <? (i + n) * PAGE_SIZE) = (0 <? n).
Proof. intros Hr. unfold PAGE_SIZE in *. destruct (0 <? n) eqn:E; zb; [apply Z.ltb_lt|apply Z.ltb_ge]; lia. Qed.

Lemma loop_index i r : 0 ≤ r < PAGE_SIZE → (i * PAGE_SIZE + r) / PAGE_SIZE = i.
Proof. intros Hr. symmetry. apply (Z.div_unique _ _ _ r); lia. Qed.

Lemma loop_next w v i r n : vmo_ok w v → 0 ≤ i → 0 ≤ r < PAGE_SIZE → 0 < n → i + n ≤ pages_of (size_ v) → u64 (i * PAGE_SIZE + r + PAGE_SIZE) = (i + 1) * PAGE_SIZE + r ∧ (i + n) * PAGE_SIZE = (i + 1 + (n - 1)) * PAGE_SIZE.
Proof. intros Hv Hi Hr Hn Hle. pose proof (pages_of_max w v Hv). unfold PAGE_SIZE in *. rewrite u64_id by (unfold is_u64; lia). lia. Qed.

Lemma count_missing_ok w v r fuel : vmo_ok w v → 0 ≤ r < PAGE_SIZE → ∀ i n, 0 ≤ i → 0 ≤ n → i + n ≤ pages_of (size_ v) → n < Z.of_nat fuel → count_missing fuel v (i * PAGE_SIZE + r) ((i + n) * PAGE_SIZE) = Some (missing v i n).
Proof.
  intros Hv Hr. induction fuel as [|fuel IH]; intros i n Hi Hn Hle Hf; [lia|]. cbn [count_missing]. rewrite loop_test by done. destruct (0 <? n) eqn:E; zb; [|assert (n = 0) as -> by lia; done].
  unfold OffsetToIndex. rewrite loop_index, (page_at_index_ok v w) by (done || lia). cbn [mbind option_bind]. destruct (loop_next w v i r n Hv Hi Hr E Hle) as [-> ->]. rewrite IH by lia. cbn [mbind option_bind]. rewrite (missing_cons v i n) by done. destruct (entry v i); f_equal; lia.
Qed.

Lemma empty_run_ok w v r fuel : vmo_ok w v → 0 ≤ r < PAGE_SIZE → ∀ i n, 0 ≤ i → 0 ≤ n → i + n ≤ pages_of (size_ v) → n < Z.of_nat fuel →
  empty_run fuel v (i * PAGE_SIZE + r) ((i + n) * PAGE_SIZE) = Some (if missing v i n =? n then Some n else None).
Proof.
  intros Hv Hr. induction fuel as [|fuel IH]; intros i n Hi Hn Hle Hf; [lia|]. cbn [empty_run]. rewrite loop_test by done. destruct (0 <? n) eqn:E; zb; [|assert (n = 0) as -> by lia; done].
  unfold OffsetToIndex. rewrite loop_index, (page_at_index_ok v w) by (done || lia). cbn [mbind option_bind]. destruct (loop_next w v i r n Hv Hi Hr E Hle) as [-> ->]. rewrite (missing_cons v i n) by done. pose proof (missing_bound v (i + 1) (n - 1) ltac:(lia)). destruct (entry v i).
  - rewrite (proj2 (Z.eqb_neq _ _)) by lia. done.
  - rewrite IH by lia. cbn [mbind option_bind]. destruct (missing v (i + 1) (n - 1) =? n - 1) eqn:E1; zb; [rewrite (proj2 (Z.eqb_eq _ _)) by lia; do 2 f_equal; lia|rewrite (proj2 (Z.eqb_neq _ _)) by lia; done].
Qed.

(** Pages that are to be added: in use, on a list, mapped and not of the object. *)
Record spare (w : machine) (v : vm_object) (lst : list Z) : Prop := {
  sp_nodup : NoDup lst;
  sp_pages p : p ∈ lst → pages (m_pmm w) !! p = Some held_page ∧ p ∉ owned v ∧ is_Some (paddr_to_kvaddr maps (paddr w p)) }.

Record added (v : vm_object) (w : machine) (i n : Z) (lst : list Z) (v' : vm_object) (w' : machine) : Prop := {
  ad_world : world_ok w';
  ad_vmo : vmo_ok w' v';
  ad_byte o : 0 ≤ o → byte v' w' o = byte v w o;
  ad_entry j : 0 ≤ j → entry v' j = if decide (i ≤ j < i + n) then lst !! Z.to_nat (j - i) else entry v j;
  ad_same : size_ v' = size_ v ∧ pmm_alloc_flags_ v' = pmm_alloc_flags_ v ∧ owned v' ≡ₚ lst ++ owned v;
  ad_pmm : arenas (m_pmm w') = arenas (m_pmm w) ∧ pages (m_pmm w') = pages (m_pmm w);
  ad_ram q : is_Some (pages (m_pmm w) !! q) → q ∉ lst → m_ram w' !! paddr w q = m_ram w !! paddr w q }.

(** One page more. *)
Lemma add_one w v i p lst : world_ok w → vmo_ok w v → 0 ≤ i < pages_of (size_ v) → entry v i = None → spare w v (p :: lst) →
  ∃ s1 w1 v2 s2, unlink_page (m_pmm w) p = Some s1 ∧ ZeroPage maps (set_pmm w s1) (vm_page_to_paddr s1 p) = Some w1 ∧ AddPageToArray v (m_pmm w1) i p = Some (v2, s2) ∧ added v w i 1 [p] v2 (set_pmm w1 s2) ∧ spare (set_pmm w1 s2) v2 lst.
Proof.
  intros Hw Hv Hi He [Hnd Hsp]. apply list.NoDup_cons in Hnd as [Hn Hnd]. destruct (Hsp p ltac:(by left)) as (Hp & Hno & Hk). set (s1 := owner_step (m_pmm w) p (mk_page false VM_PAGE_STATE_ALLOC)). set (w0 := set_pmm w s1).
  assert (Hps : ∀ q, q ≠ p → pages s1 !! q = pages (m_pmm w) !! q) by (intros q Hq; cbn; by rewrite lookup_insert_ne). assert (Hw0 : world_ok w0) by (split; [by apply (owner_inv (m_pmm w) p _ _ (wo_pmm _ Hw) Hp)|]; intros q Hq; apply (wo_ram _ Hw); destruct (decide (q = p)) as [->|Hqp]; [eauto|by rewrite <- Hps]).
  assert (Hv0 : vmo_ok w0 v) by (apply (vmo_frame w); [done|done|]; intros q Hq; apply Hps; by intros ->). destruct (attach_ok w0 v i p Hw0 Hv0 Hi He) as (w1 & v2 & s2 & Ez & Ea & Hw2 & Hv2 & Hb & Hent & (Hsz & Hfl & Ho) & Har & Hpg & Hram); [cbn; by rewrite lookup_insert_eq|done|done|].
  exists s1, w1, v2, s2. split; [unfold unlink_page; rewrite Hp; done|]. split; [done|]. split; [done|]. assert (Hpp : pages s2 !! p = Some held_page) by (apply (vo_pages _ _ Hv2 p); rewrite Ho; by left). assert (Hall : pages s2 = pages (m_pmm w)) by (apply map_eq; intros q; destruct (decide (q = p)) as [->|Hq]; [by rewrite Hpp, Hp|rewrite Hpg by done; by apply Hps]). split; [split|].
  - done.
  - done.
  - intros o Ho0. rewrite Hb by done. by apply (byte_frame w).
  - intros j Hj. rewrite Hent by done. destruct (decide (j = i)) as [->|Hne]; [rewrite decide_True by lia; by rewrite Z.sub_diag|by rewrite decide_False by lia].
  - done.
  - done.
  - intros q Hq Hql. apply not_elem_of_cons in Hql as [Hqp _]. apply Hram; [cbn [m_pmm set_pmm w0]; by rewrite Hps|done].
  - split; [done|]. intros q Hq. destruct (Hsp q ltac:(by right)) as (Hq1 & Hq2 & Hq3). split; [cbn [m_pmm set_pmm]; by rewrite Hall|]. split; [rewrite Ho; intros [->|?]%elem_of_cons; done|]. unfold paddr. cbn [m_pmm set_pmm]. by rewrite (paddr_of_geo (m_pmm w)) by (by rewrite Har).
Qed.

Lemma add_pages_ok r fuel : 0 ≤ r < PAGE_SIZE → ∀ lst v w i, world_ok w → vmo_ok w v → 0 ≤ i → i + zlen lst ≤ pages_of (size_ v) → zlen lst < Z.of_nat fuel → (∀ j, i ≤ j < i + zlen lst → entry v j = None) → spare w v lst →
  ∃ v' w', add_pages maps fuel v w (i * PAGE_SIZE + r) ((i + zlen lst) * PAGE_SIZE) lst = Some (v', w', []) ∧ added v w i (zlen lst) lst v' w'.
Proof.
  intros Hr. induction fuel as [|fuel IH]; intros lst v w i Hw Hv Hi Hle Hf He Hsp; [pose proof (zlen_nonneg lst); lia|]. cbn [add_pages]. rewrite loop_test by done. destruct lst as [|p lst].
  - change (zlen []) with 0. cbn [Z.ltb]. exists v, w. split; [done|]. split; try done. intros j Hj. by rewrite decide_False by lia.
  - assert (Ez : zlen (p :: lst) = zlen lst + 1) by (unfold zlen; cbn; lia). pose proof (zlen_nonneg lst). rewrite Ez in *. rewrite (proj2 (Z.ltb_lt 0 _)) by lia. unfold OffsetToIndex. rewrite loop_index by done.
    destruct (add_one w v i p lst Hw Hv ltac:(lia) ltac:(apply He; lia) Hsp) as (s1 & w1 & v2 & s2 & -> & E2 & E3 & [D1 D2 D3 D4 (D5 & D5' & D5'') [D6 D6'] D7] & Hsp2). cbn [mbind option_bind]. rewrite E2. cbn [mbind option_bind]. rewrite E3. cbn [mbind option_bind]. set (w2 := set_pmm w1 s2) in *.
    destruct (loop_next w v i r (zlen lst + 1) Hv Hi Hr ltac:(lia) Hle) as [-> ->]. replace (zlen lst + 1 - 1) with (zlen lst) by lia. destruct (IH lst v2 w2 (i + 1) D1 D2) as (v' & w' & E & [F1 F2 F3 F4 (F5 & F5' & F5'') [F6 F6'] F7]); [lia|rewrite D5; lia|lia| |done|].
    { intros j Hj. rewrite D4, decide_False by lia. apply He. lia. }
    exists v', w'. split; [done|]. split; [done|done|intros o Ho; rewrite F3, D3; done| |split; [congruence|split; [congruence|rewrite F5'', D5''; cbn [app]; by rewrite Permutation_middle]]|split; congruence|].
    + intros j Hj. rewrite F4, D4 by done. destruct (decide (i + 1 ≤ j < i + 1 + zlen lst)) as [Hin|Hout]; [rewrite decide_True by lia; replace (Z.to_nat (j - i)) with (S (Z.to_nat (j - (i + 1)))) by lia; done|]. destruct (decide (i ≤ j < i + 1)); [rewrite decide_True by lia; assert (j = i) as -> by lia; by rewrite Z.sub_diag|by rewrite decide_False by lia].
    + intros q Hq [Hqp Hql]%not_elem_of_cons. assert (Epa : paddr w2 q = paddr w q) by (unfold paddr; apply paddr_of_geo; by rewrite D6). rewrite <- Epa, F7 by (rewrite ?D6'; done). rewrite Epa. apply D7; [done|]. by rewrite list_elem_of_singleton.
Qed.

Lemma roundup_pages x : 0 ≤ x ≤ MAX_SIZE → ROUNDUP_PAGE_SIZE x = pages_of x * PAGE_SIZE.
Proof. intros Hx. change MAX_SIZE with (2 ^ 64 - 4096) in Hx. unfold ROUNDUP_PAGE_SIZE. change PAGE_SIZE with (2 ^ 12) at 1. rewrite roundup_pow2 by lia. done. Qed.

(** The pages of a range that is not empty. *)
Lemma range_pages w v offset m : vmo_ok w v → 0 ≤ offset → 0 < m → offset + m ≤ size_ v → let i := offset / PAGE_SIZE in let n := pages_of (offset + m) - i in
  0 ≤ i ∧ 0 < n ∧ i + n ≤ pages_of (size_ v) ∧ m ≤ n * PAGE_SIZE ∧ u64 (offset + m) = offset + m ∧ ROUNDUP_PAGE_SIZE (offset + m) = (i + n) * PAGE_SIZE ∧ offset = i * PAGE_SIZE + offset mod PAGE_SIZE ∧ 0 ≤ offset mod PAGE_SIZE < PAGE_SIZE ∧ n < Z.of_nat (range_fuel offset ((i + n) * PAGE_SIZE)).
Proof.
  intros Hv Ho Hm Hle i n. pose proof (vo_size _ _ Hv) as Hs. pose proof (pages_of_max w v Hv). destruct (page_split offset Ho) as (E & Hb & Hi). fold i in E, Hi. assert (Hmono : pages_of (offset + m) ≤ pages_of (size_ v)) by (apply Z.div_le_mono; [done|lia]). rewrite roundup_pages by lia. change MAX_SIZE with (2 ^ 64 - 4096) in Hs. rewrite u64_id by (unfold is_u64; lia).
  assert (Hp : offset + m ≤ pages_of (offset + m) * PAGE_SIZE) by (unfold pages_of; destruct (page_split (offset + m + (PAGE_SIZE - 1)) ltac:(unfold PAGE_SIZE; lia)); unfold PAGE_SIZE in *; lia). assert (Hn : 0 < n) by (unfold n, PAGE_SIZE in *; lia). replace (i + n) with (pages_of (offset + m)) in * by (unfold n; lia).
  split_and!; try done; try lia. unfold range_fuel. destruct (page_split (pages_of (offset + m) * PAGE_SIZE - offset) ltac:(lia)) as (E2 & Hb2 & ?). unfold PAGE_SIZE in *. lia.
Qed.

(** Too few pages for the range. *)
Lemma add_pages_short r fuel : 0 ≤ r < PAGE_SIZE → ∀ lst v w i n, 0 ≤ i → (i + n) * PAGE_SIZE ≤ 2 ^ 64 - PAGE_SIZE → zlen lst < n → add_pages maps fuel v w (i * PAGE_SIZE + r) ((i + n) * PAGE_SIZE) lst = None.
Proof.
  intros Hr. induction fuel as [|fuel IH]; intros lst v w i n Hi Hle Hl; [done|]. cbn [add_pages]. pose proof (zlen_nonneg lst). rewrite loop_test, (proj2 (Z.ltb_lt 0 n)) by (done || lia). destruct lst as [|p lst]; [done|]. destruct (unlink_page _ _) as [s1|]; [|done]. cbn [mbind option_bind]. destruct (ZeroPage _ _ _) as [w1|]; [|done]. cbn [mbind option_bind]. destruct (AddPageToArray _ _ _ _) as [[v2 s2]|]; [|done]. cbn [mbind option_bind].
  assert (Ez : zlen (p :: lst) = zlen lst + 1) by (unfold zlen; cbn; lia). pose proof (zlen_nonneg lst). unfold PAGE_SIZE in *. rewrite u64_id by (unfold is_u64; lia). replace (i * 4096 + r + 4096) with ((i + 1) * 4096 + r) by lia. replace ((i + n) * 4096) with ((i + 1 + (n - 1)) * 4096) by lia. apply IH; lia.
Qed.

(** Pages of the allocator become pages of the object. *)
Lemma added_steps lk w v ps s1 i n v' w' : world_ok w → vmo_ok w v → claims lk (m_pmm w) ps s1 → added v (set_pmm w s1) i n ps v' w' → (∀ j, i ≤ j < i + n → entry v j = None) → steps v w v' w' ∧ ∀ o, 0 ≤ o → byte v' w' o = byte v w o.
Proof.
  intros Hw Hv Hcl [A1 A2 A3 A4 (A5 & A5' & A5'') [A6 A6'] A7] He. destruct (claims_pages _ _ _ _ (wo_pmm _ Hw) Hcl) as (_ & Hf & Hp). destruct (claims_world _ w v ps s1 Hw Hv Hcl) as (_ & _ & Hb1 & [Kg Kk] & _). cbn [m_pmm set_pmm] in *. split; [|intros o Ho; by rewrite A3, Hb1].
  split; [done|done| |intros p Hin; rewrite A5'' in Hin; apply elem_of_app in Hin as [?|?]; [right; auto|by left]| | |done|].
  - split; [by rewrite A6|]. intros p pg Hpg Hst Hno. destruct (Kk p pg Hpg Hst Hno) as [Hp1 Hr1]. rewrite A6'. split; [done|]. assert (Epa : paddr (set_pmm w s1) p = paddr w p) by (unfold paddr; by apply paddr_of_geo). rewrite <- Epa, A7; [by rewrite Epa|eauto|]. intros Hin. rewrite (Hf p Hin) in Hpg. injection Hpg as <-. by apply Hst.
  - intros p. rewrite A6', Hp. by destruct (decide (p ∈ ps)).
  - intros p Hpf. rewrite A6', Hp, A5'', elem_of_app. destruct (decide (p ∈ ps)); [right; by left|by left].
  - intros j p Hj Ej. rewrite A4 by done. destruct (decide (i ≤ j < i + n)) as [Hin|]; [by rewrite He in Ej|done].
Qed.

Lemma spare_claims w v ps s1 : world_ok w → vmo_ok w v → claims true (m_pmm w) ps s1 → (∀ p, p ∈ ps → ∃ a, a ∈ arenas (m_pmm w) ∧ eligible (pmm_alloc_flags_ v) a = true ∧ p ∈ free_list a) → spare (set_pmm w s1) v ps.
Proof.
  intros Hw Hv Hcl Hel. destruct (claims_pages _ _ _ _ (wo_pmm _ Hw) Hcl) as (Hnd & _ & Hp). destruct (claims_world _ w v ps s1 Hw Hv Hcl) as (_ & _ & _ & [Kg _] & Hno). split; [done|]. intros p Hin. cbn [m_pmm set_pmm] in *. split; [rewrite Hp, decide_True by done; done|]. split; [auto|]. unfold paddr. rewrite (paddr_of_geo (m_pmm w)) by done. by apply (eligible_mapped w v p Hw Hv (Hel p Hin)).
Qed.

(** An allocation that is given back. *)
Lemma undo_steps lk w v ps s1 : world_ok w → vmo_ok w v → claims lk (m_pmm w) ps s1 → ∃ s2, pmm_free s1 ps = Some (zlen ps, s2) ∧ pages s2 = pages (m_pmm w) ∧ steps v w v (set_pmm w s2) ∧ ∀ o, byte v (set_pmm w s2) o = byte v w o.
Proof.
  intros Hw Hv Hcl. destruct (claims_free _ _ _ _ (wo_pmm _ Hw) Hcl) as (s2 & E & Hp & Hg & Hi). exists s2. split; [done|]. split; [done|]. split; [|intros o; by apply byte_frame]. split; [|by apply (vmo_frame w); [done|done|intros; cbn [m_pmm set_pmm]; by rewrite Hp]| |by left|cbn [m_pmm set_pmm]; by rewrite Hp|cbn [m_pmm set_pmm]; rewrite Hp; by left|done|done].
  - split; [done|]. intros p Hin. unfold paddr. cbn [m_pmm m_ram set_pmm] in *. rewrite (paddr_of_geo (m_pmm w)) by done. apply (wo_ram _ Hw). by rewrite <- Hp.
  - split; [done|]. intros p pg Hpg _ _. cbn [m_pmm m_ram set_pmm]. by rewrite Hp.
Qed.

(** The offsets whose pages a range covers. *)
Definition covered (offset m j : Z) : Prop := offset / PAGE_SIZE ≤ j < pages_of (offset + m).

Lemma commit_spec v w offset len m : world_ok w → vmo_ok w v → is_u64 offset → is_u64 len → span v offset len = Some m → 0 < m → let i := offset / PAGE_SIZE in let n := pages_of (offset + m) - i in let k := missing v i n in
  if k =? 0 then CommitRange maps v w offset len = Some (0, v, w)
  else if first_free (pmm_alloc_flags_ v) (arenas (m_pmm w)) <? k then ∃ w', CommitRange maps v w offset len = Some (ERR_NO_MEMORY, v, w') ∧ steps v w v w' ∧ pages (m_pmm w') = pages (m_pmm w)
  else if k <? n then CommitRange maps v w offset len = None
  else ∃ v' w', CommitRange maps v w offset len = Some (m, v', w') ∧ steps v w v' w' ∧ (∀ o, 0 ≤ o → byte v' w' o = byte v w o) ∧ ∀ j, covered offset m j → is_Some (entry v' j).
Proof.
  intros Hw Hv Ho Hl Es Hm i n k. destruct (span_Some v offset len m Ho Hl Es) as [Hm' Hend]. unfold is_u64 in *. destruct (range_pages w v offset m Hv ltac:(lia) Hm Hend) as (Hi & Hn & Hle & Hmn & Eu & Er & Eo & Hr & Hfuel). fold i n in Hi, Hn, Hle, Hmn, Er, Eo, Hfuel. set (r := offset mod PAGE_SIZE) in *. pose proof (pages_of_max w v Hv) as Hmax. pose proof (missing_bound v i n ltac:(lia)) as Hk. fold k in Hk.
  assert (E : CommitRange maps v w offset len = (if k =? 0 then Some (0, v, w) else '(allocated, lst, s1) ← pmm_alloc_pages (m_pmm w) k (pmm_alloc_flags_ v) []; if allocated <? k then '(_, s2) ← pmm_free s1 lst; Some (ERR_NO_MEMORY, v, set_pmm w s2) else
    '(v2, w2, rest) ← add_pages maps (range_fuel offset ((i + n) * PAGE_SIZE)) v (set_pmm w s1) offset ((i + n) * PAGE_SIZE) lst; ASSERT bool_decide (rest = []); Some (i64 m, v2, w2))).
  { unfold CommitRange. rewrite trim_span, Es by (done || by eapply small_size). rewrite (proj2 (Z.eqb_neq m 0)) by lia. rewrite Eu, Er. rewrite (proj2 (Z.ltb_lt offset _)) by (unfold PAGE_SIZE in *; lia). assert (Ec : ∀ f, n < Z.of_nat f → count_missing f v offset ((i + n) * PAGE_SIZE) = Some k) by (intros f Hf; rewrite Eo; by apply (count_missing_ok w v r); (done || lia)). rewrite Ec by done. done. }
  rewrite E. destruct (k =? 0) eqn:E0; zb; [done|]. destruct (alloc_pages_spec (m_pmm w) k (pmm_alloc_flags_ v) [] (wo_pmm _ Hw) ltac:(lia)) as (ps & s1 & -> & Hz & Hcl & Hel). cbn [mbind option_bind app]. rewrite Hz. destruct (first_free _ _ <? k) eqn:Eff; zb.
  - rewrite (proj2 (Z.ltb_lt _ _)) by lia. destruct (undo_steps _ w v ps s1 Hw Hv Hcl) as (s2 & -> & Hp & Hst & _). cbn [mbind option_bind]. by exists (set_pmm w s2).
  - assert (Eal : (Z.min k (first_free (pmm_alloc_flags_ v) (arenas (m_pmm w))) <? k) = false) by (apply Z.ltb_ge; lia). rewrite Eal. assert (Esh : ∀ f v0 w0 lst, add_pages maps f v0 w0 offset ((i + n) * PAGE_SIZE) lst = add_pages maps f v0 w0 (i * PAGE_SIZE + r) ((i + n) * PAGE_SIZE) lst) by (intros; by rewrite <- Eo). rewrite Esh. destruct (k <? n) eqn:Ekn; zb; [rewrite add_pages_short by (done || lia || (unfold PAGE_SIZE in *; lia)); done|]. assert (Ekn' : k = n) by lia. pose proof (proj1 (missing_full v i n ltac:(lia)) Ekn') as Hnone. assert (Ezn : zlen ps = n) by lia.
    destruct (claims_world _ w v ps s1 Hw Hv Hcl) as (Hw1 & Hv1 & _). rewrite <- Ezn in Hfuel, Hle, Hnone |- *. destruct (add_pages_ok r (range_fuel offset ((i + zlen ps) * PAGE_SIZE)) Hr ps v (set_pmm w s1) i Hw1 Hv1 Hi Hle Hfuel Hnone (spare_claims w v ps s1 Hw Hv Hcl Hel)) as (v' & w' & Ea & Had).
    rewrite Ea. cbn [mbind option_bind]. rewrite bool_decide_eq_true_2 by done. destruct (added_steps true w v ps s1 i (zlen ps) v' w' Hw Hv Hcl Had Hnone) as [Hst Hb]. exists v', w'. split.
    + do 3 f_equal. unfold i64. pose proof (pages_bound (m_pmm w) ps (wo_pmm _ Hw) (sp_nodup _ _ _ (spare_claims w v ps s1 Hw Hv Hcl Hel))) as Hpb. destruct (claims_pages _ _ _ _ (wo_pmm _ Hw) Hcl) as (_ & Hf & _). specialize (Hpb ltac:(intros p Hp; rewrite Hf by done; eauto)). unfold PAGE_SIZE in *. rewrite Z.mod_small; lia.
    + split; [done|]. split; [done|]. intros j Hj. unfold covered in Hj. fold i in Hj. rewrite (ad_entry _ _ _ _ _ _ _ Had), decide_True by lia. apply list_lookup_Z_lt. fold (zlen ps). lia.
Qed.

Lemma commit_contiguous_spec v w offset len m al : world_ok w → vmo_ok w v → is_u64 offset → is_u64 len → al < 64 → span v offset len = Some m → 0 < m → let i := offset / PAGE_SIZE in let n := pages_of (offset + m) - i in
  if negb (missing v i n =? n) then CommitRangeContiguous maps v w offset len al = Some (ERR_NO_MEMORY, v, w)
  else if negb (n =? m / PAGE_SIZE) then CommitRangeContiguous maps v w offset len al = None
  else ∃ st v' w', CommitRangeContiguous maps v w offset len al = Some (st, v', w') ∧ steps v w v' w' ∧ (∀ o, 0 ≤ o → byte v' w' o = byte v w o) ∧
    ((st = n * PAGE_SIZE ∧ ∃ pa, pa mod 2 ^ align_of al = 0 ∧ ∀ j, 0 ≤ j < n → ∃ p, entry v' (i + j) = Some p ∧ paddr w' p = pa + j * PAGE_SIZE) ∨
     (st = ERR_NO_MEMORY ∧ v' = v ∧ w' = w ∧ ∀ a b, a ∈ arenas (m_pmm w) → eligible (pmm_alloc_flags_ v) a = true → (ar_base a + b * PAGE_SIZE) mod 2 ^ align_of al = 0 → ¬ run_at a (pages (m_pmm w)) n b)).
Proof.
  intros Hw Hv Ho Hl Hal Es Hm i n. destruct (span_Some v offset len m Ho Hl Es) as [Hm' Hend]. unfold is_u64 in *. destruct (range_pages w v offset m Hv ltac:(lia) Hm Hend) as (Hi & Hn & Hle & Hmn & Eu & Er & Eo & Hr & Hfuel). fold i n in Hi, Hn, Hle, Hmn, Er, Eo, Hfuel. set (r := offset mod PAGE_SIZE) in *. pose proof (pages_of_max w v Hv) as Hmax.
  unfold CommitRangeContiguous. rewrite trim_span, Es by (done || by eapply small_size). rewrite (proj2 (Z.eqb_neq m 0)) by lia. rewrite Eu, Er. rewrite (proj2 (Z.ltb_lt offset _)) by (unfold PAGE_SIZE in *; lia). assert (Ec : ∀ f, n < Z.of_nat f → empty_run f v offset ((i + n) * PAGE_SIZE) = Some (if missing v i n =? n then Some n else None)) by (intros f Hf; rewrite Eo; by apply (empty_run_ok w v r); (done || lia)).
  rewrite Ec by done. cbn [mbind option_bind]. destruct (missing v i n =? n) eqn:Ek; cbn [negb]; zb; [|done]. destruct (n =? m / PAGE_SIZE) eqn:En; cbn [negb]; [|done]. clear En. pose proof (proj1 (missing_full v i n ltac:(lia)) Ek) as Hnone.
  destruct (contiguous_spec (m_pmm w) n (pmm_alloc_flags_ v) al (Some []) (wo_pmm _ Hw)) as (c & pa & ps & s1 & -> & Hcl & Hres); [unfold PAGE_SIZE in *; lia|done|]. cbn [mbind option_bind fmap option_fmap option_map app from_option id]. destruct Hres as [(-> & a & b & Ha & Hel & (Hb0 & Hb1 & Hbf) & Eps & Epa & Hpa)|(-> & -> & -> & Hno)].
  - rewrite Z.ltb_irrefl. assert (Ezn : zlen ps = n) by (subst ps; unfold zlen, pages_from; rewrite length_fmap, length_seq; lia). rewrite (proj2 (Z.eqb_eq _ _) Ezn). assert (Hel' : ∀ p, p ∈ ps → ∃ a, a ∈ arenas (m_pmm w) ∧ eligible (pmm_alloc_flags_ v) a = true ∧ p ∈ free_list a).
    { intros p Hp. exists a. split; [done|]. split; [done|]. rewrite Eps in Hp. apply pages_from_elem in Hp as (j & Hj & ->). apply (ao_free _ _ (pi_arenas _ (wo_pmm _ Hw) a Ha)). split; [exists j; split; [lia|done]|apply Hbf; lia]. }
    destruct (claims_world _ w v ps s1 Hw Hv Hcl) as (Hw1 & Hv1 & _). assert (Esh : ∀ f, add_pages maps f v (set_pmm w s1) offset ((i + n) * PAGE_SIZE) ps = add_pages maps f v (set_pmm w s1) (i * PAGE_SIZE + r) ((i + n) * PAGE_SIZE) ps) by (intros; by rewrite <- Eo). rewrite Esh. pose proof (spare_claims w v ps s1 Hw Hv Hcl Hel') as Hsp. rewrite <- Ezn in Hfuel, Hle, Hnone, Hmn |- *.
    destruct (add_pages_ok r (range_fuel offset ((i + zlen ps) * PAGE_SIZE)) Hr ps v (set_pmm w s1) i Hw1 Hv1 Hi Hle Hfuel Hnone Hsp) as (v' & w' & -> & Had). cbn [mbind option_bind]. destruct (added_steps true w v ps s1 i (zlen ps) v' w' Hw Hv Hcl Had Hnone) as [Hst Hbb]. eexists _, v', w'. split; [done|]. split; [done|]. split; [done|]. left. split.
    + destruct (claims_pages _ _ _ _ (wo_pmm _ Hw) Hcl) as (_ & Hf & _). pose proof (pages_bound (m_pmm w) ps (wo_pmm _ Hw) (sp_nodup _ _ _ Hsp) ltac:(intros p Hp; rewrite Hf by done; eauto)) as Hpb. unfold i64, PAGE_SIZE. rewrite u64_id, Z.mod_small by (unfold is_u64; lia). lia.
    + exists pa. split; [done|]. intros j Hj. exists (page_at a (b + j)). rewrite (ad_entry _ _ _ _ _ _ _ Had), decide_True by lia. replace (i + j - i) with j by lia. split.
      * rewrite Eps. unfold pages_from. rewrite list_lookup_fmap, lookup_seq_lt by lia. cbn. do 2 f_equal. lia.
      * unfold paddr. rewrite (paddr_of_geo (m_pmm w)) by apply (st_keeps _ _ _ _ Hst). rewrite (to_paddr _ a) by (apply (wo_pmm _ Hw) || done || lia). lia.
  - rewrite (proj2 (Z.ltb_lt 0 n)) by lia. cbn. rewrite set_pmm_id. exists ERR_NO_MEMORY, v, w. split; [done|]. split; [by apply steps_refl|]. split; [done|]. by right.
Qed.

(** ** The beginning and the end of an object *)

Lemma detach_ok m l : (∀ p, p ∈ omap id l → m !! p = Some held_page) → NoDup (omap id l) → ∀ plist, plist ≡ₚ omap id l → detach l m plist = Some (omap id l, []).
Proof.
  induction l as [|[p|] l IH]; cbn [omap list_omap id detach]; intros Hm Hnd plist Hpl.
  - by apply Permutation_nil_r in Hpl as ->.
  - rewrite Hm by (by left). cbn [mbind option_bind]. apply list.NoDup_cons in Hnd as [Hn Hnd]. rewrite bool_decide_eq_true_2 by (rewrite Hpl; by left). cbn [pg_linked held_page andb]. rewrite IH; [done|intros q Hq; apply Hm; by right|done|]. rewrite Hpl, filter_cons_False by tauto. by rewrite filter_ne_id.
  - by apply IH.
Qed.

Lemma delete_spec v w : world_ok w → vmo_ok w v → ∃ w', VmObject_delete v w = Some w' ∧ world_ok w' ∧ m_ram w' = m_ram w ∧ geo <$> arenas (m_pmm w') = geo <$> arenas (m_pmm w) ∧ ∀ p, pages (m_pmm w') !! p = if decide (p ∈ owned v) then Some free_page else pages (m_pmm w) !! p.
Proof.
  intros Hw Hv. unfold VmObject_delete. fold (owned v). rewrite detach_ok; [|intros p Hp; by apply (vo_pages _ _ Hv p Hp)|apply (vo_nodup _ _ Hv)|apply (vo_list _ _ Hv)]. cbn [mbind option_bind]. fold (owned v). destruct (free_spec (m_pmm w) (owned v) (wo_pmm _ Hw) (vo_nodup _ _ Hv)) as (s' & -> & Hi & Hg & Hp); [intros p Hp; destruct (vo_pages _ _ Hv p Hp); eauto|]. cbn [mbind option_bind].
  rewrite Z.eqb_refl. exists (set_pmm w s'). split; [done|]. split; [split; [done|]|done]. intros p Hin. unfold paddr. cbn [m_pmm m_ram set_pmm] in *. rewrite (paddr_of_geo (m_pmm w)) by done. apply (wo_ram _ Hw). rewrite Hp in Hin. destruct (decide (p ∈ owned v)) as [Ho|]; [destruct (vo_pages _ _ Hv p Ho); eauto|done].
Qed.

Lemma world_mem w m : world_ok w → world_ok (mk_machine (m_pmm w) (m_ram w) m).
Proof. intros [? H]. split; [done|]. intros p Hp. apply (H p Hp). Qed.

Lemma fresh_ok w flags size : 0 ≤ size ≤ MAX_SIZE → kmapped w flags → let v := mk_vmo size flags (Some (replicate (Z.to_nat (pages_of size)) None)) [] in vmo_ok w v ∧ owned v = [] ∧ ∀ o, byte v w o = 0.
Proof.
  intros Hs Hk v. assert (Ho : owned v = []) by (unfold owned, v; cbn [page_array_ from_option id]; induction (Z.to_nat (pages_of size)); done). assert (He : ∀ i, entry v i = None) by (intros i; unfold entry, v; cbn [page_array_ from_option id]; destruct (_ !! _) as [e|] eqn:E; [|done]; by apply lookup_replicate_1 in E as [-> _]).
  assert (Hp : 0 ≤ pages_of size) by (apply Z.div_pos; unfold PAGE_SIZE; lia). split; [|split; [done|intros o; unfold byte; by rewrite He]]. split; [done|eexists; split; [done|unfold zlen; rewrite length_replicate; cbn [size_ v]; lia]| | |by rewrite Ho|done]; rewrite Ho; [by intros ? ?%not_elem_of_nil|constructor].
Qed.

Lemma create_spec w flags size : world_ok w → kmapped w flags → is_u64 size → ∃ r w', Create w flags size = Some (r, w') ∧ m_pmm w' = m_pmm w ∧ m_ram w' = m_ram w ∧
  match r with Some v => vmo_ok w' v ∧ size_ v = size ∧ owned v = [] ∧ ∀ o, byte v w' o = 0 | None => MAX_SIZE < size ∨ (alloc (m_mem w)).1 = false ∨ (alloc (alloc (m_mem w)).2).1 = false end.
Proof.
  intros Hw Hk Hs. unfold Create. destruct (MAX_SIZE <? size) eqn:Em; zb; [exists None, w; split; [done|]; split; [done|]; split; [done|by left]|]. unfold is_u64 in Hs. destruct (alloc (m_mem w)) as [ok m1] eqn:E1. destruct ok; cbn [negb]; [|eexists None, _; split; [done|]; split; [done|]; split; [done|right; by left]].
  unfold Resize. rewrite roundup_pages by lia. assert (Hp : 0 ≤ pages_of size ∧ pages_of size * PAGE_SIZE ≤ 2 ^ 64 - 4096) by (change MAX_SIZE with (2 ^ 64 - 4096) in Em; unfold pages_of; destruct (page_split (size + (PAGE_SIZE - 1)) ltac:(unfold PAGE_SIZE; lia)) as (? & ? & ?); unfold PAGE_SIZE in *; lia).
  change MAX_SIZE with (2 ^ 64 - 4096) in *. rewrite (proj2 (Z.ltb_ge _ _)) by lia. cbn [size_ VmObject_new Z.eqb negb page_array_ pmm_alloc_flags_ page_list_ m_mem m_pmm m_ram]. rewrite bool_decide_eq_true_2 by done. destruct (alloc m1) as [ok m2] eqn:E2. destruct ok; cbn [negb mbind option_bind Z.eqb].
  - unfold OffsetToIndex. rewrite Z.div_mul by done. eexists (Some _), _. split; [done|]. split; [done|]. split; [done|]. destruct (fresh_ok (mk_machine (m_pmm w) (m_ram w) m2) flags size) as (? & ? & ?); [change MAX_SIZE with (2 ^ 64 - 4096); lia|done|done].
  - eexists None, _. split; [done|]. split; [done|]. split; [done|]. right. right. cbn. by rewrite E2.
Qed.

(** Adding a page of the caller. *)
Lemma add_page_spec v w p offset : world_ok w → vmo_ok w v → 0 ≤ offset < size_ v → entry v (offset / PAGE_SIZE) = None → pages (m_pmm w) !! p = Some (mk_page false VM_PAGE_STATE_ALLOC) → p ∉ owned v → is_Some (paddr_to_kvaddr maps (paddr w p)) →
  ∃ v' w', AddPage v w p offset = Some (NO_ERROR, v', w') ∧ (∀ j, 0 ≤ j → entry v' j = if decide (j = offset / PAGE_SIZE) then Some p else entry v j) ∧ m_ram w' = m_ram w ∧ pages (m_pmm w') = <[p := held_page]> (pages (m_pmm w)).
Proof.
  intros Hw Hv Ho He Hp Hno Hk. pose proof (index_bound v w offset Hv Ho) as Hi. destruct (vo_array _ _ Hv) as (l & El & Hl). assert (Hli : l !! Z.to_nat (offset / PAGE_SIZE) = Some None).
  { pose proof (page_at_index_ok v w _ Hv Hi) as E. unfold page_at_index in E. rewrite El, He in E. exact E. }
  unfold AddPage. rewrite (proj2 (Z.leb_gt _ _)) by lia. unfold AddPageToArray, OffsetToIndex. rewrite El. cbn [mbind option_bind]. rewrite Hli. cbn [mbind option_bind]. unfold link_page. rewrite Hp. cbn. eexists _, _. split; [done|]. split; [|done]. by apply entry_insert; [done|lia].
Qed.

(** ** Transfers with user space *)

(** What the copy routines promise: an error is negative, and without one all bytes are
    copied. *)
Class UserCopy (U : Type) (copy_to_user : U → Z → list Z → Z * U) (copy_from_user : U → Z → Z → Z * list Z) (user_byte : U → Z → Z) : Prop := {
  uc_from u a n err bs : 0 ≤ n → copy_from_user u a n = (err, bs) → err ≤ 0 ∧ zlen bs ≤ n ∧ (err = 0 → zlen bs = n ∧ ∀ j, 0 ≤ j < n → bs !! Z.to_nat j = Some (user_byte u (a + j)));
  uc_to u a bs err u' : copy_to_user u a bs = (err, u') → err ≤ 0 ∧ (err = 0 → ∀ x, user_byte u' x = if decide (a ≤ x < a + zlen bs) then default 0 (bs !! Z.to_nat (x - a)) else user_byte u x) }.

Section user.
Context {U : Type} {copy_to_user : U → Z → list Z → Z * U} {copy_from_user : U → Z → Z → Z * list Z} {user_byte : U → Z → Z} `{!UserCopy U copy_to_user copy_from_user user_byte}.

(** The object has the user's bytes in a range, and is otherwise as before. *)
Definition from_user (u : U) (ptr offset n : Z) (c c' : Z → Z) (x : Z) : Prop :=
  c' x = if decide (offset ≤ x < offset + n) then user_byte u (ptr + (x - offset)) else c x.

Lemma write_user_copy u ptr off c0 total : 0 ≤ off → 0 ≤ ptr → ptr + total ≤ 2 ^ 64 → ∀ k c b n chunk, ((∀ x, 0 ≤ x → from_user u ptr off k c0 c x) ∧ b = u) → 0 ≤ k → 0 < n → k + n ≤ total → zlen chunk = n → (∀ j, 0 ≤ j < n → chunk !! Z.to_nat j = Some (c (off + k + j))) →
  ∃ err chunk1 b1, write_user_routine copy_from_user ptr chunk k n b = Some (err, chunk1, b1) ∧ zlen chunk1 = n ∧
    ∀ c', (∀ x, 0 ≤ x → c' x = if decide (off + k ≤ x < off + k + n) then default 0 (chunk1 !! Z.to_nat (x - (off + k))) else c x) →
      if err <? 0 then (∀ x, 0 ≤ x → x < off + k ∨ off + total ≤ x → from_user u ptr off k c0 c' x) ∧ b1 = u else (∀ x, 0 ≤ x → from_user u ptr off (k + n) c0 c' x) ∧ b1 = u.
Proof.
  intros Hoff Hptr Hend k c b n chunk [Hc ->] Hk Hn Hle Hl _. unfold write_user_routine. rewrite u64_id by (unfold is_u64; lia). destruct (copy_from_user u (ptr + k) n) as [err bs] eqn:E. destruct (uc_from u (ptr + k) n err bs ltac:(lia) E) as (He & Hbl & Hok). destruct (write_at_Some 0 bs chunk ltac:(lia) ltac:(lia)) as (chunk1 & Ew & Hlen & Hch). rewrite Ew. cbn [mbind option_bind].
  eexists _, _, _. split; [done|]. split; [unfold zlen in *; lia|]. intros c' Hc'. unfold from_user in *. destruct (err <? 0) eqn:Ee; zb; (split; [|done]).
  - intros x Hx Hout. rewrite Hc', decide_False by lia. auto.
  - intros x Hx. destruct (Hok ltac:(lia)) as [Hz Hbs]. rewrite Hc' by done. destruct (decide (off + k ≤ x < off + k + n)) as [Hin|Hout].
    + rewrite decide_True by lia. rewrite Hch, decide_True by (unfold zlen in *; lia). replace (Z.to_nat (x - (off + k)) - Z.to_nat 0)%nat with (Z.to_nat (x - (off + k))) by lia. rewrite Hbs by lia. cbn. f_equal. lia.
    + rewrite Hc by done. destruct (decide (off ≤ x < off + k)); [by rewrite decide_True by lia|by rewrite decide_False by lia].
Qed.

(** A write from user space: what was copied before an error is in the object. *)
Theorem write_user_spec v w ptr u offset len : world_ok w → vmo_ok w v → is_user_address ptr = true → is_u64 offset → is_u64 len → ptr + len ≤ 2 ^ 64 →
  ∃ st n v' w', WriteUser maps copy_from_user v w ptr u offset len = Some (st, n, v', w', u) ∧ steps v w v' w' ∧
    ((transfer_ends v offset len st n v' w' ∧ ∀ x, 0 ≤ x → from_user u ptr offset n (byte v w) (byte v' w') x) ∨ (st < 0 ∧ 0 ≤ n < len ∧ ∀ x, 0 ≤ x → x < offset + n ∨ offset + len ≤ x → from_user u ptr offset n (byte v w) (byte v' w') x)).
Proof.
  intros Hw Hv Hptr Ho Hl Hend. unfold WriteUser, ReadWriteInternal, transfer_ends. rewrite Hptr, trim_span by (done || by eapply small_size). assert (Hp0 : 0 ≤ ptr) by (unfold is_user_address, USER_ASPACE_BASE in Hptr; zb; lia). assert (Hnil : ∀ x, 0 ≤ x → from_user u ptr offset 0 (byte v w) (byte v w) x) by (intros x Hx; unfold from_user; by rewrite decide_False by lia).
  destruct (span v offset len) as [m|] eqn:Es; [|exists ERR_OUT_OF_RANGE, 0, v, w; split; [done|]; split; [by apply steps_refl|by left]]. destruct (span_Some v offset len m Ho Hl Es) as [Hm Hend']. unfold is_u64 in *. destruct (m =? 0) eqn:E0; zb; [subst m; exists 0, 0, v, w; split; [done|]; split; [by apply steps_refl|]; left; split; [left; split_and!; [done|done|lia]|done]|].
  destruct (rw_loop_start (write_user_routine copy_from_user ptr) offset m (λ k c b, (∀ x, 0 ≤ x → from_user u ptr offset k (byte v w) c x) ∧ b = u) (λ _ k c b, (∀ x, 0 ≤ x → x < offset + k ∨ offset + m ≤ x → from_user u ptr offset k (byte v w) c x) ∧ b = u)) with (v := v) (w := w) (b := u) as (r & Er & Hr); try done;
    [intros k c c' b [Hc ->] Hcc; split; [|done]; intros x Hx; unfold from_user in *; rewrite Hcc by done; auto|apply write_user_copy; lia|lia|lia|].
  destruct r as [[[[st n] v'] w'] b']. destruct Hr as (Hst & Hn & Hpres & [(-> & -> & Hs & ->)|[(-> & Hlt & [Hs ->] & Hx)|(Hneg & Hlt & Hs & ->)]]); (eexists _, _, v', w'; split; [done|]; split; [done|]).
  - left. split; [|done]. left. rewrite Z.add_0_r in Hpres. done.
  - left. split; [|done]. right. split; [done|]. split; [lia|done].
  - right. split; [done|]. split; [lia|]. intros x Hx Hr. apply Hs; [done|]. lia.
Qed.

(** The user's memory has the bytes of the object in a range. *)
Definition to_user (ptr offset n : Z) (c : Z → Z) (u u' : U) : Prop := ∀ x, user_byte u' x = if decide (ptr ≤ x < ptr + n) then c (offset + (x - ptr)) else user_byte u x.

Lemma read_user_copy u ptr off c0 total : 0 ≤ off → 0 ≤ ptr → ptr + total ≤ 2 ^ 64 → ∀ k c b n chunk, ((∀ x, 0 ≤ x → c x = c0 x) ∧ to_user ptr off k c0 u b) → 0 ≤ k → 0 < n → k + n ≤ total → zlen chunk = n → (∀ j, 0 ≤ j < n → chunk !! Z.to_nat j = Some (c (off + k + j))) →
  ∃ err chunk1 b1, read_user_routine copy_to_user ptr chunk k n b = Some (err, chunk1, b1) ∧ zlen chunk1 = n ∧
    ∀ c', (∀ x, 0 ≤ x → c' x = if decide (off + k ≤ x < off + k + n) then default 0 (chunk1 !! Z.to_nat (x - (off + k))) else c x) →
      if err <? 0 then ∀ x, 0 ≤ x → c' x = c0 x else (∀ x, 0 ≤ x → c' x = c0 x) ∧ to_user ptr off (k + n) c0 u b1.
Proof.
  intros Hoff Hptr Hend k c b n chunk [Hc Hu] Hk Hn Hle Hl Hch. unfold read_user_routine. rewrite u64_id by (unfold is_u64; lia). destruct (copy_to_user b (ptr + k) chunk) as [err b1] eqn:E. destruct (uc_to _ _ _ _ _ E) as (He & Hok). eexists _, _, _. split; [done|]. split; [done|]. intros c' Hc'.
  assert (Hsame : ∀ x, 0 ≤ x → c' x = c0 x) by (intros x Hx; rewrite Hc' by done; destruct (decide (off + k ≤ x < off + k + n)); [|auto]; rewrite Hch by lia; cbn; rewrite Hc by lia; f_equal; lia). destruct (err <? 0) eqn:Ee; zb; [done|]. split; [done|]. intros x. rewrite (Hok ltac:(lia)), Hl. destruct (decide (ptr + k ≤ x < ptr + k + n)) as [Hin|Hout].
  - rewrite decide_True by lia. rewrite Hch by lia. cbn. rewrite Hc by lia. f_equal. lia.
  - rewrite Hu. destruct (decide (ptr ≤ x < ptr + k)); [by rewrite decide_True by lia|by rewrite decide_False by lia].
Qed.

(** A read to user space does not change the object, and without an error it stores the
    bytes that it reports. *)
Theorem read_user_spec v w ptr u offset len : world_ok w → vmo_ok w v → is_user_address ptr = true → is_u64 offset → is_u64 len → ptr + len ≤ 2 ^ 64 →
  ∃ st n v' w' u', ReadUser maps copy_to_user v w ptr u offset len = Some (st, n, v', w', u') ∧ steps v w v' w' ∧ (∀ x, 0 ≤ x → byte v' w' x = byte v w x) ∧
    ((transfer_ends v offset len st n v' w' ∧ to_user ptr offset n (byte v w) u u') ∨ (st < 0 ∧ 0 ≤ n < len)).
Proof.
  intros Hw Hv Hptr Ho Hl Hend. unfold ReadUser, ReadWriteInternal, transfer_ends. rewrite Hptr, trim_span by (done || by eapply small_size). assert (Hp0 : 0 ≤ ptr) by (unfold is_user_address, USER_ASPACE_BASE in Hptr; zb; lia). assert (Hnil : to_user ptr offset 0 (byte v w) u u) by (intros x; by rewrite decide_False by lia).
  destruct (span v offset len) as [m|] eqn:Es; [|exists ERR_OUT_OF_RANGE, 0, v, w, u; split; [done|]; split; [by apply steps_refl|]; split; [done|by left]]. destruct (span_Some v offset len m Ho Hl Es) as [Hm Hend']. unfold is_u64 in *. destruct (m =? 0) eqn:E0; zb; [subst m; exists 0, 0, v, w, u; split; [done|]; split; [by apply steps_refl|]; split; [done|]; left; split; [left; split_and!; [done|done|lia]|done]|].
  destruct (rw_loop_start (read_user_routine copy_to_user ptr) offset m (λ k c b, (∀ x, 0 ≤ x → c x = byte v w x) ∧ to_user ptr offset k (byte v w) u b) (λ _ _ c _, ∀ x, 0 ≤ x → c x = byte v w x)) with (v := v) (w := w) (b := u) as (r & Er & Hr); try done;
    [intros k c c' b [Hc ?] Hcc; split; [|done]; intros x Hx; rewrite Hcc by done; auto|apply read_user_copy; lia|lia|lia|].
  destruct r as [[[[st n] v'] w'] b']. destruct Hr as (Hst & Hn & Hpres & [(-> & -> & Hs & Hu)|[(-> & Hlt & [Hs Hu] & Hx)|(Hneg & Hlt & Hs)]]); (eexists _, _, v', w', b'; split; [done|]; split; [done|]; split; [done|]).
  - left. split; [|done]. left. rewrite Z.add_0_r in Hpres. done.
  - left. split; [|done]. right. split; [done|]. split; [lia|done].
  - right. split; [done|lia].
Qed.

End user.

(** ** The abstract object: a size and a byte for each offset *)

Record array := mk_array { a_size : Z; a_byte : Z → Z }.

Definition a_zero (size : Z) : array := mk_array size (λ _, 0).

(** The bytes of [bs] from [offset] on. *)
Definition a_write (A : array) (offset : Z) (bs : list Z) : array :=
  mk_array (a_size A) (λ x, if decide (offset ≤ x < offset + zlen bs) then default 0 (bs !! Z.to_nat (x - offset)) else a_byte A x).

Definition a_read (A : array) (offset n : Z) : list Z := (λ i, a_byte A (offset + i)) <$> seqZ 0 n.

Record represents (w : machine) (v : vm_object) (A : array) : Prop := {
  rep_ok : vmo_ok w v;
  rep_size : size_ v = a_size A;
  rep_byte x : 0 ≤ x → byte v w x = a_byte A x }.

(** Nothing happens to the objects that share no page with [v]. *)
Definition others_kept (v : vm_object) (w : machine) (v' : vm_object) (w' : machine) : Prop :=
  ∀ u B, represents w u B → (∀ p, p ∈ owned u → p ∉ owned v) → represents w' u B ∧ ∀ p, p ∈ owned u → p ∉ owned v'.

Lemma steps_others v w v' w' : steps v w v' w' → others_kept v w v' w'.
Proof.
  intros Hst u B [Hu Hs Hb] Hd. destruct (bystander v w w' u (st_keeps _ _ _ _ Hst) Hu Hd) as [Hu' Hb']. split; [split; [done|done|intros x Hx; rewrite Hb'; auto]|]. intros p Hp Hv. destruct (st_gains _ _ _ _ Hst p Hv) as [?|Hf]; [by apply (Hd p)|]. destruct (vo_pages _ _ Hu p Hp) as [E _]. by rewrite Hf in E.
Qed.

Lemma stored_write v w v' w' A offset n buf : represents w v A → steps v w v' w' → 0 ≤ n ≤ zlen buf → stored offset n buf (byte v w) (byte v' w') → represents w' v' (a_write A offset (take (Z.to_nat n) buf)).
Proof.
  intros [Hv Hs Hb] Hst Hn Hsto. split; [apply (st_vmo _ _ _ _ Hst)|cbn; by destruct (st_size _ _ _ _ Hst) as [-> _]|]. intros x Hx. rewrite Hsto by done. cbn [a_byte a_write]. rewrite zlen_take by lia. rewrite Z.min_l by lia. destruct (decide (offset ≤ x < offset + n)); [by rewrite lookup_take_lt by lia|auto].
Qed.

Lemma ends_bound v offset len st n v' w' : is_u64 offset → is_u64 len → transfer_ends v offset len st n v' w' → 0 ≤ n ≤ len.
Proof.
  intros Ho Hl. unfold transfer_ends. destruct (span v offset len) as [m|] eqn:E; [|intros [_ ->]; unfold is_u64 in *; lia]. destruct (span_Some v offset len m Ho Hl E). intros [(_ & -> & _)|(_ & ? & _)]; lia.
Qed.

(** C28. An object of virtual memory is an array of bytes.  [Create] makes one that is zero
    everywhere and has no page; a write stores the prefix that it reports, a read returns
    the bytes and changes nothing, and a page fault changes nothing.  Each ends with all
    bytes transferred, an error for a range that is not inside, or an error if no page is
    left for the next byte.  All other objects stay what they were. *)
Theorem vmo_refines_array w flags size : world_ok w → kmapped w flags → is_u64 size →
  (∀ v w', Create w flags size = Some (Some v, w') → represents w' v (a_zero size) ∧ owned v = [] ∧ world_ok w') ∧
  ∀ v A, represents w v A →
    (∀ ptr buf offset len, is_kernel_address ptr = true → is_u64 offset → is_u64 len → len ≤ zlen buf →
      (∃ st n v' w', Write maps v w ptr buf offset len = Some (st, n, v', w', buf) ∧ transfer_ends v offset len st n v' w' ∧ world_ok w' ∧ represents w' v' (a_write A offset (take (Z.to_nat n) buf)) ∧ others_kept v w v' w') ∧
      (∃ st n v' w' buf', Read maps v w ptr buf offset len = Some (st, n, v', w', buf') ∧ transfer_ends v offset len st n v' w' ∧ world_ok w' ∧ represents w' v' A ∧ others_kept v w v' w' ∧ buf' = a_read A offset n ++ drop (Z.to_nat n) buf)) ∧
    (∀ offset, is_u64 offset → ∃ r v' w', FaultPage maps v w offset = Some (r, v', w') ∧ world_ok w' ∧ represents w' v' A ∧ others_kept v w v' w' ∧
      (is_Some r ↔ offset < size_ v ∧ (is_Some (entry v (offset / PAGE_SIZE)) ∨ ¬ exhausted w (pmm_alloc_flags_ v)))).
Proof.
  intros Hw Hk Hs. split.
  { intros v w' E. destruct (create_spec w flags size Hw Hk Hs) as (r & w'' & E' & Hp & Hr & Hv). rewrite E in E'. injection E' as <- <-. destruct Hv as (Hv & Es & Ho & Hb). split; [split; [done|done|intros x _; by rewrite Hb]|]. split; [done|]. destruct w' as [s' r' m']. cbn in Hp, Hr. subst. by apply world_mem. }
  intros v A HA. pose proof (rep_ok _ _ _ HA) as Hv. split; [intros ptr buf offset len Hptr Ho Hl Hbuf; split|].
  - destruct (write_spec v w ptr buf offset len Hw Hv Hptr Ho Hl Hbuf) as (st & n & v' & w' & E & Hst & Hend & Hsto). exists st, n, v', w'. split; [done|]. split; [done|]. pose proof (ends_bound _ _ _ _ _ _ _ Ho Hl Hend). split; [apply (st_world _ _ _ _ Hst)|]. split; [apply (stored_write v w); (done || lia)|by apply steps_others].
  - destruct (read_spec v w ptr buf offset len Hw Hv Hptr Ho Hl Hbuf) as (st & n & v' & w' & buf' & E & Hst & Hend & Hb & Hld & Hz). exists st, n, v', w', buf'. split; [done|]. split; [done|]. pose proof (ends_bound _ _ _ _ _ _ _ Ho Hl Hend). unfold is_u64 in Ho. split; [apply (st_world _ _ _ _ Hst)|].
    split; [split; [apply (st_vmo _ _ _ _ Hst)|destruct (st_size _ _ _ _ Hst) as [-> _]; apply HA|intros x Hx; rewrite Hb by done; by apply HA]|]. split; [by apply steps_others|]. apply list_eq. intros i. destruct (decide (i < length buf)%nat) as [Hi|Hi].
    + specialize (Hld (Z.of_nat i) ltac:(unfold zlen; lia)). rewrite Nat2Z.id in Hld. rewrite Hld. assert (Hrl : length (a_read A offset n) = Z.to_nat n) by (unfold a_read; by rewrite length_fmap, length_seqZ). destruct (decide (Z.of_nat i < n)).
      * rewrite lookup_app_l by lia. unfold a_read. rewrite list_lookup_fmap, lookup_seqZ_lt by lia. cbn. by rewrite (rep_byte _ _ _ HA) by lia.
      * rewrite lookup_app_r by lia. rewrite lookup_drop, Hrl. f_equal. lia.
    + rewrite !(proj2 (lookup_ge_None _ _)); [done| |unfold zlen in *; lia]. rewrite length_app, length_drop. unfold a_read. rewrite length_fmap, length_seqZ. unfold zlen in *. lia.
  - intros offset Ho. unfold is_u64 in Ho. destruct (fault_ok w v offset Hw Hv ltac:(lia)) as (r & v' & w' & E & Hst & Hb & Hr). exists r, v', w'. split; [done|]. split; [apply (st_world _ _ _ _ Hst)|]. split; [split; [apply (st_vmo _ _ _ _ Hst)|destruct (st_size _ _ _ _ Hst) as [-> _]; apply HA|intros x Hx; rewrite Hb by done; by apply HA]|]. split; [by apply steps_others|]. destruct r as [p|].
    + destruct Hr as (Hlt & _ & Hor). split; [done|eauto].
    + destruct Hr as (-> & -> & Hex). split; [by intros [? ?]|]. intros [Hlt Hor]. destruct (Hex Hlt) as [En Hx]. destruct Hor as [[? Hs']|Hn]; [by rewrite En in Hs'|done].
Qed.

(** C29. What is written is read back: after a write that reports success, a read of the
    same range succeeds with any buffer, and returns the bytes written. *)
Theorem vmo_write_read w v ptr ptr' src dst offset n v' w' : world_ok w → vmo_ok w v → is_kernel_address ptr = true → is_kernel_address ptr' = true → is_u64 offset → is_u64 (zlen src) → zlen dst = zlen src →
  Write maps v w ptr src offset (zlen src) = Some (NO_ERROR, n, v', w', src) →
  ∃ v'' w'', Read maps v' w' ptr' dst offset (zlen src) = Some (NO_ERROR, n, v'', w'', take (Z.to_nat n) src ++ drop (Z.to_nat n) dst) ∧ n = Z.min (zlen src) (size_ v - offset).
Proof.
  intros Hw Hv Hptr Hptr' Ho Hl Hd E. destruct (write_spec v w ptr src offset (zlen src) Hw Hv Hptr Ho Hl ltac:(lia)) as (st & n' & v1 & w1 & E' & Hst & Hend & Hsto). rewrite E in E'. injection E' as <- <- <- <-. destruct (st_size _ _ _ _ Hst) as [Es _].
  destruct (read_spec v' w' ptr' dst offset (zlen src) (st_world _ _ _ _ Hst) (st_vmo _ _ _ _ Hst) Hptr' Ho Hl ltac:(lia)) as (st & n' & v'' & w'' & buf & E' & Hst' & Hend' & _ & Hld & Hz). unfold transfer_ends in *. assert (Espan : span v' offset (zlen src) = span v offset (zlen src)) by (unfold span; by rewrite Es). rewrite Espan in Hend'.
  destruct (span v offset (zlen src)) as [m|] eqn:Esp; [|by destruct Hend]. destruct Hend as [(_ & -> & Hpres)|(? & _)]; [|done]. destruct (span_Some v offset (zlen src) m Ho Hl Esp) as [Hm Hmax]. unfold is_u64 in Ho. destruct Hend' as [(-> & -> & _)|(_ & Hn' & He & _)].
  - exists v'', w''. split; [|unfold span in Esp; destruct (_ && _); [by injection Esp|done]]. rewrite E'. do 2 f_equal. apply list_eq. intros i. destruct (decide (i < length dst)%nat) as [Hi|Hi].
    + specialize (Hld (Z.of_nat i) ltac:(unfold zlen; lia)). rewrite Nat2Z.id in Hld. rewrite Hld. destruct (decide (Z.of_nat i < m)) as [Hlt|Hge].
      * rewrite lookup_app_l by (rewrite length_take; unfold zlen in *; lia). rewrite lookup_take_lt by lia. rewrite Hsto, decide_True by lia. replace (Z.to_nat (offset + Z.of_nat i - offset)) with i by lia. destruct (lookup_lt_is_Some_2 src i) as [b Hb]; [unfold zlen in *; lia|]. by rewrite Hb.
      * rewrite lookup_app_r by (rewrite length_take; unfold zlen in *; lia). rewrite lookup_drop, length_take. f_equal. unfold zlen in *. lia.
    + rewrite !(proj2 (lookup_ge_None _ _)); [done| |unfold zlen in *; lia]. rewrite length_app, length_drop, length_take. unfold zlen in *. lia.
  - exfalso. destruct (Hpres (offset + n') ltac:(lia)) as [p Hp]. apply (st_entries _ _ _ _ Hst') in Hp; [by rewrite He in Hp|]. apply Z.div_pos; unfold PAGE_SIZE; lia.
Qed.

(** C30. [CommitRange] on the pages of a range: if all are there, it does nothing and
    returns 0.  If the first arena that the object may use has too few pages for those that
    are missing, it returns the error and everything is as before.  If all are missing, it
    adds zero pages for all of them, which changes no byte, and returns the length of the
    range inside of the object.  If only some are missing, an assertion fails. *)
Theorem vmo_commit_range v w offset len : world_ok w → vmo_ok w v → is_u64 offset → is_u64 len →
  match span v offset len with
  | None => CommitRange maps v w offset len = Some (ERR_OUT_OF_RANGE, v, w)
  | Some m =>
    let i := offset / PAGE_SIZE in let n := pages_of (offset + m) - i in let k := missing v i n in
    if m =? 0 then CommitRange maps v w offset len = Some (0, v, w)
    else if k =? 0 then CommitRange maps v w offset len = Some (0, v, w)
    else if first_free (pmm_alloc_flags_ v) (arenas (m_pmm w)) <? k then ∃ w', CommitRange maps v w offset len = Some (ERR_NO_MEMORY, v, w') ∧ steps v w v w' ∧ pages (m_pmm w') = pages (m_pmm w)
    else if k <? n then CommitRange maps v w offset len = None
    else ∃ v' w', CommitRange maps v w offset len = Some (m, v', w') ∧ steps v w v' w' ∧ (∀ o, 0 ≤ o → byte v' w' o = byte v w o) ∧ ∀ j, covered offset m j → is_Some (entry v' j)
  end.
Proof.
  intros Hw Hv Ho Hl. destruct (span v offset len) as [m|] eqn:Es; [|unfold CommitRange; by rewrite trim_span, Es by (done || by eapply small_size)]. destruct (span_Some v offset len m Ho Hl Es) as [Hm _]. cbv zeta. destruct (m =? 0) eqn:E0; [unfold CommitRange; by rewrite trim_span, Es, E0 by (done || by eapply small_size)|]. zb. apply commit_spec; (done || lia).
Qed.

Lemma commit_steps v w offset len st v' w' : world_ok w → vmo_ok w v → is_u64 offset → is_u64 len → CommitRange maps v w offset len = Some (st, v', w') → steps v w v' w'.
Proof.
  intros Hw Hv Ho Hl E. destruct (span v offset len) as [m|] eqn:Es; [|unfold CommitRange in E; rewrite trim_span, Es in E by (done || by eapply small_size); injection E as <- <- <-; by apply steps_refl]. destruct (span_Some v offset len m Ho Hl Es) as [Hm _].
  destruct (m =? 0) eqn:E0; [unfold CommitRange in E; rewrite trim_span, Es, E0 in E by (done || by eapply small_size); injection E as <- <- <-; by apply steps_refl|]. zb. pose proof (commit_spec v w offset len m Hw Hv Ho Hl Es ltac:(lia)) as H. cbv zeta in H. rewrite E in H. case_ifs; [simplify_eq; by apply steps_refl| |done|]; [destruct H as (? & H & ? & _)|destruct H as (? & ? & H & ? & _)]; by simplify_eq.
Qed.

Lemma commit_contiguous_steps v w offset len al st v' w' : world_ok w → vmo_ok w v → is_u64 offset → is_u64 len → al < 64 → CommitRangeContiguous maps v w offset len al = Some (st, v', w') → steps v w v' w'.
Proof.
  intros Hw Hv Ho Hl Hal E. destruct (span v offset len) as [m|] eqn:Es; [|unfold CommitRangeContiguous in E; rewrite trim_span, Es in E by (done || by eapply small_size); injection E as <- <- <-; by apply steps_refl]. destruct (span_Some v offset len m Ho Hl Es) as [Hm _].
  destruct (m =? 0) eqn:E0; [unfold CommitRangeContiguous in E; rewrite trim_span, Es, E0 in E by (done || by eapply small_size); injection E as <- <- <-; by apply steps_refl|]. zb. pose proof (commit_contiguous_spec v w offset len m al Hw Hv Ho Hl Hal Es ltac:(lia)) as H. cbv zeta in H. rewrite E in H. case_ifs; [simplify_eq; by apply steps_refl|done|]. destruct H as (? & ? & ? & H & ? & _). by simplify_eq.
Qed.

(** ** All objects together *)

Notation objects := (gmap Z vm_object).

Inductive obj_step (w : machine) (v : vm_object) : machine → vm_object → Prop :=
| os_write ptr buf offset len st n v' w' b : is_kernel_address ptr = true → is_u64 offset → is_u64 len → len ≤ zlen buf → Write maps v w ptr buf offset len = Some (st, n, v', w', b) → obj_step w v w' v'
| os_read ptr buf offset len st n v' w' b : is_kernel_address ptr = true → is_u64 offset → is_u64 len → len ≤ zlen buf → Read maps v w ptr buf offset len = Some (st, n, v', w', b) → obj_step w v w' v'
| os_fault offset r v' w' : is_u64 offset → FaultPage maps v w offset = Some (r, v', w') → obj_step w v w' v'
| os_commit offset len st v' w' : is_u64 offset → is_u64 len → CommitRange maps v w offset len = Some (st, v', w') → obj_step w v w' v'
| os_contiguous offset len al st v' w' : is_u64 offset → is_u64 len → al < 64 → CommitRangeContiguous maps v w offset len al = Some (st, v', w') → obj_step w v w' v'.

Inductive sys_step : machine * objects → machine * objects → Prop :=
| ss_create w os id flags size v w' : kmapped w flags → is_u64 size → os !! id = None → Create w flags size = Some (Some v, w') → sys_step (w, os) (w', <[id := v]> os)
| ss_op w os id v w' v' : os !! id = Some v → obj_step w v w' v' → sys_step (w, os) (w', <[id := v']> os)
| ss_delete w os id v w' : os !! id = Some v → VmObject_delete v w = Some w' → sys_step (w, os) (w', delete id os).

Lemma obj_step_steps w v w' v' : world_ok w → vmo_ok w v → obj_step w v w' v' → steps v w v' w'.
Proof.
  intros Hw Hv [ptr buf offset len st n v1 w1 b Hp Ho Hl Hb E|ptr buf offset len st n v1 w1 b Hp Ho Hl Hb E|offset r v1 w1 Ho E|offset len st v1 w1 Ho Hl E|offset len al st v1 w1 Ho Hl Hal E].
  - destruct (write_spec v w ptr buf offset len Hw Hv Hp Ho Hl Hb) as (? & ? & ? & ? & E' & ? & _). rewrite E in E'. by simplify_eq.
  - destruct (read_spec v w ptr buf offset len Hw Hv Hp Ho Hl Hb) as (? & ? & ? & ? & ? & E' & ? & _). rewrite E in E'. by simplify_eq.
  - unfold is_u64 in Ho. destruct (fault_ok w v offset Hw Hv ltac:(lia)) as (? & ? & ? & E' & ? & _). unfold FaultPage in E. rewrite E in E'. by simplify_eq.
  - exact (commit_steps v w offset len st v1 w1 Hw Hv Ho Hl E).
  - exact (commit_contiguous_steps v w offset len al st v1 w1 Hw Hv Ho Hl Hal E).
Qed.

(** Every page that was free at the start is free or has one owner. *)
Record sys_ok (w0 : machine) (s : machine * objects) : Prop := {
  so_world : world_ok s.1;
  so_vmo id v : s.2 !! id = Some v → vmo_ok s.1 v;
  so_disjoint id id' v v' p : s.2 !! id = Some v → s.2 !! id' = Some v' → p ∈ owned v → p ∈ owned v' → id = id';
  so_free p : pages (m_pmm w0) !! p = Some free_page → pages (m_pmm s.1) !! p = Some free_page ∨ ∃ id v, s.2 !! id = Some v ∧ p ∈ owned v;
  so_owned id v p : s.2 !! id = Some v → p ∈ owned v → pages (m_pmm w0) !! p = Some free_page;
  so_used p pg : pages (m_pmm w0) !! p = Some pg → pg_state pg ≠ VM_PAGE_STATE_FREE → pages (m_pmm s.1) !! p = Some pg;
  so_still p : pages (m_pmm s.1) !! p = Some free_page → pages (m_pmm w0) !! p = Some free_page }.

Lemma sys_ok_op w0 w os id v w' v' : sys_ok w0 (w, os) → os !! id = Some v → obj_step w v w' v' → sys_ok w0 (w', <[id := v']> os).
Proof.
  intros [S1 S2 S3 S4 S5 S6 S7] Hid Hop. cbn [fst snd] in *. pose proof (obj_step_steps w v w' v' S1 (S2 _ _ Hid) Hop) as Hst. assert (Hoth : ∀ id2 u, id2 ≠ id → os !! id2 = Some u → vmo_ok w' u ∧ ∀ p, p ∈ owned u → p ∉ owned v').
  { intros id2 u Hne Hu. destruct (steps_others _ _ _ _ Hst u (mk_array (size_ u) (byte u w))) as [[? _ _] ?]; [by split; [eapply S2| |]|intros p Hp Hpv; by destruct Hne; eapply S3|done]. }
  split; cbn [fst snd].
  - apply (st_world _ _ _ _ Hst).
  - intros id2 u [[<- <-]|[Hne Hu]]%lookup_insert_Some; [apply (st_vmo _ _ _ _ Hst)|by apply (Hoth id2)].
  - intros id1 id2 u1 u2 p [[<- <-]|[Hne1 Hu1]]%lookup_insert_Some [[<- <-]|[Hne2 Hu2]]%lookup_insert_Some H1 H2; [done|by destruct (Hoth id2 u2 (not_eq_sym Hne2) Hu2) as [_ Hd]; destruct (Hd p H2)|by destruct (Hoth id1 u1 (not_eq_sym Hne1) Hu1) as [_ Hd]; destruct (Hd p H1)|by eapply S3].
  - intros p Hp. destruct (S4 p Hp) as [Hf|(id2 & u & Hu & Hpu)].
    + destruct (st_taken _ _ _ _ Hst p Hf) as [?|?]; [by left|right; exists id, v'; by rewrite lookup_insert_eq].
    + right. destruct (decide (id2 = id)) as [->|Hne]; [exists id, v'; rewrite lookup_insert_eq; split; [done|]; rewrite Hid in Hu; injection Hu as <-; by eapply steps_owned|exists id2, u; by rewrite lookup_insert_ne].
  - intros id2 u p [[<- <-]|[Hne Hu]]%lookup_insert_Some Hp; [|by eapply S5]. destruct (st_gains _ _ _ _ Hst p Hp); [by eapply S5|auto].
  - intros p pg Hp Hused. destruct (st_keeps _ _ _ _ Hst) as [_ K]. apply (K p pg); [auto|done|]. intros Hown. rewrite (S5 _ _ _ Hid Hown) in Hp. injection Hp as <-. by apply Hused.
  - intros p Hp. apply S7. by apply (st_free _ _ _ _ Hst).
Qed.

Lemma sys_ok_delete w0 w os id v w' : sys_ok w0 (w, os) → os !! id = Some v → VmObject_delete v w = Some w' → sys_ok w0 (w', delete id os).
Proof.
  intros [S1 S2 S3 S4 S5 S6 S7] Hid E. cbn [fst snd] in *. destruct (delete_spec v w S1 (S2 _ _ Hid)) as (w'' & E' & Hw' & Hr & Hg & Hp). rewrite E in E'. injection E' as <-. assert (Hoth : ∀ id2 u p, id ≠ id2 → os !! id2 = Some u → p ∈ owned u → p ∉ owned v) by (intros id2 u p Hne Hu Hpu Hpv; by apply Hne; eapply S3).
  split; cbn [fst snd].
  - done.
  - intros id2 u [Hne Hu]%lookup_delete_Some. apply (vmo_frame w); [by eapply S2|done|]. intros p Hpu. rewrite Hp, decide_False; [done|by eapply Hoth].
  - intros id1 id2 u1 u2 p [_ Hu1]%lookup_delete_Some [_ Hu2]%lookup_delete_Some. by eapply S3.
  - intros p Hf. rewrite Hp. destruct (decide (p ∈ owned v)) as [|Hn]; [by left|]. destruct (S4 p Hf) as [?|(id2 & u & Hu & Hpu)]; [by left|]. right. exists id2, u. split; [|done]. rewrite lookup_delete_ne; [done|]. intros ->. rewrite Hid in Hu. by injection Hu as <-.
  - intros id2 u p [_ Hu]%lookup_delete_Some. by eapply S5.
  - intros p pg Hpg Hused. rewrite Hp. destruct (decide (p ∈ owned v)) as [Ho|]; [|auto]. rewrite (S5 _ _ _ Hid Ho) in Hpg. injection Hpg as <-. by destruct Hused.
  - intros p. rewrite Hp. destruct (decide (p ∈ owned v)) as [Ho|]; [intros _; by eapply S5|apply S7].
Qed.

Lemma sys_ok_create w0 w os id flags size v w' : sys_ok w0 (w, os) → kmapped w flags → is_u64 size → os !! id = None → Create w flags size = Some (Some v, w') → sys_ok w0 (w', <[id := v]> os).
Proof.
  intros [S1 S2 S3 S4 S5 S6 S7] Hk Hs Hid E. cbn [fst snd] in *. destruct (create_spec w flags size S1 Hk Hs) as (r & w'' & E' & Hp & Hr & Hv). rewrite E in E'. injection E' as <- <-. destruct Hv as (Hv & _ & Ho & _). assert (Hno : ∀ p, p ∉ owned v) by (intros p; rewrite Ho; apply not_elem_of_nil).
  split; cbn [fst snd]; rewrite ?Hp.
  - destruct w' as [s' r' m']. cbn in Hp, Hr. subst. by apply world_mem.
  - intros id2 u [[<- <-]|[Hne Hu]]%lookup_insert_Some; [done|]. apply (vmo_frame w); [by eapply S2|by rewrite Hp|intros; by rewrite Hp].
  - intros id1 id2 u1 u2 p [[<- <-]|[Hne1 Hu1]]%lookup_insert_Some [[<- <-]|[Hne2 Hu2]]%lookup_insert_Some H1 H2; [done|by destruct (Hno p)|by destruct (Hno p)|by eapply S3].
  - intros p Hf. destruct (S4 p Hf) as [?|(id2 & u & Hu & Hpu)]; [by left|]. right. exists id2, u. split; [|done]. rewrite lookup_insert_ne; [done|]. intros <-. by rewrite Hid in Hu.
  - intros id2 u p [[<- <-]|[Hne Hu]]%lookup_insert_Some Hpu; [by destruct (Hno p)|by eapply S5].
  - done.
  - done.
Qed.

(** C31. No page is lost and no page has two owners.  Start with a number of pages free and
    no objects, and let objects be created, written, read, faulted, committed and deleted
    in any order.  Every page that was free is free, or is held by exactly one object;
    every page that was in use has not been touched; and when all objects are gone the free
    pages are those of the start. *)
Theorem vmo_pages_owned w0 s : world_ok w0 → rtc sys_step (w0, ∅) s →
  (∀ p, pages (m_pmm w0) !! p = Some free_page ↔ pages (m_pmm s.1) !! p = Some free_page ∨ ∃ id v, s.2 !! id = Some v ∧ p ∈ owned v) ∧
  (∀ id id' v v' p, s.2 !! id = Some v → s.2 !! id' = Some v' → p ∈ owned v → p ∈ owned v' → id = id') ∧
  (∀ id v p, s.2 !! id = Some v → p ∈ owned v → pages (m_pmm s.1) !! p = Some held_page) ∧
  (∀ p pg, pages (m_pmm w0) !! p = Some pg → pg_state pg ≠ VM_PAGE_STATE_FREE → pages (m_pmm s.1) !! p = Some pg).
Proof.
  intros Hw0 Hr. assert (Hok : sys_ok w0 s).
  { assert (H0 : sys_ok w0 (w0, ∅)) by (split; cbn [fst snd]; try done; by left). revert H0. induction Hr as [|s s1 s2 Hs _ IH]; [done|]. intros H0. apply IH. destruct Hs; [by eapply sys_ok_create|by eapply sys_ok_op|by eapply sys_ok_delete]. }
  destruct Hok as [S1 S2 S3 S4 S5 S6 S7]. split; [intros p; split; [auto|intros [?|(id & v & Hid & Hp)]; [auto|by eapply S5]]|]. split; [done|]. split; [|done]. intros id v p Hid Hp. by apply (vo_pages _ _ (S2 id v Hid)).
Qed.

End facts.

(** ** An instance: an object of two pages *)

Definition vm_maps : list mmu_initial_mapping := [mk_mapping 1052672 (2 ^ 64 - 2 ^ 30) 16384 false; mk_mapping 4194304 (2 ^ 64 - 2 ^ 29) 12288 false].
Definition old_bytes : list Z := replicate (Z.to_nat PAGE_SIZE) 170.
Definition vm_paddrs : list Z := [1052672; 1056768; 1060864; 1064960; 4194304; 4198400; 4202496].
Definition vm_world (m : mem) : machine := mk_machine demo (list_to_map ((λ pa, (pa, old_bytes)) <$> vm_paddrs)) m.

Lemma demo_arenas a i : a ∈ arenas demo → 0 ≤ i < npages a → ar_base a + i * PAGE_SIZE ∈ vm_paddrs.
Proof.
  intros Ha Hi. assert (E : (λ a, (ar_base a, npages a)) <$> arenas demo = [(1052672, 4); (4194304, 3)]) by (vm_compute; reflexivity). assert (Hin : (ar_base a, npages a) ∈ [(1052672, 4); (4194304, 3)]) by (rewrite <- E; apply list_elem_of_fmap; eauto). rewrite !elem_of_cons in Hin. destruct Hin as [[= -> En]|[[= -> En]|Hin]]; [| |by apply not_elem_of_nil in Hin]; rewrite En in Hi; unfold PAGE_SIZE, vm_paddrs.
  - assert (Hc : i = 0 ∨ i = 1 ∨ i = 2 ∨ i = 3) by lia. destruct Hc as [->|[->|[->| ->]]]; set_solver.
  - assert (Hc : i = 0 ∨ i = 1 ∨ i = 2) by lia. destruct Hc as [->|[->| ->]]; set_solver.
Qed.

Lemma vm_world_ok m : world_ok (vm_world m).
Proof.
  pose proof (reach_inv _ demo_reach) as Hi. split; [done|]. intros p (a & i & Ha & Hb & ->)%(pi_owned _ Hi). unfold paddr. cbn [m_pmm vm_world]. rewrite (to_paddr demo a i Hi Ha Hb). pose proof (demo_arenas a i Ha Hb) as Hin. exists old_bytes. split; [|vm_compute; reflexivity]. cbn [m_ram vm_world]. apply elem_of_list_to_map_1; [vm_compute; repeat (constructor; [set_solver|]); constructor|]. apply list_elem_of_fmap. eauto.
Qed.

Lemma vm_world_mapped m : kmapped vm_maps (vm_world m) 0.
Proof.
  intros a i Ha _ Hb. assert (H : Forall (λ pa, is_Some (paddr_to_kvaddr vm_maps pa)) vm_paddrs) by (repeat constructor; eexists; vm_compute; reflexivity). rewrite Forall_forall in H. apply H. by apply demo_arenas.
Qed.

Definition demo_vmo : vm_object := mk_vmo 6000 0 (Some [None; None]) [].
Definition kptr : Z := 2 ^ 64 - 4096.

Lemma demo_create : Create (vm_world [true; true]) 0 6000 = Some (Some demo_vmo, vm_world []).
Proof. vm_compute. reflexivity. Qed.

Lemma demo_vmo_ok m : vmo_ok vm_maps (vm_world m) demo_vmo.
Proof. apply (fresh_ok vm_maps (vm_world m) 0 6000); [change MAX_SIZE with (2 ^ 64 - 4096); lia|apply vm_world_mapped]. Qed.

Lemma vmo_refines_array_witness : Create (vm_world [true; true]) 0 6000 = Some (Some demo_vmo, vm_world []) ∧ represents vm_maps (vm_world []) demo_vmo (a_zero 6000).
Proof.
  split; [apply demo_create|]. refine (proj1 (proj1 (vmo_refines_array vm_maps (vm_world [true; true]) 0 6000 _ _ _) _ _ demo_create)); [apply vm_world_ok|apply vm_world_mapped|unfold is_u64; lia].
Defined.

(** Three bytes over the end of the first page. *)
Definition demo_written : vm_object * machine :=
  match Write vm_maps demo_vmo (vm_world []) kptr [1; 2; 3] 4095 3 with Some (_, _, v, w, _) => (v, w) | None => (demo_vmo, vm_world []) end.

Lemma demo_write : Write vm_maps demo_vmo (vm_world []) kptr [1; 2; 3] 4095 3 = Some (NO_ERROR, 3, demo_written.1, demo_written.2, [1; 2; 3]).
Proof. vm_compute. reflexivity. Qed.

Lemma vmo_write_read_witness : ∃ v'' w'', Read vm_maps demo_written.1 demo_written.2 kptr [7; 8; 9] 4095 3 = Some (NO_ERROR, 3, v'', w'', [1; 2; 3]).
Proof.
  destruct (vmo_write_read vm_maps (vm_world []) demo_vmo kptr kptr [1; 2; 3] [7; 8; 9] 4095 3 demo_written.1 demo_written.2) as (v & w & E & _); [apply vm_world_ok|apply demo_vmo_ok|reflexivity|reflexivity|unfold is_u64; lia|unfold is_u64, zlen; cbn; lia|reflexivity|apply demo_write|]. by exists v, w.
Defined.

Lemma vmo_commit_range_witness : ∃ v' w', CommitRange vm_maps demo_vmo (vm_world []) 0 10000 = Some (6000, v', w') ∧ is_Some (entry v' 0) ∧ is_Some (entry v' 1) ∧ byte v' w' 5000 = 0.
Proof.
  pose proof (vmo_commit_range vm_maps demo_vmo (vm_world []) 0 10000 (vm_world_ok []) (demo_vmo_ok []) ltac:(unfold is_u64; lia) ltac:(unfold is_u64; lia)) as H. change (span demo_vmo 0 10000) with (Some 6000) in H. cbv zeta in H. change (pages_of (0 + 6000) - 0 / PAGE_SIZE) with 2 in H. change (0 / PAGE_SIZE) with 0 in H. change (missing demo_vmo 0 2) with 2 in H.
  change (6000 =? 0) with false in H. change (2 =? 0) with false in H. change (2 <? 2) with false in H. assert (Ef : first_free (pmm_alloc_flags_ demo_vmo) (arenas (m_pmm (vm_world []))) = 4) by (vm_compute; reflexivity). rewrite Ef in H. change (4 <? 2) with false in H. cbv iota in H. destruct H as (v' & w' & E & _ & Hb & Hc).
  exists v', w'. split; [done|]. split; [apply Hc; vm_compute; done|]. split; [apply Hc; vm_compute; done|]. rewrite Hb by lia. reflexivity.
Defined.

(** A page that is there already, and one that is missing: the assertion fails. *)
Example commit_partly_committed : (∃ st n v w b, Write vm_maps demo_vmo (vm_world []) kptr [1] 0 1 = Some (st, n, v, w, b) ∧ st = NO_ERROR ∧ CommitRange vm_maps v w 0 6000 = None).
Proof.
  set (r := Write vm_maps demo_vmo (vm_world []) kptr [1] 0 1). destruct r as [[[[[st n] v] w] b]|] eqn:E; [|vm_compute in E; done]. exists st, n, v, w, b. split; [done|]. assert (H : match Write vm_maps demo_vmo (vm_world []) kptr [1] 0 1 with Some (st, _, v, w, _) => st = NO_ERROR ∧ CommitRange vm_maps v w 0 6000 = None | None => False end) by (vm_compute; split; reflexivity). fold r in H. by rewrite E in H.
Qed.

Lemma vmo_pages_owned_witness : ∃ p, pages demo !! p = Some free_page ∧ p ∈ owned demo_written.1 ∧ pages (m_pmm demo_written.2) !! p = Some held_page.
Proof.
  set (w0 := vm_world [true; true]). assert (Hr : rtc (sys_step vm_maps) (w0, ∅) (demo_written.2, <[5 := demo_written.1]> (<[5 := demo_vmo]> ∅))).
  { eapply rtc_l; [apply (ss_create vm_maps w0 ∅ 5 0 6000 demo_vmo (vm_world [])); [apply vm_world_mapped|unfold is_u64; lia|done|apply demo_create]|]. apply rtc_once. apply (ss_op vm_maps (vm_world []) _ 5 demo_vmo); [by rewrite lookup_insert_eq|]. apply (os_write vm_maps (vm_world []) demo_vmo kptr [1; 2; 3] 4095 3 NO_ERROR 3 demo_written.1 demo_written.2 [1; 2; 3]); [reflexivity|unfold is_u64; lia|unfold is_u64; lia|unfold zlen; cbn; lia|apply demo_write]. }
  assert (E : owned demo_written.1 = [65616; 65640]) by (vm_compute; reflexivity). destruct (vmo_pages_owned vm_maps w0 _ (vm_world_ok _) Hr) as (H1 & _ & H3 & _). assert (Hin : 65616 ∈ owned demo_written.1) by (rewrite E; by left). exists 65616. split; [|split; [done|]].
  - apply (H1 65616). right. exists 5, demo_written.1. split; [|done]. cbn [snd]. by rewrite lookup_insert_eq.
  - apply (H3 5 demo_written.1 65616); [|done]. cbn [snd]. by rewrite lookup_insert_eq.
Defined.

(** The user copies have an instance: memory that never faults. *)
#[global] Instance plain_user_copy : UserCopy (Z → Z)
  (λ u a bs, (0, λ x, if decide (a ≤ x < a + zlen bs) then default 0 (bs !! Z.to_nat (x - a)) else u x)) (λ u a n, (0, (λ i, u (a + i)) <$> seqZ 0 n)) (λ u x, u x).
Proof.
  split.
  - intros u a n err bs Hn [= <- <-]. split; [done|]. assert (Hz : zlen ((λ i, u (a + i)) <$> seqZ 0 n) = n) by (unfold zlen; rewrite length_fmap, length_seqZ; lia). split; [lia|]. intros _. split; [done|]. intros j Hj. rewrite list_lookup_fmap, lookup_seqZ_lt by lia. cbn. do 2 f_equal. lia.
  - intros u a bs err u' [= <- <-]. split; [done|]. intros _ x. done.
Qed.
End VmObjectFacts.
