(* ===== verification/VmAspace.v ===== *)
(** * Address spaces

    [src/kernel/kernel/vm/vm_aspace.cpp], [vm_region.cpp] and the wrappers of [vmm.cpp].
    An address space is a range of virtual addresses with a list of regions in the order
    of their addresses.  A region may have an object of virtual memory behind it.

    A region is a value in the list of its address space; code that holds a pointer to one
    updates it by its base address, which no other region has.  The objects are in a map
    with their reference counts, and an object goes away with its last reference.  The
    memory management unit is the class [ArchMmu]: its state, and the operations that the
    code calls, which may take pages of the machine for their tables.  A failed query is
    [None].  The names of regions and the list of all address spaces, which serve for
    dumps, are left out. *)

From stdpp Require Import base tactics numbers list gmap.
From Stdlib Require Import ZArith.
From S2P Require Import Prelude Pmm VmObject.
#[local] Open Scope Z_scope.

Module VmAspace.
Import Pmm VmObject.

Definition VMM_FLAG_VALLOC_SPECIFIC : Z := 1.
Definition VMM_FLAG_COMMIT : Z := 2.
Definition VMM_PF_FLAG_WRITE : Z := 1.
Definition VMM_PF_FLAG_USER : Z := 2.
Definition VMM_PF_FLAG_INSTRUCTION : Z := 4.
Definition VMM_PF_FLAG_NOT_PRESENT : Z := 8.
Definition ARCH_MMU_FLAG_CACHED : Z := 0.
Definition ARCH_MMU_FLAG_PERM_USER : Z := 4.
Definition ARCH_MMU_FLAG_PERM_RO : Z := 8.
Definition ARCH_MMU_FLAG_PERM_NO_EXECUTE : Z := 16.
Definition ARCH_ASPACE_FLAG_KERNEL : Z := 1.
Definition TYPE_USER : Z := 0.
Definition TYPE_KERNEL : Z := 1.
Definition TYPE_LOW_KERNEL : Z := 2.
Definition TYPE_MASK : Z := 3.

Definition has_flag (flags f : Z) : bool := negb (Z.land flags f =? 0).

(** [map] takes an address, a physical address, a number of pages and flags. *)
Class ArchMmu (A : Type) := {
  arch_mmu_init_aspace : machine → Z → Z → Z → Z * A * machine;
  arch_mmu_destroy_aspace : A → machine → machine;
  arch_mmu_map : A → machine → Z → Z → Z → Z → Z * A * machine;
  arch_mmu_unmap : A → machine → Z → Z → Z * A * machine;
  arch_mmu_protect : A → machine → Z → Z → Z → Z * A * machine;
  arch_mmu_query : A → Z → option (Z * Z) }.

Record region := mk_region { r_base : Z; r_size : Z; r_flags : Z; r_object : option Z; r_offset : Z }.

#[global] Instance region_eq_dec : EqDecision region.
Proof. solve_decision. Defined.

Definition r_last (r : region) : Z := u64 (r_base r + r_size r - 1).

Record aspace (A : Type) := mk_aspace { as_base : Z; as_size : Z; as_flags : Z; regions_ : list region; arch_aspace : A }.
Arguments mk_aspace {A}.
Arguments as_base {A}.
Arguments as_size {A}.
Arguments as_flags {A}.
Arguments regions_ {A}.
Arguments arch_aspace {A}.

(** The objects with their reference counts, and the name of the next one. *)
Record vm := mk_vm { vm_machine : machine; vm_objects : gmap Z (vm_object * Z); vm_next : Z }.

Definition set_machine (m : vm) (w : machine) : vm := mk_vm w (vm_objects m) (vm_next m).

Definition set_object (m : vm) (id : Z) (v : vm_object) (n : Z) : vm := mk_vm (vm_machine m) (<[id := (v, n)]> (vm_objects m)) (vm_next m).

Section aspaces.
Context {A : Type} `{ArchMmu A} (maps : list mmu_initial_mapping).
Notation aspaceA := (aspace A).

Definition set_regions (a : aspaceA) (l : list region) : aspaceA := mk_aspace (as_base a) (as_size a) (as_flags a) l (arch_aspace a).
Definition set_arch (a : aspaceA) (x : A) : aspaceA := mk_aspace (as_base a) (as_size a) (as_flags a) (regions_ a) x.

(** A region is changed in place. *)
Definition update_region (b : Z) (f : region → region) (l : list region) : list region := (λ r, if r_base r =? b then f r else r) <$> l.

Definition is_user (a : aspaceA) : bool := Z.land (as_flags a) TYPE_MASK =? TYPE_USER.

(** ** References to objects *)

(** A reference is dropped; with the last one the object goes. *)
Definition Release (m : vm) (id : Z) : option vm :=
  '(v, n) ← vm_objects m !! id;
  if n =? 1 then w ← VmObject_delete v (vm_machine m); Some (mk_vm w (delete id (vm_objects m)) (vm_next m))
  else Some (set_object m id v (n - 1)).

Definition release_opt (m : vm) (o : option Z) : option vm := match o with Some id => Release m id | None => Some m end.

(** The name of a new object with one reference, or a null pointer. *)
Definition CreateObject (m : vm) (flags size : Z) : option (option Z * vm) :=
  '(r, w) ← Create (vm_machine m) flags size;
  match r with
  | None => Some (None, set_machine m w)
  | Some v => Some (Some (vm_next m), mk_vm w (<[vm_next m := (v, 1)]> (vm_objects m)) (vm_next m + 1))
  end.

(** ** Ranges *)

Definition is_inside (a : aspaceA) (vaddr : Z) : bool := (as_base a <=? vaddr) && (vaddr <=? u64 (as_base a + as_size a - 1)).

Definition is_inside_region (a : aspaceA) (r : region) : bool :=
  if negb (is_inside a (r_base r)) then false else
  if r_size r =? 0 then true else
  if r_last r <? r_base r then false else
  if u64 (as_base a + as_size a - 1) <? r_last r then false else true.

Definition trim_to_aspace (a : aspaceA) (vaddr size : Z) : option Z :=
  ASSERT is_inside a vaddr;
  if size =? 0 then Some size else
  let offset := u64 (vaddr - as_base a) in
  let size := if u64 (offset + size) <? offset then u64 (2 ^ 64 - 1 - offset - 1) else size in
  Some (if u64 (as_size a - 1) <=? u64 (offset + size) then u64 (as_size a - offset) else size).

(** ** Address spaces *)

Definition VmAspace_new (base size flags : Z) (x : A) : option aspaceA :=
  ASSERT negb (size =? 0);
  ASSERT base <=? u64 (base + size - 1);
  Some (mk_aspace base size flags [] x).

(** The address space, or a null pointer.  If the unit fails, the destructor takes the
    address space off the list of all, where it is not yet: an assertion of the list. *)
Definition VmAspace_Create (m : vm) (flags : Z) : option (option aspaceA * vm) :=
  let t := Z.land flags TYPE_MASK in
  '(base, size) ← (if t =? TYPE_USER then Some (USER_ASPACE_BASE, USER_ASPACE_SIZE)
                   else if t =? TYPE_KERNEL then Some (KERNEL_ASPACE_BASE, KERNEL_ASPACE_SIZE)
                   else if t =? TYPE_LOW_KERNEL then Some (0, USER_ASPACE_BASE + USER_ASPACE_SIZE) else None);
  let '(ok, mem) := alloc (m_mem (vm_machine m)) in
  let w := mk_machine (m_pmm (vm_machine m)) (m_ram (vm_machine m)) mem in
  if negb ok then Some (None, set_machine m w) else
  let '(err, x, w1) := arch_mmu_init_aspace w base size (if t =? TYPE_KERNEL then ARCH_ASPACE_FLAG_KERNEL else 0) in
  a ← VmAspace_new base size flags x;
  ASSERT 0 <=? err;
  Some (Some a, set_machine m w1).

Definition VmAspace_delete (a : aspaceA) (m : vm) : option vm :=
  ASSERT bool_decide (regions_ a = []);
  Some (set_machine m (arch_mmu_destroy_aspace (arch_aspace a) (vm_machine m))).

(** ** The list of regions *)

(** The walk from a region that does not start after [r]. *)
Fixpoint add_after (iter : region) (rest : list region) (r : region) : option (list region) :=
  if r_base r <=? r_last iter then None else
  match rest with
  | [] => Some [iter; r]
  | next :: rest' => if r_last r <? r_base next then Some (iter :: r :: rest) else l ← add_after next rest' r; Some (iter :: l)
  end.

Definition AddRegion (a : aspaceA) (r : region) : Z * aspaceA :=
  if (r_size r =? 0) || negb (is_inside_region a r) then (ERR_OUT_OF_RANGE, a) else
  match regions_ a with
  | [] => (NO_ERROR, set_regions a [r])
  | iter :: rest =>
    if r_last r <? r_base iter then (NO_ERROR, set_regions a (r :: regions_ a)) else
    match add_after iter rest r with
    | Some l => (NO_ERROR, set_regions a l)
    | None => (ERR_NO_MEMORY, a)
    end
  end.

Definition arch_mmu_pick_spot (base align : Z) : Z := ROUNDUP base align.

(** No place, as an address. *)
Definition NO_SPOT : Z := 2 ^ 64 - 1.

(** The address if the search stops here. *)
Definition CheckGap (a : aspaceA) (prev next : option region) (align region_size : Z) : option Z :=
  let gap_beg := match prev with Some p => u64 (r_base p + r_size p) | None => as_base a end in
  let pick gap_end :=
    let pva := arch_mmu_pick_spot gap_beg align in
    if pva <? gap_beg then Some NO_SPOT else
    if (pva <? gap_end) && (region_size <=? u64 (gap_end - pva + 1)) then Some pva else None in
  match next with
  | Some n => if gap_beg =? r_base n then None else pick (u64 (r_base n - 1))
  | None => if gap_beg =? u64 (as_base a + as_size a) then Some NO_SPOT else pick (u64 (as_base a + as_size a - 1))
  end.

(** The address, and how many regions are before it. *)
Fixpoint spot_loop (a : aspaceA) (before : option region) (rest : list region) (i : nat) (align size : Z) : Z * nat :=
  match CheckGap a before (head rest) align size with
  | Some spot => (spot, i)
  | None => match rest with [] => (NO_SPOT, i) | r :: rest' => spot_loop a (Some r) rest' (S i) align size end
  end.

Definition AllocSpot (a : aspaceA) (size align_pow2 : Z) : option (Z * nat) :=
  ASSERT (0 <? size) && IS_PAGE_ALIGNED size;
  let align_pow2 := if align_pow2 <? PAGE_SIZE_SHIFT then PAGE_SIZE_SHIFT else align_pow2 in
  Some (spot_loop a None (regions_ a) 0 (2 ^ align_pow2) size).

(** The region that was added, or a null pointer. *)
Definition AllocRegion (a : aspaceA) (m : vm) (size vaddr align_pow2 vmm_flags mmu_flags : Z) : option (option region * aspaceA * vm) :=
  let '(ok, mem) := alloc (m_mem (vm_machine m)) in
  let m1 := set_machine m (mk_machine (m_pmm (vm_machine m)) (m_ram (vm_machine m)) mem) in
  if negb ok then Some (None, a, m1) else
  if has_flag vmm_flags VMM_FLAG_VALLOC_SPECIFIC then
    ASSERT IS_PAGE_ALIGNED vaddr;
    let r := mk_region vaddr size mmu_flags None 0 in
    let '(err, a1) := AddRegion a r in
    if err <? 0 then Some (None, a, m1) else Some (Some r, a1, m1)
  else
    '(spot, i) ← AllocSpot a size align_pow2;
    if spot =? NO_SPOT then Some (None, a, m1) else
    let r := mk_region spot size mmu_flags None 0 in
    Some (Some r, set_regions a (take i (regions_ a) ++ r :: drop i (regions_ a)), m1).

Definition FindRegion (a : aspaceA) (vaddr : Z) : option region := snd <$> list_find (λ r, (r_base r <=? vaddr) && (vaddr <=? r_last r) = true) (regions_ a).

(** ** Operations of a region *)

Definition Unmap (a : aspaceA) (m : vm) (r : region) : aspaceA * vm :=
  let '(_, x, w) := arch_mmu_unmap (arch_aspace a) (vm_machine m) (r_base r) (r_size r / PAGE_SIZE) in (set_arch a x, set_machine m w).

Definition Protect (a : aspaceA) (m : vm) (r : region) (mmu_flags : Z) : Z * aspaceA * vm :=
  let a1 := set_regions a (update_region (r_base r) (λ r, mk_region (r_base r) (r_size r) mmu_flags (r_object r) (r_offset r)) (regions_ a)) in
  let '(_, x, w) := arch_mmu_protect (arch_aspace a) (vm_machine m) (r_base r) (r_size r / PAGE_SIZE) mmu_flags in
  (NO_ERROR, set_arch a1 x, set_machine m w).

Definition SetObject (a : aspaceA) (r : region) (id offset : Z) : option (region * aspaceA) :=
  ASSERT IS_PAGE_ALIGNED offset;
  ASSERT bool_decide (r_object r = None);
  let r1 := mk_region (r_base r) (r_size r) (r_flags r) (Some id) offset in
  Some (r1, set_regions a (update_region (r_base r) (λ _, r1) (regions_ a))).

Definition MapPhysicalRange (a : aspaceA) (m : vm) (r : region) (offset len paddr : Z) (allow_remap : bool) : option (Z * aspaceA * vm) :=
  ASSERT IS_PAGE_ALIGNED offset;
  ASSERT IS_PAGE_ALIGNED len;
  ASSERT bool_decide (r_object r = None);
  match TrimRange offset len (r_size r) with
  | None => Some (ERR_INVALID_ARGS, a, m)
  | Some len =>
    let va := u64 (r_base r + offset) in
    let map x w := let '(ret, x1, w1) := arch_mmu_map x w va paddr (len / PAGE_SIZE) (r_flags r) in
      Some (if ret <? 0 then ret else 0, set_arch a x1, set_machine m w1) in
    if allow_remap then
      let '(ret, x, w) := arch_mmu_unmap (arch_aspace a) (vm_machine m) va (len / PAGE_SIZE) in
      if ret <? 0 then Some (ret, set_arch a x, set_machine m w) else map x w
    else map (arch_aspace a) (vm_machine m)
  end.

(** The loop over the pages from [o] to [e]. *)
Fixpoint map_loop (fuel : nat) (a : aspaceA) (m : vm) (r : region) (id o e : Z) (commit : bool) : option (Z * aspaceA * vm) :=
  match fuel with
  | O => None
  | S f =>
    if o <? e then
      let vmo_offset := u64 (r_offset r + o) in
      let next := u64 (o + PAGE_SIZE) in
      let map (m1 : vm) (p : Z) :=
        let pa := vm_page_to_paddr (m_pmm (vm_machine m1)) p in
        let '(_, x, w) := arch_mmu_map (arch_aspace a) (vm_machine m1) (u64 (r_base r + o)) pa 1 (r_flags r) in
        map_loop f (set_arch a x) (set_machine m1 w) r id next e commit in
      '(v, n) ← vm_objects m !! id;
      q ← GetPage v vmo_offset;
      match q with
      | Some p => map m p
      | None =>
        if negb commit then map_loop f a m r id next e commit else
        '(committed, v1, w1) ← CommitRange maps v (vm_machine m) vmo_offset PAGE_SIZE;
        let m1 := set_object (set_machine m w1) id v1 n in
        if negb (committed =? PAGE_SIZE) then Some (i32 committed, a, m1) else
        q1 ← GetPage v1 vmo_offset;
        p ← q1;
        map m1 p
      end
    else Some (NO_ERROR, a, m)
  end.

Definition MapRange (a : aspaceA) (m : vm) (r : region) (offset len : Z) (commit : bool) : option (Z * aspaceA * vm) :=
  ASSERT IS_PAGE_ALIGNED offset;
  ASSERT IS_PAGE_ALIGNED len;
  id ← r_object r;
  map_loop (S (Z.to_nat (len / PAGE_SIZE))) a m r id offset (u64 (offset + len)) commit.

Definition Region_PageFault (a : aspaceA) (m : vm) (r : region) (va pf_flags : Z) : option (Z * aspaceA * vm) :=
  ASSERT (r_base r <=? va) && (va <=? r_last r);
  let va := ROUNDDOWN va PAGE_SIZE in
  let vmo_offset := u64 (va - r_base r + r_offset r) in
  if has_flag pf_flags VMM_PF_FLAG_USER && negb (has_flag (r_flags r) ARCH_MMU_FLAG_PERM_USER) then Some (ERR_ACCESS_DENIED, a, m) else
  if has_flag pf_flags VMM_PF_FLAG_WRITE && has_flag (r_flags r) ARCH_MMU_FLAG_PERM_RO then Some (ERR_ACCESS_DENIED, a, m) else
  if has_flag pf_flags VMM_PF_FLAG_INSTRUCTION && has_flag (r_flags r) ARCH_MMU_FLAG_PERM_NO_EXECUTE then Some (ERR_ACCESS_DENIED, a, m) else
  if negb (has_flag pf_flags VMM_PF_FLAG_NOT_PRESENT) && negb (has_flag pf_flags VMM_PF_FLAG_USER) && is_user a then Some (ERR_ACCESS_DENIED, a, m) else
  match r_object r with
  | None => Some (ERR_NO_MEMORY, a, m)
  | Some id =>
    '(v, n) ← vm_objects m !! id;
    '(q, v1, w1) ← FaultPage maps v (vm_machine m) vmo_offset;
    let m1 := set_object (set_machine m w1) id v1 n in
    match q with
    | None => Some (ERR_NO_MEMORY, a, m1)
    | Some p =>
      let new_pa := vm_page_to_paddr (m_pmm w1) p in
      match arch_mmu_query (arch_aspace a) va with
      | Some (pa, page_flags) =>
        if pa =? new_pa then
          if page_flags =? r_flags r then Some (NO_ERROR, a, m1) else
          let '(ret, x, w2) := arch_mmu_protect (arch_aspace a) w1 va 1 (r_flags r) in
          Some (if ret <? 0 then ERR_NO_MEMORY else NO_ERROR, set_arch a x, set_machine m1 w2)
        else Some (ERR_NOT_SUPPORTED, a, m1)
      | None =>
        let '(ret, x, w2) := arch_mmu_map (arch_aspace a) w1 va new_pa 1 (r_flags r) in
        Some (if ret <? 0 then ERR_NO_MEMORY else NO_ERROR, set_arch a x, set_machine m1 w2)
      end
    end
  end.

(** ** Operations of an address space *)

(** The address that a caller asks for, if it does; [ptr] is [None] if it is null. *)
Definition specific (vmm_flags : Z) (ptr : option Z) : option Z :=
  if has_flag vmm_flags VMM_FLAG_VALLOC_SPECIFIC then vaddr ← ptr; if IS_PAGE_ALIGNED vaddr then Some vaddr else None else Some 0.

(** The status, what [ptr] points to, and the state.  The reference to the object is the
    caller's gift. *)
Definition MapObject (a : aspaceA) (m : vm) (vmo : option Z) (offset size : Z) (ptr : option Z) (align_pow2 vmm_flags mmu_flags : Z) : option (Z * option Z * aspaceA * vm) :=
  let fail err (a : aspaceA) m := m1 ← release_opt m vmo; Some (err, ptr, a, m1) in
  let size := ROUNDUP size PAGE_SIZE in
  if size =? 0 then fail ERR_INVALID_ARGS a m else
  match vmo with
  | None => Some (ERR_INVALID_ARGS, ptr, a, m)
  | Some id =>
    if negb (IS_PAGE_ALIGNED offset) then fail ERR_INVALID_ARGS a m else
    match specific vmm_flags ptr with
    | None => fail ERR_INVALID_ARGS a m
    | Some vaddr =>
      '(r, a1, m1) ← AllocRegion a m size vaddr align_pow2 vmm_flags mmu_flags;
      match r with
      | None => fail ERR_NO_MEMORY a1 m1
      | Some r =>
        '(r1, a2) ← SetObject a1 r id offset;
        let done a m := Some (NO_ERROR, (λ _, r_base r1) <$> ptr, a, m) in
        if has_flag vmm_flags VMM_FLAG_COMMIT then
          '(err, a3, m3) ← MapRange a2 m1 r1 0 size true;
          if err <? 0 then Some (err, ptr, a3, m3) else done a3 m3
        else done a2 m1
      end
    end
  end.

Definition ReserveSpace (a : aspaceA) (m : vm) (size vaddr : Z) : option (Z * aspaceA * vm) :=
  ASSERT IS_PAGE_ALIGNED vaddr;
  ASSERT IS_PAGE_ALIGNED size;
  let size := ROUNDUP_PAGE_SIZE size in
  if size =? 0 then Some (NO_ERROR, a, m) else
  if negb (is_inside a vaddr) then Some (ERR_OUT_OF_RANGE, a, m) else
  size ← trim_to_aspace a vaddr size;
  let flags := match arch_mmu_query (arch_aspace a) vaddr with Some (_, f) => f | None => Z.lor ARCH_MMU_FLAG_CACHED (Z.lor ARCH_MMU_FLAG_PERM_RO ARCH_MMU_FLAG_PERM_NO_EXECUTE) end in
  '(r, a1, m1) ← AllocRegion a m size vaddr 0 VMM_FLAG_VALLOC_SPECIFIC flags;
  Some (if bool_decide (is_Some r) then NO_ERROR else ERR_NO_MEMORY, a1, m1).

Definition AllocPhysical (a : aspaceA) (m : vm) (size : Z) (ptr : option Z) (align_log2 paddr vmm_flags mmu_flags : Z) : option (Z * option Z * aspaceA * vm) :=
  ASSERT IS_PAGE_ALIGNED paddr;
  if size =? 0 then Some (NO_ERROR, ptr, a, m) else
  let size := ROUNDUP_PAGE_SIZE size in
  if has_flag vmm_flags VMM_FLAG_COMMIT then Some (ERR_INVALID_ARGS, ptr, a, m) else
  match specific vmm_flags ptr with
  | None => Some (ERR_INVALID_ARGS, ptr, a, m)
  | Some vaddr =>
    '(r, a1, m1) ← AllocRegion a m size vaddr align_log2 vmm_flags mmu_flags;
    match r with
    | None => Some (ERR_NO_MEMORY, ptr, a1, m1)
    | Some r =>
      '(err, a2, m2) ← MapPhysicalRange a1 m1 r 0 size paddr false;
      if err <? 0 then Some (err, ptr, a2, m2) else Some (NO_ERROR, (λ _, r_base r) <$> ptr, a2, m2)
    end
  end.

(** An object is committed before it is mapped. *)
Definition commit_new (m : vm) (id size : Z) (commit : vm_object → machine → option (Z * vm_object * machine)) : option (bool * vm) :=
  '(v, n) ← vm_objects m !! id;
  '(committed, v1, w1) ← commit v (vm_machine m);
  let m1 := set_object (set_machine m w1) id v1 n in
  Some (negb ((committed <? 0) || (committed <? size)), m1).

Definition AllocContiguous (a : aspaceA) (m : vm) (size : Z) (ptr : option Z) (align_pow2 vmm_flags mmu_flags : Z) : option (Z * option Z * aspaceA * vm) :=
  let size := ROUNDUP size PAGE_SIZE in
  if size =? 0 then Some (ERR_INVALID_ARGS, ptr, a, m) else
  if negb (has_flag vmm_flags VMM_FLAG_COMMIT) then Some (ERR_INVALID_ARGS, ptr, a, m) else
  '(vmo, m1) ← CreateObject m PMM_ALLOC_FLAG_ANY size;
  match vmo with
  | None => Some (ERR_NO_MEMORY, ptr, a, m1)
  | Some id =>
    '(ok, m2) ← commit_new m1 id size (λ v w, CommitRangeContiguous maps v w 0 size align_pow2);
    if (ok : bool) then MapObject a m2 (Some id) 0 size ptr align_pow2 vmm_flags mmu_flags else
    m3 ← Release m2 id; Some (ERR_NO_MEMORY, ptr, a, m3)
  end.

Definition Alloc (a : aspaceA) (m : vm) (size : Z) (ptr : option Z) (align_pow2 vmm_flags mmu_flags : Z) : option (Z * option Z * aspaceA * vm) :=
  let size := ROUNDUP size PAGE_SIZE in
  if size =? 0 then Some (ERR_INVALID_ARGS, ptr, a, m) else
  '(vmo, m1) ← CreateObject m PMM_ALLOC_FLAG_ANY size;
  match vmo with
  | None => Some (ERR_NO_MEMORY, ptr, a, m1)
  | Some id =>
    '(ok, m2) ← (if has_flag vmm_flags VMM_FLAG_COMMIT then commit_new m1 id size (λ v w, CommitRange maps v w 0 size) else Some (true, m1));
    if (ok : bool) then MapObject a m2 (Some id) 0 size ptr align_pow2 vmm_flags mmu_flags else
    m3 ← Release m2 id; Some (ERR_NO_MEMORY, ptr, a, m3)
  end.

(** [regions_.erase]. *)
Definition erase_region (r : region) (l : list region) : list region := filter (λ x, r_base x ≠ r_base r) l.

Definition FreeRegion (a : aspaceA) (m : vm) (vaddr : Z) : option (Z * aspaceA * vm) :=
  match FindRegion a vaddr with
  | None => Some (ERR_NOT_FOUND, a, m)
  | Some r =>
    let '(a1, m1) := Unmap (set_regions a (erase_region r (regions_ a))) m r in
    m2 ← release_opt m1 (r_object r);
    Some (NO_ERROR, a1, m2)
  end.

Fixpoint destroy_loop (l : list region) (a : aspaceA) (m : vm) : option (aspaceA * vm) :=
  match l with
  | [] => Some (a, m)
  | r :: l' =>
    let '(a1, m1) := Unmap (set_regions a l') m r in
    m2 ← release_opt m1 (r_object r);
    destroy_loop l' a1 m2
  end.

Definition Destroy (a : aspaceA) (m : vm) : option (Z * aspaceA * vm) := '(a1, m1) ← destroy_loop (regions_ a) a m; Some (NO_ERROR, a1, m1).

Definition PageFault (a : aspaceA) (m : vm) (va flags : Z) : option (Z * aspaceA * vm) :=
  match FindRegion a va with
  | None => Some (ERR_NOT_FOUND, a, m)
  | Some r => Region_PageFault a m r va flags
  end.

Definition vmm_protect_region (a : aspaceA) (m : vm) (va mmu_flags : Z) : Z * aspaceA * vm :=
  match FindRegion a va with
  | None => (ERR_NOT_FOUND, a, m)
  | Some r => Protect a m r mmu_flags
  end.

Definition vmm_move_region_phys (a : aspaceA) (m : vm) (va paddr : Z) : option (Z * aspaceA * vm) :=
  match FindRegion a va with
  | None => Some (ERR_NOT_FOUND, a, m)
  | Some r => MapPhysicalRange a m r 0 (r_size r) paddr true
  end.

(** A null pointer is dereferenced if there is no memory. *)
Definition vmm_create_aspace (m : vm) (flags : Z) : option (Z * aspaceA * vm) :=
  '(r, m1) ← VmAspace_Create m flags;
  a ← r;
  Some (NO_ERROR, a, m1).

(** The address space has the one reference of its creation. *)
Definition vmm_free_aspace (a : aspaceA) (m : vm) : option (Z * vm) :=
  '(_, a1, m1) ← Destroy a m;
  m2 ← VmAspace_delete a1 m1;
  Some (NO_ERROR, m2).

End aspaces.

End VmAspace.
