(* ===== verification/VmAspaceFacts.v ===== *)
(** * The regions of an address space, and what a page fault maps

    The list of regions is sorted, the regions are apart and inside of the address space;
    the search for a place finds the lowest one if there is any; a page fault gives the
    page of the object that belongs to the address, and the mappings of a region are always
    pages of its object. *)

From stdpp Require Import base tactics numbers list list_numbers gmap sorting.
From Stdlib Require Import ZArith Lia.
From S2P Require Import Prelude Pmm PmmFacts VmObject VmObjectFacts VmAspace.
#[local] Open Scope Z_scope.

Module VmAspaceFacts.
Import Pmm PmmFacts VmObject VmObjectFacts VmAspace.

Section facts.
Context {A : Type} `{ArchMmu A} (maps : list mmu_initial_mapping).
Implicit Types a : aspace A.

(** ** The list of regions *)

Definition r_end (r : region) : Z := r_base r + r_size r.
Definition as_end a : Z := as_base a + as_size a.

Definition page_multiple (x : Z) : Prop := x mod PAGE_SIZE = 0.

Record as_ok a : Prop := {
  ao_base : 0 ≤ as_base a ∧ page_multiple (as_base a);
  ao_size : 0 < as_size a < 2 ^ 64 ∧ page_multiple (as_size a);
  ao_end : as_end a ≤ 2 ^ 64 }.

Record region_ok a (r : region) : Prop := {
  ro_base : as_base a ≤ r_base r ∧ page_multiple (r_base r);
  ro_size : 0 < r_size r ∧ page_multiple (r_size r);
  ro_end : r_end r ≤ as_end a }.

Definition before (r s : region) : Prop := r_end r ≤ r_base s.

Record regions_ok a : Prop := {
  rs_aspace : as_ok a;
  rs_each r : r ∈ regions_ a → region_ok a r;
  rs_sorted : StronglySorted before (regions_ a) }.

(** No region has an address of the range. *)
Definition vacant (l : list region) (va size : Z) : Prop := ∀ r, r ∈ l → va + size ≤ r_base r ∨ r_end r ≤ va.

Lemma r_last_ok a r : as_ok a → region_ok a r → r_last r = r_end r - 1.
Proof. intros [[? _] _ ?] [[? _] [? _] ?]. unfold r_last, r_end, as_end in *. apply u64_id. unfold is_u64. lia. Qed.

Lemma as_last a : as_ok a → u64 (as_base a + as_size a - 1) = as_end a - 1.
Proof. intros [[? _] [[? ?] _] ?]. unfold as_end in *. apply u64_id. unfold is_u64. lia. Qed.

Lemma inside_ok a va : as_ok a → is_inside a va = true ↔ as_base a ≤ va < as_end a.
Proof. intros Ha. unfold is_inside. rewrite (as_last a Ha), andb_true_iff, !Z.leb_le. lia. Qed.

(** Whether a region with these bounds is inside. *)
Definition fits a (va size : Z) : Prop := 0 < size ∧ as_base a ≤ va ∧ va + size ≤ as_end a.

Lemma inside_region_ok a r : as_ok a → 0 ≤ r_base r < 2 ^ 64 → 0 ≤ r_size r < 2 ^ 64 → (r_size r =? 0) || negb (is_inside_region a r) = false ↔ fits a (r_base r) (r_size r).
Proof.
  intros Ha Hb Hs. pose proof (ao_end _ Ha) as Hend. unfold fits, is_inside_region. rewrite (as_last a Ha), orb_false_iff, negb_false_iff, Z.eqb_neq. pose proof (inside_ok a (r_base r) Ha) as Hin. destruct (is_inside a (r_base r)); cbn [negb]; [|split; [intros [_ ?]; done|]; intros (? & ? & ?); exfalso; assert (false = true) by (apply Hin; lia); done].
  specialize (proj1 Hin eq_refl) as Hin'. destruct (r_size r =? 0) eqn:E0; zb; [split; [tauto|lia]|]. unfold r_last. assert (Hu : u64 (r_base r + r_size r - 1) = if r_base r + r_size r - 1 <? 2 ^ 64 then r_base r + r_size r - 1 else r_base r + r_size r - 1 - 2 ^ 64) by (unfold u64; apply mod_case; lia).
  rewrite Hu. destruct (r_base r + r_size r - 1 <? 2 ^ 64) eqn:E1; zb.
  - rewrite (proj2 (Z.ltb_ge (r_base r + r_size r - 1) (r_base r))) by lia. destruct (as_end a - 1 <? r_base r + r_size r - 1) eqn:E2; zb; split; try lia; intros [_ ?]; done.
  - rewrite (proj2 (Z.ltb_lt (r_base r + r_size r - 1 - 2 ^ 64) (r_base r))) by lia. split; [intros [_ ?]; done|lia].
Qed.

(** ** A region at a given address *)

Lemma before_all r s l : before r s → StronglySorted before (s :: l) → (∀ x, x ∈ s :: l → 0 < r_size x) → ∀ x, x ∈ s :: l → before r x.
Proof.
  intros Hrs Hs Hp x [->|Hx]%elem_of_cons; [done|]. apply StronglySorted_inv in Hs as [_ Hf]. rewrite Forall_forall in Hf. specialize (Hf x Hx). pose proof (Hp s ltac:(by left)). unfold before, r_end in *. lia.
Qed.

Lemma add_after_ok a r rest : ∀ iter, as_ok a → region_ok a r → (∀ x, x ∈ iter :: rest → region_ok a x) → StronglySorted before (iter :: rest) → r_base iter ≤ r_last r →
  match add_after iter rest r with
  | Some l => vacant (iter :: rest) (r_base r) (r_size r) ∧ StronglySorted before l ∧ ∃ l1 l2, iter :: rest = l1 ++ l2 ∧ l = l1 ++ r :: l2
  | None => ¬ vacant (iter :: rest) (r_base r) (r_size r)
  end.
Proof.
  intros iter Ha Hr. rewrite (r_last_ok a r Ha Hr). revert iter. induction rest as [|next rest IH]; intros iter Hok Hs Hge; cbn [add_after]; (assert (Hi : region_ok a iter) by (apply Hok; by left)); rewrite (r_last_ok a iter Ha Hi), ?(r_last_ok a r Ha Hr); pose proof (ro_size _ _ Hr) as [Hrs _].
  - destruct (r_base r <=? r_end iter - 1) eqn:E; zb; [intros Hv; destruct (Hv iter ltac:(by left)); unfold r_end in *; lia|]. split; [intros x ->%list_elem_of_singleton; right; unfold r_end in *; lia|]. split; [|by exists [iter], []]. apply SSorted_cons; [apply SSorted_cons; constructor|]. constructor; [|constructor]. unfold before. lia.
  - destruct (r_base r <=? r_end iter - 1) eqn:E; zb; [intros Hv; destruct (Hv iter ltac:(by left)); unfold r_end in *; lia|]. apply StronglySorted_inv in Hs as [Hs Hf]. pose proof (Forall_inv Hf) as Hin. assert (Hok' : ∀ x, x ∈ next :: rest → region_ok a x) by (intros x Hx; apply Hok; by right). assert (Hpos : ∀ x, x ∈ next :: rest → 0 < r_size x) by (intros x Hx; apply (Hok' x Hx)). destruct (r_end r - 1 <? r_base next) eqn:E2; zb.
    + assert (Hrn : before r next) by (unfold before; lia). pose proof (before_all r next rest Hrn Hs Hpos) as Hall. split; [intros x [->|Hx]%elem_of_cons; [right; lia|left; specialize (Hall x Hx); unfold before, r_end in *; lia]|]. split; [|by exists [iter], (next :: rest)].
      apply SSorted_cons; [apply SSorted_cons; [done|by apply Forall_forall]|]. constructor; [unfold before; lia|done].
    + specialize (IH next Hok' Hs ltac:(lia)). destruct (add_after next rest r) as [l|]; cbn [mbind option_bind].
      * destruct IH as (Hv & Hsl & l1 & l2 & El & ->). split; [intros x [->|Hx]%elem_of_cons; [right; lia|auto]|]. split; [|exists (iter :: l1), l2; by rewrite El]. apply SSorted_cons; [done|]. apply Forall_app. rewrite El in Hf. apply Forall_app in Hf as [Hf1 Hf2]. split; [done|]. constructor; [unfold before; lia|done].
      * intros Hv. apply IH. intros x Hx. apply Hv. by right.
Qed.

Lemma insert_regions a l1 l2 r : regions_ok a → regions_ a = l1 ++ l2 → region_ok a r → StronglySorted before (l1 ++ r :: l2) → regions_ok (set_regions a (l1 ++ r :: l2)).
Proof.
  intros [R1 R2 R3] E Hr Hs. split; [by destruct R1; split| |done]. intros x Hx. assert (Hx' : x = r ∨ x ∈ regions_ a) by (rewrite E; cbn in Hx; rewrite elem_of_app, elem_of_cons in Hx; rewrite elem_of_app; tauto). destruct Hx' as [->|Hx']; [by destruct Hr; split|]. by destruct (R2 x Hx'); split.
Qed.

(** A region is added exactly if it is inside and its addresses are vacant. *)
Lemma add_region_ok a r : regions_ok a → 0 ≤ r_base r < 2 ^ 64 → 0 ≤ r_size r < 2 ^ 64 → page_multiple (r_base r) → page_multiple (r_size r) →
  (AddRegion a r = (ERR_OUT_OF_RANGE, a) ∧ ¬ fits a (r_base r) (r_size r)) ∨ (AddRegion a r = (ERR_NO_MEMORY, a) ∧ fits a (r_base r) (r_size r) ∧ ¬ vacant (regions_ a) (r_base r) (r_size r)) ∨
  (fits a (r_base r) (r_size r) ∧ vacant (regions_ a) (r_base r) (r_size r) ∧ ∃ l1 l2, regions_ a = l1 ++ l2 ∧ AddRegion a r = (NO_ERROR, set_regions a (l1 ++ r :: l2)) ∧ regions_ok (set_regions a (l1 ++ r :: l2))).
Proof.
  intros Hok Hb Hs Hpb Hps. pose proof Hok as [Ha Hall Hsort]. unfold AddRegion. pose proof (inside_region_ok a r Ha Hb Hs) as Hin. destruct ((r_size r =? 0) || negb (is_inside_region a r)) eqn:E; [left; split; [done|]; intros Hf; assert (true = false) by (by apply Hin); done|]. right. pose proof (proj1 Hin eq_refl) as Hf. assert (Hr : region_ok a r) by (destruct Hf as (? & ? & ?); split; [done|done|unfold r_end; lia]).
  destruct (regions_ a) as [|iter rest] eqn:El.
  - right. split; [done|]. split; [by intros x ?%not_elem_of_nil|]. exists [], []. split; [done|]. split; [done|]. apply (insert_regions a [] []); [done|done|done|]. apply SSorted_cons; constructor.
  - assert (Hi : region_ok a iter) by (apply Hall; by left). rewrite (r_last_ok a r Ha Hr). destruct (r_end r - 1 <? r_base iter) eqn:E1; zb.
    + right. assert (Hri : before r iter) by (unfold before; lia). pose proof (before_all r iter rest Hri Hsort (λ x Hx, proj1 (ro_size _ _ (Hall x Hx)))) as Hbef. split; [done|]. split; [intros x Hx; left; by apply Hbef|]. exists [], (iter :: rest). split; [done|]. split; [done|]. apply (insert_regions a [] (iter :: rest)); [done|done|done|]. apply SSorted_cons; [done|by apply Forall_forall].
    + pose proof (add_after_ok a r rest iter Ha Hr Hall Hsort ltac:(rewrite (r_last_ok a r Ha Hr); lia)) as Hadd. destruct (add_after iter rest r) as [l|]; [|left; by split]. destruct Hadd as (Hv & Hsl & l1 & l2 & E12 & ->). right. split; [done|]. split; [done|]. exists l1, l2. split; [done|]. split; [done|]. apply (insert_regions a l1 l2); [done|by rewrite El|done|done].
Qed.

(** ** The search for a place *)

(** An aligned address, not before [g], where a region fits between those of a list. *)
Definition place a (l : list region) (align size g va : Z) : Prop := va mod align = 0 ∧ g ≤ va ∧ va + size ≤ as_end a ∧ vacant l va size.

(** The end of the region before the gap. *)
Definition gap_start a (prev : option region) : Z := match prev with Some p => r_end p | None => as_base a end.

Lemma pick_ok g k : 12 ≤ k ≤ 63 → 0 ≤ g < 2 ^ 64 →
  if arch_mmu_pick_spot g (2 ^ k) <? g then ∀ va, va mod 2 ^ k = 0 → g ≤ va → 2 ^ 64 ≤ va
  else let pva := arch_mmu_pick_spot g (2 ^ k) in g ≤ pva ∧ pva mod 2 ^ k = 0 ∧ ∀ va, va mod 2 ^ k = 0 → g ≤ va → pva ≤ va.
Proof.
  intros Hk Hg. unfold arch_mmu_pick_spot. destruct (decide (g + (2 ^ k - 1) < 2 ^ 64)) as [Hn|Hw].
  - destruct (roundup_pow2_spec g k ltac:(lia) ltac:(lia) Hn) as (H1 & H2 & H3). rewrite (proj2 (Z.ltb_ge _ _)) by lia. split; [lia|]. split; [done|]. auto.
  - rewrite roundup_wrap by lia. pose proof (pow2_pos k ltac:(lia)). pose proof (pow2_le k 63 ltac:(lia)). rewrite (proj2 (Z.ltb_lt _ _)) by lia. intros va Hva Hge. assert (E64 : 2 ^ 64 = 2 ^ (64 - k) * 2 ^ k) by (rewrite <- Z.pow_add_r by lia; f_equal; lia). pose proof (Z.div_mod va (2 ^ k) ltac:(lia)) as Ed. rewrite Hva in Ed. assert (2 ^ (64 - k) - 1 < va / 2 ^ k) by nia. nia.
Qed.

(** One gap: it ends the search with the lowest place, or shows that there is none. *)
Lemma check_gap_ok a prev next k size : as_ok a → (∀ p, prev = Some p → region_ok a p) → (∀ n, next = Some n → region_ok a n ∧ gap_start a prev ≤ r_base n) → 12 ≤ k ≤ 63 → PAGE_SIZE ≤ size < 2 ^ 64 →
  let g := gap_start a prev in let e := match next with Some n => r_base n | None => as_end a end in
  match CheckGap a prev next (2 ^ k) size with
  | Some spot => (spot = NO_SPOT ∧ ∀ va, va mod 2 ^ k = 0 → g ≤ va → ¬ va + size ≤ as_end a) ∨ (spot ≠ NO_SPOT ∧ spot mod 2 ^ k = 0 ∧ g ≤ spot ∧ spot + size ≤ e ∧ ∀ va, va mod 2 ^ k = 0 → g ≤ va → spot ≤ va)
  | None => ∀ va, va mod 2 ^ k = 0 → g ≤ va → ¬ va + size ≤ e
  end.
Proof.
  intros Ha Hp Hn Hk Hs g e. assert (Hg : 0 ≤ g ≤ as_end a) by (pose proof (ao_base _ Ha) as [? _]; pose proof (ao_size _ Ha) as [? _]; unfold g, gap_start; destruct prev as [p|]; [destruct (Hp p eq_refl) as [[? _] [? _] ?]; unfold r_end in *; lia|unfold as_end; lia]). pose proof (ao_end _ Ha) as Hend. pose proof (ao_base _ Ha) as [Hb0 _]. pose proof (ao_size _ Ha) as [Hsz _].
  unfold CheckGap. set (gb := match prev with Some p => u64 (r_base p + r_size p) | None => as_base a end). assert (Egb : g < 2 ^ 64 → gb = g) by (intros Hlt; unfold gb, g, gap_start, r_end in *; destruct prev; [apply u64_id; unfold is_u64; lia|done]). assert (Egb0 : g = 2 ^ 64 → gb = 0) by (intros E; unfold gb, g, gap_start, r_end in *; destruct prev; [rewrite E; done|unfold as_end in *; lia]).
  assert (Hspan : as_base a ≤ g ∧ e ≤ as_end a) by (split; [unfold g, gap_start; destruct prev as [p|]; [destruct (Hp p eq_refl) as [[? _] [? _] ?]; unfold r_end; lia|lia]|unfold e; destruct next as [n|]; [destruct (Hn n eq_refl) as [[_ [? _] ?] _]; unfold r_end in *; lia|lia]]).
  assert (Hpick : ∀ ge, g ≤ ge → ge + 1 = e → g < 2 ^ 64 → ge < 2 ^ 64 → match (let pva := arch_mmu_pick_spot g (2 ^ k) in if pva <? g then Some NO_SPOT else if (pva <? ge) && (size <=? u64 (ge - pva + 1)) then Some pva else None) with
    | Some spot => (spot = NO_SPOT ∧ ∀ va, va mod 2 ^ k = 0 → g ≤ va → ¬ va + size ≤ as_end a) ∨ (spot ≠ NO_SPOT ∧ spot mod 2 ^ k = 0 ∧ g ≤ spot ∧ spot + size ≤ e ∧ ∀ va, va mod 2 ^ k = 0 → g ≤ va → spot ≤ va)
    | None => ∀ va, va mod 2 ^ k = 0 → g ≤ va → ¬ va + size ≤ e end).
  { intros ge Hge Ee Hg64 Hge64. pose proof (pick_ok g k Hk ltac:(lia)) as Hpk. cbv zeta. destruct (arch_mmu_pick_spot g (2 ^ k) <? g) eqn:E1; [left; split; [done|]; intros va Hm Hva Hfit; specialize (Hpk va Hm Hva); unfold PAGE_SIZE in Hs; lia|]. destruct Hpk as (P1 & P2 & P3). set (pva := arch_mmu_pick_spot g (2 ^ k)) in *.
    destruct (pva <? ge) eqn:E2; zb; cbn [andb]; [|intros va Hm Hva Hfit; specialize (P3 va Hm Hva); unfold PAGE_SIZE in Hs; lia]. rewrite (u64_id (ge - pva + 1)) by (unfold is_u64, as_end in *; lia). destruct (size <=? ge - pva + 1) eqn:E3; zb; [|intros va Hm Hva Hfit; specialize (P3 va Hm Hva); lia]. right. unfold NO_SPOT. split_and!; (done || lia). }
  destruct next as [n|].
  - destruct (Hn n eq_refl) as [[[? _] [? _] ?] Hle]. fold g in Hle. assert (Hb64 : r_base n < 2 ^ 64) by (unfold r_end in *; lia). rewrite Egb by lia. destruct (g =? r_base n) eqn:E; zb; [intros va _ Hva Hfit; unfold e, PAGE_SIZE in *; lia|]. assert (Eu : u64 (r_base n - 1) = r_base n - 1) by (apply u64_id; unfold is_u64; lia). rewrite Eu. apply Hpick; unfold e; lia.
  - destruct (decide (g = 2 ^ 64)) as [E|E].
    + rewrite Egb0 by done. assert (Ea : as_base a + as_size a = 2 ^ 64) by (unfold as_end in *; lia). rewrite Ea. cbn. left. split; [done|]. intros va _ Hva. unfold as_end, PAGE_SIZE in *. lia.
    + rewrite Egb by lia. destruct (g =? u64 (as_base a + as_size a)) eqn:E1; zb.
      * left. split; [done|]. intros va _ Hva Hfit. destruct (decide (as_end a = 2 ^ 64)) as [E2|E2]; [unfold as_end in E2; rewrite E2 in E1; change (u64 (2 ^ 64)) with 0 in E1; assert (as_base a = 0) by (unfold g, gap_start, r_end in *; destruct prev as [p|]; [destruct (Hp p eq_refl) as [[? _] [? _] ?]; lia|lia]); lia|]. rewrite u64_id in E1 by (unfold is_u64, as_end in *; lia). unfold as_end, PAGE_SIZE in *. lia.
      * rewrite (as_last a Ha). destruct (decide (g = as_end a)) as [Ege|]; [exfalso; apply E1; rewrite Ege; symmetry; apply u64_id; unfold is_u64, as_end in *; lia|]. apply Hpick; unfold e; lia.
Qed.

Lemma vacant_cons r l va size : vacant (r :: l) va size ↔ (va + size ≤ r_base r ∨ r_end r ≤ va) ∧ vacant l va size.
Proof. unfold vacant. split; [intros Hv; split; [apply Hv; by left|intros x Hx; apply Hv; by right]|intros [H1 H2] x [->|Hx]%elem_of_cons; auto]. Qed.

(** The first gap that is large enough. *)
Lemma spot_loop_ok a k size rest : ∀ prev i, as_ok a → (∀ p, prev = Some p → region_ok a p) → (∀ r, r ∈ rest → region_ok a r ∧ gap_start a prev ≤ r_base r) → StronglySorted before rest → 12 ≤ k ≤ 63 → PAGE_SIZE ≤ size < 2 ^ 64 →
  let g := gap_start a prev in let '(spot, j) := spot_loop a prev rest i (2 ^ k) size in
  (spot = NO_SPOT ∧ ∀ va, ¬ place a rest (2 ^ k) size g va) ∨
  (spot ≠ NO_SPOT ∧ place a rest (2 ^ k) size g spot ∧ (∀ va, place a rest (2 ^ k) size g va → spot ≤ va) ∧ ∃ l1 l2, rest = l1 ++ l2 ∧ j = (i + length l1)%nat ∧ (∀ r, r ∈ l1 → r_end r ≤ spot) ∧ ∀ r, r ∈ l2 → spot + size ≤ r_base r).
Proof.
  induction rest as [|n rest IH]; intros prev i Ha Hp Hok Hs Hk Hsz g; cbn [spot_loop head].
  - pose proof (check_gap_ok a prev None k size Ha Hp ltac:(done) Hk Hsz) as Hc. cbv zeta in Hc. fold g in Hc. destruct (CheckGap a prev None (2 ^ k) size) as [spot|]; [|left; split; [done|]; intros va (Hm & Hg & Hf & _); by apply (Hc va)].
    destruct Hc as [[-> Hno]|(Hns & Hm & Hg & Hf & Hmin)]; [left; split; [done|]; intros va (Hm & Hg & Hf & _); by apply (Hno va)|]. right. split; [done|]. split; [split_and!; [done|done|done|by intros r ?%not_elem_of_nil]|]. split; [intros va (? & ? & _); auto|]. exists [], []. split_and!; [done|cbn; lia|by intros r ?%not_elem_of_nil|by intros r ?%not_elem_of_nil].
  - destruct (Hok n ltac:(by left)) as [Hn Hgn]. fold g in Hgn. pose proof (check_gap_ok a prev (Some n) k size Ha Hp ltac:(by intros ? [= <-]) Hk Hsz) as Hc. cbv zeta in Hc. fold g in Hc. apply StronglySorted_inv in Hs as [Hs Hf]. rewrite Forall_forall in Hf. pose proof (ro_size _ _ Hn) as [Hnz _]. pose proof (ro_end _ _ Hn) as Hne. destruct (CheckGap a prev (Some n) (2 ^ k) size) as [spot|].
    + destruct Hc as [[-> Hno]|(Hns & Hm & Hg & Hfit & Hmin)]; [left; split; [done|]; intros va (Hm & Hg & Hf' & _); by apply (Hno va)|]. right. assert (Hrest : ∀ r, r ∈ rest → spot + size ≤ r_base r) by (intros r Hr; specialize (Hf r Hr); unfold before, r_end in *; lia). split; [done|].
      split; [split_and!; [done|done|unfold r_end in *; lia|apply vacant_cons; split; [by left|intros r Hr; left; auto]]|]. split; [intros va (? & ? & _); auto|]. exists [], (n :: rest). split_and!; [done|cbn; lia|by intros r ?%not_elem_of_nil|intros r [->|Hr]%elem_of_cons; auto].
    + specialize (IH (Some n) (S i) Ha ltac:(by intros ? [= <-])). cbn [gap_start] in IH. assert (Hrest : ∀ r, r ∈ rest → region_ok a r ∧ r_end n ≤ r_base r) by (intros r Hr; split; [apply Hok; by right|by apply Hf]). specialize (IH Hrest Hs Hk Hsz). destruct (spot_loop a (Some n) rest (S i) (2 ^ k) size) as [spot j].
      assert (Hskip : ∀ va, place a (n :: rest) (2 ^ k) size g va ↔ place a rest (2 ^ k) size (r_end n) va).
      { intros va. unfold place. rewrite vacant_cons. split.
        - intros (Hm & Hg & Hf' & [Hl|Hr] & Hv); [by destruct (Hc va Hm Hg)|by split_and!].
        - intros (Hm & Hg & Hf' & Hv). split_and!; [done|unfold r_end in *; lia|done|by right|done]. }
      destruct IH as [[-> Hno]|(Hns & Hpl & Hmin & l1 & l2 & -> & -> & H1 & H2)]; [left; split; [done|]; intros va; rewrite Hskip; apply Hno|]. right. split; [done|]. split; [by apply Hskip|]. split; [intros va Hva; apply Hmin; by apply Hskip|]. exists (n :: l1), l2. split_and!; [done|cbn; lia|intros r [->|Hr]%elem_of_cons; [apply Hpl|auto]|done].
Qed.

Lemma sorted_middle l1 r l2 : StronglySorted before (l1 ++ l2) → (∀ x, x ∈ l1 → before x r) → (∀ x, x ∈ l2 → before r x) → StronglySorted before (l1 ++ r :: l2).
Proof.
  induction l1 as [|x l1 IH]; cbn [app]; intros Hs H1 H2; [apply SSorted_cons; [done|by apply Forall_forall]|]. apply StronglySorted_inv in Hs as [Hs Hf]. apply SSorted_cons; [apply IH; [done|intros y Hy; apply H1; by right|done]|]. apply Forall_app in Hf as [Hf1 Hf2]. apply Forall_app. split; [done|]. constructor; [apply H1; by left|done].
Qed.

(** [AllocSpot] as a whole. *)
Lemma alloc_spot_ok a size al : regions_ok a → PAGE_SIZE ≤ size < 2 ^ 64 → page_multiple size → al < 64 → let align := 2 ^ align_of al in
  ∃ spot i, AllocSpot a size al = Some (spot, i) ∧
    ((spot = NO_SPOT ∧ ∀ va, ¬ place a (regions_ a) align size (as_base a) va) ∨
     (spot ≠ NO_SPOT ∧ place a (regions_ a) align size (as_base a) spot ∧ (∀ va, place a (regions_ a) align size (as_base a) va → spot ≤ va) ∧
      ∀ flags, regions_ok (set_regions a (take i (regions_ a) ++ mk_region spot size flags None 0 :: drop i (regions_ a))))).
Proof.
  intros Hok Hs Hpm Hal align. pose proof Hok as [Ha Hall Hsort]. unfold AllocSpot. rewrite (proj2 (Z.ltb_lt 0 size)), (proj2 (page_aligned size) Hpm) by (unfold PAGE_SIZE in Hs; lia). cbn [andb]. assert (Eal : (if al <? PAGE_SIZE_SHIFT then PAGE_SIZE_SHIFT else al) = align_of al) by (unfold align_of; destruct (al <? PAGE_SIZE_SHIFT) eqn:E; zb; lia). rewrite Eal.
  assert (Hk : 12 ≤ align_of al ≤ 63) by (unfold align_of, PAGE_SIZE_SHIFT; lia). pose proof (spot_loop_ok a (align_of al) size (regions_ a) None 0 Ha ltac:(done) ltac:(intros r Hr; split; [auto|apply (ro_base _ _ (Hall r Hr))]) Hsort Hk Hs) as Hsp. cbn [gap_start] in Hsp. fold align in Hsp |- *. destruct (spot_loop a None (regions_ a) 0 align size) as [spot i]. exists spot, i. split; [done|]. destruct Hsp as [?|(Hns & Hpl & Hmin & l1 & l2 & El & -> & H1 & H2)]; [by left|]. right. split; [done|]. split; [done|]. split; [done|]. intros flags.
  rewrite El. rewrite take_app_length', drop_app_length' by lia. destruct Hpl as (Hm & Hge & Hfit & _). apply (insert_regions a l1 l2); [done|done| |].
  - split; cbn [r_base r_size]; [split; [done|]|split; [unfold PAGE_SIZE in Hs; lia|done]|done]. unfold page_multiple. assert (Edv : align = 2 ^ (align_of al - 12) * PAGE_SIZE) by (unfold align; change PAGE_SIZE with (2 ^ 12); rewrite <- Z.pow_add_r by lia; f_equal; lia). pose proof (pow2_pos (align_of al) ltac:(lia)) as Hpos. fold align in Hpos. pose proof (Z.div_mod spot align ltac:(lia)) as Ed. rewrite Hm in Ed. assert (Es : spot = spot / align * 2 ^ (align_of al - 12) * PAGE_SIZE) by (rewrite <- Z.mul_assoc, <- Edv; lia). rewrite Es. by apply Z.mod_mul.
  - apply sorted_middle; [by rewrite <- El|done|done].
Qed.

(** ** Regions are found, added and removed *)

Lemma sorted_lookup l : StronglySorted before l → ∀ i j x y, l !! i = Some x → l !! j = Some y → (i < j)%nat → before x y.
Proof.
  induction 1 as [|z l _ IH Hf]; intros i j x y Hi Hj Hlt; [done|]. destruct j as [|j]; [lia|]. cbn in Hj. destruct i as [|i]; cbn in Hi; [injection Hi as ->|apply (IH i j); (done || lia)]. rewrite Forall_forall in Hf. by eapply Hf, list_elem_of_lookup_2.
Qed.

(** Regions that share an address are the same. *)
Lemma region_unique a r s va : regions_ok a → r ∈ regions_ a → s ∈ regions_ a → r_base r ≤ va < r_end r → r_base s ≤ va < r_end s → r = s.
Proof.
  intros [_ _ Hs] [i Hi]%list_elem_of_lookup [j Hj]%list_elem_of_lookup Hr Hrs. destruct (Nat.lt_trichotomy i j) as [Hlt|[->|Hlt]]; [|congruence|]; [pose proof (sorted_lookup _ Hs _ _ _ _ Hi Hj Hlt) as Hb|pose proof (sorted_lookup _ Hs _ _ _ _ Hj Hi Hlt) as Hb]; unfold before in Hb; lia.
Qed.

Lemma find_region_ok a va r : regions_ok a → FindRegion a va = Some r ↔ r ∈ regions_ a ∧ r_base r ≤ va < r_end r.
Proof.
  intros [Ha Hall Hs]. unfold FindRegion. assert (Htest : ∀ x, x ∈ regions_ a → ((r_base x <=? va) && (va <=? r_last x) = true ↔ r_base x ≤ va < r_end x)) by (intros x Hx; rewrite (r_last_ok a x Ha (Hall x Hx)), andb_true_iff, !Z.leb_le; lia). split.
  - destruct (list_find _ _) as [[i x]|] eqn:E; [|done]. cbn. intros [= ->]. apply list_find_Some in E as (Hi & Hx & _). assert (Hin : r ∈ regions_ a) by (by eapply list_elem_of_lookup_2). split; [done|]. by apply Htest.
  - intros [Hin Hr]. destruct (list_find _ _) as [[i x]|] eqn:E; cbn.
    + f_equal. apply list_find_Some in E as (Hi & Hx & Hfirst). assert (Hxin : x ∈ regions_ a) by (by eapply list_elem_of_lookup_2). apply Htest in Hx; [|done]. by apply (region_unique a x r va).
    + apply list_find_None in E. rewrite Forall_forall in E. exfalso. apply (E r Hin). by apply Htest.
Qed.

(** The machine after [new]. *)
Definition same_machine (m m' : vm) : Prop := m_pmm (vm_machine m') = m_pmm (vm_machine m) ∧ m_ram (vm_machine m') = m_ram (vm_machine m) ∧ vm_objects m' = vm_objects m ∧ vm_next m' = vm_next m.

(** Only the list of regions differs. *)
Definition same_but_regions a a' : Prop := as_base a' = as_base a ∧ as_size a' = as_size a ∧ as_flags a' = as_flags a ∧ arch_aspace a' = arch_aspace a.

Lemma page_multiple_pos x : page_multiple x → 0 < x → PAGE_SIZE ≤ x.
Proof. unfold page_multiple. intros Hx Hp. pose proof (Z.div_mod x PAGE_SIZE ltac:(unfold PAGE_SIZE; lia)). unfold PAGE_SIZE in *. lia. Qed.

Lemma alloc_region_ok a m size vaddr al vf mf : regions_ok a → 0 < size < 2 ^ 64 → page_multiple size → 0 ≤ vaddr < 2 ^ 64 → page_multiple vaddr → al < 64 →
  ∃ r a1 m1, AllocRegion a m size vaddr al vf mf = Some (r, a1, m1) ∧ same_machine m m1 ∧ same_but_regions a a1 ∧ regions_ok a1 ∧
    match r with
    | Some r => r_size r = size ∧ r_flags r = mf ∧ r_object r = None ∧ vacant (regions_ a) (r_base r) size ∧ (∃ l1 l2, regions_ a = l1 ++ l2 ∧ regions_ a1 = l1 ++ r :: l2) ∧ (has_flag vf VMM_FLAG_VALLOC_SPECIFIC = true → r_base r = vaddr)
    | None => a1 = a
    end.
Proof.
  intros Hok Hs Hps Hv Hpv Hal. unfold AllocRegion. destruct (alloc (m_mem (vm_machine m))) as [ok mem]. destruct ok; cbn [negb]; [|eexists None, a, _; split; [done|]; by split_and!]. destruct (has_flag vf VMM_FLAG_VALLOC_SPECIFIC).
  - rewrite (proj2 (page_aligned vaddr) Hpv). destruct (add_region_ok a (mk_region vaddr size mf None 0) Hok) as [[-> _]|[[-> _]|(_ & Hvac & l1 & l2 & El & -> & Hok')]]; cbn [r_base r_size]; try done; try lia; [eexists None, a, _; split; [done|]; by split_and!|eexists None, a, _; split; [done|]; by split_and!|].
    eexists (Some _), _, _. split; [done|]. split; [by split_and!|]. split; [by split_and!|]. split; [done|]. split_and!; try done. by exists l1, l2.
  - destruct (alloc_spot_ok a size al Hok) as (spot & i & -> & Hsp); [pose proof (page_multiple_pos size Hps); lia|done|done|]. cbn [mbind option_bind]. destruct Hsp as [[-> _]|(Hns & (_ & _ & _ & Hvac) & _ & Hok')]; [eexists None, a, _; split; [done|]; by split_and!|]. rewrite (proj2 (Z.eqb_neq _ _) Hns).
    eexists (Some _), _, _. split; [done|]. split; [by split_and!|]. split; [by split_and!|]. split; [apply Hok'|]. split_and!; try done. exists (take i (regions_ a)), (drop i (regions_ a)). by rewrite take_drop.
Qed.

Lemma region_base_inj a r s : regions_ok a → r ∈ regions_ a → s ∈ regions_ a → r_base r = r_base s → r = s.
Proof.
  intros Hok Hr Hs E. pose proof (ro_size _ _ (rs_each _ Hok r Hr)) as [? _]. pose proof (ro_size _ _ (rs_each _ Hok s Hs)) as [? _]. apply (region_unique a r s (r_base r)); [done|done|done|unfold r_end; lia|unfold r_end; lia].
Qed.

Lemma sorted_fmap f l : (∀ r, r_base (f r) = r_base r ∧ r_size (f r) = r_size r) → StronglySorted before l → StronglySorted before (f <$> l).
Proof.
  intros Hf. induction 1 as [|x l _ IH Hx]; [constructor|]. rewrite fmap_cons. apply SSorted_cons; [done|]. rewrite Forall_fmap. eapply Forall_impl; [exact Hx|]. intros y. unfold before, r_end, compose. destruct (Hf x) as [-> ->]. by destruct (Hf y) as [-> _].
Qed.

(** A change of the flags or the object of regions. *)
Lemma regions_ok_fmap a f : regions_ok a → (∀ r, r_base (f r) = r_base r ∧ r_size (f r) = r_size r) → regions_ok (set_regions a (f <$> regions_ a)).
Proof.
  intros [R1 R2 R3] Hf. split; [by destruct R1; split| |by apply sorted_fmap]. cbn [regions_ set_regions]. intros x (y & -> & Hy)%list_elem_of_fmap. destruct (R2 y Hy) as [B S E]. destruct (Hf y) as [Eb Es]. split; unfold r_end in *; rewrite ?Eb, ?Es; done.
Qed.

Lemma regions_sorted_filter (P : region → Prop) `{∀ r, Decision (P r)} l : StronglySorted before l → StronglySorted before (filter P l).
Proof.
  induction 1 as [|x l _ IH Hx]; [constructor|]. destruct (decide (P x)); [rewrite filter_cons_True by done; apply SSorted_cons; [done|]|by rewrite filter_cons_False]. rewrite Forall_forall in *. intros y [_ Hy]%list_elem_of_filter. auto.
Qed.

Lemma regions_ok_erase a r : regions_ok a → regions_ok (set_regions a (erase_region r (regions_ a))).
Proof.
  intros [R1 R2 R3]. split; [by destruct R1; split| |by apply regions_sorted_filter]. cbn [regions_ set_regions]. intros x [_ Hx]%list_elem_of_filter. by destruct (R2 x Hx); split.
Qed.

Lemma regions_ok_arch a x : regions_ok a → regions_ok (set_arch a x).
Proof. intros [R1 R2 R3]. split; [by destruct R1; split| |done]. intros r Hr. by destruct (R2 r Hr); split. Qed.

(** ** The memory management unit *)

(** The tables of the unit live in pages that were free. *)
Definition machine_kept (w w' : machine) : Prop :=
  world_ok w → world_ok w' ∧ keeps (VmObject_new 0) w w' ∧ ∀ p, pages (m_pmm w') !! p = Some free_page → pages (m_pmm w) !! p = Some free_page.

(** What the operations promise about the pages of a range; those outside of it are left
    alone. *)
Class ArchMmuSpec : Prop := {
  am_init w base size ret x w' : arch_mmu_init_aspace w base size 0 = (ret, x, w') → machine_kept w w' ∧ (0 ≤ ret → ∀ va, arch_mmu_query x va = None);
  am_map x w va pa n fl ret x' w' : arch_mmu_map x w va pa n fl = (ret, x', w') → page_multiple va → machine_kept w w' ∧ (∀ y, page_multiple y → ¬ va ≤ y < va + n * PAGE_SIZE → arch_mmu_query x' y = arch_mmu_query x y) ∧
    ∀ j, 0 ≤ j < n → arch_mmu_query x' (va + j * PAGE_SIZE) = Some (pa + j * PAGE_SIZE, fl) ∨ (ret < 0 ∧ arch_mmu_query x' (va + j * PAGE_SIZE) = arch_mmu_query x (va + j * PAGE_SIZE));
  am_unmap x w va n ret x' w' : arch_mmu_unmap x w va n = (ret, x', w') → page_multiple va → machine_kept w w' ∧ (∀ y, page_multiple y → ¬ va ≤ y < va + n * PAGE_SIZE → arch_mmu_query x' y = arch_mmu_query x y) ∧ ∀ j, 0 ≤ j < n → arch_mmu_query x' (va + j * PAGE_SIZE) = None;
  am_protect x w va n fl ret x' w' : arch_mmu_protect x w va n fl = (ret, x', w') → page_multiple va → machine_kept w w' ∧ (∀ y, page_multiple y → ¬ va ≤ y < va + n * PAGE_SIZE → arch_mmu_query x' y = arch_mmu_query x y) ∧
    ∀ j, 0 ≤ j < n → fst <$> arch_mmu_query x' (va + j * PAGE_SIZE) = fst <$> arch_mmu_query x (va + j * PAGE_SIZE) ∧ (0 ≤ ret → snd <$> arch_mmu_query x' (va + j * PAGE_SIZE) = (λ _, fl) <$> arch_mmu_query x (va + j * PAGE_SIZE)) }.

Context {Hspec : ArchMmuSpec}.

(** ** The invariant of the system *)

(** The regions of an object. *)
Definition refs a (id : Z) : Z := zlen (filter (λ r, r_object r = Some id) (regions_ a)).

(** The offset in the object of an address in a region. *)
Definition vmo_offset (r : region) (va : Z) : Z := u64 (va - r_base r + r_offset r).

(** The page behind an address of a region: one of the object, if the region has one. *)
Definition backed (m : vm) (r : region) (va pa : Z) : Prop :=
  ∀ id, r_object r = Some id → ∃ v n p, vm_objects m !! id = Some (v, n) ∧ entry v (vmo_offset r va / PAGE_SIZE) = Some p ∧ pa = paddr (vm_machine m) p.

Record objects_ok (m : vm) : Prop := {
  oo_world : world_ok (vm_machine m);
  oo_vmo id v n : vm_objects m !! id = Some (v, n) → vmo_ok maps (vm_machine m) v ∧ 1 ≤ n ∧ id < vm_next m;
  oo_disjoint id id' v v' n n' p : vm_objects m !! id = Some (v, n) → vm_objects m !! id' = Some (v', n') → p ∈ owned v → p ∈ owned v' → id = id';
  oo_flags : kmapped maps (vm_machine m) 0 }.

Record vm_inv a (m : vm) : Prop := {
  vi_regions : regions_ok a;
  vi_objects : objects_ok m;
  vi_refs id v n : vm_objects m !! id = Some (v, n) → refs a id ≤ n;
  vi_region r id : r ∈ regions_ a → r_object r = Some id → is_Some (vm_objects m !! id) ∧ page_multiple (r_offset r) ∧ 0 ≤ r_offset r < 2 ^ 64;
  vi_mapped va pa fl : page_multiple va → arch_mmu_query (arch_aspace a) va = Some (pa, fl) → ∃ r, r ∈ regions_ a ∧ r_base r ≤ va < r_end r ∧ backed m r va pa }.

Lemma owned_new flags : owned (VmObject_new flags) = [].
Proof. done. Qed.

(** ** Steps of the machine *)

Lemma kept_vmo w w' v : world_ok w → machine_kept w w' → vmo_ok maps w v → vmo_ok maps w' v ∧ ∀ o, byte v w' o = byte v w o.
Proof. intros Hw Hk Hv. destruct (Hk Hw) as (_ & Hkeep & _). apply (bystander maps (VmObject_new 0) w w' v); [done|done|]. intros p _. rewrite owned_new. apply not_elem_of_nil. Qed.

Lemma kept_geo w w' : world_ok w → machine_kept w w' → geo <$> arenas (m_pmm w') = geo <$> arenas (m_pmm w).
Proof. intros Hw Hk. destruct (Hk Hw) as (_ & [Hg _] & _). done. Qed.

Lemma paddr_geo_w w w' p : geo <$> arenas (m_pmm w') = geo <$> arenas (m_pmm w) → paddr w' p = paddr w p.
Proof. intros Hg. unfold paddr. by apply paddr_of_geo. Qed.

Lemma objects_kept m w' : objects_ok m → machine_kept (vm_machine m) w' → objects_ok (set_machine m w').
Proof.
  intros [O1 O2 O3 O4] Hk. split; cbn [vm_machine set_machine vm_objects vm_next].
  - by destruct (Hk O1).
  - intros id v n Hid. destruct (O2 id v n Hid) as (Hv & ? & ?). split; [|done]. by eapply kept_vmo.
  - done.
  - apply (geo_kmapped maps (vm_machine m)); [by apply kept_geo|done].
Qed.

Lemma backed_kept m w' r va pa : objects_ok m → machine_kept (vm_machine m) w' → backed m r va pa → backed (set_machine m w') r va pa.
Proof.
  intros Ho Hk Hb id Hid. destruct (Hb id Hid) as (v & n & p & H1 & H2 & ->). exists v, n, p. split; [done|]. split; [done|]. cbn [vm_machine set_machine]. symmetry. apply paddr_geo_w. apply kept_geo; [apply Ho|done].
Qed.

(** An object makes steps. *)
Lemma objects_steps m id v n v' w' : objects_ok m → vm_objects m !! id = Some (v, n) → steps maps v (vm_machine m) v' w' → objects_ok (set_object (set_machine m w') id v' n).
Proof.
  intros [O1 O2 O3 O4] Hid Hst. assert (Hoth : ∀ id2 u k, id2 ≠ id → vm_objects m !! id2 = Some (u, k) → vmo_ok maps w' u ∧ ∀ p, p ∈ owned u → p ∉ owned v').
  { intros id2 u k Hne Hu. destruct (steps_others maps _ _ _ _ Hst u (mk_array (size_ u) (byte u (vm_machine m)))) as [[? _ _] ?]; [split; [by eapply O2|done|done]|intros p Hp Hpv; by destruct Hne; eapply O3|done]. }
  split; cbn [vm_machine set_object set_machine vm_objects vm_next].
  - apply (st_world _ _ _ _ _ Hst).
  - intros id2 u k [[<- [= <- <-]]|[Hne Hu]]%lookup_insert_Some; [destruct (O2 id v n Hid) as (_ & ? & ?); split; [apply (st_vmo _ _ _ _ _ Hst)|done]|]. destruct (O2 id2 u k Hu) as (_ & ? & ?). split; [by eapply Hoth|done].
  - intros id1 id2 u1 u2 k1 k2 p [[<- [= <- <-]]|[Hne1 Hu1]]%lookup_insert_Some [[<- [= <- <-]]|[Hne2 Hu2]]%lookup_insert_Some H1 H2; [done|destruct (Hoth id2 u2 k2 (not_eq_sym Hne2) Hu2) as [_ Hd]; by destruct (Hd p H2)|destruct (Hoth id1 u1 k1 (not_eq_sym Hne1) Hu1) as [_ Hd]; by destruct (Hd p H1)|by eapply O3].
  - apply (geo_kmapped maps (vm_machine m)); [apply (st_keeps _ _ _ _ _ Hst)|done].
Qed.

Lemma div_page_nonneg x : 0 ≤ x → 0 ≤ x / PAGE_SIZE.
Proof. intros. apply Z.div_pos; [done|unfold PAGE_SIZE; lia]. Qed.

Lemma vmo_offset_nonneg r va : 0 ≤ vmo_offset r va < 2 ^ 64.
Proof. apply u64_range. Qed.

Lemma backed_steps m id v n v' w' r va pa : vm_objects m !! id = Some (v, n) → steps maps v (vm_machine m) v' w' → backed m r va pa → backed (set_object (set_machine m w') id v' n) r va pa.
Proof.
  intros Hid Hst Hb id2 Hid2. destruct (Hb id2 Hid2) as (u & k & p & H1 & H2 & ->). pose proof (vmo_offset_nonneg r va). assert (Ep : paddr w' p = paddr (vm_machine m) p) by (apply paddr_geo_w, (st_keeps _ _ _ _ _ Hst)). cbn [vm_machine set_object set_machine vm_objects]. destruct (decide (id2 = id)) as [->|Hne].
  - rewrite Hid in H1. injection H1 as <- <-. exists v', n, p. rewrite lookup_insert_eq. split; [done|]. split; [|by rewrite Ep]. apply (st_entries _ _ _ _ _ Hst); [apply div_page_nonneg; lia|done].
  - exists u, k, p. rewrite lookup_insert_ne by done. by rewrite Ep.
Qed.

Lemma inv_steps a m id v n v' w' : vm_inv a m → vm_objects m !! id = Some (v, n) → steps maps v (vm_machine m) v' w' → vm_inv a (set_object (set_machine m w') id v' n).
Proof.
  intros [I1 I2 I3 I4 I5] Hid Hst. split; [done|by eapply objects_steps| | |].
  - cbn [vm_objects set_object set_machine]. intros id2 u k [[<- [= <- <-]]|[Hne Hu]]%lookup_insert_Some; by eapply I3.
  - intros r id2 Hr Hid2. destruct (I4 r id2 Hr Hid2) as [Hs ?]. split; [|done]. cbn [vm_objects set_object set_machine]. destruct (decide (id2 = id)) as [->|]; [rewrite lookup_insert_eq; eauto|by rewrite lookup_insert_ne].
  - intros va pa fl Hva Hq. destruct (I5 va pa fl Hva Hq) as (r & ? & ? & ?). exists r. split; [done|]. split; [done|]. by apply (backed_steps m id v n).
Qed.

(** The unit works: its mappings are old ones, or are backed. *)
Lemma inv_arch a m x' w' : vm_inv a m → machine_kept (vm_machine m) w' → (∀ va pa fl, page_multiple va → arch_mmu_query x' va = Some (pa, fl) → (∃ fl', arch_mmu_query (arch_aspace a) va = Some (pa, fl')) ∨ ∃ r, r ∈ regions_ a ∧ r_base r ≤ va < r_end r ∧ backed m r va pa) → vm_inv (set_arch a x') (set_machine m w').
Proof.
  intros [I1 I2 I3 I4 I5] Hk Hq. split; cbn [regions_ set_arch arch_aspace vm_objects set_machine]; [by apply regions_ok_arch|by apply objects_kept|done|done|]. intros va pa fl Hva Hm. destruct (Hq va pa fl Hva Hm) as [[fl' Hold]|(r & ? & ? & ?)]; [destruct (I5 va pa fl' Hva Hold) as (r & ? & ? & ?)|]; (exists r; split; [done|]; split; [done|]; by apply backed_kept).
Qed.

(** ** References *)

Lemma refs_none a id : refs a id ≤ 0 → ∀ r, r ∈ regions_ a → r_object r ≠ Some id.
Proof.
  unfold refs, zlen. intros Hz r Hr E. assert (Hin : r ∈ filter (λ r, r_object r = Some id) (regions_ a)) by (by apply list_elem_of_filter). destruct (filter _ _); [by apply not_elem_of_nil in Hin|cbn in Hz; lia].
Qed.

Lemma release_ok a m id v n : vm_inv a m → vm_objects m !! id = Some (v, n) → refs a id < n → ∃ m', Release m id = Some m' ∧ vm_inv a m'.
Proof.
  intros [I1 [O1 O2 O3 O4] I3 I4 I5] Hid Hn. unfold Release. rewrite Hid. cbn [mbind option_bind]. destruct (O2 id v n Hid) as (Hv & Hn1 & Hnext). destruct (n =? 1) eqn:E1; zb.
  - destruct (delete_spec maps v (vm_machine m) O1 Hv) as (w' & -> & Hw' & Hr & Hg & Hp). cbn [mbind option_bind]. pose proof (refs_none a id ltac:(lia)) as Hnone. eexists. split; [done|]. split; cbn [vm_objects vm_machine vm_next]; [done| | | |].
    + split; cbn [vm_objects vm_machine vm_next]; [done| |intros id1 id2 u1 u2 k1 k2 p [_ H1]%lookup_delete_Some [_ H2]%lookup_delete_Some; by eapply O3|by eapply geo_kmapped]. intros id2 u k [Hne Hu]%lookup_delete_Some. destruct (O2 id2 u k Hu) as (Hvu & ? & ?). split; [|done]. apply (vmo_frame maps (vm_machine m)); [done|done|]. intros p Hpu. rewrite Hp, decide_False; [done|]. intros Hpv. by apply Hne; eapply O3.
    + intros id2 u k [_ Hu]%lookup_delete_Some. by eapply I3.
    + intros r id2 Hr' Hid2. destruct (I4 r id2 Hr' Hid2) as [? ?]. split; [|done]. rewrite lookup_delete_ne; [done|]. intros <-. by apply (Hnone r).
    + intros va pa fl Hva Hq. destruct (I5 va pa fl Hva Hq) as (r & Hr' & ? & Hb). exists r. split; [done|]. split; [done|]. intros id2 Hid2. destruct (Hb id2 Hid2) as (u & k & p & Hu & ? & ->). exists u, k, p. cbn [vm_objects vm_machine]. split; [rewrite lookup_delete_ne; [done|]; intros <-; by apply (Hnone r)|]. split; [done|]. symmetry. by apply paddr_geo_w.
  - eexists. split; [done|]. assert (Hlk : ∀ id2 u k, <[id := (v, n - 1)]> (vm_objects m) !! id2 = Some (u, k) → ∃ k', vm_objects m !! id2 = Some (u, k') ∧ (k = k' ∨ id2 = id ∧ k = n - 1)) by (intros id2 u k [[<- [= <- <-]]|[Hne Hu]]%lookup_insert_Some; [exists n; tauto|exists k; tauto]). split; cbn [vm_objects vm_machine vm_next set_object]; [done| | | |].
    + split; cbn [vm_objects vm_machine vm_next]; [done| | |done].
      * intros id2 u k (k' & Hu & Hk)%Hlk. destruct (O2 id2 u k' Hu) as (? & ? & ?). split; [done|]. split; [|done]. destruct Hk as [->|[-> ->]]; [done|lia].
      * intros id1 id2 u1 u2 k1 k2 p (k1' & H1 & _)%Hlk (k2' & H2 & _)%Hlk. by eapply O3.
    + intros id2 u k (k' & Hu & Hk)%Hlk. destruct Hk as [->|[-> ->]]; [by eapply I3|lia].
    + intros r id2 Hr Hid2. destruct (I4 r id2 Hr Hid2) as [? ?]. split; [|done]. destruct (decide (id2 = id)) as [->|]; [rewrite lookup_insert_eq; eauto|by rewrite lookup_insert_ne].
    + intros va pa fl Hva Hq. destruct (I5 va pa fl Hva Hq) as (r & Hr' & ? & Hb). exists r. split; [done|]. split; [done|]. intros id2 Hid2. destruct (Hb id2 Hid2) as (u & k & p & Hu & ? & ->). destruct (decide (id2 = id)) as [->|Hne]; [exists v, (n - 1), p; cbn; rewrite lookup_insert_eq; rewrite Hid in Hu; injection Hu as <- <-; done|exists u, k, p; cbn; by rewrite lookup_insert_ne].
Qed.

(** ** Changes of the list *)

Lemma update_region_split a l1 r l2 f : regions_ok a → regions_ a = l1 ++ r :: l2 → update_region (r_base r) f (regions_ a) = l1 ++ f r :: l2.
Proof.
  intros Hok El. assert (Hne : ∀ x, x ∈ l1 ++ l2 → r_base x ≠ r_base r).
  { intros x Hx E. pose proof (rs_sorted _ Hok) as Hs. assert (Hsz : ∀ y, y ∈ regions_ a → 0 < r_size y) by (intros y Hy; apply (rs_each _ Hok y Hy)). rewrite El in Hs, Hsz. apply elem_of_app in Hx as [Hx|Hx].
    - apply list_elem_of_lookup in Hx as [i Hi]. pose proof (lookup_lt_Some _ _ _ Hi). assert (Hb : before x r) by (apply (sorted_lookup _ Hs i (length l1)); [by rewrite lookup_app_l|by apply list_lookup_middle|done]). unfold before, r_end in Hb. pose proof (Hsz x ltac:(apply elem_of_app; left; by eapply list_elem_of_lookup_2)). lia.
    - apply list_elem_of_lookup in Hx as [i Hi]. assert (Hb : before r x) by (apply (sorted_lookup _ Hs (length l1) (length l1 + S i)); [by apply list_lookup_middle|by rewrite lookup_app_r, Nat.add_comm, Nat.add_sub by lia|lia]). unfold before, r_end in Hb. pose proof (Hsz r ltac:(set_solver)). lia. }
  assert (Hid : ∀ l : list region, (∀ x, x ∈ l → r_base x ≠ r_base r) → (λ x, if r_base x =? r_base r then f x else x) <$> l = l).
  { induction l as [|y l IH]; intros Hl; [done|]. rewrite fmap_cons, (proj2 (Z.eqb_neq _ _)) by (apply Hl; by left). f_equal. apply IH. intros x Hx. apply Hl. by right. }
  unfold update_region. rewrite El, fmap_app, fmap_cons, Z.eqb_refl, !Hid; [done|intros x Hx; apply Hne; set_solver|intros x Hx; apply Hne; set_solver].
Qed.

Lemma erase_region_split a l1 r l2 : regions_ok a → regions_ a = l1 ++ r :: l2 → erase_region r (regions_ a) = l1 ++ l2.
Proof.
  intros Hok El. unfold erase_region. assert (Hr : r ∈ regions_ a) by (rewrite El; set_solver). assert (Hnd : NoDup (regions_ a)).
  { apply NoDup_alt. intros i j x Hi Hj. pose proof (rs_sorted _ Hok) as Hs. assert (Hx : 0 < r_size x) by (apply (rs_each _ Hok x); by eapply list_elem_of_lookup_2). destruct (Nat.lt_trichotomy i j) as [Hlt|[->|Hlt]]; [|done|]; [pose proof (sorted_lookup _ Hs i j x x Hi Hj Hlt) as Hb|pose proof (sorted_lookup _ Hs j i x x Hj Hi Hlt) as Hb]; unfold before, r_end in Hb; lia. }
  rewrite (filter_ext_in _ (λ x, x ≠ r)) by (intros x Hx; split; [intros Hb ->; done|intros Hne Hb; by apply Hne, (region_base_inj a)]). rewrite El in Hnd |- *. rewrite filter_app, filter_cons_False by tauto. apply NoDup_app in Hnd as (_ & Hn1 & Hn2). apply list.NoDup_cons in Hn2 as [Hn2 _]. rewrite !filter_ne_id; [done|done|]. intros Hin. apply (Hn1 r Hin). by left.
Qed.

Lemma refs_app l1 l2 id : zlen (filter (λ r, r_object r = Some id) (l1 ++ l2)) = zlen (filter (λ r, r_object r = Some id) l1) + zlen (filter (λ r, r_object r = Some id) l2).
Proof. by rewrite filter_app, zlen_app. Qed.

Lemma refs_cons r l id : zlen (filter (λ r, r_object r = Some id) (r :: l)) = (if decide (r_object r = Some id) then 1 else 0) + zlen (filter (λ r, r_object r = Some id) l).
Proof. destruct (decide (r_object r = Some id)); [rewrite filter_cons_True by done; unfold zlen; cbn; lia|by rewrite filter_cons_False]. Qed.

Lemma same_machine_objects m m1 : same_machine m m1 → objects_ok m → objects_ok m1.
Proof.
  intros (Ep & Er & Eo & En) [O1 O2 O3 O4]. destruct m1 as [[s r mm] o nx]. cbn in *. subst. split; cbn [vm_machine vm_objects vm_next]; [by apply world_mem| |done|by eapply geo_kmapped]. intros id v n Hid. destruct (O2 id v n Hid) as (Hv & ? & ?). split; [|done]. by apply (vmo_frame maps (vm_machine m)).
Qed.

(** A region without an object appears. *)
Lemma inv_add_region a m a1 m1 r l1 l2 : vm_inv a m → same_machine m m1 → same_but_regions a a1 → regions_ok a1 → regions_ a = l1 ++ l2 → regions_ a1 = l1 ++ r :: l2 → r_object r = None → vm_inv a1 m1.
Proof.
  intros [I1 I2 I3 I4 I5] Hm (Eb & Esz & Ef & Ea) Hok El El1 Hr. pose proof Hm as (Ep & Er & Eo & En). assert (Hsub : ∀ x, x ∈ regions_ a → x ∈ regions_ a1) by (intros x; rewrite El, El1; set_solver). split; [done|by eapply same_machine_objects| | |].
  - intros id v n. rewrite Eo. intros Hid. specialize (I3 id v n Hid). unfold refs in *. rewrite El in I3. rewrite El1, refs_app, refs_cons, decide_False by (by rewrite Hr). rewrite refs_app in I3. lia.
  - intros x id Hx Hid. rewrite Eo. apply I4; [|done]. rewrite El1 in Hx. rewrite El. rewrite elem_of_app, elem_of_cons in Hx. destruct Hx as [?|[->|?]]; [set_solver|congruence|set_solver].
  - intros va pa fl Hva. rewrite Ea. intros Hq. destruct (I5 va pa fl Hva Hq) as (x & Hx & ? & Hb). exists x. split; [auto|]. split; [done|]. intros id Hid. destruct (Hb id Hid) as (v & n & p & ? & ? & ->). exists v, n, p. rewrite Eo. split; [done|]. split; [done|]. symmetry. apply paddr_geo_w. by rewrite Ep.
Qed.

(** Nothing is mapped at vacant addresses. *)
Lemma vacant_unmapped a m va size y : vm_inv a m → vacant (regions_ a) va size → page_multiple y → va ≤ y < va + size → arch_mmu_query (arch_aspace a) y = None.
Proof.
  intros Hi Hv Hy Hr. destruct (arch_mmu_query (arch_aspace a) y) as [[pa fl]|] eqn:E; [|done]. destruct (vi_mapped _ _ Hi y pa fl Hy E) as (r & Hin & Hb & _). destruct (Hv r Hin); unfold r_end in *; lia.
Qed.

(** A region gets its object. *)
Lemma set_object_ok a m r id v n offset : vm_inv a m → r ∈ regions_ a → r_object r = None → vm_objects m !! id = Some (v, n) → refs a id < n → page_multiple offset → 0 ≤ offset < 2 ^ 64 → (∀ y, page_multiple y → r_base r ≤ y < r_end r → arch_mmu_query (arch_aspace a) y = None) →
  let r1 := mk_region (r_base r) (r_size r) (r_flags r) (Some id) offset in ∃ a2, SetObject a r id offset = Some (r1, a2) ∧ vm_inv a2 m ∧ r1 ∈ regions_ a2 ∧ same_but_regions a a2.
Proof.
  intros Hi Hr Hobj Hid Hn Hpo Ho Hun r1. unfold SetObject. rewrite (proj2 (page_aligned offset) Hpo), bool_decide_eq_true_2 by done. eexists. split; [done|]. pose proof (list_elem_of_split _ _ Hr) as (l1 & l2 & El). pose proof Hi as [I1 I2 I3 I4 I5]. rewrite (update_region_split a l1 r l2) by done. fold r1.
  assert (Hok : regions_ok (set_regions a (l1 ++ r1 :: l2))) by (assert (Eu : update_region (r_base r) (λ x, mk_region (r_base x) (r_size x) (r_flags x) (Some id) offset) (regions_ a) = l1 ++ r1 :: l2) by (by apply update_region_split); rewrite <- Eu; apply regions_ok_fmap; [done|]; intros x; by destruct (r_base x =? r_base r)). split; [|split; [cbn; set_solver|done]]. split; [done|done| | |].
  - intros id2 u k Hu. specialize (I3 id2 u k Hu). unfold refs in *. cbn [regions_ set_regions]. rewrite El in I3, Hn. rewrite refs_app, refs_cons in *. rewrite decide_False in I3 by (by rewrite Hobj). rewrite decide_False in Hn by (by rewrite Hobj). cbn [r_object r1]. destruct (decide (Some id = Some id2)) as [[= ->]|]; [|lia]. rewrite Hid in Hu. injection Hu as <- <-. lia.
  - intros x id2 Hx Hid2. cbn [regions_ set_regions] in Hx. rewrite elem_of_app, elem_of_cons in Hx. destruct Hx as [?|[->|?]]; [apply I4; [rewrite El; set_solver|done]| |apply I4; [rewrite El; set_solver|done]]. cbn in Hid2. injection Hid2 as <-. split; [eauto|done].
  - intros va pa fl Hva Hq. cbn [arch_aspace set_regions regions_] in *. destruct (I5 va pa fl Hva Hq) as (x & Hx & Hb & Hbk). rewrite El, elem_of_app, elem_of_cons in Hx. destruct Hx as [?|[->|?]]; [exists x; split; [set_solver|done]| |exists x; split; [set_solver|done]]. by rewrite Hun in Hq.
Qed.

Lemma range_page_index r va : page_multiple (r_base r) → page_multiple (r_size r) → page_multiple va → r_base r ≤ va < r_end r → ∃ j, 0 ≤ j < r_size r / PAGE_SIZE ∧ va = r_base r + j * PAGE_SIZE.
Proof.
  unfold page_multiple, r_end. intros Hb Hs Hv Hr. pose proof (Z.div_mod (r_base r) PAGE_SIZE ltac:(done)). pose proof (Z.div_mod (r_size r) PAGE_SIZE ltac:(done)). pose proof (Z.div_mod va PAGE_SIZE ltac:(done)). exists (va / PAGE_SIZE - r_base r / PAGE_SIZE). unfold PAGE_SIZE in *. lia.
Qed.

(** A region goes, with its mappings. *)
Lemma erase_unmap_ok a m r l : vm_inv a m → r ∈ regions_ a → l = erase_region r (regions_ a) → let '(a1, m1) := Unmap (set_regions a l) m r in
  vm_inv a1 m1 ∧ regions_ a1 = l ∧ vm_objects m1 = vm_objects m ∧ (∀ id, r_object r = Some id → refs a1 id = refs a id - 1).
Proof.
  intros Hi Hr ->. pose proof Hi as [I1 I2 I3 I4 I5]. unfold Unmap. cbn [arch_aspace set_regions]. destruct (arch_mmu_unmap _ _ _ _) as [[ret x] w] eqn:E. destruct (rs_each _ I1 r Hr) as [[_ Hpb] [Hsz Hps] _]. destruct (am_unmap _ _ _ _ _ _ _ E Hpb) as (Hk & Hout & Hin). pose proof (list_elem_of_split _ _ Hr) as (l1 & l2 & El). pose proof (erase_region_split a l1 r l2 I1 El) as Ee.
  assert (Hsub : ∀ y, y ∈ erase_region r (regions_ a) → y ∈ regions_ a) by (rewrite Ee, El; set_solver). assert (Hrefs : ∀ id, refs a id = refs (set_arch (set_regions a (erase_region r (regions_ a))) x) id + if decide (r_object r = Some id) then 1 else 0) by (intros id; unfold refs; cbn [regions_ set_arch set_regions]; rewrite Ee, El, !refs_app, refs_cons; lia).
  split; [|split; [done|split; [done|intros id Hid; rewrite (Hrefs id), decide_True by done; lia]]]. split; [by apply regions_ok_arch, regions_ok_erase|by apply objects_kept| | |].
  - intros id v n Hid. specialize (I3 id v n Hid). rewrite Hrefs in I3. destruct (decide _); lia.
  - intros y id Hy. apply I4. by apply Hsub.
  - cbn [arch_aspace set_arch regions_ set_regions]. intros va pa fl Hva Hq. destruct (decide (r_base r ≤ va < r_end r)) as [Hinr|Houtr].
    + destruct (range_page_index r va Hpb Hps Hva Hinr) as (j & Hj & ->). by rewrite Hin in Hq.
    + assert (Esz : r_size r / PAGE_SIZE * PAGE_SIZE = r_size r) by (unfold page_multiple in Hps; pose proof (Z.div_mod (r_size r) PAGE_SIZE ltac:(done)); lia). rewrite Hout in Hq by (try done; rewrite Esz; unfold r_end in *; lia). destruct (I5 va pa fl Hva Hq) as (y & Hy & Hb & Hbk). exists y. split; [|split; [done|by apply backed_kept]]. rewrite Ee. rewrite El, elem_of_app, elem_of_cons in Hy. destruct Hy as [?|[->|?]]; [set_solver|lia|set_solver].
Qed.

(** ** Page faults *)

(** The access is not permitted. *)
Definition denied a (r : region) (pf_flags : Z) : bool :=
  (has_flag pf_flags VMM_PF_FLAG_USER && negb (has_flag (r_flags r) ARCH_MMU_FLAG_PERM_USER)) || (has_flag pf_flags VMM_PF_FLAG_WRITE && has_flag (r_flags r) ARCH_MMU_FLAG_PERM_RO) ||
  (has_flag pf_flags VMM_PF_FLAG_INSTRUCTION && has_flag (r_flags r) ARCH_MMU_FLAG_PERM_NO_EXECUTE) || (negb (has_flag pf_flags VMM_PF_FLAG_NOT_PRESENT) && negb (has_flag pf_flags VMM_PF_FLAG_USER) && is_user a).

Definition same_but_arch a a' : Prop := as_base a' = as_base a ∧ as_size a' = as_size a ∧ as_flags a' = as_flags a ∧ regions_ a' = regions_ a.

Lemma rounddown_region a r va : regions_ok a → r ∈ regions_ a → r_base r ≤ va < r_end r → let y := ROUNDDOWN va PAGE_SIZE in page_multiple y ∧ r_base r ≤ y < r_end r ∧ y ≤ va < y + PAGE_SIZE.
Proof.
  intros Hok Hr Hva y. destruct (rs_each _ Hok r Hr) as [[_ Hb] _ _]. unfold page_multiple in *. assert (Ey : y = va / PAGE_SIZE * PAGE_SIZE) by apply rounddown_page. pose proof (Z.div_mod va PAGE_SIZE ltac:(done)). pose proof (Z.mod_pos_bound va PAGE_SIZE ltac:(done)). pose proof (Z.div_mod (r_base r) PAGE_SIZE ltac:(done)). split; [rewrite Ey; by apply Z.mod_mul|]. unfold PAGE_SIZE in *. lia.
Qed.

(** Mapping the page that belongs to an address. *)
Lemma inv_map_page a m r va pa fl ret x w : vm_inv a m → r ∈ regions_ a → r_base r ≤ va < r_end r → page_multiple va → backed m r va pa → arch_mmu_map (arch_aspace a) (vm_machine m) va pa 1 fl = (ret, x, w) →
  vm_inv (set_arch a x) (set_machine m w) ∧ (0 ≤ ret → arch_mmu_query x va = Some (pa, fl)).
Proof.
  intros Hi Hr Hb Hva Hbk E. destruct (am_map _ _ _ _ _ _ _ _ _ E Hva) as (Hk & Hout & Hin). specialize (Hin 0 ltac:(lia)). rewrite !Z.mul_0_l, !Z.add_0_r in Hin. split; [|intros Hret; destruct Hin as [?|[? _]]; [done|lia]]. apply inv_arch; [done|done|]. intros y py fy Hy Hq. destruct (decide (y = va)) as [->|Hne].
  - destruct Hin as [Hin|[_ Hin]]; rewrite Hin in Hq; [injection Hq as <- <-; right; by exists r|left; eauto].
  - rewrite Hout in Hq; [left; eauto|done|]. unfold page_multiple in *. pose proof (Z.div_mod va PAGE_SIZE ltac:(done)). pose proof (Z.div_mod y PAGE_SIZE ltac:(done)). unfold PAGE_SIZE in *. lia.
Qed.

Lemma inv_protect a m va n fl ret x w : vm_inv a m → page_multiple va → 0 ≤ n → arch_mmu_protect (arch_aspace a) (vm_machine m) va n fl = (ret, x, w) → vm_inv (set_arch a x) (set_machine m w) ∧
  ∀ j pa fl', 0 ≤ j < n → 0 ≤ ret → arch_mmu_query (arch_aspace a) (va + j * PAGE_SIZE) = Some (pa, fl') → arch_mmu_query x (va + j * PAGE_SIZE) = Some (pa, fl).
Proof.
  intros Hi Hva Hn E. destruct (am_protect _ _ _ _ _ _ _ _ E Hva) as (Hk & Hout & Hin). split.
  - apply inv_arch; [done|done|]. intros y py fy Hy Hq. left. destruct (decide (va ≤ y < va + n * PAGE_SIZE)) as [Hr|Hr]; [|rewrite Hout in Hq by done; eauto].
    assert (∃ j, 0 ≤ j < n ∧ y = va + j * PAGE_SIZE) as (j & Hj & ->) by (unfold page_multiple in *; pose proof (Z.div_mod va PAGE_SIZE ltac:(done)); pose proof (Z.div_mod y PAGE_SIZE ltac:(done)); exists (y / PAGE_SIZE - va / PAGE_SIZE); unfold PAGE_SIZE in *; lia). destruct (Hin j Hj) as [Hf _]. rewrite Hq in Hf. cbn in Hf. destruct (arch_mmu_query (arch_aspace a) (va + j * PAGE_SIZE)) as [[p' f']|]; [|done]. cbn in Hf. injection Hf as <-. eauto.
  - intros j pa fl' Hj Hret Hq. destruct (Hin j Hj) as [Hf Hs]. specialize (Hs Hret). rewrite Hq in Hf, Hs. cbn in Hf, Hs. destruct (arch_mmu_query x (va + j * PAGE_SIZE)) as [[p' f']|]; [|done]. cbn in Hf, Hs. congruence.
Qed.

Lemma page_fault_ok a m r va pf : vm_inv a m → r ∈ regions_ a → r_base r ≤ va < r_end r → let y := ROUNDDOWN va PAGE_SIZE in
  ∃ st a' m', Region_PageFault maps a m r va pf = Some (st, a', m') ∧ vm_inv a' m' ∧ same_but_arch a a' ∧
    (if denied a r pf then st = ERR_ACCESS_DENIED ∧ a' = a ∧ m' = m else (st = ERR_NO_MEMORY ∨ st = NO_ERROR)) ∧
    (st = NO_ERROR → ∃ id v n p, r_object r = Some id ∧ vm_objects m' !! id = Some (v, n) ∧ entry v (vmo_offset r y / PAGE_SIZE) = Some p ∧ arch_mmu_query (arch_aspace a') y = Some (paddr (vm_machine m') p, r_flags r)) ∧
    (∀ id v n, vm_objects m !! id = Some (v, n) → ∃ v', vm_objects m' !! id = Some (v', n) ∧ ∀ o, 0 ≤ o → byte v' (vm_machine m') o = byte v (vm_machine m) o).
Proof.
  intros Hi Hr Hva y. pose proof (vi_regions _ _ Hi) as Hok. destruct (rounddown_region a r va Hok Hr Hva) as (Hy & Hyr & _). fold y in Hy, Hyr. unfold Region_PageFault. rewrite (r_last_ok a r (rs_aspace _ Hok) (rs_each _ Hok r Hr)). rewrite (proj2 (Z.leb_le (r_base r) va)), (proj2 (Z.leb_le va (r_end r - 1))) by lia. cbn [andb]. fold y. fold (vmo_offset r y). unfold denied.
  destruct (has_flag pf VMM_PF_FLAG_USER && negb _) eqn:D1; cbn [orb]; [eexists _, a, m; split; [done|]; split_and!; try done; eauto|]. destruct (has_flag pf VMM_PF_FLAG_WRITE && _) eqn:D2; cbn [orb]; [eexists _, a, m; split; [done|]; split_and!; try done; eauto|]. destruct (has_flag pf VMM_PF_FLAG_INSTRUCTION && _) eqn:D3; cbn [orb]; [eexists _, a, m; split; [done|]; split_and!; try done; eauto|].
  destruct (negb (has_flag pf VMM_PF_FLAG_NOT_PRESENT) && _ && is_user a) eqn:D4; cbn [orb]; [eexists _, a, m; split; [done|]; split_and!; try done; eauto|]. destruct (r_object r) as [id|] eqn:Eo; [|eexists _, a, m; split; [done|]; split_and!; try done; [by left|eauto]]. destruct (vi_region _ _ Hi r id Hr Eo) as ([[v n] Hid] & _). rewrite Hid. cbn [mbind option_bind].
  pose proof (vi_objects _ _ Hi) as Hobj. destruct (oo_vmo _ Hobj id v n Hid) as (Hv & _). pose proof (vmo_offset_nonneg r y) as Hoff. destruct (fault_ok maps (vm_machine m) v (vmo_offset r y) (oo_world _ Hobj) Hv ltac:(lia)) as (q & v1 & w1 & Ef & Hst & Hb & Hq). unfold FaultPage. rewrite Ef. cbn [mbind option_bind]. set (m1 := set_object (set_machine m w1) id v1 n). pose proof (inv_steps a m id v n v1 w1 Hi Hid Hst) as Hi1. fold m1 in Hi1.
  assert (Hbytes : ∀ id2 u k, vm_objects m !! id2 = Some (u, k) → ∃ u', vm_objects m1 !! id2 = Some (u', k) ∧ ∀ o, 0 ≤ o → byte u' w1 o = byte u (vm_machine m) o).
  { intros id2 u k Hu. unfold m1. cbn [vm_objects set_object set_machine]. destruct (decide (id2 = id)) as [->|Hne]; [rewrite Hid in Hu; injection Hu as <- <-; exists v1; by rewrite lookup_insert_eq|]. exists u. rewrite lookup_insert_ne by done. split; [done|]. intros o _. destruct (oo_vmo _ Hobj id2 u k Hu) as (Hu' & _). apply (bystander maps v (vm_machine m) w1 u (st_keeps _ _ _ _ _ Hst) Hu'). intros p Hp Hp'. by apply Hne; eapply (oo_disjoint _ Hobj). }
  assert (Hkept : ∀ w2, machine_kept w1 w2 → ∀ id2 u k, vm_objects m !! id2 = Some (u, k) → ∃ u', vm_objects m1 !! id2 = Some (u', k) ∧ ∀ o, 0 ≤ o → byte u' w2 o = byte u (vm_machine m) o).
  { intros w2 Hk id2 u k Hu. destruct (Hbytes id2 u k Hu) as (u' & Hu' & Hbu). exists u'. split; [done|]. intros o Ho. rewrite <- Hbu by done. destruct (oo_vmo _ (vi_objects _ _ Hi1) id2 u' k Hu') as (Hvu & _). apply (kept_vmo w1 w2 u' (st_world _ _ _ _ _ Hst) Hk Hvu). }
  destruct q as [p|]; [|eexists _, a, m1; split; [done|]; split_and!; try done; by left]. destruct Hq as (_ & Ee & _). assert (Hlk : vm_objects m1 !! id = Some (v1, n)) by (unfold m1; cbn; by rewrite lookup_insert_eq). fold (paddr w1 p). assert (Hbk : backed m1 r y (paddr w1 p)) by (intros id2 Hid2; rewrite Eo in Hid2; injection Hid2 as <-; by exists v1, n, p).
  destruct (arch_mmu_query (arch_aspace a) y) as [[pa fl]|] eqn:Eq.
  - destruct (vi_mapped _ _ Hi1 y pa fl Hy Eq) as (r' & Hr' & Hyr' & Hbk'). assert (r' = r) as -> by (by apply (region_unique a r' r y)). destruct (Hbk' id Eo) as (v2 & n2 & p2 & H2 & Ee2 & ->). rewrite Hlk in H2. injection H2 as <- <-. rewrite Ee in Ee2. injection Ee2 as <-. rewrite Z.eqb_refl. destruct (fl =? r_flags r) eqn:Efl; zb.
    + subst fl. exists NO_ERROR, a, m1. split; [done|]. split_and!; try done; [by right|]. intros _. by exists id, v1, n, p.
    + destruct (arch_mmu_protect _ _ _ _ _) as [[ret x] w2] eqn:Ep. destruct (inv_protect a m1 y 1 (r_flags r) ret x w2 Hi1 Hy ltac:(lia) Ep) as [Hi2 Hfl]. destruct (am_protect _ _ _ _ _ _ _ _ Ep Hy) as (Hk & _). eexists _, _, _. split; [done|]. split; [done|]. split; [done|]. split; [destruct (ret <? 0); [by left|by right]|]. split; [|by apply Hkept].
      destruct (ret <? 0) eqn:Eret; zb; [done|]. intros _. exists id, v1, n, p. split; [done|]. split; [done|]. split; [done|]. cbn [arch_aspace set_arch vm_machine set_machine]. rewrite (paddr_geo_w w1 w2) by (apply kept_geo; [apply (st_world _ _ _ _ _ Hst)|done]). specialize (Hfl 0 (paddr w1 p) fl ltac:(lia) Eret). rewrite Z.mul_0_l, Z.add_0_r in Hfl. auto.
  - destruct (arch_mmu_map _ _ _ _ _ _) as [[ret x] w2] eqn:Em. destruct (inv_map_page a m1 r y (paddr w1 p) (r_flags r) ret x w2 Hi1 Hr Hyr Hy Hbk Em) as [Hi2 Hfl]. destruct (am_map _ _ _ _ _ _ _ _ _ Em Hy) as (Hk & _). eexists _, _, _. split; [done|]. split; [done|]. split; [done|]. split; [destruct (ret <? 0); [by left|by right]|]. split; [|by apply Hkept].
    destruct (ret <? 0) eqn:Eret; zb; [done|]. intros _. exists id, v1, n, p. split; [done|]. split; [done|]. split; [done|]. cbn [arch_aspace set_arch vm_machine set_machine]. rewrite (paddr_geo_w w1 w2) by (apply kept_geo; [apply (st_world _ _ _ _ _ Hst)|done]). auto.
Qed.

(** ** Mapping a whole range *)

Lemma pages_of_multiple i m : 0 < m ≤ PAGE_SIZE → pages_of (i * PAGE_SIZE + m) = i + 1.
Proof. intros Hm. unfold pages_of. symmetry. apply (Z.div_unique _ _ _ (m - 1)); unfold PAGE_SIZE in *; lia. Qed.

(** The commitment of one page that is missing. *)
Lemma commit_one v w off : world_ok w → vmo_ok maps w v → 0 ≤ off < 2 ^ 64 → page_multiple off → (off < size_ v → entry v (off / PAGE_SIZE) = None) →
  ∃ c v1 w1, CommitRange maps v w off PAGE_SIZE = Some (c, v1, w1) ∧ steps maps v w v1 w1 ∧ (c = PAGE_SIZE → off < size_ v ∧ is_Some (entry v1 (off / PAGE_SIZE))).
Proof.
  intros Hw Hv Ho Hpm He. pose proof (small_size maps w v Hv) as Hsz. assert (Eo : off = off / PAGE_SIZE * PAGE_SIZE) by (unfold page_multiple in Hpm; pose proof (Z.div_mod off PAGE_SIZE ltac:(done)); lia). destruct (span v off PAGE_SIZE) as [m|] eqn:Es.
  - destruct (span_Some v off PAGE_SIZE m Ho ltac:(unfold is_u64, PAGE_SIZE; lia) Es) as [Hm Hend]. destruct (m =? 0) eqn:E0; zb.
    + subst m. exists 0, v, w. split; [unfold CommitRange; by rewrite trim_span, Es by (done || (unfold is_u64, PAGE_SIZE; lia))|]. split; [by apply steps_refl|]. intros E. unfold PAGE_SIZE in E. lia.
    + pose proof (commit_spec maps v w off PAGE_SIZE m Hw Hv Ho ltac:(unfold is_u64, PAGE_SIZE; lia) Es ltac:(lia)) as Hc. cbv zeta in Hc. assert (En : pages_of (off + m) - off / PAGE_SIZE = 1) by (rewrite Eo at 1; rewrite pages_of_multiple by lia; lia). rewrite En in Hc. assert (Ek : missing v (off / PAGE_SIZE) 1 = 1) by (apply missing_full; [lia|]; intros j Hj; replace j with (off / PAGE_SIZE) by lia; apply He; lia). rewrite Ek in Hc. change (1 =? 0) with false in Hc. change (1 <? 1) with false in Hc. cbv iota in Hc.
      destruct (first_free _ _ <? 1); [destruct Hc as (w' & E & Hst & _); exists ERR_NO_MEMORY, v, w'; split; [done|]; split; [done|done]|]. destruct Hc as (v' & w' & E & Hst & _ & Hcov). exists m, v', w'. split; [done|]. split; [done|]. intros _. split; [lia|]. apply Hcov. unfold covered. lia.
  - exists ERR_OUT_OF_RANGE, v, w. split; [unfold CommitRange; by rewrite trim_span, Es by (done || (unfold is_u64, PAGE_SIZE; lia))|]. split; [by apply steps_refl|done].
Qed.

Lemma get_page_ok w v off : vmo_ok maps w v → 0 ≤ off → GetPage v off = Some (if off <? size_ v then entry v (off / PAGE_SIZE) else None).
Proof.
  intros Hv Ho. unfold GetPage. rewrite Z.leb_antisym. destruct (off <? size_ v) eqn:E; zb; cbn [negb]; [|done]. unfold OffsetToIndex. apply (page_at_index_ok maps v w); [done|]. by apply (index_bound maps v w).
Qed.

Lemma page_multiple_add x y : page_multiple x → page_multiple y → page_multiple (x + y).
Proof. unfold page_multiple. intros Hx Hy. by rewrite Zplus_mod, Hx, Hy. Qed.

Lemma page_multiple_mul k : page_multiple (k * PAGE_SIZE).
Proof. by apply Z.mod_mul. Qed.

Lemma page_multiple_u64 x : page_multiple x → page_multiple (u64 x).
Proof. apply u64_mod_page. Qed.

Definition keeps_objects (m m' : vm) : Prop := ∀ id v n, vm_objects m !! id = Some (v, n) → ∃ v', vm_objects m' !! id = Some (v', n).

(** The loop of [MapRange], from the page [k] on. *)
Lemma map_loop_ok r id commit fuel : ∀ a m k, vm_inv a m → r ∈ regions_ a → r_object r = Some id → 0 ≤ k → k * PAGE_SIZE ≤ r_size r → r_size r / PAGE_SIZE - k < Z.of_nat fuel →
  ∃ st a' m', map_loop maps fuel a m r id (k * PAGE_SIZE) (r_size r) commit = Some (st, a', m') ∧ vm_inv a' m' ∧ same_but_arch a a' ∧ keeps_objects m m'.
Proof.
  induction fuel as [|fuel IH]; intros a m k Hi Hr Hobj Hk Hle Hf; destruct (rs_each _ (vi_regions _ _ Hi) r Hr) as [[Hb Hpb] [Hs Hps] He]; (assert (Esz : r_size r = r_size r / PAGE_SIZE * PAGE_SIZE) by (unfold page_multiple in Hps; pose proof (Z.div_mod (r_size r) PAGE_SIZE ltac:(done)); lia)); [unfold PAGE_SIZE in *; lia|]. cbn [map_loop].
  destruct (k * PAGE_SIZE <? r_size r) eqn:Elt; zb; [|exists NO_ERROR, a, m; split; [done|]; split; [done|]; split; [done|]; intros ? ? ? ?; eauto]. pose proof (rs_aspace _ (vi_regions _ _ Hi)) as Has. pose proof (ao_end _ Has) as Hend. pose proof (ao_base _ Has) as [Hab _]. pose proof (ao_size _ Has) as [Has' _]. assert (Hrs : r_size r < 2 ^ 64) by (unfold r_end, as_end in *; lia). assert (Hk1 : (k + 1) * PAGE_SIZE ≤ r_size r) by (unfold PAGE_SIZE in *; lia).
  destruct (vi_region _ _ Hi r id Hr Hobj) as ([[v n] Hid] & Hpo & Hoff). destruct (oo_vmo _ (vi_objects _ _ Hi) id v n Hid) as (Hv & _). set (va := r_base r + k * PAGE_SIZE). assert (Eva : u64 va = va) by (apply u64_id; unfold va, is_u64, r_end, PAGE_SIZE in *; lia). assert (Evo : u64 (r_offset r + k * PAGE_SIZE) = vmo_offset r va) by (unfold vmo_offset, va; f_equal; lia).
  assert (Enx : ∀ x y z, map_loop maps fuel x y r id (u64 (k * PAGE_SIZE + PAGE_SIZE)) (r_size r) z = map_loop maps fuel x y r id ((k + 1) * PAGE_SIZE) (r_size r) z) by (intros; f_equal; rewrite u64_id by (unfold is_u64, r_end, PAGE_SIZE in *; lia); lia). assert (Hvam : page_multiple va) by (apply page_multiple_add; [done|apply page_multiple_mul]). assert (Hvar : r_base r ≤ va < r_end r) by (unfold va, r_end, PAGE_SIZE in *; lia).
  assert (Hpov : page_multiple (vmo_offset r va)) by (unfold vmo_offset; apply page_multiple_u64, page_multiple_add; [unfold va; replace (r_base r + k * PAGE_SIZE - r_base r) with (k * PAGE_SIZE) by lia; apply page_multiple_mul|done]). pose proof (vmo_offset_nonneg r va) as Hvo.
  assert (Hmap : ∀ m1 v1 p, vm_inv a m1 → keeps_objects m m1 → vm_objects m1 !! id = Some (v1, n) → entry v1 (vmo_offset r va / PAGE_SIZE) = Some p → ∃ st a' m', (let '(_, x, w) := arch_mmu_map (arch_aspace a) (vm_machine m1) va (vm_page_to_paddr (m_pmm (vm_machine m1)) p) 1 (r_flags r) in map_loop maps fuel (set_arch a x) (set_machine m1 w) r id ((k + 1) * PAGE_SIZE) (r_size r) commit) = Some (st, a', m') ∧ vm_inv a' m' ∧ same_but_arch a a' ∧ keeps_objects m m').
  { intros m1 v1 p Hi1 Hko Hid1 Ee. fold (paddr (vm_machine m1) p). destruct (arch_mmu_map _ _ _ _ _ _) as [[ret x] w2] eqn:Em. assert (Hbk : backed m1 r va (paddr (vm_machine m1) p)) by (intros id2 Hid2; rewrite Hobj in Hid2; injection Hid2 as <-; by exists v1, n, p). destruct (inv_map_page a m1 r va _ _ ret x w2 Hi1 Hr Hvar Hvam Hbk Em) as [Hi2 _].
    destruct (IH (set_arch a x) (set_machine m1 w2) (k + 1) Hi2 Hr Hobj ltac:(lia) Hk1 ltac:(lia)) as (st & a' & m' & E & ? & ? & Hko'). exists st, a', m'. split; [done|]. split; [done|]. split; [done|]. intros i2 u k2 Hu. destruct (Hko i2 u k2 Hu) as [u' Hu']. by apply (Hko' i2 u' k2). }
  assert (Hrefl : keeps_objects m m) by (intros ? ? ? ?; eauto). rewrite Evo, Eva, Hid. cbn [mbind option_bind]. rewrite (get_page_ok (vm_machine m) v) by (done || lia). cbn [mbind option_bind]. destruct (if vmo_offset r va <? size_ v then entry v (vmo_offset r va / PAGE_SIZE) else None) as [p|] eqn:Eq.
  - destruct (Hmap m v p) as (st & a' & m' & E & ?); [done|done|done|by destruct (vmo_offset r va <? size_ v)|]. exists st, a', m'. split; [|done]. rewrite <- E. destruct (arch_mmu_map _ _ _ _ _ _) as [[? ?] ?]. apply Enx.
  - destruct commit; cbn [negb]; [|rewrite Enx; destruct (IH a m (k + 1) Hi Hr Hobj ltac:(lia) Hk1 ltac:(lia)) as (st & a' & m' & E & ?); by exists st, a', m'].
    destruct (commit_one v (vm_machine m) (vmo_offset r va) (oo_world _ (vi_objects _ _ Hi)) Hv Hvo Hpov) as (c & v1 & w1 & -> & Hst & Hc); [intros Hlt; by rewrite (proj2 (Z.ltb_lt _ _) Hlt) in Eq|]. cbn [mbind option_bind]. pose proof (inv_steps a m id v n v1 w1 Hi Hid Hst) as Hi1. set (m1 := set_object (set_machine m w1) id v1 n) in *.
    assert (Hko : keeps_objects m m1) by (intros i2 u k2 Hu; unfold m1; cbn; destruct (decide (i2 = id)) as [->|]; [rewrite lookup_insert_eq; rewrite Hid in Hu; injection Hu as <- <-; eauto|rewrite lookup_insert_ne by done; eauto]). destruct (c =? PAGE_SIZE) eqn:Ec; cbn [negb]; zb; [|eexists _, a, m1; split; [done|]; by split_and!]. destruct (Hc Ec) as [Hlt [p Hp]]. destruct (st_size _ _ _ _ _ Hst) as [Es _].
    rewrite (get_page_ok w1 v1) by (apply (st_vmo _ _ _ _ _ Hst) || lia). rewrite Es, (proj2 (Z.ltb_lt _ _) Hlt), Hp. cbn [mbind option_bind]. destruct (Hmap m1 v1 p) as (st & a' & m' & E & ?); [done|done|unfold m1; cbn; by rewrite lookup_insert_eq|done|]. exists st, a', m'. split; [|done]. rewrite <- E. destruct (arch_mmu_map _ _ _ _ _ _) as [[? ?] ?]. apply Enx.
Qed.

Lemma map_range_ok a m r id commit : vm_inv a m → r ∈ regions_ a → r_object r = Some id → ∃ st a' m', MapRange maps a m r 0 (r_size r) commit = Some (st, a', m') ∧ vm_inv a' m' ∧ same_but_arch a a' ∧ keeps_objects m m'.
Proof.
  intros Hi Hr Hobj. destruct (rs_each _ (vi_regions _ _ Hi) r Hr) as [[Hb _] [Hs Hps] He]. pose proof (rs_aspace _ (vi_regions _ _ Hi)) as Has. pose proof (ao_end _ Has) as Hend. pose proof (ao_base _ Has) as [Hab _]. pose proof (ao_size _ Has) as [Has' _]. unfold MapRange. rewrite (proj2 (page_aligned 0)), (proj2 (page_aligned (r_size r))), Hobj by done. cbn [mbind option_bind]. rewrite Z.add_0_l, u64_id by (unfold is_u64, r_end, as_end in *; lia).
  apply (map_loop_ok r id commit _ a m 0); try done; [lia|]. pose proof (Z.div_pos (r_size r) PAGE_SIZE ltac:(lia) ltac:(done)). lia.
Qed.

(** ** The operations keep the invariant *)

Lemma roundup_page_cases size : 0 ≤ size < 2 ^ 64 → let s := ROUNDUP size PAGE_SIZE in s = 0 ∨ (0 < s < 2 ^ 64 ∧ page_multiple s ∧ size ≤ s).
Proof.
  intros Hs s. change PAGE_SIZE with (2 ^ 12) in s. destruct (decide (size + (2 ^ 12 - 1) < 2 ^ 64)) as [Hn|Hw].
  - destruct (roundup_pow2_spec size 12 ltac:(lia) ltac:(lia) Hn) as (Hb & Hm & _). fold s in Hb, Hm. destruct (decide (s = 0)); [by left|right]. assert (s < 2 ^ 64) by (pose proof (roundup_pow2 size 12 ltac:(lia) ltac:(lia) Hn) as E; fold s in E; pose proof (Z.mul_div_le (size + (2 ^ 12 - 1)) (2 ^ 12) ltac:(lia)); lia). split; [lia|]. split; [exact Hm|lia].
  - left. apply roundup_wrap; lia.
Qed.

Lemma inv_same_machine a m m1 : vm_inv a m → same_machine m m1 → vm_inv a m1.
Proof.
  intros [I1 I2 I3 I4 I5] Hm. pose proof Hm as (Ep & Er & Eo & En). split; [done|by eapply same_machine_objects|intros id v n; rewrite Eo; apply I3|intros r id; rewrite Eo; apply I4|]. intros va pa fl Hva Hq. destruct (I5 va pa fl Hva Hq) as (x & Hx & ? & Hb). exists x. split; [done|]. split; [done|]. intros id Hid. destruct (Hb id Hid) as (v & n & p & ? & ? & ->). exists v, n, p. rewrite Eo. split; [done|]. split; [done|]. symmetry. apply paddr_geo_w. by rewrite Ep.
Qed.

(** The address that the caller asks for. *)
Lemma specific_ok vf ptr vaddr : (∀ x, ptr = Some x → 0 ≤ x < 2 ^ 64) → specific vf ptr = Some vaddr → 0 ≤ vaddr < 2 ^ 64 ∧ page_multiple vaddr.
Proof.
  intros Hp. unfold specific. destruct (has_flag vf VMM_FLAG_VALLOC_SPECIFIC); [|intros [= <-]; done]. destruct ptr as [x|]; [|done]. cbn [mbind option_bind]. destruct (IS_PAGE_ALIGNED x) eqn:E; [|done]. intros [= <-]. split; [by apply Hp|by apply page_aligned].
Qed.

Definition u64_ptr (ptr : option Z) : Prop := ∀ x, ptr = Some x → 0 ≤ x < 2 ^ 64.

Lemma map_object_ok a m id v n offset size ptr al vf mf : vm_inv a m → vm_objects m !! id = Some (v, n) → refs a id < n → 0 ≤ offset < 2 ^ 64 → 0 ≤ size < 2 ^ 64 → u64_ptr ptr → al < 64 →
  ∃ st ptr' a' m', MapObject maps a m (Some id) offset size ptr al vf mf = Some (st, ptr', a', m') ∧ vm_inv a' m' ∧
    (st = NO_ERROR → has_flag vf VMM_FLAG_COMMIT = false → ∃ r, r ∈ regions_ a' ∧ r_size r = ROUNDUP size PAGE_SIZE ∧ r_object r = Some id ∧ r_offset r = offset ∧ r_flags r = mf ∧ ptr' = (λ _, r_base r) <$> ptr ∧ vacant (regions_ a) (r_base r) (r_size r)).
Proof.
  intros Hi Hid Hn Ho Hs Hp Hal. unfold MapObject. cbn [release_opt]. assert (Hfail : ∀ err, err ≠ NO_ERROR → ∃ st ptr' a' m', (m1 ← Release m id; Some (err, ptr, a, m1)) = Some (st, ptr', a', m') ∧ vm_inv a' m' ∧ st ≠ NO_ERROR) by (intros err Herr; destruct (release_ok a m id v n Hi Hid Hn) as (m' & -> & ?); by eexists err, ptr, a, m').
  destruct (roundup_page_cases size Hs) as [Hz|(Hpos & Hpm & _)]; [rewrite (proj2 (Z.eqb_eq _ _) Hz); destruct (Hfail ERR_INVALID_ARGS) as (st & p' & a' & m' & E & ? & ?); [done|]; by exists st, p', a', m'|]. set (sz := ROUNDUP size PAGE_SIZE) in *. rewrite (proj2 (Z.eqb_neq sz 0)) by lia.
  destruct (IS_PAGE_ALIGNED offset) eqn:Eoff; cbn [negb]; [|destruct (Hfail ERR_INVALID_ARGS) as (st & p' & a' & m' & E & ? & ?); [done|]; by exists st, p', a', m']. destruct (specific vf ptr) as [vaddr|] eqn:Esp; [|destruct (Hfail ERR_INVALID_ARGS) as (st & p' & a' & m' & E & ? & ?); [done|]; by exists st, p', a', m'].
  destruct (specific_ok vf ptr vaddr Hp Esp) as [Hv Hvm]. destruct (alloc_region_ok a m sz vaddr al vf mf (vi_regions _ _ Hi) Hpos Hpm Hv Hvm Hal) as (r & a1 & m1 & -> & Hsm & Hsb & Hok1 & Hr). cbn [mbind option_bind]. pose proof Hsm as (_ & _ & Eo & _). destruct r as [r|].
  2:{ subst a1. pose proof (inv_same_machine a m m1 Hi Hsm) as Hi1. rewrite <- Eo in Hid. destruct (release_ok a m1 id v n Hi1 Hid Hn) as (m' & -> & ?). cbn [mbind option_bind]. by eexists ERR_NO_MEMORY, ptr, a, m'. }
  destruct Hr as (Ers & Erf & Ero & Hvac & (l1 & l2 & El & El1) & _). pose proof (inv_add_region a m a1 m1 r l1 l2 Hi Hsm Hsb Hok1 El El1 Ero) as Hi1. assert (Hin : r ∈ regions_ a1) by (rewrite El1; set_solver). assert (Hn1 : refs a1 id < n) by (unfold refs in *; rewrite El1, refs_app, refs_cons, decide_False by (by rewrite Ero); rewrite El, refs_app in Hn; lia).
  destruct (set_object_ok a1 m1 r id v n offset Hi1 Hin Ero) as (a2 & -> & Hi2 & Hin2 & _); [by rewrite Eo|done|by apply page_aligned|done| |].
  { intros y Hy Hyr. destruct Hsb as (_ & _ & _ & ->). apply (vacant_unmapped a m (r_base r) sz y Hi Hvac Hy). unfold r_end in Hyr. rewrite Ers in Hyr. done. }
  cbn [mbind option_bind]. set (r1 := mk_region (r_base r) (r_size r) (r_flags r) (Some id) offset) in *. destruct (has_flag vf VMM_FLAG_COMMIT).
  - assert (Er1 : r_size r1 = sz) by done. rewrite <- Er1. destruct (map_range_ok a2 m1 r1 id true Hi2 Hin2 eq_refl) as (st & a3 & m3 & -> & Hi3 & _). cbn [mbind option_bind]. destruct (st <? 0); [eexists st, ptr, a3, m3|eexists NO_ERROR, _, a3, m3]; (split; [done|]; split; [done|]; intros _ ?; done).
  - eexists NO_ERROR, _, a2, m1. split; [done|]. split; [done|]. intros _ _. exists r1. cbn [r_size r_object r_offset r_flags r_base r1]. rewrite Ers. split_and!; done.
Qed.

(** Physical memory in a region without an object. *)
Lemma map_physical_ok a m r len pa remap : vm_inv a m → r ∈ regions_ a → r_object r = None → len = r_size r → ∃ st a' m', MapPhysicalRange a m r 0 len pa remap = Some (st, a', m') ∧ vm_inv a' m' ∧ same_but_arch a a'.
Proof.
  intros Hi Hr Hobj ->. destruct (rs_each _ (vi_regions _ _ Hi) r Hr) as [[Hb Hpb] [Hs Hps] He]. pose proof (rs_aspace _ (vi_regions _ _ Hi)) as Has. pose proof (ao_end _ Has) as Hend. pose proof (ao_base _ Has) as [Hab _]. pose proof (ao_size _ Has) as [Has' _]. unfold MapPhysicalRange. rewrite (proj2 (page_aligned 0)), (proj2 (page_aligned (r_size r))), bool_decide_eq_true_2 by done.
  assert (Et : TrimRange 0 (r_size r) (r_size r) = Some (r_size r)) by (unfold TrimRange; rewrite Z.add_0_l, u64_id by (unfold is_u64, r_end, as_end in *; lia); rewrite (proj2 (Z.ltb_ge (r_size r) 0)), (proj2 (Z.ltb_ge (r_size r) (r_size r))) by lia; done). rewrite Et, Z.add_0_r, u64_id by (unfold is_u64, r_end in *; lia). assert (Ebk : ∀ m0 va0 pa0, backed m0 r va0 pa0) by (intros m0 va0 pa0 id0 Hid0; congruence). set (cnt := r_size r / PAGE_SIZE). assert (Ecnt : cnt * PAGE_SIZE = r_size r) by (unfold cnt, page_multiple in *; pose proof (Z.div_mod (r_size r) PAGE_SIZE ltac:(done)); lia).
  assert (Hmap : ∀ a0 m0, vm_inv a0 m0 → regions_ a0 = regions_ a → ∀ ret x w, arch_mmu_map (arch_aspace a0) (vm_machine m0) (r_base r) pa cnt (r_flags r) = (ret, x, w) → vm_inv (set_arch a0 x) (set_machine m0 w)).
  { intros a0 m0 Hi0 Er0 ret x w E. destruct (am_map _ _ _ _ _ _ _ _ _ E Hpb) as (Hk & Hout & _). apply inv_arch; [done|done|]. intros y py fy Hy Hq. destruct (decide (r_base r ≤ y < r_end r)) as [Hyr|Hyr]; [right; exists r; rewrite Er0; split; [done|]; split; [done|]; apply Ebk|]. rewrite Hout in Hq; [left; eauto|done|]. rewrite Ecnt. exact Hyr. }
  destruct remap.
  - destruct (arch_mmu_unmap _ _ _ _) as [[ret x] w] eqn:Eu. destruct (am_unmap _ _ _ _ _ _ _ Eu Hpb) as (Hk & Hout & Hin). assert (Hi1 : vm_inv (set_arch a x) (set_machine m w)).
    { apply inv_arch; [done|done|]. intros y py fy Hy Hq. destruct (decide (r_base r ≤ y < r_end r)) as [Hyr|Hyr]; [destruct (range_page_index r y Hpb Hps Hy Hyr) as (j & Hj & ->); by rewrite Hin in Hq|]. rewrite Hout in Hq; [left; eauto|done|]. fold cnt. rewrite Ecnt. exact Hyr. }
    destruct (ret <? 0); [by eexists _, _, _|]. destruct (arch_mmu_map _ _ _ _ _ _) as [[ret2 x2] w2] eqn:Em. eexists _, _, _. split; [done|]. split; [|done]. by apply (Hmap (set_arch a x) (set_machine m w) Hi1 eq_refl _ _ _ Em).
  - destruct (arch_mmu_map _ _ _ _ _ _) as [[ret2 x2] w2] eqn:Em. eexists _, _, _. split; [done|]. split; [|done]. by apply (Hmap a m Hi eq_refl _ _ _ Em).
Qed.

Lemma alloc_physical_ok a m size ptr al pa vf mf : vm_inv a m → 0 ≤ size ≤ MAX_SIZE → page_multiple pa → u64_ptr ptr → al < 64 → ∃ st ptr' a' m', AllocPhysical a m size ptr al pa vf mf = Some (st, ptr', a', m') ∧ vm_inv a' m'.
Proof.
  intros Hi Hs Hpa Hp Hal. change MAX_SIZE with (2 ^ 64 - 4096) in Hs. unfold AllocPhysical. rewrite (proj2 (page_aligned pa) Hpa). destruct (size =? 0) eqn:E0; zb; [by eexists _, _, a, m|]. unfold ROUNDUP_PAGE_SIZE. destruct (roundup_page_cases size ltac:(lia)) as [Hz|(Hpos & Hpm & _)]; [exfalso; change PAGE_SIZE with (2 ^ 12) in Hz; destruct (roundup_pow2_spec size 12 ltac:(lia) ltac:(lia) ltac:(lia)) as (? & _); lia|].
  set (sz := ROUNDUP size PAGE_SIZE) in *. destruct (has_flag vf VMM_FLAG_COMMIT); [by eexists _, _, a, m|]. destruct (specific vf ptr) as [vaddr|] eqn:Esp; [|by eexists _, _, a, m]. destruct (specific_ok vf ptr vaddr Hp Esp) as [Hv Hvm]. destruct (alloc_region_ok a m sz vaddr al vf mf (vi_regions _ _ Hi) Hpos Hpm Hv Hvm Hal) as (r & a1 & m1 & -> & Hsm & Hsb & Hok1 & Hr). cbn [mbind option_bind].
  destruct r as [r|]; [|subst a1; eexists _, _, a, m1; split; [done|]; by eapply inv_same_machine]. destruct Hr as (Ers & Erf & Ero & Hvac & (l1 & l2 & El & El1) & _). pose proof (inv_add_region a m a1 m1 r l1 l2 Hi Hsm Hsb Hok1 El El1 Ero) as Hi1. destruct (map_physical_ok a1 m1 r sz pa false Hi1) as (st & a2 & m2 & -> & Hi2 & _); [rewrite El1; set_solver|done|done|]. cbn [mbind option_bind]. destruct (st <? 0); by eexists _, _, a2, m2.
Qed.

(** The trimmed range is inside of the address space. *)
Lemma trim_ok a vaddr size : as_ok a → as_base a ≤ vaddr < as_end a → 0 < size < 2 ^ 64 → page_multiple size → page_multiple vaddr → trim_to_aspace a vaddr size = Some (Z.min size (as_end a - vaddr)).
Proof.
  intros Ha Hv Hs Hps Hpv. unfold trim_to_aspace. rewrite (proj2 (inside_ok a vaddr Ha) Hv), (proj2 (Z.eqb_neq size 0)) by lia. destruct Ha as [[Hb Hpb] [Hsz Hpz] He]. assert (Hoff : u64 (vaddr - as_base a) = vaddr - as_base a) by (apply u64_id; unfold is_u64, as_end in *; lia). rewrite Hoff. set (off := vaddr - as_base a) in *. assert (Hpo : page_multiple off) by (unfold page_multiple, off in *; by rewrite Zminus_mod, Hpv, Hpb).
  rewrite (u64_id (as_size a - 1)) by (unfold is_u64; lia). rewrite (u64_id (as_size a - off)) by (unfold is_u64, off, as_end in *; lia). unfold as_end in *. destruct (decide (off + size < 2 ^ 64)) as [Hn|Hw].
  - rewrite (u64_id (off + size)) by (unfold is_u64, off in *; lia). rewrite (proj2 (Z.ltb_ge (off + size) off)) by lia. rewrite (u64_id (off + size)) by (unfold is_u64, off in *; lia). f_equal. assert (Hne : off + size ≠ as_size a - 1) by (intros E; unfold page_multiple in *; pose proof (Z.div_mod off PAGE_SIZE ltac:(done)); pose proof (Z.div_mod size PAGE_SIZE ltac:(done)); pose proof (Z.div_mod (as_size a) PAGE_SIZE ltac:(done)); unfold PAGE_SIZE in *; lia). destruct (as_size a - 1 <=? off + size) eqn:E; zb; unfold off in *; lia.
  - assert (Eu : u64 (off + size) = off + size - 2 ^ 64) by (unfold u64; symmetry; apply (Z.mod_unique_pos _ _ 1); unfold off in *; lia). rewrite Eu, (proj2 (Z.ltb_lt _ _)) by lia. rewrite (u64_id (2 ^ 64 - 1 - off - 1)) by (unfold is_u64, off, page_multiple, PAGE_SIZE in *; lia). rewrite (u64_id (off + _)) by (unfold is_u64; lia). rewrite (proj2 (Z.leb_le _ _)) by (unfold page_multiple in *; pose proof (Z.div_mod (as_size a) PAGE_SIZE ltac:(done)); unfold PAGE_SIZE in *; lia). f_equal. unfold off in *. lia.
Qed.

Lemma reserve_space_ok a m size vaddr : vm_inv a m → 0 ≤ size < 2 ^ 64 → 0 ≤ vaddr < 2 ^ 64 → page_multiple size → page_multiple vaddr → ∃ st a' m', ReserveSpace a m size vaddr = Some (st, a', m') ∧ vm_inv a' m'.
Proof.
  intros Hi Hs Hv Hps Hpv. unfold ReserveSpace. rewrite (proj2 (page_aligned vaddr) Hpv), (proj2 (page_aligned size) Hps). assert (Er : ROUNDUP_PAGE_SIZE size = size).
  { assert (Hsm : size + (2 ^ 12 - 1) < 2 ^ 64) by (unfold page_multiple in Hps; pose proof (Z.div_mod size PAGE_SIZE ltac:(done)); unfold PAGE_SIZE in *; lia). destruct (roundup_pow2_spec size 12 ltac:(lia) ltac:(lia) Hsm) as (H1 & H2 & H3). change (2 ^ 12) with PAGE_SIZE in *. specialize (H3 size Hps ltac:(lia)). unfold ROUNDUP_PAGE_SIZE. lia. }
  rewrite Er. destruct (size =? 0) eqn:E0; zb; [by eexists _, a, m|]. pose proof (rs_aspace _ (vi_regions _ _ Hi)) as Ha. destruct (is_inside a vaddr) eqn:Ein; cbn [negb]; [|by eexists _, a, m]. apply (inside_ok a vaddr Ha) in Ein. rewrite trim_ok by (done || lia). cbn [mbind option_bind]. set (sz := Z.min size (as_end a - vaddr)). assert (Hsz : 0 < sz < 2 ^ 64) by lia.
  assert (Hpsz : page_multiple sz) by (unfold sz; destruct (Z.min_spec size (as_end a - vaddr)) as [[_ ->]|[_ ->]]; [done|]; destruct Ha as [[? Hpb] [? Hpz] ?]; unfold page_multiple, as_end in *; rewrite Zminus_mod, Zplus_mod, Hpb, Hpz, Hpv; done). destruct (alloc_region_ok a m sz vaddr 0 VMM_FLAG_VALLOC_SPECIFIC (match arch_mmu_query (arch_aspace a) vaddr with Some (_, f) => f | None => Z.lor ARCH_MMU_FLAG_CACHED (Z.lor ARCH_MMU_FLAG_PERM_RO ARCH_MMU_FLAG_PERM_NO_EXECUTE) end) (vi_regions _ _ Hi) Hsz Hpsz Hv Hpv ltac:(lia)) as (r & a1 & m1 & -> & Hsm & Hsb & Hok1 & Hr).
  cbn [mbind option_bind]. destruct r as [r|]; [|subst a1; eexists _, a, m1; split; [done|]; by eapply inv_same_machine]. destruct Hr as (Ers & Erf & Ero & Hvac & (l1 & l2 & El & El1) & _). eexists _, a1, m1. split; [done|]. by apply (inv_add_region a m a1 m1 r l1 l2).
Qed.

(** ** New objects *)

Lemma next_unused a m : vm_inv a m → vm_objects m !! vm_next m = None ∧ refs a (vm_next m) = 0.
Proof.
  intros Hi. assert (Hno : vm_objects m !! vm_next m = None) by (destruct (vm_objects m !! vm_next m) as [[v n]|] eqn:E; [|done]; destruct (oo_vmo _ (vi_objects _ _ Hi) _ _ _ E) as (_ & _ & ?); lia). split; [done|]. unfold refs. rewrite filter_none; [done|]. intros r Hr E. destruct (vi_region _ _ Hi r _ Hr E) as [[x Hx] _]. by rewrite Hno in Hx.
Qed.

Lemma create_object_ok a m size : vm_inv a m → 0 ≤ size < 2 ^ 64 → ∃ r m', CreateObject m PMM_ALLOC_FLAG_ANY size = Some (r, m') ∧ vm_inv a m' ∧
  match r with Some id => ∃ v, vm_objects m' !! id = Some (v, 1) ∧ refs a id = 0 ∧ size_ v = size ∧ owned v = [] | None => True end.
Proof.
  intros Hi Hs. pose proof (vi_objects _ _ Hi) as Ho. destruct (create_spec maps (vm_machine m) PMM_ALLOC_FLAG_ANY size (oo_world _ Ho) (oo_flags _ Ho) Hs) as (r & w & E & Ep & Er & Hr). unfold CreateObject. rewrite E. cbn [mbind option_bind]. assert (Hsm : same_machine m (set_machine m w)) by (by split_and!). pose proof (inv_same_machine a m _ Hi Hsm) as Hi0. destruct r as [v|]; [|by eexists None, _].
  destruct Hr as (Hv & Es & Hown & _). destruct (next_unused a m Hi) as [Hno Hrf]. eexists (Some (vm_next m)), _. split; [done|]. cbn [vm_objects]. split; [|exists v; by rewrite lookup_insert_eq]. pose proof Hi0 as [I1 [O1 O2 O3 O4] I3 I4 I5]. cbn [vm_objects vm_machine vm_next set_machine] in *. assert (Hne : ∀ id x, vm_objects m !! id = Some x → id ≠ vm_next m) by (intros id x Hx ->; by rewrite Hno in Hx). split; cbn [vm_objects vm_machine vm_next]; [done| | | |].
  - split; cbn [vm_objects vm_machine vm_next]; [done| | |done].
    + intros id u k [[<- [= <- <-]]|[? Hu]]%lookup_insert_Some; [split; [done|lia]|]. destruct (O2 id u k Hu) as (? & ? & ?). split; [done|lia].
    + intros id1 id2 u1 u2 k1 k2 p [[<- [= <- <-]]|[? H1]]%lookup_insert_Some [[<- [= <- <-]]|[? H2]]%lookup_insert_Some Hp1 Hp2; [done|rewrite Hown in Hp1; by apply not_elem_of_nil in Hp1|rewrite Hown in Hp2; by apply not_elem_of_nil in Hp2|by eapply O3].
  - intros id u k [[<- [= <- <-]]|[? Hu]]%lookup_insert_Some; [lia|by eapply I3].
  - intros x id Hx Hid. destruct (I4 x id Hx Hid) as [[y Hy] ?]. split; [|done]. rewrite lookup_insert_ne by (by apply not_eq_sym, (Hne _ y)). eauto.
  - intros va pa fl Hva Hq. destruct (I5 va pa fl Hva Hq) as (x & Hx & ? & Hb). exists x. split; [done|]. split; [done|]. intros id Hid. destruct (Hb id Hid) as (u & k & p & Hu & ? & ->). exists u, k, p. cbn [vm_objects vm_machine set_machine] in *. split; [|done]. by rewrite lookup_insert_ne by (by apply not_eq_sym, (Hne _ (u, k))).
Qed.

Lemma fresh_entry v i : owned v = [] → entry v i = None.
Proof. intros Ho. destruct (entry v i) as [p|] eqn:E; [|done]. apply entry_owned in E. rewrite Ho in E. by apply not_elem_of_nil in E. Qed.

Lemma fresh_missing v i n : owned v = [] → 0 ≤ n → missing v i n = n.
Proof. intros Ho Hn. apply missing_full; [done|]. intros j _. by apply fresh_entry. Qed.

(** A new object is committed, and goes if that fails. *)
Lemma commit_new_ok a m id v size commit : vm_inv a m → vm_objects m !! id = Some (v, 1) → refs a id = 0 → (∃ c v1 w1, commit v (vm_machine m) = Some (c, v1, w1) ∧ steps maps v (vm_machine m) v1 w1) →
  ∃ ok m1 v1, commit_new m id size commit = Some (ok, m1) ∧ vm_inv a m1 ∧ vm_objects m1 !! id = Some (v1, 1).
Proof.
  intros Hi Hid Hr (c & v1 & w1 & E & Hst). unfold commit_new. rewrite Hid. cbn [mbind option_bind]. rewrite E. cbn [mbind option_bind]. eexists _, _, v1. split; [done|]. split; [by apply (inv_steps a m id v 1)|]. cbn. by rewrite lookup_insert_eq.
Qed.

Lemma span_whole v size : size_ v = size → 0 ≤ size < 2 ^ 64 → span v 0 size = Some size.
Proof. intros Es Hs. unfold span. rewrite Es, Z.add_0_l, (proj2 (Z.ltb_lt _ _)), (proj2 (Z.leb_le _ _)) by lia. cbn. f_equal. lia. Qed.

Lemma alloc_finish a m id v ok size ptr al vf mf : vm_inv a m → vm_objects m !! id = Some (v, 1) → refs a id = 0 → 0 ≤ size < 2 ^ 64 → u64_ptr ptr → al < 64 →
  ∃ st ptr' a' m', (if (ok : bool) then MapObject maps a m (Some id) 0 size ptr al vf mf else m3 ← Release m id; Some (ERR_NO_MEMORY, ptr, a, m3)) = Some (st, ptr', a', m') ∧ vm_inv a' m'.
Proof.
  intros Hi Hid Hr Hs Hp Hal. destruct ok.
  - destruct (map_object_ok a m id v 1 0 size ptr al vf mf Hi Hid ltac:(lia) ltac:(lia) Hs Hp Hal) as (st & p' & a' & m' & E & ? & _). by exists st, p', a', m'.
  - destruct (release_ok a m id v 1 Hi Hid ltac:(lia)) as (m' & -> & ?). by eexists _, _, a, m'.
Qed.

Lemma alloc_ok a m size ptr al vf mf : vm_inv a m → 0 ≤ size < 2 ^ 64 → u64_ptr ptr → al < 64 → ∃ st ptr' a' m', Alloc maps a m size ptr al vf mf = Some (st, ptr', a', m') ∧ vm_inv a' m'.
Proof.
  intros Hi Hs Hp Hal. unfold Alloc. destruct (roundup_page_cases size Hs) as [Hz|(Hpos & Hpm & _)]; [rewrite (proj2 (Z.eqb_eq _ _) Hz); by eexists _, _, a, m|]. set (sz := ROUNDUP size PAGE_SIZE) in *. rewrite (proj2 (Z.eqb_neq sz 0)) by lia. destruct (create_object_ok a m sz Hi ltac:(lia)) as (r & m1 & -> & Hi1 & Hr). cbn [mbind option_bind]. destruct r as [id|]; [|by eexists _, _, a, m1]. destruct Hr as (v & Hid & Hrf & Es & Hown).
  destruct (has_flag vf VMM_FLAG_COMMIT); [|cbn [mbind option_bind]; apply (alloc_finish a m1 id v true); (done || lia)]. destruct (oo_vmo _ (vi_objects _ _ Hi1) id v 1 Hid) as (Hv & _). pose proof (oo_world _ (vi_objects _ _ Hi1)) as Hw. destruct (commit_new_ok a m1 id v sz (λ v w, CommitRange maps v w 0 sz) Hi1 Hid Hrf) as (ok & m2 & v2 & -> & Hi2 & Hid2); [|cbn [mbind option_bind]; apply (alloc_finish a m2 id v2 ok); (done || lia)].
  pose proof (commit_spec maps v (vm_machine m1) 0 sz sz Hw Hv ltac:(unfold is_u64; lia) ltac:(unfold is_u64; lia) (span_whole v sz Es ltac:(lia)) ltac:(lia)) as Hc. cbv zeta in Hc. change (0 / PAGE_SIZE) with 0 in Hc. assert (Hpn : 0 ≤ pages_of (0 + sz) - 0) by (unfold pages_of; pose proof (Z.div_pos (0 + sz + (PAGE_SIZE - 1)) PAGE_SIZE ltac:(unfold PAGE_SIZE; lia) ltac:(done)); lia). rewrite fresh_missing, Z.ltb_irrefl in Hc by done.
  destruct (_ =? 0); [by eexists _, _, _; split; [done|apply steps_refl]|]. destruct (_ <? _); [destruct Hc as (w' & E & Hst & _); by eexists _, _, w'|destruct Hc as (v' & w' & E & Hst & _); by eexists _, v', w'].
Qed.

Lemma alloc_contiguous_ok a m size ptr al vf mf : vm_inv a m → 0 ≤ size < 2 ^ 64 → u64_ptr ptr → al < 64 → ∃ st ptr' a' m', AllocContiguous maps a m size ptr al vf mf = Some (st, ptr', a', m') ∧ vm_inv a' m'.
Proof.
  intros Hi Hs Hp Hal. unfold AllocContiguous. destruct (roundup_page_cases size Hs) as [Hz|(Hpos & Hpm & _)]; [rewrite (proj2 (Z.eqb_eq _ _) Hz); by eexists _, _, a, m|]. set (sz := ROUNDUP size PAGE_SIZE) in *. rewrite (proj2 (Z.eqb_neq sz 0)) by lia. destruct (has_flag vf VMM_FLAG_COMMIT); cbn [negb]; [|by eexists _, _, a, m]. destruct (create_object_ok a m sz Hi ltac:(lia)) as (r & m1 & -> & Hi1 & Hr). cbn [mbind option_bind]. destruct r as [id|]; [|by eexists _, _, a, m1].
  destruct Hr as (v & Hid & Hrf & Es & Hown). destruct (oo_vmo _ (vi_objects _ _ Hi1) id v 1 Hid) as (Hv & _). pose proof (oo_world _ (vi_objects _ _ Hi1)) as Hw. destruct (commit_new_ok a m1 id v sz (λ v w, CommitRangeContiguous maps v w 0 sz al) Hi1 Hid Hrf) as (ok & m2 & v2 & -> & Hi2 & Hid2); [|cbn [mbind option_bind]; apply (alloc_finish a m2 id v2 ok); (done || lia)].
  pose proof (commit_contiguous_spec maps v (vm_machine m1) 0 sz sz al Hw Hv ltac:(unfold is_u64; lia) ltac:(unfold is_u64; lia) Hal (span_whole v sz Es ltac:(lia)) ltac:(lia)) as Hc. cbv zeta in Hc. change (0 / PAGE_SIZE) with 0 in Hc. assert (Hpn : 0 ≤ pages_of (0 + sz) - 0) by (unfold pages_of; pose proof (Z.div_pos (0 + sz + (PAGE_SIZE - 1)) PAGE_SIZE ltac:(unfold PAGE_SIZE; lia) ltac:(done)); lia). rewrite fresh_missing, Z.eqb_refl in Hc by done. cbn [negb] in Hc.
  assert (En : pages_of (0 + sz) - 0 = sz / PAGE_SIZE) by (unfold pages_of, page_multiple in *; rewrite Z.add_0_l, Z.sub_0_r; symmetry; apply (Z.div_unique _ _ _ (PAGE_SIZE - 1)); pose proof (Z.div_mod sz PAGE_SIZE ltac:(done)); unfold PAGE_SIZE in *; lia). rewrite (proj2 (Z.eqb_eq _ _) En) in Hc. cbn [negb] in Hc. destruct Hc as (st & v' & w' & E & Hst & _). by eexists _, v', w'.
Qed.

(** ** The end of regions *)

Lemma release_region_ok a m a1 m1 r : vm_inv a m → r ∈ regions_ a → vm_inv a1 m1 → vm_objects m1 = vm_objects m → (∀ id, r_object r = Some id → refs a1 id = refs a id - 1) → ∃ m2, release_opt m1 (r_object r) = Some m2 ∧ vm_inv a1 m2.
Proof.
  intros Hi Hr Hi1 Eo Hrf. destruct (r_object r) as [id|] eqn:E; [|by exists m1]. cbn [release_opt]. destruct (vi_region _ _ Hi r id Hr E) as ([[v n] Hid] & _). pose proof (vi_refs _ _ Hi id v n Hid) as Hn. rewrite <- Eo in Hid. apply (release_ok a1 m1 id v n Hi1 Hid). rewrite (Hrf id eq_refl). lia.
Qed.

Lemma free_region_ok a m va : vm_inv a m → ∃ st a' m', FreeRegion a m va = Some (st, a', m') ∧ vm_inv a' m' ∧
  match FindRegion a va with Some r => st = NO_ERROR ∧ regions_ a' = erase_region r (regions_ a) | None => st = ERR_NOT_FOUND ∧ a' = a ∧ m' = m end.
Proof.
  intros Hi. unfold FreeRegion. destruct (FindRegion a va) as [r|] eqn:E; [|by eexists _, a, m]. apply find_region_ok in E as [Hr _]; [|apply Hi]. pose proof (erase_unmap_ok a m r _ Hi Hr eq_refl) as Hu. destruct (Unmap _ m r) as [a1 m1]. destruct Hu as (Hi1 & El & Eo & Hrf). destruct (release_region_ok a m a1 m1 r Hi Hr Hi1 Eo Hrf) as (m2 & -> & Hi2). cbn [mbind option_bind]. by eexists _, a1, m2.
Qed.

Lemma destroy_loop_ok l : ∀ a m, vm_inv a m → regions_ a = l → ∃ a' m', destroy_loop l a m = Some (a', m') ∧ vm_inv a' m' ∧ regions_ a' = [].
Proof.
  induction l as [|r l IH]; intros a m Hi El; cbn [destroy_loop]; [by exists a, m|]. assert (Hr : r ∈ regions_ a) by (rewrite El; by left). assert (Ee : l = erase_region r (regions_ a)) by (rewrite (erase_region_split a [] r l); [done|apply Hi|done]). pose proof (erase_unmap_ok a m r l Hi Hr Ee) as Hu. destruct (Unmap _ m r) as [a1 m1]. destruct Hu as (Hi1 & El1 & Eo & Hrf). destruct (release_region_ok a m a1 m1 r Hi Hr Hi1 Eo Hrf) as (m2 & -> & Hi2). cbn [mbind option_bind]. by apply IH.
Qed.

Lemma protect_ok a m r mf : vm_inv a m → r ∈ regions_ a → let '(st, a', m') := Protect a m r mf in st = NO_ERROR ∧ vm_inv a' m'.
Proof.
  intros Hi Hr. unfold Protect. destruct (arch_mmu_protect _ _ _ _ _) as [[ret x] w] eqn:E. split; [done|]. pose proof Hi as [I1 I2 I3 I4 I5]. destruct (rs_each _ I1 r Hr) as [[_ Hpb] [Hs _] _]. pose proof (list_elem_of_split _ _ Hr) as (l1 & l2 & El). set (f := λ x, mk_region (r_base x) (r_size x) mf (r_object x) (r_offset x)). set (a1 := set_regions a (update_region (r_base r) f (regions_ a))).
  assert (Eu : regions_ a1 = l1 ++ f r :: l2) by (by apply (update_region_split a l1 r l2 f)). assert (Hi1 : vm_inv a1 m).
  { split; [apply regions_ok_fmap; [done|]; intros y; by destruct (r_base y =? r_base r)|done| | |].
    - intros id v n Hid. specialize (I3 id v n Hid). unfold refs in *. rewrite Eu. rewrite El in I3. rewrite refs_app, refs_cons in *. cbn [r_object f]. lia.
    - intros y id. rewrite Eu, elem_of_app, elem_of_cons. intros [?|[->|?]]; [apply I4; rewrite El; set_solver|apply (I4 r id Hr)|apply I4; rewrite El; set_solver].
    - intros va pa fl Hva Hq. destruct (I5 va pa fl Hva Hq) as (y & Hy & Hb & Hbk). rewrite El, elem_of_app, elem_of_cons in Hy. rewrite Eu. destruct Hy as [?|[->|?]]; [exists y; split; [set_solver|done]|exists (f r); split; [set_solver|done]|exists y; split; [set_solver|done]]. }
  apply (inv_protect a1 m (r_base r) (r_size r / PAGE_SIZE) mf ret x w Hi1 Hpb); [apply Z.div_pos; [lia|done]|exact E].
Qed.

(** ** Reachable states *)

(** What a client may ask of an address space and of the objects. *)
Inductive call :=
| call_create (size : Z)
| call_add_ref (id : Z)
| call_release (id : Z)
| call_map (id offset size : Z) (ptr : option Z) (align_pow2 vmm_flags mmu_flags : Z)
| call_alloc (size : Z) (ptr : option Z) (align_pow2 vmm_flags mmu_flags : Z)
| call_contiguous (size : Z) (ptr : option Z) (align_pow2 vmm_flags mmu_flags : Z)
| call_physical (size : Z) (ptr : option Z) (align_log2 paddr vmm_flags mmu_flags : Z)
| call_reserve (size vaddr : Z)
| call_free (vaddr : Z)
| call_protect (vaddr mmu_flags : Z)
| call_move (vaddr paddr : Z)
| call_fault (vaddr flags : Z)
| call_destroy.

Definition exec (s : aspace A * vm) (c : call) : option (aspace A * vm) :=
  let '(a, m) := s in
  match c with
  | call_create size => '(_, m') ← CreateObject m PMM_ALLOC_FLAG_ANY size; Some (a, m')
  | call_add_ref id => '(v, n) ← vm_objects m !! id; Some (a, set_object m id v (n + 1))
  | call_release id => m' ← Release m id; Some (a, m')
  | call_map id offset size ptr al vf mf => '(_, _, a', m') ← MapObject maps a m (Some id) offset size ptr al vf mf; Some (a', m')
  | call_alloc size ptr al vf mf => '(_, _, a', m') ← Alloc maps a m size ptr al vf mf; Some (a', m')
  | call_contiguous size ptr al vf mf => '(_, _, a', m') ← AllocContiguous maps a m size ptr al vf mf; Some (a', m')
  | call_physical size ptr al pa vf mf => '(_, _, a', m') ← AllocPhysical a m size ptr al pa vf mf; Some (a', m')
  | call_reserve size va => '(_, a', m') ← ReserveSpace a m size va; Some (a', m')
  | call_free va => '(_, a', m') ← FreeRegion a m va; Some (a', m')
  | call_protect va mf => let '(_, a', m') := vmm_protect_region a m va mf in Some (a', m')
  | call_move va pa => '(_, a', m') ← vmm_move_region_phys a m va pa; Some (a', m')
  | call_fault va fl => '(_, a', m') ← PageFault maps a m va fl; Some (a', m')
  | call_destroy => '(_, a', m') ← Destroy a m; Some (a', m')
  end.

(** A reference that no region has. *)
Definition spare (s : aspace A * vm) (id : Z) : Prop := ∃ v n, vm_objects s.2 !! id = Some (v, n) ∧ refs s.1 id < n.

(** The arguments have their types, sizes and addresses are as the code asserts them, and
    a client gives away only references of its own. *)
Definition may (s : aspace A * vm) (c : call) : Prop :=
  match c with
  | call_create size => is_u64 size
  | call_add_ref id => spare s id
  | call_release id => spare s id
  | call_map id offset size ptr al _ _ => spare s id ∧ is_u64 offset ∧ is_u64 size ∧ u64_ptr ptr ∧ al < 64
  | call_alloc size ptr al _ _ => is_u64 size ∧ u64_ptr ptr ∧ al < 64
  | call_contiguous size ptr al _ _ => is_u64 size ∧ u64_ptr ptr ∧ al < 64
  | call_physical size ptr al pa _ _ => 0 ≤ size ≤ MAX_SIZE ∧ u64_ptr ptr ∧ al < 64 ∧ page_multiple pa
  | call_reserve size va => is_u64 size ∧ is_u64 va ∧ page_multiple size ∧ page_multiple va
  | call_move va _ => ∀ r, FindRegion s.1 va = Some r → r_object r = None
  | _ => True
  end.

(** A new address space, its calls, and work on the objects by others. *)
Inductive vm_reach : aspace A * vm → Prop :=
| vr_new m flags a m' : objects_ok m → Z.land flags TYPE_MASK ≠ TYPE_KERNEL → VmAspace_Create m flags = Some (Some a, m') → vm_reach (a, m')
| vr_call s c s' : vm_reach s → may s c → exec s c = Some s' → vm_reach s'
| vr_object a m id v n v' w' : vm_reach (a, m) → vm_objects m !! id = Some (v, n) → obj_step maps (vm_machine m) v w' v' → vm_reach (a, set_object (set_machine m w') id v' n).

Lemma new_aspace_inv m flags a m' : objects_ok m → Z.land flags TYPE_MASK ≠ TYPE_KERNEL → VmAspace_Create m flags = Some (Some a, m') → vm_inv a m'.
Proof.
  intros Ho Ht. unfold VmAspace_Create. rewrite (proj2 (Z.eqb_neq _ _) Ht). destruct (if Z.land flags TYPE_MASK =? TYPE_USER then _ else _) as [[base size]|] eqn:Eb; [|done]. cbn [mbind option_bind]. destruct (alloc _) as [[] mem]; [|done]. cbn [negb]. set (w := mk_machine _ _ mem). destruct (arch_mmu_init_aspace w base size 0) as [[err x] w1] eqn:Ei. unfold VmAspace_new. destruct (negb (size =? 0)); [|done]. destruct (base <=? _); [|done]. cbn [mbind option_bind]. destruct (0 <=? err) eqn:Ee; zb; [|done]. intros [= <- <-].
  destruct (am_init _ _ _ _ _ _ Ei) as [Hk Hq]. assert (Hok : as_ok (mk_aspace base size flags [] x)) by (destruct (_ =? _); [|destruct (_ =? _); [|done]]; injection Eb as <- <-; split; vm_compute; done). split; cbn [regions_ arch_aspace].
  - split; [done|intros r ?%not_elem_of_nil; done|constructor].
  - apply (objects_kept (set_machine m w)); [|done]. by apply (same_machine_objects m).
  - intros id v n Hid. destruct (oo_vmo _ Ho id v n Hid) as (_ & ? & _). replace (refs _ id) with 0 by done. lia.
  - by intros r id ?%not_elem_of_nil.
  - intros va pa fl _. by rewrite Hq.
Qed.

Lemma add_ref_ok a m id v n : vm_inv a m → vm_objects m !! id = Some (v, n) → vm_inv a (set_object m id v (n + 1)).
Proof.
  intros Hi Hid. pose proof Hi as [I1 [O1 O2 O3 O4] I3 I4 I5]. assert (Hl : ∀ id' u k, vm_objects (set_object m id v (n + 1)) !! id' = Some (u, k) → ∃ k', vm_objects m !! id' = Some (u, k') ∧ k' ≤ k) by (intros id' u k; cbn; intros [[<- [= <- <-]]|[? Hu]]%lookup_insert_Some; [exists n; split; [done|lia]|by exists k]).
  assert (Hr : ∀ id' u k, vm_objects m !! id' = Some (u, k) → ∃ k', vm_objects (set_object m id v (n + 1)) !! id' = Some (u, k')) by (intros id' u k Hu; cbn; destruct (decide (id' = id)) as [->|]; [rewrite lookup_insert_eq; rewrite Hid in Hu; injection Hu as <- <-; eauto|rewrite lookup_insert_ne by done; eauto]). split; [done| | | |].
  - split; [done| |intros id1 id2 u1 u2 k1 k2 p H1 H2; destruct (Hl _ _ _ H1) as (k1' & ? & _); destruct (Hl _ _ _ H2) as (k2' & ? & _); by eapply O3|done]. intros id' u k Hu. destruct (Hl _ _ _ Hu) as (k' & Hu' & ?). destruct (O2 _ _ _ Hu') as (? & ? & ?). split; [done|]. cbn [vm_next set_object]. lia.
  - intros id' u k Hu. destruct (Hl _ _ _ Hu) as (k' & Hu' & ?). specialize (I3 _ _ _ Hu'). lia.
  - intros r id' Hr' Hid'. destruct (I4 r id' Hr' Hid') as [[[u k] Hu] ?]. split; [|done]. destruct (Hr _ _ _ Hu) as [k' ->]. eauto.
  - intros va pa fl Hva Hq. destruct (I5 va pa fl Hva Hq) as (r & ? & ? & Hb). exists r. split; [done|]. split; [done|]. intros id' Hid'. destruct (Hb id' Hid') as (u & k & p & Hu & ? & ?). destruct (Hr _ _ _ Hu) as [k' ?]. by exists u, k', p.
Qed.

(** Every call returns, and keeps the invariant. *)
Lemma call_ok a m c : vm_inv a m → may (a, m) c → ∃ a' m', exec (a, m) c = Some (a', m') ∧ vm_inv a' m'.
Proof.
  intros Hi. destruct c; cbn [may exec fst snd]; unfold is_u64.
  - intros Hs. destruct (create_object_ok a m size Hi Hs) as (r & m' & -> & ? & _). by exists a, m'.
  - intros (v & n & Hid & _). cbn in Hid. rewrite Hid. eexists a, _. split; [done|]. by apply add_ref_ok.
  - intros (v & n & Hid & Hn). destruct (release_ok a m id v n Hi Hid Hn) as (m' & -> & ?). by exists a, m'.
  - intros ((v & n & Hid & Hn) & Ho & Hs & Hp & Hal). destruct (map_object_ok a m id v n offset size ptr align_pow2 vmm_flags mmu_flags Hi Hid Hn Ho Hs Hp Hal) as (st & p' & a' & m' & -> & ? & _). by exists a', m'.
  - intros (Hs & Hp & Hal). destruct (alloc_ok a m size ptr align_pow2 vmm_flags mmu_flags Hi Hs Hp Hal) as (st & p' & a' & m' & -> & ?). by exists a', m'.
  - intros (Hs & Hp & Hal). destruct (alloc_contiguous_ok a m size ptr align_pow2 vmm_flags mmu_flags Hi Hs Hp Hal) as (st & p' & a' & m' & -> & ?). by exists a', m'.
  - intros (Hs & Hp & Hal & Hpa). destruct (alloc_physical_ok a m size ptr align_log2 paddr0 vmm_flags mmu_flags Hi Hs Hpa Hp Hal) as (st & p' & a' & m' & -> & ?). by exists a', m'.
  - intros (Hs & Hv & Hps & Hpv). destruct (reserve_space_ok a m size vaddr Hi Hs Hv Hps Hpv) as (st & a' & m' & -> & ?). by exists a', m'.
  - intros _. destruct (free_region_ok a m vaddr Hi) as (st & a' & m' & -> & ? & _). by exists a', m'.
  - intros _. unfold vmm_protect_region. destruct (FindRegion a vaddr) as [r|] eqn:E; [|by exists a, m]. apply find_region_ok in E as [Hr _]; [|apply Hi]. pose proof (protect_ok a m r mmu_flags Hi Hr) as H'. destruct (Protect a m r mmu_flags) as [[st a'] m']. destruct H' as [_ ?]. by exists a', m'.
  - intros Hno. unfold vmm_move_region_phys. destruct (FindRegion a vaddr) as [r|] eqn:E; [|by exists a, m]. specialize (Hno r eq_refl). apply find_region_ok in E as [Hr _]; [|apply Hi]. destruct (map_physical_ok a m r (r_size r) paddr0 true Hi Hr Hno eq_refl) as (st & a' & m' & -> & ? & _). by exists a', m'.
  - intros _. unfold PageFault. destruct (FindRegion a vaddr) as [r|] eqn:E; [|by exists a, m]. apply find_region_ok in E as [Hr Hb]; [|apply Hi]. destruct (page_fault_ok a m r vaddr flags Hi Hr Hb) as (st & a' & m' & -> & ? & _). by exists a', m'.
  - intros _. unfold Destroy. destruct (destroy_loop_ok _ a m Hi eq_refl) as (a' & m' & -> & ? & _). by exists a', m'.
Qed.

Lemma vm_reach_inv s : vm_reach s → vm_inv s.1 s.2.
Proof.
  induction 1 as [m flags a m' Ho Ht E|s c s' _ IH Hm E|a m id v n v' w' _ IH Hid Hst].
  - by eapply new_aspace_inv.
  - destruct s as [a m]. destruct (call_ok a m c IH Hm) as (a1 & m1 & E1 & ?). rewrite E in E1. by injection E1 as ->.
  - apply (inv_steps a m id v n); [done|done|]. apply (obj_step_steps maps); [apply IH|by apply (oo_vmo _ (vi_objects _ _ IH) id v n)|done].
Qed.

(** What is left of the references to an object when [k] are dropped. *)
Definition drop_refs (o : option (vm_object * Z)) (k : Z) : option (vm_object * Z) := '(v, n) ← o; if n =? k then None else Some (v, n - k).

Lemma release_counts m o m' id : release_opt m o = Some m' → vm_objects m' !! id = if decide (o = Some id) then drop_refs (vm_objects m !! id) 1 else vm_objects m !! id.
Proof.
  destruct o as [id0|]; cbn [release_opt]; [|by intros [= <-]; rewrite decide_False]. unfold Release, drop_refs. destruct (vm_objects m !! id0) as [[v n]|] eqn:E; [|done]. cbn [mbind option_bind]. destruct (n =? 1) eqn:En; [destruct (VmObject_delete v (vm_machine m)) as [w|]; [|done]; cbn [mbind option_bind]|]; intros [= <-]; cbn [vm_objects set_object]; (destruct (decide (id0 = id)) as [->|Hne]; [rewrite decide_True, E by done; cbn [mbind option_bind]; rewrite En|rewrite decide_False by congruence]).
  - apply lookup_delete_eq.
  - by apply lookup_delete_ne.
  - apply lookup_insert_eq.
  - by apply lookup_insert_ne.
Qed.

Lemma destroy_counts l : ∀ a m a' m', vm_inv a m → regions_ a = l → destroy_loop l a m = Some (a', m') → ∀ id, vm_objects m' !! id = drop_refs (vm_objects m !! id) (refs a id).
Proof.
  induction l as [|r l IH]; intros a m a' m' Hi El; cbn [destroy_loop].
  { intros [= <- <-] id. assert (Hz : refs a id = 0) by (unfold refs; by rewrite El). rewrite Hz. unfold drop_refs. destruct (vm_objects m !! id) as [[v n]|] eqn:E; [|done]. cbn [mbind option_bind]. destruct (oo_vmo _ (vi_objects _ _ Hi) id v n E) as (_ & ? & _). rewrite (proj2 (Z.eqb_neq n 0)) by lia. by rewrite Z.sub_0_r. }
  assert (Hr : r ∈ regions_ a) by (rewrite El; by left). assert (Ee : l = erase_region r (regions_ a)) by (rewrite (erase_region_split a [] r l); [done|apply Hi|done]). pose proof (erase_unmap_ok a m r l Hi Hr Ee) as Hu. destruct (Unmap _ m r) as [a1 m1]. destruct Hu as (Hi1 & El1 & Eo & Hrf). destruct (release_region_ok a m a1 m1 r Hi Hr Hi1 Eo Hrf) as (m2 & E2 & Hi2). rewrite E2. cbn [mbind option_bind]. intros E id. rewrite (IH a1 m2 a' m' Hi2 El1 E id), (release_counts m1 _ m2 id E2), Eo.
  assert (Ec : refs a id = refs a1 id + if decide (r_object r = Some id) then 1 else 0) by (unfold refs; rewrite El, El1, refs_cons; lia). rewrite Ec. destruct (decide (r_object r = Some id)); [|by rewrite Z.add_0_r]. unfold drop_refs. destruct (vm_objects m !! id) as [[v n]|] eqn:En; [|done]. cbn [mbind option_bind]. pose proof (vi_refs _ _ Hi id v n En) as Hn. pose proof (zlen_nonneg (filter (λ r, r_object r = Some id) (regions_ a1))) as Hnn. fold (refs a1 id) in Hnn. rewrite Ec in Hn.
  destruct (n =? 1) eqn:E1; cbn [mbind option_bind]; [rewrite (proj2 (Z.eqb_eq n _)) by (zb; lia); done|]. zb. destruct (n - 1 =? refs a1 id) eqn:E3; zb; [rewrite (proj2 (Z.eqb_eq n _)) by lia; done|]. rewrite (proj2 (Z.eqb_neq n _)) by lia. do 2 f_equal. lia.
Qed.

(** ** The theorems *)



(** C34. [AllocSpot] returns the lowest aligned address where the region fits between the
    others, and fails only if there is none; the region is put at its place in the list.
    [AddRegion] adds a region at an address if its range is inside of the address space
    and vacant, and is refused otherwise. *)
Theorem alloc_spot_lowest a size al : regions_ok a → PAGE_SIZE ≤ size < 2 ^ 64 → page_multiple size → al < 64 →
  (∃ spot i, AllocSpot a size al = Some (spot, i) ∧
    (spot = NO_SPOT ↔ ∀ va, ¬ place a (regions_ a) (2 ^ align_of al) size (as_base a) va) ∧
    (spot ≠ NO_SPOT → place a (regions_ a) (2 ^ align_of al) size (as_base a) spot ∧ (∀ va, place a (regions_ a) (2 ^ align_of al) size (as_base a) va → spot ≤ va) ∧
      ∀ fl, regions_ok (set_regions a (take i (regions_ a) ++ mk_region spot size fl None 0 :: drop i (regions_ a))))) ∧
  ∀ va fl, is_u64 va → page_multiple va → let '(st, a') := AddRegion a (mk_region va size fl None 0) in
    (st = ERR_OUT_OF_RANGE ↔ ¬ fits a va size) ∧ (st = ERR_NO_MEMORY ↔ fits a va size ∧ ¬ vacant (regions_ a) va size) ∧ (st = NO_ERROR ↔ fits a va size ∧ vacant (regions_ a) va size) ∧
    if decide (st = NO_ERROR) then regions_ok a' ∧ regions_ a' ≡ₚ mk_region va size fl None 0 :: regions_ a else a' = a.
Proof.
  intros Hok Hs Hpm Hal. split.
  - destruct (alloc_spot_ok a size al Hok Hs Hpm Hal) as (spot & i & E & Hor). exists spot, i. split; [done|]. destruct Hor as [[-> Hno]|(Hne & Hpl & Hlow & Hrs)]; [done|]. split; [|done]. split; [done|]. intros Hno. by destruct (Hno spot).
  - intros va fl Hva Hpva. destruct (add_region_ok a (mk_region va size fl None 0) Hok) as [[-> Hn]|[(-> & Hf & Hn)|(Hf & Hv & l1 & l2 & El & -> & Hrs)]]; cbn [r_base r_size] in *; [done|unfold PAGE_SIZE in Hs; lia|done|done| | |].
    + split_and!; [done|split; [done|by intros [? _]]|split; [done|by intros [? _]]|done].
    + split_and!; [split; [done|by intros ?]|done|split; [done|by intros [_ ?]]|done].
    + split_and!; [split; [done|by intros ?]|split; [done|by intros [_ ?]]|done|]. rewrite decide_True by done. split; [done|]. rewrite El. by rewrite Permutation_middle.
Qed.


End facts.

(** ** An instance of the unit: one table, with room for every page *)

Definition each_page (f : Z → gmap Z (Z * Z) → gmap Z (Z * Z)) (n : Z) (t : gmap Z (Z * Z)) : gmap Z (Z * Z) := foldr f t (seqZ 0 n).

#[global] Instance flat_mmu : ArchMmu (gmap Z (Z * Z)) := {
  arch_mmu_init_aspace w _ _ _ := (0, ∅, w);
  arch_mmu_destroy_aspace _ w := w;
  arch_mmu_map x w va pa n fl := (0, each_page (λ j, <[va + j * PAGE_SIZE := (pa + j * PAGE_SIZE, fl)]>) n x, w);
  arch_mmu_unmap x w va n := (0, each_page (λ j, delete (va + j * PAGE_SIZE)) n x, w);
  arch_mmu_protect x w va n fl := (0, each_page (λ j, alter (λ e, (e.1, fl)) (va + j * PAGE_SIZE)) n x, w);
  arch_mmu_query x va := x !! va }.

(** An operation on each page of a range does its work once on each, and nothing else. *)
Lemma each_page_ok f (g : Z → option (Z * Z) → option (Z * Z)) va n x : (∀ j t y, f j t !! y = if decide (y = va + j * PAGE_SIZE) then g j (t !! y) else t !! y) → ∀ y,
  (∀ j, 0 ≤ j < n → y = va + j * PAGE_SIZE → each_page f n x !! y = g j (x !! y)) ∧ (¬ va ≤ y < va + n * PAGE_SIZE → each_page f n x !! y = x !! y).
Proof.
  intros Hf y. unfold each_page. assert (Hin : ∀ j, j ∈ seqZ 0 n → 0 ≤ j < n) by (intros j; rewrite elem_of_seqZ; lia). assert (Hall : ∀ j, 0 ≤ j < n → j ∈ seqZ 0 n) by (intros j; rewrite elem_of_seqZ; lia). pose proof (NoDup_seqZ 0 n) as Hnd.
  assert (Hout : ∀ l, (∀ j, j ∈ l → y ≠ va + j * PAGE_SIZE) → foldr f x l !! y = x !! y) by (induction l as [|j l IH]; intros Hl; [done|]; cbn; rewrite Hf, decide_False by (apply Hl; by left); apply IH; intros k Hk; apply Hl; by right). split; [|intros Hy; apply Hout; intros j Hj%Hin ->; apply Hy; unfold PAGE_SIZE; lia].
  intros j Hj%Hall Ey. clear Hin Hall. induction (seqZ 0 n) as [|k l IH]; [by apply not_elem_of_nil in Hj|]. apply list.NoDup_cons in Hnd as [Hk Hnd]. cbn. rewrite Hf. apply elem_of_cons in Hj as [->|Hj].
  - rewrite decide_True by done. f_equal. apply Hout. intros i Hi E. assert (i = k) by (unfold PAGE_SIZE in *; lia). by subst.
  - rewrite decide_False; [by apply IH|]. intros E. assert (j = k) by (unfold PAGE_SIZE in *; lia). by subst.
Qed.

Lemma machine_kept_refl w : machine_kept w w.
Proof. intros Hw. split; [done|]. split; [apply keeps_refl|done]. Qed.

#[global] Instance flat_mmu_spec : ArchMmuSpec.
Proof.
  split.
  - intros w base size ret x w' [= <- <- <-]. split; [apply machine_kept_refl|done].
  - intros x w va pa n fl ret x' w' [= <- <- <-] _. split; [apply machine_kept_refl|]. assert (Hf : ∀ j (t : gmap Z (Z * Z)) y, <[va + j * PAGE_SIZE := (pa + j * PAGE_SIZE, fl)]> t !! y = if decide (y = va + j * PAGE_SIZE) then (λ j _, Some (pa + j * PAGE_SIZE, fl)) j (t !! y) else t !! y) by (intros j t y; destruct (decide _) as [->|]; [apply lookup_insert_eq|by apply lookup_insert_ne]). split; [intros y _; by apply (each_page_ok _ _ _ n x Hf y)|]. intros j Hj. left. exact (proj1 (each_page_ok _ _ _ n x Hf _) j Hj eq_refl).
  - intros x w va n ret x' w' [= <- <- <-] _. split; [apply machine_kept_refl|]. assert (Hf : ∀ j (t : gmap Z (Z * Z)) y, delete (va + j * PAGE_SIZE) t !! y = if decide (y = va + j * PAGE_SIZE) then (λ _ _, None) j (t !! y) else t !! y) by (intros j t y; destruct (decide _) as [->|]; [apply lookup_delete_eq|by apply lookup_delete_ne]). split; [intros y _; by apply (each_page_ok _ _ _ n x Hf y)|]. intros j Hj. exact (proj1 (each_page_ok _ _ _ n x Hf _) j Hj eq_refl).
  - intros x w va n fl ret x' w' [= <- <- <-] _. split; [apply machine_kept_refl|]. assert (Hf : ∀ j (t : gmap Z (Z * Z)) y, alter (λ e, (e.1, fl)) (va + j * PAGE_SIZE) t !! y = if decide (y = va + j * PAGE_SIZE) then (λ _ o, (λ e, (e.1, fl)) <$> o) j (t !! y) else t !! y) by (intros j t y; destruct (decide _) as [->|]; [apply lookup_alter_eq|by apply lookup_alter_ne]). split; [intros y _; by apply (each_page_ok _ _ _ n x Hf y)|]. intros j Hj. cbn [arch_mmu_query flat_mmu]. set (q := each_page _ n x). assert (E : q !! (va + j * PAGE_SIZE) = (λ e, (e.1, fl)) <$> x !! (va + j * PAGE_SIZE)) by exact (proj1 (each_page_ok _ _ _ n x Hf _) j Hj eq_refl). rewrite E. by destruct (x !! _).
Qed.

(** A user address space with one region of two pages, which were committed. *)
Definition demo_vm (mem : list bool) : vm := mk_vm (vm_world mem) ∅ 0.
Definition demo_mem : list bool := replicate 9 true.
Definition demo_aspace : aspace (gmap Z (Z * Z)) := mk_aspace USER_ASPACE_BASE USER_ASPACE_SIZE TYPE_USER [] ∅.
Definition demo_call : call := call_alloc 8192 (Some 0) 0 VMM_FLAG_COMMIT ARCH_MMU_FLAG_PERM_USER.
Definition demo_state : aspace (gmap Z (Z * Z)) * vm := default (demo_aspace, demo_vm []) (exec vm_maps (demo_aspace, demo_vm demo_mem) demo_call).

Lemma demo_objects_ok mem : objects_ok vm_maps (demo_vm mem).
Proof. split; [apply vm_world_ok|intros id v n Hid; cbn in Hid; by rewrite lookup_empty in Hid|intros id id' v v' n n' p Hid; cbn in Hid; by rewrite lookup_empty in Hid|apply vm_world_mapped]. Qed.

Lemma demo_new_reach : vm_reach vm_maps (demo_aspace, demo_vm demo_mem).
Proof. apply (vr_new vm_maps (demo_vm (true :: demo_mem)) TYPE_USER); [apply demo_objects_ok|done|vm_compute; reflexivity]. Qed.

Lemma demo_state_reach : vm_reach vm_maps demo_state.
Proof.
  apply (vr_call vm_maps (demo_aspace, demo_vm demo_mem) demo_call); [apply demo_new_reach|split; [unfold is_u64; lia|split; [intros x [= <-]; lia|lia]]|]. assert (Hs : bool_decide (is_Some (exec vm_maps (demo_aspace, demo_vm demo_mem) demo_call)) = true) by (vm_compute; reflexivity). apply bool_decide_eq_true in Hs as [s E]. unfold demo_state. by rewrite E.
Qed.

Lemma demo_regions : regions_ demo_state.1 = [mk_region USER_ASPACE_BASE 8192 ARCH_MMU_FLAG_PERM_USER (Some 0) 0].
Proof. vm_compute. reflexivity. Qed.

Lemma demo_query : arch_mmu_query (arch_aspace demo_state.1) (USER_ASPACE_BASE + PAGE_SIZE) = Some (1052672 + PAGE_SIZE, ARCH_MMU_FLAG_PERM_USER).
Proof. vm_compute. reflexivity. Qed.



Lemma alloc_spot_lowest_witness : ∃ spot i, AllocSpot demo_state.1 4096 14 = Some (spot, i) ∧ spot = USER_ASPACE_BASE + 16384 ∧ place demo_state.1 (regions_ demo_state.1) (2 ^ 14) 4096 USER_ASPACE_BASE spot.
Proof.
  pose proof (vi_regions _ _ _ (vm_reach_inv vm_maps _ demo_state_reach)) as Hok. assert (Eb : as_base demo_state.1 = USER_ASPACE_BASE) by (vm_compute; reflexivity). assert (Es : AllocSpot demo_state.1 4096 14 = Some (USER_ASPACE_BASE + 16384, 1%nat)) by (vm_compute; reflexivity). destruct demo_state as [a m]. cbn [fst snd] in *.
  destruct (alloc_spot_lowest a 4096 14 Hok) as [(spot & i & E & _ & Hp) _]; [unfold PAGE_SIZE; lia|done|lia|]. exists spot, i. rewrite Es in E. injection E as <- <-. split; [done|]. split; [done|]. rewrite <- Eb at 1. apply Hp. done.
Defined.

End VmAspaceFacts.
