(* ===== verification/X86Mmu.v ===== *)
(** * Page tables of x86-64

    [src/kernel/arch/x86/mmu.cpp], for 64-bit processors: four levels of tables with 512
    entries each.  Entries of the levels above the last one may map large pages.

    The tables are a map from the physical address of the page that holds a table to the
    list of its entries.  A table is named by this address: the kernel has all physical
    memory mapped at one offset, so the pointers of the code and these names are in one to
    one correspondence ([X86_PHYS_TO_VIRT]).  The calls that invalidate the translation
    buffers of the processors are kept in a list.  The functions of the code that are
    templates in a level take it as a number, 0 for the tables of 4 KB pages.  The
    permissions for ports, the control registers and start-up are left out. *)

From stdpp Require Import base tactics numbers list gmap.
From Stdlib Require Import ZArith.
From S2P Require Import Prelude Pmm VmObject VmAspace.
#[local] Open Scope Z_scope.

Module X86Mmu.
Import Pmm VmObject VmAspace.

Definition ARCH_MMU_FLAG_UNCACHED : Z := 1.
Definition ARCH_MMU_FLAG_UNCACHED_DEVICE : Z := 2.
Definition ARCH_MMU_FLAG_WRITE_COMBINING : Z := 3.
Definition ARCH_MMU_FLAG_CACHE_MASK : Z := 3.

Definition X86_MMU_PG_P : Z := 1.
Definition X86_MMU_PG_RW : Z := 2.
Definition X86_MMU_PG_U : Z := 4.
Definition X86_MMU_PG_WT : Z := 8.
Definition X86_MMU_PG_CD : Z := 16.
Definition X86_MMU_PG_PS : Z := 128.
Definition X86_MMU_PG_PTE_PAT : Z := 128.
Definition X86_MMU_PG_LARGE_PAT : Z := 4096.
Definition X86_MMU_PG_G : Z := 256.
Definition X86_MMU_PG_NX : Z := 2 ^ 63.
Definition X86_LARGE_FLAGS_MASK : Z := 2 ^ 63 + 8191.
Definition X86_PG_FRAME : Z := 2 ^ 52 - 2 ^ 12.
Definition NO_OF_PT_ENTRIES : Z := 512.
Definition MAX_PAGING_LEVEL : nat := 3.

(** The attribute bits of a page with an index into the attribute table. *)
Definition X86_PAT_SELECTOR (L : nat) (x : Z) : Z :=
  Z.lor (if has_flag x 4 then if (0 <? L)%nat then X86_MMU_PG_LARGE_PAT else X86_MMU_PG_PTE_PAT else 0)
    (Z.lor (if has_flag x 2 then X86_MMU_PG_CD else 0) (if has_flag x 1 then X86_MMU_PG_WT else 0)).

Definition IS_PAGE_PRESENT (e : Z) : bool := has_flag e X86_MMU_PG_P.
Definition IS_LARGE_PAGE (e : Z) : bool := has_flag e X86_MMU_PG_PS.

(** [pt_virt] is the name of the table. *)
Record arch_aspace := mk_arch_aspace { pt_phys : Z; pt_virt : Z; aa_flags : Z; aa_base : Z; aa_size : Z }.

(** Of an invalidation: the table, the address, the level, and whether it is global. *)
Record mmu := mk_mmu { mm_pmm : pmm; mm_tables : gmap Z (list Z); mm_tlb : list (Z * Z * nat * bool) }.

Record MappingCursor := mk_cursor { c_paddr : Z; c_vaddr : Z; c_size : Z }.

Definition is_valid_vaddr (a : arch_aspace) (vaddr : Z) : bool := (aa_base a <=? vaddr) && (vaddr <=? u64 (aa_base a + aa_size a - 1)).

(** ** Flags *)

(** The two bits of [ARCH_MMU_FLAG_CACHE_MASK] have no other values. *)
Definition x86_arch_flags (L : nat) (flags : Z) : Z :=
  let f := if has_flag flags ARCH_MMU_FLAG_PERM_RO then 0 else X86_MMU_PG_RW in
  let f := Z.lor f (if has_flag flags ARCH_MMU_FLAG_PERM_USER then X86_MMU_PG_U else X86_MMU_PG_G) in
  let f := Z.lor f (if has_flag flags ARCH_MMU_FLAG_PERM_NO_EXECUTE then X86_MMU_PG_NX else 0) in
  let c := Z.land flags ARCH_MMU_FLAG_CACHE_MASK in
  Z.lor f (X86_PAT_SELECTOR L (if c =? ARCH_MMU_FLAG_CACHED then 0 else if (c =? ARCH_MMU_FLAG_UNCACHED_DEVICE) || (c =? ARCH_MMU_FLAG_UNCACHED) then 3 else 7)).

Definition get_x86_intermediate_arch_flags : Z := Z.lor X86_MMU_PG_RW X86_MMU_PG_U.

(** Other attributes are a panic. *)
Definition arch_mmu_flags (flags : Z) (L : nat) : option Z :=
  let f := if has_flag flags X86_MMU_PG_RW then 0 else ARCH_MMU_FLAG_PERM_RO in
  let f := Z.lor f (if has_flag flags X86_MMU_PG_U then ARCH_MMU_FLAG_PERM_USER else 0) in
  let f := Z.lor f (if has_flag flags X86_MMU_PG_NX then ARCH_MMU_FLAG_PERM_NO_EXECUTE else 0) in
  let pat := Z.land flags (X86_PAT_SELECTOR L 7) in
  if pat =? X86_PAT_SELECTOR L 0 then Some (Z.lor f ARCH_MMU_FLAG_CACHED) else
  if pat =? X86_PAT_SELECTOR L 3 then Some (Z.lor f ARCH_MMU_FLAG_UNCACHED) else
  if pat =? X86_PAT_SELECTOR L 7 then Some (Z.lor f ARCH_MMU_FLAG_WRITE_COMBINING) else None.

(** ** Levels *)

Definition shift_of (L : nat) : Z := 12 + 9 * Z.of_nat L.

Definition vaddr_to_index (L : nat) (vaddr : Z) : Z := Z.land (Z.shiftr vaddr (shift_of L)) 511.

Definition page_size (L : nat) : Z := 2 ^ shift_of L.

Definition page_aligned (L : nat) (vaddr : Z) : bool := Z.land vaddr (page_size L - 1) =? 0.

(** The bits of an entry that are the address of a page. *)
Definition page_frame (L : nat) : Z := 2 ^ 52 - page_size L.

Definition paddr_from_pte (L : nat) (pte : Z) : option Z :=
  ASSERT IS_PAGE_PRESENT pte;
  ASSERT (L <? 3)%nat;
  Some (Z.land pte (page_frame L)).

(** Level 0 fails an assertion. *)
Definition level_supports_ps (L : nat) : option bool := match L with O => None | S O | S (S O) => Some true | S (S (S O)) => Some false | _ => None end.

(** A null pointer is [None]. *)
Definition get_next_table_from_entry (entry : Z) : option Z := if negb (IS_PAGE_PRESENT entry) || IS_LARGE_PAGE entry then None else Some (Z.land entry X86_PG_FRAME).

Section tables.
Context (g_vaddr_width g_paddr_width : Z) (maps : list mmu_initial_mapping).

Definition x86_is_vaddr_canonical (vaddr : Z) : bool :=
  let max_vaddr_lohalf := 2 ^ (g_vaddr_width - 1) - 1 in
  let min_vaddr_hihalf := 2 ^ 64 - 1 - max_vaddr_lohalf in
  negb ((max_vaddr_lohalf <? vaddr) && (vaddr <? min_vaddr_hihalf)).

Definition x86_mmu_check_vaddr (vaddr : Z) : bool := if negb (IS_PAGE_ALIGNED vaddr) then false else x86_is_vaddr_canonical vaddr.

Definition x86_mmu_check_paddr (paddr : Z) : bool := if negb (IS_PAGE_ALIGNED paddr) then false else paddr <=? 2 ^ g_paddr_width - 1.

(** ** Entries *)

Definition read_entry (st : mmu) (table index : Z) : option Z := l ← mm_tables st !! table; l !! Z.to_nat index.

Definition write_entry (st : mmu) (table index e : Z) : option mmu :=
  l ← mm_tables st !! table;
  ASSERT index <? zlen l;
  Some (mk_mmu (mm_pmm st) (<[table := <[Z.to_nat index := e]> l]> (mm_tables st)) (mm_tlb st)).

Definition x86_tlb_invalidate_page (st : mmu) (cr3 vaddr : Z) (L : nat) (global_page : bool) : mmu :=
  mk_mmu (mm_pmm st) (mm_tables st) (mm_tlb st ++ [(cr3, vaddr, L, global_page)]).

Definition update_entry (L : nat) (st : mmu) (cr3 vaddr table index paddr flags : Z) : option mmu :=
  ASSERT IS_PAGE_ALIGNED paddr;
  olde ← read_entry st table index;
  st1 ← write_entry st table index (Z.lor paddr (Z.lor flags X86_MMU_PG_P));
  Some (if IS_PAGE_PRESENT olde then x86_tlb_invalidate_page st1 cr3 vaddr L (is_kernel_address vaddr) else st1).

Definition unmap_entry (L : nat) (st : mmu) (cr3 vaddr table index : Z) (flush : bool) : option mmu :=
  olde ← read_entry st table index;
  st1 ← write_entry st table index 0;
  Some (if flush && IS_PAGE_PRESENT olde then x86_tlb_invalidate_page st1 cr3 vaddr L (is_kernel_address vaddr) else st1).

(** The name of a new table, which is zero.  The assertion that there is a page makes the
    tests of the callers for a null pointer dead. *)
Definition map_alloc_page (st : mmu) : option (Z * mmu) :=
  '(r, s) ← pmm_alloc_kpage (mm_pmm st) maps;
  '(ptr, _) ← r;
  let m := u64 (ptr - KERNEL_ASPACE_BASE) in
  Some (m, mk_mmu s (<[m := replicate (Z.to_nat NO_OF_PT_ENTRIES) 0]> (mm_tables st)) (mm_tlb st)).

(** [pmm_free_page] of the page that holds a table. *)
Definition free_table (st : mmu) (table : Z) : option mmu :=
  p ← paddr_to_vm_page (mm_pmm st) table;
  '(_, s) ← pmm_free_page (mm_pmm st) p;
  Some (mk_mmu s (delete table (mm_tables st)) (mm_tlb st)).

(** The flags of the smaller pages. *)
Definition split_flags (L : nat) (flags : Z) : Z :=
  if (L =? 1)%nat then
    let flags := Z.ldiff flags X86_MMU_PG_PS in
    if has_flag flags X86_MMU_PG_LARGE_PAT then Z.lor (Z.ldiff flags X86_MMU_PG_LARGE_PAT) X86_MMU_PG_PTE_PAT else flags
  else flags.

Fixpoint split_loop (k : nat) (L : nat) (st : mmu) (cr3 new_vaddr m i new_paddr flags : Z) : option (Z * mmu) :=
  match k with
  | O => Some (new_vaddr, st)
  | S k' =>
    let ps := page_size (pred L) in
    st1 ← update_entry (pred L) st cr3 new_vaddr m i new_paddr flags;
    split_loop k' L st1 cr3 (u64 (new_vaddr + ps)) m (i + 1) (u64 (new_paddr + ps)) flags
  end.

Definition x86_mmu_split (L : nat) (st : mmu) (cr3 vaddr table index : Z) : option (Z * mmu) :=
  ASSERT negb (L =? MAX_PAGING_LEVEL)%nat;
  pte ← read_entry st table index;
  ASSERT IS_PAGE_PRESENT pte && IS_LARGE_PAGE pte;
  '(m, st1) ← map_alloc_page st;
  paddr_base ← paddr_from_pte L pte;
  let flags := Z.land pte X86_LARGE_FLAGS_MASK in
  ASSERT has_flag flags X86_MMU_PG_PS;
  ASSERT page_aligned L vaddr;
  '(new_vaddr, st2) ← split_loop (Z.to_nat NO_OF_PT_ENTRIES) L st1 cr3 vaddr m 0 paddr_base (split_flags L flags);
  ASSERT new_vaddr =? u64 (vaddr + page_size L);
  st3 ← update_entry L st2 cr3 vaddr table index m get_x86_intermediate_arch_flags;
  Some (NO_ERROR, st3).

(** ** The walk *)

(** The level and the place of the entry; [None] inside is [ERR_NOT_FOUND]. *)
Fixpoint x86_mmu_get_mapping (L : nat) (st : mmu) (table vaddr : Z) : option (option (nat * Z * Z)) :=
  let index := vaddr_to_index L vaddr in
  e ← read_entry st table index;
  if negb (IS_PAGE_PRESENT e) then Some None else
  match L with
  | O => Some (Some (O, table, index))
  | S L' =>
    if IS_LARGE_PAGE e then Some (Some (L, table, index)) else
    next_table ← get_next_table_from_entry e;
    x86_mmu_get_mapping L' st next_table vaddr
  end.

(** ** Unmapping *)

Definition forward (c : MappingCursor) (n : Z) : MappingCursor := mk_cursor (c_paddr c) (u64 (c_vaddr c + n)) (u64 (c_size c - n)).

Definition table_empty (st : mmu) (table : Z) : option bool := l ← mm_tables st !! table; Some (forallb (λ e, negb (IS_PAGE_PRESENT e)) l).

(** The range is unmapped in the table below an entry, after a large page was split.  The
    table is given back if all of it was asked for, or if it became empty. *)
Definition remove_below (lower : mmu → Z → MappingCursor → option (bool * MappingCursor * mmu)) (L : nat) (st : mmu) (cr3 table index e : Z) (c : MappingCursor) (whole : bool) : option (bool * MappingCursor * mmu) :=
  st1 ← (if IS_LARGE_PAGE e then '(status, st1) ← x86_mmu_split L st cr3 (Z.ldiff (c_vaddr c) (page_size L - 1)) table index; ASSERT status =? NO_ERROR; Some st1 else Some st);
  e1 ← read_entry st1 table index;
  next_table ← get_next_table_from_entry e1;
  '(lower_unmapped, cursor, st2) ← lower st1 next_table c;
  empty ← (if whole then Some true else if (lower_unmapped : bool) then table_empty st2 next_table else Some false);
  st3 ← (if (empty : bool) then st3 ← unmap_entry L st2 cr3 (c_vaddr c) table index false; free_table st3 next_table else Some st2);
  Some (empty, cursor, st3).

(** The loop over the entries; [lower] is the function for the next level.  The results are
    whether something was unmapped, and what is left of the range. *)
Fixpoint remove_loop (lower : mmu → Z → MappingCursor → option (bool * MappingCursor * mmu)) (L k : nat) (st : mmu) (cr3 table index start_size : Z) (c : MappingCursor) (unmapped : bool) : option (bool * MappingCursor * mmu) :=
  match k with
  | O => Some (unmapped, c, st)
  | S k' =>
    if c_size c =? 0 then Some (unmapped, c, st) else
    let ps := page_size L in
    e ← read_entry st table index;
    if negb (IS_PAGE_PRESENT e) then
      if c_size c <? ps then remove_loop lower L k' st cr3 table (index + 1) start_size (mk_cursor (c_paddr c) (u64 (c_vaddr c + c_size c)) 0) unmapped else
      let c1 := forward c ps in
      ASSERT c_size c1 <=? start_size;
      remove_loop lower L k' st cr3 table (index + 1) start_size c1 unmapped
    else
    let whole := page_aligned L (c_vaddr c) && (ps <=? c_size c) in
    if IS_LARGE_PAGE e && whole then
      st1 ← unmap_entry L st cr3 (c_vaddr c) table index true;
      let c1 := forward c ps in
      ASSERT c_size c1 <=? start_size;
      remove_loop lower L k' st1 cr3 table (index + 1) start_size c1 true
    else
    '(empty, cursor, st1) ← remove_below lower L st cr3 table index e c whole;
    ASSERT c_size cursor <=? start_size;
    ASSERT (c_size cursor =? 0) || page_aligned L (c_vaddr cursor);
    remove_loop lower L k' st1 cr3 table (index + 1) start_size cursor (unmapped || empty)
  end.

Fixpoint remove_pt_loop (k : nat) (st : mmu) (cr3 table index start_size : Z) (c : MappingCursor) (unmapped : bool) : option (bool * MappingCursor * mmu) :=
  match k with
  | O => Some (unmapped, c, st)
  | S k' =>
    if c_size c =? 0 then Some (unmapped, c, st) else
    e ← read_entry st table index;
    st1 ← (if IS_PAGE_PRESENT e then unmap_entry 0 st cr3 (c_vaddr c) table index true else Some st);
    let c1 := forward c PAGE_SIZE in
    ASSERT c_size c1 <=? start_size;
    remove_pt_loop k' st1 cr3 table (index + 1) start_size c1 (unmapped || IS_PAGE_PRESENT e)
  end.

(** The entries from that of an address to the end of its table. *)
Definition entries_left (L : nat) (vaddr : Z) : nat := Z.to_nat (NO_OF_PT_ENTRIES - vaddr_to_index L vaddr).

Fixpoint x86_mmu_remove_mapping (L : nat) (cr3 : Z) (st : mmu) (table : Z) (start : MappingCursor) : option (bool * MappingCursor * mmu) :=
  match L with
  | O =>
    ASSERT IS_PAGE_ALIGNED (c_size start);
    remove_pt_loop (entries_left 0 (c_vaddr start)) st cr3 table (vaddr_to_index 0 (c_vaddr start)) (c_size start) start false
  | S L' =>
    ASSERT x86_mmu_check_vaddr (c_vaddr start);
    remove_loop (x86_mmu_remove_mapping L' cr3) L (entries_left L (c_vaddr start)) st cr3 table (vaddr_to_index L (c_vaddr start)) (c_size start) start false
  end.

(** ** Mapping *)

Definition advance_both (c : MappingCursor) (n : Z) : MappingCursor := mk_cursor (u64 (c_paddr c + n)) (u64 (c_vaddr c + n)) (u64 (c_size c - n)).

(** The range is mapped in the table below an entry, which is a new one if there is none. *)
Definition add_below (lower : mmu → Z → MappingCursor → option (Z * MappingCursor * mmu)) (L : nat) (st : mmu) (cr3 table index e : Z) (c : MappingCursor) : option (Z * MappingCursor * mmu) :=
  st1 ← (if negb (IS_PAGE_PRESENT e) then '(m, st1) ← map_alloc_page st; update_entry L st1 cr3 (c_vaddr c) table index m get_x86_intermediate_arch_flags else Some st);
  e1 ← read_entry st1 table index;
  next_table ← get_next_table_from_entry e1;
  lower st1 next_table c.

Fixpoint add_loop (lower : mmu → Z → MappingCursor → option (Z * MappingCursor * mmu)) (L k : nat) (st : mmu) (cr3 table index mmu_flags start_size : Z) (c : MappingCursor) : option (Z * MappingCursor * mmu) :=
  match k with
  | O => Some (NO_ERROR, c, st)
  | S k' =>
    if c_size c =? 0 then Some (NO_ERROR, c, st) else
    let ps := page_size L in
    e ← read_entry st table index;
    if IS_PAGE_PRESENT e && IS_LARGE_PAGE e then Some (ERR_ALREADY_EXISTS, c, st) else
    large ← level_supports_ps L;
    if (large : bool) && negb (IS_PAGE_PRESENT e) && page_aligned L (c_vaddr c) && page_aligned L (c_paddr c) && (ps <=? c_size c) then
      st1 ← update_entry L st cr3 (c_vaddr c) table index (c_paddr c) (Z.lor (x86_arch_flags L mmu_flags) X86_MMU_PG_PS);
      let c1 := advance_both c ps in
      ASSERT c_size c1 <=? start_size;
      add_loop lower L k' st1 cr3 table (index + 1) mmu_flags start_size c1
    else
    '(ret, cursor, st1) ← add_below lower L st cr3 table index e c;
    ASSERT c_size cursor <=? start_size;
    if negb (ret =? NO_ERROR) then Some (ret, cursor, st1) else
    add_loop lower L k' st1 cr3 table (index + 1) mmu_flags start_size cursor
  end.

Fixpoint add_pt_loop (k : nat) (st : mmu) (cr3 table index mmu_flags start_size : Z) (c : MappingCursor) : option (Z * MappingCursor * mmu) :=
  match k with
  | O => Some (NO_ERROR, c, st)
  | S k' =>
    if c_size c =? 0 then Some (NO_ERROR, c, st) else
    e ← read_entry st table index;
    if IS_PAGE_PRESENT e then Some (ERR_ALREADY_EXISTS, c, st) else
    st1 ← update_entry 0 st cr3 (c_vaddr c) table index (c_paddr c) (x86_arch_flags 0 mmu_flags);
    let c1 := advance_both c PAGE_SIZE in
    ASSERT c_size c1 <=? start_size;
    add_pt_loop k' st1 cr3 table (index + 1) mmu_flags start_size c1
  end.

(** The end of the function at the highest level: what was mapped is unmapped again. *)
Definition add_cleanup (cr3 : Z) (st : mmu) (table : Z) (start c : MappingCursor) : option mmu :=
  let cursor := mk_cursor (c_paddr start) (c_vaddr start) (u64 (c_size start - c_size c)) in
  if 0 <? c_size cursor then
    '(_, result, st1) ← x86_mmu_remove_mapping MAX_PAGING_LEVEL cr3 st table cursor;
    ASSERT c_size result =? 0;
    Some st1
  else Some st.

Fixpoint x86_mmu_add_mapping (L : nat) (cr3 mmu_flags : Z) (st : mmu) (table : Z) (start : MappingCursor) : option (Z * MappingCursor * mmu) :=
  match L with
  | O =>
    ASSERT IS_PAGE_ALIGNED (c_size start);
    add_pt_loop (entries_left 0 (c_vaddr start)) st cr3 table (vaddr_to_index 0 (c_vaddr start)) mmu_flags (c_size start) start
  | S L' =>
    ASSERT x86_mmu_check_vaddr (c_vaddr start);
    ASSERT x86_mmu_check_paddr (c_paddr start);
    '(ret, c, st1) ← add_loop (x86_mmu_add_mapping L' cr3 mmu_flags) L (entries_left L (c_vaddr start)) st cr3 table (vaddr_to_index L (c_vaddr start)) mmu_flags (c_size start) start;
    if negb (ret =? NO_ERROR) && (L =? MAX_PAGING_LEVEL)%nat then st2 ← add_cleanup cr3 st1 table start c; Some (ret, c, st2) else Some (ret, c, st1)
  end.

(** ** Change of flags *)

(** The flags are changed in the table below an entry, after a large page was split. *)
Definition update_below (lower : mmu → Z → MappingCursor → option (Z * MappingCursor * mmu)) (L : nat) (st : mmu) (cr3 table index e : Z) (c : MappingCursor) : option (Z * MappingCursor * mmu) :=
  '(ret, st1) ← (if IS_LARGE_PAGE e then x86_mmu_split L st cr3 (Z.ldiff (c_vaddr c) (page_size L - 1)) table index else Some (NO_ERROR, st));
  if negb (ret =? NO_ERROR) then Some (ret, c, st1) else
  e1 ← read_entry st1 table index;
  next_table ← get_next_table_from_entry e1;
  lower st1 next_table c.

Fixpoint update_loop (lower : mmu → Z → MappingCursor → option (Z * MappingCursor * mmu)) (L k : nat) (st : mmu) (cr3 table index mmu_flags start_size : Z) (c : MappingCursor) : option (Z * MappingCursor * mmu) :=
  match k with
  | O => Some (NO_ERROR, c, st)
  | S k' =>
    if c_size c =? 0 then Some (NO_ERROR, c, st) else
    let ps := page_size L in
    e ← read_entry st table index;
    if negb (IS_PAGE_PRESENT e) then Some (ERR_NOT_FOUND, c, st) else
    if IS_LARGE_PAGE e && (page_aligned L (c_vaddr c) && (ps <=? c_size c)) then
      pa ← paddr_from_pte L e;
      st1 ← update_entry L st cr3 (c_vaddr c) table index pa (Z.lor (x86_arch_flags L mmu_flags) X86_MMU_PG_PS);
      let c1 := forward c ps in
      ASSERT c_size c1 <=? start_size;
      update_loop lower L k' st1 cr3 table (index + 1) mmu_flags start_size c1
    else
    '(ret, cursor, st1) ← update_below lower L st cr3 table index e c;
    if negb (ret =? NO_ERROR) then Some (ret, cursor, st1) else
    ASSERT c_size cursor <=? start_size;
    ASSERT (c_size cursor =? 0) || page_aligned L (c_vaddr cursor);
    update_loop lower L k' st1 cr3 table (index + 1) mmu_flags start_size cursor
  end.

Fixpoint update_pt_loop (k : nat) (st : mmu) (cr3 table index mmu_flags start_size : Z) (c : MappingCursor) : option (Z * MappingCursor * mmu) :=
  match k with
  | O => Some (NO_ERROR, c, st)
  | S k' =>
    if c_size c =? 0 then Some (NO_ERROR, c, st) else
    e ← read_entry st table index;
    if negb (IS_PAGE_PRESENT e) then Some (ERR_NOT_FOUND, c, st) else
    pa ← paddr_from_pte 0 e;
    st1 ← update_entry 0 st cr3 (c_vaddr c) table index pa (x86_arch_flags 0 mmu_flags);
    let c1 := forward c PAGE_SIZE in
    ASSERT c_size c1 <=? start_size;
    update_pt_loop k' st1 cr3 table (index + 1) mmu_flags start_size c1
  end.

Fixpoint x86_mmu_update_mapping (L : nat) (cr3 mmu_flags : Z) (st : mmu) (table : Z) (start : MappingCursor) : option (Z * MappingCursor * mmu) :=
  match L with
  | O =>
    ASSERT IS_PAGE_ALIGNED (c_size start);
    update_pt_loop (entries_left 0 (c_vaddr start)) st cr3 table (vaddr_to_index 0 (c_vaddr start)) mmu_flags (c_size start) start
  | S L' =>
    ASSERT x86_mmu_check_vaddr (c_vaddr start);
    update_loop (x86_mmu_update_mapping L' cr3 mmu_flags) L (entries_left L (c_vaddr start)) st cr3 table (vaddr_to_index L (c_vaddr start)) mmu_flags (c_size start) start
  end.

(** ** Operations on an address space *)

Definition arch_mmu_unmap (a : arch_aspace) (st : mmu) (vaddr count : Z) : option (Z * mmu) :=
  if negb (x86_mmu_check_vaddr vaddr) then Some (ERR_INVALID_ARGS, st) else
  if negb (is_valid_vaddr a vaddr) then Some (ERR_INVALID_ARGS, st) else
  if count =? 0 then Some (NO_ERROR, st) else
  '(_, result, st1) ← x86_mmu_remove_mapping MAX_PAGING_LEVEL (pt_phys a) st (pt_virt a) (mk_cursor 0 vaddr (u64 (count * PAGE_SIZE)));
  ASSERT c_size result =? 0;
  Some (NO_ERROR, st1).

Definition arch_mmu_map (a : arch_aspace) (st : mmu) (vaddr paddr count flags : Z) : option (Z * mmu) :=
  if negb (x86_mmu_check_paddr paddr) then Some (ERR_INVALID_ARGS, st) else
  if negb (x86_mmu_check_vaddr vaddr) then Some (ERR_INVALID_ARGS, st) else
  if negb (is_valid_vaddr a vaddr) then Some (ERR_INVALID_ARGS, st) else
  if count =? 0 then Some (NO_ERROR, st) else
  '(status, result, st1) ← x86_mmu_add_mapping MAX_PAGING_LEVEL (pt_phys a) flags st (pt_virt a) (mk_cursor paddr vaddr (u64 (count * PAGE_SIZE)));
  if negb (status =? NO_ERROR) then Some (status, st1) else
  ASSERT c_size result =? 0;
  Some (NO_ERROR, st1).

Definition arch_mmu_protect (a : arch_aspace) (st : mmu) (vaddr count flags : Z) : option (Z * mmu) :=
  if negb (x86_mmu_check_vaddr vaddr) then Some (ERR_INVALID_ARGS, st) else
  if negb (is_valid_vaddr a vaddr) then Some (ERR_INVALID_ARGS, st) else
  if count =? 0 then Some (NO_ERROR, st) else
  '(status, result, st1) ← x86_mmu_update_mapping MAX_PAGING_LEVEL (pt_phys a) flags st (pt_virt a) (mk_cursor 0 vaddr (u64 (count * PAGE_SIZE)));
  if negb (status =? NO_ERROR) then Some (status, st1) else
  ASSERT c_size result =? 0;
  Some (NO_ERROR, st1).

(** The physical address and the flags, or an error. *)
Definition arch_mmu_query (a : arch_aspace) (st : mmu) (vaddr : Z) : option (Z + Z * Z) :=
  if negb (is_valid_vaddr a vaddr) then Some (inl ERR_INVALID_ARGS) else
  r ← x86_mmu_get_mapping MAX_PAGING_LEVEL st (pt_virt a) vaddr;
  match r with
  | None => Some (inl ERR_NOT_FOUND)
  | Some (L, table, index) =>
    e ← read_entry st table index;
    pa ← paddr_from_pte L e;
    f ← arch_mmu_flags e L;
    Some (inr (Z.lor pa (Z.land vaddr (page_size L - 1)), f))
  end.

(** [kernel_pt_phys] is the table of the kernel. *)
Definition arch_mmu_init_aspace (kernel_pt_phys : Z) (st : mmu) (base size flags : Z) : option (Z * option arch_aspace * mmu) :=
  if has_flag flags ARCH_ASPACE_FLAG_KERNEL then Some (NO_ERROR, Some (mk_arch_aspace kernel_pt_phys kernel_pt_phys flags base size), st) else
  '(r, s) ← pmm_alloc_kpage (mm_pmm st) maps;
  match r with
  | None => Some (ERR_NO_MEMORY, None, mk_mmu s (mm_tables st) (mm_tlb st))
  | Some (ptr, pa) =>
    k ← mm_tables st !! kernel_pt_phys;
    let half := Z.to_nat (NO_OF_PT_ENTRIES / 2) in
    let virt := u64 (ptr - KERNEL_ASPACE_BASE) in
    Some (NO_ERROR, Some (mk_arch_aspace pa virt flags base size), mk_mmu s (<[virt := replicate half 0 ++ drop half k]> (mm_tables st)) (mm_tlb st))
  end.

(** The entries that only this address space uses are empty. *)
Definition arch_mmu_destroy_aspace (a : arch_aspace) (st : mmu) : option (Z * mmu) :=
  l ← mm_tables st !! pt_virt a;
  let first := vaddr_to_index MAX_PAGING_LEVEL (aa_base a) + (if page_aligned MAX_PAGING_LEVEL (aa_base a) then 0 else 1) in
  let e := vaddr_to_index MAX_PAGING_LEVEL (u64 (aa_base a + aa_size a - 1)) + (if page_aligned MAX_PAGING_LEVEL (u64 (aa_base a + aa_size a)) then 1 else 0) in
  ASSERT forallb (λ x, negb (IS_PAGE_PRESENT x)) (take (Z.to_nat (e - first)) (drop (Z.to_nat first) l));
  st1 ← free_table st (pt_phys a);
  Some (NO_ERROR, st1).

End tables.

End X86Mmu.
