(* ===== verification/X86Tables.v ===== *)
(** * Trees of page tables

    The tables that can be reached from a root form a tree: each table is reached at one
    level, by the addresses of one range.  Under this invariant a write to an entry has an
    effect on the translation of the addresses of this entry, and on no others. *)

From stdpp Require Import base tactics numbers list list_numbers gmap.
From Stdlib Require Import ZArith Lia.
From S2P Require Import Prelude Pmm PmmFacts VmObject VmAspace X86Mmu.
#[local] Open Scope Z_scope.

Module X86Tables.
Import Pmm PmmFacts VmObject VmAspace X86Mmu.

(** ** Levels and indices *)

Lemma ps_pos L : 0 < page_size L.
Proof. unfold page_size, shift_of. apply Z.pow_pos_nonneg; lia. Qed.

Lemma ps_S L : page_size (S L) = 512 * page_size L.
Proof. unfold page_size, shift_of. replace (12 + 9 * Z.of_nat (S L)) with (9 + (12 + 9 * Z.of_nat L)) by lia. rewrite Z.pow_add_r by lia. done. Qed.

Lemma ps_0 : page_size 0 = PAGE_SIZE.
Proof. done. Qed.

Lemma index_spec L y : vaddr_to_index L y = (y / page_size L) mod 512.
Proof. unfold vaddr_to_index. rewrite (Z.land_ones _ 9) by lia. by rewrite Z.shiftr_div_pow2 by (unfold shift_of; lia). Qed.

Lemma index_range L y : 0 ≤ vaddr_to_index L y < 512.
Proof. rewrite index_spec. apply Z.mod_pos_bound. lia. Qed.

Lemma aligned_spec L y : X86Mmu.page_aligned L y = true ↔ y mod page_size L = 0.
Proof. unfold X86Mmu.page_aligned. rewrite Z.eqb_eq. unfold page_size. replace (2 ^ shift_of L - 1) with (Z.ones (shift_of L)) by (rewrite Z.ones_equiv; lia). by rewrite Z.land_ones by (unfold shift_of; lia). Qed.

Lemma slot_up L y : y / page_size (S L) = y / page_size L / 512.
Proof. rewrite ps_S, Z.mul_comm, Z.div_div; [done|pose proof (ps_pos L); lia|lia]. Qed.

(** The entry of an address is given by that of the table, and the index. *)
Lemma slot_index L y y' : y / page_size L = y' / page_size L ↔ y / page_size (S L) = y' / page_size (S L) ∧ vaddr_to_index L y = vaddr_to_index L y'.
Proof.
  rewrite !slot_up, !index_spec. split; [by intros ->|]. intros [H1 H2]. rewrite (Z.div_mod (y / page_size L) 512), (Z.div_mod (y' / page_size L) 512) by lia. by rewrite H1, H2.
Qed.

Lemma slot_mono L k y y' : (L ≤ k)%nat → y / page_size L = y' / page_size L → y / page_size k = y' / page_size k.
Proof. induction 1 as [|k Hle IH]; [done|]. intros E. by apply (slot_index k y y'), IH. Qed.

(** The place of an address in a table that starts at [B]. *)
Lemma slot_of L B i y : B mod page_size (S L) = 0 → 0 ≤ i < 512 → (B + i * page_size L ≤ y < B + (i + 1) * page_size L ↔ y / page_size (S L) = B / page_size (S L) ∧ vaddr_to_index L y = i).
Proof.
  intros HB Hi. pose proof (ps_pos L) as Hp. pose proof (ps_S L) as HS. assert (EB : B = B / page_size (S L) * 512 * page_size L) by (pose proof (Z.div_mod B (page_size (S L)) ltac:(lia)); lia). set (q := B / page_size (S L)) in *. rewrite slot_up, index_spec. split.
  - intros Hy. assert (E : y / page_size L = q * 512 + i) by (symmetry; apply (Z.div_unique _ _ _ (y - (B + i * page_size L))); [lia|rewrite EB; ring]). rewrite E. split; [symmetry; apply (Z.div_unique _ _ _ i); lia|symmetry; apply (Z.mod_unique _ _ q); lia].
  - intros [H1 H2]. pose proof (Z.div_mod (y / page_size L) 512 ltac:(lia)) as H3. rewrite H1, H2 in H3. pose proof (Z.div_mod y (page_size L) ltac:(lia)) as H4. pose proof (Z.mod_pos_bound y (page_size L) Hp). rewrite H3 in H4. rewrite EB. lia.
Qed.

(** ** Tables *)

Notation tables := (gmap Z (list Z)).

Section tree.
Context (root : Z).

(** The addresses below the hole of the address range. *)
Definition dom (y : Z) : Prop := 0 ≤ y < 2 ^ 47.

Implicit Types T : tables.

Definition ent T (t i : Z) : option Z := l ← T !! t; l !! Z.to_nat i.

(** From a table of level [L] to the next. *)
Definition lower T (L : nat) (y t : Z) : option Z := e ← ent T t (vaddr_to_index L y); get_next_table_from_entry e.

(** The table at a depth, and at a level. *)
Fixpoint tab T (d : nat) (y : Z) : option Z := match d with O => Some root | S d' => t ← tab T d' y; lower T (3 - d') y t end.
Definition table_at T (L : nat) (y : Z) : option Z := tab T (3 - L) y.

(** The entry that maps an address, with its level. *)
Fixpoint walk T (L : nat) (t y : Z) : option (nat * Z) :=
  e ← ent T t (vaddr_to_index L y);
  if negb (IS_PAGE_PRESENT e) then None else
  match L with
  | O => Some (O, e)
  | S L' => if IS_LARGE_PAGE e then Some (L, e) else walk T L' (Z.land e X86_PG_FRAME) y
  end.

Lemma table_at_root T y : table_at T 3 y = Some root.
Proof. done. Qed.

Lemma table_at_S T L y : (L < 3)%nat → table_at T L y = (table_at T (S L) y ≫= lower T (S L) y).
Proof. intros HL. unfold table_at. replace (3 - L)%nat with (S (3 - S L)) by lia. cbn [tab]. by replace (3 - (3 - S L))%nat with (S L) by lia. Qed.

(** Induction from the root down. *)
Lemma down_ind (P : nat → Prop) : P 3%nat → (∀ L, (L < 3)%nat → P (S L) → P L) → ∀ L, (L ≤ 3)%nat → P L.
Proof. intros H3 HS L HL. assert (L = 3 ∨ L = 2 ∨ L = 1 ∨ L = 0)%nat as [->|[->|[->| ->]]] by lia; repeat (done || (apply HS; [lia|])). Qed.

Lemma table_at_dep T L y y' : (L ≤ 3)%nat → dom y → dom y' → y / page_size (S L) = y' / page_size (S L) → table_at T L y = table_at T L y'.
Proof.
  intros HL Hy Hy'. revert L HL. apply (down_ind (λ L, y / page_size (S L) = y' / page_size (S L) → table_at T L y = table_at T L y')); [done|]. intros L HL IH E. apply slot_index in E as [E1 E2]. rewrite !(table_at_S T L) by done. rewrite (IH E1). unfold lower. by rewrite E2.
Qed.

Lemma next_entry e t : get_next_table_from_entry e = Some t ↔ IS_PAGE_PRESENT e = true ∧ IS_LARGE_PAGE e = false ∧ t = Z.land e X86_PG_FRAME.
Proof. unfold get_next_table_from_entry. destruct (IS_PAGE_PRESENT e), (IS_LARGE_PAGE e); cbn; split; [done|by intros (? & ? & ?)|by intros [= <-]|by intros (_ & _ & ->)|done|by intros (? & ? & ?)|done|by intros (? & ? & ?)]. Qed.

Lemma lower_Some T L y t t' : lower T L y t = Some t' ↔ ∃ e, ent T t (vaddr_to_index L y) = Some e ∧ IS_PAGE_PRESENT e = true ∧ IS_LARGE_PAGE e = false ∧ t' = Z.land e X86_PG_FRAME.
Proof. unfold lower. destruct (ent T t _) as [e|]; cbn; [rewrite next_entry|]; split; [intros ?; by exists e|by intros (e' & [= <-] & ?)|done|by intros (? & ? & _)]. Qed.

Lemma walk_lower T L y t t' : lower T (S L) y t = Some t' → walk T (S L) t y = walk T L t' y.
Proof. intros (e & He & Hp & Hl & ->)%lower_Some. cbn [walk]. rewrite He. cbn [mbind option_bind]. by rewrite Hp, Hl. Qed.

Lemma walk_at T L y t : (L ≤ 3)%nat → table_at T L y = Some t → walk T 3 root y = walk T L t y.
Proof.
  intros HL. revert L HL t. apply (down_ind (λ L, ∀ t, table_at T L y = Some t → walk T 3 root y = walk T L t y)); [by intros t [= <-]|]. intros L HL IH t Ht. rewrite table_at_S in Ht by done. destruct (table_at T (S L) y) as [t1|] eqn:E1; [|done]. cbn [mbind option_bind] in Ht. rewrite (IH t1 eq_refl). by apply walk_lower.
Qed.

(** ** The tree *)

Definition tree T : Prop := ∀ L L' y y' t, (L ≤ 3)%nat → (L' ≤ 3)%nat → dom y → dom y' → table_at T L y = Some t → table_at T L' y' = Some t → L = L' ∧ y / page_size (S L) = y' / page_size (S L).

Definition reachable T (t : Z) : Prop := ∃ L y, (L ≤ 3)%nat ∧ dom y ∧ table_at T L y = Some t.

(** Tables that cannot be reached do not matter. *)
Lemma table_at_agree T T' : (∀ t, reachable T t → T' !! t = T !! t) → ∀ L y, (L ≤ 3)%nat → dom y → table_at T' L y = table_at T L y.
Proof.
  intros Hag L y HL Hy. revert L HL. apply down_ind; [done|]. intros L HL IH. rewrite !(table_at_S _ L) by done. rewrite IH. destruct (table_at T (S L) y) as [t|] eqn:E; [|done]. cbn [mbind option_bind]. unfold lower, ent. rewrite Hag; [done|]. exists (S L), y. split; [lia|done].
Qed.

Lemma walk_agree T T' y : (∀ t, reachable T t → T' !! t = T !! t) → dom y → walk T' 3 root y = walk T 3 root y.
Proof.
  intros Hag Hy. assert (H : ∀ L t, (L ≤ 3)%nat → table_at T L y = Some t → walk T' L t y = walk T L t y); [|by apply H].
  induction L as [|L IH]; intros t HL Ht; cbn [walk]; (assert (Ee : ent T' t = ent T t) by (unfold ent; rewrite Hag; [done|]; by eexists _, y)); rewrite Ee; (destruct (ent T t _) as [e|] eqn:E; [|done]); cbn [mbind option_bind]; [done|]. destruct (IS_PAGE_PRESENT e) eqn:Ep; [|done]. cbn [negb]. destruct (IS_LARGE_PAGE e) eqn:El; [done|]. apply IH; [lia|]. rewrite table_at_S, Ht by lia. cbn [mbind option_bind]. apply lower_Some. by exists e.
Qed.

Lemma reachable_agree T T' t : (∀ t, reachable T t → T' !! t = T !! t) → reachable T' t ↔ reachable T t.
Proof. intros Hag. unfold reachable. split; intros (L & y & HL & Hy & E); exists L, y; (split; [done|]; split; [done|]); [rewrite <- (table_at_agree T T' Hag L y HL Hy)|rewrite (table_at_agree T T' Hag L y HL Hy)]; done. Qed.

Lemma tree_agree T T' : (∀ t, reachable T t → T' !! t = T !! t) → tree T → tree T'.
Proof. intros Hag Ht L L' y y' t HL HL' Hy Hy'. rewrite !(table_at_agree T T' Hag) by done. by apply Ht. Qed.

(** ** A write to an entry *)

(** All tables are there, with 512 entries. *)
Definition full T : Prop := ∀ t, reachable T t → ∃ l, T !! t = Some l ∧ length l = 512%nat.

(** A table of level [L] without tables below it. *)
Definition leafy T (L : nat) (m : Z) : Prop := L = O ∨ ∀ i e, ent T m i = Some e → get_next_table_from_entry e = None.

(** The table that an entry of level [L] adds to the tree is a new one. *)
Definition grafts T (L : nat) (e : Z) : Prop := ∀ L' m, L = S L' → get_next_table_from_entry e = Some m → ¬ reachable T m ∧ leafy T L' m ∧ ∃ l, T !! m = Some l ∧ length l = 512%nat.

Lemma full_ent T t i : full T → reachable T t → 0 ≤ i < 512 → is_Some (ent T t i).
Proof. intros Hf Ht Hi. destruct (Hf t Ht) as (l & E & Hl). unfold ent. rewrite E. cbn [mbind option_bind]. apply lookup_lt_is_Some_2. lia. Qed.

Section write.
Context T (L : nat) (y0 t e : Z) (l : list Z).
Context (Htree : tree T) (HL : (L ≤ 3)%nat) (Hy0 : dom y0) (Hat : table_at T L y0 = Some t) (Hl : T !! t = Some l) (Hlen : length l = 512%nat).
Notation i0 := (vaddr_to_index L y0).
Notation T' := (<[t := <[Z.to_nat i0 := e]> l]> T).
Notation slot y := (y / page_size L = y0 / page_size L).

Lemma write_reach : reachable T t.
Proof. by exists L, y0. Qed.

Lemma write_ent t2 i : 0 ≤ i → ent T' t2 i = if decide (t2 = t ∧ i = i0) then Some e else ent T t2 i.
Proof.
  intros Hi. pose proof (index_range L y0). unfold ent. destruct (decide (t2 = t)) as [->|Hne].
  - rewrite lookup_insert_eq, Hl. cbn [mbind option_bind]. destruct (decide (t = t ∧ i = i0)) as [[_ ->]|Hni]; [apply list_lookup_insert_eq; lia|]. apply list_lookup_insert_ne. intros E. apply Hni. split; [done|lia].
  - rewrite lookup_insert_ne by done. by rewrite decide_False by (by intros [? _]).
Qed.

(** At the levels above, and for addresses of other entries, nothing changes. *)
Lemma write_lower_same k y t2 : (k ≤ 3)%nat → dom y → table_at T k y = Some t2 → k ≠ L ∨ ¬ slot y → ent T' t2 (vaddr_to_index k y) = ent T t2 (vaddr_to_index k y).
Proof.
  intros Hk Hy Ht Hor. rewrite write_ent by apply index_range. apply decide_False. intros [-> Hi]. destruct (Htree k L y y0 t Hk HL Hy Hy0 Ht Hat) as [-> Hs]. destruct Hor as [?|Hns]; [done|]. apply Hns. by apply slot_index.
Qed.

Lemma write_at k y : (k ≤ 3)%nat → dom y → (L ≤ k)%nat ∨ ¬ slot y → table_at T' k y = table_at T k y.
Proof.
  intros Hk Hy. revert k Hk. apply (down_ind (λ k, (L ≤ k)%nat ∨ ¬ slot y → table_at T' k y = table_at T k y)); [done|]. intros k Hk IH Hor. rewrite !(table_at_S _ k) by done. rewrite IH by (destruct Hor; [left; lia|by right]). destruct (table_at T (S k) y) as [t2|] eqn:E; [|done]. cbn [mbind option_bind]. unfold lower. rewrite (write_lower_same (S k) y t2); [done|lia|done|done|]. destruct Hor; [left; lia|by right].
Qed.

Lemma write_walk_other y : dom y → ¬ slot y → walk T' 3 root y = walk T 3 root y.
Proof.
  intros Hy Hns. assert (H : ∀ k t2, (k ≤ 3)%nat → table_at T k y = Some t2 → walk T' k t2 y = walk T k t2 y); [|by apply H].
  induction k as [|k IH]; intros t2 Hk Ht; cbn [walk]; rewrite (write_lower_same _ y t2) by (done || by right); (destruct (ent T t2 _) as [x|] eqn:E; [|done]); cbn [mbind option_bind]; [done|]. destruct (IS_PAGE_PRESENT x) eqn:Ep; [|done]. cbn [negb]. destruct (IS_LARGE_PAGE x) eqn:El; [done|]. apply IH; [lia|]. rewrite table_at_S, Ht by lia. cbn [mbind option_bind]. apply lower_Some. by exists x.
Qed.

Lemma slot_at y : dom y → slot y → table_at T L y = Some t ∧ vaddr_to_index L y = i0.
Proof. intros Hy Hs. apply slot_index in Hs as [H1 H2]. split; [|done]. rewrite <- Hat. by apply table_at_dep. Qed.

Lemma write_walk_same y : dom y → slot y → walk T' 3 root y = if negb (IS_PAGE_PRESENT e) then None else match L with O => Some (O, e) | S L' => if IS_LARGE_PAGE e then Some (L, e) else walk T' L' (Z.land e X86_PG_FRAME) y end.
Proof.
  intros Hy Hs. destruct (slot_at y Hy Hs) as [H1 H2]. rewrite (walk_at T' L y t) by (done || by rewrite write_at by (done || by left)). assert (Ee : ent T' t (vaddr_to_index L y) = Some e) by (rewrite write_ent by apply index_range; by rewrite decide_True). destruct L; cbn [walk]; rewrite Ee; done.
Qed.

Lemma write_at_below y k : dom y → slot y → L = S k → table_at T' k y = get_next_table_from_entry e.
Proof.
  intros Hy Hs EL. destruct (slot_at y Hy Hs) as [H1 H2]. rewrite table_at_S, <- EL by lia. rewrite write_at by (done || by left). rewrite H1. cbn [mbind option_bind]. unfold lower. rewrite write_ent by apply index_range. by rewrite decide_True.
Qed.

Context (Hgraft : grafts T L e).

Lemma graft_at y k m : dom y → slot y → (k < L)%nat → table_at T' k y = Some m → L = S k ∧ get_next_table_from_entry e = Some m.
Proof.
  intros Hy Hs Hk. assert (∃ L', L = S L') as [L' EL] by (exists (pred L); lia). assert (Hbelow : table_at T' L' y = get_next_table_from_entry e) by (by apply write_at_below). destruct (decide (k = L')) as [->|Hne]; [rewrite Hbelow; done|]. intros Hm. exfalso. assert (Hk' : (S k ≤ L')%nat) by lia. clear Hne Hk.
  assert (Hnone : ∀ j, (j < L')%nat → table_at T' j y = None); [|by rewrite Hnone in Hm by lia]. intros j Hj. destruct (get_next_table_from_entry e) as [m'|] eqn:En.
  - destruct (Hgraft L' m' EL En) as (Hnr & Hleaf & _). assert (Htop : ∀ j', (S j' = L')%nat → table_at T' j' y = None).
    { intros j' Ej. rewrite table_at_S, Ej, Hbelow by lia. cbn [mbind option_bind]. unfold lower. assert (Hne : m' ≠ t) by (intros ->; apply Hnr, write_reach). rewrite write_ent by apply index_range. rewrite decide_False by (by intros [? _]). destruct (ent T m' _) as [x|] eqn:Ex; [|done]. cbn [mbind option_bind]. destruct Hleaf as [->|Hleaf]; [lia|by eapply Hleaf]. }
    assert (Hdown : ∀ n j', (j' + S n = L')%nat → table_at T' j' y = None); [|by apply (Hdown (L' - S j)%nat); lia]. induction n as [|n IH]; intros j' Ej; [apply Htop; lia|]. rewrite table_at_S by lia. by rewrite (IH (S j')) by lia.
  - assert (Hdown : ∀ n j', (j' + n = L')%nat → table_at T' j' y = None); [|by apply (Hdown (L' - j)%nat); lia]. induction n as [|n IH]; intros j' Ej; [by replace j' with L' by lia|]. rewrite table_at_S by lia. by rewrite (IH (S j')) by lia.
Qed.

Lemma write_at_cases y k m : (k ≤ 3)%nat → dom y → table_at T' k y = Some m → table_at T k y = Some m ∨ (L = S k ∧ slot y ∧ get_next_table_from_entry e = Some m).
Proof.
  intros Hk Hy Hm. destruct (decide (L ≤ k)%nat) as [Hle|Hgt]; [rewrite write_at in Hm by (done || by left); by left|]. destruct (decide (slot y)) as [Hs|Hns]; [|rewrite write_at in Hm by (done || by right); by left]. right. destruct (graft_at y k m Hy Hs ltac:(lia) Hm). done.
Qed.

Lemma write_tree : tree T'.
Proof.
  intros k k' y y' x Hk Hk' Hy Hy' E E'. destruct (write_at_cases y k x Hk Hy E) as [H1|(E1 & Hs & Hn)], (write_at_cases y' k' x Hk' Hy' E') as [H2|(E2 & Hs' & Hn')].
  - by apply (Htree k k' y y' x).
  - exfalso. destruct (Hgraft k' x E2 Hn') as [Hnr _]. apply Hnr. by exists k, y.
  - exfalso. destruct (Hgraft k x E1 Hn) as [Hnr _]. apply Hnr. by exists k', y'.
  - assert (k = k') as <- by lia. split; [done|]. rewrite <- E1. congruence.
Qed.

Lemma write_reachable x : reachable T' x → reachable T x ∨ ∃ L', L = S L' ∧ get_next_table_from_entry e = Some x.
Proof. intros (k & y & Hk & Hy & E). destruct (write_at_cases y k x Hk Hy E) as [?|(? & _ & ?)]; [left; by exists k, y|right; eauto]. Qed.

Lemma write_full : full T → full T'.
Proof.
  intros Hf x Hx. destruct (decide (x = t)) as [->|Hne]; [exists (<[Z.to_nat i0 := e]> l); by rewrite lookup_insert_eq, length_insert|]. rewrite lookup_insert_ne by done. destruct (write_reachable x Hx) as [?|(L' & E & En)]; [by apply Hf|]. by destruct (Hgraft L' x E En) as (_ & _ & ?).
Qed.

(** If the old entry had no table with tables below it, then no other table is lost. *)
Lemma write_keeps e0 x : ent T t i0 = Some e0 → (∀ L' m, L = S L' → get_next_table_from_entry e0 = Some m → leafy T L' m) → reachable T x → reachable T' x ∨ ∃ L', L = S L' ∧ get_next_table_from_entry e0 = Some x.
Proof.
  intros He0 Hleaf (k & y & Hk & Hy & E). destruct (decide (L ≤ k)%nat) as [Hle|Hgt]; [left; exists k, y; by rewrite write_at by (done || by left)|]. destruct (decide (slot y)) as [Hs|Hns]; [|left; exists k, y; by rewrite write_at by (done || by right)]. right. destruct (slot_at y Hy Hs) as [H1 H2]. assert (∃ L', L = S L') as [L' EL] by (exists (pred L); lia). exists L'. split; [done|].
  assert (Hn : table_at T L' y = get_next_table_from_entry e0) by (rewrite table_at_S, <- EL, H1 by lia; cbn [mbind option_bind]; unfold lower; by rewrite H2, He0). destruct (decide (k = L')) as [->|Hne]; [by rewrite <- Hn|]. exfalso. assert (Hnone : ∀ n j, (j + S n = L')%nat → table_at T j y = None); [|by rewrite (Hnone (L' - S k)%nat) in E by lia].
  induction n as [|n IH]; intros j Ej; rewrite table_at_S by lia; [|by rewrite (IH (S j)) by lia]. replace (S j) with L' by lia. rewrite Hn. destruct (get_next_table_from_entry e0) as [m|] eqn:Em; [|done]. cbn [mbind option_bind]. destruct (Hleaf L' m EL eq_refl) as [?|Hlf]; [lia|]. unfold lower. destruct (ent T m _) as [x'|] eqn:Ex; [|done]. cbn [mbind option_bind]. by eapply Hlf.
Qed.

End write.

(** ** Entries *)

(** The flags that the tables can represent: [ARCH_MMU_FLAG_UNCACHED_DEVICE] is stored like
    [ARCH_MMU_FLAG_UNCACHED]. *)
Definition norm_flags (fl : Z) : Z :=
  Z.lor (Z.lor (Z.lor (if has_flag fl ARCH_MMU_FLAG_PERM_RO then ARCH_MMU_FLAG_PERM_RO else 0) (if has_flag fl ARCH_MMU_FLAG_PERM_USER then ARCH_MMU_FLAG_PERM_USER else 0)) (if has_flag fl ARCH_MMU_FLAG_PERM_NO_EXECUTE then ARCH_MMU_FLAG_PERM_NO_EXECUTE else 0))
    (let c := Z.land fl ARCH_MMU_FLAG_CACHE_MASK in if c =? ARCH_MMU_FLAG_UNCACHED_DEVICE then ARCH_MMU_FLAG_UNCACHED else c).

Definition leaf_flags (L : nat) (fl : Z) : Z := Z.lor (x86_arch_flags L fl) (match L with O => 0 | S _ => X86_MMU_PG_PS end).

(** The entry that maps a page, and the one that points to a table. *)
Definition leaf (L : nat) (pa fl : Z) : Z := Z.lor pa (Z.lor (leaf_flags L fl) X86_MMU_PG_P).
Definition pointer (m : Z) : Z := Z.lor m (Z.lor get_x86_intermediate_arch_flags X86_MMU_PG_P).

Definition page_at_level (L : nat) (pa : Z) : Prop := pa mod page_size L = 0 ∧ 0 ≤ pa ∧ pa + page_size L ≤ 2 ^ 52.

(** Flags are in the lowest bits and in the highest one. *)
Lemma land_aligned pa n f : 0 ≤ n ≤ 52 → 0 ≤ pa < 2 ^ 52 → pa mod 2 ^ n = 0 → (0 ≤ f < 2 ^ n ∨ 0 ≤ f - 2 ^ 63 < 2 ^ n) → Z.land pa f = 0.
Proof.
  intros Hn Hpa Hal Hf. assert (Hlow : ∀ k, 0 ≤ k < n → Z.testbit pa k = false) by (intros k Hk; rewrite <- (Z.mod_pow2_bits_low pa n k) by lia; rewrite Hal; apply Z.bits_0). assert (Hhigh : ∀ k, 52 ≤ k → Z.testbit pa k = false) by (intros k Hk; apply Z.bits_above_log2; [lia|]; destruct (decide (pa = 0)) as [->|]; [cbn; lia|]; apply Z.log2_lt_pow2; [lia|]; pose proof (Z.pow_le_mono_r 2 52 k); lia).
  apply Z.bits_inj'. intros k Hk. rewrite Z.land_spec, Z.bits_0. destruct (decide (k < n)); [by rewrite Hlow by lia|]. destruct (decide (52 ≤ k)); [by rewrite Hhigh by lia|]. assert (E : Z.testbit f k = false); [|by rewrite E, andb_false_r].
  assert (Hsmall : ∀ g, 0 ≤ g < 2 ^ n → Z.testbit g k = false) by (intros g Hg; destruct (decide (g = 0)) as [->|]; [apply Z.bits_0|]; apply Z.bits_above_log2; [lia|]; assert (Z.log2 g < n) by (apply Z.log2_lt_pow2; lia); lia). destruct Hf as [Hf|Hf]; [by apply Hsmall|]. rewrite <- (Z.mod_pow2_bits_low f 63 k) by lia. assert (Hp : 2 ^ n ≤ 2 ^ 52) by (apply Z.pow_le_mono_r; lia). replace (f mod 2 ^ 63) with (f - 2 ^ 63) by (apply (Z.mod_unique _ _ 1); lia). by apply Hsmall.
Qed.

Lemma land_frame pa n : 12 ≤ n ≤ 52 → 0 ≤ pa < 2 ^ 52 → pa mod 2 ^ n = 0 → Z.land pa (2 ^ 52 - 2 ^ n) = pa.
Proof.
  intros Hn Hpa Hal. assert (Hp : 2 ^ n ≤ 2 ^ 52) by (apply Z.pow_le_mono_r; lia). replace (2 ^ 52 - 2 ^ n) with (Z.ldiff (Z.ones 52) (Z.ones n)); [|rewrite Z.ldiff_ones_r by lia; rewrite Z.shiftl_mul_pow2, Z.shiftr_div_pow2, Z.ones_equiv by lia; replace (Z.pred (2 ^ 52) / 2 ^ n) with (2 ^ (52 - n) - 1); [rewrite Z.mul_sub_distr_r, <- Z.pow_add_r by lia; replace (52 - n + n) with 52 by lia; lia|]].
  - rewrite Z.ldiff_land, Z.land_assoc, <- Z.ldiff_land, Z.land_ones, Z.mod_small by lia. rewrite Z.ldiff_ones_r, Z.shiftl_mul_pow2, Z.shiftr_div_pow2 by lia. pose proof (Z.div_mod pa (2 ^ n) ltac:(lia)). lia.
  - apply (Z.div_unique _ _ _ (2 ^ n - 1)); [lia|]. replace (2 ^ 52) with (2 ^ n * 2 ^ (52 - n)) by (rewrite <- Z.pow_add_r by lia; f_equal; lia). lia.
Qed.

Lemma level_range L : (L ≤ 2)%nat → 12 ≤ shift_of L ≤ 30.
Proof. unfold shift_of. lia. Qed.

(** The five bits of the flags. *)
Lemma cache_cases fl : Z.land fl ARCH_MMU_FLAG_CACHE_MASK = 0 ∨ Z.land fl ARCH_MMU_FLAG_CACHE_MASK = 1 ∨ Z.land fl ARCH_MMU_FLAG_CACHE_MASK = 2 ∨ Z.land fl ARCH_MMU_FLAG_CACHE_MASK = 3.
Proof. change ARCH_MMU_FLAG_CACHE_MASK with (Z.ones 2). rewrite Z.land_ones by lia. pose proof (Z.mod_pos_bound fl (2 ^ 2)). lia. Qed.

Ltac flag_cases fl :=
  unfold leaf_flags, x86_arch_flags, norm_flags; destruct (has_flag fl ARCH_MMU_FLAG_PERM_RO), (has_flag fl ARCH_MMU_FLAG_PERM_USER), (has_flag fl ARCH_MMU_FLAG_PERM_NO_EXECUTE), (cache_cases fl) as [->|[->|[->| ->]]]; vm_compute; done.

Lemma leaf_mask_frame L fl : (L ≤ 2)%nat → Z.land (Z.lor (leaf_flags L fl) X86_MMU_PG_P) (page_frame L) = 0.
Proof. intros HL. assert (L = 0 ∨ L = 1 ∨ L = 2)%nat as [->|[->| ->]] by lia; flag_cases fl. Qed.

Lemma leaf_frame L pa fl : (L ≤ 2)%nat → page_at_level L pa → Z.land (leaf L pa fl) (page_frame L) = pa.
Proof.
  intros HL (Hal & H0 & H1). pose proof (level_range L HL). pose proof (ps_pos L). unfold leaf. rewrite Z.land_lor_distr_l, leaf_mask_frame, Z.lor_0_r by done. unfold page_frame, page_size in *. apply land_frame; lia.
Qed.

(** A test of flags sees those of the entry. *)
Lemma leaf_land L pa fl f : (L ≤ 2)%nat → page_at_level L pa → (0 ≤ f < page_size L ∨ 0 ≤ f - 2 ^ 63 < page_size L) → Z.land (leaf L pa fl) f = Z.land (Z.lor (leaf_flags L fl) X86_MMU_PG_P) f.
Proof.
  intros HL (Hal & H0 & H1) Hf. pose proof (level_range L HL). pose proof (ps_pos L). unfold leaf. rewrite Z.land_lor_distr_l. unfold page_size in *. rewrite (land_aligned pa (shift_of L) f) by (done || lia). done.
Qed.

Ltac small_level HL := match type of HL with (?L ≤ 2)%nat => assert (L = 0 ∨ L = 1 ∨ L = 2)%nat as [->|[->| ->]] by lia end.

Lemma leaf_present L pa fl : (L ≤ 2)%nat → page_at_level L pa → IS_PAGE_PRESENT (leaf L pa fl) = true.
Proof. intros HL Hpa. unfold IS_PAGE_PRESENT, has_flag. rewrite (leaf_land L pa fl X86_MMU_PG_P) by (done || (left; unfold X86_MMU_PG_P, page_size; pose proof (Z.pow_le_mono_r 2 12 (shift_of L)); pose proof (level_range L HL); lia)). small_level HL; flag_cases fl. Qed.

Lemma leaf_large L pa fl : (L < 2)%nat → page_at_level (S L) pa → IS_LARGE_PAGE (leaf (S L) pa fl) = true.
Proof. intros HL Hpa. unfold IS_LARGE_PAGE, has_flag. rewrite (leaf_land (S L) pa fl X86_MMU_PG_PS) by (lia || done || (left; unfold X86_MMU_PG_PS, page_size; pose proof (Z.pow_le_mono_r 2 12 (shift_of (S L))); pose proof (level_range (S L)); lia)). assert (L = 0 ∨ L = 1)%nat as [->| ->] by lia; flag_cases fl. Qed.

Lemma leaf_mmu_flags L pa fl : (L ≤ 2)%nat → page_at_level L pa → arch_mmu_flags (leaf L pa fl) L = Some (norm_flags fl).
Proof.
  intros HL Hpa. pose proof (level_range L HL). assert (H12 : 2 ^ 12 ≤ page_size L) by (apply Z.pow_le_mono_r; lia). unfold arch_mmu_flags, has_flag. rewrite (leaf_land L pa fl X86_MMU_PG_RW), (leaf_land L pa fl X86_MMU_PG_U), (leaf_land L pa fl X86_MMU_PG_NX) by (done || (unfold X86_MMU_PG_RW, X86_MMU_PG_U, X86_MMU_PG_NX; lia)). rewrite (leaf_land L pa fl (X86_PAT_SELECTOR L 7)) by (done || (left; small_level HL; vm_compute; done)). small_level HL; flag_cases fl.
Qed.

Lemma pointer_ok m : page_at_level 0 m → IS_PAGE_PRESENT (pointer m) = true ∧ IS_LARGE_PAGE (pointer m) = false ∧ Z.land (pointer m) X86_PG_FRAME = m ∧ get_next_table_from_entry (pointer m) = Some m.
Proof.
  intros (Hal & H0 & H1). unfold page_size, shift_of in *. change (12 + 9 * Z.of_nat 0) with 12 in *. assert (Hf : ∀ f, 0 ≤ f < 2 ^ 12 → Z.land (pointer m) f = Z.land (Z.lor get_x86_intermediate_arch_flags X86_MMU_PG_P) f) by (intros f Hf; unfold pointer; rewrite Z.land_lor_distr_l, (land_aligned m 12 f) by lia; done).
  assert (Hp : IS_PAGE_PRESENT (pointer m) = true) by (unfold IS_PAGE_PRESENT, has_flag; rewrite Hf by (unfold X86_MMU_PG_P; lia); done). assert (Hl : IS_LARGE_PAGE (pointer m) = false) by (unfold IS_LARGE_PAGE, has_flag; rewrite Hf by (unfold X86_MMU_PG_PS; lia); done). assert (Hfr : Z.land (pointer m) X86_PG_FRAME = m) by (unfold pointer; rewrite Z.land_lor_distr_l; unfold X86_PG_FRAME; rewrite land_frame by lia; by rewrite Z.lor_0_r). split; [done|]. split; [done|]. split; [done|]. by apply next_entry.
Qed.

(** The flags of a large page, moved to those of its parts. *)
Lemma split_leaf L pa fl : (L < 2)%nat → page_at_level (S L) pa → Z.lor (split_flags (S L) (Z.land (leaf (S L) pa fl) X86_LARGE_FLAGS_MASK)) X86_MMU_PG_P = Z.lor (leaf_flags L fl) X86_MMU_PG_P ∧ has_flag (Z.land (leaf (S L) pa fl) X86_LARGE_FLAGS_MASK) X86_MMU_PG_PS = true.
Proof.
  intros HL Hpa. assert (H21 : 2 ^ 21 ≤ page_size (S L)) by (apply Z.pow_le_mono_r; unfold shift_of; lia). rewrite (leaf_land (S L) pa fl X86_LARGE_FLAGS_MASK) by (lia || done || (right; unfold X86_LARGE_FLAGS_MASK; lia)). assert (L = 0 ∨ L = 1)%nat as [->| ->] by lia; (split; flag_cases fl).
Qed.
End tree. End X86Tables.
