(* ===== verification/X86Entries.v ===== *)
(** * Entries and tables of x86-64

    The translation of an address is what the walk of the tables finds.  The primitive
    changes - writing an entry, putting a new table under one, splitting a large page,
    taking an empty table away - are shown to keep the invariant of the tables and of the
    pages that hold them, with what they do to the translation. *)

From stdpp Require Import base tactics numbers list list_numbers gmap.
From Stdlib Require Import ZArith Lia.
From S2P Require Import Prelude Pmm PmmFacts VmObject VmObjectFacts VmAspace X86Mmu X86Tables.
#[local] Open Scope Z_scope.

Module X86Entries.
Import Pmm PmmFacts VmObject VmObjectFacts VmAspace X86Mmu X86Tables.

Section facts.
Context (maps : list mmu_initial_mapping) (root cr3 : Z).
Implicit Types T : tables.
Implicit Types s : pmm.
Implicit Types st : mmu.
Notation table_at := (X86Tables.table_at root).
Notation reachable := (X86Tables.reachable root).
Notation tree := (X86Tables.tree root).
Notation full := (X86Tables.full root).
Notation Tb st := (mm_tables st).

(** ** Translations *)

(** The physical address and the flags. *)
Definition view T (y : Z) : option (Z * Z) := '(L, e) ← walk T 3 root y; f ← arch_mmu_flags e L; Some (Z.land e (page_frame L) + y mod page_size L, f).

(** An entry that maps a page maps a whole one, with flags of the kernel. *)
Definition entry_ok (L : nat) (e : Z) : Prop := IS_PAGE_PRESENT e = true → L = O ∨ IS_LARGE_PAGE e = true → (L ≤ 2)%nat ∧ ∃ pa fl, e = leaf L pa fl ∧ page_at_level L pa.

(** ** The memory of the tables *)

(** The kernel has the pages that it can use for tables mapped at one offset. *)
Definition physmap s : Prop := ∀ a i, a ∈ arenas s → eligible PMM_ALLOC_FLAG_KMAP a = true → 0 ≤ i < npages a →
  paddr_to_kvaddr maps (ar_base a + i * PAGE_SIZE) = Some (u64 (ar_base a + i * PAGE_SIZE + KERNEL_ASPACE_BASE)) ∧ ar_base a + i * PAGE_SIZE + PAGE_SIZE ≤ 2 ^ 52.

Definition table_page : vm_page := mk_page false VM_PAGE_STATE_ALLOC.

(** The page of a table is allocated. *)
Definition held s (t : Z) : Prop := page_at_level 0 t ∧ ∃ p, paddr_to_vm_page s t = Some p ∧ vm_page_to_paddr s p = t ∧ pages s !! p = Some table_page.

Record mmu_ok st : Prop := {
  mo_pmm : pmm_inv (mm_pmm st);
  mo_map : physmap (mm_pmm st);
  mo_tree : tree (Tb st);
  mo_full : full (Tb st);
  mo_held t : reachable (Tb st) t → held (mm_pmm st) t;
  mo_entry L y t e : (L ≤ 3)%nat → dom y → table_at (Tb st) L y = Some t → ent (Tb st) t (vaddr_to_index L y) = Some e → entry_ok L e }.

(** The pages that are free or hold a table. *)
Definition avail st (p : Z) : Prop := pages (mm_pmm st) !! p = Some free_page ∨ ∃ t, reachable (Tb st) t ∧ paddr_to_vm_page (mm_pmm st) t = Some p.

(** The page of an address at a level was invalidated. *)
Definition flushes (l : list (Z * Z * nat * bool)) (y : Z) : Prop := ∃ va L g, (cr3, va, L, g) ∈ l ∧ y / page_size L = va / page_size L.

(** No page is lost, the pages of others and what is in them are left alone, at most [c] pages are taken for
    tables, and every translation that is changed or removed is invalidated. *)
Record evolves (c : Z) st st' : Prop := {
  ev_geo : geo <$> arenas (mm_pmm st') = geo <$> arenas (mm_pmm st);
  ev_avail p : avail st' p ↔ avail st p;
  ev_others p : ¬ avail st p → pages (mm_pmm st') !! p = pages (mm_pmm st) !! p;
  ev_tables t p : paddr_to_vm_page (mm_pmm st) t = Some p → ¬ avail st p → Tb st' !! t = Tb st !! t;
  ev_spent : ∃ X, zlen X ≤ c ∧ ∀ p, pages (mm_pmm st) !! p = Some free_page → p ∉ X → pages (mm_pmm st') !! p = Some free_page;
  ev_tlb : ∃ l, mm_tlb st' = mm_tlb st ++ l ∧ ∀ y, dom y → view (Tb st) y ≠ None → view (Tb st') y ≠ view (Tb st) y → flushes l y }.

Lemma evolves_refl st : evolves 0 st st.
Proof. split; [done|done|done|done|by exists []|]. exists []. by rewrite app_nil_r. Qed.

Lemma evolves_mono c c' st st' : c ≤ c' → evolves c st st' → evolves c' st st'.
Proof. intros Hc [G A O D (X & Hl & HX) F]. split; [done|done|done|done| |done]. exists X. split; [lia|done]. Qed.

Lemma evolves_trans c c' st st1 st2 : evolves c st st1 → evolves c' st1 st2 → evolves (c + c') st st2.
Proof.
  intros [G1 A1 O1 D1 (X1 & S1 & P1) (l1 & E1 & F1)] [G2 A2 O2 D2 (X2 & S2 & P2) (l2 & E2 & F2)]. split; [congruence|intros p; by rewrite A2|intros p Hp; rewrite O2 by (by rewrite A1); auto|intros t p Hp Hn; rewrite (D2 t p), (D1 t p); [done|done|done|by rewrite (paddr_geo _ _ _ G1)|by rewrite A1]|exists (X1 ++ X2); split; [unfold zlen in *; rewrite length_app; lia|]; intros p Hp Hn; rewrite not_elem_of_app in Hn; apply P2; [apply P1|]; tauto|]. exists (l1 ++ l2). rewrite E2, E1, app_assoc. split; [done|]. intros y Hy Hn Hd. destruct (decide (view (Tb st1) y = view (Tb st) y)) as [E|Hne].
  - destruct (F2 y Hy) as (va & L & g & Hin & Hs); [by rewrite E|by rewrite E|]. exists va, L, g. rewrite elem_of_app. auto.
  - destruct (F1 y Hy Hn Hne) as (va & L & g & Hin & Hs). exists va, L, g. rewrite elem_of_app. auto.
Qed.

(** The tables above a level are unchanged. *)
Definition above (L : nat) T T' : Prop := ∀ k y t, (L < k ≤ 3)%nat → dom y → table_at T k y = Some t → T' !! t = T !! t.

Lemma above_at L T T' k y : above L T T' → (L ≤ k ≤ 3)%nat → dom y → table_at T' k y = table_at T k y.
Proof.
  intros Ha [Hk1 Hk] Hy. revert k Hk Hk1. apply (down_ind (λ k, (L ≤ k)%nat → table_at T' k y = table_at T k y)); [done|]. intros k Hk IH Hle. rewrite !(table_at_S _ _ k) by done. rewrite IH by lia. destruct (table_at T (S k) y) as [t|] eqn:E; [|done]. cbn [mbind option_bind]. unfold lower, ent. by rewrite (Ha (S k) y t) by (done || lia).
Qed.

Lemma above_refl L T : above L T T.
Proof. done. Qed.

Lemma above_trans L L' T T1 T2 : (L' ≤ L)%nat → above L' T T1 → above L T1 T2 → above L T T2.
Proof. intros HL H1 H2 k y t Hk Hy Ht. rewrite (H2 k y t), (H1 k y t); [done|lia|done|done|done|done|]. by rewrite (above_at L' T T1 k y) by (done || lia). Qed.

Lemma above_mono L L' T T' : (L' ≤ L)%nat → above L' T T' → above L T T'.
Proof. intros HL H1 k y t Hk. apply H1. lia. Qed.

(** Fewer than [c] pages can be used for tables. *)
Definition starved (c : Z) st : Prop := ∃ X, zlen X < c ∧ ∀ a p, a ∈ arenas (mm_pmm st) → eligible PMM_ALLOC_FLAG_KMAP a = true → p ∈ free_list a → p ∈ X.

Lemma starved_mono c c' st : c ≤ c' → starved c st → starved c' st.
Proof. intros Hc (X & Hl & HX). exists X. split; [lia|done]. Qed.

Lemma starved_evolves c c' st st1 : mmu_ok st → mmu_ok st1 → evolves c st st1 → starved c' st1 → starved (c + c') st.
Proof.
  intros Hok Hok1 [Hg _ _ _ (X1 & S1 & P1) _] (X2 & S2 & P2). exists (X1 ++ X2). split; [unfold zlen in *; rewrite length_app; lia|]. intros a p Ha He Hp. rewrite elem_of_app. destruct (decide (p ∈ X1)) as [?|Hn]; [by left|]. right. destruct (proj1 (ao_free _ _ (pi_arenas _ (mo_pmm _ Hok) a Ha) p) Hp) as [(i & Hi & Ep) Hf]. specialize (P1 p Hf Hn).
  assert (Hin : geo a ∈ geo <$> arenas (mm_pmm st1)) by (rewrite Hg; by apply list_elem_of_fmap_2). apply list_elem_of_fmap in Hin as (b & E & Hb). unfold geo, set_free in E. injection E as Ef _ _ Es Ea. apply (P2 b p Hb); [unfold eligible in *; by rewrite <- Ef|]. apply (ao_free _ _ (pi_arenas _ (mo_pmm _ Hok1) b Hb) p). split; [|done]. exists i. unfold npages, page_at in *. by rewrite <- Es, <- Ea.
Qed.

Lemma at_reach T L y t : (L ≤ 3)%nat → dom y → table_at T L y = Some t → reachable T t.
Proof. intros HL Hy Ht. by exists L, y. Qed.

Lemma ok_entry st L y t : mmu_ok st → (L ≤ 3)%nat → dom y → table_at (Tb st) L y = Some t → ∃ e, read_entry st t (vaddr_to_index L y) = Some e ∧ entry_ok L e.
Proof. intros Hok HL Hy Ht. destruct (full_ent root (Tb st) t (vaddr_to_index L y)) as [e He]; [apply Hok|by eapply at_reach|apply index_range|]. exists e. split; [done|]. by eapply (mo_entry _ Hok). Qed.

(** ** Writes that keep the set of tables *)

(** An entry that is no pointer to a table. *)
Definition plain (L : nat) (e : Z) : Prop := L = O ∨ get_next_table_from_entry e = None.

(** What such an entry translates to. *)
Definition entry_view (L : nat) (e y : Z) : option (Z * Z) := if negb (IS_PAGE_PRESENT e) then None else f ← arch_mmu_flags e L; Some (Z.land e (page_frame L) + y mod page_size L, f).

Lemma plain_absent L e : IS_PAGE_PRESENT e = false → plain L e.
Proof. intros E. right. unfold get_next_table_from_entry. by rewrite E. Qed.

Lemma plain_large L e : IS_LARGE_PAGE e = true → plain L e.
Proof. intros E. right. unfold get_next_table_from_entry. by rewrite E, orb_true_r. Qed.

Lemma not_plain e : IS_PAGE_PRESENT e = true → IS_LARGE_PAGE e = false → get_next_table_from_entry e = Some (Z.land e X86_PG_FRAME).
Proof. intros E1 E2. by apply next_entry. Qed.

Lemma plain_next L e : plain (S L) e → IS_PAGE_PRESENT e = true → IS_LARGE_PAGE e = true.
Proof. intros [?|Hn] Hp; [done|]. destruct (IS_LARGE_PAGE e) eqn:E; [done|]. by rewrite (not_plain e Hp E) in Hn. Qed.

Lemma leaf_plain L pa fl : (L ≤ 2)%nat → page_at_level L pa → plain L (leaf L pa fl).
Proof. intros HL Hpa. destruct L as [|L]; [by left|]. apply plain_large, leaf_large; [lia|done]. Qed.

Lemma leaf_entry_ok L pa fl : (L ≤ 2)%nat → page_at_level L pa → entry_ok L (leaf L pa fl).
Proof. intros HL Hpa _ _. split; [done|]. by exists pa, fl. Qed.

Lemma leaf_view L pa fl y : (L ≤ 2)%nat → page_at_level L pa → entry_view L (leaf L pa fl) y = Some (pa + y mod page_size L, norm_flags fl).
Proof. intros HL Hpa. unfold entry_view. rewrite leaf_present, leaf_mmu_flags, leaf_frame by done. done. Qed.

Lemma absent_view L e y : IS_PAGE_PRESENT e = false → entry_view L e y = None.
Proof. intros E. unfold entry_view. by rewrite E. Qed.

(** The view below a table, and at a plain entry of it. *)
Lemma plain_view T L y t e : (L ≤ 3)%nat → table_at T L y = Some t → ent T t (vaddr_to_index L y) = Some e → plain L e → view T y = entry_view L e y.
Proof.
  intros HL Ht He Hp. unfold view, entry_view. rewrite (walk_at root T L y t HL Ht). destruct L as [|L]; cbn [walk]; rewrite He; cbn [mbind option_bind]; destruct (IS_PAGE_PRESENT e) eqn:E; try done; cbn [negb]. by rewrite (plain_next L e Hp E).
Qed.

Lemma graft_plain T L e : plain L e → grafts root T L e.
Proof. intros [->|E] L' m EL En; [done|congruence]. Qed.

Section plain_write.
Context st (L : nat) (y0 t e0 e : Z) (tlb : list (Z * Z * nat * bool)).
Context (Hok : mmu_ok st) (HL : (L ≤ 3)%nat) (Hy0 : dom y0) (Hat : table_at (Tb st) L y0 = Some t) (He0 : read_entry st t (vaddr_to_index L y0) = Some e0) (Hp0 : plain L e0) (Hp : plain L e) (Hee : entry_ok L e).
Notation slot y := (y / page_size L = y0 / page_size L).

Lemma table_there : ∃ l, Tb st !! t = Some l ∧ length l = 512%nat.
Proof. apply (mo_full _ Hok). by exists L, y0. Qed.

Lemma plain_write_eq : ∃ l, Tb st !! t = Some l ∧ length l = 512%nat ∧ write_entry st t (vaddr_to_index L y0) e = Some (mk_mmu (mm_pmm st) (<[t := <[Z.to_nat (vaddr_to_index L y0) := e]> l]> (Tb st)) (mm_tlb st)).
Proof. destruct table_there as (l & E & Hl). exists l. split; [done|]. split; [done|]. unfold write_entry. rewrite E. cbn [mbind option_bind]. unfold zlen. rewrite Hl. pose proof (index_range L y0). by rewrite (proj2 (Z.ltb_lt _ _)) by lia. Qed.

Context (l : list Z) (Hl : Tb st !! t = Some l) (Hlen : length l = 512%nat).
Notation T' := (<[t := <[Z.to_nat (vaddr_to_index L y0) := e]> l]> (Tb st)).

Lemma plain_write_at k y : (k ≤ 3)%nat → dom y → table_at T' k y = table_at (Tb st) k y.
Proof.
  intros Hk Hy. pose proof (mo_tree _ Hok) as Ht. destruct (decide (L ≤ k)%nat) as [?|Hgt]; [apply write_at; (done || by left)|]. destruct (decide (slot y)) as [Hs|Hns]; [|apply write_at; (done || by right)]. assert (∃ L', L = S L') as [L' EL] by (exists (pred L); lia).
  assert (H1 : table_at T' L' y = None) by (rewrite (write_at_below root (Tb st) L y0 t e l Ht HL Hy0 Hat Hl Hlen y L' Hy Hs EL); destruct Hp; [lia|done]). assert (H0 : table_at (Tb st) L' y = None).
  { destruct (slot_at root (Tb st) L y0 t HL Hy0 Hat y Hy Hs) as [H2 H3]. rewrite table_at_S, <- EL, H2 by lia. cbn [mbind option_bind]. unfold lower. rewrite H3. change (ent (Tb st) t (vaddr_to_index L y0)) with (read_entry st t (vaddr_to_index L y0)). rewrite He0. cbn [mbind option_bind]. destruct Hp0; [lia|done]. }
  assert (Hn : ∀ T n j, table_at T L' y = None → (j + n = L')%nat → table_at T j y = None); [|by rewrite !(Hn _ (L' - k)%nat) by (done || lia)]. intros T n. induction n as [|n IH]; intros j Hn Ej; [by replace j with L' by lia|]. rewrite table_at_S by lia. by rewrite (IH (S j)) by (done || lia).
Qed.

Lemma plain_write_reach x : reachable T' x ↔ reachable (Tb st) x.
Proof. split; intros (k & y & Hk & Hy & E); exists k, y; (split; [done|]; split; [done|]); [by rewrite <- plain_write_at|by rewrite plain_write_at]. Qed.

Lemma plain_write_view y : dom y → view T' y = if decide (slot y) then entry_view L e y else view (Tb st) y.
Proof.
  intros Hy. destruct (decide (slot y)) as [Hs|Hns].
  - destruct (slot_at root (Tb st) L y0 t HL Hy0 Hat y Hy Hs) as [H2 H3]. apply (plain_view T' L y t e HL); [by rewrite plain_write_at| |done]. rewrite (write_ent (Tb st) L y0 t e l HL Hl Hlen) by apply index_range. by rewrite decide_True.
  - unfold view. by rewrite (write_walk_other root (Tb st) L y0 t e l (mo_tree _ Hok) HL Hy0 Hat Hl Hlen y Hy Hns).
Qed.

Lemma plain_write_ok : mmu_ok (mk_mmu (mm_pmm st) T' tlb).
Proof.
  pose proof Hok as [M1 M2 M3 M4 M5 M6]. pose proof (graft_plain (Tb st) L e Hp) as Hg. split; cbn [mm_pmm mm_tables]; [done|done|by apply write_tree|by apply write_full|intros x; rewrite plain_write_reach; apply M5|]. intros k y t2 x Hk Hy Ht. rewrite plain_write_at in Ht by done. rewrite (write_ent (Tb st) L y0 t e l HL Hl Hlen) by apply index_range. destruct (decide _) as [[-> Hi]|Hni]; [|by apply (M6 k y t2)]. intros [= <-]. by destruct (M3 k L y y0 t Hk HL Hy Hy0 Ht Hat) as [-> _].
Qed.

Lemma plain_write_above : above L (Tb st) T'.
Proof. intros k y t2 Hk Hy Ht. apply lookup_insert_ne. intros <-. destruct (mo_tree _ Hok k L y y0 t) as [? _]; (done || lia). Qed.

Lemma plain_write_evolves d : tlb = mm_tlb st ++ d → (∀ y, dom y → slot y → view (Tb st) y = None ∨ flushes d y ∨ view T' y = view (Tb st) y) → evolves 0 st (mk_mmu (mm_pmm st) T' tlb).
Proof.
  intros Et Hf. split; cbn [mm_pmm mm_tables mm_tlb]; [done| |done| |by exists []|].
  - intros p. unfold avail. cbn [mm_pmm mm_tables]. by setoid_rewrite plain_write_reach.
  - intros t2 q Hq Hn. apply lookup_insert_ne. intros <-. apply Hn. right. exists t. split; [by exists L, y0|done].
  - exists d. split; [done|]. intros y Hy Hn Hd. destruct (decide (slot y)) as [Hs|Hns]; [|rewrite plain_write_view, decide_False in Hd by done; done]. by destruct (Hf y Hy Hs) as [?|[?|?]].
Qed.

End plain_write.

(** What a write of a plain entry over a plain one does. *)
Record rewrites st (L : nat) (y0 t e : Z) st' : Prop := {
  rw_ok : mmu_ok st';
  rw_evolves : evolves 0 st st';
  rw_above : above L (Tb st) (Tb st');
  rw_at k y : (k ≤ 3)%nat → dom y → table_at (Tb st') k y = table_at (Tb st) k y;
  rw_view y : dom y → view (Tb st') y = if decide (y / page_size L = y0 / page_size L) then entry_view L e y else view (Tb st) y;
  rw_ent i : 0 ≤ i → read_entry st' t i = if decide (i = vaddr_to_index L y0) then Some e else read_entry st t i }.

Lemma write_plain st L y0 t e0 e : mmu_ok st → (L ≤ 3)%nat → dom y0 → table_at (Tb st) L y0 = Some t → read_entry st t (vaddr_to_index L y0) = Some e0 → plain L e0 → plain L e → entry_ok L e →
  ∃ T', write_entry st t (vaddr_to_index L y0) e = Some (mk_mmu (mm_pmm st) T' (mm_tlb st)) ∧
    ∀ d, (∀ y, dom y → y / page_size L = y0 / page_size L → view (Tb st) y = None ∨ flushes d y) → rewrites st L y0 t e (mk_mmu (mm_pmm st) T' (mm_tlb st ++ d)).
Proof.
  intros Hok HL Hy0 Hat He0 Hp0 Hp Hee. destruct (plain_write_eq st L y0 t e Hok HL Hy0 Hat) as (l & Hl & Hlen & E). eexists. split; [exact E|]. intros d Hd. split; cbn [mm_tables].
  - by apply (plain_write_ok st L y0 t e0).
  - apply (plain_write_evolves st L y0 t e0) with (d := d); try done. intros y Hy Hs. destruct (Hd y Hy Hs); auto.
  - by apply plain_write_above.
  - by apply (plain_write_at st L y0 t e0).
  - by apply (plain_write_view st L y0 t e0).
  - intros i Hi. unfold read_entry. cbn [mm_tables]. change (ent (<[t := <[Z.to_nat (vaddr_to_index L y0) := e]> l]> (Tb st)) t i = if decide (i = vaddr_to_index L y0) then Some e else ent (Tb st) t i). rewrite (write_ent (Tb st) L y0 t e l HL Hl Hlen) by done. apply decide_ext. tauto.
Qed.

(** Old translations of the slot are those of the old entry. *)
Lemma slot_view st L y0 t e0 y : mmu_ok st → (L ≤ 3)%nat → dom y0 → dom y → table_at (Tb st) L y0 = Some t → read_entry st t (vaddr_to_index L y0) = Some e0 → plain L e0 → y / page_size L = y0 / page_size L → view (Tb st) y = entry_view L e0 y.
Proof.
  intros Hok HL Hy0 Hy Hat He0 Hp Hs. destruct (slot_at root (Tb st) L y0 t HL Hy0 Hat y Hy Hs) as [H2 H3]. apply (plain_view (Tb st) L y t e0 HL H2); [by rewrite H3|done].
Qed.

Lemma aligned_page L x : x mod page_size L = 0 → IS_PAGE_ALIGNED x = true.
Proof. intros E. apply PmmFacts.page_aligned. induction L as [|L IH]; [done|]. apply IH. rewrite ps_S in E. apply Z.mod_divide; [pose proof (ps_pos L); lia|]. apply Z.mod_divide in E; [|pose proof (ps_pos L); lia]. destruct E as [q Eq]. exists (q * 512). lia. Qed.

(** A page is mapped in place of nothing or of another one. *)
Lemma update_leaf st L va t e0 pa flags fl : mmu_ok st → (L ≤ 2)%nat → dom va → table_at (Tb st) L va = Some t → read_entry st t (vaddr_to_index L va) = Some e0 → plain L e0 → page_at_level L pa → Z.lor flags X86_MMU_PG_P = Z.lor (leaf_flags L fl) X86_MMU_PG_P →
  ∃ st', update_entry L st cr3 va t (vaddr_to_index L va) pa flags = Some st' ∧ rewrites st L va t (leaf L pa fl) st'.
Proof.
  intros Hok HL Hva Hat He0 Hp0 Hpa Ef. destruct (write_plain st L va t e0 (leaf L pa fl) Hok ltac:(lia) Hva Hat He0 Hp0 (leaf_plain L pa fl HL Hpa) (leaf_entry_ok L pa fl HL Hpa)) as (T' & E & Hrw). unfold update_entry. destruct Hpa as (Hal & ?). rewrite (aligned_page L pa Hal), He0. cbn [mbind option_bind]. rewrite Ef. change (Z.lor pa (Z.lor (leaf_flags L fl) X86_MMU_PG_P)) with (leaf L pa fl). rewrite E. cbn [mbind option_bind]. eexists. split; [done|]. destruct (IS_PAGE_PRESENT e0) eqn:Ep.
  - apply Hrw. intros y Hy Hs. right. eexists va, L, _. split; [by left|done].
  - rewrite <- (app_nil_r (mm_tlb st)). apply Hrw. intros y Hy Hs. left. rewrite (slot_view st L va t e0 y) by (done || lia). by apply absent_view.
Qed.

(** A page is unmapped. *)
Lemma clear_leaf st L va t e0 : mmu_ok st → (L ≤ 3)%nat → dom va → table_at (Tb st) L va = Some t → read_entry st t (vaddr_to_index L va) = Some e0 → plain L e0 →
  ∃ st', unmap_entry L st cr3 va t (vaddr_to_index L va) true = Some st' ∧ rewrites st L va t 0 st'.
Proof.
  intros Hok HL Hva Hat He0 Hp0. destruct (write_plain st L va t e0 0 Hok HL Hva Hat He0 Hp0) as (T' & E & Hrw); [by apply plain_absent|by intros ?|]. unfold unmap_entry. rewrite He0. cbn [mbind option_bind]. rewrite E. cbn [mbind option_bind andb]. eexists. split; [done|]. destruct (IS_PAGE_PRESENT e0) eqn:Ep.
  - apply Hrw. intros y Hy Hs. right. eexists va, L, _. split; [by left|done].
  - rewrite <- (app_nil_r (mm_tlb st)). apply Hrw. intros y Hy Hs. left. rewrite (slot_view st L va t e0 y) by done. by apply absent_view.
Qed.

(** ** New tables *)

Lemma physmap_geo s s' : geo <$> arenas s' = geo <$> arenas s → physmap s → physmap s'.
Proof.
  intros Hg Hp a i Ha He Hi. assert (Hin : geo a ∈ geo <$> arenas s) by (rewrite <- Hg; by apply list_elem_of_fmap_2). apply list_elem_of_fmap in Hin as (b & E & Hb). unfold geo, set_free in E. injection E as Ef _ Eb Es _. unfold npages, eligible in *. rewrite Eb. rewrite Es in Hi. rewrite Ef in He. by apply Hp.
Qed.

(** The state after the page of a new table was taken. *)
Record took st (m p : Z) s : Prop := {
  tk_inv : pmm_inv s;
  tk_geo : geo <$> arenas s = geo <$> arenas (mm_pmm st);
  tk_free : pages (mm_pmm st) !! p = Some free_page;
  tk_page : paddr_to_vm_page (mm_pmm st) m = Some p;
  tk_held : held s m;
  tk_pages q : pages s !! q = if decide (q = p) then Some table_page else pages (mm_pmm st) !! q }.

(** A page for a table: no memory, or a page that was free. *)
Lemma kpage_ok st : pmm_inv (mm_pmm st) → physmap (mm_pmm st) →
  (pmm_alloc_kpage (mm_pmm st) maps = Some (None, mm_pmm st) ∧ starved 1 st) ∨
  ∃ m p s, pmm_alloc_kpage (mm_pmm st) maps = Some (Some (u64 (m + KERNEL_ASPACE_BASE), m), s) ∧ u64 (u64 (m + KERNEL_ASPACE_BASE) - KERNEL_ASPACE_BASE) = m ∧ took st m p s.
Proof.
  intros Hi Hm. destruct (alloc_page_spec (mm_pmm st) PMM_ALLOC_FLAG_KMAP Hi) as (r & s & E & Hr). unfold pmm_alloc_kpage. rewrite E. cbn [mbind option_bind]. destruct r as [[p pa]|]; [|left; destruct Hr as [-> Hn]; split; [done|]; exists []; split; [done|]; intros a p Ha He; by rewrite (Hn a Ha He)].
  right. destruct Hr as (Hcl & Epa & a & Ha & He & Hpf). destruct (proj1 (ao_free _ _ (pi_arenas _ Hi a Ha) p) Hpf) as [(i & Hb & ->) Hfree]. rewrite (to_paddr _ a i Hi Ha Hb) in Epa. subst pa. destruct (Hm a i Ha He Hb) as [Ek H52]. rewrite Ek. cbn [mbind option_bind]. destruct (page_base _ a i Hi Ha Hb) as (Hal & H0 & _). set (pa := ar_base a + i * PAGE_SIZE) in *.
  assert (Em : u64 (u64 (pa + KERNEL_ASPACE_BASE) - KERNEL_ASPACE_BASE) = pa) by (unfold u64; rewrite Zminus_mod_idemp_l; replace (pa + KERNEL_ASPACE_BASE - KERNEL_ASPACE_BASE) with pa by lia; apply Z.mod_small; unfold PAGE_SIZE in *; lia). destruct (claims_pages _ _ _ _ Hi Hcl) as (_ & _ & Hpg). pose proof (claims_layout _ _ _ _ Hcl) as Hg.
  assert (Epp : paddr_to_vm_page (mm_pmm st) pa = Some (page_at a i)) by (apply page_of_paddr; [done|done|done|unfold pa, PAGE_SIZE; lia]). assert (Hall : ∀ q, pages s !! q = if decide (q = page_at a i) then Some table_page else pages (mm_pmm st) !! q) by (intros q; rewrite Hpg; apply decide_ext; set_solver). exists pa, (page_at a i), s. split; [done|]. split; [done|].
  split; [by eapply claims_inv|done|done|done| |done]. split; [by split_and!|]. exists (page_at a i). rewrite (paddr_geo _ _ _ Hg), (paddr_of_geo _ _ _ Hg), (to_paddr _ a i Hi Ha Hb), Hall, decide_True by done. done.
Qed.

Lemma map_alloc_ok st : mmu_ok st →
  (map_alloc_page maps st = None ∧ starved 1 st) ∨ ∃ m p s, map_alloc_page maps st = Some (m, mk_mmu s (<[m := replicate 512 0]> (Tb st)) (mm_tlb st)) ∧ took st m p s ∧ ¬ reachable (Tb st) m.
Proof.
  intros Hok. unfold map_alloc_page. destruct (kpage_ok st (mo_pmm _ Hok) (mo_map _ Hok)) as [[-> Hs]|(m & p & s & -> & Em & Htk)]; cbn [mbind option_bind]; [by left|]. right. exists m, p, s. rewrite Em. split; [done|]. split; [done|]. intros (_ & q & Eq & _ & Hq)%(mo_held _ Hok). pose proof (tk_page _ _ _ _ Htk) as Ep. rewrite Eq in Ep. injection Ep as ->. by rewrite (tk_free _ _ _ _ Htk) in Hq.
Qed.

Lemma page_inj s t t' p : pmm_inv s → page_at_level 0 t → page_at_level 0 t' → paddr_to_vm_page s t = Some p → paddr_to_vm_page s t' = Some p → is_Some (pages s !! p) → t = t'.
Proof.
  intros Hi (Ha & _) (Ha' & _) E E' (a & i & Hin & Hb & ->)%(pi_owned _ Hi). apply page_of_paddr in E, E'; [|done..]. rewrite ps_0 in *. destruct (page_base s a i Hi Hin Hb) as (H0 & _). pose proof (rounddown_at _ t H0 E) as R. pose proof (rounddown_at _ t' H0 E') as R'. rewrite rounddown_page in R, R'. pose proof (Z.div_mod t PAGE_SIZE ltac:(done)). pose proof (Z.div_mod t' PAGE_SIZE ltac:(done)). lia.
Qed.

(** What a new table does: those above stay, and it is below an entry. *)
Record grafted st (L : nat) (y0 t m : Z) (lm : list Z) st' : Prop := {
  gr_ok : mmu_ok st';
  gr_above : above (S L) (Tb st) (Tb st');
  gr_at y : dom y → y / page_size (S L) = y0 / page_size (S L) → table_at (Tb st') L y = Some m;
  gr_table : Tb st' !! m = Some lm;
  gr_ent i : 0 ≤ i → read_entry st' t i = if decide (i = vaddr_to_index (S L) y0) then Some (pointer m) else read_entry st t i;
  gr_view y : dom y → view (Tb st') y = if decide (y / page_size (S L) = y0 / page_size (S L)) then e ← lm !! Z.to_nat (vaddr_to_index L y); entry_view L e y else view (Tb st) y;
  gr_avail p : avail st' p ↔ avail st p;
  gr_others p : ¬ avail st p → pages (mm_pmm st') !! p = pages (mm_pmm st) !! p;
  gr_geo : geo <$> arenas (mm_pmm st') = geo <$> arenas (mm_pmm st) }.

Section graft.
Context st (L : nat) (y0 t e0 m p : Z) s (lm : list Z) (tlb : list (Z * Z * nat * bool)).
Context (Hok : mmu_ok st) (HL : (S L ≤ 3)%nat) (Hy0 : dom y0) (Hat : table_at (Tb st) (S L) y0 = Some t) (He0 : read_entry st t (vaddr_to_index (S L) y0) = Some e0) (Hp0 : plain (S L) e0).
Context (Htook : took st m p s) (Hnr : ¬ reachable (Tb st) m) (Hlm : length lm = 512%nat) (Hplain : ∀ x, x ∈ lm → plain L x ∧ entry_ok L x).
Notation T1 := (<[m := lm]> (Tb st)).

Lemma graft_agree x : reachable (Tb st) x → T1 !! x = Tb st !! x.
Proof. intros Hx. apply lookup_insert_ne. by intros ->. Qed.

Lemma graft_grafts : grafts root T1 (S L) (pointer m).
Proof.
  intros L' m' [= <-] En. destruct (tk_held _ _ _ _ Htook) as [Hpl _]. destruct (pointer_ok m Hpl) as (_ & _ & _ & En'). rewrite En' in En. injection En as <-. split; [rewrite (reachable_agree root (Tb st) T1 m graft_agree); done|]. split.
  - destruct L as [|L']; [by left|]. right. intros i e Hi. unfold ent in Hi. rewrite lookup_insert_eq in Hi. cbn [mbind option_bind] in Hi. apply list_elem_of_lookup_2 in Hi. by destruct (Hplain e Hi) as [[?|?] _].
  - exists lm. by rewrite lookup_insert_eq.
Qed.

Context (l : list Z) (Hl : Tb st !! t = Some l) (Hlen : length l = 512%nat).
Notation T2 := (<[t := <[Z.to_nat (vaddr_to_index (S L) y0) := pointer m]> l]> T1).

Lemma graft_base : tree T1 ∧ full T1 ∧ table_at T1 (S L) y0 = Some t ∧ T1 !! t = Some l ∧ t ≠ m.
Proof.
  assert (Hr : reachable (Tb st) t) by (by exists (S L), y0). split; [apply (tree_agree root (Tb st)); [apply graft_agree|apply Hok]|]. split; [intros x Hx; rewrite (reachable_agree root (Tb st) T1 x graft_agree) in Hx; rewrite graft_agree by done; by apply (mo_full _ Hok)|]. split; [by rewrite (table_at_agree root (Tb st) T1 graft_agree)|]. split; [by rewrite graft_agree|by intros ->].
Qed.

Lemma graft_reach x : reachable T2 x ↔ reachable (Tb st) x ∨ x = m.
Proof.
  destruct graft_base as (B1 & B2 & B3 & B4 & B5). destruct (tk_held _ _ _ _ Htook) as [Hpl _]. destruct (pointer_ok m Hpl) as (_ & _ & _ & En). split.
  - intros Hx. destruct (write_reachable root T1 (S L) y0 t (pointer m) l B1 HL Hy0 B3 B4 Hlen graft_grafts x Hx) as [Hr|(L' & _ & E)]; [left; by apply (reachable_agree root (Tb st) T1 x graft_agree)|right; congruence].
  - intros [Hx| ->].
    + destruct (write_keeps root T1 (S L) y0 t (pointer m) l B1 HL Hy0 B3 B4 Hlen e0 x) as [?|(L' & _ & E)]; [unfold ent; rewrite B4, <- Hl; exact He0|intros L' m' _ E; by destruct Hp0 as [?|?]; [|congruence]|by apply (reachable_agree root (Tb st) T1 x graft_agree)|done|by destruct Hp0 as [?|?]; [|congruence]].
    + exists L, y0. split; [lia|]. split; [done|]. by rewrite (write_at_below root T1 (S L) y0 t (pointer m) l B1 HL Hy0 B3 B4 Hlen y0 L).
Qed.

Lemma graft_slot_at y : dom y → y / page_size (S L) = y0 / page_size (S L) → table_at T2 L y = Some m.
Proof.
  intros Hy Hs. destruct graft_base as (B1 & B2 & B3 & B4 & B5). destruct (tk_held _ _ _ _ Htook) as [Hpl _]. destruct (pointer_ok m Hpl) as (_ & _ & _ & En). by rewrite (write_at_below root T1 (S L) y0 t (pointer m) l B1 HL Hy0 B3 B4 Hlen y L).
Qed.

Lemma graft_ent t2 i : 0 ≤ i → ent T2 t2 i = if decide (t2 = t ∧ i = vaddr_to_index (S L) y0) then Some (pointer m) else if decide (t2 = m) then lm !! Z.to_nat i else ent (Tb st) t2 i.
Proof.
  intros Hi. destruct graft_base as (B1 & B2 & B3 & B4 & B5). rewrite (write_ent T1 (S L) y0 t (pointer m) l HL B4 Hlen t2 i Hi). destruct (decide (t2 = t ∧ _)); [done|]. unfold ent. destruct (decide (t2 = m)) as [->|Hne]; [by rewrite lookup_insert_eq|by rewrite lookup_insert_ne].
Qed.

Lemma graft_view y : dom y → view T2 y = if decide (y / page_size (S L) = y0 / page_size (S L)) then e ← lm !! Z.to_nat (vaddr_to_index L y); entry_view L e y else view (Tb st) y.
Proof.
  intros Hy. destruct graft_base as (B1 & B2 & B3 & B4 & B5). destruct (decide _) as [Hs|Hns].
  - pose proof (index_range L y). destruct (lookup_lt_is_Some_2 lm (Z.to_nat (vaddr_to_index L y))) as [x Hx]; [lia|]. rewrite Hx. cbn [mbind option_bind]. apply (plain_view T2 L y m x); [lia|by apply graft_slot_at|rewrite graft_ent by lia; rewrite decide_False by (by intros [? _]); by rewrite decide_True|]. apply Hplain. by eapply list_elem_of_lookup_2.
  - unfold view. rewrite (write_walk_other root T1 (S L) y0 t (pointer m) l B1 HL Hy0 B3 B4 Hlen y Hy Hns). by rewrite (walk_agree root (Tb st) T1 y graft_agree Hy).
Qed.

Lemma graft_mmu_ok : mmu_ok (mk_mmu s T2 tlb).
Proof.
  pose proof Hok as [M1 M2 M3 M4 M5 M6]. destruct graft_base as (B1 & B2 & B3 & B4 & B5). pose proof Htook as [K1 K2 K3 K4 K5 K6]. split; cbn [mm_pmm mm_tables]; [done|by apply (physmap_geo (mm_pmm st))|by apply write_tree; [..|apply graft_grafts]|by apply write_full; [..|apply graft_grafts|]| |].
  - intros x Hx. apply graft_reach in Hx as [Hx| ->]; [|done]. destruct (M5 x Hx) as (Hpl & q & E1 & E2 & E3). split; [done|]. exists q. rewrite (paddr_geo _ _ _ K2), (paddr_of_geo _ _ _ K2), K6. split; [done|]. split; [done|]. rewrite decide_False; [done|]. intros ->. by rewrite K3 in E3.
  - intros k y t2 x Hk Hy Ht. rewrite graft_ent by apply index_range. destruct (pointer_ok m (proj1 K5)) as (Hpp & Hpl & _ & En). destruct (write_at_cases root T1 (S L) y0 t (pointer m) l B1 HL Hy0 B3 B4 Hlen graft_grafts y k t2 Hk Hy Ht) as [Hold|([= ->] & Hs & E)].
    + destruct (decide (t2 = t ∧ _)) as [[-> Hi]|_]; [intros [= <-] _ [->|Hlg]; [|congruence]; destruct (B1 0%nat (S L) y y0 t Hk HL Hy Hy0 Hold B3); done|]. rewrite (table_at_agree root (Tb st) T1 graft_agree) in Hold by done. assert (t2 ≠ m) by (intros ->; apply Hnr; by exists k, y). rewrite decide_False by done. by apply (M6 k y t2).
    + rewrite En in E. injection E as <-. rewrite decide_False by (intros [? _]; done). rewrite decide_True by done. intros Hx. apply Hplain. by eapply list_elem_of_lookup_2.
Qed.

Lemma graft_ok : grafted st L y0 t m lm (mk_mmu s T2 tlb).
Proof.
  pose proof Htook as [K1 K2 K3 K4 K5 K6]. destruct graft_base as (B1 & B2 & B3 & B4 & B5). split; cbn [mm_pmm mm_tables].
  - apply graft_mmu_ok.
  - intros k y t2 Hk Hy Ht. assert (Hr : reachable (Tb st) t2) by (exists k, y; split; [lia|done]). rewrite lookup_insert_ne; [by apply graft_agree|]. intros <-. destruct (mo_tree _ Hok k (S L) y y0 t); (done || lia).
  - apply graft_slot_at.
  - rewrite lookup_insert_ne by done. apply lookup_insert_eq.
  - intros i Hi. unfold read_entry. cbn [mm_tables]. change (ent T2 t i = if decide (i = vaddr_to_index (S L) y0) then Some (pointer m) else ent (Tb st) t i). rewrite graft_ent by done. destruct (decide (t = t ∧ _)) as [[_ ->]|Hn]; [by rewrite decide_True|]. rewrite decide_False by done. by rewrite decide_False by (intros ->; tauto).
  - apply graft_view.
  - intros q. unfold avail. cbn [mm_pmm mm_tables]. setoid_rewrite graft_reach. rewrite K6. destruct (decide (q = p)) as [->|Hne].
    + split; [by left|]. intros _. right. exists m. rewrite (paddr_geo _ _ _ K2). split; [by right|done].
    + split; (intros [?|(x & Hx & E)]; [by left|right]); [|exists x; rewrite (paddr_geo _ _ _ K2); split; [by left|done]]. rewrite (paddr_geo _ _ _ K2) in E. destruct Hx as [?| ->]; [by exists x|congruence].
  - intros q Hq. rewrite K6, decide_False; [done|]. intros ->. apply Hq. by left.
  - done.
Qed.

End graft.

(** A new empty table translates nothing. *)
Lemma new_table st L va t e0 : mmu_ok st → (S L ≤ 3)%nat → dom va → table_at (Tb st) (S L) va = Some t → read_entry st t (vaddr_to_index (S L) va) = Some e0 → IS_PAGE_PRESENT e0 = false →
  (map_alloc_page maps st = None ∧ starved 1 st) ∨
  ∃ m st1 st2, map_alloc_page maps st = Some (m, st1) ∧ update_entry (S L) st1 cr3 va t (vaddr_to_index (S L) va) m get_x86_intermediate_arch_flags = Some st2 ∧ grafted st L va t m (replicate 512 0) st2 ∧ evolves 1 st st2 ∧ (∀ y, dom y → view (Tb st2) y = view (Tb st) y).
Proof.
  intros Hok HL Hva Hat He0 Habs. destruct (map_alloc_ok st Hok) as [?|(m & p & s & E & Htk & Hnr)]; [by left|]. right. set (st1 := mk_mmu s (<[m := replicate 512 0]> (Tb st)) (mm_tlb st)) in *. destruct (mo_full _ Hok t) as (l & Hl & Hlen); [by exists (S L), va|]. assert (Hne : t ≠ m) by (intros ->; apply Hnr; by exists (S L), va).
  pose proof (proj1 (tk_held _ _ _ _ Htk)) as (Hal & _). assert (He1 : read_entry st1 t (vaddr_to_index (S L) va) = Some e0) by (unfold read_entry, st1; cbn [mm_tables]; by rewrite lookup_insert_ne). set (T2 := <[t := <[Z.to_nat (vaddr_to_index (S L) va) := pointer m]> l]> (<[m := replicate 512 0]> (Tb st))).
  assert (Hw : write_entry st1 t (vaddr_to_index (S L) va) (pointer m) = Some (mk_mmu s T2 (mm_tlb st))) by (unfold write_entry, st1; cbn [mm_tables mm_pmm mm_tlb]; rewrite lookup_insert_ne, Hl by done; cbn [mbind option_bind]; unfold zlen; rewrite Hlen; pose proof (index_range (S L) va); by rewrite (proj2 (Z.ltb_lt _ _)) by lia).
  assert (Hpl : ∀ x, x ∈ replicate 512 0 → plain L x ∧ entry_ok L x) by (intros x [-> _]%elem_of_replicate; split; [by apply plain_absent|by intros ?]). pose proof (graft_ok st L va t e0 m p s (replicate 512 0) (mm_tlb st) Hok HL Hva Hat He0 (plain_absent _ _ Habs) Htk Hnr ltac:(by rewrite length_replicate) Hpl l Hl Hlen) as Hgr. fold T2 in Hgr.
  assert (Hview : ∀ y, dom y → view T2 y = view (Tb st) y).
  { intros y Hy. pose proof (gr_view _ _ _ _ _ _ _ Hgr y Hy) as Hv. cbn [mm_tables] in Hv. rewrite Hv. destruct (decide _) as [Hs|]; [|done]. pose proof (index_range L y). rewrite lookup_replicate_2 by lia. cbn [mbind option_bind]. rewrite (slot_view st (S L) va t e0 y) by (done || by apply plain_absent). rewrite !absent_view by done. done. }
  exists m, st1, (mk_mmu s T2 (mm_tlb st)). split; [done|]. split; [unfold update_entry; rewrite (aligned_page 0 m Hal), He1; cbn [mbind option_bind]; change (Z.lor m (Z.lor get_x86_intermediate_arch_flags X86_MMU_PG_P)) with (pointer m); rewrite Hw; cbn [mbind option_bind]; by rewrite Habs|]. split; [done|]. split; [|done]. split; [apply Hgr|apply Hgr|apply Hgr|intros t2 q Hq Hn; cbn [mm_tables]; unfold T2; rewrite !lookup_insert_ne; [done|intros <-; apply Hn; left; pose proof (tk_page _ _ _ _ Htk) as Etk; rewrite Hq in Etk; injection Etk as ->; apply (tk_free _ _ _ _ Htk)|intros <-; apply Hn; right; exists t; split; [by exists (S L), va|done]]|exists [p]; split; [done|]; intros q Hq Hn; cbn [mm_pmm]; rewrite (tk_pages _ _ _ _ Htk), decide_False by (intros ->; apply Hn; by left); done|]. exists []. rewrite app_nil_r. split; [done|]. intros y Hy _ Hd. by rewrite Hview in Hd.
Qed.

(** ** Splitting a page *)

Definition parts (L : nat) (pa fl : Z) (n : Z) : list Z := (λ j, leaf L (pa + j * page_size L) fl) <$> seqZ 0 n.

Lemma parts_length L pa fl n : 0 ≤ n → length (parts L pa fl n) = Z.to_nat n.
Proof. intros Hn. unfold parts. by rewrite length_fmap, length_seqZ. Qed.

Lemma parts_lookup L pa fl n j : 0 ≤ j < n → parts L pa fl n !! Z.to_nat j = Some (leaf L (pa + j * page_size L) fl).
Proof. intros Hj. unfold parts. rewrite list_lookup_fmap, lookup_seqZ_lt by lia. cbn [fmap option_fmap option_map]. by rewrite Z.add_0_l, Z2Nat.id by lia. Qed.

Lemma part_page L pa j : (L < 2)%nat → page_at_level (S L) pa → 0 ≤ j < 512 → page_at_level L (pa + j * page_size L).
Proof.
  intros HL (Hal & H0 & H1) Hj. rewrite ps_S in *. pose proof (ps_pos L). unfold page_at_level. split; [|nia]. rewrite Z.mod_add by lia. apply Z.mod_divide; [lia|]. apply Z.mod_divide in Hal; [|lia]. destruct Hal as [q ->]. exists (q * 512). ring.
Qed.

Lemma split_loop_ok L pa fl flags m va : (L < 2)%nat → page_at_level (S L) pa → 0 ≤ va → va + page_size (S L) < 2 ^ 64 → Z.lor flags X86_MMU_PG_P = Z.lor (leaf_flags L fl) X86_MMU_PG_P → ∀ k i st, 0 ≤ i → i + Z.of_nat k = 512 → Tb st !! m = Some (parts L pa fl i ++ replicate k 0) →
  split_loop k (S L) st cr3 (va + i * page_size L) m i (pa + i * page_size L) flags = Some (va + page_size (S L), mk_mmu (mm_pmm st) (<[m := parts L pa fl 512]> (Tb st)) (mm_tlb st)).
Proof.
  intros HL Hpa Hva0 Hva Ef. pose proof (ps_S L) as HS. pose proof (ps_pos L) as Hps. induction k as [|k IH]; intros i st Hi Hik Hm; cbn [split_loop].
  { assert (i = 512) as -> by lia. rewrite app_nil_r in Hm. rewrite insert_id by done. destruct st. do 2 f_equal. lia. }
  rewrite Nat.pred_succ. pose proof (parts_length L pa fl i Hi) as Hlen. destruct (part_page L pa i HL Hpa ltac:(lia)) as (Hal & H0 & H1). unfold update_entry. rewrite (aligned_page L _ Hal). unfold read_entry, write_entry. rewrite Hm. cbn [mbind option_bind]. rewrite lookup_app_r, Hlen, Nat.sub_diag by lia. cbn [replicate lookup list_lookup mbind option_bind]. unfold zlen. rewrite length_app, Hlen. cbn [length]. rewrite length_replicate. rewrite (proj2 (Z.ltb_lt _ _)) by lia. cbn [mbind option_bind]. change (IS_PAGE_PRESENT 0) with false. cbv iota. rewrite Ef.
  rewrite (u64_id (va + i * page_size L + page_size L)), (u64_id (pa + i * page_size L + page_size L)) by (unfold is_u64; destruct Hpa as (_ & ? & ?); nia). replace (va + i * page_size L + page_size L) with (va + (i + 1) * page_size L) by ring. replace (pa + i * page_size L + page_size L) with (pa + (i + 1) * page_size L) by ring.
  rewrite IH; [cbn [mm_pmm mm_tables mm_tlb]; by rewrite insert_insert_eq|lia|lia|]. cbn [mm_tables]. rewrite lookup_insert_eq. f_equal. rewrite insert_app_r_alt by lia. rewrite Hlen, Nat.sub_diag. cbn [replicate insert list_insert]. unfold parts. rewrite (seqZ_app 0 i 1) by lia. rewrite fmap_app, <- app_assoc. cbn. rewrite Z.add_0_l. done.
Qed.

Lemma offset_split L y : y mod page_size (S L) = vaddr_to_index L y * page_size L + y mod page_size L.
Proof. rewrite ps_S, index_spec, Z.mul_comm, Z.rem_mul_r; [lia|pose proof (ps_pos L); lia|lia]. Qed.

(** The start of the page of an address. *)
Lemma page_start L va : 0 ≤ va → let b := Z.ldiff va (page_size L - 1) in b = va / page_size L * page_size L ∧ b / page_size L = va / page_size L ∧ b mod page_size L = 0 ∧ 0 ≤ b ≤ va.
Proof.
  intros Hva b. pose proof (ps_pos L). assert (Eb : b = va / page_size L * page_size L) by (unfold b, page_size; apply ldiff_pow2; unfold shift_of; lia). split; [done|]. rewrite Eb, Z.div_mul, Z.mod_mul by lia. pose proof (Z.div_pos va (page_size L) Hva ltac:(lia)). pose proof (Z.mul_div_le va (page_size L) ltac:(lia)). split; [done|]. split; [done|]. nia.
Qed.

(** A large page is replaced by a table that translates in the same way. *)
Lemma split_ok st L va t e0 : mmu_ok st → (S L ≤ 3)%nat → dom va → table_at (Tb st) (S L) va = Some t → read_entry st t (vaddr_to_index (S L) va) = Some e0 → IS_PAGE_PRESENT e0 = true → IS_LARGE_PAGE e0 = true →
  let r := x86_mmu_split maps (S L) st cr3 (Z.ldiff va (page_size (S L) - 1)) t (vaddr_to_index (S L) va) in
  (r = None ∧ starved 1 st) ∨
  ∃ m lm st2, r = Some (NO_ERROR, st2) ∧ grafted st L va t m lm st2 ∧ evolves 1 st st2 ∧ (∀ y, dom y → view (Tb st2) y = view (Tb st) y) ∧ ∀ x, x ∈ lm → IS_PAGE_PRESENT x = true ∧ plain L x.
Proof.
  intros Hok HL Hva Hat He0 Hpr Hlg r. destruct (mo_entry _ Hok (S L) va t e0 HL Hva Hat He0 Hpr (or_intror Hlg)) as (HL2 & pa & fl & Ee & Hpa). destruct (split_leaf L pa fl ltac:(lia) Hpa) as [Ef Hps]. rewrite <- Ee in Ef, Hps. destruct (page_start (S L) va ltac:(unfold dom in Hva; lia)) as (Eb & Ebs & Ebm & Hb). set (base := Z.ldiff va (page_size (S L) - 1)) in *.
  destruct (map_alloc_ok st Hok) as [[En Hst]|(m & p & s & E & Htk & Hnr)]; [left; split; [|done]|right]; unfold r, x86_mmu_split; rewrite (proj2 (Nat.eqb_neq (S L) MAX_PAGING_LEVEL)), He0 by (unfold MAX_PAGING_LEVEL; lia); cbn [negb mbind option_bind]; rewrite Hpr, Hlg; cbn [andb]; [by rewrite En|]. rewrite E. cbn [mbind option_bind].
  assert (Epa : paddr_from_pte (S L) e0 = Some pa) by (unfold paddr_from_pte; rewrite Hpr, (proj2 (Nat.ltb_lt (S L) 3)), Ee, leaf_frame by (done || lia); done). rewrite Epa. cbn [mbind option_bind]. rewrite Hps, (proj2 (aligned_spec (S L) base) Ebm). assert (Hsz : page_size (S L) ≤ 2 ^ 30) by (apply Z.pow_le_mono_r; unfold shift_of; lia).
  pose proof (split_loop_ok L pa fl _ m base ltac:(lia) Hpa ltac:(lia) ltac:(unfold dom in Hva; lia) Ef 512 0 (mk_mmu s (<[m := replicate 512 0]> (Tb st)) (mm_tlb st)) ltac:(lia) ltac:(lia) ltac:(cbn [mm_tables]; by rewrite lookup_insert_eq)) as El. rewrite !Z.add_0_r in El. cbn [mm_pmm mm_tables mm_tlb] in El. rewrite insert_insert_eq in El. change (Z.to_nat NO_OF_PT_ENTRIES) with 512%nat. rewrite El. cbn [mbind option_bind]. pose proof (ps_pos (S L)). rewrite u64_id, Z.eqb_refl by (unfold is_u64, dom in *; lia).
  destruct (mo_full _ Hok t) as (l & Hl & Hlen); [by exists (S L), va|]. assert (Hne : t ≠ m) by (intros ->; apply Hnr; by exists (S L), va). pose proof (proj1 (tk_held _ _ _ _ Htk)) as (Hal & _). set (lm := parts L pa fl 512) in *. assert (Hlm : ∀ x, x ∈ lm → IS_PAGE_PRESENT x = true ∧ plain L x ∧ entry_ok L x).
  { intros x (j & -> & Hj%elem_of_seqZ)%list_elem_of_fmap. pose proof (part_page L pa j ltac:(lia) Hpa ltac:(lia)). split; [apply leaf_present; (done || lia)|]. split; [apply leaf_plain; (done || lia)|apply leaf_entry_ok; (done || lia)]. }
  set (tlb := mm_tlb st ++ [(cr3, base, S L, is_kernel_address base)]). set (T2 := <[t := <[Z.to_nat (vaddr_to_index (S L) va) := pointer m]> l]> (<[m := lm]> (Tb st))). pose proof (index_range (S L) va) as Hir.
  assert (Hup : update_entry (S L) (mk_mmu s (<[m := lm]> (Tb st)) (mm_tlb st)) cr3 base t (vaddr_to_index (S L) va) m get_x86_intermediate_arch_flags = Some (mk_mmu s T2 tlb)).
  { unfold update_entry. rewrite (aligned_page 0 m Hal). unfold read_entry, write_entry in *. cbn [mm_tables mm_pmm mm_tlb]. rewrite lookup_insert_ne, Hl by done. rewrite Hl in He0. cbn [mbind option_bind] in *. rewrite He0. cbn [mbind option_bind]. unfold zlen. rewrite Hlen, (proj2 (Z.ltb_lt _ _)) by lia. cbn [mbind option_bind]. rewrite Hpr. done. }
  rewrite Hup. cbn [mbind option_bind]. pose proof (graft_ok st L va t e0 m p s lm tlb Hok HL Hva Hat He0 (plain_large _ _ Hlg) Htk Hnr ltac:(unfold lm; by rewrite parts_length) (λ x Hx, proj2 (Hlm x Hx)) l Hl Hlen) as Hgr. fold T2 in Hgr.
  assert (Hview : ∀ y, dom y → view T2 y = view (Tb st) y).
  { intros y Hy. pose proof (gr_view _ _ _ _ _ _ _ Hgr y Hy) as Hv. cbn [mm_tables] in Hv. rewrite Hv. destruct (decide _) as [Hs|]; [|done]. pose proof (index_range L y). unfold lm. rewrite parts_lookup by lia. cbn [mbind option_bind]. rewrite (slot_view st (S L) va t e0 y) by (done || by apply plain_large). rewrite Ee, !leaf_view by (done || lia || apply part_page; (done || lia)). rewrite offset_split. do 2 f_equal. lia. }
  exists m, lm, (mk_mmu s T2 tlb). split; [done|]. split; [done|]. split; [|split; [done|intros x Hx; by destruct (Hlm x Hx) as (? & ? & _)]]. split; [apply Hgr|apply Hgr|apply Hgr|intros t2 q Hq Hn; cbn [mm_tables]; unfold T2; rewrite !lookup_insert_ne; [done|intros <-; apply Hn; left; pose proof (tk_page _ _ _ _ Htk) as Etk; rewrite Hq in Etk; injection Etk as ->; apply (tk_free _ _ _ _ Htk)|intros <-; apply Hn; right; exists t; split; [by exists (S L), va|done]]|exists [p]; split; [done|]; intros q Hq Hn; cbn [mm_pmm]; rewrite (tk_pages _ _ _ _ Htk), decide_False by (intros ->; apply Hn; by left); done|]. eexists. split; [done|]. intros y Hy _ Hd. by rewrite Hview in Hd.
Qed.

(** ** Giving back a table *)

(** The page of a table is freed. *)
Lemma free_table_ok st m p : pmm_inv (mm_pmm st) → paddr_to_vm_page (mm_pmm st) m = Some p → pages (mm_pmm st) !! p = Some table_page →
  ∃ s, free_table st m = Some (mk_mmu s (delete m (Tb st)) (mm_tlb st)) ∧ pmm_inv s ∧ geo <$> arenas s = geo <$> arenas (mm_pmm st) ∧ ∀ q, pages s !! q = if decide (q = p) then Some free_page else pages (mm_pmm st) !! q.
Proof.
  intros Hi Ep Hp. set (s1 := owner_step (mm_pmm st) p (mk_page true VM_PAGE_STATE_ALLOC)). assert (Hi1 : pmm_inv s1) by (by apply (owner_inv _ p table_page)). destruct (free_spec s1 [p] Hi1) as (s & E & His & Hg & Hpg); [apply NoDup_singleton|intros q ->%list_elem_of_singleton; exists (mk_page true VM_PAGE_STATE_ALLOC); unfold s1, owner_step; cbn [pages]; by rewrite lookup_insert_eq|].
  exists s. split; [|split; [done|split; [done|]]].
  - unfold free_table. rewrite Ep. cbn [mbind option_bind]. unfold pmm_free_page, link_page. rewrite Hp. cbn [mbind option_bind pg_linked table_page negb pg_state]. change (mk_pmm (arenas (mm_pmm st)) (<[p := mk_page true VM_PAGE_STATE_ALLOC]> (pages (mm_pmm st))) (boot_alloc_end (mm_pmm st))) with s1. by rewrite E.
  - intros q. rewrite Hpg. unfold s1, owner_step. cbn [pages]. destruct (decide (q = p)) as [->|Hne]; [by rewrite decide_True by set_solver|]. rewrite decide_False by set_solver. by rewrite lookup_insert_ne.
Qed.

Section unlink.
Context st (L : nat) (va t e0 m : Z) (lm l : list Z).
Context (Hok : mmu_ok st) (HL : (S L ≤ 3)%nat) (Hva : dom va) (Hat : table_at (Tb st) (S L) va = Some t) (He0 : read_entry st t (vaddr_to_index (S L) va) = Some e0) (Hnext : get_next_table_from_entry e0 = Some m) (Hm : Tb st !! m = Some lm) (Hempty : ∀ x, x ∈ lm → IS_PAGE_PRESENT x = false).
Context (Hl : Tb st !! t = Some l) (Hlen : length l = 512%nat).
Notation T1 := (<[t := <[Z.to_nat (vaddr_to_index (S L) va) := 0]> l]> (Tb st)).
Notation slot y := (y / page_size (S L) = va / page_size (S L)).

Lemma unlink_below y : dom y → slot y → table_at (Tb st) L y = Some m.
Proof.
  intros Hy Hs. destruct (slot_at root (Tb st) (S L) va t HL Hva Hat y Hy Hs) as [H2 H3]. rewrite table_at_S, H2 by lia. cbn [mbind option_bind]. unfold lower. rewrite H3. change (ent (Tb st) t (vaddr_to_index (S L) va)) with (read_entry st t (vaddr_to_index (S L) va)). by rewrite He0.
Qed.

Lemma unlink_leafy : leafy (Tb st) L m.
Proof. right. intros i e Hi. unfold ent in Hi. rewrite Hm in Hi. cbn [mbind option_bind] in Hi. apply list_elem_of_lookup_2, Hempty in Hi. unfold get_next_table_from_entry. by rewrite Hi. Qed.

Lemma unlink_grafts : grafts root (Tb st) (S L) 0.
Proof. apply graft_plain. by right. Qed.

Lemma unlink_reach x : reachable T1 x ↔ reachable (Tb st) x ∧ x ≠ m.
Proof.
  pose proof (mo_tree _ Hok) as Ht. split.
  - intros (k & y & Hk & Hy & E). destruct (write_at_cases root (Tb st) (S L) va t 0 l Ht HL Hva Hat Hl Hlen unlink_grafts y k x Hk Hy E) as [Hold|(_ & _ & ?)]; [|done]. split; [by exists k, y|]. intros ->. destruct (Ht k L y va m Hk ltac:(lia) Hy Hva Hold (unlink_below va Hva eq_refl)) as [-> Hs]. by rewrite (write_at_below root (Tb st) (S L) va t 0 l Ht HL Hva Hat Hl Hlen y L Hy Hs eq_refl) in E.
  - intros [Hx Hne]. destruct (write_keeps root (Tb st) (S L) va t 0 l Ht HL Hva Hat Hl Hlen e0 x He0) as [?|(L' & _ & E)]; [|done|done|congruence]. intros L' m' [= <-] E. rewrite Hnext in E. injection E as <-. apply unlink_leafy.
Qed.

Lemma unlink_view y : dom y → view T1 y = view (Tb st) y.
Proof.
  intros Hy. pose proof (mo_tree _ Hok) as Ht. unfold view. destruct (decide (slot y)) as [Hs|Hns]; [|by rewrite (write_walk_other root (Tb st) (S L) va t 0 l Ht HL Hva Hat Hl Hlen y Hy Hns)]. rewrite (write_walk_same root (Tb st) (S L) va t 0 l Ht HL Hva Hat Hl Hlen y Hy Hs). cbn [negb IS_PAGE_PRESENT]. rewrite (walk_at root (Tb st) L y m) by (lia || by apply unlink_below).
  assert (E : walk (Tb st) L m y = None); [|by rewrite E]. destruct (ent (Tb st) m (vaddr_to_index L y)) as [x|] eqn:Ex; [|destruct L; cbn [walk]; by rewrite Ex]. assert (Hx : IS_PAGE_PRESENT x = false) by (unfold ent in Ex; rewrite Hm in Ex; cbn [mbind option_bind] in Ex; by apply list_elem_of_lookup_2, Hempty in Ex). destruct L; cbn [walk]; rewrite Ex; cbn [mbind option_bind]; by rewrite Hx.
Qed.

Lemma unlink_agree x : reachable T1 x → delete m T1 !! x = T1 !! x.
Proof. intros [_ Hne]%unlink_reach. by apply lookup_delete_ne. Qed.

Lemma unlink_table_ok : ∃ st1 st2, unmap_entry (S L) st cr3 va t (vaddr_to_index (S L) va) false = Some st1 ∧ free_table st1 m = Some st2 ∧
  mmu_ok st2 ∧ evolves 0 st st2 ∧ above (S L) (Tb st) (Tb st2) ∧ (∀ y, dom y → view (Tb st2) y = view (Tb st) y) ∧ ∀ i, 0 ≤ i → read_entry st2 t i = if decide (i = vaddr_to_index (S L) va) then Some 0 else read_entry st t i.
Proof.
  pose proof Hok as [M1 M2 M3 M4 M5 M6]. pose proof (index_range (S L) va) as Hir. assert (Hrm : reachable (Tb st) m) by (exists L, va; split; [lia|]; split; [done|by apply unlink_below]). assert (Hrt : reachable (Tb st) t) by (by exists (S L), va). assert (Hne : t ≠ m) by (intros Etm; pose proof Hat as Hat'; rewrite Etm in Hat'; destruct (M3 (S L) L va va m HL ltac:(lia) Hva Hva Hat' (unlink_below va Hva eq_refl)); lia). destruct (M5 m Hrm) as (Hpl & p & Ep & Epa & Hp).
  set (st1 := mk_mmu (mm_pmm st) T1 (mm_tlb st)). destruct (free_table_ok st1 m p M1 Ep Hp) as (s & Ef & Hi & Hg & Hpg). eexists st1, _. split; [unfold unmap_entry; rewrite He0; cbn [mbind option_bind]; unfold write_entry; rewrite Hl; cbn [mbind option_bind]; unfold zlen; rewrite Hlen, (proj2 (Z.ltb_lt _ _)) by lia; done|]. split; [exact Ef|]. cbn [mm_tables mm_pmm st1] in *.
  assert (Hreach : ∀ x, reachable (delete m T1) x ↔ reachable (Tb st) x ∧ x ≠ m) by (intros x; rewrite (reachable_agree root T1 (delete m T1) x unlink_agree); apply unlink_reach). assert (Hv : ∀ y, dom y → view (delete m T1) y = view (Tb st) y) by (intros y Hy; rewrite <- unlink_view by done; unfold view; by rewrite (walk_agree root T1 (delete m T1) y unlink_agree Hy)).
  assert (Hq : ∀ x q, reachable (Tb st) x → x ≠ m → paddr_to_vm_page (mm_pmm st) x = Some q → q ≠ p) by (intros x q Hx Hxm Eq ->; destruct (M5 x Hx) as [Hplx _]; apply Hxm; apply (page_inj (mm_pmm st) x m p); (done || eauto)). split; [|split; [|split; [|split; [done|]]]].
  - split; cbn [mm_pmm mm_tables]; [done|by apply (physmap_geo (mm_pmm st))|apply (tree_agree root T1 _ unlink_agree); apply write_tree; (done || apply unlink_grafts)| | |].
    + intros x Hx. apply (reachable_agree root T1 (delete m T1) x unlink_agree) in Hx. rewrite unlink_agree by done. by apply (write_full root (Tb st) (S L) va t 0 l M3 HL Hva Hat Hl Hlen unlink_grafts M4).
    + intros x [Hx Hxm]%Hreach. destruct (M5 x Hx) as (Hplx & q & E1 & E2 & E3). split; [done|]. exists q. rewrite (paddr_geo _ _ _ Hg), (paddr_of_geo _ _ _ Hg), Hpg, decide_False by (by apply (Hq x)). done.
    + intros k y t2 x Hk Hy Ht Hx. rewrite (table_at_agree root T1 (delete m T1) unlink_agree) in Ht by done. assert (Hr2 : reachable T1 t2) by (by exists k, y). unfold ent in Hx. rewrite unlink_agree in Hx by done. change (ent T1 t2 (vaddr_to_index k y) = Some x) in Hx. destruct (write_at_cases root (Tb st) (S L) va t 0 l M3 HL Hva Hat Hl Hlen unlink_grafts y k t2 Hk Hy Ht) as [Hold|(_ & _ & ?)]; [|done]. rewrite (write_ent (Tb st) (S L) va t 0 l HL Hl Hlen) in Hx by apply index_range. destruct (decide _) as [_|_]; [injection Hx as <-; by intros ?|by apply (M6 k y t2)].
  - split; cbn [mm_pmm mm_tables mm_tlb]; [done| | |intros t2 q Eq Hn; rewrite lookup_delete_ne by (intros <-; apply Hn; right; by exists m); apply lookup_insert_ne; intros <-; apply Hn; right; by exists t|exists []; split; [done|]; intros q Hfq _; rewrite Hpg; by destruct (decide (q = p))|exists []; rewrite app_nil_r; split; [done|]; intros y Hy _ Hd; by rewrite Hv in Hd].
    + intros q. unfold avail. cbn [mm_pmm mm_tables]. setoid_rewrite Hreach. rewrite Hpg. destruct (decide (q = p)) as [->|Hnq]; [split; [intros _; right; by exists m|by left]|]. split; (intros [?|(x & Hx & E)]; [by left|right]); [destruct Hx; exists x; by rewrite <- (paddr_geo _ _ _ Hg)|]. exists x. rewrite (paddr_geo _ _ _ Hg). split; [|done]. split; [done|]. intros ->. congruence.
    + intros q Hnq. rewrite Hpg, decide_False; [done|]. intros ->. apply Hnq. right. by exists m.
  - intros k y t2 Hk Hy Ht. cbn [mm_tables]. rewrite lookup_delete_ne by (intros <-; destruct (M3 k L y va m ltac:(lia) ltac:(lia) Hy Hva Ht (unlink_below va Hva eq_refl)); lia). apply lookup_insert_ne. intros <-. destruct (M3 k (S L) y va t ltac:(lia) HL Hy Hva Ht Hat). lia.
  - intros i Hi0. unfold read_entry. cbn [mm_tables]. rewrite lookup_delete_ne by done. change (ent T1 t i = if decide (i = vaddr_to_index (S L) va) then Some 0 else ent (Tb st) t i). rewrite (write_ent (Tb st) (S L) va t 0 l HL Hl Hlen) by done. apply decide_ext. tauto.
Qed.

End unlink.
End facts. End X86Entries.
