(* ===== verification/X86MmuFacts.v ===== *)
(** * What the page tables translate

    The functions that work on the levels of the tables - unmapping, mapping and changing
    the flags of a range - change the translation of exactly the pages of the range, give
    back the tables that become empty, and invalidate each translation that is changed.
    They fail for lack of memory only if there are fewer free pages than a bound.  The
    walk of the code finds what the tables translate to. *)

From stdpp Require Import base tactics numbers list list_numbers gmap.
From Stdlib Require Import ZArith Lia.
From S2P Require Import Prelude Pmm PmmFacts VmObject VmObjectFacts VmAspace X86Mmu X86Tables X86Entries.
#[local] Open Scope Z_scope.

Module X86MmuFacts.
Import Pmm PmmFacts VmObject VmObjectFacts VmAspace X86Mmu X86Tables X86Entries.

Section facts.
Context (pw : Z) (maps : list mmu_initial_mapping) (root cr3 : Z).
Implicit Types T : tables.
Implicit Types st : mmu.
Notation table_at := (X86Tables.table_at root).
Notation mmu_ok := (X86Entries.mmu_ok maps root).
Notation evolves := (X86Entries.evolves root cr3).
Notation above := (X86Entries.above root).
Notation view := (X86Entries.view root).
Notation Tb st := (mm_tables st).

(** ** Ranges *)

(** The range of the table that has an address. *)
Definition tbase (L : nat) (va : Z) : Z := va / page_size (S L) * page_size (S L).
Definition tend (L : nat) (va : Z) : Z := tbase L va + page_size (S L).

Lemma tbase_spec L va : 0 ≤ va → tbase L va mod page_size (S L) = 0 ∧ tbase L va / page_size (S L) = va / page_size (S L) ∧ 0 ≤ tbase L va ∧ tbase L va ≤ va < tend L va.
Proof.
  intros Hva. pose proof (ps_pos (S L)) as Hp. unfold tend, tbase. rewrite Z.mod_mul, Z.div_mul by lia. pose proof (Z.div_mod va (page_size (S L)) ltac:(lia)). pose proof (Z.mod_pos_bound va (page_size (S L)) Hp). pose proof (Z.div_pos va (page_size (S L)) Hva Hp). split; [done|]. split; [done|]. nia.
Qed.

Lemma tend_entries L va : tend L va = tbase L va + 512 * page_size L.
Proof. unfold tend. by rewrite ps_S. Qed.

(** A multiple of a page size is one of the smaller sizes. *)
Lemma aligned_lower L k x : (k ≤ L)%nat → x mod page_size L = 0 → x mod page_size k = 0.
Proof.
  induction 1 as [|L Hle IH]; [done|]. intros E. apply IH. rewrite ps_S in E. pose proof (ps_pos L). apply Z.mod_divide; [lia|]. apply Z.mod_divide in E; [|lia]. destruct E as [q ->]. exists (q * 512). ring.
Qed.

Lemma entry_start L B i : B mod page_size (S L) = 0 → (B + i * page_size L) mod page_size L = 0.
Proof. intros HB. pose proof (ps_pos L). rewrite Z.mod_add by lia. by apply (aligned_lower (S L)); [lia|]. Qed.

(** The entry of an address of the table that starts at [B], and the table itself. *)
Lemma entry_of T L B t i y : (L ≤ 3)%nat → B mod page_size (S L) = 0 → dom B → dom y → table_at T L B = Some t → 0 ≤ i < 512 → B + i * page_size L ≤ y < B + (i + 1) * page_size L → table_at T L y = Some t ∧ vaddr_to_index L y = i.
Proof. intros HL HB HdB Hdy Ht Hi Hy. apply slot_of in Hy as [Hs Hx]; [|done|done]. split; [|done]. rewrite <- Ht. by apply table_at_dep. Qed.

(** The addresses of an entry. *)
Lemma entry_slot L B i va y : B mod page_size (S L) = 0 → 0 ≤ i < 512 → B + i * page_size L ≤ va < B + (i + 1) * page_size L → y / page_size L = va / page_size L ↔ B + i * page_size L ≤ y < B + (i + 1) * page_size L.
Proof.
  intros HB Hi Hva. rewrite slot_index. rewrite (slot_of L B i y HB Hi). apply slot_of in Hva as [H1 H2]; [|done|done]. rewrite H1, H2. tauto.
Qed.

Lemma aligned_at L B i va : B mod page_size (S L) = 0 → B + i * page_size L ≤ va < B + (i + 1) * page_size L → va mod page_size L = 0 → va = B + i * page_size L.
Proof.
  intros HB Hva Ha. pose proof (ps_pos L) as Hp. pose proof (entry_start L B i HB) as Hs. apply Z.mod_divide in Ha, Hs; [|lia..]. destruct Ha as [q ->], Hs as [r Er]. rewrite Er in *. assert (r = q) by nia. subst. done.
Qed.

(** ** The pages for tables *)

(** A page of each level that an address is inside of has to be split to end there.  There
    are large pages at two levels. *)
Fixpoint off_cost (L : nat) (x : Z) : Z := match L with O => 0 | S L' => (if decide (x mod page_size L = 0) then 0 else 1) + off_cost L' x end.

Definition split_cost (L : nat) (va lim : Z) : Z := if decide (va < lim) then off_cost (Nat.min L 2) va + off_cost (Nat.min L 2) lim else 0.

Lemma off_bounds L x : 0 ≤ off_cost L x ≤ Z.of_nat L.
Proof. induction L as [|L IH]; cbn [off_cost]; [lia|]. destruct (decide _); lia. Qed.

Lemma off_mono L L' x : (L ≤ L')%nat → off_cost L x ≤ off_cost L' x.
Proof. induction 1 as [|L' Hle IH]; [done|]. cbn [off_cost]. destruct (decide _); lia. Qed.

Lemma off_aligned L k x : (k ≤ L)%nat → x mod page_size L = 0 → off_cost k x = 0.
Proof. induction k as [|k IH]; intros Hk Hx; cbn [off_cost]; [done|]. rewrite decide_True by (apply (aligned_lower L); [lia|done]). rewrite IH; [done|lia|done]. Qed.

Lemma split_cost_bounds L va lim : 0 ≤ split_cost L va lim ≤ 4.
Proof. unfold split_cost. destruct (decide _); [|lia]. pose proof (off_bounds (Nat.min L 2) va). pose proof (off_bounds (Nat.min L 2) lim). lia. Qed.

Lemma split_app L va mid lim : va ≤ mid ≤ lim → mid = lim ∨ mid mod page_size L = 0 → split_cost L va mid + split_cost L mid lim ≤ split_cost L va lim.
Proof.
  intros Hle Hmid. unfold split_cost. pose proof (off_bounds (Nat.min L 2) va). pose proof (off_bounds (Nat.min L 2) lim). destruct Hmid as [->|Hm]; [rewrite (decide_False (P := lim < lim)) by lia; lia|]. rewrite (off_aligned L (Nat.min L 2) mid) by (done || lia). repeat case_decide; lia.
Qed.

Lemma split_S L va lim : split_cost L va lim ≤ split_cost (S L) va lim.
Proof. unfold split_cost. destruct (decide _); [|done]. pose proof (off_mono (Nat.min L 2) (Nat.min (S L) 2) va ltac:(lia)). pose proof (off_mono (Nat.min L 2) (Nat.min (S L) 2) lim ltac:(lia)). lia. Qed.

Lemma split_part L va lim : (S L ≤ 2)%nat → va < lim → va mod page_size (S L) ≠ 0 ∨ lim mod page_size (S L) ≠ 0 → 1 + split_cost L va lim ≤ split_cost (S L) va lim.
Proof. intros HL Hlt Hp. unfold split_cost. rewrite !decide_True by done. rewrite (Nat.min_l (S L) 2), (Nat.min_l L 2) by lia. cbn [off_cost]. destruct Hp; repeat case_decide; (done || lia). Qed.

(** ** Unmapping *)

(** If the walk of an address ends at an entry that is not present, then the address is at
    the start of this entry.  At the lowest level it always is. *)
Definition start_ok (L : nat) T (va : Z) : Prop := ∀ k t e, (k ≤ L)%nat → table_at T k va = Some t → ent T t (vaddr_to_index k va) = Some e → IS_PAGE_PRESENT e = false → k = O ∨ va mod page_size k = 0.

Lemma start_aligned L T va : va mod page_size L = 0 → start_ok L T va.
Proof. intros Ha k t e Hk _ _ _. right. by apply (aligned_lower L). Qed.

(** The range from [va] to [lim] of a table of level [L] that starts at [B] was unmapped;
    the entries before it are the same. *)
Record removed (L : nat) st (t B va lim : Z) st' : Prop := {
  rp_ok : mmu_ok st';
  rp_evolves : evolves (split_cost L va lim) st st';
  rp_above : above L (Tb st) (Tb st');
  rp_view y : dom y → view (Tb st') y = if decide (va ≤ y < lim) then None else view (Tb st) y;
  rp_clear j : 0 ≤ j < 512 → va ≤ B + j * page_size L → B + (j + 1) * page_size L ≤ lim → ∃ e, read_entry st' t j = Some e ∧ IS_PAGE_PRESENT e = false;
  rp_keep j : 0 ≤ j → B + (j + 1) * page_size L ≤ va → read_entry st' t j = read_entry st t j }.

Lemma removed_nothing L st t B va : mmu_ok st → 0 ≤ va → removed L st t B va va st.
Proof.
  intros Hok Hva. split; [done|apply (evolves_mono _ _ 0); [apply split_cost_bounds|apply evolves_refl]|apply above_refl| | |done].
  - intros y _. by rewrite decide_False by lia.
  - intros j Hj H1 H2. pose proof (ps_pos L). lia.
Qed.

(** One entry, and the rest of the table. *)
Lemma removed_app L st t B va i mid lim st1 st2 : B mod page_size (S L) = 0 → 0 ≤ i → mid = lim ∨ mid = B + (i + 1) * page_size L → va ≤ mid ≤ lim → removed L st t B va mid st1 → removed L st1 t B mid lim st2 → removed L st t B va lim st2.
Proof.
  intros HB Hi Hmid Hle [A1 A2 A3 A4 A5 A6] [C1 C2 C3 C4 C5 C6]. pose proof (ps_pos L) as Hp. split; [done|eapply evolves_mono; [|by eapply evolves_trans]; apply split_app; [done|]; destruct Hmid as [?| ->]; [by left|right; by apply entry_start]|by apply (above_trans root L L (Tb st) (Tb st1))| | |].
  - intros y Hy. rewrite C4, A4 by done. destruct (decide (mid ≤ y < lim)); [by rewrite decide_True by lia|]. apply decide_ext. lia.
  - intros j Hj H1 H2. destruct (decide (B + (j + 1) * page_size L ≤ mid)) as [Hm|Hm]; [rewrite C6 by (done || lia); by apply A5|]. apply C5; [done| |done]. destruct Hmid as [->| ->]; [lia|]. assert (i + 1 ≤ j) by nia. nia.
  - intros j Hj H1. rewrite C6, A6 by (done || lia). done.
Qed.

Section entry.
Context (L : nat) st (t B i va : Z).
Context (Hok : mmu_ok st) (HL : (L ≤ 3)%nat) (HB : B mod page_size (S L) = 0) (HdB : dom B) (Hva : dom va) (Hat : table_at (Tb st) L B = Some t) (Hi : 0 ≤ i < 512) (Hr : B + i * page_size L ≤ va < B + (i + 1) * page_size L).

Lemma here : table_at (Tb st) L va = Some t ∧ vaddr_to_index L va = i.
Proof. by apply (entry_of (Tb st) L B t i va). Qed.

(** A plain entry was cleared. *)
Lemma removed_entry st1 : va = B + i * page_size L → rewrites maps root cr3 st L va t 0 st1 → removed L st t B va (B + (i + 1) * page_size L) st1.
Proof.
  intros Ev [R1 R2 R3 R4 R5 R6]. destruct here as [Ha Hx]. pose proof (ps_pos L). split; [done|eapply evolves_mono; [apply split_cost_bounds|done]|done| | |].
  - intros y Hy. rewrite R5 by done. destruct (decide (y / page_size L = va / page_size L)) as [Hs|Hs].
    + rewrite (entry_slot L B i va y HB Hi Hr) in Hs. rewrite decide_True by lia. by apply absent_view.
    + rewrite (entry_slot L B i va y HB Hi Hr) in Hs. by rewrite decide_False by lia.
  - intros j Hj H1 H2. assert (j = i) as -> by nia. exists 0. rewrite R6 by lia. by rewrite Hx, decide_True.
  - intros j Hj H1. rewrite R6 by lia. rewrite Hx, decide_False by nia. done.
Qed.

(** An entry was not present. *)
Lemma removed_absent e mid : va = B + i * page_size L → read_entry st t i = Some e → IS_PAGE_PRESENT e = false → va ≤ mid ≤ B + (i + 1) * page_size L → removed L st t B va mid st.
Proof.
  intros Ev He Ha Hm. destruct here as [Hat' Hx]. pose proof (ps_pos L). split; [done|apply (evolves_mono _ _ 0); [apply split_cost_bounds|apply evolves_refl]|apply above_refl| | |done].
  - intros y Hy. destruct (decide (va ≤ y < mid)) as [Hin|]; [|done]. rewrite (slot_view maps root st L va t e y Hok HL Hva Hy Hat'); [by apply absent_view|by rewrite Hx|by apply plain_absent|]. apply (entry_slot L B i va y HB Hi Hr). lia.
  - intros j Hj H1 H2. assert (j = i) as -> by nia. eauto.
Qed.

End entry.

Lemma forward_eq pa va sz n : 0 ≤ va → 0 ≤ n ≤ sz → va + n < 2 ^ 64 → sz < 2 ^ 64 → forward (mk_cursor pa va sz) n = mk_cursor pa (va + n) (sz - n).
Proof. intros. unfold forward. cbn [c_paddr c_vaddr c_size]. by rewrite !u64_id by (unfold is_u64; lia). Qed.

Lemma multiple_step x n : 0 < n → 0 < x → x mod n = 0 → n ≤ x.
Proof. intros Hn Hx E. apply Z.mod_divide in E; [|lia]. destruct E as [q ->]. assert (0 < q) by (apply (Z.mul_pos_cancel_r q n); lia). pose proof (Z.mul_le_mono_nonneg_r 1 q n). lia. Qed.

Lemma mod_sub x n : 0 < n → x mod n = 0 → (x - n) mod n = 0.
Proof. intros Hn E. by rewrite Zminus_mod, E, Z_mod_same_full. Qed.

Lemma remove_pt_ok t B pa S0 : B mod page_size 1 = 0 → dom B → S0 < 2 ^ 64 → ∀ k i st sz b, mmu_ok st → table_at (Tb st) 0 B = Some t → 0 ≤ i → i + Z.of_nat k = 512 → 0 ≤ sz ≤ S0 → sz mod page_size 0 = 0 → let va := B + i * page_size 0 in va + sz ≤ 2 ^ 47 →
  let lim := Z.min (va + sz) (B + 512 * page_size 0) in ∃ b' st', remove_pt_loop k st cr3 t i S0 (mk_cursor pa va sz) b = Some (b', mk_cursor pa lim (va + sz - lim), st') ∧ removed 0 st t B va lim st'.
Proof.
  intros HB HdB HS. pose proof (ps_pos 0) as Hp. induction k as [|k IH]; intros i st sz b Hok Hat Hi Hik Hsz Hm va Hend lim; cbn [remove_pt_loop c_size].
  { assert (i = 512) as -> by lia. assert (lim = va) as -> by lia. exists b, st. replace (va + sz - va) with sz by lia. split; [done|]. apply removed_nothing; [done|unfold dom in HdB; lia]. }
  destruct (sz =? 0) eqn:E0; zb; [subst sz; assert (lim = va) as -> by lia; exists b, st; replace (va + 0 - va) with 0 by lia; split; [done|]; apply removed_nothing; [done|unfold dom in HdB; lia]|]. pose proof (multiple_step sz (page_size 0) Hp ltac:(lia) Hm) as Hge. assert (Hdv : dom va) by (unfold dom in *; lia). assert (Hr : B + i * page_size 0 ≤ va < B + (i + 1) * page_size 0) by lia.
  destruct (entry_of (Tb st) 0 B t i va ltac:(lia) HB HdB Hdv Hat ltac:(lia) Hr) as [Ha Hx]. destruct (ok_entry maps root st 0 va t Hok ltac:(lia) Hdv Ha) as (e & He & Hee). rewrite Hx in He. rewrite He. cbn [mbind option_bind].
  assert (Hstep : ∃ st1, (if IS_PAGE_PRESENT e then unmap_entry 0 st cr3 (c_vaddr (mk_cursor pa va sz)) t i true else Some st) = Some st1 ∧ removed 0 st t B va (B + (i + 1) * page_size 0) st1).
  { destruct (IS_PAGE_PRESENT e) eqn:Ep; cbn [c_vaddr].
    - destruct (clear_leaf maps root cr3 st 0 va t e Hok ltac:(lia) Hdv Ha) as (st1 & E1 & Hrw); [by rewrite Hx|by left|]. rewrite Hx in E1. exists st1. split; [done|]. apply (removed_entry 0 st t B i va); (done || lia).
    - exists st. split; [done|]. apply (removed_absent 0 st t B i va Hok ltac:(lia) HB HdB Hdv Hat ltac:(lia) Hr e); (done || lia). }
  destruct Hstep as (st1 & -> & Hrm). cbn [mbind option_bind]. change PAGE_SIZE with (page_size 0). rewrite forward_eq by (unfold dom in *; lia). cbn [c_size]. rewrite (proj2 (Z.leb_le _ _)) by lia.
  destruct (IH (i + 1) st1 (sz - page_size 0) (b || IS_PAGE_PRESENT e)) as (b' & st' & E & Hrm'); [apply Hrm|rewrite (above_at root 0 (Tb st) (Tb st1) 0 B); [done|apply Hrm|lia|done]|lia|lia|lia|by apply mod_sub|unfold va in *; lia|]. replace (B + (i + 1) * page_size 0) with (va + page_size 0) in * by lia. replace (va + page_size 0 + (sz - page_size 0)) with (va + sz) in * by lia. exists b', st'. split; [done|]. apply (removed_app 0 st t B va i (va + page_size 0) lim st1 st'); (done || lia).
Qed.

(** ** The table below an entry *)

(** The table [m] is below the entry of an address, and translates as before. *)
Record entered (c : Z) st (L : nat) (va t m : Z) st' : Prop := {
  en_ok : mmu_ok st';
  en_evolves : evolves c st st';
  en_above : above (S L) (Tb st) (Tb st');
  en_view y : dom y → view (Tb st') y = view (Tb st) y;
  en_at y : dom y → y / page_size (S L) = va / page_size (S L) → table_at (Tb st') L y = Some m;
  en_next : ∃ e, read_entry st' t (vaddr_to_index (S L) va) = Some e ∧ get_next_table_from_entry e = Some m;
  en_keep j : 0 ≤ j → j ≠ vaddr_to_index (S L) va → read_entry st' t j = read_entry st t j }.

Lemma enter_pointer st L va t e : mmu_ok st → (S L ≤ 3)%nat → dom va → table_at (Tb st) (S L) va = Some t → read_entry st t (vaddr_to_index (S L) va) = Some e → IS_PAGE_PRESENT e = true → IS_LARGE_PAGE e = false → entered 0 st L va t (Z.land e X86_PG_FRAME) st.
Proof.
  intros Hok HL Hva Hat He Hp Hl. pose proof (not_plain e Hp Hl) as Hn. split; [done|apply evolves_refl|apply above_refl|done| |eauto|done]. intros y Hy Hs. destruct (slot_at root (Tb st) (S L) va t HL Hva Hat y Hy Hs) as [H2 H3]. rewrite table_at_S, H2 by lia. cbn [mbind option_bind]. unfold lower. rewrite H3. change (ent (Tb st) t (vaddr_to_index (S L) va)) with (read_entry st t (vaddr_to_index (S L) va)). by rewrite He.
Qed.

Lemma enter_graft c st L va t m lm st' : grafted maps root st L va t m lm st' → page_at_level 0 m → evolves c st st' → (∀ y, dom y → view (Tb st') y = view (Tb st) y) → entered c st L va t m st'.
Proof.
  intros [G1 G2 G3 G4 G5 G6 G7 G8 G9] Hm Hev Hv. pose proof (index_range (S L) va). split; [done|done|done|done|done| |].
  - exists (pointer m). rewrite G5, decide_True by (done || lia). split; [done|]. by apply pointer_ok.
  - intros j Hj Hne. rewrite G5, decide_False; done.
Qed.

Lemma grafted_page st L va t m lm st' : grafted maps root st L va t m lm st' → (S L ≤ 3)%nat → dom va → page_at_level 0 m.
Proof. intros Hg HL Hva. destruct (mo_held _ _ _ (gr_ok _ _ _ _ _ _ _ _ _ Hg) m) as [? _]; [|done]. exists L, va. split; [lia|]. split; [done|]. by apply (gr_at _ _ _ _ _ _ _ _ _ Hg). Qed.

(** A large page is split first. *)
Lemma enter_present st L va t e : mmu_ok st → (S L ≤ 3)%nat → dom va → table_at (Tb st) (S L) va = Some t → read_entry st t (vaddr_to_index (S L) va) = Some e → IS_PAGE_PRESENT e = true →
  let r := if IS_LARGE_PAGE e then x86_mmu_split maps (S L) st cr3 (Z.ldiff va (page_size (S L) - 1)) t (vaddr_to_index (S L) va) else Some (NO_ERROR, st) in
  (r = None ∧ IS_LARGE_PAGE e = true ∧ starved 1 st) ∨ ∃ m st1, r = Some (NO_ERROR, st1) ∧ entered (if IS_LARGE_PAGE e then 1 else 0) st L va t m st1 ∧ (start_ok (S L) (Tb st) va → start_ok L (Tb st1) va).
Proof.
  intros Hok HL Hva Hat He Hp r. unfold r. destruct (IS_LARGE_PAGE e) eqn:El.
  - destruct (split_ok maps root cr3 st L va t e Hok HL Hva Hat He Hp El) as [[? ?]|(m & lm & st2 & E & Hg & Hev & Hv & Hall)]; [by left|]. right. exists m, st2. split; [done|]. split; [apply (enter_graft 1 st L va t m lm); (done || by eapply grafted_page)|]. intros _ k t2 x Hk Ht Hx Ha. assert (Hm : table_at (Tb st2) L va = Some m) by (by apply (gr_at _ _ _ _ _ _ _ _ _ Hg)). assert (Hlm : ∀ i x, ent (Tb st2) m i = Some x → IS_PAGE_PRESENT x = true ∧ plain L x) by (intros i z Hz; unfold ent in Hz; rewrite (gr_table _ _ _ _ _ _ _ _ _ Hg) in Hz; cbn [mbind option_bind] in Hz; by apply Hall, (list_elem_of_lookup_2 _ (Z.to_nat i))). destruct (decide (k = L)) as [->|Hne].
    + rewrite Hm in Ht. injection Ht as <-. destruct (Hlm _ _ Hx). congruence.
    + exfalso. assert (HL0 : (0 < L)%nat) by lia. assert (Hnone : ∀ n j, (j + S n = L)%nat → table_at (Tb st2) j va = None); [|by rewrite (Hnone (L - S k)%nat) in Ht by lia]. induction n as [|n IH]; intros j Ej; rewrite table_at_S by lia; [|by rewrite (IH (S j)) by lia]. replace (S j) with L by lia. rewrite Hm. cbn [mbind option_bind]. unfold lower. destruct (ent (Tb st2) m _) as [z|] eqn:Ez; [|done]. cbn [mbind option_bind]. destruct (Hlm _ _ Ez) as [_ [?|?]]; [lia|done].
  - right. eexists _, st. split; [done|]. split; [by apply enter_pointer|]. intros Hst k t2 x Hk. apply Hst. lia.
Qed.

Lemma entered_lower c st L va t m st1 T' : entered c st L va t m st1 → (S L ≤ 3)%nat → dom va → table_at (Tb st) (S L) va = Some t → above L (Tb st1) T' → table_at T' (S L) va = Some t ∧ T' !! t = Tb st1 !! t ∧ table_at T' L va = Some m.
Proof.
  intros He HL Hva Hat Ha. assert (H1 : table_at (Tb st1) (S L) va = Some t) by (rewrite (above_at root (S L) (Tb st)); [done|apply He|lia|done]). split; [rewrite (above_at root L (Tb st1)); (done || lia)|]. split; [apply (Ha (S L) va t); (done || lia)|]. rewrite (above_at root L (Tb st1)) by (done || lia). by apply He.
Qed.

(** ** Unmapping: the levels *)

Definition rem_spec (L : nat) : Prop := ∀ st t va sz pa, mmu_ok st → table_at (Tb st) L va = Some t → dom va → va mod page_size 0 = 0 → sz mod page_size 0 = 0 → 0 < sz → va + sz ≤ 2 ^ 47 → start_ok L (Tb st) va →
  let lim := Z.min (va + sz) (tend L va) in let r := x86_mmu_remove_mapping 48 maps L cr3 st t (mk_cursor pa va sz) in
  (r = None ∧ starved (split_cost L va lim) st) ∨ ∃ b st', r = Some (b, mk_cursor pa lim (va + sz - lim), st') ∧ removed L st t (tbase L va) va lim st'.

(** The table below an entry starts where the entry does. *)
Lemma below_base L B i va : B mod page_size (S (S L)) = 0 → 0 ≤ i < 512 → 0 ≤ va → B + i * page_size (S L) ≤ va < B + (i + 1) * page_size (S L) → tbase L va = B + i * page_size (S L) ∧ tend L va = B + (i + 1) * page_size (S L).
Proof.
  intros HB Hi Hva Hr. destruct (tbase_spec L va Hva) as (T1 & T2 & T3 & T4). pose proof (ps_pos (S L)). assert (E : tbase L va = B + i * page_size (S L)); [|unfold tend; rewrite E; split; [done|ring]]. apply (aligned_at (S L) B i); [done| |done]. apply (entry_slot (S L) B i va (tbase L va) HB Hi Hr). done.
Qed.

Lemma forallb_absent l : forallb (λ e, negb (IS_PAGE_PRESENT e)) l = true → ∀ x, x ∈ l → IS_PAGE_PRESENT x = false.
Proof. intros Hf x Hx. rewrite forallb_forall in Hf. apply negb_true_iff, Hf. by apply list_elem_of_In. Qed.

(** A table that was unmapped from its start to its end is empty. *)
Lemma removed_all L st m B st' l : removed L st m B B (B + 512 * page_size L) st' → Tb st' !! m = Some l → length l = 512%nat → ∀ x, x ∈ l → IS_PAGE_PRESENT x = false.
Proof.
  intros Hrm Hl Hlen x [j Hj]%list_elem_of_lookup. pose proof (lookup_lt_Some _ _ _ Hj). pose proof (ps_pos L). destruct (rp_clear _ _ _ _ _ _ _ Hrm (Z.of_nat j) ltac:(lia) ltac:(nia) ltac:(nia)) as (e & He & Hp). unfold read_entry in He. rewrite Hl, Nat2Z.id in He. cbn [mbind option_bind] in He. congruence.
Qed.

Lemma check_vaddr va : dom va → va mod page_size 0 = 0 → x86_mmu_check_vaddr 48 va = true.
Proof. intros Hva Hm. unfold x86_mmu_check_vaddr. rewrite (aligned_page 0) by done. cbn [negb]. unfold x86_is_vaddr_canonical, dom in *. rewrite (proj2 (Z.ltb_ge _ _)) by lia. done. Qed.

Section level.
Context (L : nat) (HL : (S L ≤ 3)%nat) (Hspec : rem_spec L).
Notation lower := (x86_mmu_remove_mapping 48 maps L cr3).

(** From what happened below to what happened to the entry. *)
Lemma removed_below c st t B i va m st1 st2 mid : entered c st L va t m st1 → c + split_cost L va mid ≤ split_cost (S L) va mid → removed L st1 m (B + i * page_size (S L)) va mid st2 → dom va → table_at (Tb st) (S L) va = Some t → vaddr_to_index (S L) va = i → 0 ≤ i → B + i * page_size (S L) ≤ va < B + (i + 1) * page_size (S L) → mid ≤ B + (i + 1) * page_size (S L) → B + i * page_size (S L) < va ∨ mid < B + (i + 1) * page_size (S L) → removed (S L) st t B va mid st2.
Proof.
  intros He Hc [R1 R2 R3 R4 _ _] Hva Hat Hx Hi H1 H2 Hpart. pose proof (ps_pos (S L)). split; [done|eapply evolves_mono; [apply Hc|]; eapply evolves_trans; [apply He|done]|apply (above_trans root (S L) (S L) (Tb st) (Tb st1)); [done|apply He|by apply (above_mono root (S L) L); [lia|]]| | |].
  - intros y Hy. rewrite R4 by done. by rewrite (en_view _ _ _ _ _ _ _ He).
  - intros j Hj H3 H4. assert (j = i) as -> by nia. lia.
  - intros j Hj H3. destruct (entered_lower c st L va t m st1 (Tb st2) He HL Hva Hat R3) as (_ & E & _). unfold read_entry. rewrite E. apply (en_keep _ _ _ _ _ _ _ He j Hj). rewrite Hx. nia.
Qed.

(** A page is split only if a part of it is left. *)
Lemma enter_cost st t B i va sz e : mmu_ok st → B mod page_size (S (S L)) = 0 → dom va → table_at (Tb st) (S L) va = Some t → vaddr_to_index (S L) va = i → 0 ≤ i < 512 → B + i * page_size (S L) ≤ va < B + (i + 1) * page_size (S L) → read_entry st t i = Some e → IS_PAGE_PRESENT e = true → 0 < sz → let mid := Z.min (va + sz) (B + (i + 1) * page_size (S L)) in IS_LARGE_PAGE e && (X86Mmu.page_aligned (S L) va && (page_size (S L) <=? sz)) = false → (if IS_LARGE_PAGE e then 1 else 0) + split_cost L va mid ≤ split_cost (S L) va mid.
Proof.
  intros Hok HB Hva Hat Hx Hi Hr He Hp Hsz mid Hnw. pose proof (ps_pos (S L)) as Hps. destruct (IS_LARGE_PAGE e) eqn:El; [|pose proof (split_S L va mid); lia]. cbn [andb] in Hnw. destruct (mo_entry _ _ _ Hok (S L) va t e HL Hva Hat) as [H2 _]; [by rewrite Hx|done|by right|]. apply split_part; [done|unfold mid; lia|]. destruct (decide (va mod page_size (S L) = 0)) as [Hal|]; [|by left]. right. rewrite (proj2 (aligned_spec (S L) va) Hal) in Hnw. cbn [andb] in Hnw. zb. pose proof (aligned_at (S L) B i va HB Hr Hal) as Ev. intros Hm. assert (E : mid = B + i * page_size (S L)); [|unfold mid in E; lia]. apply (aligned_at (S L) B i); [done|unfold mid; lia|done].
Qed.

Lemma remove_below_ok st t B i va sz pa e : mmu_ok st → B mod page_size (S (S L)) = 0 → dom B → dom va → table_at (Tb st) (S L) B = Some t → 0 ≤ i < 512 → B + i * page_size (S L) ≤ va < B + (i + 1) * page_size (S L) → read_entry st t i = Some e → IS_PAGE_PRESENT e = true → start_ok (S L) (Tb st) va → va mod page_size 0 = 0 → sz mod page_size 0 = 0 → 0 < sz → va + sz ≤ 2 ^ 47 →
  let mid := Z.min (va + sz) (B + (i + 1) * page_size (S L)) in let whole := X86Mmu.page_aligned (S L) va && (page_size (S L) <=? sz) in let r := remove_below maps lower (S L) st cr3 t i e (mk_cursor pa va sz) whole in IS_LARGE_PAGE e && whole = false →
  (r = None ∧ starved (split_cost (S L) va mid) st) ∨ ∃ b st', r = Some (b, mk_cursor pa mid (va + sz - mid), st') ∧ removed (S L) st t B va mid st'.
Proof.
  intros Hok HB HdB Hva Hat Hi Hr He Hp Hst Hvm Hsm Hsz Hend mid whole r Hnw. pose proof (ps_pos (S L)) as Hps. destruct (entry_of (Tb st) (S L) B t i va HL HB HdB Hva Hat Hi Hr) as [Ha Hx]. destruct (below_base L B i va HB Hi ltac:(unfold dom in Hva; lia) Hr) as [Eb Ee]. unfold r, remove_below. cbn [c_vaddr].
  assert (Hcost : (if IS_LARGE_PAGE e then 1 else 0) + split_cost L va mid ≤ split_cost (S L) va mid) by (apply (enter_cost st t B i va sz e); done).
  destruct (enter_present st L va t e Hok HL Hva Ha ltac:(by rewrite Hx) Hp) as [(En & El & Hs)|(m & st1 & E1 & Hen & Hst1)]; [|specialize (Hst1 Hst)]; rewrite Hx in *; [left; rewrite El in *; rewrite En; split; [done|]; apply (starved_mono 1); [pose proof (split_cost_bounds L va mid); lia|done]|]. assert (Ee1 : (if IS_LARGE_PAGE e then '(status, st0) ← x86_mmu_split maps (S L) st cr3 (Z.ldiff va (page_size (S L) - 1)) t i; ASSERT status =? NO_ERROR; Some st0 else Some st) = Some st1) by (destruct (IS_LARGE_PAGE e); [rewrite E1; done|by injection E1 as ->]). rewrite Ee1. cbn [mbind option_bind].
  destruct (en_next _ _ _ _ _ _ _ Hen) as (e1 & He1 & Hn1). rewrite Hx in He1. rewrite He1. cbn [mbind option_bind]. rewrite Hn1. cbn [mbind option_bind]. pose proof (en_at _ _ _ _ _ _ _ Hen va Hva eq_refl) as Hm1. destruct (Hspec st1 m va sz pa (en_ok _ _ _ _ _ _ _ Hen) Hm1 Hva Hvm Hsm Hsz Hend Hst1) as [[En Hs]|(b & st2 & E2 & Hrm)]; [left; rewrite En; split; [done|]; rewrite Ee in Hs; fold mid in Hs; eapply starved_mono; [apply Hcost|]; apply (starved_evolves maps root cr3 _ _ st st1); [done|apply Hen|apply Hen|done]|]. rewrite Eb, Ee in *. fold mid in E2, Hrm. rewrite E2. cbn [mbind option_bind].
  destruct (entered_lower _ st L va t m st1 (Tb st2) Hen HL Hva Ha (rp_above _ _ _ _ _ _ _ Hrm)) as (Hat2 & Et2 & Hm2). pose proof (rp_ok _ _ _ _ _ _ _ Hrm) as Hok2. destruct (mo_full _ _ _ Hok2 m) as (lm & Hlm & Hlen); [exists L, va; split; [lia|done]|]. assert (Hempty : ∃ em, (if whole then Some true else if b then table_empty st2 m else Some false) = Some em ∧ (em = true → ∀ x, x ∈ lm → IS_PAGE_PRESENT x = false) ∧ (em = false → whole = false)).
  { destruct whole eqn:Ew; [|destruct b; [|by exists false]].
    - exists true. split; [done|]. split; [|done]. intros _. unfold whole in Ew. apply andb_true_iff in Ew as [Ew1%aligned_spec Ew2]. zb. pose proof (aligned_at (S L) B i va HB Hr Ew1) as Ev. apply (removed_all L st1 m va st2 lm); [|done|done]. rewrite <- ps_S. assert (Em : mid = va + page_size (S L)) by lia. rewrite <- Em. rewrite <- Ev in Hrm. done.
    - unfold table_empty. rewrite Hlm. cbn [mbind option_bind]. eexists. split; [done|]. split; [apply forallb_absent|done]. }
  destruct Hempty as (em & -> & Hem & Hwf). cbn [mbind option_bind]. destruct em.
  - destruct (mo_full _ _ _ Hok2 t) as (l & Hl & Hlt); [by exists (S L), va|]. assert (Hr2 : read_entry st2 t i = Some e1) by (unfold read_entry in *; by rewrite Et2). destruct (unlink_table_ok maps root cr3 st2 L va t e1 m lm l Hok2 HL Hva Hat2 ltac:(by rewrite Hx) Hn1 Hlm (Hem eq_refl) Hl Hlt) as (st3 & st4 & E3 & E4 & Hok4 & Hev4 & Hab4 & Hv4 & Hre4). rewrite Hx in *. rewrite E3. cbn [mbind option_bind]. rewrite E4. cbn [mbind option_bind]. right. eexists _, st4. split; [done|]. destruct Hrm as [R1 R2 R3 R4 _ _]. split; [done|eapply evolves_mono; [apply Hcost|]; eapply evolves_trans; [apply Hen|]; eapply (evolves_mono _ _ (_ + 0)); [|by eapply evolves_trans]; lia| | | |].
    + apply (above_trans root (S L) (S L) (Tb st) (Tb st1)); [done|apply Hen|]. by apply (above_trans root (S L) L (Tb st1) (Tb st2)); [lia| |].
    + intros y Hy. rewrite Hv4, R4 by done. by rewrite (en_view _ _ _ _ _ _ _ Hen).
    + intros j Hj H3 H4. assert (j = i) as -> by nia. exists 0. rewrite Hre4, decide_True by (done || lia). done.
    + intros j Hj H3. rewrite Hre4, decide_False by (done || nia). unfold read_entry. rewrite Et2. apply (en_keep _ _ _ _ _ _ _ Hen j Hj). rewrite Hx. nia.
  - right. eexists _, st2. split; [done|]. apply (removed_below (if IS_LARGE_PAGE e then 1 else 0) st t B i va m st1 st2 mid); try (done || lia). specialize (Hwf eq_refl). unfold whole in Hwf. apply andb_false_iff in Hwf as [Hw|Hw]; zb; [|lia]. left. apply Z.le_neq. split; [lia|]. intros Ev. assert (X86Mmu.page_aligned (S L) va = true); [|congruence]. apply aligned_spec. rewrite <- Ev. by apply entry_start.
Qed.

(** The cursor is in an entry, or the range is done. *)
Definition placed (st : mmu) (B i va sz : Z) : Prop := va ≤ B + 512 * page_size (S L) ∧ (sz = 0 ∨ (B + i * page_size (S L) ≤ va < B + (i + 1) * page_size (S L) ∧ start_ok (S L) (Tb st) va)).

Lemma placed_next st B i va sz : B mod page_size (S (S L)) = 0 → 0 ≤ i < 512 → 0 < sz → B + i * page_size (S L) ≤ va < B + (i + 1) * page_size (S L) → let mid := Z.min (va + sz) (B + (i + 1) * page_size (S L)) in placed st B (i + 1) mid (va + sz - mid) ∧ (va + sz - mid = 0 ∨ X86Mmu.page_aligned (S L) mid = true) ∧ va < mid.
Proof.
  intros HB Hi Hsz Hr mid. pose proof (ps_pos (S L)). assert (H1 : mid ≤ B + 512 * page_size (S L)) by (unfold mid; nia). destruct (decide (va + sz ≤ B + (i + 1) * page_size (S L))) as [Hle|Hgt]; [unfold placed; split_and!; lia|]. assert (Em : mid = B + (i + 1) * page_size (S L)) by lia. pose proof (entry_start (S L) B (i + 1) HB) as Hal. rewrite <- Em in Hal. split; [|split; [right; by apply aligned_spec|lia]]. split; [done|]. right. split; [lia|]. by apply start_aligned.
Qed.

Lemma remove_loop_spec t B pa S0 : B mod page_size (S (S L)) = 0 → dom B → S0 < 2 ^ 64 → ∀ k i st va sz b, mmu_ok st → table_at (Tb st) (S L) B = Some t → 0 ≤ i → i + Z.of_nat k = 512 → 0 ≤ sz ≤ S0 → va mod page_size 0 = 0 → sz mod page_size 0 = 0 → B ≤ va → va + sz ≤ 2 ^ 47 → placed st B i va sz →
  let lim := Z.min (va + sz) (B + 512 * page_size (S L)) in let r := remove_loop maps lower (S L) k st cr3 t i S0 (mk_cursor pa va sz) b in
  (r = None ∧ starved (split_cost (S L) va lim) st) ∨ ∃ b' st', r = Some (b', mk_cursor pa lim (va + sz - lim), st') ∧ removed (S L) st t B va lim st'.
Proof.
  intros HB HdB HS. pose proof (ps_pos (S L)) as Hp. induction k as [|k IH]; intros i st va sz b Hok Hat Hi Hik Hsz Hvm Hsm HBv Hend Hpl lim r; unfold r; cbn [remove_loop c_size].
  { destruct Hpl as [Hle Hpl]. assert (i = 512) as -> by lia. assert (lim = va) as -> by lia. right. exists b, st. replace (va + sz - va) with sz by lia. split; [done|]. apply removed_nothing; [done|unfold dom in HdB; lia]. }
  destruct (sz =? 0) eqn:E0; zb; [destruct Hpl as [Hle _]; subst sz; assert (lim = va) as -> by lia; right; exists b, st; replace (va + 0 - va) with 0 by lia; split; [done|]; apply removed_nothing; [done|unfold dom in HdB; lia]|]. assert (Hpl2 : B + i * page_size (S L) ≤ va < B + (i + 1) * page_size (S L) ∧ start_ok (S L) (Tb st) va) by (destruct Hpl as [_ [?|?]]; [lia|done]). destruct Hpl2 as [Hr Hst]. assert (Hva : dom va) by (unfold dom in *; lia). set (mid := Z.min (va + sz) (B + (i + 1) * page_size (S L))).
  assert (Hml : va ≤ mid ≤ lim ∧ (mid = lim ∨ mid mod page_size (S L) = 0)) by (destruct (placed_next st B i va sz HB ltac:(lia) ltac:(lia) Hr) as ([? _] & Hal & ?); fold mid in Hal; split; [unfold mid, lim in *; lia|]; destruct Hal as [?|?%aligned_spec]; [left; unfold mid, lim in *; lia|by right]). destruct Hml as [Hml1 Hml2].
  assert (Hnext : ∀ st1 b1, removed (S L) st t B va mid st1 → let r := remove_loop maps lower (S L) k st1 cr3 t (i + 1) S0 (mk_cursor pa mid (va + sz - mid)) b1 in (r = None ∧ starved (split_cost (S L) va lim) st) ∨ ∃ b' st', r = Some (b', mk_cursor pa lim (va + sz - lim), st') ∧ removed (S L) st t B va lim st').
  { intros st1 b1 Hrm r'. destruct (placed_next st1 B i va sz HB ltac:(lia) ltac:(lia) Hr) as (Hpn & _ & Hlt). fold mid in Hpn, Hlt. assert (Hmm : mid mod page_size 0 = 0).
    { unfold mid. destruct (Z.min_dec (va + sz) (B + (i + 1) * page_size (S L))) as [-> | ->]; [rewrite Z.add_mod, Hvm, Hsm by (pose proof (ps_pos 0); lia); done|]. apply (aligned_lower (S L)); [lia|]. by apply entry_start. }
    assert (Hsm' : (va + sz - mid) mod page_size 0 = 0) by (rewrite Zminus_mod, Hmm, Z.add_mod, Hvm, Hsm by (pose proof (ps_pos 0); lia); done). destruct (IH (i + 1) st1 mid (va + sz - mid) b1) as [[En Hs]|(b' & st' & E & Hrm')]; try (done || lia); [apply Hrm|rewrite (above_at root (S L) (Tb st) (Tb st1) (S L) B); [done|apply Hrm|lia|done]|left; split; [done|]; replace (mid + (va + sz - mid)) with (va + sz) in Hs by lia; fold lim in Hs; eapply starved_mono; [by apply (split_app (S L) va mid lim)|apply (starved_evolves maps root cr3 _ _ st st1); [done|apply Hrm|apply Hrm|done]]|].
    replace (mid + (va + sz - mid)) with (va + sz) in * by lia. right. exists b', st'. split; [done|]. apply (removed_app (S L) st t B va i mid lim st1 st'); (done || lia || nia). }
  destruct (entry_of (Tb st) (S L) B t i va HL HB HdB Hva Hat ltac:(lia) Hr) as [Ha Hx]. destruct (ok_entry maps root st (S L) va t Hok HL Hva Ha) as (e & He & Hee). pose proof He as He'. rewrite Hx in He'. rewrite He'. cbn [mbind option_bind c_paddr c_vaddr]. destruct (IS_PAGE_PRESENT e) eqn:Ep; cbn [negb].
  2: { assert (Hal : va mod page_size (S L) = 0) by (destruct (Hst (S L) t e (le_n _) Ha He Ep) as [?|?]; done). pose proof (aligned_at (S L) B i va HB Hr Hal) as Ev. pose proof (removed_absent (S L) st t B i va Hok HL HB HdB Hva Hat ltac:(lia) Hr e mid Ev He' Ep ltac:(lia)) as Hrm. destruct (sz <? page_size (S L)) eqn:El; zb.
    - assert (Em : mid = va + sz) by lia. specialize (Hnext st b Hrm). rewrite Em in Hnext. rewrite u64_id by (unfold is_u64, dom in *; lia). by replace (va + sz - (va + sz)) with 0 in Hnext by lia.
    - assert (Em : mid = va + page_size (S L)) by lia. rewrite forward_eq by (unfold dom in *; lia). cbn [c_size]. rewrite (proj2 (Z.leb_le _ _)) by lia. specialize (Hnext st b Hrm). rewrite Em in Hnext. by replace (va + sz - (va + page_size (S L))) with (sz - page_size (S L)) in Hnext by lia. }
  destruct (IS_LARGE_PAGE e && (X86Mmu.page_aligned (S L) va && (page_size (S L) <=? sz))) eqn:Ew.
  - apply andb_true_iff in Ew as [El [Hal%aligned_spec Hge]%andb_true_iff]. zb. pose proof (aligned_at (S L) B i va HB Hr Hal) as Ev. assert (Em : mid = va + page_size (S L)) by lia. destruct (clear_leaf maps root cr3 st (S L) va t e Hok HL Hva Ha He) as (st1 & E1 & Hrw); [by apply plain_large|]. rewrite Hx in E1. rewrite E1. cbn [mbind option_bind]. rewrite forward_eq by (unfold dom in *; lia). cbn [c_size]. rewrite (proj2 (Z.leb_le _ _)) by lia. assert (Em' : mid = B + (i + 1) * page_size (S L)) by lia. assert (Hrm : removed (S L) st t B va mid st1) by (rewrite Em'; apply (removed_entry (S L) st t B i va); (done || lia)). specialize (Hnext st1 true Hrm). rewrite Em in Hnext. by replace (va + sz - (va + page_size (S L))) with (sz - page_size (S L)) in Hnext by lia.
  - destruct (remove_below_ok st t B i va sz pa e Hok HB HdB Hva Hat ltac:(lia) Hr He' Ep Hst Hvm Hsm ltac:(lia) Hend Ew) as [[En Hs]|(b1 & st1 & E1 & Hrm)]; [left; rewrite En; split; [done|]; eapply starved_mono; [|done]; pose proof (split_app (S L) va mid lim Hml1 Hml2); pose proof (split_cost_bounds (S L) mid lim); fold mid; lia|]. fold mid in E1, Hrm. rewrite E1. cbn [mbind option_bind c_size c_vaddr]. destruct (placed_next st1 B i va sz HB ltac:(lia) ltac:(lia) Hr) as (_ & Hal & Hlt). fold mid in Hal, Hlt. rewrite (proj2 (Z.leb_le _ _)) by lia. assert (Hasrt : (va + sz - mid =? 0) || X86Mmu.page_aligned (S L) mid = true) by (apply orb_true_iff; destruct Hal; [left; by apply Z.eqb_eq|by right]). rewrite Hasrt. by apply Hnext.
Qed.

End level.

(** The table of an address, and its entry there. *)
Lemma table_facts L st t va : (L ≤ 3)%nat → dom va → table_at (Tb st) L va = Some t → tbase L va mod page_size (S L) = 0 ∧ 0 ≤ tbase L va ∧ tbase L va ≤ va < tend L va ∧ tend L va = tbase L va + 512 * page_size L ∧ 0 ≤ vaddr_to_index L va < 512 ∧ dom (tbase L va) ∧ table_at (Tb st) L (tbase L va) = Some t ∧ tbase L va + vaddr_to_index L va * page_size L ≤ va < tbase L va + (vaddr_to_index L va + 1) * page_size L.
Proof.
  intros HL Hva Hat. destruct (tbase_spec L va ltac:(unfold dom in Hva; lia)) as (T1 & T2 & T3 & T4). pose proof (index_range L va). assert (HdB : dom (tbase L va)) by (unfold dom in *; lia). split; [done|]. split; [done|]. split; [done|]. split; [apply tend_entries|]. split; [done|]. split; [done|]. split; [rewrite <- Hat; by apply table_at_dep|]. by apply slot_of.
Qed.

Lemma remove_levels L : (L ≤ 3)%nat → rem_spec L.
Proof.
  induction L as [|L IH]; intros HL st t va sz pa Hok Hat Hva Hvm Hsm Hsz Hend Hst lim r; unfold r; cbn [x86_mmu_remove_mapping c_vaddr c_size].
  all: (destruct (table_facts _ st t va HL Hva Hat) as (T1 & T3 & T4 & Te & Hir & HdB & HatB & Hr)).
  - rewrite (aligned_page 0) by done. right. pose proof (aligned_at 0 (tbase 0 va) _ va T1 Hr Hvm) as Ev. destruct (remove_pt_ok t (tbase 0 va) pa sz T1 HdB ltac:(lia) (entries_left 0 va) (vaddr_to_index 0 va) st sz false Hok HatB ltac:(lia)) as (b & st' & E & Hrm); try (done || lia); [unfold entries_left, NO_OF_PT_ENTRIES; lia|rewrite <- Ev in *; rewrite <- Te in *; by exists b, st'].
  - rewrite check_vaddr by done. unfold lim. rewrite Te. destruct (remove_loop_spec L HL (IH ltac:(lia)) t (tbase (S L) va) pa sz T1 HdB ltac:(lia) (entries_left (S L) va) (vaddr_to_index (S L) va) st va sz false) as [?|?]; try (done || lia); [unfold entries_left, NO_OF_PT_ENTRIES; lia| |by left|by right]. split; [lia|by right].
Qed.

(** ** Mapping and the change of flags *)

(** Both go through the pages of a range in order.  [F] gives the new translation of an
    address and [good] is what the old one has to be; [adv] is the physical address of the
    cursor; [cost] is a bound for the number of new tables. *)
Section change.
Context (F : Z → option (Z * Z) → option (Z * Z)) (good : option (Z * Z) → Prop) (err : Z) (adv : Z → Z) (cost : nat → Z → Z → Z).
Context (cost_nonneg : ∀ L va lim, 0 ≤ cost L va lim) (cost_app : ∀ L va mid lim, va ≤ mid ≤ lim → mid = lim ∨ mid mod page_size L = 0 → cost L va mid + cost L mid lim ≤ cost L va lim).

Record changed (c : Z) (L : nat) st (va lim : Z) st' : Prop := {
  ch_ok : mmu_ok st';
  ch_evolves : evolves c st st';
  ch_above : above L (Tb st) (Tb st');
  ch_view y : dom y → view (Tb st') y = if decide (va ≤ y < lim) then F y (view (Tb st) y) else view (Tb st) y;
  ch_was y : dom y → va ≤ y < lim → good (view (Tb st) y) }.

(** The range up to [lim] is done, or the code stopped with an error at a page that is not
    as it has to be, or there was no memory. *)
Definition outcome (L : nat) st (va fin lim : Z) (r : option (Z * MappingCursor * mmu)) : Prop :=
  (r = None ∧ starved (cost L va lim) st) ∨
  (∃ st', r = Some (NO_ERROR, mk_cursor (adv lim) lim (fin - lim), st') ∧ changed (cost L va lim) L st va lim st') ∨
  ∃ mid st', r = Some (err, mk_cursor (adv mid) mid (fin - mid), st') ∧ changed (cost L va lim) L st va mid st' ∧ va ≤ mid < lim ∧ mid mod page_size 0 = 0 ∧ ¬ good (view (Tb st) mid).

Lemma changed_mono c c' L st va lim st' : c ≤ c' → changed c L st va lim st' → changed c' L st va lim st'.
Proof. intros Hc [? ? ? ? ?]. split; try done. by eapply evolves_mono. Qed.

Lemma changed_nothing c L st va : 0 ≤ c → mmu_ok st → changed c L st va va st.
Proof. intros Hc Hok. split; [done|by apply (evolves_mono _ _ 0); [|apply evolves_refl]|apply above_refl| |]; [intros y _; by rewrite decide_False by lia|intros y _ ?; lia]. Qed.

Lemma changed_app c c' L st va mid lim st1 st2 : va ≤ mid ≤ lim → changed c L st va mid st1 → changed c' L st1 mid lim st2 → changed (c + c') L st va lim st2.
Proof.
  intros Hle [A1 A2 A3 A4 A5] [C1 C2 C3 C4 C5]. split; [done|by eapply evolves_trans|by apply (above_trans root L L (Tb st) (Tb st1))| |].
  - intros y Hy. rewrite C4, A4 by done. destruct (decide (mid ≤ y < lim)); [rewrite (decide_False (P := va ≤ y < mid)), (decide_True (P := va ≤ y < lim)) by lia; done|]. apply decide_ext. lia.
  - intros y Hy Hr. destruct (decide (y < mid)); [apply A5; (done || lia)|]. specialize (C5 y Hy ltac:(lia)). by rewrite A4, decide_False in C5 by (done || lia).
Qed.

Lemma outcome_app L st va mid fin lim st1 r : mmu_ok st → va ≤ mid ≤ lim → mid = lim ∨ mid mod page_size L = 0 → fin ≤ 2 ^ 47 → lim ≤ fin → 0 ≤ va → changed (cost L va mid) L st va mid st1 → outcome L st1 mid fin lim r → outcome L st va fin lim r.
Proof.
  intros Hok Hle Hmid Hfin Hlim Hva Hch Ho. pose proof (cost_app L va mid lim Hle Hmid) as Hcost. destruct Ho as [[-> Hs]|[(st' & -> & Hc)|(m & st' & -> & Hc & Hm & Hal & Hg)]].
  - left. split; [done|]. eapply starved_mono; [apply Hcost|]. apply (starved_evolves maps root cr3 _ _ st st1); [done|apply Hch|apply Hch|done].
  - right. left. exists st'. split; [done|]. eapply changed_mono; [apply Hcost|]. by apply (changed_app _ _ L st va mid lim st1).
  - right. right. exists m, st'. split; [done|]. split; [eapply changed_mono; [apply Hcost|]; by apply (changed_app _ _ L st va mid m st1); [lia| |]|]. split; [lia|]. split; [done|]. by rewrite (ch_view _ _ _ _ _ _ Hch), decide_False in Hg by (unfold dom; lia).
Qed.

Lemma changed_below c c' L st va t m st1 lim st2 : entered c st L va t m st1 → changed c' L st1 va lim st2 → changed (c + c') (S L) st va lim st2.
Proof.
  intros He [C1 C2 C3 C4 C5]. split; [done|eapply evolves_trans; [apply He|done]|apply (above_trans root (S L) (S L) (Tb st) (Tb st1)); [done|apply He|by apply (above_mono root (S L) L); [lia|]]| |].
  - intros y Hy. rewrite C4 by done. by rewrite (en_view _ _ _ _ _ _ _ He).
  - intros y Hy Hr. rewrite <- (en_view _ _ _ _ _ _ _ He) by done. by apply C5.
Qed.

Lemma outcome_below c L st va t m st1 fin lim r : mmu_ok st → c + cost L va lim ≤ cost (S L) va lim → dom va → fin ≤ 2 ^ 47 → lim ≤ fin → entered c st L va t m st1 → outcome L st1 va fin lim r → outcome (S L) st va fin lim r.
Proof.
  intros Hok Hcost Hva Hfin Hlim He [[-> Hs]|[(st' & -> & Hc)|(mid & st' & -> & Hc & Hm & Hal & Hg)]].
  - left. split; [done|]. eapply starved_mono; [apply Hcost|]. apply (starved_evolves maps root cr3 _ _ st st1); [done|apply He|apply He|done].
  - right. left. exists st'. split; [done|]. eapply changed_mono; [apply Hcost|]. by eapply changed_below.
  - right. right. exists mid, st'. split; [done|]. split; [eapply changed_mono; [apply Hcost|]; by eapply changed_below|]. split; [done|]. split; [done|]. rewrite <- (en_view _ _ _ _ _ _ _ He) by (unfold dom in *; lia). done.
Qed.

Lemma outcome_stop L st va fin lim : mmu_ok st → va < lim → va mod page_size 0 = 0 → ¬ good (view (Tb st) va) → outcome L st va fin lim (Some (err, mk_cursor (adv va) va (fin - va), st)).
Proof. intros. right. right. exists va, st. split; [done|]. split; [by apply changed_nothing; [apply cost_nonneg|]|]. split; [lia|done]. Qed.

(** One page of some level. *)
Lemma changed_entry L st va t e st1 : (L ≤ 3)%nat → va mod page_size L = 0 → dom va → rewrites maps root cr3 st L va t e st1 → (∀ y, dom y → va ≤ y < va + page_size L → good (view (Tb st) y) ∧ entry_view L e y = F y (view (Tb st) y)) → changed (cost L va (va + page_size L)) L st va (va + page_size L) st1.
Proof.
  intros HL Hal Hva [R1 R2 R3 R4 R5 R6] HF. pose proof (ps_pos L) as Hp. assert (Hslot : ∀ y, y / page_size L = va / page_size L ↔ va ≤ y < va + page_size L).
  { intros y. assert (Ev : va = va / page_size L * page_size L) by (pose proof (Z.div_mod va (page_size L) ltac:(lia)); lia). split; [intros E; pose proof (Z.div_mod y (page_size L) ltac:(lia)); pose proof (Z.mod_pos_bound y (page_size L) Hp); rewrite E in *; lia|]. intros Hy. symmetry. apply (Z.div_unique _ _ _ (y - va)); lia. }
  split; [done|by apply (evolves_mono _ _ 0); [apply cost_nonneg|]|done| |intros y Hy Hr; by apply HF]. intros y Hy. rewrite R5 by done. destruct (decide (y / page_size L = va / page_size L)) as [Hs|Hs]; rewrite Hslot in Hs; [rewrite decide_True by done; by apply HF|by rewrite decide_False by done].
Qed.

End change.

Lemma page_offset L va y : va mod page_size L = 0 → va ≤ y < va + page_size L → y mod page_size L = y - va ∧ y / page_size L = va / page_size L.
Proof.
  intros Hal Hy. pose proof (ps_pos L). pose proof (Z.div_mod va (page_size L) ltac:(lia)). split; symmetry; [apply (Z.mod_unique _ _ (va / page_size L)); lia|apply (Z.div_unique _ _ _ (y - va)); lia].
Qed.

(** What an entry for a page translates to. *)
Lemma present_entry st L va t e : mmu_ok st → (L ≤ 3)%nat → dom va → table_at (Tb st) L va = Some t → read_entry st t (vaddr_to_index L va) = Some e → IS_PAGE_PRESENT e = true → L = O ∨ IS_LARGE_PAGE e = true → (L ≤ 2)%nat ∧ plain L e ∧ ∃ pa fl, e = leaf L pa fl ∧ page_at_level L pa ∧ ∀ y, dom y → y / page_size L = va / page_size L → view (Tb st) y = Some (pa + y mod page_size L, norm_flags fl).
Proof.
  intros Hok HL Hva Hat He Hp Hl. destruct (mo_entry _ _ _ Hok L va t e HL Hva Hat He Hp Hl) as (H2 & pa & fl & -> & Hpa). split; [done|]. pose proof (leaf_plain L pa fl H2 Hpa) as Hpl. split; [done|]. exists pa, fl. split; [done|]. split; [done|]. intros y Hy Hs. rewrite (slot_view maps root st L va t (leaf L pa fl) y) by done. by apply leaf_view.
Qed.

Lemma absent_entry st L va t e y : mmu_ok st → (L ≤ 3)%nat → dom va → dom y → table_at (Tb st) L va = Some t → read_entry st t (vaddr_to_index L va) = Some e → IS_PAGE_PRESENT e = false → y / page_size L = va / page_size L → view (Tb st) y = None.
Proof. intros Hok HL Hva Hy Hat He Hp Hs. rewrite (slot_view maps root st L va t e y) by (done || by apply plain_absent). by apply absent_view. Qed.

(** The end of an entry, or of the range. *)
Lemma mid_page L B i fin : B mod page_size (S L) = 0 → fin mod page_size 0 = 0 → Z.min fin (B + (i + 1) * page_size L) mod page_size 0 = 0.
Proof. intros HB Hf. destruct (Z.min_dec fin (B + (i + 1) * page_size L)) as [-> | ->]; [done|]. apply (aligned_lower L); [lia|]. by apply entry_start. Qed.

(** The entries of a level that a range has a part in, and those of all levels with tables
    below them. *)
Definition entries (k : nat) (va lim : Z) : Z := if decide (va < lim) then (lim - 1) / page_size k - va / page_size k + 1 else 0.

Fixpoint map_cost (L : nat) (va lim : Z) : Z := match L with O => 0 | S L' => entries L va lim + map_cost L' va lim end.

Lemma entries_pos k va lim : 0 ≤ entries k va lim ∧ (va < lim → 1 ≤ entries k va lim).
Proof. unfold entries. destruct (decide _); [|lia]. pose proof (Z.div_le_mono va (lim - 1) (page_size k) (ps_pos k)). lia. Qed.

Lemma entries_app k va mid lim : va ≤ mid ≤ lim → mid = lim ∨ mid mod page_size k = 0 → entries k va mid + entries k mid lim ≤ entries k va lim.
Proof.
  intros Hle Hmid. destruct Hmid as [->|Hm]; [unfold entries; rewrite (decide_False (P := lim < lim)) by lia; lia|]. pose proof (ps_pos k) as Hp. unfold entries. assert (E : (mid - 1) / page_size k = mid / page_size k - 1) by (symmetry; apply (Z.div_unique _ _ _ (page_size k - 1)); [lia|]; pose proof (Z.div_mod mid (page_size k) ltac:(lia)); lia). repeat case_decide; first [lia|assert (mid = va ∨ mid = lim) as [-> | ->] by lia; lia].
Qed.

Lemma map_nonneg L va lim : 0 ≤ map_cost L va lim.
Proof. induction L as [|L IH]; cbn [map_cost]; [lia|]. pose proof (entries_pos (S L) va lim). lia. Qed.

Lemma map_app L va mid lim : va ≤ mid ≤ lim → mid = lim ∨ mid mod page_size L = 0 → map_cost L va mid + map_cost L mid lim ≤ map_cost L va lim.
Proof.
  intros Hle Hmid. assert (H : ∀ k, (k ≤ L)%nat → map_cost k va mid + map_cost k mid lim ≤ map_cost k va lim); [|by apply H]. induction k as [|k IH]; intros Hk; cbn [map_cost]; [lia|]. assert (Hm : mid = lim ∨ mid mod page_size (S k) = 0) by (destruct Hmid; [by left|right; by apply (aligned_lower L)]). pose proof (entries_app (S k) va mid lim Hle Hm). specialize (IH ltac:(lia)). lia.
Qed.

Lemma map_S L va lim c : va < lim → c ≤ 1 → c + map_cost L va lim ≤ map_cost (S L) va lim.
Proof. intros Hlt Hc. cbn [map_cost]. pose proof (entries_pos (S L) va lim). lia. Qed.

(** A page has a part in one entry of each level. *)
Lemma entries_pages k va n : va mod page_size 0 = 0 → 0 ≤ n → entries k va (va + n * page_size 0) ≤ n.
Proof.
  intros Hva Hn. unfold entries. case_decide as Hlt; [|done]. pose proof (ps_pos 0) as Hp. pose proof (ps_pos k) as Hpk. assert (Hone : ∀ j, 0 ≤ j → (va + j * page_size 0 + (page_size 0 - 1)) / page_size k = (va + j * page_size 0) / page_size k).
  { intros j Hj. assert (Ha : (va + j * page_size 0) mod page_size 0 = 0) by (rewrite Z.mod_add by lia; done). symmetry. apply (slot_mono 0); [lia|]. symmetry. by apply (page_offset 0 (va + j * page_size 0)); [|lia]. }
  assert (Hstep : ∀ j, 0 ≤ j → (va + j * page_size 0) / page_size k - va / page_size k ≤ j).
  { apply (natlike_ind (λ j, (va + j * page_size 0) / page_size k - va / page_size k ≤ j)); [rewrite Z.mul_0_l, Z.add_0_r; lia|]. intros j Hj IH. pose proof (Z.div_le_mono (va + Z.succ j * page_size 0) (va + j * page_size 0 + (page_size 0 - 1) + 1 * page_size k) (page_size k) Hpk ltac:(pose proof (multiple_step (page_size k) 1); lia)) as Hd. rewrite Z.div_add, Hone in Hd by lia. lia. }
  replace (va + n * page_size 0 - 1) with (va + (n - 1) * page_size 0 + (page_size 0 - 1)) by lia. assert (1 ≤ n) by nia. rewrite Hone by lia. specialize (Hstep (n - 1) ltac:(lia)). lia.
Qed.

Lemma map_pages L va n : va mod page_size 0 = 0 → 0 ≤ n → map_cost L va (va + n * page_size 0) ≤ Z.of_nat L * n.
Proof. intros Hva Hn. induction L as [|L IH]; cbn [map_cost]; [lia|]. pose proof (entries_pages (S L) va n Hva Hn). lia. Qed.

Section add.
Context (fl d : Z) (Hpw : pw ≤ 52) (Hd : d mod page_size 0 = 0).
Notation new := (λ y _, Some (d + y, norm_flags fl)).
Notation unused := (λ v : option (Z * Z), v = None).
Notation outcome := (outcome new unused ERR_ALREADY_EXISTS (λ x, d + x) map_cost).
Notation cursor va fin := (mk_cursor (d + va) va (fin - va)).

Lemma advance_eq va fin n : 0 ≤ va → 0 ≤ n → va + n ≤ fin → fin ≤ 2 ^ 47 → 0 ≤ d + va → d + fin ≤ 2 ^ pw → advance_both (cursor va fin) n = cursor (va + n) fin.
Proof.
  intros. assert (2 ^ pw ≤ 2 ^ 52) by (apply Z.pow_le_mono_r; lia). unfold advance_both. cbn [c_paddr c_vaddr c_size]. rewrite !u64_id by (unfold is_u64; lia). f_equal; lia.
Qed.

(** A page is mapped where there was none. *)
Lemma add_page L st va fin t e flags : mmu_ok st → (L ≤ 2)%nat → dom va → table_at (Tb st) L va = Some t → read_entry st t (vaddr_to_index L va) = Some e → IS_PAGE_PRESENT e = false → va mod page_size L = 0 → (d + va) mod page_size L = 0 → va + page_size L ≤ fin → fin ≤ 2 ^ 47 → 0 ≤ d + va → d + fin ≤ 2 ^ pw → flags = leaf_flags L fl →
  ∃ st1, update_entry L st cr3 va t (vaddr_to_index L va) (d + va) flags = Some st1 ∧ changed new unused (map_cost L va (va + page_size L)) L st va (va + page_size L) st1.
Proof.
  intros Hok HL Hva Hat He Hp Hal Hpl Hfit Hfin H0 Hb ->. assert (2 ^ pw ≤ 2 ^ 52) by (apply Z.pow_le_mono_r; lia). assert (Hpa : page_at_level L (d + va)) by (split; [done|lia]). destruct (update_leaf maps root cr3 st L va t e (d + va) (leaf_flags L fl) fl Hok HL Hva Hat He (plain_absent _ _ Hp) Hpa eq_refl) as (st1 & E & Hrw). exists st1. split; [done|]. apply (changed_entry new unused map_cost map_nonneg L st va t (leaf L (d + va) fl)); [lia|done|done|done|]. intros y Hy Hr. destruct (page_offset L va y Hal Hr) as [Eo Es]. split; [by apply (absent_entry st L va t e y Hok ltac:(lia))|]. rewrite leaf_view by done. rewrite Eo. do 2 f_equal. lia.
Qed.

Lemma add_pt_ok t B S0 fin : B mod page_size 1 = 0 → dom B → fin ≤ 2 ^ 47 → fin mod page_size 0 = 0 → d + fin ≤ 2 ^ pw → ∀ k i st, mmu_ok st → table_at (Tb st) 0 B = Some t → 0 ≤ i → i + Z.of_nat k = 512 → let va := B + i * page_size 0 in va ≤ fin → fin - va ≤ S0 → 0 ≤ d + va →
  outcome 0 st va fin (Z.min fin (B + 512 * page_size 0)) (add_pt_loop k st cr3 t i fl S0 (cursor va fin)).
Proof.
  intros HB HdB Hfin Hfm Hdf. pose proof (ps_pos 0) as Hp. induction k as [|k IH]; intros i st Hok Hat Hi Hik va Hle HS H0; cbn [add_pt_loop c_size].
  { assert (i = 512) as -> by lia. rewrite Z.min_r by lia. right. left. exists st. split; [done|]. by apply changed_nothing; [apply map_nonneg|]. }
  destruct (fin - va =? 0) eqn:E0; zb; [rewrite Z.min_l by lia; replace fin with va by lia; right; left; exists st; split; [done|by apply changed_nothing; [apply map_nonneg|]]|]. assert (Hvm : va mod page_size 0 = 0) by (by apply entry_start). pose proof (multiple_step (fin - va) (page_size 0) Hp ltac:(lia) ltac:(rewrite Zminus_mod, Hfm, Hvm; done)) as Hge. assert (Hdv : dom va) by (unfold dom in *; lia). destruct (entry_of (Tb st) 0 B t i va ltac:(lia) HB HdB Hdv Hat ltac:(lia) ltac:(lia)) as [Ha Hx]. destruct (ok_entry maps root st 0 va t Hok ltac:(lia) Hdv Ha) as (e & He & _). pose proof He as He'. rewrite Hx in He'. rewrite He'. cbn [mbind option_bind c_vaddr c_paddr]. destruct (IS_PAGE_PRESENT e) eqn:Ep.
  - apply outcome_stop; [apply map_nonneg|done|lia|done|]. destruct (present_entry st 0 va t e Hok ltac:(lia) Hdv Ha He Ep ltac:(by left)) as (_ & _ & p & f & _ & _ & Hv). by rewrite Hv.
  - destruct (add_page 0 st va fin t e (x86_arch_flags 0 fl) Hok ltac:(lia) Hdv Ha He Ep Hvm) as (st1 & E1 & Hc); try (done || lia); [rewrite Z.add_mod, Hd, Hvm by lia; done|symmetry; apply Z.lor_0_r|]. rewrite Hx in E1. rewrite E1. cbn [mbind option_bind]. change PAGE_SIZE with (page_size 0). rewrite advance_eq by (unfold dom in *; lia). cbn [c_size]. rewrite (proj2 (Z.leb_le _ _)) by lia. assert (En : va + page_size 0 = B + (i + 1) * page_size 0) by lia. rewrite En in *. apply (outcome_app new unused _ _ map_cost map_app 0 st va (B + (i + 1) * page_size 0) fin _ st1); [done|nia|right; by apply entry_start|done|lia|unfold dom in *; lia|done|]. apply IH; [apply Hc|rewrite (above_at root 0 (Tb st) (Tb st1) 0 B); [done|apply Hc|lia|done]|lia|lia|lia|lia|lia].
Qed.

Definition add_spec (L : nat) : Prop := ∀ st t va fin, mmu_ok st → table_at (Tb st) L va = Some t → dom va → va mod page_size 0 = 0 → fin mod page_size 0 = 0 → va < fin → fin ≤ 2 ^ 47 → 0 ≤ d + va → d + fin ≤ 2 ^ pw →
  outcome L st va fin (Z.min fin (tend L va)) (x86_mmu_add_mapping 48 pw maps L cr3 fl st t (cursor va fin)).

Section add_level.
Context (L : nat) (HL : (S L ≤ 3)%nat) (Hspec : add_spec L).
Notation lower := (x86_mmu_add_mapping 48 pw maps L cr3 fl).

Lemma add_below_ok st t B i va fin e : mmu_ok st → B mod page_size (S (S L)) = 0 → dom B → dom va → table_at (Tb st) (S L) B = Some t → 0 ≤ i < 512 → B + i * page_size (S L) ≤ va < B + (i + 1) * page_size (S L) → read_entry st t i = Some e → IS_PAGE_PRESENT e && IS_LARGE_PAGE e = false → va mod page_size 0 = 0 → fin mod page_size 0 = 0 → va < fin → fin ≤ 2 ^ 47 → 0 ≤ d + va → d + fin ≤ 2 ^ pw →
  outcome (S L) st va fin (Z.min fin (B + (i + 1) * page_size (S L))) (add_below maps lower (S L) st cr3 t i e (cursor va fin)).
Proof.
  intros Hok HB HdB Hva Hat Hi Hr He Hpl Hvm Hfm Hlt Hfin H0 Hb. destruct (entry_of (Tb st) (S L) B t i va HL HB HdB Hva Hat Hi Hr) as [Ha Hx]. destruct (below_base L B i va HB Hi ltac:(unfold dom in Hva; lia) Hr) as [_ Ee]. unfold add_below. cbn [c_vaddr]. set (r := if negb (IS_PAGE_PRESENT e) then _ else _).
  assert (Hent : (r = None ∧ starved 1 st) ∨ ∃ c m st1, r = Some st1 ∧ c ≤ 1 ∧ entered c st L va t m st1).
  { unfold r. destruct (IS_PAGE_PRESENT e) eqn:Ep; cbn [negb]; [right; eexists 0, _, st; split; [done|]; split; [done|]; apply (enter_pointer st L va t e); (done || by rewrite Hx)|]. destruct (new_table maps root cr3 st L va t e Hok HL Hva Ha ltac:(by rewrite Hx) Ep) as [[En Hs]|(m & st1 & st2 & E1 & E2 & Hg & Hev & Hv)]; [left; by rewrite En|]. right. rewrite Hx in E2. rewrite E1. cbn [mbind option_bind]. exists 1, m, st2. split; [done|]. split; [done|]. apply (enter_graft 1 st L va t m (replicate 512 0)); (done || by eapply grafted_page). }
  destruct Hent as [[-> Hs]|(c & m & st1 & -> & Hc & Hen)]; [left; split; [done|]; apply (starved_mono 1); [pose proof (map_S L va (Z.min fin (B + (i + 1) * page_size (S L))) 1); pose proof (map_nonneg L va (Z.min fin (B + (i + 1) * page_size (S L)))); lia|done]|]. cbn [mbind option_bind]. destruct (en_next _ _ _ _ _ _ _ Hen) as (e1 & He1 & Hn1). rewrite Hx in He1. rewrite He1. cbn [mbind option_bind]. rewrite Hn1. cbn [mbind option_bind]. rewrite <- Ee. eapply outcome_below; [done|apply map_S; [|done]; lia|done|done|lia|done|]. apply Hspec; (done || apply Hen; done).
Qed.

Lemma add_loop_ok t B S0 fin : B mod page_size (S (S L)) = 0 → dom B → fin ≤ 2 ^ 47 → fin mod page_size 0 = 0 → d + fin ≤ 2 ^ pw → ∀ k i st va, mmu_ok st → table_at (Tb st) (S L) B = Some t → 0 ≤ i → i + Z.of_nat k = 512 → B ≤ va ≤ B + 512 * page_size (S L) → va = fin ∨ B + i * page_size (S L) ≤ va < B + (i + 1) * page_size (S L) → va ≤ fin → fin - va ≤ S0 → 0 ≤ d + va → va mod page_size 0 = 0 →
  outcome (S L) st va fin (Z.min fin (B + 512 * page_size (S L))) (add_loop maps lower (S L) k st cr3 t i fl S0 (cursor va fin)).
Proof.
  intros HB HdB Hfin Hfm Hdf. pose proof (ps_pos (S L)) as Hp. induction k as [|k IH]; intros i st va Hok Hat Hi Hik HBv Hpl Hle HS H0 Hvm; cbn [add_loop c_size].
  { assert (i = 512) as -> by lia. replace (Z.min fin (B + 512 * page_size (S L))) with va by lia. right. left. exists st. split; [done|]. by apply changed_nothing; [apply map_nonneg|]. }
  destruct (fin - va =? 0) eqn:E0; zb; [rewrite Z.min_l by lia; replace fin with va by lia; right; left; exists st; split; [done|by apply changed_nothing; [apply map_nonneg|]]|]. assert (Hr : B + i * page_size (S L) ≤ va < B + (i + 1) * page_size (S L)) by (destruct Hpl; [lia|done]). assert (Hdv : dom va) by (unfold dom in *; lia). set (mid := Z.min fin (B + (i + 1) * page_size (S L))).
  assert (Hml : va ≤ mid ≤ Z.min fin (B + 512 * page_size (S L)) ∧ (mid = Z.min fin (B + 512 * page_size (S L)) ∨ mid mod page_size (S L) = 0)) by (split; [unfold mid; nia|]; destruct (Z.min_dec fin (B + (i + 1) * page_size (S L))) as [E|E]; [left; unfold mid; nia|right; unfold mid; rewrite E; by apply entry_start]). destruct Hml as [Hml1 Hml2].
  assert (Hnext : ∀ st1, changed new unused (map_cost (S L) va mid) (S L) st va mid st1 → outcome (S L) st va fin (Z.min fin (B + 512 * page_size (S L))) (add_loop maps lower (S L) k st1 cr3 t (i + 1) fl S0 (cursor mid fin))).
  { intros st1 Hc. apply (outcome_app new unused _ _ map_cost map_app (S L) st va mid fin _ st1); [done|exact Hml1|exact Hml2|done|lia|unfold dom in *; lia|done|]. apply IH; [apply Hc|rewrite (above_at root (S L) (Tb st) (Tb st1) (S L) B); [done|apply Hc|lia|done]|lia|lia|unfold mid; nia|unfold mid; lia|lia|lia|lia|by apply mid_page]. }
  destruct (entry_of (Tb st) (S L) B t i va HL HB HdB Hdv Hat ltac:(lia) Hr) as [Ha Hx]. destruct (ok_entry maps root st (S L) va t Hok HL Hdv Ha) as (e & He & _). pose proof He as He'. rewrite Hx in He'. rewrite He'. cbn [mbind option_bind c_vaddr c_paddr]. destruct (IS_PAGE_PRESENT e && IS_LARGE_PAGE e) eqn:Epl.
  { apply andb_true_iff in Epl as [Ep El]. apply outcome_stop; [apply map_nonneg|done|nia|done|]. destruct (present_entry st (S L) va t e Hok HL Hdv Ha He Ep ltac:(by right)) as (_ & _ & p & f & _ & _ & Hv). by rewrite Hv. }
  assert (Hsup : level_supports_ps (S L) = Some (S L <=? 2)%nat) by (assert (L = 0 ∨ L = 1 ∨ L = 2)%nat as [->|[->| ->]] by lia; done). rewrite Hsup. cbn [mbind option_bind]. destruct ((S L <=? 2)%nat && negb (IS_PAGE_PRESENT e) && X86Mmu.page_aligned (S L) va && X86Mmu.page_aligned (S L) (d + va) && (page_size (S L) <=? fin - va)) eqn:Ew.
  - apply andb_true_iff in Ew as [[[[E2%Nat.leb_le Ep%negb_true_iff]%andb_true_iff A1%aligned_spec]%andb_true_iff A2%aligned_spec]%andb_true_iff Hge]. zb. destruct (add_page (S L) st va fin t e (Z.lor (x86_arch_flags (S L) fl) X86_MMU_PG_PS) Hok E2 Hdv Ha He Ep A1 A2) as (st1 & E1 & Hc); try (done || lia). rewrite Hx in E1. rewrite E1. cbn [mbind option_bind]. rewrite advance_eq by (unfold dom in *; lia). cbn [c_size]. rewrite (proj2 (Z.leb_le _ _)) by lia. pose proof (aligned_at (S L) B i va HB Hr A1) as Ev. assert (Em : va + page_size (S L) = mid) by lia. rewrite Em in *. by apply Hnext.
  - pose proof (add_below_ok st t B i va fin e Hok HB HdB Hdv Hat ltac:(lia) Hr He' Epl Hvm Hfm ltac:(lia) Hfin H0 Hdf) as Ho. fold mid in Ho. pose proof (map_app (S L) va mid _ Hml1 Hml2) as Hca. pose proof (map_nonneg (S L) mid (Z.min fin (B + 512 * page_size (S L)))) as Hcn. destruct Ho as [[-> Hs]|[(st' & -> & Hc)|(m & st' & -> & Hc & Hm & Hal & Hg)]]; [left; split; [done|]; eapply starved_mono; [|done]; lia| |]; cbn [mbind option_bind c_size]; rewrite (proj2 (Z.leb_le _ _)) by lia; cbn [negb]; [by apply Hnext|]. right. right. exists m, st'. split; [done|]. split; [eapply changed_mono; [|done]; lia|]. split; [lia|done].
Qed.

End add_level.

Lemma add_loop_start L st t va fin : (S L ≤ 3)%nat → add_spec L → mmu_ok st → table_at (Tb st) (S L) va = Some t → dom va → va mod page_size 0 = 0 → fin mod page_size 0 = 0 → va < fin → fin ≤ 2 ^ 47 → 0 ≤ d + va → d + fin ≤ 2 ^ pw →
  outcome (S L) st va fin (Z.min fin (tend (S L) va)) (add_loop maps (x86_mmu_add_mapping 48 pw maps L cr3 fl) (S L) (entries_left (S L) va) st cr3 t (vaddr_to_index (S L) va) fl (fin - va) (cursor va fin)).
Proof.
  intros HL Hspec Hok Hat Hva Hvm Hfm Hlt Hfin H0 Hb. destruct (table_facts (S L) st t va HL Hva Hat) as (T1 & T3 & T4 & Te & Hir & HdB & HatB & Hr). rewrite Te in *. apply add_loop_ok; try (done || lia); unfold entries_left, NO_OF_PT_ENTRIES; lia.
Qed.

Lemma check_paddr va fin : va mod page_size 0 = 0 → va < fin → d + fin ≤ 2 ^ pw → x86_mmu_check_paddr pw (d + va) = true.
Proof. intros Hvm Hlt Hb. unfold x86_mmu_check_paddr. rewrite (aligned_page 0) by (rewrite Z.add_mod, Hd, Hvm by (pose proof (ps_pos 0); lia); done). cbn [negb]. apply Z.leb_le. lia. Qed.

Lemma add_levels L : (L ≤ 2)%nat → add_spec L.
Proof.
  induction L as [|L IH]; intros HL st t va fin Hok Hat Hva Hvm Hfm Hlt Hfin H0 Hb; cbn [x86_mmu_add_mapping c_vaddr c_size c_paddr].
  - destruct (table_facts 0 st t va ltac:(lia) Hva Hat) as (T1 & T3 & T4 & Te & Hir & HdB & HatB & Hr). rewrite (aligned_page 0) by (rewrite Zminus_mod, Hfm, Hvm; done). pose proof (aligned_at 0 (tbase 0 va) _ va T1 Hr Hvm) as Ev. rewrite Te. pose proof (add_pt_ok t (tbase 0 va) (fin - va) fin T1 HdB Hfin Hfm Hb (entries_left 0 va) (vaddr_to_index 0 va) st Hok HatB ltac:(lia)) as Ho. rewrite <- Ev in Ho. apply Ho; (lia || unfold entries_left, NO_OF_PT_ENTRIES; lia).
  - rewrite check_vaddr by done. rewrite (check_paddr va fin) by done. destruct (add_loop_start L st t va fin ltac:(lia) (IH ltac:(lia)) Hok Hat Hva Hvm Hfm Hlt Hfin H0 Hb) as [[-> Hs]|[(st' & -> & Hc)|(mid & st' & -> & Hc)]]; [by left|right; left; by exists st'|]. cbn [mbind option_bind]. assert (Ec : ((S L =? MAX_PAGING_LEVEL)%nat) = false) by (apply Nat.eqb_neq; unfold MAX_PAGING_LEVEL; lia). rewrite Ec, andb_false_r. right. right. by exists mid, st'.
Qed.

Lemma mapped_start T va : view T va ≠ None → start_ok 3 T va.
Proof. intros Hv k t e Hk Ht He Hp. exfalso. apply Hv. rewrite (plain_view root T k va t e Hk Ht He (plain_absent _ _ Hp)). by apply absent_view. Qed.

Lemma tend_top va : dom va → tbase 3 va = 0 ∧ tend 3 va = 2 ^ 48.
Proof. intros Hva. unfold tend, tbase, dom in *. change (page_size 4) with (2 ^ 48). rewrite Z.div_small by lia. lia. Qed.

(** From the root: the range is mapped, or nothing changed because a part of it was. *)
Lemma add_top st va fin : mmu_ok st → dom va → va mod page_size 0 = 0 → fin mod page_size 0 = 0 → va < fin → fin ≤ 2 ^ 47 → 0 ≤ d + va → d + fin ≤ 2 ^ pw →
  let r := x86_mmu_add_mapping 48 pw maps 3 cr3 fl st root (cursor va fin) in
  (r = None ∧ starved (map_cost 3 va fin + 4) st) ∨ (∃ st', r = Some (NO_ERROR, cursor fin fin, st') ∧ changed new unused (map_cost 3 va fin) 3 st va fin st') ∨
  ∃ c st', r = Some (ERR_ALREADY_EXISTS, c, st') ∧ mmu_ok st' ∧ evolves (map_cost 3 va fin + 4) st st' ∧ (∀ y, dom y → view (Tb st') y = view (Tb st) y) ∧ ∃ y, va ≤ y < fin ∧ view (Tb st) y ≠ None.
Proof.
  intros Hok Hva Hvm Hfm Hlt Hfin H0 Hb r. unfold r. assert (∃ L, L = 2%nat) as [L EL] by eauto. replace (x86_mmu_add_mapping 48 pw maps 3) with (x86_mmu_add_mapping 48 pw maps (S L)) by (by rewrite EL). cbn [x86_mmu_add_mapping c_vaddr c_size c_paddr]. rewrite check_vaddr by done. rewrite (check_paddr va fin) by done. subst L. destruct (tend_top va Hva) as [_ Et]. pose proof (add_loop_start 2 st root va fin ltac:(lia) (add_levels 2 ltac:(lia)) Hok eq_refl Hva Hvm Hfm Hlt Hfin H0 Hb) as Ho. rewrite Et, Z.min_l in Ho by lia. destruct Ho as [[-> Hs]|[(st' & -> & Hc)|(mid & st' & -> & Hc & Hm & Hal & Hg)]]; cbn [mbind option_bind]; [left; split; [done|]; eapply starved_mono; [|done]; lia|right; left; by exists st'|].
  cbn [MAX_PAGING_LEVEL Nat.eqb andb negb]. change (negb (ERR_ALREADY_EXISTS =? NO_ERROR) && true) with true. unfold add_cleanup. cbn [c_vaddr c_size c_paddr]. replace (u64 (fin - va - (fin - mid))) with (mid - va) by (rewrite u64_id by (unfold is_u64, dom in *; lia); lia). destruct (0 <? mid - va) eqn:Ez; zb.
  - destruct (remove_levels 3 (le_n _) st' root va (mid - va) (d + va)) as [[En Hs]|(b & st2 & E2 & Hrm)]; [apply Hc|done|done|done|rewrite Zminus_mod, Hal, Hvm; done|done|lia|apply mapped_start; rewrite (ch_view _ _ _ _ _ _ _ _ Hc), decide_True by (done || lia); done|left; unfold MAX_PAGING_LEVEL; rewrite En; split; [done|]; apply (starved_evolves maps root cr3 _ _ st st'); [done|apply Hc|apply Hc|]; eapply starved_mono; [apply split_cost_bounds|done]|].
    rewrite Et in E2, Hrm. replace (va + (mid - va)) with mid in * by lia. rewrite Z.min_l in E2, Hrm by lia. unfold MAX_PAGING_LEVEL. rewrite E2. cbn [mbind option_bind c_size]. rewrite Z.sub_diag. right. right. eexists _, st2. split; [done|]. split; [apply Hrm|]. split; [eapply evolves_trans; [apply Hc|]; eapply evolves_mono; [apply split_cost_bounds|apply Hrm]|]. split; [|exists mid; split; [lia|done]].
    intros y Hy. rewrite (rp_view _ _ _ _ _ _ _ Hrm) by done. destruct (decide (va ≤ y < mid)) as [Hin|Hout]; [symmetry; by apply (ch_was _ _ _ _ _ _ _ _ Hc)|]. rewrite (ch_view _ _ _ _ _ _ _ _ Hc) by done. by rewrite decide_False by done.
  - right. right. eexists _, st'. split; [done|]. split; [apply Hc|]. split; [eapply evolves_mono; [|apply Hc]; lia|]. split; [|exists mid; split; [lia|done]]. intros y Hy. rewrite (ch_view _ _ _ _ _ _ _ _ Hc) by done. by rewrite decide_False by lia.
Qed.

End add.

Section update.
Context (fl pa : Z).
Notation reflag := (λ (y : Z) (v : option (Z * Z)), (λ p, (fst p, norm_flags fl)) <$> v).
Notation used := (λ v : option (Z * Z), v ≠ None).
Notation outcome := (outcome reflag used ERR_NOT_FOUND (λ _, pa) split_cost).
Notation cursor va fin := (mk_cursor pa va (fin - va)).

Lemma split_nonneg L va lim : 0 ≤ split_cost L va lim.
Proof. apply split_cost_bounds. Qed.

Lemma forward_cursor va fin n : 0 ≤ va → 0 ≤ n → va + n ≤ fin → fin ≤ 2 ^ 47 → forward (cursor va fin) n = cursor (va + n) fin.
Proof. intros. rewrite forward_eq by lia. f_equal. lia. Qed.

(** The flags of a page are changed. *)
Lemma update_page L st va t e flags : mmu_ok st → (L ≤ 3)%nat → dom va → table_at (Tb st) L va = Some t → read_entry st t (vaddr_to_index L va) = Some e → IS_PAGE_PRESENT e = true → L = O ∨ IS_LARGE_PAGE e = true → va mod page_size L = 0 → flags = leaf_flags L fl →
  ∃ p st1, paddr_from_pte L e = Some p ∧ update_entry L st cr3 va t (vaddr_to_index L va) p flags = Some st1 ∧ changed reflag used (split_cost L va (va + page_size L)) L st va (va + page_size L) st1.
Proof.
  intros Hok HL Hva Hat He Hp Hl Hal ->. destruct (present_entry st L va t e Hok HL Hva Hat He Hp Hl) as (H2 & Hpl & p & f & Ee & Hpa & Hv). exists p. destruct (update_leaf maps root cr3 st L va t e p (leaf_flags L fl) fl Hok H2 Hva Hat He Hpl Hpa eq_refl) as (st1 & E1 & Hrw). exists st1. split; [unfold paddr_from_pte; rewrite Hp, Ee, (proj2 (Nat.ltb_lt _ _)) by lia; by rewrite leaf_frame|]. split; [done|].
  apply (changed_entry reflag used split_cost split_nonneg L st va t (leaf L p fl)); [done|done|done|done|]. intros y Hy Hr. destruct (page_offset L va y Hal Hr) as [_ Es]. rewrite (Hv y Hy Es). split; [done|]. by rewrite leaf_view by done.
Qed.

Lemma update_pt_ok t B S0 fin : B mod page_size 1 = 0 → dom B → fin ≤ 2 ^ 47 → fin mod page_size 0 = 0 → ∀ k i st, mmu_ok st → table_at (Tb st) 0 B = Some t → 0 ≤ i → i + Z.of_nat k = 512 → let va := B + i * page_size 0 in va ≤ fin → fin - va ≤ S0 →
  outcome 0 st va fin (Z.min fin (B + 512 * page_size 0)) (update_pt_loop k st cr3 t i fl S0 (cursor va fin)).
Proof.
  intros HB HdB Hfin Hfm. pose proof (ps_pos 0) as Hp. induction k as [|k IH]; intros i st Hok Hat Hi Hik va Hle HS; cbn [update_pt_loop c_size].
  { assert (i = 512) as -> by lia. rewrite Z.min_r by lia. right. left. exists st. split; [done|]. by apply changed_nothing; [apply split_nonneg|]. }
  destruct (fin - va =? 0) eqn:E0; zb; [rewrite Z.min_l by lia; replace fin with va by lia; right; left; exists st; split; [done|by apply changed_nothing; [apply split_nonneg|]]|]. assert (Hvm : va mod page_size 0 = 0) by (by apply entry_start). pose proof (multiple_step (fin - va) (page_size 0) Hp ltac:(lia) ltac:(rewrite Zminus_mod, Hfm, Hvm; done)) as Hge. assert (Hdv : dom va) by (unfold dom in *; lia). destruct (entry_of (Tb st) 0 B t i va ltac:(lia) HB HdB Hdv Hat ltac:(lia) ltac:(lia)) as [Ha Hx]. destruct (ok_entry maps root st 0 va t Hok ltac:(lia) Hdv Ha) as (e & He & _). pose proof He as He'. rewrite Hx in He'. rewrite He'. cbn [mbind option_bind c_vaddr c_paddr]. destruct (IS_PAGE_PRESENT e) eqn:Ep; cbn [negb].
  - destruct (update_page 0 st va t e (x86_arch_flags 0 fl) Hok ltac:(lia) Hdv Ha He Ep ltac:(by left) Hvm) as (p & st1 & E1 & E2 & Hc); [symmetry; apply Z.lor_0_r|]. rewrite Hx in E2. rewrite E1. cbn [mbind option_bind]. rewrite E2. cbn [mbind option_bind]. change PAGE_SIZE with (page_size 0). rewrite forward_cursor by (unfold dom in *; lia). cbn [c_size]. rewrite (proj2 (Z.leb_le _ _)) by lia. assert (En : va + page_size 0 = B + (i + 1) * page_size 0) by lia. rewrite En in *. apply (outcome_app reflag used _ _ split_cost split_app 0 st va (B + (i + 1) * page_size 0) fin _ st1); [done|nia|right; by apply entry_start|done|lia|unfold dom in *; lia|done|]. apply IH; [apply Hc|rewrite (above_at root 0 (Tb st) (Tb st1) 0 B); [done|apply Hc|lia|done]|lia|lia|lia|lia].
  - apply (outcome_stop reflag used ERR_NOT_FOUND (λ _, pa) split_cost); [apply split_nonneg|done|lia|done|]. rewrite (absent_entry st 0 va t e va) by (done || lia). by intros [].
Qed.

Definition update_spec (L : nat) : Prop := ∀ st t va fin, mmu_ok st → table_at (Tb st) L va = Some t → dom va → va mod page_size 0 = 0 → fin mod page_size 0 = 0 → va < fin → fin ≤ 2 ^ 47 →
  outcome L st va fin (Z.min fin (tend L va)) (x86_mmu_update_mapping 48 maps L cr3 fl st t (cursor va fin)).

Section update_level.
Context (L : nat) (HL : (S L ≤ 3)%nat) (Hspec : update_spec L).
Notation lower := (x86_mmu_update_mapping 48 maps L cr3 fl).

Lemma update_below_ok st t B i va fin e : mmu_ok st → B mod page_size (S (S L)) = 0 → dom B → dom va → table_at (Tb st) (S L) B = Some t → 0 ≤ i < 512 → B + i * page_size (S L) ≤ va < B + (i + 1) * page_size (S L) → read_entry st t i = Some e → IS_PAGE_PRESENT e = true → IS_LARGE_PAGE e && (X86Mmu.page_aligned (S L) va && (page_size (S L) <=? fin - va)) = false → va mod page_size 0 = 0 → fin mod page_size 0 = 0 → va < fin → fin ≤ 2 ^ 47 →
  outcome (S L) st va fin (Z.min fin (B + (i + 1) * page_size (S L))) (update_below maps lower (S L) st cr3 t i e (cursor va fin)).
Proof.
  intros Hok HB HdB Hva Hat Hi Hr He Hp Hnw Hvm Hfm Hlt Hfin. destruct (entry_of (Tb st) (S L) B t i va HL HB HdB Hva Hat Hi Hr) as [Ha Hx]. destruct (below_base L B i va HB Hi ltac:(unfold dom in Hva; lia) Hr) as [_ Ee]. unfold update_below. cbn [c_vaddr]. pose proof (enter_cost L HL st t B i va (fin - va) e Hok HB Hva Ha Hx Hi Hr He Hp ltac:(lia) Hnw) as Hcost. replace (va + (fin - va)) with fin in Hcost by lia.
  destruct (enter_present st L va t e Hok HL Hva Ha ltac:(by rewrite Hx) Hp) as [(En & El & Hs)|(m & st1 & E1 & Hen & _)]; rewrite Hx in *; [left; rewrite En; split; [done|]; rewrite El in Hcost; apply (starved_mono 1); [|done]; pose proof (split_nonneg L va (Z.min fin (B + (i + 1) * page_size (S L)))); lia|]. rewrite E1. cbn [mbind option_bind]. cbn [Z.eqb NO_ERROR negb]. destruct (en_next _ _ _ _ _ _ _ Hen) as (e1 & He1 & Hn1). rewrite Hx in He1. rewrite He1. cbn [mbind option_bind]. rewrite Hn1. cbn [mbind option_bind]. rewrite <- Ee in *. eapply outcome_below; [done|apply Hcost|done|done|lia|done|]. apply Hspec; (done || apply Hen; done).
Qed.

Lemma update_loop_ok t B S0 fin : B mod page_size (S (S L)) = 0 → dom B → fin ≤ 2 ^ 47 → fin mod page_size 0 = 0 → ∀ k i st va, mmu_ok st → table_at (Tb st) (S L) B = Some t → 0 ≤ i → i + Z.of_nat k = 512 → B ≤ va ≤ B + 512 * page_size (S L) → va = fin ∨ B + i * page_size (S L) ≤ va < B + (i + 1) * page_size (S L) → va ≤ fin → fin - va ≤ S0 → va mod page_size 0 = 0 →
  outcome (S L) st va fin (Z.min fin (B + 512 * page_size (S L))) (update_loop maps lower (S L) k st cr3 t i fl S0 (cursor va fin)).
Proof.
  intros HB HdB Hfin Hfm. pose proof (ps_pos (S L)) as Hp. induction k as [|k IH]; intros i st va Hok Hat Hi Hik HBv Hpl Hle HS Hvm; cbn [update_loop c_size].
  { assert (i = 512) as -> by lia. replace (Z.min fin (B + 512 * page_size (S L))) with va by lia. right. left. exists st. split; [done|]. by apply changed_nothing; [apply split_nonneg|]. }
  destruct (fin - va =? 0) eqn:E0; zb; [rewrite Z.min_l by lia; replace fin with va by lia; right; left; exists st; split; [done|by apply changed_nothing; [apply split_nonneg|]]|]. assert (Hr : B + i * page_size (S L) ≤ va < B + (i + 1) * page_size (S L)) by (destruct Hpl; [lia|done]). assert (Hdv : dom va) by (unfold dom in *; lia). set (mid := Z.min fin (B + (i + 1) * page_size (S L))).
  assert (Hml : va ≤ mid ≤ Z.min fin (B + 512 * page_size (S L)) ∧ (mid = Z.min fin (B + 512 * page_size (S L)) ∨ mid mod page_size (S L) = 0)) by (split; [unfold mid; nia|]; destruct (Z.min_dec fin (B + (i + 1) * page_size (S L))) as [E|E]; [left; unfold mid; nia|right; unfold mid; rewrite E; by apply entry_start]). destruct Hml as [Hml1 Hml2].
  assert (Hnext : ∀ st1, changed reflag used (split_cost (S L) va mid) (S L) st va mid st1 → outcome (S L) st va fin (Z.min fin (B + 512 * page_size (S L))) (update_loop maps lower (S L) k st1 cr3 t (i + 1) fl S0 (cursor mid fin))).
  { intros st1 Hc. apply (outcome_app reflag used _ _ split_cost split_app (S L) st va mid fin _ st1); [done|exact Hml1|exact Hml2|done|lia|unfold dom in *; lia|done|]. apply IH; [apply Hc|rewrite (above_at root (S L) (Tb st) (Tb st1) (S L) B); [done|apply Hc|lia|done]|lia|lia|unfold mid; nia|unfold mid; lia|lia|lia|by apply mid_page]. }
  destruct (entry_of (Tb st) (S L) B t i va HL HB HdB Hdv Hat ltac:(lia) Hr) as [Ha Hx]. destruct (ok_entry maps root st (S L) va t Hok HL Hdv Ha) as (e & He & _). pose proof He as He'. rewrite Hx in He'. rewrite He'. cbn [mbind option_bind c_vaddr c_paddr]. destruct (IS_PAGE_PRESENT e) eqn:Ep; cbn [negb].
  2: { apply (outcome_stop reflag used ERR_NOT_FOUND (λ _, pa) split_cost); [apply split_nonneg|done|nia|done|]. rewrite (absent_entry st (S L) va t e va) by (done || lia). by intros []. }
  destruct (IS_LARGE_PAGE e && (X86Mmu.page_aligned (S L) va && (page_size (S L) <=? fin - va))) eqn:Ew.
  - apply andb_true_iff in Ew as [El [A1%aligned_spec Hge]%andb_true_iff]. zb. destruct (update_page (S L) st va t e (Z.lor (x86_arch_flags (S L) fl) X86_MMU_PG_PS) Hok HL Hdv Ha He Ep ltac:(by right) A1 eq_refl) as (p & st1 & E1 & E2 & Hc). rewrite Hx in E2. rewrite E1. cbn [mbind option_bind]. rewrite E2. cbn [mbind option_bind]. rewrite forward_cursor by (unfold dom in *; lia). cbn [c_size]. rewrite (proj2 (Z.leb_le _ _)) by lia. pose proof (aligned_at (S L) B i va HB Hr A1) as Ev. assert (Em : va + page_size (S L) = mid) by lia. rewrite Em in *. by apply Hnext.
  - pose proof (update_below_ok st t B i va fin e Hok HB HdB Hdv Hat ltac:(lia) Hr He' Ep Ew Hvm Hfm ltac:(lia) Hfin) as Ho. fold mid in Ho. pose proof (split_app (S L) va mid _ Hml1 Hml2) as Hca. pose proof (split_nonneg (S L) mid (Z.min fin (B + 512 * page_size (S L)))) as Hcn. destruct Ho as [[-> Hs]|[(st' & -> & Hc)|(m & st' & -> & Hc & Hm & Hal & Hg)]]; [left; split; [done|]; eapply starved_mono; [|done]; lia| |]; cbn [mbind option_bind c_size c_vaddr]; cbn [negb].
    + destruct (placed_next L HL st' B i va (fin - va) HB ltac:(lia) ltac:(lia) Hr) as (_ & Hal & Hlt). replace (va + (fin - va)) with fin in * by lia. fold mid in Hal, Hlt. cbn [Z.eqb NO_ERROR negb]. rewrite (proj2 (Z.leb_le _ _)) by lia. assert (Hasrt : (fin - mid =? 0) || X86Mmu.page_aligned (S L) mid = true) by (apply orb_true_iff; destruct Hal; [left; by apply Z.eqb_eq|by right]). rewrite Hasrt. by apply Hnext.
    + cbn. right. right. exists m, st'. split; [done|]. split; [eapply changed_mono; [|done]; lia|]. split; [lia|done].
Qed.

End update_level.

Lemma update_levels L : (L ≤ 3)%nat → update_spec L.
Proof.
  induction L as [|L IH]; intros HL st t va fin Hok Hat Hva Hvm Hfm Hlt Hfin; cbn [x86_mmu_update_mapping c_vaddr c_size c_paddr].
  all: destruct (table_facts _ st t va HL Hva Hat) as (T1 & T3 & T4 & Te & Hir & HdB & HatB & Hr).
  - rewrite (aligned_page 0) by (rewrite Zminus_mod, Hfm, Hvm; done). pose proof (aligned_at 0 (tbase 0 va) _ va T1 Hr Hvm) as Ev. rewrite Te. pose proof (update_pt_ok t (tbase 0 va) (fin - va) fin T1 HdB Hfin Hfm (entries_left 0 va) (vaddr_to_index 0 va) st Hok HatB ltac:(lia)) as Ho. rewrite <- Ev in Ho. apply Ho; (lia || unfold entries_left, NO_OF_PT_ENTRIES; lia).
  - rewrite check_vaddr by done. rewrite Te in *. apply update_loop_ok; try (done || lia); [by apply IH; lia|unfold entries_left, NO_OF_PT_ENTRIES; lia].
Qed.

End update.

(** ** The walk of the code *)

Lemma get_mapping_walk st y : mmu_ok st → dom y → ∀ L t, (L ≤ 3)%nat → table_at (Tb st) L y = Some t →
  (x86_mmu_get_mapping L st t y = Some None ∧ walk (Tb st) L t y = None) ∨
  ∃ k t' e, x86_mmu_get_mapping L st t y = Some (Some (k, t', vaddr_to_index k y)) ∧ walk (Tb st) L t y = Some (k, e) ∧ (k ≤ 3)%nat ∧ table_at (Tb st) k y = Some t' ∧ read_entry st t' (vaddr_to_index k y) = Some e ∧ IS_PAGE_PRESENT e = true ∧ (k = O ∨ IS_LARGE_PAGE e = true).
Proof.
  intros Hok Hy. induction L as [|L IH]; intros t HL Hat; destruct (ok_entry maps root st _ y t Hok HL Hy Hat) as (e & He & _); cbn [x86_mmu_get_mapping walk]; rewrite He; unfold ent; unfold read_entry in He; rewrite He; cbn [mbind option_bind]; (destruct (IS_PAGE_PRESENT e) eqn:Ep; cbn [negb]; [|by left]).
  - right. exists O, t, e. split_and!; (done || lia || by left).
  - destruct (IS_LARGE_PAGE e) eqn:El; [right; exists (S L), t, e; split_and!; (done || by right)|]. rewrite (not_plain e Ep El). cbn [mbind option_bind]. apply IH; [lia|]. rewrite table_at_S, Hat by lia. cbn [mbind option_bind]. unfold lower, ent. rewrite He. by apply not_plain.
Qed.

Lemma lor_offset L p y : (L ≤ 2)%nat → page_at_level L p → 0 ≤ y → Z.lor p (Z.land y (page_size L - 1)) = p + y mod page_size L.
Proof.
  intros HL (Hal & H0 & H1) Hy. pose proof (level_range L HL). pose proof (ps_pos L) as Hp. unfold page_size in *. replace (2 ^ shift_of L - 1) with (Z.ones (shift_of L)) by (rewrite Z.ones_equiv; lia). rewrite Z.land_ones by lia. pose proof (Z.mod_pos_bound y (2 ^ shift_of L) Hp). assert (E : Z.land p (y mod 2 ^ shift_of L) = 0) by (apply (land_aligned p (shift_of L)); (done || lia)). by rewrite Z.add_nocarry_lxor, Z.lxor_lor by done.
Qed.

End facts. End X86MmuFacts.
