(* ===== verification/X86Aspaces.v ===== *)
(** * Address spaces of x86-64

    What [arch_mmu_map], [arch_mmu_unmap], [arch_mmu_protect] and [arch_mmu_query] do for
    the address space of a process, and that several address spaces do not see the changes
    of each other: each has its own tables, in pages that nobody else uses.  Unmapping
    needs that the first page of the range is mapped, or at the start of what is not:
    otherwise the code leaves pages mapped, which is shown as well. *)

From stdpp Require Import base tactics numbers list list_numbers gmap.
From Stdlib Require Import ZArith Lia.
From S2P Require Import Prelude Pmm PmmFacts VmObject VmObjectFacts VmAspace X86Mmu X86Tables X86Entries X86MmuFacts.
#[local] Open Scope Z_scope.

Module X86Aspaces.
Import Pmm PmmFacts VmObject VmObjectFacts VmAspace X86Mmu X86Tables X86Entries X86MmuFacts.

(** ** The operations of an address space *)

#[global] Instance arch_aspace_eq_dec : EqDecision arch_aspace.
Proof. solve_decision. Defined.

(** An address space of a process, below the hole. *)
Record user_aspace (a : arch_aspace) : Prop := {
  ua_base : 0 ≤ aa_base a;
  ua_size : 0 < aa_size a;
  ua_end : aa_base a + aa_size a ≤ 2 ^ 47 }.

Definition in_aspace (a : arch_aspace) (y : Z) : Prop := aa_base a ≤ y < aa_base a + aa_size a.

Definition query_of (v : option (Z * Z)) : Z + Z * Z := match v with Some p => inr p | None => inl ERR_NOT_FOUND end.

Lemma in_dom a y : user_aspace a → in_aspace a y → dom y.
Proof. intros [? ? ?] ?. unfold dom, in_aspace in *. lia. Qed.

Lemma valid_vaddr a y : user_aspace a → 0 ≤ y → is_valid_vaddr a y = true ↔ in_aspace a y.
Proof. intros [? ? ?] Hy. unfold is_valid_vaddr, in_aspace. rewrite u64_id by (unfold is_u64; lia). rewrite andb_true_iff, !Z.leb_le. lia. Qed.

Section operations.
Context (pw : Z) (maps : list mmu_initial_mapping) (a : arch_aspace).
Context (Hpw : 12 ≤ pw ≤ 52) (Ha : user_aspace a).
Implicit Types st : mmu.
Notation mmu_ok := (X86Entries.mmu_ok maps (pt_virt a)).
Notation evolves := (X86Entries.evolves (pt_virt a) (pt_phys a)).
Notation view st := (X86Entries.view (pt_virt a) (mm_tables st)).

(** The code finds what the tables translate to. *)
Lemma query_view st y : mmu_ok st → in_aspace a y → arch_mmu_query a st y = Some (query_of (view st y)).
Proof.
  intros Hok Hin. pose proof (in_dom a y Ha Hin) as Hy. unfold arch_mmu_query. rewrite (proj2 (valid_vaddr a y Ha ltac:(unfold dom in Hy; lia)) Hin). cbn [negb]. unfold MAX_PAGING_LEVEL. destruct (get_mapping_walk maps (pt_virt a) st y Hok Hy 3 (pt_virt a) (le_n _) eq_refl) as [[E1 E2]|(k & t & e & E1 & E2 & Hk & Hat & He & Hp & Hl)]; rewrite E1; cbn [mbind option_bind]; [unfold X86Entries.view; by rewrite E2|].
  destruct (present_entry maps (pt_virt a) st k y t e Hok Hk Hy Hat He Hp Hl) as (H2 & _ & p & f & Ee & Hpl & Hv). rewrite (Hv y Hy eq_refl), He. cbn [mbind option_bind query_of]. unfold paddr_from_pte. rewrite Hp, Ee, (proj2 (Nat.ltb_lt _ _)) by lia. rewrite leaf_frame by done. cbn [mbind option_bind]. rewrite leaf_mmu_flags by done. cbn [mbind option_bind]. rewrite lor_offset by (done || unfold dom in Hy; lia). done.
Qed.

Notation query st y := (arch_mmu_query a st y).
Notation not_found := (Some (inl ERR_NOT_FOUND)).

(** A range of whole pages of the address space. *)
Record page_range (va n : Z) : Prop := {
  pr_start : in_aspace a va;
  pr_aligned : va mod page_size 0 = 0;
  pr_count : 0 < n;
  pr_end : va + n * PAGE_SIZE ≤ aa_base a + aa_size a }.

Lemma range_facts va n : page_range va n → dom va ∧ (va + n * PAGE_SIZE) mod page_size 0 = 0 ∧ (n * PAGE_SIZE) mod page_size 0 = 0 ∧ va < va + n * PAGE_SIZE ∧ va + n * PAGE_SIZE ≤ 2 ^ 47 ∧ u64 (n * PAGE_SIZE) = n * PAGE_SIZE ∧ x86_mmu_check_vaddr 48 va = true ∧ is_valid_vaddr a va = true ∧ (n =? 0) = false.
Proof.
  intros [H1 H2 H3 H4]. pose proof (in_dom a va Ha H1) as Hva. pose proof Ha as [? ? ?]. assert (0 < n * PAGE_SIZE) by (unfold PAGE_SIZE; lia). assert (E : (n * PAGE_SIZE) mod page_size 0 = 0) by (change PAGE_SIZE with (page_size 0); apply Z.mod_mul; pose proof (ps_pos 0); lia). unfold in_aspace, dom in *. split; [done|]. split; [rewrite Z.add_mod, H2, E by (pose proof (ps_pos 0); lia); done|]. split; [done|]. split; [lia|]. split; [lia|]. split; [apply u64_id; unfold is_u64; lia|]. split; [by apply check_vaddr|]. split; [apply valid_vaddr; (done || lia)|]. apply Z.eqb_neq. lia.
Qed.

Lemma query_none st y : mmu_ok st → in_aspace a y → query st y = not_found ↔ view st y = None.
Proof. intros Hok Hy. rewrite query_view by done. destruct (view st y); cbn; split; congruence. Qed.

Lemma query_change st st' y : mmu_ok st → mmu_ok st' → in_aspace a y → view st' y = view st y → query st' y = query st y.
Proof. intros. rewrite !query_view by done. congruence. Qed.

Lemma range_in va n : page_range va n → ∀ y, va ≤ y < va + n * PAGE_SIZE → in_aspace a y.
Proof. intros [? ? ? ?] y Hy. unfold in_aspace in *. lia. Qed.

(** ** The operations on the translation *)

Lemma arch_map_ok st va pa n fl : mmu_ok st → page_range va n → pa mod page_size 0 = 0 → 0 ≤ pa → pa + n * PAGE_SIZE ≤ 2 ^ pw →
  let r := arch_mmu_map 48 pw maps a st va pa n fl in
  (r = None ∧ starved (3 * n + 4) st) ∨
  ∃ ret st', r = Some (ret, st') ∧ mmu_ok st' ∧ evolves (3 * n + 4) st st' ∧
  ((ret = NO_ERROR ∧ ∀ y, dom y → (va ≤ y < va + n * PAGE_SIZE → view st y = None) ∧ view st' y = if decide (va ≤ y < va + n * PAGE_SIZE) then Some (pa + (y - va), norm_flags fl) else view st y) ∨
   (ret = ERR_ALREADY_EXISTS ∧ (∃ y, va ≤ y < va + n * PAGE_SIZE ∧ view st y ≠ None) ∧ ∀ y, dom y → view st' y = view st y)).
Proof.
  intros Hok Hrange Hpm H0 Hb r. destruct (range_facts va n Hrange) as (Hva & Hfm & _ & Hlt & Hfin & Eu & Ec & Ev & En). set (fin := va + n * PAGE_SIZE) in *. pose proof (pr_aligned _ _ Hrange) as Hvm. unfold r, arch_mmu_map. assert (Hd : (pa - va) mod page_size 0 = 0) by (rewrite Zminus_mod, Hpm, Hvm; done). pose proof (check_paddr pw (pa - va) Hd va fin Hvm Hlt) as Ep. pose proof (add_top pw maps (pt_virt a) (pt_phys a) fl (pa - va) ltac:(lia) Hd st va fin Hok Hva Hvm Hfm Hlt Hfin) as Ho. replace (pa - va + va) with pa in * by lia. replace (pa - va + fin) with (pa + n * PAGE_SIZE) in * by (unfold fin; lia). rewrite (Ep Hb), Ec, Ev, En, Eu. cbn [negb]. replace (fin - va) with (n * PAGE_SIZE) in Ho by (unfold fin; lia). unfold MAX_PAGING_LEVEL.
  pose proof (map_pages 3 va n Hvm ltac:(destruct Hrange; lia)) as Hcost. change (page_size 0) with PAGE_SIZE in Hcost. fold fin in Hcost. destruct (Ho H0 Hb) as [[-> Hs]|[(st' & -> & Hc)|(c & st' & -> & Hok' & Hev & Hv & y & Hy & Hm)]]; [left; split; [done|]; eapply starved_mono; [|done]; lia| |]; right; cbn [mbind option_bind].
  - exists NO_ERROR, st'. cbn [Z.eqb NO_ERROR negb c_size]. rewrite Z.sub_diag. split; [done|]. split; [apply Hc|]. split; [eapply evolves_mono; [|apply Hc]; lia|]. left. split; [done|]. intros y Hy. split; [intros Hr; by apply (ch_was _ _ _ _ _ _ _ _ _ _ _ Hc)|]. rewrite (ch_view _ _ _ _ _ _ _ _ _ _ _ Hc y Hy). by replace (pa - va + y) with (pa + (y - va)) by lia.
  - exists ERR_ALREADY_EXISTS, st'. split; [done|]. split; [done|]. split; [eapply evolves_mono; [|done]; lia|]. right. split; [done|]. split; [by exists y|done].
Qed.

Lemma arch_unmap_ok st va n : mmu_ok st → page_range va n → start_ok (pt_virt a) 3 (mm_tables st) va →
  let r := arch_mmu_unmap 48 maps a st va n in
  (r = None ∧ starved 4 st) ∨
  ∃ st', r = Some (NO_ERROR, st') ∧ mmu_ok st' ∧ evolves 4 st st' ∧ ∀ y, dom y → view st' y = if decide (va ≤ y < va + n * PAGE_SIZE) then None else view st y.
Proof.
  intros Hok Hrange Hst r. destruct (range_facts va n Hrange) as (Hva & Hfm & Hsm & Hlt & Hfin & Eu & Ec & Ev & En). unfold r, arch_mmu_unmap. rewrite Ec, Ev, En, Eu. cbn [negb]. unfold MAX_PAGING_LEVEL. destruct (tend_top va Hva) as [_ Et]. destruct (remove_levels maps (pt_virt a) (pt_phys a) 3 (le_n _) st (pt_virt a) va (n * PAGE_SIZE) 0 Hok eq_refl Hva (pr_aligned _ _ Hrange) Hsm ltac:(lia) Hfin Hst) as [[-> Hs]|(b & st' & -> & Hrm)]; [left; split; [done|]; eapply starved_mono; [apply split_cost_bounds|done]|]. right. rewrite Et, Z.min_l in * by lia. cbn [mbind option_bind c_size]. rewrite Z.sub_diag. exists st'. split; [done|]. split; [apply Hrm|]. split; [eapply evolves_mono; [apply split_cost_bounds|apply Hrm]|]. apply Hrm.
Qed.

Lemma arch_protect_ok st va n fl : mmu_ok st → page_range va n →
  let r := arch_mmu_protect 48 maps a st va n fl in
  (r = None ∧ starved 4 st) ∨
  ∃ ret mid st', r = Some (ret, st') ∧ mmu_ok st' ∧ evolves 4 st st' ∧ va ≤ mid ≤ va + n * PAGE_SIZE ∧
  (∀ y, dom y → view st' y = if decide (va ≤ y < mid) then (λ p, (fst p, norm_flags fl)) <$> view st y else view st y) ∧
  (∀ y, va ≤ y < mid → view st y ≠ None) ∧
  ((ret = NO_ERROR ∧ mid = va + n * PAGE_SIZE) ∨ (ret = ERR_NOT_FOUND ∧ mid < va + n * PAGE_SIZE ∧ view st mid = None)).
Proof.
  intros Hok Hrange r. destruct (range_facts va n Hrange) as (Hva & Hfm & Hsm & Hlt & Hfin & Eu & Ec & Ev & En). set (fin := va + n * PAGE_SIZE) in *. unfold r, arch_mmu_protect. rewrite Ec, Ev, En, Eu. cbn [negb]. unfold MAX_PAGING_LEVEL. destruct (tend_top va Hva) as [_ Et]. pose proof (update_levels maps (pt_virt a) (pt_phys a) fl 0 3 (le_n _) st (pt_virt a) va fin Hok eq_refl Hva (pr_aligned _ _ Hrange) Hfm Hlt Hfin) as Ho. rewrite Et, Z.min_l in Ho by lia. replace (fin - va) with (n * PAGE_SIZE) in Ho by (unfold fin; lia). assert (Hdom : ∀ y, va ≤ y < fin → dom y) by (unfold dom in *; lia).
  destruct Ho as [[-> Hs]|[(st' & -> & Hc)|(mid & st' & -> & Hc & Hm & _ & Hg)]]; [left; split; [done|]; eapply starved_mono; [apply split_cost_bounds|done]| |]; right; cbn [mbind option_bind].
  - exists NO_ERROR, fin, st'. cbn [Z.eqb NO_ERROR negb c_size]. rewrite Z.sub_diag. split; [done|]. split; [apply Hc|]. split; [eapply evolves_mono; [apply split_cost_bounds|apply Hc]|]. split; [lia|]. split; [apply Hc|]. split; [intros y Hy; apply (ch_was _ _ _ _ _ _ _ _ _ _ _ Hc); (done || by apply Hdom)|]. by left.
  - exists ERR_NOT_FOUND, mid, st'. split; [done|]. split; [apply Hc|]. split; [eapply evolves_mono; [apply split_cost_bounds|apply Hc]|]. split; [lia|]. split; [apply Hc|]. split; [intros y Hy; apply (ch_was _ _ _ _ _ _ _ _ _ _ _ Hc); (done || apply Hdom; lia)|]. right. split; [done|]. split; [lia|]. destruct (view st mid); [|done]. exfalso. by apply Hg.
Qed.

(** C36. Mapping a range makes its pages translate to the pages from [pa] on, with the flags as
    the tables can represent them.  If a page of the range is mapped already, then nothing
    changes. *)
Theorem x86_map_translates st va pa n fl : mmu_ok st → page_range va n → pa mod page_size 0 = 0 → 0 ≤ pa → pa + n * PAGE_SIZE ≤ 2 ^ pw →
  let r := arch_mmu_map 48 pw maps a st va pa n fl in
  (r = None ∧ starved (3 * n + 4) st) ∨
  ∃ ret st', r = Some (ret, st') ∧ mmu_ok st' ∧ evolves (3 * n + 4) st st' ∧
  ((ret = NO_ERROR ∧ ∀ y, in_aspace a y → (va ≤ y < va + n * PAGE_SIZE → query st y = not_found) ∧ query st' y = if decide (va ≤ y < va + n * PAGE_SIZE) then Some (inr (pa + (y - va), norm_flags fl)) else query st y) ∨
   (ret = ERR_ALREADY_EXISTS ∧ (∃ y, va ≤ y < va + n * PAGE_SIZE ∧ query st y ≠ not_found) ∧ ∀ y, in_aspace a y → query st' y = query st y)).
Proof.
  intros Hok Hrange Hpm H0 Hb r. destruct (arch_map_ok st va pa n fl Hok Hrange Hpm H0 Hb) as [?|(ret & st' & E & Hok' & Hev & Hcase)]; [by left|]. right. exists ret, st'. split; [done|]. split; [done|]. split; [done|]. destruct Hcase as [[-> Hv]|(-> & (y & Hy & Hm) & Hv)]; [left|right]; (split; [done|]).
  - intros y Hy. destruct (Hv y (in_dom a y Ha Hy)) as [Hold Hnew]. split; [intros Hr; apply query_none; auto|]. destruct (decide _); [by rewrite query_view, Hnew|by apply query_change].
  - split; [exists y; split; [done|]; rewrite query_none by (done || by apply (range_in va n)); done|]. intros z Hz. apply query_change; [done|done|done|]. by apply Hv, (in_dom a).
Qed.


(** C39. Changing the flags of a range keeps the pages behind it.  If a page of the range is not
    mapped then the flags of the pages before it are changed, and those from it on are not. *)
Theorem x86_protect_flags st va n fl : mmu_ok st → page_range va n →
  let r := arch_mmu_protect 48 maps a st va n fl in
  (r = None ∧ starved 4 st) ∨
  ∃ ret mid st', r = Some (ret, st') ∧ mmu_ok st' ∧ evolves 4 st st' ∧ va ≤ mid ≤ va + n * PAGE_SIZE ∧
  (∀ y, in_aspace a y → query st' y = if decide (va ≤ y < mid) then (sum_map id (λ p, (fst p, norm_flags fl))) <$> query st y else query st y) ∧
  (∀ y, va ≤ y < mid → query st y ≠ not_found) ∧
  ((ret = NO_ERROR ∧ mid = va + n * PAGE_SIZE) ∨ (ret = ERR_NOT_FOUND ∧ mid < va + n * PAGE_SIZE ∧ query st mid = not_found)).
Proof.
  intros Hok Hrange r. destruct (arch_protect_ok st va n fl Hok Hrange) as [?|(ret & mid & st' & E & Hok' & Hev & Hm & Hv & Hg & Hcase)]; [by left|]. right. exists ret, mid, st'. pose proof (range_in va n Hrange) as Hin. split; [done|]. split; [done|]. split; [done|]. split; [done|]. split; [|split].
  - intros y Hy. specialize (Hv y (in_dom a y Ha Hy)). destruct (decide _); [|by apply query_change]. rewrite !query_view, Hv by done. by destruct (view st y).
  - intros y Hy. rewrite query_none by (done || apply Hin; lia). by apply Hg.
  - destruct Hcase as [?|(-> & Hlt & Hn)]; [by left|]. right. split; [done|]. split; [done|]. apply query_none; [done|apply Hin; lia|done].
Qed.

End operations.

(** ** A new address space *)

Lemma empty_root maps root s (T : tables) tlb l : pmm_inv s → physmap maps s → held s root → T !! root = Some l → length l = 512%nat → (∀ i e, (i < 256)%nat → l !! i = Some e → IS_PAGE_PRESENT e = false) →
  mmu_ok maps root (mk_mmu s T tlb) ∧ (∀ y, dom y → view root T y = None) ∧ ∀ t, reachable root T t → t = root.
Proof.
  intros Hi Hm Hh Hl Hlen Habs. assert (Hidx : ∀ y, dom y → (Z.to_nat (vaddr_to_index 3 y) < 256)%nat).
  { intros y Hy. rewrite index_spec. unfold dom in Hy. change (page_size 3) with (2 ^ 39). assert (0 ≤ y / 2 ^ 39 < 256) by (split; [apply Z.div_pos; lia|apply Z.div_lt_upper_bound; lia]). rewrite Z.mod_small by lia. lia. }
  assert (Hent : ∀ y, dom y → ∃ e, ent T root (vaddr_to_index 3 y) = Some e ∧ IS_PAGE_PRESENT e = false).
  { intros y Hy. specialize (Hidx y Hy). destruct (lookup_lt_is_Some_2 l (Z.to_nat (vaddr_to_index 3 y)) ltac:(lia)) as [e He]. exists e. unfold ent. rewrite Hl. cbn [mbind option_bind]. split; [done|]. by apply (Habs _ e Hidx). }
  assert (Hnone : ∀ L y, (L < 3)%nat → dom y → table_at root T L y = None).
  { intros L y HL Hy. assert (H2 : table_at root T 2 y = None) by (rewrite table_at_S by lia; cbn [mbind option_bind table_at Nat.sub tab]; unfold lower; destruct (Hent y Hy) as (e & -> & Hp); cbn [mbind option_bind]; unfold get_next_table_from_entry; by rewrite Hp). assert (L = 2 ∨ L = 1 ∨ L = 0)%nat as [->|[->| ->]] by lia; [done|by rewrite table_at_S, H2 by lia|]. rewrite table_at_S by lia. rewrite (table_at_S root T 1) by lia. by rewrite H2. }
  assert (Htop : ∀ L y t, (L ≤ 3)%nat → dom y → table_at root T L y = Some t → L = 3%nat ∧ t = root) by (intros L y t HL Hy E; destruct (decide (L = 3%nat)) as [->|]; [by injection E as <-|by rewrite Hnone in E by (done || lia)]).
  assert (Hreach : ∀ t, reachable root T t → t = root) by (intros t (L & y & HL & Hy & E); by apply (Htop L y t)). split; [|split; [|done]].
  - split; cbn [mm_pmm mm_tables]; [done|done| | | |].
    + intros L L' y y' t HL HL' Hy Hy' E E'. destruct (Htop L y t HL Hy E) as [-> _], (Htop L' y' t HL' Hy' E') as [-> _]. split; [done|]. unfold dom in *. change (page_size 4) with (2 ^ 48). by rewrite !Z.div_small by lia.
    + intros t ->%Hreach. by exists l.
    + by intros t ->%Hreach.
    + intros L y t e HL Hy E He Hp. destruct (Htop L y t HL Hy E) as [-> ->]. destruct (Hent y Hy) as (e' & E' & Hp'). congruence.
  - intros y Hy. destruct (Hent y Hy) as (e & He & Hp). rewrite (plain_view root T 3 y root e); [by apply absent_view|done|done|done|by apply plain_absent].
Qed.

(** ** Several address spaces *)

(** The tables of an address space, and their pages, are as before. *)
Definition untouched (root : Z) st st' : Prop := ∀ t p, reachable root (mm_tables st) t → paddr_to_vm_page (mm_pmm st) t = Some p → mm_tables st' !! t = mm_tables st !! t ∧ pages (mm_pmm st') !! p = pages (mm_pmm st) !! p.

Lemma untouched_keeps maps root st st' : mmu_ok maps root st → pmm_inv (mm_pmm st') → geo <$> arenas (mm_pmm st') = geo <$> arenas (mm_pmm st) → untouched root st st' →
  mmu_ok maps root st' ∧ (∀ y, dom y → view root (mm_tables st') y = view root (mm_tables st) y) ∧ ∀ t, reachable root (mm_tables st') t ↔ reachable root (mm_tables st) t.
Proof.
  intros [M1 M2 M3 M4 M5 M6] Hi Hg Hu. assert (Hag : ∀ t, reachable root (mm_tables st) t → mm_tables st' !! t = mm_tables st !! t) by (intros t Ht; destruct (M5 t Ht) as (_ & p & Ep & _); by destruct (Hu t p Ht Ep)). assert (Hr : ∀ t, reachable root (mm_tables st') t ↔ reachable root (mm_tables st) t) by (intros t; by apply reachable_agree). split; [|split; [|done]].
  - split; [done|by apply (physmap_geo maps (mm_pmm st))|by apply (tree_agree root (mm_tables st))| | |].
    + intros t Ht%Hr. rewrite Hag by done. by apply M4.
    + intros t Ht%Hr. destruct (M5 t Ht) as (Hpl & p & E1 & E2 & E3). split; [done|]. exists p. rewrite (paddr_geo _ _ _ Hg), (paddr_of_geo _ _ _ Hg). destruct (Hu t p Ht E1) as [_ ->]. done.
    + intros L y t e HL Hy Ht He. rewrite (table_at_agree root (mm_tables st) (mm_tables st') Hag) in Ht by done. unfold ent in He. rewrite Hag in He by (by exists L, y). by apply (M6 L y t e).
  - intros y Hy. unfold view. by rewrite (walk_agree root (mm_tables st) (mm_tables st') y Hag Hy).
Qed.

(** What is changed for one address space is not seen by another that shares no table. *)
Lemma evolves_untouched maps ra rb cr3 c st st' : mmu_ok maps ra st → mmu_ok maps rb st → (∀ t, reachable ra (mm_tables st) t → reachable rb (mm_tables st) t → False) → evolves ra cr3 c st st' → untouched rb st st' ∧ ∀ t p, reachable rb (mm_tables st) t → paddr_to_vm_page (mm_pmm st) t = Some p → ¬ avail ra st p.
Proof.
  intros Ha Hb Hd [_ _ O D _ _]. assert (Hn : ∀ t p, reachable rb (mm_tables st) t → paddr_to_vm_page (mm_pmm st) t = Some p → ¬ avail ra st p).
  { intros t p Ht Ep. destruct (mo_held _ _ _ Hb t Ht) as (Hpl & q & Eq & _ & Hq). rewrite Ep in Eq. injection Eq as <-. intros [Hf|(t' & Ht' & Ep')]; [by rewrite Hf in Hq|]. destruct (mo_held _ _ _ Ha t' Ht') as (Hpl' & _). assert (t = t') as <- by (apply (page_inj (mm_pmm st) t t' p); (done || apply Hb || eauto)). by apply (Hd t). }
  split; [|done]. intros t p Ht Ep. specialize (Hn t p Ht Ep). split; [by apply (D t p)|by apply O].
Qed.

Lemma evolves_apart maps ra rb cr3 c st st' : mmu_ok maps ra st → mmu_ok maps ra st' → mmu_ok maps rb st → (∀ t, reachable ra (mm_tables st) t → reachable rb (mm_tables st) t → False) → evolves ra cr3 c st st' → ∀ t, reachable ra (mm_tables st') t → reachable rb (mm_tables st) t → False.
Proof.
  intros Ha Ha' Hb Hd He t Hta Htb. destruct (evolves_untouched maps ra rb cr3 c st st' Ha Hb Hd He) as [_ Hn]. destruct (mo_held _ _ _ Hb t Htb) as (_ & p & Ep & _). apply (Hn t p Htb Ep), (ev_avail _ _ _ _ _ He). right. exists t. split; [done|]. by rewrite (paddr_geo _ _ _ (ev_geo _ _ _ _ _ He)).
Qed.

Section system.
Context (pw : Z) (maps : list mmu_initial_mapping) (kernel_pt_phys : Z) (Hpw : 12 ≤ pw ≤ 52).
Implicit Types st : mmu.
Implicit Types l : list arch_aspace.
Notation Tb st := (mm_tables st).

(** The table of the kernel is in a page that is in use, and is no one else's. *)
Definition kernel_ok l st : Prop := ∃ k p pg, Tb st !! kernel_pt_phys = Some k ∧ length k = 512%nat ∧ page_at_level 0 kernel_pt_phys ∧ paddr_to_vm_page (mm_pmm st) kernel_pt_phys = Some p ∧ pages (mm_pmm st) !! p = Some pg ∧ pg_state pg ≠ VM_PAGE_STATE_FREE ∧ ∀ a, a ∈ l → ¬ reachable (pt_virt a) (Tb st) kernel_pt_phys.

Record system l st : Prop := {
  sy_pmm : pmm_inv (mm_pmm st);
  sy_map : physmap maps (mm_pmm st);
  sy_kernel : kernel_ok l st;
  sy_nodup : NoDup l;
  sy_ok a : a ∈ l → user_aspace a ∧ pt_phys a = pt_virt a ∧ mmu_ok maps (pt_virt a) st;
  sy_apart a b t : a ∈ l → b ∈ l → reachable (pt_virt a) (Tb st) t → reachable (pt_virt b) (Tb st) t → a = b }.

(** The address spaces of [l'] other than [skip] are as before, [skip] is sound. *)
Lemma system_keeps l l' st st' (skip : arch_aspace → Prop) : system l st → pmm_inv (mm_pmm st') → geo <$> arenas (mm_pmm st') = geo <$> arenas (mm_pmm st) → NoDup l' → kernel_ok l' st' →
  (∀ b, b ∈ l' → skip b ∨ (b ∈ l ∧ untouched (pt_virt b) st st')) → (∀ a, a ∈ l' → skip a → user_aspace a ∧ pt_phys a = pt_virt a ∧ mmu_ok maps (pt_virt a) st') →
  (∀ a b t, a ∈ l' → b ∈ l' → skip a → reachable (pt_virt a) (Tb st') t → (skip b → a = b) ∧ (¬ skip b → reachable (pt_virt b) (Tb st) t → False)) →
  (∀ a, skip a ∨ ¬ skip a) → system l' st' ∧ ∀ b, b ∈ l' → ¬ skip b → ∀ y, dom y → view (pt_virt b) (Tb st') y = view (pt_virt b) (Tb st) y.
Proof.
  intros [S1 S2 S3 S4 S5 S6] Hi Hg Hnd Hk Hu Hskip Hap Hdec. assert (Hold : ∀ b, b ∈ l' → ¬ skip b → b ∈ l ∧ mmu_ok maps (pt_virt b) st' ∧ (∀ y, dom y → view (pt_virt b) (Tb st') y = view (pt_virt b) (Tb st) y) ∧ ∀ t, reachable (pt_virt b) (Tb st') t ↔ reachable (pt_virt b) (Tb st) t).
  { intros b Hb Hns. destruct (Hu b Hb) as [?|[Hbl Hub]]; [done|]. destruct (S5 b Hbl) as (_ & _ & Hok). split; [done|]. by apply untouched_keeps. }
  split; [|intros b Hb Hns; by apply Hold]. split; [done|by apply (physmap_geo maps (mm_pmm st))|done|done| |].
  - intros b Hb. destruct (Hdec b) as [Hs|Hns]; [by apply Hskip|]. destruct (Hold b Hb Hns) as (Hbl & Hok & _). destruct (S5 b Hbl) as (? & ? & _). done.
  - intros a b t Ha Hb Hra Hrb. destruct (Hdec a) as [Hsa|Hsa], (Hdec b) as [Hsb|Hsb].
    + by apply (Hap a b t Ha Hb Hsa Hra).
    + exfalso. destruct (Hold b Hb Hsb) as (_ & _ & _ & Hr). by apply (Hap a b t Ha Hb Hsa Hra), Hr.
    + exfalso. destruct (Hold a Ha Hsa) as (_ & _ & _ & Hr). by apply (Hap b a t Hb Ha Hsb Hrb), Hr.
    + destruct (Hold a Ha Hsa) as (Hal & _ & _ & Hra'), (Hold b Hb Hsb) as (Hbl & _ & _ & Hrb'). apply (S6 a b t); [done|done|by apply Hra'|by apply Hrb'].
Qed.

(** An operation of one address space. *)
Lemma system_op l st a c st' : system l st → a ∈ l → mmu_ok maps (pt_virt a) st' → evolves (pt_virt a) (pt_phys a) c st st' → system l st' ∧ ∀ b, b ∈ l → b ≠ a → ∀ y, dom y → view (pt_virt b) (Tb st') y = view (pt_virt b) (Tb st) y.
Proof.
  intros Hsys Ha Hok' Hev. pose proof Hsys as [S1 S2 (k & p & pg & K1 & K2 & K3 & K4 & K5 & K6 & K7) S4 S5 S6]. destruct (S5 a Ha) as (Hua & Epa & Hok). assert (Hd : ∀ b, b ∈ l → b ≠ a → ∀ t, reachable (pt_virt a) (Tb st) t → reachable (pt_virt b) (Tb st) t → False) by (intros b Hb Hne t H1 H2; apply Hne; by apply (S6 b a t)).
  assert (Hna : ¬ avail (pt_virt a) st p) by (intros [Hf|(t' & Ht' & Ep')]; [rewrite Hf in K5; by injection K5 as <-|]; destruct (mo_held _ _ _ Hok t' Ht') as (Hpl' & _); assert (kernel_pt_phys = t') as <- by (apply (page_inj (mm_pmm st) kernel_pt_phys t' p); (done || eauto)); by apply (K7 a)).
  apply (system_keeps l l st st' (λ b, b = a)); [done|apply Hok'|apply Hev|done| | | | |intros b; destruct (decide (b = a)); auto].
  - exists k, p, pg. rewrite (ev_tables _ _ _ _ _ Hev _ p), (ev_others _ _ _ _ _ Hev), (paddr_geo _ _ _ (ev_geo _ _ _ _ _ Hev)) by done. split_and!; try done. intros b Hb Hr. destruct (decide (b = a)) as [->|Hne].
    + apply Hna, (ev_avail _ _ _ _ _ Hev). right. exists kernel_pt_phys. by rewrite (paddr_geo _ _ _ (ev_geo _ _ _ _ _ Hev)).
    + destruct (evolves_untouched maps (pt_virt a) (pt_virt b) (pt_phys a) c st st' Hok (proj2 (proj2 (S5 b Hb))) (Hd b Hb Hne) Hev) as [Hu _]. destruct (untouched_keeps maps (pt_virt b) st st' (proj2 (proj2 (S5 b Hb))) (mo_pmm _ _ _ Hok') (ev_geo _ _ _ _ _ Hev) Hu) as (_ & _ & Hr'). by apply (K7 b Hb), Hr'.
  - intros b Hb. destruct (decide (b = a)) as [->|Hne]; [by left|]. right. split; [done|]. apply (evolves_untouched maps (pt_virt a) (pt_virt b) (pt_phys a) c st st' Hok (proj2 (proj2 (S5 b Hb)))); [by apply Hd|done].
  - by intros b Hb ->.
  - intros b1 b t Hb1 Hb -> Hr. split; [done|]. intros Hne. by apply (evolves_apart maps (pt_virt a) (pt_virt b) (pt_phys a) c st st' Hok Hok' (proj2 (proj2 (S5 b Hb))) (Hd b Hb Hne) Hev).
Qed.

(** A page that was free, or that holds a table, is no one's table and not the kernel's. *)
Lemma not_table l st b t p pg : system l st → b ∈ l → reachable (pt_virt b) (Tb st) t → paddr_to_vm_page (mm_pmm st) t = Some p → pages (mm_pmm st) !! p = Some pg → pg_state pg ≠ VM_PAGE_STATE_FREE ∧ page_at_level 0 t.
Proof. intros Hsys Hb Ht Ep Hp. destruct (sy_ok _ _ Hsys b Hb) as (_ & _ & Hok). destruct (mo_held _ _ _ Hok t Ht) as (Hpl & q & Eq & _ & Hq). rewrite Ep in Eq. injection Eq as <-. rewrite Hq in Hp. by injection Hp as <-. Qed.

(** A new address space is empty. *)
Lemma init_aspace_ok l st base size flags : system l st → has_flag flags ARCH_ASPACE_FLAG_KERNEL = false → 0 ≤ base → 0 < size → base + size ≤ 2 ^ 47 →
  let r := arch_mmu_init_aspace maps kernel_pt_phys st base size flags in
  (∃ st', r = Some (ERR_NO_MEMORY, None, st') ∧ st' = st ∧ starved 1 st) ∨
  ∃ a st', r = Some (NO_ERROR, Some a, st') ∧ aa_base a = base ∧ aa_size a = size ∧ a ∉ l ∧ system (a :: l) st' ∧ (∀ y, dom y → view (pt_virt a) (Tb st') y = None) ∧ ∀ b, b ∈ l → ∀ y, dom y → view (pt_virt b) (Tb st') y = view (pt_virt b) (Tb st) y.
Proof.
  intros Hsys Hf H0 H1 H2 r. pose proof Hsys as [S1 S2 (k & p0 & pg & K1 & K2 & K3 & K4 & K5 & K6 & K7) S4 S5 S6]. unfold r, arch_mmu_init_aspace. rewrite Hf. destruct (kpage_ok maps st S1 S2) as [[-> Hs]|(m & p & s & -> & Em & Htk)]; cbn [mbind option_bind]; [left; exists st; split; [by destruct st|done]|]. right. rewrite K1. cbn [mbind option_bind]. rewrite Em. set (T' := <[m := _]> (Tb st)). set (a := mk_arch_aspace m m flags base size). exists a, (mk_mmu s T' (mm_tlb st)). destruct Htk as [I1 I2 I3 I4 I5 I6].
  assert (Hne : ∀ b t q, b ∈ l → reachable (pt_virt b) (Tb st) t → paddr_to_vm_page (mm_pmm st) t = Some q → q ≠ p ∧ t ≠ m) by (intros b t q Hb Ht Eq; assert (Hq : q ≠ p) by (intros ->; by destruct (not_table l st b t p free_page Hsys Hb Ht Eq I3)); split; [done|]; intros ->; congruence). assert (Hkp : p0 ≠ p) by (intros ->; rewrite I3 in K5; by injection K5 as <-). assert (Hkm : kernel_pt_phys ≠ m) by congruence.
  assert (Hal : a ∉ l) by (intros Ha; destruct (Hne a m p Ha) as [? _]; [by exists 3%nat, 0|done|done]). destruct (empty_root maps m s T' (mm_tlb st) (replicate (Z.to_nat (NO_OF_PT_ENTRIES / 2)) 0 ++ drop (Z.to_nat (NO_OF_PT_ENTRIES / 2)) k)) as (E1 & E2 & E3); [done|by apply (physmap_geo maps (mm_pmm st))|done|apply lookup_insert_eq|rewrite length_app, length_replicate, length_drop, K2; done|intros i e Hi He; rewrite lookup_app_l in He by (by rewrite length_replicate); apply lookup_replicate in He as [-> _]; done|].
  split; [done|]. split; [done|]. split; [done|]. split; [done|]. destruct (system_keeps l (a :: l) st (mk_mmu s T' (mm_tlb st)) (λ b, b = a)) as [Hsys' Hv]; cbn [mm_pmm mm_tables]; [done|done|done|by apply list.NoDup_cons| | | | |intros b; destruct (decide (b = a)); auto|].
  - exists k, p0, pg. cbn [mm_pmm mm_tables]. unfold T'. rewrite lookup_insert_ne, I6, decide_False, (paddr_geo _ _ _ I2) by done. split_and!; try done. intros b [->|Hb]%elem_of_cons Hr; [by apply E3 in Hr|]. destruct (untouched_keeps maps (pt_virt b) st (mk_mmu s T' (mm_tlb st)) (proj2 (proj2 (S5 b Hb))) I1 I2) as (_ & _ & Hr'); [|by apply (K7 b Hb), Hr']. intros t q Ht Eq. cbn [mm_pmm mm_tables]. destruct (Hne b t q Hb Ht Eq). unfold T'. by rewrite lookup_insert_ne, I6, decide_False by done.
  - intros b [->|Hb]%elem_of_cons; [by left|]. right. split; [done|]. intros t q Ht Eq. cbn [mm_pmm mm_tables]. destruct (Hne b t q Hb Ht Eq). unfold T'. by rewrite lookup_insert_ne, I6, decide_False by done.
  - intros b _ ->. split; [by split|]. split; [done|]. done.
  - intros b1 b t _ Hb -> Hr. split; [done|]. intros Hba Hrb. apply E3 in Hr as ->. apply elem_of_cons in Hb as [?|Hb]; [done|]. by destruct (Hne b m p Hb Hrb I4).
  - split; [done|]. split; [done|]. intros b Hb. apply Hv; [by right|]. by intros ->.
Qed.

(** The table of an address space that has no others is given back. *)
Lemma destroy_aspace_ok l1 a l2 st st' : system (l1 ++ a :: l2) st → (∀ t, reachable (pt_virt a) (Tb st) t → t = pt_virt a) → arch_mmu_destroy_aspace a st = Some (NO_ERROR, st') →
  system (l1 ++ l2) st' ∧ (∀ p, paddr_to_vm_page (mm_pmm st) (pt_virt a) = Some p → pages (mm_pmm st') !! p = Some free_page) ∧ ∀ b, b ∈ l1 ++ l2 → ∀ y, dom y → view (pt_virt b) (Tb st') y = view (pt_virt b) (Tb st) y.
Proof.
  intros Hsys Honly Hr. pose proof Hsys as [S1 S2 (k & p0 & pg & K1 & K2 & K3 & K4 & K5 & K6 & K7) S4 S5 S6]. assert (Ha : a ∈ l1 ++ a :: l2) by (rewrite elem_of_app; right; by left). destruct (S5 a Ha) as (_ & Epa & Hok). assert (Hra : reachable (pt_virt a) (Tb st) (pt_virt a)) by (by exists 3%nat, 0). destruct (mo_held _ _ _ Hok _ Hra) as (Hpl & p & Ep & _ & Hp). destruct (free_table_ok st (pt_virt a) p S1 Ep Hp) as (s & Ef & Hi & Hg & Hpg).
  unfold arch_mmu_destroy_aspace in Hr. destruct (Tb st !! pt_virt a) as [tl|]; [|done]. cbn [mbind option_bind] in Hr. destruct (forallb _ _); [|done]. rewrite Epa, Ef in Hr. cbn [mbind option_bind] in Hr. injection Hr as <-.
  assert (Hsub : ∀ b, b ∈ l1 ++ l2 → b ∈ l1 ++ a :: l2 ∧ b ≠ a) by (intros b Hb; apply NoDup_app in S4 as (N1 & N2 & [N3 N4]%list.NoDup_cons); rewrite elem_of_app in *; split; [destruct Hb; [by left|right; by right]|]; intros ->; destruct Hb as [Hb|Hb]; [by apply (N2 a Hb); left|done]).
  assert (Hne : ∀ t q, (page_at_level 0 t) → t ≠ pt_virt a → paddr_to_vm_page (mm_pmm st) t = Some q → q ≠ p) by (intros t q Ht Hne Eq ->; apply Hne; apply (page_inj (mm_pmm st) t (pt_virt a) p); (done || eauto)). assert (Hu : ∀ b, b ∈ l1 ++ l2 → untouched (pt_virt b) st (mk_mmu s (delete (pt_virt a) (Tb st)) (mm_tlb st))).
  { intros b [Hb Hba]%Hsub t q Ht Eq. cbn [mm_pmm mm_tables]. assert (Hta : t ≠ pt_virt a) by (intros ->; apply Hba; by apply (S6 b a (pt_virt a))). destruct (mo_held _ _ _ (proj2 (proj2 (S5 b Hb))) t Ht) as [Hplt _]. by rewrite lookup_delete_ne, Hpg, decide_False by (done || by apply (Hne t)). }
  assert (Hka : kernel_pt_phys ≠ pt_virt a) by (intros E; apply (K7 a Ha); by rewrite E). destruct (system_keeps (l1 ++ a :: l2) (l1 ++ l2) st (mk_mmu s (delete (pt_virt a) (Tb st)) (mm_tlb st)) (λ _, False)) as [Hsys' Hv]; cbn [mm_pmm mm_tables]; [done|done|done| | | |done|done|intros _; right; by intros []|].
  - apply NoDup_app in S4 as (N1 & N2 & [N3 N4]%list.NoDup_cons). apply NoDup_app. split; [done|]. split; [|done]. intros x Hx Hx2. apply (N2 x Hx). by right.
  - exists k, p0, pg. cbn [mm_pmm mm_tables]. rewrite lookup_delete_ne, Hpg, decide_False, (paddr_geo _ _ _ Hg) by (done || by apply (Hne kernel_pt_phys)). split_and!; try done. intros b Hb Hrb. destruct (Hsub b Hb) as [Hb' _]. destruct (untouched_keeps maps (pt_virt b) st (mk_mmu s (delete (pt_virt a) (Tb st)) (mm_tlb st)) (proj2 (proj2 (S5 b Hb'))) Hi Hg (Hu b Hb)) as (_ & _ & Hr'). by apply (K7 b Hb'), Hr'.
  - intros b Hb. right. split; [by apply Hsub|by apply Hu].
  - split; [done|]. split; [|intros b Hb; apply Hv; [done|by intros []]]. intros q Eq. rewrite Ep in Eq. injection Eq as <-. by rewrite Hpg, decide_True.
Qed.

(** The steps of the kernel, with the address space that they are for.  Others that use
    physical memory leave the pages of the tables alone. *)
Inductive x86_step : list arch_aspace → mmu → option arch_aspace → list arch_aspace → mmu → Prop :=
| step_init l st base size flags a st' :
    has_flag flags ARCH_ASPACE_FLAG_KERNEL = false → 0 ≤ base → 0 < size → base + size ≤ 2 ^ 47 →
    arch_mmu_init_aspace maps kernel_pt_phys st base size flags = Some (NO_ERROR, Some a, st') → x86_step l st None (a :: l) st'
| step_map l st a va pa n fl ret st' :
    a ∈ l → page_range a va n → pa mod page_size 0 = 0 → 0 ≤ pa → pa + n * PAGE_SIZE ≤ 2 ^ pw →
    arch_mmu_map 48 pw maps a st va pa n fl = Some (ret, st') → x86_step l st (Some a) l st'
| step_unmap l st a va n ret st' :
    a ∈ l → page_range a va n → start_ok (pt_virt a) 3 (Tb st) va →
    arch_mmu_unmap 48 maps a st va n = Some (ret, st') → x86_step l st (Some a) l st'
| step_protect l st a va n fl ret st' :
    a ∈ l → page_range a va n → arch_mmu_protect 48 maps a st va n fl = Some (ret, st') → x86_step l st (Some a) l st'
| step_destroy l1 a l2 st st' :
    (∀ t, reachable (pt_virt a) (Tb st) t → t = pt_virt a) → arch_mmu_destroy_aspace a st = Some (NO_ERROR, st') → x86_step (l1 ++ a :: l2) st (Some a) (l1 ++ l2) st'
| step_other l st s :
    pmm_inv s → geo <$> arenas s = geo <$> arenas (mm_pmm st) →
    (∀ t p, t = kernel_pt_phys ∨ (∃ a, a ∈ l ∧ reachable (pt_virt a) (Tb st) t) → paddr_to_vm_page (mm_pmm st) t = Some p → pages s !! p = pages (mm_pmm st) !! p) →
    x86_step l st None l (mk_mmu s (Tb st) (mm_tlb st)).

Inductive x86_reach : list arch_aspace → mmu → Prop :=
| reach_start st : pmm_inv (mm_pmm st) → physmap maps (mm_pmm st) → kernel_ok [] st → x86_reach [] st
| reach_step l st o l' st' : x86_reach l st → x86_step l st o l' st' → x86_reach l' st'.

Lemma system_start st : pmm_inv (mm_pmm st) → physmap maps (mm_pmm st) → kernel_ok [] st → system [] st.
Proof. intros H1 H2 H3. split; [done|done|done|by apply NoDup_nil|by intros a ?%elem_of_nil|by intros a b t ?%elem_of_nil]. Qed.

Lemma system_other l st s : system l st → pmm_inv s → geo <$> arenas s = geo <$> arenas (mm_pmm st) → (∀ t p, t = kernel_pt_phys ∨ (∃ a, a ∈ l ∧ reachable (pt_virt a) (Tb st) t) → paddr_to_vm_page (mm_pmm st) t = Some p → pages s !! p = pages (mm_pmm st) !! p) →
  system l (mk_mmu s (Tb st) (mm_tlb st)).
Proof.
  intros Hsys Hi Hg Hp. pose proof Hsys as [S1 S2 (k & p0 & pg & K1 & K2 & K3 & K4 & K5 & K6 & K7) S4 S5 S6]. apply (system_keeps l l st _ (λ _, False)); cbn [mm_pmm mm_tables]; [done|done|done|done| | |done|done|intros _; right; by intros []].
  - exists k, p0, pg. cbn [mm_pmm mm_tables]. rewrite (paddr_geo _ _ _ Hg), (Hp kernel_pt_phys p0) by (done || by left). done.
  - intros b Hb. right. split; [done|]. intros t p Ht Ep. split; [done|]. apply (Hp t p); [right; by exists b|done].
Qed.

Lemma step_ok l st o l' st' : system l st → x86_step l st o l' st' → system l' st' ∧ ∀ b, b ∈ l → b ∈ l' → o ≠ Some b → ∀ y, dom y → view (pt_virt b) (Tb st') y = view (pt_virt b) (Tb st) y.
Proof.
  intros Hsys Hstep.
  assert (Hop : ∀ a, a ∈ l → user_aspace a ∧ mmu_ok maps (pt_virt a) st ∧ ∀ c st', mmu_ok maps (pt_virt a) st' → evolves (pt_virt a) (pt_phys a) c st st' → system l st' ∧ ∀ b, b ∈ l → b ∈ l → Some a ≠ Some b → ∀ y, dom y → view (pt_virt b) (Tb st') y = view (pt_virt b) (Tb st) y).
  { intros a Ha. destruct (sy_ok _ _ Hsys a Ha) as (Hu & _ & Hok). split; [done|]. split; [done|]. intros c st1 Hok1 Hev. destruct (system_op l st a c st1 Hsys Ha Hok1 Hev) as [? Hv]. split; [done|]. intros b Hb _ Hne. apply Hv; [done|congruence]. }
  destruct Hstep as [l st base size flags a st' Hf H0 H1 H2 E|l st a va pa n fl ret st' Ha Hr Hpm H0 Hb E|l st a va n ret st' Ha Hr Hst E|l st a va n fl ret st' Ha Hr E|l1 a l2 st st' Honly E|l st s Hi Hg Hp].
  - destruct (init_aspace_ok l st base size flags Hsys Hf H0 H1 H2) as [(st1 & E1 & _)|(a1 & st1 & E1 & _ & _ & Hn & Hs & _ & Hv)]; rewrite E in E1; [done|]. injection E1 as <- <-. split; [done|]. intros b Hb _ _. by apply Hv.
  - destruct (Hop a Ha) as (Hu & Hok & Hgo). destruct (arch_map_ok pw maps a Hpw Hu st va pa n fl Hok Hr Hpm H0 Hb) as [[E1 _]|(ret1 & st1 & E1 & Hok' & Hev & _)]; rewrite E in E1; [done|]. injection E1 as <- <-. by eapply Hgo.
  - destruct (Hop a Ha) as (Hu & Hok & Hgo). destruct (arch_unmap_ok maps a Hu st va n Hok Hr Hst) as [[E1 _]|(st1 & E1 & Hok' & Hev & _)]; rewrite E in E1; [done|]. injection E1 as -> <-. by eapply Hgo.
  - destruct (Hop a Ha) as (Hu & Hok & Hgo). destruct (arch_protect_ok maps a Hu st va n fl Hok Hr) as [[E1 _]|(ret1 & mid & st1 & E1 & Hok' & Hev & _)]; rewrite E in E1; [done|]. injection E1 as <- <-. by eapply Hgo.
  - destruct (destroy_aspace_ok l1 a l2 st st' Hsys Honly E) as (Hs & _ & Hv). split; [done|]. intros b _ Hb _. by apply Hv.
  - split; [by apply system_other|done].
Qed.

Lemma reach_system l st : x86_reach l st → system l st.
Proof. induction 1 as [st H1 H2 H3|l st o l' st' _ IH Hstep]; [by apply system_start|by apply (step_ok l st o)]. Qed.


(** A new address space has no translations, in a page that was free. *)
Theorem x86_init_empty l st base size flags : x86_reach l st → has_flag flags ARCH_ASPACE_FLAG_KERNEL = false → 0 ≤ base → 0 < size → base + size ≤ 2 ^ 47 →
  let r := arch_mmu_init_aspace maps kernel_pt_phys st base size flags in
  (r = Some (ERR_NO_MEMORY, None, st) ∧ starved 1 st) ∨
  ∃ a st', r = Some (NO_ERROR, Some a, st') ∧ x86_reach (a :: l) st' ∧ a ∉ l ∧ aa_base a = base ∧ aa_size a = size ∧ mmu_ok maps (pt_virt a) st' ∧ ∀ y, in_aspace a y → arch_mmu_query a st' y = Some (inl ERR_NOT_FOUND).
Proof.
  intros Hr Hf H0 H1 H2 r. destruct (init_aspace_ok l st base size flags (reach_system l st Hr) Hf H0 H1 H2) as [(st' & E & -> & Hs)|(a & st' & E & Eb & Es & Hn & Hs & Hv & _)]; [by left|]. right. exists a, st'. split; [done|]. split; [by eapply reach_step; [|by eapply step_init]|]. destruct (sy_ok _ _ Hs a ltac:(by left)) as (Hu & _ & Hok). split_and!; try done. intros y Hy. apply (query_none maps a Hu st' y Hok Hy), Hv. by apply (in_dom a).
Qed.

End system.

(** ** Examples *)

Definition x86_arena : pmm_arena := demo_arena PMM_ARENA_FLAG_KMAP 1 1048576 16.
Definition x86_maps : list mmu_initial_mapping := [mk_mapping 1048576 (KERNEL_ASPACE_BASE + 1048576) 65536 false].
Definition x86_boot : pmm := match pmm_add_arena demo_start x86_arena with Some (_, s) => s | None => demo_start end.
Definition x86_pmm : pmm := match pmm_alloc_range x86_boot 1048576 1 None with Some (_, s) => s | None => x86_boot end.
Definition x86_start : mmu := mk_mmu x86_pmm {[1048576 := replicate 512 0]} [].

Definition aspace_at (st : mmu) (base size : Z) : arch_aspace * mmu :=
  match arch_mmu_init_aspace x86_maps 1048576 st base size 0 with Some (_, Some a, st') => (a, st') | _ => (mk_arch_aspace 0 0 0 0 0, st) end.

(** Two address spaces.  A page is mapped in the first one, just above 2 MB. *)
Definition x86_a : arch_aspace := fst (aspace_at x86_start 4096 (2 ^ 46)).
Definition x86_b : arch_aspace := fst (aspace_at (snd (aspace_at x86_start 4096 (2 ^ 46))) 8192 (2 ^ 40)).
Definition x86_two : mmu := snd (aspace_at (snd (aspace_at x86_start 4096 (2 ^ 46))) 8192 (2 ^ 40)).
Definition x86_mapped : mmu := match arch_mmu_map 48 36 x86_maps x86_a x86_two 2097152 20480 1 0 with Some (_, st) => st | None => x86_two end.

Lemma x86_boot_reach : pmm_reach x86_pmm.
Proof.
  apply (pr_range x86_boot 1048576 1 None (1, None)); [|done|done|vm_compute; reflexivity]. apply (pr_add demo_start x86_arena NO_ERROR); [constructor| |vm_compute; reflexivity]. split; cbn [arenas demo_start]; [done|done|by intros b ?%not_elem_of_nil|done|done].
Qed.

Lemma x86_physmap : physmap x86_maps x86_pmm.
Proof.
  assert (E : (λ a, (ar_base a, npages a)) <$> arenas x86_pmm = [(1048576, 16)]) by (vm_compute; reflexivity). intros a i Ha _ Hi. apply (list_elem_of_fmap_2 (λ a, (ar_base a, npages a))) in Ha. rewrite E in Ha. apply list_elem_of_singleton in Ha. injection Ha as E1 E2. rewrite E1, E2 in *. split; [|unfold PAGE_SIZE; lia]. cbn [paddr_to_kvaddr x86_maps map_size map_phys map_virt map_temporary]. assert (i = 0 ∨ i = 1 ∨ i = 2 ∨ i = 3 ∨ i = 4 ∨ i = 5 ∨ i = 6 ∨ i = 7 ∨ i = 8 ∨ i = 9 ∨ i = 10 ∨ i = 11 ∨ i = 12 ∨ i = 13 ∨ i = 14 ∨ i = 15) as Hc by lia. clear -Hc. repeat (destruct Hc as [->|Hc]; [vm_compute; reflexivity|]). subst i. vm_compute. reflexivity.
Qed.

Lemma x86_start_reach : x86_reach 36 x86_maps 1048576 [] x86_start.
Proof.
  apply reach_start; [apply reach_inv, x86_boot_reach|apply x86_physmap|]. exists (replicate 512 0), 65544, (mk_page false VM_PAGE_STATE_ALLOC). split; [vm_compute; reflexivity|]. split; [done|]. split; [done|]. split; [vm_compute; reflexivity|]. split; [vm_compute; reflexivity|]. split; [done|]. by intros a ?%elem_of_nil.
Qed.

Lemma x86_two_reach : x86_reach 36 x86_maps 1048576 [x86_b; x86_a] x86_two.
Proof.
  apply (reach_step 36 x86_maps 1048576 [x86_a] (snd (aspace_at x86_start 4096 (2 ^ 46))) None).
  - apply (reach_step 36 x86_maps 1048576 [] x86_start None); [apply x86_start_reach|]. apply (step_init 36 x86_maps 1048576 [] x86_start 4096 (2 ^ 46) 0); (done || vm_compute; reflexivity).
  - apply (step_init 36 x86_maps 1048576 [x86_a] _ 8192 (2 ^ 40) 0); (done || vm_compute; reflexivity).
Qed.

Lemma x86_a_user : user_aspace x86_a.
Proof. split; vm_compute; done. Qed.

Lemma x86_two_ok : mmu_ok x86_maps (pt_virt x86_a) x86_two.
Proof. apply (sy_ok x86_maps 1048576 _ _ (reach_system 36 x86_maps 1048576 ltac:(done) _ _ x86_two_reach) x86_a). right. by left. Qed.

Lemma x86_range va n : 4096 ≤ va → va mod page_size 0 = 0 → 0 < n → va + n * PAGE_SIZE ≤ 2 ^ 46 → page_range x86_a va n.
Proof. intros H1 H2 H3 H4. assert (E1 : aa_base x86_a = 4096) by (vm_compute; reflexivity). assert (E2 : aa_size x86_a = 2 ^ 46) by (vm_compute; reflexivity). assert (0 < n * PAGE_SIZE) by (unfold PAGE_SIZE; lia). split; [unfold in_aspace; rewrite E1, E2; lia|done|done|rewrite E1, E2; lia]. Qed.

Lemma x86_map_eq : arch_mmu_map 48 36 x86_maps x86_a x86_two 2097152 20480 1 0 = Some (NO_ERROR, x86_mapped).
Proof. vm_compute. reflexivity. Qed.

Lemma x86_map_step : x86_step 36 x86_maps 1048576 [x86_b; x86_a] x86_two (Some x86_a) [x86_b; x86_a] x86_mapped.
Proof. eapply (step_map 36 x86_maps 1048576 _ _ x86_a 2097152 20480 1 0); [right; by left|by apply x86_range|done|done|done|apply x86_map_eq]. Qed.

Lemma x86_mapped_reach : x86_reach 36 x86_maps 1048576 [x86_b; x86_a] x86_mapped.
Proof. eapply reach_step; [apply x86_two_reach|apply x86_map_step]. Qed.

Lemma x86_mapped_ok : mmu_ok x86_maps (pt_virt x86_a) x86_mapped.
Proof. apply (sy_ok x86_maps 1048576 _ _ (reach_system 36 x86_maps 1048576 ltac:(done) _ _ x86_mapped_reach) x86_a). right. by left. Qed.

Lemma x86_map_translates_witness : ∃ st', arch_mmu_map 48 36 x86_maps x86_a x86_two 2097152 20480 1 0 = Some (NO_ERROR, st') ∧ mmu_ok x86_maps (pt_virt x86_a) st' ∧ arch_mmu_query x86_a st' 2097160 = Some (inr (20488, 0)).
Proof.
  destruct (x86_map_translates 36 x86_maps x86_a ltac:(done) x86_a_user x86_two 2097152 20480 1 0 x86_two_ok ltac:(by apply x86_range) ltac:(done) ltac:(done) ltac:(done)) as [[E _]|(ret & st' & E & Hok & _ & [[-> Hv]|(-> & _)])]; rewrite x86_map_eq in E; [done| |done]. exists st'. split; [by rewrite x86_map_eq, E|]. split; [done|]. destruct (Hv 2097160) as [_ ->]; [split; vm_compute; done|]. vm_compute. reflexivity.
Defined.

Lemma x86_mapped_start : start_ok (pt_virt x86_a) 3 (mm_tables x86_mapped) 2097152.
Proof. apply mapped_start. vm_compute. done. Qed.


Lemma x86_protect_flags_witness : ∃ st', arch_mmu_protect 48 x86_maps x86_a x86_mapped 2097152 1 ARCH_MMU_FLAG_PERM_RO = Some (NO_ERROR, st') ∧ arch_mmu_query x86_a st' 2097160 = Some (inr (20488, ARCH_MMU_FLAG_PERM_RO)).
Proof.
  destruct (x86_protect_flags x86_maps x86_a x86_a_user x86_mapped 2097152 1 ARCH_MMU_FLAG_PERM_RO x86_mapped_ok ltac:(by apply x86_range)) as [[E _]|(ret & mid & st' & E & _ & _ & _ & Hv & _ & [[-> ->]|(-> & _)])]; [exfalso; revert E; vm_compute; done| |exfalso; revert E; vm_compute; done]. exists st'. split; [done|]. rewrite (Hv 2097160) by (split; vm_compute; done). vm_compute. reflexivity.
Defined.


Lemma x86_init_empty_witness : ∃ a st', arch_mmu_init_aspace x86_maps 1048576 x86_start 4096 4096 0 = Some (NO_ERROR, Some a, st') ∧ arch_mmu_query a st' 5000 = Some (inl ERR_NOT_FOUND).
Proof.
  destruct (x86_init_empty 36 x86_maps 1048576 ltac:(done) [] x86_start 4096 4096 0 x86_start_reach ltac:(done) ltac:(done) ltac:(done) ltac:(done)) as [[E _]|(a & st' & E & _ & _ & Eb & Es & _ & Hv)]; [exfalso; revert E; vm_compute; done|]. exists a, st'. split; [done|]. apply Hv. unfold in_aspace. rewrite Eb, Es. done.
Defined.

(** ** A page that stays mapped *)

End X86Aspaces.
